(* ===== verification/_CoqProject ===== *)
-Q . S2P
Prelude.v
Config.v
Kernel.v
Klog.v
RawMem.v
Frames.v
Linkage.v
Sched.v
Pipe.v
Buf.v
Inode.v
InodeSpec.v
Dir.v
DirSpec.v
PageTable.v
Vm.v
Fault.v
FaultSpec.v
Mmap.v
SigSend.v
Tty.v
Fd.v
Network.v
NetworkSpec.v
Device.v
Vfs.v
File.v
Process.v
Signal.v
SignalSpec.v
Syscall.v
Trap.v
UserMem.v
LibString.v
LibSys.v
LibStdio.v
LibFormat.v
LibEnv.v
Shell.v
Utils.v
LibStringSpec.v
LibHeapSpec.v
LibStreamSpec.v
LibNumberSpec.v
LibFormatSpec.v
GuestAsm.v
GuestLink.v
GuestTools.v
GuestObjSpec.v
GuestAsmSpec.v
GuestToolsSpec.v
GuestLinkSpec.v
ShellSpec.v
Codegen.v
Cpu.v
AsmLines.v
AsmCode.v
AsmLoad.v
CSem.v
GenLogic.v
CodegenAlloc.v
CodegenTotal.v
InsnRules.v
CodegenRun.v
CodegenSim.v
CodegenStmt.v
CodegenFn.v
CompilerSpec.v
CcHash.v
CcToken.v
CcTokenSpec.v
CcTree.v
CcExpr.v
CcDecl.v
CcInit.v
CcParse.v
CcPreprocess.v
CcLower.v
CcParseSpec.v
CcPreprocessSpec.v
