(* ===== verification/Prelude.v ===== *)
(** * The custom32 system, verified in Rocq: kernel, libc, shell and compiler

    This library models the C code of the custom32 guest operating system under
    [src/src]: the kernel ([v3/kernel]), the C library, the shell and the programs of
    /bin ([v3/userland]), and the toolchain that runs on the guest ([toolchain/cc-c]:
    preprocessor, parser, code generator, assembler, linker), and proves what its parts
    promise.  The code is transcribed function by function: a definition has the name of
    the C function it models and reads line by line like it.

    The parts meet in four places.  User programs enter the kernel by a system call
    ([Trap.take_trap], [Syscall.on_syscall]); a program of the library side sees the
    kernel as the class [Guest] (UserMem.v).  The compiler writes assembly text that the
    assembler reads ([CcLower.compile], [GuestAsm.assemble_source]); its images go to the
    linker ([GuestLink.link_images]); and the executable is run by the processor
    ([Cpu.steps]).

    ** How C is modelled

    A C [int] is a [Z]; the operators [+!], [-!], [*!] and [shl] wrap at 32 bits as the
    ALU does, [Z.quot] and [Z.rem] are its division, [shr] its arithmetic shift.  Plain
    operators are used where a constant of the configuration bounds the operands.
    Operands whose order C leaves open are evaluated from left to right.

    Kernel.  All globals live in one record [kernel] (Kernel.v), with a component record
    per source file and one for the devices; a C array is a total function on [Z] with
    [upd] as the element store; physical memory, the disk and the buffer cache are such
    arrays of bytes.  A C function is a computation of the monad [K]: it returns a value
    and the new state, or stops (panic, halt, an idle machine with no event left, or the
    model's fuel).  [wp m Q s] states that [m] run from [s] returns normally with a result
    and a state that satisfy [Q]; so every theorem of that form is also a termination and
    a no-panic theorem.  Functions that only read the state and loop over a table are pure
    functions of the state.  Local buffers and strings of the kernel are passed by value.
    Calls that close a cycle between source files go through the class [Linkage], which
    Trap.v ties with an instance indexed by the depth of such calls.

    User programs.  A computation of the monad [U] works on the memory of the process, a
    byte per address; a pointer is an address.  What the kernel answers is the class
    [Guest]; the classes [HeapOs], [FdOs] and [ReadOs] state what a theorem relies on of
    [sbrk], of [write] and of [read].

    Assembler and linker.  A C string is the list of its bytes, a growing array a list;
    [die] is a result.  Code generator.  The typed tree is an inductive type, variables
    are in a store; the monad [G] collects the lines that are written.  Front end of the
    compiler.  Tokens, types, nodes, variables, scopes and macros are shared and changed
    through pointers, so each kind of struct has a store (the record [fe]), a pointer is
    an address, and the monad [M] threads the stores; it stops with the messages of the
    compiler, at undefined behaviour of the C code ([CcUndefined]: a null pointer that is
    followed, a division by 0, an access outside), or when the fuel is used up.

    Loops.  A loop with a bound known on entry is [for_]; other loops of the kernel are
    [while_] with fuel computed from the state (blocks of the range for [readi] and
    [writei], blocks of the disk for [balloc], frames for the free list, entries for a
    directory, pending device events for the idle loop, [signal_fuel] for deliveries).
    Loops of user programs have 2^31 rounds, more than any loop over an [int] makes.  The
    code generator recurses with [fuel_for] of a tree, eight calls for a level of it.  The
    tokenizer has a step for every byte and one more.  The theorems show that this fuel
    is enough.  In the parser and the preprocessor [p_fuel] bounds the rounds of a loop
    and [parser_at] the depth of calls: their theorems ask for more than the length of
    the list in question.

    ** Files

    Prelude.v: words, arrays, record update, the kernel's monad and its logic.
    Config.v: the constants of [generated-config.h].

    The kernel ([v3/kernel]):
    - Kernel.v ([kernel.h]): the structs, the state, the monad [K] and its rules.
    - Klog.v ([klog.c], [drivers/console.c]): the log ring holds the last bytes logged.
    - RawMem.v, Frames.v ([memory.c]): memory accesses through the MMU, and the frame
      allocator with its invariant: [alloc_frame_fresh].
    - Linkage.v: the calls between the files that are recursive, as a class.
    - Sched.v ([scheduler.c]): round robin without starvation, exact wake-ups, an idle
      loop that always ends: [schedule_round_robin], [schedule_no_starvation].
    - Pipe.v ([pipe.c]): a pipe is a bounded queue of bytes.
    - Buf.v ([drivers/disk.c], [fs.c]): the buffer cache is coherent with the disk.
    - Inode.v, InodeSpec.v, Dir.v, DirSpec.v ([fs.c]): inodes, the block bitmap and
      [readi] against the contents of a file read off the disk; directories and paths.
    - PageTable.v, Vm.v, Fault.v, FaultSpec.v, Mmap.v ([memory.c], [file.c]): page tables,
      mapped areas, the page cache, demand paging and copy-on-write, user copies, [mmap].
    - SigSend.v, Signal.v, SignalSpec.v ([signal.c]): a handler runs on a frame from which
      sigreturn restores the interrupted program.
    - Tty.v ([drivers/tty.c], [drivers/keyboard.c]): the line discipline.
    - Fd.v, File.v ([file.c]): descriptors, and what they dispatch to.
    - Network.v, NetworkSpec.v ([network.c], [drivers/network.c]): UDP and its sockets.
    - Device.v, Vfs.v ([device.c], [vfs.c], [drivers/power.c]): devices, mounts, the
      pseudo file systems.
    - Process.v ([process.c], [exec.c]), Syscall.v ([syscall.c]), Trap.v ([trap.c],
      [main.c]): processes, the 62 system calls, trap entry, boot and the linked kernel:
      [syscall_convention].

    The C library and the programs ([v3/userland]):
    - UserMem.v, LibString.v, LibSys.v, LibStdio.v, LibFormat.v, LibEnv.v ([libc.c], and
      the start-up code of [cc.ts]), with LibStringSpec.v, LibHeapSpec.v (the heap),
      LibStreamSpec.v (a buffered stream refines a file one appends to), LibNumberSpec.v
      and LibFormatSpec.v ([snprintf] against a reference renderer).
    - Shell.v ([sh.c]), Utils.v (the other programs), ShellSpec.v: how a command line is
      split, and that [wc] counts however its input is cut.

    The assembler and the linker ([toolchain/cc-c]):
    - GuestAsm.v, GuestLink.v ([guestlink.c]), GuestTools.v ([as.c], [ld.c], [main.c]),
      with GuestAsmSpec.v (images are well formed), GuestObjSpec.v (object files),
      GuestLinkSpec.v (every byte at its place, relocated) and GuestToolsSpec.v (as and ld
      together are ld).

    The compiler, back end:
    - Codegen.v ([codegen.c]), Cpu.v ([isa.ts], [vm/custom32/cpu.ts]).
    - CSem.v: a semantics of the typed trees, for words and structured statements.
    - AsmLines.v, AsmCode.v, AsmLoad.v: assembled and linked lines are code in memory.
    - GenLogic.v, InsnRules.v, CodegenRun.v, CodegenSim.v, CodegenStmt.v, CodegenFn.v: the
      simulation; CompilerSpec.v: [compiled_function_correct], through the code
      generator, the assembler, the linker and the processor.
    - CodegenAlloc.v, CodegenTotal.v: register allocation, frames, and that the generator
      always ends.

    The compiler, front end ([toolchain/cc-c/upstream], [ccsupport.c]):
    - CcHash.v ([hashmap.c]): the table refines a finite map, up to a flaw in [put].
    - CcToken.v, CcTokenSpec.v ([tokenize.c], [unicode.c], [strings.c]): the tokenizer
      ends on every text, and its tokens are the text.
    - CcTree.v ([chibicc.h], [type.c]), CcExpr.v, CcDecl.v, CcInit.v, CcParse.v
      ([parse.c]), with CcParseSpec.v: declaration specifiers in any order, struct layout,
      scopes as a stack of maps, the usual arithmetic conversions.
    - CcPreprocess.v ([preprocess.c]), CcPreprocessSpec.v: conditional groups, macro
      expansion and hidesets, [#]; and whole programs from source text to the processor:
      on given inputs ([program_runs]), with examples of what the compiler gets wrong, and
      a function with a loop for every argument ([sum_correct]).
    - CcLower.v ([main.c]): the front end's trees as the code generator reads them.

    ** What the theorems are about

    Functional theorems give the result of an operation on every branch; invariants
    (buffer cache, frames, heap of libc) are kept by every operation that touches the
    structure.  Refinements relate a component to an abstract one: hash table and scopes
    to finite maps, a stream to a file, the compiled function to the semantics of its
    tree, the shell's splitting to a definition on lists.  Round trips: signals, user
    copies, numbers, string literals, object files.  Theorems with hypotheses have a
    witness that applies them to a concrete state (names ending in [_witness]).

    ** What is not modelled, and why

    The TypeScript side (virtual machine, host toolchain, image builder, versions 1 and
    2), tests and vendored test fixtures: of it only the user-mode instructions of the
    processor (Cpu.v), the start-up code and the device registers that the kernel
    touches are here.  Inline assembly (the disk transfer loops, the scan of the buffer
    cache) is modelled by what its loop computes.  The soft-float routines are parameters
    ([SoftFloat], [FoldFloat]), and so are the files that the compiler reads
    ([CcFiles]) and the answers of the kernel to a program ([Guest]).  An allocation of
    the compiler or the linker does not fail; what the memory of freed objects holds, and
    [format] of the messages beyond their text, is left out.  The proof of the code
    generator covers 32-bit values, loops, labels and jumps; 64-bit and floating-point code
    and switch are modelled, not proved, and variable-length arrays and computed goto the
    code itself refuses.  No theorem relates every text to the meaning of its tree: at the
    end of CcPreprocessSpec.v whole programs run instead, one of them for every argument. *)

(** ** Prelude: words, arrays, record update, the state monad and its logic

    The rest of this file is independent of the kernel: 32-bit wrap-around, C arrays
    as total functions on [Z], a record-update notation driven by a type class,
    the error/state monad in which every C function is transcribed, the
    weakest-precondition calculus for it, and the generic lemmas on loops and
    lists that the components share. *)

From stdpp Require Export base numbers list strings sets.
From Stdlib Require Export ZArith Lia.
From Stdlib Require Import FunctionalExtensionality.

#[export] Set Default Proof Using "Type".

Declare Scope c_scope.
Delimit Scope c_scope with C.
#[global] Open Scope Z_scope.

(** ** 32-bit integers

    A C [int] is a [Z] in [-2^31, 2^31).  [i32] is the wrap-around of the
    custom32 ALU; [+!], [-!] and [*!] are the wrapping operators.  Loop counters
    that a constant bounds use the plain operators. *)

Definition i32 (z : Z) : Z := (z + 2 ^ 31) mod 2 ^ 32 - 2 ^ 31.

Notation "a +! b" := (i32 (a + b)) (at level 50, left associativity) : c_scope.
Notation "a -! b" := (i32 (a - b)) (at level 50, left associativity) : c_scope.
Notation "a *! b" := (i32 (a * b)) (at level 40, left associativity) : c_scope.
Notation "a !=? b" := (negb (Z.eqb a b)) (at level 70, no associativity) : c_scope.
Notation "a >=? b" := (Z.leb b a) (at level 70, no associativity, only parsing) : c_scope.
Notation "a >? b" := (Z.ltb b a) (at level 70, no associativity, only parsing) : c_scope.
#[global] Open Scope c_scope.

(** [a << b] and [a >> b] of the C source ([>>] is arithmetic, as SAR is). *)
Definition shl (a b : Z) : Z := i32 (Z.shiftl a b).
Definition shr (a b : Z) : Z := Z.shiftr a b.

(** [~a] and the test [(a & m) != 0]. *)
Definition bnot (a : Z) : Z := Z.lnot a.
Definition has (a m : Z) : bool := Z.land a m !=? 0.

(** C truth values as integers. *)
Definition b2z (b : bool) : Z := if b then 1 else 0.

Definition is_i32 (z : Z) : Prop := - 2 ^ 31 <= z < 2 ^ 31.

Lemma i32_id (z : Z) : is_i32 z -> i32 z = z.
Proof. unfold is_i32, i32. intros H. rewrite Z.mod_small; lia. Qed.

Lemma i32_range (z : Z) : is_i32 (i32 z).
Proof.
  unfold is_i32, i32. pose proof (Z.mod_pos_bound (z + 2 ^ 31) (2 ^ 32)). lia.
Qed.

Lemma has_bit v k : 0 <= k < 31 -> has v (shl 1 k) = Z.testbit v k.
Proof.
  intros Hk. unfold has, shl. rewrite Z.shiftl_1_l.
  assert (H2 : 2 ^ k < 2 ^ 31) by (apply Z.pow_lt_mono_r; lia).
  rewrite i32_id by (unfold is_i32; pose proof (Z.pow_pos_nonneg 2 k); lia).
  destruct (Z.testbit v k) eqn:E.
  - apply negb_true_iff, Z.eqb_neq. intros H0.
    assert (Ht : Z.testbit (Z.land v (2 ^ k)) k = false) by (rewrite H0; apply Z.bits_0).
    rewrite Z.land_spec, E, Z.pow2_bits_true in Ht by lia. done.
  - apply negb_false_iff, Z.eqb_eq. apply Z.bits_inj'. intros j Hj.
    rewrite Z.land_spec, Z.bits_0. destruct (decide (j = k)) as [->|Hne]; [by rewrite E|].
    rewrite (Z.pow2_bits_false k j) by lia. apply andb_false_r.
Qed.

(** A word is one whose bits from 31 up are all its sign. *)
Lemma is_i32_shiftr x : is_i32 x <-> Z.shiftr x 31 = 0 \/ Z.shiftr x 31 = -1.
Proof.
  unfold is_i32. rewrite Z.shiftr_div_pow2 by lia.
  pose proof (Z.div_mod x (2 ^ 31)). pose proof (Z.mod_pos_bound x (2 ^ 31)). lia.
Qed.

Lemma is_i32_land a b : is_i32 a -> is_i32 b -> is_i32 (Z.land a b).
Proof. rewrite !is_i32_shiftr, Z.shiftr_land. intros [-> | ->] [-> | ->]; auto. Qed.

Lemma is_i32_lor a b : is_i32 a -> is_i32 b -> is_i32 (Z.lor a b).
Proof. rewrite !is_i32_shiftr, Z.shiftr_lor. intros [-> | ->] [-> | ->]; auto. Qed.

Lemma is_i32_bnot a : is_i32 a -> is_i32 (bnot a).
Proof. unfold is_i32, bnot, Z.lnot. lia. Qed.

(** The test of bit [k] of a word, the sign bit included. *)
Lemma has_word_bit v k : is_i32 v -> 0 <= k < 32 -> has v (shl 1 k) = Z.testbit v k.
Proof.
  intros Hv Hk. destruct (Z.eq_dec k 31) as [->|]; [|apply has_bit; lia].
  change (shl 1 31) with (Z.lnot (Z.ones 31)). unfold has.
  rewrite <-Z.ldiff_land, Z.ldiff_ones_r by lia.
  replace (Z.testbit v 31) with (Z.testbit (Z.shiftr v 31) 0) by (rewrite Z.shiftr_spec by lia; done).
  by destruct (proj1 (is_i32_shiftr v) Hv) as [-> | ->].
Qed.

(** The bits of a one-bit mask. *)
Lemma word_bit_testbit k j : 0 <= k < 32 -> 0 <= j < 32 -> Z.testbit (shl 1 k) j = (j =? k).
Proof.
  intros Hk Hj.
  assert (H : Forall (fun k => Forall (fun j => Z.testbit (shl 1 k) j = (j =? k)) (seqZ 0 32)) (seqZ 0 32))
    by (apply (bool_decide_unpack _); vm_compute; done).
  rewrite Forall_forall in H. specialize (H k). rewrite Forall_forall in H.
  apply H; apply elem_of_seqZ; lia.
Qed.

(** [|] of a number and bits below it is a sum. *)
Lemma lor_low a b n : 0 <= n -> 0 <= b < 2 ^ n -> Z.lor (a * 2 ^ n) b = a * 2 ^ n + b.
Proof.
  intros Hn Hb. rewrite <-(Z.lxor_lor (a * 2 ^ n) b), Z.add_nocarry_lxor; [done| |].
  all: apply Z.bits_inj'; intros k Hk; rewrite Z.land_spec, Z.bits_0, Z.mul_pow2_bits by lia.
  all: destruct (Z.ltb_spec k n);
    [by rewrite (Z.testbit_neg_r _ (k - n)) by lia|].
  all: rewrite <-(Z.mod_small b (2 ^ n)), Z.mod_pow2_bits_high by lia; apply andb_false_r.
Qed.

(** Numbers closer than the modulus are told apart by it. *)
Lemma mod_inj_range a b n : 0 < n -> a mod n = b mod n -> - n < a - b < n -> a = b.
Proof.
  intros Hn Heq Hd. pose proof (Z.div_mod a n). pose proof (Z.div_mod b n).
  assert (a / n = b / n); [|lia]. nia.
Qed.

(** ** Arrays

    A C array is a total function on [Z]; [upd] is an element store.  Every
    index the code computes is proved or guarded to be in the declared range
    where a theorem depends on it. *)

Definition upd {A} (f : Z -> A) (i : Z) (v : A) : Z -> A :=
  fun j => if i =? j then v else f j.

Lemma upd_same {A} (f : Z -> A) i v : upd f i v i = v.
Proof. unfold upd. by rewrite Z.eqb_refl. Qed.

Lemma upd_ne {A} (f : Z -> A) i j v : i <> j -> upd f i v j = f j.
Proof. unfold upd. intros H. by apply Z.eqb_neq in H as ->. Qed.

Lemma upd_case {A} (f : Z -> A) i v j :
  (i = j /\ upd f i v j = v) \/ (i <> j /\ upd f i v j = f j).
Proof. unfold upd. destruct (Z.eqb_spec i j); auto. Qed.

Lemma upd_upd {A} (f : Z -> A) i u v : upd (upd f i u) i v = upd f i v.
Proof.
  apply functional_extensionality. intros j. unfold upd. by destruct (i =? j).
Qed.

Lemma upd_id {A} (f : Z -> A) i : upd f i (f i) = f.
Proof.
  apply functional_extensionality. intros j. unfold upd. by destruct (Z.eqb_spec i j) as [->|].
Qed.

(** Element [i] of a list, [0] past its end (a NUL-terminated string read). *)
Definition nthz (l : list Z) (i : Z) : Z :=
  if i <? 0 then 0 else nth (Z.to_nat i) l 0.

(** [len] consecutive elements of an array. *)
Definition slice (f : Z -> Z) (at_ : Z) (len : nat) : list Z :=
  (fun k => f (at_ + Z.of_nat k)) <$> seq 0 len.

#[global] Arguments slice : simpl never.

(** Store a list of elements from index [at_] on. *)
Fixpoint blit (f : Z -> Z) (at_ : Z) (l : list Z) : Z -> Z :=
  match l with
  | [] => f
  | x :: l' => blit (upd f at_ x) (at_ + 1) l'
  end.

(** [memset] and [memcpy] on arrays of bytes. *)
Definition fill (f : Z -> Z) (at_ n v : Z) : Z -> Z :=
  fun j => if (at_ <=? j) && (j <? at_ + n) then v else f j.

Definition copy_range (f : Z -> Z) (dst src n : Z) : Z -> Z :=
  fun j => if (dst <=? j) && (j <? dst + n) then f (src + (j - dst)) else f j.

Lemma slice_length f a n : length (slice f a n) = n.
Proof. unfold slice. by rewrite length_fmap, length_seq. Qed.

Lemma slice_lookup f a n (k : nat) :
  (k < n)%nat -> slice f a n !! k = Some (f (a + Z.of_nat k)).
Proof.
  intros H. unfold slice. rewrite list_lookup_fmap.
  rewrite lookup_seq_lt by lia. done.
Qed.

Lemma slice_ext f g a b n :
  (forall k, 0 <= k < Z.of_nat n -> f (a + k) = g (b + k)) ->
  slice f a n = slice g b n.
Proof.
  intros H. apply list_eq. intros i.
  destruct (decide (i < n)%nat) as [Hi|Hi].
  - rewrite !slice_lookup by done. rewrite H by lia. done.
  - rewrite !lookup_ge_None_2; rewrite ?slice_length; [done|lia|lia].
Qed.

Lemma slice_S f a n : slice f a (S n) = f a :: slice f (a + 1) n.
Proof.
  apply list_eq. intros [|i]; simpl.
  - unfold slice. simpl. f_equal. f_equal. lia.
  - change (slice f a (S n) !! S i = slice f (a + 1) n !! i).
    destruct (decide (i < n)%nat) as [Hi|Hi].
    + rewrite !slice_lookup by lia. do 2 f_equal. lia.
    + rewrite !lookup_ge_None_2; rewrite ?slice_length; [done|lia|lia].
Qed.

Lemma slice_app f a n m :
  slice f a (n + m) = slice f a n ++ slice f (a + Z.of_nat n) m.
Proof.
  revert a. induction n as [|n IH]; intros a.
  - cbn [Nat.add Z.of_nat]. by rewrite Z.add_0_r.
  - cbn [Nat.add]. rewrite !slice_S, IH.
    by replace (a + 1 + Z.of_nat n) with (a + Z.of_nat (S n)) by lia.
Qed.

Lemma blit_out f a l j : j < a \/ a + Z.of_nat (length l) <= j -> blit f a l j = f j.
Proof.
  revert f a. induction l as [|x l IH]; simpl; intros f a H; [done|].
  rewrite IH by lia. apply upd_ne. lia.
Qed.

Lemma blit_in f a l (k : nat) x :
  l !! k = Some x -> blit f a l (a + Z.of_nat k) = x.
Proof.
  revert f a k. induction l as [|y l IH]; simpl; intros f a k H; [done|].
  destruct k as [|k]; simpl in H.
  - injection H as ->. rewrite blit_out by lia.
    replace (a + Z.of_nat 0) with a by lia. apply upd_same.
  - replace (a + Z.of_nat (S k)) with (a + 1 + Z.of_nat k) by lia. auto.
Qed.

Lemma slice_blit f a l : slice (blit f a l) a (length l) = l.
Proof.
  apply list_eq. intros i. destruct (l !! i) as [x|] eqn:E.
  - pose proof (lookup_lt_Some _ _ _ E) as Hlt.
    rewrite slice_lookup by done. f_equal. by apply blit_in.
  - apply lookup_ge_None in E. apply lookup_ge_None_2. by rewrite slice_length.
Qed.

(** The longest prefix of elements that satisfy [p], and the rest. *)
Fixpoint span (p : Z -> bool) (s : list Z) : list Z * list Z :=
  match s with
  | [] => ([], [])
  | c :: s' => if p c then let '(a, b) := span p s' in (c :: a, b) else ([], s)
  end.

Lemma span_app p s : s = (span p s).1 ++ (span p s).2.
Proof. induction s as [|c s IH]; cbn; [done|]. destruct (p c); [|done]. destruct (span p s). cbn in *. by rewrite IH at 1. Qed.

(** ** Text

    String literals as byte lists, and the decimal digits of a number, least
    significant first, as the [digits] buffers of the kernel hold them. *)

Fixpoint str (s : string) : list Z :=
  match s with
  | EmptyString => []
  | String a s' => Z.of_N (Ascii.N_of_ascii a) :: str s'
  end.

(** [while (value > 0) { digits[n] = '0' + value % 10; value = value / 10; n++ }]
    into a buffer of [fuel] cells. *)
Fixpoint dec_digits (fuel : nat) (value : Z) : list Z :=
  match fuel with
  | O => []
  | S f => if value >? 0 then (48 + Z.rem value 10) :: dec_digits f (Z.quot value 10) else []
  end.

(** The number a list of decimal digits denotes, most significant first. *)
Definition dec_value (l : list Z) : Z := fold_left (fun v d => v * 10 + (d - 48)) l 0.

Lemma dec_value_snoc l d : dec_value (l ++ [d]) = dec_value l * 10 + (d - 48).
Proof. unfold dec_value. by rewrite fold_left_app. Qed.

Lemma dec_digits_value fuel v :
  0 <= v < 10 ^ Z.of_nat fuel -> dec_value (rev (dec_digits fuel v)) = v.
Proof.
  revert v. induction fuel as [|f IH]; intros v Hv; [simpl in *; unfold dec_value; simpl; lia|].
  cbn [dec_digits]. destruct (Z.ltb_spec 0 v) as [Hp|Hp]; [|unfold dec_value; simpl; lia].
  cbn [rev]. rewrite dec_value_snoc, IH.
  - rewrite Z.quot_div_nonneg, Z.rem_mod_nonneg by lia.
    pose proof (Z.div_mod v 10). lia.
  - rewrite Z.quot_div_nonneg by lia. rewrite Nat2Z.inj_succ, Z.pow_succ_r in Hv by lia.
    split; [apply Z.div_pos; lia|]. apply Z.div_lt_upper_bound; lia.
Qed.

Lemma dec_digits_digits fuel v :
  0 <= v -> Forall (fun d => 48 <= d <= 57) (dec_digits fuel v).
Proof.
  revert v. induction fuel as [|f IH]; intros v Hv; cbn [dec_digits]; [constructor|].
  destruct (Z.ltb_spec 0 v); constructor.
  - pose proof (Z.rem_bound_pos v 10). lia.
  - apply IH. apply Z.quot_pos; lia.
Qed.

Lemma dec_digits_length fuel v : (length (dec_digits fuel v) <= fuel)%nat.
Proof.
  revert v. induction fuel as [|f IH]; intros v; cbn [dec_digits]; [done|].
  destruct (0 <? v); simpl; [|lia]. specialize (IH (Z.quot v 10)). lia.
Qed.

Lemma dec_digits_nonempty fuel v : 0 < v -> dec_digits (S fuel) v <> [].
Proof. intros H. cbn [dec_digits]. by apply Z.ltb_lt in H as ->. Qed.

(** Bytes are unchanged by the truncation of a store to [char]. *)
Definition is_byte (z : Z) : Prop := 0 <= z < 256.

Lemma bytes_mod_id (l : list Z) : Forall is_byte l -> ((fun c => c mod 256) <$> l) = l.
Proof.
  induction 1 as [|x l Hx _ IH]; [done|]. cbn.
  rewrite Z.mod_small by done. by f_equal.
Qed.

(** ** Record update

    [r <| f := v |>] stores [v] in field [f] and [r <| f ::= g |>] maps the
    field.  The setter of a projection is found by instance search; [mk_setter]
    derives it from the projections of the record. *)

Class Setter {R T : Type} (f : R -> T) := setf : (T -> T) -> R -> R.
Arguments setf {R T} f {_} _ _.

Notation "r <| f := v |>" := (setf f (fun _ => v) r)
  (at level 1, f at next level, left associativity, format "r  <| f  :=  v |>").
Notation "r <| f ::= g |>" := (setf f g r)
  (at level 1, f at next level, left associativity, format "r  <| f  ::=  g |>").

(** [eta r] rebuilds [r] from its projections; [mk_setter] replaces one of them. *)
Class Eta (R : Type) := eta : R -> R.

Ltac mk_setter :=
  lazymatch goal with
  | |- @Setter ?R ?T ?p =>
      let g := fresh "g" in let r := fresh "r" in
      unfold Setter; intros g r;
      let e := eval hnf in (eta r) in
      let h := eval pattern (p r) in e in
      lazymatch h with
      | ?k _ => let t := eval cbv beta in (k (g (p r))) in exact t
      end
  end.

(** ** The state monad with abnormal stops

    [Ret] is a normal return.  [Stop] is a machine stop: the kernel panicked,
    the machine halted, it idles forever with no device event left, or the fuel
    of the model ran out (which theorems exclude). *)

Inductive stop := Panic (msg : string) | Halted | Idle | OutOfFuel.

Inductive outcome (S A : Type) :=
| Ret (a : A) (s : S)
| Stop (w : stop) (s : S).
Arguments Ret {S A} a s.
Arguments Stop {S A} w s.

(** [wpm m Q s]: run from [s], [m] returns normally with a result and a final
    state that satisfy [Q]. *)
Definition wpm {S A} (m : S -> outcome S A) (Q : A -> S -> Prop) (s : S) : Prop :=
  match m s with
  | Ret a s' => Q a s'
  | Stop _ _ => False
  end.

Lemma wpm_intro {S A} (m : S -> outcome S A) Q s a s' :
  m s = Ret a s' -> Q a s' -> wpm m Q s.
Proof. unfold wpm. by intros ->. Qed.

Lemma wpm_elim {S A} (m : S -> outcome S A) Q s :
  wpm m Q s -> exists a s', m s = Ret a s' /\ Q a s'.
Proof. unfold wpm. destruct (m s) as [a s'|]; [eauto|done]. Qed.

Lemma wpm_mono {S A} (m : S -> outcome S A) (Q Q' : A -> S -> Prop) s :
  wpm m Q s -> (forall a s', Q a s' -> Q' a s') -> wpm m Q' s.
Proof. unfold wpm. destruct (m s); auto. Qed.

Lemma wpm_and {S A} (m : S -> outcome S A) (Q Q' : A -> S -> Prop) s :
  wpm m Q s -> wpm m Q' s -> wpm m (fun a s' => Q a s' /\ Q' a s') s.
Proof. unfold wpm. destruct (m s); auto. Qed.

(** ** Searching and scanning an index range *)

(** The first index of [lo, lo+n) that satisfies [p]: the scan
    [while (i < n) { if (p) return i; i = i + 1; } return -1;]. *)
Fixpoint find_from (p : Z -> bool) (lo : Z) (n : nat) : option Z :=
  match n with
  | O => None
  | S n' => if p lo then Some lo else find_from p (lo + 1) n'
  end.

Lemma find_from_Some p lo n i :
  find_from p lo n = Some i ->
  lo <= i < lo + Z.of_nat n /\ p i = true /\ (forall j, lo <= j < i -> p j = false).
Proof.
  revert lo. induction n as [|n IH]; simpl; intros lo H; [done|].
  destruct (p lo) eqn:E.
  - injection H as <-. repeat split; [lia|lia|done|intros; lia].
  - apply IH in H as (H1 & H2 & H3). repeat split; [lia|lia|done|].
    intros j Hj. destruct (decide (j = lo)) as [->|]; [done|]. apply H3. lia.
Qed.

Lemma find_from_None p lo n :
  find_from p lo n = None -> forall j, lo <= j < lo + Z.of_nat n -> p j = false.
Proof.
  revert lo. induction n as [|n IH]; simpl; intros lo H j Hj; [lia|].
  destruct (p lo) eqn:E; [done|].
  destruct (decide (j = lo)) as [->|]; [done|]. apply (IH (lo + 1)); [done|lia].
Qed.

Lemma find_from_is_Some p lo n j :
  lo <= j < lo + Z.of_nat n -> p j = true -> is_Some (find_from p lo n).
Proof.
  intros Hj Hp. destruct (find_from p lo n) eqn:E; [eauto|].
  by rewrite (find_from_None _ _ _ E j Hj) in Hp.
Qed.

Lemma find_from_ext p q lo n :
  (forall j, lo <= j < lo + Z.of_nat n -> p j = q j) ->
  find_from p lo n = find_from q lo n.
Proof.
  revert lo. induction n as [|n IH]; simpl; intros lo H; [done|].
  rewrite (H lo) by lia. destruct (q lo); [done|]. apply IH. intros; apply H; lia.
Qed.

(** A scan result as the C return value, with [-1] for "not found". *)
Definition or_neg1 (o : option Z) : Z := from_option id (-1) o.

(** Does some index of the range satisfy [p]: the scan that sets a flag. *)
Definition exists_from (p : Z -> bool) (lo : Z) (n : nat) : bool :=
  match find_from p lo n with Some _ => true | None => false end.

Lemma exists_from_true p lo n :
  exists_from p lo n = true <-> exists j, lo <= j < lo + Z.of_nat n /\ p j = true.
Proof.
  unfold exists_from. split.
  - destruct (find_from p lo n) as [j|] eqn:E; [|done]. intros _.
    apply find_from_Some in E as (? & ? & _). eauto.
  - intros (j & Hj & Hp). by destruct (find_from_is_Some p lo n j Hj Hp) as [? ->].
Qed.

Lemma exists_from_false p lo n :
  exists_from p lo n = false <-> forall j, lo <= j < lo + Z.of_nat n -> p j = false.
Proof.
  split.
  - intros H j Hj. destruct (p j) eqn:E; [|done].
    assert (exists_from p lo n = true) by (apply exists_from_true; eauto). congruence.
  - intros H. destruct (exists_from p lo n) eqn:E; [|done].
    apply exists_from_true in E as (j & Hj & Hp). by rewrite H in Hp.
Qed.

(** Count the indices that satisfy [p]. *)
Fixpoint count_from (p : Z -> bool) (lo : Z) (n : nat) : Z :=
  match n with
  | O => 0
  | S n' => (if p lo then 1 else 0) + count_from p (lo + 1) n'
  end.

Lemma count_from_bounds p lo n : 0 <= count_from p lo n <= Z.of_nat n.
Proof. revert lo. induction n as [|n IH]; simpl; intros lo; [lia|].
  specialize (IH (lo + 1)). destruct (p lo); lia. Qed.

Lemma count_from_ext p q lo n :
  (forall j, lo <= j < lo + Z.of_nat n -> p j = q j) ->
  count_from p lo n = count_from q lo n.
Proof.
  revert lo. induction n as [|n IH]; simpl; intros lo H; [done|].
  rewrite (H lo) by lia. f_equal. apply IH. intros; apply H; lia.
Qed.

(** Changing [p] at one index of the range changes the count by that index. *)
Lemma count_from_change p q lo n i :
  lo <= i < lo + Z.of_nat n ->
  (forall j, lo <= j < lo + Z.of_nat n -> j <> i -> p j = q j) ->
  count_from q lo n = count_from p lo n - b2z (p i) + b2z (q i).
Proof.
  revert lo. induction n as [|n IH]; simpl; intros lo Hi H; [lia|].
  destruct (decide (i = lo)) as [->|Hne].
  - rewrite (count_from_ext q p (lo + 1) n) by (intros; symmetry; apply H; lia).
    unfold b2z. destruct (p lo), (q lo); lia.
  - rewrite (IH (lo + 1)) by (try lia; intros; apply H; lia).
    rewrite (H lo) by lia. lia.
Qed.

(** ** Automation *)

(** Reduce a field read of a record update. *)
Ltac rsimpl_step :=
  match goal with
  | |- context [?p (@setf _ _ ?q ?i ?f ?r)] =>
      first
        [ constr_eq p q; change (p (@setf _ _ q i f r)) with (f (p r))
        | change (p (@setf _ _ q i f r)) with (p r) ]
  end; cbv beta.
Ltac rsimpl := repeat rsimpl_step.

Ltac rsimpl_in_step H :=
  match type of H with
  | context [?p (@setf _ _ ?q ?i ?f ?r)] =>
      first
        [ constr_eq p q; change (p (@setf _ _ q i f r)) with (f (p r)) in H
        | change (p (@setf _ _ q i f r)) with (p r) in H ]
  end; cbv beta in H.
Ltac rsimpl_in H := repeat rsimpl_in_step H.

(** Case analysis on an element read after an element store. *)
Ltac upd_cases :=
  repeat match goal with
  | |- context [upd ?f ?i ?v ?i] => rewrite (upd_same f i v)
  | H : ?i <> ?j |- context [upd ?f ?i ?v ?j] => rewrite (upd_ne f i j v H)
  | |- context [upd ?f ?i ?v ?j] =>
      let E := fresh "E" in let H := fresh "H" in
      destruct (upd_case f i v j) as [[E H]|[E H]]; rewrite H; clear H;
      [first [subst i | subst j | idtac]|]
  end.

(** Boolean guards to propositions. *)
Ltac bool_hyps :=
  repeat match goal with
  | H : _ && _ = true |- _ => apply andb_true_iff in H as [? ?]
  | H : _ || _ = false |- _ => apply orb_false_iff in H as [? ?]
  | H : negb _ = true |- _ => apply negb_true_iff in H
  | H : negb _ = false |- _ => apply negb_false_iff in H
  | H : (_ =? _) = true |- _ => apply Z.eqb_eq in H
  | H : (_ =? _) = false |- _ => apply Z.eqb_neq in H
  | H : (_ <? _) = true |- _ => apply Z.ltb_lt in H
  | H : (_ <? _) = false |- _ => apply Z.ltb_ge in H
  | H : (_ <=? _) = true |- _ => apply Z.leb_le in H
  | H : (_ <=? _) = false |- _ => apply Z.leb_gt in H
  end.
