(* ===== verification/Config.v ===== *)
(** * Config: the constants of [src/v3/generated-config.h]

    The memory layout, port numbers, errno values, syscall numbers and table
    sizes the kernel sources use through their [CFG_] tokens, with the names
    and values of the generated header. *)

From S2P Require Import Prelude.

Definition CFG_AF_INET : Z := 2.
Definition CFG_ARGBUF_LEN : Z := 512.
Definition CFG_BOOT_MAGIC : Z := 1414483778.
Definition CFG_BUF_DATA_LEN : Z := 8192.
Definition CFG_CLOCK_MONOTONIC : Z := 1.
Definition CFG_CLOCK_REALTIME : Z := 0.
Definition CFG_CONSOLE_DATA : Z := 1016.
Definition CFG_DINODE_SIZE : Z := 80.
Definition CFG_DIRSIZ : Z := 14.
Definition CFG_DISK_DATA : Z := 496.
Definition CFG_DISK_POS : Z := 498.
Definition CFG_E2BIG : Z := 7.
Definition CFG_EACCES : Z := 13.
Definition CFG_EADDRINUSE : Z := 98.
Definition CFG_EADDRNOTAVAIL : Z := 99.
Definition CFG_EAFNOSUPPORT : Z := 97.
Definition CFG_EAGAIN : Z := 11.
Definition CFG_EBADF : Z := 9.
Definition CFG_ECHILD : Z := 10.
Definition CFG_EDESTADDRREQ : Z := 89.
Definition CFG_EEXIST : Z := 17.
Definition CFG_EFAULT : Z := 14.
Definition CFG_EFBIG : Z := 27.
Definition CFG_EINTR : Z := 4.
Definition CFG_EINVAL : Z := 22.
Definition CFG_EISDIR : Z := 21.
Definition CFG_ELOOP : Z := 40.
Definition CFG_EMFILE : Z := 24.
Definition CFG_EMLINK : Z := 31.
Definition CFG_EMSGSIZE : Z := 90.
Definition CFG_ENAMETOOLONG : Z := 36.
Definition CFG_ENFILE : Z := 23.
Definition CFG_ENODEV : Z := 19.
Definition CFG_ENOENT : Z := 2.
Definition CFG_ENOEXEC : Z := 8.
Definition CFG_ENOMEM : Z := 12.
Definition CFG_ENOSPC : Z := 28.
Definition CFG_ENOSYS : Z := 38.
Definition CFG_ENOTDIR : Z := 20.
Definition CFG_ENOTEMPTY : Z := 39.
Definition CFG_ENOTSOCK : Z := 88.
Definition CFG_ENOTTY : Z := 25.
Definition CFG_ENTROPY : Z := 1808.
Definition CFG_EOPNOTSUPP : Z := 95.
Definition CFG_EPERM : Z := 1.
Definition CFG_EPIPE : Z := 32.
Definition CFG_EPROTONOSUPPORT : Z := 93.
Definition CFG_EROFS : Z := 30.
Definition CFG_ESPIPE : Z := 29.
Definition CFG_ESRCH : Z := 3.
Definition CFG_EXEC_MAGIC : Z := 892426320.
Definition CFG_F_DUPFD : Z := 0.
Definition CFG_F_GETFD : Z := 1.
Definition CFG_F_GETFL : Z := 3.
Definition CFG_F_SETFD : Z := 2.
Definition CFG_F_SETFL : Z := 4.
Definition CFG_FD_CLOEXEC : Z := 1.
Definition CFG_FLAG_IF : Z := 8.
Definition CFG_FRAME_POOL_BASE : Z := 1048576.
Definition CFG_FRAME_POOL_END : Z := 67108864.
Definition CFG_FRAME_REFS : Z := 921600.
Definition CFG_FS_DEV : Z := 2.
Definition CFG_FS_DISK : Z := 1.
Definition CFG_FS_MAGIC : Z := 270544960.
Definition CFG_FS_PROC : Z := 3.
Definition CFG_FS_SYS : Z := 5.
Definition CFG_FS_TMP : Z := 4.
Definition CFG_FS_VERSION : Z := 3.
Definition CFG_FT_CONS : Z := 1.
Definition CFG_FT_FILE : Z := 3.
Definition CFG_FT_KBD : Z := 2.
Definition CFG_FT_NONE : Z := 0.
Definition CFG_FT_PIPE : Z := 4.
Definition CFG_FT_SOCKET : Z := 5.
Definition CFG_IDT : Z := 851968.
Definition CFG_IDT_ENTRY_SIZE : Z := 8.
Definition CFG_IDT_PRESENT : Z := 1.
Definition CFG_IDT_USER : Z := 2.
Definition CFG_INITPATH_LEN : Z := 64.
Definition CFG_IPB : Z := 6.
Definition CFG_IPPROTO_TCP : Z := 6.
Definition CFG_IPPROTO_UDP : Z := 17.
Definition CFG_KBD_DATA : Z := 96.
Definition CFG_KBD_IRQ : Z := 1.
Definition CFG_KBD_STATUS : Z := 100.
Definition CFG_KBD_VECTOR : Z := 33.
Definition CFG_KERNEL_IDENTITY_PTS : Z := 16.
Definition CFG_KERNEL_PT : Z := 856064.
Definition CFG_KLOG_SIZE : Z := 4096.
Definition CFG_KSTACK_TOP : Z := 1048576.
Definition CFG_MAP_ANONYMOUS : Z := 32.
Definition CFG_MAP_FIXED : Z := 16.
Definition CFG_MAP_PRIVATE : Z := 2.
Definition CFG_MAP_SHARED : Z := 1.
Definition CFG_MAX_PROC : Z := 8.
Definition CFG_MAX_VMAS : Z := 16.
Definition CFG_MAXARG : Z := 16.
Definition CFG_MAXFILE : Z := 16523.
Definition CFG_MODE_USER : Z := 1.
Definition CFG_NBUF : Z := 16.
Definition CFG_NCHARDEV : Z := 10.
Definition CFG_NDIRECT : Z := 11.
Definition CFG_NET_IRQ : Z := 2.
Definition CFG_NET_RX_DATA : Z := 770.
Definition CFG_NET_RX_LEN : Z := 769.
Definition CFG_NET_STATUS : Z := 768.
Definition CFG_NET_TX_DATA : Z := 772.
Definition CFG_NET_TX_LEN : Z := 771.
Definition CFG_NET_VECTOR : Z := 34.
Definition CFG_NFD : Z := 16.
Definition CFG_NFILE : Z := 128.
Definition CFG_NINDIRECT : Z := 128.
Definition CFG_NIRQ : Z := 8.
Definition CFG_NMOUNT : Z := 5.
Definition CFG_NPIPE : Z := 8.
Definition CFG_NSIG : Z := 32.
Definition CFG_NSOCKET : Z := 8.
Definition CFG_NSYS : Z := 62.
Definition CFG_NTMPNODE : Z := 16.
Definition CFG_O_ACCMODE : Z := 3.
Definition CFG_O_APPEND : Z := 4096.
Definition CFG_O_CREATE : Z := 512.
Definition CFG_O_NONBLOCK : Z := 2048.
Definition CFG_O_RDWR : Z := 2.
Definition CFG_O_TRUNC : Z := 1024.
Definition CFG_O_WRONLY : Z := 1.
Definition CFG_PAGE_CACHE_SIZE : Z := 128.
Definition CFG_PAGEFAULT_VECTOR : Z := 14.
Definition CFG_PHYS_FRAMES : Z := 16384.
Definition CFG_PIPESZ : Z := 512.
Definition CFG_POLLERR : Z := 8.
Definition CFG_POLLHUP : Z := 16.
Definition CFG_POLLIN : Z := 1.
Definition CFG_POLLNVAL : Z := 32.
Definition CFG_POLLOUT : Z := 4.
Definition CFG_POWER : Z := 1540.
Definition CFG_POWER_OFF : Z := 8192.
Definition CFG_PROT_EXEC : Z := 4.
Definition CFG_PROT_NONE : Z := 0.
Definition CFG_PROT_READ : Z := 1.
Definition CFG_PROT_WRITE : Z := 2.
Definition CFG_PTE_COW : Z := 512.
Definition CFG_PTE_KERNEL : Z := 3.
Definition CFG_PTE_SHARED : Z := 1024.
Definition CFG_PTE_USER : Z := 7.
Definition CFG_ROOTINO : Z := 1.
Definition CFG_RTC_DATA : Z := 112.
Definition CFG_S_IFCHR : Z := 8192.
Definition CFG_S_IFDIR : Z := 16384.
Definition CFG_S_IFLNK : Z := 40960.
Definition CFG_S_IFMT : Z := 61440.
Definition CFG_S_IFREG : Z := 32768.
Definition CFG_SEEK_CUR : Z := 1.
Definition CFG_SEEK_END : Z := 2.
Definition CFG_SEEK_SET : Z := 0.
Definition CFG_SIG_BLOCK : Z := 0.
Definition CFG_SIG_DFL : Z := 0.
Definition CFG_SIG_IGN : Z := 1.
Definition CFG_SIG_SETMASK : Z := 2.
Definition CFG_SIG_UNBLOCK : Z := 1.
Definition CFG_SIGCHLD : Z := 17.
Definition CFG_SIGCONT : Z := 18.
Definition CFG_SIGHUP : Z := 1.
Definition CFG_SIGINT : Z := 2.
Definition CFG_SIGKILL : Z := 9.
Definition CFG_SIGSEGV : Z := 11.
Definition CFG_SIGSTOP : Z := 19.
Definition CFG_SIGTERM : Z := 15.
Definition CFG_SIGTSTP : Z := 20.
Definition CFG_SIGTTIN : Z := 21.
Definition CFG_SIGTTOU : Z := 22.
Definition CFG_SIGUSR1 : Z := 10.
Definition CFG_SOCK_DGRAM : Z := 2.
Definition CFG_SOCK_STREAM : Z := 1.
Definition CFG_ST_RUNNABLE : Z := 1.
Definition CFG_ST_SLEEPING : Z := 3.
Definition CFG_ST_STOPPED : Z := 4.
Definition CFG_ST_UNUSED : Z := 0.
Definition CFG_ST_ZOMBIE : Z := 2.
Definition CFG_SYS_ACCEPT : Z := 55.
Definition CFG_SYS_BIND : Z := 53.
Definition CFG_SYS_BRK : Z := 26.
Definition CFG_SYS_CHMOD : Z := 39.
Definition CFG_SYS_CHOWN : Z := 40.
Definition CFG_SYS_CLOCK_GETTIME : Z := 33.
Definition CFG_SYS_CLOSE : Z := 8.
Definition CFG_SYS_CONNECT : Z := 56.
Definition CFG_SYS_DUP : Z := 11.
Definition CFG_SYS_EXEC : Z := 5.
Definition CFG_SYS_EXIT : Z := 0.
Definition CFG_SYS_FCNTL : Z := 30.
Definition CFG_SYS_FORK : Z := 4.
Definition CFG_SYS_FSTAT : Z := 37.
Definition CFG_SYS_GETDENTS : Z := 35.
Definition CFG_SYS_GETGID : Z := 50.
Definition CFG_SYS_GETPID : Z := 3.
Definition CFG_SYS_GETPPID : Z := 24.
Definition CFG_SYS_GETTIMEOFDAY : Z := 32.
Definition CFG_SYS_GETUID : Z := 49.
Definition CFG_SYS_IOCTL : Z := 31.
Definition CFG_SYS_KILL : Z := 15.
Definition CFG_SYS_LINK : Z := 44.
Definition CFG_SYS_LISTEN : Z := 54.
Definition CFG_SYS_LSEEK : Z := 48.
Definition CFG_SYS_LSTAT : Z := 38.
Definition CFG_SYS_MKDIR : Z := 41.
Definition CFG_SYS_MMAP : Z := 27.
Definition CFG_SYS_MPROTECT : Z := 29.
Definition CFG_SYS_MUNMAP : Z := 28.
Definition CFG_SYS_NANOSLEEP : Z := 25.
Definition CFG_SYS_OPEN : Z := 7.
Definition CFG_SYS_PIPE : Z := 10.
Definition CFG_SYS_POLL : Z := 51.
Definition CFG_SYS_READ : Z := 9.
Definition CFG_SYS_READLINK : Z := 47.
Definition CFG_SYS_RECV : Z := 58.
Definition CFG_SYS_RECVFROM : Z := 61.
Definition CFG_SYS_RENAME : Z := 45.
Definition CFG_SYS_RMDIR : Z := 42.
Definition CFG_SYS_SEND : Z := 57.
Definition CFG_SYS_SENDTO : Z := 60.
Definition CFG_SYS_SETPGID : Z := 20.
Definition CFG_SYS_SETSID : Z := 21.
Definition CFG_SYS_SETSOCKOPT : Z := 59.
Definition CFG_SYS_SHUTDOWN : Z := 14.
Definition CFG_SYS_SIGACTION : Z := 16.
Definition CFG_SYS_SIGPROCMASK : Z := 17.
Definition CFG_SYS_SIGRETURN : Z := 18.
Definition CFG_SYS_SOCKET : Z := 52.
Definition CFG_SYS_STAT : Z := 36.
Definition CFG_SYS_SYMLINK : Z := 46.
Definition CFG_SYS_TCGETPGRP : Z := 23.
Definition CFG_SYS_TCSETPGRP : Z := 22.
Definition CFG_SYS_TIME : Z := 13.
Definition CFG_SYS_UNAME : Z := 34.
Definition CFG_SYS_UNLINK : Z := 43.
Definition CFG_SYS_UPTIME : Z := 12.
Definition CFG_SYS_WAIT : Z := 6.
Definition CFG_SYS_WAITPID : Z := 19.
Definition CFG_SYS_WRITE : Z := 1.
Definition CFG_SYS_YIELD : Z := 2.
Definition CFG_SYSCALL_INSTR_SIZE : Z := 5.
Definition CFG_SYSCALL_VECTOR : Z := 128.
Definition CFG_T_DIR : Z := 1.
Definition CFG_T_FILE : Z := 2.
Definition CFG_T_SYMLINK : Z := 3.
Definition CFG_TCGETS : Z := 21505.
Definition CFG_TCSETS : Z := 21506.
Definition CFG_TCSETSF : Z := 21508.
Definition CFG_TCSETSW : Z := 21507.
Definition CFG_TICKS_PER_SEC : Z := 100.
Definition CFG_TIMER_IRQ : Z := 0.
Definition CFG_TIMER_PERIOD : Z := 8000.
Definition CFG_TIMER_VECTOR : Z := 32.
Definition CFG_TIOCGPGRP : Z := 21519.
Definition CFG_TIOCGWINSZ : Z := 21523.
Definition CFG_TIOCSPGRP : Z := 21520.
Definition CFG_TIOCSWINSZ : Z := 21524.
Definition CFG_TMP_FILE_SIZE : Z := 4096.
Definition CFG_TRACE_DISK : Z := 2.
Definition CFG_TRACE_FAULT : Z := 4.
Definition CFG_TRACE_SYSCALL : Z := 1.
Definition CFG_TTY_ECHO : Z := 8.
Definition CFG_TTY_ECHOE : Z := 16.
Definition CFG_TTY_ICANON : Z := 2.
Definition CFG_TTY_ISIG : Z := 1.
Definition CFG_TTY_VEOF : Z := 4.
Definition CFG_TTY_VERASE : Z := 2.
Definition CFG_TTY_VINTR : Z := 0.
Definition CFG_TTY_VKILL : Z := 3.
Definition CFG_TTY_VMIN : Z := 6.
Definition CFG_TTY_VSUSP : Z := 10.
Definition CFG_TTY_VTIME : Z := 5.
Definition CFG_USER_BASE : Z := 67108864.
Definition CFG_USER_END : Z := 134217728.
Definition CFG_USER_GUARD_PAGE : Z := 134148096.
Definition CFG_USER_LOAD_BASE : Z := 67108864.
Definition CFG_USER_STACK_PAGE : Z := 134152192.
Definition CFG_USER_STACK_TOP : Z := 134217728.
Definition CFG_WCONTINUED : Z := 4.
Definition CFG_WNOHANG : Z := 1.
Definition CFG_WUNTRACED : Z := 2.

(** [cfg] unfolds the constants, [clia] decides linear goals that mention them. *)
Create HintDb cfg discriminated.
#[export] Hint Unfold CFG_AF_INET CFG_ARGBUF_LEN CFG_BOOT_MAGIC CFG_BUF_DATA_LEN CFG_CLOCK_MONOTONIC CFG_CLOCK_REALTIME CFG_CONSOLE_DATA CFG_DINODE_SIZE : cfg.
#[export] Hint Unfold CFG_DIRSIZ CFG_DISK_DATA CFG_DISK_POS CFG_E2BIG CFG_EACCES CFG_EADDRINUSE CFG_EADDRNOTAVAIL CFG_EAFNOSUPPORT : cfg.
#[export] Hint Unfold CFG_EAGAIN CFG_EBADF CFG_ECHILD CFG_EDESTADDRREQ CFG_EEXIST CFG_EFAULT CFG_EFBIG CFG_EINTR : cfg.
#[export] Hint Unfold CFG_EINVAL CFG_EISDIR CFG_ELOOP CFG_EMFILE CFG_EMLINK CFG_EMSGSIZE CFG_ENAMETOOLONG CFG_ENFILE : cfg.
#[export] Hint Unfold CFG_ENODEV CFG_ENOENT CFG_ENOEXEC CFG_ENOMEM CFG_ENOSPC CFG_ENOSYS CFG_ENOTDIR CFG_ENOTEMPTY : cfg.
#[export] Hint Unfold CFG_ENOTSOCK CFG_ENOTTY CFG_ENTROPY CFG_EOPNOTSUPP CFG_EPERM CFG_EPIPE CFG_EPROTONOSUPPORT CFG_EROFS : cfg.
#[export] Hint Unfold CFG_ESPIPE CFG_ESRCH CFG_EXEC_MAGIC CFG_F_DUPFD CFG_F_GETFD CFG_F_GETFL CFG_F_SETFD CFG_F_SETFL : cfg.
#[export] Hint Unfold CFG_FD_CLOEXEC CFG_FLAG_IF CFG_FRAME_POOL_BASE CFG_FRAME_POOL_END CFG_FRAME_REFS CFG_FS_DEV CFG_FS_DISK CFG_FS_MAGIC : cfg.
#[export] Hint Unfold CFG_FS_PROC CFG_FS_SYS CFG_FS_TMP CFG_FS_VERSION CFG_FT_CONS CFG_FT_FILE CFG_FT_KBD CFG_FT_NONE : cfg.
#[export] Hint Unfold CFG_FT_PIPE CFG_FT_SOCKET CFG_IDT CFG_IDT_ENTRY_SIZE CFG_IDT_PRESENT CFG_IDT_USER CFG_INITPATH_LEN CFG_IPB : cfg.
#[export] Hint Unfold CFG_IPPROTO_TCP CFG_IPPROTO_UDP CFG_KBD_DATA CFG_KBD_IRQ CFG_KBD_STATUS CFG_KBD_VECTOR CFG_KERNEL_IDENTITY_PTS CFG_KERNEL_PT : cfg.
#[export] Hint Unfold CFG_KLOG_SIZE CFG_KSTACK_TOP CFG_MAP_ANONYMOUS CFG_MAP_FIXED CFG_MAP_PRIVATE CFG_MAP_SHARED CFG_MAX_PROC CFG_MAX_VMAS : cfg.
#[export] Hint Unfold CFG_MAXARG CFG_MAXFILE CFG_MODE_USER CFG_NBUF CFG_NCHARDEV CFG_NDIRECT CFG_NET_IRQ CFG_NET_RX_DATA : cfg.
#[export] Hint Unfold CFG_NET_RX_LEN CFG_NET_STATUS CFG_NET_TX_DATA CFG_NET_TX_LEN CFG_NET_VECTOR CFG_NFD CFG_NFILE CFG_NINDIRECT : cfg.
#[export] Hint Unfold CFG_NIRQ CFG_NMOUNT CFG_NPIPE CFG_NSIG CFG_NSOCKET CFG_NSYS CFG_NTMPNODE CFG_O_ACCMODE : cfg.
#[export] Hint Unfold CFG_O_APPEND CFG_O_CREATE CFG_O_NONBLOCK CFG_O_RDWR CFG_O_TRUNC CFG_O_WRONLY CFG_PAGE_CACHE_SIZE CFG_PAGEFAULT_VECTOR : cfg.
#[export] Hint Unfold CFG_PHYS_FRAMES CFG_PIPESZ CFG_POLLERR CFG_POLLHUP CFG_POLLIN CFG_POLLNVAL CFG_POLLOUT CFG_POWER : cfg.
#[export] Hint Unfold CFG_POWER_OFF CFG_PROT_EXEC CFG_PROT_NONE CFG_PROT_READ CFG_PROT_WRITE CFG_PTE_COW CFG_PTE_KERNEL CFG_PTE_SHARED : cfg.
#[export] Hint Unfold CFG_PTE_USER CFG_ROOTINO CFG_RTC_DATA CFG_S_IFCHR CFG_S_IFDIR CFG_S_IFLNK CFG_S_IFMT CFG_S_IFREG : cfg.
#[export] Hint Unfold CFG_SEEK_CUR CFG_SEEK_END CFG_SEEK_SET CFG_SIG_BLOCK CFG_SIG_DFL CFG_SIG_IGN CFG_SIG_SETMASK CFG_SIG_UNBLOCK : cfg.
#[export] Hint Unfold CFG_SIGCHLD CFG_SIGCONT CFG_SIGHUP CFG_SIGINT CFG_SIGKILL CFG_SIGSEGV CFG_SIGSTOP CFG_SIGTERM : cfg.
#[export] Hint Unfold CFG_SIGTSTP CFG_SIGTTIN CFG_SIGTTOU CFG_SIGUSR1 CFG_SOCK_DGRAM CFG_SOCK_STREAM CFG_ST_RUNNABLE CFG_ST_SLEEPING : cfg.
#[export] Hint Unfold CFG_ST_STOPPED CFG_ST_UNUSED CFG_ST_ZOMBIE CFG_SYS_ACCEPT CFG_SYS_BIND CFG_SYS_BRK CFG_SYS_CHMOD CFG_SYS_CHOWN : cfg.
#[export] Hint Unfold CFG_SYS_CLOCK_GETTIME CFG_SYS_CLOSE CFG_SYS_CONNECT CFG_SYS_DUP CFG_SYS_EXEC CFG_SYS_EXIT CFG_SYS_FCNTL CFG_SYS_FORK : cfg.
#[export] Hint Unfold CFG_SYS_FSTAT CFG_SYS_GETDENTS CFG_SYS_GETGID CFG_SYS_GETPID CFG_SYS_GETPPID CFG_SYS_GETTIMEOFDAY CFG_SYS_GETUID CFG_SYS_IOCTL : cfg.
#[export] Hint Unfold CFG_SYS_KILL CFG_SYS_LINK CFG_SYS_LISTEN CFG_SYS_LSEEK CFG_SYS_LSTAT CFG_SYS_MKDIR CFG_SYS_MMAP CFG_SYS_MPROTECT : cfg.
#[export] Hint Unfold CFG_SYS_MUNMAP CFG_SYS_NANOSLEEP CFG_SYS_OPEN CFG_SYS_PIPE CFG_SYS_POLL CFG_SYS_READ CFG_SYS_READLINK CFG_SYS_RECV : cfg.
#[export] Hint Unfold CFG_SYS_RECVFROM CFG_SYS_RENAME CFG_SYS_RMDIR CFG_SYS_SEND CFG_SYS_SENDTO CFG_SYS_SETPGID CFG_SYS_SETSID CFG_SYS_SETSOCKOPT : cfg.
#[export] Hint Unfold CFG_SYS_SHUTDOWN CFG_SYS_SIGACTION CFG_SYS_SIGPROCMASK CFG_SYS_SIGRETURN CFG_SYS_SOCKET CFG_SYS_STAT CFG_SYS_SYMLINK CFG_SYS_TCGETPGRP : cfg.
#[export] Hint Unfold CFG_SYS_TCSETPGRP CFG_SYS_TIME CFG_SYS_UNAME CFG_SYS_UNLINK CFG_SYS_UPTIME CFG_SYS_WAIT CFG_SYS_WAITPID CFG_SYS_WRITE : cfg.
#[export] Hint Unfold CFG_SYS_YIELD CFG_SYSCALL_INSTR_SIZE CFG_SYSCALL_VECTOR CFG_T_DIR CFG_T_FILE CFG_T_SYMLINK CFG_TCGETS CFG_TCSETS : cfg.
#[export] Hint Unfold CFG_TCSETSF CFG_TCSETSW CFG_TICKS_PER_SEC CFG_TIMER_IRQ CFG_TIMER_PERIOD CFG_TIMER_VECTOR CFG_TIOCGPGRP CFG_TIOCGWINSZ : cfg.
#[export] Hint Unfold CFG_TIOCSPGRP CFG_TIOCSWINSZ CFG_TMP_FILE_SIZE CFG_TRACE_DISK CFG_TRACE_FAULT CFG_TRACE_SYSCALL CFG_TTY_ECHO CFG_TTY_ECHOE : cfg.
#[export] Hint Unfold CFG_TTY_ICANON CFG_TTY_ISIG CFG_TTY_VEOF CFG_TTY_VERASE CFG_TTY_VINTR CFG_TTY_VKILL CFG_TTY_VMIN CFG_TTY_VSUSP : cfg.
#[export] Hint Unfold CFG_TTY_VTIME CFG_USER_BASE CFG_USER_END CFG_USER_GUARD_PAGE CFG_USER_LOAD_BASE CFG_USER_STACK_PAGE CFG_USER_STACK_TOP CFG_WCONTINUED : cfg.
#[export] Hint Unfold CFG_WNOHANG CFG_WUNTRACED : cfg.

Ltac cfg := autounfold with cfg in *.
Ltac clia := autounfold with cfg in *; unfold is_i32 in *; lia.
