(* ===== verification/Kernel.v ===== *)
(** * Kernel: the data of [src/v3/kernel/kernel.h] and the kernel monad

    The C structs as records (field names carry a struct prefix, since C field
    names repeat across structs), the function-pointer tables as enumerations of
    the functions the source stores in them, the kernel state with one record of
    globals per source file, and the monad [K] in which the functions of the
    other files are transcribed.  Records ending in [0] are the zeroed (BSS)
    values. *)

From S2P Require Import Prelude Config.

(** Wait channels.  The C code sleeps on object addresses; distinct objects have
    distinct addresses, so a channel is the object: a process slot, the
    [sleep_deadline] field of a slot, a pipe, a socket, [kbd_chan] or
    [poll_chan].  The null channel is the zeroed field. *)
Inductive chan :=
| ChanNull | ChanProc (i : Z) | ChanDeadline (i : Z) | ChanPipe (i : Z)
| ChanSocket (i : Z) | ChanKbd | ChanPoll.

Definition chan_eqb (a b : chan) : bool :=
  match a, b with
  | ChanNull, ChanNull | ChanKbd, ChanKbd | ChanPoll, ChanPoll => true
  | ChanProc i, ChanProc j | ChanDeadline i, ChanDeadline j
  | ChanPipe i, ChanPipe j | ChanSocket i, ChanSocket j => i =? j
  | _, _ => false
  end.

Lemma chan_eqb_spec a b : chan_eqb a b = true <-> a = b.
Proof.
  destruct a, b; simpl; try (split; congruence);
    rewrite Z.eqb_eq; split; congruence.
Qed.

#[export] Instance chan_eq_dec : EqDecision chan.
Proof. intros a b. unfold Decision. decide equality; apply Z.eq_dec. Defined.

(** [struct file_ops *], [struct vnode_ops *], the driver functions stored in
    [struct chardev] and [struct irq_slot]. *)
Inductive file_ops := FopsNull | FopsConsole | FopsKeyboard | FopsVnode | FopsPipe | FopsSocket.
Inductive vnode_ops := VopsNull | VopsDisk | VopsDev | VopsProc | VopsTmp | VopsSys.
Inductive cd_read_fn := CdReadNull | CdConsoleRead | CdNullRead | CdZeroRead | CdRtcRead | CdRandomRead | CdKmsgRead.
Inductive cd_write_fn := CdWriteNull | CdConsoleWrite | CdSinkWrite.
Inductive irq_fn := IrqNull | IrqKeyboardIsr | IrqNetworkDrain.

(** What can happen while the machine waits in [__halt()] with interrupts on:
    bytes are typed, the input is closed, or a frame arrives. *)
Inductive hw_event := EvKeys (bs : list Z) | EvKbdClose | EvFrame (f : list Z).

(** [struct cpu_context]: the saved user registers. *)
Record cpu_context := Build_cpu_context {
  regs : Z -> Z;
  pc : Z; sp : Z; flags : Z; mode : Z }.
#[export] Instance eta_cpu_context : Eta cpu_context := fun r => Build_cpu_context
  (regs r) (pc r) (sp r) (flags r) (mode r) .
Definition cpu_context0 : cpu_context := Build_cpu_context (fun _ => 0) 0 0 0 0 .
#[export] Instance set_regs : Setter regs := ltac:(mk_setter).
#[export] Instance set_pc : Setter pc := ltac:(mk_setter).
#[export] Instance set_sp : Setter sp := ltac:(mk_setter).
#[export] Instance set_flags : Setter flags := ltac:(mk_setter).
#[export] Instance set_mode : Setter mode := ltac:(mk_setter).

(** [struct vm_area]: one mapping of a process; [va_file] is an open-file index or -1. *)
Record vm_area := Build_vm_area {
  va_used : Z;
  va_start : Z;
  va_end : Z;
  va_prot : Z;
  va_flags : Z;
  va_file : Z;
  va_offset : Z }.
#[export] Instance eta_vm_area : Eta vm_area := fun r => Build_vm_area (va_used r)
  (va_start r) (va_end r) (va_prot r) (va_flags r) (va_file r) (va_offset r) .
Definition vm_area0 : vm_area := Build_vm_area 0 0 0 0 0 0 0 .
#[export] Instance set_va_used : Setter va_used := ltac:(mk_setter).
#[export] Instance set_va_start : Setter va_start := ltac:(mk_setter).
#[export] Instance set_va_end : Setter va_end := ltac:(mk_setter).
#[export] Instance set_va_prot : Setter va_prot := ltac:(mk_setter).
#[export] Instance set_va_flags : Setter va_flags := ltac:(mk_setter).
#[export] Instance set_va_file : Setter va_file := ltac:(mk_setter).
#[export] Instance set_va_offset : Setter va_offset := ltac:(mk_setter).

(** [struct vm_space]: page directory, heap bounds and mappings. *)
Record vm_space := Build_vm_space {
  ptbr : Z; brk_start : Z; brk_end : Z;
  areas : Z -> vm_area }.
#[export] Instance eta_vm_space : Eta vm_space := fun r => Build_vm_space (ptbr r)
  (brk_start r) (brk_end r) (areas r) .
Definition vm_space0 : vm_space := Build_vm_space 0 0 0 (fun _ => vm_area0) .
#[export] Instance set_ptbr : Setter ptbr := ltac:(mk_setter).
#[export] Instance set_brk_start : Setter brk_start := ltac:(mk_setter).
#[export] Instance set_brk_end : Setter brk_end := ltac:(mk_setter).
#[export] Instance set_areas : Setter areas := ltac:(mk_setter).

(** [struct page_cache_entry]. *)
Record page_cache_entry := Build_page_cache_entry {
  pce_used : Z;
  pce_file : Z;
  pce_fs_type : Z;
  pce_object : Z;
  pce_offset : Z;
  pce_frame : Z;
  pce_length : Z;
  pce_dirty : Z }.
#[export] Instance eta_page_cache_entry : Eta page_cache_entry := fun r => Build_page_cache_entry
  (pce_used r) (pce_file r) (pce_fs_type r) (pce_object r) (pce_offset r) (pce_frame r)
  (pce_length r) (pce_dirty r) .
Definition page_cache_entry0 : page_cache_entry := Build_page_cache_entry 0 0 0 0 0 0 0
  0 .
#[export] Instance set_pce_used : Setter pce_used := ltac:(mk_setter).
#[export] Instance set_pce_file : Setter pce_file := ltac:(mk_setter).
#[export] Instance set_pce_fs_type : Setter pce_fs_type := ltac:(mk_setter).
#[export] Instance set_pce_object : Setter pce_object := ltac:(mk_setter).
#[export] Instance set_pce_offset : Setter pce_offset := ltac:(mk_setter).
#[export] Instance set_pce_frame : Setter pce_frame := ltac:(mk_setter).
#[export] Instance set_pce_length : Setter pce_length := ltac:(mk_setter).
#[export] Instance set_pce_dirty : Setter pce_dirty := ltac:(mk_setter).

(** [struct inode]: the in-memory copy of inode metadata. *)
Record inode := Build_inode {
  i_inum : Z;
  i_type : Z;
  i_nlink : Z;
  i_mode : Z;
  i_uid : Z;
  i_gid : Z;
  i_size : Z;
  i_atime : Z;
  i_mtime : Z;
  i_ctime : Z }.
#[export] Instance eta_inode : Eta inode := fun r => Build_inode (i_inum r) (i_type r)
  (i_nlink r) (i_mode r) (i_uid r) (i_gid r) (i_size r) (i_atime r) (i_mtime r)
  (i_ctime r) .
Definition inode0 : inode := Build_inode 0 0 0 0 0 0 0 0 0 0 .
#[export] Instance set_i_inum : Setter i_inum := ltac:(mk_setter).
#[export] Instance set_i_type : Setter i_type := ltac:(mk_setter).
#[export] Instance set_i_nlink : Setter i_nlink := ltac:(mk_setter).
#[export] Instance set_i_mode : Setter i_mode := ltac:(mk_setter).
#[export] Instance set_i_uid : Setter i_uid := ltac:(mk_setter).
#[export] Instance set_i_gid : Setter i_gid := ltac:(mk_setter).
#[export] Instance set_i_size : Setter i_size := ltac:(mk_setter).
#[export] Instance set_i_atime : Setter i_atime := ltac:(mk_setter).
#[export] Instance set_i_mtime : Setter i_mtime := ltac:(mk_setter).
#[export] Instance set_i_ctime : Setter i_ctime := ltac:(mk_setter).

(** [struct vnode]. *)
Record vnode := Build_vnode {
  vn_ops : vnode_ops;
  vn_fs_type : Z; vn_object : Z;
  vn_inode : inode }.
#[export] Instance eta_vnode : Eta vnode := fun r => Build_vnode (vn_ops r)
  (vn_fs_type r) (vn_object r) (vn_inode r) .
Definition vnode0 : vnode := Build_vnode VopsNull 0 0 inode0 .
#[export] Instance set_vn_ops : Setter vn_ops := ltac:(mk_setter).
#[export] Instance set_vn_fs_type : Setter vn_fs_type := ltac:(mk_setter).
#[export] Instance set_vn_object : Setter vn_object := ltac:(mk_setter).
#[export] Instance set_vn_inode : Setter vn_inode := ltac:(mk_setter).

(** [struct mount]; the path is the bytes before the NUL. *)
Record mount := Build_mount {
  mnt_used : Z; mnt_fs_type : Z; mnt_root_inum : Z;
  mnt_path : list Z }.
#[export] Instance eta_mount : Eta mount := fun r => Build_mount (mnt_used r)
  (mnt_fs_type r) (mnt_root_inum r) (mnt_path r) .
Definition mount0 : mount := Build_mount 0 0 0 [] .
#[export] Instance set_mnt_used : Setter mnt_used := ltac:(mk_setter).
#[export] Instance set_mnt_fs_type : Setter mnt_fs_type := ltac:(mk_setter).
#[export] Instance set_mnt_root_inum : Setter mnt_root_inum := ltac:(mk_setter).
#[export] Instance set_mnt_path : Setter mnt_path := ltac:(mk_setter).

(** [struct chardev]: a registered character device. *)
Record chardev := Build_chardev {
  cd_used : Z; cd_major : Z; cd_mode : Z;
  cd_name : list Z;
  cd_read : cd_read_fn;
  cd_write : cd_write_fn }.
#[export] Instance eta_chardev : Eta chardev := fun r => Build_chardev (cd_used r)
  (cd_major r) (cd_mode r) (cd_name r) (cd_read r) (cd_write r) .
Definition chardev0 : chardev := Build_chardev 0 0 0 [] CdReadNull CdWriteNull .
#[export] Instance set_cd_used : Setter cd_used := ltac:(mk_setter).
#[export] Instance set_cd_major : Setter cd_major := ltac:(mk_setter).
#[export] Instance set_cd_mode : Setter cd_mode := ltac:(mk_setter).
#[export] Instance set_cd_name : Setter cd_name := ltac:(mk_setter).
#[export] Instance set_cd_read : Setter cd_read := ltac:(mk_setter).
#[export] Instance set_cd_write : Setter cd_write := ltac:(mk_setter).

(** [struct irq_slot]: a driver-owned interrupt line. *)
Record irq_slot := Build_irq_slot {
  irq_used : Z;
  irq_handler : irq_fn;
  irq_owner : list Z }.
#[export] Instance eta_irq_slot : Eta irq_slot := fun r => Build_irq_slot (irq_used r)
  (irq_handler r) (irq_owner r) .
Definition irq_slot0 : irq_slot := Build_irq_slot 0 IrqNull [] .
#[export] Instance set_irq_used : Setter irq_used := ltac:(mk_setter).
#[export] Instance set_irq_handler : Setter irq_handler := ltac:(mk_setter).
#[export] Instance set_irq_owner : Setter irq_owner := ltac:(mk_setter).

(** [struct guest_stat]: the stable userspace stat layout. *)
Record guest_stat := Build_guest_stat {
  st_dev : Z;
  st_ino : Z;
  st_mode : Z;
  st_nlink : Z;
  st_uid : Z;
  st_gid : Z;
  st_rdev : Z;
  st_size : Z;
  st_blksize : Z;
  st_blocks : Z;
  st_atime : Z;
  st_mtime : Z;
  st_ctime : Z }.
#[export] Instance eta_guest_stat : Eta guest_stat := fun r => Build_guest_stat
  (st_dev r) (st_ino r) (st_mode r) (st_nlink r) (st_uid r) (st_gid r) (st_rdev r)
  (st_size r) (st_blksize r) (st_blocks r) (st_atime r) (st_mtime r) (st_ctime r) .
Definition guest_stat0 : guest_stat := Build_guest_stat 0 0 0 0 0 0 0 0 0 0 0 0 0 .
#[export] Instance set_st_dev : Setter st_dev := ltac:(mk_setter).
#[export] Instance set_st_ino : Setter st_ino := ltac:(mk_setter).
#[export] Instance set_st_mode : Setter st_mode := ltac:(mk_setter).
#[export] Instance set_st_nlink : Setter st_nlink := ltac:(mk_setter).
#[export] Instance set_st_uid : Setter st_uid := ltac:(mk_setter).
#[export] Instance set_st_gid : Setter st_gid := ltac:(mk_setter).
#[export] Instance set_st_rdev : Setter st_rdev := ltac:(mk_setter).
#[export] Instance set_st_size : Setter st_size := ltac:(mk_setter).
#[export] Instance set_st_blksize : Setter st_blksize := ltac:(mk_setter).
#[export] Instance set_st_blocks : Setter st_blocks := ltac:(mk_setter).
#[export] Instance set_st_atime : Setter st_atime := ltac:(mk_setter).
#[export] Instance set_st_mtime : Setter st_mtime := ltac:(mk_setter).
#[export] Instance set_st_ctime : Setter st_ctime := ltac:(mk_setter).

(** [struct guest_termios]. *)
Record guest_termios := Build_guest_termios {
  iflag : Z; oflag : Z; cflag : Z; lflag : Z; line : Z;
  cc : Z -> Z }.
#[export] Instance eta_guest_termios : Eta guest_termios := fun r => Build_guest_termios
  (iflag r) (oflag r) (cflag r) (lflag r) (line r) (cc r) .
Definition guest_termios0 : guest_termios := Build_guest_termios 0 0 0 0 0 (fun _ => 0) .
#[export] Instance set_iflag : Setter iflag := ltac:(mk_setter).
#[export] Instance set_oflag : Setter oflag := ltac:(mk_setter).
#[export] Instance set_cflag : Setter cflag := ltac:(mk_setter).
#[export] Instance set_lflag : Setter lflag := ltac:(mk_setter).
#[export] Instance set_line : Setter line := ltac:(mk_setter).
#[export] Instance set_cc : Setter cc := ltac:(mk_setter).

(** [struct guest_winsize]. *)
Record guest_winsize := Build_guest_winsize {
  ws_rows : Z; ws_cols : Z; ws_xpixel : Z; ws_ypixel : Z }.
#[export] Instance eta_guest_winsize : Eta guest_winsize := fun r => Build_guest_winsize
  (ws_rows r) (ws_cols r) (ws_xpixel r) (ws_ypixel r) .
Definition guest_winsize0 : guest_winsize := Build_guest_winsize 0 0 0 0 .
#[export] Instance set_ws_rows : Setter ws_rows := ltac:(mk_setter).
#[export] Instance set_ws_cols : Setter ws_cols := ltac:(mk_setter).
#[export] Instance set_ws_xpixel : Setter ws_xpixel := ltac:(mk_setter).
#[export] Instance set_ws_ypixel : Setter ws_ypixel := ltac:(mk_setter).

(** [struct guest_pollfd]. *)
Record guest_pollfd := Build_guest_pollfd {
  pf_fd : Z; pf_events : Z; pf_revents : Z }.
#[export] Instance eta_guest_pollfd : Eta guest_pollfd := fun r => Build_guest_pollfd
  (pf_fd r) (pf_events r) (pf_revents r) .
Definition guest_pollfd0 : guest_pollfd := Build_guest_pollfd 0 0 0 .
#[export] Instance set_pf_fd : Setter pf_fd := ltac:(mk_setter).
#[export] Instance set_pf_events : Setter pf_events := ltac:(mk_setter).
#[export] Instance set_pf_revents : Setter pf_revents := ltac:(mk_setter).

(** [struct guest_sockaddr_in]. *)
Record guest_sockaddr_in := Build_guest_sockaddr_in {
  sa_family : Z; sa_port : Z; sa_address : Z }.
#[export] Instance eta_guest_sockaddr_in : Eta guest_sockaddr_in := fun r => Build_guest_sockaddr_in
  (sa_family r) (sa_port r) (sa_address r) .
Definition guest_sockaddr_in0 : guest_sockaddr_in := Build_guest_sockaddr_in 0 0 0 .
#[export] Instance set_sa_family : Setter sa_family := ltac:(mk_setter).
#[export] Instance set_sa_port : Setter sa_port := ltac:(mk_setter).
#[export] Instance set_sa_address : Setter sa_address := ltac:(mk_setter).

(** [struct udp_datagram]: one queued datagram. *)
Record udp_datagram := Build_udp_datagram {
  dg_length : Z; dg_source_address : Z; dg_source_port : Z;
  dg_data : Z -> Z }.
#[export] Instance eta_udp_datagram : Eta udp_datagram := fun r => Build_udp_datagram
  (dg_length r) (dg_source_address r) (dg_source_port r) (dg_data r) .
Definition udp_datagram0 : udp_datagram := Build_udp_datagram 0 0 0 (fun _ => 0) .
#[export] Instance set_dg_length : Setter dg_length := ltac:(mk_setter).
#[export] Instance set_dg_source_address : Setter dg_source_address := ltac:(mk_setter).
#[export] Instance set_dg_source_port : Setter dg_source_port := ltac:(mk_setter).
#[export] Instance set_dg_data : Setter dg_data := ltac:(mk_setter).

(** [struct socket]: a datagram socket and its 4-entry receive ring. *)
Record socket := Build_socket {
  so_used : Z;
  so_refs : Z;
  so_type : Z;
  so_protocol : Z;
  so_local_port : Z;
  so_local_address : Z;
  so_remote_address : Z;
  so_remote_port : Z;
  so_status_flags : Z;
  so_queue_head : Z;
  so_queue_count : Z;
  so_queue : Z -> udp_datagram }.
#[export] Instance eta_socket : Eta socket := fun r => Build_socket (so_used r)
  (so_refs r) (so_type r) (so_protocol r) (so_local_port r) (so_local_address r)
  (so_remote_address r) (so_remote_port r) (so_status_flags r) (so_queue_head r)
  (so_queue_count r) (so_queue r) .
Definition socket0 : socket := Build_socket 0 0 0 0 0 0 0 0 0 0 0
  (fun _ => udp_datagram0) .
#[export] Instance set_so_used : Setter so_used := ltac:(mk_setter).
#[export] Instance set_so_refs : Setter so_refs := ltac:(mk_setter).
#[export] Instance set_so_type : Setter so_type := ltac:(mk_setter).
#[export] Instance set_so_protocol : Setter so_protocol := ltac:(mk_setter).
#[export] Instance set_so_local_port : Setter so_local_port := ltac:(mk_setter).
#[export] Instance set_so_local_address : Setter so_local_address := ltac:(mk_setter).
#[export] Instance set_so_remote_address : Setter so_remote_address := ltac:(mk_setter).
#[export] Instance set_so_remote_port : Setter so_remote_port := ltac:(mk_setter).
#[export] Instance set_so_status_flags : Setter so_status_flags := ltac:(mk_setter).
#[export] Instance set_so_queue_head : Setter so_queue_head := ltac:(mk_setter).
#[export] Instance set_so_queue_count : Setter so_queue_count := ltac:(mk_setter).
#[export] Instance set_so_queue : Setter so_queue := ltac:(mk_setter).

(** [struct open_file]: a shared open-file description. *)
Record open_file := Build_open_file {
  of_used : Z; of_refs : Z; of_offset : Z; of_status_flags : Z;
  of_vnode : vnode }.
#[export] Instance eta_open_file : Eta open_file := fun r => Build_open_file (of_used r)
  (of_refs r) (of_offset r) (of_status_flags r) (of_vnode r) .
Definition open_file0 : open_file := Build_open_file 0 0 0 0 vnode0 .
#[export] Instance set_of_used : Setter of_used := ltac:(mk_setter).
#[export] Instance set_of_refs : Setter of_refs := ltac:(mk_setter).
#[export] Instance set_of_offset : Setter of_offset := ltac:(mk_setter).
#[export] Instance set_of_status_flags : Setter of_status_flags := ltac:(mk_setter).
#[export] Instance set_of_vnode : Setter of_vnode := ltac:(mk_setter).

(** [struct file]: one descriptor. *)
Record file := Build_file {
  f_ops : file_ops;
  f_type : Z;
  f_readable : Z;
  f_writable : Z;
  f_pipe_end : Z;
  f_object : Z;
  f_fd_flags : Z;
  f_status_flags : Z }.
#[export] Instance eta_file : Eta file := fun r => Build_file (f_ops r) (f_type r)
  (f_readable r) (f_writable r) (f_pipe_end r) (f_object r) (f_fd_flags r)
  (f_status_flags r) .
Definition file0 : file := Build_file FopsNull 0 0 0 0 0 0 0 .
#[export] Instance set_f_ops : Setter f_ops := ltac:(mk_setter).
#[export] Instance set_f_type : Setter f_type := ltac:(mk_setter).
#[export] Instance set_f_readable : Setter f_readable := ltac:(mk_setter).
#[export] Instance set_f_writable : Setter f_writable := ltac:(mk_setter).
#[export] Instance set_f_pipe_end : Setter f_pipe_end := ltac:(mk_setter).
#[export] Instance set_f_object : Setter f_object := ltac:(mk_setter).
#[export] Instance set_f_fd_flags : Setter f_fd_flags := ltac:(mk_setter).
#[export] Instance set_f_status_flags : Setter f_status_flags := ltac:(mk_setter).

(** [struct proc]: the process control block. *)
Record proc := Build_proc {
  p_state : Z; p_parent : Z; p_exit_code : Z;
  p_chan : chan;
  p_pgid : Z;
  p_sid : Z;
  p_uid : Z;
  p_gid : Z;
  p_pending_signals : Z;
  p_blocked_signals : Z;
  p_signal_handlers : Z -> Z; p_signal_masks : Z -> Z; p_signal_restorers : Z -> Z;
  p_in_signal : Z; p_signal_saved_mask : Z;
  p_signal_saved_ctx : cpu_context;
  p_wait_event : Z;
  p_wait_signal : Z;
  p_sleep_deadline : Z;
  p_sleep_remaining : Z;
  p_poll_deadline : Z;
  p_tty_deadline : Z;
  p_tty_timed_out : Z;
  p_vm : vm_space;
  p_ctx : cpu_context;
  p_files : Z -> file }.
#[export] Instance eta_proc : Eta proc := fun r => Build_proc (p_state r) (p_parent r)
  (p_exit_code r) (p_chan r) (p_pgid r) (p_sid r) (p_uid r) (p_gid r)
  (p_pending_signals r) (p_blocked_signals r) (p_signal_handlers r) (p_signal_masks r)
  (p_signal_restorers r) (p_in_signal r) (p_signal_saved_mask r) (p_signal_saved_ctx r)
  (p_wait_event r) (p_wait_signal r) (p_sleep_deadline r) (p_sleep_remaining r)
  (p_poll_deadline r) (p_tty_deadline r) (p_tty_timed_out r) (p_vm r) (p_ctx r)
  (p_files r) .
Definition proc0 : proc := Build_proc 0 0 0 ChanNull 0 0 0 0 0 0 (fun _ => 0)
  (fun _ => 0) (fun _ => 0) 0 0 cpu_context0 0 0 0 0 0 0 0 vm_space0 cpu_context0
  (fun _ => file0) .
#[export] Instance set_p_state : Setter p_state := ltac:(mk_setter).
#[export] Instance set_p_parent : Setter p_parent := ltac:(mk_setter).
#[export] Instance set_p_exit_code : Setter p_exit_code := ltac:(mk_setter).
#[export] Instance set_p_chan : Setter p_chan := ltac:(mk_setter).
#[export] Instance set_p_pgid : Setter p_pgid := ltac:(mk_setter).
#[export] Instance set_p_sid : Setter p_sid := ltac:(mk_setter).
#[export] Instance set_p_uid : Setter p_uid := ltac:(mk_setter).
#[export] Instance set_p_gid : Setter p_gid := ltac:(mk_setter).
#[export] Instance set_p_pending_signals : Setter p_pending_signals := ltac:(mk_setter).
#[export] Instance set_p_blocked_signals : Setter p_blocked_signals := ltac:(mk_setter).
#[export] Instance set_p_signal_handlers : Setter p_signal_handlers := ltac:(mk_setter).
#[export] Instance set_p_signal_masks : Setter p_signal_masks := ltac:(mk_setter).
#[export] Instance set_p_signal_restorers : Setter p_signal_restorers := ltac:(mk_setter).
#[export] Instance set_p_in_signal : Setter p_in_signal := ltac:(mk_setter).
#[export] Instance set_p_signal_saved_mask : Setter p_signal_saved_mask := ltac:(mk_setter).
#[export] Instance set_p_signal_saved_ctx : Setter p_signal_saved_ctx := ltac:(mk_setter).
#[export] Instance set_p_wait_event : Setter p_wait_event := ltac:(mk_setter).
#[export] Instance set_p_wait_signal : Setter p_wait_signal := ltac:(mk_setter).
#[export] Instance set_p_sleep_deadline : Setter p_sleep_deadline := ltac:(mk_setter).
#[export] Instance set_p_sleep_remaining : Setter p_sleep_remaining := ltac:(mk_setter).
#[export] Instance set_p_poll_deadline : Setter p_poll_deadline := ltac:(mk_setter).
#[export] Instance set_p_tty_deadline : Setter p_tty_deadline := ltac:(mk_setter).
#[export] Instance set_p_tty_timed_out : Setter p_tty_timed_out := ltac:(mk_setter).
#[export] Instance set_p_vm : Setter p_vm := ltac:(mk_setter).
#[export] Instance set_p_ctx : Setter p_ctx := ltac:(mk_setter).
#[export] Instance set_p_files : Setter p_files := ltac:(mk_setter).

(** [struct pipe]: ring buffer and endpoint counts. *)
Record pipe := Build_pipe {
  pi_used : Z;
  pi_count : Z;
  pi_head : Z;
  pi_nread : Z;
  pi_nwrite : Z;
  pi_read_status_flags : Z;
  pi_write_status_flags : Z;
  pi_data : Z -> Z }.
#[export] Instance eta_pipe : Eta pipe := fun r => Build_pipe (pi_used r) (pi_count r)
  (pi_head r) (pi_nread r) (pi_nwrite r) (pi_read_status_flags r)
  (pi_write_status_flags r) (pi_data r) .
Definition pipe0 : pipe := Build_pipe 0 0 0 0 0 0 0 (fun _ => 0) .
#[export] Instance set_pi_used : Setter pi_used := ltac:(mk_setter).
#[export] Instance set_pi_count : Setter pi_count := ltac:(mk_setter).
#[export] Instance set_pi_head : Setter pi_head := ltac:(mk_setter).
#[export] Instance set_pi_nread : Setter pi_nread := ltac:(mk_setter).
#[export] Instance set_pi_nwrite : Setter pi_nwrite := ltac:(mk_setter).
#[export] Instance set_pi_read_status_flags : Setter pi_read_status_flags := ltac:(mk_setter).
#[export] Instance set_pi_write_status_flags : Setter pi_write_status_flags := ltac:(mk_setter).
#[export] Instance set_pi_data : Setter pi_data := ltac:(mk_setter).

(** [struct arp_entry] of network.c. *)
Record arp_entry := Build_arp_entry {
  arp_used : Z; arp_address : Z;
  arp_mac : Z -> Z }.
#[export] Instance eta_arp_entry : Eta arp_entry := fun r => Build_arp_entry
  (arp_used r) (arp_address r) (arp_mac r) .
Definition arp_entry0 : arp_entry := Build_arp_entry 0 0 (fun _ => 0) .
#[export] Instance set_arp_used : Setter arp_used := ltac:(mk_setter).
#[export] Instance set_arp_address : Setter arp_address := ltac:(mk_setter).
#[export] Instance set_arp_mac : Setter arp_mac := ltac:(mk_setter).

(** [struct tmp_node] of vfs.c: a tmpfs file; the name is the bytes before the NUL. *)
Record tmp_node := Build_tmp_node {
  tn_used : Z;
  tn_linked : Z;
  tn_type : Z;
  tn_mode : Z;
  tn_uid : Z;
  tn_gid : Z;
  tn_size : Z;
  tn_name : list Z;
  tn_data : Z -> Z }.
#[export] Instance eta_tmp_node : Eta tmp_node := fun r => Build_tmp_node (tn_used r)
  (tn_linked r) (tn_type r) (tn_mode r) (tn_uid r) (tn_gid r) (tn_size r) (tn_name r)
  (tn_data r) .
Definition tmp_node0 : tmp_node := Build_tmp_node 0 0 0 0 0 0 0 [] (fun _ => 0) .
#[export] Instance set_tn_used : Setter tn_used := ltac:(mk_setter).
#[export] Instance set_tn_linked : Setter tn_linked := ltac:(mk_setter).
#[export] Instance set_tn_type : Setter tn_type := ltac:(mk_setter).
#[export] Instance set_tn_mode : Setter tn_mode := ltac:(mk_setter).
#[export] Instance set_tn_uid : Setter tn_uid := ltac:(mk_setter).
#[export] Instance set_tn_gid : Setter tn_gid := ltac:(mk_setter).
#[export] Instance set_tn_size : Setter tn_size := ltac:(mk_setter).
#[export] Instance set_tn_name : Setter tn_name := ltac:(mk_setter).
#[export] Instance set_tn_data : Setter tn_data := ltac:(mk_setter).

(** The devices and the privileged registers the kernel drives by [__in], [__out] and the other intrinsics: bytes sent to the serial console (newest first), queued keyboard bytes and the end-of-input line, clock, the sequence of words the entropy device will deliver, received and transmitted frames, disk bytes, timer, page-table base, interrupt table, kernel stack, the page-fault registers, and the device events that have not happened yet. *)
Record hw_state := Build_hw_state {
  hw_console : list Z; hw_kbd : list Z;
  hw_kbd_closed : bool;
  hw_rtc : Z; hw_entropy : Z -> Z;
  hw_net_rx : list (list Z); hw_net_tx : list (list Z);
  hw_disk : Z -> Z;
  hw_power_off : bool;
  hw_timer_period : Z; hw_ptbr : Z; hw_idt : Z; hw_ksp : Z;
  hw_paging : bool;
  hw_fault_addr : Z; hw_error : Z;
  hw_events : list hw_event }.
#[export] Instance eta_hw_state : Eta hw_state := fun r => Build_hw_state (hw_console r)
  (hw_kbd r) (hw_kbd_closed r) (hw_rtc r) (hw_entropy r) (hw_net_rx r) (hw_net_tx r)
  (hw_disk r) (hw_power_off r) (hw_timer_period r) (hw_ptbr r) (hw_idt r) (hw_ksp r) (hw_paging r)
  (hw_fault_addr r) (hw_error r) (hw_events r) .
Definition hw_state0 : hw_state := Build_hw_state [] [] false 0 (fun _ => 0) [] [] (fun _ => 0)
  false 0 0 0 0 false 0 0 [] .
#[export] Instance set_hw_console : Setter hw_console := ltac:(mk_setter).
#[export] Instance set_hw_kbd : Setter hw_kbd := ltac:(mk_setter).
#[export] Instance set_hw_kbd_closed : Setter hw_kbd_closed := ltac:(mk_setter).
#[export] Instance set_hw_rtc : Setter hw_rtc := ltac:(mk_setter).
#[export] Instance set_hw_entropy : Setter hw_entropy := ltac:(mk_setter).
#[export] Instance set_hw_net_rx : Setter hw_net_rx := ltac:(mk_setter).
#[export] Instance set_hw_net_tx : Setter hw_net_tx := ltac:(mk_setter).
#[export] Instance set_hw_disk : Setter hw_disk := ltac:(mk_setter).
#[export] Instance set_hw_power_off : Setter hw_power_off := ltac:(mk_setter).
#[export] Instance set_hw_timer_period : Setter hw_timer_period := ltac:(mk_setter).
#[export] Instance set_hw_ptbr : Setter hw_ptbr := ltac:(mk_setter).
#[export] Instance set_hw_idt : Setter hw_idt := ltac:(mk_setter).
#[export] Instance set_hw_ksp : Setter hw_ksp := ltac:(mk_setter).
#[export] Instance set_hw_paging : Setter hw_paging := ltac:(mk_setter).
#[export] Instance set_hw_fault_addr : Setter hw_fault_addr := ltac:(mk_setter).
#[export] Instance set_hw_error : Setter hw_error := ltac:(mk_setter).
#[export] Instance set_hw_events : Setter hw_events := ltac:(mk_setter).

(** Globals of scheduler.c. *)
Record sched_state := Build_sched_state {
  ticks : Z; current : Z }.
#[export] Instance eta_sched_state : Eta sched_state := fun r => Build_sched_state
  (ticks r) (current r) .
Definition sched_state0 : sched_state := Build_sched_state 0 0 .
#[export] Instance set_ticks : Setter ticks := ltac:(mk_setter).
#[export] Instance set_current : Setter current := ltac:(mk_setter).

(** Globals of process.c. *)
Record procs_state := Build_procs_state {
  nproc : Z;
  proc_table : Z -> proc }.
#[export] Instance eta_procs_state : Eta procs_state := fun r => Build_procs_state
  (nproc r) (proc_table r) .
Definition procs_state0 : procs_state := Build_procs_state 0 (fun _ => proc0) .
#[export] Instance set_nproc : Setter nproc := ltac:(mk_setter).
#[export] Instance set_proc_table : Setter proc_table := ltac:(mk_setter).

(** Globals of memory.c and the physical memory, a byte per address. [frame_refs] is the array at CFG_FRAME_REFS, which only memory.c touches. *)
Record mem_state := Build_mem_state {
  phys : Z -> Z;
  free_list : Z; frame_next : Z; kernel_pt : Z;
  frame_refs : Z -> Z;
  page_cache : Z -> page_cache_entry }.
#[export] Instance eta_mem_state : Eta mem_state := fun r => Build_mem_state (phys r)
  (free_list r) (frame_next r) (kernel_pt r) (frame_refs r) (page_cache r) .
Definition mem_state0 : mem_state := Build_mem_state (fun _ => 0) 0 0 0 (fun _ => 0)
  (fun _ => page_cache_entry0) .
#[export] Instance set_phys : Setter phys := ltac:(mk_setter).
#[export] Instance set_free_list : Setter free_list := ltac:(mk_setter).
#[export] Instance set_frame_next : Setter frame_next := ltac:(mk_setter).
#[export] Instance set_kernel_pt : Setter kernel_pt := ltac:(mk_setter).
#[export] Instance set_frame_refs : Setter frame_refs := ltac:(mk_setter).
#[export] Instance set_page_cache : Setter page_cache := ltac:(mk_setter).

(** Globals of fs.c; a pointer into [buf_data] is its byte offset. *)
Record fs_state := Build_fs_state {
  fs_size : Z;
  fs_ninodes : Z;
  fs_inodestart : Z;
  fs_bmapstart : Z;
  fs_mount_flags : Z;
  buf_block : Z -> Z;
  buf_next : Z;
  buf_data : Z -> Z;
  bread_last_blockno : Z;
  bread_last_slot : Z;
  balloc_hint : Z;
  fs_lookup_error : Z;
  fs_redirect_valid : Z;
  fs_redirect_path : list Z }.
#[export] Instance eta_fs_state : Eta fs_state := fun r => Build_fs_state (fs_size r)
  (fs_ninodes r) (fs_inodestart r) (fs_bmapstart r) (fs_mount_flags r) (buf_block r)
  (buf_next r) (buf_data r) (bread_last_blockno r) (bread_last_slot r) (balloc_hint r)
  (fs_lookup_error r) (fs_redirect_valid r) (fs_redirect_path r) .
Definition fs_state0 : fs_state := Build_fs_state 0 0 0 0 0 (fun _ => 0) 0 (fun _ => 0)
  0 0 0 0 0 [] .
#[export] Instance set_fs_size : Setter fs_size := ltac:(mk_setter).
#[export] Instance set_fs_ninodes : Setter fs_ninodes := ltac:(mk_setter).
#[export] Instance set_fs_inodestart : Setter fs_inodestart := ltac:(mk_setter).
#[export] Instance set_fs_bmapstart : Setter fs_bmapstart := ltac:(mk_setter).
#[export] Instance set_fs_mount_flags : Setter fs_mount_flags := ltac:(mk_setter).
#[export] Instance set_buf_block : Setter buf_block := ltac:(mk_setter).
#[export] Instance set_buf_next : Setter buf_next := ltac:(mk_setter).
#[export] Instance set_buf_data : Setter buf_data := ltac:(mk_setter).
#[export] Instance set_bread_last_blockno : Setter bread_last_blockno := ltac:(mk_setter).
#[export] Instance set_bread_last_slot : Setter bread_last_slot := ltac:(mk_setter).
#[export] Instance set_balloc_hint : Setter balloc_hint := ltac:(mk_setter).
#[export] Instance set_fs_lookup_error : Setter fs_lookup_error := ltac:(mk_setter).
#[export] Instance set_fs_redirect_valid : Setter fs_redirect_valid := ltac:(mk_setter).
#[export] Instance set_fs_redirect_path : Setter fs_redirect_path := ltac:(mk_setter).

(** Globals of vfs.c. *)
Record vfs_state := Build_vfs_state {
  mount_table : Z -> mount;
  tmp_nodes : Z -> tmp_node;
  proc_text : Z -> Z }.
#[export] Instance eta_vfs_state : Eta vfs_state := fun r => Build_vfs_state
  (mount_table r) (tmp_nodes r) (proc_text r) .
Definition vfs_state0 : vfs_state := Build_vfs_state (fun _ => mount0)
  (fun _ => tmp_node0) (fun _ => 0) .
#[export] Instance set_mount_table : Setter mount_table := ltac:(mk_setter).
#[export] Instance set_tmp_nodes : Setter tmp_nodes := ltac:(mk_setter).
#[export] Instance set_proc_text : Setter proc_text := ltac:(mk_setter).

(** Globals of file.c. *)
Record files_state := Build_files_state {
  open_file_table : Z -> open_file }.
#[export] Instance eta_files_state : Eta files_state := fun r => Build_files_state
  (open_file_table r) .
Definition files_state0 : files_state := Build_files_state (fun _ => open_file0) .
#[export] Instance set_open_file_table : Setter open_file_table := ltac:(mk_setter).

(** Globals of pipe.c. *)
Record pipes_state := Build_pipes_state {
  pipe_table : Z -> pipe }.
#[export] Instance eta_pipes_state : Eta pipes_state := fun r => Build_pipes_state
  (pipe_table r) .
Definition pipes_state0 : pipes_state := Build_pipes_state (fun _ => pipe0) .
#[export] Instance set_pipe_table : Setter pipe_table := ltac:(mk_setter).

(** Globals of network.c. *)
Record net_state := Build_net_state {
  socket_table : Z -> socket;
  net_tx_frame : Z -> Z;
  net_rx_frame : Z -> Z;
  net_ephemeral_port : Z;
  arp_table : Z -> arp_entry }.
#[export] Instance eta_net_state : Eta net_state := fun r => Build_net_state
  (socket_table r) (net_tx_frame r) (net_rx_frame r) (net_ephemeral_port r) (arp_table r) .
Definition net_state0 : net_state := Build_net_state (fun _ => socket0) (fun _ => 0) (fun _ => 0) 0
  (fun _ => arp_entry0) .
#[export] Instance set_socket_table : Setter socket_table := ltac:(mk_setter).
#[export] Instance set_net_tx_frame : Setter net_tx_frame := ltac:(mk_setter).
#[export] Instance set_net_rx_frame : Setter net_rx_frame := ltac:(mk_setter).
#[export] Instance set_net_ephemeral_port : Setter net_ephemeral_port := ltac:(mk_setter).
#[export] Instance set_arp_table : Setter arp_table := ltac:(mk_setter).

(** Globals of drivers/tty.c. *)
Record tty_state := Build_tty_state {
  tty_foreground_pgid : Z;
  tty_closed : Z;
  tty_eof_pending : Z;
  tty_input_head : Z;
  tty_input_count : Z;
  tty_edit_count : Z;
  tty_input : Z -> Z; tty_input_mark : Z -> Z; tty_edit : Z -> Z;
  tty_termios : guest_termios;
  tty_winsize : guest_winsize }.
#[export] Instance eta_tty_state : Eta tty_state := fun r => Build_tty_state
  (tty_foreground_pgid r) (tty_closed r) (tty_eof_pending r) (tty_input_head r)
  (tty_input_count r) (tty_edit_count r) (tty_input r) (tty_input_mark r) (tty_edit r)
  (tty_termios r) (tty_winsize r) .
Definition tty_state0 : tty_state := Build_tty_state 0 0 0 0 0 0 (fun _ => 0)
  (fun _ => 0) (fun _ => 0) guest_termios0 guest_winsize0 .
#[export] Instance set_tty_foreground_pgid : Setter tty_foreground_pgid := ltac:(mk_setter).
#[export] Instance set_tty_closed : Setter tty_closed := ltac:(mk_setter).
#[export] Instance set_tty_eof_pending : Setter tty_eof_pending := ltac:(mk_setter).
#[export] Instance set_tty_input_head : Setter tty_input_head := ltac:(mk_setter).
#[export] Instance set_tty_input_count : Setter tty_input_count := ltac:(mk_setter).
#[export] Instance set_tty_edit_count : Setter tty_edit_count := ltac:(mk_setter).
#[export] Instance set_tty_input : Setter tty_input := ltac:(mk_setter).
#[export] Instance set_tty_input_mark : Setter tty_input_mark := ltac:(mk_setter).
#[export] Instance set_tty_edit : Setter tty_edit := ltac:(mk_setter).
#[export] Instance set_tty_termios : Setter tty_termios := ltac:(mk_setter).
#[export] Instance set_tty_winsize : Setter tty_winsize := ltac:(mk_setter).

(** Globals of klog.c. *)
Record klog_state := Build_klog_state {
  klog_buf : Z -> Z;
  klog_len : Z; klog_total : Z; trace_flags : Z }.
#[export] Instance eta_klog_state : Eta klog_state := fun r => Build_klog_state
  (klog_buf r) (klog_len r) (klog_total r) (trace_flags r) .
Definition klog_state0 : klog_state := Build_klog_state (fun _ => 0) 0 0 0 .
#[export] Instance set_klog_buf : Setter klog_buf := ltac:(mk_setter).
#[export] Instance set_klog_len : Setter klog_len := ltac:(mk_setter).
#[export] Instance set_klog_total : Setter klog_total := ltac:(mk_setter).
#[export] Instance set_trace_flags : Setter trace_flags := ltac:(mk_setter).

(** Globals of device.c. *)
Record dev_state := Build_dev_state {
  chardev_table : Z -> chardev;
  irq_table : Z -> irq_slot;
  sys_text : Z -> Z }.
#[export] Instance eta_dev_state : Eta dev_state := fun r => Build_dev_state
  (chardev_table r) (irq_table r) (sys_text r) .
Definition dev_state0 : dev_state := Build_dev_state (fun _ => chardev0)
  (fun _ => irq_slot0) (fun _ => 0) .
#[export] Instance set_chardev_table : Setter chardev_table := ltac:(mk_setter).
#[export] Instance set_irq_table : Setter irq_table := ltac:(mk_setter).
#[export] Instance set_sys_text : Setter sys_text := ltac:(mk_setter).

(** Globals of exec.c; [kpath] is the path bytes before the NUL. *)
Record exec_state := Build_exec_state {
  kpath : list Z;
  argbuf : Z -> Z; arg_off : Z -> Z; envbuf : Z -> Z; env_off : Z -> Z;
  g_argc : Z; g_envc : Z; g_exec_image_end : Z }.
#[export] Instance eta_exec_state : Eta exec_state := fun r => Build_exec_state
  (kpath r) (argbuf r) (arg_off r) (envbuf r) (env_off r) (g_argc r) (g_envc r)
  (g_exec_image_end r) .
Definition exec_state0 : exec_state := Build_exec_state [] (fun _ => 0) (fun _ => 0)
  (fun _ => 0) (fun _ => 0) 0 0 0 .
#[export] Instance set_kpath : Setter kpath := ltac:(mk_setter).
#[export] Instance set_argbuf : Setter argbuf := ltac:(mk_setter).
#[export] Instance set_arg_off : Setter arg_off := ltac:(mk_setter).
#[export] Instance set_envbuf : Setter envbuf := ltac:(mk_setter).
#[export] Instance set_env_off : Setter env_off := ltac:(mk_setter).
#[export] Instance set_g_argc : Setter g_argc := ltac:(mk_setter).
#[export] Instance set_g_envc : Setter g_envc := ltac:(mk_setter).
#[export] Instance set_g_exec_image_end : Setter g_exec_image_end := ltac:(mk_setter).

(** Globals of syscall.c that handlers set. *)
Record sys_state := Build_sys_state {
  g_noret : Z; g_pending_free : Z }.
#[export] Instance eta_sys_state : Eta sys_state := fun r => Build_sys_state (g_noret r)
  (g_pending_free r) .
Definition sys_state0 : sys_state := Build_sys_state 0 0 .
#[export] Instance set_g_noret : Setter g_noret := ltac:(mk_setter).
#[export] Instance set_g_pending_free : Setter g_pending_free := ltac:(mk_setter).

(** Trap-frame scratch of trap.c; [sctx_r i] is sctx_r0..sctx_r7. *)
Record trap_state := Build_trap_state {
  sctx_r : Z -> Z;
  sctx_pc : Z; sctx_sp : Z; sctx_flags : Z; sctx_mode : Z; page_fault_addr : Z }.
#[export] Instance eta_trap_state : Eta trap_state := fun r => Build_trap_state
  (sctx_r r) (sctx_pc r) (sctx_sp r) (sctx_flags r) (sctx_mode r) (page_fault_addr r) .
Definition trap_state0 : trap_state := Build_trap_state (fun _ => 0) 0 0 0 0 0 .
#[export] Instance set_sctx_r : Setter sctx_r := ltac:(mk_setter).
#[export] Instance set_sctx_pc : Setter sctx_pc := ltac:(mk_setter).
#[export] Instance set_sctx_sp : Setter sctx_sp := ltac:(mk_setter).
#[export] Instance set_sctx_flags : Setter sctx_flags := ltac:(mk_setter).
#[export] Instance set_sctx_mode : Setter sctx_mode := ltac:(mk_setter).
#[export] Instance set_page_fault_addr : Setter page_fault_addr := ltac:(mk_setter).

(** The whole machine state: one component record per source file, plus the hardware. *)
Record kernel := Build_kernel {
  k_hw : hw_state;
  k_sched : sched_state;
  k_procs : procs_state;
  k_mem : mem_state;
  k_fs : fs_state;
  k_vfs : vfs_state;
  k_files : files_state;
  k_pipes : pipes_state;
  k_net : net_state;
  k_tty : tty_state;
  k_klog : klog_state;
  k_dev : dev_state;
  k_exec : exec_state;
  k_sys : sys_state;
  k_trap : trap_state }.
#[export] Instance eta_kernel : Eta kernel := fun r => Build_kernel (k_hw r) (k_sched r)
  (k_procs r) (k_mem r) (k_fs r) (k_vfs r) (k_files r) (k_pipes r) (k_net r) (k_tty r)
  (k_klog r) (k_dev r) (k_exec r) (k_sys r) (k_trap r) .
Definition kernel0 : kernel := Build_kernel hw_state0 sched_state0 procs_state0
  mem_state0 fs_state0 vfs_state0 files_state0 pipes_state0 net_state0 tty_state0
  klog_state0 dev_state0 exec_state0 sys_state0 trap_state0 .
#[export] Instance set_k_hw : Setter k_hw := ltac:(mk_setter).
#[export] Instance set_k_sched : Setter k_sched := ltac:(mk_setter).
#[export] Instance set_k_procs : Setter k_procs := ltac:(mk_setter).
#[export] Instance set_k_mem : Setter k_mem := ltac:(mk_setter).
#[export] Instance set_k_fs : Setter k_fs := ltac:(mk_setter).
#[export] Instance set_k_vfs : Setter k_vfs := ltac:(mk_setter).
#[export] Instance set_k_files : Setter k_files := ltac:(mk_setter).
#[export] Instance set_k_pipes : Setter k_pipes := ltac:(mk_setter).
#[export] Instance set_k_net : Setter k_net := ltac:(mk_setter).
#[export] Instance set_k_tty : Setter k_tty := ltac:(mk_setter).
#[export] Instance set_k_klog : Setter k_klog := ltac:(mk_setter).
#[export] Instance set_k_dev : Setter k_dev := ltac:(mk_setter).
#[export] Instance set_k_exec : Setter k_exec := ltac:(mk_setter).
#[export] Instance set_k_sys : Setter k_sys := ltac:(mk_setter).
#[export] Instance set_k_trap : Setter k_trap := ltac:(mk_setter).
(** ** The kernel monad *)

Definition K (A : Type) : Type := kernel -> outcome kernel A.

#[export] Instance K_ret : MRet K := fun A a s => Ret a s.
#[export] Instance K_bind : MBind K := fun A B k m s =>
  match m s with
  | Ret a s' => k a s'
  | Stop w s' => Stop w s'
  end.

Definition kstop {A} (w : stop) : K A := fun s => Stop w s.

(** Read and modify the state. *)
Definition gets {A} (f : kernel -> A) : K A := fun s => Ret (f s) s.
Definition modify (f : kernel -> kernel) : K unit := fun s => Ret tt (f s).

(** [rd c f] reads global [f] of component [c]; [wr c f v] assigns it.
    [rda]/[wra] read and assign field [fld] of element [i] of an array global,
    [wri] assigns a whole element. *)
Definition rd {R T} (c : kernel -> R) (f : R -> T) : K T := gets (fun s => f (c s)).
Definition wr {R T} (c : kernel -> R) `{!Setter c} (f : R -> T) `{!Setter f} (v : T) : K unit :=
  modify (fun s => s <| c ::= fun r => r <| f := v |> |>).
Definition rda {R E T} (c : kernel -> R) (arr : R -> Z -> E) (i : Z) (fld : E -> T) : K T :=
  gets (fun s => fld (arr (c s) i)).
Definition wri {R E} (c : kernel -> R) `{!Setter c} (arr : R -> Z -> E) `{!Setter arr}
    (i : Z) (v : E) : K unit :=
  modify (fun s => s <| c ::= fun r => r <| arr ::= fun t => upd t i v |> |>).
Definition wra {R E T} (c : kernel -> R) `{!Setter c} (arr : R -> Z -> E) `{!Setter arr}
    (i : Z) (fld : E -> T) `{!Setter fld} (v : T) : K unit :=
  modify (fun s => s <| c ::= fun r => r <| arr ::= fun t => upd t i ((t i) <| fld := v |>) |> |>).

(** [proc_table[i].fld]. *)
Definition proc_at (s : kernel) (i : Z) : proc := proc_table (k_procs s) i.
Definition rp {T} (i : Z) (fld : proc -> T) : K T := gets (fun s => fld (proc_at s i)).
(** Update of slot [i] of the process table. *)
Definition slot_upd (i : Z) (g : proc -> proc) (s : kernel) : kernel :=
  s <| k_procs ::= fun r => r <| proc_table ::= fun t => upd t i (g (t i)) |> |>.
Definition mp_ (i : Z) (g : proc -> proc) : K unit := modify (slot_upd i g).
Definition wp_ {T} (i : Z) (fld : proc -> T) `{!Setter fld} (v : T) : K unit :=
  mp_ i (fun p => p <| fld := v |>).
(** [proc_table[i].ctx.pc] and [proc_table[i].ctx.regs[k]]. *)
Definition set_reg (k v : Z) (c : cpu_context) : cpu_context :=
  c <| regs ::= fun r => upd r k v |>.
Definition wreg (i k v : Z) : K unit := mp_ i (fun p => p <| p_ctx ::= set_reg k v |>).
Definition add_pc (i d : Z) : K unit :=
  mp_ i (fun p => p <| p_ctx ::= fun c => c <| pc ::= fun x => x +! d |> |>).

Definition when (b : bool) (m : K unit) : K unit := if b then m else mret tt.

(** [for (i = lo; i < lo + n; i++) body], and the same loop with an early
    [return] out of the enclosing function. *)
Fixpoint for_ (lo : Z) (n : nat) (body : Z -> K unit) : K unit :=
  match n with
  | O => mret tt
  | S n' => body lo ;; for_ (lo + 1) n' body
  end.

Fixpoint for_ret {A} (lo : Z) (n : nat) (body : Z -> K (option A)) : K (option A) :=
  match n with
  | O => mret None
  | S n' => r ← body lo ;
            match r with
            | Some a => mret (Some a)
            | None => for_ret (lo + 1) n' body
            end
  end.

(** [for_ret] followed by the code after the loop. *)
Definition or_else {A} (m : K (option A)) (k : K A) : K A :=
  r ← m ; match r with Some a => mret a | None => k end.

(** A loop over a list (bytes of a buffer), and a general [while] with fuel. *)
Fixpoint for_list {B} (l : list B) (body : B -> K unit) : K unit :=
  match l with
  | [] => mret tt
  | x :: l' => body x ;; for_list l' body
  end.

Fixpoint while_ {A B} (fuel : nat) (step : A -> K (A + B)) (a : A) : K B :=
  match fuel with
  | O => kstop OutOfFuel
  | S n => r ← step a ; match r with inl a' => while_ n step a' | inr a' => mret a' end
  end.

(** ** Running a computation *)

Lemma run_bind {A B} (m : K A) (k : A -> K B) s a s' : m s = Ret a s' -> mbind k m s = k a s'.
Proof. unfold mbind, K_bind. by intros ->. Qed.

Lemma run_bind_stop {A B} (m : K A) (k : A -> K B) s w s' :
  m s = Stop w s' -> mbind k m s = Stop w s'.
Proof. unfold mbind, K_bind. by intros ->. Qed.

Lemma bind_assoc {A B C} (m : K A) (k : A -> K B) (k' : B -> K C) s :
  mbind k' (mbind k m) s = mbind (fun a => mbind k' (k a)) m s.
Proof. unfold mbind, K_bind. by destruct (m s). Qed.

Lemma while_S {A B} n (step : A -> K (A + B)) a s :
  while_ (S n) step a s =
  match step a s with
  | Ret (inl a') s' => while_ n step a' s'
  | Ret (inr a') s' => Ret a' s'
  | Stop w s' => Stop w s'
  end.
Proof. cbn [while_]. unfold mbind, K_bind. by destruct (step a s) as [[]|]. Qed.

(** ** Weakest preconditions for [K] *)

Definition wp {A} (m : K A) (Q : A -> kernel -> Prop) (s : kernel) : Prop := wpm m Q s.

Section wp_rules.
Context {A B : Type}.

Lemma wp_ret (a : A) Q s : wp (mret a) Q s <-> Q a s.
Proof. done. Qed.

Lemma wp_bind (m : K B) (k : B -> K A) Q s :
  wp (mbind k m) Q s <-> wp m (fun b s' => wp (k b) Q s') s.
Proof. unfold wp, wpm, mbind, K_bind. destruct (m s); done. Qed.

Lemma wp_mono (m : K A) (Q Q' : A -> kernel -> Prop) s :
  wp m Q s -> (forall a s', Q a s' -> Q' a s') -> wp m Q' s.
Proof. apply wpm_mono. Qed.

Lemma wp_gets (f : kernel -> A) Q s : wp (gets f) Q s <-> Q (f s) s.
Proof. done. Qed.
End wp_rules.

Lemma wp_modify f (Q : unit -> kernel -> Prop) s : wp (modify f) Q s <-> Q tt (f s).
Proof. done. Qed.

(** One round of a general loop. *)
Lemma wp_while_S {A B} n (step : A -> K (A + B)) a (Q : B -> kernel -> Prop) s :
  wp (step a) (fun r s' => match r with inl a' => wp (while_ n step a') Q s' | inr b => Q b s' end) s ->
  wp (while_ (S n) step a) Q s.
Proof.
  intros H. cbn [while_]. apply wp_bind. eapply wp_mono; [exact H|]. by intros [a'|b] s' Hr.
Qed.

(** Successive updates of one slot are one update. *)
Lemma slot_upd_slot_upd i f g s : slot_upd i g (slot_upd i f s) = slot_upd i (fun p => g (f p)) s.
Proof.
  unfold slot_upd, setf, set_k_procs, set_proc_table. cbn. by rewrite upd_same, upd_upd.
Qed.

Lemma proc_at_slot_upd i g s : proc_at (slot_upd i g s) i = g (proc_at s i).
Proof. apply upd_same. Qed.

Lemma proc_at_slot_upd_ne i j g s : i <> j -> proc_at (slot_upd i g s) j = proc_at s j.
Proof. apply upd_ne. Qed.

(** Only the value stored in the slot counts. *)
Lemma slot_upd_ext i f g s : f (proc_at s i) = g (proc_at s i) -> slot_upd i f s = slot_upd i g s.
Proof. unfold slot_upd, setf, set_k_procs, set_proc_table, proc_at. by intros ->. Qed.

(** Invariant rules for the bounded loops. *)
Lemma wp_for (I : Z -> kernel -> Prop) body n lo (Q : unit -> kernel -> Prop) s :
  I lo s ->
  (forall i s', lo <= i < lo + Z.of_nat n -> I i s' -> wp (body i) (fun _ => I (i + 1)) s') ->
  (forall s', I (lo + Z.of_nat n) s' -> Q tt s') ->
  wp (for_ lo n body) Q s.
Proof.
  revert lo s. induction n as [|n IH]; intros lo s HI Hb HQ.
  - apply wp_ret, HQ. by replace (lo + Z.of_nat 0) with lo by lia.
  - cbn [for_]. apply wp_bind. eapply wp_mono; [apply Hb; [lia|done]|].
    intros ? s' HI'. apply IH; [done| |].
    + intros i s'' Hi. apply Hb. lia.
    + intros s'' H. apply HQ. by replace (lo + Z.of_nat (S n)) with (lo + 1 + Z.of_nat n) by lia.
Qed.

Lemma wp_for_list {B} (I : list B -> kernel -> Prop) body (l : list B) (Q : unit -> kernel -> Prop) s :
  I l s ->
  (forall x l' s', I (x :: l') s' -> wp (body x) (fun _ => I l') s') ->
  (forall s', I [] s' -> Q tt s') ->
  wp (for_list l body) Q s.
Proof.
  revert s. induction l as [|x l IH]; intros s HI Hb HQ; cbn [for_list].
  - apply wp_ret, HQ, HI.
  - apply wp_bind. eapply wp_mono; [by apply Hb|]. intros ? s' HI'. by apply IH.
Qed.

(** [wp_step] performs one step of symbolic execution; [wp_auto] all the steps
    that need no choice. *)
Create HintDb wp discriminated.

Ltac wp_step :=
  lazymatch goal with
  | |- wp (mbind _ _) _ _ => apply wp_bind
  | |- wp (mret _) _ _ => apply wp_ret
  | |- wp (gets _) _ _ => apply wp_gets
  | |- wp (modify _) _ _ => apply wp_modify
  | |- wp (rd _ _) _ _ => apply wp_gets
  | |- wp (rda _ _ _ _) _ _ => apply wp_gets
  | |- wp (rp _ _) _ _ => apply wp_gets
  | |- wp (wr _ _ _) _ _ => apply wp_modify
  | |- wp (wri _ _ _ _) _ _ => apply wp_modify
  | |- wp (wra _ _ _ _ _) _ _ => apply wp_modify
  | |- wp (wp_ _ _ _) _ _ => apply wp_modify
  | |- wp (mp_ _ _) _ _ => apply wp_modify
  | |- wp (wreg _ _ _) _ _ => apply wp_modify
  | |- wp (add_pc _ _) _ _ => apply wp_modify
  | |- wp (when true _) _ _ => change (when true ?m) with m
  | |- wp (when false _) _ _ => apply wp_ret
  end; cbv beta.
Ltac wp_auto := repeat wp_step.

(** Case on the condition of the statement about to run. *)
Ltac wp_case E :=
  lazymatch goal with
  | |- wp (if ?b then _ else _) _ _ => destruct b eqn:E
  | |- wp (when ?b _) _ _ => unfold when; destruct b eqn:E
  end.

(** Merge the slot updates of the state in the goal. *)
Ltac slot_merge := rewrite ?slot_upd_slot_upd; cbv beta.

(** Simplify the state expressions of the goal. *)
Ltac ksimpl := unfold slot_upd, proc_at; rsimpl.
