(* ===== verification/Klog.v ===== *)
(** * Klog: the kernel log ([klog.c]), the serial console and [panic]
    ([drivers/console.c])

    The log is a ring of CFG_KLOG_SIZE bytes mirrored to the serial console.
    [klog_inv] relates it to the list of all bytes ever logged; the theorems
    show that each operation appends to that list.  [klog_read] is in
    [Device.v], after the memory accessors it uses. *)

From S2P Require Import Prelude Config Kernel.

(** ** Serial console *)

Definition serial_putc (ch : Z) : K unit :=
  modify (fun s => s <| k_hw ::= fun h => h <| hw_console ::= cons (ch mod 256) |> |>).

Definition serial_write (s : list Z) : K unit := for_list s serial_putc.

(** ** The log *)

Definition klog_putc (c : Z) : K unit :=
  total ← rd k_klog klog_total ;
  let slot := Z.rem total CFG_KLOG_SIZE in
  wri k_klog klog_buf slot (c mod 256) ;;
  len ← rd k_klog klog_len ;
  when (len <? CFG_KLOG_SIZE) (wr k_klog klog_len (len + 1)) ;;
  wr k_klog klog_total (total +! 1) ;;
  serial_putc c.

Definition klog (s : list Z) : K unit := for_list s klog_putc.

(** A signed decimal.  [value = 0 - value] wraps at the smallest int. *)
Definition klog_int (value : Z) : K unit :=
  when (value <? 0) (klog_putc 45) ;;
  let value := if value <? 0 then 0 -! value else value in
  if value =? 0 then klog_putc 48
  else klog (rev (dec_digits 12 value)).

(** The headline syscall names; [None] is the null pointer. *)
Definition syscall_name (num : Z) : option (list Z) :=
  if num =? CFG_SYS_EXIT then Some (str "exit")
  else if num =? CFG_SYS_WRITE then Some (str "write")
  else if num =? CFG_SYS_READ then Some (str "read")
  else if num =? CFG_SYS_YIELD then Some (str "yield")
  else if num =? CFG_SYS_GETPID then Some (str "getpid")
  else if num =? CFG_SYS_FORK then Some (str "fork")
  else if num =? CFG_SYS_EXEC then Some (str "exec")
  else if num =? CFG_SYS_WAIT then Some (str "wait")
  else if num =? CFG_SYS_WAITPID then Some (str "waitpid")
  else if num =? CFG_SYS_OPEN then Some (str "open")
  else if num =? CFG_SYS_CLOSE then Some (str "close")
  else if num =? CFG_SYS_PIPE then Some (str "pipe")
  else if num =? CFG_SYS_DUP then Some (str "dup")
  else if num =? CFG_SYS_GETDENTS then Some (str "getdents")
  else if num =? CFG_SYS_STAT then Some (str "stat")
  else if num =? CFG_SYS_FSTAT then Some (str "fstat")
  else if num =? CFG_SYS_LSEEK then Some (str "lseek")
  else if num =? CFG_SYS_BRK then Some (str "brk")
  else if num =? CFG_SYS_MMAP then Some (str "mmap")
  else if num =? CFG_SYS_MUNMAP then Some (str "munmap")
  else if num =? CFG_SYS_KILL then Some (str "kill")
  else if num =? CFG_SYS_IOCTL then Some (str "ioctl")
  else if num =? CFG_SYS_FCNTL then Some (str "fcntl")
  else if num =? CFG_SYS_POLL then Some (str "poll")
  else None.

(** "trace: pid=N name(a1, a2, a3) = rv". *)
Definition trace_syscall (pid num a1 a2 a3 rv : Z) : K unit :=
  klog (str "trace: pid=") ;;
  klog_int pid ;;
  klog (str " ") ;;
  match syscall_name num with
  | Some name => klog name
  | None => klog (str "sys") ;; klog_int num
  end ;;
  klog_putc 40 ;;
  klog_int a1 ;;
  klog (str ", ") ;;
  klog_int a2 ;;
  klog (str ", ") ;;
  klog_int a3 ;;
  klog (str ") = ") ;;
  klog_int rv ;;
  klog [10].

Definition dump_state : K unit :=
  klog (str "kernel: state pid=") ;;
  cur ← rd k_sched current ;
  klog_int cur ;;
  klog (str " pc=") ;;
  p ← gets (fun s => proc_at s cur) ;
  klog_int (pc (p_ctx p)) ;;
  klog (str " sp=") ;;
  klog_int (sp (p_ctx p)) ;;
  klog (str " mode=") ;;
  klog_int (mode (p_ctx p)) ;;
  klog [10].

(** [__di(); __halt();] with interrupts off: the machine stops for good. *)
Definition panic {A} (msg : string) : K A :=
  klog (str "kernel: PANIC: ") ;;
  klog (str msg) ;;
  klog_putc 10 ;;
  dump_state ;;
  kstop (Panic msg).

(** ** Specification *)

(** Everything but the log and the console output is as in [s]. *)
Definition log_only (s s' : kernel) : Prop :=
  exists kl con, s' = s <| k_klog := kl |> <| k_hw ::= fun h => h <| hw_console := con |> |>.

(** The ring holds the newest [klog_len] bytes of [hist], the bytes logged so far. *)
Definition klog_inv (kl : klog_state) (hist : list Z) : Prop :=
  let n := Z.of_nat (length hist) in
  klog_total kl = n /\ n < 2 ^ 31 /\ klog_len kl = Z.min n CFG_KLOG_SIZE /\
  (forall k, n - klog_len kl <= k < n ->
     klog_buf kl (k mod CFG_KLOG_SIZE) = nthz hist k).

Lemma log_only_refl s : log_only s s.
Proof.
  exists (k_klog s), (hw_console (k_hw s)). destruct s as [h]; destruct h; done.
Qed.

Lemma log_only_trans s1 s2 s3 : log_only s1 s2 -> log_only s2 s3 -> log_only s1 s3.
Proof. intros (kl & con & ->) (kl' & con' & ->). exists kl', con'. done. Qed.

Lemma nthz_app_l l l' k : k < Z.of_nat (length l) -> nthz (l ++ l') k = nthz l k.
Proof.
  unfold nthz. intros H. destruct (Z.ltb_spec k 0); [done|]. apply app_nth1. lia.
Qed.

Lemma nthz_snoc l x : nthz (l ++ [x]) (Z.of_nat (length l)) = x.
Proof.
  unfold nthz. destruct (Z.ltb_spec (Z.of_nat (length l)) 0); [lia|].
  rewrite Nat2Z.id, app_nth2, Nat.sub_diag by lia. done.
Qed.

(** The state record after one [klog_putc]. *)
Definition klog_push (kl : klog_state) (c : Z) : klog_state :=
  let total := klog_total kl in
  let len := klog_len kl in
  kl <| klog_buf ::= fun b => upd b (Z.rem total CFG_KLOG_SIZE) (c mod 256) |>
     <| klog_len := if len <? CFG_KLOG_SIZE then len + 1 else len |>
     <| klog_total := total +! 1 |>.

Lemma klog_putc_run c s :
  klog_putc c s =
  Ret tt (s <| k_klog := klog_push (k_klog s) c |>
            <| k_hw ::= fun h => h <| hw_console ::= cons (c mod 256) |> |>).
Proof.
  unfold klog_putc, klog_push, when, rd, wri, wr, gets, modify, mbind, K_bind.
  cbv beta iota. rsimpl.
  destruct (klog_len (k_klog s) <? CFG_KLOG_SIZE) eqn:E; cbv beta iota.
  all: unfold serial_putc, modify; destruct s as [h ? ? ? ? ? ? ? ? ? kl ? ? ? ?].
  all: destruct kl; try done.
Qed.

Lemma klog_push_inv kl hist c :
  klog_inv kl hist -> Z.of_nat (length hist) + 1 < 2 ^ 31 ->
  klog_inv (klog_push kl c) (hist ++ [c mod 256]).
Proof.
  unfold klog_inv, klog_push. intros (Ht & Hn & Hl & Hb) Hbig. rsimpl.
  rewrite length_app, Nat2Z.inj_add. cbn [length Z.of_nat Pos.of_succ_nat].
  set (n := Z.of_nat (length hist)) in *. rewrite Ht, i32_id by (unfold is_i32; lia).
  rewrite Z.rem_mod_nonneg by (subst n; clia).
  assert (Hlen : (if klog_len kl <? CFG_KLOG_SIZE then klog_len kl + 1 else klog_len kl)
                 = Z.min (n + 1) CFG_KLOG_SIZE).
  { destruct (Z.ltb_spec (klog_len kl) CFG_KLOG_SIZE); lia. }
  rewrite Hlen. do 3 (split; [lia|]).
  intros k Hk. destruct (decide (k = n)) as [->|Hne].
  - rewrite upd_same. by rewrite nthz_snoc.
  - rewrite upd_ne.
    + rewrite nthz_app_l by lia. apply Hb. lia.
    + intros Heq.
      assert (n = k) as Hnk; [|lia].
      pose proof (Z.div_mod n CFG_KLOG_SIZE). pose proof (Z.div_mod k CFG_KLOG_SIZE).
      revert Hk H H0 Heq. clear -Hne. cfg. intros.
      assert (n / 4096 = k / 4096) by lia. lia.
Qed.

Lemma wp_klog_putc c hist s (Q : unit -> kernel -> Prop) :
  klog_inv (k_klog s) hist -> Z.of_nat (length hist) + 1 < 2 ^ 31 ->
  (forall s', log_only s s' -> klog_inv (k_klog s') (hist ++ [c mod 256]) ->
     hw_console (k_hw s') = c mod 256 :: hw_console (k_hw s) -> Q tt s') ->
  wp (klog_putc c) Q s.
Proof.
  intros Hi Hb HQ. unfold wp, wpm. rewrite klog_putc_run. apply HQ; rsimpl; [|by apply klog_push_inv|done].
  exists (klog_push (k_klog s) c), (c mod 256 :: hw_console (k_hw s)). done.
Qed.

Lemma wp_klog (l : list Z) hist s (Q : unit -> kernel -> Prop) :
  klog_inv (k_klog s) hist -> Z.of_nat (length hist + length l) < 2 ^ 31 ->
  (forall s', log_only s s' ->
     klog_inv (k_klog s') (hist ++ ((fun c => c mod 256) <$> l)) -> Q tt s') ->
  wp (klog l) Q s.
Proof.
  revert hist s. induction l as [|c l IH]; intros hist s Hi Hb HQ; cbn [for_list klog] in *.
  - apply HQ; [apply log_only_refl|]. by rewrite app_nil_r.
  - unfold klog. cbn [for_list]. apply wp_bind.
    eapply wp_klog_putc; [done|simpl in Hb; lia|]. intros s1 H1 H2 _.
    apply (IH (hist ++ [c mod 256])); [done|rewrite length_app; simpl in *; lia|].
    intros s2 H3 H4. apply HQ; [by eapply log_only_trans|].
    revert H4. by rewrite <- app_assoc.
Qed.

(** The bytes of a decimal integer: a sign and digits that denote it. *)
Definition is_decimal (v : Z) (l : list Z) : Prop :=
  exists ds, l = (if v <? 0 then [45] else []) ++ ds /\ ds <> [] /\
    Forall (fun d => 48 <= d <= 57) ds /\ dec_value ds = Z.abs v.

Lemma wp_klog_bytes (l : list Z) hist s (Q : unit -> kernel -> Prop) :
  Forall is_byte l -> klog_inv (k_klog s) hist ->
  Z.of_nat (length hist + length l) < 2 ^ 31 ->
  (forall s', log_only s s' -> klog_inv (k_klog s') (hist ++ l) -> Q tt s') ->
  wp (klog l) Q s.
Proof.
  intros Hl Hi Hb HQ. eapply wp_klog; [done|done|]. intros s' H1 H2.
  rewrite bytes_mod_id in H2 by done. auto.
Qed.

Lemma digits_rev_decimal v :
  0 < v < 2 ^ 31 ->
  let ds := rev (dec_digits 12 v) in
  ds <> [] /\ Forall (fun d => 48 <= d <= 57) ds /\ dec_value ds = v /\ (length ds <= 12)%nat.
Proof.
  intros Hv ds. subst ds. split; [|split; [|split]].
  - pose proof (dec_digits_nonempty 11 v ltac:(lia)) as Hn. intros He. apply Hn.
    rewrite <- (rev_involutive (dec_digits 12 v)), He. done.
  - apply Forall_rev, dec_digits_digits. lia.
  - apply dec_digits_value. change (10 ^ Z.of_nat 12) with 1000000000000. lia.
  - rewrite length_rev. apply dec_digits_length.
Qed.

(** [klog_int] appends exactly the decimal representation of its argument to
    the log (for every int but the smallest, whose negation wraps), changes
    nothing else, and always returns. *)
Theorem klog_int_decimal v hist s :
  klog_inv (k_klog s) hist -> - 2 ^ 31 < v < 2 ^ 31 ->
  Z.of_nat (length hist) + 13 < 2 ^ 31 ->
  wp (klog_int v) (fun _ s' => log_only s s' /\
    exists l, is_decimal v l /\ klog_inv (k_klog s') (hist ++ l)) s.
Proof.
  intros Hi Hv Hb. unfold klog_int. apply wp_bind.
  assert (Hrest : forall s1 w pre, log_only s s1 -> klog_inv (k_klog s1) (hist ++ pre) ->
    w = Z.abs v -> pre = (if v <? 0 then [45] else []) ->
    wp (if w =? 0 then klog_putc 48 else klog (rev (dec_digits 12 w)))
      (fun _ s' => log_only s s' /\
         exists l, is_decimal v l /\ klog_inv (k_klog s') (hist ++ l)) s1).
  { intros s1 w pre Hlo H1 Hw Hpre.
    assert (Hpl : (length pre <= 1)%nat) by (subst pre; destruct (v <? 0); simpl; lia).
    destruct (Z.eqb_spec w 0) as [Hz|Hnz].
    - eapply wp_klog_putc; [done|rewrite length_app; lia|]. intros s2 H2 H3 _.
      split; [by eapply log_only_trans|]. rewrite <- app_assoc in H3.
      eexists. split; [|exact H3]. exists [48]. subst pre. split; [done|].
      split; [done|]. split; [repeat constructor; lia|]. unfold dec_value. simpl. lia.
    - destruct (digits_rev_decimal w ltac:(lia)) as (Hne & Hd & Hval & Hlen).
      eapply wp_klog_bytes; [|done|rewrite length_app; lia|].
      { eapply Forall_impl; [exact Hd|]. unfold is_byte. simpl. intros; lia. }
      intros s2 H2 H3. split; [by eapply log_only_trans|].
      rewrite <- app_assoc in H3. eexists. split; [|exact H3].
      exists (rev (dec_digits 12 w)). subst pre. repeat split; [done|done|lia]. }
  unfold when. destruct (Z.ltb_spec v 0) as [Hneg|Hpos]; cbv zeta.
  - eapply wp_klog_putc; [done|lia|]. intros s1 H1 H2 _.
    eapply Hrest; [done|exact H2|rewrite i32_id; unfold is_i32; lia|done].
  - apply wp_ret. eapply Hrest with (pre := []);
      [apply log_only_refl|by rewrite app_nil_r|lia|done].
Qed.

(** A log that has lost its oldest bytes still starts at the right place: the
    first retained byte of a full ring is the one CFG_KLOG_SIZE before the end. *)
Lemma klog_inv_retained kl hist k :
  klog_inv kl hist -> 0 <= k < klog_len kl ->
  klog_buf kl (Z.rem (klog_total kl - klog_len kl + k) CFG_KLOG_SIZE) =
  nthz hist (Z.of_nat (length hist) - klog_len kl + k).
Proof.
  unfold klog_inv. intros (Ht & Hn & Hl & Hb) Hk. rewrite Ht.
  rewrite Z.rem_mod_nonneg by clia. apply Hb. lia.
Qed.

(** Whatever the state of the log, logging returns and touches nothing else. *)
Lemma klog_runs l s : exists s', klog l s = Ret tt s' /\ log_only s s'.
Proof.
  unfold klog. revert s. induction l as [|c l IH]; intros s; cbn [for_list].
  - exists s. split; [done|apply log_only_refl].
  - unfold mbind, K_bind. rewrite klog_putc_run.
    set (s1 := s <| k_klog := _ |> <| k_hw ::= _ |>).
    destruct (IH s1) as (s2 & E & H). exists s2. split; [done|].
    eapply log_only_trans; [|exact H]. by eexists _, _.
Qed.

Lemma klog_putc_runs c s : exists s', klog_putc c s = Ret tt s' /\ log_only s s'.
Proof. rewrite klog_putc_run. eexists. split; [done|]. by eexists _, _. Qed.

Lemma klog_int_runs v s : exists s', klog_int v s = Ret tt s' /\ log_only s s'.
Proof.
  unfold klog_int, when.
  assert (Hrest : forall w s, exists s',
    (if w =? 0 then klog_putc 48 else klog (rev (dec_digits 12 w))) s = Ret tt s' /\ log_only s s').
  { intros w s0. destruct (w =? 0); [apply klog_putc_runs|apply klog_runs]. }
  destruct (v <? 0).
  - destruct (klog_putc_runs 45 s) as (s1 & E1 & H1). erewrite run_bind by exact E1.
    destruct (Hrest (0 -! v) s1) as (s2 & E2 & H2). exists s2. split; [exact E2|].
    by eapply log_only_trans.
  - erewrite run_bind by done. apply Hrest.
Qed.

(** ** Witnesses *)

Lemma klog_inv_boot : klog_inv (k_klog kernel0) [].
Proof. repeat split; try done. intros k Hk. exfalso. revert Hk. cbn. lia. Qed.

Lemma klog_int_decimal_witness :
  wp (klog_int (-307)) (fun _ s' => log_only kernel0 s' /\
    exists l, is_decimal (-307) l /\ klog_inv (k_klog s') ([] ++ l)) kernel0.
Proof. apply (klog_int_decimal (-307) [] kernel0 klog_inv_boot); cbn; lia. Defined.
