(* ===== verification/RawMem.v ===== *)
(** * RawMem: memory accessors and the physical frame allocator of [memory.c]

    Physical memory is a byte per address.  Kernel pointers are below
    CFG_USER_BASE, where every address space maps the identity
    ([build_kernel_pt], [new_address_space]; the theorem is in [PageTable.v]),
    so pointer dereferences of kernel objects, page tables and frames are
    physical accesses.  A user pointer goes through the page tables that
    [hw_ptbr] selects, with the checks of the MMU for a supervisor access: the
    entries must be present, and writable for a store.  Paging faults taken in
    kernel mode panic. *)

From S2P Require Import Prelude Config Kernel Klog.

(** ** Words in byte memory *)

Definition pread32 (m : Z -> Z) (a : Z) : Z :=
  i32 (m a + 2 ^ 8 * m (a + 1) + 2 ^ 16 * m (a + 2) + 2 ^ 24 * m (a + 3)).

Definition le_bytes32 (v : Z) : list Z :=
  [v mod 2 ^ 8; v / 2 ^ 8 mod 2 ^ 8; v / 2 ^ 16 mod 2 ^ 8; v / 2 ^ 24 mod 2 ^ 8].

Definition pwrite32 (m : Z -> Z) (a v : Z) : Z -> Z := blit m a (le_bytes32 v).

(** Word [k] of a byte buffer. *)
Definition word (bs : list Z) (k : Z) : Z :=
  i32 (nthz bs (k * 4) + 2 ^ 8 * nthz bs (k * 4 + 1) + 2 ^ 16 * nthz bs (k * 4 + 2)
       + 2 ^ 24 * nthz bs (k * 4 + 3)).

(** ** The MMU *)

Definition pte_addr (e : Z) : Z := Z.land e (-4096).
Definition dir_index (a : Z) : Z := Z.land (shr a 22) 1023.
Definition table_index (a : Z) : Z := Z.land (shr a 12) 1023.

Definition mmu_translate (m : Z -> Z) (ptbr a : Z) (write : bool) : option Z :=
  let pde := pread32 m (ptbr + dir_index a * 4) in
  if negb (has pde 1) then None else
  let pte := pread32 m (pte_addr pde + table_index a * 4) in
  if negb (has pte 1) then None
  else if write && negb (has pte 2) then None
  else Some (pte_addr pte + Z.land a 4095).

Definition is_kernel_addr (a : Z) : bool := (0 <=? a) && (a <? CFG_USER_BASE).

Definition translate (s : kernel) (a : Z) (write : bool) : option Z :=
  if is_kernel_addr a || negb (hw_paging (k_hw s)) then Some a
  else mmu_translate (phys (k_mem s)) (hw_ptbr (k_hw s)) a write.

Definition kernel_fault {A} (a : Z) : K A :=
  wr k_trap page_fault_addr a ;;
  panic "unexpected kernel page fault".

(** ** [memory.c]: raw accesses *)

Definition read8_at (addr : Z) : K Z :=
  t ← gets (fun s => translate s addr false) ;
  match t with
  | Some p => gets (fun s => phys (k_mem s) p)
  | None => kernel_fault addr
  end.

Definition write8_at (addr v : Z) : K unit :=
  t ← gets (fun s => translate s addr true) ;
  match t with
  | Some p => wri k_mem phys p (v mod 256)
  | None => kernel_fault addr
  end.

Definition read32_at (addr : Z) : K Z :=
  b0 ← read8_at addr ;
  b1 ← read8_at (addr + 1) ;
  b2 ← read8_at (addr + 2) ;
  b3 ← read8_at (addr + 3) ;
  mret (i32 (b0 + 2 ^ 8 * b1 + 2 ^ 16 * b2 + 2 ^ 24 * b3)).

Definition read16_at (addr : Z) : K Z :=
  b0 ← read8_at addr ;
  b1 ← read8_at (addr + 1) ;
  mret (Z.lor (Z.land b0 255) (Z.shiftl (Z.land b1 255) 8)).

Definition write32_at (addr v : Z) : K unit :=
  write8_at addr (v mod 2 ^ 8) ;;
  write8_at (addr + 1) (v / 2 ^ 8) ;;
  write8_at (addr + 2) (v / 2 ^ 16) ;;
  write8_at (addr + 3) (v / 2 ^ 24).

(** A buffer copied by value: [n] bytes read from, or stored at, a pointer. *)
Fixpoint read_bytes (addr : Z) (n : nat) : K (list Z) :=
  match n with
  | O => mret []
  | S n' => b ← read8_at addr ; bs ← read_bytes (addr + 1) n' ; mret (b :: bs)
  end.

Fixpoint write_bytes (addr : Z) (bs : list Z) : K unit :=
  match bs with
  | [] => mret tt
  | b :: bs' => write8_at addr b ;; write_bytes (addr + 1) bs'
  end.

(** Words at kernel addresses: [int *p; p[0]]. *)
Definition kread32 (a : Z) : K Z := gets (fun s => pread32 (phys (k_mem s)) a).
Definition kwrite32 (a v : Z) : K unit :=
  modify (fun s => s <| k_mem ::= fun r => r <| phys ::= fun m => pwrite32 m a v |> |>).

Definition zero_page (addr : Z) : K unit :=
  modify (fun s => s <| k_mem ::= fun r => r <| phys ::= fun m => fill m addr 4096 0 |> |>).

Definition copy_page (src dst : Z) : K unit :=
  modify (fun s => s <| k_mem ::= fun r => r <| phys ::= fun m => copy_range m dst src 4096 |> |>).

(** ** [memory.c]: the frame allocator *)

Definition free_frame_raw (frame : Z) : K unit :=
  fl ← rd k_mem free_list ;
  kwrite32 frame fl ;;
  wr k_mem free_list frame.

Definition alloc_frame : K Z :=
  fl ← rd k_mem free_list ;
  fn ← rd k_mem frame_next ;
  frame ← (if fl !=? 0 then
             next ← kread32 fl ;
             wr k_mem free_list next ;;
             mret fl
           else if fn <? CFG_FRAME_POOL_END then
             wr k_mem frame_next (fn + 4096) ;;
             mret fn
           else panic "out of physical frames") ;
  wri k_mem frame_refs (frame / 4096) 1 ;;
  mret frame.

Definition retain_frame (frame : Z) : K unit :=
  r ← gets (fun s => frame_refs (k_mem s) (frame / 4096)) ;
  wri k_mem frame_refs (frame / 4096) (r +! 1).

Definition free_frame (frame : Z) : K unit :=
  let slot := frame / 4096 in
  r ← gets (fun s => frame_refs (k_mem s) slot) ;
  wri k_mem frame_refs slot (r -! 1) ;;
  r' ← gets (fun s => frame_refs (k_mem s) slot) ;
  when (r' =? 0) (free_frame_raw frame).

Definition frame_available : K bool :=
  gets (fun s => (free_list (k_mem s) !=? 0) || (frame_next (k_mem s) <? CFG_FRAME_POOL_END)).

(** The loop follows the free list to its null end; CFG_PHYS_FRAMES is more than
    the number of frames in the pool, so the fuel is never reached on a
    well-formed list ([free_frame_count_spec]). *)
Definition free_frame_count : K Z :=
  fn ← rd k_mem frame_next ;
  fl ← rd k_mem free_list ;
  while_ (S (Z.to_nat CFG_PHYS_FRAMES))
    (fun '(n, frame) =>
       if frame !=? 0 then
         next ← kread32 frame ;
         mret (inl (n + 1, next))
       else mret (inr (n, frame)))
    (Z.quot (CFG_FRAME_POOL_END - fn) 4096, fl) ≫= fun r => mret r.1.

Definition pmm_init : K unit :=
  wr k_mem free_list 0 ;;
  wr k_mem frame_next CFG_FRAME_POOL_BASE ;;
  for_ 0 (Z.to_nat CFG_PAGE_CACHE_SIZE) (fun i => wra k_mem page_cache i pce_used 0).

(** ** Facts about words *)

Lemma pread32_range m a : is_i32 (pread32 m a).
Proof. apply i32_range. Qed.

Lemma le_bytes32_bytes v : Forall is_byte (le_bytes32 v).
Proof.
  unfold le_bytes32, is_byte. repeat constructor; apply Z.mod_pos_bound; lia.
Qed.

Lemma i32_mod_eq a b : a mod 2 ^ 32 = b mod 2 ^ 32 -> i32 a = i32 b.
Proof.
  unfold i32. intros H. f_equal.
  rewrite <- (Z.add_mod_idemp_l a), <- (Z.add_mod_idemp_l b) by lia. by rewrite H.
Qed.

Lemma le_bytes32_sum v :
  i32 (v mod 2 ^ 8 + 2 ^ 8 * (v / 2 ^ 8 mod 2 ^ 8) + 2 ^ 16 * (v / 2 ^ 16 mod 2 ^ 8)
       + 2 ^ 24 * (v / 2 ^ 24 mod 2 ^ 8)) = i32 v.
Proof.
  apply i32_mod_eq.
  replace (v mod 2 ^ 8 + 2 ^ 8 * (v / 2 ^ 8 mod 2 ^ 8) + 2 ^ 16 * (v / 2 ^ 16 mod 2 ^ 8)
       + 2 ^ 24 * (v / 2 ^ 24 mod 2 ^ 8)) with (v mod 2 ^ 32); [by rewrite Z.mod_mod by lia|].
  change (2 ^ 32) with (2 ^ 8 * (2 ^ 8 * (2 ^ 8 * 2 ^ 8))).
  rewrite (Z.rem_mul_r v (2 ^ 8)), (Z.rem_mul_r (v / 2 ^ 8) (2 ^ 8)),
    (Z.rem_mul_r (v / 2 ^ 8 / 2 ^ 8) (2 ^ 8)) by lia.
  rewrite !Z.div_div by lia.
  change (2 ^ 8 * 2 ^ 8) with (2 ^ 16). change (2 ^ 8 * 2 ^ 16) with (2 ^ 24).
  change (2 ^ 16 * 2 ^ 8) with (2 ^ 24). lia.
Qed.

Lemma pread32_ext m m' a :
  (forall k, 0 <= k < 4 -> m (a + k) = m' (a + k)) -> pread32 m a = pread32 m' a.
Proof.
  intros H. unfold pread32.
  rewrite (H 1), (H 2), (H 3) by lia. specialize (H 0). rewrite Z.add_0_r in H.
  by rewrite H by lia.
Qed.

Lemma pread32_pwrite32_same m a v : pread32 (pwrite32 m a v) a = i32 v.
Proof.
  rewrite <- (le_bytes32_sum v). unfold pread32, pwrite32.
  pose proof (fun k x => blit_in m a (le_bytes32 v) k x) as H.
  pose proof (H 0%nat _ eq_refl) as H0. pose proof (H 1%nat _ eq_refl) as H1.
  pose proof (H 2%nat _ eq_refl) as H2. pose proof (H 3%nat _ eq_refl) as H3.
  change (Z.of_nat 0) with 0 in H0. change (Z.of_nat 1) with 1 in H1.
  change (Z.of_nat 2) with 2 in H2. change (Z.of_nat 3) with 3 in H3.
  rewrite Z.add_0_r in H0.
  by rewrite H0, H1, H2, H3.
Qed.

Lemma pwrite32_other m a v b : b < a \/ a + 4 <= b -> pwrite32 m a v b = m b.
Proof. intros H. unfold pwrite32. apply blit_out. simpl. lia. Qed.

Lemma pread32_pwrite32_other m a v b :
  b + 4 <= a \/ a + 4 <= b -> pread32 (pwrite32 m a v) b = pread32 m b.
Proof. intros H. apply pread32_ext. intros k Hk. apply pwrite32_other. lia. Qed.

Lemma pread32_fill m a n v b :
  b + 4 <= a \/ a + n <= b -> pread32 (fill m a n v) b = pread32 m b.
Proof.
  intros H. apply pread32_ext. intros k Hk. unfold fill.
  destruct (Z.leb_spec a (b + k)), (Z.ltb_spec (b + k) (a + n)); simpl; lia || done.
Qed.

Lemma pread32_fill_zero m a n b :
  a <= b -> b + 4 <= a + n -> pread32 (fill m a n 0) b = 0.
Proof.
  intros H1 H2. unfold pread32, fill.
  repeat match goal with
  | |- context [(?x <=? ?y) && (?y <? ?z)] =>
      replace ((x <=? y) && (y <? z)) with true
        by (symmetry; apply andb_true_iff; split; [apply Z.leb_le|apply Z.ltb_lt]; lia)
  end. done.
Qed.

(** ** Buffers in memory

    [buffer s addr n φ w]: the [n] bytes at pointer [addr] can be accessed (for
    writing if [w]), byte [k] being physical byte [φ k]; storing into the buffer
    does not redirect it, i.e. it holds none of the page tables that map it. *)

Record buffer (s : kernel) (addr n : Z) (φ : Z -> Z) (w : bool) : Prop := {
  buf_translate : forall s' k, 0 <= k < n ->
    hw_paging (k_hw s') = hw_paging (k_hw s) -> hw_ptbr (k_hw s') = hw_ptbr (k_hw s) ->
    (forall a, (forall j, 0 <= j < n -> φ j <> a) -> phys (k_mem s') a = phys (k_mem s) a) ->
    translate s' (addr + k) w = Some (φ k);
  buf_inj : forall i j, 0 <= i < n -> 0 <= j < n -> φ i = φ j -> i = j;
}.

(** The bytes a buffer holds. *)
Definition buffer_bytes (s : kernel) (φ : Z -> Z) (n : Z) : list Z :=
  (fun k => phys (k_mem s) (φ k)) <$> seqZ 0 n.

Lemma buffer_kernel s addr n w :
  0 <= addr -> addr + n <= CFG_USER_BASE -> buffer s addr n (fun k => addr + k) w.
Proof.
  intros H1 H2. split; [|lia]. intros s' k Hk _ _ _. unfold translate, is_kernel_addr.
  destruct (Z.leb_spec 0 (addr + k)), (Z.ltb_spec (addr + k) CFG_USER_BASE); simpl; lia || done.
Qed.

Lemma buffer_prefix s addr n m φ w : buffer s addr n φ w -> m <= n -> buffer s addr m φ w.
Proof.
  intros [Ht Hi] Hm. split.
  - intros s' k Hk H1 H2 H3. apply Ht; [lia|done|done|].
    intros a Ha. apply H3. intros j Hj. apply Ha. lia.
  - intros i j Hi' Hj'. apply Hi; lia.
Qed.

Lemma buffer_bytes_length s φ n : 0 <= n -> length (buffer_bytes s φ n) = Z.to_nat n.
Proof. intros H. unfold buffer_bytes. by rewrite length_fmap, length_seqZ. Qed.

Lemma buffer_bytes_lookup s φ n (k : nat) :
  Z.of_nat k < n -> buffer_bytes s φ n !! k = Some (phys (k_mem s) (φ (Z.of_nat k))).
Proof.
  intros H. unfold buffer_bytes. rewrite list_lookup_fmap, lookup_seqZ_lt by lia.
  simpl. by rewrite Z.add_0_l.
Qed.

Lemma read8_at_buffer s addr n φ w k s' :
  buffer s addr n φ w -> w = false -> 0 <= k < n ->
  k_hw s' = k_hw s -> phys (k_mem s') = phys (k_mem s) ->
  read8_at (addr + k) s' = Ret (phys (k_mem s) (φ k)) s'.
Proof.
  intros Hb -> Hk H1 H2. unfold read8_at. erewrite run_bind by done.
  rewrite (buf_translate _ _ _ _ _ Hb s' k Hk) by (by rewrite ?H1, ?H2).
  unfold gets. by rewrite H2.
Qed.

Lemma write8_at_buffer s addr n φ k v s' :
  buffer s addr n φ true -> 0 <= k < n ->
  hw_paging (k_hw s') = hw_paging (k_hw s) -> hw_ptbr (k_hw s') = hw_ptbr (k_hw s) ->
  (forall a, (forall j, 0 <= j < n -> φ j <> a) -> phys (k_mem s') a = phys (k_mem s) a) ->
  write8_at (addr + k) v s' =
  Ret tt (s' <| k_mem ::= fun r => r <| phys ::= fun t => upd t (φ k) (v mod 256) |> |>).
Proof.
  intros Hb Hk H1 H2 H3. unfold write8_at. erewrite run_bind by done.
  by rewrite (buf_translate _ _ _ _ _ Hb s' k Hk).
Qed.
