(* ===== verification/Frames.v ===== *)
(** * Frames: the invariant and the theorems of the physical frame allocator

    [frames_inv ms fl]: [fl] is the chain of frames threaded through their first
    words from [free_list]; they are distinct, page aligned, below [frame_next]
    and have reference count 0, and every other frame below [frame_next] is in
    use with a positive count. *)

From S2P Require Import Prelude Config Kernel Klog RawMem.

(** The list threaded from [f]: each frame's first word is the next frame. *)
Fixpoint chain (m : Z -> Z) (f : Z) (l : list Z) : Prop :=
  match l with
  | [] => f = 0
  | x :: l' => f = x /\ x <> 0 /\ chain m (pread32 m x) l'
  end.

(** A page-aligned frame between the pool base and [hi]. *)
Definition pool_frame (hi f : Z) : Prop :=
  CFG_FRAME_POOL_BASE <= f < hi /\ f mod 4096 = 0.

Record frames_inv (ms : mem_state) (fl : list Z) : Prop := {
  fi_chain : chain (phys ms) (free_list ms) fl;
  fi_nodup : NoDup fl;
  fi_next : CFG_FRAME_POOL_BASE <= frame_next ms <= CFG_FRAME_POOL_END;
  fi_align : frame_next ms mod 4096 = 0;
  fi_free : forall f, f ∈ fl -> pool_frame (frame_next ms) f /\ frame_refs ms (f / 4096) = 0;
  fi_used : forall f, pool_frame (frame_next ms) f -> f ∉ fl ->
              0 < frame_refs ms (f / 4096) < 2 ^ 31 }.

(** The frames an allocation may still hand out. *)
Definition free_count (ms : mem_state) (fl : list Z) : Z :=
  Z.of_nat (length fl) + (CFG_FRAME_POOL_END - frame_next ms) / 4096.

Definition frame_is_free (ms : mem_state) (fl : list Z) (f : Z) : Prop :=
  f ∈ fl \/ pool_frame CFG_FRAME_POOL_END f /\ frame_next ms <= f.

(** Frame [f] belongs to someone. *)
Definition used_frame (ms : mem_state) (fl : list Z) (f : Z) : Prop :=
  pool_frame (frame_next ms) f /\ f ∉ fl.

(** Only the memory component differs. *)
Definition mem_only (s s' : kernel) : Prop := exists ms, s' = s <| k_mem := ms |>.

(** Only the allocator's own variables differ. *)
Definition frames_only (s s' : kernel) : Prop := exists l n r,
  s' = s <| k_mem ::= fun ms => ms <| free_list := l |> <| frame_next := n |> <| frame_refs := r |> |>.

(** Only the free list, the counts and the memory differ. *)
Definition free_only (s s' : kernel) : Prop := exists l r m,
  s' = s <| k_mem ::= fun ms => ms <| free_list := l |> <| frame_refs := r |> <| phys := m |> |>.

Lemma mem_only_refl s : mem_only s s.
Proof. exists (k_mem s). by destruct s. Qed.

Lemma mem_only_trans s1 s2 s3 : mem_only s1 s2 -> mem_only s2 s3 -> mem_only s1 s3.
Proof. intros [x ->] [y ->]. by exists y. Qed.

Lemma frame_slot_inj f g : f mod 4096 = 0 -> g mod 4096 = 0 -> f / 4096 = g / 4096 -> f = g.
Proof. intros. pose proof (Z.div_mod f 4096). pose proof (Z.div_mod g 4096). lia. Qed.

Lemma aligned_disjoint f g :
  f mod 4096 = 0 -> g mod 4096 = 0 -> f <> g -> f + 4096 <= g \/ g + 4096 <= f.
Proof. intros. pose proof (Z.div_mod f 4096). pose proof (Z.div_mod g 4096). lia. Qed.

(** The chain only depends on the first words of its frames. *)
Lemma chain_ext m m' l f :
  (forall x, x ∈ l -> pread32 m x = pread32 m' x) -> chain m f l -> chain m' f l.
Proof.
  revert f. induction l as [|x l IH]; simpl; intros f H; [done|].
  intros (-> & Hx & Hc). split; [done|]. split; [done|].
  rewrite <- (H x) by set_solver. apply IH; [|done]. intros; apply H; set_solver.
Qed.

Lemma chain_null m l : chain m 0 l -> l = [].
Proof. destruct l as [|x l]; [done|]. simpl. intros (? & ? & _). congruence. Qed.

Lemma chain_cons m f l : chain m f l -> f <> 0 -> exists l', l = f :: l' /\ chain m (pread32 m f) l'.
Proof. destruct l as [|x l]; simpl; [done|]. intros (-> & _ & H) _. eauto. Qed.

(** The allocator's state after an allocation, the two cases. *)
Lemma alloc_frame_run s :
  alloc_frame s =
    (let ms := k_mem s in
     if free_list ms !=? 0 then
       Ret (free_list ms) (s <| k_mem := (ms <| free_list := pread32 (phys ms) (free_list ms) |>)
                                <| frame_refs ::= fun r => upd r (free_list ms / 4096) 1 |> |>)
     else if frame_next ms <? CFG_FRAME_POOL_END then
       Ret (frame_next ms) (s <| k_mem := (ms <| frame_next := frame_next ms + 4096 |>)
                                <| frame_refs ::= fun r => upd r (frame_next ms / 4096) 1 |> |>)
     else alloc_frame s).
Proof.
  cbv zeta. destruct (free_list (k_mem s) !=? 0) eqn:E1;
    [|destruct (frame_next (k_mem s) <? CFG_FRAME_POOL_END) eqn:E2; [|done]].
  all: unfold alloc_frame, rd, gets, mbind, K_bind; rewrite E1; try rewrite E2; done.
Qed.

(** The allocator's promise. *)
Definition allocated (s : kernel) (fl : list Z) (f : Z) (s' : kernel) : Prop :=
  frames_only s s' /\ pool_frame CFG_FRAME_POOL_END f /\ frame_is_free (k_mem s) fl f /\
  frame_refs (k_mem s') (f / 4096) = 1 /\
  (forall g, g <> f / 4096 -> frame_refs (k_mem s') g = frame_refs (k_mem s) g) /\
  exists fl', frames_inv (k_mem s') fl' /\ used_frame (k_mem s') fl' f /\
    (forall g, used_frame (k_mem s) fl g -> used_frame (k_mem s') fl' g) /\
    free_count (k_mem s') fl' = free_count (k_mem s) fl - 1.

Lemma alloc_from_list s f fl :
  frames_inv (k_mem s) (f :: fl) ->
  allocated s (f :: fl) f (s <| k_mem := (k_mem s) <| free_list := pread32 (phys (k_mem s)) f |> |>
    <| k_mem ::= fun r => r <| frame_refs ::= fun t => upd t (f / 4096) 1 |> |>).
Proof.
  intros I. destruct (fi_free _ _ I f) as [Hp Hr0]; [set_solver|].
  pose proof (fi_nodup _ _ I) as Hnd. apply NoDup_cons in Hnd as [Hni Hnd].
  pose proof (fi_next _ _ I) as Hnx. destruct (fi_chain _ _ I) as (_ & _ & Hl').
  split; [by do 3 eexists|]. ksimpl. split; [destruct Hp; split; [lia|done]|].
  split; [left; set_solver|]. split; [apply upd_same|].
  split; [intros g Hg; by apply upd_ne|].
  exists fl. unfold used_frame. ksimpl.
  split; [|split; [done|split; [set_solver|unfold free_count; ksimpl; simpl length; lia]]].
  split; ksimpl; try apply I; try done.
  - intros g Hg. destruct (fi_free _ _ I g) as [Hpf Hrf]; [set_solver|]. split; [done|].
    rewrite upd_ne; [done|]. intros Heq. assert (f = g) as ->; [|done].
    apply frame_slot_inj; [apply Hp|apply Hpf|done].
  - intros g Hg Hng. destruct (decide (g = f)) as [->|Hne].
    + rewrite upd_same. lia.
    + rewrite upd_ne; [apply (fi_used _ _ I); [done|set_solver]|].
      intros Heq. apply Hne. symmetry. apply frame_slot_inj; [apply Hp|apply Hg|done].
Qed.

(** The bump pointer stays aligned, so there is room for a whole frame. *)
Lemma bump_room ms : frames_inv ms [] -> 0 < free_count ms [] -> frame_next ms + 4096 <= CFG_FRAME_POOL_END.
Proof.
  intros I Hc. unfold free_count in Hc. simpl length in Hc. pose proof (fi_next _ _ I).
  destruct (decide (frame_next ms + 4096 <= CFG_FRAME_POOL_END)); [done|].
  rewrite Z.div_small in Hc; clia.
Qed.

Lemma alloc_from_pool s :
  frames_inv (k_mem s) [] -> 0 < free_count (k_mem s) [] ->
  let f := frame_next (k_mem s) in
  allocated s [] f (s <| k_mem := (k_mem s) <| frame_next := f + 4096 |> |>
    <| k_mem ::= fun r => r <| frame_refs ::= fun t => upd t (f / 4096) 1 |> |>).
Proof.
  intros I Hc f. pose proof (bump_room _ I Hc) as Hlt. fold f in Hlt.
  pose proof (fi_next _ _ I) as Hnx. pose proof (fi_align _ _ I) as Hal. fold f in Hnx, Hal.
  split; [by do 3 eexists|]. ksimpl. fold f. split; [split; [lia|done]|].
  split; [right; split; [split; [lia|done]|unfold f; lia]|]. split; [apply upd_same|].
  split; [intros g Hg; by apply upd_ne|].
  exists []. unfold used_frame. ksimpl. fold f.
  split; [|split; [split; [split; [lia|done]|set_solver]|split]].
  - split; ksimpl; [apply (fi_chain _ _ I)|constructor|lia| |by intros g Hg%elem_of_nil|].
    + rewrite Z.add_mod, Hal by lia. done.
    + intros g [Hg1 Hg2] _. destruct (decide (g = f)) as [->|Hne]; [rewrite upd_same; lia|].
      rewrite upd_ne; [|intros Heq; apply Hne; symmetry; by apply frame_slot_inj].
      apply (fi_used _ _ I); [|set_solver]. split; [|done].
      destruct (aligned_disjoint g f); [done|done|done|fold f; lia|lia].
  - intros g [[Hg1 Hg2] Hg3]. split; [split; [lia|done]|done].
  - unfold free_count. ksimpl. fold f. simpl length.
    replace (CFG_FRAME_POOL_END - (f + 4096)) with (CFG_FRAME_POOL_END - f + (-1) * 4096) by lia.
    rewrite Z.div_add by lia. lia.
Qed.

Lemma alloc_frame_allocated s fl :
  frames_inv (k_mem s) fl -> 0 < free_count (k_mem s) fl ->
  exists f s', alloc_frame s = Ret f s' /\ allocated s fl f s'.
Proof.
  intros I Hc. rewrite alloc_frame_run. cbv zeta.
  destruct (free_list (k_mem s) !=? 0) eqn:E1; bool_hyps.
  - destruct (chain_cons _ _ _ (fi_chain _ _ I) E1) as (l' & -> & _).
    do 2 eexists. split; [reflexivity|]. by apply alloc_from_list.
  - assert (fl = []) as -> by (apply (chain_null (phys (k_mem s))); rewrite <- E1; apply I).
    pose proof (bump_room _ I Hc). rewrite (proj2 (Z.ltb_lt _ _)) by lia.
    do 2 eexists. split; [reflexivity|]. by apply alloc_from_pool.
Qed.

(** C18: when a frame is available, [alloc_frame] returns normally a page-aligned
    frame of the pool that was free, gives it reference count 1, leaves every
    other count and all memory contents alone, and keeps the allocator invariant
    with exactly one free frame less. *)
Theorem alloc_frame_fresh s fl :
  frames_inv (k_mem s) fl -> 0 < free_count (k_mem s) fl ->
  wp alloc_frame (fun f s' =>
    frames_only s s' /\ pool_frame CFG_FRAME_POOL_END f /\ frame_is_free (k_mem s) fl f /\
    frame_refs (k_mem s') (f / 4096) = 1 /\
    (forall g, g <> f / 4096 -> frame_refs (k_mem s') g = frame_refs (k_mem s) g) /\
    exists fl', frames_inv (k_mem s') fl' /\ used_frame (k_mem s') fl' f /\
      (forall g, used_frame (k_mem s) fl g -> used_frame (k_mem s') fl' g) /\
      free_count (k_mem s') fl' = free_count (k_mem s) fl - 1) s.
Proof.
  intros I Hc. destruct (alloc_frame_allocated s fl I Hc) as (f & s' & E & H).
  by apply (wpm_intro _ _ _ _ _ E).
Qed.

(** What dropping a reference to [f] does. *)
Definition dropped (s : kernel) (fl : list Z) (f : Z) (s' : kernel) : Prop :=
  free_only s s' /\
  frame_refs (k_mem s') (f / 4096) = frame_refs (k_mem s) (f / 4096) - 1 /\
  (forall g, g <> f / 4096 -> frame_refs (k_mem s') g = frame_refs (k_mem s) g) /\
  (forall a, a < f \/ f + 4 <= a \/ frame_refs (k_mem s) (f / 4096) <> 1 ->
     phys (k_mem s') a = phys (k_mem s) a) /\
  frames_inv (k_mem s') (if frame_refs (k_mem s) (f / 4096) =? 1 then f :: fl else fl).

Lemma pool_frame_slot_ne hi f g : pool_frame hi g -> pool_frame hi f -> g <> f -> g / 4096 <> f / 4096.
Proof. intros [_ Hg] [_ Hf] Hne Heq. apply Hne. by apply frame_slot_inj. Qed.

(** The list head is a frame address or null, so it fits a word. *)
Lemma free_list_i32 ms fl : frames_inv ms fl -> i32 (free_list ms) = free_list ms.
Proof.
  intros I. apply i32_id. pose proof (fi_chain _ _ I) as Hc. pose proof (fi_next _ _ I).
  destruct fl as [|x fl]; simpl in Hc; [rewrite Hc; clia|]. destruct Hc as (-> & _).
  destruct (fi_free _ _ I x) as [[? _] _]; [set_solver|]. clia.
Qed.

(** The last reference: the frame becomes the head of the free list. *)
Lemma free_last_inv ms fl f :
  frames_inv ms fl -> pool_frame (frame_next ms) f -> f ∉ fl ->
  frames_inv (ms <| frame_refs ::= fun t => upd t (f / 4096) 0 |>
                 <| phys ::= fun m => pwrite32 m f (free_list ms) |> <| free_list := f |>) (f :: fl).
Proof.
  intros I Hf Hnf. split; ksimpl; try apply I.
  - destruct Hf as [Hf1 Hf2]. split; [done|]. split; [clia|].
    rewrite pread32_pwrite32_same, (free_list_i32 _ _ I).
    eapply chain_ext; [|apply I]. intros x Hx. destruct (fi_free _ _ I x Hx) as [[Hx1 Hx2] _].
    symmetry. apply pread32_pwrite32_other.
    destruct (aligned_disjoint x f); [done|done| |lia|lia]. intros ->. done.
  - apply NoDup_cons. split; [done|apply I].
  - intros g Hg. apply elem_of_cons in Hg as [->|Hg]; [by rewrite upd_same|].
    destruct (fi_free _ _ I g Hg) as [Hpg Hrg]. split; [done|].
    rewrite upd_ne; [done|]. eapply not_eq_sym, pool_frame_slot_ne; [done..|]. intros ->. done.
  - intros g Hg Hng. rewrite upd_ne; [apply (fi_used _ _ I); [done|set_solver]|].
    eapply not_eq_sym, pool_frame_slot_ne; [done..|set_solver].
Qed.

(** Not the last one: only the count changes. *)
Lemma free_shared_inv ms fl f v :
  frames_inv ms fl -> pool_frame (frame_next ms) f -> f ∉ fl -> 0 < v < 2 ^ 31 ->
  frames_inv (ms <| frame_refs ::= fun t => upd t (f / 4096) v |>) fl.
Proof.
  intros I Hf Hnf Hv. split; ksimpl; try apply I.
  - intros g Hg. destruct (fi_free _ _ I g Hg) as [Hpg Hrg]. split; [done|].
    rewrite upd_ne; [done|]. eapply not_eq_sym, pool_frame_slot_ne; [done..|]. intros ->. done.
  - intros g Hg Hng. destruct (decide (g = f)) as [->|Hne]; [by rewrite upd_same|].
    rewrite upd_ne; [by apply (fi_used _ _ I)|]. by eapply not_eq_sym, pool_frame_slot_ne.
Qed.

Lemma free_frame_dropped s fl f :
  frames_inv (k_mem s) fl -> pool_frame (frame_next (k_mem s)) f -> f ∉ fl ->
  exists s', free_frame f s = Ret tt s' /\ dropped s fl f s'.
Proof.
  intros I Hf Hnf. pose proof (fi_used _ _ I f Hf Hnf) as Hr.
  enough (wp (free_frame f) (fun _ => dropped s fl f) s) as ([] & s' & H)%wpm_elim by by exists s'.
  unfold free_frame. cbv zeta. wp_auto. ksimpl. rewrite upd_same.
  rewrite i32_id by (unfold is_i32; lia). unfold dropped.
  wp_case E; bool_hyps.
  - unfold free_frame_raw, kwrite32. wp_auto. ksimpl. rewrite (proj2 (Z.eqb_eq _ 1)) by lia.
    split; [by do 3 eexists|]. split; [by rewrite upd_same|].
    split; [intros g Hg; by apply upd_ne, not_eq_sym|].
    split; [intros a Ha; apply pwrite32_other; lia|].
    rewrite E. by apply free_last_inv.
  - rewrite (proj2 (Z.eqb_neq _ 1)) by lia. wp_auto.
    split; [by do 3 eexists|]. ksimpl. split; [by rewrite upd_same|].
    split; [intros g Hg; by apply upd_ne, not_eq_sym|]. split; [done|].
    apply free_shared_inv; [done..|lia].
Qed.

(** [free_frame] drops one reference: with other references left it only
    decrements the count, and at the last one it returns the frame to the free
    list; either way the allocator invariant is kept. *)
Theorem free_frame_drops s fl f :
  frames_inv (k_mem s) fl -> pool_frame (frame_next (k_mem s)) f -> f ∉ fl ->
  wp (free_frame f) (fun _ s' =>
    free_only s s' /\
    frame_refs (k_mem s') (f / 4096) = frame_refs (k_mem s) (f / 4096) - 1 /\
    (forall g, g <> f / 4096 -> frame_refs (k_mem s') g = frame_refs (k_mem s) g) /\
    (forall a, a < f \/ f + 4 <= a \/ frame_refs (k_mem s) (f / 4096) <> 1 ->
     phys (k_mem s') a = phys (k_mem s) a) /\
    frames_inv (k_mem s') (if frame_refs (k_mem s) (f / 4096) =? 1 then f :: fl else fl)) s.
Proof.
  intros I Hf Hnf. destruct (free_frame_dropped s fl f I Hf Hnf) as (s' & E & H).
  by apply (wpm_intro _ _ _ _ _ E).
Qed.

(** Pigeonhole: distinct pool frames are at most as many as the pool has. *)
Lemma pool_length (l : list Z) :
  NoDup l -> (forall f, f ∈ l -> pool_frame CFG_FRAME_POOL_END f) ->
  Z.of_nat (length l) <= CFG_PHYS_FRAMES.
Proof.
  intros Hnd Hl.
  assert (Hinj : NoDup ((fun f => Z.to_nat (f / 4096)) <$> l)).
  { apply NoDup_fmap_2_strong; [|done]. intros x y Hx Hy Heq.
    destruct (Hl x Hx) as [Hx1 Hx2], (Hl y Hy) as [Hy1 Hy2].
    apply frame_slot_inj; [done|done|]. apply Z2Nat.inj; [| |done].
    all: apply Z.div_pos; clia. }
  pose proof (NoDup_incl_length (l := (fun f => Z.to_nat (f / 4096)) <$> l)
                (l' := seq 0 (Z.to_nat CFG_PHYS_FRAMES))) as H.
  rewrite NoDup_ListNoDup in Hinj. specialize (H Hinj).
  rewrite length_fmap, length_seq in H.
  assert (length l <= Z.to_nat CFG_PHYS_FRAMES)%nat; [apply H|clia].
  intros n Hn. apply list_elem_of_In, list_elem_of_fmap in Hn as (f & -> & Hf).
  apply in_seq. destruct (Hl f Hf) as [Hf1 Hf2]. simpl.
  assert (0 <= f / 4096 < CFG_PHYS_FRAMES); [|lia].
  split; [apply Z.div_pos; clia|apply Z.div_lt_upper_bound; clia].
Qed.

Lemma free_count_walk s fl n (fuel : nat) f (Q : Z * Z -> kernel -> Prop) :
  chain (phys (k_mem s)) f fl -> (length fl < fuel)%nat ->
  Q (n + Z.of_nat (length fl), 0) s ->
  wp (while_ fuel
    (fun '(n, frame) =>
       if frame !=? 0 then next ← kread32 frame ; mret (inl (n + 1, next))
       else mret (inr (n, frame))) (n, f)) Q s.
Proof.
  revert fuel n f. induction fl as [|x fl IH]; intros fuel n f Hc Hlen HQ;
    (destruct fuel as [|fuel]; [simpl in Hlen; lia|]); simpl in Hc; cbn [while_].
  - subst f. apply wp_bind. wp_auto. by rewrite Z.add_0_r in HQ.
  - destruct Hc as (-> & Hx & Hc). apply Z.eqb_neq in Hx as Hx'. rewrite Hx'. cbn [negb].
    unfold kread32. wp_auto. apply IH; [done|simpl in Hlen; lia|].
    replace (n + 1 + Z.of_nat (length fl)) with (n + Z.of_nat (length (x :: fl))) by (cbn [length]; lia).
    done.
Qed.

(** The test for a free frame agrees with the count. *)
Lemma wp_frame_available s fl (Q : bool -> kernel -> Prop) :
  frames_inv (k_mem s) fl -> (forall b, (b = true <-> 0 < free_count (k_mem s) fl) -> Q b s) ->
  wp frame_available Q s.
Proof.
  intros I HQ. pose proof (fi_next _ _ I) as Hnx. unfold frame_available. wp_auto. apply HQ. unfold free_count.
  rewrite orb_true_iff, negb_true_iff, Z.eqb_neq, Z.ltb_lt.
  pose proof (fi_align _ _ I) as Hal.
  pose proof (Z.div_mod (frame_next (k_mem s)) 4096) as Hdm.
  assert (Hend : CFG_FRAME_POOL_END = 4096 * 16384) by done.
  replace (CFG_FRAME_POOL_END - frame_next (k_mem s))
    with (4096 * (16384 - frame_next (k_mem s) / 4096)) by lia.
  rewrite Z.mul_comm, Z.div_mul by lia.
  destruct fl as [|x fl]; pose proof (fi_chain _ _ I) as Hc; cbn [chain] in Hc.
  + rewrite Hc. simpl length. lia.
  + destruct Hc as (-> & Hx & _). simpl length. lia.
Qed.

(** [free_frame_count] terminates on every well-formed allocator state, leaves
    the state alone and returns the number of frames that [alloc_frame] can still
    hand out; [frame_available] says exactly whether that number is positive. *)
Theorem free_frame_count_spec s fl :
  frames_inv (k_mem s) fl ->
  wp free_frame_count (fun n s' => s' = s /\ n = free_count (k_mem s) fl) s /\
  wp frame_available (fun b s' => s' = s /\ (b = true <-> 0 < free_count (k_mem s) fl)) s.
Proof.
  intros I. pose proof (fi_next _ _ I) as Hnx. split.
  - unfold free_frame_count. wp_auto. eapply free_count_walk; [apply I| |].
    + assert (Z.of_nat (length fl) <= CFG_PHYS_FRAMES); [|lia].
      apply pool_length; [apply I|]. intros f Hf.
      destruct (fi_free _ _ I f Hf) as [[? ?] _]. split; [lia|done].
    + wp_auto. split; [done|]. unfold free_count. cbn [fst].
      rewrite Z.quot_div_nonneg by lia. lia.
  - by apply (wp_frame_available s fl).
Qed.

(** [pmm_init] establishes the invariant with the whole pool free. *)
Lemma pmm_init_inv s :
  wp pmm_init (fun _ s' => frames_inv (k_mem s') [] /\
    free_count (k_mem s') [] = (CFG_FRAME_POOL_END - CFG_FRAME_POOL_BASE) / 4096) s.
Proof.
  unfold pmm_init. wp_auto.
  apply (wp_for (fun _ s' => free_list (k_mem s') = 0 /\ frame_next (k_mem s') = CFG_FRAME_POOL_BASE)).
  - ksimpl. done.
  - intros i s' _ H. unfold wra. wp_auto. ksimpl. done.
  - intros s' [H1 H2]. split.
    + split; rewrite ?H1, ?H2; [done|constructor|clia|done|by intros f Hf%elem_of_nil|].
      intros f [Hf _]. lia.
    + unfold free_count. rewrite H2. done.
Qed.

(** ** Witnesses *)

(** The allocator right after boot. *)
Definition boot_mem : mem_state := mem_state0 <| frame_next := CFG_FRAME_POOL_BASE |>.
Definition boot_kernel : kernel := kernel0 <| k_mem := boot_mem |>.

Lemma boot_frames_inv : frames_inv (k_mem boot_kernel) [].
Proof.
  split; [done|constructor|done|done|by intros f Hf%elem_of_nil|].
  intros f [Hf _]. unfold boot_kernel, boot_mem in Hf. rsimpl_in Hf. lia.
Qed.

Lemma alloc_frame_fresh_witness :
  frames_inv (k_mem boot_kernel) [] /\
  wp alloc_frame (fun f s' => pool_frame CFG_FRAME_POOL_END f /\
    frame_refs (k_mem s') (f / 4096) = 1) boot_kernel.
Proof.
  split; [exact boot_frames_inv|].
  eapply wp_mono; [apply (alloc_frame_fresh boot_kernel []); [exact boot_frames_inv|done]|].
  intros f s' (_ & Hf & _ & Hr & _). by split.
Defined.

(** One frame was handed out. *)
Definition one_frame_kernel : kernel :=
  kernel0 <| k_mem := mem_state0 <| frame_next := CFG_FRAME_POOL_BASE + 4096 |>
                <| frame_refs := upd (fun _ => 0) (CFG_FRAME_POOL_BASE / 4096) 1 |> |>.

Lemma one_frame_inv : frames_inv (k_mem one_frame_kernel) [].
Proof.
  split; [done|constructor|done|done|by intros f Hf%elem_of_nil|].
  intros f [Hf Hm] _. unfold one_frame_kernel in *. rsimpl_in Hf. rsimpl.
  replace f with CFG_FRAME_POOL_BASE; [done|].
  apply frame_slot_inj; [done|done|]. pose proof (Z.div_mod f 4096) as Hdm.
  change CFG_FRAME_POOL_BASE with (4096 * (CFG_FRAME_POOL_BASE / 4096)) in *.
  rewrite Z.mul_comm, Z.div_mul by done. lia.
Qed.

Lemma free_frame_drops_witness :
  wp (free_frame CFG_FRAME_POOL_BASE)
    (fun _ s' => frames_inv (k_mem s') [CFG_FRAME_POOL_BASE]) one_frame_kernel.
Proof.
  eapply wp_mono.
  - apply (free_frame_drops one_frame_kernel [] CFG_FRAME_POOL_BASE one_frame_inv).
    + split; [|done]. vm_compute. by split.
    + set_solver.
  - intros _ s' (_ & _ & _ & _ & H). exact H.
Defined.

Lemma free_frame_count_spec_witness :
  wp free_frame_count (fun n s' => s' = boot_kernel /\ n = free_count (k_mem boot_kernel) [])
    boot_kernel.
Proof. apply (free_frame_count_spec boot_kernel [] boot_frames_inv). Defined.
