(* ===== verification/Linkage.v ===== *)
(** * Linkage: the calls that close a cycle between source files

    The kernel sources are mutually recursive across files: the scheduler calls
    [prepare_signal] (signal.c), which calls [switch_to_next]; a page fault reads
    a file, whose driver may block; a halted machine runs interrupt handlers.
    Each file is modelled against this interface, which plays the role of the
    prototypes of kernel.h for those upward calls.  A component states the
    properties it needs of the interface as classes of laws. *)

From S2P Require Import Prelude Config Kernel.

Class Linkage := {
  (** signal.c *)
  prepare_signal : Z -> K unit;
  (** drivers/keyboard.c and drivers/network.c, the trap-stub entries *)
  on_keyboard_irq : K unit;
  on_network_irq : K unit;
  (** vfs.c: [vnode_read node caller off n dst] and
      [vnode_write node caller off n src]; the latter may update the vnode *)
  vnode_read : vnode -> Z -> Z -> Z -> Z -> K Z;
  vnode_write : vnode -> Z -> Z -> Z -> Z -> K (Z * vnode);
  vnode_release : vnode -> K unit;
  (** where the linker puts [exec_hdr] of exec.c, the one global buffer that the
      kernel passes by address to a function that may also get a user address *)
  exec_hdr : Z;
}.

(** The environment acts: an event reaches its device, which raises its IRQ. *)
Definition deliver `{Linkage} (e : hw_event) : K unit :=
  match e with
  | EvKeys bs =>
      modify (fun s => s <| k_hw ::= fun h => h <| hw_kbd ::= fun q => q ++ bs |> |>) ;;
      on_keyboard_irq
  | EvKbdClose => wr k_hw hw_kbd_closed true ;; on_keyboard_irq
  | EvFrame f =>
      modify (fun s => s <| k_hw ::= fun h => h <| hw_net_rx ::= fun q => q ++ [f] |> |>) ;;
      on_network_irq
  end.

(** [__ei(); __halt(); __di();]: wait for the next device event.  With none to
    come the machine idles forever. *)
Definition wait_interrupt `{Linkage} : K unit :=
  evs ← rd k_hw hw_events ;
  match evs with
  | [] => kstop Idle
  | e :: es => wr k_hw hw_events es ;; deliver e
  end.
