(* ===== verification/Sched.v ===== *)
(** * Sched: the round-robin scheduler and context switching ([scheduler.c])

    [schedule], [sleep], [wakeup], [switch_to_next] and [on_timer] over the
    process table.  The theorems give the scheduling order, the absence of
    starvation, the exact effect of [wakeup] and of the deadline scan, and what
    [switch_to_next] hands the CPU to. *)

From S2P Require Import Prelude Config Kernel Klog Linkage.

(** ** Context switching *)

(** Copy r0..r7; the arrays have 8 elements. *)
Definition copy8 (old new : Z -> Z) : Z -> Z :=
  fun k => if (0 <=? k) && (k <? 8) then new k else old k.

Definition save_ctx (i : Z) : K unit :=
  t ← gets k_trap ;
  mp_ i (fun p => p <| p_ctx ::= fun c =>
    Build_cpu_context (copy8 (regs c) (sctx_r t)) (sctx_pc t) (sctx_sp t)
      (sctx_flags t) (sctx_mode t) |>).

Definition load_ctx (i : Z) : K unit :=
  c ← rp i p_ctx ;
  modify (fun s => s <| k_trap ::= fun t =>
    t <| sctx_r ::= fun r => copy8 r (regs c) |> <| sctx_pc := pc c |>
      <| sctx_sp := sp c |> <| sctx_flags := flags c |> <| sctx_mode := mode c |> |>).

(** [__lptbr]. *)
Definition lptbr (pd : Z) : K unit := wr k_hw hw_ptbr pd.

(** ** Choosing a process *)

Definition runnable (s : kernel) (i : Z) : bool := p_state (proc_at s i) =? CFG_ST_RUNNABLE.

(** The index looked at in round [n] of the scan. *)
Definition nth_candidate (s : kernel) (n : Z) : Z :=
  Z.rem (current (k_sched s) + 1 + n) (nproc (k_procs s)).

Definition nprocs (s : kernel) : nat := Z.to_nat (nproc (k_procs s)).

Definition schedule (s : kernel) : Z :=
  or_neg1 (nth_candidate s <$>
    find_from (fun n => runnable s (nth_candidate s n)) 0 (nprocs s)).

(** ** Sleeping and waking *)

Definition wakeup (ch : chan) : K unit :=
  n ← gets nprocs ;
  for_ 0 n (fun i =>
    p ← gets (fun s => proc_at s i) ;
    when ((p_state p =? CFG_ST_SLEEPING) && chan_eqb (p_chan p) ch)
      (wp_ i p_state CFG_ST_RUNNABLE)).

(** The process whose deadline has passed: the block that [switch_to_next] and
    [on_timer] both apply to every slot. *)
Definition due (s : kernel) (p : proc) : bool :=
  (p_state p =? CFG_ST_SLEEPING) && (p_sleep_deadline p !=? 0) &&
  (ticks (k_sched s) >=? p_sleep_deadline p).

Definition wake_due (i : Z) : K unit :=
  p ← gets (fun s => proc_at s i) ;
  d ← gets (fun s => due s p) ;
  when d
    ((if p_poll_deadline p !=? 0 then
        add_pc i CFG_SYSCALL_INSTR_SIZE ;;
        wp_ i p_poll_deadline 0
      else if p_tty_deadline p !=? 0 then
        wp_ i p_tty_deadline 0 ;;
        wp_ i p_tty_timed_out 1
      else mret tt) ;;
     wp_ i p_sleep_deadline 0 ;;
     wp_ i p_sleep_remaining 0 ;;
     wreg i 0 0 ;;
     wp_ i p_state CFG_ST_RUNNABLE).

Definition wake_due_all : K unit := n ← gets nprocs ; for_ 0 n wake_due.

(** The scan of [switch_to_next]: is any process blocked, and the earliest
    deadline of a sleeper (0 for none). *)
Definition is_blocked (s : kernel) (i : Z) : bool :=
  (p_state (proc_at s i) =? CFG_ST_SLEEPING) || (p_state (proc_at s i) =? CFG_ST_STOPPED).

Definition any_blocked (s : kernel) : bool := exists_from (is_blocked s) 0 (nprocs s).

Definition earlier (s : kernel) (i deadline : Z) : Z :=
  let p := proc_at s i in
  if (p_state p =? CFG_ST_SLEEPING) && (p_sleep_deadline p !=? 0) &&
     ((deadline =? 0) || (p_sleep_deadline p <? deadline))
  then p_sleep_deadline p else deadline.

Fixpoint min_deadline (s : kernel) (lo : Z) (n : nat) (deadline : Z) : Z :=
  match n with
  | O => deadline
  | S n' => min_deadline s (lo + 1) n' (earlier s lo deadline)
  end.

Section switching.
Context `{Linkage}.

(** One round of the loop of [switch_to_next] with no runnable process. *)
Definition no_runnable_round : K Z :=
  blocked ← gets any_blocked ;
  deadline ← gets (fun s => min_deadline s 0 (nprocs s) 0) ;
  when (negb blocked)
    (klog (str "kernel: all processes exited" ++ [10]) ;; kstop Halted) ;;
  next ← (if deadline !=? 0 then
            wr k_sched ticks deadline ;;
            wake_due_all ;;
            gets schedule
          else mret (-1)) ;
  if next >=? 0 then mret next
  else
    wr k_hw hw_timer_period 0 ;;
    wait_interrupt ;;
    gets schedule.

(** The loop of [switch_to_next].  Every round without a runnable process
    consumes a device event, or wakes a sleeper and is the last, so one round
    more than the events left suffices ([pick_next_total]). *)
Definition pick_next : K Z :=
  next ← gets schedule ;
  evs ← rd k_hw hw_events ;
  while_ (S (S (length evs)))
    (fun next => if next <? 0 then r ← no_runnable_round ; mret (inl r)
                 else mret (inr next)) next.

Definition switch_to_next : K unit :=
  next ← pick_next ;
  wr k_hw hw_timer_period CFG_TIMER_PERIOD ;;
  wr k_sched current next ;;
  prepare_signal next.

Definition sleep (idx : Z) (ch : chan) : K unit :=
  wp_ idx p_chan ch ;;
  wp_ idx p_state CFG_ST_SLEEPING ;;
  switch_to_next.

Definition on_timer : K unit :=
  m ← rd k_trap sctx_mode ;
  when (m !=? CFG_MODE_USER) (panic "timer outside user") ;;
  t ← rd k_sched ticks ;
  wr k_sched ticks (t +! 1) ;;
  cur ← rd k_sched current ;
  save_ctx cur ;;
  wake_due_all ;;
  next ← gets schedule ;
  when (next <? 0) (panic "no runnable process in timer") ;;
  wr k_sched current next ;;
  prepare_signal next ;;
  cur ← rd k_sched current ;
  load_ctx cur ;;
  pd ← rp cur (fun p => ptbr (p_vm p)) ;
  lptbr pd.
End switching.

Definition poll_wakeup : K unit := wakeup ChanPoll.

(** ** The scheduling order *)

(** How far after [current] the scan reaches slot [j]. *)
Definition rr_dist (s : kernel) (j : Z) : Z :=
  (j - current (k_sched s) - 1) mod nproc (k_procs s).

(** The process table is well dimensioned and a current process is chosen. *)
Definition sched_ok (s : kernel) : Prop :=
  0 <= current (k_sched s) < nproc (k_procs s) /\ nproc (k_procs s) <= CFG_MAX_PROC.

Lemma nth_candidate_range s n :
  sched_ok s -> 0 <= n -> 0 <= nth_candidate s n < nproc (k_procs s).
Proof.
  unfold sched_ok, nth_candidate. intros [H _] Hn. rewrite Z.rem_mod_nonneg by lia.
  apply Z.mod_pos_bound. lia.
Qed.

Lemma nth_candidate_dist s j :
  sched_ok s -> 0 <= j < nproc (k_procs s) -> nth_candidate s (rr_dist s j) = j.
Proof.
  unfold sched_ok, nth_candidate, rr_dist. intros [H _] Hj.
  pose proof (Z.mod_pos_bound (j - current (k_sched s) - 1) (nproc (k_procs s))).
  rewrite Z.rem_mod_nonneg by lia. rewrite Z.add_mod_idemp_r by lia.
  replace (current (k_sched s) + 1 + (j - current (k_sched s) - 1)) with j by lia.
  apply Z.mod_small. lia.
Qed.

Lemma rr_dist_candidate s n :
  sched_ok s -> 0 <= n < nproc (k_procs s) -> rr_dist s (nth_candidate s n) = n.
Proof.
  unfold sched_ok, nth_candidate, rr_dist. intros [H _] Hn.
  rewrite Z.rem_mod_nonneg by lia.
  replace ((current (k_sched s) + 1 + n) mod nproc (k_procs s) - current (k_sched s) - 1)
    with ((current (k_sched s) + 1 + n) mod nproc (k_procs s) - (current (k_sched s) + 1)) by lia.
  rewrite Zminus_mod_idemp_l. replace (_ + n - _) with n by lia. apply Z.mod_small. lia.
Qed.

Lemma rr_dist_range s j : sched_ok s -> 0 <= rr_dist s j < nproc (k_procs s).
Proof. unfold sched_ok, rr_dist. intros [H _]. apply Z.mod_pos_bound. lia. Qed.

Lemma schedule_cases s :
  sched_ok s ->
  (schedule s = -1 /\ forall j, 0 <= j < nproc (k_procs s) -> runnable s j = false) \/
  (0 <= schedule s < nproc (k_procs s) /\ runnable s (schedule s) = true /\
   forall j, 0 <= j < nproc (k_procs s) -> runnable s j = true ->
     rr_dist s (schedule s) <= rr_dist s j).
Proof.
  intros Hok. unfold schedule, nprocs. pose proof Hok as [Hc _].
  destruct (find_from _ 0 _) as [n|] eqn:E; cbn [fmap option_fmap option_map or_neg1 from_option id].
  - apply find_from_Some in E as (Hn & Hr & Hmin). right.
    split; [apply nth_candidate_range; [done|lia]|]. split; [done|].
    intros j Hj Hrj. rewrite rr_dist_candidate by (done || lia).
    destruct (decide (n <= rr_dist s j)) as [|Hlt]; [done|exfalso].
    rewrite <- (nth_candidate_dist s j) in Hrj by done.
    rewrite Hmin in Hrj; [done|]. pose proof (rr_dist_range s j Hok). lia.
  - left. split; [done|]. intros j Hj.
    rewrite <- (nth_candidate_dist s j) by done.
    apply (find_from_None _ _ _ E). pose proof (rr_dist_range s j Hok). lia.
Qed.

(** C19: [schedule] returns -1 exactly when no slot is runnable, and otherwise the
    runnable slot that comes first in cyclic order after the current process. *)
Theorem schedule_round_robin s :
  sched_ok s ->
  (schedule s = -1 /\ forall j, 0 <= j < nproc (k_procs s) -> runnable s j = false) \/
  (0 <= schedule s < nproc (k_procs s) /\ runnable s (schedule s) = true /\
   forall j, 0 <= j < nproc (k_procs s) -> runnable s j = true ->
     rr_dist s (schedule s) <= rr_dist s j).
Proof. apply schedule_cases. Qed.

(** C20: bounded waiting.  Along any sequence of scheduling decisions (other
    processes may change arbitrarily in between), a process that stays runnable
    is picked within [nproc] decisions. *)
Theorem schedule_no_starvation (σ : nat -> kernel) (n i : Z) :
  (forall k, sched_ok (σ k) /\ nproc (k_procs (σ k)) = n) ->
  (forall k, current (k_sched (σ (S k))) = schedule (σ k)) ->
  (forall k, runnable (σ k) i = true) -> 0 <= i < n ->
  exists k, Z.of_nat k < n /\ schedule (σ k) = i.
Proof.
  intros Hok Hstep Hrun Hi.
  assert (Hgen : forall d k, rr_dist (σ k) i <= Z.of_nat d ->
            exists k', (k <= k' <= k + d)%nat /\ schedule (σ k') = i).
  { induction d as [|d IH]; intros k Hd.
    all: destruct (Hok k) as [Hk Hn]; pose proof (rr_dist_range (σ k) i Hk) as Hri.
    all: destruct (schedule_cases (σ k) Hk) as [[_ Hnone]|(Hr & Hrr & Hmin)];
      [specialize (Hnone i ltac:(lia)); by rewrite Hrun in Hnone|].
    all: specialize (Hmin i ltac:(lia) (Hrun k)).
    all: pose proof (rr_dist_range (σ k) (schedule (σ k)) Hk) as Hrs.
    - exists k. split; [lia|].
      rewrite <- (nth_candidate_dist (σ k) i), <- (nth_candidate_dist (σ k) (schedule (σ k)))
        by (done || lia). f_equal. lia.
    - destruct (decide (schedule (σ k) = i)) as [|Hne]; [exists k; split; [lia|done]|].
      destruct (IH (S k)) as (k' & Hk' & ?); [|exists k'; split; [lia|done]].
      assert (Hlt : rr_dist (σ k) (schedule (σ k)) < rr_dist (σ k) i).
      { destruct (decide (rr_dist (σ k) (schedule (σ k)) = rr_dist (σ k) i)) as [Heq|]; [|lia].
        exfalso. apply Hne.
        rewrite <- (nth_candidate_dist (σ k) i), <- (nth_candidate_dist (σ k) (schedule (σ k)))
          by (done || lia). by rewrite Heq. }
      assert (Hd' : rr_dist (σ (S k)) i = rr_dist (σ k) i - rr_dist (σ k) (schedule (σ k)) - 1).
      { destruct (Hok (S k)) as [_ Hn']. unfold rr_dist at 1. rewrite Hn', Hstep, <- Hn.
        rewrite <- (Z.mod_small (rr_dist (σ k) i - rr_dist (σ k) (schedule (σ k)) - 1)
                      (nproc (k_procs (σ k)))) by lia.
        unfold rr_dist.
        rewrite <- (Zminus_mod_idemp_l (_ mod _ - _ mod _) 1), <- Zminus_mod, Zminus_mod_idemp_l.
        f_equal. lia. }
      lia. }
  destruct (Hgen (Z.to_nat (n - 1)) 0%nat) as (k & Hk & Hs).
  - destruct (Hok 0%nat) as [H0 Hn0]. pose proof (rr_dist_range _ i H0). lia.
  - exists k. split; [lia|done].
Qed.

(** ** Updates of the process table *)

(** Only the process table differs. *)
Definition procs_only (s s' : kernel) : Prop :=
  exists t, s' = s <| k_procs ::= fun r => r <| proc_table := t |> |>.

Lemma procs_only_refl s : procs_only s s.
Proof. exists (proc_table (k_procs s)). by destruct s as [? ? []]. Qed.

Lemma procs_only_trans s1 s2 s3 : procs_only s1 s2 -> procs_only s2 s3 -> procs_only s1 s3.
Proof. intros [x ->] [y ->]. by exists y. Qed.

Lemma procs_only_slot i g s : procs_only s (slot_upd i g s).
Proof. by eexists. Qed.

(** A loop whose body rewrites slot [i] by [g] maps [g] over the range. *)
Lemma wp_for_procs (g : proc -> proc) body lo n s (Q : unit -> kernel -> Prop) :
  (forall i s', procs_only s s' ->
     wp (body i) (fun _ s'' => procs_only s' s'' /\ proc_at s'' i = g (proc_at s' i) /\
       forall j, j <> i -> proc_at s'' j = proc_at s' j) s') ->
  (forall s', procs_only s s' ->
     (forall j, proc_at s' j =
        if (lo <=? j) && (j <? lo + Z.of_nat n) then g (proc_at s j) else proc_at s j) -> Q tt s') ->
  wp (for_ lo n body) Q s.
Proof.
  intros Hb HQ.
  apply (wp_for (fun i s' => procs_only s s' /\ forall j, proc_at s' j =
     if (lo <=? j) && (j <? i) then g (proc_at s j) else proc_at s j)).
  - split; [apply procs_only_refl|]. intros j.
    by destruct (Z.leb_spec lo j), (Z.ltb_spec j lo); simpl; [lia|..].
  - intros i s' Hi [Hp Hs]. eapply wp_mono; [by apply Hb|]. intros _u s'' (Hp' & Hi' & Hj).
    split; [by eapply procs_only_trans|]. intros j. destruct (decide (j = i)) as [->|Hne].
    + rewrite Hi', Hs. destruct (Z.leb_spec lo i), (Z.ltb_spec i i), (Z.ltb_spec i (i + 1)); simpl; lia || done.
    + rewrite Hj, Hs by done.
      destruct (Z.leb_spec lo j), (Z.ltb_spec j i), (Z.ltb_spec j (i + 1)); simpl; lia || done.
  - intros s' [Hp Hs]. by apply HQ.
Qed.

Definition sleeping_on (ch : chan) (p : proc) : bool :=
  (p_state p =? CFG_ST_SLEEPING) && chan_eqb (p_chan p) ch.

Definition in_table (s : kernel) (j : Z) : bool := (0 <=? j) && (j <? nproc (k_procs s)).

Lemma in_table_nprocs s j : (0 <=? j) && (j <? 0 + Z.of_nat (nprocs s)) = in_table s j.
Proof.
  unfold in_table, nprocs. destruct (Z.leb_spec 0 j); simpl; [|done].
  destruct (Z.ltb_spec j (nproc (k_procs s))), (Z.ltb_spec j (0 + Z.of_nat (Z.to_nat (nproc (k_procs s)))));
    lia || done.
Qed.

(** The processes that sleep on [ch] are runnable; nothing else differs: not their other
    fields, not the other processes, not any other part of the kernel. *)
Definition woken_on (ch : chan) (s s' : kernel) : Prop :=
  procs_only s s' /\
  forall j, proc_at s' j = if in_table s j && sleeping_on ch (proc_at s j)
                           then (proc_at s j) <| p_state := CFG_ST_RUNNABLE |>
                           else proc_at s j.

Lemma wp_wakeup ch s (Q : unit -> kernel -> Prop) :
  (forall s', procs_only s s' ->
     (forall j, proc_at s' j = if in_table s j && sleeping_on ch (proc_at s j)
                               then (proc_at s j) <| p_state := CFG_ST_RUNNABLE |>
                               else proc_at s j) -> Q tt s') ->
  wp (wakeup ch) Q s.
Proof.
  intros HQ. unfold wakeup. wp_auto.
  apply (wp_for_procs (fun p => if sleeping_on ch p then p <| p_state := CFG_ST_RUNNABLE |> else p)).
  - intros i s' _. wp_auto. unfold sleeping_on. wp_case E; wp_auto.
    + split; [apply procs_only_slot|]. rewrite proc_at_slot_upd. split; [done|].
      intros j Hj. by rewrite proc_at_slot_upd_ne.
    + split; [apply procs_only_refl|]. done.
  - intros s' Hp Hs. apply HQ; [done|]. intros j. rewrite Hs, in_table_nprocs.
    destruct (in_table s j), (sleeping_on ch (proc_at s j)); done.
Qed.

(** [wakeup ch] makes runnable exactly the table slots that sleep on [ch] and
    changes nothing else: not their other fields, not the other processes, not
    any other part of the kernel. *)
Theorem wakeup_exact ch s :
  wp (wakeup ch) (fun _ s' => woken_on ch s s') s.
Proof. apply wp_wakeup. by split. Qed.

(** What a process whose deadline passed becomes: a [poll] resumes after its INT
    with 0, a timed TTY read is marked as timed out. *)
Definition woken (p : proc) : proc :=
  let p1 :=
    if p_poll_deadline p !=? 0 then
      p <| p_ctx ::= fun c => c <| pc ::= fun x => x +! CFG_SYSCALL_INSTR_SIZE |> |>
        <| p_poll_deadline := 0 |>
    else if p_tty_deadline p !=? 0 then p <| p_tty_deadline := 0 |> <| p_tty_timed_out := 1 |>
    else p in
  p1 <| p_sleep_deadline := 0 |> <| p_sleep_remaining := 0 |>
     <| p_ctx ::= set_reg 0 0 |> <| p_state := CFG_ST_RUNNABLE |>.

Lemma wp_wake_due_all s (Q : unit -> kernel -> Prop) :
  (forall s', procs_only s s' ->
     (forall j, proc_at s' j = if in_table s j && due s (proc_at s j)
                               then woken (proc_at s j) else proc_at s j) -> Q tt s') ->
  wp wake_due_all Q s.
Proof.
  intros HQ. unfold wake_due_all. wp_auto.
  apply (wp_for_procs (fun p => if due s p then woken p else p)).
  - intros i s' [t ->]. unfold wake_due. wp_auto.
    change (due (s <| k_procs ::= _ |>)) with (due s).
    wp_case E; rewrite ?E.
    + apply wp_bind. unfold woken. wp_case E1; [|wp_case E2].
      all: wp_auto; slot_merge; (split; [apply procs_only_slot|]);
        rewrite proc_at_slot_upd; (split; [done|]);
        intros j Hj; by rewrite proc_at_slot_upd_ne by congruence.
    + wp_auto. split; [apply procs_only_refl|done].
  - intros s' Hp Hs. apply HQ; [done|]. intros j. rewrite Hs, in_table_nprocs.
    by destruct (in_table s j), (due s (proc_at s j)).
Qed.

(** The deadline scan of the timer wakes exactly the sleepers whose deadline
    has passed.  Each of them becomes runnable with result 0, no deadline and no
    time-out left over; an interrupted [poll] is moved past its INT instruction;
    every other process and the rest of the kernel are unchanged. *)
Theorem wake_due_all_exact s :
  wp wake_due_all (fun _ s' => procs_only s s' /\
    forall j, proc_at s' j = if in_table s j && due s (proc_at s j)
                             then woken (proc_at s j) else proc_at s j) s.
Proof. apply wp_wake_due_all. auto. Qed.

(** ** Context save and restore *)

(** [load_ctx] undoes [save_ctx]: after saving the trap frame into a slot,
    clobbering the frame arbitrarily and loading the slot, all registers of the
    frame are back. *)
Theorem save_load_ctx i s (clobber : trap_state -> trap_state) :
  wp (save_ctx i ;; modify (fun s => s <| k_trap ::= clobber |>) ;; load_ctx i)
    (fun _ s' => let t := k_trap s in let t' := k_trap s' in
       (forall k, 0 <= k < 8 -> sctx_r t' k = sctx_r t k) /\ sctx_pc t' = sctx_pc t /\
       sctx_sp t' = sctx_sp t /\ sctx_flags t' = sctx_flags t /\ sctx_mode t' = sctx_mode t) s.
Proof.
  unfold save_ctx, load_ctx. wp_auto. ksimpl. rewrite !upd_same. rsimpl. cbn [regs pc sp flags mode].
  split; [|done]. intros k Hk. unfold copy8.
  by destruct (Z.leb_spec 0 k), (Z.ltb_spec k 8); simpl; [|lia..].
Qed.

(** ** switch_to_next *)

Definition timed_sleeper (p : proc) : bool :=
  (p_state p =? CFG_ST_SLEEPING) && (p_sleep_deadline p !=? 0).

Lemma timed_sleeper_blocked s i :
  timed_sleeper (proc_at s i) = true -> is_blocked s i = true.
Proof. unfold timed_sleeper, is_blocked. by destruct (p_state (proc_at s i) =? CFG_ST_SLEEPING). Qed.

Lemma earlier_spec s i d :
  earlier s i d =
  if timed_sleeper (proc_at s i) && ((d =? 0) || (p_sleep_deadline (proc_at s i) <? d))
  then p_sleep_deadline (proc_at s i) else d.
Proof. unfold earlier, timed_sleeper. cbv zeta. done. Qed.

(** The scan returns the least non-zero deadline, starting from [d]. *)
Lemma min_deadline_spec s lo n d :
  let r := min_deadline s lo n d in
  (r = d \/ exists j, lo <= j < lo + Z.of_nat n /\ timed_sleeper (proc_at s j) = true /\
                      p_sleep_deadline (proc_at s j) = r) /\
  (d <> 0 -> r <> 0 /\ r <= d) /\
  (forall j, lo <= j < lo + Z.of_nat n -> timed_sleeper (proc_at s j) = true ->
     r <> 0 /\ r <= p_sleep_deadline (proc_at s j)).
Proof.
  revert lo d. induction n as [|n IH]; intros lo d; cbn [min_deadline]; cbv zeta.
  - split; [by left|]. split; [lia|]. intros j Hj. lia.
  - destruct (IH (lo + 1) (earlier s lo d)) as (H1 & H2 & H3). cbv zeta in *.
    rewrite earlier_spec in *.
    set (r := min_deadline s (lo + 1) n _) in *.
    destruct (timed_sleeper (proc_at s lo)) eqn:Et; cbn [andb] in *.
    + assert (Hnz : p_sleep_deadline (proc_at s lo) <> 0).
      { unfold timed_sleeper in Et. bool_hyps. done. }
      destruct ((d =? 0) || (p_sleep_deadline (proc_at s lo) <? d)) eqn:Ed.
      * destruct (H2 Hnz) as [Hr1 Hr2]. split; [|split].
        -- right. destruct H1 as [H1|(j & Hj & ? & ?)]; [exists lo; repeat split; [lia|lia|done|done]|].
           exists j. repeat split; [lia|lia|done|done].
        -- intros Hd. apply orb_true_iff in Ed as [Ed|Ed]; bool_hyps; lia.
        -- intros j Hj Htj. destruct (decide (j = lo)) as [->|]; [done|]. apply H3; [lia|done].
      * bool_hyps. assert (Hd : d <> 0) by done. destruct (H2 Hd) as [Hr1 Hr2]. split; [|split].
        -- destruct H1 as [H1|(j & Hj & ? & ?)]; [by left|right]. exists j. repeat split; [lia|lia|done|done].
        -- done.
        -- intros j Hj Htj. destruct (decide (j = lo)) as [->|]; [lia|]. apply H3; [lia|done].
    + split; [|split].
      * destruct H1 as [H1|(j & Hj & ? & ?)]; [by left|right]. exists j. repeat split; [lia|lia|done|done].
      * done.
      * intros j Hj Htj. destruct (decide (j = lo)) as [->|]; [congruence|]. apply H3; [lia|done].
Qed.

(** The state in which [switch_to_next] hands over to process [next]. *)
Definition dispatched (next : Z) (s : kernel) : kernel :=
  s <| k_hw ::= fun h => h <| hw_timer_period := CFG_TIMER_PERIOD |> |>
    <| k_sched ::= fun r => r <| current := next |> |>.

Lemma schedule_range s : sched_ok s -> -1 <= schedule s < nproc (k_procs s).
Proof.
  intros H. destruct (schedule_cases s H) as [[-> _]|(? & _)]; unfold sched_ok in H; lia.
Qed.

Section switch_theorems.
Context `{Linkage}.

Lemma pick_next_runnable s : 0 <= schedule s -> pick_next s = Ret (schedule s) s.
Proof.
  intros Hs. unfold pick_next, mbind, K_bind, gets, rd. cbn [while_].
  assert (E : (schedule s <? 0) = false) by (apply Z.ltb_ge; lia).
  unfold mbind, K_bind. by rewrite E.
Qed.

Lemma switch_to_next_after_pick s next s' :
  pick_next s = Ret next s' -> switch_to_next s = prepare_signal next (dispatched next s').
Proof. intros E. unfold switch_to_next, mbind, K_bind. by rewrite E. Qed.

(** with a runnable process, [switch_to_next] restarts the timer, makes the
    round-robin choice current and prepares its signals; it changes nothing
    else. *)
Theorem switch_to_next_runnable s :
  0 <= schedule s ->
  switch_to_next s = prepare_signal (schedule s) (dispatched (schedule s) s).
Proof. intros Hs. apply switch_to_next_after_pick, pick_next_runnable, Hs. Qed.
End switch_theorems.

(** What the interrupt handlers owe the idle loop: they return, and leave no more
    device events pending than they found. *)
Class IrqLaws `{Linkage} : Prop := {
  keyboard_irq_returns : forall s, wp on_keyboard_irq
    (fun _ s' => (length (hw_events (k_hw s')) <= length (hw_events (k_hw s)))%nat) s;
  network_irq_returns : forall s, wp on_network_irq
    (fun _ s' => (length (hw_events (k_hw s')) <= length (hw_events (k_hw s)))%nat) s;
}.

Section idle_theorems.
Context `{Linkage}.

(** When no process is runnable and none is blocked, [switch_to_next]
    logs the fact and halts the machine. *)
Theorem switch_to_next_halts s :
  schedule s = -1 -> any_blocked s = false ->
  exists s', switch_to_next s = Stop Halted s' /\ log_only s s'.
Proof.
  intros Hs Hb. destruct (klog_runs (str "kernel: all processes exited" ++ [10]) s) as (s' & E & Hlo).
  exists s'. split; [|done].
  unfold switch_to_next, pick_next, mbind, K_bind, gets, rd. rewrite Hs.
  cbn [while_]. change (-1 <? 0) with true.
  cbv beta iota delta [no_runnable_round mbind K_bind gets]. rewrite Hb.
  cbn [negb when]. unfold mbind, K_bind. by rewrite E.
Qed.

(** The first timed sleeper is due once the clock reaches the least deadline. *)
Definition next_deadline (s : kernel) : Z := min_deadline s 0 (nprocs s) 0.

Lemma next_deadline_due s j :
  0 <= j < nproc (k_procs s) -> timed_sleeper (proc_at s j) = true ->
  next_deadline s <> 0 /\
  exists i, 0 <= i < nproc (k_procs s) /\ timed_sleeper (proc_at s i) = true /\
    p_sleep_deadline (proc_at s i) = next_deadline s /\
    p_sleep_deadline (proc_at s i) <= p_sleep_deadline (proc_at s j).
Proof.
  intros Hj Ht. destruct (min_deadline_spec s 0 (nprocs s) 0) as (H1 & _ & H3).
  fold (next_deadline s) in H1, H3. assert (Hn : 0 + Z.of_nat (nprocs s) = nproc (k_procs s))
    by (unfold nprocs; lia). rewrite Hn in *.
  destruct (H3 j Hj Ht) as [Hnz Hle]. split; [done|].
  destruct H1 as [|(i & ? & ? & Hi)]; [done|]. exists i. repeat split; try done; lia.
Qed.

(** What the fast-forward makes of the process table. *)
Definition fast_forwarded (s s' : kernel) : Prop :=
  procs_only (s <| k_sched ::= fun r => r <| ticks := next_deadline s |> |>) s' /\
  (forall j, proc_at s' j =
     if in_table s j && (timed_sleeper (proc_at s j) && (next_deadline s >=? p_sleep_deadline (proc_at s j)))
     then woken (proc_at s j) else proc_at s j).

Lemma fast_forward_runs s :
  exists s', (wr k_sched ticks (next_deadline s) ;; wake_due_all ;; gets schedule) s
               = Ret (schedule s') s' /\ fast_forwarded s s'.
Proof.
  set (s1 := s <| k_sched ::= fun r => r <| ticks := next_deadline s |> |>).
  destruct (wpm_elim wake_due_all (fun _ s' => fast_forwarded s s') s1) as (u & s' & E & Hff).
  { apply wp_wake_due_all. intros s' Hp Hs. split; [done|]. intros j. rewrite Hs.
    change (in_table s1 j) with (in_table s j). change (proc_at s1 j) with (proc_at s j).
    unfold due, timed_sleeper. change (ticks (k_sched s1)) with (next_deadline s). done. }
  exists s'. split; [|done]. unfold mbind, K_bind, wr, modify, gets. fold s1. by rewrite E.
Qed.

Lemma fast_forwarded_runnable s s' i :
  fast_forwarded s s' -> 0 <= i < nproc (k_procs s) ->
  timed_sleeper (proc_at s i) = true -> p_sleep_deadline (proc_at s i) = next_deadline s ->
  runnable s' i = true.
Proof.
  intros [_ Hs] Hi Ht Hd. unfold runnable. rewrite Hs, Ht, Hd, Z.leb_refl.
  assert (Hin : in_table s i = true) by (unfold in_table; apply andb_true_iff; lia).
  rewrite Hin. cbn [andb]. unfold woken. rsimpl. by rewrite Z.eqb_refl.
Qed.

Lemma fast_forwarded_sched_ok s s' : fast_forwarded s s' -> sched_ok s -> sched_ok s'.
Proof. intros [[t ->] _]. done. Qed.

Lemma no_runnable_round_ff s s' :
  any_blocked s = true -> next_deadline s <> 0 -> 0 <= schedule s' ->
  (wr k_sched ticks (next_deadline s) ;; wake_due_all ;; gets schedule) s = Ret (schedule s') s' ->
  no_runnable_round s = Ret (schedule s') s'.
Proof.
  intros Hb Hd Hs E. unfold no_runnable_round.
  unfold mbind at 1, K_bind at 1, gets at 1. unfold mbind at 1, K_bind at 1, gets at 1.
  rewrite Hb. fold (next_deadline s). cbn [negb when].
  unfold mbind at 1, K_bind at 1, mret, K_ret. unfold mbind at 1, K_bind at 1.
  apply Z.eqb_neq in Hd as ->. cbn [negb]. rewrite E.
  apply Z.leb_le in Hs as ->. done.
Qed.

(** With nothing runnable but a sleeper with a deadline, the clock jumps to
    the earliest deadline, exactly the sleepers due by then are woken, and the
    round-robin choice among them runs.  No device event is waited for. *)
Theorem switch_to_next_fast_forwards s j :
  sched_ok s -> schedule s = -1 ->
  0 <= j < nproc (k_procs s) -> timed_sleeper (proc_at s j) = true ->
  exists s', fast_forwarded s s' /\ 0 <= schedule s' < nproc (k_procs s) /\
    runnable s' (schedule s') = true /\
    switch_to_next s = prepare_signal (schedule s') (dispatched (schedule s') s').
Proof.
  intros Hok Hs Hj Ht. destruct (fast_forward_runs s) as (s' & E & Hff). exists s'.
  destruct (next_deadline_due s j Hj Ht) as (Hnz & i & Hi & Hti & Hdi & _).
  pose proof (fast_forwarded_runnable s s' i Hff Hi Hti Hdi) as Hri.
  pose proof (fast_forwarded_sched_ok s s' Hff Hok) as Hok'.
  assert (Hn : nproc (k_procs s') = nproc (k_procs s)) by (destruct Hff as [[t ->] _]; done).
  destruct (schedule_cases s' Hok') as [[_ Hno]|(Hr & Hrr & _)].
  { rewrite Hno in Hri by lia. done. }
  split; [done|]. split; [lia|]. split; [done|]. apply switch_to_next_after_pick.
  unfold pick_next. do 2 (erewrite run_bind by done). rewrite Hs, while_S.
  change (-1 <? 0) with true. cbv iota.
  erewrite run_bind by (apply (no_runnable_round_ff s s'); [|done|lia|done];
    apply exists_from_true; exists i; split; [unfold nprocs; lia|];
    by apply timed_sleeper_blocked).
  unfold mret, K_ret; rewrite while_S.
  assert (E' : (schedule s' <? 0) = false) by (apply Z.ltb_ge; lia).
  by rewrite E'.
Qed.
End idle_theorems.

Section idle_total.
Context `{IrqLaws}.
#[local] Set Default Proof Using "Type*".

Definition pending (s : kernel) : nat := length (hw_events (k_hw s)).

Lemma wait_interrupt_cases s :
  (exists s', wait_interrupt s = Ret tt s' /\ (pending s' < pending s)%nat) \/
  (wait_interrupt s = Stop Idle s /\ pending s = 0%nat).
Proof.
  unfold wait_interrupt, pending. erewrite run_bind by done.
  destruct (hw_events (k_hw s)) as [|e es] eqn:Ev; [by right|left].
  erewrite run_bind by done.
  assert (Hd : forall (f : hw_state -> hw_state) m, hw_events (f ((k_hw s) <| hw_events := es |>)) = es ->
            (forall s0, wp m (fun _ s' => (pending s' <= pending s0)%nat) s0) ->
            exists s', (modify (fun s => s <| k_hw ::= f |>) ;; m) (s <| k_hw ::= fun h => h <| hw_events := es |> |>)
                         = Ret tt s' /\ (pending s' < length (e :: es))%nat).
  { intros f m Hf Hm. erewrite run_bind by done.
    destruct (wpm_elim _ _ _ (Hm (s <| k_hw ::= fun h => h <| hw_events := es |> |> <| k_hw ::= f |>)))
      as ([] & s' & E & Hle). exists s'. split; [done|].
    unfold pending in *. rsimpl_in Hle. rewrite Hf in Hle. cbn [length]. lia. }
  destruct e as [bs| |f].
  - by apply Hd; [|apply keyboard_irq_returns].
  - by apply (Hd (fun h => h <| hw_kbd_closed := true |>)); [|apply keyboard_irq_returns].
  - by apply Hd; [|apply network_irq_returns].
Qed.

Lemma no_runnable_round_cases s :
  match no_runnable_round s with
  | Ret next s' => 0 <= next \/ (pending s' < pending s)%nat
  | Stop w s' => w = Halted \/ w = Idle
  end.
Proof.
  unfold no_runnable_round. do 2 (erewrite run_bind by done).
  destruct (any_blocked s) eqn:Eb; cbn [negb when].
  2:{ destruct (klog_runs (str "kernel: all processes exited" ++ [10]) s) as (s' & E & _).
      rewrite (run_bind_stop _ _ s Halted s'); [by left|]. by rewrite (run_bind _ _ _ _ _ E). }
  erewrite run_bind by done.
  assert (Hidle : forall s1, pending s1 = pending s ->
    match (wr k_hw hw_timer_period 0 ;; wait_interrupt ;; gets schedule) s1 with
    | Ret next s' => 0 <= next \/ (pending s' < pending s)%nat
    | Stop w s' => w = Halted \/ w = Idle
    end).
  { intros s1 Hs1. erewrite run_bind by done.
    set (s2 := s1 <| k_hw ::= _ |>). assert (Hs2 : pending s2 = pending s) by done.
    destruct (wait_interrupt_cases s2) as [(s3 & E & Hlt)|[E _]].
    - erewrite run_bind by exact E. right. lia.
    - erewrite run_bind_stop by exact E. by right. }
  destruct (negb (_ =? 0)) eqn:Ed.
  - fold (next_deadline s). destruct (fast_forward_runs s) as (s' & E & [[t Ht] _]).
    erewrite run_bind by exact E. destruct (Z.leb_spec 0 (schedule s')); [by left|].
    apply Hidle. rewrite Ht. done.
  - erewrite run_bind by done. change (-1 >=? 0) with false. cbv iota. by apply Hidle.
Qed.

(** the scheduler loop is total.  Whatever the state, given interrupt
    handlers that return and do not fabricate events, the loop of
    [switch_to_next] either finds a runnable process or stops because no process
    is left (halt) or no device event is left (idle): it never spins. *)
Theorem pick_next_total s :
  match pick_next s with
  | Ret next s' => 0 <= next
  | Stop w s' => w = Halted \/ w = Idle
  end.
Proof.
  unfold pick_next. do 2 (erewrite run_bind by done). fold (pending s).
  generalize (schedule s) as next. generalize (le_n (pending s)).
  generalize (pending s) at 2 3 as n. intros n. revert s.
  induction n as [|n IH]; intros s Hn next.
  all: rewrite while_S; destruct (Z.ltb_spec next 0); [|by unfold mret, K_ret].
  all: pose proof (no_runnable_round_cases s) as Hr;
    destruct (no_runnable_round s) as [next' s'|w s'] eqn:E;
    [erewrite run_bind by exact E; unfold mret, K_ret
    |by erewrite run_bind_stop by exact E].
  - destruct Hr as [Hr|Hr]; [|lia]. rewrite while_S.
    destruct (Z.ltb_spec next' 0); [lia|]. done.
  - destruct Hr as [Hr|Hr].
    + rewrite while_S. destruct (Z.ltb_spec next' 0); [lia|]. done.
    + apply IH. lia.
Qed.
End idle_total.

(** ** Witnesses *)

(** Two processes; [st0], [st1] are their states, [c] is current. *)
Definition two_procs (st0 st1 c : Z) : kernel :=
  kernel0 <| k_sched ::= fun r => r <| current := c |> |>
    <| k_procs := procs_state0 <| nproc := 2 |>
         <| proc_table := upd (upd (fun _ => proc0) 0 (proc0 <| p_state := st0 |>))
                              1 (proc0 <| p_state := st1 |>) |> |>.

Lemma two_procs_ok st0 st1 c : 0 <= c < 2 -> sched_ok (two_procs st0 st1 c).
Proof. intros H. split; [exact H|done]. Qed.

Lemma schedule_round_robin_witness :
  let s := two_procs CFG_ST_RUNNABLE CFG_ST_RUNNABLE 0 in
  schedule s = 1 /\
  ((schedule s = -1 /\ forall j, 0 <= j < 2 -> runnable s j = false) \/
   (0 <= schedule s < 2 /\ runnable s (schedule s) = true /\
    forall j, 0 <= j < 2 -> runnable s j = true -> rr_dist s (schedule s) <= rr_dist s j)).
Proof.
  split; [reflexivity|].
  apply (schedule_round_robin (two_procs CFG_ST_RUNNABLE CFG_ST_RUNNABLE 0)).
  apply two_procs_ok. lia.
Defined.

Lemma schedule_no_starvation_witness :
  let σ := fun k : nat =>
    two_procs CFG_ST_RUNNABLE CFG_ST_RUNNABLE (if Nat.even k then 0 else 1) in
  exists k, Z.of_nat k < 2 /\ schedule (σ k) = 1.
Proof.
  apply (schedule_no_starvation (fun k : nat =>
    two_procs CFG_ST_RUNNABLE CFG_ST_RUNNABLE (if Nat.even k then 0 else 1)) 2 1).
  - intros k. split; [|reflexivity]. apply two_procs_ok. destruct (Nat.even k); lia.
  - intros k. rewrite Nat.even_succ, <- Nat.negb_even. destruct (Nat.even k); reflexivity.
  - intros k. destruct (Nat.even k); reflexivity.
  - lia.
Defined.

(** Interrupts and signals that do nothing. *)
Definition idle_linkage : Linkage := {|
  prepare_signal := fun _ => mret tt;
  on_keyboard_irq := mret tt; on_network_irq := mret tt;
  vnode_read := fun _ _ _ _ _ => mret 0;
  vnode_write := fun vn _ _ _ _ => mret (0, vn);
  vnode_release := fun _ => mret tt;
  exec_hdr := 90112 |}.

#[export] Instance idle_irq_laws : @IrqLaws idle_linkage.
Proof. constructor; intros s; apply le_n. Qed.

Lemma switch_to_next_runnable_witness :
  let s := two_procs CFG_ST_RUNNABLE CFG_ST_RUNNABLE 0 in
  @switch_to_next idle_linkage s = Ret tt (dispatched 1 s).
Proof.
  apply (@switch_to_next_runnable idle_linkage (two_procs CFG_ST_RUNNABLE CFG_ST_RUNNABLE 0)).
  vm_compute. discriminate.
Defined.

Lemma switch_to_next_halts_witness :
  let s := two_procs CFG_ST_ZOMBIE CFG_ST_ZOMBIE 0 in
  exists s', @switch_to_next idle_linkage s = Stop Halted s' /\ log_only s s'.
Proof.
  apply (@switch_to_next_halts idle_linkage (two_procs CFG_ST_ZOMBIE CFG_ST_ZOMBIE 0));
    reflexivity.
Defined.

(** Process 1 sleeps until tick 9, process 0 has exited. *)
Definition one_sleeper : kernel :=
  slot_upd 1 (fun p => p <| p_sleep_deadline := 9 |>) (two_procs CFG_ST_ZOMBIE CFG_ST_SLEEPING 0).

Lemma switch_to_next_fast_forwards_witness :
  exists s', fast_forwarded one_sleeper s' /\ 0 <= schedule s' < 2 /\
    runnable s' (schedule s') = true /\
    @switch_to_next idle_linkage one_sleeper = Ret tt (dispatched (schedule s') s').
Proof.
  apply (@switch_to_next_fast_forwards idle_linkage one_sleeper 1).
  - split; [split; [done|reflexivity]|done].
  - reflexivity.
  - split; [done|reflexivity].
  - reflexivity.
Defined.

Lemma pick_next_total_witness :
  match @pick_next idle_linkage one_sleeper with
  | Ret next s' => 0 <= next
  | Stop w s' => w = Halted \/ w = Idle
  end.
Proof. apply (@pick_next_total idle_linkage idle_irq_laws). Defined.
