(* ===== verification/Pipe.v ===== *)
(** * Pipe: the ring buffer of [pipe.c]

    [alloc_pipe], [pipe_write_bytes] and [pipe_read_bytes].  [pipe_bytes] is the
    queue of bytes that a pipe stands for; the theorems show that a write appends
    to it as much as fits and that a read removes from its front, so a pipe
    delivers bytes in order, once and unchanged. *)

From S2P Require Import Prelude Config Kernel Klog RawMem Linkage Sched.

Definition pipe_at (s : kernel) (pp : Z) : pipe := pipe_table (k_pipes s) pp.

Definition pipe_upd (pp : Z) (g : pipe -> pipe) (s : kernel) : kernel :=
  s <| k_pipes ::= fun r => r <| pipe_table ::= fun t => upd t pp (g (t pp)) |> |>.
Definition mpipe (pp : Z) (g : pipe -> pipe) : K unit := modify (pipe_upd pp g).

(** The first free slot of the pipe table, initialised. *)
Definition alloc_pipe : K Z :=
  i ← gets (fun s => find_from (fun i => pi_used (pipe_at s i) =? 0) 0 (Z.to_nat CFG_NPIPE)) ;
  match i with
  | Some i =>
      mpipe i (fun p => p <| pi_used := 1 |>) ;;
      mpipe i (fun p => p <| pi_count := 0 |>) ;;
      mpipe i (fun p => p <| pi_head := 0 |>) ;;
      mpipe i (fun p => p <| pi_nread := 1 |>) ;;
      mpipe i (fun p => p <| pi_nwrite := 1 |>) ;;
      mpipe i (fun p => p <| pi_read_status_flags := 0 |>) ;;
      mpipe i (fun p => p <| pi_write_status_flags := 1 |>) ;;
      mret i
  | None => mret (-1)
  end.

(** One iteration of each copy loop. *)
Definition pipe_put (pp c : Z) : K unit :=
  p ← gets (fun s => pipe_at s pp) ;
  let idx := Z.rem (pi_head p + pi_count p) CFG_PIPESZ in
  mpipe pp (fun p => p <| pi_data ::= fun d => upd d idx c |>) ;;
  mpipe pp (fun p => p <| pi_count ::= fun c => c + 1 |>).

Definition pipe_write_bytes (pp buf len : Z) : K Z :=
  p ← gets (fun s => pipe_at s pp) ;
  let space := CFG_PIPESZ - pi_count p in
  let n := if len >? space then space else len in
  for_ 0 (Z.to_nat n) (fun k => c ← read8_at (buf + k) ; pipe_put pp c) ;;
  poll_wakeup ;;
  mret n.

Definition pipe_read_bytes (pp buf len : Z) : K Z :=
  p ← gets (fun s => pipe_at s pp) ;
  let n := if len >? pi_count p then pi_count p else len in
  for_ 0 (Z.to_nat n) (fun k =>
    p ← gets (fun s => pipe_at s pp) ;
    write8_at (buf + k) (pi_data p (pi_head p)) ;;
    mpipe pp (fun p => p <| pi_head ::= fun h => Z.rem (h + 1) CFG_PIPESZ |>) ;;
    mpipe pp (fun p => p <| pi_count ::= fun c => c - 1 |>)) ;;
  poll_wakeup ;;
  mret n.

(** ** Specification *)

Record pipe_ok (p : pipe) : Prop := {
  pok_head : 0 <= pi_head p < CFG_PIPESZ;
  pok_count : 0 <= pi_count p <= CFG_PIPESZ;
}.

(** The queue of bytes in the pipe, oldest first. *)
Definition pipe_bytes (p : pipe) : list Z :=
  (fun k => pi_data p ((pi_head p + k) mod CFG_PIPESZ)) <$> seqZ 0 (pi_count p).

(** Only pipe [pp] differs. *)
Definition pipe_only (pp : Z) (s s' : kernel) : Prop :=
  exists p, s' = pipe_upd pp (fun _ => p) s.

Lemma pipe_at_upd pp g s : pipe_at (pipe_upd pp g s) pp = g (pipe_at s pp).
Proof. apply upd_same. Qed.

Lemma k_mem_pipe_upd pp g s : k_mem (pipe_upd pp g s) = k_mem s.
Proof. done. Qed.

Lemma pipe_upd_upd pp f g s : pipe_upd pp g (pipe_upd pp f s) = pipe_upd pp (fun p => g (f p)) s.
Proof.
  unfold pipe_upd, setf, set_k_pipes, set_pipe_table. cbn. by rewrite upd_same, upd_upd.
Qed.

Lemma pipe_upd_const pp g s : pipe_upd pp g s = pipe_upd pp (fun _ => g (pipe_at s pp)) s.
Proof. done. Qed.

Lemma pipe_only_refl pp s : pipe_only pp s s.
Proof.
  exists (pipe_at s pp). unfold pipe_upd, pipe_at, setf, set_k_pipes, set_pipe_table. cbn.
  rewrite upd_id. by destruct s as [? ? ? ? ? ? ? []].
Qed.

Lemma pipe_only_trans pp s1 s2 s3 : pipe_only pp s1 s2 -> pipe_only pp s2 s3 -> pipe_only pp s1 s3.
Proof. intros [p ->] [p' ->]. exists p'. by rewrite pipe_upd_upd. Qed.

Lemma pipe_only_upd pp g s : pipe_only pp s (pipe_upd pp g s).
Proof. by eexists. Qed.

Lemma pipe_bytes_length p : pipe_ok p -> Z.of_nat (length (pipe_bytes p)) = pi_count p.
Proof.
  intros Hp. unfold pipe_bytes. rewrite length_fmap, length_seqZ. pose proof (pok_count _ Hp). lia.
Qed.

(** One stored byte goes to the back of the queue. *)
Definition pipe_pushed (c : Z) (p : pipe) : pipe :=
  p <| pi_data ::= fun d => upd d (Z.rem (pi_head p + pi_count p) CFG_PIPESZ) c |>
    <| pi_count ::= fun c => c + 1 |>.

Lemma pipe_put_run pp c s : pipe_put pp c s = Ret tt (pipe_upd pp (pipe_pushed c) s).
Proof.
  unfold pipe_put. erewrite run_bind by done. cbv zeta. erewrite run_bind by done.
  unfold mpipe, modify. by rewrite pipe_upd_upd.
Qed.

Lemma pipe_pushed_ok c p :
  pipe_ok p -> pi_count p < CFG_PIPESZ ->
  pipe_ok (pipe_pushed c p) /\ pipe_bytes (pipe_pushed c p) = pipe_bytes p ++ [c].
Proof.
  intros [Hh Hc] Hlt. unfold pipe_pushed. split; [split; rsimpl; lia|].
  unfold pipe_bytes. rsimpl. rewrite seqZ_app by lia. rewrite fmap_app. f_equal.
  - apply list_fmap_ext. intros i k Hk. apply lookup_seqZ in Hk as [-> Hk].
    rewrite upd_ne; [done|]. rewrite Z.rem_mod_nonneg by clia. intros Heq.
    apply mod_inj_range in Heq; [lia|done|lia].
  - change (seqZ (0 + pi_count p) 1) with [Z.of_nat 0 + (0 + pi_count p)]. cbn.
    rewrite Z.rem_mod_nonneg by clia. by rewrite upd_same.
Qed.

(** One read byte comes off the front. *)
Definition pipe_popped (p : pipe) : pipe :=
  p <| pi_head ::= fun h => Z.rem (h + 1) CFG_PIPESZ |> <| pi_count ::= fun c => c - 1 |>.

Lemma pipe_popped_ok p :
  pipe_ok p -> 0 < pi_count p ->
  pipe_ok (pipe_popped p) /\ pipe_bytes p = pi_data p (pi_head p) :: pipe_bytes (pipe_popped p).
Proof.
  intros [Hh Hc] Hpos. unfold pipe_popped. split.
  - split; rsimpl; [|lia]. rewrite Z.rem_mod_nonneg by clia. apply Z.mod_pos_bound. done.
  - unfold pipe_bytes. rsimpl. rewrite (seqZ_cons 0 (pi_count p)) by lia. cbn [fmap list_fmap].
    rewrite Z.add_0_r, Z.mod_small by lia. f_equal.
    change (Z.succ 0) with (1 + 0). rewrite <- (fmap_add_seqZ 1 0), <- list_fmap_compose.
    replace (Z.pred (pi_count p)) with (pi_count p - 1) by lia.
    apply list_fmap_ext. intros i k Hk. cbn. rewrite Z.rem_mod_nonneg by clia.
    rewrite Z.add_mod_idemp_l by done. do 2 f_equal. lia.
Qed.

(** ** Correctness of the operations *)

Lemma buffer_bytes_snoc s φ n :
  0 <= n -> buffer_bytes s φ (n + 1) = buffer_bytes s φ n ++ [phys (k_mem s) (φ n)].
Proof.
  intros Hn. unfold buffer_bytes. rewrite seqZ_app by lia. rewrite fmap_app. f_equal.
Qed.

Lemma wp_poll_wakeup s (Q : unit -> kernel -> Prop) :
  (forall s', woken_on ChanPoll s s' -> Q tt s') -> wp poll_wakeup Q s.
Proof. intros HQ. apply wp_wakeup. intros s' Hp Hj. by apply HQ. Qed.

(** The write loop: [n] bytes of the buffer are appended. *)
Lemma wp_pipe_put_all pp buf len φ n s (Q : unit -> kernel -> Prop) :
  pipe_ok (pipe_at s pp) -> buffer s buf len φ false ->
  0 <= n <= len -> n <= CFG_PIPESZ - pi_count (pipe_at s pp) ->
  (forall s', pipe_only pp s s' -> pipe_ok (pipe_at s' pp) ->
     pipe_bytes (pipe_at s' pp) = pipe_bytes (pipe_at s pp) ++ buffer_bytes s φ n -> Q tt s') ->
  wp (for_ 0 (Z.to_nat n) (fun k => c ← read8_at (buf + k) ; pipe_put pp c)) Q s.
Proof.
  intros Hok Hb Hn Hsp HQ.
  apply (wp_for (fun k s' => pipe_only pp s s' /\ pipe_ok (pipe_at s' pp) /\
    pipe_bytes (pipe_at s' pp) = pipe_bytes (pipe_at s pp) ++ buffer_bytes s φ k)).
  - split; [apply pipe_only_refl|]. split; [done|]. unfold buffer_bytes. simpl. by rewrite app_nil_r.
  - intros k s' Hk (Hpo & Hok' & Hbytes).
    assert (Hcount : pi_count (pipe_at s' pp) = pi_count (pipe_at s pp) + k).
    { rewrite <- !pipe_bytes_length by done. rewrite Hbytes, length_app, buffer_bytes_length; lia. }
    destruct (pipe_pushed_ok (phys (k_mem s) (φ k)) (pipe_at s' pp) Hok') as [Hok2 Hb2]; [lia|].
    eapply wpm_intro.
    + rewrite (run_bind _ _ _ (phys (k_mem s) (φ k)) s').
      * apply pipe_put_run.
      * destruct Hpo as [p ->]. by eapply read8_at_buffer; [exact Hb| |lia|..].
    + split; [eapply pipe_only_trans; [exact Hpo|apply pipe_only_upd]|].
      rewrite pipe_at_upd. split; [done|].
      rewrite Hb2, Hbytes, <- app_assoc. by rewrite buffer_bytes_snoc by lia.
  - intros s' (H1 & H2 & H3). apply HQ; [done..|]. rewrite H3. do 2 f_equal. lia.
Qed.

(** C21: a write into a pipe stores a prefix of the user's bytes at the end of the
    queue, as long as there is room (all of them if they fit), returns its
    length, and makes runnable the processes that sleep in [poll]; nothing else changes:
    no other pipe, no other process, no other field. *)
Theorem pipe_write_appends pp buf len φ s :
  pipe_ok (pipe_at s pp) -> 0 <= len -> buffer s buf len φ false ->
  wp (pipe_write_bytes pp buf len) (fun n s' =>
    n = Z.min len (CFG_PIPESZ - pi_count (pipe_at s pp)) /\
    pipe_ok (pipe_at s' pp) /\
    pipe_bytes (pipe_at s' pp) = pipe_bytes (pipe_at s pp) ++ buffer_bytes s φ n /\
    exists s1, pipe_only pp s s1 /\ woken_on ChanPoll s1 s') s.
Proof.
  intros Hok Hlen Hb. pose proof (pok_count _ Hok) as Hc. unfold pipe_write_bytes. wp_auto. cbv zeta.
  set (space := CFG_PIPESZ - _).
  replace (if len >? space then space else len) with (Z.min len space)
    by (destruct (Z.ltb_spec space len); lia).
  wp_auto. eapply wp_pipe_put_all; [done|exact Hb|lia|lia|].
  intros s1 H1 H2 H3. wp_auto. apply wp_poll_wakeup. intros s2 [[t ->] Hw]. wp_auto.
  split; [done|]. split; [done|]. split; [done|]. exists s1. split; [done|]. split; [by eexists|done].
Qed.

(** What one iteration of the read loop does. *)
Lemma pipe_get_run pp buf len φ k s s' :
  buffer s buf len φ true -> 0 <= k < len ->
  k_hw s' = k_hw s ->
  (forall a, (forall j, 0 <= j < len -> φ j <> a) -> phys (k_mem s') a = phys (k_mem s) a) ->
  (p ← gets (fun s => pipe_at s pp) ;
   write8_at (buf + k) (pi_data p (pi_head p)) ;;
   mpipe pp (fun p => p <| pi_head ::= fun h => Z.rem (h + 1) CFG_PIPESZ |>) ;;
   mpipe pp (fun p => p <| pi_count ::= fun c => c - 1 |>)) s' =
  Ret tt (pipe_upd pp pipe_popped (s' <| k_mem ::= fun r => r <| phys ::= fun t =>
    upd t (φ k) (pi_data (pipe_at s' pp) (pi_head (pipe_at s' pp)) mod 256) |> |>)).
Proof.
  intros Hb Hk Hhw Hm. erewrite run_bind by done.
  rewrite (run_bind _ _ _ tt _ (write8_at_buffer _ _ _ _ _ _ _ Hb Hk
    ltac:(by rewrite Hhw) ltac:(by rewrite Hhw) Hm)).
  erewrite run_bind by done. unfold mpipe, modify. by rewrite pipe_upd_upd.
Qed.

(** Only pipe [pp] and the memory of the first [k] buffer bytes differ. *)
Definition pipe_copied (pp : Z) (φ : Z -> Z) (k : Z) (s s' : kernel) : Prop :=
  exists p m, s' = pipe_upd pp (fun _ => p) (s <| k_mem ::= fun r => r <| phys := m |> |>) /\
    forall a, (forall j, 0 <= j < k -> φ j <> a) -> m a = phys (k_mem s) a.

Lemma wp_pipe_get_all pp buf len φ n s (Q : unit -> kernel -> Prop) :
  pipe_ok (pipe_at s pp) -> Forall is_byte (pipe_bytes (pipe_at s pp)) ->
  buffer s buf len φ true -> 0 <= n <= len -> n <= pi_count (pipe_at s pp) ->
  (forall s', pipe_copied pp φ n s s' -> pipe_ok (pipe_at s' pp) ->
     pipe_bytes (pipe_at s pp) = buffer_bytes s' φ n ++ pipe_bytes (pipe_at s' pp) -> Q tt s') ->
  wp (for_ 0 (Z.to_nat n) (fun k =>
    p ← gets (fun s => pipe_at s pp) ;
    write8_at (buf + k) (pi_data p (pi_head p)) ;;
    mpipe pp (fun p => p <| pi_head ::= fun h => Z.rem (h + 1) CFG_PIPESZ |>) ;;
    mpipe pp (fun p => p <| pi_count ::= fun c => c - 1 |>))) Q s.
Proof.
  intros Hok Hbyte Hb Hn Hsp HQ.
  apply (wp_for (fun k s' => pipe_copied pp φ k s s' /\ pipe_ok (pipe_at s' pp) /\
    pipe_bytes (pipe_at s pp) = buffer_bytes s' φ k ++ pipe_bytes (pipe_at s' pp))).
  - split; [|split; [done|by unfold buffer_bytes]].
    destruct (pipe_only_refl pp s) as [p Hp]. exists p, (phys (k_mem s)). split; [|done].
    rewrite Hp at 1. unfold pipe_upd. destruct s as [? ? ? []]. done.
  - intros k s' Hk ((p & m & -> & Hm) & Hok' & Hbytes).
    set (s' := pipe_upd pp _ _) in *.
    assert (Hcount : pi_count (pipe_at s pp) = k + pi_count (pipe_at s' pp)).
    { rewrite <- !pipe_bytes_length by done. rewrite Hbytes, length_app, buffer_bytes_length; lia. }
    destruct (pipe_popped_ok (pipe_at s' pp) Hok') as [Hok2 Hb2]; [lia|].
    eapply wpm_intro.
    { eapply pipe_get_run; [exact Hb|lia|done|].
      intros a Ha. apply Hm. intros j Hj. apply Ha. lia. }
    set (c := pi_data (pipe_at s' pp) (pi_head (pipe_at s' pp))) in *.
    assert (Hc : c mod 256 = c).
    { apply Z.mod_small. rewrite Hbytes, Hb2 in Hbyte. apply Forall_app in Hbyte as [_ Hbyte].
      by inversion Hbyte. }
    rewrite Hc. split; [|split].
    + exists (pipe_popped p), (upd m (φ k) c). split.
      * unfold s'. unfold pipe_upd, setf, set_k_mem, set_k_pipes, set_phys, set_pipe_table. cbn.
        by rewrite !upd_same, upd_upd.
      * intros a Ha. rewrite upd_ne by (apply Ha; lia). apply Hm. intros j Hj. apply Ha. lia.
    + rewrite pipe_at_upd. done.
    + rewrite pipe_at_upd. rewrite Hbytes, Hb2, buffer_bytes_snoc by lia.
      rewrite <- app_assoc. f_equal.
      * unfold buffer_bytes. apply list_fmap_ext. intros i j Hj. apply lookup_seqZ in Hj as [-> Hj].
        rewrite k_mem_pipe_upd. rsimpl.
        rewrite upd_ne; [done|]. intros Heq.
        apply (buf_inj _ _ _ _ _ Hb) in Heq; lia.
      * rewrite k_mem_pipe_upd. rsimpl.
        by rewrite upd_same.
  - intros s' (H1 & H2 & H3). replace (0 + Z.of_nat (Z.to_nat n)) with n in * by lia. by apply HQ.
Qed.

(** C22: a read from a pipe takes as many bytes as wanted and available from the
    front of the queue, stores them in the user's buffer in order, returns their
    number, makes runnable the processes that sleep in [poll], and changes nothing else:
    no other memory, no other pipe, no other process. *)
Theorem pipe_read_takes pp buf len φ s :
  pipe_ok (pipe_at s pp) -> Forall is_byte (pipe_bytes (pipe_at s pp)) ->
  0 <= len -> buffer s buf len φ true ->
  wp (pipe_read_bytes pp buf len) (fun n s' =>
    n = Z.min len (pi_count (pipe_at s pp)) /\
    pipe_ok (pipe_at s' pp) /\
    pipe_bytes (pipe_at s pp) = buffer_bytes s' φ n ++ pipe_bytes (pipe_at s' pp) /\
    exists s1, pipe_copied pp φ n s s1 /\ woken_on ChanPoll s1 s') s.
Proof.
  intros Hok Hbyte Hlen Hb. pose proof (pok_count _ Hok) as Hc.
  unfold pipe_read_bytes. wp_auto. cbv zeta.
  replace (if len >? pi_count (pipe_at s pp) then pi_count (pipe_at s pp) else len)
    with (Z.min len (pi_count (pipe_at s pp)))
    by (destruct (Z.ltb_spec (pi_count (pipe_at s pp)) len); lia).
  wp_auto. eapply wp_pipe_get_all; [done|done|exact Hb|lia|lia|].
  intros s1 H1 H2 H3. wp_auto. apply wp_poll_wakeup. intros s2 [[t ->] Hw]. wp_auto.
  split; [done|]. split; [done|]. split; [done|]. exists s1. split; [done|]. split; [by eexists|done].
Qed.

(** ** Witnesses *)

(** Pipe 0 holds the bytes 7, 8; the user's buffer is at physical address 64. *)
Definition pipe_kernel : kernel :=
  pipe_upd 0 (fun p => p <| pi_count := 2 |> <| pi_head := 511 |>
    <| pi_data := upd (upd (fun _ => 0) 511 7) 0 8 |>) kernel0.

Lemma pipe_kernel_ok : pipe_ok (pipe_at pipe_kernel 0).
Proof. split; vm_compute; by split. Qed.

Lemma pipe_write_appends_witness :
  wp (pipe_write_bytes 0 64 3) (fun n s' =>
    n = 3 /\ pipe_bytes (pipe_at s' 0) = [7; 8; 0; 0; 0]) pipe_kernel.
Proof.
  eapply wp_mono.
  - apply (pipe_write_appends 0 64 3 (fun k => 64 + k) pipe_kernel pipe_kernel_ok); [lia|].
    apply buffer_kernel; [lia|clia].
  - intros n s' (-> & _ & -> & _). split; reflexivity.
Defined.

Lemma pipe_read_takes_witness :
  wp (pipe_read_bytes 0 64 1) (fun n s' =>
    n = 1 /\ [7; 8] = buffer_bytes s' (fun k => 64 + k) 1 ++ pipe_bytes (pipe_at s' 0)) pipe_kernel.
Proof.
  eapply wp_mono.
  - apply (pipe_read_takes 0 64 1 (fun k => 64 + k) pipe_kernel pipe_kernel_ok).
    + change (Forall is_byte [7; 8]). repeat constructor; lia.
    + lia.
    + apply buffer_kernel; [lia|clia].
  - intros n s' (-> & _ & H & _). split; [reflexivity|exact H].
Defined.
