(* ===== verification/Buf.v ===== *)
(** * Buf: the block disk driver and the buffer cache ([drivers/disk.c], [fs.c])

    A buffer is a 512-byte slice of [buf_data]; [bread] returns its index there.
    The cache is write-through: [bwrite] sends the buffer to the disk at once.
    [cache_ok] says that the occupied slots mirror the disk and hold distinct
    blocks; [bread_coherent] is the theorem that a buffer always shows the disk
    block asked for, through evictions and the single-entry fast path. *)

From S2P Require Import Prelude Config Kernel Klog RawMem.
From Stdlib Require Import FunctionalExtensionality.

(** ** [drivers/disk.c] and [drivers/rtc.c] *)

Definition trace_disk (what : string) (blockno : Z) : K unit :=
  tf ← rd k_klog trace_flags ;
  when (has tf CFG_TRACE_DISK)
    (klog (str what) ;; klog_int blockno ;; klog [10]).

(** The PIO loop moves the 512 bytes of block [blockno] to [buf_data + dst]. *)
Definition disk_read_block (blockno dst : Z) : K unit :=
  trace_disk "trace: disk read blk=" blockno ;;
  disk ← rd k_hw hw_disk ;
  modify (fun s => s <| k_fs ::= fun r => r <| buf_data ::= fun d =>
    blit d dst (slice disk (blockno * 512) 512) |> |>).

Definition disk_write_block (blockno src : Z) : K unit :=
  trace_disk "trace: disk write blk=" blockno ;;
  d ← rd k_fs buf_data ;
  modify (fun s => s <| k_hw ::= fun h => h <| hw_disk ::= fun disk =>
    blit disk (blockno * 512) (slice d src 512) |> |>).

Definition rtc_time : K Z := rd k_hw hw_rtc.

(** ** The buffer cache *)

(** The assembly scan of [buf_block]. *)
Definition bread_scan (s : kernel) (blockno : Z) : Z :=
  or_neg1 (find_from (fun i => buf_block (k_fs s) i =? blockno) 0 (Z.to_nat CFG_NBUF)).

Definition bread (blockno : Z) : K Z :=
  fs ← gets k_fs ;
  if (blockno =? bread_last_blockno fs) && (buf_block fs (bread_last_slot fs) =? blockno)
  then mret (bread_last_slot fs * 512)
  else
    slot ← gets (fun s => bread_scan s blockno) ;
    if slot >=? 0 then
      wr k_fs bread_last_blockno blockno ;;
      wr k_fs bread_last_slot slot ;;
      mret (slot * 512)
    else
      slot ← rd k_fs buf_next ;
      wr k_fs buf_next (Z.rem (slot + 1) CFG_NBUF) ;;
      disk_read_block blockno (slot * 512) ;;
      wri k_fs buf_block slot blockno ;;
      wr k_fs bread_last_blockno blockno ;;
      wr k_fs bread_last_slot slot ;;
      mret (slot * 512).

Definition bwrite (blockno data : Z) : K unit := disk_write_block blockno data.

(** ** Accesses to buffers: [read8_at], [write32_at]... on [buf_data] *)

Definition b_read8 (a : Z) : K Z := gets (fun s => buf_data (k_fs s) a).
Definition b_write8 (a v : Z) : K unit := wri k_fs buf_data a (v mod 256).
Definition b_read16 (a : Z) : K Z :=
  gets (fun s => buf_data (k_fs s) a + 2 ^ 8 * buf_data (k_fs s) (a + 1)).
Definition b_read32 (a : Z) : K Z := gets (fun s => pread32 (buf_data (k_fs s)) a).
Definition b_write32 (a v : Z) : K unit :=
  modify (fun s => s <| k_fs ::= fun r => r <| buf_data ::= fun m => pwrite32 m a v |> |>).
Definition b_memset (a v n : Z) : K unit :=
  modify (fun s => s <| k_fs ::= fun r => r <| buf_data ::= fun m => fill m a n v |> |>).
Definition b_blit (a : Z) (bs : list Z) : K unit :=
  modify (fun s => s <| k_fs ::= fun r => r <| buf_data ::= fun m => blit m a bs |> |>).

(** ** Coherence *)

Definition disk (s : kernel) : Z -> Z := hw_disk (k_hw s).

Record cache_ok (s : kernel) : Prop := {
  ck_next : 0 <= buf_next (k_fs s) < CFG_NBUF;
  ck_last : bread_last_blockno (k_fs s) = -1 \/ 0 <= bread_last_slot (k_fs s) < CFG_NBUF;
  ck_data : forall i k, 0 <= i < CFG_NBUF -> 0 <= buf_block (k_fs s) i -> 0 <= k < 512 ->
    buf_data (k_fs s) (i * 512 + k) = disk s (buf_block (k_fs s) i * 512 + k);
  ck_uniq : forall i j, 0 <= i < CFG_NBUF -> 0 <= j < CFG_NBUF ->
    0 <= buf_block (k_fs s) i -> buf_block (k_fs s) i = buf_block (k_fs s) j -> i = j;
}.

(** Only the cache, the log and the console differ: what a reader may do.  The
    states agree once those are erased. *)
Definition cache_erase (s : kernel) : kernel :=
  s <| k_fs ::= fun r => r <| buf_block := fun _ => 0 |> <| buf_next := 0 |>
         <| buf_data := fun _ => 0 |> <| bread_last_blockno := 0 |> <| bread_last_slot := 0 |> |>
    <| k_klog := klog_state0 |> <| k_hw ::= fun h => h <| hw_console := [] |> |>.

Definition cache_only (s s' : kernel) : Prop := cache_erase s' = cache_erase s.

#[export] Instance cache_only_preorder : PreOrder cache_only.
Proof. split; [done|]. intros x y z H1 H2. unfold cache_only in *. by rewrite H2. Qed.

Lemma log_only_cache_only s s' : log_only s s' -> cache_only s s'.
Proof. intros (kl & con & ->). reflexivity. Qed.

(** Whatever ignores the cache and the log has the same value. *)
Lemma cache_only_eq {A} (f : kernel -> A) s s' :
  (forall s, f (cache_erase s) = f s) -> cache_only s s' -> f s' = f s.
Proof. intros Hf H. by rewrite <- (Hf s'), <- (Hf s), H. Qed.

Lemma cache_only_disk s s' : cache_only s s' -> disk s' = disk s.
Proof. apply cache_only_eq. reflexivity. Qed.

(** The state after a block was read into slot [i]. *)
Definition filled (i b : Z) (s : kernel) : kernel :=
  s <| k_fs ::= fun r => r <| buf_data ::= fun d =>
         blit d (i * 512) (slice (hw_disk (k_hw s)) (b * 512) 512) |> |>
    <| k_fs ::= fun r => r <| buf_block ::= fun t => upd t i b |> |>.

Lemma trace_disk_runs what b s : exists s', trace_disk what b s = Ret tt s' /\ log_only s s'.
Proof.
  unfold trace_disk. erewrite run_bind by done. unfold when. destruct (has _ _).
  - destruct (klog_runs (str what) s) as (s1 & E1 & H1). erewrite run_bind by exact E1.
    destruct (klog_int_runs b s1) as (s2 & E2 & H2). erewrite run_bind by exact E2.
    destruct (klog_runs [10] s2) as (s3 & E3 & H3). exists s3. split; [done|].
    by eapply log_only_trans, log_only_trans.
  - exists s. split; [done|apply log_only_refl].
Qed.

(** Buffer [a] is the one that holds block [b]. *)
Definition buf_at (s : kernel) (b a : Z) : Prop :=
  exists i, 0 <= i < CFG_NBUF /\ a = i * 512 /\ buf_block (k_fs s) i = b.

Lemma buf_at_data s b a k :
  cache_ok s -> 0 <= b -> buf_at s b a -> 0 <= k < 512 ->
  buf_data (k_fs s) (a + k) = disk s (b * 512 + k).
Proof. intros Hc Hb (i & Hi & -> & <-) Hk. by apply (ck_data _ Hc). Qed.

(** Reading block [b] into slot [i], where no slot holds [b] yet. *)
Lemma filled_ok i b s :
  cache_ok s -> 0 <= i < CFG_NBUF -> 0 <= b ->
  (forall j, 0 <= j < CFG_NBUF -> buf_block (k_fs s) j <> b) ->
  cache_ok (filled i b s).
Proof.
  intros Hc Hi Hb Hno. unfold filled. split; unfold disk; rsimpl; try apply Hc.
  - intros j k Hj Hp Hk. destruct (upd_case (buf_block (k_fs s)) i b j) as [[-> E]|[Hne E]].
    + rewrite E.
      replace (j * 512 + k) with (j * 512 + Z.of_nat (Z.to_nat k)) by lia.
      erewrite blit_in by (apply slice_lookup; lia). unfold disk. f_equal. lia.
    + rewrite E in *. rewrite blit_out; [by apply (ck_data _ Hc)|]. rewrite slice_length. lia.
  - intros j j' Hj Hj'. unfold upd.
    destruct (Z.eqb_spec i j), (Z.eqb_spec i j').
    + lia.
    + intros _ E. by destruct (Hno j' Hj').
    + intros _ E. by destruct (Hno j Hj).
    + by apply (ck_uniq _ Hc).
Qed.

(** The bookkeeping fields do not matter to coherence. *)
Lemma cache_ok_marked s ll ls :
  cache_ok s -> 0 <= ls < CFG_NBUF ->
  cache_ok (s <| k_fs ::= fun r => r <| bread_last_blockno := ll |> |>
              <| k_fs ::= fun r => r <| bread_last_slot := ls |> |>).
Proof. intros [H1 H2 H3 H4] Hl. split; [exact H1|by right|exact H3|exact H4]. Qed.

Lemma cache_ok_log s s' : log_only s s' -> cache_ok s -> cache_ok s'.
Proof. intros (kl & con & ->) [H1 H2 H3 H4]. by split. Qed.

Lemma find_slot_Some s b i :
  find_from (fun i => buf_block (k_fs s) i =? b) 0 (Z.to_nat CFG_NBUF) = Some i ->
  0 <= i < CFG_NBUF /\ buf_block (k_fs s) i = b.
Proof. intros H. apply find_from_Some in H as (H1 & H2 & _). bool_hyps. split; [clia|done]. Qed.

Lemma find_slot_None s b j :
  find_from (fun i => buf_block (k_fs s) i =? b) 0 (Z.to_nat CFG_NBUF) = None ->
  0 <= j < CFG_NBUF -> buf_block (k_fs s) j <> b.
Proof. intros H Hj. apply Z.eqb_neq. eapply find_from_None in H; [exact H|clia]. Qed.

Lemma wp_bread b s (Q : Z -> kernel -> Prop) :
  cache_ok s -> 0 <= b ->
  (forall a s', cache_ok s' -> cache_only s s' -> buf_at s' b a -> Q a s') ->
  wp (bread b) Q s.
Proof.
  intros Hc Hb HQ. unfold bread. wp_auto. wp_case E.
  - bool_hyps. destruct (ck_last _ Hc) as [Hl|Hl]; [lia|].
    wp_auto. apply HQ; [done|done|]. eexists. by split; [exact Hl|].
  - wp_auto. unfold bread_scan.
    destruct (find_from _ 0 _) as [i|] eqn:F; cbn [or_neg1 from_option id].
    + apply find_slot_Some in F as [Hi Hbi].
      assert (Hi' : (i >=? 0) = true) by (apply Z.leb_le; lia). rewrite Hi'. wp_auto.
      apply HQ; [|reflexivity|by exists i].
      by apply cache_ok_marked.
    + change (-1 >=? 0) with false. cbv iota. wp_auto. unfold disk_read_block.
      pose proof (ck_next _ Hc) as Hi. set (i := buf_next (k_fs s)) in *.
      set (s1 := s <| k_fs ::= fun r => r <| buf_next := Z.rem (i + 1) CFG_NBUF |> |>).
      assert (Hr : 0 <= Z.rem (i + 1) CFG_NBUF < CFG_NBUF).
      { rewrite Z.rem_mod_nonneg by clia. by apply Z.mod_pos_bound. }
      destruct (trace_disk_runs "trace: disk read blk=" b s1) as (s2 & E2 & H2).
      apply wp_bind. eapply wpm_intro; [exact E2|]. wp_auto.
      assert (Hc2 : cache_ok s2).
      { eapply cache_ok_log; [exact H2|]. destruct Hc as [? Hl Hd Hu]. split; [exact Hr|exact Hl|exact Hd|exact Hu]. }
      assert (Hblk : buf_block (k_fs s2) = buf_block (k_fs s)) by (destruct H2 as (? & ? & ->); done).
      pose proof (filled_ok i b s2 Hc2 Hi Hb) as Hf.
      assert (Hno : forall j, 0 <= j < CFG_NBUF -> buf_block (k_fs s2) j <> b).
      { rewrite Hblk. intros j. by apply find_slot_None. }
      apply HQ.
      * by apply cache_ok_marked; [apply Hf|].
      * transitivity s2; [|reflexivity]. transitivity s1; [reflexivity|by apply log_only_cache_only].
      * exists i. split; [done|]. split; [done|]. apply upd_same.
Qed.

(** C17: whatever the cache did before (fast path, hit, or eviction of the oldest
    slot), [bread] returns a buffer whose 512 bytes are those of the block on the
    disk; it changes nothing but the cache and keeps it coherent. *)
Theorem bread_coherent b s :
  cache_ok s -> 0 <= b ->
  wp (bread b) (fun a s' =>
    cache_ok s' /\ cache_only s s' /\
    (exists i, 0 <= i < CFG_NBUF /\ a = i * 512) /\
    forall k, 0 <= k < 512 -> buf_data (k_fs s') (a + k) = disk s (b * 512 + k)) s.
Proof.
  intros Hc Hb. apply wp_bread; [done..|]. intros a s' Hc' Ho Ha.
  split; [done|]. split; [done|]. split.
  - destruct Ha as (i & ? & ? & _). eauto.
  - intros k Hk. rewrite <- (cache_only_disk _ _ Ho). by apply buf_at_data.
Qed.

(** ** Write-through updates

    [p base m] rewrites some bytes of the 512 that start at [base].  A buffer that
    is patched and then written makes the same patch on the disk. *)

Class BlockPatch (p : Z -> (Z -> Z) -> Z -> Z) : Prop := {
  patch_out : forall base m x, x < base \/ base + 512 <= x -> p base m x = m x;
  patch_move : forall a b m d, (forall k, 0 <= k < 512 -> m (a + k) = d (b + k)) ->
    forall k, 0 <= k < 512 -> p a m (a + k) = p b d (b + k);
}.

#[export] Instance patch_id : BlockPatch (fun _ m => m).
Proof. split; auto. Qed.

Lemma patch_upd off v : 0 <= off < 512 -> BlockPatch (fun base m => upd m (base + off) v).
Proof.
  intros Ho. split.
  - intros base m x Hx. apply upd_ne. lia.
  - intros a b m d H k Hk. unfold upd.
    destruct (Z.eqb_spec (a + off) (a + k)), (Z.eqb_spec (b + off) (b + k)); lia || auto.
Qed.

Lemma patch_compose p q : BlockPatch p -> BlockPatch q -> BlockPatch (fun base m => q base (p base m)).
Proof.
  intros Hp Hq. split.
  - intros base m x Hx. by rewrite (patch_out (p := q)), (patch_out (p := p)).
  - intros a b m d H. apply patch_move, patch_move, H.
Qed.

Lemma blit_move l a b f g k :
  (forall j, 0 <= j -> f (a + j) = g (b + j)) -> 0 <= k ->
  forall off, 0 <= off -> blit f (a + off) l (a + k) = blit g (b + off) l (b + k).
Proof.
  revert f g. induction l as [|x l IH]; intros f g H Hk off Ho; cbn [blit]; [by apply H|].
  rewrite <- !Z.add_assoc. apply IH; [|done|lia]. intros j Hj. unfold upd.
  destruct (Z.eqb_spec (a + off) (a + j)), (Z.eqb_spec (b + off) (b + j)); lia || auto.
Qed.

Lemma patch_blit off l :
  0 <= off -> off + Z.of_nat (length l) <= 512 -> BlockPatch (fun base m => blit m (base + off) l).
Proof.
  intros Ho Hl. split.
  - intros base m x Hx. apply blit_out. lia.
  - intros a b m d H k Hk.
    destruct (decide (off <= k < off + Z.of_nat (length l))) as [Hin|Hout].
    + destruct (lookup_lt_is_Some_2 l (Z.to_nat (k - off))) as [x Hx]; [lia|].
      replace (a + k) with (a + off + Z.of_nat (Z.to_nat (k - off))) by lia.
      replace (b + k) with (b + off + Z.of_nat (Z.to_nat (k - off))) by lia.
      by rewrite !(blit_in _ _ _ _ _ Hx).
    + rewrite !blit_out by lia. by apply H.
Qed.

Lemma patch_fill off n v : 0 <= off -> off + n <= 512 -> BlockPatch (fun base m => fill m (base + off) n v).
Proof.
  intros Ho Hl. unfold fill. split.
  - intros base m x Hx.
    destruct (Z.leb_spec (base + off) x), (Z.ltb_spec x (base + off + n)); simpl; lia || done.
  - intros a b m d H k Hk.
    destruct (Z.leb_spec (a + off) (a + k)), (Z.leb_spec (b + off) (b + k)); try lia; simpl; auto.
    destruct (Z.ltb_spec (a + k) (a + off + n)), (Z.ltb_spec (b + k) (b + off + n)); try lia; auto.
Qed.

Lemma patch_fill0 n v : n <= 512 -> BlockPatch (fun base m => fill m base n v).
Proof.
  intros Hl. pose proof (patch_fill 0 n v ltac:(lia) Hl) as [H1 H2]. split.
  - intros base m x Hx. rewrite <- (H1 base m x Hx). by rewrite Z.add_0_r.
  - intros a b m d H k Hk. specialize (H2 a b m d H k Hk). by rewrite !Z.add_0_r in H2.
Qed.

Lemma patch_pwrite32 off v : 0 <= off -> off + 4 <= 512 -> BlockPatch (fun base m => pwrite32 m (base + off) v).
Proof. intros H1 H2. unfold pwrite32. by apply patch_blit. Qed.

(** Everything but the cache, the disk, the allocation rover, the log and the
    console. *)
Definition disk_erase (s : kernel) : kernel :=
  (cache_erase s) <| k_hw ::= fun h => h <| hw_disk := fun _ => 0 |> |>
    <| k_fs ::= fun r => r <| balloc_hint := 0 |> |>.

(** The rover of [balloc] is in range. *)
Definition hint_ok (s : kernel) : Prop := 0 <= balloc_hint (k_fs s) <= fs_size (k_fs s).

(** A file-system operation: the cache stays coherent, the disk becomes [d], the
    rover stays in range, and nothing else changes. *)
Record fs_step (s s' : kernel) (d : Z -> Z) : Prop := {
  fst_cache : cache_ok s';
  fst_disk : disk s' = d;
  fst_rest : disk_erase s' = disk_erase s;
  fst_hint : hint_ok s -> hint_ok s';
}.

Lemma fs_step_eq {A} (f : kernel -> A) s s' d :
  (forall s, f (disk_erase s) = f s) -> fs_step s s' d -> f s' = f s.
Proof. intros Hf H. by rewrite <- (Hf s'), <- (Hf s), (fst_rest _ _ _ H). Qed.

Lemma fs_step_refl s : cache_ok s -> fs_step s s (disk s).
Proof. by split. Qed.

Lemma fs_step_trans s1 s2 s3 d2 d3 : fs_step s1 s2 d2 -> fs_step s2 s3 d3 -> fs_step s1 s3 d3.
Proof. intros [_ _ E Hh] [? ? E' Hh']. split; [done..| |auto]. by rewrite E'. Qed.

Lemma cache_only_fs_step s s' : cache_ok s' -> cache_only s s' -> fs_step s s' (disk s).
Proof.
  intros Hc Ho. split; [done|by apply cache_only_disk| |].
  - unfold disk_erase. by rewrite Ho.
  - assert (E : hint_ok s' = hint_ok s) by (by apply cache_only_eq). by rewrite E.
Qed.

(** The state between the change of a buffer and its [bwrite]. *)
Record patched (s0 : kernel) (b a : Z) (p : Z -> (Z -> Z) -> Z -> Z) (s : kernel) : Prop := {
  pa_base : cache_ok s0;
  pa_buf : buf_at s0 b a;
  pa_data : buf_data (k_fs s) = p a (buf_data (k_fs s0));
  pa_block : buf_block (k_fs s) = buf_block (k_fs s0);
  pa_next : buf_next (k_fs s) = buf_next (k_fs s0);
  pa_last : bread_last_blockno (k_fs s) = -1 \/ 0 <= bread_last_slot (k_fs s) < CFG_NBUF;
  pa_rest : cache_only s0 s;
}.

Lemma patched_start s b a : cache_ok s -> buf_at s b a -> patched s b a (fun _ m => m) s.
Proof. intros Hc Ha. split; try done. apply Hc. Qed.

(** A buffer store extends the pending patch. *)
Lemma patched_more s0 b a p q s :
  patched s0 b a p s ->
  patched s0 b a (fun base m => q base (p base m))
    (s <| k_fs ::= fun r => r <| buf_data ::= q a |> |>).
Proof. intros [H1 H2 H3 H4 H5 H6 H7]. split; try done. rsimpl. by rewrite H3. Qed.

(** Looking the block up again while it is dirty finds the same buffer. *)
Lemma wp_bread_patched s0 b a p s (Q : Z -> kernel -> Prop) :
  patched s0 b a p s -> 0 <= b ->
  (forall s', patched s0 b a p s' -> Q a s') -> wp (bread b) Q s.
Proof.
  intros Hp Hb HQ. destruct (pa_buf _ _ _ _ _ Hp) as (i & Hi & Ha & Hbi).
  assert (Huniq : forall j, 0 <= j < CFG_NBUF -> buf_block (k_fs s) j = b -> j = i).
  { intros j Hj E. rewrite (pa_block _ _ _ _ _ Hp) in E.
    apply (ck_uniq _ (pa_base _ _ _ _ _ Hp)); [done..| |]; congruence || lia. }
  unfold bread. wp_auto. wp_case E.
  - bool_hyps. destruct (pa_last _ _ _ _ _ Hp) as [Hl|Hl]; [lia|].
    wp_auto. rewrite (Huniq _ Hl) by done. rewrite <- Ha. by apply HQ.
  - wp_auto. unfold bread_scan.
    destruct (find_from _ 0 _) as [j|] eqn:F; cbn [or_neg1 from_option id].
    + apply find_slot_Some in F as [Hj Hbj]. rewrite (Huniq j Hj Hbj). clear E.
      assert (Hi' : (i >=? 0) = true) by (apply Z.leb_le; lia). rewrite Hi'. wp_auto.
      rewrite <- Ha. apply HQ. destruct Hp as [H1 H2 H3 H4 H5 H6 H7]. split; [done..|by right|done].
    + exfalso. eapply find_slot_None in F; [|exact Hi].
      apply F. by rewrite (pa_block _ _ _ _ _ Hp).
Qed.

(** Writing the patched buffer through restores coherence and patches the disk. *)
Lemma blit_slice_in d x f a k (n : nat) :
  0 <= k < Z.of_nat n -> blit d x (slice f a n) (x + k) = f (a + k).
Proof.
  intros Hk. replace (x + k) with (x + Z.of_nat (Z.to_nat k)) by lia.
  rewrite (blit_in _ _ _ _ (f (a + k))); [done|].
  rewrite slice_lookup by lia. do 2 f_equal. lia.
Qed.

Lemma patched_disk s0 b a p s :
  patched s0 b a p s -> BlockPatch p -> 0 <= b ->
  blit (disk s0) (b * 512) (slice (buf_data (k_fs s)) a 512) = p (b * 512) (disk s0).
Proof.
  intros Hp Hpatch Hb. apply functional_extensionality. intros x.
  destruct (decide (b * 512 <= x < b * 512 + 512)) as [Hin|Hout].
  - replace x with (b * 512 + (x - b * 512)) by lia. rewrite blit_slice_in by lia.
    rewrite (pa_data _ _ _ _ _ Hp). apply (patch_move (p := p)); [|lia].
    intros k Hk. eapply buf_at_data; [apply Hp|done|apply Hp|done].
  - rewrite blit_out by (rewrite slice_length; lia). by rewrite (patch_out (p := p)) by lia.
Qed.

Lemma patched_coherent s0 b a p s i k :
  patched s0 b a p s -> BlockPatch p -> 0 <= b ->
  0 <= i < CFG_NBUF -> 0 <= buf_block (k_fs s) i -> 0 <= k < 512 ->
  buf_data (k_fs s) (i * 512 + k) = p (b * 512) (disk s0) (buf_block (k_fs s) i * 512 + k).
Proof.
  intros Hp Hpatch Hb Hi Hbi Hk. destruct (pa_buf _ _ _ _ _ Hp) as (j & Hj & Ha & Hbj).
  pose proof (pa_base _ _ _ _ _ Hp) as Hc.
  rewrite (pa_data _ _ _ _ _ Hp). rewrite (pa_block _ _ _ _ _ Hp) in *.
  destruct (decide (i = j)) as [->|Hne].
  - rewrite Hbj. rewrite <- Ha. apply (patch_move (p := p)); [|done].
    intros k' Hk'. eapply buf_at_data; [done..|apply Hp|done].
  - rewrite (patch_out (p := p)) by (subst a; lia).
    rewrite (ck_data _ Hc i k Hi Hbi Hk).
    rewrite (patch_out (p := p)); [done|].
    assert (buf_block (k_fs s0) i <> b); [|lia].
    intros E. apply Hne. apply (ck_uniq _ Hc); congruence || lia.
Qed.

Lemma wp_bwrite s0 b a p s (Q : unit -> kernel -> Prop) :
  patched s0 b a p s -> BlockPatch p -> 0 <= b ->
  (forall s', fs_step s0 s' (p (b * 512) (disk s0)) -> Q tt s') ->
  wp (bwrite b a) Q s.
Proof.
  intros Hp Hpatch Hb HQ. unfold bwrite, disk_write_block.
  destruct (trace_disk_runs "trace: disk write blk=" b s) as (s2 & E2 & H2).
  apply wp_bind. eapply wpm_intro; [exact E2|]. wp_auto. apply HQ.
  assert (Hd : disk s2 = disk s0).
  { rewrite (cache_only_disk _ _ (log_only_cache_only _ _ H2)).
    apply cache_only_disk, Hp. }
  assert (Hfs : k_fs s2 = k_fs s) by (destruct H2 as (? & ? & ->); done).
  assert (Hnew : blit (disk s2) (b * 512) (slice (buf_data (k_fs s2)) a 512) = p (b * 512) (disk s0)).
  { rewrite Hd, Hfs. by apply patched_disk. }
  pose proof (pa_base _ _ _ _ _ Hp) as Hc.
  split.
  - split; unfold disk in *; rsimpl; rewrite ?Hfs.
    + rewrite (pa_next _ _ _ _ _ Hp). apply Hc.
    + apply Hp.
    + intros i k Hi Hbi Hk. rewrite Hfs in Hnew. rewrite Hnew. by eapply patched_coherent.
    + rewrite (pa_block _ _ _ _ _ Hp). apply Hc.
  - unfold disk in *. by rsimpl.
  - transitivity (disk_erase s2); [reflexivity|].
    unfold disk_erase. rewrite (log_only_cache_only _ _ H2). by rewrite (pa_rest _ _ _ _ _ Hp).
  - change (hint_ok s0 -> hint_ok s2).
    assert (E : hint_ok s2 = hint_ok s0); [|by rewrite E].
    apply cache_only_eq; [done|]. transitivity s; [apply Hp|by apply log_only_cache_only].
Qed.

(** ** Witnesses *)

(** An empty cache over the disk [d]. *)
Definition disk_kernel (d : Z -> Z) : kernel :=
  kernel0 <| k_hw ::= fun h => h <| hw_disk := d |> |>
    <| k_fs ::= fun r => r <| buf_block := fun _ => -1 |> <| bread_last_blockno := -1 |> |>.

Lemma disk_kernel_cache d : cache_ok (disk_kernel d).
Proof.
  split; [vm_compute; by split|by left|..]; unfold disk_kernel; rsimpl; lia.
Qed.

Lemma bread_coherent_witness :
  let s := disk_kernel (fun a => a mod 256) in
  wp (bread 3) (fun a s' => forall k, 0 <= k < 512 ->
    buf_data (k_fs s') (a + k) = disk s (3 * 512 + k)) s.
Proof.
  eapply wp_mono.
  - apply (bread_coherent 3 (disk_kernel (fun a => a mod 256))); [apply disk_kernel_cache|lia].
  - intros a s' (_ & _ & _ & H). exact H.
Defined.
