(* ===== verification/Inode.v ===== *)
(** * Inode: inodes, the block bitmap and file contents ([fs.c], lines 93-499)

    The transcription of the superblock reader, the inode accessors, the block and
    inode allocators, the block map, [readi], [writei] and [itrunc].  The
    specifications follow in [InodeSpec.v]. *)

From S2P Require Import Prelude Config Kernel Klog RawMem Buf.

(** ** [fs_mount] *)

Definition fs_mount : K unit :=
  for_ 0 (Z.to_nat CFG_NBUF) (fun i => wri k_fs buf_block i (-1)) ;;
  wr k_fs bread_last_blockno (-1) ;;
  sb ← bread 1 ;
  magic ← b_read32 sb ;
  when (magic !=? CFG_FS_MAGIC) (panic "bad filesystem magic") ;;
  version ← b_read32 (sb + 20) ;
  dsize ← b_read32 (sb + 24) ;
  when ((version !=? CFG_FS_VERSION) || (dsize !=? CFG_DINODE_SIZE))
    (panic "unsupported filesystem version") ;;
  size ← b_read32 (sb + 4) ;
  wr k_fs fs_size size ;;
  ninodes ← b_read32 (sb + 8) ;
  wr k_fs fs_ninodes ninodes ;;
  inodestart ← b_read32 (sb + 12) ;
  wr k_fs fs_inodestart inodestart ;;
  bmapstart ← b_read32 (sb + 16) ;
  wr k_fs fs_bmapstart bmapstart ;;
  wr k_fs fs_mount_flags 0.

(** ** Inode fields *)

Definition inode_block (inum : Z) : K Z :=
  start ← rd k_fs fs_inodestart ; mret (start + Z.quot inum CFG_IPB).

Definition inode_addr (inum : Z) : K Z :=
  start ← rd k_fs fs_inodestart ;
  let block := start + Z.quot inum CFG_IPB in
  let off := Z.rem inum CFG_IPB * CFG_DINODE_SIZE in
  data ← bread block ;
  mret (data + off).

Definition inode_read16 (inum offset : Z) : K Z := a ← inode_addr inum ; b_read16 (a + offset).
Definition inode_read32 (inum offset : Z) : K Z := a ← inode_addr inum ; b_read32 (a + offset).

Definition inode_type (inum : Z) : K Z := inode_read16 inum 0.
Definition inode_nlink (inum : Z) : K Z := inode_read16 inum 2.
Definition inode_mode (inum : Z) : K Z := inode_read16 inum 4.
Definition inode_uid (inum : Z) : K Z := inode_read16 inum 6.
Definition inode_gid (inum : Z) : K Z := inode_read16 inum 8.
Definition inode_size (inum : Z) : K Z := inode_read32 inum 12.
Definition inode_atime (inum : Z) : K Z := inode_read32 inum 16.
Definition inode_mtime (inum : Z) : K Z := inode_read32 inum 20.
Definition inode_ctime (inum : Z) : K Z := inode_read32 inum 24.
Definition inode_slot (inum k : Z) : K Z := inode_read32 inum (28 + k * 4).

(** [bwrite(inode_block(inum), bread(inode_block(inum)))]. *)
Definition inode_flush (inum : Z) : K unit :=
  blk ← inode_block inum ;
  data ← bread blk ;
  bwrite blk data.

Definition inode_set16 (inum offset value : Z) : K unit :=
  addr ← inode_addr inum ;
  b_write8 (addr + offset) value ;;
  b_write8 (addr + offset + 1) (shr value 8) ;;
  inode_flush inum.

Definition inode_set32 (inum offset value : Z) : K unit :=
  addr ← inode_addr inum ;
  b_write32 (addr + offset) value ;;
  inode_flush inum.

Definition inode_touch (inum atime mtime ctime : Z) : K unit :=
  now ← rtc_time ;
  addr ← inode_addr inum ;
  when (atime !=? 0) (b_write32 (addr + 16) now) ;;
  when (mtime !=? 0) (b_write32 (addr + 20) now) ;;
  when (ctime !=? 0) (b_write32 (addr + 24) now) ;;
  inode_flush inum.

(** The node is filled field by field; it is returned whole. *)
Definition disk_vnode_init (inum : Z) : K vnode :=
  type ← inode_type inum ;
  nlink ← inode_nlink inum ;
  mode ← inode_mode inum ;
  uid ← inode_uid inum ;
  gid ← inode_gid inum ;
  size ← inode_size inum ;
  atime ← inode_atime inum ;
  mtime ← inode_mtime inum ;
  ctime ← inode_ctime inum ;
  mret (Build_vnode VopsDisk CFG_FS_DISK inum
    (Build_inode inum type nlink mode uid gid size atime mtime ctime)).

(** ** The block bitmap *)

Definition bitmap_addr (blockno : Z) : K Z :=
  start ← rd k_fs fs_bmapstart ; bread (start + Z.quot blockno 4096).

Definition bitmap_test (blockno : Z) : K bool :=
  data ← bitmap_addr blockno ;
  let byte := Z.quot (Z.rem blockno 4096) 8 in
  let mask := shl 1 (Z.rem blockno 8) in
  v ← b_read8 (data + byte) ;
  mret (has v mask).

Definition bitmap_set (blockno used : Z) : K unit :=
  start ← rd k_fs fs_bmapstart ;
  let bitmap_block := start + Z.quot blockno 4096 in
  data ← bread bitmap_block ;
  let byte := Z.quot (Z.rem blockno 4096) 8 in
  let mask := shl 1 (Z.rem blockno 8) in
  value ← b_read8 (data + byte) ;
  let value := if used !=? 0 then Z.lor value mask else Z.land value (bnot mask) in
  b_write8 (data + byte) value ;;
  bwrite bitmap_block data.

(** The body of the [while] of [balloc] on [(blockno, scanned)]. *)
Definition balloc_step (size : Z) : Z * Z -> K (Z * Z + Z) := fun '(blockno, scanned) =>
  if scanned <? size then
    let blockno := if blockno >=? size then 0 else blockno in
    used ← bitmap_test blockno ;
    if (used : bool) then mret (inl (blockno + 1, scanned + 1))
    else
      bitmap_set blockno 1 ;;
      wr k_fs balloc_hint (blockno + 1) ;;
      data ← bread blockno ;
      b_memset data 0 512 ;;
      bwrite blockno data ;;
      mret (inr blockno)
  else mret (inr 0).

Definition balloc : K Z :=
  flags ← rd k_fs fs_mount_flags ;
  if has flags 1 then mret 0 else
  hint ← rd k_fs balloc_hint ;
  size ← rd k_fs fs_size ;
  while_ (S (Z.to_nat size)) (balloc_step size) (hint, 0).

Definition bfree (blockno : Z) : K unit :=
  when (blockno !=? 0) (bitmap_set blockno 0).

(** The first free inode from 1 on, initialised. *)
Definition ialloc (type mode : Z) : K Z :=
  flags ← rd k_fs fs_mount_flags ;
  if has flags 1 then mret 0 else
  ninodes ← rd k_fs fs_ninodes ;
  or_else (for_ret 1 (Z.to_nat (ninodes - 1)) (fun inum =>
    t ← inode_type inum ;
    if t =? 0 then
      addr ← inode_addr inum ;
      b_memset addr 0 CFG_DINODE_SIZE ;;
      b_write8 addr type ;;
      b_write8 (addr + 1) (shr type 8) ;;
      b_write8 (addr + 4) mode ;;
      b_write8 (addr + 5) (shr mode 8) ;;
      now ← rtc_time ;
      b_write32 (addr + 16) now ;;
      b_write32 (addr + 20) now ;;
      b_write32 (addr + 24) now ;;
      inode_flush inum ;;
      mret (Some inum)
    else mret None))
  (mret 0).

(** ** The block map *)

Definition bmap (inum bn : Z) : K Z :=
  if bn <? CFG_NDIRECT then inode_slot inum bn
  else if bn >=? CFG_MAXFILE then mret 0
  else
    let bn := bn - CFG_NDIRECT in
    if bn <? CFG_NINDIRECT then
      ind ← inode_slot inum CFG_NDIRECT ;
      if ind =? 0 then mret 0
      else data ← bread ind ; b_read32 (data + bn * 4)
    else
      let bn := bn - CFG_NINDIRECT in
      dind ← inode_slot inum (CFG_NDIRECT + 1) ;
      if dind =? 0 then mret 0 else
      let outer := Z.quot bn CFG_NINDIRECT in
      let inner := Z.rem bn CFG_NINDIRECT in
      data ← bread dind ;
      ind ← b_read32 (data + outer * 4) ;
      if ind =? 0 then mret 0
      else data ← bread ind ; b_read32 (data + inner * 4).

(** Store an entry of an indirect block: [data = bread(blk); write32_at(...);
    bwrite(blk, data);]. *)
Definition set_entry (blk k addr : Z) : K unit :=
  data ← bread blk ;
  b_write32 (data + k * 4) addr ;;
  bwrite blk data.

(** [addr = balloc(); if (addr == 0) return 0;] followed by [k addr]. *)
Definition balloc_or_0 (k : Z -> K Z) : K Z :=
  addr ← balloc ; if addr =? 0 then mret 0 else k addr.

Definition bmap_alloc (inum bn : Z) : K Z :=
  if (bn <? 0) || (bn >=? CFG_MAXFILE) then mret 0 else
  addr ← bmap inum bn ;
  if addr !=? 0 then mret addr else
  if bn <? CFG_NDIRECT then
    balloc_or_0 (fun addr => inode_set32 inum (28 + bn * 4) addr ;; mret addr)
  else
    let bn := bn - CFG_NDIRECT in
    if bn <? CFG_NINDIRECT then
      let leaf ind := balloc_or_0 (fun addr => set_entry ind bn addr ;; mret addr) in
      ind ← inode_slot inum CFG_NDIRECT ;
      if ind =? 0 then
        balloc_or_0 (fun ind => inode_set32 inum (28 + CFG_NDIRECT * 4) ind ;; leaf ind)
      else leaf ind
    else
      let bn := bn - CFG_NINDIRECT in
      let outer := Z.quot bn CFG_NINDIRECT in
      let inner := Z.rem bn CFG_NINDIRECT in
      let leaf ind := balloc_or_0 (fun addr => set_entry ind inner addr ;; mret addr) in
      let middle dind :=
        data ← bread dind ;
        ind ← b_read32 (data + outer * 4) ;
        if ind =? 0 then balloc_or_0 (fun ind => set_entry dind outer ind ;; leaf ind)
        else leaf ind in
      dind ← inode_slot inum (CFG_NDIRECT + 1) ;
      if dind =? 0 then
        balloc_or_0 (fun dind => inode_set32 inum (28 + (CFG_NDIRECT + 1) * 4) dind ;; middle dind)
      else middle dind.

(** ** File contents

    The destination (source) of the copy is abstract: [put d bs] stores the next
    bytes at cursor [d] and returns the advanced cursor.  A memory pointer is one
    instance ([readi], [writei]); a stack buffer of a caller is another
    ([readi_local], [writei_local]). *)

(** A block holds at least one byte of the range, so there are at most this many
    rounds for [n] bytes. *)
Definition block_fuel (n : Z) : nat := Z.to_nat (n / 512 + 3).

(** [take] of the loops: up to the end of the block and of the range. *)
Definition chunk (pos end_ : Z) : Z :=
  let take := 512 - Z.rem pos 512 in
  if take >? end_ - pos then end_ - pos else take.

Section copying.
Context {A : Type}.

Definition readi_step (put : A -> list Z -> K A) (inum end_ : Z)
    : Z * A -> K (Z * A + A) := fun '(pos, d) =>
  if pos <? end_ then
    let within := Z.rem pos 512 in
    let take := chunk pos end_ in
    blk ← bmap inum (Z.quot pos 512) ;
    bs ← (if blk !=? 0 then
            data ← bread blk ;
            gets (fun s => slice (buf_data (k_fs s)) (data + within) (Z.to_nat take))
          else mret (replicate (Z.to_nat take) 0)) ;
    d ← put d bs ;
    mret (inl (pos + take, d))
  else mret (inr d).

Definition readi_gen (put : A -> list Z -> K A) (inum off n : Z) (dst : A) : K (Z * A) :=
  sz ← inode_size inum ;
  if (off <? 0) || (off >? sz) then mret (0, dst) else
  let end_ := off +! n in
  let end_ := if end_ >? sz then sz else end_ in
  d ← while_ (block_fuel (end_ - off)) (readi_step put inum end_) (off, dst) ;
  when (end_ >? off) (inode_touch inum 1 0 0) ;;
  mret (end_ -! off, d).

Definition writei_step (get : A -> Z -> K (list Z * A)) (inum off end_ : Z)
    : Z * A -> K (Z * A + option Z) := fun '(pos, src) =>
  if pos <? end_ then
    blk ← bmap_alloc inum (Z.quot pos 512) ;
    if blk =? 0 then
      if pos =? off then mret (inr (Some (- CFG_ENOSPC)))
      else
        size ← inode_size inum ;
        when (pos >? size) (inode_set32 inum 12 pos) ;;
        inode_touch inum 0 1 1 ;;
        mret (inr (Some (pos - off)))
    else
      let within := Z.rem pos 512 in
      let take := chunk pos end_ in
      data ← bread blk ;
      r ← get src take ;
      b_blit (data + within) r.1 ;;
      bwrite blk data ;;
      mret (inl (pos + take, r.2))
  else mret (inr None).

Definition writei_gen (get : A -> Z -> K (list Z * A)) (inum off n : Z) (src : A) : K Z :=
  flags ← rd k_fs fs_mount_flags ;
  if has flags 1 then mret (- CFG_EROFS) else
  if (off <? 0) || (n <? 0) then mret (- CFG_EINVAL) else
  if off +! n >? CFG_MAXFILE * 512 then mret (- CFG_EFBIG) else
  let end_ := off +! n in
  or_else (while_ (block_fuel (end_ - off)) (writei_step get inum off end_) (off, src))
    (size ← inode_size inum ;
     when (end_ >? size) (inode_set32 inum 12 end_) ;;
     inode_touch inum 0 1 1 ;;
     mret n).
End copying.

(** Memory pointers as cursors. *)
Definition put_mem (d : Z) (bs : list Z) : K Z :=
  write_bytes d bs ;; mret (d + Z.of_nat (length bs)).
Definition get_mem (p n : Z) : K (list Z * Z) :=
  bs ← read_bytes p (Z.to_nat n) ; mret (bs, p + n).

Definition readi (inum off n dst : Z) : K Z := r ← readi_gen put_mem inum off n dst ; mret r.1.
Definition writei (inum off n src : Z) : K Z := writei_gen get_mem inum off n src.

(** Local buffers as cursors: the bytes stored so far, or still to be taken. *)
Definition put_local (acc bs : list Z) : K (list Z) := mret (acc ++ bs).
Definition get_local (l : list Z) (n : Z) : K (list Z * list Z) :=
  mret (take (Z.to_nat n) l, drop (Z.to_nat n) l).

Definition readi_local (inum off n : Z) : K (Z * list Z) := readi_gen put_local inum off n [].
Definition writei_local (inum off : Z) (bs : list Z) : K Z :=
  writei_gen get_local inum off (Z.of_nat (length bs)) bs.

(** ** Truncation *)

(** Free every block that the indirect block in buffer [data] lists.  The buffer is
    looked up once, before the loop. *)
Definition free_entries (data : Z) : K unit :=
  for_ 0 (Z.to_nat CFG_NINDIRECT) (fun i =>
    addr ← b_read32 (data + i * 4) ;
    when (addr !=? 0) (bfree addr)).

Definition itrunc (inum : Z) : K unit :=
  for_ 0 (Z.to_nat CFG_NDIRECT) (fun i =>
    addr ← inode_slot inum i ;
    when (addr !=? 0) (bfree addr ;; inode_set32 inum (28 + i * 4) 0)) ;;
  ind ← inode_slot inum CFG_NDIRECT ;
  when (ind !=? 0)
    (data ← bread ind ;
     free_entries data ;;
     bfree ind ;;
     inode_set32 inum (28 + CFG_NDIRECT * 4) 0) ;;
  dind ← inode_slot inum (CFG_NDIRECT + 1) ;
  when (dind !=? 0)
    (for_ 0 (Z.to_nat CFG_NINDIRECT) (fun i =>
       data ← bread dind ;
       ind ← b_read32 (data + i * 4) ;
       when (ind !=? 0)
         (data2 ← bread ind ;
          free_entries data2 ;;
          bfree ind)) ;;
     bfree dind ;;
     inode_set32 inum (28 + (CFG_NDIRECT + 1) * 4) 0) ;;
  inode_set32 inum 12 0 ;;
  inode_touch inum 0 1 1.

Definition ifree (inum : Z) : K unit :=
  itrunc inum ;;
  addr ← inode_addr inum ;
  b_memset addr 0 CFG_DINODE_SIZE ;;
  inode_flush inum.

(** ** The disk vnode operations *)

Definition disk_vnode_read (node : vnode) (off n dst : Z) : K Z :=
  readi (i_inum (vn_inode node)) off n dst.

Definition disk_vnode_write (node : vnode) (off n src : Z) : K (Z * vnode) :=
  result ← writei (i_inum (vn_inode node)) off n src ;
  node ← (if result >=? 0 then disk_vnode_init (i_inum (vn_inode node)) else mret node) ;
  mret (result, node).
