(* ===== verification/InodeSpec.v ===== *)
(** * InodeSpec: what the inode layer promises

    The on-disk structures as pure functions of the disk bytes ([ipos],
    [bit_used], [bmap_of], [file_byte]) and the theorems that the code of
    [Inode.v] reads and updates exactly them, through the buffer cache. *)

From S2P Require Import Prelude Config Kernel Klog RawMem Buf Inode.
From Stdlib Require Import FunctionalExtensionality.

(** ** Inode fields *)

(** Coherent cache and a sane superblock. *)
Record fs_ready (s : kernel) : Prop := {
  fr_cache : cache_ok s;
  fr_inodestart : 0 <= fs_inodestart (k_fs s);
  fr_bmapstart : 0 <= fs_bmapstart (k_fs s);
}.

(** The byte position of inode [inum] on the disk. *)
Definition ipos (s : kernel) (inum : Z) : Z :=
  (fs_inodestart (k_fs s) + inum / CFG_IPB) * 512 + inum mod CFG_IPB * CFG_DINODE_SIZE.

Definition pread16 (d : Z -> Z) (a : Z) : Z := d a + 2 ^ 8 * d (a + 1).

Lemma fs_step_ready s s' d : fs_step s s' d -> fs_ready s -> fs_ready s'.
Proof.
  intros Hst [H1 H2 H3]. split; [apply Hst|..].
  - by rewrite (fs_step_eq (fun s => fs_inodestart (k_fs s)) _ _ _ ltac:(reflexivity) Hst).
  - by rewrite (fs_step_eq (fun s => fs_bmapstart (k_fs s)) _ _ _ ltac:(reflexivity) Hst).
Qed.

Lemma fs_step_ipos s s' d inum : fs_step s s' d -> ipos s' inum = ipos s inum.
Proof. apply (fs_step_eq (fun s => ipos s inum)). reflexivity. Qed.

Lemma inode_offset_range inum : 0 <= inum mod CFG_IPB * CFG_DINODE_SIZE <= 400.
Proof. pose proof (Z.mod_pos_bound inum CFG_IPB). clia. Qed.

(** Symbolic execution of a buffer read, for any use of the buffer. *)
Lemma wp_bread_step b s (Q : Z -> kernel -> Prop) :
  cache_ok s -> 0 <= b ->
  (forall a s', fs_step s s' (disk s) -> buf_at s' b a -> Q a s') -> wp (bread b) Q s.
Proof. intros Hc Hb HQ. apply wp_bread; [done..|]. intros. apply HQ; [by apply cache_only_fs_step|done]. Qed.

Lemma buf_at_slice s b a k :
  cache_ok s -> 0 <= b -> buf_at s b a -> 0 <= k < 512 ->
  buf_data (k_fs s) (a + k) = disk s (b * 512 + k).
Proof. apply buf_at_data. Qed.

Lemma buf_at_pread32 s b a k :
  cache_ok s -> 0 <= b -> buf_at s b a -> 0 <= k <= 508 ->
  pread32 (buf_data (k_fs s)) (a + k) = pread32 (disk s) (b * 512 + k).
Proof.
  intros Hc Hb Ha Hk. unfold pread32. rewrite <- !Z.add_assoc. by rewrite !(buf_at_data _ b) by (done || lia).
Qed.

Lemma wp_inode_addr inum s (Q : Z -> kernel -> Prop) :
  fs_ready s -> 0 <= inum ->
  (forall a s', fs_step s s' (disk s) ->
     buf_at s' (fs_inodestart (k_fs s) + inum / CFG_IPB) a ->
     Q (a + inum mod CFG_IPB * CFG_DINODE_SIZE) s') ->
  wp (inode_addr inum) Q s.
Proof.
  intros Hr Hi HQ. unfold inode_addr. wp_auto. cbv zeta.
  rewrite Z.quot_div_nonneg, Z.rem_mod_nonneg by clia.
  wp_auto. apply wp_bread_step; [apply Hr| |].
  { pose proof (fr_inodestart _ Hr). pose proof (Z.div_pos inum CFG_IPB). clia. }
  intros a s' Hst Ha. wp_auto. by apply HQ.
Qed.

Lemma inode_block_nonneg s inum : fs_ready s -> 0 <= inum -> 0 <= fs_inodestart (k_fs s) + inum / CFG_IPB.
Proof. intros Hr Hi. pose proof (fr_inodestart _ Hr). pose proof (Z.div_pos inum CFG_IPB). clia. Qed.

Lemma wp_inode_read32 inum off s (Q : Z -> kernel -> Prop) :
  fs_ready s -> 0 <= inum -> 0 <= off <= CFG_DINODE_SIZE - 4 ->
  (forall s', fs_step s s' (disk s) -> Q (pread32 (disk s) (ipos s inum + off)) s') ->
  wp (inode_read32 inum off) Q s.
Proof.
  intros Hr Hi Hoff HQ. unfold inode_read32, b_read32. wp_auto. apply wp_inode_addr; [done..|].
  intros a s' Hst Ha. wp_auto. pose proof (inode_offset_range inum) as Hio.
  rewrite <- Z.add_assoc.
  rewrite (buf_at_pread32 s' (fs_inodestart (k_fs s) + inum / CFG_IPB)); [|apply Hst| |done|clia].
  - rewrite (fst_disk _ _ _ Hst). unfold ipos in HQ. rewrite Z.add_assoc. by apply HQ.
  - by apply inode_block_nonneg.
Qed.

Lemma wp_inode_read16 inum off s (Q : Z -> kernel -> Prop) :
  fs_ready s -> 0 <= inum -> 0 <= off <= CFG_DINODE_SIZE - 2 ->
  (forall s', fs_step s s' (disk s) -> Q (pread16 (disk s) (ipos s inum + off)) s') ->
  wp (inode_read16 inum off) Q s.
Proof.
  intros Hr Hi Hoff HQ. unfold inode_read16, b_read16. wp_auto. apply wp_inode_addr; [done..|].
  intros a s' Hst Ha. wp_auto. pose proof (inode_offset_range inum) as Hio.
  pose proof (inode_block_nonneg s inum Hr Hi) as Hb.
  rewrite <- !Z.add_assoc.
  rewrite !(buf_at_data s' (fs_inodestart (k_fs s) + inum / CFG_IPB)); [|apply Hst|done|done|clia|apply Hst|done|done|clia].
  rewrite (fst_disk _ _ _ Hst). specialize (HQ s' Hst). unfold ipos, pread16 in HQ.
  by rewrite <- !Z.add_assoc in HQ.
Qed.

(** ** Inode updates *)

(** [patched] relative to an inode: the buffer of its block is dirty. *)
Definition iblock (s : kernel) (inum : Z) : Z := fs_inodestart (k_fs s) + inum / CFG_IPB.

Lemma patched_inodestart s0 b a p s :
  patched s0 b a p s -> fs_inodestart (k_fs s) = fs_inodestart (k_fs s0).
Proof.
  intros Hp. apply (cache_only_eq (fun s => fs_inodestart (k_fs s)) s0 s); [reflexivity|apply Hp].
Qed.

Lemma wp_inode_flush inum s0 a p s (Q : unit -> kernel -> Prop) :
  0 <= inum -> fs_ready s0 -> patched s0 (iblock s0 inum) a p s -> BlockPatch p ->
  (forall s', fs_step s0 s' (p (iblock s0 inum * 512) (disk s0)) -> Q tt s') ->
  wp (inode_flush inum) Q s.
Proof.
  intros Hi Hr Hp Hpatch HQ. unfold inode_flush, inode_block. wp_auto.
  rewrite (patched_inodestart _ _ _ _ _ Hp).
  rewrite Z.quot_div_nonneg by clia. fold (iblock s0 inum).
  assert (Hb : 0 <= iblock s0 inum) by (by apply inode_block_nonneg).
  wp_auto. eapply wp_bread_patched; [exact Hp|done|]. intros s' Hp'.
  eapply wp_bwrite; [exact Hp'|done|done|done].
Qed.

(** The patch of a 32-bit or 16-bit field. *)
Lemma wp_inode_set32 inum off v s (Q : unit -> kernel -> Prop) :
  fs_ready s -> 0 <= inum -> 0 <= off <= CFG_DINODE_SIZE - 4 ->
  (forall s', fs_step s s' (pwrite32 (disk s) (ipos s inum + off) v) -> Q tt s') ->
  wp (inode_set32 inum off v) Q s.
Proof.
  intros Hr Hi Hoff HQ. unfold inode_set32, b_write32. wp_auto. apply wp_inode_addr; [done..|].
  intros a s1 Hst Ha. wp_auto. pose proof (inode_offset_range inum) as Hio.
  set (k := inum mod CFG_IPB * CFG_DINODE_SIZE + off).
  assert (Hr1 : fs_ready s1) by (by eapply fs_step_ready).
  assert (Hib : iblock s1 inum = fs_inodestart (k_fs s) + inum / CFG_IPB).
  { unfold iblock. by rewrite (fs_step_eq (fun s => fs_inodestart (k_fs s)) _ _ _ ltac:(reflexivity) Hst). }
  rewrite <- Hib in Ha. rewrite <- Z.add_assoc. fold k.
  eapply (wp_inode_flush inum s1); [done|done| |apply (patch_pwrite32 k v); unfold k; clia|].
  { exact (patched_more _ _ _ _ (fun base m => pwrite32 m (base + k) v) _
      (patched_start _ _ _ (fst_cache _ _ _ Hst) Ha)). }
  intros s2 Hst2. apply HQ. rewrite (fst_disk _ _ _ Hst), Hib in Hst2.
  eapply fs_step_trans; [exact Hst|]. revert Hst2. unfold ipos, k. by rewrite !Z.add_assoc.
Qed.

Definition pwrite16 (d : Z -> Z) (a v : Z) : Z -> Z :=
  upd (upd d a (v mod 256)) (a + 1) (shr v 8 mod 256).

Lemma wp_inode_set16 inum off v s (Q : unit -> kernel -> Prop) :
  fs_ready s -> 0 <= inum -> 0 <= off <= CFG_DINODE_SIZE - 2 ->
  (forall s', fs_step s s' (pwrite16 (disk s) (ipos s inum + off) v) -> Q tt s') ->
  wp (inode_set16 inum off v) Q s.
Proof.
  intros Hr Hi Hoff HQ. unfold inode_set16, b_write8. wp_auto. apply wp_inode_addr; [done..|].
  intros a s1 Hst Ha. wp_auto. pose proof (inode_offset_range inum) as Hio.
  set (k := inum mod CFG_IPB * CFG_DINODE_SIZE + off).
  assert (Hr1 : fs_ready s1) by (by eapply fs_step_ready).
  assert (Hib : iblock s1 inum = fs_inodestart (k_fs s) + inum / CFG_IPB).
  { unfold iblock. by rewrite (fs_step_eq (fun s => fs_inodestart (k_fs s)) _ _ _ ltac:(reflexivity) Hst). }
  rewrite <- Hib in Ha.
  replace (a + inum mod CFG_IPB * CFG_DINODE_SIZE + off) with (a + k) by (unfold k; lia).
  rewrite <- Z.add_assoc.
  eapply (wp_inode_flush inum s1); [done|done| | |].
  { exact (patched_more _ _ _ _ (fun base m => upd m (base + (k + 1)) (shr v 8 mod 256)) _
      (patched_more _ _ _ _ (fun base m => upd m (base + k) (v mod 256)) _
        (patched_start _ _ _ (fst_cache _ _ _ Hst) Ha))). }
  { apply (patch_compose (fun base m => upd m (base + k) (v mod 256))
             (fun base m => upd m (base + (k + 1)) (shr v 8 mod 256)));
      apply patch_upd; unfold k; clia. }
  intros s2 Hst2. apply HQ. rewrite (fst_disk _ _ _ Hst), Hib in Hst2.
  eapply fs_step_trans; [exact Hst|]. revert Hst2. unfold ipos, pwrite16, k. by rewrite !Z.add_assoc.
Qed.

(** The time stamps [inode_touch] writes, relative to the inode at [pos]. *)
Definition stamp (c : Z) (off now : Z) (pos : Z) (m : Z -> Z) : Z -> Z :=
  if c !=? 0 then pwrite32 m (pos + off) now else m.
Definition touched (atime mtime ctime now pos : Z) (m : Z -> Z) : Z -> Z :=
  stamp ctime 24 now pos (stamp mtime 20 now pos (stamp atime 16 now pos m)).

Lemma patch_stamp c k off now : 0 <= k -> 0 <= off -> k + off + 4 <= 512 ->
  BlockPatch (fun base m => stamp c off now (base + k) m).
Proof.
  intros H1 H2 H3. unfold stamp. destruct (c !=? 0); [|apply patch_id].
  pose proof (patch_pwrite32 (k + off) now ltac:(lia) ltac:(lia)) as H.
  split; intros; rewrite <- ?Z.add_assoc; [by apply (patch_out (BlockPatch := H))|].
  by apply (patch_move (BlockPatch := H)).
Qed.

Lemma wp_stamp c k off now s0 b a p s (Q : unit -> kernel -> Prop) :
  patched s0 b a p s ->
  (forall s', patched s0 b a (fun base m => stamp c off now (base + k) (p base m)) s' -> Q tt s') ->
  wp (when (c !=? 0) (b_write32 (a + k + off) now)) Q s.
Proof.
  intros Hp HQ. unfold stamp in HQ. unfold when. destruct (c !=? 0).
  - unfold b_write32. wp_auto. apply HQ.
    exact (patched_more _ _ _ _ (fun base m => pwrite32 m (base + k + off) now) _ Hp).
  - wp_auto. by apply HQ.
Qed.

Lemma wp_inode_touch inum at_ mt ct s (Q : unit -> kernel -> Prop) :
  fs_ready s -> 0 <= inum ->
  (forall s', fs_step s s' (touched at_ mt ct (hw_rtc (k_hw s)) (ipos s inum) (disk s)) -> Q tt s') ->
  wp (inode_touch inum at_ mt ct) Q s.
Proof.
  intros Hr Hi HQ. unfold inode_touch, rtc_time. wp_auto. apply wp_inode_addr; [done..|].
  intros a s1 Hst Ha. pose proof (inode_offset_range inum) as Hio.
  set (k := inum mod CFG_IPB * CFG_DINODE_SIZE). set (now := hw_rtc (k_hw s)).
  assert (Hr1 : fs_ready s1) by (by eapply fs_step_ready).
  assert (Hib : iblock s1 inum = fs_inodestart (k_fs s) + inum / CFG_IPB).
  { unfold iblock. by rewrite (fs_step_eq (fun s => fs_inodestart (k_fs s)) _ _ _ ltac:(reflexivity) Hst). }
  rewrite <- Hib in Ha.
  pose proof (patched_start _ _ _ (fst_cache _ _ _ Hst) Ha) as Hp0.
  apply wp_bind. eapply wp_stamp; [exact Hp0|]. intros s2 Hp2.
  apply wp_bind. eapply wp_stamp; [exact Hp2|]. intros s3 Hp3.
  apply wp_bind. eapply wp_stamp; [exact Hp3|]. intros s4 Hp4.
  eapply (wp_inode_flush inum s1); [done|done|exact Hp4| |].
  { apply (patch_compose (fun base m => stamp mt 20 now (base + k) (stamp at_ 16 now (base + k) m))
             (fun base m => stamp ct 24 now (base + k) m)); [|apply patch_stamp; unfold k; lia].
    apply (patch_compose (fun base m => stamp at_ 16 now (base + k) m)
             (fun base m => stamp mt 20 now (base + k) m)); apply patch_stamp; unfold k; lia. }
  intros s5 Hst5. apply HQ. rewrite (fst_disk _ _ _ Hst), Hib in Hst5.
  eapply fs_step_trans; [exact Hst|exact Hst5].
Qed.

(** ** The bitmap *)

Definition bit_byte (s : kernel) (b : Z) : Z :=
  (fs_bmapstart (k_fs s) + b / 4096) * 512 + b mod 4096 / 8.

(** Is block [b] marked as used? *)
Definition bit_used (s : kernel) (b : Z) : bool := Z.testbit (disk s (bit_byte s b)) (b mod 8).

Lemma bit_byte_range b : 0 <= b mod 4096 / 8 < 512.
Proof.
  pose proof (Z.mod_pos_bound b 4096). split; [apply Z.div_pos; lia|].
  apply Z.div_lt_upper_bound; lia.
Qed.

Lemma bit_block_nonneg s b : fs_ready s -> 0 <= b -> 0 <= fs_bmapstart (k_fs s) + b / 4096.
Proof. intros Hr Hb. pose proof (fr_bmapstart _ Hr). pose proof (Z.div_pos b 4096). lia. Qed.

Lemma rem8 b : 0 <= b -> Z.rem b 8 = b mod 8.
Proof. intros H. by rewrite Z.rem_mod_nonneg. Qed.

Lemma wp_bitmap_test b s (Q : bool -> kernel -> Prop) :
  fs_ready s -> 0 <= b ->
  (forall s', fs_step s s' (disk s) -> Q (bit_used s b) s') -> wp (bitmap_test b) Q s.
Proof.
  intros Hr Hb HQ. unfold bitmap_test, bitmap_addr, b_read8. wp_auto.
  rewrite Z.quot_div_nonneg by lia.
  apply wp_bread_step; [apply Hr|by apply bit_block_nonneg|].
  intros a s' Hst Ha. wp_auto.
  pose proof (Z.mod_pos_bound b 4096). pose proof (Z.mod_pos_bound b 8).
  rewrite (Z.rem_mod_nonneg b 4096), Z.quot_div_nonneg by lia.
  rewrite (buf_at_data s' _ _ _ (fst_cache _ _ _ Hst) ltac:(by apply (bit_block_nonneg s)) Ha)
    by apply bit_byte_range.
  rewrite (fst_disk _ _ _ Hst), rem8, has_bit by lia. by apply HQ.
Qed.

(** The new value of a bitmap byte. *)
Definition bit_set (v k used : Z) : Z :=
  (if used !=? 0 then Z.lor v (2 ^ k) else Z.land v (bnot (2 ^ k))) mod 256.

Lemma bit_set_spec v k used j :
  0 <= k < 8 -> 0 <= j < 8 ->
  Z.testbit (bit_set v k used) j = if j =? k then used !=? 0 else Z.testbit v j.
Proof.
  intros Hk Hj. unfold bit_set. change 256 with (2 ^ 8). rewrite Z.mod_pow2_bits_low by lia.
  destruct (used !=? 0); rewrite ?Z.lor_spec, ?Z.land_spec; unfold bnot; rewrite ?Z.lnot_spec by lia;
    (destruct (Z.eqb_spec j k) as [->|Hne];
     [rewrite Z.pow2_bits_true by lia|rewrite Z.pow2_bits_false by lia]).
  - apply orb_true_r.
  - apply orb_false_r.
  - apply andb_false_r.
  - apply andb_true_r.
Qed.

Lemma wp_bitmap_set b used s (Q : unit -> kernel -> Prop) :
  fs_ready s -> 0 <= b ->
  (forall s', fs_step s s' (upd (disk s) (bit_byte s b)
       (bit_set (disk s (bit_byte s b)) (b mod 8) used)) -> Q tt s') ->
  wp (bitmap_set b used) Q s.
Proof.
  intros Hr Hb HQ. unfold bitmap_set, b_read8, b_write8. wp_auto.
  rewrite Z.quot_div_nonneg by lia. pose proof (bit_block_nonneg s b Hr Hb) as Hbn.
  apply wp_bread_step; [apply Hr|done|].
  intros a s1 Hst Ha. wp_auto.
  pose proof (Z.mod_pos_bound b 4096). pose proof (Z.mod_pos_bound b 8).
  rewrite (Z.rem_mod_nonneg b 4096), Z.quot_div_nonneg by lia.
  set (k := b mod 4096 / 8). assert (Hk : 0 <= k < 512) by apply bit_byte_range.
  rewrite (buf_at_data s1 _ _ _ (fst_cache _ _ _ Hst) Hbn Ha Hk).
  assert (Hshl : shl 1 (Z.rem b 8) = 2 ^ (b mod 8)).
  { rewrite rem8 by lia. unfold shl. rewrite Z.shiftl_1_l. apply i32_id.
    assert (2 ^ (b mod 8) < 2 ^ 31) by (apply Z.pow_lt_mono_r; lia).
    unfold is_i32. pose proof (Z.pow_pos_nonneg 2 (b mod 8)). lia. }
  rewrite Hshl, (fst_disk _ _ _ Hst).
  fold (bit_set (disk s ((fs_bmapstart (k_fs s) + b / 4096) * 512 + k)) (b mod 8) used).
  eapply (wp_bwrite s1); [ |by apply (patch_upd k (bit_set (disk s (bit_byte s b)) (b mod 8) used))|done|].
  { exact (patched_more _ _ _ _ (fun base m => upd m (base + k) _) _
      (patched_start _ _ _ (fst_cache _ _ _ Hst) Ha)). }
  intros s2 Hst2. apply HQ. rewrite (fst_disk _ _ _ Hst) in Hst2.
  eapply fs_step_trans; [exact Hst|exact Hst2].
Qed.

Lemma bit_byte_inj b b' s :
  0 <= b -> 0 <= b' -> bit_byte s b = bit_byte s b' -> b mod 8 = b' mod 8 -> b = b'.
Proof.
  unfold bit_byte. intros Hb Hb' H1 H2.
  pose proof (bit_byte_range b). pose proof (bit_byte_range b').
  assert (b / 4096 = b' / 4096) by lia. assert (b mod 4096 / 8 = b' mod 4096 / 8) by lia.
  pose proof (Z.div_mod b 4096). pose proof (Z.div_mod b' 4096).
  pose proof (Z.div_mod (b mod 4096) 8). pose proof (Z.div_mod (b' mod 4096) 8).
  assert (forall x, x mod 4096 mod 8 = x mod 8) as Hmm.
  { intros x. change 4096 with (8 * 512). rewrite Z.rem_mul_r, Z.mul_comm, Z_mod_plus_full by lia.
    by apply Z.mod_mod. }
  rewrite !Hmm in *. lia.
Qed.

(** The bits after one of them was written. *)
Lemma bit_used_set s s' b used b' :
  fs_step s s' (upd (disk s) (bit_byte s b) (bit_set (disk s (bit_byte s b)) (b mod 8) used)) ->
  0 <= b -> 0 <= b' ->
  bit_used s' b' = if b' =? b then used !=? 0 else bit_used s b'.
Proof.
  intros Hst Hb Hb'. unfold bit_used. rewrite (fst_disk _ _ _ Hst).
  assert (Hbb : bit_byte s' b' = bit_byte s b').
  { apply (fs_step_eq (fun s => bit_byte s b') _ _ _ ltac:(reflexivity) Hst). }
  rewrite Hbb. destruct (upd_case (disk s) (bit_byte s b)
    (bit_set (disk s (bit_byte s b)) (b mod 8) used) (bit_byte s b')) as [[E H]|[E H]]; rewrite H.
  - rewrite bit_set_spec by (by apply Z.mod_pos_bound).
    destruct (Z.eqb_spec b' b) as [->|Hne]; [by rewrite Z.eqb_refl|].
    destruct (Z.eqb_spec (b' mod 8) (b mod 8)) as [Heq|]; [|by rewrite E].
    destruct Hne. by eapply bit_byte_inj.
  - destruct (Z.eqb_spec b' b) as [->|]; done.
Qed.

(** The bitmap is a map from block numbers to bits: [bitmap_set] changes the
    bit of its block, no other bit, and nothing of the disk outside that byte;
    [bitmap_test] reads it back. *)
Theorem bitmap_set_test b used s :
  fs_ready s -> 0 <= b ->
  wp (bitmap_set b used) (fun _ s' =>
    (forall b', 0 <= b' -> wp (bitmap_test b') (fun r s'' =>
       r = (if b' =? b then used !=? 0 else bit_used s b') /\ disk s'' = disk s') s') /\
    (forall a, a <> bit_byte s b -> disk s' a = disk s a) /\
    disk_erase s' = disk_erase s) s.
Proof.
  intros Hr Hb. apply wp_bitmap_set; [done..|]. intros s' Hst. split; [|split; [|apply Hst]].
  - intros b' Hb'. apply wp_bitmap_test; [by eapply fs_step_ready|done|].
    intros s'' Hst'. split; [|apply Hst']. by eapply bit_used_set.
  - intros a Ha. rewrite (fst_disk _ _ _ Hst). by apply upd_ne, not_eq_sym.
Qed.

(** ** Block allocation *)

(** The allocator may run: the bitmap covers the file system, and the boot block
    and the bitmap itself are marked as used. *)
Record alloc_ready (s : kernel) : Prop := {
  ar_fs : fs_ready s;
  ar_hint : hint_ok s;
  ar_boot : bit_used s 0 = true;
  ar_bitmap : forall b, 0 <= b < fs_size (k_fs s) ->
    fs_bmapstart (k_fs s) + b / 4096 < fs_size (k_fs s) /\
    bit_used s (fs_bmapstart (k_fs s) + b / 4096) = true;
}.

(** The disk after block [b] was allocated: its bit set, its bytes zero. *)
Definition disk_alloc (s : kernel) (b : Z) : Z -> Z :=
  fill (upd (disk s) (bit_byte s b) (bit_set (disk s (bit_byte s b)) (b mod 8) 1)) (b * 512) 512 0.

Lemma bit_used_step s s' b : fs_step s s' (disk s) -> bit_used s' b = bit_used s b.
Proof.
  intros Hst. unfold bit_used. rewrite (fst_disk _ _ _ Hst).
  by rewrite (fs_step_eq (fun s => bit_byte s b) _ _ _ ltac:(reflexivity) Hst).
Qed.

(** The block the scan looks at in round [k]. *)
Definition rover (s : kernel) (k : Z) : Z := (balloc_hint (k_fs s) + k) mod fs_size (k_fs s).

Lemma wp_balloc_take b s (Q : Z * Z + Z -> kernel -> Prop) :
  fs_ready s -> 0 <= b < fs_size (k_fs s) ->
  (forall s', fs_step s s' (disk_alloc s b) -> Q (inr b) s') ->
  wp (bitmap_set b 1 ;; wr k_fs balloc_hint (b + 1) ;; data ← bread b ;
      b_memset data 0 512 ;; bwrite b data ;; mret (inr b)) Q s.
Proof.
  intros Hr Hb HQ. apply wp_bind. apply wp_bitmap_set; [done|lia|]. intros s1 Hst1. wp_auto.
  set (s2 := s1 <| k_fs ::= fun r => r <| balloc_hint := b + 1 |> |>).
  assert (Hc2 : cache_ok s2) by (destruct (fst_cache _ _ _ Hst1) as [H1 H2 H3 H4]; by split).
  apply wp_bread_step; [done|lia|]. intros a s3 Hst3 Ha. unfold b_memset. wp_auto.
  eapply (wp_bwrite s3); [| |lia|].
  { exact (patched_more _ _ _ _ (fun base m => fill m base 512 0) _
      (patched_start _ _ _ (fst_cache _ _ _ Hst3) Ha)). }
  { by apply (patch_fill0 512 0). }
  intros s4 Hst4. wp_auto. apply HQ.
  destruct Hst1 as [Ha1 Hb1 Hc1 Hd1], Hst3 as [Ha3 Hb3 Hc3 Hd3], Hst4 as [Ha4 Hb4 Hc4 Hd4].
  split; [done| | |].
  - rewrite Hb4, Hb3.
    change (disk s2) with (disk s1). by rewrite Hb1.
  - rewrite Hc4, Hc3. change (disk_erase s2) with (disk_erase s1). done.
  - intros Hh. apply Hd4, Hd3. unfold hint_ok, s2. rsimpl.
    assert (E : fs_size (k_fs s1) = fs_size (k_fs s)).
    { change (fs_size (k_fs (disk_erase s1)) = fs_size (k_fs (disk_erase s))). by rewrite Hc1. }
    rewrite E. lia.
Qed.

Lemma wp_balloc_loop s0 n b scanned s (Q : Z -> kernel -> Prop) :
  fs_ready s0 -> 0 < fs_size (k_fs s0) ->
  fs_step s0 s (disk s0) -> 0 <= b <= fs_size (k_fs s0) -> 0 <= scanned <= fs_size (k_fs s0) ->
  b mod fs_size (k_fs s0) = rover s0 scanned ->
  fs_size (k_fs s0) - scanned < Z.of_nat n ->
  (forall k, 0 <= k < scanned -> bit_used s0 (rover s0 k) = true) ->
  (forall s', fs_step s0 s' (disk s0) ->
     (forall k, 0 <= k < fs_size (k_fs s0) -> bit_used s0 (rover s0 k) = true) -> Q 0 s') ->
  (forall r s', 0 <= r < fs_size (k_fs s0) -> bit_used s0 r = false ->
     fs_step s0 s' (disk_alloc s0 r) -> Q r s') ->
  wp (while_ n (balloc_step (fs_size (k_fs s0))) (b, scanned)) Q s.
Proof.
  intros Hr Hsz. revert b scanned s. set (size := fs_size (k_fs s0)) in *.
  induction n as [|n IH]; intros b scanned s Hst Hb Hsc Hrov Hn Hused HQ0 HQ; [lia|].
  cbn [while_ balloc_step]. apply wp_bind. destruct (Z.ltb_spec scanned size) as [Hlt|Hge].
  2:{ wp_auto. apply HQ0; [done|]. intros k Hk. apply Hused. lia. }
  assert (Hr' : fs_ready s) by (by eapply fs_step_ready).
  set (b' := if b >=? size then 0 else b).
  assert (Hb' : 0 <= b' < size /\ b' = rover s0 scanned).
  { unfold b'. destruct (Z.leb_spec size b); [|split; [lia|]; rewrite <- Hrov; by rewrite Z.mod_small by lia].
    split; [lia|]. rewrite <- Hrov. replace b with size by lia. by rewrite Z.mod_same by lia. }
  destruct Hb' as [Hbr Hbe]. cbv zeta.
  apply wp_bind. apply wp_bitmap_test; [done|lia|]. intros s1 Hst1.
  rewrite (bit_used_step _ _ _ Hst).
  assert (Hst01 : fs_step s0 s1 (disk s0)).
  { eapply fs_step_trans; [exact Hst|]. by rewrite (fst_disk _ _ _ Hst) in Hst1. }
  destruct (bit_used s0 b') eqn:Eu.
  - wp_auto. apply IH; [done|lia|lia| |lia| |done|done].
    + unfold rover in *. rewrite Hbe, Z.add_mod_idemp_l by lia. f_equal. lia.
    + intros k Hk. destruct (decide (k = scanned)) as [->|]; [by rewrite <- Hbe|apply Hused; lia].
  - assert (Hr1 : fs_ready s1) by (by eapply fs_step_ready).
    assert (Hsz1 : fs_size (k_fs s1) = size).
    { apply (fs_step_eq (fun s => fs_size (k_fs s)) _ _ _ ltac:(reflexivity) Hst01). }
    apply wp_balloc_take; [done|by rewrite Hsz1|]. intros s2 Hst2.
    wp_auto. apply HQ; [done|done|]. eapply fs_step_trans; [exact Hst01|].
    revert Hst2. unfold disk_alloc. rewrite (fst_disk _ _ _ Hst01).
    by rewrite (fs_step_eq (fun s => bit_byte s b') _ _ _ ltac:(reflexivity) Hst01).
Qed.

Lemma wp_balloc s (Q : Z -> kernel -> Prop) :
  alloc_ready s -> has (fs_mount_flags (k_fs s)) 1 = false -> 0 < fs_size (k_fs s) ->
  (forall s', fs_step s s' (disk s) ->
     (forall b, 0 <= b < fs_size (k_fs s) -> bit_used s b = true) -> Q 0 s') ->
  (forall r s', 0 < r < fs_size (k_fs s) -> bit_used s r = false ->
     fs_step s s' (disk_alloc s r) -> Q r s') ->
  wp balloc Q s.
Proof.
  intros Ha Hf Hsz HQ0 HQ. unfold balloc. wp_auto. rewrite Hf. wp_auto.
  pose proof (ar_hint _ Ha) as Hh. unfold hint_ok in Hh.
  eapply (wp_balloc_loop s); [apply Ha|done|apply fs_step_refl; apply Ha|done|lia| |lia|intros k Hk; lia| |].
  - unfold rover. by rewrite Z.add_0_r.
  - intros s' Hst Hall. apply HQ0; [done|]. intros b Hb.
    specialize (Hall ((b - balloc_hint (k_fs s)) mod fs_size (k_fs s))).
    unfold rover in Hall. rewrite Z.add_mod_idemp_r in Hall by lia.
    replace (balloc_hint (k_fs s) + (b - balloc_hint (k_fs s))) with b in Hall by lia.
    rewrite (Z.mod_small b) in Hall by lia. apply Hall. by apply Z.mod_pos_bound.
  - intros r s' Hrr Hu Hst. apply HQ; [|done|done].
    destruct (decide (r = 0)) as [->|]; [|lia]. pose proof (ar_boot _ Ha). congruence.
Qed.

(** An allocation changes the bit of its block and no other. *)
Lemma disk_alloc_bits s s' b b' :
  alloc_ready s -> fs_step s s' (disk_alloc s b) ->
  0 < b < fs_size (k_fs s) -> bit_used s b = false -> 0 <= b' < fs_size (k_fs s) ->
  bit_used s' b' = if b' =? b then true else bit_used s b'.
Proof.
  intros Ha Hst Hb Hu Hb'.
  set (m := upd (disk s) (bit_byte s b) (bit_set (disk s (bit_byte s b)) (b mod 8) 1)).
  assert (Hbb : bit_byte s' b' = bit_byte s b').
  { apply (fs_step_eq (fun s => bit_byte s b') _ _ _ ltac:(reflexivity) Hst). }
  assert (Hm : disk s' (bit_byte s b') = m (bit_byte s b')).
  { rewrite (fst_disk _ _ _ Hst). unfold disk_alloc. fold m. unfold fill.
    destruct (ar_bitmap _ Ha b' Hb') as [Hlt Hub].
    assert (fs_bmapstart (k_fs s) + b' / 4096 <> b) by congruence.
    pose proof (bit_byte_range b'). unfold bit_byte.
    destruct (Z.leb_spec (b * 512) ((fs_bmapstart (k_fs s) + b' / 4096) * 512 + b' mod 4096 / 8)),
      (Z.ltb_spec ((fs_bmapstart (k_fs s) + b' / 4096) * 512 + b' mod 4096 / 8) (b * 512 + 512));
      simpl; lia || done. }
  unfold bit_used. rewrite Hbb, Hm. subst m.
  destruct (upd_case (disk s) (bit_byte s b) (bit_set (disk s (bit_byte s b)) (b mod 8) 1)
    (bit_byte s b')) as [[E H]|[E H]]; rewrite H.
  - rewrite bit_set_spec by (by apply Z.mod_pos_bound).
    destruct (Z.eqb_spec b' b) as [->|Hne]; [by rewrite Z.eqb_refl|].
    destruct (Z.eqb_spec (b' mod 8) (b mod 8)) as [Heq|]; [|by rewrite E].
    destruct Hne. eapply (bit_byte_inj _ _ s); lia || done.
  - destruct (Z.eqb_spec b' b) as [->|]; done.
Qed.

(** C15: the block allocator.  [balloc] always terminates.  It returns 0 only if
    every block of the file system is in use, changing nothing; otherwise it
    returns a block that was free, wherever its rover stood: the block is now
    marked used and zeroed, no other block changes its mark, and no other byte of
    the disk changes outside that block and its bitmap byte. *)
Theorem balloc_correct s :
  alloc_ready s -> has (fs_mount_flags (k_fs s)) 1 = false -> 0 < fs_size (k_fs s) ->
  wp balloc (fun r s' =>
    (r = 0 /\ disk s' = disk s /\ forall b, 0 <= b < fs_size (k_fs s) -> bit_used s b = true) \/
    (0 < r < fs_size (k_fs s) /\ bit_used s r = false /\
     (forall b, 0 <= b < fs_size (k_fs s) -> bit_used s' b = if b =? r then true else bit_used s b) /\
     (forall k, 0 <= k < 512 -> disk s' (r * 512 + k) = 0) /\
     (forall a, a < r * 512 \/ r * 512 + 512 <= a -> a <> bit_byte s r -> disk s' a = disk s a))) s.
Proof.
  intros Ha Hf Hsz. apply wp_balloc; [done..| |].
  - intros s' Hst Hall. left. split; [done|]. split; [apply Hst|done].
  - intros r s' Hr Hu Hst. right. split; [done|]. split; [done|]. split; [|split].
    + intros b Hb. by apply disk_alloc_bits.
    + intros k Hk. rewrite (fst_disk _ _ _ Hst). unfold disk_alloc, fill.
      destruct (Z.leb_spec (r * 512) (r * 512 + k)), (Z.ltb_spec (r * 512 + k) (r * 512 + 512)); simpl; lia || done.
    + intros a Hout Hne. rewrite (fst_disk _ _ _ Hst). unfold disk_alloc, fill.
      destruct (Z.leb_spec (r * 512) a), (Z.ltb_spec a (r * 512 + 512)); simpl; try lia; by apply upd_ne, not_eq_sym.
Qed.

(** ** The block map as a function of the disk *)

Definition slot_of (d : Z -> Z) (ip k : Z) : Z := pread32 d (ip + (28 + k * 4)).
Definition entry_of (d : Z -> Z) (blk k : Z) : Z := pread32 d (blk * 512 + k * 4).

Definition bmap_of (d : Z -> Z) (ip bn : Z) : Z :=
  if bn <? CFG_NDIRECT then slot_of d ip bn
  else if bn >=? CFG_MAXFILE then 0
  else
    let bn := bn - CFG_NDIRECT in
    if bn <? CFG_NINDIRECT then
      let ind := slot_of d ip CFG_NDIRECT in
      if ind =? 0 then 0 else entry_of d ind bn
    else
      let bn := bn - CFG_NINDIRECT in
      let dind := slot_of d ip (CFG_NDIRECT + 1) in
      if dind =? 0 then 0 else
      let ind := entry_of d dind (bn / CFG_NINDIRECT) in
      if ind =? 0 then 0 else entry_of d ind (bn mod CFG_NINDIRECT).

(** Block pointers of the inode at [ip] are not negative. *)
Record ptrs_ok (d : Z -> Z) (ip : Z) : Prop := {
  pt_slot : forall k, 0 <= k <= CFG_NDIRECT + 1 -> 0 <= slot_of d ip k;
  pt_entry : forall bn, 0 <= bn < CFG_MAXFILE -> 0 <= bmap_of d ip bn;
  pt_middle : forall k, slot_of d ip (CFG_NDIRECT + 1) <> 0 -> 0 <= k < CFG_NINDIRECT ->
    0 <= entry_of d (slot_of d ip (CFG_NDIRECT + 1)) k;
}.

Lemma bmap_of_nonneg d ip bn : ptrs_ok d ip -> 0 <= bn -> 0 <= bmap_of d ip bn.
Proof.
  intros Hp Hbn. destruct (decide (bn < CFG_MAXFILE)); [by apply (pt_entry _ _ Hp)|].
  unfold bmap_of. destruct (Z.ltb_spec bn CFG_NDIRECT), (Z.leb_spec CFG_MAXFILE bn); try clia.
Qed.

Lemma wp_bread_entry blk k s (Q : Z -> kernel -> Prop) :
  cache_ok s -> 0 <= blk -> 0 <= k < CFG_NINDIRECT ->
  (forall s', fs_step s s' (disk s) -> Q (entry_of (disk s) blk k) s') ->
  wp (data ← bread blk ; b_read32 (data + k * 4)) Q s.
Proof.
  intros Hc Hb Hk HQ. apply wp_bind, wp_bread_step; [done..|]. intros a s' Hst Ha.
  unfold b_read32. wp_auto.
  rewrite (buf_at_pread32 s' blk); [|apply Hst|done|done|clia].
  rewrite (fst_disk _ _ _ Hst). by apply HQ.
Qed.

Lemma wp_inode_slot inum k s (Q : Z -> kernel -> Prop) :
  fs_ready s -> 0 <= inum -> 0 <= k <= CFG_NDIRECT + 1 ->
  (forall s', fs_step s s' (disk s) -> Q (slot_of (disk s) (ipos s inum) k) s') ->
  wp (inode_slot inum k) Q s.
Proof. intros Hr Hi Hk HQ. unfold inode_slot. apply wp_inode_read32; [done|done|clia|done]. Qed.

(** Continue from a step that left the disk as it was. *)
Lemma fs_step_then s s1 s2 d : fs_step s s1 (disk s) -> fs_step s1 s2 d -> fs_step s s2 d.
Proof. apply fs_step_trans. Qed.

Lemma wp_bmap inum bn s (Q : Z -> kernel -> Prop) :
  fs_ready s -> 0 <= inum -> 0 <= bn -> ptrs_ok (disk s) (ipos s inum) ->
  (forall s', fs_step s s' (disk s) -> Q (bmap_of (disk s) (ipos s inum) bn) s') ->
  wp (bmap inum bn) Q s.
Proof.
  intros Hr Hi Hbn Hp HQ. unfold bmap, bmap_of in *.
  destruct (Z.ltb_spec bn CFG_NDIRECT); [apply wp_inode_slot; [done|done|clia|done]|].
  destruct (Z.leb_spec CFG_MAXFILE bn); [wp_auto; apply HQ; apply fs_step_refl, Hr|].
  cbv zeta in *. destruct (Z.ltb_spec (bn - CFG_NDIRECT) CFG_NINDIRECT).
  - apply wp_bind, wp_inode_slot; [done|done|clia|]. intros s1 Hst1.
    destruct (Z.eqb_spec (slot_of (disk s) (ipos s inum) CFG_NDIRECT) 0); [wp_auto; by apply HQ|].
    apply wp_bread_entry; [apply Hst1|apply (pt_slot _ _ Hp); clia|lia|].
    intros s2 Hst2. rewrite (fst_disk _ _ _ Hst1) in *. apply HQ. by eapply fs_step_trans.
  - apply wp_bind, wp_inode_slot; [done|done|clia|]. intros s1 Hst1.
    set (dind := slot_of (disk s) (ipos s inum) (CFG_NDIRECT + 1)) in *.
    destruct (Z.eqb_spec dind 0); [wp_auto; by apply HQ|].
    rewrite Z.quot_div_nonneg, Z.rem_mod_nonneg by clia.
    set (bn' := bn - CFG_NDIRECT - CFG_NINDIRECT) in *.
    assert (Ho : 0 <= bn' / CFG_NINDIRECT < CFG_NINDIRECT).
    { split; [apply Z.div_pos; clia|]. apply Z.div_lt_upper_bound; clia. }
    assert (Hin : 0 <= bn' mod CFG_NINDIRECT < CFG_NINDIRECT) by (by apply Z.mod_pos_bound).
    assert (Hd : 0 <= dind) by (apply (pt_slot _ _ Hp); clia).
    apply wp_bind, wp_bread_step; [apply Hst1|done|]. intros a s2 Hst2 Ha.
    apply wp_bind, wp_gets.
    rewrite (buf_at_pread32 s2 dind); [|apply Hst2|done|done|clia].
    rewrite (fst_disk _ _ _ Hst1) in Hst2. rewrite (fst_disk _ _ _ Hst2).
    fold (entry_of (disk s) dind (bn' / CFG_NINDIRECT)).
    assert (Hst02 : fs_step s s2 (disk s)) by (by eapply fs_step_trans).
    destruct (Z.eqb_spec (entry_of (disk s) dind (bn' / CFG_NINDIRECT)) 0); [wp_auto; by apply HQ|].
    apply wp_bread_entry; [apply Hst2| |done|].
    { by apply (pt_middle _ _ Hp). }
    intros s3 Hst3. rewrite (fst_disk _ _ _ Hst2) in *. apply HQ. by eapply fs_step_trans.
Qed.

(** ** File contents *)

(** Byte [pos] of the file whose inode is at [ip]: a hole reads as zero. *)
Definition file_byte (d : Z -> Z) (ip pos : Z) : Z :=
  let blk := bmap_of d ip (pos / 512) in
  if blk =? 0 then 0 else d (blk * 512 + pos mod 512).

Definition file_bytes (d : Z -> Z) (ip off n : Z) : list Z :=
  (fun k => file_byte d ip (off + k)) <$> seqZ 0 n.

Lemma file_bytes_app d ip off n m :
  0 <= n -> 0 <= m -> file_bytes d ip off (n + m) = file_bytes d ip off n ++ file_bytes d ip (off + n) m.
Proof.
  intros Hn Hm. unfold file_bytes. rewrite seqZ_app by lia. rewrite fmap_app. f_equal.
  replace (0 + n) with (n + 0) by lia. rewrite <- (fmap_add_seqZ n 0), <- list_fmap_compose.
  apply list_fmap_ext. intros i k _. cbn. f_equal. lia.
Qed.

Lemma file_bytes_length d ip off n : 0 <= n -> Z.of_nat (length (file_bytes d ip off n)) = n.
Proof. intros Hn. unfold file_bytes. rewrite length_fmap, length_seqZ. lia. Qed.

Lemma chunk_range pos end_ : 0 <= pos < end_ -> 1 <= chunk pos end_ <= end_ - pos /\
  pos mod 512 + chunk pos end_ <= 512 /\
  (chunk pos end_ = end_ - pos \/ (pos + chunk pos end_) mod 512 = 0).
Proof.
  intros Hp. unfold chunk. cbv zeta. rewrite Z.rem_mod_nonneg by lia.
  pose proof (Z.mod_pos_bound pos 512).
  destruct (Z.ltb_spec (end_ - pos) (512 - pos mod 512)); [lia|].
  split; [lia|]. split; [lia|]. right.
  pose proof (Z.div_mod pos 512).
  replace (pos + (512 - pos mod 512)) with ((pos / 512 + 1) * 512) by lia. apply Z.mod_mul. lia.
Qed.

(** The bytes of one block are the bytes of the file. *)
Lemma file_bytes_block d ip pos n :
  0 <= pos -> 0 <= n -> pos mod 512 + n <= 512 ->
  file_bytes d ip pos n =
  if bmap_of d ip (pos / 512) =? 0 then replicate (Z.to_nat n) 0
  else slice d (bmap_of d ip (pos / 512) * 512 + pos mod 512) (Z.to_nat n).
Proof.
  intros Hp Hn Hfit.
  assert (Hk : forall k, 0 <= k < n -> (pos + k) / 512 = pos / 512 /\ (pos + k) mod 512 = pos mod 512 + k).
  { intros k Hk. pose proof (Z.div_mod pos 512). pose proof (Z.mod_pos_bound pos 512).
    assert ((pos + k) / 512 = pos / 512).
    { symmetry. apply Z.div_unique with (pos mod 512 + k); lia. }
    split; [done|]. rewrite Z.mod_eq by lia. lia. }
  apply list_eq. intros i. unfold file_bytes. rewrite list_lookup_fmap.
  destruct (decide (i < Z.to_nat n)%nat) as [Hi|Hi].
  - rewrite lookup_seqZ_lt by lia. cbn. rewrite Z.add_0_l. unfold file_byte. cbv zeta.
    destruct (Hk (Z.of_nat i)) as [-> ->]; [lia|].
    destruct (bmap_of d ip (pos / 512) =? 0).
    + by rewrite lookup_replicate_2.
    + rewrite slice_lookup by done. do 2 f_equal. lia.
  - rewrite lookup_seqZ_ge by lia. cbn. symmetry. apply lookup_ge_None_2.
    destruct (_ =? 0); rewrite ?length_replicate, ?slice_length; lia.
Qed.

(** How many bytes a read of [n] at [off] gets from a file of [sz] bytes. *)
Definition readi_len (sz off n : Z) : Z :=
  if (off <? 0) || (off >? sz) then 0 else Z.min n (sz - off).

(** The parts of the state the file system depends on. *)
Definition fs_same (s s' : kernel) : Prop :=
  k_fs s' = k_fs s /\ disk s' = disk s /\ hw_rtc (k_hw s') = hw_rtc (k_hw s).

Record fs_view (s s' : kernel) : Prop := {
  fv_ready : fs_ready s';
  fv_disk : disk s' = disk s;
  fv_ipos : forall inum, ipos s' inum = ipos s inum;
  fv_rtc : hw_rtc (k_hw s') = hw_rtc (k_hw s);
}.

Lemma fs_view_refl s : fs_ready s -> fs_view s s.
Proof. by split. Qed.

Lemma fs_view_step s s1 s2 : fs_view s s1 -> fs_step s1 s2 (disk s1) -> fs_view s s2.
Proof.
  intros [H1 H2 H3 H4] Hst. split; [by eapply fs_step_ready| | |].
  - by rewrite (fst_disk _ _ _ Hst).
  - intros inum. rewrite (fs_step_ipos _ _ _ inum Hst). apply H3.
  - by rewrite (fs_step_eq (fun s => hw_rtc (k_hw s)) _ _ _ ltac:(reflexivity) Hst).
Qed.

Lemma fs_view_same s s1 s2 : fs_view s s1 -> fs_same s1 s2 -> fs_view s s2.
Proof.
  intros [H1 H2 H3 H4] (E1 & E2 & E3). split; [|congruence| |congruence].
  - destruct H1 as [[C1 C2 C3 C4] B1 B2].
    split; [split|..]; rewrite ?E1; try done. intros i k. rewrite E2. by apply C3.
  - intros inum. rewrite <- H3. unfold ipos. by rewrite E1.
Qed.

(** Rounds of a block-wise copy loop from [pos] to [end_]. *)
Definition rounds (pos end_ : Z) : Z :=
  if pos <? end_ then (end_ + 511) / 512 - pos / 512 + 1 else 1.

Lemma rounds_pos pos end_ : 1 <= rounds pos end_.
Proof.
  unfold rounds. destruct (Z.ltb_spec pos end_); [|lia].
  assert (pos / 512 <= (end_ + 511) / 512) by (apply Z.div_le_mono; lia). lia.
Qed.

Lemma rounds_next pos end_ : 0 <= pos < end_ -> rounds (pos + chunk pos end_) end_ <= rounds pos end_ - 1.
Proof.
  intros Hp. destruct (chunk_range pos end_ Hp) as (H1 & H2 & H3). unfold rounds at 2.
  destruct (Z.ltb_spec pos end_); [|lia].
  assert (Hge : pos / 512 + 1 <= (end_ + 511) / 512).
  { replace (end_ + 511) with (end_ - 1 + 1 * 512) by lia. rewrite Z.div_add by lia.
    assert (pos / 512 <= (end_ - 1) / 512) by (apply Z.div_le_mono; lia). lia. }
  unfold rounds. destruct (Z.ltb_spec (pos + chunk pos end_) end_) as [Hlt|]; [|lia].
  destruct H3 as [H3|H3]; [lia|].
  pose proof (Z.div_mod pos 512). pose proof (Z.div_mod (pos + chunk pos end_) 512). pose proof (Z.mod_pos_bound pos 512). lia.
Qed.

Lemma rounds_fuel pos end_ : 0 <= pos <= end_ -> rounds pos end_ <= Z.of_nat (block_fuel (end_ - pos)).
Proof.
  intros Hp. unfold rounds, block_fuel.
  assert (0 <= (end_ - pos) / 512) by (apply Z.div_pos; lia).
  destruct (pos <? end_); [|lia].
  pose proof (Z.div_mod (end_ - pos) 512). pose proof (Z.mod_pos_bound (end_ - pos) 512).
  pose proof (Z.div_mod (end_ + 511) 512). pose proof (Z.mod_pos_bound (end_ + 511) 512).
  pose proof (Z.div_mod pos 512). pose proof (Z.mod_pos_bound pos 512). lia.
Qed.

Lemma wp_read_block blk pos n s (Q : list Z -> kernel -> Prop) :
  cache_ok s -> 0 <= blk -> 0 <= pos -> 0 <= n -> pos mod 512 + n <= 512 ->
  (forall s', fs_step s s' (disk s) ->
     Q (if blk =? 0 then replicate (Z.to_nat n) 0
        else slice (disk s) (blk * 512 + pos mod 512) (Z.to_nat n)) s') ->
  wp (if blk !=? 0 then
        data ← bread blk ;
        gets (fun s => slice (buf_data (k_fs s)) (data + Z.rem pos 512) (Z.to_nat n))
      else mret (replicate (Z.to_nat n) 0)) Q s.
Proof.
  intros Hc Hb Hp Hn Hfit HQ. destruct (Z.eqb_spec blk 0) as [->|Hne]; cbn [negb].
  - wp_auto. apply HQ, fs_step_refl, Hc.
  - apply wp_bind, wp_bread_step; [done..|]. intros a s' Hst Ha. wp_auto.
    rewrite Z.rem_mod_nonneg by lia.
    rewrite (slice_ext _ (disk s) _ (blk * 512 + pos mod 512)); [by apply HQ|].
    intros k Hk. pose proof (Z.mod_pos_bound pos 512). rewrite <- !Z.add_assoc.
    rewrite (buf_at_data s' blk); [|apply Hst|done|done|lia]. by rewrite (fst_disk _ _ _ Hst).
Qed.

Section readi_spec.
Context {A : Type} (put : A -> list Z -> K A) (R : list Z -> A -> kernel -> Prop) (limit : Z).
(** What the destination owes, for up to [limit] bytes: storing bytes extends
    what is stored and leaves the file system alone; file-system steps leave the
    destination alone. *)
Hypothesis put_ok : forall l d bs s, R l d s -> Z.of_nat (length (l ++ bs)) <= limit ->
  wp (put d bs) (fun d' s' => R (l ++ bs) d' s' /\ fs_same s s') s.
Hypothesis R_step : forall l d s s' dk, R l d s -> fs_step s s' dk -> R l d s'.

Lemma wp_readi_loop inum end_ off s0 n pos d s (Q : A -> kernel -> Prop) :
  0 <= inum -> ptrs_ok (disk s0) (ipos s0 inum) ->
  fs_view s0 s -> 0 <= off <= pos -> pos <= end_ -> end_ - off <= limit ->
  rounds pos end_ <= Z.of_nat n ->
  R (file_bytes (disk s0) (ipos s0 inum) off (pos - off)) d s ->
  (forall d' s', fs_view s0 s' ->
     R (file_bytes (disk s0) (ipos s0 inum) off (end_ - off)) d' s' -> Q d' s') ->
  wp (while_ n (readi_step put inum end_) (pos, d)) Q s.
Proof using put_ok R_step.
  intros Hi Hp. revert pos d s. induction n as [|n IH]; intros pos d s Hv Hpos Hle He Hfuel HR HQ.
  { pose proof (rounds_pos pos end_). lia. }
  cbn [while_ readi_step]. apply wp_bind. destruct (Z.ltb_spec pos end_) as [Hlt|Hge].
  2:{ wp_auto. apply HQ; [done|]. by replace end_ with pos by lia. }
  destruct (chunk_range pos end_ ltac:(lia)) as (Hc1 & Hc2 & _).
  pose proof (rounds_next pos end_ ltac:(lia)) as Hnx.
  set (ip := ipos s0 inum) in *. set (take := chunk pos end_) in *. cbv zeta.
  rewrite Z.quot_div_nonneg by lia.
  apply wp_bind, wp_bmap; [apply Hv|done|by apply Z.div_pos; lia| |].
  { by rewrite (fv_disk _ _ Hv), (fv_ipos _ _ Hv). }
  rewrite (fv_disk _ _ Hv), (fv_ipos _ _ Hv). fold ip.
  intros s1 Hst1. rewrite <- (fv_disk _ _ Hv) in Hst1.
  pose proof (fs_view_step _ _ _ Hv Hst1) as Hv1.
  apply wp_bind. apply wp_read_block; [apply Hst1|apply (bmap_of_nonneg _ _ _ Hp), Z.div_pos; lia|lia|lia|lia|].
  intros s2 Hst2. pose proof (fs_view_step _ _ _ Hv1 Hst2) as Hv2.
  rewrite (fv_disk _ _ Hv1), <- file_bytes_block by lia.
  apply wp_bind. eapply wp_mono.
  { apply put_ok; [eapply R_step; [|exact Hst2]; eapply R_step; [exact HR|exact Hst1]|].
    rewrite length_app, Nat2Z.inj_add, !file_bytes_length by lia. lia. }
  intros d' s3 [HR3 Hsame]. wp_auto.
  apply IH; [by eapply fs_view_same|lia|lia|done|lia| |done].
  replace (pos + take - off) with (pos - off + take) by lia. rewrite file_bytes_app by lia.
  by replace (off + (pos - off)) with pos by lia.
Qed.

Definition readi_post (inum off n : Z) (s : kernel) (Q : Z * A -> kernel -> Prop) : Prop :=
  let sz := pread32 (disk s) (ipos s inum + 12) in
  let m := readi_len sz off n in
  forall d s', R (file_bytes (disk s) (ipos s inum) off m) d s' ->
    disk s' = (if m >? 0 then touched 1 0 0 (hw_rtc (k_hw s)) (ipos s inum) (disk s) else disk s) ->
    fs_ready s' -> Q (m, d) s'.

Lemma wp_readi_gen inum off n dst s (Q : Z * A -> kernel -> Prop) :
  fs_ready s -> 0 <= inum -> ptrs_ok (disk s) (ipos s inum) ->
  0 <= n <= limit -> off + n < 2 ^ 31 -> R [] dst s -> readi_post inum off n s Q ->
  wp (readi_gen put inum off n dst) Q s.
Proof using put_ok R_step.
  intros Hr Hi Hp Hn Hov HR HQ. unfold readi_post in HQ. cbv zeta in HQ.
  unfold readi_gen, inode_size. apply wp_bind, wp_inode_read32; [done|done|clia|]. intros s1 Hst1.
  set (sz := pread32 (disk s) (ipos s inum + 12)) in *. unfold readi_len in HQ.
  destruct ((off <? 0) || (off >? sz)) eqn:Ebad.
  { wp_auto. apply HQ; [by eapply R_step|by apply Hst1|by eapply fs_step_ready]. }
  bool_hyps. rewrite (i32_id (off + n)) by (unfold is_i32; lia). cbv zeta.
  set (end_ := if off + n >? sz then sz else off + n).
  assert (He : end_ = off + Z.min n (sz - off)) by (unfold end_; destruct (Z.ltb_spec sz (off + n)); lia).
  pose proof (pread32_range (disk s) (ipos s inum + 12)) as Hszr. fold sz in Hszr. unfold is_i32 in Hszr.
  apply wp_bind. eapply (wp_readi_loop inum end_ off s);
    [done|done|eapply fs_view_step; [by apply fs_view_refl|exact Hst1]|lia|lia|lia| | |].
  { apply rounds_fuel. lia. }
  { rewrite Z.sub_diag. by eapply R_step. }
  intros d s2 Hv2 HR2.
  replace (end_ - off) with (Z.min n (sz - off)) in HR2 by lia.
  replace (Z.min n (sz - off) >? 0) with (end_ >? off) in HQ.
  2:{ destruct (Z.ltb_spec off end_), (Z.ltb_spec 0 (Z.min n (sz - off))); lia || done. }
  apply wp_bind. unfold when. destruct (end_ >? off).
  - apply wp_inode_touch; [apply Hv2|done|]. rewrite (fv_disk _ _ Hv2), (fv_ipos _ _ Hv2), (fv_rtc _ _ Hv2).
    intros s3 Hst3. wp_auto. replace (i32 (end_ - off)) with (Z.min n (sz - off)).
    2:{ rewrite i32_id; unfold is_i32; lia. }
    apply HQ; [by eapply R_step|apply Hst3|eapply fs_step_ready; [exact Hst3|apply Hv2]].
  - wp_auto. replace (i32 (end_ - off)) with (Z.min n (sz - off)).
    2:{ rewrite i32_id; unfold is_i32; lia. }
    apply HQ; [done|apply Hv2|apply Hv2].
Qed.
End readi_spec.

(** *** Reading into a local buffer *)

Lemma wp_readi_local inum off n s (Q : Z * list Z -> kernel -> Prop) :
  fs_ready s -> 0 <= inum -> ptrs_ok (disk s) (ipos s inum) -> 0 <= n -> off + n < 2 ^ 31 ->
  (forall s', let m := readi_len (pread32 (disk s) (ipos s inum + 12)) off n in
     fs_step s s' (if m >? 0 then touched 1 0 0 (hw_rtc (k_hw s)) (ipos s inum) (disk s) else disk s) ->
     Q (m, file_bytes (disk s) (ipos s inum) off m) s') ->
  wp (readi_local inum off n) Q s.
Proof.
  intros Hr Hi Hp Hn Hov HQ.
  apply (wp_readi_gen put_local (fun l d s' => d = l /\ disk_erase s' = disk_erase s /\
    (hint_ok s -> hint_ok s') /\ hw_rtc (k_hw s') = hw_rtc (k_hw s)) n); try done.
  - intros l d bs s' (-> & H) _. unfold put_local. wp_auto. by repeat split; try apply H.
  - intros l d s1 s2 dk (-> & H1 & H2 & H3) Hst. split; [done|]. split; [by rewrite (fst_rest _ _ _ Hst)|].
    split; [intros Hh; by apply Hst, H2|]. by rewrite (fs_step_eq (fun s => hw_rtc (k_hw s)) _ _ _ ltac:(reflexivity) Hst).
  - intros d s' (-> & H1 & H2 & _) Hd Hr'. apply HQ. split; [apply Hr'|done|done|done].
Qed.

(** *** Reading into memory *)

(** The first bytes [l] of a buffer were stored, nothing else of the memory
    changed; the rest of the state is as the file system leaves it. *)
Definition mem_erase (s : kernel) : kernel :=
  (disk_erase s) <| k_mem ::= fun r => r <| phys := fun _ => 0 |> |>.

Record stored (s : kernel) (φ : Z -> Z) (l : list Z) (s' : kernel) : Prop := {
  sto_rest : mem_erase s' = mem_erase s;
  sto_in : forall (k : nat) x, l !! k = Some x -> phys (k_mem s') (φ (Z.of_nat k)) = x mod 256;
  sto_out : forall a, (forall j, 0 <= j < Z.of_nat (length l) -> φ j <> a) ->
    phys (k_mem s') a = phys (k_mem s) a;
}.

Lemma mem_erase_eq {A} (f : kernel -> A) s s' :
  (forall s, f (mem_erase s) = f s) -> mem_erase s' = mem_erase s -> f s' = f s.
Proof. intros Hf H. by rewrite <- (Hf s'), <- (Hf s), H. Qed.

Lemma stored_step s φ l s1 s2 dk : stored s φ l s1 -> fs_step s1 s2 dk -> stored s φ l s2.
Proof.
  intros [H1 H2 H3] Hst.
  assert (Hm : k_mem s2 = k_mem s1) by (apply (fs_step_eq k_mem _ _ _ ltac:(reflexivity) Hst)).
  split; rewrite ?Hm; [|done|done]. rewrite <- H1. unfold mem_erase. by rewrite (fst_rest _ _ _ Hst).
Qed.

Lemma stored_refl s φ : stored s φ [] s.
Proof. split; [done|by intros k x ?|done]. Qed.

(** One byte more. *)
Lemma write8_at_stored s addr n φ l v s1 :
  buffer s addr n φ true -> Z.of_nat (length l) < n -> stored s φ l s1 ->
  exists s2, write8_at (addr + Z.of_nat (length l)) v s1 = Ret tt s2 /\
    stored s φ (l ++ [v]) s2 /\ fs_same s1 s2.
Proof.
  intros Hb Hl [H1 H2 H3].
  assert (Hlen : length (l ++ [v]) = S (length l)) by (rewrite length_app; simpl; lia).
  rewrite (write8_at_buffer s addr n φ _ v s1 Hb).
  - eexists. split; [reflexivity|]. split; [|done]. split; rsimpl.
    + rewrite <- H1. reflexivity.
    + intros k x Hk. destruct (decide (k = length l)) as [->|Hne].
      * rewrite lookup_app_r, Nat.sub_diag in Hk by lia. injection Hk as <-. by rewrite upd_same.
      * pose proof (lookup_lt_Some _ _ _ Hk) as Hlt. rewrite Hlen in Hlt.
        rewrite lookup_app_l in Hk by lia. rewrite upd_ne; [by apply H2|].
        intros Heq. apply (buf_inj _ _ _ _ _ Hb) in Heq; lia.
    + intros a Ha. rewrite Hlen in Ha. rewrite upd_ne by (apply Ha; lia). apply H3. intros j Hj. apply Ha. lia.
  - lia.
  - apply (mem_erase_eq (fun s => hw_paging (k_hw s))); [reflexivity|done].
  - apply (mem_erase_eq (fun s => hw_ptbr (k_hw s))); [reflexivity|done].
  - intros a Ha. apply H3. intros j Hj. apply Ha. lia.
Qed.

Lemma fs_same_trans s1 s2 s3 : fs_same s1 s2 -> fs_same s2 s3 -> fs_same s1 s3.
Proof. unfold fs_same. intuition congruence. Qed.

Lemma wp_write_bytes s addr n φ bs : forall l s1 (Q : unit -> kernel -> Prop),
  buffer s addr n φ true -> Z.of_nat (length l + length bs) <= n -> stored s φ l s1 ->
  (forall s2, stored s φ (l ++ bs) s2 -> fs_same s1 s2 -> Q tt s2) ->
  wp (write_bytes (addr + Z.of_nat (length l)) bs) Q s1.
Proof.
  induction bs as [|b bs IH]; intros l s1 Q Hb Hl Hs HQ; cbn [write_bytes].
  - wp_auto. apply HQ; [by rewrite app_nil_r|done].
  - cbn [length] in Hl. destruct (write8_at_stored s addr n φ l b s1 Hb ltac:(lia) Hs) as (s2 & E & Hs2 & Hsame).
    apply wp_bind. eapply wpm_intro; [exact E|].
    replace (addr + Z.of_nat (length l) + 1) with (addr + Z.of_nat (length (l ++ [b])))
      by (rewrite length_app; simpl; lia).
    apply IH; [done|rewrite length_app; simpl; lia|done|].
    intros s3 Hs3 Hsame3. apply HQ; [by rewrite <- app_assoc in Hs3|by eapply fs_same_trans].
Qed.

Lemma readi_len_range sz off n : 0 <= n -> 0 <= readi_len sz off n <= n.
Proof.
  intros Hn. unfold readi_len. destruct ((off <? 0) || (off >? sz)) eqn:E; [lia|]. bool_hyps. lia.
Qed.

(** C14: reading a file.  [readi] returns how many of the [n] bytes at [off] exist
    and stores exactly the file's bytes, holes as zeros, in the caller's buffer,
    across direct, indirect and double-indirect blocks, whatever the buffer cache
    holds.  No other memory changes; on the disk only the access time does. *)
Theorem readi_correct inum off n dst φ s :
  fs_ready s -> 0 <= inum -> ptrs_ok (disk s) (ipos s inum) -> 0 <= n -> off + n < 2 ^ 31 ->
  buffer s dst n φ true ->
  wp (readi inum off n dst) (fun r s' =>
    let ip := ipos s inum in
    r = readi_len (pread32 (disk s) (ip + 12)) off n /\
    stored s φ (file_bytes (disk s) ip off r) s' /\ fs_ready s' /\
    disk s' = if r >? 0 then touched 1 0 0 (hw_rtc (k_hw s)) ip (disk s) else disk s) s.
Proof.
  intros Hr Hi Hp Hn Hov Hb. unfold readi. apply wp_bind.
  apply (wp_readi_gen put_mem (fun l d s' => d = dst + Z.of_nat (length l) /\ stored s φ l s') n); try done.
  - intros l d bs s1 [-> Hs1] Hlen. unfold put_mem. rewrite length_app in Hlen. apply wp_bind.
    eapply wp_write_bytes; [exact Hb|done|exact Hs1|]. intros s2 Hs2 Hsame. wp_auto.
    split; [|done]. split; [rewrite length_app; lia|done].
  - intros l d s1 s2 dk [-> Hs1] Hst. split; [done|]. by eapply stored_step.
  - split; [simpl; lia|]. apply stored_refl.
  - intros d s' [_ Hs'] Hd Hr'. wp_auto. split; [done|]. split; [done|]. by split.
Qed.

(** ** Witnesses *)

(** A small file system of 16 blocks: inode block 2, bitmap block 3 (blocks 0 to 5
    in use), and inode 1, a directory of two entries in block 5. *)
Definition demo_disk : Z -> Z :=
  let ip := 2 * 512 + CFG_DINODE_SIZE in
  blit (blit (pwrite32 (pwrite32 (upd (upd (fun _ => 0) (3 * 512) 63) ip CFG_T_DIR)
    (ip + 12) 32) (ip + 28) 5)
    (5 * 512) (1 :: 0 :: str ".")) (5 * 512 + 16) (2 :: 0 :: str "etc").

Definition demo_fs : kernel :=
  (disk_kernel demo_disk) <| k_fs ::= fun r => r <| fs_size := 16 |> <| fs_ninodes := 6 |>
    <| fs_inodestart := 2 |> <| fs_bmapstart := 3 |> |>.

Lemma demo_fs_cache : cache_ok demo_fs.
Proof. destruct (disk_kernel_cache demo_disk) as [H1 H2 H3 H4]. by split. Qed.

Lemma demo_fs_ready : fs_ready demo_fs.
Proof. split; [exact demo_fs_cache|vm_compute; discriminate..]. Qed.

Lemma demo_alloc_ready : alloc_ready demo_fs.
Proof.
  split; [exact demo_fs_ready|vm_compute; by split|reflexivity|].
  intros b Hb. change (fs_size (k_fs demo_fs)) with 16 in *.
  change (fs_bmapstart (k_fs demo_fs)) with 3.
  rewrite (Z.div_small b) by lia. split; [lia|reflexivity].
Qed.

(** The slots of inode 1: block 5 and nothing else. *)
Lemma demo_slot k :
  0 <= k <= CFG_NDIRECT + 1 -> slot_of demo_disk 1104 k = if k =? 0 then 5 else 0.
Proof.
  intros Hk. assert (Hall : forall n : nat, (n < 13)%nat ->
    slot_of demo_disk 1104 (Z.of_nat n) = if Z.of_nat n =? 0 then 5 else 0).
  { intros n Hn. do 13 (destruct n as [|n]; [reflexivity|]). lia. }
  rewrite <- (Z2Nat.id k) by lia. apply Hall. clia.
Qed.

Lemma demo_bmap bn : 0 <= bn -> bmap_of demo_disk 1104 bn = if bn =? 0 then 5 else 0.
Proof.
  intros Hbn. unfold bmap_of. cbv zeta.
  rewrite (demo_slot CFG_NDIRECT), (demo_slot (CFG_NDIRECT + 1)) by clia.
  change (CFG_NDIRECT + 1 =? 0) with false. change (CFG_NDIRECT =? 0) with false. cbv iota.
  change (0 =? 0) with true. cbv iota.
  destruct (Z.ltb_spec bn CFG_NDIRECT).
  - apply demo_slot. lia.
  - destruct (Z.eqb_spec bn 0); [clia|]. by destruct (CFG_MAXFILE <=? bn), (bn - CFG_NDIRECT <? CFG_NINDIRECT).
Qed.

Lemma demo_ptrs_ok : ptrs_ok (disk demo_fs) (ipos demo_fs 1).
Proof.
  change (disk demo_fs) with demo_disk. change (ipos demo_fs 1) with 1104. split.
  - intros k Hk. rewrite demo_slot by done. by destruct (k =? 0).
  - intros bn Hbn. rewrite demo_bmap by lia. by destruct (bn =? 0).
  - intros k H. exfalso. revert H. by rewrite demo_slot by clia.
Qed.

Lemma bitmap_set_test_witness :
  wp (bitmap_set 9 1) (fun _ s' => wp (bitmap_test 9) (fun r _ => r = true) s') demo_fs.
Proof.
  eapply wp_mono; [apply (bitmap_set_test 9 1 demo_fs demo_fs_ready); lia|].
  intros _ s' (H & _). eapply wp_mono; [apply (H 9); lia|]. by intros r s'' (-> & _).
Defined.

Lemma balloc_correct_witness :
  wp balloc (fun r s' =>
    (r = 0 /\ forall b, 0 <= b < 16 -> bit_used demo_fs b = true) \/
    (0 < r < 16 /\ bit_used demo_fs r = false /\ bit_used s' r = true)) demo_fs.
Proof.
  eapply wp_mono; [apply (balloc_correct demo_fs demo_alloc_ready); reflexivity|].
  intros r s' [(-> & _ & H)|(Hr & H & Hb & _)]; [left; by split|right].
  split; [exact Hr|]. split; [exact H|]. rewrite Hb by (change (fs_size _) with 16 in *; lia).
  by rewrite Z.eqb_refl.
Defined.

Lemma readi_correct_witness :
  wp (readi 1 16 64 4096) (fun r s' => r = 16 /\ fs_ready s') demo_fs.
Proof.
  eapply wp_mono.
  - apply (readi_correct 1 16 64 4096 (fun k => 4096 + k) demo_fs demo_fs_ready); try lia.
    + exact demo_ptrs_ok.
    + apply buffer_kernel; [lia|clia].
  - intros r s' (-> & _ & H & _). split; [reflexivity|exact H].
Defined.
