(* ===== verification/Dir.v ===== *)
(** * Dir: directories and path names ([fs.c], lines 501-1000)

    Directory entries are 16 bytes: a 16-bit inode number and a name of up to
    CFG_DIRSIZ bytes.  A kernel string is the list of its bytes before the NUL,
    so [read8_at(path + i)] is [nthz path i], 0 from the end on.  The 16-byte
    buffers ([direntbuf], [entry]) are the bytes [readi] delivered; every
    directory this code writes has a size that is a multiple of 16, for which all
    16 are delivered. *)

From S2P Require Import Prelude Config Kernel Klog RawMem Buf Inode.

Definition rofs : K bool := flags ← rd k_fs fs_mount_flags ; mret (has flags 1).

Definition strlen (s : list Z) : Z := Z.of_nat (length s).
Definition streq (a b : list Z) : bool := bool_decide (a = b).

(** ** Directory entries *)

Definition ent_inum (e : list Z) : Z := nthz e 0 + 2 ^ 8 * nthz e 1.

(** Compare the name of entry [e] with [want]. *)
Definition name_eq (e want : list Z) (wlen : Z) : bool :=
  negb (exists_from (fun k =>
    nthz e (2 + k) !=? (if k <? wlen then nthz want k else 0)) 0 (Z.to_nat CFG_DIRSIZ)).

(** Rounds of a scan of a directory of [size] bytes. *)
Definition dir_fuel (size : Z) : nat := Z.to_nat (size / 16 + 2).

Definition dirlookup (dir : Z) (name : list Z) (namelen : Z) : K Z :=
  t ← inode_type dir ;
  if t !=? CFG_T_DIR then mret 0 else
  sz ← inode_size dir ;
  while_ (dir_fuel sz) (fun off =>
    if off <? sz then
      r ← readi_local dir off 16 ;
      let inum := ent_inum r.2 in
      if (inum !=? 0) && name_eq r.2 name namelen then mret (inr inum)
      else mret (inl (off + 16))
    else mret (inr 0)) 0.

(** The entry bytes [dirlink] writes. *)
Definition dirent_bytes (inum : Z) (name : list Z) (namelen : Z) : list Z :=
  let n := take (Z.to_nat namelen) name in
  [inum mod 256; shr inum 8 mod 256] ++ n ++ replicate (14 - length n) 0.

Definition dirlink (dir : Z) (name : list Z) (namelen inum : Z) : K Z :=
  if (namelen <=? 0) || (namelen >? CFG_DIRSIZ) then mret (- CFG_ENAMETOOLONG) else
  t ← inode_type dir ;
  if t !=? CFG_T_DIR then mret (- CFG_ENOTDIR) else
  e ← dirlookup dir name namelen ;
  if e !=? 0 then mret (- CFG_EEXIST) else
  size ← inode_size dir ;
  size ← while_ (dir_fuel size) (fun '(off, size) =>
    if off <? size then
      r ← readi_local dir off 16 ;
      if ent_inum r.2 =? 0 then
        full ← inode_size dir ;
        mret (inl (full, off))
      else mret (inl (off + 16, size))
    else mret (inr size)) (0, size) ;
  writei_local dir size (dirent_bytes inum name namelen).

(** The size is read again in every round. *)
Definition dirunlink (dir : Z) (name : list Z) (namelen : Z) : K Z :=
  size ← inode_size dir ;
  while_ (dir_fuel size) (fun off =>
    size ← inode_size dir ;
    if off <? size then
      r ← readi_local dir off 16 ;
      if (ent_inum r.2 !=? 0) && name_eq r.2 name namelen then
        res ← writei_local dir off (replicate 16 0) ;
        mret (inr res)
      else mret (inl (off + 16))
    else mret (inr (- CFG_ENOENT))) 0.

Definition dir_is_empty (dir : Z) : K bool :=
  size ← inode_size dir ;
  while_ (dir_fuel size) (fun off =>
    size ← inode_size dir ;
    if off <? size then
      r ← readi_local dir off 16 ;
      if (ent_inum r.2 !=? 0) && negb (name_eq r.2 (str ".") 1) && negb (name_eq r.2 (str "..") 2)
      then mret (inr false)
      else mret (inl (off + 16))
    else mret (inr true)) 0.

(** ** Permissions *)

Definition inode_access (inum uid gid mask : Z) : K bool :=
  mode ← inode_mode inum ;
  if uid =? 0 then mret (negb (has mask 1 && (Z.land mode 73 =? 0)))
  else
    iuid ← inode_uid inum ;
    bits ← (if uid =? iuid then mret (Z.land (shr mode 6) 7)
            else igid ← inode_gid inum ;
                 if gid =? igid then mret (Z.land (shr mode 3) 7)
                 else mret (Z.land mode 7)) ;
    mret (Z.land bits mask =? mask).

(** ** Path resolution *)

(** [vfs.c]: the mount point that covers inode [inum], if any. *)
Definition vfs_mounted_path (s : kernel) (inum : Z) : option (list Z) :=
  match find_from (fun i =>
          let m := mount_table (k_vfs s) i in
          (mnt_used m !=? 0) && (mnt_root_inum m =? inum)) 1 (Z.to_nat (CFG_NMOUNT - 1)) with
  | Some i => Some (mnt_path (mount_table (k_vfs s) i))
  | None => None
  end.

Definition slash : Z := 47.

(** [while (path[i] == '/') i = i + 1]; a path has at most its length of them. *)
Fixpoint skip_slashes (fuel : nat) (path : list Z) (i : Z) : Z :=
  match fuel with
  | O => i
  | S f => if nthz path i =? slash then skip_slashes f path (i + 1) else i
  end.

(** The component that starts at [i], collected in [namebuf], and the index after
    it; [None] when it has more than CFG_DIRSIZ bytes. *)
Fixpoint take_name (fuel : nat) (path : list Z) (i : Z) (namebuf : list Z) : option (list Z * Z) :=
  match fuel with
  | O => Some (namebuf, i)
  | S f =>
      let c := nthz path i in
      if (c !=? 0) && (c !=? slash) then
        if strlen namebuf >=? CFG_DIRSIZ then None
        else take_name f path (i + 1) (namebuf ++ [c])
      else Some (namebuf, i)
  end.

Definition lookup_fail {A} (error : Z) : K (A + Z) :=
  wr k_fs fs_lookup_error error ;; mret (inr 0).

(** Copy the rest of [path] from [i] into a buffer that already holds [acc] and
    takes CFG_INITPATH_LEN - 1 bytes. *)
Definition append_rest (acc path : list Z) (i : Z) : list Z :=
  acc ++ take (Z.to_nat (CFG_INITPATH_LEN - 1) - length acc) (drop (Z.to_nat i) path).

(** The path a symlink leads to: its target, then the rest of the path. *)
Definition symlink_combined (target path : list Z) (i : Z) (final : bool) : list Z :=
  let combined := take (Z.to_nat (CFG_INITPATH_LEN - 1)) target in
  if negb final && (strlen combined <? CFG_INITPATH_LEN - 1)
  then append_rest (combined ++ [slash]) path i
  else combined.

(** The path inside a mount point, and whether all of the rest fitted. *)
Definition mounted_redirect (mounted path : list Z) (i : Z) : list Z * bool :=
  let acc := take (Z.to_nat (CFG_INITPATH_LEN - 1)) mounted in
  let acc := if (nthz path i !=? 0) && (strlen acc <? CFG_INITPATH_LEN - 1)
             then acc ++ [slash] else acc in
  let all := append_rest acc path i in
  (all, (strlen acc + (strlen path - i) <=? CFG_INITPATH_LEN - 1) || (nthz path i =? 0)).

(** One component.  The state is the inode reached and the index in the path; the
    result [inr] ends the walk.  [follow_link] resolves a relative link. *)
Definition namei_step (path : list Z) (follow_final : bool) (uid gid : Z) (check_access : bool)
    (follow_link : Z -> list Z -> K Z) : Z * Z -> K (Z * Z + Z) := fun '(inum, i) =>
  let fuel := S (length path) in
  if nthz path i =? 0 then mret (inr inum) else
  match take_name fuel path i [] with
  | None => lookup_fail CFG_ENAMETOOLONG
  | Some (name, i) =>
      let i := skip_slashes fuel path i in
      let final := nthz path i =? 0 in
      t ← inode_type inum ;
      if t !=? CFG_T_DIR then lookup_fail CFG_ENOTDIR else
      ok ← (if check_access then inode_access inum uid gid 1 else mret true) ;
      if negb ok then lookup_fail CFG_EACCES else
      next ← dirlookup inum name (strlen name) ;
      if next =? 0 then lookup_fail CFG_ENOENT else
      t ← inode_type next ;
      if (t =? CFG_T_SYMLINK) && (negb final || follow_final) then
        target_len ← inode_size next ;
        if target_len >=? CFG_INITPATH_LEN then lookup_fail CFG_ENAMETOOLONG else
        r ← readi_local next 0 target_len ;
        let combined := symlink_combined r.2 path i final in
        if nthz r.2 0 =? slash then
          wr k_fs fs_redirect_path combined ;;
          wr k_fs fs_redirect_valid 1 ;;
          mret (inr 0)
        else res ← follow_link inum combined ; mret (inr res)
      else
        mounted ← gets (fun s => vfs_mounted_path s next) ;
        match mounted with
        | Some m =>
            let '(redirect, fits) := mounted_redirect m path i in
            if negb fits then lookup_fail CFG_ENAMETOOLONG else
            wr k_fs fs_redirect_path redirect ;;
            wr k_fs fs_redirect_valid 1 ;;
            mret (inr 0)
        | None => mret (inl (next, i))
        end
  end.

(** [depth] counts up to 8 in the source; here [left = 9 - depth] counts down. *)
Fixpoint namei_from_checked (left : nat) (start : Z) (path : list Z) (follow_final : bool)
    (uid gid : Z) (check_access : bool) : K Z :=
  match left with
  | O => wr k_fs fs_lookup_error CFG_ELOOP ;; mret 0
  | S left' =>
      let absolute := nthz path 0 =? slash in
      let inum := if absolute then CFG_ROOTINO else start in
      let i := if absolute then skip_slashes (S (length path)) path 0 else 0 in
      while_ (S (length path))
        (namei_step path follow_final uid gid check_access
           (fun inum p => namei_from_checked left' inum p follow_final uid gid check_access))
        (inum, i)
  end.

Definition namei_walk (path : list Z) (follow_final : bool) (uid gid : Z) (check_access : bool) : K Z :=
  wr k_fs fs_lookup_error CFG_ENOENT ;;
  wr k_fs fs_redirect_valid 0 ;;
  namei_from_checked 9 CFG_ROOTINO path follow_final uid gid check_access.

Definition namei (path : list Z) : K Z := namei_walk path true 0 0 false.
Definition namei_nofollow (path : list Z) : K Z := namei_walk path false 0 0 false.
Definition namei_access (path : list Z) (follow_final : bool) (uid gid : Z) : K Z :=
  namei_walk path follow_final uid gid true.

(** The last slash at or before [k], or -1. *)
Fixpoint last_slash (fuel : nat) (path : list Z) (k : Z) : Z :=
  match fuel with
  | O => k
  | S f => if (k >=? 0) && (nthz path k !=? slash) then last_slash f path (k - 1) else k
  end.

(** [while (end > 1 && path[end - 1] == '/') end = end - 1]. *)
Fixpoint strip_slashes (fuel : nat) (path : list Z) (end_ : Z) : Z :=
  match fuel with
  | O => end_
  | S f => if (end_ >? 1) && (nthz path (end_ - 1) =? slash)
           then strip_slashes f path (end_ - 1) else end_
  end.

(** Split into the parent path and the last name; [None] for a bad name, and an
    empty parent for an entry of the root. *)
Definition split_path (path : list Z) : option (list Z * list Z) :=
  let len := Z.min (strlen path) (CFG_INITPATH_LEN - 1) in
  let fuel := S (length path) in
  let end_ := strip_slashes fuel path len in
  let sl := last_slash fuel path (end_ - 1) in
  let ni := end_ - sl - 1 in
  if (ni <=? 0) || (ni >? CFG_DIRSIZ) then None
  else Some (take (Z.to_nat sl) path, take (Z.to_nat ni) (drop (Z.to_nat (sl + 1)) path)).

(** The parent inode (0: none) and the name buffer. *)
Definition nameiparent (path : list Z) : K (Z * list Z) :=
  match split_path path with
  | None => mret (0, [])
  | Some (parent, name) =>
      if strlen parent =? 0 then mret (CFG_ROOTINO, name)
      else inum ← namei parent ; mret (inum, name)
  end.

(** ** Creating and removing names *)

(** The mode [create_inode] stores for a type. *)
Definition create_mode (type mode : Z) : Z :=
  if type =? CFG_T_DIR then Z.lor CFG_S_IFDIR (Z.land mode 4095)
  else if type =? CFG_T_SYMLINK then Z.lor CFG_S_IFLNK 511
  else Z.lor CFG_S_IFREG (Z.land mode 4095).

Definition create_inode (path : list Z) (type mode : Z) : K Z :=
  ro ← rofs ;
  if (ro : bool) then mret (- CFG_EROFS) else
  pn ← nameiparent path ;
  let '(parent, name) := pn in
  if parent =? 0 then mret (- CFG_ENOENT) else
  t ← inode_type parent ;
  if t !=? CFG_T_DIR then mret (- CFG_ENOTDIR) else
  let namelen := strlen name in
  e ← dirlookup parent name namelen ;
  if e !=? 0 then mret (- CFG_EEXIST) else
  inum ← ialloc type (create_mode type mode) ;
  if inum =? 0 then mret (- CFG_ENOSPC) else
  result ← (if type =? CFG_T_DIR then
              inode_set16 inum 2 2 ;;
              result ← dirlink inum (str ".") 1 inum ;
              if result >=? 0 then dirlink inum (str "..") 2 parent else mret result
            else inode_set16 inum 2 1 ;; mret 0) ;
  if result <? 0 then ifree inum ;; mret result else
  result ← dirlink parent name namelen inum ;
  if result <? 0 then ifree inum ;; mret result else
  when (type =? CFG_T_DIR) (n ← inode_nlink parent ; inode_set16 parent 2 (n + 1)) ;;
  inode_touch parent 0 1 1 ;;
  mret inum.

(** How many open files refer to a disk inode. *)
Definition inode_open_count (s : kernel) (inum : Z) : Z :=
  count_from (fun i => let f := open_file_table (k_files s) i in
    (of_used f !=? 0) && (vn_fs_type (of_vnode f) =? CFG_FS_DISK) &&
    (i_inum (vn_inode (of_vnode f)) =? inum)) 0 (Z.to_nat CFG_NFILE).
Definition inode_is_open (s : kernel) (inum : Z) : bool := inode_open_count s inum !=? 0.

Definition unlink_path (path : list Z) (remove_dir : bool) : K Z :=
  ro ← rofs ;
  if (ro : bool) then mret (- CFG_EROFS) else
  pn ← nameiparent path ;
  let '(parent, name) := pn in
  if parent =? 0 then mret (- CFG_ENOENT) else
  if streq name (str ".") || streq name (str "..") then mret (- CFG_EINVAL) else
  let namelen := strlen name in
  inum ← dirlookup parent name namelen ;
  if inum =? 0 then mret (- CFG_ENOENT) else
  type ← inode_type inum ;
  err ← (if remove_dir then
           if type !=? CFG_T_DIR then mret (- CFG_ENOTDIR)
           else e ← dir_is_empty inum ; mret (if (e : bool) then 0 else - CFG_ENOTEMPTY)
         else mret (if type =? CFG_T_DIR then - CFG_EISDIR else 0)) ;
  if err !=? 0 then mret err else
  dirunlink parent name namelen ;;
  when (type =? CFG_T_DIR) (n ← inode_nlink parent ; inode_set16 parent 2 (n - 1)) ;;
  links ← inode_nlink inum ;
  let links := if type =? CFG_T_DIR then 0 else links - 1 in
  inode_set16 inum 2 links ;;
  inode_touch parent 0 1 1 ;;
  open ← gets (fun s => inode_is_open s inum) ;
  when ((links =? 0) && negb open) (ifree inum) ;;
  mret 0.

Definition link_path (oldpath newpath : list Z) : K Z :=
  ro ← rofs ;
  if (ro : bool) then mret (- CFG_EROFS) else
  inum ← namei_nofollow oldpath ;
  if inum =? 0 then mret (- CFG_ENOENT) else
  t ← inode_type inum ;
  if t =? CFG_T_DIR then mret (- CFG_EPERM) else
  pn ← nameiparent newpath ;
  let '(parent, name) := pn in
  if parent =? 0 then mret (- CFG_ENOENT) else
  result ← dirlink parent name (strlen name) inum ;
  if result <? 0 then mret result else
  n ← inode_nlink inum ;
  inode_set16 inum 2 (n + 1) ;;
  inode_touch inum 0 0 1 ;;
  mret 0.

(** Is [inum] an ancestor of [newparent] (or is the chain of [..] broken)?  The
    chain has at most one step per inode. *)
Definition below_itself (inum newparent : Z) : K bool :=
  n ← rd k_fs fs_ninodes ;
  while_ (S (Z.to_nat n)) (fun ancestor =>
    if ancestor !=? CFG_ROOTINO then
      if ancestor =? inum then mret (inr true) else
      up ← dirlookup ancestor (str "..") 2 ;
      if up =? 0 then mret (inr true) else mret (inl up)
    else mret (inr (ancestor =? inum))) newparent.

Definition rename_path (oldpath newpath : list Z) : K Z :=
  ro ← rofs ;
  if (ro : bool) then mret (- CFG_EROFS) else
  opn ← nameiparent oldpath ;
  npn ← nameiparent newpath ;
  let '(oldparent, oldname) := opn in
  let '(newparent, newname) := npn in
  if (oldparent =? 0) || (newparent =? 0) then mret (- CFG_ENOENT) else
  if (oldparent =? newparent) && streq oldname newname then mret 0 else
  inum ← dirlookup oldparent oldname (strlen oldname) ;
  if inum =? 0 then mret (- CFG_ENOENT) else
  t ← inode_type inum ;
  below ← (if t =? CFG_T_DIR then below_itself inum newparent else mret false) ;
  if (below : bool) then mret (- CFG_EINVAL) else
  existing ← dirlookup newparent newname (strlen newname) ;
  if existing =? inum then mret 0 else
  err ← (if existing !=? 0 then
           et ← inode_type existing ;
           t ← inode_type inum ;
           if et =? CFG_T_DIR then
             if t !=? CFG_T_DIR then mret (- CFG_EISDIR) else
             e ← dir_is_empty existing ;
             if negb e then mret (- CFG_ENOTEMPTY) else unlink_path newpath true
           else if t =? CFG_T_DIR then mret (- CFG_ENOTDIR)
           else unlink_path newpath false
         else mret 0) ;
  if err <? 0 then mret err else
  result ← dirlink newparent newname (strlen newname) inum ;
  if result <? 0 then mret result else
  dirunlink oldparent oldname (strlen oldname) ;;
  type ← inode_type inum ;
  when ((type =? CFG_T_DIR) && (oldparent !=? newparent))
    (dirunlink inum (str "..") 2 ;;
     dirlink inum (str "..") 2 newparent ;;
     n ← inode_nlink oldparent ;
     inode_set16 oldparent 2 (n - 1) ;;
     n ← inode_nlink newparent ;
     inode_set16 newparent 2 (n + 1)) ;;
  inode_touch inum 0 0 1 ;;
  mret 0.

Definition symlink_path (target linkpath : list Z) : K Z :=
  ro ← rofs ;
  if (ro : bool) then mret (- CFG_EROFS) else
  if strlen target >=? CFG_INITPATH_LEN then mret (- CFG_ENAMETOOLONG) else
  inum ← create_inode linkpath CFG_T_SYMLINK 511 ;
  if inum <? 0 then mret inum else
  result ← writei_local inum 0 target ;
  if result <? 0 then unlink_path linkpath false ;; mret result else mret 0.

(** The length and the bytes for the caller's buffer. *)
Definition readlink_path (path : list Z) (size : Z) : K (Z * list Z) :=
  inum ← namei_nofollow path ;
  if inum =? 0 then mret (- CFG_ENOENT, []) else
  t ← inode_type inum ;
  if t !=? CFG_T_SYMLINK then mret (- CFG_EINVAL, []) else
  length ← inode_size inum ;
  let length := if length >? size then size else length in
  readi_local inum 0 length.

Definition chmod_path (path : list Z) (mode : Z) : K Z :=
  ro ← rofs ;
  if (ro : bool) then mret (- CFG_EROFS) else
  inum ← namei path ;
  if inum =? 0 then mret (- CFG_ENOENT) else
  current ← inode_mode inum ;
  inode_set16 inum 4 (Z.lor (Z.land current CFG_S_IFMT) (Z.land mode 4095)) ;;
  inode_touch inum 0 0 1 ;;
  mret 0.

Definition chown_path (path : list Z) (uid gid : Z) : K Z :=
  ro ← rofs ;
  if (ro : bool) then mret (- CFG_EROFS) else
  inum ← namei path ;
  if inum =? 0 then mret (- CFG_ENOENT) else
  when (uid >=? 0) (inode_set16 inum 6 uid) ;;
  when (gid >=? 0) (inode_set16 inum 8 gid) ;;
  inode_touch inum 0 0 1 ;;
  mret 0.

Definition inode_stat (inum : Z) : K guest_stat :=
  size ← inode_size inum ;
  mode ← inode_mode inum ;
  nlink ← inode_nlink inum ;
  uid ← inode_uid inum ;
  gid ← inode_gid inum ;
  atime ← inode_atime inum ;
  mtime ← inode_mtime inum ;
  ctime ← inode_ctime inum ;
  mret (Build_guest_stat 1 inum mode nlink uid gid 0 size 512
    (Z.quot (size +! 511) 512) atime mtime ctime).
