(* ===== verification/DirSpec.v ===== *)
(** * DirSpec: what the directory layer promises

    [dirlookup] finds the first entry with the given name, although every entry it
    reads stamps the access time of the directory's inode on the disk; and a path
    is split into its parent and last component without loss. *)

From S2P Require Import Prelude Config Kernel Klog RawMem Buf Inode InodeSpec Dir.

(** ** Names *)

(** The 14-byte name field of an entry holds [name], padded with zeros. *)
Definition ent_named (e name : list Z) : Prop :=
  forall k, 0 <= k < CFG_DIRSIZ -> nthz e (2 + k) = nthz name k.

Lemma nthz_past l k : strlen l <= k -> nthz l k = 0.
Proof.
  unfold strlen, nthz. intros H. destruct (Z.ltb_spec k 0); [done|]. apply nth_overflow. lia.
Qed.

Lemma name_eq_spec e name :
  name_eq e name (strlen name) = true <-> ent_named e name.
Proof.
  unfold name_eq, ent_named. rewrite negb_true_iff, exists_from_false.
  assert (Hw : forall k, (if k <? strlen name then nthz name k else 0) = nthz name k).
  { intros k. destruct (Z.ltb_spec k (strlen name)); [done|]. by rewrite nthz_past. }
  split.
  - intros H k Hk. specialize (H k ltac:(clia)). rewrite Hw in H. by bool_hyps.
  - intros H k Hk. rewrite Hw, H by clia. by rewrite Z.eqb_refl.
Qed.

(** ** Time stamps do not matter to the contents *)

(** The disks agree but for the time stamps of the inode at [ip]. *)
Definition but_times (ip : Z) (d d' : Z -> Z) : Prop :=
  forall a, a < ip + 16 \/ ip + 28 <= a -> d' a = d a.

Lemma but_times_refl ip d : but_times ip d d.
Proof. by intros a _. Qed.

Lemma but_times_trans ip d1 d2 d3 : but_times ip d1 d2 -> but_times ip d2 d3 -> but_times ip d1 d3.
Proof. intros H1 H2 a Ha. by rewrite H2, H1. Qed.

Lemma but_times_touched ip d at_ mt ct now : but_times ip d (touched at_ mt ct now ip d).
Proof.
  intros a Ha. unfold touched, stamp.
  destruct (ct !=? 0), (mt !=? 0), (at_ !=? 0); rewrite ?pwrite32_other by lia; done.
Qed.

Lemma but_times_pread32 ip d d' a :
  but_times ip d d' -> a + 4 <= ip + 16 \/ ip + 28 <= a -> pread32 d' a = pread32 d a.
Proof. intros H Ha. apply pread32_ext. intros k Hk. apply H. lia. Qed.

(** Block [b] does not overlap the inode at [ip]. *)
Definition apart (ip b : Z) : Prop := b * 512 + 512 <= ip \/ ip + CFG_DINODE_SIZE <= b * 512.

(** No block of the file overlaps its inode. *)
Record inode_apart (d : Z -> Z) (ip : Z) : Prop := {
  ap_slot : forall k, 0 <= k <= CFG_NDIRECT + 1 -> slot_of d ip k <> 0 -> apart ip (slot_of d ip k);
  ap_middle : forall k, slot_of d ip (CFG_NDIRECT + 1) <> 0 -> 0 <= k < CFG_NINDIRECT ->
    let b := entry_of d (slot_of d ip (CFG_NDIRECT + 1)) k in b <> 0 -> apart ip b;
  ap_data : forall bn, 0 <= bn -> bmap_of d ip bn <> 0 -> apart ip (bmap_of d ip bn);
}.

Lemma but_times_slot ip d d' k :
  but_times ip d d' -> 0 <= k <= CFG_NDIRECT + 1 -> slot_of d' ip k = slot_of d ip k.
Proof. intros H Hk. unfold slot_of. apply (but_times_pread32 ip); [done|lia]. Qed.

Lemma but_times_entry ip d d' b k :
  but_times ip d d' -> apart ip b -> 0 <= k < CFG_NINDIRECT -> entry_of d' b k = entry_of d b k.
Proof.
  intros H Ha Hk. unfold entry_of. apply (but_times_pread32 ip); [done|].
  unfold apart in Ha. clia.
Qed.

Lemma but_times_bmap ip d d' bn :
  but_times ip d d' -> inode_apart d ip -> 0 <= bn -> bmap_of d' ip bn = bmap_of d ip bn.
Proof.
  intros H Ha Hbn. unfold bmap_of.
  destruct (Z.ltb_spec bn CFG_NDIRECT); [apply but_times_slot; [done|clia]|].
  destruct (Z.leb_spec CFG_MAXFILE bn); [done|].
  cbv zeta. rewrite !(but_times_slot ip d d') by (done || clia).
  destruct (Z.ltb_spec (bn - CFG_NDIRECT) CFG_NINDIRECT).
  - destruct (Z.eqb_spec (slot_of d ip CFG_NDIRECT) 0) as [|Hnz]; [done|].
    apply (but_times_entry ip); [done|apply (ap_slot _ _ Ha); [clia|done]|lia].
  - destruct (Z.eqb_spec (slot_of d ip (CFG_NDIRECT + 1)) 0) as [|Hnz]; [done|].
    set (bn' := bn - CFG_NDIRECT - CFG_NINDIRECT).
    assert (Ho : 0 <= bn' / CFG_NINDIRECT < CFG_NINDIRECT).
    { split; [apply Z.div_pos; unfold bn'; clia|]. apply Z.div_lt_upper_bound; unfold bn'; clia. }
    rewrite (but_times_entry ip d d') by (first [done|apply (ap_slot _ _ Ha); [clia|done]]).
    set (mid := entry_of d _ (bn' / CFG_NINDIRECT)).
    destruct (Z.eqb_spec mid 0) as [|Hm]; [done|].
    apply (but_times_entry ip); [done|by apply (ap_middle _ _ Ha)|by apply Z.mod_pos_bound].
Qed.

Lemma but_times_file_bytes ip d d' off n :
  but_times ip d d' -> inode_apart d ip -> 0 <= off -> file_bytes d' ip off n = file_bytes d ip off n.
Proof.
  intros H Ha Ho. unfold file_bytes. apply list_fmap_ext. intros i k Hk.
  apply lookup_seqZ in Hk as [-> Hk]. unfold file_byte. cbv zeta.
  assert (Hq : 0 <= (off + (0 + Z.of_nat i)) / 512) by (apply Z.div_pos; lia).
  rewrite (but_times_bmap ip d d') by done.
  destruct (Z.eqb_spec (bmap_of d ip ((off + (0 + Z.of_nat i)) / 512)) 0) as [|Hnz]; [done|].
  apply H. pose proof (ap_data _ _ Ha _ Hq Hnz) as Hap. unfold apart in Hap.
  pose proof (Z.mod_pos_bound (off + (0 + Z.of_nat i)) 512). clia.
Qed.

Lemma but_times_ptrs ip d d' : but_times ip d d' -> inode_apart d ip -> ptrs_ok d ip -> ptrs_ok d' ip.
Proof.
  intros H Ha [H1 H2 H3]. split.
  - intros k Hk. rewrite (but_times_slot ip d d') by done. auto.
  - intros bn Hbn. rewrite (but_times_bmap ip d d') by (done || lia). auto.
  - intros k. rewrite (but_times_slot ip d d') by (done || clia). intros Hnz Hk.
    rewrite (but_times_entry ip d d') by (first [done|apply (ap_slot _ _ Ha); [clia|done]]). auto.
Qed.

(** ** Lookup *)

(** Entry number [k] of the directory at [ip]. *)
Definition dir_entry (d : Z -> Z) (ip k : Z) : list Z := file_bytes d ip (16 * k) 16.

(** A directory that can be scanned. *)
Record dir_ok (s : kernel) (dir : Z) : Prop := {
  do_fs : fs_ready s;
  do_inum : 0 <= dir;
  do_ptrs : ptrs_ok (disk s) (ipos s dir);
  do_apart : inode_apart (disk s) (ipos s dir);
  do_size : let sz := pread32 (disk s) (ipos s dir + 12) in 0 <= sz < 2 ^ 30 /\ sz mod 16 = 0;
}.

(** The disk [d'] is [d], or [d] with the time [now] as access time of the inode at [ip]:
    no other byte differs. *)
Definition accessed (now ip : Z) (d d' : Z -> Z) : Prop :=
  (forall a, d' a = d a) \/ (forall a, d' a = pwrite32 d (ip + 16) now a).

Lemma accessed_again now ip d d' : accessed now ip d d' -> accessed now ip d (touched 1 0 0 now ip d').
Proof.
  intros H. right. intros a. change (touched 1 0 0 now ip d') with (pwrite32 d' (ip + 16) now). unfold pwrite32.
  destruct (decide (ip + 16 <= a < ip + 16 + 4)) as [Hin|Hout].
  - destruct (lookup_lt_is_Some_2 (le_bytes32 now) (Z.to_nat (a - (ip + 16)))) as [x Hx]; [cbn [le_bytes32 length]; lia|].
    replace a with (ip + 16 + Z.of_nat (Z.to_nat (a - (ip + 16)))) by lia. by rewrite !(blit_in _ _ _ _ x Hx).
  - rewrite !blit_out by (cbn [le_bytes32 length]; lia). destruct H as [H|H]; rewrite H; [done|].
    apply pwrite32_other. lia.
Qed.

(** A reader of directory [dir] left state [s']. *)
Record dir_view (s : kernel) (dir : Z) (s' : kernel) : Prop := {
  dv_fs : fs_ready s';
  dv_disk : but_times (ipos s dir) (disk s) (disk s');
  dv_ipos : forall i, ipos s' i = ipos s i;
  dv_rtc : hw_rtc (k_hw s') = hw_rtc (k_hw s);
  dv_atime : accessed (hw_rtc (k_hw s)) (ipos s dir) (disk s) (disk s');
}.

Lemma dir_view_step s dir s1 s2 d :
  dir_view s dir s1 -> fs_step s1 s2 d -> but_times (ipos s dir) (disk s1) d ->
  (accessed (hw_rtc (k_hw s)) (ipos s dir) (disk s) d) -> dir_view s dir s2.
Proof.
  intros [H1 H2 H3 H4 H5] Hst Hd Ha. split; [by eapply fs_step_ready| | |
    |by rewrite (fst_disk _ _ _ Hst)].
  - rewrite (fst_disk _ _ _ Hst). by eapply but_times_trans.
  - intros i. by rewrite (fs_step_ipos _ _ _ i Hst).
  - by rewrite (fs_step_eq (fun s => hw_rtc (k_hw s)) _ _ _ ltac:(reflexivity) Hst).
Qed.

Lemma wp_read_entry s dir s1 k (Q : Z * list Z -> kernel -> Prop) :
  dir_ok s dir -> dir_view s dir s1 ->
  0 <= k -> 16 * k < pread32 (disk s) (ipos s dir + 12) ->
  (forall s2, dir_view s dir s2 -> Q (16, dir_entry (disk s) (ipos s dir) k) s2) ->
  wp (readi_local dir (16 * k) 16) Q s1.
Proof.
  intros Hok Hv Hk Hlt HQ. pose proof (do_apart _ _ Hok) as Hap.
  destruct (do_size _ _ Hok) as [Hsz Hmod]. set (ip := ipos s dir) in *.
  assert (Hsz1 : pread32 (disk s1) (ip + 12) = pread32 (disk s) (ip + 12)).
  { apply (but_times_pread32 ip); [apply Hv|lia]. }
  assert (Hlen : readi_len (pread32 (disk s1) (ip + 12)) (16 * k) 16 = 16).
  { rewrite Hsz1. unfold readi_len. pose proof (Z.div_mod (pread32 (disk s) (ip + 12)) 16).
    destruct (Z.ltb_spec (16 * k) 0), (Z.ltb_spec (pread32 (disk s) (ip + 12)) (16 * k)); simpl; lia. }
  apply wp_readi_local; rewrite ?(dv_ipos _ _ _ Hv); fold ip.
  - apply Hv.
  - apply Hok.
  - eapply but_times_ptrs; [apply Hv|done|apply Hok].
  - lia.
  - lia.
  - intros s2 m Hst. subst m. rewrite Hlen in *.
    rewrite (but_times_file_bytes ip (disk s) (disk s1)) by (first [done|apply Hv|lia]).
    apply HQ. eapply dir_view_step; [exact Hv|exact Hst|..].
    + change (16 >? 0) with true. cbv iota. apply but_times_touched.
    + change (16 >? 0) with true. cbv iota. rewrite (dv_rtc _ _ _ Hv). apply accessed_again, Hv.
Qed.

(** Entry [k] is in use and named [name]. *)
Definition dir_match (d : Z -> Z) (ip : Z) (name : list Z) (k : Z) : Prop :=
  ent_inum (dir_entry d ip k) <> 0 /\ ent_named (dir_entry d ip k) name.

Lemma wp_dirlookup_loop s dir name n k s1 (Q : Z -> kernel -> Prop) :
  let ip := ipos s dir in
  let sz := pread32 (disk s) (ip + 12) in
  dir_ok s dir -> dir_view s dir s1 -> 0 <= k -> sz - 16 * k < 16 * Z.of_nat n ->
  (forall j, 0 <= j < k -> ~ dir_match (disk s) ip name j) ->
  (forall s2, dir_view s dir s2 ->
     (forall j, 0 <= j -> 16 * j < sz -> ~ dir_match (disk s) ip name j) -> Q 0 s2) ->
  (forall s2 j, dir_view s dir s2 -> 0 <= j -> 16 * j < sz -> dir_match (disk s) ip name j ->
     (forall i, 0 <= i < j -> ~ dir_match (disk s) ip name i) ->
     Q (ent_inum (dir_entry (disk s) ip j)) s2) ->
  wp (while_ (S n) (fun off =>
    if off <? sz then
      r ← readi_local dir off 16 ;
      let inum := ent_inum r.2 in
      if (inum !=? 0) && name_eq r.2 name (strlen name) then mret (inr inum)
      else mret (inl (off + 16))
    else mret (inr 0)) (16 * k)) Q s1.
Proof.
  intros ip sz Hok. revert k s1. induction n as [|n IH]; intros k s1 Hv Hk Hfuel Hno HQ0 HQ.
  all: apply wp_while_S; destruct (Z.ltb_spec (16 * k) sz) as [Hlt|Hge];
    [|wp_auto; apply HQ0; [done|]; intros j Hj Hjs; apply Hno; lia].
  { lia. }
  apply wp_bind, (wp_read_entry s dir s1 k); [done..|]. intros s2 Hv2. cbn [snd]. cbv zeta. fold ip.
  destruct ((ent_inum (dir_entry (disk s) ip k) !=? 0) && name_eq _ name (strlen name)) eqn:E; wp_auto.
  - bool_hyps. apply HQ; [done|done|done| |done]. split; [done|]. by apply name_eq_spec.
  - replace (16 * k + 16) with (16 * (k + 1)) by lia. apply IH; [done|lia|lia| |done|done].
    intros j Hj. destruct (decide (j = k)) as [->|]; [|apply Hno; lia].
    intros [H1 H2%name_eq_spec]. rewrite H2 in E. apply Z.eqb_neq in H1. by rewrite H1 in E.
Qed.

(** C16: directory lookup.  For a directory, [dirlookup] returns the inode number of
    the first entry in use whose name field of 14 bytes holds this name, cut off at 14
    bytes and padded with zeros, and 0 if there is none; for anything else it returns 0.
    It terminates, and no byte of the disk changes but the access time of the directory's
    inode, which is the clock's time if it is not the one before. *)
Theorem dirlookup_correct s dir name :
  dir_ok s dir ->
  wp (dirlookup dir name (strlen name)) (fun r s' =>
    let ip := ipos s dir in
    let sz := pread32 (disk s) (ip + 12) in
    accessed (hw_rtc (k_hw s)) ip (disk s) (disk s') /\
    ((r = 0 /\ (pread16 (disk s) ip <> CFG_T_DIR \/
                forall j, 0 <= j -> 16 * j < sz -> ~ dir_match (disk s) ip name j)) \/
     (exists j, 0 <= j /\ 16 * j < sz /\ dir_match (disk s) ip name j /\
        r = ent_inum (dir_entry (disk s) ip j) /\
        forall i, 0 <= i < j -> ~ dir_match (disk s) ip name i))) s.
Proof.
  intros Hok. unfold dirlookup. cbv zeta.
  assert (Hv0 : dir_view s dir s) by (split; [apply Hok|apply but_times_refl|done|done|by left]).
  apply wp_bind, wp_inode_read16; [apply Hok|apply Hok|clia|]. intros s1 Hst1.
  rewrite Z.add_0_r. pose proof (dir_view_step _ _ _ _ _ Hv0 Hst1 (but_times_refl _ _) (dv_atime _ _ _ Hv0)) as Hv1.
  destruct (Z.eqb_spec (pread16 (disk s) (ipos s dir)) CFG_T_DIR) as [Ht|Ht]; cbn [negb].
  2:{ wp_auto. split; [apply Hv1|]. left. auto. }
  unfold inode_size. apply wp_bind, wp_inode_read32; [apply Hv1|apply Hok|clia|]. intros s2 Hst2.
  pose proof (dir_view_step _ _ _ _ _ Hv1 Hst2 (but_times_refl _ _) (dv_atime _ _ _ Hv1)) as Hv2.
  rewrite (fst_disk _ _ _ Hst1), (fs_step_ipos _ _ _ dir Hst1).
  set (sz := pread32 (disk s) (ipos s dir + 12)).
  destruct (do_size _ _ Hok) as [Hsz _]. fold sz in Hsz.
  replace (dir_fuel sz) with (S (Z.to_nat (sz / 16 + 1))).
  2:{ unfold dir_fuel. pose proof (Z.div_pos sz 16). lia. }
  apply (wp_dirlookup_loop s dir name _ 0); [done|done|lia| |intros j Hj; lia| |].
  - pose proof (Z.div_mod sz 16). pose proof (Z.mod_pos_bound sz 16). pose proof (Z.div_pos sz 16).
    fold sz. lia.
  - intros s3 Hv3 Hno. split; [apply Hv3|]. left. auto.
  - intros s3 j Hv3 Hj1 Hj2 Hm Hfirst. split; [apply Hv3|]. right. exists j. auto 6.
Qed.

(** ** Witnesses *)

Lemma demo_dir_ok : dir_ok demo_fs 1.
Proof.
  split; [exact demo_fs_ready|lia|exact demo_ptrs_ok| |].
  - change (disk demo_fs) with demo_disk. change (ipos demo_fs 1) with 1104. split.
    + intros k Hk. rewrite demo_slot by done. destruct (k =? 0); [|done]. intros _. right. clia.
    + intros k H. exfalso. revert H. by rewrite demo_slot by clia.
    + intros bn Hbn. rewrite demo_bmap by done. destruct (bn =? 0); [|done]. intros _. right. clia.
  - split; [split; [vm_compute; discriminate|reflexivity]|reflexivity].
Qed.

Lemma dirlookup_correct_witness :
  wp (dirlookup 1 (str "etc") (strlen (str "etc")))
    (fun r s' => accessed 0 1104 demo_disk (disk s')) demo_fs.
Proof.
  eapply wp_mono; [apply (dirlookup_correct demo_fs 1 (str "etc") demo_dir_ok)|].
  intros r s' (H & _). exact H.
Defined.

(** The code finds the entry. *)
Example dirlookup_finds_etc :
  match dirlookup 1 (str "etc") 3 demo_fs with Ret r _ => r = 2 | Stop _ _ => False end.
Proof. vm_compute. reflexivity. Qed.
