(* ===== verification/PageTable.v ===== *)
(** * PageTable: page directories and page tables ([memory.c], lines 255-345)

    A page directory and its page tables are words of physical memory.  The
    kernel reads and writes them through the identity map.  The theorems: the
    kernel half of every address space is the identity, and [map_page] and
    [unmap_page] change the translation of one page and of no other. *)

From S2P Require Import Prelude Config Kernel Klog RawMem Frames.

(** [pd[dir_index(vaddr)]] and [pt[table_index(vaddr)]]. *)
Definition pde_at (pd vaddr : Z) : Z := pd + dir_index vaddr * 4.
Definition pte_at (pde vaddr : Z) : Z := pte_addr pde + table_index vaddr * 4.

Definition build_kernel_pt : K unit :=
  for_ 0 (Z.to_nat (CFG_KERNEL_IDENTITY_PTS * 1024)) (fun i =>
    kwrite32 (CFG_KERNEL_PT + i * 4) (Z.lor (i * 4096) CFG_PTE_KERNEL)) ;;
  wr k_mem kernel_pt CFG_KERNEL_PT.

Definition new_address_space : K Z :=
  pd ← alloc_frame ;
  zero_page pd ;;
  kpt ← rd k_mem kernel_pt ;
  for_ 0 (Z.to_nat CFG_KERNEL_IDENTITY_PTS) (fun i =>
    kwrite32 (pd + i * 4) (Z.lor (kpt + i * 4096) CFG_PTE_KERNEL)) ;;
  mret pd.

Definition map_page (pd vaddr frame flags : Z) : K unit :=
  pde ← kread32 (pde_at pd vaddr) ;
  pde ← (if negb (has pde 1) then
           pt ← alloc_frame ;
           zero_page pt ;;
           let pde := Z.lor pt CFG_PTE_USER in
           kwrite32 (pde_at pd vaddr) pde ;;
           mret pde
         else mret pde) ;
  kwrite32 (pte_at pde vaddr) (Z.lor (Z.lor (pte_addr frame) flags) 1).

(** Pure readers of the state: the C functions only load words. *)
Definition page_mapped (s : kernel) (pd vaddr : Z) : bool :=
  let m := phys (k_mem s) in
  let pde := pread32 m (pde_at pd vaddr) in
  if negb (has pde 1) then false else has (pread32 m (pte_at pde vaddr)) 1.

Definition unmap_page (pd vaddr : Z) : K unit :=
  pde ← kread32 (pde_at pd vaddr) ;
  if negb (has pde 1) then mret tt else
  pte ← kread32 (pte_at pde vaddr) ;
  when (has pte 1)
    (free_frame (pte_addr pte) ;;
     kwrite32 (pte_at pde vaddr) 0).

Definition page_align_up (value : Z) : Z := Z.land (value +! 4095) (-4096).

(** ** Entries *)

Lemma lor_bound a b n : 0 <= n -> 0 <= a < 2 ^ n -> 0 <= b < 2 ^ n -> 0 <= Z.lor a b < 2 ^ n.
Proof.
  intros Hn Ha Hb. split; [apply Z.lor_nonneg; lia|].
  assert (H : Z.shiftr (Z.lor a b) n = 0).
  { rewrite Z.shiftr_lor, !Z.shiftr_div_pow2, !Z.div_small by lia. done. }
  rewrite Z.shiftr_div_pow2 in H by lia. apply Z.div_small_iff in H; [|lia].
  pose proof (proj2 (Z.lor_nonneg a b)). lia.
Qed.

Lemma pte_addr_div e : pte_addr e = e / 4096 * 4096.
Proof.
  unfold pte_addr. change (-4096) with (Z.lnot (Z.ones 12)). rewrite <-Z.ldiff_land.
  rewrite Z.ldiff_ones_r, Z.shiftl_mul_pow2, Z.shiftr_div_pow2 by lia. done.
Qed.

Lemma pte_addr_aligned f : f mod 4096 = 0 -> pte_addr f = f.
Proof. rewrite pte_addr_div. pose proof (Z.div_mod f 4096). lia. Qed.

Lemma pte_addr_mod e : pte_addr e mod 4096 = 0.
Proof. rewrite pte_addr_div. apply Z.mod_mul. lia. Qed.

(** An aligned address with flag bits below it. *)
Lemma entry_sum f flags : f mod 4096 = 0 -> 0 <= flags < 4096 -> Z.lor f flags = f + flags.
Proof.
  intros Hf Hfl. replace f with (f / 4096 * 2 ^ 12) by (pose proof (Z.div_mod f 4096); lia).
  rewrite lor_low; lia.
Qed.

Lemma pte_addr_entry f flags : f mod 4096 = 0 -> 0 <= flags < 4096 -> pte_addr (Z.lor f flags) = f.
Proof.
  intros Hf Hfl. rewrite entry_sum, pte_addr_div by done.
  pose proof (Z.div_mod f 4096). replace (f + flags) with (flags + f / 4096 * 4096) by lia.
  rewrite Z.div_add, Z.div_small by lia. lia.
Qed.

Lemma has_lor a b m : has (Z.lor a b) m = has a m || has b m.
Proof.
  unfold has. rewrite Z.land_lor_distr_l.
  destruct (Z.eqb_spec (Z.lor (Z.land a m) (Z.land b m)) 0) as [E|E].
  - apply Z.lor_eq_0_iff in E as [-> ->]. done.
  - destruct (Z.eqb_spec (Z.land a m) 0) as [E1|]; [|done].
    destruct (Z.eqb_spec (Z.land b m) 0) as [E2|]; [|done]. rewrite E1, E2 in E. done.
Qed.

Lemma has_aligned f m : f mod 4096 = 0 -> 0 <= m < 4096 -> has f m = false.
Proof.
  intros Hf Hm. unfold has. apply negb_false_iff, Z.eqb_eq.
  replace f with (Z.shiftl (f / 4096) 12)
    by (rewrite Z.shiftl_mul_pow2 by lia; pose proof (Z.div_mod f 4096); lia).
  apply Z.bits_inj'. intros k Hk. rewrite Z.land_spec, Z.bits_0, Z.shiftl_spec by lia.
  destruct (Z.ltb_spec k 12); [by rewrite Z.testbit_neg_r by lia|].
  rewrite <-(Z.mod_small m (2 ^ 12)), Z.mod_pow2_bits_high by lia. apply andb_false_r.
Qed.

(** ** Indices *)

Lemma dir_index_div a : dir_index a = a / 2 ^ 22 mod 1024.
Proof.
  unfold dir_index, shr. change 1023 with (Z.ones 10).
  rewrite Z.land_ones, Z.shiftr_div_pow2 by lia. done.
Qed.

Lemma table_index_div a : table_index a = a / 4096 mod 1024.
Proof.
  unfold table_index, shr. change 1023 with (Z.ones 10).
  rewrite Z.land_ones, Z.shiftr_div_pow2 by lia. done.
Qed.

Lemma dir_index_range a : 0 <= dir_index a < 1024.
Proof. rewrite dir_index_div. apply Z.mod_pos_bound. lia. Qed.

Lemma table_index_range a : 0 <= table_index a < 1024.
Proof. rewrite table_index_div. apply Z.mod_pos_bound. lia. Qed.

(** The two indices determine the page of a 32-bit address. *)
Lemma page_of_indices a : 0 <= a < 2 ^ 32 -> a / 4096 = dir_index a * 1024 + table_index a.
Proof.
  intros Ha. rewrite dir_index_div, table_index_div.
  change (2 ^ 22) with (4096 * 1024). rewrite <-Z.div_div by lia.
  rewrite (Z.mod_small (a / 4096 / 1024)).
  - pose proof (Z.div_mod (a / 4096) 1024). lia.
  - split; [apply Z.div_pos; [apply Z.div_pos|]; lia|].
    rewrite Z.div_div by lia. apply Z.div_lt_upper_bound; lia.
Qed.

Lemma page_offset a : pte_addr a + Z.land a 4095 = a.
Proof.
  rewrite pte_addr_div. change 4095 with (Z.ones 12). rewrite Z.land_ones by lia.
  pose proof (Z.div_mod a 4096). change (2 ^ 12) with 4096. lia.
Qed.

Lemma page_start_div a : pte_addr a / 4096 = a / 4096.
Proof. rewrite pte_addr_div. apply Z.div_mul. lia. Qed.

(** The walk of the MMU in terms of the two entries. *)
Lemma mmu_translate_eq m pd a w :
  mmu_translate m pd a w =
  let pde := pread32 m (pde_at pd a) in
  if negb (has pde 1) then None else
  let pte := pread32 m (pte_at pde a) in
  if negb (has pte 1) then None
  else if w && negb (has pte 2) then None
  else Some (pte_addr pte + Z.land a 4095).
Proof. done. Qed.

(** What the entry [e] of a page means for an access at [a]. *)
Definition entry_translate (e a : Z) (w : bool) : option Z :=
  if negb (has e 1) then None
  else if w && negb (has e 2) then None
  else Some (pte_addr e + Z.land a 4095).

(** The whole entry of the page of [a], flags included, 0 if there is no page table; and
    the flags of the directory's entry, 0 if it is absent.  With them the MMU decides
    every access, of the kernel and of the user. *)
Definition leaf (m : Z -> Z) (pd a : Z) : Z :=
  let pde := pread32 m (pde_at pd a) in if has pde 1 then pread32 m (pte_at pde a) else 0.
Definition dir_flags (m : Z -> Z) (pd a : Z) : Z :=
  let pde := pread32 m (pde_at pd a) in if has pde 1 then Z.land pde 4095 else 0.

Lemma translate_leaf m pd a w : mmu_translate m pd a w = entry_translate (leaf m pd a) a w.
Proof. rewrite mmu_translate_eq. unfold leaf, entry_translate. cbv zeta. by destruct (has (pread32 m (pde_at pd a)) 1). Qed.

Lemma mapped_leaf s pd a : page_mapped s pd a = has (leaf (phys (k_mem s)) pd a) 1.
Proof. unfold page_mapped, leaf. cbv zeta. by destruct (has (pread32 _ (pde_at pd a)) 1). Qed.

Lemma same_page a v : a / 4096 = v / 4096 -> dir_index a = dir_index v /\ table_index a = table_index v.
Proof.
  intros Heq. rewrite !dir_index_div, !table_index_div. change (2 ^ 22) with (4096 * 1024).
  by rewrite <-!Z.div_div, Heq by lia.
Qed.

(** ** The kernel half of an address space *)

(** The kernel's own page tables map page [i] to frame [i]. *)
Definition kernel_tables (m : Z -> Z) : Prop :=
  forall i, 0 <= i < CFG_KERNEL_IDENTITY_PTS * 1024 ->
    pread32 m (CFG_KERNEL_PT + i * 4) = Z.lor (i * 4096) CFG_PTE_KERNEL.

(** The first entries of a directory point to them. *)
Definition kernel_half (m : Z -> Z) (pd : Z) : Prop :=
  forall d, 0 <= d < CFG_KERNEL_IDENTITY_PTS ->
    pread32 m (pd + d * 4) = Z.lor (CFG_KERNEL_PT + d * 4096) CFG_PTE_KERNEL.

Lemma kernel_table_aligned d : (CFG_KERNEL_PT + d * 4096) mod 4096 = 0.
Proof.
  change CFG_KERNEL_PT with (209 * 4096). rewrite <-Z.mul_add_distr_r. apply Z.mod_mul. lia.
Qed.

Lemma kernel_pages_identity m pd a w :
  kernel_tables m -> kernel_half m pd -> 0 <= a < CFG_USER_BASE -> mmu_translate m pd a w = Some a.
Proof.
  intros Ht Hh Ha.
  assert (Hd : 0 <= dir_index a < CFG_KERNEL_IDENTITY_PTS).
  { split; [apply dir_index_range|]. rewrite dir_index_div.
    rewrite Z.mod_small; [apply Z.div_lt_upper_bound; clia|].
    split; [apply Z.div_pos; lia|]. apply Z.div_lt_upper_bound; clia. }
  pose proof (table_index_range a). pose proof (page_of_indices a ltac:(clia)) as Hp.
  rewrite mmu_translate_eq. unfold pde_at, pte_at. cbv zeta. rewrite !Hh by done.
  rewrite has_lor, pte_addr_entry by (apply kernel_table_aligned || clia).
  replace (has CFG_PTE_KERNEL 1) with true by done. rewrite orb_true_r. cbn [negb].
  replace (CFG_KERNEL_PT + dir_index a * 4096 + table_index a * 4)
    with (CFG_KERNEL_PT + a / 4096 * 4) by lia.
  rewrite Ht by clia. rewrite !has_lor, pte_addr_entry by (apply Z.mod_mul; lia) || clia.
  replace (has CFG_PTE_KERNEL 1) with true by done.
  replace (has CFG_PTE_KERNEL 2) with true by done. rewrite !orb_true_r. cbn [negb].
  rewrite andb_false_r. f_equal. rewrite <-pte_addr_div. apply page_offset.
Qed.

(** A state with other memory contents. *)
Definition with_phys (m : Z -> Z) (s : kernel) : kernel := s <| k_mem ::= fun r => r <| phys := m |> |>.

Lemma with_phys_id s : with_phys (phys (k_mem s)) s = s.
Proof. by destruct s as [? ? ? []]. Qed.

(** A loop that stores consecutive words. *)
Lemma wp_write_words base g n s (Q : unit -> kernel -> Prop) :
  (forall m', (forall i, 0 <= i < Z.of_nat n -> pread32 m' (base + i * 4) = i32 (g i)) ->
     (forall a, a < base \/ base + 4 * Z.of_nat n <= a -> m' a = phys (k_mem s) a) ->
     Q tt (with_phys m' s)) ->
  wp (for_ 0 n (fun i => kwrite32 (base + i * 4) (g i))) Q s.
Proof.
  intros HQ. apply (wp_for (fun k s' => exists m', s' = with_phys m' s /\
    (forall i, 0 <= i < k -> pread32 m' (base + i * 4) = i32 (g i)) /\
    (forall a, a < base \/ base + 4 * k <= a -> m' a = phys (k_mem s) a))).
  - exists (phys (k_mem s)). rewrite with_phys_id. split; [done|]. split; [lia|done].
  - intros k s' Hk (m' & -> & Hw & Ho). unfold kwrite32. wp_auto.
    exists (pwrite32 m' (base + k * 4) (g k)). split; [done|]. split.
    + intros i Hi. destruct (Z.eq_dec i k) as [->|Hne]; [apply pread32_pwrite32_same|].
      rewrite pread32_pwrite32_other by lia. apply Hw. lia.
    + intros a Ha. rewrite pwrite32_other by lia. apply Ho. lia.
  - intros s' (m' & -> & Hw & Ho). by apply HQ.
Qed.

(** The allocator invariant only looks at the first words of free frames. *)
Lemma frames_inv_phys s fl m' :
  frames_inv (k_mem s) fl ->
  (forall f, pool_frame CFG_FRAME_POOL_END f -> f ∈ fl -> pread32 m' f = pread32 (phys (k_mem s)) f) ->
  frames_inv (k_mem (with_phys m' s)) fl.
Proof.
  intros I H. pose proof (fi_next _ _ I) as Hn. split; ksimpl; try apply I.
  eapply chain_ext; [|apply I]. intros f Hf. symmetry. apply H; [|done].
  destruct (fi_free _ _ I f Hf) as [[? ?] _]. split; [lia|done].
Qed.

Lemma wp_build_kernel_pt s (Q : unit -> kernel -> Prop) :
  (forall m', kernel_tables m' ->
     (forall a, CFG_FRAME_POOL_BASE <= a -> m' a = phys (k_mem s) a) ->
     Q tt (with_phys m' s <| k_mem ::= fun r => r <| kernel_pt := CFG_KERNEL_PT |> |>)) ->
  wp build_kernel_pt Q s.
Proof.
  intros HQ. unfold build_kernel_pt.
  pose proof (Z2Nat.id (CFG_KERNEL_IDENTITY_PTS * 1024) ltac:(clia)) as Hn.
  set (n := Z.to_nat _) in *. clearbody n. apply wp_bind.
  apply (wp_write_words CFG_KERNEL_PT (fun i => Z.lor (i * 4096) CFG_PTE_KERNEL)).
  intros m' Hw Ho. wp_auto. apply HQ.
  - intros i Hi. rewrite Hw by clia. apply i32_id.
    rewrite entry_sum by (apply Z.mod_mul; lia) || clia. clia.
  - intros a Ha. apply Ho. right. clia.
Qed.

(** A freshly made address space: the kernel half and nothing else. *)
Definition fresh_space (m : Z -> Z) (pd : Z) : Prop :=
  kernel_half m pd /\ forall d, CFG_KERNEL_IDENTITY_PTS <= d < 1024 -> pread32 m (pd + d * 4) = 0.

(** A page table or directory that was just allocated and zeroed: the frame, the
    memory, and the allocator's state. *)
Definition new_table (s : kernel) (fl : list Z) (f : Z) (s' : kernel) (fl' : list Z) : Prop :=
  mem_only s s' /\ frames_inv (k_mem s') fl' /\ used_frame (k_mem s') fl' f /\
  frame_is_free (k_mem s) fl f /\
  kernel_pt (k_mem s') = kernel_pt (k_mem s) /\
  (forall g, used_frame (k_mem s) fl g -> used_frame (k_mem s') fl' g) /\
  (forall a, a < f \/ f + 4096 <= a -> phys (k_mem s') a = phys (k_mem s) a) /\
  (forall k, 0 <= k < 1024 -> pread32 (phys (k_mem s')) (f + k * 4) = 0).

(** A used frame is apart from every free one. *)
Lemma used_not_free ms fl f g :
  frames_inv ms fl -> used_frame ms fl f -> frame_is_free ms fl g -> f + 4096 <= g \/ g + 4096 <= f.
Proof.
  intros I [[Hf1 Hf2] Hnf] Hg.
  assert (Hga : g mod 4096 = 0).
  { destruct Hg as [Hg|[[_ Hg] _]]; [|done]. by destruct (fi_free _ _ I g Hg) as [[_ ?] _]. }
  apply aligned_disjoint; [done|done|]. intros ->.
  destruct Hg as [Hg|[_ Hg]]; [done|lia].
Qed.

(** Memory that changed only inside used frame [f] keeps the allocator's invariant. *)
Lemma frames_inv_used s fl f m' :
  frames_inv (k_mem s) fl -> used_frame (k_mem s) fl f ->
  (forall a, a < f \/ f + 4096 <= a -> m' a = phys (k_mem s) a) ->
  frames_inv (k_mem (with_phys m' s)) fl.
Proof.
  intros I Hf Ho. apply frames_inv_phys; [done|]. intros g _ Hg. apply pread32_ext. intros k Hk.
  destruct (used_not_free _ _ f g I Hf (or_introl Hg)); apply Ho; lia.
Qed.

Lemma fill_other m a n v b : b < a \/ a + n <= b -> fill m a n v b = m b.
Proof.
  intros H. unfold fill. destruct (Z.leb_spec a b), (Z.ltb_spec b (a + n)); simpl; done || lia.
Qed.

Lemma wp_alloc_table {A} (k : Z -> K A) s fl (Q : A -> kernel -> Prop) :
  frames_inv (k_mem s) fl -> 0 < free_count (k_mem s) fl ->
  (forall f s' fl', new_table s fl f s' fl' -> wp (k f) Q s') ->
  wp (f ← alloc_frame ; zero_page f ;; k f) Q s.
Proof.
  intros I Hc HQ. destruct (alloc_frame_allocated s fl I Hc) as (f & s1 & E & H1).
  apply wp_bind. apply (wpm_intro _ _ _ _ _ E). unfold zero_page. wp_auto.
  destruct H1 as ((l & n & r & ->) & Hp & Hfree & _ & _ & fl' & I' & Hu & Hpres & _).
  set (s1 := s <| k_mem ::= _ |>) in *. apply (HQ f _ fl').
  split; [by eexists|]. split.
  { apply (frames_inv_used s1 fl' f); [done|done|]. intros a Ha. by apply fill_other. }
  split; [done|]. split; [done|]. split; [done|]. split; [done|]. split.
  - intros a Ha. by apply fill_other.
  - intros j Hj. apply pread32_fill_zero; lia.
Qed.

(** ** [new_address_space] *)

Lemma kernel_tables_ext m m' :
  (forall a, a < CFG_FRAME_POOL_BASE -> m' a = m a) -> kernel_tables m -> kernel_tables m'.
Proof.
  intros H Ht i Hi. rewrite <-(Ht i Hi). apply pread32_ext. intros k Hk. apply H. clia.
Qed.

(** The frames of the pool are above the kernel's tables. *)
Lemma pool_frame_base hi f : pool_frame hi f -> CFG_FRAME_POOL_BASE <= f.
Proof. by intros [[? ?] ?]. Qed.

Lemma wp_new_address_space s fl (Q : Z -> kernel -> Prop) :
  frames_inv (k_mem s) fl -> 0 < free_count (k_mem s) fl ->
  kernel_tables (phys (k_mem s)) -> kernel_pt (k_mem s) = CFG_KERNEL_PT ->
  (forall pd s' fl', frames_inv (k_mem s') fl' -> used_frame (k_mem s') fl' pd ->
     frame_is_free (k_mem s) fl pd ->
     kernel_tables (phys (k_mem s')) -> fresh_space (phys (k_mem s')) pd ->
     (forall a, a < pd \/ pd + 4096 <= a -> phys (k_mem s') a = phys (k_mem s) a) -> Q pd s') ->
  wp new_address_space Q s.
Proof.
  intros I Hc Ht Hk HQ. unfold new_address_space. apply (wp_alloc_table _ s fl); [done|done|].
  intros pd s1 fl1 (Hm & I1 & Hu & Hfree & Hkp & Hpres & Ho & Hz). wp_auto. rewrite Hkp, Hk.
  pose proof (pool_frame_base _ _ (proj1 Hu)) as Hb.
  apply (wp_write_words pd (fun i => Z.lor (CFG_KERNEL_PT + i * 4096) CFG_PTE_KERNEL)).
  intros m' Hw Hout. change (Z.of_nat _) with 16 in *. wp_auto.
  assert (Ho' : forall a, a < pd \/ pd + 4096 <= a -> m' a = phys (k_mem s) a).
  { intros a Ha. rewrite Hout by lia. by apply Ho. }
  eapply (HQ pd _ fl1); [|exact Hu|done| | |exact Ho'].
  - eapply frames_inv_used; [done|done|]. intros a Ha. apply Hout. lia.
  - eapply kernel_tables_ext; [|exact Ht]. intros a Ha. apply Ho'. lia.
  - split; intros d Hd.
    + ksimpl. rewrite Hw by clia. apply i32_id.
      rewrite entry_sum by (apply kernel_table_aligned || clia). clia.
    + rewrite <-(Hz d) by clia. apply pread32_ext. intros k Hk'. apply Hout. clia.
Qed.

(** Once the kernel's tables are built, every new address space maps the
    whole kernel half to itself, for reading and writing, and maps nothing else. *)
Theorem new_address_space_identity s fl :
  frames_inv (k_mem s) fl -> 0 < free_count (k_mem s) fl ->
  wp (build_kernel_pt ;; new_address_space) (fun pd s' =>
    (forall a w, 0 <= a < CFG_USER_BASE -> mmu_translate (phys (k_mem s')) pd a w = Some a) /\
    (forall a w, CFG_USER_BASE <= a < 2 ^ 32 -> mmu_translate (phys (k_mem s')) pd a w = None)) s.
Proof.
  intros I Hc. apply wp_bind, wp_build_kernel_pt. intros m' Ht Ho.
  eapply (wp_new_address_space _ fl); [|exact Hc|exact Ht|done|].
  - apply frames_inv_phys; [by destruct I; split|]. intros f Hp _. apply pread32_ext. intros k Hk.
    apply Ho. pose proof (pool_frame_base _ _ Hp). lia.
  - intros pd s' fl' _ _ _ Ht' [Hh Hz] _. split; intros a w Ha.
    + by apply kernel_pages_identity.
    + rewrite mmu_translate_eq. unfold pde_at. rewrite Hz; [done|].
      split; [|apply dir_index_range]. rewrite dir_index_div.
      rewrite Z.mod_small; [apply Z.div_le_lower_bound; clia|].
      split; [apply Z.div_pos; clia|]. apply Z.div_lt_upper_bound; clia.
Qed.

Lemma new_address_space_identity_witness :
  wp (build_kernel_pt ;; new_address_space) (fun pd s' =>
    mmu_translate (phys (k_mem s')) pd 0x123456 true = Some 0x123456) boot_kernel.
Proof.
  eapply wp_mono; [apply (new_address_space_identity boot_kernel []); [exact boot_frames_inv|done]|].
  intros pd s' [H _]. apply H. clia.
Defined.

(** ** Well-formed address spaces

    The directory and the user page tables are used frames, all different, and the
    kernel half is the kernel's. *)
Record space_ok (ms : mem_state) (fl : list Z) (pd : Z) : Prop := {
  so_pd : used_frame ms fl pd;
  so_kernel : kernel_half (phys ms) pd;
  so_pt : forall d, CFG_KERNEL_IDENTITY_PTS <= d < 1024 ->
    has (pread32 (phys ms) (pd + d * 4)) 1 = true ->
    used_frame ms fl (pte_addr (pread32 (phys ms) (pd + d * 4))) /\
    pte_addr (pread32 (phys ms) (pd + d * 4)) <> pd;
  so_inj : forall d d', CFG_KERNEL_IDENTITY_PTS <= d < 1024 -> CFG_KERNEL_IDENTITY_PTS <= d' < 1024 ->
    has (pread32 (phys ms) (pd + d * 4)) 1 = true -> has (pread32 (phys ms) (pd + d' * 4)) 1 = true ->
    pte_addr (pread32 (phys ms) (pd + d * 4)) = pte_addr (pread32 (phys ms) (pd + d' * 4)) -> d = d' }.

Lemma used_disjoint ms fl f g :
  used_frame ms fl f -> used_frame ms fl g -> f <> g -> f + 4096 <= g \/ g + 4096 <= f.
Proof. intros [[_ Hf] _] [[_ Hg] _]. by apply aligned_disjoint. Qed.

(** A fresh address space is well formed. *)
Lemma fresh_space_ok s fl pd :
  used_frame (k_mem s) fl pd -> fresh_space (phys (k_mem s)) pd -> space_ok (k_mem s) fl pd.
Proof.
  intros Hu [Hh Hz]. split; [done|done| |].
  - intros d Hd Hp. by rewrite Hz in Hp.
  - intros d d' Hd _ Hp. by rewrite Hz in Hp.
Qed.

(** The table that a present entry of the directory names, and where it cannot be. *)
Lemma table_apart ms fl pd a f :
  space_ok ms fl pd -> has (pread32 (phys ms) (pde_at pd a)) 1 = true ->
  CFG_FRAME_POOL_BASE <= f ->
  (CFG_KERNEL_IDENTITY_PTS <= dir_index a ->
     let pt := pte_addr (pread32 (phys ms) (pde_at pd a)) in pt + 4096 <= f \/ f + 4096 <= pt) ->
  let w := pte_at (pread32 (phys ms) (pde_at pd a)) a in w + 4 <= f \/ f + 4096 <= w.
Proof.
  intros So Hp Hf H. cbv zeta in *. unfold pte_at. pose proof (table_index_range a).
  destruct (Z.ltb_spec (dir_index a) CFG_KERNEL_IDENTITY_PTS).
  - unfold pde_at in *. pose proof (dir_index_range a).
    rewrite (so_kernel _ _ _ So) by lia. rewrite pte_addr_entry by (apply kernel_table_aligned || clia).
    left. clia.
  - specialize (H ltac:(lia)). lia.
Qed.

(** The user half. *)
Definition user_addr (v : Z) : Prop := CFG_USER_BASE <= v < 2 ^ 32.

Lemma user_dir v : user_addr v -> CFG_KERNEL_IDENTITY_PTS <= dir_index v < 1024.
Proof.
  unfold user_addr. intros H. split; [|apply dir_index_range].
  rewrite dir_index_div, Z.mod_small; [apply Z.div_le_lower_bound; clia|].
  split; [apply Z.div_pos; clia|]. apply Z.div_lt_upper_bound; clia.
Qed.

(** The frames that hold the directory and the user page tables. *)
Definition table_frame (ms : mem_state) (pd f : Z) : Prop :=
  f = pd \/ exists d, CFG_KERNEL_IDENTITY_PTS <= d < 1024 /\
    has (pread32 (phys ms) (pd + d * 4)) 1 = true /\ f = pte_addr (pread32 (phys ms) (pd + d * 4)).

Lemma table_frame_used ms fl pd f : space_ok ms fl pd -> table_frame ms pd f -> used_frame ms fl f.
Proof. intros So [->|(d & Hd & Hb & ->)]; [apply So|by apply So]. Qed.

(** An address space only depends on those frames and on the kernel's tables. *)
Section space_ext.
Context (ms ms' : mem_state) (fl fl' : list Z) (pd : Z) (So : space_ok ms fl pd).
Context (Hlow : forall a, a < CFG_FRAME_POOL_BASE -> phys ms' a = phys ms a).
Context (Ht : forall f a, table_frame ms pd f -> f <= a < f + 4096 -> phys ms' a = phys ms a).

Lemma space_ext_pde d : 0 <= d < 1024 -> pread32 (phys ms') (pd + d * 4) = pread32 (phys ms) (pd + d * 4).
Proof using Ht. intros Hd. apply pread32_ext. intros k Hk. apply (Ht pd); [by left|lia]. Qed.

Lemma space_ext_pte a : has (pread32 (phys ms) (pde_at pd a)) 1 = true ->
  pread32 (phys ms') (pte_at (pread32 (phys ms) (pde_at pd a)) a) =
  pread32 (phys ms) (pte_at (pread32 (phys ms) (pde_at pd a)) a).
Proof using So Hlow Ht.
  intros Hb. apply pread32_ext. intros k Hk. pose proof (dir_index_range a).
  pose proof (table_index_range a). unfold pte_at in *.
  destruct (Z.ltb_spec (dir_index a) CFG_KERNEL_IDENTITY_PTS).
  - apply Hlow. unfold pde_at in *. rewrite (so_kernel _ _ _ So) in * by lia.
    rewrite pte_addr_entry in * by (apply kernel_table_aligned || clia). clia.
  - apply (Ht (pte_addr (pread32 (phys ms) (pde_at pd a)))); [|lia].
    right. exists (dir_index a). by split; [lia|].
Qed.

Lemma space_ext_ok : (forall f, table_frame ms pd f -> used_frame ms' fl' f) -> space_ok ms' fl' pd.
Proof using So Ht.
  intros Hu. split.
  - apply Hu. by left.
  - intros d Hd. rewrite space_ext_pde by clia. by apply So.
  - intros d Hd. rewrite space_ext_pde by clia. intros Hb.
    split; [apply Hu; right; by exists d|by apply (so_pt _ _ _ So)].
  - intros d d' Hd Hd'. rewrite !space_ext_pde by clia. by apply So.
Qed.

Lemma space_ext_leaf a : leaf (phys ms') pd a = leaf (phys ms) pd a.
Proof using So Hlow Ht.
  unfold leaf. cbv zeta. unfold pde_at at 1 2. rewrite !space_ext_pde by apply dir_index_range. fold (pde_at pd a).
  destruct (has (pread32 (phys ms) (pde_at pd a)) 1) eqn:Ep; [|done].
  by rewrite space_ext_pte.
Qed.

Lemma space_ext_flags a : dir_flags (phys ms') pd a = dir_flags (phys ms) pd a.
Proof using Ht. unfold dir_flags. cbv zeta. unfold pde_at. by rewrite !space_ext_pde by apply dir_index_range. Qed.
End space_ext.

(** Writing the entry of page [v], whose table is there. *)
Section write_entry.
Context (ms : mem_state) (fl : list Z) (pd v e : Z).
Context (So : space_ok ms fl pd) (Hv : user_addr v) (He : is_i32 e).
Context (Hp : has (pread32 (phys ms) (pde_at pd v)) 1 = true).
Let pt := pte_addr (pread32 (phys ms) (pde_at pd v)).
Let m' := pwrite32 (phys ms) (pte_at (pread32 (phys ms) (pde_at pd v)) v) e.

Lemma entry_table : used_frame ms fl pt /\ pt <> pd.
Proof using So Hv Hp. apply (so_pt _ _ _ So); [by apply user_dir|done]. Qed.

Lemma entry_inside a : a < pt \/ pt + 4096 <= a -> m' a = phys ms a.
Proof. intros H. apply pwrite32_other. unfold pte_at. fold pt. pose proof (table_index_range v). lia. Qed.

Lemma entry_pde d : 0 <= d < 1024 -> pread32 m' (pd + d * 4) = pread32 (phys ms) (pd + d * 4).
Proof using So Hv Hp.
  intros Hd. destruct entry_table as [Hu Hne]. apply pread32_ext. intros k Hk.
  apply entry_inside. destruct (used_disjoint _ _ _ _ (so_pd _ _ _ So) Hu); [congruence|lia|lia].
Qed.

Lemma entry_space_ok : space_ok (ms <| phys := m' |>) fl pd.
Proof using So Hv Hp.
  split; ksimpl.
  - apply So.
  - intros d Hd. rewrite entry_pde by clia. by apply So.
  - intros d Hd. rewrite entry_pde by clia. by apply So.
  - intros d d' Hd Hd'. rewrite !entry_pde by clia. by apply So.
Qed.

Lemma entry_flags a : dir_flags m' pd a = dir_flags (phys ms) pd a.
Proof using So Hv Hp. unfold dir_flags. cbv zeta. unfold pde_at. by rewrite !entry_pde by apply dir_index_range. Qed.

Lemma entry_same a : a / 4096 = v / 4096 -> leaf m' pd a = e.
Proof using So Hv Hp He.
  intros [Hd Ht]%same_page. unfold leaf. cbv zeta. unfold pde_at, pte_at. rewrite Hd, Ht.
  rewrite entry_pde by apply dir_index_range. fold (pde_at pd v). rewrite Hp.
  fold (pte_at (pread32 (phys ms) (pde_at pd v)) v). unfold m'.
  by rewrite pread32_pwrite32_same, (i32_id e He).
Qed.

Lemma entry_others a :
  0 <= a < 2 ^ 32 -> a / 4096 <> v / 4096 -> leaf m' pd a = leaf (phys ms) pd a.
Proof using So Hv Hp.
  intros Ha Hne. unfold leaf. cbv zeta. unfold pde_at at 1 2.
  rewrite !entry_pde by apply dir_index_range. fold (pde_at pd a).
  destruct (has (pread32 (phys ms) (pde_at pd a)) 1) eqn:Ep; [|done].
  destruct entry_table as [Hu _]. destruct (Z.eq_dec (dir_index a) (dir_index v)) as [Ed|Ed].
  - unfold pde_at. rewrite Ed. fold (pde_at pd v). apply pread32_pwrite32_other. unfold pte_at.
    rewrite (page_of_indices a), (page_of_indices v), Ed in Hne by (unfold user_addr in *; clia). lia.
  - apply pread32_ext. intros k Hk. apply entry_inside.
    destruct (table_apart ms fl pd a pt So Ep); [by eapply pool_frame_base, Hu| |lia|lia].
    intros Hk'. pose proof (dir_index_range a).
    destruct (so_pt _ _ _ So (dir_index a) ltac:(lia) Ep) as [Hu' _].
    apply (used_disjoint ms fl); [done|done|]. intros Heq. apply Ed.
    apply (so_inj _ _ _ So); [lia|by apply user_dir|done|done|done].
Qed.
End write_entry.

(** Hanging the new, empty table [pt] below the absent entry of [v]. *)
Section new_entry.
Context (s s1 : kernel) (fl fl1 : list Z) (pd v pt : Z).
Context (I : frames_inv (k_mem s) fl) (So : space_ok (k_mem s) fl pd) (Hv : user_addr v).
Context (Hp : has (pread32 (phys (k_mem s)) (pde_at pd v)) 1 = false).
Context (Hn : new_table s fl pt s1 fl1).
Let m := phys (k_mem s).
Let m2 := pwrite32 (phys (k_mem s1)) (pde_at pd v) (Z.lor pt CFG_PTE_USER).

(** A frame used before is apart from the new table. *)
Lemma old_apart f : used_frame (k_mem s) fl f -> f + 4096 <= pt \/ pt + 4096 <= f.
Proof using I Hn. destruct Hn as (_ & _ & _ & Hf & _). intros Hu. by eapply used_not_free. Qed.

Lemma old_memory a : (a < pt \/ pt + 4096 <= a) -> (a < pde_at pd v \/ pde_at pd v + 4 <= a) -> m2 a = m a.
Proof using Hn.
  intros H1 H2. unfold m2. rewrite pwrite32_other by done. by apply Hn.
Qed.

Lemma new_entry_value : pread32 m2 (pde_at pd v) = Z.lor pt CFG_PTE_USER.
Proof using Hn.
  destruct Hn as (_ & I1 & [[Hb Ha] _] & _). unfold m2. rewrite pread32_pwrite32_same. apply i32_id.
  rewrite entry_sum by (done || clia). pose proof (fi_next _ _ I1). clia.
Qed.

Lemma new_entry_addr : pte_addr (pread32 m2 (pde_at pd v)) = pt /\ has (pread32 m2 (pde_at pd v)) 1 = true.
Proof using Hn.
  rewrite new_entry_value. destruct Hn as (_ & _ & [[_ Ha] _] & _). split.
  - apply pte_addr_entry; [done|clia].
  - rewrite has_lor. apply orb_true_r.
Qed.

Lemma new_pde d : 0 <= d < 1024 -> d <> dir_index v -> pread32 m2 (pd + d * 4) = pread32 m (pd + d * 4).
Proof using I So Hn.
  intros Hd Hne. apply pread32_ext. intros k Hk. pose proof (dir_index_range v).
  apply old_memory; [|unfold pde_at; lia].
  destruct (old_apart pd (so_pd _ _ _ So)); lia.
Qed.

Lemma new_space_ok : space_ok ((k_mem s1) <| phys := m2 |>) fl1 pd.
Proof using I So Hv Hp Hn.
  pose proof (user_dir v Hv) as Hdv. destruct new_entry_addr as [Ea Eh].
  unfold pde_at in Ea, Eh. destruct Hn as (_ & _ & Hu & _ & _ & Hpres & _).
  assert (Hold : forall d, CFG_KERNEL_IDENTITY_PTS <= d < 1024 -> d <> dir_index v ->
    has (pread32 m2 (pd + d * 4)) 1 = true ->
    used_frame (k_mem s) fl (pte_addr (pread32 m2 (pd + d * 4))) /\
    pte_addr (pread32 m2 (pd + d * 4)) <> pd).
  { intros d Hd Hne. rewrite new_pde by clia. by apply So. }
  assert (Hnew : forall f, used_frame (k_mem s) fl f -> f <> pt).
  { intros f Hf ->. destruct (old_apart pt Hf); lia. }
  split; ksimpl.
  - apply Hpres, So.
  - intros d Hd. rewrite new_pde by clia. by apply So.
  - intros d Hd Hb. destruct (Z.eq_dec d (dir_index v)) as [->|Hne].
    + rewrite Ea. split; [done|]. apply not_eq_sym, Hnew, So.
    + destruct (Hold d Hd Hne Hb) as [H1 H2]. split; [by apply Hpres|done].
  - intros d d' Hd Hd' Hb Hb'.
    destruct (Z.eq_dec d (dir_index v)) as [->|Hne], (Z.eq_dec d' (dir_index v)) as [->|Hne']; [done| | |].
    + rewrite Ea. intros Heq. destruct (Hold d' Hd' Hne' Hb') as [H1 _]. by destruct (Hnew _ H1).
    + rewrite Ea. intros Heq. destruct (Hold d Hd Hne Hb) as [H1 _]. by destruct (Hnew _ H1).
    + rewrite !new_pde in * by clia. by apply So.
Qed.

Lemma new_leaf a : leaf m2 pd a = leaf m pd a.
Proof using I So Hv Hp Hn.
  destruct new_entry_addr as [Ea Eh]. pose proof (dir_index_range a).
  unfold leaf. cbv zeta. destruct (Z.eq_dec (dir_index a) (dir_index v)) as [Ed|Ed].
  - assert (Hpde : pde_at pd a = pde_at pd v) by (unfold pde_at; by rewrite Ed).
    rewrite Hpde, Eh. fold m in Hp. rewrite Hp. unfold pte_at. rewrite Ea.
    destruct Hn as (_ & _ & [[Hb _] _] & _ & _ & _ & _ & Hz).
    rewrite <-(Hz (table_index a)) by apply table_index_range.
    apply pread32_pwrite32_other. unfold pde_at. pose proof (user_dir v Hv).
    pose proof (table_index_range a).
    destruct (old_apart pd (so_pd _ _ _ So)); clia.
  - unfold pde_at at 1 2. rewrite !new_pde by done. fold (pde_at pd a).
    destruct (has (pread32 m (pde_at pd a)) 1) eqn:Ep; [|done].
    assert (H' : forall f, CFG_FRAME_POOL_BASE <= f ->
      (forall g, used_frame (k_mem s) fl g -> g <> pd -> g + 4096 <= f \/ f + 4096 <= g) ->
      let x := pte_at (pread32 m (pde_at pd a)) a in x + 4 <= f \/ f + 4096 <= x).
    { intros f Hf Hg. apply (table_apart (k_mem s) fl pd a f So Ep Hf). intros Hd. cbv zeta.
      destruct (so_pt _ _ _ So (dir_index a) ltac:(lia) Ep) as [H1 H2]. by apply Hg. }
    cbv zeta in H'.
    apply pread32_ext. intros k Hk. pose proof (dir_index_range v). apply old_memory.
    + destruct (H' pt); [destruct Hn as (_ & _ & [Hpf _] & _); by eapply pool_frame_base| |lia|lia].
      intros g Hg _. by apply old_apart.
    + destruct (H' pd); [destruct (so_pd _ _ _ So) as [Hpf _]; by eapply pool_frame_base| | |];
        [|change (pde_at pd v) with (pd + dir_index v * 4); lia..].
      intros g Hg Hne. by apply (used_disjoint (k_mem s) fl); [|apply So|].
Qed.
Lemma new_flags a :
  dir_flags m2 pd a = if dir_index a =? dir_index v then CFG_PTE_USER else dir_flags m pd a.
Proof using I So Hv Hp Hn.
  destruct new_entry_addr as [_ Eh]. unfold dir_flags. cbv zeta. destruct (Z.eqb_spec (dir_index a) (dir_index v)) as [Ed|Ed].
  - assert (pde_at pd a = pde_at pd v) as -> by (unfold pde_at; by rewrite Ed). rewrite Eh, new_entry_value.
    destruct Hn as (_ & _ & [[_ Ha] _] & _). rewrite entry_sum by (done || clia). change 4095 with (Z.ones 12).
    rewrite Z.land_ones by lia. change (2 ^ 12) with 4096. rewrite Z.add_mod, Ha by lia. done.
  - unfold pde_at. by rewrite !new_pde by (done || apply dir_index_range).
Qed.
End new_entry.

(** ** [map_page] *)

(** The entry it writes. *)
Lemma map_entry frame flags :
  frame mod 4096 = 0 -> 0 <= frame < 2 ^ 31 - 4096 -> 0 <= flags < 4096 ->
  let e := Z.lor (Z.lor (pte_addr frame) flags) 1 in
  is_i32 e /\ forall a w,
    entry_translate e a w = if w && negb (has flags 2) then None else Some (frame + Z.land a 4095).
Proof.
  intros Ha Hf Hfl e. assert (He : e = Z.lor frame (Z.lor flags 1)).
  { unfold e. by rewrite pte_addr_aligned, Z.lor_assoc by done. }
  pose proof (lor_bound flags 1 12 ltac:(lia) ltac:(lia) ltac:(lia)) as Hb.
  change (2 ^ 12) with 4096 in Hb. rewrite He. split.
  - rewrite entry_sum by done. clia.
  - intros a w. unfold entry_translate. rewrite pte_addr_entry by done.
    rewrite !has_lor, !(has_aligned frame) by done.
    replace (has 1 1) with true by done. replace (has 1 2) with false by done.
    by rewrite !orb_true_r, orb_false_l, orb_false_r.
Qed.

(** The flags of the directory's entries when [v] has a table: a new one is for the user. *)
Definition flags_with_table (m : Z -> Z) (pd v a : Z) : Z :=
  if (dir_index a =? dir_index v) && negb (has (pread32 m (pde_at pd v)) 1) then CFG_PTE_USER else dir_flags m pd a.

(** The table of [v] is there, hung below the directory first if necessary, and no
    translation has changed. *)
Lemma wp_ensure_table {A} (k : Z -> K A) s fl pd v (Q : A -> kernel -> Prop) :
  frames_inv (k_mem s) fl -> 0 < free_count (k_mem s) fl ->
  space_ok (k_mem s) fl pd -> user_addr v ->
  (forall s' fl', frames_inv (k_mem s') fl' -> space_ok (k_mem s') fl' pd ->
     (forall a, leaf (phys (k_mem s')) pd a = leaf (phys (k_mem s)) pd a) ->
     (forall a, dir_flags (phys (k_mem s')) pd a = flags_with_table (phys (k_mem s)) pd v a) ->
     has (pread32 (phys (k_mem s')) (pde_at pd v)) 1 = true ->
     wp (k (pread32 (phys (k_mem s')) (pde_at pd v))) Q s') ->
  wp (pde ← kread32 (pde_at pd v) ;
      pde ← (if negb (has pde 1) then
               pt ← alloc_frame ;
               zero_page pt ;;
               let pde := Z.lor pt CFG_PTE_USER in
               kwrite32 (pde_at pd v) pde ;;
               mret pde
             else mret pde) ;
      k pde) Q s.
Proof.
  intros I Hc So Hv HQ. unfold kread32 at 1. wp_auto.
  destruct (has (pread32 (phys (k_mem s)) (pde_at pd v)) 1) eqn:Ep; cbn [negb].
  - wp_auto. apply (HQ s fl); try done. intros a. unfold flags_with_table. by rewrite Ep, andb_false_r.
  - apply (wp_alloc_table _ s fl); [done|done|]. intros pt s1 fl1 Hn.
    cbv zeta. unfold kwrite32. wp_auto.
    destruct (new_entry_addr s s1 fl fl1 pd v pt Hn) as [_ Hb].
    change (wp (k (Z.lor pt CFG_PTE_USER)) Q
      (with_phys (pwrite32 (phys (k_mem s1)) (pde_at pd v) (Z.lor pt CFG_PTE_USER)) s1)).
    rewrite <-(new_entry_value s s1 fl fl1 pd v pt Hn) at 1.
    apply (HQ (with_phys (pwrite32 (phys (k_mem s1)) (pde_at pd v) (Z.lor pt CFG_PTE_USER)) s1) fl1).
    + destruct Hn as (_ & I1 & _ & _ & _ & Hpres & _).
      eapply frames_inv_used; [done|by apply Hpres, So|]. intros a Ha. apply pwrite32_other.
      unfold pde_at. pose proof (dir_index_range v). lia.
    + by eapply new_space_ok.
    + intros a. by eapply new_leaf.
    + intros a. unfold flags_with_table. rewrite Ep, andb_true_r. by eapply new_flags.
    + exact Hb.
Qed.

(** C24: [map_page] gives the page the entry of the frame with exactly the flags asked for
    and the present bit, and leaves the entry of every other page of the space as it is, in
    all its bits; a missing page table is allocated, with a directory entry for the user, and
    no other directory entry changes its flags; so the addresses of the page translate into
    the frame, for writing exactly if the flags say so, exactly this page becomes mapped, no
    other address translates differently, and the space stays well formed. *)
Theorem map_page_exact s fl pd v frame flags :
  frames_inv (k_mem s) fl -> 0 < free_count (k_mem s) fl -> space_ok (k_mem s) fl pd ->
  user_addr v -> frame mod 4096 = 0 -> 0 <= frame < 2 ^ 31 - 4096 -> 0 <= flags < 4096 ->
  wp (map_page pd v frame flags) (fun _ s' =>
    (forall a, 0 <= a < 2 ^ 32 -> leaf (phys (k_mem s')) pd a =
       if a / 4096 =? v / 4096 then Z.lor (Z.lor frame flags) 1 else leaf (phys (k_mem s)) pd a) /\
    (forall a, dir_flags (phys (k_mem s')) pd a = flags_with_table (phys (k_mem s)) pd v a) /\
    (forall a w, 0 <= a < 2 ^ 32 -> mmu_translate (phys (k_mem s')) pd a w =
       if a / 4096 =? v / 4096
       then (if w && negb (has flags 2) then None else Some (frame + Z.land a 4095))
       else mmu_translate (phys (k_mem s)) pd a w) /\
    (forall a, 0 <= a < 2 ^ 32 -> page_mapped s' pd a = (a / 4096 =? v / 4096) || page_mapped s pd a) /\
    exists fl', frames_inv (k_mem s') fl' /\ space_ok (k_mem s') fl' pd) s.
Proof.
  intros I Hc So Hv Ha Hf Hfl. unfold map_page. apply (wp_ensure_table _ s fl); [done..|].
  intros s1 fl1 I1 So1 Hlf Hfg Hp. unfold kwrite32. wp_auto.
  destruct (map_entry frame flags Ha Hf Hfl) as [He Hmean]. rewrite (pte_addr_aligned frame Ha) in *. set (e := Z.lor _ 1) in *.
  set (s2 := with_phys (pwrite32 (phys (k_mem s1)) (pte_at (pread32 (phys (k_mem s1)) (pde_at pd v)) v) e) s1).
  assert (Hleaf : forall a, 0 <= a < 2 ^ 32 -> leaf (phys (k_mem s2)) pd a =
    if a / 4096 =? v / 4096 then e else leaf (phys (k_mem s)) pd a).
  { intros a Hr. destruct (Z.eqb_spec (a / 4096) (v / 4096)) as [Eq|Ne]; [by apply (entry_same (k_mem s1) fl1)|].
    rewrite <- Hlf. by apply (entry_others (k_mem s1) fl1). }
  split; [exact Hleaf|]. split; [|split; [|split]].
  - intros a. rewrite <- Hfg. by apply (entry_flags (k_mem s1) fl1).
  - intros a w Hr. rewrite translate_leaf, Hleaf by done. destruct (a / 4096 =? v / 4096); [apply Hmean|by rewrite translate_leaf].
  - intros a Hr. rewrite !mapped_leaf, Hleaf by done. destruct (a / 4096 =? v / 4096); [|done]. unfold e. by rewrite has_lor, orb_true_r.
  - exists fl1. split; [|by apply entry_space_ok].
    destruct (entry_table (k_mem s1) fl1 pd v So1 Hv Hp) as [Hu _].
    eapply (frames_inv_used s1); [done|exact Hu|]. intros a. apply entry_inside.
Qed.

(** ** Witness: the first frame of the pool is an empty user space *)

Definition demo_directory : list Z :=
  mjoin ((fun d => le_bytes32 (Z.lor (CFG_KERNEL_PT + d * 4096) CFG_PTE_KERNEL)) <$> seqZ 0 16).
Definition demo_space : kernel :=
  kernel0 <| k_mem := mem_state0 <| frame_next := CFG_FRAME_POOL_BASE + 4096 |>
    <| frame_refs := upd (fun _ => 0) (CFG_FRAME_POOL_BASE / 4096) 1 |>
    <| phys := fun a => nthz demo_directory (a - CFG_FRAME_POOL_BASE) |> |>.

Lemma demo_space_inv : frames_inv (k_mem demo_space) [].
Proof.
  split; cbn; [done|constructor|clia|done|by intros f Hf%elem_of_nil|].
  intros f [Hf1 Hf2] _. cbn in Hf1. assert (f = CFG_FRAME_POOL_BASE) as ->; [|done].
  destruct (decide (f = CFG_FRAME_POOL_BASE)) as [|Hne]; [done|].
  destruct (aligned_disjoint f CFG_FRAME_POOL_BASE Hf2 eq_refl Hne); clia.
Qed.

Lemma demo_space_empty d : 16 <= d < 1024 -> pread32 (phys (k_mem demo_space)) (CFG_FRAME_POOL_BASE + d * 4) = 0.
Proof.
  intros Hd. unfold pread32. cbn [k_mem demo_space setf set_k_mem set_phys phys].
  assert (H : forall k, 64 <= k -> nthz demo_directory k = 0).
  { intros k Hk. unfold nthz. destruct (Z.ltb_spec k 0); [done|].
    apply nth_overflow. change (length demo_directory) with 64%nat. lia. }
  cbn. rewrite !H by lia. done.
Qed.

Lemma demo_space_ok : space_ok (k_mem demo_space) [] CFG_FRAME_POOL_BASE.
Proof.
  split.
  - split; [split; [cbn; clia|done]|set_solver].
  - intros d Hd. assert (H : Forall (fun d => pread32 (phys (k_mem demo_space)) (CFG_FRAME_POOL_BASE + d * 4)
      = Z.lor (CFG_KERNEL_PT + d * 4096) CFG_PTE_KERNEL) (seqZ 0 16)).
    { repeat (constructor; [vm_compute; reflexivity|]). constructor. }
    rewrite Forall_forall in H. apply H, elem_of_seqZ. clia.
  - intros d Hd. rewrite demo_space_empty by clia. done.
  - intros d d' Hd Hd'. rewrite !demo_space_empty by clia. done.
Qed.

Lemma map_page_exact_witness :
  wp (map_page CFG_FRAME_POOL_BASE CFG_USER_BASE 0x200000 CFG_PTE_USER) (fun _ s' =>
    mmu_translate (phys (k_mem s')) CFG_FRAME_POOL_BASE (CFG_USER_BASE + 12) true = Some (0x200000 + 12) /\
    leaf (phys (k_mem s')) CFG_FRAME_POOL_BASE (CFG_USER_BASE + 12) = 0x200007) demo_space.
Proof.
  eapply wp_mono.
  - apply (map_page_exact demo_space [] CFG_FRAME_POOL_BASE CFG_USER_BASE 0x200000 CFG_PTE_USER);
      [exact demo_space_inv|done|exact demo_space_ok|unfold user_addr; clia|done|lia|clia].
  - intros _ s' (Hl & _ & H & _). split; [rewrite H by clia|rewrite Hl by clia]; reflexivity.
Defined.
