(* ===== verification/Vm.v ===== *)
(** * Vm: address spaces, mappings, the page cache and user memory ([memory.c], and
    [file_mmap_*] of [file.c])

    First what a mapping needs of open files, then mapped areas and the heap. *)

From S2P Require Import Prelude Config Kernel Klog RawMem Linkage PageTable.

(** * What memory mappings need of open files ([file.c], lines 92-174)

    The [file_mmap_*] functions hold, read and release an open file on behalf of a
    mapping.  An open-file object is an index into [open_file_table]. *)

Definition open_at (s : kernel) (i : Z) : open_file := open_file_table (k_files s) i.

Definition open_upd (i : Z) (g : open_file -> open_file) (s : kernel) : kernel :=
  s <| k_files ::= fun r => r <| open_file_table ::= fun t => upd t i (g (t i)) |> |>.
Definition mopen (i : Z) (g : open_file -> open_file) : K unit := modify (open_upd i g).

(** [object] is out of range or not in use. *)
Definition open_bad (s : kernel) (object : Z) : bool :=
  (object <? 0) || (object >=? CFG_NFILE) || (of_used (open_at s object) =? 0).

(** The same test on a descriptor, for regular files. *)
Definition not_regular (s : kernel) (f : file) : bool :=
  (f_type f !=? CFG_FT_FILE) || (f_object f <? 0) || (f_object f >=? CFG_NFILE) ||
  (of_used (open_at s (f_object f)) =? 0) ||
  (i_type (vn_inode (of_vnode (open_at s (f_object f)))) !=? CFG_T_FILE).

Definition file_mmap_retain (f : file) : K Z :=
  bad ← gets (fun s => not_regular s f) ;
  if (bad : bool) then mret (- CFG_ENODEV) else
  mopen (f_object f) (fun o => o <| of_refs ::= fun r => r +! 1 |>) ;;
  mret (f_object f).

Definition file_mmap_retain_object (object : Z) : K unit :=
  bad ← gets (fun s => open_bad s object) ;
  when (negb bad) (mopen object (fun o => o <| of_refs ::= fun r => r +! 1 |>)).

Definition file_mmap_size_object (s : kernel) (object : Z) : Z :=
  if open_bad s object then - CFG_EBADF else i_size (vn_inode (of_vnode (open_at s object))).

(** The identity of the file behind an object: file system and node number. *)
Definition file_mmap_identity (s : kernel) (object : Z) : option (Z * Z) :=
  if open_bad s object then None
  else Some (vn_fs_type (of_vnode (open_at s object)), vn_object (of_vnode (open_at s object))).

Section with_vnodes.
Context `{Linkage}.

Definition file_mmap_read (f : file) (offset length destination : Z) : K Z :=
  bad ← gets (fun s => not_regular s f) ;
  if (bad : bool) then mret (- CFG_ENODEV) else
  o ← gets (fun s => open_at s (f_object f)) ;
  cur ← rd k_sched current ;
  vnode_read (of_vnode o) cur offset length destination.

(** Drop a reference; the last one releases the vnode. *)
Definition open_release (object : Z) : K unit :=
  mopen object (fun o => o <| of_refs ::= fun r => r -! 1 |>) ;;
  o ← gets (fun s => open_at s object) ;
  when (of_refs o =? 0)
    (vnode_release (of_vnode o) ;;
     mopen object (fun o => o <| of_used := 0 |>)).

Definition file_mmap_release (object : Z) : K unit :=
  bad ← gets (fun s => open_bad s object) ;
  if (bad : bool) then mret tt else open_release object.

Definition file_mmap_read_object (object offset length destination : Z) : K Z :=
  bad ← gets (fun s => open_bad s object) ;
  if (bad : bool) then mret (- CFG_EBADF) else
  o ← gets (fun s => open_at s object) ;
  cur ← rd k_sched current ;
  vnode_read (of_vnode o) cur offset length destination.

Definition file_mmap_write_object (object offset length source : Z) : K Z :=
  bad ← gets (fun s => open_bad s object) ;
  if (bad : bool) then mret (- CFG_EBADF) else
  o ← gets (fun s => open_at s object) ;
  cur ← rd k_sched current ;
  r ← vnode_write (of_vnode o) cur offset length source ;
  mopen object (fun o => o <| of_vnode := r.2 |>) ;;
  mret r.1.
End with_vnodes.

(** * Address spaces, mappings, the page cache and user memory ([memory.c])

    The parts of [memory.c] above the page tables: mapped areas, the heap, the
    page cache of mapped files, demand paging and copy-on-write
    ([vm_handle_page_fault]), fork and teardown of address spaces, and the
    functions that copy between kernel and user memory.  Copies return or take the
    kernel buffer by value. *)

Definition vm_at (s : kernel) (p : Z) : vm_space := p_vm (proc_at s p).
Definition area_at (s : kernel) (p i : Z) : vm_area := areas (vm_at s p) i.
Definition ptbr_at (s : kernel) (p : Z) : Z := ptbr (vm_at s p).

(** Update area [i] of process [p]. *)
Definition marea (p i : Z) (g : vm_area -> vm_area) : K unit :=
  mp_ p (fun pr => pr <| p_vm ::= fun v => v <| areas ::= fun a => upd a i (g (a i)) |> |>).
Definition mvm (p : Z) (g : vm_space -> vm_space) : K unit :=
  mp_ p (fun pr => pr <| p_vm ::= g |>).

(** ** Areas *)

Definition NVMA : nat := Z.to_nat CFG_MAX_VMAS.

(** Area [a] is in use and contains [page]. *)
Definition area_has (a : vm_area) (page : Z) : bool :=
  (va_used a !=? 0) && (page >=? va_start a) && (page <? va_end a).

Definition vm_area_slot (s : kernel) (p : Z) : Z :=
  or_neg1 (find_from (fun i => va_used (area_at s p i) =? 0) 0 NVMA).

Definition vm_page_in_area (s : kernel) (p page : Z) : bool :=
  exists_from (fun i => area_has (area_at s p i) page) 0 NVMA.

Definition vm_area_index (s : kernel) (p page : Z) : Z :=
  or_neg1 (find_from (fun i => area_has (area_at s p i) page) 0 NVMA).

Definition vm_free_area_slots (s : kernel) (p : Z) : Z :=
  count_from (fun i => va_used (area_at s p i) =? 0) 0 NVMA.

(** The pages [start], [start + 4096], ... below [end_]. *)
Definition npages (start end_ : Z) : nat := Z.to_nat ((end_ - start + 4095) / 4096).
Definition all_pages (f : Z -> bool) (start end_ : Z) : bool :=
  negb (exists_from (fun k => negb (f (start + k * 4096))) 0 (npages start end_)).

(** A page that nothing uses: not mapped, in no area, not in the heap. *)
Definition page_unused (s : kernel) (p page : Z) : bool :=
  negb (page_mapped s (ptbr_at s p) page || vm_page_in_area s p page ||
        ((page >=? brk_start (vm_at s p)) && (page <? page_align_up (brk_end (vm_at s p))))).

Definition vm_range_free (s : kernel) (p start end_ : Z) : bool :=
  all_pages (page_unused s p) start end_.
Definition vm_range_mapped (s : kernel) (p start end_ : Z) : bool :=
  all_pages (page_mapped s (ptbr_at s p)) start end_.
Definition vm_range_in_areas (s : kernel) (p start end_ : Z) : bool :=
  all_pages (vm_page_in_area s p) start end_.

Definition vm_area_assign (p slot start end_ prot flags file offset : Z) : K unit :=
  marea p slot (fun a => a <| va_used := 1 |>) ;;
  marea p slot (fun a => a <| va_start := start |>) ;;
  marea p slot (fun a => a <| va_end := end_ |>) ;;
  marea p slot (fun a => a <| va_prot := prot |>) ;;
  marea p slot (fun a => a <| va_flags := flags |>) ;;
  marea p slot (fun a => a <| va_file := file |>) ;;
  marea p slot (fun a => a <| va_offset := offset |>) ;;
  when (file >=? 0) (file_mmap_retain_object file).

Definition vm_fork (child parent : Z) : K unit :=
  pv ← gets (fun s => vm_at s parent) ;
  mvm child (fun v => v <| brk_start := brk_start pv |>) ;;
  mvm child (fun v => v <| brk_end := brk_end pv |>) ;;
  for_ 0 NVMA (fun i =>
    a ← gets (fun s => area_at s parent i) ;
    marea child i (fun _ => a) ;;
    when ((va_used a !=? 0) && (va_file a >=? 0)) (file_mmap_retain_object (va_file a))).

(** ** The page cache *)

Definition cache_at (s : kernel) (i : Z) : page_cache_entry := page_cache (k_mem s) i.
Definition mcache (i : Z) (g : page_cache_entry -> page_cache_entry) : K unit :=
  modify (fun s => s <| k_mem ::= fun r => r <| page_cache ::= fun t => upd t i (g (t i)) |> |>).
Definition NCACHE : nat := Z.to_nat CFG_PAGE_CACHE_SIZE.

Definition page_cache_find (s : kernel) (file offset : Z) : Z :=
  match file_mmap_identity s file with
  | None => -1
  | Some (fs_type, object) =>
      or_neg1 (find_from (fun i => let e := cache_at s i in
        (pce_used e !=? 0) && (pce_fs_type e =? fs_type) &&
        (pce_object e =? object) && (pce_offset e =? offset)) 0 NCACHE)
  end.

Section with_vnodes.
Context `{Linkage}.

Definition vm_release (p : Z) : K unit :=
  for_ 0 NVMA (fun i =>
    a ← gets (fun s => area_at s p i) ;
    when ((va_used a !=? 0) && (va_file a >=? 0)) (file_mmap_release (va_file a)) ;;
    marea p i (fun a => a <| va_used := 0 |>) ;;
    marea p i (fun a => a <| va_file := -1 |>)).

Definition vm_init (p pd image_end : Z) : K unit :=
  vm_release p ;;
  mvm p (fun v => v <| ptbr := pd |>) ;;
  mvm p (fun v => v <| brk_start := image_end |>) ;;
  mvm p (fun v => v <| brk_end := image_end |>) ;;
  for_ 0 NVMA (fun i =>
    marea p i (fun a => a <| va_used := 0 |>) ;;
    marea p i (fun a => a <| va_file := -1 |>)) ;;
  vm_area_assign p 0 CFG_USER_STACK_PAGE (CFG_USER_STACK_TOP - 4096)
    (Z.lor CFG_PROT_READ CFG_PROT_WRITE) (Z.lor CFG_MAP_PRIVATE CFG_MAP_ANONYMOUS) (-1) 0.

(** Write a dirty page back to its file. *)
Definition page_cache_flush (slot : Z) : K unit :=
  e ← gets (fun s => cache_at s slot) ;
  if (slot <? 0) || (pce_used e =? 0) || (pce_dirty e =? 0) then mret tt else
  file_mmap_write_object (pce_file e) (pce_offset e) (pce_length e) (pce_frame e) ;;
  mcache slot (fun e => e <| pce_dirty := 0 |>).

Definition page_cache_flush_object (object : Z) : K unit :=
  id ← gets (fun s => file_mmap_identity s object) ;
  match id with
  | None => mret tt
  | Some (fs_type, node_object) =>
      for_ 0 NCACHE (fun i =>
        e ← gets (fun s => cache_at s i) ;
        when ((pce_used e !=? 0) && (pce_fs_type e =? fs_type) && (pce_object e =? node_object))
          (page_cache_flush i))
  end.

Definition page_cache_flush_frame (frame : Z) : K unit :=
  refs ← gets (fun s => frame_refs (k_mem s) (frame / 4096)) ;
  if refs <=? 1 then mret tt else
  for_ 0 NCACHE (fun i =>
    e ← gets (fun s => cache_at s i) ;
    when ((pce_used e !=? 0) && (pce_frame e =? frame)) (page_cache_flush i)).

(** A free entry, or the first one that only the cache refers to, evicted. *)
Definition page_cache_alloc_slot : K Z :=
  free ← gets (fun s => find_from (fun i => pce_used (cache_at s i) =? 0) 0 NCACHE) ;
  match free with
  | Some i => mret i
  | None =>
      victim ← gets (fun s => find_from (fun i =>
        frame_refs (k_mem s) (pce_frame (cache_at s i) / 4096) =? 1) 0 NCACHE) ;
      match victim with
      | Some i =>
          page_cache_flush i ;;
          e ← gets (fun s => cache_at s i) ;
          free_frame (pce_frame e) ;;
          e ← gets (fun s => cache_at s i) ;
          file_mmap_release (pce_file e) ;;
          mcache i (fun e => e <| pce_used := 0 |>) ;;
          mret i
      | None => mret (-1)
      end
  end.

(** The cache entry of page [offset] of a file, read in if it is not there. *)
Definition page_cache_get (file offset : Z) : K Z :=
  slot ← gets (fun s => page_cache_find s file offset) ;
  if slot >=? 0 then mret slot else
  slot ← page_cache_alloc_slot ;
  avail ← frame_available ;
  if (slot <? 0) || negb avail then mret (-1) else
  frame ← alloc_frame ;
  zero_page frame ;;
  size ← gets (fun s => file_mmap_size_object s file) ;
  if size <=? offset then free_frame frame ;; mret (-1) else
  got ← file_mmap_read_object file offset 4096 frame ;
  if got <? 0 then free_frame frame ;; mret (-1) else
  mcache slot (fun e => e <| pce_used := 1 |>) ;;
  mcache slot (fun e => e <| pce_file := file |>) ;;
  id ← gets (fun s => file_mmap_identity s file) ;
  mcache slot (fun e => match id with
    | Some (fs_type, object) => e <| pce_fs_type := fs_type |> <| pce_object := object |>
    | None => e
    end) ;;
  mcache slot (fun e => e <| pce_offset := offset |>) ;;
  mcache slot (fun e => e <| pce_frame := frame |>) ;;
  mcache slot (fun e => e <| pce_length := got |>) ;;
  mcache slot (fun e => e <| pce_dirty := 0 |>) ;;
  file_mmap_retain_object file ;;
  mret slot.
End with_vnodes.
