(* ===== verification/Fault.v ===== *)
(** * Fault: demand paging, copy-on-write and user memory ([memory.c])

    [vm_handle_page_fault], the translation of user addresses that calls it, the
    copies between kernel and user memory, and fork and teardown of a page
    directory. *)

From S2P Require Import Prelude Config Kernel Klog RawMem Linkage PageTable Vm.

Section with_vnodes.
Context `{Linkage}.

(** *** The cases of [vm_handle_page_fault] *)

(** A write to a present page: copy-on-write, or the first write to a page of a
    shared mapping. *)
Definition fault_present (p page pte ptep error : Z) : K Z :=
  if negb (has error 2) then mret (-1) else
  area ← gets (fun s => vm_area_index s p page) ;
  a ← gets (fun s => area_at s p area) ;
  if (area >=? 0) && negb (has (va_prot a) CFG_PROT_WRITE) then mret (-1) else
  if has pte CFG_PTE_COW then
    avail ← frame_available ;
    if negb avail then mret (-1) else
    let old_frame := pte_addr pte in
    frame ← alloc_frame ;
    copy_page old_frame frame ;;
    kwrite32 ptep (Z.lor frame CFG_PTE_USER) ;;
    free_frame old_frame ;;
    mret 0
  else if has pte CFG_PTE_SHARED then
    for_ 0 NCACHE (fun i =>
      e ← gets (fun s => cache_at s i) ;
      when ((pce_used e !=? 0) && (pce_frame e =? pte_addr pte))
        (mcache i (fun e => e <| pce_dirty := 1 |>))) ;;
    kwrite32 ptep (Z.lor pte 2) ;;
    mret 0
  else mret (-1).

(** A page that is not there yet: protection, flags, file and offset of its area,
    or of the heap. *)
Definition fault_source (s : kernel) (p page : Z) : option (Z * Z * Z * Z) :=
  let area := vm_area_index s p page in
  let a := area_at s p area in
  if area <? 0 then
    if (page <? brk_start (vm_at s p)) || (page >=? brk_end (vm_at s p)) then None
    else Some (Z.lor CFG_PROT_READ CFG_PROT_WRITE,
               Z.lor CFG_MAP_PRIVATE CFG_MAP_ANONYMOUS, -1, 0)
  else Some (va_prot a, va_flags a, va_file a, va_offset a +! page -! va_start a).

Definition fault_absent (p page error : Z) : K Z :=
  src ← gets (fun s => fault_source s p page) ;
  match src with
  | None => mret (-1)
  | Some (prot, flags, file, offset) =>
      pd ← gets (fun s => ptbr_at s p) ;
      if (prot =? CFG_PROT_NONE) || (has error 2 && negb (has prot CFG_PROT_WRITE))
      then mret (-1) else
      if has flags CFG_MAP_ANONYMOUS then
        avail ← frame_available ;
        if negb avail then mret (-1) else
        frame ← alloc_frame ;
        zero_page frame ;;
        map_page pd page frame (if has prot CFG_PROT_WRITE then CFG_PTE_USER else 4) ;;
        mret 0
      else
        cache ← page_cache_get file offset ;
        if cache <? 0 then mret (-1) else
        e ← gets (fun s => cache_at s cache) ;
        let frame := pce_frame e in
        retain_frame frame ;;
        map_page pd page frame
          (if has flags CFG_MAP_SHARED && has prot CFG_PROT_WRITE then Z.lor 4 CFG_PTE_SHARED
           else if has flags CFG_MAP_PRIVATE && has prot CFG_PROT_WRITE then Z.lor 4 CFG_PTE_COW
           else 4) ;;
        mret 0
  end.

Definition vm_handle_page_fault (p address error : Z) : K Z :=
  let page := pte_addr address in
  n ← rd k_procs nproc ;
  if (p <? 0) || (p >=? n) || (page <? CFG_USER_BASE) || (page >=? CFG_USER_STACK_TOP)
  then mret (-1) else
  pd ← gets (fun s => ptbr_at s p) ;
  pde ← kread32 (pde_at pd page) ;
  pte ← (if has pde 1 then kread32 (pte_at pde page) else mret 0) ;
  if has pte 1 then fault_present p page pte (pte_at pde page) error
  else fault_absent p page error.

(** *** User addresses *)

(** The entry allows the access: present and user, and writable for a write. *)
Definition pte_allows (pte : Z) (write : bool) : bool :=
  (Z.land pte 5 =? 5) && negb (write && negb (has pte 2)).

Definition user_error (write : bool) : Z := if write then 2 else 0.

(** The table walk once the directory entry is good. *)
Definition walk_table (p addr : Z) (write : bool) (pd pde : Z) : K Z :=
  pte ← kread32 (pte_at pde addr) ;
  if pte_allows pte write then mret (pte_addr pte + Z.land addr 4095) else
  r ← vm_handle_page_fault p addr (user_error write) ;
  if r <? 0 then mret (-1) else
  pde ← kread32 (pde_at pd addr) ;
  if negb (Z.land pde 5 =? 5) then mret (-1) else
  pte ← kread32 (pte_at pde addr) ;
  if pte_allows pte write then mret (pte_addr pte + Z.land addr 4095) else mret (-1).

Definition user_phys_addr (p addr : Z) (write : bool) : K Z :=
  n ← rd k_procs nproc ;
  if (p <? 0) || (p >=? n) then mret (-1) else
  pd ← gets (fun s => ptbr_at s p) ;
  pde ← kread32 (pde_at pd addr) ;
  if Z.land pde 5 =? 5 then walk_table p addr write pd pde else
  r ← vm_handle_page_fault p addr (user_error write) ;
  if r <? 0 then mret (-1) else
  pde ← kread32 (pde_at pd addr) ;
  if negb (Z.land pde 5 =? 5) then mret (-1) else walk_table p addr write pd pde.

(** Every page of the range is (made) accessible. *)
Definition user_access_ok (p addr len : Z) (write : bool) : K bool :=
  if (len <? 0) || (addr <? CFG_USER_BASE) || (addr >? CFG_USER_END) then mret false else
  if len >? CFG_USER_END - addr then mret false else
  if len =? 0 then mret true else
  let page := pte_addr addr in
  let last := pte_addr (addr + len - 1) in
  or_else (for_ret 0 (Z.to_nat ((last - page) / 4096 + 1)) (fun k =>
    r ← user_phys_addr p (page + k * 4096) write ;
    mret (if r <? 0 then Some false else None)))
  (mret true).

(** [read8_at(phys)] and [write8_at(phys, c)]. *)
Definition user_read8 (p addr : Z) : K Z := a ← user_phys_addr p addr false ; read8_at a.
Definition user_write8 (p addr c : Z) : K unit := a ← user_phys_addr p addr true ; write8_at a c.

Fixpoint copyin_loop (p usrc : Z) (n : nat) : K (list Z) :=
  match n with
  | O => mret []
  | S n' => c ← user_read8 p usrc ; cs ← copyin_loop p (usrc + 1) n' ; mret (c :: cs)
  end.

(** The bytes, or [None] for -EFAULT. *)
Definition copyin (p usrc len : Z) : K (option (list Z)) :=
  ok ← user_access_ok p usrc len false ;
  if negb ok then mret None else
  bs ← copyin_loop p usrc (Z.to_nat len) ;
  mret (Some bs).

Fixpoint copyout_loop (p udst : Z) (bs : list Z) : K unit :=
  match bs with
  | [] => mret tt
  | b :: bs' => user_write8 p udst b ;; copyout_loop p (udst + 1) bs'
  end.

Definition copyout (p udst : Z) (bs : list Z) : K Z :=
  ok ← user_access_ok p udst (Z.of_nat (length bs)) true ;
  if negb ok then mret (- CFG_EFAULT) else
  copyout_loop p udst bs ;;
  mret 0.

(** The string before its NUL, or the error. *)
Fixpoint copyinstr_loop (p usrc : Z) (n : nat) : K (Z + list Z) :=
  match n with
  | O => mret (inl (- CFG_E2BIG))
  | S n' =>
      ok ← user_access_ok p usrc 1 false ;
      if negb ok then mret (inl (- CFG_EFAULT)) else
      c ← user_read8 p usrc ;
      if c =? 0 then mret (inr []) else
      r ← copyinstr_loop p (usrc + 1) n' ;
      mret (match r with inl e => inl e | inr cs => inr (c :: cs) end)
  end.
Definition copyinstr (p usrc max : Z) : K (Z + list Z) := copyinstr_loop p usrc (Z.to_nat max).

(** *** A write through a descriptor updates the cached pages of the file *)

Definition page_cache_update_object (object offset length source caller : Z) : K unit :=
  id ← gets (fun s => file_mmap_identity s object) ;
  match id with
  | None => mret tt
  | Some (fs_type, node_object) =>
      for_ 0 NCACHE (fun i =>
        e ← gets (fun s => cache_at s i) ;
        when ((pce_used e !=? 0) && (pce_fs_type e =? fs_type) && (pce_object e =? node_object))
          (let start := if offset <? pce_offset e then pce_offset e else offset in
           let end_ := if offset +! length >? pce_offset e +! 4096 then pce_offset e +! 4096
                       else offset +! length in
           for_ start (Z.to_nat (end_ - start)) (fun at_ =>
             phys ← user_phys_addr caller (source + at_ - offset) false ;
             when (phys >=? 0)
               (e ← gets (fun s => cache_at s i) ;
                c ← read8_at phys ;
                write8_at (pce_frame e + at_ - pce_offset e) c)) ;;
           e ← gets (fun s => cache_at s i) ;
           let next_length := end_ - pce_offset e in
           when (next_length >? pce_length e)
             (mcache i (fun e => e <| pce_length := next_length |>))))
  end.

(** *** Fork and teardown of a page directory *)

(** The entry the child inherits, and that the parent keeps. *)
Definition fork_flags (spte : Z) : Z :=
  let flags := Z.land spte 4095 in
  if negb (has flags CFG_PTE_SHARED) && (has flags 2 || has flags CFG_PTE_COW)
  then Z.lor (Z.land flags (bnot 2)) CFG_PTE_COW else flags.

Definition fork_needs_cow (spte : Z) : bool :=
  let flags := Z.land spte 4095 in
  negb (has flags CFG_PTE_SHARED) && (has flags 2 || has flags CFG_PTE_COW).

Definition copy_space (src dst : Z) : K unit :=
  for_ CFG_KERNEL_IDENTITY_PTS (Z.to_nat (1024 - CFG_KERNEL_IDENTITY_PTS)) (fun di =>
    spde ← kread32 (src + di * 4) ;
    when (has spde 1)
      (let spt := pte_addr spde in
       for_ 0 1024 (fun ti =>
         spte ← kread32 (spt + ti * 4) ;
         when (has spte 1)
           (let v := Z.lor (shl di 22) (Z.shiftl ti 12) in
            let flags := fork_flags spte in
            when (fork_needs_cow spte) (kwrite32 (spt + ti * 4) (Z.lor (pte_addr spte) flags)) ;;
            retain_frame (pte_addr spte) ;;
            map_page dst v (pte_addr spte) flags)))).

Definition free_space (pd : Z) : K unit :=
  for_ CFG_KERNEL_IDENTITY_PTS (Z.to_nat (1024 - CFG_KERNEL_IDENTITY_PTS)) (fun di =>
    pde ← kread32 (pd + di * 4) ;
    when (has pde 1)
      (for_ 0 1024 (fun ti =>
         pte ← kread32 (pte_addr pde + ti * 4) ;
         when (has pte 1)
           (page_cache_flush_frame (pte_addr pte) ;;
            free_frame (pte_addr pte))) ;;
       free_frame (pte_addr pde))) ;;
  free_frame pd.
End with_vnodes.
