(* ===== verification/FaultSpec.v ===== *)
(** * FaultSpec: what user copies and page faults do ([memory.c])

    Copies between kernel and user memory are exact and never reach kernel memory; a
    write to a copy-on-write page gets a private frame with the same contents. *)

From S2P Require Import Prelude Config Kernel Klog RawMem Frames Linkage Sched PageTable Vm Fault.

(** * What user copies and copy-on-write do

    Copies between kernel and user memory are exact and never reach kernel memory;
    a write to a copy-on-write page gets a private frame with the same contents. *)

(** ** User ranges that are mapped *)

(** The entries of the page allow the access, and the physical byte. *)
Definition user_page_ok (m : Z -> Z) (pd a : Z) (w : bool) : Prop :=
  Z.land (pread32 m (pde_at pd a)) 5 = 5 /\
  pte_allows (pread32 m (pte_at (pread32 m (pde_at pd a)) a)) w = true.
Definition user_pa (m : Z -> Z) (pd a : Z) : Z :=
  pte_addr (pread32 m (pte_at (pread32 m (pde_at pd a)) a)) + Z.land a 4095.

(** Byte [x] is outside the two entries that the walk for [a] reads. *)
Definition off_walk (m : Z -> Z) (pd a x : Z) : Prop :=
  (x < pde_at pd a \/ pde_at pd a + 4 <= x) /\
  (x < pte_at (pread32 m (pde_at pd a)) a \/ pte_at (pread32 m (pde_at pd a)) a + 4 <= x).

(** [n] bytes at [a] that process [p] can access, each a different byte of a frame
    below the user base, none in a page table that maps the range. *)
Record user_range (s : kernel) (p a n : Z) (w : bool) : Prop := {
  ur_proc : 0 <= p < nproc (k_procs s);
  ur_bounds : CFG_USER_BASE <= a /\ 0 <= n /\ a + n <= CFG_USER_END;
  ur_ok : forall k, 0 <= k < n -> user_page_ok (phys (k_mem s)) (ptbr_at s p) (a + k) w;
  ur_kernel : forall k, 0 <= k < n ->
    0 <= user_pa (phys (k_mem s)) (ptbr_at s p) (a + k) < CFG_USER_BASE;
  ur_tables : forall i j, 0 <= i < n -> 0 <= j < n ->
    off_walk (phys (k_mem s)) (ptbr_at s p) (a + i) (user_pa (phys (k_mem s)) (ptbr_at s p) (a + j));
  ur_inj : forall i j, 0 <= i < n -> 0 <= j < n ->
    user_pa (phys (k_mem s)) (ptbr_at s p) (a + i) = user_pa (phys (k_mem s)) (ptbr_at s p) (a + j) ->
    i = j }.

(** Memory that differs from [s] at most at the bytes of the range. *)
Definition range_mem (s : kernel) (p a n : Z) (m : Z -> Z) : Prop :=
  forall x, (forall k, 0 <= k < n -> user_pa (phys (k_mem s)) (ptbr_at s p) (a + k) <> x) ->
    m x = phys (k_mem s) x.

Section range.
Context (s : kernel) (p a n : Z) (w : bool) (R : user_range s p a n w).
Let pd := ptbr_at s p.
Let m := phys (k_mem s).

Lemma range_walk m' k :
  range_mem s p a n m' -> 0 <= k < n ->
  pread32 m' (pde_at pd (a + k)) = pread32 m (pde_at pd (a + k)) /\
  pread32 m' (pte_at (pread32 m (pde_at pd (a + k))) (a + k)) =
    pread32 m (pte_at (pread32 m (pde_at pd (a + k))) (a + k)).
Proof using R.
  intros Hm Hk. split; apply pread32_ext; intros b Hb; apply Hm; intros j Hj Heq.
  all: destruct (ur_tables _ _ _ _ _ R k j Hk Hj) as [H1 H2]; rewrite Heq in H1, H2; fold m pd in H1, H2; lia.
Qed.

Lemma range_ok m' k :
  range_mem s p a n m' -> 0 <= k < n ->
  user_page_ok m' pd (a + k) w /\ user_pa m' pd (a + k) = user_pa m pd (a + k).
Proof using R.
  intros Hm Hk. destruct (range_walk m' k Hm Hk) as [H1 H2]. unfold user_page_ok, user_pa.
  rewrite H1, H2. split; [|done]. by apply (ur_ok _ _ _ _ _ R).
Qed.
End range.

Lemma range_mem_refl s p a n : range_mem s p a n (phys (k_mem s)).
Proof. done. Qed.

(** A range that may be written may be read. *)
Lemma pte_allows_read e w : pte_allows e w = true -> pte_allows e false = true.
Proof. unfold pte_allows. by intros [-> _]%andb_true_iff. Qed.

Lemma user_range_read s p a n w : user_range s p a n w -> user_range s p a n false.
Proof.
  intros R. split; try apply R. intros k Hk. destruct (ur_ok _ _ _ _ _ R k Hk) as [H1 H2].
  split; [done|]. by eapply pte_allows_read.
Qed.

Section with_vnodes.
Context {L : Linkage}.

(** The translation of a mapped address reads the tables and changes nothing. *)
Lemma user_phys_addr_mapped p v w s :
  0 <= p < nproc (k_procs s) -> user_page_ok (phys (k_mem s)) (ptbr_at s p) v w ->
  user_phys_addr p v w s = Ret (user_pa (phys (k_mem s)) (ptbr_at s p) v) s.
Proof.
  intros Hp [H1 H2].
  unfold user_phys_addr, walk_table, kread32, rd, gets, mbind, K_bind, mret, K_ret.
  destruct (Z.ltb_spec p 0); [lia|].
  destruct (Z.leb_spec (nproc (k_procs s)) p); [lia|]. cbn [orb].
  by rewrite H1, Z.eqb_refl, H2.
Qed.

(** All addresses of a page share their entries. *)
Lemma same_page_walk pd a b m :
  a / 4096 = b / 4096 -> pde_at pd a = pde_at pd b /\
  pte_at (pread32 m (pde_at pd a)) a = pte_at (pread32 m (pde_at pd b)) b.
Proof.
  intros Heq. unfold pde_at, pte_at. rewrite !dir_index_div, !table_index_div.
  change (2 ^ 22) with (4096 * 1024). by rewrite <-!Z.div_div, Heq by lia.
Qed.

Lemma same_page_ok m pd a b w : a / 4096 = b / 4096 -> user_page_ok m pd a w -> user_page_ok m pd b w.
Proof.
  intros Heq. unfold user_page_ok. destruct (same_page_walk pd a b m Heq) as [-> ->]. done.
Qed.

(** A loop that finds nothing to return. *)
Lemma for_ret_none {A} (body : Z -> K (option A)) n lo s :
  (forall i, lo <= i < lo + Z.of_nat n -> body i s = Ret None s) -> for_ret lo n body s = Ret None s.
Proof.
  revert lo. induction n as [|n IH]; intros lo H; [done|]. cbn [for_ret].
  rewrite (run_bind _ _ _ _ _ (H lo ltac:(lia))). apply IH. intros i Hi. apply H. lia.
Qed.

Lemma user_access_ok_range s p a n w :
  user_range s p a n w -> user_access_ok p a n w s = Ret true s.
Proof.
  intros R. pose proof (ur_bounds _ _ _ _ _ R) as (Ha & Hn & He). unfold user_access_ok.
  destruct (Z.ltb_spec n 0); [lia|]. destruct (Z.ltb_spec a CFG_USER_BASE); [lia|].
  destruct (Z.ltb_spec CFG_USER_END a); [lia|]. destruct (Z.ltb_spec (CFG_USER_END - a) n); [lia|].
  cbn [orb]. destruct (Z.eqb_spec n 0); [done|].
  unfold or_else. rewrite (run_bind _ _ s None s); [done|]. apply for_ret_none. intros k Hk.
  rewrite !pte_addr_div in *. pose proof (Z.div_mod a 4096 ltac:(lia)).
  pose proof (Z.mod_pos_bound a 4096 ltac:(lia)).
  pose proof (Z.div_mod (a + n - 1) 4096 ltac:(lia)). pose proof (Z.mod_pos_bound (a + n - 1) 4096 ltac:(lia)).
  rewrite <-Z.mul_sub_distr_r, Z.div_mul in Hk by lia.
  assert (Hle : a / 4096 <= (a + n - 1) / 4096) by (apply Z.div_le_mono; lia).
  set (page := a / 4096 * 4096 + k * 4096). set (b := Z.max a page).
  assert (Hb : b / 4096 = page / 4096).
  { unfold page. rewrite <-Z.mul_add_distr_r, Z.div_mul by lia.
    symmetry. apply (Z.div_unique _ _ _ (b - (a / 4096 + k) * 4096)); unfold b, page; lia. }
  assert (Hr : 0 <= b - a < n) by (unfold b, page; lia).
  pose proof (ur_ok _ _ _ _ _ R _ Hr) as Hok. pose proof (ur_kernel _ _ _ _ _ R _ Hr) as Hkern.
  replace (a + (b - a)) with b in * by lia.
  erewrite run_bind; [|apply user_phys_addr_mapped; [apply R|by eapply same_page_ok]].
  destruct (same_page_walk (ptbr_at s p) b page (phys (k_mem s)) Hb) as [_ Hw].
  unfold user_pa in *. rewrite <-Hw.
  change 4095 with (Z.ones 12) in *. rewrite !Z.land_ones in * by lia. change (2 ^ 12) with 4096 in *.
  rewrite pte_addr_div in *. pose proof (Z.mod_pos_bound page 4096). pose proof (Z.mod_pos_bound b 4096).
  destruct (Z.ltb_spec (pread32 (phys (k_mem s)) (pte_at (pread32 (phys (k_mem s)) (pde_at (ptbr_at s p) b)) b) / 4096 * 4096 + page mod 4096) 0); [lia|done].
Qed.

(** The bytes of a list stored at [φ i], [φ (i + 1)], ... *)
Fixpoint ustore (φ : Z -> Z) (i : Z) (bs : list Z) (m : Z -> Z) : Z -> Z :=
  match bs with
  | [] => m
  | b :: bs' => ustore φ (i + 1) bs' (upd m (φ i) (b mod 256))
  end.

Lemma ustore_other φ i bs m x :
  (forall k, i <= k < i + Z.of_nat (length bs) -> φ k <> x) -> ustore φ i bs m x = m x.
Proof.
  revert i m. induction bs as [|b bs IH]; intros i m H; [done|]. cbn [ustore length] in *.
  rewrite IH by (intros k Hk; apply H; lia). apply upd_ne, H. lia.
Qed.

Lemma ustore_bytes φ i bs m :
  (forall j k, i <= j < i + Z.of_nat (length bs) -> i <= k < i + Z.of_nat (length bs) -> φ j = φ k -> j = k) ->
  ((fun k => ustore φ i bs m (φ k)) <$> seqZ i (Z.of_nat (length bs))) = ((fun b => b mod 256) <$> bs).
Proof.
  revert i m. induction bs as [|b bs IH]; intros i m Hinj; [done|]. cbn [ustore length] in *.
  rewrite seqZ_cons by lia. rewrite !fmap_cons. f_equal.
  - rewrite ustore_other; [apply upd_same|]. intros k Hk Heq. apply Hinj in Heq; lia.
  - replace (Z.pred (Z.of_nat (S (length bs)))) with (Z.of_nat (length bs)) by lia.
    change (Z.succ i) with (i + 1). apply IH. intros j k Hj Hk. apply Hinj; lia.
Qed.

Section copies.
Context (s : kernel) (p a n : Z) (w : bool) (R : user_range s p a n w).
Let φ k := user_pa (phys (k_mem s)) (ptbr_at s p) (a + k).

Lemma range_phys_addr m' k :
  range_mem s p a n m' -> 0 <= k < n ->
  user_phys_addr p (a + k) w (with_phys m' s) = Ret (φ k) (with_phys m' s) /\ is_kernel_addr (φ k) = true.
Proof using R.
  intros Hm Hk. destruct (range_ok s p a n w R m' k Hm Hk) as [H1 H2]. split.
  - unfold φ. rewrite <-H2.
    exact (user_phys_addr_mapped p (a + k) w (with_phys m' s) (ur_proc _ _ _ _ _ R) H1).
  - pose proof (ur_kernel _ _ _ _ _ R k Hk) as H3. fold (φ k) in H3. unfold is_kernel_addr.
    destruct (Z.leb_spec 0 (φ k)), (Z.ltb_spec (φ k) CFG_USER_BASE); done || lia.
Qed.

Lemma copyin_loop_range m' k i :
  range_mem s p a n m' -> 0 <= i -> i + Z.of_nat k <= n -> w = false ->
  copyin_loop p (a + i) k (with_phys m' s) = Ret ((fun j => m' (φ j)) <$> seqZ i (Z.of_nat k)) (with_phys m' s).
Proof using R.
  intros Hm Hi Hk Hw. revert i Hi Hk. induction k as [|k IH]; intros i Hi Hk; [done|].
  cbn [copyin_loop]. destruct (range_phys_addr m' i Hm ltac:(lia)) as [H1 H2]. rewrite Hw in H1.
  assert (Hr : user_read8 p (a + i) (with_phys m' s) = Ret (m' (φ i)) (with_phys m' s)).
  { unfold user_read8. rewrite (run_bind _ _ _ _ _ H1). unfold read8_at. erewrite run_bind by done.
    unfold translate. by rewrite H2. }
  rewrite (run_bind _ _ _ _ _ Hr). replace (a + i + 1) with (a + (i + 1)) by lia.
  rewrite (run_bind _ _ _ _ _ (IH (i + 1) ltac:(lia) ltac:(lia))).
  rewrite (seqZ_cons i (Z.of_nat (S k))) by lia. rewrite fmap_cons.
  replace (Z.pred (Z.of_nat (S k))) with (Z.of_nat k) by lia. done.
Qed.

Lemma range_mem_upd m' k v : range_mem s p a n m' -> 0 <= k < n -> range_mem s p a n (upd m' (φ k) v).
Proof using Type. intros Hm Hk x Hx. rewrite upd_ne; [by apply Hm|by apply Hx]. Qed.

Lemma copyout_loop_range bs m' i :
  range_mem s p a n m' -> 0 <= i -> i + Z.of_nat (length bs) <= n -> w = true ->
  copyout_loop p (a + i) bs (with_phys m' s) = Ret tt (with_phys (ustore φ i bs m') s).
Proof using R.
  intros Hm Hi Hk Hw. revert i m' Hm Hi Hk. induction bs as [|b bs IH]; intros i m' Hm Hi Hk; [done|].
  cbn [copyout_loop length] in *. destruct (range_phys_addr m' i Hm ltac:(lia)) as [H1 H2]. rewrite Hw in H1.
  assert (Hr : user_write8 p (a + i) b (with_phys m' s) = Ret tt (with_phys (upd m' (φ i) (b mod 256)) s)).
  { unfold user_write8. rewrite (run_bind _ _ _ _ _ H1). unfold write8_at. erewrite run_bind by done.
    unfold translate. by rewrite H2. }
  rewrite (run_bind _ _ _ _ _ Hr). replace (a + i + 1) with (a + (i + 1)) by lia.
  apply IH; [apply range_mem_upd; [done|lia]|lia|lia].
Qed.
End copies.

(** A copy out of the kernel, and a copy into it. *)
Lemma copyout_range s p a bs :
  user_range s p a (Z.of_nat (length bs)) true ->
  copyout p a bs s =
  Ret 0 (with_phys (ustore (fun k => user_pa (phys (k_mem s)) (ptbr_at s p) (a + k)) 0 bs (phys (k_mem s))) s).
Proof.
  intros R. unfold copyout. rewrite (run_bind _ _ _ _ _ (user_access_ok_range _ _ _ _ _ R)). cbn [negb].
  pose proof (copyout_loop_range s p a _ true R bs (phys (k_mem s)) 0 (range_mem_refl _ _ _ _)
    ltac:(lia) ltac:(lia) eq_refl) as Hc.
  rewrite with_phys_id, Z.add_0_r in Hc. by rewrite (run_bind _ _ _ _ _ Hc).
Qed.

Lemma user_range_stable s p a n w m' :
  user_range s p a n w -> range_mem s p a n m' -> user_range (with_phys m' s) p a n w.
Proof.
  intros R Hm. pose proof (fun k => range_ok s p a n w R m' k Hm) as Ho.
  pose proof (fun k => range_walk s p a n w R m' k Hm) as Hw.
  split; try apply R.
  - intros k Hk. by apply Ho.
  - intros k Hk. destruct (Ho k Hk) as [_ Heq]. change (0 <= user_pa m' (ptbr_at s p) (a + k) < CFG_USER_BASE).
    rewrite Heq. by apply (ur_kernel _ _ _ _ _ R).
  - intros i j Hi Hj. destruct (Ho j Hj) as [_ Heq]. destruct (Hw i Hi) as [H1 H2].
    change (off_walk m' (ptbr_at s p) (a + i) (user_pa m' (ptbr_at s p) (a + j))).
    rewrite Heq. unfold off_walk. rewrite H1. by apply (ur_tables _ _ _ _ _ R).
  - intros i j Hi Hj. destruct (Ho i Hi) as [_ E1]. destruct (Ho j Hj) as [_ E2].
    change (user_pa m' (ptbr_at s p) (a + i) = user_pa m' (ptbr_at s p) (a + j) -> i = j).
    rewrite E1, E2. by apply (ur_inj _ _ _ _ _ R).
Qed.

Lemma copyin_range s p a n :
  user_range s p a n false ->
  copyin p a n s =
  Ret (Some ((fun k => phys (k_mem s) (user_pa (phys (k_mem s)) (ptbr_at s p) (a + k))) <$> seqZ 0 n)) s.
Proof.
  intros R. unfold copyin. rewrite (run_bind _ _ _ _ _ (user_access_ok_range _ _ _ _ _ R)). cbn [negb].
  pose proof (ur_bounds _ _ _ _ _ R) as (_ & Hn & _).
  pose proof (copyin_loop_range s p a n false R (phys (k_mem s)) (Z.to_nat n) 0 (range_mem_refl _ _ _ _)
    ltac:(lia) ltac:(lia) eq_refl) as Hc.
  rewrite with_phys_id, Z.add_0_r, Z2Nat.id in Hc by lia. by rewrite (run_bind _ _ _ _ _ Hc).
Qed.
End with_vnodes.

(** Copy out, then in. *)
Lemma copyout_back `{Linkage} s p a bs :
  user_range s p a (Z.of_nat (length bs)) true -> Forall is_byte bs ->
  wp (copyout p a bs) (fun r s' =>
    r = 0 /\ (exists m, s' = with_phys m s /\ range_mem s p a (Z.of_nat (length bs)) m) /\
    copyin p a (Z.of_nat (length bs)) s' = Ret (Some bs) s') s.
Proof.
  intros R Hb. apply (wpm_intro _ _ _ _ _ (copyout_range s p a bs R)).
  set (φ := fun k => user_pa _ _ _). set (m' := ustore _ _ _ _).
  assert (Hm : range_mem s p a (Z.of_nat (length bs)) m').
  { intros x Hx. apply ustore_other. intros k Hk. apply Hx. lia. }
  split; [done|]. split; [by exists m'|].
  pose proof (user_range_stable _ _ _ _ _ _ R Hm) as R'.
  rewrite copyin_range by by eapply user_range_read. do 2 f_equal.
  rewrite <-(bytes_mod_id bs) at 2 by done.
  rewrite <-(ustore_bytes φ 0 bs (phys (k_mem s))).
  - apply list_fmap_ext. intros i k Hk. apply lookup_seqZ in Hk as [-> Hk].
    change (m' (user_pa m' (ptbr_at s p) (a + (0 + Z.of_nat i))) = m' (φ (0 + Z.of_nat i))).
    f_equal. eapply range_ok; [exact R|exact Hm|lia].
  - intros j k Hj Hk. apply (ur_inj _ _ _ _ _ R); lia.
Qed.

(** C28: what [copyout] stores in an accessible user range is what [copyin] reads
    back, byte for byte; the copy returns 0 and changes no other byte of memory
    and nothing else of the kernel. *)
Theorem copyout_copyin `{Linkage} s p a bs :
  user_range s p a (Z.of_nat (length bs)) true -> Forall is_byte bs ->
  wp (copyout p a bs) (fun r s' =>
    r = 0 /\ (exists m, s' = with_phys m s /\ range_mem s p a (Z.of_nat (length bs)) m) /\
    copyin p a (Z.of_nat (length bs)) s' = Ret (Some bs) s') s.
Proof. exact (copyout_back s p a bs). Qed.

(** C29: a user pointer never reaches kernel memory: a range that is not inside the
    user half is rejected by every copy before anything is read or written. *)
Theorem copies_reject_kernel `{Linkage} s p a n (w : bool) bs :
  a < CFG_USER_BASE \/ CFG_USER_END < a \/ n < 0 \/ CFG_USER_END - a < n ->
  n = Z.of_nat (length bs) ->
  user_access_ok p a n w s = Ret false s /\
  copyin p a n s = Ret None s /\
  copyout p a bs s = Ret (- CFG_EFAULT) s.
Proof.
  intros Hr Hn. assert (H0 : forall w, user_access_ok p a n w s = Ret false s).
  { intros w'. unfold user_access_ok.
    destruct (Z.ltb_spec n 0); [done|]. destruct (Z.ltb_spec a CFG_USER_BASE); [done|].
    destruct (Z.ltb_spec CFG_USER_END a); [done|]. cbn [orb].
    destruct (Z.ltb_spec (CFG_USER_END - a) n); [done|lia]. }
  split; [done|]. unfold copyin, copyout. rewrite <-Hn.
  by rewrite !(run_bind _ _ _ _ _ (H0 _)).
Qed.

Lemma copies_reject_kernel_witness :
  @copyout Sched.idle_linkage 0 0x100000 [1; 2] kernel0 = Ret (- CFG_EFAULT) kernel0.
Proof.
  apply (@copies_reject_kernel Sched.idle_linkage kernel0 0 0x100000 2 true [1; 2]); [left; clia|done].
Defined.

(** ** Witness: process 0 has one user page, frame 0x200000 *)

Definition demo_user : kernel :=
  slot_upd 0 (fun p => p <| p_state := CFG_ST_RUNNABLE |>
                         <| p_vm ::= fun v => v <| ptbr := CFG_FRAME_POOL_BASE |> |>)
    (with_phys
       (pwrite32 (pwrite32 (phys (k_mem demo_space)) (CFG_FRAME_POOL_BASE + 64) 0x101007) 0x101000 0x200007)
       demo_space) <| k_procs ::= fun r => r <| nproc := 1 |> |>.

Lemma demo_user_walk v : v / 4096 = CFG_USER_BASE / 4096 ->
  pde_at (ptbr_at demo_user 0) v = CFG_FRAME_POOL_BASE + 64 /\
  pread32 (phys (k_mem demo_user)) (CFG_FRAME_POOL_BASE + 64) = 0x101007 /\
  pte_at 0x101007 v = 0x101000 /\ pread32 (phys (k_mem demo_user)) 0x101000 = 0x200007 /\
  user_pa (phys (k_mem demo_user)) (ptbr_at demo_user 0) v = 0x200000 + v mod 4096.
Proof.
  intros Hv. destruct (same_page_walk (ptbr_at demo_user 0) v CFG_USER_BASE (phys (k_mem demo_user)) Hv) as [H1 H2].
  assert (E1 : pde_at (ptbr_at demo_user 0) CFG_USER_BASE = CFG_FRAME_POOL_BASE + 64) by (vm_compute; reflexivity).
  assert (E2 : pread32 (phys (k_mem demo_user)) (CFG_FRAME_POOL_BASE + 64) = 0x101007) by (vm_compute; reflexivity).
  assert (E3 : pread32 (phys (k_mem demo_user)) 0x101000 = 0x200007) by (vm_compute; reflexivity).
  rewrite E1 in H1, H2. rewrite H1, E2 in H2. change (pte_at 0x101007 CFG_USER_BASE) with 0x101000 in H2.
  unfold user_pa. rewrite H1, E2, H2, E3. split_and!; try done.
  change (pte_addr 0x200007) with 0x200000. change 4095 with (Z.ones 12). by rewrite Z.land_ones by lia.
Qed.

(** Every range inside the page. *)
Lemma demo_user_range a n :
  CFG_USER_BASE <= a -> 0 <= n -> a + n <= CFG_USER_BASE + 4096 -> user_range demo_user 0 a n true.
Proof.
  intros Ha Hn He.
  assert (Hp : forall k, 0 <= k < n -> (a + k) / 4096 = CFG_USER_BASE / 4096).
  { intros k Hk. change (CFG_USER_BASE / 4096) with 16384.
    symmetry. apply (Z.div_unique _ _ _ (a + k - CFG_USER_BASE)); clia. }
  pose proof (fun k Hk => demo_user_walk (a + k) (Hp k Hk)) as Hw.
  assert (Hpa : forall k, 0 <= k < n ->
    user_pa (phys (k_mem demo_user)) (ptbr_at demo_user 0) (a + k) = 0x200000 + (a + k - CFG_USER_BASE)).
  { intros k Hk. destruct (Hw k Hk) as (_ & _ & _ & _ & ->). f_equal.
    symmetry. apply (Z.mod_unique _ _ 16384); clia. }
  split.
  - split; reflexivity.
  - split; [done|]. split; [done|]. clia.
  - intros k Hk. destruct (Hw k Hk) as (E1 & E2 & E3 & E4 & _). unfold user_page_ok.
    by rewrite E1, E2, E3, E4.
  - intros k Hk. rewrite Hpa by done. clia.
  - intros i j Hi Hj. destruct (Hw i Hi) as (E1 & E2 & E3 & _). unfold off_walk.
    rewrite E1, E2, E3, Hpa by done. clia.
  - intros i j Hi Hj. rewrite !Hpa by done. lia.
Qed.

(** A range depends on the memory and on the tables of the process only. *)
Lemma user_range_ext s s' p a n w :
  phys (k_mem s') = phys (k_mem s) -> ptbr_at s' p = ptbr_at s p -> nproc (k_procs s') = nproc (k_procs s) ->
  user_range s p a n w -> user_range s' p a n w.
Proof. intros E1 E2 E3 []. split; rewrite ?E1, ?E2, ?E3; done. Qed.

Lemma ptbr_at_slot s q g p : (forall r, p_vm (g r) = p_vm r) -> ptbr_at (slot_upd q g s) p = ptbr_at s p.
Proof.
  intros Hg. unfold ptbr_at, vm_at. destruct (Z.eq_dec q p) as [->|Hne].
  - by rewrite proc_at_slot_upd, Hg.
  - by rewrite proc_at_slot_upd_ne.
Qed.

(** So it survives an update of a slot that keeps its memory map. *)
Lemma user_range_slot s q g p a n w :
  (forall r, p_vm (g r) = p_vm r) -> user_range s p a n w -> user_range (slot_upd q g s) p a n w.
Proof.
  intros Hg. apply user_range_ext; [done| |done]. by apply ptbr_at_slot.
Qed.

Lemma copyin_slot `{Linkage} s q g p a n bs :
  (forall r, p_vm (g r) = p_vm r) -> user_range s p a n false -> copyin p a n s = Ret (Some bs) s ->
  copyin p a n (slot_upd q g s) = Ret (Some bs) (slot_upd q g s).
Proof.
  intros Hg R. pose proof (user_range_slot s q g _ _ _ _ Hg R) as R'.
  rewrite (copyin_range _ _ _ _ R), (copyin_range _ _ _ _ R'), ptbr_at_slot by done.
  intros [= <-]. done.
Qed.

Lemma copyout_copyin_witness :
  wp (@copyout Sched.idle_linkage 0 CFG_USER_BASE [65; 66]) (fun r s' =>
    r = 0 /\ @copyin Sched.idle_linkage 0 CFG_USER_BASE 2 s' = Ret (Some [65; 66]) s') demo_user.
Proof.
  eapply wp_mono.
  - apply (@copyout_copyin Sched.idle_linkage demo_user 0 CFG_USER_BASE [65; 66]).
    + apply demo_user_range; cbn [length]; clia.
    + repeat constructor; lia.
  - intros r s' (H1 & _ & H2). by split.
Defined.

(** * A write to a copy-on-write page

    The page gets a private frame with the contents of the shared one, which loses
    one reference; the rest of the address space is as before. *)

(** Page [v] of directory [pd] is present and copy-on-write, and its frame is in use
    and is not one of the directory's own tables. *)
Record cow_page (ms : mem_state) (fl : list Z) (pd v : Z) : Prop := {
  cow_space : space_ok ms fl pd;
  cow_user : user_addr v;
  cow_pde : has (pread32 (phys ms) (pde_at pd v)) 1 = true;
  cow_pte : has (pread32 (phys ms) (pte_at (pread32 (phys ms) (pde_at pd v)) v)) 1 = true;
  cow_bit : has (pread32 (phys ms) (pte_at (pread32 (phys ms) (pde_at pd v)) v)) CFG_PTE_COW = true;
  cow_used : used_frame ms fl (pte_addr (pread32 (phys ms) (pte_at (pread32 (phys ms) (pde_at pd v)) v)));
  cow_apart : ~ table_frame ms pd (pte_addr (pread32 (phys ms) (pte_at (pread32 (phys ms) (pde_at pd v)) v))) }.

(** The frame of the page. *)
Definition page_frame (ms : mem_state) (pd v : Z) : Z :=
  pte_addr (pread32 (phys ms) (pte_at (pread32 (phys ms) (pde_at pd v)) v)).

(** What the fault does: the page has the new frame [f], with the old contents, in an entry
    that is present, writable and the user's; all other entries and the directory are as
    before.  No byte of memory changes but those of [f], the entry itself, and the link in
    the old frame when it becomes free; so every other address space, whose tables are not
    there, is as before, entry by entry. *)
Definition cow_done (s : kernel) (fl : list Z) (pd v f : Z) (s' : kernel) : Prop :=
  let old := page_frame (k_mem s) pd v in
  let pte := pte_at (pread32 (phys (k_mem s)) (pde_at pd v)) v in
  mem_only s s' /\ frame_is_free (k_mem s) fl f /\
  (forall a, 0 <= a < 2 ^ 32 -> leaf (phys (k_mem s')) pd a =
     if a / 4096 =? v / 4096 then Z.lor f CFG_PTE_USER else leaf (phys (k_mem s)) pd a) /\
  (forall a, dir_flags (phys (k_mem s')) pd a = dir_flags (phys (k_mem s)) pd a) /\
  (forall b, (b < f \/ f + 4096 <= b) -> (b < pte \/ pte + 4 <= b) ->
     (b < old \/ old + 4 <= b \/ frame_refs (k_mem s) (old / 4096) <> 1) -> phys (k_mem s') b = phys (k_mem s) b) /\
  (forall pd' fl', space_ok (k_mem s) fl' pd' -> (forall g, table_frame (k_mem s) pd' g -> used_frame (k_mem s) fl g) ->
     (forall g, table_frame (k_mem s) pd' g -> ~ table_frame (k_mem s) pd g /\ g <> old) ->
     forall a, leaf (phys (k_mem s')) pd' a = leaf (phys (k_mem s)) pd' a /\
       dir_flags (phys (k_mem s')) pd' a = dir_flags (phys (k_mem s)) pd' a) /\
  (forall a w, 0 <= a < 2 ^ 32 -> mmu_translate (phys (k_mem s')) pd a w =
     if a / 4096 =? v / 4096 then Some (f + Z.land a 4095)
     else mmu_translate (phys (k_mem s)) pd a w) /\
  (forall i, 0 <= i < 4096 -> phys (k_mem s') (f + i) = phys (k_mem s) (old + i)) /\
  (frame_refs (k_mem s) (old / 4096) <> 1 ->
   forall i, 0 <= i < 4096 -> phys (k_mem s') (old + i) = phys (k_mem s) (old + i)) /\
  frame_refs (k_mem s') (f / 4096) = 1 /\
  frame_refs (k_mem s') (old / 4096) = frame_refs (k_mem s) (old / 4096) - 1 /\
  (forall g, g <> f / 4096 -> g <> old / 4096 -> frame_refs (k_mem s') g = frame_refs (k_mem s) g) /\
  exists fl', frames_inv (k_mem s') fl' /\ space_ok (k_mem s') fl' pd.

Lemma copy_range_other m dst src n b : b < dst \/ dst + n <= b -> copy_range m dst src n b = m b.
Proof.
  intros H. unfold copy_range. destruct (Z.leb_spec dst b), (Z.ltb_spec b (dst + n)); simpl; done || lia.
Qed.

Lemma copy_range_inside m dst src n i : 0 <= i < n -> copy_range m dst src n (dst + i) = m (src + i).
Proof.
  intros H. unfold copy_range. destruct (Z.leb_spec dst (dst + i)), (Z.ltb_spec (dst + i) (dst + n)); [|lia..].
  simpl. f_equal. lia.
Qed.

(** The writable entry of a used frame. *)
Lemma cow_entry ms fl f : frames_inv ms fl -> used_frame ms fl f ->
  is_i32 (Z.lor f CFG_PTE_USER) /\ forall a w,
  entry_translate (Z.lor f CFG_PTE_USER) a w = Some (f + Z.land a 4095).
Proof.
  intros I1 [[Hb Ha] _]. pose proof (fi_next _ _ I1).
  destruct (map_entry f CFG_PTE_USER Ha ltac:(clia) ltac:(clia)) as [H1 H2].
  rewrite (pte_addr_aligned f Ha) in H1, H2.
  replace (Z.lor (Z.lor f CFG_PTE_USER) 1) with (Z.lor f CFG_PTE_USER) in H1, H2 by (by rewrite <-Z.lor_assoc).
  split; [done|]. intros a w. rewrite H2. replace (has CFG_PTE_USER 2) with true by done.
  by rewrite andb_false_r.
Qed.

(** ** The three steps after the allocation: copy, new entry, drop the old frame *)
Section cow.
Context (s s1 : kernel) (fl fl1 : list Z) (pd v f : Z).
Context (I : frames_inv (k_mem s) fl) (C : cow_page (k_mem s) fl pd v).
Context (Hphys : phys (k_mem s1) = phys (k_mem s)) (Hfree : frame_is_free (k_mem s) fl f).
Context (I1 : frames_inv (k_mem s1) fl1) (Hf : used_frame (k_mem s1) fl1 f).
Context (Hpres : forall g, used_frame (k_mem s) fl g -> used_frame (k_mem s1) fl1 g).
Let m := phys (k_mem s).
Let old := page_frame (k_mem s) pd v.
Let pde := pread32 m (pde_at pd v).
Let s2 := with_phys (copy_range m f old 4096) s1.
Let s3 := with_phys (pwrite32 (copy_range m f old 4096) (pte_at pde v) (Z.lor f CFG_PTE_USER)) s1.

Lemma cow_old_apart g : used_frame (k_mem s) fl g -> g + 4096 <= f \/ f + 4096 <= g.
Proof using I Hfree. intros Hg. by apply (used_not_free (k_mem s) fl). Qed.

Lemma cow_copy_other a : a < f \/ f + 4096 <= a -> phys (k_mem s2) a = m a.
Proof using Type. apply copy_range_other. Qed.

Lemma cow_copy_tables g a : table_frame (k_mem s) pd g -> g <= a < g + 4096 -> phys (k_mem s2) a = m a.
Proof using I C Hfree.
  intros Hg Ha. apply cow_copy_other.
  destruct (cow_old_apart g (table_frame_used _ _ _ _ (cow_space _ _ _ _ C) Hg)); lia.
Qed.

Lemma cow_copy_low a : a < CFG_FRAME_POOL_BASE -> phys (k_mem s2) a = m a.
Proof using Hf. intros Ha. apply cow_copy_other. destruct Hf as [Hp _]. apply pool_frame_base in Hp. lia. Qed.

Lemma cow_copy_inv : frames_inv (k_mem s2) fl1.
Proof using I1 Hf Hphys.
  eapply (frames_inv_used s1); [done|exact Hf|]. intros a Ha. rewrite Hphys. by apply cow_copy_other.
Qed.

Lemma cow_copy_space : space_ok (k_mem s2) fl1 pd.
Proof using I C Hfree Hpres.
  apply (space_ext_ok (k_mem s) _ fl); [apply C|exact cow_copy_tables|].
  intros g Hg. apply Hpres. eapply table_frame_used; [apply C|done].
Qed.

Lemma cow_copy_leaf a : leaf (phys (k_mem s2)) pd a = leaf m pd a.
Proof using I C Hfree Hf.
  apply (space_ext_leaf (k_mem s) _ fl); [apply C|exact cow_copy_low|exact cow_copy_tables].
Qed.

Lemma cow_copy_flags a : dir_flags (phys (k_mem s2)) pd a = dir_flags m pd a.
Proof using I C Hfree. apply (space_ext_flags (k_mem s)). exact cow_copy_tables. Qed.

Lemma cow_copy_pde d : 0 <= d < 1024 -> pread32 (phys (k_mem s2)) (pd + d * 4) = pread32 m (pd + d * 4).
Proof using I C Hfree. apply (space_ext_pde (k_mem s)). exact cow_copy_tables. Qed.

Lemma cow_copy_pde_v : pread32 (phys (k_mem s2)) (pde_at pd v) = pde.
Proof using I C Hfree. apply cow_copy_pde, dir_index_range. Qed.

Lemma cow_tables_kept g : table_frame (k_mem s3) pd g -> table_frame (k_mem s) pd g.
Proof using I C Hfree Hpres.
  assert (Heq : forall d, 0 <= d < 1024 ->
    pread32 (phys (k_mem s3)) (pd + d * 4) = pread32 m (pd + d * 4)).
  { intros d Hd. pose proof cow_copy_pde_v as Hpde. rewrite <-cow_copy_pde by done.
    pose proof (entry_pde (k_mem s2) fl1 pd v (Z.lor f CFG_PTE_USER) cow_copy_space
      (cow_user _ _ _ _ C)) as H. rewrite Hpde in H. apply H; [apply C|done]. }
  intros [->|(d & Hd & Hb & ->)]; [by left|]. right. exists d. rewrite Heq in Hb by clia.
  rewrite Heq by clia. done.
Qed.

(** After the new entry: allocator, space and translations. *)
Lemma cow_written :
  frames_inv (k_mem s3) fl1 /\ space_ok (k_mem s3) fl1 pd /\
  (forall a, 0 <= a < 2 ^ 32 -> leaf (phys (k_mem s3)) pd a =
     if a / 4096 =? v / 4096 then Z.lor f CFG_PTE_USER else leaf m pd a) /\
  (forall a, dir_flags (phys (k_mem s3)) pd a = dir_flags m pd a).
Proof using I C Hfree Hpres I1 Hf Hphys.
  pose proof cow_copy_pde_v as Hpde.
  assert (Hp2 : has (pread32 (phys (k_mem s2)) (pde_at pd v)) 1 = true) by (rewrite Hpde; apply C).
  pose proof (cow_user _ _ _ _ C) as Hv. destruct (cow_entry _ _ _ I1 Hf) as [He _].
  destruct (entry_table (k_mem s2) fl1 pd v cow_copy_space Hv Hp2) as [Hu _].
  pose proof (entry_inside (k_mem s2) pd v (Z.lor f CFG_PTE_USER)) as Hin.
  pose proof (entry_space_ok (k_mem s2) fl1 pd v (Z.lor f CFG_PTE_USER) cow_copy_space Hv Hp2) as So3.
  pose proof (fun a => entry_same (k_mem s2) fl1 pd v _ cow_copy_space Hv He Hp2 a) as Hsame.
  pose proof (fun a => entry_others (k_mem s2) fl1 pd v (Z.lor f CFG_PTE_USER) cow_copy_space Hv Hp2 a) as Hoth.
  pose proof (fun a => entry_flags (k_mem s2) fl1 pd v (Z.lor f CFG_PTE_USER) cow_copy_space Hv Hp2 a) as Hflg.
  rewrite Hpde in *. split; [|split; [exact So3|split]].
  - eapply (frames_inv_used s2); [apply cow_copy_inv|exact Hu|exact Hin].
  - intros a Ha. destruct (Z.eqb_spec (a / 4096) (v / 4096)) as [E|E]; [by apply Hsame|].
    rewrite <-cow_copy_leaf. by apply Hoth.
  - intros a. rewrite <- cow_copy_flags. apply Hflg.
Qed.

(** The page table is none of the two data frames, so both keep their bytes. *)
Lemma cow_bytes g a : used_frame (k_mem s1) fl1 g -> ~ table_frame (k_mem s) pd g -> g <= a < g + 4096 ->
  phys (k_mem s3) a = phys (k_mem s2) a.
Proof using C Hpres.
  intros Hg Hnt Ha. pose proof (user_dir v (cow_user _ _ _ _ C)) as Hd.
  assert (Htf : table_frame (k_mem s) pd (pte_addr pde)).
  { right. exists (dir_index v). split; [done|]. split; [apply C|done]. }
  pose proof (Hpres _ (table_frame_used _ _ _ _ (cow_space _ _ _ _ C) Htf)) as Hu.
  apply pwrite32_other. unfold pte_at. pose proof (table_index_range v).
  destruct (used_disjoint _ _ _ _ Hg Hu); [congruence|lia|lia].
Qed.
End cow.

(** Dropping the last or another reference to a frame that is no table of the space. *)
Lemma drop_keeps_space s fl pd g s' :
  space_ok (k_mem s) fl pd -> used_frame (k_mem s) fl g -> ~ table_frame (k_mem s) pd g ->
  dropped s fl g s' ->
  space_ok (k_mem s') (if frame_refs (k_mem s) (g / 4096) =? 1 then g :: fl else fl) pd /\
  forall a, leaf (phys (k_mem s')) pd a = leaf (phys (k_mem s)) pd a /\ dir_flags (phys (k_mem s')) pd a = dir_flags (phys (k_mem s)) pd a.
Proof.
  intros So [Hg Hgn] Hnt ((l & r & m & ->) & _ & _ & Hm & _).
  assert (Ht : forall f a, table_frame (k_mem s) pd f -> f <= a < f + 4096 -> m a = phys (k_mem s) a).
  { intros f a Hf Ha. apply Hm. destruct (table_frame_used _ _ _ _ So Hf) as [Hpf Hnf].
    destruct (used_disjoint (k_mem s) fl f g); [done|done|congruence|lia|lia]. }
  split.
  - apply (space_ext_ok (k_mem s) _ fl); [done|exact Ht|]. intros f Hf.
    destruct (table_frame_used _ _ _ _ So Hf) as [Hpf Hnf]. split; [exact Hpf|].
    destruct (_ =? 1); [|done]. apply not_elem_of_cons. split; [congruence|done].
  - intros a. split; [|by apply (space_ext_flags (k_mem s))]. apply (space_ext_leaf (k_mem s) _ fl); [done| |exact Ht].
    intros b Hb. apply Hm. left. pose proof (pool_frame_base _ _ Hg). lia.
Qed.

(** What the fault writes is in no table of another space. *)
Lemma cow_other_space s fl pd v f m' :
  cow_page (k_mem s) fl pd v -> frames_inv (k_mem s) fl -> frame_is_free (k_mem s) fl f -> CFG_FRAME_POOL_BASE <= f ->
  let old := page_frame (k_mem s) pd v in
  let pte := pte_at (pread32 (phys (k_mem s)) (pde_at pd v)) v in
  (forall b, (b < f \/ f + 4096 <= b) -> (b < pte \/ pte + 4 <= b) ->
     (b < old \/ old + 4 <= b \/ frame_refs (k_mem s) (old / 4096) <> 1) -> m' b = phys (k_mem s) b) ->
  forall pd' fl', space_ok (k_mem s) fl' pd' -> (forall g, table_frame (k_mem s) pd' g -> used_frame (k_mem s) fl g) ->
    (forall g, table_frame (k_mem s) pd' g -> ~ table_frame (k_mem s) pd g /\ g <> old) ->
    forall a, leaf m' pd' a = leaf (phys (k_mem s)) pd' a /\ dir_flags m' pd' a = dir_flags (phys (k_mem s)) pd' a.
Proof.
  intros C I Hfree Hf old pte Hframe pd' fl' So' Hu' Hapart a. pose proof (user_dir v (cow_user _ _ _ _ C)) as Hd.
  set (pt := pte_addr (pread32 (phys (k_mem s)) (pde_at pd v))).
  assert (Hpt : table_frame (k_mem s) pd pt) by (right; exists (dir_index v); split; [done|]; split; [apply C|done]).
  pose proof (table_frame_used _ _ _ _ (cow_space _ _ _ _ C) Hpt) as Hptu.
  pose proof (cow_used _ _ _ _ C : used_frame (k_mem s) fl old) as Holdu.
  assert (Hpte : pt <= pte /\ pte + 4 <= pt + 4096) by (unfold pte, pte_at; fold pt; pose proof (table_index_range v); lia).
  assert (Htab : forall g b, table_frame (k_mem s) pd' g -> g <= b < g + 4096 -> m' b = phys (k_mem s) b).
  { intros g b Hg Hb. destruct (Hapart g Hg) as [Hnt Hno]. pose proof (Hu' g Hg) as Hgu. apply Hframe.
    - destruct (cow_old_apart s fl f I Hfree g Hgu); lia.
    - destruct (used_disjoint (k_mem s) fl g pt Hgu Hptu); [congruence|lia|lia].
    - destruct (used_disjoint (k_mem s) fl g old Hgu Holdu Hno); lia. }
  assert (Hlow : forall b, b < CFG_FRAME_POOL_BASE -> m' b = phys (k_mem s) b).
  { intros b Hb. pose proof (pool_frame_base _ _ (proj1 Hptu)). pose proof (pool_frame_base _ _ (proj1 Holdu)). apply Hframe; lia. }
  split.
  - apply (space_ext_leaf (k_mem s) (k_mem (with_phys m' s)) fl' pd' So' Hlow Htab).
  - apply (space_ext_flags (k_mem s) (k_mem (with_phys m' s)) pd' Htab).
Qed.

Section with_linkage.
Context {L : Linkage}.

Lemma wp_cow s fl p v error (Q : Z -> kernel -> Prop) :
  frames_inv (k_mem s) fl -> 0 < free_count (k_mem s) fl ->
  let pd := ptbr_at s p in
  let pde := pread32 (phys (k_mem s)) (pde_at pd v) in
  cow_page (k_mem s) fl pd v -> has error 2 = true ->
  (vm_area_index s p v <? 0) || has (va_prot (area_at s p (vm_area_index s p v))) CFG_PROT_WRITE = true ->
  (forall f s', cow_done s fl pd v f s' -> Q 0 s') ->
  wp (fault_present p v (pread32 (phys (k_mem s)) (pte_at pde v)) (pte_at pde v) error) Q s.
Proof.
  intros I Hc pd pde C Herr Harea HQ. subst pde. clearbody pd. unfold fault_present. rewrite Herr. cbn [negb]. wp_auto.
  replace ((vm_area_index s p v >=? 0) && negb (has (va_prot (area_at s p (vm_area_index s p v))) CFG_PROT_WRITE))
    with false by (destruct (has (va_prot _) _); lia || (rewrite orb_false_r in Harea; lia)).
  rewrite (cow_bit _ _ _ _ C). apply wp_bind, (wp_frame_available s fl); [done|].
  intros b Hb. rewrite (proj2 Hb Hc). cbn [negb]. cbv zeta. fold (page_frame (k_mem s) pd v).
  destruct (alloc_frame_allocated s fl I Hc) as (f & s1 & E & H1). apply wp_bind.
  apply (wpm_intro _ _ _ _ _ E).
  destruct H1 as ((l & n & r & ->) & Hp & Hfree & Hr & Hr' & fl1 & I1 & Hu & Hpres & _).
  unfold copy_page, kwrite32. wp_auto. set (s1 := s <| k_mem ::= _ |>) in *.
  set (old := page_frame _ _ _) in *.
  change (wp (free_frame old) (fun _ s' => wp (mret 0) Q s') (with_phys (pwrite32 (copy_range (phys (k_mem s)) f old 4096)
    (pte_at (pread32 (phys (k_mem s)) (pde_at pd v)) v) (Z.lor f CFG_PTE_USER)) s1)).
  destruct (cow_written s s1 fl fl1 pd v f I C eq_refl Hfree I1 Hu Hpres) as (I3 & So3 & Hlf & Hfg).
  pose proof (cow_bytes s s1 fl fl1 pd v f C Hpres) as Hbytes.
  pose proof (cow_tables_kept s s1 fl fl1 pd v f I C Hfree Hpres) as Hkept.
  set (s3 := with_phys _ _) in *.
  pose proof (Hpres _ (cow_used _ _ _ _ C)) as Hold. fold (page_frame (k_mem s) pd v) in Hold. fold old in Hold.
  assert (Hnt : ~ table_frame (k_mem s3) pd old) by (intros H; by apply (cow_apart _ _ _ _ C), Hkept).
  destruct (free_frame_dropped s3 fl1 old I3 (proj1 Hold) (proj2 Hold)) as (s4 & E4 & D).
  apply (wpm_intro _ _ _ _ _ E4). wp_auto. apply (HQ f).
  destruct (drop_keeps_space s3 fl1 pd old s4 So3 Hold Hnt D) as [So4 Hv4].
  destruct D as ((l4 & r4 & m4 & ->) & Hrf & Hro & Hm & I4).
  assert (Hne : forall g, used_frame (k_mem s) fl g -> g <> f).
  { intros g Hg ->. destruct (cow_old_apart s fl f I Hfree f Hg); lia. }
  assert (Hof : old / 4096 <> f / 4096).
  { intros Heq. apply (Hne old (cow_used _ _ _ _ C)). destruct Hold as [[_ ?] _], Hp as [_ ?].
    by apply frame_slot_inj. }
  assert (Hra : frame_refs (k_mem s3) (old / 4096) = frame_refs (k_mem s) (old / 4096)) by by apply Hr'.
  assert (Hdis : old + 4096 <= f \/ f + 4096 <= old) by (apply (used_disjoint _ _ _ _ Hold Hu); congruence).
  assert (Hframe : forall b, (b < f \/ f + 4096 <= b) -> (b < pte_at (pread32 (phys (k_mem s)) (pde_at pd v)) v \/ pte_at (pread32 (phys (k_mem s)) (pde_at pd v)) v + 4 <= b) ->
    (b < old \/ old + 4 <= b \/ frame_refs (k_mem s) (old / 4096) <> 1) -> m4 b = phys (k_mem s) b).
  { intros x Hx1 Hx2 Hx3. rewrite Hm by (rewrite Hra; tauto). etrans; [by apply pwrite32_other|]. by apply copy_range_other. }
  split; [eexists; reflexivity|]. split; [done|].
  split; [intros a Ha; rewrite (proj1 (Hv4 a)); by apply Hlf|]. split; [intros a; rewrite (proj2 (Hv4 a)); by apply Hfg|].
  split; [exact Hframe|]. split; [eapply (cow_other_space s fl pd v f m4 C I Hfree); [by eapply pool_frame_base|exact Hframe]|]. split; [intros a w Ha|split; [|split; [|split; [|split; [|split]]]]].
  - rewrite translate_leaf, (proj1 (Hv4 a)), Hlf by done. destruct (a / 4096 =? v / 4096); [|by rewrite translate_leaf].
    apply (cow_entry _ _ _ I1 Hu).
  - intros i Hi. rewrite Hm by lia. rewrite (Hbytes f); [by apply copy_range_inside|done| |lia].
    intros Ht. eapply Hne; [eapply table_frame_used; [apply C|exact Ht]|done].
  - intros Hsh i Hi. rewrite Hm by (rewrite Hra; tauto). rewrite (Hbytes old); [|done|apply C|lia].
    apply copy_range_other. fold old. lia.
  - rewrite Hro by congruence. exact Hr.
  - etrans; [exact Hrf|]. by rewrite Hra.
  - intros g Hgf Hgo. etrans; [by apply Hro|]. by apply Hr'.
  - eexists. split; [exact I4|exact So4].
Qed.
End with_linkage.

(** C25: a write fault on a copy-on-write page succeeds whenever a frame is free:
    the page then has a frame that nobody else has, present, writable and the user's, with
    the bytes of the old one; the old frame loses one reference and keeps its bytes for
    its other users; every other entry of the space is as before, every other space whose
    tables lie in other frames is as before, and no other byte of memory changes; allocator
    and address space stay well formed. *)
Theorem copy_on_write `{Linkage} s fl p address error :
  frames_inv (k_mem s) fl -> 0 < free_count (k_mem s) fl ->
  0 <= p < nproc (k_procs s) ->
  CFG_USER_BASE <= pte_addr address < CFG_USER_STACK_TOP ->
  cow_page (k_mem s) fl (ptbr_at s p) (pte_addr address) -> has error 2 = true ->
  let area := vm_area_index s p (pte_addr address) in
  (area <? 0) || has (va_prot (area_at s p area)) CFG_PROT_WRITE = true ->
  wp (vm_handle_page_fault p address error) (fun r s' => r = 0 /\
    exists f, cow_done s fl (ptbr_at s p) (pte_addr address) f s') s.
Proof.
  intros I Hc Hp Ha C Herr area Harea. unfold vm_handle_page_fault. wp_auto.
  replace (_ || (_ >=? CFG_USER_STACK_TOP)) with false by (symmetry; rewrite !orb_false_iff; lia).
  wp_auto.
  unfold kread32. wp_auto. rewrite (cow_pde _ _ _ _ C). wp_auto. rewrite (cow_pte _ _ _ _ C).
  apply (wp_cow s fl p); [done..|]. intros f s' D. split; [done|]. by exists f.
Qed.

(** ** Witness: two processes share frame 0x102000 *)

Definition demo_cow : kernel :=
  slot_upd 0 (fun p => p <| p_state := CFG_ST_RUNNABLE |>
                         <| p_vm ::= fun v => v <| ptbr := CFG_FRAME_POOL_BASE |> |>)
    (with_phys
       (pwrite32 (pwrite32 (phys (k_mem demo_space)) (CFG_FRAME_POOL_BASE + 64)
                    (Z.lor (CFG_FRAME_POOL_BASE + 4096) CFG_PTE_USER))
          (CFG_FRAME_POOL_BASE + 4096) (Z.lor (CFG_FRAME_POOL_BASE + 8192) (Z.lor 5 CFG_PTE_COW)))
       demo_space <| k_procs ::= fun r => r <| nproc := 1 |> |>
                  <| k_mem ::= fun r => r <| frame_next := CFG_FRAME_POOL_BASE + 12288 |>
                     <| frame_refs := upd (fun _ => 1) ((CFG_FRAME_POOL_BASE + 8192) / 4096) 2 |> |>).

Lemma demo_cow_pde d : 0 <= d < 1024 ->
  pread32 (phys (k_mem demo_cow)) (CFG_FRAME_POOL_BASE + d * 4) =
  if d =? 16 then Z.lor (CFG_FRAME_POOL_BASE + 4096) CFG_PTE_USER
  else pread32 (phys (k_mem demo_space)) (CFG_FRAME_POOL_BASE + d * 4).
Proof.
  intros Hd. change (phys (k_mem demo_cow)) with
    (pwrite32 (pwrite32 (phys (k_mem demo_space)) (CFG_FRAME_POOL_BASE + 64)
                    (Z.lor (CFG_FRAME_POOL_BASE + 4096) CFG_PTE_USER))
          (CFG_FRAME_POOL_BASE + 4096) (Z.lor (CFG_FRAME_POOL_BASE + 8192) (Z.lor 5 CFG_PTE_COW))).
  rewrite pread32_pwrite32_other by lia. destruct (Z.eqb_spec d 16) as [->|Hne].
  - rewrite pread32_pwrite32_same. done.
  - apply pread32_pwrite32_other. lia.
Qed.

Lemma demo_cow_inv : frames_inv (k_mem demo_cow) [].
Proof.
  split; [done|by apply NoDup_nil|split; discriminate|done|by intros f Hf%elem_of_nil|].
  intros f _ _. change (frame_refs (k_mem demo_cow)) with
    (upd (fun _ => 1) ((CFG_FRAME_POOL_BASE + 8192) / 4096) 2). unfold upd. destruct (_ =? _); lia.
Qed.

Lemma demo_used f : CFG_FRAME_POOL_BASE <= f < CFG_FRAME_POOL_BASE + 12288 -> f mod 4096 = 0 ->
  used_frame (k_mem demo_cow) [] f.
Proof. intros H1 H2. split; [by split|set_solver]. Qed.

Lemma demo_cow_tables d : CFG_KERNEL_IDENTITY_PTS <= d < 1024 ->
  has (pread32 (phys (k_mem demo_cow)) (CFG_FRAME_POOL_BASE + d * 4)) 1 = true ->
  d = 16 /\ pte_addr (pread32 (phys (k_mem demo_cow)) (CFG_FRAME_POOL_BASE + d * 4)) = CFG_FRAME_POOL_BASE + 4096.
Proof.
  intros Hd. rewrite demo_cow_pde by clia. destruct (Z.eqb_spec d 16) as [->|Hne]; [done|].
  by rewrite demo_space_empty by clia.
Qed.

Lemma demo_cow_page : cow_page (k_mem demo_cow) [] CFG_FRAME_POOL_BASE CFG_USER_BASE.
Proof.
  split; [|unfold user_addr; clia|vm_compute; reflexivity..| |].
  - split.
    + by apply demo_used.
    + intros d Hd. rewrite demo_cow_pde by clia. destruct (Z.eqb_spec d 16); [clia|].
      by apply (so_kernel _ _ _ demo_space_ok).
    + intros d Hd Hb. destruct (demo_cow_tables d Hd Hb) as [_ ->]. split; [by apply demo_used|done].
    + intros d d' Hd Hd' Hb Hb' _. destruct (demo_cow_tables d Hd Hb), (demo_cow_tables d' Hd' Hb'). congruence.
  - replace (pte_addr _) with (CFG_FRAME_POOL_BASE + 8192) by (vm_compute; reflexivity). by apply demo_used.
  - replace (pte_addr _) with (CFG_FRAME_POOL_BASE + 8192) by (vm_compute; reflexivity).
    intros [H|(d & Hd & Hb & Heq)]; [clia|]. destruct (demo_cow_tables d Hd Hb) as [_ E]. clia.
Qed.

Lemma copy_on_write_witness :
  wp (@vm_handle_page_fault Sched.idle_linkage 0 (CFG_USER_BASE + 8) 2) (fun r s' =>
    r = 0 /\ frame_refs (k_mem s') ((CFG_FRAME_POOL_BASE + 8192) / 4096) = 1) demo_cow.
Proof.
  eapply wp_mono.
  - apply (@copy_on_write Sched.idle_linkage demo_cow [] 0 (CFG_USER_BASE + 8) 2);
      [exact demo_cow_inv|done|split; reflexivity|split; [discriminate|reflexivity]|
       exact demo_cow_page|done|vm_compute; reflexivity].
  - intros r s' (-> & f & _ & _ & _ & _ & _ & _ & _ & _ & _ & _ & H & _). split; [done|].
    etrans; [exact H|]. vm_compute. reflexivity.
Defined.
