(* ===== verification/Mmap.v ===== *)
(** * Mmap: the heap and the mapping system calls ([memory.c], lines 661-1025)

    [vm_brk], [vm_mmap], [vm_munmap] and [vm_mprotect] with the bookkeeping of the
    CFG_MAX_VMAS areas of a process. *)

From S2P Require Import Prelude Config Kernel Klog RawMem Linkage PageTable Vm Fault.

(** The bits of [prot] that have no meaning. *)
Definition bad_prot (prot : Z) : bool :=
  has prot (bnot (Z.lor (Z.lor CFG_PROT_READ CFG_PROT_WRITE) CFG_PROT_EXEC)).

Definition vm_brk (p address : Z) : K Z :=
  v ← gets (fun s => vm_at s p) ;
  if address =? 0 then mret (brk_end v) else
  if (address <? brk_start v) || (address >=? CFG_USER_GUARD_PAGE) then mret (- CFG_ENOMEM) else
  let old_page_end := page_align_up (brk_end v) in
  let new_page_end := page_align_up address in
  free ← gets (fun s => vm_range_free s p old_page_end new_page_end) ;
  if (new_page_end >? old_page_end) && negb free then mret (- CFG_ENOMEM) else
  when (negb (new_page_end >? old_page_end))
    (for_ 0 (npages new_page_end old_page_end) (fun k =>
       pd ← gets (fun s => ptbr_at s p) ;
       unmap_page pd (new_page_end + k * 4096))) ;;
  mvm p (fun v => v <| brk_end := address |>) ;;
  mret address.

(** The first fit above the heap, or 0.  The scan moves up a page at a time and
    ends at the guard page, so it takes no more rounds than the user half has
    pages; [start + length] wraps. *)
Definition vm_find_mapping (s : kernel) (p length : Z) : Z :=
  let start := page_align_up (brk_end (vm_at s p)) in
  let fits k := start + k * 4096 +! length <=? CFG_USER_GUARD_PAGE in
  let ok k := vm_range_free s p (start + k * 4096) (start + k * 4096 +! length) in
  match find_from (fun k => negb (fits k) || ok k) 0 (npages CFG_USER_BASE CFG_USER_END) with
  | Some k => if fits k then start + k * 4096 else 0
  | None => 0
  end.

(** Checks of [vm_mmap] on the descriptor of a file mapping; 0 when they pass. *)
Definition mmap_file_error (s : kernel) (p fd offset flags prot : Z) : Z :=
  let f := p_files (proc_at s p) fd in
  if (fd <? 0) || (fd >=? CFG_NFD) || (f_type f =? CFG_FT_NONE) then - CFG_EBADF
  else if (Z.land offset 4095 !=? 0) || (offset <? 0) then - CFG_EINVAL
  else if f_readable f =? 0 then - CFG_EACCES
  else if has flags CFG_MAP_SHARED && has prot CFG_PROT_WRITE && (f_writable f =? 0) then - CFG_EACCES
  else 0.

(** The address of the new mapping, or the error. *)
Definition mmap_place (s : kernel) (p address length flags : Z) : Z + Z :=
  if has flags CFG_MAP_FIXED then
    if (Z.land address 4095 !=? 0) || (address <? CFG_USER_BASE) ||
       (address +! length <? address) || (address +! length >? CFG_USER_GUARD_PAGE)
    then inl (- CFG_EINVAL)
    else if negb (vm_range_free s p address (address +! length)) then inl (- CFG_EINVAL)
    else inr address
  else
    let a := vm_find_mapping s p length in
    if a =? 0 then inl (- CFG_ENOMEM) else inr a.

(** The body of [vm_mmap] on the six decoded arguments. *)
Definition mmap_args (p address length prot flags fd offset : Z) : K Z :=
  if (length <=? 0) || bad_prot prot then mret (- CFG_EINVAL) else
  if Bool.eqb (negb (has flags CFG_MAP_PRIVATE)) (negb (has flags CFG_MAP_SHARED))
  then mret (- CFG_EINVAL) else
  let length := page_align_up length in
  place ← gets (fun s => mmap_place s p address length flags) ;
  match place with
  | inl e => mret e
  | inr address =>
      let anon := has flags CFG_MAP_ANONYMOUS in
      err ← gets (fun s => if anon then 0 else mmap_file_error s p fd offset flags prot) ;
      if err !=? 0 then mret err else
      slot ← gets (fun s => vm_area_slot s p) ;
      if slot <? 0 then mret (- CFG_ENOMEM) else
      f ← gets (fun s => p_files (proc_at s p) fd) ;
      file ← (if anon then mret (-1) else file_mmap_retain f) ;
      if negb anon && (file <? 0) then mret file else
      marea p slot (fun a => a <| va_used := 1 |>) ;;
      marea p slot (fun a => a <| va_start := address |>) ;;
      marea p slot (fun a => a <| va_end := address +! length |>) ;;
      marea p slot (fun a => a <| va_prot := prot |>) ;;
      marea p slot (fun a => a <| va_flags := flags |>) ;;
      marea p slot (fun a => a <| va_file := file |>) ;;
      marea p slot (fun a => a <| va_offset := offset |>) ;;
      mret address
  end.

(** ** [vm_mprotect]: splitting areas *)

(** The part of [start, end_) inside area [a], and whether there is one. *)
Definition overlaps (a : vm_area) (start end_ : Z) : bool :=
  (start <? va_end a) && (end_ >? va_start a).
Definition overlap_start (a : vm_area) (start : Z) : Z := if start <? va_start a then va_start a else start.
Definition overlap_end (a : vm_area) (end_ : Z) : Z := if end_ >? va_end a then va_end a else end_.

Fixpoint sum_from (f : Z -> Z) (lo : Z) (n : nat) : Z :=
  match n with O => 0 | S n' => f lo + sum_from f (lo + 1) n' end.

Definition vm_mprotect_slots_needed (s : kernel) (p start end_ : Z) : Z :=
  sum_from (fun i =>
    let a := area_at s p i in
    if (va_used a !=? 0) && overlaps a start end_ then
      b2z (overlap_start a start >? va_start a) + b2z (overlap_end a end_ <? va_end a)
    else 0) 0 NVMA.

(** Give area [i] the protection [prot] on its overlap with [start, end_). *)
Definition mprotect_area (p i start end_ prot : Z) : K unit :=
  a ← gets (fun s => area_at s p i) ;
  let area_start := va_start a in
  let area_end := va_end a in
  let os := overlap_start a start in
  let oe := overlap_end a end_ in
  if (os =? area_start) && (oe =? area_end) then
    marea p i (fun a => a <| va_prot := prot |>)
  else if os =? area_start then
    marea p i (fun a => a <| va_start := oe |>) ;;
    slot ← gets (fun s => vm_area_slot s p) ;
    vm_area_assign p slot area_start oe prot (va_flags a) (va_file a) (va_offset a) ;;
    marea p i (fun a => a <| va_offset ::= fun o => o +! oe -! area_start |>)
  else if oe =? area_end then
    marea p i (fun a => a <| va_end := os |>) ;;
    slot ← gets (fun s => vm_area_slot s p) ;
    vm_area_assign p slot os area_end prot (va_flags a) (va_file a) (va_offset a +! os -! area_start)
  else
    marea p i (fun a => a <| va_end := os |>) ;;
    slot ← gets (fun s => vm_area_slot s p) ;
    vm_area_assign p slot os oe prot (va_flags a) (va_file a) (va_offset a +! os -! area_start) ;;
    right ← gets (fun s => vm_area_slot s p) ;
    vm_area_assign p right oe area_end (va_prot a) (va_flags a) (va_file a)
      (va_offset a +! oe -! area_start).

Definition vm_mprotect_areas (p start end_ prot : Z) : K unit :=
  original ← gets (fun s i => va_used (area_at s p i)) ;
  for_ 0 NVMA (fun i =>
    a ← gets (fun s => area_at s p i) ;
    when ((original i !=? 0) && overlaps a start end_) (mprotect_area p i start end_ prot)).

(** The page-table entry of a mapped page under its new protection. *)
Definition mprotect_pte (s : kernel) (p page pte prot : Z) : Z :=
  let flags := Z.land pte (Z.lor CFG_PTE_COW CFG_PTE_SHARED) in
  let flags := if prot !=? CFG_PROT_NONE then Z.lor flags 5 else Z.lor flags 1 in
  let flags := Z.land flags (bnot 2) in
  let flags :=
    if has prot CFG_PROT_WRITE then
      let area := vm_area_index s p page in
      let a := area_at s p area in
      if (area >=? 0) && has (va_flags a) CFG_MAP_SHARED && (va_file a >=? 0) then
        Z.lor (Z.land flags (bnot CFG_PTE_COW)) CFG_PTE_SHARED
      else if has flags CFG_PTE_COW || (frame_refs (k_mem s) (pte_addr pte / 4096) >? 1) then
        Z.lor (Z.land flags (bnot CFG_PTE_SHARED)) CFG_PTE_COW
      else Z.lor (Z.land flags (bnot (Z.lor CFG_PTE_COW CFG_PTE_SHARED))) 2
    else flags in
  Z.lor (pte_addr pte) flags.

Definition vm_mprotect (p address length prot : Z) : K Z :=
  if (Z.land address 4095 !=? 0) || (length <=? 0) || bad_prot prot then mret (- CFG_EINVAL) else
  let start := address in
  let end_ := address +! page_align_up length in
  mapped ← gets (fun s => vm_range_in_areas s p start end_) ;
  if (start <? CFG_USER_BASE) || (end_ <? start) || (end_ >? CFG_USER_STACK_TOP) || negb mapped
  then mret (- CFG_ENOMEM) else
  short ← gets (fun s => vm_mprotect_slots_needed s p start end_ >? vm_free_area_slots s p) ;
  if (short : bool) then mret (- CFG_ENOMEM) else
  pd ← gets (fun s => ptbr_at s p) ;
  for_ 0 (npages start end_) (fun k =>
    let page := start + k * 4096 in
    present ← gets (fun s => page_mapped s pd page) ;
    when present
      (pde ← kread32 (pde_at pd page) ;
       pte ← kread32 (pte_at pde page) ;
       pte' ← gets (fun s => mprotect_pte s p page pte prot) ;
       kwrite32 (pte_at pde page) pte')) ;;
  vm_mprotect_areas p start end_ prot ;;
  mret 0.

Section with_vnodes.
Context `{Linkage}.

Definition vm_mmap (p uargs : Z) : K Z :=
  args ← copyin p uargs 24 ;
  match args with
  | None => mret (- CFG_EFAULT)
  | Some bs => mmap_args p (word bs 0) (word bs 1) (word bs 2) (word bs 3) (word bs 4) (word bs 5)
  end.

(** What [vm_munmap] does to area [i]. *)
Definition munmap_area (p i start end_ : Z) : K unit :=
  a ← gets (fun s => area_at s p i) ;
  let used := va_used a !=? 0 in
  if used && (start >? va_start a) && (end_ <? va_end a) then
    split ← gets (fun s => vm_area_slot s p) ;
    vm_area_assign p split end_ (va_end a) (va_prot a) (va_flags a) (va_file a)
      (va_offset a +! end_ -! va_start a) ;;
    marea p i (fun a => a <| va_end := start |>)
  else if used && (start <=? va_start a) && (end_ >=? va_end a) then
    when (va_file a >=? 0) (file_mmap_release (va_file a)) ;;
    marea p i (fun a => a <| va_used := 0 |>)
  else if used && (start <=? va_start a) && (end_ >? va_start a) then
    marea p i (fun a => a <| va_offset ::= fun o => o +! end_ -! va_start a |>) ;;
    marea p i (fun a => a <| va_start := end_ |>)
  else
    when (used && (start <? va_end a) && (end_ >=? va_end a))
      (marea p i (fun a => a <| va_end := start |>)).

Definition vm_munmap (p address length : Z) : K Z :=
  if (Z.land address 4095 !=? 0) || (length <=? 0) then mret (- CFG_EINVAL) else
  let start := address in
  let end_ := address +! page_align_up length in
  if (start <? CFG_USER_BASE) || (end_ <? start) || (end_ >? CFG_USER_GUARD_PAGE)
  then mret (- CFG_EINVAL) else
  needs_split ← gets (fun s => exists_from (fun i => let a := area_at s p i in
    (va_used a !=? 0) && (start >? va_start a) && (end_ <? va_end a)) 0 NVMA) ;
  slot ← gets (fun s => vm_area_slot s p) ;
  if needs_split && (slot <? 0) then mret (- CFG_ENOMEM) else
  for_ 0 (npages start end_) (fun k =>
    let page := start + k * 4096 in
    inside ← gets (fun s => vm_page_in_area s p page) ;
    when inside
      (pd ← gets (fun s => ptbr_at s p) ;
       present ← gets (fun s => page_mapped s pd page) ;
       when present
         (pde ← kread32 (pde_at pd page) ;
          pte ← kread32 (pte_at pde page) ;
          page_cache_flush_frame (pte_addr pte)) ;;
       unmap_page pd page)) ;;
  for_ 0 NVMA (fun i => munmap_area p i start end_) ;;
  mret 0.
End with_vnodes.
