(* ===== verification/SigSend.v ===== *)
(** * SigSend: posting signals ([signal.c], lines 1-239)

    The per-process signal state and the functions that post a signal to a
    process, a group or a selector.  Delivery is in [Signal.v]. *)

From S2P Require Import Prelude Config Kernel Klog RawMem Linkage Sched PageTable Vm Fault.

Definition signal_bit (signal : Z) : Z := shl 1 signal.

Definition signal_cannot_catch (signal : Z) : bool :=
  (signal =? CFG_SIGKILL) || (signal =? CFG_SIGSTOP).

Definition default_ignored (signal : Z) : bool :=
  (signal =? CFG_SIGCHLD) || (signal =? CFG_SIGCONT).

Definition default_stops (signal : Z) : bool :=
  (signal =? CFG_SIGSTOP) || (signal =? CFG_SIGTSTP) ||
  (signal =? CFG_SIGTTIN) || (signal =? CFG_SIGTTOU).

Definition NSIG : nat := Z.to_nat CFG_NSIG.

(** The fields that both [signal_init_proc] and [signal_fork_proc] clear. *)
Definition signal_clear (p : proc) : proc :=
  p <| p_pending_signals := 0 |> <| p_in_signal := 0 |>
    <| p_wait_event := 0 |> <| p_wait_signal := 0 |> <| p_sleep_deadline := 0 |>
    <| p_sleep_remaining := 0 |> <| p_poll_deadline := 0 |> <| p_tty_deadline := 0 |>
    <| p_tty_timed_out := 0 |>.

Definition signal_init_proc (idx : Z) : K unit :=
  mp_ idx (fun p => (signal_clear p) <| p_blocked_signals := 0 |>) ;;
  for_ 0 NSIG (fun signal =>
    mp_ idx (fun p => p <| p_signal_handlers ::= fun h => upd h signal CFG_SIG_DFL |>
                        <| p_signal_masks ::= fun h => upd h signal 0 |>
                        <| p_signal_restorers ::= fun h => upd h signal 0 |>)).

Definition signal_fork_proc (child parent : Z) : K unit :=
  blocked ← rp parent p_blocked_signals ;
  mp_ child (fun p => (signal_clear p) <| p_blocked_signals := blocked |>) ;;
  for_ 0 NSIG (fun signal =>
    pp ← gets (fun s => proc_at s parent) ;
    mp_ child (fun p =>
      p <| p_signal_handlers ::= fun h => upd h signal (p_signal_handlers pp signal) |>
        <| p_signal_masks ::= fun h => upd h signal (p_signal_masks pp signal) |>
        <| p_signal_restorers ::= fun h => upd h signal (p_signal_restorers pp signal) |>)).

Definition signal_exec_proc (idx : Z) : K unit :=
  mp_ idx (fun p => p <| p_pending_signals := 0 |> <| p_in_signal := 0 |>) ;;
  for_ 1 (NSIG - 1) (fun signal =>
    h ← rp idx p_signal_handlers ;
    when (h signal !=? CFG_SIG_IGN)
      (mp_ idx (fun p => p <| p_signal_handlers ::= fun h => upd h signal CFG_SIG_DFL |>
                           <| p_signal_masks ::= fun h => upd h signal 0 |>
                           <| p_signal_restorers ::= fun h => upd h signal 0 |>))).

Definition notify_parent (idx : Z) : K unit :=
  parent ← rp idx p_parent ;
  when (parent >=? 0)
    (mp_ parent (fun p => p <| p_pending_signals ::= fun m => Z.lor m (signal_bit CFG_SIGCHLD) |>) ;;
     wakeup (ChanProc parent)).

(** Does the signal interrupt a sleeper? *)
Definition interrupts (p : proc) (signal : Z) : bool :=
  let handler := p_signal_handlers p signal in
  let blocked := has (p_blocked_signals p) (signal_bit signal) && negb (signal_cannot_catch signal) in
  (p_state p =? CFG_ST_SLEEPING) && negb blocked && (handler !=? CFG_SIG_IGN) &&
  negb ((handler =? CFG_SIG_DFL) && default_ignored signal).

(** The remaining time of a sleep as a timespec of two words. *)
Definition remaining_time (p : proc) (now : Z) : list Z :=
  let remaining := Z.max 0 (p_sleep_deadline p -! now) in
  le_bytes32 (Z.quot remaining CFG_TICKS_PER_SEC) ++
  le_bytes32 (Z.rem remaining CFG_TICKS_PER_SEC * (1000000000 / CFG_TICKS_PER_SEC)).

Definition past_int (p : proc) : proc :=
  p <| p_ctx ::= fun c => c <| pc ::= fun x => x +! CFG_SYSCALL_INSTR_SIZE |> |>.

(** The sleeper after its sleep is cancelled: a timed wait that would be retried
    resumes after its INT. *)
Definition cancel_sleep (p : proc) : proc :=
  if p_sleep_deadline p !=? 0 then
    let p := p <| p_sleep_deadline := 0 |> <| p_sleep_remaining := 0 |> in
    if p_poll_deadline p !=? 0 then past_int (p <| p_poll_deadline := 0 |>)
    else if p_tty_deadline p !=? 0 then
      past_int (p <| p_tty_deadline := 0 |> <| p_tty_timed_out := 0 |>)
    else p
  else past_int p.

Section with_vnodes.
Context `{Linkage}.

(** Cancel the sleep of a process with -EINTR. *)
Definition interrupt_sleep (idx : Z) : K unit :=
  p ← gets (fun s => proc_at s idx) ;
  now ← rd k_sched ticks ;
  when ((p_sleep_deadline p !=? 0) && (p_sleep_remaining p !=? 0))
    (copyout idx (p_sleep_remaining p) (remaining_time p now) ;; mret tt) ;;
  mp_ idx cancel_sleep ;;
  wreg idx 0 (- CFG_EINTR) ;;
  wp_ idx p_state CFG_ST_RUNNABLE.

Definition send_signal (idx signal : Z) : K Z :=
  n ← rd k_procs nproc ;
  p ← gets (fun s => proc_at s idx) ;
  if (idx <? 0) || (idx >=? n) || (p_state p =? CFG_ST_UNUSED) then mret (- CFG_ESRCH) else
  if (signal <? 0) || (signal >=? CFG_NSIG) then mret (- CFG_EINVAL) else
  if signal =? 0 then mret 0 else
  when ((signal =? CFG_SIGCONT) && (p_state p =? CFG_ST_STOPPED))
    (wp_ idx p_state CFG_ST_RUNNABLE ;;
     wp_ idx p_wait_event CFG_WCONTINUED ;;
     wp_ idx p_wait_signal signal ;;
     notify_parent idx) ;;
  mp_ idx (fun p => p <| p_pending_signals ::= fun m => Z.lor m (signal_bit signal) |>) ;;
  p ← gets (fun s => proc_at s idx) ;
  when (interrupts p signal) (interrupt_sleep idx) ;;
  p ← gets (fun s => proc_at s idx) ;
  when ((p_state p =? CFG_ST_STOPPED) && ((signal =? CFG_SIGKILL) || (signal =? CFG_SIGCONT)))
    (wp_ idx p_state CFG_ST_RUNNABLE) ;;
  mret 0.

(** Post to every used slot that satisfies [sel]; was there one? *)
Definition send_each (sel : proc -> bool) (signal : Z) : K Z :=
  n ← gets nprocs ;
  found ← (fix go (i : Z) (n : nat) (found : bool) : K bool :=
    match n with
    | O => mret found
    | S n' =>
        p ← gets (fun s => proc_at s i) ;
        if (p_state p !=? CFG_ST_UNUSED) && sel p
        then send_signal i signal ;; go (i + 1) n' true
        else go (i + 1) n' found
    end) 0 n false ;
  mret (if (found : bool) then 0 else - CFG_ESRCH).

Definition send_signal_group (pgid signal : Z) : K Z := send_each (fun p => p_pgid p =? pgid) signal.

Definition send_signal_selector (caller pid signal : Z) : K Z :=
  if (signal <? 0) || (signal >=? CFG_NSIG) then mret (- CFG_EINVAL) else
  if pid >? 0 then send_signal pid signal
  else if pid =? 0 then pgid ← rp caller p_pgid ; send_signal_group pgid signal
  else if pid <? -1 then send_signal_group (0 -! pid) signal
  else send_each (fun _ => true) signal.
End with_vnodes.

(** The lowest pending signal that is not blocked, or 0. *)
Definition next_deliverable_signal (s : kernel) (idx : Z) : Z :=
  let pending := Z.land (p_pending_signals (proc_at s idx)) (bnot (p_blocked_signals (proc_at s idx))) in
  if pending =? 0 then 0
  else from_option id 0 (find_from (fun signal => has pending (shl 1 signal)) 1 (NSIG - 1)).

Definition stop_process (idx signal : Z) : K unit :=
  wp_ idx p_state CFG_ST_STOPPED ;;
  wp_ idx p_wait_event CFG_WUNTRACED ;;
  wp_ idx p_wait_signal signal ;;
  notify_parent idx.
