(* ===== verification/Tty.v ===== *)
(** * Tty: the line discipline and the keyboard driver ([drivers/tty.c],
    [drivers/keyboard.c])

    Input bytes wait in a ring of 512, each with a mark (1 ends a line, 2 ends a
    line cut short by end-of-file); canonical mode first edits a line of up to 128
    bytes.  The kernel's [char] buffers hold the byte values. *)

From S2P Require Import Prelude Config Kernel Klog RawMem Linkage Sched PageTable Vm Fault SigSend.

Definition TTY_RING : Z := 512.
Definition TTY_LINE : Z := 128.

Definition mtty (g : tty_state -> tty_state) : K unit := modify (fun s => s <| k_tty ::= g |>).
Definition tty_flag (s : kernel) (f : Z) : bool := has (lflag (tty_termios (k_tty s))) f.
Definition tty_cc (s : kernel) (k : Z) : Z := cc (tty_termios (k_tty s)) k.

(** ** Echo *)

Definition tty_echo_char (ch : Z) : K unit :=
  echo ← gets (fun s => tty_flag s CFG_TTY_ECHO) ; when echo (serial_putc ch).

Definition tty_echo_erase : K unit :=
  echo ← gets (fun s => tty_flag s CFG_TTY_ECHO) ;
  echoe ← gets (fun s => tty_flag s CFG_TTY_ECHOE) ;
  when (echo && echoe) (serial_putc 8 ;; serial_putc 32 ;; serial_putc 8).

(** ** The input ring and the edited line *)

Definition tty_queue (ch mark : Z) : K unit :=
  t ← gets k_tty ;
  if tty_input_count t >=? TTY_RING then mret tt else
  let slot := Z.rem (tty_input_head t + tty_input_count t) TTY_RING in
  mtty (fun t => t <| tty_input ::= fun b => upd b slot (ch mod 256) |>) ;;
  mtty (fun t => t <| tty_input_mark ::= fun b => upd b slot (mark mod 256) |>) ;;
  mtty (fun t => t <| tty_input_count ::= fun c => c + 1 |>) ;;
  poll_wakeup.

Definition tty_commit_edit (mark : Z) : K unit :=
  count ← rd k_tty tty_edit_count ;
  for_ 0 (Z.to_nat count) (fun i =>
    edit ← rd k_tty tty_edit ;
    if i + 1 =? count then tty_queue (edit i) mark else tty_queue (edit i) 0) ;;
  mtty (fun t => t <| tty_edit_count := 0 |>).

Definition tty_reset_interbyte_deadlines : K unit :=
  vtime ← gets (fun s => tty_cc s CFG_TTY_VTIME) ;
  now ← rd k_sched ticks ;
  let delay := Z.quot (vtime *! CFG_TICKS_PER_SEC) 10 in
  let delay := if delay <? 1 then 1 else delay in
  n ← gets nprocs ;
  for_ 0 n (fun i =>
    p ← gets (fun s => proc_at s i) ;
    when ((p_state p =? CFG_ST_SLEEPING) && chan_eqb (p_chan p) ChanKbd && (p_tty_deadline p !=? 0))
      (wp_ i p_tty_deadline (now +! delay) ;;
       wp_ i p_sleep_deadline (now +! delay))).

Definition tty_discard_edit : K unit :=
  count ← rd k_tty tty_edit_count ;
  for_ 0 (Z.to_nat count) (fun _ =>
    mtty (fun t => t <| tty_edit_count ::= fun c => c - 1 |>) ;;
    tty_echo_erase).

Definition tty_init : K unit :=
  mtty (fun t => t <| tty_foreground_pgid := 0 |> <| tty_closed := 0 |> <| tty_eof_pending := 0 |>
    <| tty_input_head := 0 |> <| tty_input_count := 0 |> <| tty_edit_count := 0 |>
    <| tty_termios := guest_termios0 |>) ;;
  mtty (fun t => t <| tty_termios ::= fun m => m <| lflag :=
    Z.lor (Z.lor (Z.lor CFG_TTY_ISIG CFG_TTY_ICANON) CFG_TTY_ECHO) CFG_TTY_ECHOE |> |>) ;;
  mtty (fun t => t <| tty_termios ::= fun m => m <| cc ::= fun c =>
    upd (upd (upd (upd (upd (upd (fill c 0 12 0)
      CFG_TTY_VINTR 3) CFG_TTY_VERASE 127) CFG_TTY_VKILL 21) CFG_TTY_VEOF 4)
      CFG_TTY_VMIN 1) CFG_TTY_VSUSP 26 |> |>) ;;
  mtty (fun t => t <| tty_winsize := Build_guest_winsize 24 80 0 0 |>).

Definition tty_close_input : K unit :=
  t ← gets k_tty ;
  if tty_closed t !=? 0 then mret tt else
  mtty (fun t => t <| tty_closed := 1 |>) ;;
  when (tty_edit_count t >? 0) (tty_commit_edit 2) ;;
  poll_wakeup.

Definition tty_poll (s : kernel) (events : Z) : Z :=
  let t := k_tty s in
  let ready := if has events CFG_POLLIN &&
      ((tty_input_count t >? 0) || (tty_eof_pending t >? 0) || (tty_closed t !=? 0))
    then CFG_POLLIN else 0 in
  let ready := if has events CFG_POLLOUT then Z.lor ready CFG_POLLOUT else ready in
  if tty_closed t !=? 0 then Z.lor ready CFG_POLLHUP else ready.

Section with_vnodes.
Context `{Linkage}.

(** ISIG: discard the line, echo [text] and signal the foreground group. *)
Definition tty_signal (text : string) (signal : Z) : K unit :=
  tty_discard_edit ;;
  echo ← gets (fun s => tty_flag s CFG_TTY_ECHO) ;
  when echo (serial_write (str text ++ [10])) ;;
  pgid ← rd k_tty tty_foreground_pgid ;
  send_signal_group pgid signal ;;
  mret tt.

(** Canonical input of one character. *)
Definition tty_edit_char (ch : Z) : K unit :=
  s ← gets (fun s => s) ;
  let t := k_tty s in
  if (ch =? tty_cc s CFG_TTY_VERASE) || (ch =? 8) then
    when (tty_edit_count t >? 0)
      (mtty (fun t => t <| tty_edit_count ::= fun c => c - 1 |>) ;;
       tty_echo_erase)
  else if ch =? tty_cc s CFG_TTY_VKILL then tty_discard_edit
  else if ch =? tty_cc s CFG_TTY_VEOF then
    if tty_edit_count t >? 0 then tty_commit_edit 2
    else mtty (fun t => t <| tty_eof_pending ::= fun e => e +! 1 |>)
  else
    when (tty_edit_count t <? TTY_LINE)
      (mtty (fun t => t <| tty_edit ::= fun b => upd b (tty_edit_count t) (ch mod 256) |>) ;;
       mtty (fun t => t <| tty_edit_count ::= fun c => c + 1 |>) ;;
       tty_echo_char ch) ;;
    when (ch =? 10) (tty_commit_edit 1).

Definition tty_receive (ch : Z) : K unit :=
  let ch := if ch =? 13 then 10 else ch in
  s ← gets (fun s => s) ;
  let isig := tty_flag s CFG_TTY_ISIG in
  if isig && (ch =? tty_cc s CFG_TTY_VINTR) then tty_signal "^C" CFG_SIGINT
  else if isig && (ch =? tty_cc s CFG_TTY_VSUSP) then tty_signal "^Z" CFG_SIGTSTP
  else if negb (tty_flag s CFG_TTY_ICANON) then
    tty_queue ch 0 ;;
    tty_reset_interbyte_deadlines ;;
    tty_echo_char ch
  else tty_edit_char ch.

(** ** [drivers/keyboard.c] *)

Definition keyboard_init : K unit := tty_init.

(** Each round takes one byte from the device, so its queue bounds the rounds. *)
Definition kbd_drain : K unit :=
  q ← rd k_hw hw_kbd ;
  for_ 0 (length q) (fun _ =>
    q ← rd k_hw hw_kbd ;
    match q with
    | [] => mret tt
    | ch :: q' => wr k_hw hw_kbd q' ;; tty_receive ch
    end) ;;
  closed ← rd k_hw hw_kbd_closed ;
  when closed tty_close_input.

Definition keyboard_isr : K unit := kbd_drain ;; wakeup ChanKbd.

(** ** Reading *)

(** The copy loop: [n] bytes delivered so far.  In canonical mode it ends at a
    mark. *)
Definition tty_read_step (buf len : Z) : Z -> K (Z + Z) := fun n =>
  t ← gets k_tty ;
  if (n <? len) && (tty_input_count t >? 0) then
    let ch := tty_input t (tty_input_head t) in
    let mark := tty_input_mark t (tty_input_head t) in
    mtty (fun t => t <| tty_input_head ::= fun h => Z.rem (h + 1) TTY_RING |>) ;;
    mtty (fun t => t <| tty_input_count ::= fun c => c - 1 |>) ;;
    write8_at (buf + n) ch ;;
    canon ← gets (fun s => tty_flag s CFG_TTY_ICANON) ;
    mret (if canon && (mark !=? 0) then inr (n + 1) else inl (n + 1))
  else mret (inr n).

(** Sleep until input arrives; the system call is run again. *)
Definition retry_sleep (caller : Z) (ch : chan) : K Z :=
  wr k_sys g_noret 1 ;;
  mp_ caller (fun p => p <| p_ctx ::= fun c => c <| pc ::= fun x => x -! CFG_SYSCALL_INSTR_SIZE |> |>) ;;
  sleep caller ch ;;
  mret 0.

(** Arm the inter-byte timer of a raw read. *)
Definition tty_arm (caller timeout : Z) : K unit :=
  now ← rd k_sched ticks ;
  let d := now +! Z.quot (timeout *! CFG_TICKS_PER_SEC) 10 in
  let d := if d <=? now then now +! 1 else d in
  wp_ caller p_tty_deadline d ;;
  wp_ caller p_sleep_deadline d.

Definition tty_read (caller buf len : Z) : K Z :=
  if len =? 0 then mret 0 else
  kbd_drain ;;
  pgid ← rp caller p_pgid ;
  fg ← rd k_tty tty_foreground_pgid ;
  if pgid !=? fg then send_signal_group pgid CFG_SIGTTIN ;; mret (- CFG_EINTR) else
  vmin ← gets (fun s => tty_cc s CFG_TTY_VMIN) ;
  let minimum := if vmin >? len then len else vmin in
  timeout ← gets (fun s => tty_cc s CFG_TTY_VTIME) ;
  timed_out ← rp caller p_tty_timed_out ;
  when (timed_out !=? 0)
    (wp_ caller p_tty_timed_out 0 ;;
     wp_ caller p_tty_deadline 0 ;;
     wp_ caller p_sleep_deadline 0) ;;
  count ← rd k_tty tty_input_count ;
  if (timed_out !=? 0) && (count =? 0) then mret 0 else
  raw ← gets (fun s => negb (tty_flag s CFG_TTY_ICANON)) ;
  if (count =? 0) || (raw && (minimum >? 0) && (count <? minimum)) then
    eof ← rd k_tty tty_eof_pending ;
    closed ← rd k_tty tty_closed ;
    if eof >? 0 then mtty (fun t => t <| tty_eof_pending ::= fun e => e - 1 |>) ;; mret 0
    else if closed !=? 0 then mret 0
    else if raw && (minimum =? 0) && (timeout =? 0) then mret 0
    else
      when (raw && (timeout >? 0) && ((minimum =? 0) || (count >? 0))) (tty_arm caller timeout) ;;
      retry_sleep caller ChanKbd
  else
    wp_ caller p_tty_deadline 0 ;;
    wp_ caller p_sleep_deadline 0 ;;
    while_ (S (Z.to_nat count)) (tty_read_step buf len) 0.

Definition tty_write (caller buf len : Z) : K Z :=
  for_ 0 (Z.to_nat len) (fun i => c ← read8_at (buf + i) ; serial_putc c) ;;
  mret len.

(** ** Attributes: structs cross the user boundary as little-endian words *)

Definition termios_bytes (t : guest_termios) : list Z :=
  mjoin (le_bytes32 <$> [iflag t; oflag t; cflag t; lflag t; line t] ++ (cc t <$> seqZ 0 12)).
Definition termios_of_bytes (bs : list Z) : guest_termios :=
  Build_guest_termios (word bs 0) (word bs 1) (word bs 2) (word bs 3) (word bs 4)
    (fun k => word bs (5 + k)).
Definition winsize_bytes (w : guest_winsize) : list Z :=
  mjoin (le_bytes32 <$> [ws_rows w; ws_cols w; ws_xpixel w; ws_ypixel w]).
Definition winsize_of_bytes (bs : list Z) : guest_winsize :=
  Build_guest_winsize (word bs 0) (word bs 1) (word bs 2) (word bs 3).

Definition tty_getattr (caller destination : Z) : K Z :=
  t ← rd k_tty tty_termios ; copyout caller destination (termios_bytes t).

Definition tty_setattr (caller source : Z) (flush : bool) : K Z :=
  r ← copyin caller source 68 ;
  match r with
  | None => mret (- CFG_EFAULT)
  | Some bs =>
      mtty (fun t => t <| tty_termios := termios_of_bytes bs |>) ;;
      when flush
        (mtty (fun t => t <| tty_input_head := 0 |> <| tty_input_count := 0 |>
                          <| tty_edit_count := 0 |> <| tty_eof_pending := 0 |>)) ;;
      mret 0
  end.

Definition tty_getwinsize (caller destination : Z) : K Z :=
  w ← rd k_tty tty_winsize ; copyout caller destination (winsize_bytes w).

Definition tty_setwinsize (caller source : Z) : K Z :=
  r ← copyin caller source 16 ;
  match r with
  | None => mret (- CFG_EFAULT)
  | Some bs =>
      let w := winsize_of_bytes bs in
      if (ws_rows w <=? 0) || (ws_cols w <=? 0) then mret (- CFG_EINVAL) else
      mtty (fun t => t <| tty_winsize := w |>) ;;
      mret 0
  end.
End with_vnodes.

Definition tty_set_foreground (caller pgid : Z) : K Z :=
  n ← gets nprocs ;
  found ← gets (fun s => exists_from (fun i =>
    (p_state (proc_at s i) !=? CFG_ST_UNUSED) && (p_pgid (proc_at s i) =? pgid) &&
    (p_sid (proc_at s i) =? p_sid (proc_at s caller))) 0 n) ;
  if negb found then mret (- CFG_ESRCH) else
  mtty (fun t => t <| tty_foreground_pgid := pgid |>) ;;
  mret 0.

Definition tty_get_foreground (s : kernel) : Z := tty_foreground_pgid (k_tty s).
