(* ===== verification/Fd.v ===== *)
(** * Fd: descriptors and the open-file table ([file.c])

    A descriptor ([struct file *]) is the slot [fd] of a process: [file_at],
    [mfile].  This file holds the parts of [file.c] that only move descriptor and
    open-file records; the operations that dispatch on the object behind a
    descriptor are in [File.v]. *)

From S2P Require Import Prelude Config Kernel Klog RawMem Linkage Sched Pipe Vm.

Definition file_at (s : kernel) (p fd : Z) : file := p_files (proc_at s p) fd.
Definition mfile (p fd : Z) (g : file -> file) : K unit :=
  mp_ p (fun pr => pr <| p_files ::= fun t => upd t fd (g (t fd)) |>).

Definition socket_at (s : kernel) (i : Z) : socket := socket_table (k_net s) i.
Definition socket_upd (i : Z) (g : socket -> socket) (s : kernel) : kernel :=
  s <| k_net ::= fun r => r <| socket_table ::= fun t => upd t i (g (t i)) |> |>.
Definition msocket (i : Z) (g : socket -> socket) : K unit := modify (socket_upd i g).

(** ** The open-file table *)

Definition alloc_open_file : K Z :=
  i ← gets (fun s => find_from (fun i => of_used (open_at s i) =? 0) 0 (Z.to_nat CFG_NFILE)) ;
  match i with
  | Some i =>
      mopen i (fun o => o <| of_used := 1 |> <| of_refs := 1 |> <| of_offset := 0 |>
                          <| of_status_flags := 0 |>) ;;
      mret i
  | None => mret (-1)
  end.

(** ** Filling a descriptor *)

Definition file_reset (p fd : Z) : K unit :=
  mfile p fd (fun f => f <| f_ops := FopsNull |> <| f_type := CFG_FT_NONE |>
    <| f_readable := 0 |> <| f_writable := 0 |> <| f_pipe_end := 0 |> <| f_object := 0 |>
    <| f_fd_flags := 0 |> <| f_status_flags := 0 |>).

Definition file_set_console (p fd : Z) : K unit :=
  file_reset p fd ;;
  mfile p fd (fun f => f <| f_ops := FopsConsole |> <| f_type := CFG_FT_CONS |>
    <| f_writable := 1 |> <| f_status_flags := 1 |>).

Definition file_set_keyboard (p fd : Z) : K unit :=
  file_reset p fd ;;
  mfile p fd (fun f => f <| f_ops := FopsKeyboard |> <| f_type := CFG_FT_KBD |>
    <| f_readable := 1 |> <| f_status_flags := 0 |>).

Definition file_set_node (p fd : Z) (node : vnode) : K Z :=
  open ← alloc_open_file ;
  if open <? 0 then mret (-1) else
  file_reset p fd ;;
  mfile p fd (fun f => f <| f_ops := FopsVnode |> <| f_type := CFG_FT_FILE |>
    <| f_readable := 1 |> <| f_writable := 0 |> <| f_object := open |>) ;;
  mopen open (fun o => o <| of_vnode := node |>) ;;
  mret 0.

Definition file_set_pipe (p fd pp end_ : Z) : K unit :=
  file_reset p fd ;;
  mfile p fd (fun f => f <| f_ops := FopsPipe |> <| f_type := CFG_FT_PIPE |>
    <| f_object := pp |> <| f_pipe_end := end_ |>) ;;
  if end_ =? 0 then
    mfile p fd (fun f => f <| f_readable := 1 |>) ;;
    mpipe pp (fun q => q <| pi_read_status_flags := 0 |>)
  else
    mfile p fd (fun f => f <| f_writable := 1 |>) ;;
    mpipe pp (fun q => q <| pi_write_status_flags := 1 |>).

Definition file_set_socket (p fd so : Z) : K unit :=
  file_reset p fd ;;
  mfile p fd (fun f => f <| f_ops := FopsSocket |> <| f_type := CFG_FT_SOCKET |>
    <| f_readable := 1 |> <| f_writable := 1 |> <| f_object := so |>) ;;
  msocket so (fun q => q <| so_status_flags := 2 |>).

(** ** Status flags

    They live in the object a descriptor shares with its duplicates, and in the
    descriptor itself when it has no live object. *)

Inductive flags_home := HomeOpen (i : Z) | HomePipe (i : Z) (write_end : bool) | HomeSocket (i : Z) | HomeFd.

Definition status_home (s : kernel) (f : file) : flags_home :=
  let o := f_object f in
  if (f_type f =? CFG_FT_FILE) && (o >=? 0) && (o <? CFG_NFILE) && (of_used (open_at s o) !=? 0)
  then HomeOpen o
  else if (f_type f =? CFG_FT_PIPE) && (o >=? 0) && (o <? CFG_NPIPE) && (pi_used (pipe_at s o) !=? 0)
  then HomePipe o (f_pipe_end f !=? 0)
  else if (f_type f =? CFG_FT_SOCKET) && (o >=? 0) && (o <? CFG_NSOCKET) && (so_used (socket_at s o) !=? 0)
  then HomeSocket o
  else HomeFd.

Definition file_get_status_flags (s : kernel) (f : file) : Z :=
  match status_home s f with
  | HomeOpen o => of_status_flags (open_at s o)
  | HomePipe o false => pi_read_status_flags (pipe_at s o)
  | HomePipe o true => pi_write_status_flags (pipe_at s o)
  | HomeSocket o => so_status_flags (socket_at s o)
  | HomeFd => f_status_flags f
  end.

Definition file_set_status_flags (p fd flags : Z) : K unit :=
  home ← gets (fun s => status_home s (file_at s p fd)) ;
  match home with
  | HomeOpen o => mopen o (fun q => q <| of_status_flags := flags |>)
  | HomePipe o false => mpipe o (fun q => q <| pi_read_status_flags := flags |>)
  | HomePipe o true => mpipe o (fun q => q <| pi_write_status_flags := flags |>)
  | HomeSocket o => msocket o (fun q => q <| so_status_flags := flags |>)
  | HomeFd => mfile p fd (fun f => f <| f_status_flags := flags |>)
  end.

(** ** Choosing a descriptor number *)

Definition alloc_fd_from (s : kernel) (idx minimum : Z) : Z :=
  let lo := if minimum <? 0 then 0 else minimum in
  or_neg1 (find_from (fun fd => f_type (file_at s idx fd) =? CFG_FT_NONE) lo (Z.to_nat (CFG_NFD - lo))).

Definition alloc_fd (s : kernel) (idx : Z) : Z := alloc_fd_from s idx 0.
