(* ===== verification/Network.v ===== *)
(** * Network: the UDP stack, its sockets and the card ([network.c], [drivers/network.c]) *)

From S2P Require Import Prelude Config Kernel Klog RawMem Linkage Sched Pipe PageTable Vm Fault SigSend Tty Fd.

(** * The UDP stack and its sockets ([network.c], [drivers/network.c])

    A frame is an array of bytes, [p + k] a position in it.  Received frames are
    copied into [net_rx_frame] and handled from there; replies are built in
    [net_tx_frame].  The theorems on checksums and socket queues are in
    [NetworkSpec.v]. *)

(** ** Big-endian fields *)

Definition net_read16 (p : Z -> Z) (k : Z) : Z :=
  Z.lor (shl (Z.land (p k) 255) 8) (Z.land (p (k + 1)) 255).
Definition net_read32 (p : Z -> Z) (k : Z) : Z :=
  Z.lor (Z.lor (Z.lor (shl (Z.land (p k) 255) 24) (shl (Z.land (p (k + 1)) 255) 16))
    (shl (Z.land (p (k + 2)) 255) 8)) (Z.land (p (k + 3)) 255).

Definition be16 (value : Z) : list Z := [Z.land (shr value 8) 255; Z.land value 255].
Definition be32 (value : Z) : list Z :=
  [Z.land (shr value 24) 255; Z.land (shr value 16) 255; Z.land (shr value 8) 255; Z.land value 255].
Definition net_write16 (p : Z -> Z) (k value : Z) : Z -> Z := blit p k (be16 value).
Definition net_write32 (p : Z -> Z) (k value : Z) : Z -> Z := blit p k (be32 value).

(** ** Checksums *)

(** [while ((sum >> 16) != 0) sum = (sum & 65535) + (sum >> 16)]. *)
Fixpoint fold_carry (fuel : nat) (sum : Z) : Z :=
  match fuel with
  | O => sum
  | S f => if shr sum 16 !=? 0 then fold_carry f (Z.land sum 65535 +! shr sum 16) else sum
  end.

(** A sum of two 31-bit words folds in three rounds. *)
Definition carry_fuel : nat := 4.

(** Word [i] of the [length] bytes at [p + at_]; a last odd byte is padded with 0. *)
Definition sum_word (p : Z -> Z) (at_ i length : Z) : Z :=
  let word := shl (Z.land (p (at_ + i)) 255) 8 in
  if i + 1 <? length then Z.lor word (Z.land (p (at_ + i + 1)) 255) else word.

(** The summing loop from byte [i] on, [n] words to go. *)
Fixpoint sum_words (n : nat) (p : Z -> Z) (at_ i length sum : Z) : Z :=
  match n with
  | O => sum
  | S n' => sum_words n' p at_ (i + 2) length
              (fold_carry carry_fuel (sum +! sum_word p at_ i length))
  end.

(** The number of rounds of [while (i < length) { ...; i = i + 2; }]. *)
Definition nwords (length : Z) : nat := Z.to_nat ((length + 1) / 2).

Definition net_checksum (p : Z -> Z) (at_ length : Z) : Z :=
  Z.land (bnot (sum_words (nwords length) p at_ 0 length 0)) 65535.

Definition net_udp_checksum (frame : Z -> Z) (udp udp_length : Z) : Z :=
  let sum := net_read16 frame 26 + net_read16 frame 28 + net_read16 frame 30 + net_read16 frame 32
             + CFG_IPPROTO_UDP + udp_length in
  let sum := sum_words (nwords udp_length) frame udp 0 udp_length sum in
  Z.land (bnot (fold_carry carry_fuel sum)) 65535.

(** ** Addresses *)

Definition net_guest_mac : list Z := [2; 0; 0; 0; 0; 2].
Definition net_guest_ip : Z := 0x0a00020f.

Definition net_accepts_mac (mac : Z -> Z) : bool :=
  let bytes := (fun k => Z.land (mac k) 255) <$> seqZ 0 6 in
  bool_decide (bytes = net_guest_mac) || bool_decide (bytes = replicate 6 255).

(** ** Transmission *)

Definition tx_put (at_ : Z) (bs : list Z) : K unit :=
  modify (fun s => s <| k_net ::= fun r => r <| net_tx_frame ::= fun f => blit f at_ bs |> |>).

Definition net_transmit (length : Z) : K unit :=
  f ← rd k_net net_tx_frame ;
  modify (fun s => s <| k_hw ::= fun h => h <| hw_net_tx ::= fun q =>
    q ++ [(fun b => Z.land b 255) <$> slice f 0 (Z.to_nat length)] |> |>).

(** ** ARP *)

Definition arp_at (s : kernel) (i : Z) : arp_entry := arp_table (k_net s) i.
Definition NARP : nat := 8.

(** The slot for [address]: the last one that holds it, else the first free one,
    else slot 0. *)
Fixpoint arp_slot (s : kernel) (address i : Z) (n : nat) (slot : Z) : Z :=
  match n with
  | O => if slot <? 0 then 0 else slot
  | S n' =>
      let e := arp_at s i in
      let slot := if (arp_used e !=? 0) && (arp_address e =? address) then i else slot in
      let slot := if (slot <? 0) && (arp_used e =? 0) then i else slot in
      arp_slot s address (i + 1) n' slot
  end.

Definition net_learn_arp (address : Z) (mac : Z -> Z) : K unit :=
  if address =? 0 then mret tt else
  slot ← gets (fun s => arp_slot s address 0 NARP (-1)) ;
  wra k_net arp_table slot arp_used 1 ;;
  wra k_net arp_table slot arp_address address ;;
  for_ 0 6 (fun i =>
    modify (fun s => s <| k_net ::= fun r => r <| arp_table ::= fun t =>
      upd t slot ((t slot) <| arp_mac ::= fun m => upd m i (mac i mod 256) |>) |> |>)).

Definition net_lookup_arp (s : kernel) (address : Z) : option (list Z) :=
  match find_from (fun i => (arp_used (arp_at s i) !=? 0) && (arp_address (arp_at s i) =? address)) 0 NARP with
  | Some i => Some (slice (arp_mac (arp_at s i)) 0 6)
  | None => None
  end.

(** Bytes 6 to 31 of an ARP packet for IPv4 over Ethernet sent by the guest. *)
Definition arp_header (operation : Z) : list Z :=
  net_guest_mac ++ be16 0x0806 ++ be16 1 ++ be16 0x0800 ++ [6; 4] ++ be16 operation ++
  net_guest_mac ++ be32 net_guest_ip.

Definition net_send_arp_request (address : Z) : K unit :=
  tx_put 0 (replicate 6 255) ;;
  tx_put 6 (arp_header 1) ;;
  tx_put 32 (replicate 6 0) ;;
  tx_put 38 (be32 address) ;;
  net_transmit 42.

Definition net_reply_arp (frame : Z -> Z) (length : Z) : K unit :=
  if (length <? 42) || (net_read16 frame 14 !=? 1) || (net_read16 frame 16 !=? 0x0800) ||
     (Z.land (frame 18) 255 !=? 6) || (Z.land (frame 19) 255 !=? 4) then mret tt else
  let operation := net_read16 frame 20 in
  if (operation !=? 1) && (operation !=? 2) then mret tt else
  net_learn_arp (net_read32 frame 28) (fun i => frame (22 + i)) ;;
  if (operation !=? 1) || (net_read32 frame 38 !=? net_guest_ip) then mret tt else
  tx_put 0 (slice frame 22 6) ;;
  tx_put 6 (arp_header 2) ;;
  tx_put 32 (slice frame 22 6) ;;
  tx_put 38 (be32 (net_read32 frame 28)) ;;
  net_transmit 42.

(** ** ICMP echo *)

Definition net_reply_icmp (frame : Z -> Z) (length ihl total : Z) : K unit :=
  if (length <? 14 + total) || (frame (14 + ihl) !=? 8) ||
     (net_checksum frame (14 + ihl) (total - ihl) !=? 0) then mret tt else
  tx_put 0 (slice frame 6 6) ;;
  tx_put 6 (slice frame 0 6) ;;
  tx_put 12 (slice frame 12 (Z.to_nat (2 + total))) ;;
  tx_put 26 (be32 (net_read32 frame 30)) ;;
  tx_put 30 (be32 net_guest_ip) ;;
  tx_put 24 [0] ;;
  tx_put 25 [0] ;;
  sum ← gets (fun s => net_checksum (net_tx_frame (k_net s)) 14 ihl) ;
  tx_put 24 (be16 sum) ;;
  tx_put (14 + ihl) [0] ;;
  tx_put (14 + ihl + 2) [0] ;;
  tx_put (14 + ihl + 3) [0] ;;
  let icmp_length := total - ihl in
  sum ← gets (fun s => net_checksum (net_tx_frame (k_net s)) (14 + ihl) icmp_length) ;
  tx_put (14 + ihl + 2) (be16 sum) ;;
  net_transmit (14 + total).

(** ** UDP *)

Definition NSOCKET : nat := Z.to_nat CFG_NSOCKET.

(** The socket takes datagrams for [port] from this source. *)
Definition socket_accepts (so : socket) (port source_address source_port : Z) : bool :=
  (so_used so !=? 0) && (so_type so =? CFG_SOCK_DGRAM) && (so_local_port so =? port) &&
  ((so_local_address so =? 0) || (so_local_address so =? net_guest_ip)) &&
  ((so_remote_address so =? 0) ||
   ((so_remote_address so =? source_address) && (so_remote_port so =? source_port))).

(** Queue a datagram on socket [s] and wake its readers. *)
Definition socket_enqueue (s length source_address source_port : Z) (payload : list Z) : K unit :=
  so ← gets (fun k => socket_at k s) ;
  if so_queue_count so >=? 4 then mret tt else
  let slot := Z.rem (so_queue_head so + so_queue_count so) 4 in
  msocket s (fun so => so <| so_queue ::= fun q => upd q slot
    ((q slot) <| dg_length := length |> <| dg_source_address := source_address |>
              <| dg_source_port := source_port |> <| dg_data ::= fun d => blit d 0 payload |>) |>) ;;
  msocket s (fun so => so <| so_queue_count ::= fun c => c + 1 |>) ;;
  wakeup (ChanSocket s) ;;
  poll_wakeup.

Definition net_receive_udp (frame : Z -> Z) (length ihl total : Z) : K unit :=
  let udp := 14 + ihl in
  if (length <? udp + 8) || (total <? ihl + 8) then mret tt else
  let destination_port := net_read16 frame (udp + 2) in
  let udp_length := net_read16 frame (udp + 4) in
  if (udp_length <? 8) || (ihl + udp_length >? total) then mret tt else
  if (net_read16 frame (udp + 6) !=? 0) && (net_udp_checksum frame udp udp_length !=? 0) then mret tt else
  let payload_length := udp_length - 8 in
  if (payload_length <? 0) || (payload_length >? 512) || (udp + 8 + payload_length >? length)
  then mret tt else
  let source_address := net_read32 frame 26 in
  let source_port := net_read16 frame udp in
  dst ← gets (fun k => find_from (fun s =>
    socket_accepts (socket_at k s) destination_port source_address source_port) 0 NSOCKET) ;
  match dst with
  | Some s => socket_enqueue s payload_length source_address source_port
                (slice frame (udp + 8) (Z.to_nat payload_length))
  | None => mret tt
  end.

(** ** Received frames *)

Definition net_receive_frame (frame : Z -> Z) (length : Z) : K unit :=
  if length <? 14 then mret tt else
  if negb (net_accepts_mac frame) then mret tt else
  let ethertype := net_read16 frame 12 in
  if ethertype =? 0x0806 then net_reply_arp frame length else
  if (ethertype !=? 0x0800) || (length <? 34) || (Z.land (frame 14) 240 !=? 64) ||
     (net_read32 frame 30 !=? net_guest_ip) then mret tt else
  let ihl := Z.land (frame 14) 15 * 4 in
  let total := net_read16 frame 16 in
  if (ihl <? 20) || (total <? ihl) || (14 + total >? length) then mret tt else
  if net_checksum frame 14 ihl !=? 0 then mret tt else
  let fragment := net_read16 frame 20 in
  if has fragment 0x3fff then mret tt else
  net_learn_arp (net_read32 frame 26) (fun i => frame (6 + i)) ;;
  let protocol := Z.land (frame 23) 255 in
  if protocol =? 1 then net_reply_icmp frame length ihl total
  else when (protocol =? CFG_IPPROTO_UDP) (net_receive_udp frame length ihl total).

(** Each round takes one frame off the device's queue. *)
Definition network_drain : K unit :=
  q ← rd k_hw hw_net_rx ;
  while_ (S (length q)) (fun _ =>
    q ← rd k_hw hw_net_rx ;
    match q with
    | [] => mret (inr tt)
    | f :: q' =>
        let length := Z.of_nat (length f) in
        if (length <=? 0) || (length >? 1518) then mret (inr tt) else
        wr k_hw hw_net_rx q' ;;
        modify (fun s => s <| k_net ::= fun r => r <| net_rx_frame ::= fun b =>
          blit b 0 ((fun c => c mod 256) <$> f) |> |>) ;;
        frame ← rd k_net net_rx_frame ;
        net_receive_frame frame length ;;
        mret (inl tt)
    end) tt.

(** * The socket system calls ([network.c], lines 325-650) *)

Definition socket_index_from_fd (s : kernel) (caller fd : Z) : Z :=
  if (fd <? 0) || (fd >=? CFG_NFD) || (f_type (file_at s caller fd) !=? CFG_FT_SOCKET) then -1
  else f_object (file_at s caller fd).

Definition network_init : K unit :=
  for_ 0 NSOCKET (fun i => msocket i (fun so => so <| so_used := 0 |>)) ;;
  for_ 0 NARP (fun i => wra k_net arp_table i arp_used 0) ;;
  wr k_net net_ephemeral_port 49152.

Definition socket_create (caller domain type protocol : Z) : K Z :=
  if domain !=? CFG_AF_INET then mret (- CFG_EAFNOSUPPORT) else
  if type =? CFG_SOCK_STREAM then mret (- CFG_EPROTONOSUPPORT) else
  if type !=? CFG_SOCK_DGRAM then mret (- CFG_EPROTONOSUPPORT) else
  if (protocol !=? 0) && (protocol !=? CFG_IPPROTO_UDP) then mret (- CFG_EPROTONOSUPPORT) else
  free ← gets (fun k => find_from (fun s => so_used (socket_at k s) =? 0) 0 NSOCKET) ;
  match free with
  | None => mret (- CFG_ENFILE)
  | Some s =>
      fd ← gets (fun k => alloc_fd k caller) ;
      if fd <? 0 then mret (- CFG_EMFILE) else
      msocket s (fun _ => socket0) ;;
      msocket s (fun so => so <| so_used := 1 |> <| so_refs := 1 |> <| so_type := type |>
        <| so_protocol := CFG_IPPROTO_UDP |> <| so_status_flags := CFG_SOCK_DGRAM |>) ;;
      file_set_socket caller fd s ;;
      mret fd
  end.

(** Swap the bytes of a port and of an address. *)
Definition swap16 (v : Z) : Z := Z.lor (shl (Z.land v 255) 8) (Z.land (shr v 8) 255).
Definition swap32 (v : Z) : Z :=
  Z.lor (Z.lor (Z.lor (shl (Z.land v 255) 24) (shl (Z.land v 0xff00) 8))
    (Z.land (shr v 8) 0xff00)) (Z.land (shr v 24) 255).

(** [sizeof(struct guest_sockaddr_in)]. *)
Definition sizeof_sockaddr : Z := 12.

Section with_vnodes.
Context `{Linkage}.

(** The address in host order, or the error. *)
Definition socket_copy_address (caller address length : Z) : K (Z + guest_sockaddr_in) :=
  if length <? sizeof_sockaddr then mret (inl (- CFG_EINVAL)) else
  r ← copyin caller address sizeof_sockaddr ;
  match r with
  | None => mret (inl (- CFG_EFAULT))
  | Some bs =>
      if word bs 0 !=? CFG_AF_INET then mret (inl (- CFG_EAFNOSUPPORT)) else
      mret (inr (Build_guest_sockaddr_in (word bs 0) (swap16 (word bs 1)) (swap32 (word bs 2))))
  end.

Definition socket_bind (caller fd address length : Z) : K Z :=
  s ← gets (fun k => socket_index_from_fd k caller fd) ;
  if s <? 0 then mret (- CFG_ENOTSOCK) else
  r ← socket_copy_address caller address length ;
  match r with
  | inl e => mret e
  | inr value =>
      if (sa_port value <=? 0) || (sa_port value >? 65535) then mret (- CFG_EINVAL) else
      if (sa_address value !=? 0) && (sa_address value !=? net_guest_ip)
      then mret (- CFG_EADDRNOTAVAIL) else
      taken ← gets (fun k => exists_from (fun i => (i !=? s) && (so_used (socket_at k i) !=? 0) &&
        (so_local_port (socket_at k i) =? sa_port value)) 0 NSOCKET) ;
      if (taken : bool) then mret (- CFG_EADDRINUSE) else
      msocket s (fun so => so <| so_local_port := sa_port value |>) ;;
      msocket s (fun so => so <| so_local_address := sa_address value |>) ;;
      mret 0
  end.

Definition socket_connect (caller fd address length : Z) : K Z :=
  s ← gets (fun k => socket_index_from_fd k caller fd) ;
  if s <? 0 then mret (- CFG_ENOTSOCK) else
  r ← socket_copy_address caller address length ;
  match r with
  | inl e => mret e
  | inr value =>
      msocket s (fun so => so <| so_remote_address := sa_address value |>) ;;
      msocket s (fun so => so <| so_remote_port := sa_port value |>) ;;
      mret 0
  end.

Definition socket_listen (s : kernel) (caller fd backlog : Z) : Z :=
  if socket_index_from_fd s caller fd <? 0 then - CFG_ENOTSOCK else - CFG_EOPNOTSUPP.
Definition socket_accept (s : kernel) (caller fd address length : Z) : Z :=
  if socket_index_from_fd s caller fd <? 0 then - CFG_ENOTSOCK else - CFG_EOPNOTSUPP.
Definition socket_setsockopt (s : kernel) (caller fd args : Z) : Z :=
  if socket_index_from_fd s caller fd <? 0 then - CFG_ENOTSOCK else 0.

(** The ephemeral ports only go up, so their number bounds the rounds. *)
Definition socket_allocate_port (so : Z) : K Z :=
  lp ← gets (fun k => so_local_port (socket_at k so)) ;
  if lp !=? 0 then mret lp else
  port ← rd k_net net_ephemeral_port ;
  while_ (S (Z.to_nat (65535 - port))) (fun _ =>
    candidate ← rd k_net net_ephemeral_port ;
    if candidate <? 65535 then
      wr k_net net_ephemeral_port (candidate + 1) ;;
      used ← gets (fun k => exists_from (fun i => (so_used (socket_at k i) !=? 0) &&
        (so_local_port (socket_at k i) =? candidate)) 0 NSOCKET) ;
      if (used : bool) then mret (inl tt) else
      msocket so (fun q => q <| so_local_port := candidate |>) ;;
      mret (inr candidate)
    else mret (inr (- CFG_EADDRINUSE))) tt.

(** The headers of an IPv4/UDP frame from offset 6, and the payload after them. *)
Definition udp_frame (source_port address port length : Z) (mac : list Z) : K unit :=
  tx_put 0 mac ;;
  tx_put 6 net_guest_mac ;;
  tx_put 12 (be16 0x0800) ;;
  tx_put 14 [0x45] ;;
  tx_put 15 [0] ;;
  tx_put 16 (be16 (20 + 8 + length)) ;;
  tx_put 18 (be16 0) ;;
  tx_put 20 (be16 0) ;;
  tx_put 22 [64] ;;
  tx_put 23 [CFG_IPPROTO_UDP] ;;
  tx_put 24 (be16 0) ;;
  tx_put 26 (be32 net_guest_ip) ;;
  tx_put 30 (be32 address) ;;
  ip_sum ← gets (fun s => net_checksum (net_tx_frame (k_net s)) 14 20) ;
  tx_put 24 (be16 ip_sum) ;;
  tx_put 34 (be16 source_port) ;;
  tx_put 36 (be16 port) ;;
  tx_put 38 (be16 (8 + length)) ;;
  tx_put 40 (be16 0).

Definition socket_send_destination (caller so buffer length address port : Z) : K Z :=
  if length <? 0 then mret (- CFG_EINVAL) else
  if length >? 512 then mret (- CFG_EMSGSIZE) else
  ok ← user_access_ok caller buffer length false ;
  if negb ok then mret (- CFG_EFAULT) else
  if (address =? 0) || (port =? 0) then mret (- CFG_EDESTADDRREQ) else
  source_port ← socket_allocate_port so ;
  if source_port <? 0 then mret source_port else
  mac ← gets (fun s => net_lookup_arp s address) ;
  match mac with
  | None => net_send_arp_request address ;; mret (- CFG_EAGAIN)
  | Some mac =>
      udp_frame source_port address port length mac ;;
      bs ← copyin caller buffer length ;
      match bs with
      | None => mret (- CFG_EFAULT)
      | Some bs =>
          tx_put 42 bs ;;
          net_transmit (42 + length) ;;
          mret length
      end
  end.

(** The index names a socket in use. *)
Definition socket_live (s : kernel) (so : Z) : bool :=
  (so >=? 0) && (so <? CFG_NSOCKET) && (so_used (socket_at s so) !=? 0).

Definition socket_send_object (caller so buffer length : Z) : K Z :=
  live ← gets (fun s => socket_live s so) ;
  if negb live then mret (- CFG_ENOTSOCK) else
  q ← gets (fun s => socket_at s so) ;
  socket_send_destination caller so buffer length (so_remote_address q) (so_remote_port q).

Definition socket_send (caller fd buffer length : Z) : K Z :=
  s ← gets (fun k => socket_index_from_fd k caller fd) ;
  if s <? 0 then mret (- CFG_ENOTSOCK) else socket_send_object caller s buffer length.

(** Store the sender's address, if the caller wants it and has room; is the user
    memory bad? *)
Definition copy_peer (caller address address_length : Z) (d : udp_datagram) : K bool :=
  if negb ((address !=? 0) && (address_length !=? 0)) then mret false else
  r ← copyin caller address_length 4 ;
  match r with
  | None => mret true
  | Some bs =>
      if word bs 0 >=? sizeof_sockaddr then
        e ← copyout caller address (le_bytes32 CFG_AF_INET ++ le_bytes32 (swap16 (dg_source_port d)) ++
                                    le_bytes32 (swap32 (dg_source_address d))) ;
        if e <? 0 then mret true else
        e ← copyout caller address_length (le_bytes32 sizeof_sockaddr) ;
        mret (e <? 0)
      else mret false
  end.

Definition socket_receive_datagram (caller so buffer length address address_length : Z) : K Z :=
  if length <? 0 then mret (- CFG_EINVAL) else
  ok ← user_access_ok caller buffer length true ;
  if negb ok then mret (- CFG_EFAULT) else
  q ← gets (fun s => socket_at s so) ;
  if so_queue_count q =? 0 then retry_sleep caller (ChanSocket so) else
  let d := so_queue q (so_queue_head q) in
  let n := if dg_length d >? length then length else dg_length d in
  e ← copyout caller buffer (slice (dg_data d) 0 (Z.to_nat n)) ;
  if e <? 0 then mret (- CFG_EFAULT) else
  bad ← copy_peer caller address address_length d ;
  if (bad : bool) then mret (- CFG_EFAULT) else
  msocket so (fun q => q <| so_queue_head ::= fun h => Z.rem (h + 1) 4 |>) ;;
  msocket so (fun q => q <| so_queue_count ::= fun c => c - 1 |>) ;;
  poll_wakeup ;;
  mret n.

Definition socket_recv_object (caller so buffer length : Z) : K Z :=
  live ← gets (fun s => socket_live s so) ;
  if negb live then mret (- CFG_ENOTSOCK) else
  socket_receive_datagram caller so buffer length 0 0.

(** Nothing is queued and the descriptor is non-blocking. *)
Definition would_block (k : kernel) (caller fd s : Z) : bool :=
  has (file_get_status_flags k (file_at k caller fd)) CFG_O_NONBLOCK &&
  (so_queue_count (socket_at k s) =? 0).

Definition socket_recv (caller fd buffer length : Z) : K Z :=
  s ← gets (fun k => socket_index_from_fd k caller fd) ;
  if s <? 0 then mret (- CFG_ENOTSOCK) else
  wb ← gets (fun k => would_block k caller fd s) ;
  if (wb : bool) then mret (- CFG_EAGAIN) else socket_recv_object caller s buffer length.

Definition socket_sendto (caller fd args : Z) : K Z :=
  s ← gets (fun k => socket_index_from_fd k caller fd) ;
  if s <? 0 then mret (- CFG_ENOTSOCK) else
  r ← copyin caller args 20 ;
  match r with
  | None => mret (- CFG_EFAULT)
  | Some v =>
      if word v 2 !=? 0 then mret (- CFG_EOPNOTSUPP) else
      a ← socket_copy_address caller (word v 3) (word v 4) ;
      match a with
      | inl e => mret e
      | inr a => socket_send_destination caller s (word v 0) (word v 1) (sa_address a) (sa_port a)
      end
  end.

Definition socket_recvfrom (caller fd args : Z) : K Z :=
  s ← gets (fun k => socket_index_from_fd k caller fd) ;
  if s <? 0 then mret (- CFG_ENOTSOCK) else
  r ← copyin caller args 20 ;
  match r with
  | None => mret (- CFG_EFAULT)
  | Some v =>
      if word v 2 !=? 0 then mret (- CFG_EOPNOTSUPP) else
      wb ← gets (fun k => would_block k caller fd s) ;
      if (wb : bool) then mret (- CFG_EAGAIN) else
      socket_receive_datagram caller s (word v 0) (word v 1) (word v 3) (word v 4)
  end.
End with_vnodes.

Definition socket_poll (s : kernel) (so events : Z) : Z :=
  if negb (socket_live s so) then CFG_POLLERR else
  let ready := if has events CFG_POLLIN && (so_queue_count (socket_at s so) >? 0)
               then CFG_POLLIN else 0 in
  if has events CFG_POLLOUT then Z.lor ready CFG_POLLOUT else ready.

Definition socket_close (so : Z) : K unit :=
  live ← gets (fun s => socket_live s so) ;
  if negb live then mret tt else
  msocket so (fun q => q <| so_refs ::= fun r => r -! 1 |>) ;;
  q ← gets (fun s => socket_at s so) ;
  when (so_refs q =? 0) (msocket so (fun q => q <| so_used := 0 |>)) ;;
  poll_wakeup.

Definition socket_retain (so : Z) : K unit :=
  live ← gets (fun s => socket_live s so) ;
  when live (msocket so (fun q => q <| so_refs ::= fun r => r +! 1 |>)).
