(* ===== verification/NetworkSpec.v ===== *)
(** * NetworkSpec: checksums and datagram queues

    The summing loops compute the one's-complement sum of RFC 1071, a header with
    its checksum stored verifies, and a socket's receive ring is a bounded queue
    of datagrams in order of arrival. *)

From S2P Require Import Prelude Config Kernel Klog RawMem Linkage Sched Pipe PageTable Vm Fault SigSend Tty Fd Network.

(** ** One's-complement sums *)

(** The one's-complement residue of a sum of words: 0 for 0, otherwise the
    representative in 1..65535 modulo 65535. *)
Definition oc (x : Z) : Z := if x =? 0 then 0 else (x - 1) mod 65535 + 1.

Lemma oc_range x : 0 <= x -> 0 <= oc x <= 65535.
Proof.
  intros H. unfold oc. destruct (Z.eqb_spec x 0); [lia|].
  pose proof (Z.mod_pos_bound (x - 1) 65535). lia.
Qed.

Lemma oc_small x : 0 <= x <= 65535 -> oc x = x.
Proof.
  intros H. unfold oc. destruct (Z.eqb_spec x 0) as [->|]; [done|].
  rewrite Z.mod_small; lia.
Qed.

(** Adding to a residue and reducing again. *)
Lemma oc_add x y : 0 <= x -> 0 <= y -> oc (oc x + y) = oc (x + y).
Proof.
  intros Hx Hy. unfold oc. destruct (Z.eqb_spec x 0) as [->|Hne]; [done|].
  pose proof (Z.mod_pos_bound (x - 1) 65535).
  destruct (Z.eqb_spec ((x - 1) mod 65535 + 1 + y) 0); [lia|].
  destruct (Z.eqb_spec (x + y) 0); [lia|]. f_equal.
  replace ((x - 1) mod 65535 + 1 + y - 1) with ((x - 1) mod 65535 + y) by lia.
  rewrite Z.add_mod_idemp_l by lia. f_equal. lia.
Qed.

Lemma land_ffff x : Z.land x 65535 = x mod 2 ^ 16.
Proof. change 65535 with (Z.ones 16). by rewrite Z.land_ones. Qed.

Lemma shr16 x : shr x 16 = x / 2 ^ 16.
Proof. unfold shr. by rewrite Z.shiftr_div_pow2. Qed.

Lemma fold_carry_small n x : 0 <= x < 65536 -> fold_carry n x = x.
Proof.
  intros H. destruct n; [done|]. cbn [fold_carry]. rewrite shr16, Z.div_small by lia. done.
Qed.

(** One round of the carry loop. *)
Lemma fold_carry_step n x : 65536 <= x < 2 ^ 31 ->
  fold_carry (S n) x = fold_carry n (x mod 65536 + x / 65536).
Proof.
  intros H. cbn [fold_carry]. rewrite shr16, land_ffff. change (2 ^ 16) with 65536.
  pose proof (Z.div_mod x 65536). pose proof (Z.mod_pos_bound x 65536).
  destruct (Z.eqb_spec (x / 65536) 0); [lia|]. simpl. f_equal. apply i32_id. unfold is_i32. nia.
Qed.

Lemma fold_step_oc x : 65536 <= x -> oc (x mod 65536 + x / 65536) = oc x.
Proof.
  intros H. pose proof (Z.div_mod x 65536 ltac:(lia)) as Hd.
  pose proof (Z.mod_pos_bound x 65536 ltac:(lia)).
  unfold oc. destruct (Z.eqb_spec (x mod 65536 + x / 65536) 0); [nia|].
  destruct (Z.eqb_spec x 0); [lia|]. f_equal.
  rewrite Hd at 3.
  replace (65536 * (x / 65536) + x mod 65536 - 1)
    with (x mod 65536 + x / 65536 - 1 + x / 65536 * 65535) by lia.
  by rewrite Z_mod_plus_full.
Qed.

(** The carry loop reduces any sum that fits an [int]: the fuel is enough. *)
Lemma fold_carry_oc x : 0 <= x < 2 ^ 31 -> fold_carry carry_fuel x = oc x.
Proof.
  assert (Hs : forall n x, 0 <= x <= 65535 -> fold_carry n x = oc x).
  { intros n y Hy. rewrite fold_carry_small, oc_small by lia. done. }
  assert (H1 : forall n x, 0 <= x <= 131070 -> fold_carry (S n) x = oc x).
  { intros n y Hy. destruct (Z.leb_spec y 65535); [apply Hs; lia|].
    rewrite fold_carry_step by lia. rewrite Hs; [apply fold_step_oc; lia|].
    assert (y / 65536 = 1) by (symmetry; apply (Z.div_unique _ _ _ (y - 65536)); lia).
    pose proof (Z.div_mod y 65536). lia. }
  intros Hx. destruct (Z.leb_spec x 65535); [apply Hs; lia|].
  unfold carry_fuel. rewrite fold_carry_step by lia. rewrite H1; [apply fold_step_oc; lia|].
  pose proof (Z.mod_pos_bound x 65536 ltac:(lia)).
  assert (0 <= x / 65536 < 32768).
  { split; [apply Z.div_pos; lia|]. apply Z.div_lt_upper_bound; lia. }
  lia.
Qed.

(** ** The summing loop *)

(** The plain sum of the [n] words from byte [i] on. *)
Fixpoint word_sum (n : nat) (p : Z -> Z) (at_ i length : Z) : Z :=
  match n with
  | O => 0
  | S n' => sum_word p at_ i length + word_sum n' p at_ (i + 2) length
  end.

Lemma sum_word_value p at_ i length :
  sum_word p at_ i length =
  256 * (p (at_ + i) mod 256) + (if i + 1 <? length then p (at_ + i + 1) mod 256 else 0).
Proof.
  unfold sum_word, shl. change 255 with (Z.ones 8). rewrite !Z.land_ones by lia.
  pose proof (Z.mod_pos_bound (p (at_ + i)) (2 ^ 8) ltac:(lia)).
  pose proof (Z.mod_pos_bound (p (at_ + i + 1)) (2 ^ 8) ltac:(lia)).
  change (2 ^ 8) with 256 in *. rewrite Z.shiftl_mul_pow2 by lia. change (2 ^ 8) with 256.
  rewrite i32_id by (unfold is_i32; lia).
  destruct (i + 1 <? length); [rewrite (lor_low _ _ 8) by lia|]; lia.
Qed.

Lemma sum_word_range p at_ i length : 0 <= sum_word p at_ i length <= 65535.
Proof.
  rewrite sum_word_value. pose proof (Z.mod_pos_bound (p (at_ + i)) 256).
  pose proof (Z.mod_pos_bound (p (at_ + i + 1)) 256). destruct (i + 1 <? length); lia.
Qed.

Lemma word_sum_nonneg n p at_ i length : 0 <= word_sum n p at_ i length.
Proof.
  revert i. induction n as [|n IH]; intros i; cbn [word_sum]; [lia|].
  pose proof (sum_word_range p at_ i length). specialize (IH (i + 2)). lia.
Qed.

Lemma sum_words_oc n p at_ i length x :
  0 <= x -> sum_words n p at_ i length (oc x) = oc (x + word_sum n p at_ i length).
Proof.
  revert i x. induction n as [|n IH]; intros i x Hx; cbn [sum_words word_sum].
  - by rewrite Z.add_0_r.
  - pose proof (sum_word_range p at_ i length). pose proof (oc_range x Hx).
    rewrite i32_id by (unfold is_i32; lia).
    rewrite fold_carry_oc, oc_add, IH by lia. f_equal. lia.
Qed.

Lemma bnot_oc x : 0 <= x -> Z.land (bnot (oc x)) 65535 = 65535 - oc x.
Proof.
  intros H. pose proof (oc_range x H). rewrite land_ffff. unfold bnot, Z.lnot.
  symmetry. apply (Z.mod_unique _ _ (-1)); lia.
Qed.

Lemma net_checksum_oc p at_ length :
  net_checksum p at_ length = 65535 - oc (word_sum (nwords length) p at_ 0 length).
Proof.
  unfold net_checksum. rewrite <-(oc_small 0) at 2 by lia.
  rewrite sum_words_oc by lia. rewrite bnot_oc by (rewrite Z.add_0_l; apply word_sum_nonneg).
  by rewrite Z.add_0_l.
Qed.

(** The loop may also start from a sum that is not reduced. *)
Lemma fold_sum_words n p at_ i length x :
  0 <= x < 2 ^ 30 ->
  fold_carry carry_fuel (sum_words n p at_ i length x) = oc (x + word_sum n p at_ i length).
Proof.
  intros Hx. destruct n as [|n]; cbn [sum_words word_sum].
  - rewrite Z.add_0_r. apply fold_carry_oc. lia.
  - pose proof (sum_word_range p at_ i length). rewrite i32_id by (unfold is_i32; lia).
    rewrite (fold_carry_oc (x + _)) by lia. rewrite sum_words_oc by lia.
    pose proof (word_sum_nonneg n p at_ (i + 2) length).
    rewrite fold_carry_oc; [|pose proof (oc_range (x + sum_word p at_ i length + word_sum n p at_ (i + 2) length)); lia].
    rewrite oc_small by (apply oc_range; lia). f_equal. lia.
Qed.

Lemma net_read16_range p k : 0 <= net_read16 p k <= 65535.
Proof.
  pose proof (sum_word_range p k 0 2) as H. unfold sum_word in H.
  by rewrite Z.add_0_r in H.
Qed.

Lemma read16_value p k : net_read16 p k = 256 * (p k mod 256) + p (k + 1) mod 256.
Proof.
  pose proof (sum_word_value p k 0 2) as H. unfold sum_word in H. rewrite Z.add_0_r in H. exact H.
Qed.

(** The words of the UDP pseudo header. *)
Definition pseudo_sum (frame : Z -> Z) (udp_length : Z) : Z :=
  net_read16 frame 26 + net_read16 frame 28 + net_read16 frame 30 + net_read16 frame 32
  + CFG_IPPROTO_UDP + udp_length.

(** *** The reference: RFC 1071 and RFC 768 on lists of bytes *)

(** The [n] bytes at [at_]. *)
Definition octets (p : Z -> Z) (at_ n : Z) : list Z := (fun k => p (at_ + k) mod 256) <$> seqZ 0 n.

(** Bytes as 16-bit words, the first byte high; an odd byte at the end is padded with 0. *)
Fixpoint be_words (bs : list Z) : list Z :=
  match bs with
  | hi :: lo :: bs => 256 * hi + lo :: be_words bs
  | [hi] => [256 * hi]
  | [] => []
  end.

(** Addition of words in one's complement: the carry out of bit 15 is added at bit 0. *)
Definition oc_plus (x y : Z) : Z := if 65535 <? x + y then x + y - 65535 else x + y.
Definition oc_sum (ws : list Z) : Z := foldl oc_plus 0 ws.

(** The pseudo header of a UDP datagram in an IPv4 frame: addresses, protocol, length. *)
Definition pseudo_header (frame : Z -> Z) (udp_length : Z) : list Z :=
  octets frame 26 4 ++ octets frame 30 4 ++ [0; 17; udp_length / 256; udp_length mod 256].

Definition is_u16 (x : Z) : Prop := 0 <= x <= 65535.

Definition sumZ (l : list Z) : Z := foldr Z.add 0 l.

Lemma oc_plus_oc x y : is_u16 x -> is_u16 y -> oc_plus x y = oc (x + y).
Proof.
  unfold is_u16, oc_plus, oc. intros Hx Hy. destruct (Z.ltb_spec 65535 (x + y)), (Z.eqb_spec (x + y) 0); try lia.
  - replace (x + y - 1) with (x + y - 65536 + 1 * 65535) by lia. rewrite Z_mod_plus_full, Z.mod_small; lia.
  - rewrite Z.mod_small; lia.
Qed.

Lemma oc_sum_from ws x : Forall is_u16 ws -> 0 <= x -> foldl oc_plus (oc x) ws = oc (x + sumZ ws).
Proof.
  intros H. revert x. induction H as [|w ws Hw _ IH]; intros x Hx; [cbn; by rewrite Z.add_0_r|].
  pose proof (oc_range x Hx). unfold is_u16 in Hw. cbn [foldl]. rewrite oc_plus_oc, oc_add, IH by (unfold is_u16; lia).
  change (sumZ (w :: ws)) with (w + sumZ ws). by rewrite Z.add_assoc.
Qed.

Lemma oc_sum_sum ws : Forall is_u16 ws -> oc_sum ws = oc (sumZ ws).
Proof. intros H. unfold oc_sum. rewrite <- (oc_small 0) at 1 by lia. by rewrite oc_sum_from. Qed.

Lemma be_words_range n : forall bs, (length bs <= n)%nat -> Forall is_byte bs -> Forall is_u16 (be_words bs).
Proof.
  induction n as [|n IH]; intros [|x [|y bs]] Hn H; cbn in *; try lia; try constructor; try constructor;
    unfold is_u16; rewrite ?Forall_cons in H; unfold is_byte in H; try lia.
  apply IH; [lia|]. apply H.
Qed.

Lemma octets_bytes p at_ n : Forall is_byte (octets p at_ n).
Proof. apply Forall_fmap, Forall_forall. intros k _. cbn. unfold is_byte. pose proof (Z.mod_pos_bound (p (at_ + k)) 256). lia. Qed.

Lemma octets_cons p at_ n : 0 < n -> octets p at_ n = p at_ mod 256 :: octets p (at_ + 1) (n - 1).
Proof.
  intros H. unfold octets. rewrite (seqZ_cons 0 n) by done. cbn [fmap list_fmap]. rewrite Z.add_0_r. f_equal.
  rewrite <- (Z.add_0_r 0) at 1. change (Z.succ (0 + 0)) with (1 + 0). rewrite <- (fmap_add_seqZ 1 0), <- list_fmap_compose.
  apply list_fmap_ext. intros i k _. cbn. do 2 f_equal. lia.
Qed.

Lemma octets_nil p at_ n : n <= 0 -> octets p at_ n = [].
Proof. intros H. unfold octets. by rewrite seqZ_nil. Qed.

(** The words that the loops add are the words of the bytes. *)
Lemma word_sum_words p at_ length n : forall i, 0 <= i -> n = nwords (length - i) ->
  word_sum n p at_ i length = sumZ (be_words (octets p (at_ + i) (length - i))).
Proof.
  induction n as [|n IH]; intros i Hi Hn; unfold nwords in Hn; cbn [word_sum].
  - rewrite octets_nil; [done|]. pose proof (Z.div_mod (length - i + 1) 2 ltac:(lia)). pose proof (Z.mod_pos_bound (length - i + 1) 2 ltac:(lia)). lia.
  - assert (0 < length - i) by (pose proof (Z.div_mod (length - i + 1) 2 ltac:(lia)); pose proof (Z.mod_pos_bound (length - i + 1) 2 ltac:(lia)); lia).
    rewrite sum_word_value, octets_cons by lia. destruct (Z.ltb_spec (i + 1) length).
    + rewrite octets_cons by lia. cbn [be_words]. rewrite IH; [|lia|].
      2:{ unfold nwords. replace (length - i + 1) with (length - (i + 2) + 1 + 1 * 2) in Hn by lia.
          rewrite Z.div_add in Hn by lia. pose proof (Z.div_pos (length - (i + 2) + 1) 2 ltac:(lia) ltac:(lia)). lia. }
      replace (at_ + i + 1 + 1) with (at_ + (i + 2)) by lia. by replace (length - i - 1 - 1) with (length - (i + 2)) by lia.
    + rewrite octets_nil by lia. cbn. assert (n = O) as -> by (replace (length - i) with 1 in Hn by lia; by injection Hn).
      cbn. lia.
Qed.

(** The pseudo header is six words, whatever follows it. *)
Lemma pseudo_words p length rest : 0 <= length <= 65535 ->
  exists ws, be_words (pseudo_header p length ++ rest) = ws ++ be_words rest /\ Forall is_u16 ws /\ sumZ ws = pseudo_sum p length.
Proof.
  intros Hl. unfold pseudo_header. rewrite !octets_cons, !octets_nil by lia. cbn [app be_words].
  eexists [_; _; _; _; _; _]. split; [reflexivity|]. split.
  - repeat (apply Forall_cons; split); try apply Forall_nil_2; unfold is_u16;
      repeat match goal with |- context [?x mod 256] => lazymatch goal with H : 0 <= x mod 256 < 256 |- _ => fail | _ => pose proof (Z.mod_pos_bound x 256 ltac:(lia)) end end;
      pose proof (Z.div_mod length 256 ltac:(lia)); try lia.
  - unfold pseudo_sum. rewrite !read16_value.
    change (sumZ [256 * (p 26 mod 256) + p 27 mod 256; 256 * (p 28 mod 256) + p 29 mod 256; 256 * (p 30 mod 256) + p 31 mod 256;
      256 * (p 32 mod 256) + p 33 mod 256; 17; 256 * (length / 256) + length mod 256] =
      256 * (p 26 mod 256) + p 27 mod 256 + (256 * (p 28 mod 256) + p 29 mod 256) + (256 * (p 30 mod 256) + p 31 mod 256) +
      (256 * (p 32 mod 256) + p 33 mod 256) + 17 + length).
    rewrite <- (Z.div_mod length 256) by lia. unfold sumZ. cbn [foldr]. lia.
Qed.

Lemma sumZ_app l l' : sumZ (l ++ l') = sumZ l + sumZ l'.
Proof. induction l as [|x l IH]; [done|]. unfold sumZ in *. cbn [app foldr]. lia. Qed.

(** C23: both checksum loops compute the complement of the one's-complement sum (RFC 1071)
    of the 16-bit words of the bytes, first byte high, an odd last byte padded with 0; the
    UDP checksum takes the pseudo header of RFC 768 along: the two addresses of the frame,
    the protocol 17 and the length. *)
Theorem checksums_ones_complement p at_ length :
  0 <= length <= 65535 ->
  net_checksum p at_ length = 65535 - oc_sum (be_words (octets p at_ length)) /\
  net_udp_checksum p at_ length = 65535 - oc_sum (be_words (pseudo_header p length ++ octets p at_ length)).
Proof.
  intros Hl. assert (Hw : Forall is_u16 (be_words (octets p at_ length))) by (by eapply be_words_range, octets_bytes).
  assert (Hs : word_sum (nwords length) p at_ 0 length = sumZ (be_words (octets p at_ length))).
  { rewrite (word_sum_words p at_ length (nwords length) 0) by (rewrite ?Z.sub_0_r; done || lia). by rewrite Z.add_0_r, Z.sub_0_r. }
  split; [by rewrite net_checksum_oc, oc_sum_sum, Hs|].
  destruct (pseudo_words p length (octets p at_ length) Hl) as (ws & -> & Hws & Hsum).
  rewrite oc_sum_sum by (by apply Forall_app). rewrite sumZ_app, Hsum, <- Hs. unfold net_udp_checksum.
  change (net_read16 p 26 + net_read16 p 28 + net_read16 p 30 + net_read16 p 32
          + CFG_IPPROTO_UDP + length) with (pseudo_sum p length).
  pose proof (net_read16_range p 26). pose proof (net_read16_range p 28).
  pose proof (net_read16_range p 30). pose proof (net_read16_range p 32).
  assert (0 <= pseudo_sum p length < 2 ^ 30) by (unfold pseudo_sum, CFG_IPPROTO_UDP; lia).
  rewrite fold_sum_words by lia. apply bnot_oc.
  pose proof (word_sum_nonneg (nwords length) p at_ 0 length). lia.
Qed.

Lemma checksums_ones_complement_witness :
  net_checksum (fun i => i) 0 3 = 65535 - (1 + 512) /\
  net_udp_checksum (fun i => i) 34 2 = 65535 - oc_sum [26 * 256 + 27; 28 * 256 + 29; 30 * 256 + 31; 32 * 256 + 33; 17; 2; 34 * 256 + 35].
Proof.
  split.
  - apply (checksums_ones_complement (fun i => i) 0 3); lia.
  - apply (checksums_ones_complement (fun i => i) 34 2); lia.
Defined.

(** Only the bytes of the range matter. *)
Lemma sum_word_ext p q at_ i length :
  0 <= i < length -> (forall j, 0 <= j < length -> p (at_ + j) = q (at_ + j)) ->
  sum_word p at_ i length = sum_word q at_ i length.
Proof.
  intros Hi H. unfold sum_word. rewrite H by lia.
  destruct (Z.ltb_spec (i + 1) length); [|done].
  replace (at_ + i + 1) with (at_ + (i + 1)) by lia. by rewrite H by lia.
Qed.

Lemma word_sum_ext n p q at_ i length :
  0 <= i -> i + 2 * Z.of_nat n <= length + 1 ->
  (forall j, 0 <= j < length -> p (at_ + j) = q (at_ + j)) ->
  word_sum n p at_ i length = word_sum n q at_ i length.
Proof.
  revert i. induction n as [|n IH]; intros i Hi Hn H; [done|]. cbn [word_sum]. f_equal.
  - apply sum_word_ext; [lia|done].
  - apply IH; [lia|lia|done].
Qed.

Lemma nwords_bound length : 0 <= length -> 2 * Z.of_nat (nwords length) <= length + 1.
Proof.
  intros H. unfold nwords. rewrite Z2Nat.id by (apply Z.div_pos; lia).
  pose proof (Z.mul_div_le (length + 1) 2). lia.
Qed.

Lemma net_checksum_ext p q at_ length :
  0 <= length -> (forall j, 0 <= j < length -> p (at_ + j) = q (at_ + j)) ->
  net_checksum p at_ length = net_checksum q at_ length.
Proof.
  intros H0 H. rewrite !net_checksum_oc. do 2 f_equal.
  apply word_sum_ext; [lia| |done]. pose proof (nwords_bound _ H0). lia.
Qed.

Lemma net_write16_at p k v j :
  net_write16 p k v j =
  if j =? k then Z.land (shr v 8) 255 else if j =? k + 1 then Z.land v 255 else p j.
Proof.
  unfold net_write16, be16. cbn [blit]. unfold upd.
  destruct (Z.eqb_spec j k) as [->|Hne].
  - destruct (Z.eqb_spec (k + 1) k); [lia|]. by rewrite Z.eqb_refl.
  - destruct (Z.eqb_spec j (k + 1)) as [->|Hne']; [by rewrite Z.eqb_refl|].
    destruct (Z.eqb_spec (k + 1) j); [lia|]. destruct (Z.eqb_spec k j); [lia|done].
Qed.

(** The word of a 16-bit field, and the words beside it. *)
Lemma sum_word_field p at_ k v length :
  0 <= v <= 65535 -> k + 1 < length -> sum_word (net_write16 p (at_ + k) v) at_ k length = v.
Proof.
  intros Hv Hk. rewrite sum_word_value, !net_write16_at, Z.eqb_refl.
  destruct (Z.eqb_spec (at_ + k + 1) (at_ + k)); [lia|]. rewrite Z.eqb_refl.
  destruct (Z.ltb_spec (k + 1) length); [|lia].
  unfold shr. change 255 with (Z.ones 8). rewrite !Z.land_ones, !Z.shiftr_div_pow2 by lia.
  change (2 ^ 8) with 256. rewrite !Z.mod_mod by lia.
  rewrite (Z.mod_small (v / 256)).
  - pose proof (Z.div_mod v 256). lia.
  - split; [apply Z.div_pos; lia|apply Z.div_lt_upper_bound; lia].
Qed.

Lemma sum_word_beside p at_ i k v length :
  i + 1 < k \/ k + 1 < i -> sum_word (net_write16 p (at_ + k) v) at_ i length = sum_word p at_ i length.
Proof.
  intros H. unfold sum_word. rewrite !net_write16_at.
  repeat match goal with |- context [?a =? ?b] => destruct (Z.eqb_spec a b); [lia|] end. done.
Qed.

(** A 16-bit field at an even offset adds its value to the sum. *)
Lemma word_sum_field n p at_ i j v length :
  0 <= v <= 65535 -> 0 <= j < Z.of_nat n -> i + 2 * j + 1 < length ->
  word_sum n (net_write16 p (at_ + (i + 2 * j)) v) at_ i length =
  word_sum n (net_write16 p (at_ + (i + 2 * j)) 0) at_ i length + v.
Proof.
  revert i j. induction n as [|n IH]; intros i j Hv Hj Hl; [lia|]. cbn [word_sum].
  destruct (Z.eq_dec j 0) as [->|Hne].
  - rewrite Z.add_0_r. rewrite !sum_word_field by lia.
    assert (Hr : forall m w i', i + 1 < i' ->
      word_sum m (net_write16 p (at_ + i) w) at_ i' length = word_sum m p at_ i' length).
    { induction m as [|m IHm]; intros w i' Hi'; cbn [word_sum]; [done|].
      rewrite sum_word_beside, IHm by lia. done. }
    rewrite !Hr by lia. lia.
  - rewrite !sum_word_beside by lia.
    replace (i + 2 * j) with (i + 2 + 2 * (j - 1)) by lia. rewrite IH by lia. lia.
Qed.

Lemma write_checksum_verifies p at_ k length :
  0 <= k -> Z.rem k 2 = 0 -> k + 1 < length ->
  let p0 := net_write16 p (at_ + k) 0 in
  net_checksum (net_write16 p (at_ + k) (net_checksum p0 at_ length)) at_ length = 0.
Proof.
  intros Hk He Hl p0. rewrite !net_checksum_oc.
  set (x := word_sum (nwords length) p0 at_ 0 length).
  assert (Hx : 0 <= x) by apply word_sum_nonneg. pose proof (oc_range x Hx) as Hr.
  pose proof (Z.quot_rem' k 2) as Hq. rewrite He, Z.add_0_r in Hq.
  assert (Hj : 0 <= Z.quot k 2 < Z.of_nat (nwords length)).
  { split; [apply Z.quot_pos; lia|]. unfold nwords.
    assert (Z.quot k 2 < (length + 1) / 2); [|lia].
    assert (Z.quot k 2 + 1 <= (length + 1) / 2); [|lia]. apply Z.div_le_lower_bound; lia. }
  replace (at_ + k) with (at_ + (0 + 2 * Z.quot k 2)) by lia.
  rewrite word_sum_field by lia. replace (at_ + (0 + 2 * Z.quot k 2)) with (at_ + k) by lia.
  fold p0 x.
  destruct (Z.eq_dec x 0) as [->|Hne]; [done|].
  assert (oc (x + (65535 - oc x)) = 65535); [|lia].
  rewrite <-oc_add by lia. replace (oc x + (65535 - oc x)) with 65535 by lia. done.
Qed.

(** storing the checksum of a packet with a zero checksum field into that
    field makes the packet verify. *)
Theorem checksum_verifies p at_ k length :
  0 <= k -> Z.rem k 2 = 0 -> k + 1 < length ->
  let p0 := net_write16 p (at_ + k) 0 in
  net_checksum (net_write16 p0 (at_ + k) (net_checksum p0 at_ length)) at_ length = 0.
Proof.
  intros Hk He Hl p0. rewrite <-(write_checksum_verifies p at_ k length) by done.
  apply net_checksum_ext; [lia|]. intros j Hj. unfold p0. rewrite !net_write16_at.
  by repeat case_match.
Qed.

Lemma checksum_verifies_witness :
  let p0 := net_write16 (fun i => i * 77 + 3) (14 + 10) 0 in
  net_checksum (net_write16 p0 (14 + 10) (net_checksum p0 14 20)) 14 20 = 0.
Proof. apply (checksum_verifies (fun i => i * 77 + 3) 14 10 20); [lia|reflexivity|lia]. Defined.
