(* ===== verification/Device.v ===== *)
(** * Device: building blocks of the pseudo file systems and the device model
    ([device.c], [drivers/power.c], [klog_read], and helpers of [vfs.c]) *)

From S2P Require Import Prelude Config Kernel Klog RawMem Linkage Sched Pipe Buf Inode Dir PageTable Vm Fault SigSend Tty Fd Network.

(** * Building blocks of the pseudo file systems ([vfs.c], [device.c])

    In-memory nodes, directory entries for the caller, and the text buffers in
    which /proc and /sys files are generated.  A generated text may be longer than
    its buffer: characters past the end are dropped and the length is capped. *)

(** A cleared node with the given identity and metadata. *)
Definition vnode_fill (ops : vnode_ops) (fs_type object type mode size : Z) : vnode :=
  Build_vnode ops fs_type object (Build_inode object type 1 mode 0 0 size 0 0 0).

Definition with_nlink (n : Z) (v : vnode) : vnode :=
  v <| vn_inode ::= fun i => i <| i_nlink := n |> |>.

(** [sizeof(struct guest_dirent)]. *)
Definition sizeof_dirent : Z := 32.

(** The 16-byte name field, padded with zeros. *)
Definition dirent_name (name : list Z) : list Z :=
  (fun i => if i <? strlen name then nthz name i else 0) <$> seqZ 0 16.

Section with_vnodes.
Context `{Linkage}.

Definition emit_dirent (caller destination ino offset type : Z) (name : list Z) : K Z :=
  copyout caller destination
    (le_bytes32 ino ++ le_bytes32 offset ++ le_bytes32 sizeof_dirent ++ le_bytes32 type ++
     dirent_name name).
End with_vnodes.

(** ** Text buffers *)

(** [append_number] and the like: the digits of a number, most significant first;
    none for a negative one. *)
Definition number_text (value : Z) : list Z :=
  if value =? 0 then [48] else rev (dec_digits 12 value).

(** Eight lowercase hexadecimal digits. *)
Definition hex_digit (digit : Z) : Z := if digit <? 10 then 48 + digit else 97 + digit - 10.
Definition hex_text (value : Z) : list Z :=
  (fun shift => hex_digit (Z.land (shr value shift) 15)) <$> [28; 24; 20; 16; 12; 8; 4; 0].

(** A character buffer among the globals, with its size. *)
Class TextBuf := {
  tb_size : Z;
  tb_get : kernel -> Z -> Z;
  tb_put : Z -> Z -> kernel -> kernel;
}.

Section text.
Context `{TextBuf}.

Definition append_char (at_ c : Z) : K Z :=
  when (at_ <? tb_size) (modify (tb_put at_ (c mod 256))) ;;
  mret (at_ + 1).

Fixpoint append_text (at_ : Z) (text : list Z) : K Z :=
  match text with
  | [] => mret at_
  | c :: text' => at_ ← append_char at_ c ; append_text at_ text'
  end.

Definition append_number (at_ value : Z) : K Z := append_text at_ (number_text value).
Definition append_hex (at_ value : Z) : K Z := append_text at_ (hex_text value).

Definition finish_len (n : Z) : Z := if n >? tb_size then tb_size else n.

(** Copy out of the buffer from [off]: the read operations of both file systems. *)
Definition text_read (total off buf len : Z) : K Z :=
  if off >=? total then mret 0 else
  let take := if total - off >? len then len else total - off in
  bs ← gets (fun s => slice (tb_get s) off (Z.to_nat take)) ;
  write_bytes buf bs ;;
  mret take.
End text.

Definition proc_text_size : Z := 512.
Definition sys_text_size : Z := 256.

Definition proc_buf : TextBuf := {|
  tb_size := proc_text_size;
  tb_get := fun s => proc_text (k_vfs s);
  tb_put := fun i c s => s <| k_vfs ::= fun r => r <| proc_text ::= fun t => upd t i c |> |>;
|}.
Definition sys_buf : TextBuf := {|
  tb_size := sys_text_size;
  tb_get := fun s => sys_text (k_dev s);
  tb_put := fun i c s => s <| k_dev ::= fun r => r <| sys_text ::= fun t => upd t i c |> |>;
|}.

(** * The device model ([device.c], [drivers/power.c], [klog_read])

    The character-device registry that backs /dev, the interrupt lines and the /sys
    files.  The driver functions a table entry points to are an enumeration
    ([cd_read_fn], [cd_write_fn], [irq_fn] of Kernel.v), and calling through the
    pointer is a [match]. *)

Definition chardev_at (s : kernel) (i : Z) : chardev := chardev_table (k_dev s) i.
Definition irq_at (s : kernel) (i : Z) : irq_slot := irq_table (k_dev s) i.

(** ** Registration *)

(** At most 11 bytes of a name. *)
Definition copy_name (src : list Z) : list Z := take 11 src.

Definition register_chardev (major : Z) (name : list Z) (mode : Z) (read : cd_read_fn)
    (write : cd_write_fn) : K Z :=
  if (major <=? 0) || (major >=? CFG_NCHARDEV) then mret (- CFG_EINVAL) else
  d ← gets (fun s => chardev_at s major) ;
  if cd_used d !=? 0 then mret (- CFG_EEXIST) else
  wri k_dev chardev_table major (Build_chardev 1 major mode (copy_name name) read write) ;;
  mret 0.

Definition chardev_lookup (s : kernel) (name : list Z) : Z :=
  or_neg1 (find_from (fun i => (cd_used (chardev_at s i) !=? 0) && streq (cd_name (chardev_at s i)) name)
    1 (Z.to_nat (CFG_NCHARDEV - 1))).

Definition chardev_rdev (major : Z) : Z := shl major 8.

(** ** Drivers *)

(** [klog.c]: the retained log from byte [off] on. *)
Definition klog_read (off dst len : Z) : K Z :=
  kl ← gets k_klog ;
  if (off <? 0) || (off >=? klog_len kl) then mret 0 else
  let take := if klog_len kl - off >? len then len else klog_len kl - off in
  let first := klog_total kl -! klog_len kl in
  for_ 0 (Z.to_nat take) (fun i =>
    buf ← rd k_klog klog_buf ;
    write8_at (dst + i) (buf (Z.rem (first +! off +! i) CFG_KLOG_SIZE))) ;;
  mret take.

Definition cd_zero_read (buf len : Z) : K Z :=
  for_ 0 (Z.to_nat len) (fun i => write8_at (buf + i) 0) ;; mret len.

Definition cd_rtc_read (off buf len : Z) : K Z :=
  if off >=? 4 then mret 0 else
  now ← rtc_time ;
  let value := [Z.land now 255; Z.land (shr now 8) 255; Z.land (shr now 16) 255; Z.land (shr now 24) 255] in
  let take := if 4 - off >? len then len else 4 - off in
  for_ 0 (Z.to_nat take) (fun i => write8_at (buf + i) (nthz value (off + i))) ;;
  mret take.

(** [__in(CFG_ENTROPY)]: the next word of the entropy device. *)
Definition in_entropy : K Z :=
  e ← rd k_hw hw_entropy ; wr k_hw hw_entropy (fun k => e (k + 1)) ;; mret (e 0).

Definition cd_random_read (buf len : Z) : K Z :=
  for_ 0 (Z.to_nat len) (fun i => v ← in_entropy ; write8_at (buf + i) (Z.land v 255)) ;;
  mret len.

Section with_vnodes.
Context `{Linkage}.

Definition chardev_read (major caller off buf len : Z) : K Z :=
  d ← gets (fun s => chardev_at s major) ;
  if (major <=? 0) || (major >=? CFG_NCHARDEV) || (cd_used d =? 0) then mret (- CFG_ENODEV) else
  match cd_read d with
  | CdReadNull => mret (- CFG_ENODEV)
  | CdConsoleRead => tty_read caller buf len
  | CdNullRead => mret 0
  | CdZeroRead => cd_zero_read buf len
  | CdRtcRead => cd_rtc_read off buf len
  | CdRandomRead => cd_random_read buf len
  | CdKmsgRead => klog_read off buf len
  end.

Definition chardev_write (major caller off buf len : Z) : K Z :=
  d ← gets (fun s => chardev_at s major) ;
  if (major <=? 0) || (major >=? CFG_NCHARDEV) || (cd_used d =? 0) then mret (- CFG_ENODEV) else
  match cd_write d with
  | CdWriteNull => mret (- CFG_ENODEV)
  | CdConsoleWrite => tty_write caller buf len
  | CdSinkWrite => mret len
  end.

(** ** Interrupt lines *)

Definition request_irq (line : Z) (handler : irq_fn) (owner : list Z) : K Z :=
  if (line <? 0) || (line >=? CFG_NIRQ) then mret (- CFG_EINVAL) else
  q ← gets (fun s => irq_at s line) ;
  if irq_used q !=? 0 then mret (- CFG_EEXIST) else
  wri k_dev irq_table line (Build_irq_slot 1 handler (copy_name owner)) ;;
  mret 0.

Definition irq_dispatch (line : Z) : K unit :=
  if (line <? 0) || (line >=? CFG_NIRQ) then mret tt else
  q ← gets (fun s => irq_at s line) ;
  if irq_used q =? 0 then mret tt else
  match irq_handler q with
  | IrqNull => mret tt
  | IrqKeyboardIsr => keyboard_isr
  | IrqNetworkDrain => network_drain
  end.

(** [drivers/keyboard.c] and [drivers/network.c]: the entries of the trap stubs. *)
Definition keyboard_irq_entry : K unit := irq_dispatch CFG_KBD_IRQ.
Definition network_irq_entry : K unit := irq_dispatch CFG_NET_IRQ.
End with_vnodes.

(** ** The text of /sys files *)

Definition sys_append_char : Z -> Z -> K Z := append_char (H := sys_buf).
Definition sys_append_text : Z -> list Z -> K Z := append_text (H := sys_buf).
Definition sys_append_number : Z -> Z -> K Z := append_number (H := sys_buf).
Definition sys_finish_len : Z -> Z := finish_len (H := sys_buf).

(** Lines "number name" for the used slots of a table. *)
Fixpoint sys_lines (line : kernel -> Z -> option (Z * list Z)) (i : Z) (count : nat) (n : Z) : K Z :=
  match count with
  | O => mret n
  | S count' =>
      l ← gets (fun s => line s i) ;
      match l with
      | None => sys_lines line (i + 1) count' n
      | Some (number, name) =>
          n ← sys_append_number n number ;
          n ← sys_append_char n 32 ;
          n ← sys_append_text n name ;
          n ← sys_append_char n 10 ;
          sys_lines line (i + 1) count' n
      end
  end.

Definition sys_build_devices : K Z :=
  n ← sys_lines (fun s i => if cd_used (chardev_at s i) !=? 0
                            then Some (cd_major (chardev_at s i), cd_name (chardev_at s i)) else None)
        1 (Z.to_nat (CFG_NCHARDEV - 1)) 0 ;
  mret (sys_finish_len n).

Definition sys_build_irq : K Z :=
  n ← sys_lines (fun s i => if irq_used (irq_at s i) !=? 0 then Some (i, irq_owner (irq_at s i)) else None)
        0 (Z.to_nat CFG_NIRQ) 0 ;
  mret (sys_finish_len n).

Definition sys_build_trace : K Z :=
  tf ← rd k_klog trace_flags ;
  n ← sys_append_number 0 tf ;
  n ← sys_append_char n 10 ;
  mret (sys_finish_len n).

Definition sys_text_for (object : Z) : K Z :=
  if object =? 1 then sys_build_devices
  else if object =? 2 then sys_build_irq
  else if object =? 3 then sys_build_trace
  else mret 0.

(** ** The operations of /sys nodes *)

Definition sys_lookup (relative : list Z) : K (Z + vnode) :=
  let file object mode size := vnode_fill VopsSys CFG_FS_SYS object CFG_T_FILE (Z.lor CFG_S_IFREG mode) size in
  if strlen relative =? 0 then
    mret (inr (with_nlink 2 (vnode_fill VopsSys CFG_FS_SYS 0 CFG_T_DIR (Z.lor CFG_S_IFDIR 365) 0)))
  else if streq relative (str "devices") then n ← sys_build_devices ; mret (inr (file 1 292 n))
  else if streq relative (str "irq") then n ← sys_build_irq ; mret (inr (file 2 292 n))
  else if streq relative (str "trace") then n ← sys_build_trace ; mret (inr (file 3 420 n))
  else mret (inl (- CFG_ENOENT)).

Definition sys_read_op (node : vnode) (off buf len : Z) : K Z :=
  if vn_object node =? 0 then mret (- CFG_EISDIR) else
  total ← sys_text_for (vn_object node) ;
  text_read (H := sys_buf) total off buf len.

(** The decimal value of the digits among the bytes. *)
Fixpoint parse_digits (bs : list Z) (value : Z) : Z :=
  match bs with
  | [] => value
  | c :: bs' => parse_digits bs' (if (48 <=? c) && (c <=? 57) then value *! 10 +! c -! 48 else value)
  end.

Definition sys_write_op (node : vnode) (off buf len : Z) : K Z :=
  if vn_object node !=? 3 then mret (- CFG_EROFS) else
  bs ← read_bytes buf (Z.to_nat len) ;
  wr k_klog trace_flags (parse_digits bs 0) ;;
  mret len.

Definition sys_truncate_op (node : vnode) : Z := if vn_object node !=? 3 then - CFG_EROFS else 0.

Definition sys_name (k : Z) : list Z :=
  if k =? 0 then str "devices" else if k =? 1 then str "irq" else str "trace".

(** [getdents] operations return the result and the new directory offset. *)
Definition sys_getdents_op `{Linkage} (node : vnode) (caller offset destination count : Z) : K (Z * Z) :=
  if i_type (vn_inode node) !=? CFG_T_DIR then mret (- CFG_ENOTDIR, offset) else
  if count <? sizeof_dirent then mret (- CFG_EINVAL, offset) else
  while_ (S (Z.to_nat (3 - offset))) (fun '(offset, written) =>
    if (offset <? 3) && (written + sizeof_dirent <=? count) then
      e ← emit_dirent caller (destination + written) (offset + 1) (offset + 1) CFG_T_FILE (sys_name offset) ;
      if e <? 0 then mret (inr (- CFG_EFAULT, offset))
      else mret (inl (offset + 1, written + sizeof_dirent))
    else mret (inr (written, offset))) (offset, 0).

(** ** Bring-up *)

Definition require_chardev (major : Z) (name : string) (mode : Z) (read : cd_read_fn)
    (write : cd_write_fn) : K unit :=
  r ← register_chardev major (str name) mode read write ;
  when (r <? 0) (panic "chardev registration failed").

Definition require_irq (line : Z) (handler : irq_fn) (owner : string) : K unit :=
  r ← request_irq line handler (str owner) ;
  when (r <? 0) (panic "irq registration failed").

Definition device_init : K unit :=
  for_ 0 (Z.to_nat CFG_NCHARDEV) (fun i => wra k_dev chardev_table i cd_used 0) ;;
  for_ 0 (Z.to_nat CFG_NIRQ) (fun i => wra k_dev irq_table i irq_used 0) ;;
  require_chardev 1 "console" (Z.lor CFG_S_IFCHR 438) CdConsoleRead CdConsoleWrite ;;
  require_chardev 2 "null" (Z.lor CFG_S_IFCHR 438) CdNullRead CdSinkWrite ;;
  require_chardev 3 "zero" (Z.lor CFG_S_IFCHR 438) CdZeroRead CdSinkWrite ;;
  require_chardev 4 "tty" (Z.lor CFG_S_IFCHR 438) CdConsoleRead CdConsoleWrite ;;
  require_chardev 5 "rtc" (Z.lor CFG_S_IFCHR 292) CdRtcRead CdSinkWrite ;;
  require_chardev 6 "random" (Z.lor CFG_S_IFCHR 292) CdRandomRead CdSinkWrite ;;
  require_chardev 7 "urandom" (Z.lor CFG_S_IFCHR 292) CdRandomRead CdSinkWrite ;;
  require_chardev 8 "kmsg" (Z.lor CFG_S_IFCHR 292) CdKmsgRead CdSinkWrite ;;
  require_irq CFG_KBD_IRQ IrqKeyboardIsr "keyboard" ;;
  require_irq CFG_NET_IRQ IrqNetworkDrain "net".
