(* ===== verification/Vfs.v ===== *)
(** * Vfs: mounts, pseudo file systems and vnode operations ([vfs.c])

    A path is routed to a file system by the mount table; a node then dispatches
    through its operation table, which [vfs_init] and [device_init] fill once: the
    table a node points to is its [vn_ops], and calling through it is a [match].
    An operation that updates the node it is given returns it.

    [vfs_lookup_depth] follows a redirection with [fs_redirect_path] itself as the
    path; here paths are values, so a second redirection inside that walk reads the
    old path while it writes the new one.  The two agree because the new prefix is
    not longer than the part of the path it replaces, unless a mount point has been
    renamed to something shorter. *)

From S2P Require Import Prelude Config Kernel Klog RawMem Linkage Sched Pipe Buf Inode Dir PageTable Vm Fault SigSend Tty Fd Network Device.

(** ** The mount table *)

Definition mount_at (s : kernel) (i : Z) : mount := mount_table (k_vfs s) i.
Definition NMOUNT : nat := Z.to_nat CFG_NMOUNT.

Definition mount_set (slot fs_type : Z) (path : list Z) : K unit :=
  wri k_vfs mount_table slot (Build_mount 1 fs_type 0 path).

Definition mount_matches (path mount_path : list Z) : bool :=
  let n := strlen mount_path in
  negb (exists_from (fun i => nthz path i !=? nthz mount_path i) 0 (length mount_path)) &&
  ((nthz path n =? 0) || (nthz path n =? slash)).

(** The scan of [vfs_mount_for] from slot [i] on; a later mount wins a tie. *)
Fixpoint best_mount (s : kernel) (path : list Z) (i : Z) (n : nat) (best best_len : Z) : Z :=
  match n with
  | O => best
  | S n' =>
      let m := mount_at s i in
      if (mnt_used m !=? 0) && mount_matches path (mnt_path m) && (strlen (mnt_path m) >=? best_len)
      then best_mount s path (i + 1) n' i (strlen (mnt_path m))
      else best_mount s path (i + 1) n' best best_len
  end.
Definition vfs_mount_for (s : kernel) (path : list Z) : Z := best_mount s path 0 NMOUNT 0 0.

Definition mount_relative (path mount_path : list Z) : list Z :=
  let n := length mount_path in
  if nthz path (Z.of_nat n) =? slash then drop (S n) path else drop n path.

Section with_vnodes.
Context `{Linkage}.

(** ** Disk nodes *)

(** The name field of a raw entry, before its first NUL. *)
Fixpoint until_nul (bs : list Z) : list Z :=
  match bs with
  | [] => []
  | c :: bs' => if c =? 0 then [] else c :: until_nul bs'
  end.
Definition raw_name (raw : list Z) : list Z := until_nul (take (Z.to_nat CFG_DIRSIZ) (drop 2 raw)).

Definition disk_getdents_op (node : vnode) (caller offset destination count : Z) : K (Z * Z) :=
  let inum := i_inum (vn_inode node) in
  if i_type (vn_inode node) !=? CFG_T_DIR then mret (- CFG_ENOTDIR, offset) else
  if count <? sizeof_dirent then mret (- CFG_EINVAL, offset) else
  size ← inode_size inum ;
  while_ (dir_fuel size) (fun '(offset, written) =>
    if written + sizeof_dirent <=? count then
      size ← inode_size inum ;
      if offset + 16 <=? size then
        r ← readi_local inum offset 16 ;
        let ino := ent_inum r.2 in
        let offset := offset + 16 in
        if ino =? 0 then mret (inl (offset, written)) else
        type ← inode_type ino ;
        e ← emit_dirent caller (destination + written) ino offset type (raw_name r.2) ;
        if e <? 0 then mret (inr (- CFG_EFAULT, offset))
        else mret (inl (offset, written + sizeof_dirent))
      else mret (inr (written, offset))
    else mret (inr (written, offset))) (offset, 0).

Definition disk_truncate_op (node : vnode) : K (Z * vnode) :=
  ro ← rofs ;
  if (ro : bool) then mret (- CFG_EROFS, node) else
  itrunc (i_inum (vn_inode node)) ;;
  node ← disk_vnode_init (i_inum (vn_inode node)) ;
  mret (0, node).

Definition disk_release_op (node : vnode) : K unit :=
  let inum := i_inum (vn_inode node) in
  nlink ← inode_nlink inum ;
  if nlink !=? 0 then mret tt else
  open ← gets (fun s => inode_open_count s inum) ;
  when (open <=? 1) (ifree inum).

(** ** Device nodes *)

Definition dev_lookup (s : kernel) (relative : list Z) : Z + vnode :=
  if strlen relative =? 0 then
    inr (with_nlink 2 (vnode_fill VopsDev CFG_FS_DEV 0 CFG_T_DIR (Z.lor CFG_S_IFDIR 493) 0))
  else
    let major := chardev_lookup s relative in
    if major <? 0 then inl (- CFG_ENOENT)
    else inr (vnode_fill VopsDev CFG_FS_DEV major CFG_T_FILE (cd_mode (chardev_at s major)) 0).

Definition dev_read_op (node : vnode) (caller off buf len : Z) : K Z :=
  if vn_object node =? 0 then mret (- CFG_EISDIR) else chardev_read (vn_object node) caller off buf len.

Definition dev_write_op (node : vnode) (caller off buf len : Z) : K Z :=
  if vn_object node =? 0 then mret (- CFG_EISDIR) else chardev_write (vn_object node) caller off buf len.

Definition dev_getdents_op (caller offset destination count : Z) : K (Z * Z) :=
  if count <? sizeof_dirent then mret (- CFG_EINVAL, offset) else
  while_ (S (Z.to_nat (CFG_NCHARDEV - offset))) (fun '(offset, written) =>
    if (offset <? CFG_NCHARDEV) && (written + sizeof_dirent <=? count) then
      let major := offset in
      let offset := offset + 1 in
      d ← gets (fun s => chardev_at s major) ;
      if (major >=? 1) && (cd_used d !=? 0) then
        e ← emit_dirent caller (destination + written) major offset CFG_T_FILE (cd_name d) ;
        if e <? 0 then mret (inr (- CFG_EFAULT, offset))
        else mret (inl (offset, written + sizeof_dirent))
      else mret (inl (offset, written))
    else mret (inr (written, offset))) (offset, 0).

(** ** Memory files (/tmp) *)

Definition tmp_at (s : kernel) (i : Z) : tmp_node := tmp_nodes (k_vfs s) i.
Definition mtmp (i : Z) (g : tmp_node -> tmp_node) : K unit :=
  modify (fun s => s <| k_vfs ::= fun r => r <| tmp_nodes ::= fun t => upd t i (g (t i)) |> |>).

(** [tmp_name]: the length of a plain name, -1 for one that is too long or has a
    slash. *)
Definition tmp_name (relative : list Z) : Z :=
  if strlen relative =? 0 then 0
  else if bool_decide (slash ∈ relative) || (strlen relative >? 15) then -1
  else strlen relative.

Definition tmp_find (s : kernel) (relative : list Z) : Z :=
  from_option id 0 (find_from (fun i => (tn_used (tmp_at s i) !=? 0) && (tn_linked (tmp_at s i) !=? 0) &&
    streq (tn_name (tmp_at s i)) relative) 1 (Z.to_nat (CFG_NTMPNODE - 1))).

Definition tmp_vnode_init (s : kernel) (index : Z) : vnode :=
  if index =? 0 then
    with_nlink 2 (vnode_fill VopsTmp CFG_FS_TMP 0 CFG_T_DIR (Z.lor CFG_S_IFDIR 511) 0)
  else
    let t := tmp_at s index in
    (vnode_fill VopsTmp CFG_FS_TMP index (tn_type t) (tn_mode t) (tn_size t))
      <| vn_inode ::= fun i => i <| i_nlink := tn_linked t |> <| i_uid := tn_uid t |> <| i_gid := tn_gid t |> |>.

Definition tmp_lookup (s : kernel) (relative : list Z) : Z + vnode :=
  if strlen relative =? 0 then inr (tmp_vnode_init s 0) else
  if tmp_name relative <? 0 then inl (- CFG_ENOENT) else
  let index := tmp_find s relative in
  if index =? 0 then inl (- CFG_ENOENT) else inr (tmp_vnode_init s index).

Definition tmp_create (relative : list Z) (type mode : Z) : K (Z + vnode) :=
  if type !=? CFG_T_FILE then mret (inl (- CFG_ENOTDIR)) else
  if tmp_name relative <=? 0 then mret (inl (- CFG_EINVAL)) else
  i ← gets (fun s => tmp_find s relative) ;
  if i !=? 0 then v ← gets (fun s => tmp_vnode_init s i) ; mret (inr v) else
  free ← gets (fun s => find_from (fun i => tn_used (tmp_at s i) =? 0) 1 (Z.to_nat (CFG_NTMPNODE - 1))) ;
  match free with
  | None => mret (inl (- CFG_ENOSPC))
  | Some i =>
      mtmp i (fun _ => tmp_node0) ;;
      mtmp i (fun t => t <| tn_used := 1 |> <| tn_linked := 1 |> <| tn_type := CFG_T_FILE |>
        <| tn_mode := Z.lor CFG_S_IFREG (Z.land mode 4095) |> <| tn_name := relative |>) ;;
      v ← gets (fun s => tmp_vnode_init s i) ;
      mret (inr v)
  end.

Definition tmp_read_op (node : vnode) (off buf len : Z) : K Z :=
  if vn_object node =? 0 then mret (- CFG_EISDIR) else
  t ← gets (fun s => tmp_at s (vn_object node)) ;
  if off >=? tn_size t then mret 0 else
  let take := if tn_size t - off >? len then len else tn_size t - off in
  write_bytes buf (slice (tn_data t) off (Z.to_nat take)) ;;
  mret take.

Definition tmp_write_op (node : vnode) (off buf len : Z) : K (Z * vnode) :=
  if vn_object node =? 0 then mret (- CFG_EISDIR, node) else
  if off >=? CFG_TMP_FILE_SIZE then mret (- CFG_ENOSPC, node) else
  let take := if len >? CFG_TMP_FILE_SIZE - off then CFG_TMP_FILE_SIZE - off else len in
  bs ← read_bytes buf (Z.to_nat take) ;
  mtmp (vn_object node) (fun t => t <| tn_data ::= fun d => blit d off bs |>) ;;
  mtmp (vn_object node) (fun t => if off + take >? tn_size t then t <| tn_size := off + take |> else t) ;;
  t ← gets (fun s => tmp_at s (vn_object node)) ;
  mret (take, node <| vn_inode ::= fun i => i <| i_size := tn_size t |> |>).

Definition tmp_getdents_op (caller offset destination count : Z) : K (Z * Z) :=
  if count <? sizeof_dirent then mret (- CFG_EINVAL, offset) else
  while_ (S (Z.to_nat (CFG_NTMPNODE - offset))) (fun '(i, written) =>
    if (i <? CFG_NTMPNODE) && (written + sizeof_dirent <=? count) then
      t ← gets (fun s => tmp_at s i) ;
      if (tn_used t !=? 0) && (tn_linked t !=? 0) then
        e ← emit_dirent caller (destination + written) i i (tn_type t) (tn_name t) ;
        if e <? 0 then mret (inr (- CFG_EFAULT, offset))
        else mret (inl (i + 1, written + sizeof_dirent))
      else mret (inl (i + 1, written))
    else mret (inr (written, i - 1))) (offset + 1, 0).

Definition tmp_truncate_op (node : vnode) : K (Z * vnode) :=
  if vn_object node =? 0 then mret (- CFG_EISDIR, node) else
  mtmp (vn_object node) (fun t => t <| tn_size := 0 |>) ;;
  mret (0, node <| vn_inode ::= fun i => i <| i_size := 0 |> |>).

Definition tmp_open_count (s : kernel) (index : Z) : Z :=
  count_from (fun i => let f := open_file_table (k_files s) i in
    (of_used f !=? 0) && (vn_fs_type (of_vnode f) =? CFG_FS_TMP) && (vn_object (of_vnode f) =? index))
    0 (Z.to_nat CFG_NFILE).

Definition tmp_release_op (node : vnode) : K unit :=
  let i := vn_object node in
  free ← gets (fun s => (i >? 0) && (tn_linked (tmp_at s i) =? 0) && (tmp_open_count s i <=? 1)) ;
  when free (mtmp i (fun t => t <| tn_used := 0 |>)).

(** [dev], [proc], [tmp] and [sys] nodes share their stat; it refreshes a tmpfs
    node first. *)
Definition generic_stat_op (node : vnode) : K (guest_stat * vnode) :=
  s ← gets (fun s => s) ;
  let node := if (vn_fs_type node =? CFG_FS_TMP) && (vn_object node >? 0)
              then tmp_vnode_init s (vn_object node) else node in
  let i := vn_inode node in
  let rdev := if vn_fs_type node =? CFG_FS_DEV then chardev_rdev (vn_object node) else 0 in
  mret (Build_guest_stat (vn_fs_type node) (i_inum i) (i_mode i) (i_nlink i) (i_uid i) (i_gid i) rdev
          (i_size i) 512 (Z.quot (i_size i +! 511) 512) 0 0 0, node).

(** ** Process files (/proc) *)

(** The leading decimal number and the number of its digits. *)
Fixpoint parse_pid_loop (text : list Z) (value used : Z) : Z * Z :=
  match text with
  | c :: text' =>
      if (48 <=? c) && (c <=? 57) then parse_pid_loop text' (value *! 10 +! c -! 48) (used + 1)
      else (value, used)
  | [] => (value, used)
  end.
Definition parse_pid (text : list Z) : Z * Z :=
  let c := nthz text 0 in
  if (c <? 48) || (c >? 57) then (-1, 0) else parse_pid_loop text 0 0.

Definition proc_append_char : Z -> Z -> K Z := append_char (H := proc_buf).
Definition proc_append_text : Z -> list Z -> K Z := append_text (H := proc_buf).
Definition proc_append_number : Z -> Z -> K Z := append_number (H := proc_buf).
Definition proc_append_hex : Z -> Z -> K Z := append_hex (H := proc_buf).
Definition proc_finish_len : Z -> Z := finish_len (H := proc_buf).

Definition state_letter (state : Z) : Z :=
  if state =? CFG_ST_RUNNABLE then 82
  else if state =? CFG_ST_SLEEPING then 83
  else if state =? CFG_ST_STOPPED then 84
  else if state =? CFG_ST_ZOMBIE then 90
  else 63.

Definition proc_status_text (pid : Z) : K Z :=
  p ← gets (fun s => proc_at s pid) ;
  n ← proc_append_text 0 (str "Pid:" ++ [9]) ;
  n ← proc_append_number n pid ;
  n ← proc_append_text n (10 :: str "PPid:" ++ [9]) ;
  let ppid := if p_parent p <? 0 then 0 else p_parent p in
  n ← proc_append_number n ppid ;
  n ← proc_append_text n (10 :: str "State:" ++ [9]) ;
  n ← proc_append_char n (state_letter (p_state p)) ;
  n ← proc_append_text n (10 :: str "Pgid:" ++ [9]) ;
  n ← proc_append_number n (p_pgid p) ;
  n ← proc_append_text n (10 :: str "Sid:" ++ [9]) ;
  n ← proc_append_number n (p_sid p) ;
  n ← proc_append_text n (10 :: str "Uid:" ++ [9]) ;
  n ← proc_append_number n (p_uid p) ;
  n ← proc_append_text n (10 :: str "Gid:" ++ [9]) ;
  n ← proc_append_number n (p_gid p) ;
  n ← proc_append_text n [10] ;
  mret (proc_finish_len n).

(** One line of the map: range, protection, newline. *)
Definition maps_line (n : Z) (a : vm_area) : K Z :=
  let flag f c := if has (va_prot a) f then c else 45 in
  n ← proc_append_hex n (va_start a) ;
  n ← proc_append_char n 45 ;
  n ← proc_append_hex n (va_end a) ;
  n ← proc_append_char n 32 ;
  n ← proc_append_char n (flag CFG_PROT_READ 114) ;
  n ← proc_append_char n (flag CFG_PROT_WRITE 119) ;
  n ← proc_append_char n (flag CFG_PROT_EXEC 120) ;
  proc_append_char n 10.

Fixpoint maps_lines (pid i : Z) (count : nat) (n : Z) : K Z :=
  match count with
  | O => mret n
  | S count' =>
      a ← gets (fun s => area_at s pid i) ;
      n ← (if va_used a !=? 0 then maps_line n a else mret n) ;
      maps_lines pid (i + 1) count' n
  end.

Definition proc_maps_text (pid : Z) : K Z :=
  v ← gets (fun s => vm_at s pid) ;
  n ← (if brk_end v >? brk_start v then
         n ← proc_append_hex 0 (brk_start v) ;
         n ← proc_append_char n 45 ;
         n ← proc_append_hex n (brk_end v) ;
         proc_append_text n (str " rw- [heap]" ++ [10])
       else mret 0) ;
  n ← maps_lines pid 0 NVMA n ;
  mret (proc_finish_len n).

Definition proc_node (object type mode size : Z) : vnode := vnode_fill VopsProc CFG_FS_PROC object type mode size.

Definition proc_lookup (relative : list Z) (follow : bool) (caller : Z) : K (Z + vnode) :=
  if strlen relative =? 0 then
    mret (inr (with_nlink 2 (proc_node 0 CFG_T_DIR (Z.lor CFG_S_IFDIR 365) 0)))
  else if streq relative (str "self") && negb follow then
    mret (inr (proc_node 1 CFG_T_SYMLINK (Z.lor CFG_S_IFLNK 511) 1))
  else
    let '(pid, used) :=
      if bool_decide (take 4 relative = str "self") && ((nthz relative 4 =? 0) || (nthz relative 4 =? slash))
      then (caller, 4) else parse_pid relative in
    let rest := drop (Z.to_nat used) relative in
    n ← rd k_procs nproc ;
    st ← rp pid p_state ;
    if (pid <? 0) || (pid >=? n) || (st =? CFG_ST_UNUSED) then mret (inl (- CFG_ENOENT)) else
    if strlen rest =? 0 then
      mret (inr (with_nlink 2 (proc_node (100 + pid) CFG_T_DIR (Z.lor CFG_S_IFDIR 365) 0)))
    else if streq rest (str "/status") then
      size ← proc_status_text pid ;
      mret (inr (proc_node (200 + pid) CFG_T_FILE (Z.lor CFG_S_IFREG 292) size))
    else if streq rest (str "/maps") then
      size ← proc_maps_text pid ;
      mret (inr (proc_node (300 + pid) CFG_T_FILE (Z.lor CFG_S_IFREG 292) size))
    else mret (inl (- CFG_ENOENT)).

Definition proc_read_op (node : vnode) (off buf len : Z) : K Z :=
  let object := vn_object node in
  if object <? 200 then mret (- CFG_EISDIR) else
  total ← (if object >=? 300 then proc_maps_text (object - 300) else proc_status_text (object - 200)) ;
  text_read (H := proc_buf) total off buf len.

(** The directory of one process: [status] and [maps]. *)
Definition proc_pid_getdents (object caller offset destination count : Z) : K (Z * Z) :=
  while_ (S (Z.to_nat (2 - offset))) (fun '(offset, written) =>
    if (offset <? 2) && (written + sizeof_dirent <=? count) then
      e ← (if offset =? 0
           then emit_dirent caller (destination + written) (object + 100) 1 CFG_T_FILE (str "status")
           else emit_dirent caller (destination + written) (object + 200) 2 CFG_T_FILE (str "maps")) ;
      if e <? 0 then mret (inr (- CFG_EFAULT, offset))
      else mret (inl (offset + 1, written + sizeof_dirent))
    else mret (inr (written, offset))) (offset, 0).

Definition proc_getdents_op (node : vnode) (caller offset destination count : Z) : K (Z * Z) :=
  if i_type (vn_inode node) !=? CFG_T_DIR then mret (- CFG_ENOTDIR, offset) else
  if count <? sizeof_dirent then mret (- CFG_EINVAL, offset) else
  if vn_object node >=? 100 then proc_pid_getdents (vn_object node) caller offset destination count else
  e ← (if offset =? 0 then emit_dirent caller destination 1 1 CFG_T_SYMLINK (str "self") else mret 0) ;
  if e <? 0 then mret (- CFG_EFAULT, offset) else
  let logical := if offset =? 0 then 1 else offset in
  let written := if offset =? 0 then sizeof_dirent else 0 in
  n ← rd k_procs nproc ;
  while_ (S (Z.to_nat (n - (logical - 1)))) (fun '(pid, written) =>
    if (pid <? n) && (written + sizeof_dirent <=? count) then
      st ← rp pid p_state ;
      if st !=? CFG_ST_UNUSED then
        e ← emit_dirent caller (destination + written) (100 + pid) (pid + 2) CFG_T_DIR (number_text pid) ;
        if e <? 0 then mret (inr (- CFG_EFAULT, offset))
        else mret (inl (pid + 1, written + sizeof_dirent))
      else mret (inl (pid + 1, written))
    else mret (inr (written, pid + 1))) (logical - 1, written).

(** ** Path lookup *)

(** [depth] counts up to 8 in the source; here [left = 9 - depth] counts down.  A
    walk that fails without a redirection reports [fs_lookup_error]. *)
Fixpoint vfs_lookup_depth (left : nat) (path : list Z) (follow : bool) (caller : Z) : K (Z + vnode) :=
  match left with
  | O => mret (inl (- CFG_ELOOP))
  | S left' =>
      m ← gets (fun s => mount_at s (vfs_mount_for s path)) ;
      let relative := mount_relative path (mnt_path m) in
      if mnt_fs_type m =? CFG_FS_DEV then gets (fun s => dev_lookup s relative)
      else if mnt_fs_type m =? CFG_FS_PROC then proc_lookup relative follow caller
      else if mnt_fs_type m =? CFG_FS_TMP then gets (fun s => tmp_lookup s relative)
      else if mnt_fs_type m =? CFG_FS_SYS then sys_lookup relative
      else
        p ← gets (fun s => proc_at s caller) ;
        inum ← namei_access path follow (p_uid p) (p_gid p) ;
        redirect ← rd k_fs fs_redirect_valid ;
        if (inum =? 0) && (redirect !=? 0) then
          path' ← rd k_fs fs_redirect_path ;
          vfs_lookup_depth left' path' follow caller
        else if inum =? 0 then
          e ← rd k_fs fs_lookup_error ; mret (inl (0 -! e))
        else node ← disk_vnode_init inum ; mret (inr node)
  end.

Definition vfs_lookup (path : list Z) (follow : bool) (caller : Z) : K (Z + vnode) :=
  vfs_lookup_depth 9 path follow caller.

(** ** Operations on paths *)

(** The type of the file system a path belongs to, and the path below its mount. *)
Definition mount_of (s : kernel) (path : list Z) : Z * list Z :=
  let m := mount_at s (vfs_mount_for s path) in
  (mnt_fs_type m, mount_relative path (mnt_path m)).

Definition vfs_create (path : list Z) (type mode caller : Z) : K (Z + vnode) :=
  m ← gets (fun s => mount_of s path) ;
  if m.1 =? CFG_FS_TMP then tmp_create m.2 type mode else
  if m.1 !=? CFG_FS_DISK then mret (inl (- CFG_EROFS)) else
  inum ← create_inode path type mode ;
  if inum <? 0 then mret (inl inum) else
  node ← disk_vnode_init inum ;
  mret (inr node).

Definition vfs_unlink (path : list Z) (remove_dir : bool) (caller : Z) : K Z :=
  m ← gets (fun s => mount_of s path) ;
  if m.1 =? CFG_FS_TMP then
    if remove_dir then mret (- CFG_ENOTDIR) else
    index ← gets (fun s => tmp_find s m.2) ;
    if index =? 0 then mret (- CFG_ENOENT) else
    mtmp index (fun t => t <| tn_linked := 0 |>) ;;
    open ← gets (fun s => tmp_open_count s index) ;
    when (open =? 0) (mtmp index (fun t => t <| tn_used := 0 |>)) ;;
    mret 0
  else if m.1 !=? CFG_FS_DISK then mret (- CFG_EROFS)
  else unlink_path path remove_dir.

(** Both paths are on the disk file system. *)
Definition both_disk (s : kernel) (a b : list Z) : bool :=
  ((mount_of s a).1 =? CFG_FS_DISK) && ((mount_of s b).1 =? CFG_FS_DISK).

Definition vfs_link (oldpath newpath : list Z) : K Z :=
  ok ← gets (fun s => both_disk s oldpath newpath) ;
  if negb ok then mret (- CFG_EROFS) else link_path oldpath newpath.

Definition vfs_rename (oldpath newpath : list Z) : K Z :=
  ok ← gets (fun s => both_disk s oldpath newpath) ;
  if negb ok then mret (- CFG_EROFS) else rename_path oldpath newpath.

Definition vfs_symlink (target linkpath : list Z) : K Z :=
  m ← gets (fun s => mount_of s linkpath) ;
  if m.1 !=? CFG_FS_DISK then mret (- CFG_EROFS) else symlink_path target linkpath.

Definition vfs_chmod (path : list Z) (mode caller : Z) : K Z :=
  r ← vfs_lookup path true caller ;
  match r with
  | inl e => mret e
  | inr node =>
      if vn_fs_type node =? CFG_FS_DISK then chmod_path path mode else
      if (vn_fs_type node !=? CFG_FS_TMP) || (vn_object node =? 0) then mret (- CFG_EROFS) else
      mtmp (vn_object node) (fun t => t <| tn_mode ::= fun m =>
        Z.lor (Z.land m CFG_S_IFMT) (Z.land mode 4095) |>) ;;
      mret 0
  end.

Definition vfs_chown (path : list Z) (uid gid caller : Z) : K Z :=
  r ← vfs_lookup path true caller ;
  match r with
  | inl e => mret e
  | inr node =>
      if vn_fs_type node =? CFG_FS_DISK then chown_path path uid gid else
      if (vn_fs_type node !=? CFG_FS_TMP) || (vn_object node =? 0) then mret (- CFG_EROFS) else
      when (uid >=? 0) (mtmp (vn_object node) (fun t => t <| tn_uid := uid |>)) ;;
      when (gid >=? 0) (mtmp (vn_object node) (fun t => t <| tn_gid := gid |>)) ;;
      mret 0
  end.

(** The length and the bytes for the caller's buffer. *)
Definition vfs_readlink (path : list Z) (caller size : Z) : K (Z * list Z) :=
  r ← vfs_lookup path false caller ;
  match r with
  | inl e => mret (e, [])
  | inr node =>
      if vn_fs_type node =? CFG_FS_DISK then readlink_path path size else
      if (vn_fs_type node =? CFG_FS_PROC) && (vn_object node =? 1) then
        let value := number_text caller in
        let n := if strlen value >? size then size else strlen value in
        mret (n, take (Z.to_nat n) value)
      else mret (- CFG_EINVAL, [])
  end.

(** ** Operations on nodes *)

(** A call through a null pointer. *)
Definition null_call {A} : K A := kstop (Panic "call through a null operation table").

Definition vnode_do_read (node : vnode) (caller off n dst : Z) : K Z :=
  match vn_ops node with
  | VopsNull => mret (- CFG_EBADF)
  | VopsDisk => disk_vnode_read node off n dst
  | VopsDev => dev_read_op node caller off dst n
  | VopsProc => proc_read_op node off dst n
  | VopsTmp => tmp_read_op node off dst n
  | VopsSys => sys_read_op node off dst n
  end.

Definition vnode_do_write (node : vnode) (caller off n src : Z) : K (Z * vnode) :=
  match vn_ops node with
  | VopsNull | VopsProc => mret (- CFG_EBADF, node)
  | VopsDisk => disk_vnode_write node off n src
  | VopsDev => r ← dev_write_op node caller off src n ; mret (r, node)
  | VopsTmp => tmp_write_op node off src n
  | VopsSys => r ← sys_write_op node off src n ; mret (r, node)
  end.

Definition vnode_getdents (node : vnode) (caller offset destination count : Z) : K (Z * Z) :=
  match vn_ops node with
  | VopsNull => mret (- CFG_ENOTDIR, offset)
  | VopsDisk => disk_getdents_op node caller offset destination count
  | VopsDev => dev_getdents_op caller offset destination count
  | VopsProc => proc_getdents_op node caller offset destination count
  | VopsTmp => tmp_getdents_op caller offset destination count
  | VopsSys => sys_getdents_op node caller offset destination count
  end.

Definition vnode_stat (node : vnode) : K (guest_stat * vnode) :=
  match vn_ops node with
  | VopsNull => null_call
  | VopsDisk => st ← inode_stat (i_inum (vn_inode node)) ; mret (st, node)
  | VopsDev | VopsProc | VopsTmp | VopsSys => generic_stat_op node
  end.

Definition vnode_truncate (node : vnode) : K (Z * vnode) :=
  match vn_ops node with
  | VopsNull => null_call
  | VopsDev | VopsProc => mret (- CFG_EROFS, node)
  | VopsDisk => disk_truncate_op node
  | VopsTmp => tmp_truncate_op node
  | VopsSys => mret (sys_truncate_op node, node)
  end.

Definition vnode_do_release (node : vnode) : K unit :=
  match vn_ops node with
  | VopsDisk => disk_release_op node
  | VopsTmp => tmp_release_op node
  | VopsNull | VopsDev | VopsProc | VopsSys => mret tt
  end.

Definition vnode_access (node : vnode) (uid gid mask : Z) : K bool :=
  if vn_fs_type node =? CFG_FS_DISK then inode_access (i_inum (vn_inode node)) uid gid mask else
  let i := vn_inode node in
  let mode := i_mode i in
  if uid =? 0 then mret (negb (has mask 1 && (Z.land mode 73 =? 0))) else
  let bits := if uid =? i_uid i then Z.land (shr mode 6) 7
              else if gid =? i_gid i then Z.land (shr mode 3) 7
              else Z.land mode 7 in
  mret (Z.land bits mask =? mask).

Definition vnode_is_tty (node : vnode) : bool :=
  (vn_fs_type node =? CFG_FS_DEV) && ((vn_object node =? 1) || (vn_object node =? 4)).
End with_vnodes.

(** ** Bring-up *)

Definition vfs_init : K unit :=
  for_ 0 NMOUNT (fun i => wra k_vfs mount_table i mnt_used 0) ;;
  mount_set 0 CFG_FS_DISK (str "/") ;;
  mount_set 1 CFG_FS_DEV (str "/dev") ;;
  mount_set 2 CFG_FS_PROC (str "/proc") ;;
  mount_set 3 CFG_FS_TMP (str "/tmp") ;;
  mount_set 4 CFG_FS_SYS (str "/sys") ;;
  dev ← namei_nofollow (str "/dev") ;
  wra k_vfs mount_table 1 mnt_root_inum dev ;;
  proc ← namei_nofollow (str "/proc") ;
  wra k_vfs mount_table 2 mnt_root_inum proc ;;
  tmp ← namei_nofollow (str "/tmp") ;
  wra k_vfs mount_table 3 mnt_root_inum tmp ;;
  sys ← namei_nofollow (str "/sys") ;
  wra k_vfs mount_table 4 mnt_root_inum sys ;;
  for_ 0 (Z.to_nat CFG_NTMPNODE) (fun i => wri k_vfs tmp_nodes i tmp_node0).
