(* ===== verification/File.v ===== *)
(** * File: operations on descriptors ([file.c])

    A descriptor dispatches through its operation table ([f_ops]); the tables are
    filled once by [file_init], so calling through one is a [match] and a missing
    entry is its null case.  Polling only reads the state. *)

From S2P Require Import Prelude Config Kernel Klog RawMem Linkage Sched Pipe Buf Inode Dir PageTable Vm Fault SigSend Tty Fd Network Device Vfs.

(** ** Polling *)

Definition vnode_poll_op (s : kernel) (f : file) (events : Z) : Z :=
  if vnode_is_tty (of_vnode (open_at s (f_object f))) then tty_poll s events else
  let ready := if has events CFG_POLLIN && (f_readable f !=? 0) then CFG_POLLIN else 0 in
  if has events CFG_POLLOUT && (f_writable f !=? 0) then Z.lor ready CFG_POLLOUT else ready.

Definition pipe_poll_op (s : kernel) (f : file) (events : Z) : Z :=
  let q := pipe_at s (f_object f) in
  if f_pipe_end f =? 0 then
    let ready := if has events CFG_POLLIN && ((pi_count q >? 0) || (pi_nwrite q =? 0))
                 then CFG_POLLIN else 0 in
    if pi_nwrite q =? 0 then Z.lor ready CFG_POLLHUP else ready
  else if pi_nread q =? 0 then CFG_POLLERR
  else if has events CFG_POLLOUT && (pi_count q <? CFG_PIPESZ) then CFG_POLLOUT
  else 0.

Definition file_poll (s : kernel) (f : file) (events : Z) : Z :=
  match f_ops f with
  | FopsNull => CFG_POLLERR
  | FopsConsole => Z.land events CFG_POLLOUT
  | FopsKeyboard => tty_poll s events
  | FopsVnode => vnode_poll_op s f events
  | FopsPipe => pipe_poll_op s f events
  | FopsSocket => socket_poll s (f_object f) events
  end.

(** A non-blocking descriptor none of whose [events] is ready. *)
Definition not_ready (s : kernel) (f : file) (events : Z) : bool :=
  has (file_get_status_flags s f) CFG_O_NONBLOCK &&
  negb (has (file_poll s f events) events).

(** The object is not an open file. *)
Definition not_file (f : file) : bool :=
  (f_type f !=? CFG_FT_FILE) || (f_object f <? 0) || (f_object f >=? CFG_NFILE).

Section with_vnodes.
Context `{Linkage}.

(** ** Reading and writing *)

Definition console_write_op (buf len : Z) : K Z :=
  for_ 0 (Z.to_nat len) (fun i => c ← read8_at (buf + i) ; serial_putc c) ;; mret len.

Definition vnode_read_op (f : file) (caller buf len : Z) : K Z :=
  let i := f_object f in
  page_cache_flush_object i ;;
  o ← gets (fun s => open_at s i) ;
  got ← vnode_do_read (of_vnode o) caller (of_offset o) len buf ;
  when (got >? 0) (mopen i (fun o => o <| of_offset ::= fun x => x +! got |>)) ;;
  mret got.

(** O_APPEND: move to the end of the file. *)
Definition open_seek_end (i : Z) : K unit :=
  o ← gets (fun s => open_at s i) ;
  r ← vnode_stat (of_vnode o) ;
  mopen i (fun o => o <| of_vnode := r.2 |>) ;;
  mopen i (fun o => o <| of_offset := st_size r.1 |>).

Definition vnode_write_op (f : file) (caller buf len : Z) : K Z :=
  let i := f_object f in
  o ← gets (fun s => open_at s i) ;
  if i_type (vn_inode (of_vnode o)) =? CFG_T_DIR then mret (- CFG_EISDIR) else
  page_cache_flush_object i ;;
  o ← gets (fun s => open_at s i) ;
  when (has (of_status_flags o) CFG_O_APPEND) (open_seek_end i) ;;
  o ← gets (fun s => open_at s i) ;
  r ← vnode_do_write (of_vnode o) caller (of_offset o) len buf ;
  mopen i (fun o => o <| of_vnode := r.2 |>) ;;
  let wrote := r.1 in
  when (wrote >? 0)
    (o ← gets (fun s => open_at s i) ;
     page_cache_update_object i (of_offset o) wrote buf caller ;;
     mopen i (fun o => o <| of_offset ::= fun x => x +! wrote |>)) ;;
  mret wrote.

Definition pipe_read_op (f : file) (caller buf len : Z) : K Z :=
  let pp := f_object f in
  if f_pipe_end f !=? 0 then mret (- CFG_EBADF) else
  q ← gets (fun s => pipe_at s pp) ;
  if pi_count q >? 0 then
    n ← pipe_read_bytes pp buf len ;
    wakeup (ChanPipe pp) ;;
    mret n
  else if pi_nwrite q =? 0 then mret 0
  else retry_sleep caller (ChanPipe pp).

Definition pipe_write_op (f : file) (caller buf len : Z) : K Z :=
  let pp := f_object f in
  if f_pipe_end f !=? 1 then mret (- CFG_EBADF) else
  q ← gets (fun s => pipe_at s pp) ;
  if pi_nread q =? 0 then mret (- CFG_EPIPE) else
  if pi_count q =? CFG_PIPESZ then retry_sleep caller (ChanPipe pp) else
  n ← pipe_write_bytes pp buf len ;
  wakeup (ChanPipe pp) ;;
  mret n.

Definition file_read (f : file) (caller buf len : Z) : K Z :=
  let run op :=
    if f_readable f =? 0 then mret (- CFG_EBADF) else
    block ← gets (fun s => not_ready s f (Z.lor (Z.lor CFG_POLLIN CFG_POLLERR) CFG_POLLHUP)) ;
    if (block : bool) then mret (- CFG_EAGAIN) else op in
  match f_ops f with
  | FopsNull | FopsConsole => mret (- CFG_EBADF)
  | FopsKeyboard => run (tty_read caller buf len)
  | FopsVnode => run (vnode_read_op f caller buf len)
  | FopsPipe => run (pipe_read_op f caller buf len)
  | FopsSocket => run (socket_recv_object caller (f_object f) buf len)
  end.

Definition file_write (f : file) (caller buf len : Z) : K Z :=
  let run op :=
    if f_writable f =? 0 then mret (- CFG_EBADF) else
    block ← gets (fun s => not_ready s f (Z.lor (Z.lor CFG_POLLOUT CFG_POLLERR) CFG_POLLHUP)) ;
    if (block : bool) then mret (- CFG_EAGAIN) else op in
  match f_ops f with
  | FopsNull | FopsKeyboard => mret (- CFG_EBADF)
  | FopsConsole => run (console_write_op buf len)
  | FopsVnode => run (vnode_write_op f caller buf len)
  | FopsPipe => run (pipe_write_op f caller buf len)
  | FopsSocket => run (socket_send_object caller (f_object f) buf len)
  end.

(** ** Directories, metadata, position *)

Definition file_getdents (f : file) (caller destination count : Z) : K Z :=
  if not_file f then mret (- CFG_EBADF) else
  let i := f_object f in
  o ← gets (fun s => open_at s i) ;
  if (of_used o =? 0) || (i_type (vn_inode (of_vnode o)) !=? CFG_T_DIR) then mret (- CFG_ENOTDIR) else
  if count <? sizeof_dirent then mret (- CFG_EINVAL) else
  r ← vnode_getdents (of_vnode o) caller (of_offset o) destination count ;
  mopen i (fun o => o <| of_offset := r.2 |>) ;;
  mret r.1.

Definition file_is_tty (s : kernel) (f : file) : bool :=
  if (f_type f =? CFG_FT_KBD) || (f_type f =? CFG_FT_CONS) then true else
  if not_file f then false else
  let o := open_at s (f_object f) in
  (of_used o !=? 0) && vnode_is_tty (of_vnode o).

Definition file_stat (f : file) : K (Z + guest_stat) :=
  if not_file f then mret (inl (- CFG_EBADF)) else
  let i := f_object f in
  o ← gets (fun s => open_at s i) ;
  if of_used o =? 0 then mret (inl (- CFG_EBADF)) else
  r ← vnode_stat (of_vnode o) ;
  mopen i (fun o => o <| of_vnode := r.2 |>) ;;
  mret (inr r.1).

(** The position [lseek] asks for; [None] for a bad [whence]. *)
Definition seek_target (i offset whence : Z) : K (option Z) :=
  o ← gets (fun s => open_at s i) ;
  if whence =? CFG_SEEK_SET then mret (Some offset)
  else if whence =? CFG_SEEK_CUR then mret (Some (of_offset o +! offset))
  else if whence =? CFG_SEEK_END then
    r ← vnode_stat (of_vnode o) ;
    mopen i (fun o => o <| of_vnode := r.2 |>) ;;
    mret (Some (st_size r.1 +! offset))
  else mret None.

Definition file_lseek (f : file) (offset whence : Z) : K Z :=
  if not_file f then mret (- CFG_ESPIPE) else
  let i := f_object f in
  o ← gets (fun s => open_at s i) ;
  if of_used o =? 0 then mret (- CFG_EBADF) else
  t ← seek_target i offset whence ;
  match t with
  | None => mret (- CFG_EINVAL)
  | Some next =>
      if next <? 0 then mret (- CFG_EINVAL) else
      mopen i (fun o => o <| of_offset := next |>) ;;
      mret next
  end.

(** ** Closing and sharing *)

Definition vnode_close_op (f : file) : K unit :=
  let i := f_object f in
  mopen i (fun o => o <| of_refs ::= fun r => r -! 1 |>) ;;
  o ← gets (fun s => open_at s i) ;
  when (of_refs o =? 0)
    (vnode_do_release (of_vnode o) ;;
     mopen i (fun o => o <| of_used := 0 |>)).

Definition vnode_retain_op (f : file) : K unit :=
  mopen (f_object f) (fun o => o <| of_refs ::= fun r => r +! 1 |>).

Definition pipe_close_op (f : file) : K unit :=
  let pp := f_object f in
  mpipe pp (fun q => if f_pipe_end f =? 1 then q <| pi_nwrite ::= fun n => n -! 1 |>
                     else q <| pi_nread ::= fun n => n -! 1 |>) ;;
  wakeup (ChanPipe pp) ;;
  poll_wakeup ;;
  q ← gets (fun s => pipe_at s pp) ;
  when ((pi_nread q =? 0) && (pi_nwrite q =? 0)) (mpipe pp (fun q => q <| pi_used := 0 |>)).

Definition pipe_retain_op (f : file) : K unit :=
  mpipe (f_object f) (fun q => if f_pipe_end f =? 1 then q <| pi_nwrite ::= fun n => n +! 1 |>
                               else q <| pi_nread ::= fun n => n +! 1 |>).

Definition file_close_op (f : file) : K unit :=
  match f_ops f with
  | FopsNull | FopsConsole | FopsKeyboard => mret tt
  | FopsVnode => vnode_close_op f
  | FopsPipe => pipe_close_op f
  | FopsSocket => socket_close (f_object f)
  end.

Definition file_close (p fd : Z) : K unit :=
  f ← gets (fun s => file_at s p fd) ;
  file_close_op f ;;
  file_reset p fd.

Definition file_retain (f : file) : K unit :=
  match f_ops f with
  | FopsNull | FopsConsole | FopsKeyboard => mret tt
  | FopsVnode => vnode_retain_op f
  | FopsPipe => pipe_retain_op f
  | FopsSocket => socket_retain (f_object f)
  end.

Definition fd_close (idx fd : Z) : K unit := file_close idx fd.

Definition clear_fds (idx : Z) : K unit :=
  for_ 0 (Z.to_nat CFG_NFD) (fun fd =>
    f ← gets (fun s => file_at s idx fd) ;
    when (f_type f !=? CFG_FT_NONE) (fd_close idx fd)).

(** The duplicate [copy_file] makes. *)
Definition file_dup (f : file) : file := f <| f_status_flags := 0 |>.

Definition copy_file (dst dst_fd src src_fd : Z) : K unit :=
  f ← gets (fun s => file_at s src src_fd) ;
  mfile dst dst_fd (fun _ => file_dup f) ;;
  file_retain (file_dup f).

Definition copy_fds (dst src : Z) : K unit :=
  for_ 0 (Z.to_nat CFG_NFD) (fun fd => copy_file dst fd src fd).

Definition close_exec_fds (idx : Z) : K unit :=
  for_ 0 (Z.to_nat CFG_NFD) (fun fd =>
    f ← gets (fun s => file_at s idx fd) ;
    when (has (f_fd_flags f) CFG_FD_CLOEXEC) (fd_close idx fd)).

(** ** Descriptors of a new process *)

Definition file_set_vnode (p fd inum : Z) : K Z :=
  node ← disk_vnode_init inum ; file_set_node p fd node.

(** A standard descriptor on the terminal. *)
Definition init_fd (idx fd : Z) (console : vnode) (readable writable flags : Z) : K unit :=
  file_set_node idx fd console ;;
  mfile idx fd (fun f => f <| f_readable := readable |> <| f_writable := writable |>) ;;
  file_set_status_flags idx fd flags.

Definition init_fds (idx : Z) : K unit :=
  for_ 0 (Z.to_nat CFG_NFD) (fun fd => file_reset idx fd) ;;
  console ← vfs_lookup (str "/dev/tty") true idx ;
  match console with
  | inl _ => panic "missing /dev/tty"
  | inr console =>
      init_fd idx 0 console 1 0 0 ;;
      init_fd idx 1 console 0 1 1 ;;
      init_fd idx 2 console 0 1 1
  end.
End with_vnodes.

Definition file_init : K unit :=
  for_ 0 (Z.to_nat CFG_NFILE) (fun i => mopen i (fun o => o <| of_used := 0 |>)).
