(* ===== verification/Process.v ===== *)
(** * Process: programs and processes ([exec.c], [process.c])

    Loading an executable and laying out its stack; the process table, fork, exit and
    wait. *)

From S2P Require Import Prelude Config Kernel Klog RawMem Linkage Sched Pipe Buf Inode Dir PageTable Vm Fault SigSend Tty Fd Network Device Vfs File.

(** * Loading executables ([exec.c])

    Paths, argument and environment strings are staged in kernel buffers, an
    image is loaded into a new address space, and the strings and their vectors
    are laid out on the first stack page.  A failed [copyinstr] leaves the part of
    the buffer it filled in C; the model leaves the buffer as it was, which no
    code can tell since the buffers are staged again before every use. *)

Definition mexec (g : exec_state -> exec_state) : K unit := modify (fun s => s <| k_exec ::= g |>).

(** Bytes stored in [argbuf] or [envbuf], and an element of [arg_off] or [env_off]. *)
Definition put_argbuf (at_ : Z) (bs : list Z) : K unit := mexec (fun r => r <| argbuf ::= fun b => blit b at_ bs |>).
Definition put_envbuf (at_ : Z) (bs : list Z) : K unit := mexec (fun r => r <| envbuf ::= fun b => blit b at_ bs |>).
Definition put_arg_off (i v : Z) : K unit := mexec (fun r => r <| arg_off ::= fun a => upd a i v |>).
Definition put_env_off (i v : Z) : K unit := mexec (fun r => r <| env_off ::= fun a => upd a i v |>).

(** The environment of a program started without one. *)
Definition default_env : K unit :=
  put_env_off 0 0 ;;
  put_envbuf 0 (str "PATH=/bin" ++ [0]) ;;
  put_env_off 1 10 ;;
  put_envbuf 10 (str "HOME=/" ++ [0]) ;;
  put_env_off 2 17 ;;
  put_envbuf 17 (str "TERM=jscpu" ++ [0]) ;;
  wr k_exec g_envc 3.

Definition build_args_single (kstr : list Z) : K unit :=
  put_arg_off 0 0 ;;
  put_argbuf 0 (kstr ++ [0]) ;;
  wr k_exec g_argc 1 ;;
  default_env.

(** The end of a string of [buf] that starts at [at_]. *)
Definition str_end (buf : Z -> Z) (at_ : Z) : option Z :=
  find_from (fun i => buf i =? 0) at_ (Z.to_nat CFG_ARGBUF_LEN).

(** The bytes that [count] packed strings take; the last one starts at
    [off (count - 1)]. *)
Definition packed_total (buf : Z -> Z) (off : Z -> Z) (count : Z) : K Z :=
  if count >? 0 then
    match str_end buf (off (count - 1)) with
    | Some e => mret (e + 1)
    | None => kstop OutOfFuel
    end
  else mret 0.

(** The pointers of a vector: word [i] is [base + off i]. *)
Definition write_vector (at_ base : Z) (off : Z -> Z) (count : Z) : K unit :=
  for_ 0 (Z.to_nat count) (fun i => write32_at (at_ + i * 4) (base + off i)) ;;
  write32_at (at_ + count * 4) 0.

Definition setup_user_args (idx pd : Z) : K Z :=
  let top_page := CFG_USER_STACK_TOP - 4096 in
  avail ← frame_available ;
  if negb avail then mret (- CFG_ENOMEM) else
  sframe ← alloc_frame ;
  zero_page sframe ;;
  map_page pd top_page sframe CFG_PTE_USER ;;
  x ← gets k_exec ;
  argtotal ← packed_total (argbuf x) (arg_off x) (g_argc x) ;
  envtotal ← packed_total (envbuf x) (env_off x) (g_envc x) ;
  let strbase := Z.land (CFG_USER_STACK_TOP - argtotal - envtotal) (-4) in
  let argstr := strbase in
  let envstr := strbase + argtotal in
  when (argtotal >? 0)
    (write_bytes (sframe + (argstr - top_page)) (slice (argbuf x) 0 (Z.to_nat argtotal))) ;;
  when (envtotal >? 0)
    (write_bytes (sframe + (envstr - top_page)) (slice (envbuf x) 0 (Z.to_nat envtotal))) ;;
  let envaddr := Z.land (strbase - (g_envc x + 1) * 4) (-4) in
  let argvaddr := Z.land (envaddr - (g_argc x + 1) * 4) (-4) in
  if argvaddr <=? top_page then mret (- CFG_E2BIG) else
  write_vector (sframe + (envaddr - top_page)) envstr (env_off x) (g_envc x) ;;
  write_vector (sframe + (argvaddr - top_page)) argstr (arg_off x) (g_argc x) ;;
  wreg idx 0 (g_argc x) ;;
  wreg idx 1 argvaddr ;;
  wreg idx 2 envaddr ;;
  for_ 3 5 (fun i => wreg idx i 0) ;;
  mp_ idx (fun p => p <| p_ctx ::= fun c => c <| sp := argvaddr |> |>) ;;
  mret 0.

Section with_vnodes.
Context `{Linkage}.

Definition copy_path_in (p upath : Z) : K Z :=
  r ← copyinstr p upath CFG_INITPATH_LEN ;
  match r with
  | inl e => mret e
  | inr path => mexec (fun x => x <| kpath := path |>) ;; mret (strlen path)
  end.

(** Word [i] of a user vector, or [None] for -EFAULT. *)
Definition user_word (p uvec i : Z) : K (option Z) :=
  r ← copyin p (uvec +! i * 4) 4 ;
  mret ((fun bs => word bs 0) <$> r).

(** The loop of [build_args_from_user] and [build_env_from_user]: [n] entries
    may still be staged.  The count, or the error. *)
Fixpoint stage_strings (put : Z -> list Z -> K unit) (put_off : Z -> Z -> K unit)
    (p uvec count total : Z) (n : nat) : K (Z + Z) :=
  w ← user_word p uvec count ;
  match w, n with
  | None, _ => mret (inl (- CFG_EFAULT))
  | Some ptr, O => if ptr !=? 0 then mret (inl (- CFG_E2BIG)) else mret (inr count)
  | Some ptr, S n' =>
      if ptr =? 0 then mret (inr count) else
      put_off count total ;;
      r ← copyinstr p ptr (CFG_ARGBUF_LEN - total) ;
      match r with
      | inl e => mret (inl e)
      | inr text =>
          put total (text ++ [0]) ;;
          stage_strings put put_off p uvec (count + 1) (total + strlen text + 1) n'
      end
  end.

Definition build_args_from_user (p uargv : Z) : K Z :=
  r ← (if uargv !=? 0 then stage_strings put_argbuf put_arg_off p uargv 0 0 (Z.to_nat CFG_MAXARG)
       else mret (inr 0)) ;
  match r with
  | inl e => mret e
  | inr argc => wr k_exec g_argc argc ;; mret 0
  end.

Definition build_env_from_user (p uenvp : Z) : K Z :=
  if uenvp =? 0 then default_env ;; mret 0 else
  r ← stage_strings put_envbuf put_env_off p uenvp 0 0 (Z.to_nat CFG_MAXARG) ;
  match r with
  | inl e => mret e
  | inr envc => wr k_exec g_envc envc ;; mret 0
  end.

(** The checks on the three words of the header and the file size. *)
Definition header_bad (size magic entry memsz : Z) : bool :=
  (magic !=? CFG_EXEC_MAGIC) ||
  (memsz <=? 0) || (memsz >? CFG_USER_GUARD_PAGE - CFG_USER_LOAD_BASE) ||
  (size - 12 >? memsz) ||
  (entry <? CFG_USER_LOAD_BASE) || (entry >=? CFG_USER_LOAD_BASE + memsz).

(** Page [i] of the image: a zeroed frame, the bytes of the file, the mapping. *)
Definition load_page (pd : Z) (node : vnode) (i : Z) : K unit :=
  frame ← alloc_frame ;
  zero_page frame ;;
  cur ← rd k_sched current ;
  vnode_do_read node cur (12 + i * 4096) 4096 frame ;;
  map_page pd (CFG_USER_LOAD_BASE + i * 4096) frame CFG_PTE_USER.

Definition load_exec_image (pd : Z) (path : list Z) : K Z :=
  cur ← rd k_sched current ;
  r ← vfs_lookup path true cur ;
  match r with
  | inl e => mret e
  | inr node =>
      if i_type (vn_inode node) !=? CFG_T_FILE then mret (- CFG_ENOEXEC) else
      me ← gets (fun s => proc_at s cur) ;
      ok ← vnode_access node (p_uid me) (p_gid me) 1 ;
      if negb ok then mret (- CFG_EACCES) else
      if i_size (vn_inode node) <? 12 then mret (- CFG_ENOEXEC) else
      got ← vnode_do_read node cur 0 12 exec_hdr ;
      if got !=? 12 then mret (- CFG_ENOEXEC) else
      magic ← read32_at exec_hdr ;
      entry ← read32_at (exec_hdr + 4) ;
      memsz ← read32_at (exec_hdr + 8) ;
      if header_bad (i_size (vn_inode node)) magic entry memsz then mret (- CFG_ENOEXEC) else
      let npages := (memsz + 4095) / 4096 in
      wr k_exec g_exec_image_end (CFG_USER_LOAD_BASE + npages * 4096) ;;
      free ← free_frame_count ;
      if npages + 2 >? free then mret (- CFG_ENOMEM) else
      for_ 0 (Z.to_nat npages) (load_page pd node) ;;
      mret entry
  end.

(** A new address space running the program at [path]. *)
Definition spawn (idx : Z) (path : list Z) : K Z :=
  avail ← frame_available ;
  if negb avail then mret (- CFG_ENOMEM) else
  pd ← new_address_space ;
  entry ← load_exec_image pd path ;
  if entry <? 0 then free_space pd ;; mret entry else
  result ← setup_user_args idx pd ;
  if result <? 0 then free_space pd ;; mret result else
  image_end ← rd k_exec g_exec_image_end ;
  vm_init idx pd image_end ;;
  mp_ idx (fun p => p <| p_ctx ::= fun c => c <| pc := entry |> |>) ;;
  mp_ idx (fun p => p <| p_ctx ::= fun c => c <| mode := CFG_MODE_USER |> |>) ;;
  mp_ idx (fun p => p <| p_ctx ::= fun c => c <| flags := CFG_FLAG_IF |> |>) ;;
  mret 0.

(** The page directory to free, or 0. *)
Definition do_exec (idx upath uargv uenvp : Z) : K Z :=
  result ← copy_path_in idx upath ;
  if result <? 0 then wreg idx 0 result ;; mret 0 else
  result ← build_args_from_user idx uargv ;
  if result <? 0 then wreg idx 0 result ;; mret 0 else
  result ← build_env_from_user idx uenvp ;
  if result <? 0 then wreg idx 0 result ;; mret 0 else
  old_pd ← gets (fun s => ptbr_at s idx) ;
  path ← rd k_exec kpath ;
  result ← spawn idx path ;
  if result <? 0 then wreg idx 0 result ;; mret 0 else
  signal_exec_proc idx ;;
  close_exec_fds idx ;;
  mret old_pd.
End with_vnodes.

(** * The process table ([process.c])

    Slot allocation, the first process, fork, exit and wait. *)

Definition alloc_proc : K Z :=
  n ← rd k_procs nproc ;
  free ← gets (fun s => find_from (fun i => p_state (proc_at s i) =? CFG_ST_UNUSED) 0 (nprocs s)) ;
  match free with
  | Some i => mret i
  | None =>
      if n >=? CFG_MAX_PROC then mret (-1) else
      wr k_procs nproc (n + 1) ;;
      mret n
  end.

Definition wait_matches (s : kernel) (parent child pid : Z) : bool :=
  let c := proc_at s child in
  if p_parent c !=? parent then false
  else if pid >? 0 then child =? pid
  else if pid =? 0 then p_pgid c =? p_pgid (proc_at s parent)
  else if pid <? -1 then p_pgid c =? 0 -! pid
  else true.

Section with_vnodes.
Context `{Linkage}.

Definition setup_process_boot (path : list Z) : K Z :=
  idx ← alloc_proc ;
  when (idx <? 0) (panic "no process slot for init") ;;
  build_args_single path ;;
  r ← spawn idx path ;
  when (r <? 0) (panic "boot: invalid init executable") ;;
  wp_ idx p_parent (-1) ;;
  wp_ idx p_pgid idx ;;
  wp_ idx p_sid idx ;;
  wp_ idx p_uid 0 ;;
  wp_ idx p_gid 0 ;;
  signal_init_proc idx ;;
  wp_ idx p_state CFG_ST_RUNNABLE ;;
  init_fds idx ;;
  mret idx.

Definition fork_process (parent : Z) : K Z :=
  bad ← gets (fun s => (parent <? 0) || (parent >=? nproc (k_procs s)) ||
                       (p_state (proc_at s parent) =? CFG_ST_UNUSED)) ;
  when bad (panic "bad fork parent") ;;
  free ← free_frame_count ;
  if free <? 4 then mret (- CFG_ENOMEM) else
  idx ← alloc_proc ;
  if idx <? 0 then mret (- CFG_EAGAIN) else
  pd ← new_address_space ;
  mvm idx (fun v => v <| ptbr := pd |>) ;;
  vm_fork idx parent ;;
  src ← gets (fun s => ptbr_at s parent) ;
  copy_space src pd ;;
  pp ← gets (fun s => proc_at s parent) ;
  for_ 0 8 (fun i => wreg idx i (regs (p_ctx pp) i)) ;;
  mp_ idx (fun p => p <| p_ctx ::= fun c => c <| pc := pc (p_ctx pp) |> |>) ;;
  mp_ idx (fun p => p <| p_ctx ::= fun c => c <| sp := sp (p_ctx pp) |> |>) ;;
  mp_ idx (fun p => p <| p_ctx ::= fun c => c <| mode := mode (p_ctx pp) |> |>) ;;
  mp_ idx (fun p => p <| p_ctx ::= fun c => c <| flags := flags (p_ctx pp) |> |>) ;;
  wp_ idx p_pgid (p_pgid pp) ;;
  wp_ idx p_sid (p_sid pp) ;;
  wp_ idx p_uid (p_uid pp) ;;
  wp_ idx p_gid (p_gid pp) ;;
  signal_fork_proc idx parent ;;
  mret idx.

Definition do_fork (parent : Z) : K Z :=
  idx ← fork_process parent ;
  if idx <? 0 then mret idx else
  wp_ idx p_parent parent ;;
  wp_ idx p_state CFG_ST_RUNNABLE ;;
  copy_fds idx parent ;;
  wreg idx 0 0 ;;
  mret idx.

(** Orphans, zombies included, are adopted by slot 0. *)
Definition adopt (idx i : Z) : K unit :=
  p ← gets (fun s => proc_at s i) ;
  when ((p_parent p =? idx) && (p_state p !=? CFG_ST_UNUSED))
    (wp_ i p_parent 0 ;;
     when (p_state p =? CFG_ST_ZOMBIE) (wakeup (ChanProc 0))).

Definition do_exit (idx code : Z) : K unit :=
  wp_ idx p_exit_code code ;;
  clear_fds idx ;;
  wp_ idx p_state CFG_ST_ZOMBIE ;;
  p ← rp idx p_parent ;
  when (p >=? 0) (notify_parent idx) ;;
  n ← gets nprocs ;
  for_ 0 n (adopt idx).

(** Store a wait status; [true] if it could not be stored. *)
Definition status_fails (parent status value : Z) : K bool :=
  if status =? 0 then mret false else
  r ← copyout parent status (le_bytes32 value) ;
  mret (r <? 0).

(** What [do_waitpid] does about child [i]: the directory to free (or 0) when it
    returns here. *)
Definition wait_child (parent pid status options i : Z) : K (option Z) :=
  c ← gets (fun s => proc_at s i) ;
  m ← gets (fun s => wait_matches s parent i pid) ;
  if m && (p_state c =? CFG_ST_ZOMBIE) then
    bad ← status_fails parent status
      (if p_wait_signal c !=? 0 then p_wait_signal c else shl (p_exit_code c) 8) ;
    if (bad : bool) then wreg parent 0 (- CFG_EFAULT) ;; mret (Some 0) else
    wreg parent 0 i ;;
    vm_release i ;;
    wp_ i p_state CFG_ST_UNUSED ;;
    pd ← gets (fun s => ptbr_at s i) ;
    mret (Some pd)
  else if m && (p_wait_event c =? CFG_WUNTRACED) && has options CFG_WUNTRACED then
    bad ← status_fails parent status (Z.lor (shl (p_wait_signal c) 8) 127) ;
    if (bad : bool) then wreg parent 0 (- CFG_EFAULT) ;; mret (Some 0) else
    wp_ i p_wait_event 0 ;;
    wreg parent 0 i ;;
    mret (Some 0)
  else if m && (p_wait_event c =? CFG_WCONTINUED) && has options CFG_WCONTINUED then
    bad ← status_fails parent status 65535 ;
    if (bad : bool) then wreg parent 0 (- CFG_EFAULT) ;; mret (Some 0) else
    wp_ i p_wait_event 0 ;;
    wreg parent 0 i ;;
    mret (Some 0)
  else mret None.

Definition has_child (s : kernel) (parent pid : Z) : bool :=
  exists_from (fun i => wait_matches s parent i pid && (p_state (proc_at s i) !=? CFG_ST_UNUSED))
    0 (nprocs s).

(** The page directory of the reaped child, freed by the caller, or 0. *)
Definition do_waitpid (parent pid status options : Z) : K Z :=
  n ← gets nprocs ;
  or_else (for_ret 0 n (wait_child parent pid status options))
    (alive ← gets (fun s => has_child s parent pid) ;
     if negb alive then wreg parent 0 (- CFG_ECHILD) ;; mret 0 else
     if has options CFG_WNOHANG then wreg parent 0 0 ;; mret 0 else
     mp_ parent (fun p => p <| p_ctx ::= fun c => c <| pc ::= fun x => x -! CFG_SYSCALL_INSTR_SIZE |> |>) ;;
     sleep parent (ChanProc parent) ;;
     mret 0).

Definition do_wait (parent : Z) : K Z := do_waitpid parent (-1) 0 0.
End with_vnodes.
