(* ===== verification/Signal.v ===== *)
(** * Signal: delivery and the signal system calls ([signal.c], lines 240-403) *)

From S2P Require Import Prelude Config Kernel Klog RawMem Linkage Sched Pipe Buf Inode Dir PageTable Vm Fault SigSend Tty Fd Network Device Vfs File Process.

(** The process with signal [signal] taken: its context and mask are saved, and
    the signals of the handler's mask are blocked. *)
Definition enter_handler (signal : Z) (p : proc) : proc :=
  p <| p_signal_saved_ctx := p_ctx p |> <| p_signal_saved_mask := p_blocked_signals p |>
    <| p_in_signal := 1 |>
    <| p_blocked_signals := Z.lor (Z.lor (p_blocked_signals p) (p_signal_masks p signal)) (signal_bit signal) |>.

Definition unpend (signal : Z) (p : proc) : proc :=
  p <| p_pending_signals ::= fun m => Z.land m (bnot (signal_bit signal)) |>.

(** The key bytes that have not reached the terminal: each may post a signal. *)
Definition keys_pending (s : kernel) : nat :=
  length (hw_kbd (k_hw s)) +
  sum_list ((fun e => match e with EvKeys bs => length bs | _ => 0%nat end) <$> hw_events (k_hw s)).

(** Every round takes a pending signal.  Each of the CFG_MAX_PROC processes has at
    most CFG_NSIG of them and adds at most one for its parent when it stops or
    exits; a key posts at most one to each process. *)
Definition signal_fuel (s : kernel) : nat :=
  Z.to_nat (2 * CFG_MAX_PROC * CFG_NSIG) + Z.to_nat CFG_MAX_PROC * keys_pending s.

Section with_vnodes.
Context `{Linkage}.

(** [switch_to_next(); idx = current;] *)
Definition switch_away : K Z := switch_to_next ;; rd k_sched current.

(** Run the handler of [signal]: the frame is the saved context in the process
    and the address of the restorer on the user stack. *)
Definition run_handler (idx signal handler : Z) : K (Z + unit) :=
  p ← gets (fun s => proc_at s idx) ;
  let restorer := p_signal_restorers p signal in
  if restorer =? 0 then
    do_exit idx (128 + CFG_SIGSEGV) ;; idx ← switch_away ; mret (inl idx)
  else
    mp_ idx (enter_handler signal) ;;
    let sp' := sp (p_ctx p) -! 4 in
    result ← copyout idx sp' (le_bytes32 restorer) ;
    if result <? 0 then
      do_exit idx (128 + CFG_SIGSEGV) ;; idx ← switch_away ; mret (inl idx)
    else
      mp_ idx (fun p => p <| p_ctx ::= fun c => c <| sp := sp' |> |>) ;;
      mp_ idx (fun p => p <| p_ctx ::= fun c => c <| pc := handler |> |>) ;;
      wreg idx 0 signal ;;
      mret (inr tt).

(** One round of the loop of [prepare_signal] for process [idx]. *)
Definition signal_round (idx : Z) : K (Z + unit) :=
  signal ← gets (fun s => next_deliverable_signal s idx) ;
  if signal =? 0 then mret (inr tt) else
  mp_ idx (unpend signal) ;;
  p ← gets (fun s => proc_at s idx) ;
  let handler := p_signal_handlers p signal in
  if (handler =? CFG_SIG_IGN) && negb (signal_cannot_catch signal) then mret (inl idx) else
  if (handler =? CFG_SIG_DFL) || signal_cannot_catch signal then
    if default_ignored signal then mret (inl idx) else
    if default_stops signal then
      stop_process idx signal ;; idx ← switch_away ; mret (inl idx)
    else
      do_exit idx (128 + signal) ;;
      wp_ idx p_wait_signal signal ;;
      idx ← switch_away ; mret (inl idx)
  else run_handler idx signal handler.

Definition do_prepare_signal (idx : Z) : K unit :=
  p ← gets (fun s => proc_at s idx) ;
  if (idx <? 0) || (p_state p !=? CFG_ST_RUNNABLE) || (p_in_signal p !=? 0) then mret tt else
  fuel ← gets signal_fuel ;
  while_ fuel signal_round idx.

Definition sys_sigaction (caller signal action old_action : Z) : K Z :=
  if (signal <=? 0) || (signal >=? CFG_NSIG) then mret (- CFG_EINVAL) else
  p ← gets (fun s => proc_at s caller) ;
  r ← (if old_action !=? 0 then
         copyout caller old_action
           (le_bytes32 (p_signal_handlers p signal) ++ le_bytes32 (p_signal_masks p signal) ++
            le_bytes32 0 ++ le_bytes32 (p_signal_restorers p signal))
       else mret 0) ;
  if r <? 0 then mret (- CFG_EFAULT) else
  if action =? 0 then mret 0 else
  data ← copyin caller action 16 ;
  match data with
  | None => mret (- CFG_EFAULT)
  | Some bs =>
      if signal_cannot_catch signal && (word bs 0 !=? CFG_SIG_DFL) then mret (- CFG_EINVAL) else
      mp_ caller (fun p => p <| p_signal_handlers ::= fun h => upd h signal (word bs 0) |>) ;;
      mp_ caller (fun p => p <| p_signal_masks ::= fun h => upd h signal (word bs 1) |>) ;;
      mp_ caller (fun p => p <| p_signal_restorers ::= fun h => upd h signal (word bs 3) |>) ;;
      mret 0
  end.

(** The mask without SIGKILL and SIGSTOP. *)
Definition maskable (mask : Z) : Z :=
  Z.land (Z.land mask (bnot (signal_bit CFG_SIGKILL))) (bnot (signal_bit CFG_SIGSTOP)).

Definition sys_sigprocmask (caller how mask old_mask : Z) : K Z :=
  blocked ← rp caller p_blocked_signals ;
  r ← (if old_mask !=? 0 then copyout caller old_mask (le_bytes32 blocked) else mret 0) ;
  if r <? 0 then mret (- CFG_EFAULT) else
  let mask := maskable mask in
  if how =? CFG_SIG_BLOCK then
    mp_ caller (fun p => p <| p_blocked_signals ::= fun m => Z.lor m mask |>) ;; mret 0
  else if how =? CFG_SIG_UNBLOCK then
    mp_ caller (fun p => p <| p_blocked_signals ::= fun m => Z.land m (bnot mask) |>) ;; mret 0
  else if how =? CFG_SIG_SETMASK then
    wp_ caller p_blocked_signals mask ;; mret 0
  else mret (- CFG_EINVAL).
End with_vnodes.

Definition sys_sigreturn (caller : Z) : K Z :=
  p ← gets (fun s => proc_at s caller) ;
  if p_in_signal p =? 0 then mret (- CFG_EINVAL) else
  wp_ caller p_ctx (p_signal_saved_ctx p) ;;
  wp_ caller p_blocked_signals (p_signal_saved_mask p) ;;
  wp_ caller p_in_signal 0 ;;
  mret 0.

Definition sys_setpgid (caller pid pgid : Z) : K Z :=
  let target := if pid =? 0 then caller else pid in
  n ← rd k_procs nproc ;
  t ← gets (fun s => proc_at s target) ;
  me ← gets (fun s => proc_at s caller) ;
  if (target <? 0) || (target >=? n) || (p_state t =? CFG_ST_UNUSED) then mret (- CFG_ESRCH) else
  if (target !=? caller) && (p_parent t !=? caller) then mret (- CFG_EPERM) else
  if p_sid t !=? p_sid me then mret (- CFG_EPERM) else
  wp_ target p_pgid (if pgid =? 0 then target else pgid) ;;
  mret 0.

Definition sys_setsid (caller : Z) : K Z :=
  leads ← gets (fun s => exists_from (fun i =>
    (p_state (proc_at s i) !=? CFG_ST_UNUSED) && (p_pgid (proc_at s i) =? caller)) 0 (nprocs s)) ;
  if (leads : bool) then mret (- CFG_EPERM) else
  wp_ caller p_sid caller ;;
  wp_ caller p_pgid caller ;;
  mret caller.
