(* ===== verification/SignalSpec.v ===== *)
(** * SignalSpec: posting, masking and delivering signals

    Which signal is delivered next, what the mask system call may do, what a
    posted signal does to a sleeper, and that a handler runs on a frame from which
    sigreturn restores the interrupted program. *)

From S2P Require Import Prelude Config Kernel Klog RawMem Frames Linkage Sched Pipe Buf Inode Dir PageTable Vm Fault FaultSpec SigSend Tty Fd Network Device Vfs File Process Signal.

(** ** Which signal *)

(** Signal [k] is pending and not blocked. *)
Definition deliverable (s : kernel) (p k : Z) : bool :=
  Z.testbit (p_pending_signals (proc_at s p)) k && negb (Z.testbit (p_blocked_signals (proc_at s p)) k).

Lemma has_unblocked pend bl k :
  is_i32 pend -> is_i32 bl -> 0 <= k < 32 ->
  has (Z.land pend (bnot bl)) (shl 1 k) = Z.testbit pend k && negb (Z.testbit bl k).
Proof.
  intros Hp Hb Hk. rewrite has_word_bit by (done || by apply is_i32_land, is_i32_bnot).
  rewrite Z.land_spec. unfold bnot. by rewrite Z.lnot_spec by lia.
Qed.

(** The signal chosen for delivery is the lowest one from 1 to 31 that is
    pending and not blocked, and 0 exactly when there is none. *)
Theorem next_deliverable_lowest s p :
  is_i32 (p_pending_signals (proc_at s p)) -> is_i32 (p_blocked_signals (proc_at s p)) ->
  let k := next_deliverable_signal s p in
  (k = 0 /\ forall j, 1 <= j < CFG_NSIG -> deliverable s p j = false) \/
  (1 <= k < CFG_NSIG /\ deliverable s p k = true /\ forall j, 1 <= j < k -> deliverable s p j = false).
Proof.
  intros Hp Hb k. unfold k, next_deliverable_signal. set (pend := p_pending_signals _) in *.
  set (bl := p_blocked_signals _) in *.
  assert (Hd : forall j, 0 <= j < 32 -> deliverable s p j = has (Z.land pend (bnot bl)) (shl 1 j))
    by (intros j Hj; by rewrite has_unblocked).
  change (Z.of_nat (NSIG - 1)) with 31 in *.
  destruct (Z.eqb_spec (Z.land pend (bnot bl)) 0) as [E|_].
  - left. split; [done|]. intros j Hj. rewrite Hd by clia. rewrite E. done.
  - destruct (find_from _ 1 (NSIG - 1)) as [i|] eqn:E; cbn [from_option].
    + apply find_from_Some in E as (Hi & Hh & Hl). change (Z.of_nat (NSIG - 1)) with 31 in Hi.
      right. unfold id. split; [clia|]. rewrite Hd by lia. split; [done|].
      intros j Hj. rewrite Hd by lia. by apply Hl.
    + left. split; [done|]. intros j Hj. rewrite Hd by clia. apply (find_from_None _ _ _ E).
      change (Z.of_nat (NSIG - 1)) with 31. clia.
Qed.

Definition demo_signals : kernel :=
  slot_upd 0 (fun q => q <| p_pending_signals := -2147483136 |> <| p_blocked_signals := 512 |>) kernel0.

Lemma next_deliverable_lowest_witness :
  next_deliverable_signal demo_signals 0 = 31 /\
  ((31 = 0 /\ forall j, 1 <= j < CFG_NSIG -> deliverable demo_signals 0 j = false) \/
   (1 <= 31 < CFG_NSIG /\ deliverable demo_signals 0 31 = true /\
    forall j, 1 <= j < 31 -> deliverable demo_signals 0 j = false)).
Proof.
  split; [vm_compute; reflexivity|].
  apply (next_deliverable_lowest demo_signals 0); vm_compute; (split; [discriminate|reflexivity]).
Defined.

(** ** The mask *)

Lemma maskable_bit mask k :
  is_i32 mask -> 0 <= k < 32 -> Z.testbit (maskable mask) k = Z.testbit mask k && negb (signal_cannot_catch k).
Proof.
  intros Hm Hk. unfold maskable, bnot, signal_bit, signal_cannot_catch.
  rewrite !Z.land_spec, !Z.lnot_spec, !word_bit_testbit by clia.
  by rewrite negb_orb, andb_assoc.
Qed.

(** A mask as the three operations of the call change it, bit by bit. *)
Definition mask_bit (how : Z) (old new : bool) : bool :=
  if how =? CFG_SIG_BLOCK then old || new
  else if how =? CFG_SIG_UNBLOCK then old && negb new else new.

Section mask.
Context {L : Linkage}.

Lemma wp_store_word s p a v (Q : Z -> kernel -> Prop) :
  (a = 0 \/ user_range s p a 4 true) ->
  (forall m, (a <> 0 -> range_mem s p a 4 m) ->
     (a <> 0 -> copyin p a 4 (with_phys m s) = Ret (Some (le_bytes32 v)) (with_phys m s)) ->
     Q 0 (with_phys m s)) ->
  wp (if a !=? 0 then copyout p a (le_bytes32 v) else mret 0) Q s.
Proof.
  intros Ha HQ. destruct (Z.eqb_spec a 0) as [->|Hne]; cbn [negb].
  - wp_auto. rewrite <-(with_phys_id s). by apply HQ.
  - destruct Ha as [?|R]; [done|].
    eapply wp_mono; [apply (copyout_back s p a (le_bytes32 v) R)|].
    + apply le_bytes32_bytes.
    + intros r s' (-> & (m & -> & Hm) & Hback). by apply HQ.
Qed.
End mask.

(** sigprocmask hands out the old mask, and changes the mask of the caller bit
    by bit as the operation says, except that SIGKILL and SIGSTOP can not be newly
    blocked; an unknown operation is EINVAL and leaves the mask alone. *)
Theorem sigprocmask_exact `{Linkage} s p how mask old :
  is_i32 mask -> is_i32 (p_blocked_signals (proc_at s p)) ->
  (old = 0 \/ user_range s p old 4 true) ->
  wp (sys_sigprocmask p how mask old) (fun r s' => exists m,
    (old <> 0 -> range_mem s p old 4 m /\
       copyin p old 4 (with_phys m s) =
       Ret (Some (le_bytes32 (p_blocked_signals (proc_at s p)))) (with_phys m s)) /\
    if (0 <=? how) && (how <=? 2) then
      r = 0 /\ exists blocked, s' = slot_upd p (fun q => q <| p_blocked_signals := blocked |>) (with_phys m s) /\
        is_i32 blocked /\
        forall k, 0 <= k < CFG_NSIG -> Z.testbit blocked k =
          mask_bit how (Z.testbit (p_blocked_signals (proc_at s p)) k)
                   (Z.testbit mask k && negb (signal_cannot_catch k))
    else r = - CFG_EINVAL /\ s' = with_phys m s) s.
Proof.
  intros Hm Hb Ha. unfold sys_sigprocmask. wp_auto. apply (wp_store_word s p old _ _ Ha).
  intros m Hr Hc. cbn [Z.ltb Z.compare]. cbv zeta.
  assert (Hmi : is_i32 (maskable mask)).
  { unfold maskable. repeat apply is_i32_land; [done|apply is_i32_bnot, i32_range..]. }
  set (old_mask := p_blocked_signals (proc_at s p)) in *.
  assert (Hold : p_blocked_signals (proc_at (with_phys m s) p) = old_mask) by done.
  unfold mask_bit.
  wp_case E1; bool_hyps; [subst how; wp_auto; exists m; split; [tauto|]; split; [done|];
    exists (Z.lor old_mask (maskable mask)); split; [done|]; split; [by apply is_i32_lor|];
    intros k Hk; rewrite Z.lor_spec, maskable_bit by (done || clia); done|].
  wp_case E2; bool_hyps; [subst how; wp_auto; exists m; split; [tauto|]; split; [done|];
    exists (Z.land old_mask (bnot (maskable mask))); split; [done|];
    split; [by apply is_i32_land, is_i32_bnot|];
    intros k Hk; unfold bnot; rewrite Z.land_spec, Z.lnot_spec, maskable_bit by (done || clia); done|].
  wp_case E3; bool_hyps; [subst how; wp_auto; exists m; split; [tauto|]; split; [done|];
    exists (maskable mask); split; [done|]; split; [done|];
    intros k Hk; rewrite maskable_bit by (done || clia); done|].
  wp_auto. exists m. split; [tauto|].
  rewrite (proj2 (andb_false_iff _ _)); [done|]. rewrite Z.leb_gt, Z.leb_gt. clia.
Qed.

Lemma sigprocmask_exact_witness :
  wp (@sys_sigprocmask Sched.idle_linkage 0 CFG_SIG_BLOCK 0x80202 CFG_USER_BASE) (fun r s' =>
    r = 0) (slot_upd 0 (fun q => q <| p_blocked_signals := 4 |>) demo_user).
Proof.
  eapply wp_mono.
  - apply (@sigprocmask_exact Sched.idle_linkage _ 0 CFG_SIG_BLOCK 0x80202 CFG_USER_BASE).
    + split; [discriminate|reflexivity].
    + split; [discriminate|reflexivity].
    + right. apply user_range_slot; [done|]. apply demo_user_range; clia.
  - intros r s' (m & _ & H). apply H.
Defined.

(** ** Delivery to a handler *)

Lemma signal_fuel_pos s : exists n, signal_fuel s = S n.
Proof.
  unfold signal_fuel. pose proof (Z2Nat.id (2 * CFG_MAX_PROC * CFG_NSIG) ltac:(clia)) as H.
  assert (0 < 2 * CFG_MAX_PROC * CFG_NSIG) by clia. revert H.
  generalize (Z.to_nat (2 * CFG_MAX_PROC * CFG_NSIG)). intros a H.
  exists (a + Z.to_nat CFG_MAX_PROC * keys_pending s - 1)%nat. lia.
Qed.

(** Process [q] can take signal [sig] in a handler of its own. *)
Record takes_signal (s : kernel) (p sig : Z) : Prop := {
  ts_state : p_state (proc_at s p) = CFG_ST_RUNNABLE;
  ts_idle : p_in_signal (proc_at s p) = 0;
  ts_next : next_deliverable_signal s p = sig;
  ts_sig : sig <> 0;
  ts_catch : signal_cannot_catch sig = false;
  ts_dfl : p_signal_handlers (proc_at s p) sig <> CFG_SIG_DFL;
  ts_ign : p_signal_handlers (proc_at s p) sig <> CFG_SIG_IGN;
  ts_restorer : p_signal_restorers (proc_at s p) sig <> 0;
  ts_stack : user_range s p (sp (p_ctx (proc_at s p)) -! 4) 4 true }.

(** The process as its handler starts. *)
Definition in_handler (sig : Z) (q : proc) : proc :=
  (enter_handler sig (unpend sig q)) <| p_ctx := Build_cpu_context (upd (regs (p_ctx q)) 0 sig)
    (p_signal_handlers q sig) (sp (p_ctx q) -! 4) (flags (p_ctx q)) (mode (p_ctx q)) |>.

(** The assignments of the delivery, one after the other, give that state. *)
Lemma in_handler_steps sig q :
  (((enter_handler sig (unpend sig q))
    <| p_ctx ::= fun c => c <| sp := sp (p_ctx q) -! 4 |> |>)
    <| p_ctx ::= fun c => c <| pc := p_signal_handlers q sig |> |>)
    <| p_ctx ::= set_reg 0 sig |> = in_handler sig q.
Proof. destruct q. cbv -[i32 upd Z.lor Z.land signal_bit bnot Z.sub]. reflexivity. Qed.

Section delivery.
Context {L : Linkage}.

Lemma wp_prepare_handler s p sig (Q : unit -> kernel -> Prop) :
  takes_signal s p sig ->
  let a := sp (p_ctx (proc_at s p)) -! 4 in
  (forall m, let s' := slot_upd p (in_handler sig) (with_phys m s) in
     range_mem s p a 4 m ->
     copyin p a 4 s' = Ret (Some (le_bytes32 (p_signal_restorers (proc_at s p) sig))) s' -> Q tt s') ->
  wp (do_prepare_signal p) Q s.
Proof.
  intros T a HQ. unfold do_prepare_signal. wp_auto.
  pose proof (ur_proc _ _ _ _ _ (ts_stack _ _ _ T)) as Hp.
  rewrite (ts_state _ _ _ T), (ts_idle _ _ _ T).
  destruct (Z.ltb_spec p 0); [lia|]. cbn [orb]. rewrite !Z.eqb_refl. cbn [negb orb]. wp_auto.
  destruct (signal_fuel_pos s) as [n ->]. apply wp_while_S. unfold signal_round. wp_auto.
  rewrite (ts_next _ _ _ T), (proj2 (Z.eqb_neq _ _) (ts_sig _ _ _ T)). wp_auto. cbv zeta.
  rewrite proc_at_slot_upd. change (p_signal_handlers (unpend sig ?q)) with (p_signal_handlers q).
  rewrite (proj2 (Z.eqb_neq _ _) (ts_ign _ _ _ T)), (proj2 (Z.eqb_neq _ _) (ts_dfl _ _ _ T)),
    (ts_catch _ _ _ T). cbn [andb orb negb]. unfold run_handler. wp_auto. cbv zeta.
  rewrite proc_at_slot_upd. change (p_signal_restorers (unpend sig ?q)) with (p_signal_restorers q).
  rewrite (proj2 (Z.eqb_neq _ _) (ts_restorer _ _ _ T)). wp_auto.
  rewrite slot_upd_slot_upd. change (sp (p_ctx (unpend sig (proc_at s p))) -! 4) with a.
  eapply wp_mono; [apply (copyout_back _ p a (le_bytes32 (p_signal_restorers (proc_at s p) sig)))|].
  { apply user_range_slot; [done|]. apply T. }
  { apply le_bytes32_bytes. }
  intros r s' (-> & (m & -> & Hm) & Hback). cbn [Z.ltb Z.compare]. wp_auto.
  set (g := fun q => enter_handler sig (unpend sig q)) in *.
  assert (R : user_range (with_phys m (slot_upd p g s)) p a 4 true).
  { apply (user_range_stable _ _ _ 4 _ _); [|done]. apply user_range_slot; [done|]. apply T. }
  change (Z.of_nat (length _)) with 4 in Hm, Hback.
  change (with_phys m (slot_upd p g s)) with (slot_upd p g (with_phys m s)) in *.
  match goal with |- Q tt ?F => assert (E : F = slot_upd p (in_handler sig) (with_phys m s)) end.
  { rewrite !slot_upd_slot_upd. apply slot_upd_ext. cbv beta. subst a g.
    change (proc_at (with_phys m s) p) with (proc_at s p). apply in_handler_steps. }
  apply user_range_read in R as Rr.
  rewrite E. apply HQ; [by unfold range_mem in *; rewrite ptbr_at_slot in Hm|]. rewrite <-E.
  do 3 (apply copyin_slot; [done|repeat first [exact Rr | apply user_range_slot; [done|]]|]). exact Hback.
Qed.
End delivery.

(** C26: delivering a signal to a handler and returning from it.  When the process
    is about to run again it starts in the handler with the signal number in R0,
    the address of the restorer on its stack and the signal and its mask blocked;
    no other process changes; and a later sigreturn restores exactly the
    interrupted registers and mask, whatever the handler did to its own. *)
Theorem signal_handler_roundtrip `{Linkage} s p sig :
  takes_signal s p sig ->
  let q := proc_at s p in
  let a := sp (p_ctx q) -! 4 in
  wp (do_prepare_signal p) (fun _ s' =>
    (exists m, s' = slot_upd p (in_handler sig) (with_phys m s) /\ range_mem s p a 4 m) /\
    pc (p_ctx (proc_at s' p)) = p_signal_handlers q sig /\
    regs (p_ctx (proc_at s' p)) 0 = sig /\
    sp (p_ctx (proc_at s' p)) = a /\
    copyin p a 4 s' = Ret (Some (le_bytes32 (p_signal_restorers q sig))) s' /\
    p_blocked_signals (proc_at s' p) =
      Z.lor (Z.lor (p_blocked_signals q) (p_signal_masks q sig)) (signal_bit sig) /\
    forall s2,
      p_in_signal (proc_at s2 p) = p_in_signal (proc_at s' p) ->
      p_signal_saved_ctx (proc_at s2 p) = p_signal_saved_ctx (proc_at s' p) ->
      p_signal_saved_mask (proc_at s2 p) = p_signal_saved_mask (proc_at s' p) ->
      wp (sys_sigreturn p) (fun r s3 => r = 0 /\
        s3 = slot_upd p (fun q2 => q2 <| p_ctx := p_ctx q |> <| p_blocked_signals := p_blocked_signals q |>
                                     <| p_in_signal := 0 |>) s2) s2) s.
Proof.
  intros T q a. apply (wp_prepare_handler s p sig _ T). intros m s' Hm Hc.
  assert (E : proc_at s' p = in_handler sig q) by apply proc_at_slot_upd. rewrite E.
  split; [by exists m|]. split; [done|]. split; [apply upd_same|]. split; [done|]. split; [exact Hc|].
  split; [done|]. intros s2 E1 E2 E3. unfold sys_sigreturn. wp_auto. rewrite E1.
  change (p_in_signal (in_handler sig q)) with 1. cbn [Z.eqb]. wp_auto. split; [done|].
  rewrite !slot_upd_slot_upd, E2, E3. done.
Qed.

(** ** Witness: SIGTERM is pending for process 0, which handles it *)

Definition demo_handler : kernel :=
  slot_upd 0 (fun q => q <| p_pending_signals := 32768 |>
    <| p_signal_handlers := upd (fun _ => CFG_SIG_DFL) CFG_SIGTERM (CFG_USER_BASE + 64) |>
    <| p_signal_restorers := upd (fun _ => 0) CFG_SIGTERM (CFG_USER_BASE + 96) |>
    <| p_ctx ::= fun c => c <| sp := CFG_USER_BASE + 4096 |> <| pc := CFG_USER_BASE + 16 |> |>) demo_user.

Lemma demo_takes_signal : takes_signal demo_handler 0 CFG_SIGTERM.
Proof.
  split; cycle 8.
  2-9: by vm_compute.
  apply user_range_slot; [done|]. apply demo_user_range; vm_compute; discriminate.
Qed.

Lemma signal_handler_roundtrip_witness :
  takes_signal demo_handler 0 CFG_SIGTERM /\
  wp (@do_prepare_signal Sched.idle_linkage 0) (fun _ s' => pc (p_ctx (proc_at s' 0)) = CFG_USER_BASE + 64 /\
    regs (p_ctx (proc_at s' 0)) 0 = CFG_SIGTERM) demo_handler.
Proof.
  split; [exact demo_takes_signal|].
  eapply wp_mono; [apply (@signal_handler_roundtrip Sched.idle_linkage _ _ _ demo_takes_signal)|].
  intros _ s' (_ & H1 & H2 & _). split; [exact H1|exact H2].
Defined.
