(* ===== verification/Syscall.v ===== *)
(** * Syscall: the system calls and their dispatch ([syscall.c], [drivers/power.c])

    [sys_*] implement a call, the [h_*] handlers adapt them to one signature, and
    [on_syscall] decodes the trapped registers, runs the handler of the table that
    [syscall_init] fills, stores the result and resumes a process. *)

From S2P Require Import Prelude Config Kernel Klog RawMem Linkage Sched Pipe Buf Inode Dir PageTable Vm Fault Mmap SigSend Tty Fd Network Device Vfs File Process Signal.

Definition bad_fd (fd : Z) : bool := (fd <? 0) || (fd >=? CFG_NFD).
(** The descriptor number is out of range or free. *)
Definition closed_fd (s : kernel) (caller fd : Z) : bool :=
  bad_fd fd || (f_type (file_at s caller fd) =? CFG_FT_NONE).

(** [struct guest_stat] and [struct guest_pollfd] as the user sees them. *)
Definition stat_bytes (st : guest_stat) : list Z :=
  mjoin (le_bytes32 <$>
    [st_dev st; st_ino st; st_mode st; st_nlink st; st_uid st; st_gid st; st_rdev st;
     st_size st; st_blksize st; st_blocks st; st_atime st; st_mtime st; st_ctime st]).
Definition sizeof_pollfd : Z := 12.
Definition pollfd_bytes (v : guest_pollfd) : list Z :=
  mjoin (le_bytes32 <$> [pf_fd v; pf_events v; pf_revents v]).
Definition pollfd_of_bytes (bs : list Z) : guest_pollfd :=
  Build_guest_pollfd (word bs 0) (word bs 1) (word bs 2).

Definition power_off : K unit := wr k_hw hw_power_off true.

(** A string in a field of [size] bytes: cut to leave room for a NUL, padded. *)
Definition copy_fixed_string (source : list Z) (size : Z) : list Z :=
  (fun i => if i <? size - 1 then nthz source i else 0) <$> seqZ 0 size.

Definition utsname : list Z :=
  mjoin ((fun t => copy_fixed_string (str t) 32) <$>
    ["jscpu-os"; "jscpu"; "0.4"; "phase21"; "custom32"; "local"]%string).

Section with_vnodes.
Context `{Linkage}.

(** ** Descriptors *)

Definition sys_write (caller fd buf len : Z) : K Z :=
  if len <? 0 then mret (- CFG_EINVAL) else
  ok ← user_access_ok caller buf len false ;
  if negb ok then mret (- CFG_EFAULT) else
  if bad_fd fd then mret (- CFG_EBADF) else
  f ← gets (fun s => file_at s caller fd) ;
  file_write f caller buf len.

Definition sys_read (caller fd buf len : Z) : K Z :=
  if len <? 0 then mret (- CFG_EINVAL) else
  ok ← user_access_ok caller buf len true ;
  if negb ok then mret (- CFG_EFAULT) else
  if bad_fd fd then mret (- CFG_EBADF) else
  f ← gets (fun s => file_at s caller fd) ;
  file_read f caller buf len.

(** Copy a path in and go on with it, or return the error. *)
Definition with_path (caller upath : Z) (k : list Z -> K Z) : K Z :=
  result ← copy_path_in caller upath ;
  if result <? 0 then mret result else
  path ← rd k_exec kpath ;
  k path.

(** The node to open: looked up, or created on O_CREATE. *)
Definition open_node (caller : Z) (path : list Z) (flags : Z) : K (Z + vnode) :=
  r ← vfs_lookup path true caller ;
  match r with
  | inr node => mret (inr node)
  | inl e =>
      if negb (has flags CFG_O_CREATE) then mret (inl e) else
      if e !=? - CFG_ENOENT then mret (inl e) else
      vfs_create path CFG_T_FILE 438 caller
  end.

Definition accmode (flags : Z) : Z := Z.land flags CFG_O_ACCMODE.

(** The permissions an access mode needs. *)
Definition open_mask (flags : Z) : Z :=
  if accmode flags =? CFG_O_WRONLY then 2 else if accmode flags =? CFG_O_RDWR then 6 else 4.

(** The last part of [sys_open]: the descriptor of an opened node. *)
Definition open_fd (caller : Z) (node : vnode) (flags : Z) : K Z :=
  fd ← gets (fun s => alloc_fd s caller) ;
  if fd <? 0 then mret (- CFG_EMFILE) else
  r ← file_set_node caller fd node ;
  if r <? 0 then mret (- CFG_ENFILE) else
  file_set_status_flags caller fd flags ;;
  (if accmode flags =? CFG_O_WRONLY then
     mfile caller fd (fun f => f <| f_readable := 0 |> <| f_writable := 1 |>)
   else when (accmode flags =? CFG_O_RDWR)
     (mfile caller fd (fun f => f <| f_readable := 1 |> <| f_writable := 1 |>))) ;;
  mret fd.

Definition sys_open (caller upath flags : Z) : K Z :=
  with_path caller upath (fun path =>
  r ← open_node caller path flags ;
  match r with
  | inl e => mret e
  | inr node =>
      let t := i_type (vn_inode node) in
      if (t !=? CFG_T_FILE) && (t !=? CFG_T_DIR) then mret (- CFG_EINVAL) else
      if (t =? CFG_T_DIR) && (accmode flags !=? 0) then mret (- CFG_EISDIR) else
      me ← gets (fun s => proc_at s caller) ;
      ok ← vnode_access node (p_uid me) (p_gid me) (open_mask flags) ;
      if negb ok then mret (- CFG_EACCES) else
      if has flags CFG_O_TRUNC then
        if accmode flags =? 0 then mret (- CFG_EINVAL) else
        r ← vnode_truncate node ;
        if r.1 <? 0 then mret r.1 else open_fd caller r.2 flags
      else open_fd caller node flags
  end).

Definition sys_close (caller fd : Z) : K Z :=
  if bad_fd fd then mret (- CFG_EBADF) else
  f ← gets (fun s => file_at s caller fd) ;
  if f_type f =? CFG_FT_NONE then mret (- CFG_EBADF) else
  fd_close caller fd ;;
  mret 0.

Definition sys_pipe (caller ufds : Z) : K Z :=
  ok ← user_access_ok caller ufds 8 true ;
  if negb ok then mret (- CFG_EFAULT) else
  pp ← alloc_pipe ;
  if pp <? 0 then mret (- CFG_ENFILE) else
  rfd ← gets (fun s => alloc_fd s caller) ;
  if rfd <? 0 then mpipe pp (fun q => q <| pi_used := 0 |>) ;; mret (- CFG_EMFILE) else
  file_set_pipe caller rfd pp 0 ;;
  wfd ← gets (fun s => alloc_fd s caller) ;
  if wfd <? 0 then
    file_reset caller rfd ;;
    mpipe pp (fun q => q <| pi_used := 0 |>) ;;
    mret (- CFG_EMFILE)
  else
  file_set_pipe caller wfd pp 1 ;;
  copyout caller ufds (le_bytes32 rfd ++ le_bytes32 wfd) ;;
  mret 0.

(** [copy_file] to a free descriptor, without the close-on-exec flag. *)
Definition dup_to (caller newfd fd : Z) : K Z :=
  if newfd <? 0 then mret (- CFG_EMFILE) else
  copy_file caller newfd caller fd ;;
  mfile caller newfd (fun f => f <| f_fd_flags := 0 |>) ;;
  mret newfd.

Definition sys_dup (caller oldfd : Z) : K Z :=
  bad ← gets (fun s => closed_fd s caller oldfd) ;
  if (bad : bool) then mret (- CFG_EBADF) else
  newfd ← gets (fun s => alloc_fd s caller) ;
  dup_to caller newfd oldfd.

Definition sys_fcntl (caller fd command argument : Z) : K Z :=
  bad ← gets (fun s => closed_fd s caller fd) ;
  if (bad : bool) then mret (- CFG_EBADF) else
  f ← gets (fun s => file_at s caller fd) ;
  if command =? CFG_F_DUPFD then
    newfd ← gets (fun s => alloc_fd_from s caller argument) ;
    dup_to caller newfd fd
  else if command =? CFG_F_GETFD then mret (f_fd_flags f)
  else if command =? CFG_F_SETFD then
    mfile caller fd (fun f => f <| f_fd_flags := Z.land argument CFG_FD_CLOEXEC |>) ;;
    mret 0
  else if command =? CFG_F_GETFL then gets (fun s => file_get_status_flags s f)
  else if command =? CFG_F_SETFL then
    old ← gets (fun s => file_get_status_flags s f) ;
    file_set_status_flags caller fd
      (Z.lor (Z.land old CFG_O_ACCMODE)
             (Z.land argument (Z.lor CFG_O_NONBLOCK CFG_O_APPEND))) ;;
    mret 0
  else mret (- CFG_EINVAL).

Definition sys_ioctl (caller fd request argument : Z) : K Z :=
  bad ← gets (fun s => closed_fd s caller fd) ;
  if (bad : bool) then mret (- CFG_EBADF) else
  tty ← gets (fun s => file_is_tty s (file_at s caller fd)) ;
  if negb tty then mret (- CFG_ENOTTY) else
  if request =? CFG_TIOCGPGRP then
    pgid ← gets tty_get_foreground ;
    r ← copyout caller argument (le_bytes32 pgid) ;
    mret (if r <? 0 then - CFG_EFAULT else 0)
  else if request =? CFG_TIOCSPGRP then
    r ← copyin caller argument 4 ;
    match r with
    | None => mret (- CFG_EFAULT)
    | Some bs => tty_set_foreground caller (word bs 0)
    end
  else if request =? CFG_TCGETS then tty_getattr caller argument
  else if (request =? CFG_TCSETS) || (request =? CFG_TCSETSW) then tty_setattr caller argument false
  else if request =? CFG_TCSETSF then tty_setattr caller argument true
  else if request =? CFG_TIOCGWINSZ then tty_getwinsize caller argument
  else if request =? CFG_TIOCSWINSZ then tty_setwinsize caller argument
  else mret (- CFG_ENOTTY).

Definition sys_getdents (caller fd destination count : Z) : K Z :=
  if count <? 0 then mret (- CFG_EINVAL) else
  ok ← user_access_ok caller destination count true ;
  if negb ok then mret (- CFG_EFAULT) else
  if bad_fd fd then mret (- CFG_EBADF) else
  f ← gets (fun s => file_at s caller fd) ;
  file_getdents f caller destination count.

Definition sys_lseek (caller fd offset whence : Z) : K Z :=
  bad ← gets (fun s => closed_fd s caller fd) ;
  if (bad : bool) then mret (- CFG_EBADF) else
  f ← gets (fun s => file_at s caller fd) ;
  file_lseek f offset whence.

(** ** Names and metadata *)

Definition sys_stat_path (caller upath destination : Z) (follow : bool) : K Z :=
  with_path caller upath (fun path =>
  r ← vfs_lookup path follow caller ;
  match r with
  | inl e => mret e
  | inr node =>
      r ← vnode_stat node ;
      copyout caller destination (stat_bytes r.1)
  end).

Definition sys_fstat (caller fd destination : Z) : K Z :=
  bad ← gets (fun s => closed_fd s caller fd) ;
  if (bad : bool) then mret (- CFG_EBADF) else
  f ← gets (fun s => file_at s caller fd) ;
  r ← file_stat f ;
  match r with
  | inl e => mret e
  | inr st => copyout caller destination (stat_bytes st)
  end.

Definition sys_chmod (caller upath mode : Z) : K Z :=
  with_path caller upath (fun path => vfs_chmod path mode caller).

Definition sys_chown (caller upath uid gid : Z) : K Z :=
  me ← rp caller p_uid ;
  if me !=? 0 then mret (- CFG_EPERM) else
  with_path caller upath (fun path => vfs_chown path uid gid caller).

Definition sys_mkdir (caller upath mode : Z) : K Z :=
  with_path caller upath (fun path =>
  r ← vfs_create path CFG_T_DIR mode caller ;
  mret (match r with inl e => e | inr _ => 0 end)).

Definition sys_remove_path (caller upath : Z) (remove_dir : bool) : K Z :=
  with_path caller upath (fun path => vfs_unlink path remove_dir caller).

Definition copy_second_path (caller upath : Z) : K (Z + list Z) :=
  copyinstr caller upath CFG_INITPATH_LEN.

(** Two paths copied in, in the order given. *)
Definition with_paths (caller uold unew : Z) (k : list Z -> list Z -> K Z) : K Z :=
  a ← copy_second_path caller uold ;
  match a with
  | inl e => mret e
  | inr oldpath =>
      b ← copy_second_path caller unew ;
      match b with
      | inl e => mret e
      | inr newpath => k oldpath newpath
      end
  end.

Definition sys_link (caller uold unew : Z) : K Z := with_paths caller uold unew vfs_link.
Definition sys_rename (caller uold unew : Z) : K Z := with_paths caller uold unew vfs_rename.
Definition sys_symlink (caller utarget ulink : Z) : K Z := with_paths caller utarget ulink vfs_symlink.

Definition sys_readlink (caller upath destination size : Z) : K Z :=
  if size <? 0 then mret (- CFG_EINVAL) else
  with_path caller upath (fun path =>
  let size := if size >? CFG_INITPATH_LEN then CFG_INITPATH_LEN else size in
  r ← vfs_readlink path caller size ;
  if r.1 <? 0 then mret r.1 else
  e ← copyout caller destination (take (Z.to_nat r.1) r.2) ;
  mret (if e <? 0 then - CFG_EFAULT else r.1)).

(** ** Identification and time *)

Definition sys_uname (caller destination : Z) : K Z := copyout caller destination utsname.

Definition sys_gettimeofday (caller destination timezone : Z) : K Z :=
  if timezone !=? 0 then mret (- CFG_EINVAL) else
  now ← rtc_time ;
  t ← rd k_sched ticks ;
  copyout caller destination
    (le_bytes32 now ++ le_bytes32 (Z.rem t CFG_TICKS_PER_SEC * (1000000 / CFG_TICKS_PER_SEC))).

Definition sys_clock_gettime (caller clock_id destination : Z) : K Z :=
  t ← rd k_sched ticks ;
  now ← rtc_time ;
  let nsec := Z.rem t CFG_TICKS_PER_SEC * (1000000000 / CFG_TICKS_PER_SEC) in
  if clock_id =? CFG_CLOCK_REALTIME then
    copyout caller destination (le_bytes32 now ++ le_bytes32 nsec)
  else if clock_id =? CFG_CLOCK_MONOTONIC then
    copyout caller destination (le_bytes32 (Z.quot t CFG_TICKS_PER_SEC) ++ le_bytes32 nsec)
  else mret (- CFG_EINVAL).

(** The ticks of a timespec, rounded up; the operands are in range. *)
Definition sleep_ticks (sec nsec : Z) : Z :=
  let per := 1000000000 / CFG_TICKS_PER_SEC in
  sec * CFG_TICKS_PER_SEC + Z.quot (nsec + per - 1) per.

Definition sys_nanosleep (caller request remaining : Z) : K Z :=
  r ← copyin caller request 8 ;
  match r with
  | None => mret (- CFG_EFAULT)
  | Some bs =>
      let sec := word bs 0 in
      let nsec := word bs 1 in
      if (sec <? 0) || (sec >? 1000000) || (nsec <? 0) || (nsec >=? 1000000000)
      then mret (- CFG_EINVAL) else
      let delay := sleep_ticks sec nsec in
      if delay =? 0 then mret 0 else
      t ← rd k_sched ticks ;
      wp_ caller p_sleep_deadline (t +! delay) ;;
      wp_ caller p_sleep_remaining remaining ;;
      wr k_sys g_noret 1 ;;
      sleep caller (ChanDeadline caller) ;;
      mret 0
  end.

(** ** Polling *)

(** The events ready on a polled descriptor. *)
Definition poll_revents (s : kernel) (caller : Z) (v : guest_pollfd) : Z :=
  if pf_fd v <? 0 then 0
  else if (pf_fd v >=? CFG_NFD) || (f_type (file_at s caller (pf_fd v)) =? CFG_FT_NONE)
  then CFG_POLLNVAL
  else file_poll s (file_at s caller (pf_fd v)) (Z.lor (Z.lor (pf_events v) CFG_POLLERR) CFG_POLLHUP).

(** The scan of the [n] entries from [ufds]: how many are ready, or [None]. *)
Fixpoint poll_scan (caller ufds : Z) (n : nat) (ready : Z) : K (option Z) :=
  match n with
  | O => mret (Some ready)
  | S n' =>
      r ← copyin caller ufds sizeof_pollfd ;
      match r with
      | None => mret None
      | Some bs =>
          let v := pollfd_of_bytes bs in
          revents ← gets (fun s => poll_revents s caller v) ;
          e ← copyout caller ufds (pollfd_bytes (v <| pf_revents := revents |>)) ;
          if e <? 0 then mret None else
          poll_scan caller (ufds +! sizeof_pollfd) n' (if revents !=? 0 then ready + 1 else ready)
      end
  end.

Definition poll_done (caller value : Z) : K Z :=
  wp_ caller p_poll_deadline 0 ;;
  wp_ caller p_sleep_deadline 0 ;;
  mret value.

(** Nothing is ready: sleep until the deadline or a wake-up, then poll again. *)
Definition poll_block (caller : Z) : K Z :=
  wr k_sys g_noret 1 ;;
  mp_ caller (fun p => p <| p_ctx ::= fun c => c <| pc ::= fun x => x -! CFG_SYSCALL_INSTR_SIZE |> |>) ;;
  sleep caller ChanPoll ;;
  mret 0.

Definition poll_wait (caller timeout : Z) : K Z :=
  if timeout >? 0 then
    t ← rd k_sched ticks ;
    armed ← rp caller p_poll_deadline ;
    when (armed =? 0)
      (let delay := Z.quot (timeout *! CFG_TICKS_PER_SEC +! 999) 1000 in
       wp_ caller p_poll_deadline (t +! (if delay <? 1 then 1 else delay))) ;;
    deadline ← rp caller p_poll_deadline ;
    if t >=? deadline then poll_done caller 0
    else wp_ caller p_sleep_deadline deadline ;; poll_block caller
  else
    wp_ caller p_sleep_deadline 0 ;;
    poll_block caller.

Definition sys_poll (caller ufds count timeout : Z) : K Z :=
  if (count <? 0) || (count >? CFG_NFD) || (timeout <? -1) then mret (- CFG_EINVAL) else
  ok ← (if count >? 0 then user_access_ok caller ufds (count * sizeof_pollfd) true else mret true) ;
  if negb ok then mret (- CFG_EFAULT) else
  r ← poll_scan caller ufds (Z.to_nat count) 0 ;
  match r with
  | None => mret (- CFG_EFAULT)
  | Some ready =>
      if (ready >? 0) || (timeout =? 0) then poll_done caller ready else poll_wait caller timeout
  end.

(** ** The handlers: one signature, the value for R0 as the result *)

Definition handler : Type := Z -> Z -> Z -> Z -> K Z.

Definition h_exit : handler := fun caller a1 a2 a3 =>
  do_exit caller a1 ;;
  wr k_sys g_pending_free 0 ;;
  wr k_sys g_noret 1 ;;
  switch_to_next ;;
  mret 0.

Definition h_write : handler := fun caller a1 a2 a3 =>
  sys_write caller a1 a2 a3.
Definition h_read : handler := fun caller a1 a2 a3 =>
  sys_read caller a1 a2 a3.
Definition h_yield : handler := fun caller a1 a2 a3 =>
  switch_to_next ;; mret 0.
Definition h_getpid : handler := fun caller a1 a2 a3 =>
  mret caller.
Definition h_getppid : handler := fun caller a1 a2 a3 =>
  p ← rp caller p_parent ; mret (if p <? 0 then 0 else p).
Definition h_fork : handler := fun caller a1 a2 a3 =>
  do_fork caller.
Definition h_exec : handler := fun caller a1 a2 a3 =>
  pd ← do_exec caller a1 a2 a3 ; wr k_sys g_pending_free pd ;; wr k_sys g_noret 1 ;; mret 0.
Definition h_wait : handler := fun caller a1 a2 a3 =>
  pd ← do_waitpid caller (-1) a1 0 ; wr k_sys g_pending_free pd ;; wr k_sys g_noret 1 ;; mret 0.
Definition h_waitpid : handler := fun caller a1 a2 a3 =>
  pd ← do_waitpid caller a1 a2 a3 ; wr k_sys g_pending_free pd ;; wr k_sys g_noret 1 ;; mret 0.
Definition h_kill : handler := fun caller a1 a2 a3 =>
  send_signal_selector caller a1 a2.
Definition h_sigaction : handler := fun caller a1 a2 a3 =>
  sys_sigaction caller a1 a2 a3.
Definition h_sigprocmask : handler := fun caller a1 a2 a3 =>
  sys_sigprocmask caller a1 a2 a3.
Definition h_sigreturn : handler := fun caller a1 a2 a3 =>
  result ← sys_sigreturn caller ; when (result =? 0) (wr k_sys g_noret 1) ;; mret result.
Definition h_setpgid : handler := fun caller a1 a2 a3 =>
  sys_setpgid caller a1 a2.
Definition h_setsid : handler := fun caller a1 a2 a3 =>
  sys_setsid caller.
Definition h_tcsetpgrp : handler := fun caller a1 a2 a3 =>
  tty_set_foreground caller a1.
Definition h_tcgetpgrp : handler := fun caller a1 a2 a3 =>
  gets tty_get_foreground.
Definition h_open : handler := fun caller a1 a2 a3 =>
  sys_open caller a1 a2.
Definition h_close : handler := fun caller a1 a2 a3 =>
  sys_close caller a1.
Definition h_pipe : handler := fun caller a1 a2 a3 =>
  sys_pipe caller a1.
Definition h_dup : handler := fun caller a1 a2 a3 =>
  sys_dup caller a1.
Definition h_uptime : handler := fun caller a1 a2 a3 =>
  rd k_sched ticks.
Definition h_nanosleep : handler := fun caller a1 a2 a3 =>
  sys_nanosleep caller a1 a2.
Definition h_brk : handler := fun caller a1 a2 a3 =>
  vm_brk caller a1.
Definition h_mmap : handler := fun caller a1 a2 a3 =>
  vm_mmap caller a1.
Definition h_munmap : handler := fun caller a1 a2 a3 =>
  vm_munmap caller a1 a2.
Definition h_mprotect : handler := fun caller a1 a2 a3 =>
  vm_mprotect caller a1 a2 a3.
Definition h_fcntl : handler := fun caller a1 a2 a3 =>
  sys_fcntl caller a1 a2 a3.
Definition h_ioctl : handler := fun caller a1 a2 a3 =>
  sys_ioctl caller a1 a2 a3.
Definition h_gettimeofday : handler := fun caller a1 a2 a3 =>
  sys_gettimeofday caller a1 a2.
Definition h_clock_gettime : handler := fun caller a1 a2 a3 =>
  sys_clock_gettime caller a1 a2.
Definition h_uname : handler := fun caller a1 a2 a3 =>
  sys_uname caller a1.
Definition h_getdents : handler := fun caller a1 a2 a3 =>
  sys_getdents caller a1 a2 a3.
Definition h_stat : handler := fun caller a1 a2 a3 =>
  sys_stat_path caller a1 a2 true.
Definition h_fstat : handler := fun caller a1 a2 a3 =>
  sys_fstat caller a1 a2.
Definition h_lstat : handler := fun caller a1 a2 a3 =>
  sys_stat_path caller a1 a2 false.
Definition h_chmod : handler := fun caller a1 a2 a3 =>
  sys_chmod caller a1 a2.
Definition h_chown : handler := fun caller a1 a2 a3 =>
  sys_chown caller a1 a2 a3.
Definition h_mkdir : handler := fun caller a1 a2 a3 =>
  sys_mkdir caller a1 a2.
Definition h_rmdir : handler := fun caller a1 a2 a3 =>
  sys_remove_path caller a1 true.
Definition h_unlink : handler := fun caller a1 a2 a3 =>
  sys_remove_path caller a1 false.
Definition h_link : handler := fun caller a1 a2 a3 =>
  sys_link caller a1 a2.
Definition h_rename : handler := fun caller a1 a2 a3 =>
  sys_rename caller a1 a2.
Definition h_symlink : handler := fun caller a1 a2 a3 =>
  sys_symlink caller a1 a2.
Definition h_readlink : handler := fun caller a1 a2 a3 =>
  sys_readlink caller a1 a2 a3.
Definition h_lseek : handler := fun caller a1 a2 a3 =>
  sys_lseek caller a1 a2 a3.
Definition h_getuid : handler := fun caller a1 a2 a3 =>
  rp caller p_uid.
Definition h_getgid : handler := fun caller a1 a2 a3 =>
  rp caller p_gid.
Definition h_poll : handler := fun caller a1 a2 a3 =>
  sys_poll caller a1 a2 a3.
Definition h_socket : handler := fun caller a1 a2 a3 =>
  socket_create caller a1 a2 a3.
Definition h_bind : handler := fun caller a1 a2 a3 =>
  socket_bind caller a1 a2 a3.
Definition h_listen : handler := fun caller a1 a2 a3 =>
  gets (fun s => socket_listen s caller a1 a2).
Definition h_accept : handler := fun caller a1 a2 a3 =>
  gets (fun s => socket_accept s caller a1 a2 a3).
Definition h_connect : handler := fun caller a1 a2 a3 =>
  socket_connect caller a1 a2 a3.
Definition h_send : handler := fun caller a1 a2 a3 =>
  socket_send caller a1 a2 a3.
Definition h_recv : handler := fun caller a1 a2 a3 =>
  socket_recv caller a1 a2 a3.
Definition h_setsockopt : handler := fun caller a1 a2 a3 =>
  gets (fun s => socket_setsockopt s caller a1 a2).
Definition h_sendto : handler := fun caller a1 a2 a3 =>
  socket_sendto caller a1 a2.
Definition h_recvfrom : handler := fun caller a1 a2 a3 =>
  socket_recvfrom caller a1 a2.
Definition h_time : handler := fun caller a1 a2 a3 =>
  rtc_time.
Definition h_shutdown : handler := fun caller a1 a2 a3 =>
  klog (str "kernel: shutdown" ++ [10]) ;; power_off ;; mret 0.

(** The assignments of [syscall_init], in its order. *)
Definition syscall_init : list (Z * handler) :=
  [(CFG_SYS_EXIT, h_exit);
   (CFG_SYS_WRITE, h_write);
   (CFG_SYS_READ, h_read);
   (CFG_SYS_YIELD, h_yield);
   (CFG_SYS_GETPID, h_getpid);
   (CFG_SYS_FORK, h_fork);
   (CFG_SYS_EXEC, h_exec);
   (CFG_SYS_WAIT, h_wait);
   (CFG_SYS_OPEN, h_open);
   (CFG_SYS_CLOSE, h_close);
   (CFG_SYS_PIPE, h_pipe);
   (CFG_SYS_DUP, h_dup);
   (CFG_SYS_UPTIME, h_uptime);
   (CFG_SYS_TIME, h_time);
   (CFG_SYS_SHUTDOWN, h_shutdown);
   (CFG_SYS_KILL, h_kill);
   (CFG_SYS_SIGACTION, h_sigaction);
   (CFG_SYS_SIGPROCMASK, h_sigprocmask);
   (CFG_SYS_SIGRETURN, h_sigreturn);
   (CFG_SYS_WAITPID, h_waitpid);
   (CFG_SYS_SETPGID, h_setpgid);
   (CFG_SYS_SETSID, h_setsid);
   (CFG_SYS_TCSETPGRP, h_tcsetpgrp);
   (CFG_SYS_TCGETPGRP, h_tcgetpgrp);
   (CFG_SYS_GETPPID, h_getppid);
   (CFG_SYS_NANOSLEEP, h_nanosleep);
   (CFG_SYS_BRK, h_brk);
   (CFG_SYS_MMAP, h_mmap);
   (CFG_SYS_MUNMAP, h_munmap);
   (CFG_SYS_MPROTECT, h_mprotect);
   (CFG_SYS_FCNTL, h_fcntl);
   (CFG_SYS_IOCTL, h_ioctl);
   (CFG_SYS_GETTIMEOFDAY, h_gettimeofday);
   (CFG_SYS_CLOCK_GETTIME, h_clock_gettime);
   (CFG_SYS_UNAME, h_uname);
   (CFG_SYS_GETDENTS, h_getdents);
   (CFG_SYS_STAT, h_stat);
   (CFG_SYS_FSTAT, h_fstat);
   (CFG_SYS_LSTAT, h_lstat);
   (CFG_SYS_CHMOD, h_chmod);
   (CFG_SYS_CHOWN, h_chown);
   (CFG_SYS_MKDIR, h_mkdir);
   (CFG_SYS_RMDIR, h_rmdir);
   (CFG_SYS_UNLINK, h_unlink);
   (CFG_SYS_LINK, h_link);
   (CFG_SYS_RENAME, h_rename);
   (CFG_SYS_SYMLINK, h_symlink);
   (CFG_SYS_READLINK, h_readlink);
   (CFG_SYS_LSEEK, h_lseek);
   (CFG_SYS_GETUID, h_getuid);
   (CFG_SYS_GETGID, h_getgid);
   (CFG_SYS_POLL, h_poll);
   (CFG_SYS_SOCKET, h_socket);
   (CFG_SYS_BIND, h_bind);
   (CFG_SYS_LISTEN, h_listen);
   (CFG_SYS_ACCEPT, h_accept);
   (CFG_SYS_CONNECT, h_connect);
   (CFG_SYS_SEND, h_send);
   (CFG_SYS_RECV, h_recv);
   (CFG_SYS_SETSOCKOPT, h_setsockopt);
   (CFG_SYS_SENDTO, h_sendto);
   (CFG_SYS_RECVFROM, h_recvfrom)].

(** [syscall_table[num]], [None] for the null entry. *)
Fixpoint table_get (num : Z) (table : list (Z * handler)) : option handler :=
  match table with
  | [] => None
  | (k, h) :: rest => if k =? num then Some h else table_get num rest
  end.
Definition syscall_table (num : Z) : option handler := table_get num syscall_init.

(** ** The trap *)

(** Run the handler of [num], or fail with -ENOSYS. *)
Definition dispatch (caller num a1 a2 a3 : Z) : K unit :=
  match (if (num >=? 0) && (num <? CFG_NSYS) then syscall_table num else None) with
  | Some h =>
      rv ← h caller a1 a2 a3 ;
      noret ← rd k_sys g_noret ;
      when (noret =? 0) (wreg caller 0 rv)
  | None => wreg caller 0 (- CFG_ENOSYS)
  end.

(** [load_ctx(current); __lptbr(proc_table[current].vm.ptbr);] *)
Definition resume_current : K unit :=
  cur ← rd k_sched current ;
  load_ctx cur ;;
  pd ← gets (fun s => ptbr_at s cur) ;
  lptbr pd.

Definition on_syscall : K unit :=
  m ← rd k_trap sctx_mode ;
  when (m !=? CFG_MODE_USER) (panic "syscall outside user") ;;
  wr k_sys g_noret 0 ;;
  wr k_sys g_pending_free 0 ;;
  caller ← rd k_sched current ;
  save_ctx caller ;;
  c ← rp caller p_ctx ;
  let num := regs c 0 in
  let a1 := regs c 1 in
  let a2 := regs c 2 in
  let a3 := regs c 3 in
  dispatch caller num a1 a2 a3 ;;
  tr ← rd k_klog trace_flags ;
  when (has tr CFG_TRACE_SYSCALL)
    (c ← rp caller p_ctx ; trace_syscall caller num a1 a2 a3 (regs c 0)) ;;
  cur ← rd k_sched current ;
  do_prepare_signal cur ;;
  resume_current ;;
  pd ← rd k_sys g_pending_free ;
  when (pd !=? 0) (free_space pd).
End with_vnodes.
