(* ===== verification/Trap.v ===== *)
(** * Trap: traps, boot and the linked kernel ([trap.c], [main.c])

    The interrupt table, the trap handlers and the assembly of their stubs; [kmain]; and
    the instance of Linkage.v that ties the mutually recursive files together. *)

From S2P Require Import Prelude Config Kernel Klog RawMem Frames Linkage Sched Pipe Buf Inode Dir PageTable Vm Fault FaultSpec SigSend Tty Fd Network Device Vfs File Process Signal SignalSpec Syscall.

(** * The interrupt table, the trap handlers and the stubs ([trap.c], and the
    assembly of [kmain] in [main.c])

    A stub stores the interrupted context in the [sctx_*] globals, calls its C
    handler, and [kernel_resume] loads the context from there and returns to it. *)

(** The linked addresses of the stubs, that [capture_handlers] stores. *)
Record handler_addrs := Build_handler_addrs {
  default_handler_addr : Z;
  timer_handler_addr : Z;
  pf_handler_addr : Z;
  syscall_handler_addr : Z;
  keyboard_handler_addr : Z;
  network_handler_addr : Z }.

Definition set_idt_entry (vector handler : Z) : K unit :=
  let entry := CFG_IDT + vector * CFG_IDT_ENTRY_SIZE in
  kwrite32 entry handler ;;
  kwrite32 (entry + 4) CFG_IDT_PRESENT.

Definition set_user_idt_entry (vector handler : Z) : K unit :=
  let entry := CFG_IDT + vector * CFG_IDT_ENTRY_SIZE in
  kwrite32 entry handler ;;
  kwrite32 (entry + 4) (Z.lor CFG_IDT_PRESENT CFG_IDT_USER).

Definition setup_traps (h : handler_addrs) : K unit :=
  wr k_hw hw_idt CFG_IDT ;;
  for_ 0 256 (fun v => set_idt_entry v (default_handler_addr h)) ;;
  set_idt_entry CFG_TIMER_VECTOR (timer_handler_addr h) ;;
  set_idt_entry CFG_PAGEFAULT_VECTOR (pf_handler_addr h) ;;
  set_idt_entry CFG_KBD_VECTOR (keyboard_handler_addr h) ;;
  set_idt_entry CFG_NET_VECTOR (network_handler_addr h) ;;
  set_user_idt_entry CFG_SYSCALL_VECTOR (syscall_handler_addr h) ;;
  wr k_hw hw_ksp CFG_KSTACK_TOP.

Definition on_default_trap : K unit :=
  klog (str "kernel: unexpected trap pc=") ;;
  v ← rd k_trap sctx_pc ; klog_int v ;;
  klog (str " sp=") ;;
  v ← rd k_trap sctx_sp ; klog_int v ;;
  klog (str " mode=") ;;
  v ← rd k_trap sctx_mode ; klog_int v ;;
  klog (str " err=") ;;
  v ← rd k_hw hw_error ; klog_int v ;;
  klog [10] ;;
  panic "unexpected trap".

Section with_vnodes.
Context `{Linkage}.

(** The scan of the user stack from [addr]: [n] words are left to look at and
    [printed] addresses have been logged. *)
Fixpoint backtrace_scan (p text_hi addr printed : Z) (n : nat) : K unit :=
  match n with
  | O => mret tt
  | S n' =>
      if printed >=? 32 then mret tt else
      phys ← user_phys_addr p addr false ;
      if phys <? 0 then mret tt else
      word ← read32_at phys ;
      if (word >=? CFG_USER_BASE) && (word <? text_hi) then
        klog (str " ") ;;
        klog_int word ;;
        backtrace_scan p text_hi (addr +! 4) (printed + 1) n'
      else backtrace_scan p text_hi (addr +! 4) printed n'
  end.

Definition user_backtrace (p pc sp : Z) : K unit :=
  text_hi ← gets (fun s => brk_start (vm_at s p)) ;
  klog (str "kernel: backtrace (decimal pcs; symbolize with tools/symbolize-guest-cc.ts):" ++ [10]) ;;
  klog (str "  ") ;;
  klog_int pc ;;
  backtrace_scan p text_hi sp 1 2048 ;;
  klog [10].

(** [klog(label); klog_int(value);] *)
Definition klog_field (label : string) (value : Z) : K unit := klog (str label) ;; klog_int value.

(** The report of a fault that nothing resolves. *)
Definition log_segv (cur error : Z) : K unit :=
  klog_field "kernel: SIGSEGV pid=" cur ;;
  addr ← rd k_trap page_fault_addr ;
  klog_field " addr=" addr ;;
  pc ← rd k_trap sctx_pc ;
  klog_field " pc=" pc ;;
  klog_field " err=" error ;;
  klog [10].

Definition on_page_fault : K unit :=
  addr ← rd k_hw hw_fault_addr ;
  wr k_trap page_fault_addr addr ;;
  error ← rd k_hw hw_error ;
  cur ← rd k_sched current ;
  tr ← rd k_klog trace_flags ;
  when (has tr CFG_TRACE_FAULT)
    (klog_field "trace: fault pid=" cur ;;
     klog_field " addr=" addr ;;
     klog_field " err=" error ;;
     klog [10]) ;;
  m ← rd k_trap sctx_mode ;
  when (m !=? CFG_MODE_USER) (panic "unexpected kernel page fault") ;;
  save_ctx cur ;;
  r ← vm_handle_page_fault cur addr error ;
  if r =? 0 then resume_current else
  log_segv cur error ;;
  pc ← rd k_trap sctx_pc ;
  sp ← rd k_trap sctx_sp ;
  user_backtrace cur pc sp ;;
  send_signal cur CFG_SIGSEGV ;;
  do_prepare_signal cur ;;
  resume_current.

(** ** The stubs *)

(** Store the registers and the frame the hardware pushed. *)
Definition trap_enter (c : cpu_context) : K unit :=
  modify (fun s => s <| k_trap ::= fun t =>
    t <| sctx_r ::= fun r => copy8 r (regs c) |> <| sctx_pc := pc c |> <| sctx_mode := mode c |>
      <| sctx_flags := flags c |> <| sctx_sp := sp c |> |>).

(** The context that IRET resumes. *)
Definition kernel_resume : K cpu_context :=
  gets (fun s => let t := k_trap s in
    Build_cpu_context (sctx_r t) (sctx_pc t) (sctx_sp t) (sctx_flags t) (sctx_mode t)).

(** What interrupts a program. *)
Inductive trap := TrapTimer | TrapSyscall | TrapPageFault (addr error : Z) | TrapDefault (error : Z)
| TrapDevice (e : hw_event).

(** The machine takes trap [t] while it runs in context [c]; the context it runs in
    afterwards.  A device interrupt saves and restores the registers itself. *)
Definition take_trap (t : trap) (c : cpu_context) : K cpu_context :=
  match t with
  | TrapTimer => trap_enter c ;; on_timer ;; kernel_resume
  | TrapSyscall => trap_enter c ;; on_syscall ;; kernel_resume
  | TrapPageFault addr error =>
      wr k_hw hw_fault_addr addr ;;
      wr k_hw hw_error error ;;
      trap_enter c ;; on_page_fault ;; kernel_resume
  | TrapDefault error => wr k_hw hw_error error ;; trap_enter c ;; on_default_trap ;; kernel_resume
  | TrapDevice e => deliver e ;; mret c
  end.
End with_vnodes.

(** * The boot of the kernel ([main.c])

    [kmain] brings the components up, loads the program that the boot block names
    and hands the CPU to it. *)

(** The path in the boot block, as a string: the bytes up to a NUL. *)
Definition read_initpath : K (list Z) :=
  bb ← bread 0 ;
  magic ← b_read32 bb ;
  when (magic !=? CFG_BOOT_MAGIC) (panic "not a bootable disk") ;;
  len ← b_read32 (bb + 20) ;
  let len := if len >? CFG_INITPATH_LEN - 1 then CFG_INITPATH_LEN - 1 else len in
  bytes ← gets (fun s => slice (buf_data (k_fs s)) (bb + 24) (Z.to_nat len)) ;
  mret (until_nul bytes).

Definition kmain `{Linkage} (h : handler_addrs) : K cpu_context :=
  klog (str "kernel: boot" ++ [10]) ;;
  setup_traps h ;;
  file_init ;;
  keyboard_init ;;
  network_init ;;
  device_init ;;
  pmm_init ;;
  build_kernel_pt ;;
  fs_mount ;;
  vfs_init ;;
  initpath ← read_initpath ;
  klog (str "kernel: exec ") ;;
  klog initpath ;;
  klog_putc 10 ;;
  setup_process_boot initpath ;;
  wr k_hw hw_timer_period CFG_TIMER_PERIOD ;;
  wr k_sched current 0 ;;
  pd ← gets (fun s => ptbr_at s 0) ;
  lptbr pd ;;
  wr k_hw hw_paging true ;;
  load_ctx 0 ;;
  kernel_resume.

(** * The kernel tied together

    The interface of Linkage.v filled in with the definitions of the other files.
    The sources are mutually recursive through it (the scheduler delivers signals,
    delivering one may run the scheduler), so the instance is indexed by the depth
    of such calls that are allowed; at depth 0 a call stops with [OutOfFuel]. *)

Definition unlinked (hdr : Z) : Linkage := {|
  Linkage.prepare_signal := fun _ => kstop OutOfFuel;
  Linkage.on_keyboard_irq := kstop OutOfFuel;
  Linkage.on_network_irq := kstop OutOfFuel;
  Linkage.vnode_read := fun _ _ _ _ _ => kstop OutOfFuel;
  Linkage.vnode_write := fun _ _ _ _ _ => kstop OutOfFuel;
  Linkage.vnode_release := fun _ => kstop OutOfFuel;
  Linkage.exec_hdr := hdr |}.

Definition link_once (hdr : Z) (L : Linkage) : Linkage := {|
  Linkage.prepare_signal := @do_prepare_signal L;
  Linkage.on_keyboard_irq := @keyboard_irq_entry L;
  Linkage.on_network_irq := @network_irq_entry L;
  Linkage.vnode_read := vnode_do_read;
  Linkage.vnode_write := vnode_do_write;
  Linkage.vnode_release := vnode_do_release;
  Linkage.exec_hdr := hdr |}.

Fixpoint linkage (hdr : Z) (depth : nat) : Linkage :=
  match depth with
  | O => unlinked hdr
  | S d => link_once hdr (linkage hdr d)
  end.

(** * the system-call convention

    What a program sees of an INT that runs a system call: its registers are back,
    with the answer of the handler in R0; and the one handler for which that
    fails. *)

(** The state in which the dispatcher runs: the trap frame and the slot of the
    current process hold context [c]. *)
Definition syscall_entered (c : cpu_context) (s : kernel) : kernel :=
  let s1 := s <| k_trap ::= fun t =>
    t <| sctx_r ::= fun r => copy8 r (regs c) |> <| sctx_pc := pc c |> <| sctx_mode := mode c |>
      <| sctx_flags := flags c |> <| sctx_sp := sp c |> |>
    <| k_sys := Build_sys_state 0 0 |> in
  slot_upd (current (k_sched s)) (fun p => p <| p_ctx ::= fun c0 =>
    Build_cpu_context (copy8 (regs c0) (sctx_r (k_trap s1))) (pc c) (sp c) (flags c) (mode c) |>) s1.

(** The two contexts agree on everything a program can see. *)
Record same_ctx (c c' : cpu_context) : Prop := {
  sc_regs : forall k, 0 <= k < 8 -> regs c k = regs c' k;
  sc_pc : pc c = pc c'; sc_sp : sp c = sp c'; sc_flags : flags c = flags c'; sc_mode : mode c = mode c' }.

#[export] Instance same_ctx_equiv : Equivalence same_ctx.
Proof.
  split.
  - by split.
  - intros c c' []. split; try (by symmetry). intros k Hk. symmetry. auto.
  - intros c1 c2 c3 [H1 ? ? ? ?] [H2 ? ? ? ?]. split; try congruence. intros k Hk. by rewrite H1, H2.
Qed.

#[export] Instance set_reg_proper k v : Proper (same_ctx ==> same_ctx) (set_reg k v).
Proof.
  intros c c' []. split; try done. intros j Hj. unfold set_reg. rsimpl. unfold upd.
  destruct (_ =? _); auto.
Qed.

Lemma copy8_in old new k : 0 <= k < 8 -> copy8 old new k = new k.
Proof. intros Hk. unfold copy8. by destruct (Z.leb_spec 0 k), (Z.ltb_spec k 8); simpl; [|lia..]. Qed.

(** The slot holds the interrupted context. *)
Lemma entered_ctx c s : same_ctx (p_ctx (proc_at (syscall_entered c s) (current (k_sched s)))) c.
Proof.
  unfold syscall_entered. rewrite proc_at_slot_upd. split; try done.
  intros k Hk. rsimpl. cbn [regs]. by rewrite !copy8_in.
Qed.

(** No signal is about to be delivered to [p]. *)
Definition quiet (s : kernel) (p : Z) : bool :=
  (p_state (proc_at s p) !=? CFG_ST_RUNNABLE) || (p_in_signal (proc_at s p) !=? 0) ||
  (next_deliverable_signal s p =? 0).

(** The handler that number [num] reaches. *)
Definition handler_of `{Linkage} (num : Z) : option handler :=
  if (num >=? 0) && (num <? CFG_NSYS) then syscall_table num else None.

(** It does not depend on the registers. *)
Lemma quiet_wreg s p k v : quiet (slot_upd p (fun q => q <| p_ctx ::= set_reg k v |>) s) p = quiet s p.
Proof. unfold quiet, next_deliverable_signal. by rewrite proc_at_slot_upd. Qed.

Section convention.
Context {L : Linkage}.

Lemma wp_prepare_quiet s p (Q : unit -> kernel -> Prop) :
  quiet s p = true -> Q tt s -> wp (do_prepare_signal p) Q s.
Proof.
  intros Hq HQ. unfold do_prepare_signal. wp_auto. unfold quiet in Hq.
  destruct (p <? 0); cbn [orb]; [done|].
  destruct (p_state (proc_at s p) !=? CFG_ST_RUNNABLE); [done|].
  destruct (p_in_signal (proc_at s p) !=? 0); [done|]. cbn [orb] in *. wp_auto.
  destruct (signal_fuel_pos s) as [n ->]. apply wp_while_S. unfold signal_round. wp_auto.
  by rewrite Hq.
Qed.

(** Process [p] runs again: only the trap frame and the page directory of the MMU, which is
    the process's own, differ. *)
Definition resumed (s : kernel) (p : Z) (s' : kernel) : Prop :=
  exists t, s' = s <| k_trap := t |> <| k_hw ::= fun h => h <| hw_ptbr := ptbr_at s p |> |>.

(** The end of the trap: the slot of the current process is resumed. *)
Lemma wp_resume s p c (Q : cpu_context -> kernel -> Prop) :
  current (k_sched s) = p -> same_ctx (p_ctx (proc_at s p)) c ->
  g_pending_free (k_sys s) = 0 ->
  (forall c' s', same_ctx c' c -> resumed s p s' -> Q c' s') ->
  wp resume_current (fun _ => wp (pd ← rd k_sys g_pending_free ; when (pd !=? 0) (free_space pd))
    (fun _ => wp kernel_resume Q)) s.
Proof.
  intros Hp Hc Hf HQ. unfold resume_current, load_ctx, lptbr, kernel_resume. wp_auto. rewrite Hp.
  ksimpl. rewrite Hf. cbn [Z.eqb negb]. unfold when. wp_auto. ksimpl. apply HQ.
  - etrans; [|exact Hc]. split; try done. intros k Hk. cbn [regs]. by rewrite copy8_in.
  - eexists. reflexivity.
Qed.

(** The dispatcher stores the answer. *)
Lemma wp_dispatch s0 s1 p num a1 a2 a3 rv (Q : unit -> kernel -> Prop) :
  match handler_of num with
  | Some h => h p a1 a2 a3 s0 = Ret rv s1 /\ g_noret (k_sys s1) = 0
  | None => rv = - CFG_ENOSYS /\ s1 = s0
  end ->
  Q tt (slot_upd p (fun q => q <| p_ctx ::= set_reg 0 rv |>) s1) -> wp (dispatch p num a1 a2 a3) Q s0.
Proof.
  intros Hh HQ. unfold dispatch. fold (handler_of num). destruct (handler_of num) as [h|].
  - destruct Hh as [Hh Hn]. apply wp_bind, (wpm_intro _ _ _ _ _ Hh). wp_auto. rewrite Hn. wp_auto. exact HQ.
  - destruct Hh as [-> ->]. wp_auto. exact HQ.
Qed.
End convention.

(** C27: the system-call convention.  A trap with number and arguments in R0 to R3
    runs the handler of that number on a slot that holds the interrupted context.
    When the handler answers, the same process is current, its saved context is as it was
    saved, no page directory waits to be freed, no signal is due and system calls are not
    traced, then the program resumes with the answer in R0 and every other register, its
    program counter, stack pointer, flags and mode as they were.  The MMU uses the
    page directory that the process has after the handler, and nothing of the kernel or of
    memory differs from what the handler left but the trap frame and the answer in the saved
    context.  A number without handler is answered ENOSYS, with no handler run. *)
Theorem syscall_convention `{Linkage} s c s1 rv :
  let p := current (k_sched s) in
  let s0 := syscall_entered c s in
  mode c = CFG_MODE_USER ->
  match handler_of (regs c 0) with
  | Some h => h p (regs c 1) (regs c 2) (regs c 3) s0 = Ret rv s1 /\ g_noret (k_sys s1) = 0
  | None => rv = - CFG_ENOSYS /\ s1 = s0
  end ->
  g_pending_free (k_sys s1) = 0 -> current (k_sched s1) = p ->
  p_ctx (proc_at s1 p) = p_ctx (proc_at s0 p) ->
  has (trace_flags (k_klog s1)) CFG_TRACE_SYSCALL = false -> quiet s1 p = true ->
  wp (take_trap TrapSyscall c) (fun c' s' =>
    same_ctx c' (set_reg 0 rv c) /\
    resumed (slot_upd p (fun q => q <| p_ctx ::= set_reg 0 rv |>) s1) p s') s.
Proof.
  intros p s0 Hm Hh Hf Hp Hc Htr Hq. unfold take_trap, trap_enter, on_syscall, save_ctx. wp_auto.
  replace (_ !=? CFG_MODE_USER) with false by (rsimpl; by rewrite Hm, Z.eqb_refl). wp_auto.
  match goal with |- wp (dispatch _ _ _ _ _) _ ?x => change x with s0 end.
  repeat match goal with |- context [current (k_sched ?x)] =>
    lazymatch x with s => fail | _ => change (current (k_sched x)) with p end end.
  pose proof (sc_regs _ _ (entered_ctx c s)) as Hr. fold s0 p in Hr. rewrite !Hr by lia.
  apply (wp_dispatch s0 s1 p _ _ _ _ rv); [exact Hh|].
  set (s2 := slot_upd p _ s1).
  assert (Htr2 : has (trace_flags (k_klog s2)) CFG_TRACE_SYSCALL = false) by exact Htr.
  assert (Hp2 : current (k_sched s2) = p) by exact Hp.
  wp_auto. rewrite Htr2. unfold when at 1. wp_auto. rewrite Hp2.
  apply wp_prepare_quiet; [unfold s2; by rewrite quiet_wreg|].
  apply wp_bind, (wp_resume s2 p (set_reg 0 rv c)); [done| |exact Hf|].
  - unfold s2. rewrite proc_at_slot_upd. rsimpl. rewrite Hc. apply set_reg_proper, entered_ctx.
  - by intros c' s' Hc' Hpt.
Qed.

(** ** Witness: getpid *)

Definition demo_ctx (num : Z) : cpu_context :=
  Build_cpu_context (fun k => if k =? 0 then num else 100 + k) (CFG_USER_BASE + 16) (CFG_USER_BASE + 4096) 0 CFG_MODE_USER.

Lemma syscall_convention_witness :
  wp (@take_trap Sched.idle_linkage TrapSyscall (demo_ctx CFG_SYS_GETPID)) (fun c' s' =>
    same_ctx c' (set_reg 0 0 (demo_ctx CFG_SYS_GETPID)) /\ k_mem s' = k_mem demo_user) demo_user.
Proof.
  eapply wp_mono; [apply (@syscall_convention Sched.idle_linkage demo_user (demo_ctx CFG_SYS_GETPID)
    (syscall_entered (demo_ctx CFG_SYS_GETPID) demo_user) 0)|].
  - reflexivity.
  - by split.
  - reflexivity.
  - reflexivity.
  - reflexivity.
  - vm_compute. reflexivity.
  - vm_compute. reflexivity.
  - intros c' s' [H [t ->]]. split; [exact H|reflexivity].
Defined.

(** ** A signal that is due when yield returns to its caller *)

(** when yield picks its caller again and a signal is due, [switch_to_next]
    enters the handler with the signal number in R0, and the answer 0 of [h_yield]
    then replaces it: the handler runs for signal 0, and the context that sigreturn
    will restore still has the number of the system call in R0. *)
Theorem yield_loses_signal :
  wp (@take_trap (linkage 90112 3) TrapSyscall (demo_ctx CFG_SYS_YIELD)) (fun c' s' =>
    pc c' = CFG_USER_BASE + 64 /\ p_in_signal (proc_at s' 0) = 1 /\ regs c' 0 = 0 /\
    regs (p_signal_saved_ctx (proc_at s' 0)) 0 = CFG_SYS_YIELD) demo_handler.
Proof. vm_compute. split_and!; reflexivity. Qed.
