(* ===== verification/UserMem.v ===== *)
(** * UserMem: the machine as a user program sees it

    The memory of a process, the globals of libc, and the system-call instruction,
    behind which the kernel is an interface ([Guest]).  A C pointer is an address;
    plain [char] is signed, so a byte is loaded with its sign ([LBS]).  The four
    helpers of the start-up code ([cc.ts], [runtimeAssembly]) are here too. *)

From S2P Require Import Prelude Config Kernel Klog RawMem.

(** What the program is linked with and runs on: the state of the other side of the
    INT instruction and its effect on it and on the memory of the process ([None]:
    the process is gone), the addresses of the objects and functions of libc.c that
    are used as pointers, and of string literals. *)
Class Guest := {
  os_state : Type;
  os_call : Z -> Z -> Z -> Z -> (Z -> Z) -> os_state -> option (Z * (Z -> Z) * os_state);
  addr_of : string -> Z;
  literal : list Z -> Z;
}.

(** The state of the process; the [u_...] fields after the second are the globals
    of libc.c that are never used through a pointer. *)
Record ustate `{Guest} := Build_ustate {
  um : Z -> Z;
  os : os_state;
  errno : Z;
  signal_handlers : Z -> Z;
  signal_current : Z;
  heap_free : Z; heap_next : Z; heap_limit : Z; heap_oom_reported : Z;
  tmp_sequence : Z;
  environ : Z }.

Section setters.
Context {G : Guest}.
#[export] Instance eta_ustate : Eta ustate := fun r => Build_ustate G (um r) (os r) (errno r)
  (signal_handlers r) (signal_current r) (heap_free r) (heap_next r) (heap_limit r)
  (heap_oom_reported r) (tmp_sequence r) (environ r).
#[export] Instance set_um : Setter um := ltac:(mk_setter).
#[export] Instance set_os : Setter os := ltac:(mk_setter).
#[export] Instance set_errno : Setter errno := ltac:(mk_setter).
#[export] Instance set_signal_handlers : Setter signal_handlers := ltac:(mk_setter).
#[export] Instance set_signal_current : Setter signal_current := ltac:(mk_setter).
#[export] Instance set_heap_free : Setter heap_free := ltac:(mk_setter).
#[export] Instance set_heap_next : Setter heap_next := ltac:(mk_setter).
#[export] Instance set_heap_limit : Setter heap_limit := ltac:(mk_setter).
#[export] Instance set_heap_oom_reported : Setter heap_oom_reported := ltac:(mk_setter).
#[export] Instance set_tmp_sequence : Setter tmp_sequence := ltac:(mk_setter).
#[export] Instance set_environ : Setter environ := ltac:(mk_setter).
End setters.

(** ** The monad of user code *)

Definition U `{Guest} (A : Type) : Type := ustate -> outcome ustate A.

Section monad.
Context {G : Guest}.
#[export] Instance U_ret : MRet U := fun A a s => Ret a s.
#[export] Instance U_bind : MBind U := fun A B k m s =>
  match m s with
  | Ret a s' => k a s'
  | Stop w s' => Stop w s'
  end.
End monad.

Section operations.
Context {G : Guest}.

Definition ustop {A} (w : stop) : U A := fun s => Stop w s.
Definition get {A} (f : ustate -> A) : U A := fun s => Ret (f s) s.
Definition set (f : ustate -> ustate) : U unit := fun s => Ret tt (f s).
Definition uwhen (b : bool) (m : U unit) : U unit := if b then m else mret tt.

(** Loads and stores of a [char] and of an [int] through a pointer. *)
Definition sext8 (b : Z) : Z := if b <? 128 then b else b - 256.
Definition ldc (a : Z) : U Z := get (fun s => sext8 (um s a)).
Definition stc (a v : Z) : U unit := set (fun s => s <| um ::= fun m => upd m a (v mod 256) |>).
Definition ldw (a : Z) : U Z := get (fun s => pread32 (um s) a).
Definition stw (a v : Z) : U unit := set (fun s => s <| um ::= fun m => pwrite32 m a v |>).

(** The [__syscall] intrinsic. *)
Definition __syscall (n a b c : Z) : U Z := fun s =>
  match os_call n a b c (um s) (os s) with
  | Some (r, m, o) => Ret r (s <| um := m |> <| os := o |>)
  | None => Stop Halted s
  end.

(** At most [p] rounds of a loop body, which ends the loop with [inr]. *)
Fixpoint rounds {A B} (p : positive) (step : A -> U (A + B)) (a : A) : U (A + B) :=
  match p with
  | xH => step a
  | xO q => r ← rounds q step a ;
            match r with inl a' => rounds q step a' | inr b => mret (inr b) end
  | xI q => r ← step a ;
            match r with
            | inl a' => r ← rounds q step a' ;
                        match r with inl a'' => rounds q step a'' | inr b => mret (inr b) end
            | inr b => mret (inr b)
            end
  end.

(** A loop.  2^31 rounds are more than any loop over an [int] counter can make. *)
Definition uwhile {A B} (step : A -> U (A + B)) (a : A) : U B :=
  r ← rounds (2 ^ 31) step a ;
  match r with inl _ => ustop OutOfFuel | inr b => mret b end.

(** ** The helpers of the start-up code *)

(** [memcpy] copies words while at least four bytes are left (the loop that copies
    four words at a time copies the same words in the same order), then bytes. *)
Definition memcpy (d s n : Z) : U Z :=
  '(d', s', n') ← uwhile (fun '(d, s, n) =>
    if n <? 4 then mret (inr (d, s, n)) else
    v ← ldw s ; stw d v ;; mret (inl (d + 4, s + 4, n - 4))) (d, s, n) ;
  uwhile (fun '(d, s, n) =>
    if n =? 0 then mret (inr tt) else
    v ← get (fun st => um st s) ; stc d v ;; mret (inl (d + 1, s + 1, n -! 1))) (d', s', n') ;;
  mret d.

Definition memset (d v n : Z) : U Z :=
  let b := Z.land v 255 in
  '(d', n') ← uwhile (fun '(d, n) =>
    if n <? 4 then mret (inr (d, n)) else
    stw d (b * 0x01010101) ;; mret (inl (d + 4, n - 4))) (d, n) ;
  uwhile (fun '(d, n) =>
    if n =? 0 then mret (inr tt) else
    stc d b ;; mret (inl (d + 1, n -! 1))) (d', n') ;;
  mret d.

(** [strlen] and [strcmp] load bytes without sign. *)
Definition strlen (text : Z) : U Z :=
  uwhile (fun i =>
    c ← get (fun s => um s (text + i)) ;
    mret (if c =? 0 then inr i else inl (i + 1))) 0.

Definition strcmp (left right : Z) : U Z :=
  uwhile (fun i =>
    a ← get (fun s => um s (left + i)) ;
    b ← get (fun s => um s (right + i)) ;
    mret (if negb (a =? b) then inr (a - b) else if a =? 0 then inr 0 else inl (i + 1))) 0.
End operations.

(** ** Weakest preconditions *)

Definition uwp `{Guest} {A} (m : U A) (Q : A -> ustate -> Prop) (s : ustate) : Prop := wpm m Q s.

Section uwp.
Context {G : Guest}.

Lemma uwp_ret {A} (a : A) Q s : uwp (mret a) Q s <-> Q a s.
Proof. done. Qed.

Lemma uwp_bind {A B} (m : U B) (k : B -> U A) Q s :
  uwp (mbind k m) Q s <-> uwp m (fun b => uwp (k b) Q) s.
Proof. unfold uwp, wpm, mbind, U_bind. destruct (m s); done. Qed.

Lemma uwp_mono {A} (m : U A) (Q Q' : A -> ustate -> Prop) s :
  uwp m Q s -> (forall a s', Q a s' -> Q' a s') -> uwp m Q' s.
Proof. apply wpm_mono. Qed.

Lemma uwp_get {A} (f : ustate -> A) Q s : uwp (get f) Q s <-> Q (f s) s.
Proof. done. Qed.

Lemma uwp_set f (Q : unit -> ustate -> Prop) s : uwp (set f) Q s <-> Q tt (f s).
Proof. done. Qed.

(** The loop rule: an invariant with an index that goes down in every round. *)
Lemma uwp_rounds {A B} (I : Z -> A -> ustate -> Prop) (Q : B -> ustate -> Prop) step p n a s :
  (forall n a s, I n a s -> 0 <= n /\
     uwp (step a) (fun r s' => match r with
                               | inl a' => exists n', n' < n /\ I n' a' s'
                               | inr b => Q b s'
                               end) s) ->
  I n a s ->
  uwp (rounds p step a) (fun r s' =>
    match r with inl a' => exists n', n' <= n - Zpos p /\ I n' a' s' | inr b => Q b s' end) s.
Proof.
  intros Hs. revert n a s. induction p as [p IH|p IH|]; intros n a s Ha; cbn [rounds].
  - apply uwp_bind. eapply uwp_mono; [by apply Hs|]. intros [a1|b] s1 H1; [|done].
    destruct H1 as (n1 & M1 & H1). apply uwp_bind. eapply uwp_mono; [by apply IH|].
    intros [a2|b] s2 H2; [|done]. destruct H2 as (n2 & M2 & H2).
    eapply uwp_mono; [by apply IH|]. intros [a3|b] s3 H3; [|done].
    destruct H3 as (n3 & M3 & H3). exists n3. split; [lia|done].
  - apply uwp_bind. eapply uwp_mono; [by apply IH|]. intros [a1|b] s1 H1; [|done].
    destruct H1 as (n1 & M1 & H1). eapply uwp_mono; [by apply IH|].
    intros [a2|b] s2 H2; [|done]. destruct H2 as (n2 & M2 & H2). exists n2. split; [lia|done].
  - eapply uwp_mono; [by apply Hs|]. intros [a1|b] s1 H1; [|done].
    destruct H1 as (n1 & M1 & H1). exists n1. split; [lia|done].
Qed.

Lemma uwp_while_index {A B} (I : Z -> A -> ustate -> Prop) (Q : B -> ustate -> Prop) step n a s :
  I n a s -> n < 2 ^ 31 ->
  (forall n a s, I n a s -> 0 <= n /\
     uwp (step a) (fun r s' => match r with
                               | inl a' => exists n', n' < n /\ I n' a' s'
                               | inr b => Q b s'
                               end) s) ->
  uwp (uwhile step a) Q s.
Proof.
  intros Ha Hn Hs. apply uwp_bind. eapply uwp_mono; [by apply (uwp_rounds I Q)|].
  intros [a'|b] s' H'; [|done]. destruct H' as (n' & M' & H'). destruct (Hs _ _ _ H') as [H0 _]. lia.
Qed.

(** The same with a measure of the loop variables. *)
Lemma uwp_while {A B} (I : A -> ustate -> Prop) (μ : A -> Z) (Q : B -> ustate -> Prop) step a s :
  I a s -> μ a < 2 ^ 31 ->
  (forall a s, I a s -> 0 <= μ a /\
     uwp (step a) (fun r s' => match r with inl a' => I a' s' /\ μ a' < μ a | inr b => Q b s' end) s) ->
  uwp (uwhile step a) Q s.
Proof.
  intros Ha Hμ Hs. apply (uwp_while_index (fun n a s => n = μ a /\ I a s) Q step (μ a)); [done|done|].
  intros n a' s' [-> H']. destruct (Hs _ _ H') as [H0 H1]. split; [done|].
  eapply uwp_mono; [exact H1|]. intros [a2|b] s2 H2; [|done]. destruct H2 as [H2 H3]. eauto.
Qed.
End uwp.

Ltac uwp_step :=
  lazymatch goal with
  | |- uwp (mbind _ _) _ _ => apply uwp_bind
  | |- uwp (mret _) _ _ => apply uwp_ret
  | |- uwp (get _) _ _ => apply uwp_get
  | |- uwp (set _) _ _ => apply uwp_set
  | |- uwp (ldc _) _ _ => apply uwp_get
  | |- uwp (ldw _) _ _ => apply uwp_get
  | |- uwp (stc _ _) _ _ => apply uwp_set
  | |- uwp (stw _ _) _ _ => apply uwp_set
  | |- uwp (uwhen true _) _ _ => change (uwhen true ?m) with m
  | |- uwp (uwhen false _) _ _ => apply uwp_ret
  end; cbv beta.
Ltac uwp_auto := repeat uwp_step.
