(* ===== verification/LibString.v ===== *)
(** * LibString: strings, characters and numbers of libc ([userland/libc.c])

    The functions that only read and write the memory of the process.  A C
    function is a computation on addresses; the theorems relate them to functions
    on byte lists through [cstr]. *)

From S2P Require Import Prelude Config Kernel Klog RawMem UserMem.

(** The value of a word as [unsigned]; pointers are compared so. *)
Definition u32 (v : Z) : Z := v mod 2 ^ 32.

Section string.
Context {G : Guest}.

Definition htons (value : Z) : Z :=
  Z.lor (shl (Z.land value 255) 8) (Z.land (shr value 8) 255).
Definition ntohs (value : Z) : Z := htons value.
Definition htonl (value : Z) : Z :=
  Z.lor (Z.lor (Z.lor (shl (Z.land value 255) 24) (shl (Z.land value 0xff00) 8))
    (Z.land (shr value 8) 0xff00)) (Z.land (shr value 24) 255).
Definition ntohl (value : Z) : Z := htonl value.

(** ** Memory *)

Definition memmove (destination source length : Z) : U Z :=
  if u32 destination <? u32 source then memcpy destination source length else
  uwhile (fun i =>
    if i >=? 0 then
      c ← ldc (source + i) ; stc (destination + i) c ;; mret (inl (i - 1))
    else mret (inr tt)) (length - 1) ;;
  mret destination.

Definition memcmp (left right length : Z) : U Z :=
  uwhile (fun i =>
    if i <? length then
      a ← ldc (left + i) ;
      b ← ldc (right + i) ;
      mret (if negb (a =? b) then inr (a - b) else inl (i + 1))
    else mret (inr 0)) 0.

(** ** Strings *)

Definition strncmp (left right length : Z) : U Z :=
  uwhile (fun i =>
    if i <? length then
      a ← ldc (left + i) ;
      b ← ldc (right + i) ;
      mret (if negb (a =? b) then inr (a - b) else if a =? 0 then inr 0 else inl (i + 1))
    else mret (inr 0)) 0.

(** Copy up to the NUL of [source], which is not copied; the number of bytes. *)
Definition copy_text (destination source : Z) : U Z :=
  uwhile (fun i =>
    c ← ldc (source + i) ;
    if c =? 0 then mret (inr i) else
    stc (destination + i) c ;; mret (inl (i + 1))) 0.

Definition strcpy (destination source : Z) : U Z :=
  i ← copy_text destination source ;
  stc (destination + i) 0 ;;
  mret destination.

Definition strncpy (destination source length : Z) : U Z :=
  i ← uwhile (fun i =>
    if i <? length then
      c ← ldc (source + i) ;
      if c =? 0 then mret (inr i) else
      stc (destination + i) c ;; mret (inl (i + 1))
    else mret (inr i)) 0 ;
  uwhile (fun i =>
    if i <? length then stc (destination + i) 0 ;; mret (inl (i + 1))
    else mret (inr tt)) i ;;
  mret destination.

Definition strcat (destination source : Z) : U Z :=
  at_ ← strlen destination ;
  i ← copy_text (destination + at_) source ;
  stc (destination + at_ + i) 0 ;;
  mret destination.

Definition strchr (text character : Z) : U Z :=
  uwhile (fun i =>
    c ← ldc (text + i) ;
    mret (if c =? 0 then inr (if character =? 0 then text + i else 0)
          else if c =? character then inr (text + i) else inl (i + 1))) 0.

Definition strrchr (text character : Z) : U Z :=
  uwhile (fun '(i, found) =>
    c ← ldc (text + i) ;
    mret (if c =? 0 then inr (if character =? 0 then text + i else found)
          else inl (i + 1, if c =? character then text + i else found))) (0, 0).

Definition strstr (text needle : Z) : U Z :=
  length ← strlen needle ;
  if length =? 0 then mret text else
  uwhile (fun i =>
    c ← ldc (text + i) ;
    if c =? 0 then mret (inr 0) else
    r ← strncmp (text + i) needle length ;
    mret (if r =? 0 then inr (text + i) else inl (i + 1))) 0.

(** ** Characters *)

Definition isspace (c : Z) : bool :=
  (c =? 32) || (c =? 9) || (c =? 10) || (c =? 13) || (c =? 11) || (c =? 12).
Definition isdigit (c : Z) : bool := (48 <=? c) && (c <=? 57).
Definition isupper (c : Z) : bool := (65 <=? c) && (c <=? 90).
Definition islower (c : Z) : bool := (97 <=? c) && (c <=? 122).
Definition isalpha (c : Z) : bool := isupper c || islower c.
Definition isalnum (c : Z) : bool := isalpha c || isdigit c.
Definition isxdigit (c : Z) : bool :=
  isdigit c || ((97 <=? c) && (c <=? 102)) || ((65 <=? c) && (c <=? 70)).
Definition toupper (c : Z) : Z := if islower c then c - 97 + 65 else c.
Definition tolower (c : Z) : Z := if isupper c then c - 65 + 97 else c.
Definition digit_value (c : Z) : Z :=
  if isdigit c then c - 48
  else if islower c then c - 97 + 10
  else if isupper c then c - 65 + 10
  else -1.

(** ** Numbers *)

Definition atoi (text : Z) : U Z :=
  c0 ← ldc text ;
  let '(sign, i) := if c0 =? 45 then (-1, 1) else (1, 0) in
  uwhile (fun '(i, value) =>
    c ← ldc (text + i) ;
    mret (if isdigit c then inl (i + 1, i32 (value * 10 + c - 48)) else inr (i32 (value * sign)))) (i, 0).

Definition skip_spaces (text : Z) : U Z :=
  uwhile (fun i => c ← ldc (text + i) ; mret (if isspace c then inl (i + 1) else inr i)) 0.

(** The base and the place of the first digit. *)
Definition number_base (text i base : Z) : U (Z * Z) :=
  c0 ← ldc (text + i) ;
  c1 ← ldc (text + i + 1) ;
  c2 ← ldc (text + i + 2) ;
  mret (if ((base =? 0) || (base =? 16)) && (c0 =? 48) && ((c1 =? 120) || (c1 =? 88)) &&
           (digit_value c2 >=? 0) && (digit_value c2 <? 16) then (16, i + 2)
        else if (base =? 0) && (c0 =? 48) then (8, i)
        else if base =? 0 then (10, i)
        else (base, i)).

Definition strtoul (text endptr base : Z) : U Z :=
  if negb (base =? 0) && ((base <? 2) || (base >? 36)) then
    set (fun s => s <| errno := CFG_EINVAL |>) ;;
    uwhen (negb (endptr =? 0)) (stw endptr text) ;;
    mret 0
  else
    i ← skip_spaces text ;
    c ← ldc (text + i) ;
    let '(sign, i) := if c =? 43 then (1, i + 1) else if c =? 45 then (-1, i + 1) else (1, i) in
    '(base, i) ← number_base text i base ;
    '(i, value, digits) ← uwhile (fun '(i, value, digits) =>
      c ← ldc (text + i) ;
      let digit := digit_value c in
      mret (if (digit <? 0) || (digit >=? base) then inr (i, value, digits)
            else inl (i + 1, u32 (value * base + digit), digits + 1))) (i, 0, 0) ;
    if digits =? 0 then uwhen (negb (endptr =? 0)) (stw endptr text) ;; mret 0 else
    uwhen (negb (endptr =? 0)) (stw endptr (text + i)) ;;
    mret (if sign <? 0 then u32 (0 - value) else value).

Definition strtol (text endptr base : Z) : U Z :=
  v ← strtoul text endptr base ; mret (i32 v).
End string.
