(* ===== verification/LibSys.v ===== *)
(** * LibSys: what libc builds on system calls ([userland/libc.c])

    The system-call wrappers, and the heap that grows by [sbrk]. *)

From S2P Require Import Prelude Config Kernel Klog RawMem UserMem LibString.

(** * The system-call wrappers of libc ([userland/libc.c], lines 31-259 and
    415-566)

    A negative answer of the kernel becomes -1 with [errno] set.  The address of a
    local that the kernel reads or writes is [addr_of "function.local"]. *)

Section sys.
Context {G : Guest}.

Definition ret_errno (r : Z) : U Z :=
  if r <? 0 then set (fun s => s <| errno := 0 -! r |>) ;; mret (-1) else mret r.

(** [return ret_errno(__syscall(n, a, b, c));] *)
Definition sys (n a b c : Z) : U Z := r ← __syscall n a b c ; ret_errno r.

(** ** The plain wrappers *)

Definition write (fd buf n : Z) : U Z := sys CFG_SYS_WRITE fd buf n.
Definition read (fd buf n : Z) : U Z := sys CFG_SYS_READ fd buf n.
Definition open (path flags : Z) : U Z := sys CFG_SYS_OPEN path flags 0.
Definition close (fd : Z) : U Z := sys CFG_SYS_CLOSE fd 0 0.
Definition fork : U Z := sys CFG_SYS_FORK 0 0 0.
Definition wait : U Z := sys CFG_SYS_WAIT 0 0 0.
Definition waitpid (pid status options : Z) : U Z := sys CFG_SYS_WAITPID pid status options.
Definition exec (path argv : Z) : U Z := e ← get environ ; sys CFG_SYS_EXEC path argv e.
Definition execve (path argv envp : Z) : U Z := sys CFG_SYS_EXEC path argv envp.
Definition getpid : U Z := sys CFG_SYS_GETPID 0 0 0.
Definition getppid : U Z := sys CFG_SYS_GETPPID 0 0 0.
Definition kill (pid sig : Z) : U Z := sys CFG_SYS_KILL pid sig 0.
Definition sigprocmask (how mask old_mask : Z) : U Z := sys CFG_SYS_SIGPROCMASK how mask old_mask.
Definition setpgid (pid pgid : Z) : U Z := sys CFG_SYS_SETPGID pid pgid 0.
Definition setsid : U Z := sys CFG_SYS_SETSID 0 0 0.
Definition tcsetpgrp (pgid : Z) : U Z := sys CFG_SYS_TCSETPGRP pgid 0 0.
Definition tcgetpgrp : U Z := sys CFG_SYS_TCGETPGRP 0 0 0.
Definition pipe (fds : Z) : U Z := sys CFG_SYS_PIPE fds 0 0.
Definition dup (fd : Z) : U Z := sys CFG_SYS_DUP fd 0 0.
Definition fcntl (fd command argument : Z) : U Z := sys CFG_SYS_FCNTL fd command argument.
Definition ioctl (fd request argument : Z) : U Z := sys CFG_SYS_IOCTL fd request argument.
Definition nanosleep (request remaining : Z) : U Z := sys CFG_SYS_NANOSLEEP request remaining 0.
Definition munmap (address length : Z) : U Z := sys CFG_SYS_MUNMAP address length 0.
Definition mprotect (address length protection : Z) : U Z := sys CFG_SYS_MPROTECT address length protection.
Definition gettimeofday (value timezone : Z) : U Z := sys CFG_SYS_GETTIMEOFDAY value timezone 0.
Definition clock_gettime (clock_id value : Z) : U Z := sys CFG_SYS_CLOCK_GETTIME clock_id value 0.
Definition uname (name : Z) : U Z := sys CFG_SYS_UNAME name 0 0.
Definition getdents (fd entries count : Z) : U Z := sys CFG_SYS_GETDENTS fd entries count.
Definition stat (path value : Z) : U Z := sys CFG_SYS_STAT path value 0.
Definition fstat (fd value : Z) : U Z := sys CFG_SYS_FSTAT fd value 0.
Definition lstat (path value : Z) : U Z := sys CFG_SYS_LSTAT path value 0.
Definition chmod (path mode : Z) : U Z := sys CFG_SYS_CHMOD path mode 0.
Definition chown (path uid gid : Z) : U Z := sys CFG_SYS_CHOWN path uid gid.
Definition mkdir (path mode : Z) : U Z := sys CFG_SYS_MKDIR path mode 0.
Definition rmdir (path : Z) : U Z := sys CFG_SYS_RMDIR path 0 0.
Definition unlink (path : Z) : U Z := sys CFG_SYS_UNLINK path 0 0.
Definition link (oldpath newpath : Z) : U Z := sys CFG_SYS_LINK oldpath newpath 0.
Definition rename (oldpath newpath : Z) : U Z := sys CFG_SYS_RENAME oldpath newpath 0.
Definition symlink (target linkpath : Z) : U Z := sys CFG_SYS_SYMLINK target linkpath 0.
Definition readlink (path buffer size : Z) : U Z := sys CFG_SYS_READLINK path buffer size.
Definition lseek (fd offset whence : Z) : U Z := sys CFG_SYS_LSEEK fd offset whence.
Definition getuid : U Z := sys CFG_SYS_GETUID 0 0 0.
Definition getgid : U Z := sys CFG_SYS_GETGID 0 0 0.
Definition poll (fds count timeout : Z) : U Z := sys CFG_SYS_POLL fds count timeout.
Definition socket (domain type protocol : Z) : U Z := sys CFG_SYS_SOCKET domain type protocol.
Definition bind (fd address length : Z) : U Z := sys CFG_SYS_BIND fd address length.
Definition listen (fd backlog : Z) : U Z := sys CFG_SYS_LISTEN fd backlog 0.
Definition accept (fd address length : Z) : U Z := sys CFG_SYS_ACCEPT fd address length.
Definition connect (fd address length : Z) : U Z := sys CFG_SYS_CONNECT fd address length.

(** ** Signals *)

Definition signal_dispatch_run (handler : Z -> Z -> U unit) (r0 : Z) : U unit :=
  set (fun s => s <| signal_current := r0 |>) ;;
  n ← get signal_current ;
  h ← get (fun s => signal_handlers s n) ;
  handler h n.

Definition signal_restorer : U unit := __syscall CFG_SYS_SIGRETURN 0 0 0 ;; mret tt.

(** The handler table has 32 entries. *)
Definition sigaction (sig action old_action : Z) : U Z :=
  let dispatch := addr_of "signal_dispatch" in
  let kernel_action := addr_of "sigaction.kernel_action" in
  let kernel_old := addr_of "sigaction.kernel_old" in
  previous ← (if (sig >=? 0) && (sig <? 32) then get (fun s => signal_handlers s sig) else mret 0) ;
  next ← (if negb (action =? 0) then
            mask ← ldw (action + 4) ; stw (kernel_action + 4) mask ;;
            flags ← ldw (action + 8) ; stw (kernel_action + 8) flags ;;
            stw (kernel_action + 12) (addr_of "signal_restorer") ;;
            h ← ldw action ;
            stw kernel_action (if (h =? 0) || (h =? 1) then h else dispatch) ;;
            mret h
          else mret previous) ;
  result ← sys CFG_SYS_SIGACTION sig (if negb (action =? 0) then kernel_action else 0)
               (if negb (old_action =? 0) then kernel_old else 0) ;
  uwhen ((result =? 0) && negb (old_action =? 0))
    (mask ← ldw (kernel_old + 4) ; stw (old_action + 4) mask ;;
     flags ← ldw (kernel_old + 8) ; stw (old_action + 8) flags ;;
     stw (old_action + 12) 0 ;;
     h ← ldw kernel_old ;
     stw old_action (if h =? dispatch then previous else h)) ;;
  uwhen ((result =? 0) && negb (action =? 0))
    (set (fun s => s <| signal_handlers ::= fun t => upd t sig next |>)) ;;
  mret result.

Definition signal (sig handler : Z) : U Z :=
  let action := addr_of "signal.action" in
  let old_action := addr_of "signal.old_action" in
  stw action handler ;;
  stw (action + 4) 0 ;;
  stw (action + 8) 0 ;;
  stw (action + 12) 0 ;;
  r ← sigaction sig action old_action ;
  if r <? 0 then mret (-1) else ldw old_action.

(** ** Terminal attributes *)

Definition tcgetattr (fd attributes : Z) : U Z := ioctl fd CFG_TCGETS attributes.

Definition tcsetattr (fd actions attributes : Z) : U Z :=
  ioctl fd (if actions =? 1 then CFG_TCSETSW else if actions =? 2 then CFG_TCSETSF else CFG_TCSETS) attributes.

Definition tcgetwinsize (fd size : Z) : U Z := ioctl fd CFG_TIOCGWINSZ size.
Definition tcsetwinsize (fd size : Z) : U Z := ioctl fd CFG_TIOCSWINSZ size.

Definition isatty (fd : Z) : U Z :=
  r ← tcgetattr fd (addr_of "isatty.attributes") ; mret (b2z (r =? 0)).

(** ** The break and mappings *)

Definition brk (address : Z) : U Z :=
  r ← sys CFG_SYS_BRK address 0 0 ; mret (if r <? 0 then -1 else 0).

Definition sbrk (increment : Z) : U Z :=
  old ← sys CFG_SYS_BRK 0 0 0 ;
  if old <? 0 then mret (-1) else
  new ← sys CFG_SYS_BRK (old +! increment) 0 0 ;
  mret (if new <? 0 then -1 else old).

(** [args[0] = ...; args[1] = ...; ...] *)
Fixpoint store_words (a : Z) (vs : list Z) : U unit :=
  match vs with [] => mret tt | v :: vs' => stw a v ;; store_words (a + 4) vs' end.

Definition mmap (address length protection flags fd offset : Z) : U Z :=
  let arguments := addr_of "mmap.arguments" in
  store_words arguments [address; length; protection; flags; fd; offset] ;;
  r ← sys CFG_SYS_MMAP arguments 0 0 ; mret (if r <? 0 then -1 else r).

(** ** Sockets *)

Definition send (fd buffer length flags : Z) : U Z :=
  if negb (flags =? 0) then set (fun s => s <| errno := CFG_EOPNOTSUPP |>) ;; mret (-1)
  else sys CFG_SYS_SEND fd buffer length.

Definition recv (fd buffer length flags : Z) : U Z :=
  if negb (flags =? 0) then set (fun s => s <| errno := CFG_EOPNOTSUPP |>) ;; mret (-1)
  else sys CFG_SYS_RECV fd buffer length.

Definition sendto (fd buffer length flags address address_length : Z) : U Z :=
  let args := addr_of "sendto.args" in
  store_words args [buffer; length; flags; address; address_length] ;;
  sys CFG_SYS_SENDTO fd args 0.

Definition recvfrom (fd buffer length flags address address_length : Z) : U Z :=
  let args := addr_of "recvfrom.args" in
  store_words args [buffer; length; flags; address; address_length] ;;
  sys CFG_SYS_RECVFROM fd args 0.

Definition setsockopt (fd level option value length : Z) : U Z :=
  let args := addr_of "setsockopt.args" in
  store_words args [level; option; value; length] ;;
  sys CFG_SYS_SETSOCKOPT fd args 0.

(** ** The process and the clock *)

Definition exit (code : Z) : U unit := __syscall CFG_SYS_EXIT code 0 0 ;; mret tt.
Definition shutdown : U unit := __syscall CFG_SYS_SHUTDOWN 0 0 0 ;; mret tt.

Definition time (tloc : Z) : U Z :=
  now ← sys CFG_SYS_TIME 0 0 0 ;
  uwhen (negb (tloc =? 0)) (stw tloc now) ;;
  mret now.

Definition sleep (seconds : Z) : U Z :=
  let request := addr_of "sleep.request" in
  store_words request [seconds; 0] ;;
  r ← nanosleep request 0 ; mret (if r <? 0 then -1 else 0).
End sys.

(** * The heap of libc ([userland/libc.c], lines 269-391)

    A block is a header of three words (size, free, next) and its payload.  Freed
    blocks are on the list from [heap_free]; new ones are cut from the region
    between [heap_next] and [heap_limit], which grows by [sbrk]. *)

Definition HEAP_CHUNK : Z := 65536.
Definition sizeof_block : Z := 12.

Section alloc.
Context {G : Guest}.

(** Fields of [struct heap_block] at [b]. *)
Definition hb_size (b : Z) : Z := b.
Definition hb_free (b : Z) : Z := b + 4.
Definition hb_next (b : Z) : Z := b + 8.

Definition oom_text : list Z := str "libc: out of memory (heap exhausted)" ++ [10].

Definition report_oom : U unit :=
  reported ← get heap_oom_reported ;
  if negb (reported =? 0) then mret tt else
  set (fun s => s <| heap_oom_reported := 1 |>) ;;
  let m := literal oom_text in
  n ← strlen m ;
  write 2 m n ;;
  mret tt.

(** [*link] and its assignment; the link is [heap_free] itself or the next field
    of a block. *)
Definition link_get (link : option Z) : U Z :=
  match link with None => get heap_free | Some b => ldw (hb_next b) end.
Definition link_set (link : option Z) (v : Z) : U unit :=
  match link with
  | None => set (fun s => s <| heap_free := v |>)
  | Some b => stw (hb_next b) v
  end.

(** The first block on the list that is large enough, taken off it, or 0. *)
Definition take_free (size : Z) : U Z :=
  uwhile (fun link =>
    block ← link_get link ;
    if block =? 0 then mret (inr 0) else
    have ← ldw (hb_size block) ;
    if have >=? size then
      next ← ldw (hb_next block) ;
      link_set link next ;;
      stw (hb_free block) 0 ;;
      mret (inr block)
    else mret (inl (Some block))) None.

(** Grow the region until [total] bytes fit; was there memory? *)
Definition grow_region (total : Z) : U bool :=
  uwhile (fun _ : unit =>
    next ← get heap_next ;
    limit ← get heap_limit ;
    if (next =? 0) || (u32 (next + total) >? u32 limit) then
      let need := if total >? HEAP_CHUNK then total else HEAP_CHUNK in
      base ← sbrk need ;
      if base =? -1 then report_oom ;; mret (inr false) else
      next ← get heap_next ;
      limit ← get heap_limit ;
      uwhen (negb (negb (next =? 0) && (base =? limit))) (set (fun s => s <| heap_next := base |>)) ;;
      set (fun s => s <| heap_limit := base + need |>) ;;
      mret (inl tt)
    else mret (inr true)) tt.

Definition malloc (size : Z) : U Z :=
  if size <=? 0 then mret 0 else
  let size := i32 (Z.land (size +! 7) (-8)) in
  block ← take_free size ;
  if negb (block =? 0) then mret (block + sizeof_block) else
  let total := size +! sizeof_block in
  ok ← grow_region total ;
  if negb ok then mret 0 else
  block ← get heap_next ;
  set (fun s => s <| heap_next := block + total |>) ;;
  stw (hb_size block) size ;;
  stw (hb_free block) 0 ;;
  stw (hb_next block) 0 ;;
  mret (block + sizeof_block).

Definition free (pointer : Z) : U unit :=
  if pointer =? 0 then mret tt else
  let block := pointer - sizeof_block in
  f ← ldw (hb_free block) ;
  if negb (f =? 0) then mret tt else
  stw (hb_free block) 1 ;;
  head ← get heap_free ;
  stw (hb_next block) head ;;
  set (fun s => s <| heap_free := block |>).

Definition calloc (count size : Z) : U Z :=
  if (count <=? 0) || (size <=? 0) then mret 0 else
  let total := i32 (count * size) in
  if negb (Z.quot total count =? size) then mret 0 else
  pointer ← malloc total ;
  uwhen (negb (pointer =? 0)) (memset pointer 0 total ;; mret tt) ;;
  mret pointer.

Definition realloc (pointer size : Z) : U Z :=
  if pointer =? 0 then malloc size else
  if size <=? 0 then free pointer ;; mret 0 else
  let old_block := pointer - sizeof_block in
  have ← ldw (hb_size old_block) ;
  if have >=? size then mret pointer else
  next ← malloc size ;
  if next =? 0 then mret 0 else
  copy ← ldw (hb_size old_block) ;
  memcpy next pointer (if copy >? size then size else copy) ;;
  free pointer ;;
  mret next.

Definition strdup (text : Z) : U Z :=
  n ← strlen text ;
  copy ← malloc (n + 1) ;
  uwhen (negb (copy =? 0)) (strcpy copy text ;; mret tt) ;;
  mret copy.
End alloc.
