(* ===== verification/LibStdio.v ===== *)
(** * LibStdio: streams of libc ([userland/libc.c], lines 840-1230)

    A [FILE] is ten words of memory.  A stream opened for writing on a descriptor
    collects its output in a buffer ([FILE_BUFW]); a memory stream grows its data
    and publishes it to its owner. *)

From S2P Require Import Prelude Config Kernel Klog RawMem UserMem LibString LibSys.

Definition FILE_READ : Z := 1.
Definition FILE_WRITE : Z := 2.
Definition FILE_MEMSTREAM : Z := 4.
Definition FILE_BUFW : Z := 8.
Definition STDIO_WBUF_SIZE : Z := 4096.
Definition sizeof_FILE : Z := 40.
Definition O_WRONLY : Z := 1.
Definition O_RDWR : Z := 2.
Definition O_CREAT : Z := 0x200.
Definition O_TRUNC : Z := 0x400.
Definition O_APPEND : Z := 0x1000.

Section stdio.
Context {G : Guest}.

(** Fields of the [FILE] at [f]. *)
Definition f_fd (f : Z) : Z := f.
Definition f_flags (f : Z) : Z := f + 4.
Definition f_error (f : Z) : Z := f + 8.
Definition f_eof (f : Z) : Z := f + 12.
Definition f_mem_buffer (f : Z) : Z := f + 16.
Definition f_mem_size (f : Z) : Z := f + 20.
Definition f_mem_data (f : Z) : Z := f + 24.
Definition f_mem_capacity (f : Z) : Z := f + 28.
Definition f_mem_length (f : Z) : Z := f + 32.
Definition f_mem_position (f : Z) : Z := f + 36.

Definition stream_is (f flag : Z) : U bool := v ← ldw (f_flags f) ; mret (has v flag).

Definition fdopen (fd mode : Z) : U Z :=
  stream ← malloc sizeof_FILE ;
  if stream =? 0 then mret 0 else
  stw (f_fd stream) fd ;;
  stw (f_flags stream) 0 ;;
  m ← ldc mode ;
  stw (f_flags stream) (if m =? 114 then 1 else 2) ;;
  store_words (f_error stream) [0; 0; 0; 0; 0; 0; 0; 0] ;;
  w ← stream_is stream FILE_WRITE ;
  uwhen ((fd >=? 0) && w)
    (data ← malloc STDIO_WBUF_SIZE ;
     stw (f_mem_data stream) data ;;
     uwhen (negb (data =? 0))
       (stw (f_mem_capacity stream) STDIO_WBUF_SIZE ;;
        flags ← ldw (f_flags stream) ;
        stw (f_flags stream) (Z.lor flags FILE_BUFW))) ;;
  mret stream.

(** Drain the write buffer. *)
Definition fflush_wbuf (stream : Z) : U Z :=
  buffered ← stream_is stream FILE_BUFW ;
  length ← ldw (f_mem_length stream) ;
  if negb buffered || (length =? 0) then mret 0 else
  uwhile (fun done =>
    length ← ldw (f_mem_length stream) ;
    if done <? length then
      fd ← ldw (f_fd stream) ;
      data ← ldw (f_mem_data stream) ;
      n ← write fd (data + done) (length - done) ;
      if n <=? 0 then
        stw (f_error stream) 1 ;;
        stw (f_mem_length stream) 0 ;;
        mret (inr (-1))
      else mret (inl (done +! n))
    else
      stw (f_mem_length stream) 0 ;;
      mret (inr 0)) 0.

Definition fopen (path mode : Z) : U Z :=
  m ← ldc mode ;
  let flags := if m =? 119 then Z.lor (Z.lor O_WRONLY O_CREAT) O_TRUNC
               else if m =? 97 then Z.lor (Z.lor O_WRONLY O_CREAT) O_APPEND else 0 in
  fd ← open path flags ;
  if fd <? 0 then mret 0 else
  m ← ldc mode ;
  uwhen (m =? 97) (lseek fd 0 2 ;; mret tt) ;;
  fdopen fd mode.

Definition memstream_grow (stream need : Z) : U Z :=
  capacity ← ldw (f_mem_capacity stream) ;
  if need <=? capacity then mret 0 else
  capacity ← uwhile (fun c => mret (if c <? need then inl (c *! 2) else inr c))
                    (if capacity <? 64 then 64 else capacity) ;
  data ← ldw (f_mem_data stream) ;
  next ← realloc data capacity ;
  if next =? 0 then stw (f_error stream) 1 ;; mret (-1) else
  stw (f_mem_data stream) next ;;
  stw (f_mem_capacity stream) capacity ;;
  mret 0.

Definition memstream_publish (stream : Z) : U unit :=
  ms ← stream_is stream FILE_MEMSTREAM ;
  if negb ms then mret tt else
  length ← ldw (f_mem_length stream) ;
  r ← memstream_grow stream (length +! 1) ;
  if r <? 0 then mret tt else
  data ← ldw (f_mem_data stream) ;
  length ← ldw (f_mem_length stream) ;
  stc (data + length) 0 ;;
  buffer ← ldw (f_mem_buffer stream) ;
  data ← ldw (f_mem_data stream) ;
  stw buffer data ;;
  size ← ldw (f_mem_size stream) ;
  length ← ldw (f_mem_length stream) ;
  stw size length.

Definition open_memstream (buffer size : Z) : U Z :=
  if (buffer =? 0) || (size =? 0) then mret 0 else
  stream ← fdopen (-1) (literal (str "w")) ;
  if stream =? 0 then mret 0 else
  stw (f_flags stream) (Z.lor FILE_WRITE FILE_MEMSTREAM) ;;
  stw (f_mem_buffer stream) buffer ;;
  stw (f_mem_size stream) size ;;
  stw (f_mem_capacity stream) 0 ;;
  stw (f_mem_length stream) 0 ;;
  stw (f_mem_position stream) 0 ;;
  stw (f_mem_data stream) 0 ;;
  stw buffer 0 ;;
  stw size 0 ;;
  r ← memstream_grow stream 1 ;
  if r <? 0 then free stream ;; mret 0 else
  memstream_publish stream ;;
  mret stream.

(** Is it one of the three static streams? *)
Definition is_static (stream : Z) : bool :=
  (stream =? addr_of "stdin_object") || (stream =? addr_of "stdout_object") ||
  (stream =? addr_of "stderr_object").

Definition fclose (stream : Z) : U Z :=
  if stream =? 0 then mret (-1) else
  ms ← stream_is stream FILE_MEMSTREAM ;
  if (ms : bool) then memstream_publish stream ;; free stream ;; mret 0 else
  fflush_wbuf stream ;;
  fd ← ldw (f_fd stream) ;
  result ← close fd ;
  buffered ← stream_is stream FILE_BUFW ;
  uwhen buffered (data ← ldw (f_mem_data stream) ; free data) ;;
  uwhen (negb (is_static stream)) (free stream) ;;
  mret result.

Definition fflush (stream : Z) : U Z :=
  if stream =? 0 then mret 0 else
  memstream_publish stream ;;
  fflush_wbuf stream.

Definition fseek (stream offset whence : Z) : U Z :=
  ms ← stream_is stream FILE_MEMSTREAM ;
  if (ms : bool) then
    position ← ldw (f_mem_position stream) ;
    length ← ldw (f_mem_length stream) ;
    let result := if whence =? 0 then offset
                  else if whence =? 1 then position +! offset
                  else if whence =? 2 then length +! offset else -1 in
    if result <? 0 then stw (f_error stream) 1 ;; mret (-1) else
    stw (f_mem_position stream) result ;;
    stw (f_eof stream) 0 ;;
    mret 0
  else
    fflush_wbuf stream ;;
    fd ← ldw (f_fd stream) ;
    result ← lseek fd offset whence ;
    if result <? 0 then stw (f_error stream) 1 ;; mret (-1) else
    stw (f_eof stream) 0 ;;
    mret 0.

Definition ftell (stream : Z) : U Z :=
  ms ← stream_is stream FILE_MEMSTREAM ;
  if (ms : bool) then ldw (f_mem_position stream) else
  fflush_wbuf stream ;;
  fd ← ldw (f_fd stream) ;
  result ← lseek fd 0 1 ;
  uwhen (result <? 0) (stw (f_error stream) 1) ;;
  mret result.

Definition feof (stream : Z) : U Z := ldw (f_eof stream).
Definition ferror (stream : Z) : U Z := ldw (f_error stream).
Definition clearerr (stream : Z) : U unit := stw (f_error stream) 0 ;; stw (f_eof stream) 0.
Definition fileno (stream : Z) : U Z := ldw (f_fd stream).

Definition fread (buffer size count stream : Z) : U Z :=
  if (size <=? 0) || (count <=? 0) then mret 0 else
  let total := size *! count in
  ms ← stream_is stream FILE_MEMSTREAM ;
  if (ms : bool) then
    position ← ldw (f_mem_position stream) ;
    length ← ldw (f_mem_length stream) ;
    if position >=? length then stw (f_eof stream) 1 ;; mret 0 else
    total ← (if total >? length - position then stw (f_eof stream) 1 ;; mret (length - position)
             else mret total) ;
    data ← ldw (f_mem_data stream) ;
    memcpy buffer (data + position) total ;;
    stw (f_mem_position stream) (position + total) ;;
    mret (Z.quot total size)
  else
    done ← uwhile (fun done =>
      if done <? total then
        fd ← ldw (f_fd stream) ;
        n ← read fd (buffer + done) (total - done) ;
        if n <? 0 then stw (f_error stream) 1 ;; mret (inr done)
        else if n =? 0 then stw (f_eof stream) 1 ;; mret (inr done)
        else mret (inl (done +! n))
      else mret (inr done)) 0 ;
    mret (Z.quot done size).

(** One round of the unbuffered loop of [fwrite]. *)
Definition fwrite_direct (stream bytes total : Z) : Z -> U (Z + Z) := fun done =>
  if done <? total then
    fd ← ldw (f_fd stream) ;
    n ← write fd (bytes + done) (total - done) ;
    if n <=? 0 then stw (f_error stream) 1 ;; mret (inr done) else mret (inl (done +! n))
  else mret (inr done).

(** One round of the buffered loop: make room, pass a large rest straight through,
    or fill the buffer. *)
Definition fwrite_buffered (stream bytes total : Z) : Z -> U (Z + Z) := fun done =>
  if done <? total then
    length ← ldw (f_mem_length stream) ;
    capacity ← ldw (f_mem_capacity stream) ;
    full ← (if length =? capacity then r ← fflush_wbuf stream ; mret (r <? 0) else mret false) ;
    if (full : bool) then mret (inr done) else
    length ← ldw (f_mem_length stream) ;
    if (length =? 0) && (total - done >=? capacity) then fwrite_direct stream bytes total done else
    let n := if capacity - length >? total - done then total - done else capacity - length in
    data ← ldw (f_mem_data stream) ;
    memcpy (data + length) (bytes + done) n ;;
    stw (f_mem_length stream) (length + n) ;;
    mret (inl (done + n))
  else mret (inr done).

Definition fwrite (buffer size count stream : Z) : U Z :=
  if (size <=? 0) || (count <=? 0) then mret 0 else
  let total := size *! count in
  ms ← stream_is stream FILE_MEMSTREAM ;
  if (ms : bool) then
    position ← ldw (f_mem_position stream) ;
    r ← memstream_grow stream (position +! total +! 1) ;
    if r <? 0 then mret 0 else
    data ← ldw (f_mem_data stream) ;
    memcpy (data + position) buffer total ;;
    stw (f_mem_position stream) (position +! total) ;;
    position ← ldw (f_mem_position stream) ;
    length ← ldw (f_mem_length stream) ;
    uwhen (position >? length) (stw (f_mem_length stream) position) ;;
    memstream_publish stream ;;
    mret count
  else
    buffered ← stream_is stream FILE_BUFW ;
    done ← uwhile (if (buffered : bool) then fwrite_buffered stream buffer total
                   else fwrite_direct stream buffer total) 0 ;
    mret (Z.quot done size).

(** ** Characters and lines *)

Definition fgetc (stream : Z) : U Z :=
  let c := addr_of "fgetc.c" in
  fd ← ldw (f_fd stream) ;
  n ← read fd c 1 ;
  if n =? 1 then ldc c
  else if n =? 0 then stw (f_eof stream) 1 ;; mret (-1)
  else stw (f_error stream) 1 ;; mret (-1).

Definition fputc (character stream : Z) : U Z :=
  let c := addr_of "fputc.c" in
  stc c character ;;
  ms ← stream_is stream FILE_MEMSTREAM ;
  if (ms : bool) then r ← fwrite c 1 1 stream ; if negb (r =? 1) then mret (-1) else ldc c
  else
    buffered ← stream_is stream FILE_BUFW ;
    if (buffered : bool) then
      length ← ldw (f_mem_length stream) ;
      capacity ← ldw (f_mem_capacity stream) ;
      failed ← (if length =? capacity then r ← fflush_wbuf stream ; mret (r <? 0) else mret false) ;
      if (failed : bool) then mret (-1) else
      data ← ldw (f_mem_data stream) ;
      length ← ldw (f_mem_length stream) ;
      v ← ldc c ;
      stc (data + length) v ;;
      stw (f_mem_length stream) (length + 1) ;;
      ldc c
    else
      fd ← ldw (f_fd stream) ;
      n ← write fd c 1 ;
      if negb (n =? 1) then stw (f_error stream) 1 ;; mret (-1) else ldc c.

Definition fgets (buffer size stream : Z) : U Z :=
  if size <=? 0 then mret 0 else
  i ← uwhile (fun i =>
    if i + 1 <? size then
      c ← fgetc stream ;
      if c <? 0 then mret (inr i) else
      stc (buffer + i) c ;;
      mret (if c =? 10 then inr (i + 1) else inl (i + 1))
    else mret (inr i)) 0 ;
  stc (buffer + i) 0 ;;
  mret (if i =? 0 then 0 else buffer).

Definition fputs (text stream : Z) : U Z :=
  length ← strlen text ;
  r ← fwrite text 1 length stream ;
  mret (if negb (r =? length) then -1 else 0).

Definition puts (text : Z) : U Z :=
  let stdout := addr_of "stdout_object" in
  r ← fputs text stdout ;
  if r <? 0 then mret (-1) else fputc 10 stdout.
End stdio.
