(* ===== verification/LibFormat.v ===== *)
(** * LibFormat: formatted output of libc ([userland/libc.c], lines 1232-1497)

    A sink counts characters and passes them to a stream or stores those that fit
    into a buffer.  The variable arguments are the list of their words; a 64-bit one
    is two words, the low one first. *)

From S2P Require Import Prelude Config Kernel Klog RawMem UserMem LibString LibSys LibStdio.

(** [struct format_sink]. *)
Record format_sink := Build_format_sink {
  fs_stream : Z; fs_buffer : Z; fs_size : Z; fs_count : Z; fs_error : Z }.
#[export] Instance eta_format_sink : Eta format_sink := fun r => Build_format_sink
  (fs_stream r) (fs_buffer r) (fs_size r) (fs_count r) (fs_error r).
#[export] Instance set_fs_count : Setter fs_count := ltac:(mk_setter).
#[export] Instance set_fs_error : Setter fs_error := ltac:(mk_setter).

(** ** The digits of a number *)

Definition digit_char (digit upper : Z) : Z :=
  if digit <? 10 then 48 + digit
  else if negb (upper =? 0) then 65 + digit - 10 else 97 + digit - 10.

(** [while (value != 0) digits[n++] = ...], least significant digit first; the
    buffer has room for the digits of a 32- or 64-bit number in base 2. *)
Fixpoint digits_of (fuel : nat) (value base upper : Z) : list Z :=
  match fuel with
  | O => []
  | S f => if value =? 0 then []
           else digit_char (value mod base) upper :: digits_of f (value / base) base upper
  end.

(** The characters that [format_uint] and [format_ull] put, in order. *)
Definition uint_text (width : nat) (value base upper : Z) : list Z :=
  if value =? 0 then [48] else rev (digits_of width value base upper).

Definition int_text (value : Z) : list Z :=
  if value <? 0 then 45 :: uint_text 32 (u32 (0 - value)) 10 0 else uint_text 32 (u32 value) 10 0.

Definition ll_text (value : Z) : list Z :=
  if value <? 0 then 45 :: uint_text 64 ((0 - value) mod 2 ^ 64) 10 0
  else uint_text 64 (value mod 2 ^ 64) 10 0.

(** A [long long] from its two words. *)
Definition ull_of (lo hi : Z) : Z := u32 lo + 2 ^ 32 * u32 hi.
Definition ll_of (lo hi : Z) : Z := u32 lo + 2 ^ 32 * hi.

(** [va_arg], on the words that are left. *)
Definition va_int (ap : list Z) : Z * list Z :=
  match ap with [] => (0, []) | v :: ap' => (v, ap') end.
Definition va_long_long (ap : list Z) : (Z * Z) * list Z :=
  let '(lo, ap) := va_int ap in let '(hi, ap) := va_int ap in ((lo, hi), ap).

Section format.
Context {G : Guest}.

(** ** The sink *)

Definition format_putc (sink : format_sink) (character : Z) : U format_sink :=
  sink ← (if negb (fs_stream sink =? 0) then
            r ← fputc character (fs_stream sink) ;
            mret (if r <? 0 then sink <| fs_error := 1 |> else sink)
          else
            uwhen (negb (fs_buffer sink =? 0) && (fs_size sink >? 0) && (fs_count sink +! 1 <? fs_size sink))
              (stc (fs_buffer sink + fs_count sink) character) ;;
            mret sink) ;
  mret (sink <| fs_count ::= fun c => c +! 1 |>).

Fixpoint put_all (sink : format_sink) (cs : list Z) : U format_sink :=
  match cs with
  | [] => mret sink
  | c :: cs' => sink ← format_putc sink c ; put_all sink cs'
  end.

Definition format_uint (sink : format_sink) (value base upper : Z) : U format_sink :=
  put_all sink (uint_text 32 value base upper).
Definition format_ull (sink : format_sink) (value base upper : Z) : U format_sink :=
  put_all sink (uint_text 64 value base upper).
Definition format_int (sink : format_sink) (value : Z) : U format_sink := put_all sink (int_text value).
Definition format_ll (sink : format_sink) (value : Z) : U format_sink := put_all sink (ll_text value).

(** Pad [body] to [width] columns. *)
Definition format_padded (sink : format_sink) (body : list Z) (width left_ zero : Z) : U format_sink :=
  let pad := Z.to_nat (width -! Z.of_nat (length body)) in
  sink ← (if left_ =? 0 then put_all sink (replicate pad (if negb (zero =? 0) then 48 else 32))
          else mret sink) ;
  sink ← put_all sink body ;
  if negb (left_ =? 0) then put_all sink (replicate pad 32) else mret sink.

(** ** A conversion *)

(** A run of decimal digits of the format, and where it ends. *)
Definition format_number (format i : Z) : U (Z * Z) :=
  uwhile (fun '(i, v) =>
    c ← ldc (format + i) ;
    mret (if isdigit c then inl (i + 1, i32 (v * 10 + (c - 48))) else inr (i, v))) (i, 0).

Definition format_flags (format i : Z) : U (Z * Z * Z) :=
  uwhile (fun '(i, left_, zero) =>
    c ← ldc (format + i) ;
    mret (if (c =? 45) || (c =? 48) || (c =? 43) || (c =? 32) || (c =? 35)
          then inl (i + 1, if c =? 45 then 1 else left_,
                    if negb (c =? 45) && (c =? 48) then 1 else zero)
          else inr (i, left_, zero))) (i, 0, 0).

(** The width: position, [left_], width and the arguments left. *)
Definition format_width (format i left_ : Z) (ap : list Z) : U (Z * Z * Z * list Z) :=
  c ← ldc (format + i) ;
  if c =? 42 then
    let '(width, ap) := va_int ap in
    mret (if width <? 0 then (i + 1, 1, 0 -! width, ap) else (i + 1, left_, width, ap))
  else '(i, width) ← format_number format i ; mret (i, left_, width, ap).

Definition format_precision (format i : Z) (ap : list Z) : U (Z * Z * list Z) :=
  c ← ldc (format + i) ;
  if negb (c =? 46) then mret (i, -1, ap) else
  c ← ldc (format + i + 1) ;
  if c =? 42 then let '(prec, ap) := va_int ap in mret (i + 2, prec, ap)
  else '(i, prec) ← format_number format (i + 1) ; mret (i, prec, ap).

Definition format_long (format i : Z) : U (Z * Z) :=
  c ← ldc (format + i) ;
  if negb (c =? 108) then mret (i, 0) else
  c ← ldc (format + i + 1) ;
  mret (if c =? 108 then (i + 2, 2) else (i + 1, 1)).

(** The text of a number, and the arguments left. *)
Definition number_text (spec long_flag : Z) (ap : list Z) : list Z * list Z :=
  if (spec =? 100) || (spec =? 105) then
    if long_flag =? 2 then let '((lo, hi), ap) := va_long_long ap in (ll_text (ll_of lo hi), ap)
    else let '(v, ap) := va_int ap in (int_text v, ap)
  else if spec =? 112 then
    let '(v, ap) := va_int ap in (str "0x" ++ uint_text 32 (u32 v) 16 0, ap)
  else
    let base := if spec =? 117 then 10 else 16 in
    let upper := if spec =? 88 then 1 else 0 in
    if long_flag =? 2 then let '((lo, hi), ap) := va_long_long ap in (uint_text 64 (ull_of lo hi) base upper, ap)
    else let '(v, ap) := va_int ap in (uint_text 32 (u32 v) base upper, ap).

Definition is_number_spec (spec : Z) : bool :=
  (spec =? 100) || (spec =? 105) || (spec =? 117) || (spec =? 120) || (spec =? 88) || (spec =? 112).

(** The bytes of a string, as [char] values. *)
Definition load_bytes (a n : Z) : U (list Z) := get (fun s => (fun k => sext8 (um s (a + k))) <$> seqZ 0 n).

(** The conversion [spec]. *)
Definition format_spec (sink : format_sink) (spec long_flag width left_ zero prec : Z) (ap : list Z)
    : U (format_sink * list Z) :=
  if spec =? 115 then
    let '(text, ap) := va_int ap in
    let text := if text =? 0 then literal (str "(null)") else text in
    slen ← strlen text ;
    body ← load_bytes text (if (prec >=? 0) && (prec <? slen) then prec else slen) ;
    sink ← format_padded sink body width left_ 0 ;
    mret (sink, ap)
  else if spec =? 99 then
    let '(c, ap) := va_int ap in
    sink ← format_padded sink [sext8 (c mod 256)] width left_ 0 ;
    mret (sink, ap)
  else if is_number_spec spec then
    let '(text, ap) := number_text spec long_flag ap in
    sink ← format_padded sink (take 79 text) width left_ (if negb (left_ =? 0) then 0 else zero) ;
    mret (sink, ap)
  else
    sink ← format_putc sink 37 ;
    sink ← (if negb (long_flag =? 0) then format_putc sink 108 else mret sink) ;
    sink ← format_putc sink spec ;
    mret (sink, ap).

(** One round of the loop of [vformat]. *)
Definition vformat_step (format : Z) : Z * format_sink * list Z -> U (Z * format_sink * list Z + format_sink) :=
  fun '(i, sink, ap) =>
  c ← ldc (format + i) ;
  if c =? 0 then mret (inr sink) else
  if negb (c =? 37) then sink ← format_putc sink c ; mret (inl (i + 1, sink, ap)) else
  c ← ldc (format + i + 1) ;
  if c =? 37 then sink ← format_putc sink 37 ; mret (inl (i + 2, sink, ap)) else
  '(i, left_, zero) ← format_flags format (i + 1) ;
  '(i, left_, width, ap) ← format_width format i left_ ap ;
  '(i, prec, ap) ← format_precision format i ap ;
  '(i, long_flag) ← format_long format i ;
  spec ← ldc (format + i) ;
  if spec =? 0 then mret (inr sink) else
  '(sink, ap) ← format_spec sink spec long_flag width left_ zero prec ap ;
  mret (inl (i + 1, sink, ap)).

Definition vformat (sink : format_sink) (format : Z) (ap : list Z) : U Z :=
  sink ← uwhile (vformat_step format) (0, sink, ap) ;
  uwhen (negb (fs_buffer sink =? 0) && (fs_size sink >? 0))
    (if fs_count sink <? fs_size sink then stc (fs_buffer sink + fs_count sink) 0
     else stc (fs_buffer sink + fs_size sink - 1) 0) ;;
  mret (if negb (fs_error sink =? 0) then -1 else fs_count sink).

(** ** The entry points *)

Definition vfprintf (stream format : Z) (ap : list Z) : U Z :=
  vformat (Build_format_sink stream 0 0 0 0) format ap.
Definition vsnprintf (buffer size format : Z) (ap : list Z) : U Z :=
  vformat (Build_format_sink 0 buffer size 0 0) format ap.
Definition snprintf (buffer size format : Z) (args : list Z) : U Z := vsnprintf buffer size format args.
Definition printf (format : Z) (args : list Z) : U Z :=
  vformat (Build_format_sink (addr_of "stdout_object") 0 0 0 0) format args.
Definition fprintf (stream format : Z) (args : list Z) : U Z :=
  vformat (Build_format_sink stream 0 0 0 0) format args.
Definition print_int (value : Z) : U Z := printf (literal (str "%d")) [value].
End format.
