(* ===== verification/LibEnv.v ===== *)
(** * LibEnv: temporary files, directories, the environment and paths of libc
    ([userland/libc.c], lines 1499-1791)

    [environ] points to a null-terminated array of pointers to NAME=value
    strings. *)

From S2P Require Import Prelude Config Kernel Klog RawMem UserMem LibString LibSys LibStdio LibFormat.

Section env.
Context {G : Guest}.

Definition fail_with (code : Z) : U Z := set (fun s => s <| errno := code |>) ;; mret (-1).

(** ** Temporary files *)

Definition tmpnam (buffer : Z) : U Z :=
  let out := if buffer =? 0 then addr_of "tmpnam_buffer" else buffer in
  set (fun s => s <| tmp_sequence ::= fun n => n +! 1 |>) ;;
  n ← get tmp_sequence ;
  snprintf out 32 (literal (str "/tmp/ctmp%x")) [n] ;;
  mret out.

(** Are [template[j]] to [template[n - 1]] all X? *)
Definition all_x (template n j : Z) : U bool :=
  uwhile (fun j =>
    if j <? n then
      c ← ldc (template + j) ; mret (if negb (c =? 88) then inr false else inl (j + 1))
    else mret (inr true)) j.

(** Replace the six X by the digits of [value] in base 36. *)
Definition fill_template (template n value : Z) : U unit :=
  let digits := literal (str "0123456789abcdefghijklmnopqrstuvwxyz") in
  uwhile (fun '(j, value) =>
    if j >=? n - 6 then
      d ← ldc (digits + Z.rem value 36) ;
      stc (template + j) d ;;
      mret (inl (j - 1, Z.quot value 36))
    else mret (inr tt)) (n - 1, value).

Definition mkstemp (template : Z) : U Z :=
  n ← strlen template ;
  if n <? 6 then fail_with CFG_EINVAL else
  ok ← all_x template n (n - 6) ;
  if negb ok then fail_with CFG_EINVAL else
  uwhile (fun i =>
    if i <? 256 then
      set (fun s => s <| tmp_sequence ::= fun n => n +! 1 |>) ;;
      value ← get tmp_sequence ;
      fill_template template n value ;;
      r ← stat template (addr_of "mkstemp.st") ;
      if r =? 0 then mret (inl (i + 1)) else
      e ← get errno ;
      if negb (e =? CFG_ENOENT) then mret (inr (-1)) else
      fd ← open template (Z.lor O_RDWR O_CREAT) ;
      if fd >=? 0 then mret (inr fd) else
      e ← get errno ;
      mret (if negb (e =? CFG_EEXIST) then inr (-1) else inl (i + 1))
    else r ← fail_with CFG_EEXIST ; mret (inr r)) 0.

Definition tmpfile : U Z :=
  let path := addr_of "tmpfile.path" in
  strcpy path (literal (str "/tmp/ctmpXXXXXX")) ;;
  fd ← mkstemp path ;
  if fd <? 0 then mret 0 else
  unlink path ;;
  fdopen fd (literal (str "w+")).

Definition remove (path : Z) : U Z := unlink path.

(** ** Directories: [fd], [next], [count] and four entries of 32 bytes *)

Definition sizeof_dirent : Z := 32.
Definition sizeof_DIR : Z := 140.
Definition d_next (d : Z) : Z := d + 4.
Definition d_count (d : Z) : Z := d + 8.
Definition d_entries (d : Z) : Z := d + 12.

Definition opendir (path : Z) : U Z :=
  fd ← open path 0 ;
  if fd <? 0 then mret 0 else
  directory ← malloc sizeof_DIR ;
  if directory =? 0 then close fd ;; mret 0 else
  stw directory fd ;;
  stw (d_next directory) 0 ;;
  stw (d_count directory) 0 ;;
  mret directory.

Definition readdir (directory : Z) : U Z :=
  next ← ldw (d_next directory) ;
  count ← ldw (d_count directory) ;
  more ← (if next >=? count then
            fd ← ldw directory ;
            bytes ← getdents fd (d_entries directory) (sizeof_dirent * 4) ;
            if bytes <=? 0 then mret false else
            stw (d_count directory) (Z.quot bytes sizeof_dirent) ;;
            stw (d_next directory) 0 ;;
            mret true
          else mret true) ;
  if negb more then mret 0 else
  next ← ldw (d_next directory) ;
  stw (d_next directory) (next +! 1) ;;
  next ← ldw (d_next directory) ;
  mret (d_entries directory + (next - 1) * sizeof_dirent).

Definition rewinddir (directory : Z) : U unit :=
  fd ← ldw directory ;
  lseek fd 0 0 ;;
  stw (d_next directory) 0 ;;
  stw (d_count directory) 0.

Definition closedir (directory : Z) : U Z :=
  fd ← ldw directory ;
  result ← close fd ;
  free directory ;;
  mret result.

(** ** The environment *)

Definition env_name_length (entry : Z) : U Z :=
  uwhile (fun i =>
    c ← ldc (entry + i) ;
    mret (if negb (c =? 0) && negb (c =? 61) then inl (i + 1) else inr i)) 0.

Definition env_count : U Z :=
  e ← get environ ;
  if e =? 0 then mret 0 else
  uwhile (fun count =>
    e ← get environ ;
    v ← ldw (e + count * 4) ;
    mret (if negb (v =? 0) then inl (count + 1) else inr count)) 0.

(** Does the entry define the name of [length] bytes? *)
Definition env_matches (entry name length : Z) : U bool :=
  n ← env_name_length entry ;
  if negb (n =? length) then mret false else
  r ← strncmp entry name length ; mret (r =? 0).

Definition getenv (name : Z) : U Z :=
  length ← strlen name ;
  uwhile (fun i =>
    e ← get environ ;
    if e =? 0 then mret (inr 0) else
    entry ← ldw (e + i * 4) ;
    if entry =? 0 then mret (inr 0) else
    m ← env_matches entry name length ;
    mret (if (m : bool) then inr (entry + length + 1) else inl (i + 1))) 0.

Definition putenv (entry : Z) : U Z :=
  count ← env_count ;
  name_length ← env_name_length entry ;
  replace ← uwhile (fun '(i, replace) =>
    if i <? count then
      e ← get environ ;
      old ← ldw (e + i * 4) ;
      m ← env_matches old entry name_length ;
      mret (inl (i + 1, if (m : bool) then i else replace))
    else mret (inr replace)) (0, -1) ;
  next ← malloc ((count + 2) *! 4) ;
  if next =? 0 then mret (-1) else
  uwhile (fun i =>
    if i <? count then
      e ← get environ ;
      v ← ldw (e + i * 4) ;
      stw (next + i * 4) v ;;
      mret (inl (i + 1))
    else mret (inr tt)) 0 ;;
  count ← (if replace >=? 0 then stw (next + replace * 4) entry ;; mret count
           else stw (next + count * 4) entry ;; mret (count + 1)) ;
  stw (next + count * 4) 0 ;;
  set (fun s => s <| environ := next |>) ;;
  mret 0.

Definition setenv (name value overwrite : Z) : U Z :=
  eq ← strchr name 61 ;
  c ← ldc name ;
  if negb (eq =? 0) || (c =? 0) then fail_with 22 else
  old ← (if overwrite =? 0 then getenv name else mret 0) ;
  if negb (old =? 0) then mret 0 else
  name_length ← strlen name ;
  value_length ← strlen value ;
  entry ← malloc (name_length +! value_length +! 2) ;
  if entry =? 0 then mret (-1) else
  strcpy entry name ;;
  stc (entry + name_length) 61 ;;
  strcpy (entry + name_length + 1) value ;;
  putenv entry.

Definition unsetenv (name : Z) : U Z :=
  count ← env_count ;
  length ← strlen name ;
  next ← malloc ((count + 1) *! 4) ;
  if next =? 0 then mret (-1) else
  out ← uwhile (fun '(i, out) =>
    if i <? count then
      e ← get environ ;
      entry ← ldw (e + i * 4) ;
      m ← env_matches entry name length ;
      if (m : bool) then mret (inl (i + 1, out)) else
      stw (next + out * 4) entry ;;
      mret (inl (i + 1, out + 1))
    else mret (inr out)) (0, 0) ;
  stw (next + out * 4) 0 ;;
  set (fun s => s <| environ := next |>) ;;
  mret 0.

(** ** Paths *)

(** [while (at > low && is == (path[at - 1] == '/')) at = at - 1;] *)
Definition back_over (slash : bool) (path low at_ : Z) : U Z :=
  uwhile (fun at_ =>
    if at_ >? low then
      c ← ldc (path + at_ - 1) ;
      mret (if Bool.eqb (c =? 47) slash then inl (at_ - 1) else inr at_)
    else mret (inr at_)) at_.

(** Copy [path[from] ...] below [end_], at most 127 bytes, and terminate it. *)
Definition copy_component (buffer path from end_ : Z) : U unit :=
  out ← uwhile (fun out =>
    if (from + out <? end_) && (out <? 127) then
      c ← ldc (path + from + out) ; stc (buffer + out) c ;; mret (inl (out + 1))
    else mret (inr out)) 0 ;
  stc (buffer + out) 0.

Definition basename (path : Z) : U Z :=
  let buffer := addr_of "basename_buffer" in
  n ← strlen path ;
  end_ ← back_over true path 1 n ;
  start ← back_over false path 0 end_ ;
  copy_component buffer path start end_ ;;
  mret buffer.

Definition dirname (path : Z) : U Z :=
  let buffer := addr_of "dirname_buffer" in
  n ← strlen path ;
  end_ ← back_over true path 1 n ;
  end_ ← back_over false path 0 end_ ;
  end_ ← back_over true path 1 end_ ;
  if end_ =? 0 then stc buffer 46 ;; stc (buffer + 1) 0 ;; mret buffer else
  copy_component buffer path 0 end_ ;;
  mret buffer.

Definition path_join (output size left_ right_ : Z) : U Z :=
  n ← strlen left_ ;
  m ← strlen right_ ;
  if n +! m +! 2 >? size then fail_with 36 else
  strcpy output left_ ;;
  at_ ← strlen output ;
  c ← (if at_ >? 0 then ldc (output + at_ - 1) else mret 47) ;
  at_ ← (if (at_ >? 0) && negb (c =? 47) then stc (output + at_) 47 ;; mret (at_ + 1) else mret at_) ;
  i ← uwhile (fun i => c ← ldc (right_ + i) ; mret (if c =? 47 then inl (i + 1) else inr i)) 0 ;
  strcpy (output + at_) (right_ + i) ;;
  mret 0.
End env.
