(* ===== verification/Shell.v ===== *)
(** * Shell: the command interpreter ([userland/sh.c])

    The globals of sh.c and the locals whose address is taken are in memory, at
    [addr_of "sh.name"].  A call of [fork] returns in the parent and in the child;
    each of the two is a run of the program.  [exit] and a successful [exec] do not
    return: the kernel answers them with [None]. *)

From S2P Require Import Prelude Config Kernel Klog RawMem UserMem LibString LibSys LibStdio LibFormat LibEnv.

Section sh.
Context {G : Guest}.

Definition line : Z := addr_of "sh.line".
Definition args : Z := addr_of "sh.args".
Definition pathbuf : Z := addr_of "sh.pathbuf".
Definition script_argv : Z := addr_of "sh.script_argv".
Definition candidate : Z := addr_of "sh.candidate".
Definition redir_in : Z := addr_of "sh.redir_in".
Definition redir_out : Z := addr_of "sh.redir_out".
Definition input_fd : Z := addr_of "sh.input_fd".
Definition pipefds : Z := addr_of "sh.pipefds".
Definition pids : Z := addr_of "sh.pids".
Definition starts : Z := addr_of "sh.starts".

(** [args[i]], and [args[i][0] == c && args[i][1] == 0]. *)
Definition arg (i : Z) : U Z := ldw (args + i * 4).
Definition is_op (i c : Z) : U bool :=
  p ← arg i ;
  a ← ldc p ;
  if negb (a =? c) then mret false else
  b ← ldc (p + 1) ; mret (b =? 0).

(** [write(2, "...", n)]. *)
Definition complain (text : list Z) : U Z := write 2 (literal text) (Z.of_nat (length text)).

(** ** Running a program *)

Definition exec_path (path av : Z) : U unit :=
  exec path av ;;
  e ← get errno ;
  if negb (e =? 8) then mret tt else
  stw script_argv (literal (str "/bin/sh")) ;;
  stw (script_argv + 4) path ;;
  i ← uwhile (fun i =>
    a ← ldw (av + i * 4) ;
    if negb (a =? 0) && (i <? 18) then stw (script_argv + (i + 1) * 4) a ;; mret (inl (i + 1))
    else mret (inr i)) 1 ;
  stw (script_argv + (i + 1) * 4) 0 ;;
  exec (literal (str "/bin/sh")) script_argv ;;
  mret tt.

(** Is there a slash in the text? *)
Definition has_slash (cmd : Z) : U bool :=
  uwhile (fun i =>
    c ← ldc (cmd + i) ;
    mret (if c =? 0 then inr false else if c =? 47 then inr true else inl (i + 1))) 0.

(** Copy the directory of the search path that starts at [start] to [pathbuf]:
    where it ends, and the length that is stored, at most 48. *)
Definition path_entry (search start : Z) : U (Z * Z) :=
  uwhile (fun '(i, out) =>
    c ← ldc (search + i) ;
    if (c =? 0) || (c =? 58) then mret (inr (i, out)) else
    if out <? 48 then stc (pathbuf + out) c ;; mret (inl (i + 1, out + 1))
    else mret (inl (i + 1, out))) (start, 0).

Definition exec_cmd (av : Z) : U unit :=
  cmd ← ldw av ;
  slash ← has_slash cmd ;
  if (slash : bool) then exec_path cmd av else
  search ← getenv (literal (str "PATH")) ;
  let search := if search =? 0 then literal (str "/bin") else search in
  uwhile (fun start =>
    '(i, out) ← path_entry search start ;
    out ← (if out =? 0 then stc pathbuf 46 ;; mret 1 else mret out) ;
    stc (pathbuf + out) 0 ;;
    r ← path_join candidate 64 pathbuf cmd ;
    stop ← (if r =? 0 then
              exec_path candidate av ;;
              e ← get errno ;
              mret (negb (e =? 2) && negb (e =? 20))
            else mret false) ;
    if (stop : bool) then mret (inr tt) else
    c ← ldc (search + i) ;
    mret (if c =? 0 then inr tt else inl (i + 1))) 0.

(** ** Reading a command *)

Definition readline : U Z :=
  let c := addr_of "sh.readline.c" in
  let getc : U Z := fd ← ldw input_fd ; read fd c 1 in
  n ← getc ;
  if n <=? 0 then stc line 0 ;; mret (-1) else
  i ← uwhile (fun '(i, n) =>
    if negb (n >? 0) then mret (inr i) else
    ch ← ldc c ;
    if ch =? 10 then mret (inr i) else
    if ch =? 13 then n ← getc ; mret (inl (i, n)) else
    i ← (if i <? 127 then stc (line + i) ch ;; mret (i + 1) else mret i) ;
    n ← getc ;
    mret (inl (i, n))) (0, n) ;
  stc (line + i) 0 ;;
  mret i.

(** [while (p(line[i])) i = i + 1;] *)
Definition skip_while (p : Z -> bool) (i : Z) : U Z :=
  uwhile (fun i => c ← ldc (line + i) ; mret (if p c then inl (i + 1) else inr i)) i.

Definition is_blank (c : Z) : bool := (c =? 32) || (c =? 9).

(** The rest of a round of [tokenize], from the first character [c] of a word on. *)
Definition take_word (c i argc : Z) : U (Z * Z) :=
  let '(quote, i) := if (c =? 39) || (c =? 34) then (c, i + 1) else (0, i) in
  argc ← (if argc <? 19 then stw (args + argc * 4) (line + i) ;; mret (argc + 1) else mret argc) ;
  i ← (if negb (quote =? 0) then skip_while (fun c => negb (c =? 0) && negb (c =? quote)) i
       else skip_while (fun c => negb (c =? 0) && negb (is_blank c)) i) ;
  c ← ldc (line + i) ;
  if negb (c =? 0) then stc (line + i) 0 ;; mret (i + 1, argc) else mret (i, argc).

Definition tokenize : U Z :=
  argc ← uwhile (fun '(i, argc) =>
    c ← ldc (line + i) ;
    if c =? 0 then mret (inr argc) else
    i ← skip_while is_blank i ;
    c ← ldc (line + i) ;
    if c =? 0 then mret (inr argc) else
    r ← take_word c i argc ; mret (inl r)) (0, 0) ;
  stw (args + argc * 4) 0 ;;
  mret argc.

(** ** Redirections *)

Definition parse_redirections (argc : Z) : U Z :=
  stw redir_in 0 ;;
  stw redir_out 0 ;;
  r ← uwhile (fun '(i, out) =>
    if negb (i <? argc) then mret (inr (Some out)) else
    lt ← is_op i 60 ;
    gt ← is_op i 62 ;
    if (lt : bool) || gt then
      if i + 1 >=? argc then mret (inr None) else
      target ← arg (i + 1) ;
      stw (if lt then redir_in else redir_out) target ;;
      mret (inl (i + 2, out))
    else
      a ← arg i ;
      stw (args + out * 4) a ;;
      mret (inl (i + 1, out + 1))) (0, 0) ;
  match r with
  | None => mret (-1)
  | Some out => stw (args + out * 4) 0 ;; mret out
  end.

(** Replace descriptor [std] by the file [path]. *)
Definition redirect (path flags std : Z) : U Z :=
  fd ← open path flags ;
  if fd <? 0 then mret (-1) else
  close std ;;
  dup fd ;;
  close fd ;;
  mret 0.

Definition apply_redirections (use_input use_output : bool) : U Z :=
  rin ← ldw redir_in ;
  r ← (if use_input && negb (rin =? 0) then redirect rin 0 0 else mret 0) ;
  if r <? 0 then mret (-1) else
  rout ← ldw redir_out ;
  if use_output && negb (rout =? 0) then redirect rout 0x601 1 else mret 0.

(** ** Pipelines *)

(** [while (i < n) { body; i = i + 1; }] *)
Definition for_below (n : Z) (body : Z -> U unit) : U unit :=
  uwhile (fun i => if negb (i <? n) then mret (inr tt) else body i ;; mret (inl (i + 1))) 0.

(** The number of commands, or [None] after a complaint. *)
Definition count_commands (nargs : Z) : U (option Z) :=
  uwhile (fun '(i, commands) =>
    if negb (i <? nargs) then mret (inr (Some commands)) else
    bar ← is_op i 124 ;
    if negb bar then mret (inl (i + 1, commands)) else
    bad ← (if (i =? 0) || (i + 1 =? nargs) then mret true else is_op (i - 1) 124) ;
    if (bad : bool) then complain (str "sh: bad pipeline" ++ [10]) ;; mret (inr None) else
    if commands >=? 4 then complain (str "sh: pipeline too long" ++ [10]) ;; mret (inr None) else
    mret (inl (i + 1, commands + 1))) (0, 1).

(** End the argument list of every command but the last. *)
Definition split_commands (nargs : Z) : U unit :=
  stw starts 0 ;;
  uwhile (fun '(i, command) =>
    if negb (i <? nargs) then mret (inr tt) else
    bar ← is_op i 124 ;
    if (bar : bool) then
      stw (args + i * 4) 0 ;;
      stw (starts + command * 4) (i + 1) ;;
      mret (inl (i + 1, command + 1))
    else mret (inl (i + 1, command))) (0, 1).

Definition close_pipe_fd (i : Z) : U unit := fd ← ldw (pipefds + i * 4) ; close fd ;; mret tt.

(** The pipes between the commands; false when one cannot be made. *)
Definition make_pipes (commands : Z) : U bool :=
  uwhile (fun i =>
    if negb (i + 1 <? commands) then mret (inr true) else
    r ← pipe (pipefds + i * 2 * 4) ;
    if r <? 0 then
      uwhile (fun created =>
        if created >? 0 then
          close_pipe_fd ((created - 1) * 2) ;;
          close_pipe_fd ((created - 1) * 2 + 1) ;;
          mret (inl (created - 1))
        else mret (inr tt)) i ;;
      mret (inr false)
    else mret (inl (i + 1))) 0.

(** The child's side of a fork. *)
Definition child (commands command group : Z) : U unit :=
  (if command =? 0 then setpgid 0 0 else setpgid 0 group) ;;
  signal 2 0 ;;
  uwhen (command >? 0) (close 0 ;; fd ← ldw (pipefds + (command - 1) * 2 * 4) ; dup fd ;; mret tt) ;;
  uwhen (command + 1 <? commands) (close 1 ;; fd ← ldw (pipefds + (command * 2 + 1) * 4) ; dup fd ;; mret tt) ;;
  for_below ((commands - 1) * 2) close_pipe_fd ;;
  r ← apply_redirections (command =? 0) (command + 1 =? commands) ;
  uwhen (r <? 0) (exit 1) ;;
  first ← ldw (starts + command * 4) ;
  exec_cmd (args + first * 4) ;;
  complain (str "sh: exec failed" ++ [10]) ;;
  exit 1.

(** Start the commands: the process group, or [None] after a fork that failed and
    the end of the children there were. *)
Definition start_commands (commands : Z) : U (option Z) :=
  uwhile (fun '(command, group) =>
    if negb (command <? commands) then mret (inr (Some group)) else
    pid ← fork ;
    stw (pids + command * 4) pid ;;
    if pid <? 0 then
      for_below ((commands - 1) * 2) close_pipe_fd ;;
      for_below command (fun i => p ← ldw (pids + i * 4) ; kill p 9 ;; mret tt) ;;
      for_below command (fun i => p ← ldw (pids + i * 4) ; waitpid p (addr_of "sh.run_pipeline.status") 0 ;; mret tt) ;;
      mret (inr None)
    else
      uwhen (pid =? 0) (child commands command group) ;;
      group ← (if command =? 0 then ldw pids else mret group) ;
      p ← ldw (pids + command * 4) ;
      setpgid p group ;;
      mret (inl (command + 1, group))) (0, 0).

Definition run_pipeline (nargs : Z) (background : bool) : U Z :=
  n ← count_commands nargs ;
  match n with
  | None => mret (-1)
  | Some commands =>
      split_commands nargs ;;
      ok ← make_pipes commands ;
      if negb ok then mret (-1) else
      g ← start_commands commands ;
      match g with
      | None => mret (-1)
      | Some group =>
          for_below ((commands - 1) * 2) close_pipe_fd ;;
          uwhen (negb background)
            (tcsetpgrp group ;;
             for_below commands (fun i => p ← ldw (pids + i * 4) ;
                                          waitpid p (addr_of "sh.run_pipeline.status") 2 ;; mret tt) ;;
             me ← getpid ; tcsetpgrp me ;; mret tt) ;;
          mret 0
      end
  end.

(** ** Commands of the shell itself *)

Definition has_bar (nargs : Z) : U bool :=
  uwhile (fun i =>
    if negb (i <? nargs) then mret (inr false) else
    bar ← is_op i 124 ;
    mret (if (bar : bool) then inr true else inl (i + 1))) 0.

Definition is_word (text : Z) (word : string) : U bool := r ← strcmp text (literal (str word)) ; mret (r =? 0).

Definition print_environ : U unit :=
  uwhile (fun i =>
    e ← get environ ;
    if e =? 0 then mret (inr tt) else
    entry ← ldw (e + i * 4) ;
    if entry =? 0 then mret (inr tt) else
    puts entry ;; mret (inl (i + 1))) 0.

(** 1: leave the shell, 2: done, 0: not one of them. *)
Definition run_builtin (nargs : Z) : U Z :=
  bar ← has_bar nargs ;
  if (bar : bool) then mret 0 else
  cmd ← arg 0 ;
  b ← is_word cmd "exit" ;
  if (b : bool) then mret 1 else
  b ← is_word cmd "export" ;
  if (b : bool) then
    uwhen (nargs >? 1)
      (a ← arg 1 ;
       equals ← strchr a 61 ;
       uwhen (negb (equals =? 0)) (stc equals 0 ;; a ← arg 1 ; setenv a (equals + 1) 1 ;; mret tt)) ;;
    mret 2
  else
  b ← is_word cmd "unset" ;
  if (b : bool) then uwhen (nargs >? 1) (a ← arg 1 ; unsetenv a ;; mret tt) ;; mret 2 else
  b ← is_word cmd "env" ;
  if (b : bool) then print_environ ;; mret 2 else mret 0.

(** ** The main loop *)

(** One command line; false at the end of the input or after [exit]. *)
Definition one_line : U bool :=
  uwhile (fun _ : unit =>
    r ← waitpid (-1) (addr_of "sh.main.status") 1 ; mret (if r >? 0 then inl tt else inr tt)) tt ;;
  n ← readline ;
  if n <? 0 then mret false else
  if n =? 0 then mret true else
  c ← ldc line ;
  if c =? 35 then mret true else
  nargs ← tokenize ;
  nargs ← parse_redirections nargs ;
  if nargs <? 0 then complain (str "sh: bad redirection" ++ [10]) ;; mret true else
  if nargs =? 0 then mret true else
  background ← is_op (nargs - 1) 38 ;
  let nargs := if (background : bool) then nargs - 1 else nargs in
  uwhen background (stw (args + nargs * 4) 0) ;;
  if nargs =? 0 then mret true else
  builtin ← run_builtin nargs ;
  if builtin =? 1 then mret false else
  (if builtin =? 0 then run_pipeline nargs background ;; mret tt else mret tt) ;;
  mret true.

Definition sh_main (argc argv : Z) : U Z :=
  stw input_fd 0 ;;
  ok ← (if argc >? 1 then
          path ← ldw (argv + 4) ;
          fd ← open path 0 ;
          stw input_fd fd ;;
          mret (negb (fd <? 0))
        else mret true) ;
  if negb ok then complain (str "sh: cannot open script" ++ [10]) ;; mret 1 else
  setsid ;;
  fd ← ldw input_fd ;
  uwhen (fd =? 0) (me ← getpid ; tcsetpgrp me ;; mret tt) ;;
  signal 2 1 ;;
  uwhile (fun _ : unit => more ← one_line ; mret (if (more : bool) then inl tt else inr tt)) tt ;;
  fd ← ldw input_fd ;
  uwhen (negb (fd =? 0)) (close fd ;; mret tt) ;;
  mret 0.
End sh.
