(* ===== verification/Utils.v ===== *)
(** * Utils: the programs of /bin ([userland/*.c] except sh.c and libc.c) *)

From S2P Require Import Prelude Config Kernel Klog RawMem UserMem LibString LibSys LibStdio LibFormat LibEnv.

(** * The programs of /bin ([userland/*.c] except sh.c and libc.c)

    One section per program; [name_main] is the [main] of name.c, and its buffers
    are at [addr_of "name.buffer"]. *)

Section utils.
Context {G : Guest}.

Definition stdin : Z := addr_of "stdin_object".
Definition stdout : Z := addr_of "stdout_object".

(** [argv[i]], and [write(fd, "...", n)]. *)
Definition word_at (argv i : Z) : U Z := ldw (argv + i * 4).
Definition say (fd : Z) (text : list Z) : U Z := write fd (literal text) (Z.of_nat (length text)).
Definition is_text (a : Z) (text : string) : U bool := r ← strcmp a (literal (str text)) ; mret (r =? 0).

(** Apply [body] to the arguments: 1 when one of the results was negative. *)
Definition each_argument (body : Z -> U Z) (argc argv : Z) : U Z :=
  uwhile (fun '(i, result) =>
    if negb (i <? argc) then mret (inr result) else
    a ← word_at argv i ;
    r ← body a ;
    mret (inl (i + 1, if r <? 0 then 1 else result))) (1, 0).

(** Write [n] bytes, in as many calls as it takes; false when a call writes nothing. *)
Definition write_out (fd buf n : Z) : U bool :=
  uwhile (fun off =>
    if negb (off <? n) then mret (inr true) else
    wrote ← write fd (buf + off) (n - off) ;
    mret (if wrote <=? 0 then inr false else inl (off + wrote))) 0.

(** ** cat *)

Definition copy_fd (fd : Z) : U unit :=
  let buf := addr_of "cat.buf" in
  uwhile (fun _ : unit =>
    n ← read fd buf 512 ;
    if negb (n >? 0) then mret (inr tt) else
    out ← ldw (f_fd stdout) ;
    ok ← write_out out buf n ;
    mret (if (ok : bool) then inl tt else inr tt)) tt.

Definition cat_main (argc argv : Z) : U Z :=
  if argc <? 2 then copy_fd 0 ;; mret 0 else
  uwhile (fun i =>
    if negb (i <? argc) then mret (inr 0) else
    path ← word_at argv i ;
    fd ← open path 0 ;
    (if fd <? 0 then say 2 (str "cat: cannot open" ++ [10]) ;; mret tt
     else copy_fd fd ;; close fd ;; mret tt) ;;
    mret (inl (i + 1))) 1.

(** ** dmesg *)

Definition dmesg_main (argc argv : Z) : U Z :=
  let buf := addr_of "dmesg.buf" in
  fd ← open (literal (str "/dev/kmsg")) 0 ;
  if fd <? 0 then say 2 (str "dmesg: cannot open /dev/kmsg" ++ [10]) ;; mret 1 else
  uwhile (fun _ : unit =>
    n ← read fd buf 512 ;
    if negb (n >? 0) then close fd ;; mret (inr 0) else
    ok ← write_out 1 buf n ;
    if (ok : bool) then mret (inl tt) else close fd ;; mret (inr 1)) tt.

(** ** date, echo, env *)

Definition date_main (argc argv : Z) : U Z :=
  t ← time 0 ;
  print_int t ;;
  fputc 10 stdout ;;
  mret 0.

Definition echo_main (argc argv : Z) : U Z :=
  uwhile (fun i =>
    if negb (i <? argc) then mret (inr tt) else
    a ← word_at argv i ;
    n ← strlen a ;
    write 1 a n ;;
    uwhen (i + 1 <? argc) (say 1 [32] ;; mret tt) ;;
    mret (inl (i + 1))) 1 ;;
  fputc 10 stdout ;;
  mret 0.

Definition env_main (argc argv : Z) : U Z :=
  uwhile (fun i =>
    e ← get environ ;
    if e =? 0 then mret (inr 0) else
    entry ← ldw (e + i * 4) ;
    if entry =? 0 then mret (inr 0) else
    puts entry ;; mret (inl (i + 1))) 0.

(** ** grep *)

Definition grep_main (argc argv : Z) : U Z :=
  let grep_line := addr_of "grep.grep_line" in
  if argc <? 2 then say 2 (str "usage: grep pattern [file]" ++ [10]) ;; mret 2 else
  stream ← (if argc >? 2 then path ← word_at argv 2 ; fopen path (literal (str "r")) else mret stdin) ;
  if stream =? 0 then mret 1 else
  uwhile (fun _ : unit =>
    r ← fgets grep_line 128 stream ;
    if r =? 0 then mret (inr tt) else
    pattern ← word_at argv 1 ;
    m ← strstr grep_line pattern ;
    uwhen (negb (m =? 0)) (fputs grep_line stdout ;; mret tt) ;;
    mret (inl tt)) tt ;;
  uwhen (negb (stream =? stdin)) (fclose stream ;; mret tt) ;;
  mret 0.

(** ** head *)

Definition head_main (argc argv : Z) : U Z :=
  let c := addr_of "head.c" in
  fd ← (if argc >? 1 then path ← word_at argv 1 ; open path 0 else mret 0) ;
  if fd <? 0 then mret 1 else
  uwhile (fun lines =>
    n ← read fd c 1 ;
    if negb ((n =? 1) && (lines <? 10)) then mret (inr tt) else
    write 1 c 1 ;;
    ch ← ldc c ;
    mret (inl (if ch =? 10 then lines + 1 else lines))) 0 ;;
  uwhen (negb (fd =? 0)) (close fd ;; mret tt) ;;
  mret 0.

(** ** wc *)

Definition is_space3 (c : Z) : bool := (c =? 32) || (c =? 10) || (c =? 9).

(** The counts and the flag after one more character. *)
Definition wc_char (lines words in_word c : Z) : Z * Z * Z :=
  let lines := if c =? 10 then lines +! 1 else lines in
  if is_space3 c then (lines, words, 0)
  else if in_word =? 0 then (lines, words +! 1, 1) else (lines, words, in_word).

(** One buffer of [n] characters. *)
Definition count_chunk (n lines words in_word : Z) : U (Z * Z * Z) :=
  let wc_buffer := addr_of "wc.wc_buffer" in
  uwhile (fun '(i, lines, words, in_word) =>
    if negb (i <? n) then mret (inr (lines, words, in_word)) else
    c ← ldc (wc_buffer + i) ;
    let '(lines, words, in_word) := wc_char lines words in_word c in
    mret (inl (i + 1, lines, words, in_word))) (0, lines, words, in_word).

(** The numbers of bytes, lines and words up to the end of the input. *)
Definition count_input (fd : Z) : U (Z * Z * Z) :=
  uwhile (fun '(bytes, lines, words, in_word) =>
    n ← read fd (addr_of "wc.wc_buffer") 256 ;
    if negb (n >? 0) then mret (inr (bytes, lines, words)) else
    '(lines, words, in_word) ← count_chunk n lines words in_word ;
    mret (inl (bytes +! n, lines, words, in_word))) (0, 0, 0, 0).

Definition count_fd (fd : Z) : U Z :=
  '(bytes, lines, words) ← count_input fd ;
  print_int lines ;;
  say 1 [32] ;;
  print_int words ;;
  say 1 [32] ;;
  print_int bytes ;;
  say 1 [10] ;;
  mret 0.

Definition wc_main (argc argv : Z) : U Z :=
  if argc <? 2 then count_fd 0 else
  path ← word_at argv 1 ;
  fd ← open path 0 ;
  if fd <? 0 then mret 1 else
  count_fd fd ;; close fd ;; mret 0.

(** ** Files and links *)

Definition ln_main (argc argv : Z) : U Z :=
  s ← (if argc =? 4 then a ← word_at argv 1 ; is_text a "-s" else mret false) ;
  if (s : bool) then
    a ← word_at argv 2 ; b ← word_at argv 3 ; r ← symlink a b ; mret (if r <? 0 then 1 else 0)
  else if negb (argc =? 3) then mret 2 else
  a ← word_at argv 1 ; b ← word_at argv 2 ; r ← link a b ; mret (if r <? 0 then 1 else 0).

Definition mv_main (argc argv : Z) : U Z :=
  if negb (argc =? 3) then mret 2 else
  a ← word_at argv 1 ; b ← word_at argv 2 ; r ← rename a b ; mret (if r <? 0 then 1 else 0).

Definition mkdir_main (argc argv : Z) : U Z := each_argument (fun a => mkdir a 493) argc argv.
Definition rm_main (argc argv : Z) : U Z := each_argument unlink argc argv.
Definition touch_main (argc argv : Z) : U Z :=
  each_argument (fun a => fd ← open a 0x202 ; uwhen (negb (fd <? 0)) (close fd ;; mret tt) ;; mret fd) argc argv.

(** ** init, shutdown, spin *)

Definition init_main (argc argv : Z) : U Z :=
  let sh := literal (str "/bin/sh") in
  let rcargv := addr_of "init.rcargv" in
  let shargv := addr_of "init.shargv" in
  store_words rcargv [sh; literal (str "/etc/rc"); 0] ;;
  pid ← fork ;
  uwhen (pid =? 0) (exec sh rcargv ;; exit 1) ;;
  waitpid pid (addr_of "init.status") 0 ;;
  store_words shargv [sh; 0] ;;
  pid ← fork ;
  uwhen (pid =? 0) (exec sh shargv ;; say 2 (str "init: exec /bin/sh failed" ++ [10]) ;; exit 1) ;;
  wait ;;
  exit 0 ;;
  mret 0.

Definition shutdown_main (argc argv : Z) : U Z := shutdown ;; mret 0.
Definition spin_main (argc argv : Z) : U Z := uwhile (fun _ : unit => mret (inl tt)) tt.

(** ** ls *)

Definition fullpath : Z := addr_of "ls.fullpath".
Definition modebuf : Z := addr_of "ls.modebuf".
Definition linkbuf : Z := addr_of "ls.linkbuf".

(** Fields of the [struct stat] at [st], and the name of a [struct dirent]. *)
Definition st_mode_ (st : Z) : Z := st + 8.
Definition st_nlink_ (st : Z) : Z := st + 12.
Definition st_uid_ (st : Z) : Z := st + 16.
Definition st_gid_ (st : Z) : Z := st + 20.
Definition st_size_ (st : Z) : Z := st + 28.
Definition dirent_name (entry : Z) : Z := entry + 16.

Definition mode_bits : list Z := [256; 128; 64; 32; 16; 8; 4; 2; 1].
Definition mode_chars : list Z := str "rwxrwxrwx".

Definition format_mode (mode : Z) : U unit :=
  stc modebuf (if Z.land mode 0xf000 =? 0x4000 then 100 else if Z.land mode 0xf000 =? 0xa000 then 108 else 45) ;;
  uwhile (fun i =>
    if negb (i <? 9) then mret (inr tt) else
    stc (modebuf + (i + 1)) (if negb (Z.land mode (nthz mode_bits i) =? 0) then nthz mode_chars i else 45) ;;
    mret (inl (i + 1))) 0 ;;
  stc (modebuf + 10) 0.

(** Copy [text] to [fullpath] from index [i] on, below [limit]: the new index. *)
Definition copy_below (limit text i : Z) : U Z :=
  uwhile (fun '(i, j) =>
    c ← ldc (text + j) ;
    if negb (c =? 0) && (i <? limit) then stc (fullpath + i) c ;; mret (inl (i + 1, j + 1))
    else mret (inr i)) (i, 0).

Definition make_path (dir name : Z) : U unit :=
  i ← copy_below 62 dir 0 ;
  last ← (if i =? 0 then mret 0 else ldc (fullpath + i - 1)) ;
  i ← (if (i =? 0) || negb (last =? 47) then stc (fullpath + i) 47 ;; mret (i + 1) else mret i) ;
  i ← copy_below 63 name i ;
  stc (fullpath + i) 0.

Definition print_name (name : Z) : U unit :=
  uwhile (fun j =>
    if negb (j <? 16) then mret (inr tt) else
    c ← ldc (name + j) ;
    if c =? 0 then mret (inr tt) else write 1 (name + j) 1 ;; mret (inl (j + 1))) 0.

Definition print_field (value : Z) : U unit := v ← ldw value ; print_int v ;; say 1 [32] ;; mret tt.

Definition print_long (dir name : Z) : U unit :=
  let value := addr_of "ls.print_long.value" in
  make_path dir name ;;
  r ← lstat fullpath value ;
  if r <? 0 then mret tt else
  mode ← ldw (st_mode_ value) ;
  format_mode mode ;;
  write 1 modebuf 10 ;;
  say 1 [32] ;;
  print_field (st_nlink_ value) ;;
  print_field (st_uid_ value) ;;
  print_field (st_gid_ value) ;;
  print_field (st_size_ value) ;;
  print_name name ;;
  mode ← ldw (st_mode_ value) ;
  uwhen (Z.land mode 0xf000 =? 0xa000)
    (n ← readlink fullpath linkbuf 63 ;
     uwhen (n >=? 0) (stc (linkbuf + n) 0 ;; say 1 (str " -> ") ;; write 1 linkbuf n ;; mret tt)) ;;
  say 1 [10] ;;
  mret tt.

(** Apply [body] to the entries of a directory. *)
Definition each_entry (directory : Z) (body : Z -> U unit) : U unit :=
  uwhile (fun _ : unit =>
    entry ← readdir directory ;
    if entry =? 0 then mret (inr tt) else body entry ;; mret (inl tt)) tt.

Definition ls_main (argc argv : Z) : U Z :=
  long_format ← (if argc >=? 2 then a ← word_at argv 1 ; is_text a "-l" else mret false) ;
  path ← (if (long_format : bool) then (if argc >=? 3 then word_at argv 2 else mret (literal (str "/")))
          else if argc >=? 2 then word_at argv 1 else mret (literal (str "/"))) ;
  directory ← opendir path ;
  if directory =? 0 then say 2 (str "ls: cannot open" ++ [10]) ;; mret 1 else
  each_entry directory (fun entry =>
    if (long_format : bool) then print_long path (dirent_name entry)
    else print_name (dirent_name entry) ;; say 1 [10] ;; mret tt) ;;
  closedir directory ;;
  mret 0.

(** ** ps *)

Definition ps_path : Z := addr_of "ps.path".
Definition ps_buf : Z := addr_of "ps.buf".

Definition is_number (name : Z) : U bool :=
  c ← ldc name ;
  if c =? 0 then mret false else
  uwhile (fun i =>
    c ← ldc (name + i) ;
    mret (if c =? 0 then inr true else if (c <? 48) || (c >? 57) then inr false else inl (i + 1))) 0.

Definition find_state (n : Z) : U Z :=
  uwhile (fun i =>
    if negb (i <? n - 7) then mret (inr 63) else
    c0 ← ldc (ps_buf + i) ;
    c1 ← ldc (ps_buf + (i + 1)) ;
    c2 ← ldc (ps_buf + (i + 2)) ;
    c3 ← ldc (ps_buf + (i + 3)) ;
    c4 ← ldc (ps_buf + (i + 4)) ;
    if (c0 =? 83) && (c1 =? 116) && (c2 =? 97) && (c3 =? 116) && (c4 =? 101)
    then c ← ldc (ps_buf + (i + 7)) ; mret (inr c) else mret (inl (i + 1))) 0.

Definition append_str (at_ text : Z) : U Z :=
  uwhile (fun '(at_, j) =>
    c ← ldc (text + j) ;
    if negb (c =? 0) && (at_ <? 62) then stc (ps_path + at_) c ;; mret (inl (at_ + 1, j + 1))
    else mret (inr at_)) (at_, 0).

Definition make_status_path (pid : Z) : U unit :=
  at_ ← append_str 0 (literal (str "/proc/")) ;
  at_ ← append_str at_ pid ;
  at_ ← append_str at_ (literal (str "/status")) ;
  stc (ps_path + at_) 0.

Definition ps_entry (name : Z) : U unit :=
  number ← is_number name ;
  if negb number then mret tt else
  make_status_path name ;;
  fd ← open ps_path 0 ;
  if fd <? 0 then mret tt else
  n ← read fd ps_buf 256 ;
  close fd ;;
  say 1 (str "    ") ;;
  printf name [] ;;
  say 1 [32] ;;
  state ← find_state n ;
  stc ps_buf state ;;
  write 1 ps_buf 1 ;;
  say 1 [10] ;;
  mret tt.

Definition ps_main (argc argv : Z) : U Z :=
  say 1 (str "  PID S" ++ [10]) ;;
  directory ← opendir (literal (str "/proc")) ;
  if directory =? 0 then say 2 (str "ps: cannot open /proc" ++ [10]) ;; mret 1 else
  each_entry directory (fun entry => ps_entry (dirent_name entry)) ;;
  closedir directory ;;
  mret 0.

(** ** runtests *)

(** [strcmp(left, right) != 0] for a literal on the right. *)
Definition differs (left : Z) (right : list Z) : U bool := r ← strcmp left (literal right) ; mret (negb (r =? 0)).

(** Return [code] when the test says so, else go on. *)
Definition failing (code : Z) (test : U bool) (next : U Z) : U Z :=
  b ← test ; if (b : bool) then mret code else next.

Definition runtests_main (argc argv : Z) : U Z :=
  let buffer := addr_of "runtests.buffer" in
  let file_name := literal (str "/tmp/libc-test") in
  let hello := str "hello" ++ [10] in
  failing 1 (b ← basename (literal (str "/tmp/check")) ; differs b (str "check")) (
  failing 2 (b ← dirname (literal (str "/tmp/check")) ; differs b (str "/tmp")) (
  failing 3 (r ← setenv (literal (str "LIBC_TEST")) (literal (str "ok")) 1 ; mret (r <? 0)) (
  failing 4 (v ← getenv (literal (str "LIBC_TEST")) ; differs v (str "ok")) (
  file ← fopen file_name (literal (str "w")) ;
  if file =? 0 then mret 5 else
  failing 6 (r ← fputs (literal hello) file ; mret (r <? 0)) (
  fclose file ;;
  file ← fopen file_name (literal (str "r")) ;
  if file =? 0 then mret 7 else
  failing 8 (r ← fgets buffer 8 file ; mret (r =? 0)) (
  fclose file ;;
  failing 9 (differs buffer hello) (
  directory ← opendir (literal (str "/tmp")) ;
  if directory =? 0 then mret 10 else
  found ← uwhile (fun found =>
    entry ← readdir directory ;
    if entry =? 0 then mret (inr found) else
    d ← differs (dirent_name entry) (str "libc-test") ;
    mret (inl (if (d : bool) then found else true))) false ;
  closedir directory ;;
  unlink file_name ;;
  if negb found then mret 11 else
  puts (literal (str "libc-tests: ok")) ;;
  mret 0))))))).
End utils.

(** * The UDP relay ([userland/nc.c]) *)

Section nc.
Context {G : Guest}.

Definition io_buffer : Z := addr_of "nc.io_buffer".
Definition sizeof_sockaddr_in : Z := 12.

(** The loop of [parse_ip]: the four numbers, or [None]. *)
Definition parse_parts (text : Z) : U (option (list Z)) :=
  uwhile (fun '(i, parts, value, digits) =>
    c ← get (fun s => um s (text + i)) ;
    if (48 <=? c) && (c <=? 57) then
      let value := value *! 10 +! (c - 48) in
      mret (if value >? 255 then inr None else inl (i + 1, parts, value, digits + 1))
    else if (c =? 46) || (c =? 0) then
      if (digits =? 0) || (Z.of_nat (length parts) >=? 4) then mret (inr None) else
      let parts := parts ++ [value] in
      mret (if c =? 0 then inr (Some parts) else inl (i + 1, parts, 0, 0))
    else mret (inr None)) (0, [], 0, 0).

Definition parse_ip (text out : Z) : U Z :=
  r ← parse_parts text ;
  match r with
  | Some [a; b; c; d] =>
      stw out (i32 (Z.lor (Z.lor (Z.lor (shl a 24) (shl b 16)) (shl c 8)) d)) ;; mret 0
  | _ => mret (-1)
  end.

Definition send_dgram (fd buffer length peer : Z) : U Z :=
  let delay := addr_of "nc.send_dgram.delay" in
  store_words delay [0; 20000000] ;;
  uwhile (fun tries =>
    if negb (tries <? 100) then mret (inr (-1)) else
    n ← sendto fd buffer length 0 peer sizeof_sockaddr_in ;
    if n >=? 0 then mret (inr n) else
    e ← get errno ;
    if negb (e =? CFG_EAGAIN) then mret (inr n) else
    nanosleep delay 0 ;;
    mret (inl (tries + 1))) 0.

Definition write_all (fd buffer length : Z) : U unit := write_out fd buffer length ;; mret tt.

(** One round of [relay]: the result, or whether the peer is known. *)
Definition relay_round (fd peer : Z) (have_peer : bool) : U (bool + Z) :=
  let watched := addr_of "nc.relay.watched" in
  let peer_length := addr_of "nc.relay.peer_length" in
  store_words watched [0; CFG_POLLIN; 0; fd; CFG_POLLIN; 0] ;;
  r ← poll watched 2 (-1) ;
  e ← get errno ;
  if r <? 0 then mret (if e =? CFG_EINTR then inl have_peer else inr 1) else
  net ← ldw (watched + 20) ;
  r ← (if negb (Z.land net CFG_POLLIN =? 0) then
         stw peer_length sizeof_sockaddr_in ;;
         n ← recvfrom fd io_buffer 512 0 peer peer_length ;
         e ← get errno ;
         if n <? 0 then
           mret (inr (if (e =? CFG_EINTR) || (e =? CFG_EAGAIN) then inl have_peer else inr 1))
         else write_all 1 io_buffer n ;; mret (inl true)
       else mret (inl have_peer)) ;
  match r with
  | inr out => mret out
  | inl have_peer =>
      local ← ldw (watched + 8) ;
      if Z.land local CFG_POLLIN =? 0 then mret (inl have_peer) else
      n ← read 0 io_buffer 512 ;
      e ← get errno ;
      if n =? 0 then mret (inr 0) else
      if n <? 0 then mret (if e =? CFG_EINTR then inl have_peer else inr 1) else
      if negb have_peer then mret (inl have_peer) else
      sent ← send_dgram fd io_buffer n peer ;
      if sent <? 0 then say 2 (str "nc: send failed" ++ [10]) ;; mret (inr 1)
      else mret (inl have_peer)
  end.

Definition relay (fd peer : Z) (have_peer : bool) : U Z := uwhile (relay_round fd peer) have_peer.

Definition usage : U Z := say 2 (str "usage: nc [-u] host port | nc [-u] -l [-p] port" ++ [10]).

(** The options: the host, the port and the mode; [None] when -p is the last word. *)
Definition parse_options (argc argv : Z) : U (option (Z * Z * bool)) :=
  uwhile (fun '(i, host, port, listen_mode) =>
    if negb (i <? argc) then mret (inr (Some (host, port, listen_mode))) else
    a ← word_at argv i ;
    l ← is_text a "-l" ;
    if (l : bool) then mret (inl (i + 1, host, port, true)) else
    u ← is_text a "-u" ;
    if (u : bool) then mret (inl (i + 1, host, port, listen_mode)) else
    p ← is_text a "-p" ;
    if (p : bool) then
      if i + 1 >=? argc then mret (inr None) else
      b ← word_at argv (i + 1) ; port ← atoi b ; mret (inl (i + 2, host, port, listen_mode))
    else if (host =? 0) && negb listen_mode then mret (inl (i + 1, a, port, listen_mode))
    else port ← atoi a ; mret (inl (i + 1, host, port, listen_mode))) (1, 0, 0, false).

(** The body of [main] after the options. *)
Definition nc_run (host port : Z) (listen_mode : bool) : U Z :=
  let local := addr_of "nc.main.local" in
  let peer := addr_of "nc.main.peer" in
  let address := addr_of "nc.main.address" in
  fd ← socket CFG_AF_INET CFG_SOCK_DGRAM CFG_IPPROTO_UDP ;
  if fd <? 0 then say 2 (str "nc: socket failed" ++ [10]) ;; mret 1 else
  if listen_mode then
    store_words local [CFG_AF_INET; htons port; 0] ;;
    r ← bind fd local sizeof_sockaddr_in ;
    if r <? 0 then say 2 (str "nc: bind failed" ++ [10]) ;; mret 1 else
    relay fd peer false
  else
    r ← parse_ip host address ;
    if r <? 0 then say 2 (str "nc: invalid address (use a dotted IPv4 quad)" ++ [10]) ;; mret 1 else
    a ← ldw address ;
    store_words peer [CFG_AF_INET; htons port; htonl a] ;;
    r ← connect fd peer sizeof_sockaddr_in ;
    if r <? 0 then say 2 (str "nc: connect failed" ++ [10]) ;; mret 1 else
    relay fd peer true.

Definition nc_main (argc argv : Z) : U Z :=
  o ← parse_options argc argv ;
  match o with
  | None => usage ;; mret 1
  | Some (host, port, listen_mode) =>
      if (port <=? 0) || (port >? 65535) then usage ;; mret 1 else
      if negb listen_mode && (host =? 0) then usage ;; mret 1 else
      nc_run host port listen_mode
  end.
End nc.
