(* ===== verification/LibStringSpec.v ===== *)
(** * LibStringSpec: the string and memory functions of libc compute on lists *)

From S2P Require Import Prelude Config Kernel Klog RawMem UserMem LibString.
From Stdlib Require Import FunctionalExtensionality.

(** * The string functions of libc compute on lists

    A NUL-terminated string in memory is a list of non-zero bytes ([cstr]); the
    functions of LibString.v return what a list function says and leave the
    state alone, or store what it says.  A loop over an [int] index terminates when
    the string is shorter than 2^31 - 1. *)

(** ** Strings in memory *)

Definition cstr (m : Z -> Z) (p : Z) (l : list Z) : Prop :=
  Forall (fun c => 0 < c < 256) l /\
  (forall i, 0 <= i <= Z.of_nat (length l) -> m (p + i) = nthz l i) /\
  Z.of_nat (length l) < 2 ^ 31 - 1.

Lemma nthz_lookup l i x : 0 <= i -> l !! Z.to_nat i = Some x -> nthz l i = x.
Proof.
  intros Hi H. unfold nthz. rewrite (proj2 (Z.ltb_ge i 0)) by lia.
  apply nth_lookup_Some with (d := 0) in H. done.
Qed.

Lemma nthz_end l : nthz l (Z.of_nat (length l)) = 0.
Proof.
  unfold nthz. rewrite (proj2 (Z.ltb_ge _ 0)) by lia. rewrite Nat2Z.id. by apply nth_overflow.
Qed.

Lemma nthz_S x l i : 0 <= i -> nthz (x :: l) (i + 1) = nthz l i.
Proof.
  intros Hi. unfold nthz. rewrite !(proj2 (Z.ltb_ge _ 0)) by lia.
  by replace (Z.to_nat (i + 1)) with (S (Z.to_nat i)) by lia.
Qed.

Lemma nthz_0 x l : nthz (x :: l) 0 = x.
Proof. done. Qed.

Lemma cstr_at m p l i : cstr m p l -> 0 <= i <= Z.of_nat (length l) -> m (p + i) = nthz l i.
Proof. intros (_ & H & _). apply H. Qed.

Lemma cstr_byte m p l i : cstr m p l -> 0 <= i < Z.of_nat (length l) -> 0 < nthz l i < 256.
Proof.
  intros (H & _) Hi. destruct (lookup_lt_is_Some_2 l (Z.to_nat i)) as [x Hx]; [lia|].
  rewrite (nthz_lookup l i x) by (lia || done). by apply (Forall_lookup_1 _ _ _ _ H Hx).
Qed.

Lemma cstr_nul m p l i : cstr m p l -> 0 <= i <= Z.of_nat (length l) ->
  (nthz l i = 0 <-> i = Z.of_nat (length l)).
Proof.
  intros H Hi. split; [|intros ->; apply nthz_end]. intros H0.
  destruct (Z.eq_dec i (Z.of_nat (length l))); [done|]. pose proof (cstr_byte m p l i H). lia.
Qed.

Lemma cstr_tail m p x l : cstr m p (x :: l) -> cstr m (p + 1) l.
Proof.
  intros (Hb & Hm & Hl). inversion Hb. simpl length in *. split; [done|]. split; [|lia].
  intros i Hi. rewrite <- (nthz_S x) by lia. rewrite <- (Hm (i + 1)) by lia. f_equal. lia.
Qed.

Lemma cstr_head m p x l : cstr m p (x :: l) -> m p = x /\ 0 < x < 256.
Proof.
  intros H. pose proof (cstr_at m p _ 0 H ltac:(simpl; lia)) as H0.
  rewrite Z.add_0_r in H0. destruct H as [H _]. inversion H. split; [done|lia].
Qed.

Lemma cstr_nil m p : cstr m p [] -> m p = 0.
Proof. intros H. by rewrite <- (Z.add_0_r p), (cstr_at m p [] 0 H). Qed.

Lemma cstr_ext m m' p l :
  (forall i, 0 <= i <= Z.of_nat (length l) -> m' (p + i) = m (p + i)) -> cstr m p l -> cstr m' p l.
Proof.
  intros H (Hb & Hm & Hl). split; [done|]. split; [|done]. intros i Hi. rewrite H by done. by apply Hm.
Qed.

Lemma cstr_blit m p l :
  Forall (fun c => 0 < c < 256) l -> Z.of_nat (length l) < 2 ^ 31 - 1 -> cstr (blit m p (l ++ [0])) p l.
Proof.
  intros H1 H2. split; [done|]. split; [|done]. intros i Hi.
  destruct (Z.eq_dec i (Z.of_nat (length l))) as [->|Hne].
  - rewrite nthz_end. apply (blit_in m p (l ++ [0]) (length l)). by rewrite lookup_app_r, Nat.sub_diag.
  - destruct (lookup_lt_is_Some_2 l (Z.to_nat i)) as [x Hx]; [lia|].
    rewrite (nthz_lookup l i x) by (lia || done).
    replace i with (Z.of_nat (Z.to_nat i)) by lia. apply blit_in. by rewrite lookup_app_l by lia.
Qed.

Lemma sext8_0 b : is_byte b -> (sext8 b =? 0) = (b =? 0).
Proof. unfold is_byte, sext8. intros H. repeat case_match; lia. Qed.

Lemma sext8_inj a b : is_byte a -> is_byte b -> (sext8 a =? sext8 b) = (a =? b).
Proof. unfold is_byte, sext8. intros Ha Hb. repeat case_match; lia. Qed.

Lemma sext8_mod a : is_byte a -> sext8 a mod 256 = a.
Proof.
  unfold is_byte, sext8. intros H. case_match; [apply Z.mod_small; lia|].
  rewrite <- (Z_mod_plus_full _ 1), Z.mul_1_l. replace (a - 256 + 256) with a by lia. apply Z.mod_small. lia.
Qed.

Lemma find_from_first p lo n i :
  lo <= i < lo + Z.of_nat n -> p i = true -> (forall j, lo <= j < i -> p j = false) ->
  find_from p lo n = Some i.
Proof.
  intros Hi Hp Hn. destruct (find_from_is_Some p lo n i Hi Hp) as [k Hk]. rewrite Hk.
  apply find_from_Some in Hk as (H1 & H2 & H3).
  destruct (Z.lt_trichotomy i k) as [H|[->|H]]; [|done|].
  - by rewrite H3 in Hp by lia.
  - by rewrite Hn in H2 by lia.
Qed.

(** ** Running computations *)

(** Case analysis on the guards of a loop body. *)
Ltac ucase :=
  repeat match goal with
  | |- context [if ?b then _ else _] =>
      lazymatch b with
      | context [if _ then _ else _] => fail
      | _ => let Hc := fresh "Hc" in destruct b eqn:Hc
      end
  end; cbv beta iota in *; bool_hyps.

Section run.
Context {G : Guest}.

Lemma uwp_run {A} (m : U A) Q s a s' : m s = Ret a s' -> Q a s' -> uwp m Q s.
Proof. apply wpm_intro. Qed.

Lemma uwp_elim {A} (m : U A) Q s : uwp m Q s -> exists a s', m s = Ret a s' /\ Q a s'.
Proof. apply wpm_elim. Qed.

Lemma uwp_pure {A} (m : U A) s a : uwp m (fun r s' => r = a /\ s' = s) s -> m s = Ret a s.
Proof. unfold uwp, wpm. destruct (m s); [|done]. by intros [-> ->]. Qed.

Lemma set_um_eta (s : ustate) f : s <| um ::= f |> = s <| um := f (um s) |>.
Proof. by destruct s. Qed.

Lemma set_um_um (s : ustate) m m' : s <| um := m |> <| um := m' |> = s <| um := m' |>.
Proof. by destruct s. Qed.

Lemma set_um_id (s : ustate) : s <| um := um s |> = s.
Proof. by destruct s. Qed.

Lemma um_set_um (s : ustate) m : um (s <| um := m |>) = m.
Proof. done. Qed.
End run.

(** ** Lengths and comparisons *)

(** The first difference of two strings, the end counting as 0. *)
Fixpoint bytes_compare (l r : list Z) : Z :=
  match l, r with
  | [], [] => 0
  | [], b :: _ => - b
  | a :: _, [] => a
  | a :: l', b :: r' => if a =? b then bytes_compare l' r' else a - b
  end.

(** Lexicographic order. *)
Fixpoint lex_lt (l r : list Z) : Prop :=
  match l, r with
  | [], [] => False
  | [], _ :: _ => True
  | _ :: _, [] => False
  | a :: l', b :: r' => a < b \/ (a = b /\ lex_lt l' r')
  end.

Lemma bytes_compare_spec l r :
  Forall (fun c => 0 < c < 256) l -> Forall (fun c => 0 < c < 256) r ->
  (bytes_compare l r = 0 <-> l = r) /\ (bytes_compare l r < 0 <-> lex_lt l r).
Proof.
  revert r. induction l as [|a l IH]; intros [|b r] Hl Hr;
    repeat match goal with H : Forall _ (_ :: _) |- _ => inversion H; clear H; subst end;
    cbn [bytes_compare lex_lt]; try solve [intuition (lia || congruence)].
  destruct (IH r) as [I1 I2]; [done..|].
  destruct (Z.eqb_spec a b) as [->|Hne].
  - rewrite I1, I2. split; [|intuition lia]. split; [by intros ->|]. by injection 1.
  - split; [|intuition lia]. split; [lia|]. injection 1. lia.
Qed.

Section string_spec.
Context {G : Guest}.
Implicit Types s : ustate.

Lemma strlen_run s p l : cstr (um s) p l -> strlen p s = Ret (Z.of_nat (length l)) s.
Proof.
  intros H. apply uwp_pure.
  apply (uwp_while (fun i s' => s' = s /\ 0 <= i <= Z.of_nat (length l))
                   (fun i => Z.of_nat (length l) - i)); [split; [done|lia]|destruct H as (_ & _ & H); lia|].
  intros i ? [-> Hi]. split; [lia|]. uwp_auto. rewrite (cstr_at _ _ l i H Hi).
  pose proof (cstr_nul _ _ l i H Hi) as Hn.
  destruct (Z.eqb_spec (nthz l i) 0) as [E|E]; [split; [tauto|done]|].
  repeat split; lia.
Qed.

Lemma bytes_compare_step (l r : list Z) i :
  0 <= i <= Z.of_nat (length l) -> 0 <= i <= Z.of_nat (length r) ->
  Forall (fun c => 0 < c < 256) l -> Forall (fun c => 0 < c < 256) r ->
  bytes_compare (drop (Z.to_nat i) l) (drop (Z.to_nat i) r) =
  if nthz l i =? nthz r i then
    if nthz l i =? 0 then 0
    else bytes_compare (drop (Z.to_nat (i + 1)) l) (drop (Z.to_nat (i + 1)) r)
  else nthz l i - nthz r i.
Proof.
  intros Hi Hj Hl Hr. replace (Z.to_nat (i + 1)) with (S (Z.to_nat i)) by lia.
  assert (forall t, 0 <= i <= Z.of_nat (length t) -> Forall (fun c => 0 < c < 256) t ->
    (drop (Z.to_nat i) t = [] /\ nthz t i = 0) \/
    (drop (Z.to_nat i) t = nthz t i :: drop (S (Z.to_nat i)) t /\ 0 < nthz t i)) as Hd.
  { intros t Ht Hf. destruct (t !! Z.to_nat i) as [x|] eqn:E.
    - right. rewrite (nthz_lookup t i x) by (lia || done). rewrite (drop_S t x) by done.
      split; [done|]. pose proof (Forall_lookup_1 _ _ _ _ Hf E). simpl in *. lia.
    - apply lookup_ge_None in E. left. rewrite drop_ge by done. split; [done|].
      replace i with (Z.of_nat (length t)) by lia. apply nthz_end. }
  destruct (Hd l Hi Hl) as [[-> ->]|[-> Hl0]], (Hd r Hj Hr) as [[-> ->]|[-> Hr0]]; try done; cbn [bytes_compare];
    repeat case_match; bool_hyps; lia.
Qed.

Lemma strcmp_run s p q l r :
  cstr (um s) p l -> cstr (um s) q r -> strcmp p q s = Ret (bytes_compare l r) s.
Proof.
  intros Hl Hr. apply uwp_pure.
  apply (uwp_while (fun i s' => s' = s /\ 0 <= i <= Z.of_nat (length l) /\ i <= Z.of_nat (length r) /\
           bytes_compare l r = bytes_compare (drop (Z.to_nat i) l) (drop (Z.to_nat i) r))
                   (fun i => Z.of_nat (length l) - i)); [repeat split; lia || done|destruct Hl as (_ & _ & Hl); lia|].
  intros i ? (-> & Hi & Hj & E). split; [lia|]. uwp_auto.
  rewrite (cstr_at _ _ l i Hl), (cstr_at _ _ r i Hr) by lia.
  rewrite bytes_compare_step in E by (lia || (by destruct Hl) || by destruct Hr).
  pose proof (cstr_nul _ _ l i Hl). pose proof (cstr_nul _ _ r i Hr).
  revert E. ucase; intros Hbc; repeat split; congruence || lia.
Qed.

(** ** Searching *)

(** The index of the first and of the last occurrence of a byte. *)
Definition first_index (c : Z) (l : list Z) : option Z :=
  find_from (fun i => nthz l i =? c) 0 (length l).

Lemma strchr_run s p l c :
  cstr (um s) p l -> 0 < c < 128 ->
  strchr p c s = Ret (match first_index c l with Some i => p + i | None => 0 end) s.
Proof.
  intros H Hc. apply uwp_pure.
  apply (uwp_while (fun i s' => s' = s /\ 0 <= i <= Z.of_nat (length l) /\
           forall j, 0 <= j < i -> nthz l j <> c)
                   (fun i => Z.of_nat (length l) - i)).
  { repeat split; lia. } { destruct H as (_ & _ & H). lia. }
  intros i ? (-> & Hi & Hn). split; [lia|]. uwp_auto. rewrite (cstr_at _ _ l i H Hi).
  pose proof (cstr_nul _ _ l i H Hi) as H0.
  assert (Hb : is_byte (nthz l i)).
  { destruct (Z.eq_dec i (Z.of_nat (length l))) as [->|]; [rewrite nthz_end; unfold is_byte; lia|].
    pose proof (cstr_byte _ _ l i H). unfold is_byte. lia. }
  rewrite sext8_0 by done. replace (sext8 (nthz l i) =? c) with (nthz l i =? c)
    by (unfold sext8, is_byte in *; case_match; lia).
  unfold first_index. ucase; try (repeat split; try done; try lia).
  - destruct (find_from _ 0 _) eqn:E; [|done]. apply find_from_Some in E as (E1 & E2 & _).
    bool_hyps. exfalso. apply (Hn z); [lia|done].
  - rewrite (find_from_first _ 0 (length l) i); [done|lia|lia|].
    intros j Hj. apply Z.eqb_neq, Hn. lia.
  - intros j Hj. destruct (Z.eq_dec j i) as [->|]; [lia|]. apply Hn. lia.
Qed.

Lemma drop_nthz (l : list Z) i :
  0 <= i < Z.of_nat (length l) -> drop (Z.to_nat i) l = nthz l i :: drop (Z.to_nat (i + 1)) l.
Proof.
  intros Hi. replace (Z.to_nat (i + 1)) with (S (Z.to_nat i)) by lia.
  destruct (lookup_lt_is_Some_2 l (Z.to_nat i)) as [x Hx]; [lia|].
  by rewrite (nthz_lookup l i x), (drop_S l x) by (done || lia).
Qed.

Lemma cstr_is_byte m p l i : cstr m p l -> 0 <= i <= Z.of_nat (length l) -> is_byte (nthz l i).
Proof.
  intros H Hi. destruct (Z.eq_dec i (Z.of_nat (length l))) as [->|].
  - rewrite nthz_end. unfold is_byte. lia.
  - pose proof (cstr_byte _ _ l i H). unfold is_byte. lia.
Qed.

Lemma cstr_drop m p l i :
  cstr m p l -> 0 <= i <= Z.of_nat (length l) -> cstr m (p + i) (drop (Z.to_nat i) l).
Proof.
  intros H Hi. destruct H as (Hb & Hm & Hl). split; [by apply Forall_drop|]. rewrite length_drop.
  split; [|lia]. intros j Hj. rewrite <- Z.add_assoc, Hm by lia.
  unfold nthz. rewrite !(proj2 (Z.ltb_ge _ 0)) by lia.
  rewrite nth_skipn. f_equal. lia.
Qed.

(** [strncmp] over the length of its right argument tests for a prefix. *)
Lemma strncmp_prefix s p q l r :
  cstr (um s) p l -> cstr (um s) q r ->
  exists v, strncmp p q (Z.of_nat (length r)) s = Ret v s /\ (v = 0 <-> r `prefix_of` l).
Proof.
  intros Hl Hr.
  assert (uwp (strncmp p q (Z.of_nat (length r))) (fun v s' => (v = 0 <-> r `prefix_of` l) /\ s' = s) s) as Hw.
  { apply (uwp_while (fun i s' => s' = s /\ 0 <= i <= Z.of_nat (length l) /\ i <= Z.of_nat (length r) /\
             (r `prefix_of` l <-> drop (Z.to_nat i) r `prefix_of` drop (Z.to_nat i) l))
             (fun i => Z.of_nat (length r) - i)).
    { repeat split; lia || done. } { destruct Hr as (_ & _ & Hr). lia. }
    intros i ? (-> & Hi & Hj & E). split; [lia|].
    pose proof (cstr_is_byte _ _ l i Hl ltac:(lia)). pose proof (cstr_is_byte _ _ r i Hr ltac:(lia)).
    pose proof (cstr_nul _ _ l i Hl ltac:(lia)). pose proof (cstr_nul _ _ r i Hr ltac:(lia)).
    destruct (Z.ltb_spec i (Z.of_nat (length r))) as [Hlt|Hge]; uwp_auto.
    - rewrite (cstr_at _ _ l i Hl), (cstr_at _ _ r i Hr) by lia.
      rewrite sext8_inj, sext8_0 by done. rewrite (drop_nthz r) in E by lia.
      ucase.
      + split; [|done]. rewrite E. split; [intros; exfalso|].
        { apply Hc. unfold is_byte, sext8 in *. repeat case_match; lia. }
        intros Hp. exfalso. destruct (Z.eq_dec i (Z.of_nat (length l))) as [->|].
        { rewrite (drop_ge l) in Hp by lia. by apply prefix_nil_inv in Hp. }
        rewrite (drop_nthz l) in Hp by lia. apply prefix_cons_inv_1 in Hp. lia.
      + lia.
      + rewrite (drop_nthz l) in E by lia. rewrite Hc in E. split; [|lia].
        repeat split; [lia|lia|lia|..]; intros Hp.
        * apply E in Hp. by apply prefix_cons_inv_2 in Hp.
        * apply E. by apply prefix_cons.
    - split; [|done]. split; [intros _|done]. apply E. rewrite (drop_ge r) by lia. apply prefix_nil. }
  apply uwp_elim in Hw as (v & s' & E & Hv & ->). eauto.
Qed.

(** The first place where [needle] occurs. *)
Definition first_occurrence (needle l : list Z) : option Z :=
  find_from (fun i => bool_decide (needle `prefix_of` drop (Z.to_nat i) l)) 0 (S (length l)).

Lemma strstr_run s p q l needle :
  cstr (um s) p l -> cstr (um s) q needle ->
  strstr p q s = Ret (match first_occurrence needle l with Some i => p + i | None => 0 end) s.
Proof.
  intros Hl Hq. apply uwp_pure. unfold strstr. apply uwp_bind. eapply uwp_run; [by apply strlen_run|].
  unfold first_occurrence.
  destruct (Z.eqb_spec (Z.of_nat (length needle)) 0) as [E|E].
  { uwp_auto. rewrite (find_from_first _ 0 _ 0); [split; [lia|done]|lia| |lia].
    apply bool_decide_eq_true. destruct needle; [apply prefix_nil|done]. }
  apply (uwp_while (fun i s' => s' = s /\ 0 <= i <= Z.of_nat (length l) /\
           forall j, 0 <= j < i -> ~ needle `prefix_of` drop (Z.to_nat j) l)
           (fun i => Z.of_nat (length l) - i)).
  { repeat split; lia || done. } { destruct Hl as (_ & _ & Hl). lia. }
  intros i ? (-> & Hi & Hn). split; [lia|].
  apply uwp_bind, uwp_get. rewrite (cstr_at _ _ l i Hl Hi), sext8_0 by by eapply cstr_is_byte.
  pose proof (cstr_nul _ _ l i Hl Hi).
  destruct (Z.eqb_spec (nthz l i) 0) as [E0|E0]; uwp_auto.
  - split; [|done]. destruct (find_from _ 0 _) eqn:Ef; [|done]. exfalso.
    apply find_from_Some in Ef as (E1 & E2 & _). apply bool_decide_eq_true in E2.
    destruct (Z.eq_dec z i) as [->|]; [|by apply (Hn z); [lia|]].
    rewrite drop_ge in E2 by lia. apply prefix_nil_inv in E2 as ->. done.
  - destruct (strncmp_prefix s (p + i) q (drop (Z.to_nat i) l) needle) as (v & Hv & Hp);
      [by apply cstr_drop|done|].
    eapply uwp_run; [exact Hv|]. uwp_auto. ucase.
    + split; [|done]. rewrite (find_from_first _ 0 _ i); [done|lia| |].
      * apply bool_decide_eq_true. tauto.
      * intros j Hj. apply bool_decide_eq_false. by apply Hn.
    + repeat split; try lia. intros j Hj. destruct (Z.eq_dec j i) as [->|]; [tauto|]. apply Hn. lia.
Qed.

End string_spec.

(** ** The claims *)

(** [strcmp] is lexicographic order on unsigned bytes: 0 exactly on equal
    strings, negative exactly when the left one comes first; it always ends. *)
Theorem strcmp_orders `{G : Guest} s p q l r :
  cstr (um s) p l -> cstr (um s) q r ->
  exists v, strcmp p q s = Ret v s /\ (v = 0 <-> l = r) /\ (v < 0 <-> lex_lt l r).
Proof.
  intros Hl Hr. exists (bytes_compare l r). split; [by apply strcmp_run|].
  apply bytes_compare_spec; [by destruct Hl|by destruct Hr].
Qed.

(** [strstr] returns the place of the first occurrence of the needle, the start
    for an empty needle, and 0 when there is none. *)
Theorem strstr_first `{G : Guest} s p q l needle :
  cstr (um s) p l -> cstr (um s) q needle ->
  exists r, strstr p q s = Ret r s /\
    ((exists i, r = p + i /\ 0 <= i <= Z.of_nat (length l) /\ needle `prefix_of` drop (Z.to_nat i) l /\
        forall j, 0 <= j < i -> ~ needle `prefix_of` drop (Z.to_nat j) l) \/
     (r = 0 /\ forall j, 0 <= j <= Z.of_nat (length l) -> ~ needle `prefix_of` drop (Z.to_nat j) l)).
Proof.
  intros Hl Hq. eexists. split; [by apply strstr_run|]. unfold first_occurrence.
  destruct (find_from _ _ _) as [i|] eqn:E.
  - left. exists i. apply find_from_Some in E as (H1 & H2 & H3). apply bool_decide_eq_true in H2.
    split; [done|]. split; [lia|]. split; [done|]. intros j Hj. by eapply bool_decide_eq_false, H3.
  - right. split; [done|]. intros j Hj. pose proof (find_from_None _ _ _ E j ltac:(lia)) as H.
    by apply bool_decide_eq_false in H.
Qed.

(** A process with no system behind it. *)
Definition demo_guest : Guest := {|
  os_state := unit;
  os_call _ _ _ _ _ _ := None;
  addr_of _ := 0;
  literal _ := 0 |}.

Definition demo_user (m : Z -> Z) : @ustate demo_guest :=
  @Build_ustate demo_guest m tt 0 (fun _ => 0) 0 0 0 0 0 0 0.

(** Two strings, at 100 and at 200. *)
Definition demo_two (l r : list Z) : Z -> Z := blit (blit (fun _ => 0) 100 (l ++ [0])) 200 (r ++ [0]).

Definition text_ok (l : list Z) : bool := forallb (fun c => (0 <? c) && (c <? 256)) l && (length l <? 90)%nat.

Lemma text_ok_cstr m p l : text_ok l = true -> cstr (blit m p (l ++ [0])) p l.
Proof.
  intros H. apply andb_true_iff in H as [H1 H2]. apply Nat.ltb_lt in H2. apply cstr_blit; [|lia].
  apply Forall_forall. intros c Hc. rewrite forallb_forall in H1. apply list_elem_of_In in Hc.
  specialize (H1 c Hc). bool_hyps. lia.
Qed.

Lemma demo_two_left l r : text_ok l = true -> cstr (demo_two l r) 100 l.
Proof.
  intros H. pose proof H as H2. apply andb_true_iff in H2 as [_ H2]. apply Nat.ltb_lt in H2.
  eapply cstr_ext; [|by apply (text_ok_cstr (fun _ => 0))]. intros i Hi. apply blit_out. lia.
Qed.

Lemma demo_two_right l r : text_ok r = true -> cstr (demo_two l r) 200 r.
Proof. apply text_ok_cstr. Qed.

Lemma strcmp_orders_witness :
  exists v, strcmp 100 200 (demo_user (demo_two (str "abc") (str "abd"))) =
    Ret v (demo_user (demo_two (str "abc") (str "abd"))) /\
    (v = 0 <-> str "abc" = str "abd") /\ (v < 0 <-> lex_lt (str "abc") (str "abd")).
Proof. apply strcmp_orders; [by apply demo_two_left|by apply demo_two_right]. Defined.

Lemma strstr_first_witness :
  let s := demo_user (demo_two (str "hello") (str "ll")) in
  exists r, strstr 100 200 s = Ret r s /\
    ((exists i, r = 100 + i /\ 0 <= i <= 5 /\ str "ll" `prefix_of` drop (Z.to_nat i) (str "hello") /\
        forall j, 0 <= j < i -> ~ str "ll" `prefix_of` drop (Z.to_nat j) (str "hello")) \/
     (r = 0 /\ forall j, 0 <= j <= 5 -> ~ str "ll" `prefix_of` drop (Z.to_nat j) (str "hello"))).
Proof.
  apply (strstr_first (demo_user (demo_two (str "hello") (str "ll"))) 100 200 (str "hello") (str "ll"));
    [by apply demo_two_left|by apply demo_two_right].
Defined.

(** * Memcpy, memmove and memset

    Copies by words and bytes equal a copy by bytes, [copy_range], also when the
    ranges overlap in the direction each function allows. *)

(** Memory holds bytes. *)
Definition byte_memory (m : Z -> Z) : Prop := forall a, is_byte (m a).

Lemma i32_byte x k : 0 <= k < 4 -> i32 x / 2 ^ (8 * k) mod 2 ^ 8 = x / 2 ^ (8 * k) mod 2 ^ 8.
Proof.
  intros Hk. unfold i32.
  assert (E : (x + 2 ^ 31) mod 2 ^ 32 - 2 ^ 31 = x + (- ((x + 2 ^ 31) / 2 ^ 32) * 2 ^ (24 - 8 * k)) * 2 ^ 8 * 2 ^ (8 * k)).
  { rewrite <- !Z.mul_assoc, <- !Z.pow_add_r by lia.
    replace (24 - 8 * k + (8 + 8 * k)) with 32 by lia. pose proof (Z.div_mod (x + 2 ^ 31) (2 ^ 32)). lia. }
  rewrite E, Z.div_add by (apply Z.pow_nonzero; lia). by rewrite Z.mod_add by lia.
Qed.

Lemma byte_of_sum b0 b1 b2 b3 :
  is_byte b0 -> is_byte b1 -> is_byte b2 -> is_byte b3 ->
  le_bytes32 (i32 (b0 + 2 ^ 8 * b1 + 2 ^ 16 * b2 + 2 ^ 24 * b3)) = [b0; b1; b2; b3].
Proof.
  unfold is_byte. intros H0 H1 H2 H3. unfold le_bytes32. set (x := b0 + _ + _ + _).
  pose proof (i32_byte x 0 ltac:(lia)) as E0. pose proof (i32_byte x 1 ltac:(lia)) as E1.
  pose proof (i32_byte x 2 ltac:(lia)) as E2. pose proof (i32_byte x 3 ltac:(lia)) as E3.
  change (2 ^ (8 * 0)) with 1 in E0. change (2 ^ (8 * 1)) with (2 ^ 8) in E1.
  change (2 ^ (8 * 2)) with (2 ^ 16) in E2. change (2 ^ (8 * 3)) with (2 ^ 24) in E3.
  rewrite !Z.div_1_r in E0. rewrite E0, E1, E2, E3. subst x. f_equal; [|f_equal; [|f_equal; [|f_equal]]].
  - symmetry. apply (Z.mod_unique _ _ (b1 + 2 ^ 8 * b2 + 2 ^ 16 * b3)); lia.
  - replace (_ / 2 ^ 8) with (b1 + 2 ^ 8 * b2 + 2 ^ 16 * b3)
      by (apply (Z.div_unique _ _ _ b0); lia).
    symmetry. apply (Z.mod_unique _ _ (b2 + 2 ^ 8 * b3)); lia.
  - replace (_ / 2 ^ 16) with (b2 + 2 ^ 8 * b3)
      by (apply (Z.div_unique _ _ _ (b0 + 2 ^ 8 * b1)); lia).
    symmetry. apply (Z.mod_unique _ _ b3); lia.
  - replace (_ / 2 ^ 24) with b3 by (apply (Z.div_unique _ _ _ (b0 + 2 ^ 8 * b1 + 2 ^ 16 * b2)); lia).
    apply Z.mod_small. lia.
Qed.

Lemma copy_range_in m d s n a : d <= a < d + n -> copy_range m d s n a = m (s + (a - d)).
Proof. intros H. unfold copy_range. by rewrite (proj2 (Z.leb_le _ _)), (proj2 (Z.ltb_lt _ _)) by lia. Qed.

Lemma copy_range_out m d s n a : a < d \/ d + n <= a -> copy_range m d s n a = m a.
Proof. intros H. unfold copy_range. destruct (Z.leb_spec d a), (Z.ltb_spec a (d + n)); simpl; lia || done. Qed.

Lemma pwrite32_copy m d s : byte_memory m -> pwrite32 m d (pread32 m s) = copy_range m d s 4.
Proof.
  intros Hm. unfold pwrite32, pread32.
  rewrite (byte_of_sum _ _ _ _ (Hm _) (Hm _) (Hm _) (Hm _)).
  apply functional_extensionality. intros a.
  destruct (decide (d <= a < d + 4)) as [Ha|Ha].
  - rewrite copy_range_in by lia.
    assert (a = d + Z.of_nat 0 \/ a = d + Z.of_nat 1 \/ a = d + Z.of_nat 2 \/ a = d + Z.of_nat 3) as [->|[->|[->| ->]]] by lia;
      (erewrite blit_in; [|reflexivity]); f_equal; lia.
  - rewrite copy_range_out, blit_out by (simpl; lia). done.
Qed.

Lemma upd_copy m d s v : v = m s -> upd m d v = copy_range m d s 1.
Proof.
  intros ->. apply functional_extensionality. intros a. destruct (Z.eq_dec d a) as [->|].
  - rewrite upd_same, copy_range_in by lia. f_equal. lia.
  - rewrite upd_ne, copy_range_out by lia. done.
Qed.

Lemma copy_range_bytes m d s n : byte_memory m -> byte_memory (copy_range m d s n).
Proof. intros H a. unfold copy_range. case_match; apply H. Qed.

(** A copy that goes upwards, in pieces. *)
Lemma copy_range_snoc m d s n k :
  0 <= n -> 0 <= k -> d <= s \/ s + n + k <= d ->
  copy_range (copy_range m d s n) (d + n) (s + n) k = copy_range m d s (n + k).
Proof.
  intros Hn Hk Ho. apply functional_extensionality. intros a.
  destruct (decide (d + n <= a < d + n + k)) as [Ha|Ha].
  - rewrite copy_range_in by lia. rewrite copy_range_out, copy_range_in by lia. f_equal. lia.
  - rewrite (copy_range_out _ (d + n)) by lia.
    destruct (decide (d <= a < d + n)); [by rewrite !copy_range_in by lia|].
    by rewrite !copy_range_out by lia.
Qed.

(** A copy that goes downwards: the last [n] of [k + n] bytes, then the one below. *)
Lemma copy_range_below m d s k n :
  s <= d -> 0 <= n ->
  copy_range (copy_range m (d + k + 1) (s + k + 1) n) (d + k) (s + k) 1
  = copy_range m (d + k) (s + k) (n + 1).
Proof.
  intros Ho Hn. apply functional_extensionality. intros a.
  destruct (Z.eq_dec a (d + k)) as [->|Ha].
  - rewrite (copy_range_in _ (d + k) (s + k) 1), (copy_range_in _ _ _ (n + 1)), copy_range_out by lia. done.
  - rewrite (copy_range_out _ (d + k) _ 1) by lia.
    destruct (decide (d + k + 1 <= a < d + k + 1 + n)); [rewrite !copy_range_in by lia; f_equal; lia|].
    by rewrite !copy_range_out by lia.
Qed.

Lemma copy_range_0 m d s : copy_range m d s 0 = m.
Proof. apply functional_extensionality. intros a. apply copy_range_out. lia. Qed.

Section mem_spec.
Context {G : Guest}.
Implicit Types s : ustate.

Lemma memcpy_run s d p n :
  byte_memory (um s) -> 0 <= n < 2 ^ 31 -> d <= p \/ p + n <= d ->
  memcpy d p n s = Ret d (s <| um := copy_range (um s) d p n |>).
Proof.
  intros Hm Hn Ho. set (m := um s) in *.
  assert (uwp (memcpy d p n) (fun r s' => r = d /\ s' = s <| um := copy_range m d p n |>) s) as Hw.
  2: { apply uwp_elim in Hw as (r & s' & E & -> & ->). done. }
  apply uwp_bind.
  apply (uwp_while (fun '(d', p', n') s' => exists k, 0 <= k /\ 0 <= n' /\ k + n' = n /\
           d' = d + k /\ p' = p + k /\ s' = s <| um := copy_range m d p k |>)
         (fun '(_, _, n') => n')); [|lia|].
  { exists 0. rewrite copy_range_0. unfold m. rewrite set_um_id. repeat split; lia. }
  intros [[d' p'] n'] s' (k & Hk & Hn' & Ek & -> & -> & ->). split; [lia|].
  destruct (Z.ltb_spec n' 4); uwp_auto.
  - apply (uwp_while (fun '(d', p', n') s' => exists k, 0 <= k /\ 0 <= n' /\ k + n' = n /\
             d' = d + k /\ p' = p + k /\ s' = s <| um := copy_range m d p k |>)
           (fun '(_, _, n') => n')); [by exists k|lia|].
    clear - Hn Hm Ho. intros [[d' p'] n'] s' (k & Hk & Hn' & Ek & -> & -> & ->). split; [lia|].
    destruct (Z.eqb_spec n' 0) as [->|]; uwp_auto.
    + by replace k with n by lia.
    + rewrite i32_id by (unfold is_i32; lia). split; [|lia]. exists (k + 1).
      rewrite set_um_eta, um_set_um, set_um_um, (upd_copy _ _ (p + k)), copy_range_snoc by
        (lia || by rewrite Z.mod_small by apply copy_range_bytes, Hm).
      repeat split; lia.
  - rewrite set_um_eta, um_set_um, set_um_um, pwrite32_copy, copy_range_snoc by
      (lia || by apply copy_range_bytes).
    split; [|lia]. exists (k + 4). repeat split; lia.
Qed.

(** [memmove] is right for any two ranges. *)
Lemma memmove_run s d p n :
  byte_memory (um s) -> 0 <= n < 2 ^ 31 -> 0 <= d < 2 ^ 32 -> 0 <= p < 2 ^ 32 ->
  memmove d p n s = Ret d (s <| um := copy_range (um s) d p n |>).
Proof.
  intros Hm Hn Hd Hp. unfold memmove, u32. rewrite !Z.mod_small by lia.
  destruct (Z.ltb_spec d p) as [Hlt|Hge]; [apply memcpy_run; [done|lia|lia]|].
  set (m := um s) in *.
  match goal with |- ?mm s = _ =>
    assert (uwp mm (fun r s' => r = d /\ s' = s <| um := copy_range m d p n |>) s) as Hw end.
  2: { apply uwp_elim in Hw as (r & s' & E & -> & ->). done. }
  apply uwp_bind.
  apply (uwp_while (fun i s' => -1 <= i < n /\
           s' = s <| um := copy_range m (d + (i + 1)) (p + (i + 1)) (n - 1 - i) |>)
         (fun i => i + 1)); [|lia|].
  { split; [lia|]. replace (n - 1 - (n - 1)) with 0 by lia. rewrite copy_range_0. unfold m. by rewrite set_um_id. }
  intros i s' (Hi & ->). split; [lia|].
  destruct (Z.leb_spec 0 i); uwp_auto.
  - split; [|lia]. split; [lia|].
    rewrite set_um_eta, um_set_um, set_um_um, sext8_mod, (upd_copy _ _ (p + i)) by
      (done || apply copy_range_bytes, Hm).
    rewrite !Z.add_assoc, copy_range_below by lia.
    replace (d + (i - 1) + 1) with (d + i) by lia. replace (p + (i - 1) + 1) with (p + i) by lia.
    by replace (n - 1 - (i - 1)) with (n - 1 - i + 1) by lia.
  - replace i with (-1) by lia. rewrite !Z.add_0_r. split; [done|].
    by replace (n - 1 - -1) with n by lia.
Qed.

(** ** [memset] *)

Lemma fill_in m a n v j : a <= j < a + n -> fill m a n v j = v.
Proof. intros H. unfold fill. by rewrite (proj2 (Z.leb_le _ _)), (proj2 (Z.ltb_lt _ _)) by lia. Qed.

Lemma fill_out m a n v j : j < a \/ a + n <= j -> fill m a n v j = m j.
Proof. intros H. unfold fill. destruct (Z.leb_spec a j), (Z.ltb_spec j (a + n)); simpl; lia || done. Qed.

Lemma fill_snoc m a n k v : 0 <= n -> 0 <= k -> fill (fill m a n v) (a + n) k v = fill m a (n + k) v.
Proof.
  intros Hn Hk. apply functional_extensionality. intros j.
  destruct (decide (a + n <= j < a + n + k)); [by rewrite !fill_in by lia|].
  rewrite (fill_out _ (a + n)) by lia.
  destruct (decide (a <= j < a + n)); [by rewrite !fill_in by lia|]. by rewrite !fill_out by lia.
Qed.

Lemma fill_0 m a v : fill m a 0 v = m.
Proof. apply functional_extensionality. intros j. apply fill_out. lia. Qed.

Lemma upd_fill m a v : upd m a v = fill m a 1 v.
Proof.
  apply functional_extensionality. intros j. destruct (Z.eq_dec a j) as [->|].
  - by rewrite upd_same, fill_in by lia.
  - by rewrite upd_ne, fill_out by lia.
Qed.

Lemma pwrite32_fill m a b : is_byte b -> pwrite32 m a (b * 0x01010101) = fill m a 4 b.
Proof.
  intros Hb. unfold pwrite32.
  replace (b * 0x01010101) with (b + 2 ^ 8 * b + 2 ^ 16 * b + 2 ^ 24 * b) by lia.
  set (x := b + 2 ^ 8 * b + 2 ^ 16 * b + 2 ^ 24 * b).
  replace (le_bytes32 x) with (le_bytes32 (i32 x)).
  2: { unfold le_bytes32. f_equal; [|f_equal; [|f_equal; [|f_equal]]].
       - pose proof (i32_byte x 0 ltac:(lia)) as E. change (2 ^ (8 * 0)) with 1 in E. by rewrite !Z.div_1_r in E.
       - apply (i32_byte x 1). lia.
       - apply (i32_byte x 2). lia.
       - apply (i32_byte x 3). lia. }
  subst x. rewrite byte_of_sum by done. apply functional_extensionality. intros j.
  destruct (decide (a <= j < a + 4)) as [Ha|Ha].
  - rewrite fill_in by lia.
    assert (j = a + Z.of_nat 0 \/ j = a + Z.of_nat 1 \/ j = a + Z.of_nat 2 \/ j = a + Z.of_nat 3) as [->|[->|[->| ->]]] by lia;
      by erewrite blit_in.
  - by rewrite fill_out, blit_out by (simpl; lia).
Qed.

Lemma memset_run s d v n :
  0 <= n < 2 ^ 31 -> memset d v n s = Ret d (s <| um := fill (um s) d n (v mod 256) |>).
Proof.
  intros Hn. set (m := um s). set (b := v mod 256).
  assert (Hb : Z.land v 255 = b) by (change 255 with (Z.ones 8); by rewrite Z.land_ones).
  assert (Hb' : is_byte b) by (apply Z.mod_pos_bound; lia).
  assert (uwp (memset d v n) (fun r s' => r = d /\ s' = s <| um := fill m d n b |>) s) as Hw.
  2: { apply uwp_elim in Hw as (r & s' & E & -> & ->). done. }
  unfold memset. rewrite Hb. apply uwp_bind.
  apply (uwp_while (fun '(d', n') s' => exists k, 0 <= k /\ 0 <= n' /\ k + n' = n /\
           d' = d + k /\ s' = s <| um := fill m d k b |>) (fun '(_, n') => n')); [|lia|].
  { exists 0. rewrite fill_0. unfold m. rewrite set_um_id. repeat split; lia. }
  intros [d' n'] s' (k & Hk & Hn' & Ek & -> & ->). split; [lia|].
  destruct (Z.ltb_spec n' 4); uwp_auto.
  - apply (uwp_while (fun '(d', n') s' => exists k, 0 <= k /\ 0 <= n' /\ k + n' = n /\
             d' = d + k /\ s' = s <| um := fill m d k b |>)
           (fun '(_, n') => n')); [by exists k|lia|].
    clear - Hn Hb'. intros [d' n'] s' (k & Hk & Hn' & Ek & -> & ->). split; [lia|].
    destruct (Z.eqb_spec n' 0) as [->|]; uwp_auto.
    + by replace k with n by lia.
    + rewrite i32_id by (unfold is_i32; lia). split; [|lia]. exists (k + 1).
      rewrite set_um_eta, um_set_um, set_um_um, Z.mod_small, upd_fill, fill_snoc by (done || lia).
      repeat split; lia.
  - rewrite set_um_eta, um_set_um, set_um_um, pwrite32_fill, fill_snoc by (lia || done).
    split; [|lia]. exists (k + 4). repeat split; lia.
Qed.
End mem_spec.

(** ** The claim *)

(** C35: [memmove] copies any range onto any other, overlapping or not, as if through
    a copy of the source, and changes nothing else. *)
Theorem memmove_copies `{G : Guest} s d p n :
  byte_memory (um s) -> 0 <= n < 2 ^ 31 -> 0 <= d < 2 ^ 32 -> 0 <= p < 2 ^ 32 ->
  memmove d p n s = Ret d (s <| um := copy_range (um s) d p n |>).
Proof. apply memmove_run. Qed.

Lemma memmove_copies_witness :
  let s := demo_user (fun a => a mod 256) in
  byte_memory (um s) /\ memmove 103 100 50 s = Ret 103 (s <| um := copy_range (um s) 103 100 50 |>).
Proof.
  assert (byte_memory (fun a => a mod 256)) as H by (intros a; apply Z.mod_pos_bound; lia).
  split; [exact H|]. apply (memmove_copies (demo_user (fun a => a mod 256)) 103 100 50); [exact H|lia..].
Defined.
