(* ===== verification/LibHeapSpec.v ===== *)
(** * LibHeapSpec: the heap of libc never hands out the same memory twice

    The blocks of the heap are disjoint, the free list is a chain through the free
    blocks and their flags say so ([heap_inv]); [malloc] and [free] keep this, and
    change no byte that is not in the header of a block.  What [malloc] relies on of
    the system calls is the class [HeapOs]. *)

From S2P Require Import Prelude Config Kernel Klog RawMem UserMem LibString LibSys LibStringSpec.

(** What the kernel promises on the break, and on [write]. *)
Class HeapOs `{Guest} := {
  os_break : os_state -> Z;
  os_brk_get : forall m o, exists o',
    os_call CFG_SYS_BRK 0 0 0 m o = Some (os_break o, m, o') /\ os_break o' = os_break o;
  os_brk_set : forall a m o, a <> 0 -> exists r m' o',
    os_call CFG_SYS_BRK a 0 0 m o = Some (r, m', o') /\
    (forall x, x < os_break o -> m' x = m x) /\
    ((r < 0 /\ os_break o' = os_break o) \/
     (r = a /\ os_break o' = a /\ CFG_USER_BASE <= a < CFG_USER_GUARD_PAGE));
  os_write_returns : forall fd a n m o, exists r o',
    os_call CFG_SYS_WRITE fd a n m o = Some (r, m, o') /\ os_break o' = os_break o;
}.

(** ** The invariant *)

(** The free list from pointer [p]. *)
Fixpoint chain (m : Z -> Z) (p : Z) (fl : list Z) : Prop :=
  match fl with
  | [] => p = 0
  | b :: fl' => p = b /\ p <> 0 /\ chain m (pread32 m (hb_next b)) fl'
  end.

(** Blocks are pairs of address and size; header and payload do not overlap. *)
Definition disjoint_blocks (bs : list (Z * Z)) : Prop :=
  forall b z b' z', (b, z) ∈ bs -> (b', z') ∈ bs ->
    (b = b' /\ z = z') \/ b + sizeof_block + z <= b' \/ b' + sizeof_block + z' <= b.

Record heap_inv `{HeapOs} (s : ustate) (bs : list (Z * Z)) (fl : list Z) : Prop := {
  hi_disjoint : disjoint_blocks bs;
  hi_bounds : forall b z, (b, z) ∈ bs -> 0 < b /\ 8 <= z /\ b + sizeof_block + z <= heap_next s;
  hi_size : forall b z, (b, z) ∈ bs -> pread32 (um s) (hb_size b) = z;
  hi_flag : forall b z, (b, z) ∈ bs -> pread32 (um s) (hb_free b) = b2z (bool_decide (b ∈ fl));
  hi_chain : chain (um s) (heap_free s) fl;
  hi_nodup : NoDup fl;
  hi_in : forall b, b ∈ fl -> exists z, (b, z) ∈ bs;
  hi_count : NoDup bs /\ 20 * Z.of_nat (length bs) <= heap_next s;
  hi_region : 0 <= heap_next s <= heap_limit s /\ heap_limit s <= os_break (os s) < CFG_USER_GUARD_PAGE /\
    0 < os_break (os s);
}.

(** Only headers of the blocks [bs] differ. *)
Definition same_but_headers (bs : list (Z * Z)) (m m' : Z -> Z) : Prop :=
  forall a, (forall b z, (b, z) ∈ bs -> a < b \/ b + sizeof_block <= a) -> m' a = m a.

Lemma same_but_headers_refl bs m : same_but_headers bs m m.
Proof. by intros a _. Qed.

Lemma same_but_headers_trans bs m1 m2 m3 :
  same_but_headers bs m1 m2 -> same_but_headers bs m2 m3 -> same_but_headers bs m1 m3.
Proof. intros H1 H2 a Ha. rewrite (H2 a Ha). by apply H1. Qed.

(** ** Words of headers *)

Lemma header_write bs m b z o v :
  (b, z) ∈ bs -> 0 <= o <= 8 -> same_but_headers bs m (pwrite32 m (b + o) v).
Proof. intros Hb Ho a Ha. apply pwrite32_other. specialize (Ha b z Hb). unfold sizeof_block in Ha. lia. Qed.

Lemma header_other bs m b z o b' z' o' v :
  disjoint_blocks bs -> (b, z) ∈ bs -> (b', z') ∈ bs -> 0 <= z -> 0 <= z' ->
  0 <= o <= 8 -> 0 <= o' <= 8 -> (b = b' -> o + 4 <= o' \/ o' + 4 <= o) ->
  pread32 (pwrite32 m (b + o) v) (b' + o') = pread32 m (b' + o').
Proof.
  intros Hd Hb Hb' Hz Hz' Ho Ho' Hne. apply pread32_pwrite32_other. unfold sizeof_block in *.
  destruct (Hd _ _ _ _ Hb Hb') as [[<- _]|[H|H]]; unfold sizeof_block in *; [specialize (Hne eq_refl)|..]; lia.
Qed.

Lemma heap_chain_ext m m' p fl :
  (forall b, b ∈ fl -> pread32 m' (hb_next b) = pread32 m (hb_next b)) -> chain m p fl -> chain m' p fl.
Proof.
  revert p. induction fl as [|b fl IH]; intros p He H; [done|]. destruct H as (-> & Hp & H).
  split; [done|]. split; [done|]. rewrite He by left. apply IH; [|done]. intros b' Hb'. apply He. by right.
Qed.

(** The pointer to the rest of the list after [pre]. *)
Definition link_value (m : Z -> Z) (p : Z) (pre : list Z) : Z :=
  match last pre with None => p | Some b => pread32 m (hb_next b) end.

Lemma link_value_cons m p b pre : link_value m p (b :: pre) = link_value m (pread32 m (hb_next b)) pre.
Proof. unfold link_value. rewrite last_cons. by destruct (last pre). Qed.

Lemma chain_rest m p pre post : chain m p (pre ++ post) -> chain m (link_value m p pre) post.
Proof.
  revert p. induction pre as [|b pre IH]; intros p H; [done|].
  rewrite link_value_cons. destruct H as (_ & _ & H). by apply IH.
Qed.

(** Taking a block off: the pointer to it becomes its successor. *)
Lemma chain_unlink m m' p p' pre b post :
  chain m p (pre ++ b :: post) -> NoDup (pre ++ b :: post) ->
  (forall c, c ∈ pre ++ post -> Some c <> last pre -> pread32 m' (hb_next c) = pread32 m (hb_next c)) ->
  link_value m' p' pre = pread32 m (hb_next b) -> (pre <> [] -> p' = p) ->
  chain m' p' (pre ++ post).
Proof.
  revert p p'. induction pre as [|c pre IH]; intros p p' H Hd He Hl Hp.
  - cbn in Hl. rewrite Hl. destruct H as (_ & _ & H). revert H. apply heap_chain_ext.
    intros b' Hb'. by apply He.
  - rewrite link_value_cons in Hl. destruct H as (-> & Hc & H). rewrite Hp by done.
    split; [done|]. split; [done|]. cbn [app] in Hd. apply NoDup_cons in Hd as [Hc' Hd].
    eapply IH; [exact H|done| |exact Hl|].
    + intros d Hd' Hne. apply He; [by right|]. intros E. apply Hne. rewrite E, last_cons.
      destruct (last pre) as [x|] eqn:El; [done|]. exfalso. apply last_None in El as ->. cbn in E.
      injection E as ->. apply Hc'. cbn in Hd' |- *. by right.
    + intros Hne. apply He; [by left|]. rewrite last_cons. destruct (last pre) as [x|] eqn:El; [|by apply last_None in El].
      intros E. injection E as <-. apply Hc'. apply elem_of_app. left. by apply last_Some_elem_of.
Qed.

Section heap.
Context {G : Guest} {HO : HeapOs}.
Implicit Types s : ustate.

(** Rebuild the invariant after header writes; [heap_free] and the list may change. *)
Lemma heap_inv_headers s s' bs fl fl' :
  heap_inv s bs fl ->
  heap_next s' = heap_next s -> heap_limit s' = heap_limit s -> os s' = os s ->
  (forall b z, (b, z) ∈ bs -> pread32 (um s') (hb_size b) = pread32 (um s) (hb_size b)) ->
  (forall b z, (b, z) ∈ bs -> pread32 (um s') (hb_free b) = b2z (bool_decide (b ∈ fl'))) ->
  chain (um s') (heap_free s') fl' -> NoDup fl' -> (forall b, b ∈ fl' -> exists z, (b, z) ∈ bs) ->
  heap_inv s' bs fl'.
Proof.
  intros [] En El Eo Hs Hf Hc Hn Hi.
  split; rewrite ?En, ?El, ?Eo; try done. intros b z Hb. rewrite (Hs b z Hb). by apply hi_size0.
Qed.

Lemma hi_same s bs fl b z z' : heap_inv s bs fl -> (b, z) ∈ bs -> (b, z') ∈ bs -> z = z'.
Proof. intros H H1 H2. rewrite <- (hi_size _ _ _ H _ _ H1). apply (hi_size _ _ _ H _ _ H2). Qed.

Lemma link_get_run s pre : link_get (last pre) s = Ret (link_value (um s) (heap_free s) pre) s.
Proof. unfold link_get, link_value. by destruct (last pre). Qed.

(** The state after the block [b] behind [pre] was taken. *)
Definition unlinked (s : ustate) (pre : list Z) (b : Z) : ustate :=
  let next := pread32 (um s) (hb_next b) in
  let s1 := match last pre with
            | None => s <| heap_free := next |>
            | Some c => s <| um ::= fun m => pwrite32 m (hb_next c) next |>
            end in
  s1 <| um ::= fun m => pwrite32 m (hb_free b) 0 |>.

Lemma unlinked_um s pre b : um (unlinked s pre b) =
  pwrite32 (match last pre with None => um s
            | Some c => pwrite32 (um s) (hb_next c) (pread32 (um s) (hb_next b)) end) (hb_free b) 0.
Proof. unfold unlinked. by destruct (last pre). Qed.

Lemma heap_blocks s bs fl b : heap_inv s bs fl -> b ∈ fl -> exists z, (b, z) ∈ bs /\ 8 <= z.
Proof.
  intros H Hb. destruct (hi_in _ _ _ H b Hb) as [z Hz]. exists z. split; [done|]. by apply (hi_bounds _ _ _ H b z Hz).
Qed.

(** Every word of a header but the free flag of [b] and the link to it is kept. *)
Lemma unlinked_word s bs fl pre b post c zc o :
  heap_inv s bs fl -> fl = pre ++ b :: post -> (c, zc) ∈ bs -> o = 0 \/ o = 4 \/ o = 8 ->
  (o = 4 -> c <> b) -> (o = 8 -> Some c <> last pre) ->
  pread32 (um (unlinked s pre b)) (c + o) = pread32 (um s) (c + o).
Proof.
  intros H -> Hc Ho H4 H8. pose proof (hi_disjoint _ _ _ H) as Hd.
  pose proof (hi_bounds _ _ _ H _ _ Hc) as (_ & Hzc & _).
  destruct (heap_blocks _ _ _ b H) as (zb & Hb & Hzb); [by apply elem_of_app; right; left|].
  rewrite unlinked_um.
  rewrite (header_other bs _ b zb 4 c zc o) by (done || lia || (intros ->; destruct Ho as [-> | [-> | ->]]; [lia|by destruct H4|lia])).
  destruct (last pre) as [e|] eqn:E; [|done].
  destruct (heap_blocks _ _ _ e H) as (ze & He & Hze).
  { apply elem_of_app. left. by apply last_Some_elem_of. }
  apply (header_other bs _ e ze 8 c zc o); [done..|lia|lia|lia|lia|].
  intros ->. destruct Ho as [-> | [-> | ->]]; [lia|lia|by destruct H8].
Qed.

Lemma unlinked_flag s bs fl pre b post :
  heap_inv s bs fl -> fl = pre ++ b :: post -> pread32 (um (unlinked s pre b)) (hb_free b) = 0.
Proof. intros _ _. rewrite unlinked_um. apply pread32_pwrite32_same. Qed.

Lemma unlinked_link s bs fl pre b post :
  heap_inv s bs fl -> fl = pre ++ b :: post ->
  link_value (um (unlinked s pre b)) (heap_free (unlinked s pre b)) pre = pread32 (um s) (hb_next b).
Proof.
  intros H ->. unfold link_value. rewrite unlinked_um. unfold unlinked.
  destruct (last pre) as [e|] eqn:E; [|done].
  destruct (heap_blocks _ _ _ b H) as (zb & Hb & Hzb); [by apply elem_of_app; right; left|].
  destruct (heap_blocks _ _ _ e H) as (ze & He & Hze).
  { apply elem_of_app. left. by apply last_Some_elem_of. }
  unfold hb_free, hb_next. rewrite (header_other bs _ b zb 4 e ze 8) by (done || lia || (eapply hi_disjoint; done)).
  rewrite pread32_pwrite32_same. apply i32_id, pread32_range.
Qed.

Lemma unlinked_inv s bs pre b post :
  heap_inv s bs (pre ++ b :: post) -> heap_inv (unlinked s pre b) bs (pre ++ post).
Proof.
  intros H. pose proof (hi_nodup _ _ _ H) as Hd.
  assert (b ∉ pre ++ post) as Hb.
  { rewrite <- Permutation_middle in Hd. by apply NoDup_cons in Hd as [? ?]. }
  eapply heap_inv_headers; [exact H|unfold unlinked; by destruct (last pre)..| | | | |].
  - intros c zc Hc. rewrite <- (Z.add_0_r (hb_size c)).
    eapply unlinked_word; [exact H|done|exact Hc|by left|lia|lia].
  - intros c zc Hc. destruct (decide (c = b)) as [->|Hne].
    + erewrite unlinked_flag by done. by rewrite bool_decide_eq_false_2.
    + unfold hb_free. erewrite unlinked_word; [|exact H|done|exact Hc|by right; left|done|lia].
      change (c + 4) with (hb_free c). rewrite (hi_flag _ _ _ H c zc Hc). f_equal. apply bool_decide_ext.
      rewrite !elem_of_app, elem_of_cons. naive_solver.
  - eapply (chain_unlink (um s) _ (heap_free s)); [apply (hi_chain _ _ _ H)|done| |by eapply unlinked_link|].
    + intros c Hc Hne. destruct (heap_blocks _ _ _ c H) as (zc & Hcz & _).
      { rewrite elem_of_app, elem_of_cons. apply elem_of_app in Hc. tauto. }
      eapply unlinked_word; [exact H|done|exact Hcz|by right; right|lia|done].
    + intros Hne. unfold unlinked. destruct (last pre) eqn:E; [done|]. by apply last_None in E.
  - rewrite <- Permutation_middle in Hd. by apply NoDup_cons in Hd as [? ?].
  - intros c Hc. destruct (heap_blocks _ _ _ c H) as (zc & Hcz & _); [|by exists zc].
    rewrite elem_of_app, elem_of_cons. apply elem_of_app in Hc. tauto.
Qed.
Lemma free_list_short s bs fl : heap_inv s bs fl -> Z.of_nat (length fl) < 2 ^ 31.
Proof.
  intros H. assert (length fl <= length bs)%nat as Hl.
  { rewrite <- (length_fmap fst bs). apply submseteq_length, NoDup_submseteq; [apply (hi_nodup _ _ _ H)|].
    intros b Hb. destruct (hi_in _ _ _ H b Hb) as [z Hz]. apply list_elem_of_fmap. by exists (b, z). }
  pose proof (proj2 (hi_count _ _ _ H)). pose proof (hi_region _ _ _ H) as (? & ? & ?).
  unfold CFG_USER_GUARD_PAGE in *. lia.
Qed.

(** The first block on the list that is large enough. *)
Lemma take_free_run s bs fl size :
  heap_inv s bs fl ->
  take_free size s = Ret 0 s \/
  exists pre b post z, fl = pre ++ b :: post /\ (b, z) ∈ bs /\ size <= z /\
    take_free size s = Ret b (unlinked s pre b).
Proof.
  intros H.
  assert (uwp (take_free size) (fun r s' => (r = 0 /\ s' = s) \/
    exists pre b post z, fl = pre ++ b :: post /\ (b, z) ∈ bs /\ size <= z /\ r = b /\ s' = unlinked s pre b) s) as Hw.
  2: { apply uwp_elim in Hw as (r & s' & E & [[-> ->]|(pre & b & post & z & E1 & E2 & E3 & -> & ->)]); [by left|].
       right. by exists pre, b, post, z. }
  apply (uwp_while_index (fun n link s' => s' = s /\ exists pre post, fl = pre ++ post /\ link = last pre /\
           n = Z.of_nat (length post)) _ _ (Z.of_nat (length fl))); [|by eapply free_list_short|].
  { split; [done|]. by exists [], fl. }
  intros n link s' (-> & pre & post & E & -> & ->). split; [lia|].
  apply uwp_bind. eapply uwp_run; [apply link_get_run|].
  pose proof (hi_chain _ _ _ H) as Hc. rewrite E in Hc. apply chain_rest in Hc.
  destruct post as [|b post].
  { cbn in Hc. rewrite Hc. uwp_auto. by left. }
  destruct Hc as (-> & Hb0 & _). rewrite (proj2 (Z.eqb_neq b 0)) by done. uwp_auto.
  destruct (heap_blocks _ _ _ b H) as (z & Hb & Hz); [rewrite E; apply elem_of_app; right; left|].
  rewrite (hi_size _ _ _ H _ _ Hb). destruct (Z.leb_spec size z) as [Hle|Hgt]; uwp_auto.
  - apply (uwp_run _ _ _ tt (match last pre with
      | None => s <| heap_free := pread32 (um s) (hb_next b) |>
      | Some c => s <| um ::= fun m => pwrite32 m (hb_next c) (pread32 (um s) (hb_next b)) |>
      end)); [unfold link_set; by destruct (last pre)|].
    uwp_auto. right. by exists pre, b, post, z.
  - exists (Z.of_nat (length post)). split; [simpl; lia|]. split; [done|].
    exists (pre ++ [b]), post. rewrite <- app_assoc, last_snoc. done.
Qed.
(** ** Growing the region *)

(** The system call changed nothing of the heap below the break. *)
Record os_only (s s' : ustate) : Prop := {
  oo_free : heap_free s' = heap_free s;
  oo_next : heap_next s' = heap_next s;
  oo_limit : heap_limit s' = heap_limit s;
  oo_mem : forall x, x < os_break (os s) -> um s' x = um s x;
  oo_break : os_break (os s) <= os_break (os s');
}.

Lemma sbrk_run s need :
  0 <= os_break (os s) < CFG_USER_GUARD_PAGE -> 0 < need <= 2 ^ 30 + 24 ->
  uwp (sbrk need) (fun r s' => os_only s s' /\ os_break (os s') < CFG_USER_GUARD_PAGE /\
    (r = -1 \/ (r = os_break (os s) /\ os_break (os s') = r + need))) s.
Proof.
  unfold CFG_USER_GUARD_PAGE. intros Hb Hn. unfold sbrk, sys. apply uwp_bind.
  destruct (os_brk_get (um s) (os s)) as (o1 & E1 & B1).
  apply uwp_bind. eapply uwp_run; [unfold __syscall; by rewrite E1|].
  unfold ret_errno. rewrite (proj2 (Z.ltb_ge (os_break (os s)) 0)) by lia. uwp_auto.
  rewrite (proj2 (Z.ltb_ge (os_break (os s)) 0)) by lia.
  rewrite i32_id by (unfold is_i32; lia).
  set (s1 := s <| um := um s |> <| os := o1 |>).
  destruct (os_brk_set (os_break (os s) + need) (um s1) (os s1)) as (r & m2 & o2 & E2 & M2 & R2); [lia|].
  apply uwp_bind. apply uwp_bind. eapply uwp_run; [unfold __syscall; by rewrite E2|].
  change (os_break (os s1)) with (os_break o1) in *. rewrite B1 in *.
  unfold CFG_USER_BASE, CFG_USER_GUARD_PAGE in R2.
  destruct (Z.ltb_spec r 0); uwp_auto.
  - destruct R2 as [[_ R2]|(-> & _)]; [|lia]. split; [split; cbn; done || lia|]. cbn. lia.
  - destruct R2 as [[? _]|(-> & R2 & H2)]; [lia|].
    rewrite (proj2 (Z.ltb_ge _ 0)) by lia. split; [split; cbn; done || lia|]. cbn. lia.
Qed.
(** The text of the report is a string below the break. *)
Definition oom_ok (s : ustate) : Prop :=
  cstr (um s) (literal oom_text) oom_text /\
  literal oom_text + Z.of_nat (length oom_text) < os_break (os s).

Lemma oom_ok_os s s' : os_only s s' -> oom_ok s -> oom_ok s'.
Proof.
  intros H [H1 H2]. split; [|pose proof (oo_break _ _ H); lia].
  revert H1. apply cstr_ext. intros i Hi. apply (oo_mem _ _ H). lia.
Qed.

Lemma report_oom_run s : oom_ok s -> uwp report_oom (fun _ s' => os_only s s' /\ os_break (os s') = os_break (os s)) s.
Proof.
  intros [Hc _]. unfold report_oom. uwp_auto. destruct (negb _); uwp_auto; [by split|].
  set (s1 := s <| heap_oom_reported := 1 |>).
  assert (cstr (um s1) (literal oom_text) oom_text) as Hc1 by done.
  eapply uwp_run; [by apply strlen_run|]. unfold write, sys.
  destruct (os_write_returns 2 (literal oom_text) (Z.of_nat (length oom_text)) (um s1) (os s1)) as (r & o & E & B).
  do 2 apply uwp_bind. eapply uwp_run; [unfold __syscall; by rewrite E|]. unfold ret_errno.
  change (os s1) with (os s) in B. destruct (r <? 0); uwp_auto; (split; [split; cbn; done || lia|done]).
Qed.

Lemma heap_inv_os s s' bs fl :
  heap_inv s bs fl -> os_only s s' -> os_break (os s') < CFG_USER_GUARD_PAGE -> heap_inv s' bs fl.
Proof.
  intros H [Ef En El Em Eb] Hg. pose proof (hi_region _ _ _ H) as (Hr1 & Hr2 & Hr3).
  assert (Hw : forall b z o, (b, z) ∈ bs -> 0 <= o <= 8 -> pread32 (um s') (b + o) = pread32 (um s) (b + o)).
  { intros b z o Hb Ho. apply pread32_ext. intros k Hk. apply Em.
    pose proof (hi_bounds _ _ _ H _ _ Hb). unfold sizeof_block in *. lia. }
  split; rewrite ?Ef, ?En, ?El; try apply H; try done.
  - intros b z Hb. rewrite <- (Z.add_0_r (hb_size b)). unfold hb_size. rewrite (Hw b z 0 Hb), Z.add_0_r by lia.
    by apply (hi_size _ _ _ H).
  - intros b z Hb. unfold hb_free. rewrite (Hw b z 4 Hb) by lia. by apply (hi_flag _ _ _ H b z).
  - eapply heap_chain_ext; [|apply (hi_chain _ _ _ H)]. intros b Hb.
    destruct (heap_blocks _ _ _ b H Hb) as (z & Hz & _). apply (Hw b z 8 Hz). lia.
  - split; [done|]. lia.
Qed.

(** What growing keeps. *)
Record grown (s s' : ustate) : Prop := {
  gr_free : heap_free s' = heap_free s;
  gr_next : heap_next s <= heap_next s';
  gr_mem : forall x, x < os_break (os s) -> um s' x = um s x;
  gr_break : os_break (os s) <= os_break (os s');
}.

Lemma os_only_grown s s' : os_only s s' -> grown s s'.
Proof. intros []. split; try done. lia. Qed.

Lemma grown_trans s1 s2 s3 : grown s1 s2 -> grown s2 s3 -> grown s1 s3.
Proof.
  intros [] []. split; [congruence|lia| |lia]. intros x Hx. rewrite gr_mem1 by lia. by apply gr_mem0.
Qed.

(** The region now starts at, or goes on to, the new memory. *)
Lemma heap_inv_region s bs fl next limit :
  heap_inv s bs fl -> heap_next s <= next <= limit -> limit <= os_break (os s) ->
  heap_inv (s <| heap_next := next |> <| heap_limit := limit |>) bs fl.
Proof.
  intros [] Hn Hl. split; cbn; try done.
  - intros b z Hb. destruct (hi_bounds0 b z Hb) as (? & ? & ?). lia.
  - destruct hi_count0. split; [done|lia].
  - lia.
Qed.

Lemma grow_region_run s bs fl total :
  heap_inv s bs fl -> oom_ok s -> 20 <= total <= 2 ^ 30 + 24 ->
  uwp (grow_region total) (fun ok s' => heap_inv s' bs fl /\ grown s s' /\
    ((ok : bool) = true -> 0 < heap_next s' /\ heap_next s' + total <= heap_limit s')) s.
Proof.
  intros H Hoom Ht.
  set (fits s' := 0 < heap_next s' /\ heap_next s' + total <= heap_limit s').
  apply (uwp_while_index (fun n _ s' => heap_inv s' bs fl /\ oom_ok s' /\ grown s s' /\ (n = 1 \/ (n = 0 /\ fits s')))
           _ _ 1); [|lia|].
  { split; [done|]. split; [done|]. split; [split; done || lia|]. by left. }
  clear H Hoom. intros n [] s1 (H & Hoom & Hg & Hn). split; [destruct Hn as [->|[-> _]]; lia|].
  pose proof (hi_region _ _ _ H) as (Hr1 & Hr2 & Hr3). unfold CFG_USER_GUARD_PAGE in Hr2. uwp_auto.
  unfold u32. rewrite !Z.mod_small by lia.
  destruct ((heap_next s1 =? 0) || (heap_limit s1 <? heap_next s1 + total)) eqn:Eb.
  2: { uwp_auto. split; [done|]. split; [done|]. bool_hyps. intros _. unfold fits. lia. }
  destruct Hn as [->|[-> Hf]].
  2: { unfold fits in Hf. apply orb_true_iff in Eb as [Eb|Eb]; bool_hyps; lia. }
  set (need := if HEAP_CHUNK <? total then total else HEAP_CHUNK). unfold HEAP_CHUNK in need.
  assert (Hneed : total <= need <= 2 ^ 30 + 24).
  { unfold need. destruct (Z.ltb_spec 65536 total); lia. }
  clearbody need.
  apply uwp_bind. eapply uwp_mono; [apply sbrk_run; unfold CFG_USER_GUARD_PAGE; lia|].
  intros base s2 (Ho & Hb2 & Hres). pose proof (heap_inv_os _ _ _ _ H Ho Hb2) as H2.
  pose proof (oom_ok_os _ _ Ho Hoom) as Hoom2. pose proof (grown_trans _ _ _ Hg (os_only_grown _ _ Ho)) as Hg2.
  pose proof Ho as [Ef En El Em Ebr]. unfold CFG_USER_GUARD_PAGE in Hb2.
  destruct (Z.eqb_spec base (-1)) as [->|Hne].
  - uwp_auto. eapply uwp_mono; [by apply report_oom_run|]. intros _ s3 [Ho3 Hb3]. uwp_auto.
    split; [eapply heap_inv_os; [exact H2|exact Ho3|unfold CFG_USER_GUARD_PAGE; lia]|].
    split; [by eapply grown_trans, os_only_grown|done].
  - destruct Hres as [->|[-> Hb3]]; [done|]. uwp_auto. rewrite En, El.
    set (keep := negb (heap_next s1 =? 0) && (os_break (os s1) =? heap_limit s1)).
    destruct keep eqn:Ek; subst keep; cbn [negb uwhen]; uwp_auto; exists 0; (split; [lia|]).
    + bool_hyps.
      assert (heap_inv (s2 <| heap_next := heap_next s2 |> <| heap_limit := os_break (os s1) + need |>) bs fl) as H3
        by (apply heap_inv_region; [done|lia|lia]).
      replace (s2 <| heap_next := heap_next s2 |>) with s2 in H3 by by destruct s2.
      split; [done|]. split; [exact Hoom2|]. split; [destruct Hg2; by split|].
      right. split; [done|]. unfold fits. cbn. lia.
    + assert (heap_inv (s2 <| heap_next := os_break (os s1) |> <| heap_limit := os_break (os s1) + need |>) bs fl) as H3
        by (apply heap_inv_region; [done|lia|lia]).
      split; [done|]. split; [exact Hoom2|].
      split; [destruct Hg2; split; cbn; done || lia|].
      right. split; [done|]. unfold fits. cbn. lia.
Qed.
(** ** malloc and free *)

Lemma round_up_8 size : 1 <= size <= 2 ^ 30 ->
  exists z, i32 (Z.land (size +! 7) (-8)) = z /\ size <= z <= size + 7 /\ 8 <= z.
Proof.
  intros Hs. rewrite (i32_id (size + 7)) by (unfold is_i32; lia).
  change (-8) with (Z.lnot (Z.ones 3)). rewrite <- Z.ldiff_land, Z.ldiff_ones_r by lia.
  rewrite Z.shiftl_mul_pow2, Z.shiftr_div_pow2 by lia. change (2 ^ 3) with 8.
  pose proof (Z.div_mod (size + 7) 8). pose proof (Z.mod_pos_bound (size + 7) 8).
  exists ((size + 7) / 8 * 8). rewrite i32_id by (unfold is_i32; lia). lia.
Qed.

(** A block cut from the region. *)
Definition carved (s : ustate) (z : Z) : ustate :=
  let b := heap_next s in
  s <| heap_next := b + (z + sizeof_block) |>
    <| um := pwrite32 (pwrite32 (pwrite32 (um s) (hb_size b) z) (hb_free b) 0) (hb_next b) 0 |>.

Lemma um_carved s z : um (carved s z) =
  pwrite32 (pwrite32 (pwrite32 (um s) (hb_size (heap_next s)) z) (hb_free (heap_next s)) 0) (hb_next (heap_next s)) 0.
Proof. done. Qed.

Lemma carved_word s z c o :
  c + o + 4 <= heap_next s -> pread32 (um (carved s z)) (c + o) = pread32 (um s) (c + o).
Proof.
  intros H. rewrite um_carved. unfold hb_size, hb_free, hb_next.
  rewrite !pread32_pwrite32_other by lia. done.
Qed.

Lemma carved_inv s bs fl z :
  heap_inv s bs fl -> 0 < heap_next s -> 8 <= z < 2 ^ 31 -> heap_next s + (z + sizeof_block) <= heap_limit s ->
  heap_inv (carved s z) ((heap_next s, z) :: bs) fl /\ heap_next s ∉ fl.
Proof.
  intros H Hn Hz Hl. unfold sizeof_block in *. set (b := heap_next s) in *.
  assert (Hlow : forall c zc, (c, zc) ∈ bs -> 0 < c /\ 8 <= zc /\ c + 12 + zc <= b)
    by apply (hi_bounds _ _ _ H).
  assert (Hb : b ∉ fl).
  { intros Hb. destruct (hi_in _ _ _ H b Hb) as [zb Hzb]. apply Hlow in Hzb. lia. }
  split; [|done].
  assert (Hw : forall c zc o, (c, zc) ∈ bs -> 0 <= o <= 8 ->
    pread32 (um (carved s z)) (c + o) = pread32 (um s) (c + o)).
  { intros c zc o Hc Ho. apply carved_word. pose proof (Hlow _ _ Hc). fold b. lia. }
  split; unfold sizeof_block; cbn [heap_next heap_limit heap_free os].
  - intros c zc c' zc' Hc Hc'. apply elem_of_cons in Hc, Hc'. unfold sizeof_block.
    destruct Hc as [[= -> ->]|Hc], Hc' as [[= -> ->]|Hc'].
    + by left.
    + pose proof (Hlow _ _ Hc'). lia.
    + pose proof (Hlow _ _ Hc). lia.
    + apply (hi_disjoint _ _ _ H _ _ _ _ Hc Hc').
  - change (heap_next (carved s z)) with (b + (z + 12)). intros c zc Hc.
    apply elem_of_cons in Hc as [[= -> ->]|Hc]; [lia|]. pose proof (Hlow _ _ Hc). lia.
  - intros c zc Hc. apply elem_of_cons in Hc as [[= -> ->]|Hc].
    + rewrite um_carved. fold b. unfold hb_size, hb_free, hb_next.
      rewrite !pread32_pwrite32_other, pread32_pwrite32_same by lia. apply i32_id. unfold is_i32. lia.
    + rewrite <- (Z.add_0_r (hb_size c)). unfold hb_size. rewrite (Hw c zc 0 Hc), Z.add_0_r by lia.
      by apply (hi_size _ _ _ H).
  - intros c zc Hc. apply elem_of_cons in Hc as [[= -> ->]|Hc].
    + rewrite bool_decide_eq_false_2 by done. rewrite um_carved. fold b. unfold hb_size, hb_free, hb_next.
      by rewrite pread32_pwrite32_other, pread32_pwrite32_same by lia.
    + unfold hb_free. rewrite (Hw c zc 4 Hc) by lia. by apply (hi_flag _ _ _ H c zc).
  - change (heap_free (carved s z)) with (heap_free s).
    eapply heap_chain_ext; [|apply (hi_chain _ _ _ H)]. intros c Hc.
    destruct (heap_blocks _ _ _ c H Hc) as (zc & Hcz & _). apply (Hw c zc 8 Hcz). lia.
  - apply (hi_nodup _ _ _ H).
  - intros c Hc. destruct (hi_in _ _ _ H c Hc) as [zc Hzc]. exists zc. by right.
  - destruct (hi_count _ _ _ H) as [Hc1 Hc2]. split.
    + apply NoDup_cons. split; [|done]. intros Hc. pose proof (Hlow _ _ Hc). lia.
    + change (heap_next (carved s z)) with (b + (z + 12)). simpl length. fold b in Hc2. lia.
  - pose proof (hi_region _ _ _ H) as (Hr1 & Hr2 & Hr3).
    change (heap_next (carved s z)) with (b + (z + 12)).
    change (heap_limit (carved s z)) with (heap_limit s). change (os (carved s z)) with (os s). lia.
Qed.

(** The blocks and the free list after [malloc] of [size] returned [p]. *)
Definition allocated (bs bs' : list (Z * Z)) (fl fl' : list Z) (size p : Z) : Prop :=
  (p = 0 /\ bs' = bs /\ fl' = fl) \/
  exists b z, p = b + sizeof_block /\ 0 < b /\ (b, z) ∈ bs' /\ size <= z /\ b ∉ fl' /\
    ((bs' = bs /\ fl ≡ₚ b :: fl') \/ (bs' = (b, z) :: bs /\ fl' = fl)).

Definition kept_below (s s' : ustate) (bs : list (Z * Z)) : Prop :=
  forall x, x < os_break (os s) ->
    (forall b z, (b, z) ∈ bs -> x < b \/ b + sizeof_block <= x) -> um s' x = um s x.

Lemma unlinked_kept s bs pre b post :
  heap_inv s bs (pre ++ b :: post) -> kept_below s (unlinked s pre b) bs.
Proof.
  intros H x _ Hx. rewrite unlinked_um.
  destruct (heap_blocks _ _ _ b H) as (zb & Hb & Hzb); [by apply elem_of_app; right; left|].
  pose proof (Hx _ _ Hb) as Hxb. unfold sizeof_block in *.
  rewrite pwrite32_other by (unfold hb_free; lia).
  destruct (last pre) as [e|] eqn:E; [|done].
  destruct (heap_blocks _ _ _ e H) as (ze & He & Hze).
  { apply elem_of_app. left. by apply last_Some_elem_of. }
  pose proof (Hx _ _ He) as Hxe. apply pwrite32_other. unfold hb_next. lia.
Qed.

Lemma malloc_run s bs fl size :
  heap_inv s bs fl -> oom_ok s -> 1 <= size <= 2 ^ 30 ->
  uwp (malloc size) (fun p s' => exists bs' fl',
    heap_inv s' bs' fl' /\ allocated bs bs' fl fl' size p /\ kept_below s s' bs') s.
Proof.
  intros H Hoom Hs. unfold malloc. rewrite (proj2 (Z.leb_gt size 0)) by lia.
  destruct (round_up_8 size Hs) as (z & -> & Hz & Hz8). apply uwp_bind.
  destruct (take_free_run s bs fl z H) as [E|(pre & b & post & zb & -> & Hb & Hle & E)].
  - eapply uwp_run; [exact E|]. change (negb (0 =? 0)) with false. cbv iota.
    unfold sizeof_block. rewrite i32_id by (unfold is_i32; lia). apply uwp_bind.
    eapply uwp_mono; [apply (grow_region_run s bs fl (z + 12)); [done|done|lia]|].
    intros ok s1 (H1 & Hg & Hok). destruct ok; cbn [negb].
    + destruct (Hok eq_refl) as [Hn Hl]. uwp_auto.
      destruct (carved_inv s1 bs fl z H1 Hn ltac:(lia) ltac:(unfold sizeof_block; lia)) as [H2 Hnf].
      exists ((heap_next s1, z) :: bs), fl. split; [exact H2|]. split.
      * right. exists (heap_next s1), z. split; [done|]. split; [done|]. split; [left|]. split; [lia|]. split; [done|].
        by right.
      * intros x Hx Hout. pose proof (Hout (heap_next s1) z ltac:(left)) as Hx1. unfold sizeof_block in Hx1.
        match goal with |- um ?t x = _ => change (um t) with (um (carved s1 z)) end.
        rewrite um_carved, !pwrite32_other by (unfold hb_size, hb_free, hb_next; lia). by apply (gr_mem _ _ Hg).
    + uwp_auto. exists bs, fl. split; [done|]. split; [by left|]. intros x Hx _. by apply (gr_mem _ _ Hg).
  - eapply uwp_run; [exact E|]. pose proof (hi_bounds _ _ _ H _ _ Hb) as (Hb0 & _).
    rewrite (proj2 (Z.eqb_neq b 0)) by lia. cbn [negb]. uwp_auto.
    exists bs, (pre ++ post). split; [by apply unlinked_inv|]. split; [|by eapply unlinked_kept].
    right. exists b, zb. split; [done|]. split; [done|]. split; [done|]. split; [lia|].
    pose proof (hi_nodup _ _ _ H) as Hd. rewrite <- Permutation_middle in Hd. apply NoDup_cons in Hd as [Hd _].
    split; [done|]. left. split; [done|]. by rewrite Permutation_middle.
Qed.

(** [free] puts a live block on the list; a block that is already there stays. *)
Lemma free_run s bs fl b z :
  heap_inv s bs fl -> (b, z) ∈ bs ->
  exists s', free (b + sizeof_block) s = Ret tt s' /\
    heap_inv s' bs (if decide (b ∈ fl) then fl else b :: fl) /\
    same_but_headers bs (um s) (um s') /\ (b ∈ fl -> s' = s).
Proof.
  intros H Hb. pose proof (hi_bounds _ _ _ H _ _ Hb) as (Hb0 & Hz & _).
  unfold free. rewrite (proj2 (Z.eqb_neq (b + sizeof_block) 0)) by (unfold sizeof_block; lia).
  replace (b + sizeof_block - sizeof_block) with b by lia.
  unfold mbind, U_bind, ldw, get. rewrite (hi_flag _ _ _ H b z Hb). destruct (decide (b ∈ fl)) as [Hin|Hnin].
  { rewrite bool_decide_eq_true_2 by done. exists s. split_and!; [done|done|apply same_but_headers_refl|done]. }
  rewrite bool_decide_eq_false_2 by done. change (negb (b2z false =? 0)) with false. cbv iota.
  unfold stw, set. eexists. split; [reflexivity|].
  set (m1 := pwrite32 (um s) (hb_free b) 1). set (m2 := pwrite32 m1 (hb_next b) (heap_free s)).
  assert (Hp : forall c zc o, (c, zc) ∈ bs -> o = 0 \/ o = 4 \/ o = 8 -> c <> b \/ o = 0 ->
    pread32 m2 (c + o) = pread32 (um s) (c + o)).
  { intros c zc o Hc Ho Hne. pose proof (hi_bounds _ _ _ H _ _ Hc) as (_ & Hzc & _).
    pose proof (hi_disjoint _ _ _ H) as Hd. unfold m2, m1.
    rewrite (header_other bs _ b z 8 c zc o), (header_other bs _ b z 4 c zc o); try done; lia. }
  split; [|split; [|done]].
  - eapply heap_inv_headers; [exact H|done|done|done|..]; cbn [um heap_free].
    + intros c zc Hc. rewrite <- (Z.add_0_r (hb_size c)). apply (Hp c zc 0 Hc); lia.
    + intros c zc Hc. destruct (decide (c = b)) as [->|Hne].
      * rewrite bool_decide_eq_true_2 by by left. change (pread32 m2 (hb_free b) = 1). unfold m2, m1, hb_next, hb_free.
        by rewrite pread32_pwrite32_other, pread32_pwrite32_same by lia.
      * change (pread32 m2 (c + 4) = b2z (bool_decide (c ∈ b :: fl))). rewrite (Hp c zc 4 Hc) by lia.
        change (c + 4) with (hb_free c). rewrite (hi_flag _ _ _ H c zc Hc). f_equal. apply bool_decide_ext.
        rewrite elem_of_cons. naive_solver.
    + split; [done|]. split; [apply Z.neq_sym, Z.lt_neq, Hb0|]. change (chain m2 (pread32 m2 (hb_next b)) fl).
      assert (Hw : is_i32 (heap_free s)).
      { pose proof (hi_chain _ _ _ H) as Hc. destruct fl as [|c fl']; [cbn in Hc; rewrite Hc; unfold is_i32; lia|].
        destruct Hc as (-> & _). destruct (heap_blocks _ _ _ c H) as (zc & Hc & _); [left|].
        pose proof (hi_bounds _ _ _ H _ _ Hc) as (Hc0 & Hc8 & Hcb).
        pose proof (hi_region _ _ _ H) as (Hr1 & Hr2 & Hr3).
        unfold is_i32, sizeof_block, CFG_USER_GUARD_PAGE in *. lia. }
      unfold m2 at 2. rewrite pread32_pwrite32_same, i32_id by done.
      eapply heap_chain_ext; [|apply (hi_chain _ _ _ H)]. intros c Hc.
      destruct (heap_blocks _ _ _ c H Hc) as (zc & Hcz & _). apply (Hp c zc 8 Hcz); [lia|].
      left. by intros ->.
    + apply NoDup_cons. split; [done|apply (hi_nodup _ _ _ H)].
    + intros c Hc. apply elem_of_cons in Hc as [->|Hc]; [by exists z|by apply (hi_in _ _ _ H)].
  - change (same_but_headers bs (um s) m2). unfold m2, m1.
    eapply same_but_headers_trans; eapply (header_write bs _ b z); done || lia.
Qed.
End heap.

(** ** The claims *)

Section claims.
Context {G : Guest} {HO : HeapOs}.

(** C30: [malloc] returns 0 or a block of at least [size] bytes that was free or new,
    keeps the heap well formed (so the block overlaps no other), and changes no byte
    of the payload of any block. *)
Theorem malloc_correct s bs fl size :
  heap_inv s bs fl -> oom_ok s -> 1 <= size <= 2 ^ 30 ->
  uwp (malloc size) (fun p s' => exists bs' fl',
    heap_inv s' bs' fl' /\ allocated bs bs' fl fl' size p /\
    (forall c z x, (c, z) ∈ bs -> c + sizeof_block <= x < c + sizeof_block + z -> um s' x = um s x)) s.
Proof.
  intros H Hoom Hs. eapply uwp_mono; [by apply malloc_run|].
  intros p s' (bs' & fl' & H' & Ha & Hk). exists bs', fl'. split; [done|]. split; [done|].
  intros c z x Hc Hx. pose proof (hi_bounds _ _ _ H _ _ Hc) as (_ & Hz & Hcn).
  pose proof (hi_region _ _ _ H) as (Hr1 & Hr2 & Hr3).
  assert ((c, z) ∈ bs') as Hc'.
  { destruct Ha as [(_ & -> & _)|(b & zb & _ & _ & _ & _ & _ & [[-> _]|[-> _]])]; [done|done|by right]. }
  apply Hk; [unfold sizeof_block in *; lia|]. intros b zb Hb.
  pose proof (hi_bounds _ _ _ H' _ _ Hb) as (_ & Hzb & _).
  destruct (hi_disjoint _ _ _ H' _ _ _ _ Hc' Hb) as [[<- <-]|[?|?]]; lia.
Qed.

(** C31: [free] of a live block puts it at the head of the free list, of a free one
    does nothing; the heap stays well formed and only headers change. *)
Theorem free_correct s bs fl b z :
  heap_inv s bs fl -> (b, z) ∈ bs ->
  exists s', free (b + sizeof_block) s = Ret tt s' /\
    heap_inv s' bs (if decide (b ∈ fl) then fl else b :: fl) /\
    same_but_headers bs (um s) (um s') /\ (b ∈ fl -> s' = s).
Proof. apply free_run. Qed.
End claims.

(** A system whose break moves and whose [write] takes everything. *)
#[export] Instance demo_heap_guest : Guest := {|
  os_state := Z;
  os_call n a b c m brk :=
    if n =? CFG_SYS_BRK then
      if a =? 0 then Some (brk, m, brk)
      else if (CFG_USER_BASE <=? a) && (a <? CFG_USER_GUARD_PAGE) then Some (a, m, a)
      else Some (- CFG_ENOMEM, m, brk)
    else if n =? CFG_SYS_WRITE then Some (c, m, brk)
    else None;
  addr_of _ := 0;
  literal _ := 100 |}.

#[export] Instance demo_heap_os : @HeapOs demo_heap_guest.
Proof.
  refine {| os_break := fun o : @os_state demo_heap_guest => o |}.
  - intros m o. by exists o.
  - intros a m o Ha. unfold os_call, demo_heap_guest. cbn [Z.eqb].
    change (CFG_SYS_BRK =? CFG_SYS_BRK) with true. cbv iota. rewrite (proj2 (Z.eqb_neq a 0)) by done.
    destruct (Z.leb_spec CFG_USER_BASE a); [destruct (Z.ltb_spec a CFG_USER_GUARD_PAGE)|]; cbn [andb];
      do 3 eexists; (split; [reflexivity|]); (split; [done|]); [right; lia|left|left];
      (split; [unfold CFG_ENOMEM; lia|done]).
  - intros fd a n m o. unfold os_call, demo_heap_guest. by do 2 eexists.
Defined.

Definition demo_heap (m : Z -> Z) (head next limit : Z) : @ustate demo_heap_guest :=
  @Build_ustate demo_heap_guest m limit 0 (fun _ => 0) 0 head next limit 0 0 0.

(** The memory of the demonstration: the report text at 100. *)
Definition demo_text : Z -> Z := blit (fun _ => 0) 100 (oom_text ++ [0]).

Lemma demo_oom_ok s : um s = demo_text -> CFG_USER_BASE <= os_break (os s) -> oom_ok s.
Proof.
  intros Hm Hb. split; [|unfold CFG_USER_BASE in Hb; cbn in *; lia].
  rewrite Hm. apply cstr_blit; [|done]. apply Forall_forall. vm_compute.
  intros x Hx. repeat (apply elem_of_cons in Hx as [->|Hx]; [by split|]). by apply not_elem_of_nil in Hx.
Qed.

Lemma demo_heap_inv m : heap_inv (demo_heap m 0 CFG_USER_BASE (CFG_USER_BASE + 65536)) [] [].
Proof.
  split; try (intros ? * Hc; by apply not_elem_of_nil in Hc); try done; try by constructor.
  by repeat constructor.
Qed.

Lemma malloc_correct_witness :
  let s := demo_heap demo_text 0 CFG_USER_BASE (CFG_USER_BASE + 65536) in
  heap_inv s [] [] /\ oom_ok s /\ 1 <= 20 <= 2 ^ 30 /\
  uwp (malloc 20) (fun p s' => exists bs' fl',
    heap_inv s' bs' fl' /\ allocated [] bs' [] fl' 20 p /\
    (forall c z x, (c, z) ∈ ([] : list (Z * Z)) -> c + sizeof_block <= x < c + sizeof_block + z -> um s' x = um s x)) s.
Proof.
  assert (oom_ok (demo_heap demo_text 0 CFG_USER_BASE (CFG_USER_BASE + 65536))) as Ho
    by by apply demo_oom_ok.
  split; [apply demo_heap_inv|]. split; [exact Ho|]. split; [lia|].
  apply malloc_correct; [apply demo_heap_inv|exact Ho|lia].
Defined.

Lemma free_correct_witness :
  let s := carved (demo_heap demo_text 0 CFG_USER_BASE (CFG_USER_BASE + 65536)) 16 in
  heap_inv s [(CFG_USER_BASE, 16)] [] /\ (CFG_USER_BASE, 16) ∈ [(CFG_USER_BASE, 16)] /\
  exists s', free (CFG_USER_BASE + sizeof_block) s = Ret tt s' /\
    heap_inv s' [(CFG_USER_BASE, 16)] (if decide (CFG_USER_BASE ∈ []) then [] else [CFG_USER_BASE]) /\
    same_but_headers [(CFG_USER_BASE, 16)] (um s) (um s') /\ (CFG_USER_BASE ∈ [] -> s' = s).
Proof.
  assert (heap_inv (carved (demo_heap demo_text 0 CFG_USER_BASE (CFG_USER_BASE + 65536)) 16)
            [(CFG_USER_BASE, 16)] []) as H.
  { apply (carved_inv (demo_heap demo_text 0 CFG_USER_BASE (CFG_USER_BASE + 65536)) [] [] 16);
      [apply demo_heap_inv|done|lia|by vm_compute]. }
  split; [exact H|]. split; [left|]. apply (free_correct _ _ _ CFG_USER_BASE 16 H). left.
Defined.
