(* ===== verification/LibStreamSpec.v ===== *)
(** * LibStreamSpec: a buffered output stream is a file one appends to

    The bytes a stream has accepted are those the kernel took, followed by those in
    its buffer ([stream_view]).  [fwrite], [fputc] and [fflush] keep this reading:
    buffering is invisible, except that a failing [write] drops the buffer and sets
    the error flag.  What the kernel promises is the class [FdOs]. *)

From S2P Require Import Prelude Config Kernel Klog RawMem UserMem LibString LibSys LibStdio LibStringSpec.

(** [write] takes some of the bytes, in order, or fails and takes none. *)
Class FdOs `{Guest} := {
  os_written : os_state -> Z -> list Z;
  os_write : forall fd a n m o, 0 < n -> exists r o',
    os_call CFG_SYS_WRITE fd a n m o = Some (r, m, o') /\
    ((r <= 0 /\ os_written o' fd = os_written o fd) \/
     (0 < r <= n /\ os_written o' fd = os_written o fd ++ slice m a (Z.to_nat r)));
}.

(** A [FILE] with a write buffer of [cap] bytes at [data], [len] of them in use. *)
Record file_at (m : Z -> Z) (f fd data cap len : Z) : Prop := {
  fa_fd : pread32 m (f_fd f) = fd;
  fa_buffered : has (pread32 m (f_flags f)) FILE_BUFW = true;
  fa_plain : has (pread32 m (f_flags f)) FILE_MEMSTREAM = false;
  fa_data : pread32 m (f_mem_data f) = data;
  fa_cap : pread32 m (f_mem_capacity f) = cap;
  fa_len : pread32 m (f_mem_length f) = len;
  fa_range : 0 <= len <= cap /\ 0 < cap < 2 ^ 31;
  fa_apart : f + sizeof_FILE <= data \/ data + cap <= f;
}.

(** Memory that is neither the [FILE] nor its buffer. *)
Definition away (f data cap a : Z) : Prop :=
  (a < f \/ f + sizeof_FILE <= a) /\ (a < data \/ data + cap <= a).

Definition same_away (f data cap : Z) (m m' : Z -> Z) : Prop :=
  forall a, away f data cap a -> m' a = m a.

Ltac file_word := unfold f_fd, f_flags, f_error, f_eof, f_mem_buffer, f_mem_size, f_mem_data, f_mem_capacity,
  f_mem_length, f_mem_position, sizeof_FILE in *.

Lemma file_at_ext m m' f fd data cap len :
  file_at m f fd data cap len -> (forall a, f <= a < f + sizeof_FILE -> m' a = m a) ->
  file_at m' f fd data cap len.
Proof.
  intros [] H. assert (forall o, 0 <= o <= 36 -> pread32 m' (f + o) = pread32 m (f + o)) as Hw.
  { intros o Ho. apply pread32_ext. intros k Hk. apply H. unfold sizeof_FILE. lia. }
  pose proof (Hw 0 ltac:(lia)) as H0. rewrite Z.add_0_r in H0.
  split; try done; file_word; rewrite ?Hw by lia; rewrite ?H0; done.
Qed.

Lemma file_at_word m f fd data cap len o v :
  file_at m f fd data cap len -> o = 8 \/ o = 12 -> file_at (pwrite32 m (f + o) v) f fd data cap len.
Proof.
  intros [] Ho. split; try done; file_word; rewrite pread32_pwrite32_other by lia; done.
Qed.

Lemma file_at_length m f fd data cap len len' :
  file_at m f fd data cap len -> 0 <= len' <= cap ->
  file_at (pwrite32 m (f_mem_length f) len') f fd data cap len'.
Proof.
  intros [] Hl. split; try done; try lia; file_word;
    try (rewrite pread32_pwrite32_other by lia; done).
  rewrite pread32_pwrite32_same. apply i32_id. unfold is_i32. lia.
Qed.

Lemma same_away_word m f data cap o v :
  0 <= o <= 36 -> same_away f data cap m (pwrite32 m (f + o) v).
Proof. intros Ho a [Ha _]. apply pwrite32_other. unfold sizeof_FILE in Ha. lia. Qed.

Lemma same_away_trans f data cap m1 m2 m3 :
  same_away f data cap m1 m2 -> same_away f data cap m2 m3 -> same_away f data cap m1 m3.
Proof. intros H1 H2 a Ha. rewrite (H2 a Ha). by apply H1. Qed.

Lemma slice_away m m' f data cap a n :
  same_away f data cap m m' ->
  a + n <= f \/ f + sizeof_FILE <= a -> a + n <= data \/ data + cap <= a ->
  forall i k, 0 <= i -> i + Z.of_nat k <= n -> slice m' (a + i) k = slice m (a + i) k.
Proof.
  intros H H1 H2 i k Hi Hk. apply slice_ext. intros j Hj. apply H. split; lia.
Qed.

Lemma byte_memory_word m a v : byte_memory m -> byte_memory (pwrite32 m a v).
Proof.
  intros H b. unfold pwrite32. destruct (decide (a <= b < a + 4)) as [Hb|Hb].
  - destruct (lookup_lt_is_Some_2 (le_bytes32 v) (Z.to_nat (b - a))) as [x Hx]; [simpl; lia|].
    replace b with (a + Z.of_nat (Z.to_nat (b - a))) by lia. rewrite (blit_in _ _ _ _ _ Hx).
    apply (Forall_lookup_1 _ _ _ _ (le_bytes32_bytes v) Hx).
  - rewrite blit_out by (simpl; lia). apply H.
Qed.

(** The buffer is not touched by words of the [FILE]. *)
Lemma slice_word m f data cap o v k :
  f + sizeof_FILE <= data \/ data + cap <= f -> 0 <= o <= 36 -> Z.of_nat k <= cap ->
  slice (pwrite32 m (f + o) v) data k = slice m data k.
Proof.
  intros Ha Ho Hk. apply slice_ext. intros j Hj. apply pwrite32_other. unfold sizeof_FILE in Ha. lia.
Qed.

Section stream.
Context {G : Guest} {HF : FdOs} (f fd data cap : Z).
Implicit Types s : ustate.

(** What the stream has accepted. *)
Definition stream_view (s : ustate) : list Z :=
  let len := pread32 (um s) (f_mem_length f) in
  os_written (os s) fd ++ slice (um s) data (Z.to_nat len).

Definition stream_error (s : ustate) : Prop := pread32 (um s) (f_error f) = 1.

Lemma stream_is_run s len flag b :
  file_at (um s) f fd data cap len -> has (pread32 (um s) (f_flags f)) flag = b -> stream_is f flag s = Ret b s.
Proof. intros _ <-. done. Qed.

(** A [write] of [n] bytes at [a]. *)
Lemma write_run s a n (Q : Z -> ustate -> Prop) :
  0 < n ->
  (forall s' r, um s' = um s -> os_written (os s') fd = os_written (os s) fd -> r <= 0 -> Q r s') ->
  (forall s' r, um s' = um s -> 0 < r <= n ->
     os_written (os s') fd = os_written (os s) fd ++ slice (um s) a (Z.to_nat r) -> Q r s') ->
  uwp (write fd a n) Q s.
Proof.
  intros Hn H1 H2. destruct (os_write fd a n (um s) (os s) Hn) as (r & o & E & Hr).
  unfold write, sys. apply uwp_bind. eapply uwp_run; [unfold __syscall; by rewrite E|].
  unfold ret_errno. destruct (Z.ltb_spec r 0); uwp_auto.
  - destruct Hr as [[_ Hr]|[? _]]; [|lia]. by apply H1.
  - destruct Hr as [[H0 Hr]|[H0 Hr]]; [by apply H1|by apply H2].
Qed.

Lemma stream_error_word s m : um s = pwrite32 m (f_error f) 1 -> stream_error s.
Proof. intros E. unfold stream_error. rewrite E. apply pread32_pwrite32_same. Qed.

(** Draining: everything goes to the kernel, or the buffer is dropped. *)
Lemma fflush_wbuf_run s len :
  file_at (um s) f fd data cap len ->
  uwp (fflush_wbuf f) (fun r s' =>
    file_at (um s') f fd data cap 0 /\ same_away f data cap (um s) (um s') /\
    (byte_memory (um s) -> byte_memory (um s')) /\ (stream_error s -> stream_error s') /\
    ((r = 0 /\ stream_view s' = stream_view s) \/ (r = -1 /\ stream_error s'))) s.
Proof.
  intros H. unfold fflush_wbuf. apply uwp_bind.
  eapply uwp_run; [eapply stream_is_run; [exact H|apply (fa_buffered _ _ _ _ _ _ H)]|].
  apply uwp_bind, uwp_get. rewrite (fa_len _ _ _ _ _ _ H). cbn [negb orb].
  pose proof (fa_range _ _ _ _ _ _ H) as [Hl Hc].
  destruct (Z.eqb_spec len 0) as [->|Hlen]; uwp_auto.
  { do 4 (split; [done|]). by left. }
  apply (uwp_while (fun done s' => 0 <= done <= len /\ um s' = um s /\
           os_written (os s') fd = os_written (os s) fd ++ slice (um s) data (Z.to_nat done))
         (fun done => len - done)); [|lia|].
  { split; [lia|]. split; [done|]. by rewrite app_nil_r. }
  intros done s1 (Hd & Em & Ew). split; [lia|]. uwp_auto. rewrite Em, (fa_len _ _ _ _ _ _ H).
  destruct (Z.ltb_spec done len); uwp_auto.
  - rewrite Em, (fa_fd _ _ _ _ _ _ H), (fa_data _ _ _ _ _ _ H). apply write_run; [lia| |].
    + intros s2 r Em2 Ew2 Hr. rewrite (proj2 (Z.leb_le r 0)) by done. uwp_auto.
      rsimpl. rewrite Em2, Em.
      split; [apply file_at_length with len; [apply file_at_word; [done|by left]|lia]|].
      assert (stream_error (s2 <| um ::= fun m => pwrite32 m (f_error f) 1 |> <| um ::= fun m => pwrite32 m (f_mem_length f) 0 |>)).
      { unfold stream_error. rsimpl. file_word. rewrite pread32_pwrite32_other by lia. apply pread32_pwrite32_same. }
      split; [eapply same_away_trans; apply same_away_word; lia|].
      split; [intros; by repeat apply byte_memory_word|]. split; [done|]. by right.
    + intros s2 r Em2 Hr Ew2. rewrite (proj2 (Z.leb_gt r 0)) by lia. uwp_auto.
      rewrite i32_id by (unfold is_i32; lia). split; [|lia]. split; [lia|]. split; [by rewrite Em2|].
      rewrite Ew2, Ew, <- app_assoc. f_equal. rewrite Z2Nat.inj_add, slice_app, Z2Nat.id by lia. by rewrite Em.
  - rsimpl. rewrite Em. split; [apply file_at_length with len; [done|lia]|].
    split; [apply same_away_word; lia|]. split; [intros; by apply byte_memory_word|].
    split. { unfold stream_error. rsimpl. rewrite Em. file_word. by rewrite pread32_pwrite32_other by lia. }
    left. split; [done|].
    unfold stream_view. rsimpl. rewrite (fa_len _ _ _ _ _ _ H), pread32_pwrite32_same.
    replace done with len in Ew by lia. cbn. by rewrite app_nil_r.
Qed.
(** The caller's bytes are elsewhere. *)
Definition source_ok (bytes total : Z) : Prop :=
  0 <= total < 2 ^ 31 /\ (bytes + total <= f \/ f + sizeof_FILE <= bytes) /\
  (bytes + total <= data \/ data + cap <= bytes).

Lemma source_slice m m' bytes total :
  source_ok bytes total -> same_away f data cap m m' ->
  forall i k, 0 <= i -> i + Z.of_nat k <= total -> slice m' (bytes + i) k = slice m (bytes + i) k.
Proof. intros (_ & H1 & H2) H. by apply slice_away with f data cap. Qed.

(** What holds between two rounds: [done] bytes of [bytes] were accepted. *)
Definition accepted (s0 : ustate) (bytes total done : Z) (s : ustate) : Prop :=
  0 <= done <= total /\ byte_memory (um s) /\ same_away f data cap (um s0) (um s) /\
  (exists len, file_at (um s) f fd data cap len) /\
  stream_view s = stream_view s0 ++ slice (um s0) bytes (Z.to_nat done).

(** How a call ends: all bytes accepted, or the error flag set. *)
Definition write_end (s0 : ustate) (bytes total done : Z) (s : ustate) : Prop :=
  (exists len, file_at (um s) f fd data cap len) /\ same_away f data cap (um s0) (um s) /\
  byte_memory (um s) /\ 0 <= done <= total /\
  ((done = total /\ stream_view s = stream_view s0 ++ slice (um s0) bytes (Z.to_nat total)) \/
   (done < total /\ stream_error s)).

Lemma accepted_more s0 bytes total done n s s' :
  source_ok bytes total -> accepted s0 bytes total done s -> 0 < n -> done + n <= total ->
  byte_memory (um s') -> same_away f data cap (um s) (um s') -> (exists len, file_at (um s') f fd data cap len) ->
  stream_view s' = stream_view s ++ slice (um s) (bytes + done) (Z.to_nat n) ->
  accepted s0 bytes total (done + n) s'.
Proof.
  intros Hsrc (Hd & _ & Ha & _ & Hv) Hn Hle Hb Ha' Hf Hv'. split; [lia|]. split; [done|].
  split; [by eapply same_away_trans|]. split; [done|].
  rewrite Hv', Hv, <- app_assoc. f_equal. rewrite Z2Nat.inj_add, slice_app, Z2Nat.id by lia. f_equal.
  apply (source_slice _ _ _ _ Hsrc Ha); lia.
Qed.

(** A round that passes the bytes straight to the kernel, the buffer being empty. *)
Lemma fwrite_direct_run s0 bytes total done s :
  source_ok bytes total -> accepted s0 bytes total done s -> done < total -> file_at (um s) f fd data cap 0 ->
  uwp (fwrite_direct f bytes total done) (fun r s' =>
    match r with
    | inl d => done < d /\ accepted s0 bytes total d s'
    | inr d => write_end s0 bytes total d s'
    end) s.
Proof.
  intros Hsrc Hacc Hlt Hf. pose proof Hacc as (Hd & Hb & Ha & _ & Hv). pose proof Hsrc as (Ht & _).
  unfold fwrite_direct. rewrite (proj2 (Z.ltb_lt _ _)) by done. uwp_auto.
  rewrite (fa_fd _ _ _ _ _ _ Hf). apply write_run; [lia| |].
  - intros s1 r Em Ew Hr. rewrite (proj2 (Z.leb_le r 0)) by done. uwp_auto.
    split; [exists 0; rsimpl; rewrite Em; apply file_at_word; [done|by left]|]. rsimpl. rewrite Em.
    split; [eapply same_away_trans; [exact Ha|apply same_away_word; lia]|].
    split; [by apply byte_memory_word|]. split; [lia|].
    right. split; [lia|]. by eapply stream_error_word.
  - intros s1 r Em Hr Ew. rewrite (proj2 (Z.leb_gt r 0)) by lia. uwp_auto.
    rewrite i32_id by (unfold is_i32; lia). split; [lia|].
    eapply accepted_more; [exact Hsrc|exact Hacc|lia|lia|by rewrite Em|by rewrite Em|exists 0; by rewrite Em|].
    unfold stream_view. rewrite Em, Ew, (fa_len _ _ _ _ _ _ Hf). cbn. by rewrite !app_nil_r.
Qed.

(** A round that fills the buffer. *)
Lemma fwrite_fill_run s0 bytes total done s len n :
  source_ok bytes total -> accepted s0 bytes total done s -> file_at (um s) f fd data cap len ->
  0 < n -> n <= cap - len -> n <= total - done ->
  uwp (data' ← ldw (f_mem_data f) ; memcpy (data' + len) (bytes + done) n ;;
       stw (f_mem_length f) (len + n) ;; mret (inl (done + n) : Z + Z))
    (fun r s' => match r with
                 | inl d => done < d /\ accepted s0 bytes total d s'
                 | inr d => write_end s0 bytes total d s'
                 end) s.
Proof.
  intros Hsrc Hacc Hf Hn Hn1 Hn2. pose proof Hacc as (Hd & Hb & Ha & _ & Hv). pose proof Hsrc as (Ht & Hs1 & Hs2).
  pose proof (fa_range _ _ _ _ _ _ Hf) as [Hl Hc]. pose proof (fa_apart _ _ _ _ _ _ Hf) as Hap.
  uwp_auto. rewrite (fa_data _ _ _ _ _ _ Hf).
  eapply uwp_run; [apply memcpy_run; [done|lia|lia]|]. uwp_auto. split; [lia|].
  set (m1 := copy_range (um s) (data + len) (bytes + done) n).
  assert (Hf1 : file_at m1 f fd data cap len).
  { eapply file_at_ext; [exact Hf|]. intros a Hfa. apply copy_range_out. lia. }
  eapply accepted_more; [exact Hsrc|exact Hacc|lia|lia|..]; rsimpl; fold m1.
  - by apply byte_memory_word, copy_range_bytes.
  - eapply same_away_trans; [|apply same_away_word; lia]. intros a [_ Hda]. apply copy_range_out. lia.
  - exists (len + n). apply file_at_length with len; [done|lia].
  - unfold stream_view. rsimpl. fold m1. rewrite pread32_pwrite32_same, i32_id by (unfold is_i32; lia).
    rewrite (fa_len _ _ _ _ _ _ Hf), <- app_assoc. f_equal.
    rewrite (slice_word _ f data cap 32) by (done || lia).
    rewrite Z2Nat.inj_add, slice_app, Z2Nat.id by lia. f_equal; apply slice_ext; intros k Hk; unfold m1.
    + apply copy_range_out. lia.
    + rewrite copy_range_in by lia. f_equal. lia.
Qed.

Lemma fwrite_buffered_run s0 bytes total done s :
  source_ok bytes total -> accepted s0 bytes total done s ->
  uwp (fwrite_buffered f bytes total done) (fun r s' =>
    match r with
    | inl d => done < d /\ accepted s0 bytes total d s'
    | inr d => write_end s0 bytes total d s'
    end) s.
Proof.
  intros Hsrc Hacc. pose proof Hacc as (Hd & Hb & Ha & [len Hf] & Hv). unfold fwrite_buffered.
  destruct (Z.ltb_spec done total) as [Hlt|Hge]; uwp_auto.
  2: { split; [by exists len|]. split; [done|]. split; [done|]. split; [done|]. left.
       replace total with done by lia. done. }
  rewrite (fa_len _ _ _ _ _ _ Hf), (fa_cap _ _ _ _ _ _ Hf).
  pose proof (fa_range _ _ _ _ _ _ Hf) as [Hl Hc].
  assert (Hrest : forall s1 len1, accepted s0 bytes total done s1 -> file_at (um s1) f fd data cap len1 -> len1 < cap ->
    uwp (length ← ldw (f_mem_length f) ;
         if (length =? 0) && (total - done >=? cap) then fwrite_direct f bytes total done else
         let n := if cap - length >? total - done then total - done else cap - length in
         data ← ldw (f_mem_data f) ; memcpy (data + length) (bytes + done) n ;;
         stw (f_mem_length f) (length + n) ;; mret (inl (done + n)))
      (fun r s' => match r with
                   | inl d => done < d /\ accepted s0 bytes total d s'
                   | inr d => write_end s0 bytes total d s'
                   end) s1).
  { intros s1 len1 Hacc1 Hf1 Hlc. apply uwp_bind, uwp_get. rewrite (fa_len _ _ _ _ _ _ Hf1).
    destruct ((len1 =? 0) && (cap <=? total - done)) eqn:E.
    - bool_hyps. subst len1. by apply fwrite_direct_run.
    - set (n := if total - done <? cap - len1 then total - done else cap - len1).
      apply (fwrite_fill_run s0 bytes total done s1 len1 n); try done; unfold n; destruct (Z.ltb_spec (total - done) (cap - len1)); lia. }
  destruct (Z.eqb_spec len cap) as [->|Hne].
  - apply uwp_bind. eapply uwp_mono; [by apply (fflush_wbuf_run s cap)|].
    intros r s1 (Hf1 & Ha1 & Hb1 & _ & Hr). uwp_auto. destruct Hr as [[-> Hv1]|[-> He]].
    + change (0 <? 0) with false. cbv iota. apply (Hrest s1 0); [|done|lia].
      split; [done|]. split; [by apply Hb1|]. split; [by eapply same_away_trans|]. split; [by exists 0|].
      by rewrite Hv1.
    + change (-1 <? 0) with true. cbv iota. uwp_auto. split; [by exists 0|].
      split; [by eapply same_away_trans|]. split; [by apply Hb1|]. split; [done|]. right. split; [lia|done].
  - uwp_auto. apply (Hrest s len); [done|done|lia].
Qed.

(** The whole call: [count] items, or fewer and the error flag. *)
Lemma fwrite_run s bytes size count len :
  file_at (um s) f fd data cap len -> byte_memory (um s) -> 0 < size -> 0 < count ->
  source_ok bytes (size * count) ->
  uwp (fwrite bytes size count f) (fun r s' => exists done,
    r = Z.quot done size /\ write_end s bytes (size * count) done s') s.
Proof.
  intros Hf Hb Hs Hc Hsrc. pose proof Hsrc as (Ht & _). unfold fwrite.
  rewrite (proj2 (Z.leb_gt size 0)), (proj2 (Z.leb_gt count 0)) by lia. cbn [orb].
  rewrite i32_id by (unfold is_i32; lia). apply uwp_bind.
  eapply uwp_run; [eapply stream_is_run; [exact Hf|apply (fa_plain _ _ _ _ _ _ Hf)]|]. cbv iota.
  apply uwp_bind. eapply uwp_run; [eapply stream_is_run; [exact Hf|apply (fa_buffered _ _ _ _ _ _ Hf)]|]. cbv iota.
  apply uwp_bind.
  apply (uwp_while (fun done s' => accepted s bytes (size * count) done s') (fun done => size * count - done)).
  - split; [lia|]. split; [done|]. split; [done|]. split; [by exists len|]. by rewrite app_nil_r.
  - lia.
  - intros done s' Hacc. split; [destruct Hacc; lia|].
    eapply uwp_mono; [by apply fwrite_buffered_run|]. intros [d|d] s2 H2.
    + destruct H2. split; [done|lia].
    + uwp_auto. by exists d.
Qed.
(** C34: writing to a buffered stream and flushing it is appending to the file: either
    the kernel has got what the stream had accepted before followed by exactly the
    bytes of the call, in order, or the error flag of the stream is set. *)
Theorem fwrite_fflush_appends s bytes size count len :
  file_at (um s) f fd data cap len -> byte_memory (um s) -> f <> 0 -> 0 < size -> 0 < count ->
  source_ok bytes (size * count) ->
  uwp (r ← fwrite bytes size count f ; e ← fflush f ; mret (r, e)) (fun '(r, e) s' =>
    file_at (um s') f fd data cap 0 /\ same_away f data cap (um s) (um s') /\
    ((r = count /\ e = 0 /\
      os_written (os s') fd = stream_view s ++ slice (um s) bytes (Z.to_nat (size * count))) \/
     stream_error s')) s.
Proof.
  intros Hf Hb Hf0 Hs Hc Hsrc. apply uwp_bind. eapply uwp_mono; [by apply fwrite_run with len|].
  intros r s1 (d & -> & (len1 & Hf1) & Ha1 & Hb1 & Hd & Hend).
  unfold fflush, memstream_publish. rewrite (proj2 (Z.eqb_neq f 0)) by done. do 3 apply uwp_bind.
  eapply uwp_run; [eapply stream_is_run; [exact Hf1|apply (fa_plain _ _ _ _ _ _ Hf1)]|].
  change (negb false) with true. cbv iota. uwp_auto.
  eapply uwp_mono; [by apply fflush_wbuf_run with len1|].
  intros e s2 (Hf2 & Ha2 & _ & Hkeep & Hr). uwp_auto. split; [done|].
  split; [by eapply same_away_trans|]. destruct Hend as [[-> Hv]|[_ He]]; [|right; by apply Hkeep].
  destruct Hr as [[-> Hv2]|[_ He]]; [left|by right].
  split; [rewrite Z.mul_comm; apply Z.quot_mul; lia|]. split; [done|].
  rewrite <- Hv, <- Hv2. unfold stream_view. rewrite (fa_len _ _ _ _ _ _ Hf2). cbn. by rewrite app_nil_r.
Qed.
End stream.

(** A system that keeps what is written, by descriptor. *)
Definition demo_fd_guest : Guest := {|
  os_state := Z -> list Z;
  os_call n a b c m o :=
    if n =? CFG_SYS_WRITE then Some (c, m, upd o a (o a ++ slice m b (Z.to_nat c))) else None;
  addr_of _ := 0;
  literal _ := 0 |}.

#[export] Instance demo_fd_os : @FdOs demo_fd_guest.
Proof.
  refine {| os_written := fun o : @os_state demo_fd_guest => o |}.
  intros fd a n m o Hn. do 2 eexists. split; [reflexivity|]. right. split; [lia|]. by rewrite upd_same.
Defined.

(** A stream at 1000 on descriptor 1 with an 8-byte buffer at 2000 that holds "ab". *)
Definition demo_stream : @ustate demo_fd_guest :=
  @Build_ustate demo_fd_guest
    (blit (pwrite32 (pwrite32 (pwrite32 (pwrite32 (pwrite32 (fun _ => 0) 1000 1) 1004 (FILE_WRITE + FILE_BUFW))
       1024 2000) 1028 8) 1032 2) 2000 (str "ab"))
    (fun _ => []) 0 (fun _ => 0) 0 0 0 0 0 0 0.

Lemma demo_stream_file : file_at (um demo_stream) 1000 1 2000 8 2.
Proof. split; try (by vm_compute). unfold sizeof_FILE. lia. Qed.

Lemma demo_stream_bytes : byte_memory (um demo_stream).
Proof.
  assert (forall l m a, byte_memory m -> Forall is_byte l -> byte_memory (blit m a l)) as Hblit.
  { intros l. induction l as [|x l IH]; intros m a Hm Hl; [done|]. inversion Hl; subst. apply IH; [|done].
    intros b. unfold upd. by destruct (a =? b). }
  apply Hblit; [|by repeat constructor]. repeat apply byte_memory_word. intros a. cbv. by split.
Qed.

Lemma fwrite_fflush_appends_witness :
  file_at (um demo_stream) 1000 1 2000 8 2 /\ byte_memory (um demo_stream) /\ source_ok 1000 2000 8 3000 (1 * 20) /\
  uwp (r ← fwrite 3000 1 20 1000 ; e ← fflush 1000 ; mret (r, e)) (fun '(r, e) s' =>
    file_at (um s') 1000 1 2000 8 0 /\ same_away 1000 2000 8 (um demo_stream) (um s') /\
    ((r = 20 /\ e = 0 /\
      os_written (os s') 1 = stream_view 1000 1 2000 demo_stream ++ slice (um demo_stream) 3000 (Z.to_nat (1 * 20))) \/
     stream_error 1000 s')) demo_stream.
Proof.
  assert (source_ok 1000 2000 8 3000 (1 * 20)) as Hs by (split; [lia|split; right; vm_compute; done]).
  split; [exact demo_stream_file|]. split; [exact demo_stream_bytes|]. split; [exact Hs|].
  apply (fwrite_fflush_appends 1000 1 2000 8 demo_stream 3000 1 20 2 demo_stream_file demo_stream_bytes);
    [done|lia|lia|exact Hs].
Defined.
