(* ===== verification/LibNumberSpec.v ===== *)
(** * LibNumberSpec: numbers in text

    The digits that the formatting functions produce denote the number, in every
    base, and [strtoul] and [strtol] read back what was written. *)

From S2P Require Import Prelude Config Kernel Klog RawMem UserMem LibString LibSys LibStdio LibFormat LibStringSpec.

(** ** Digits *)

(** The number a list of digits denotes, most significant first. *)
Definition number_of (base : Z) (l : list Z) : Z :=
  fold_left (fun v c => v * base + digit_value c) l 0.

Definition is_digit_of (base c : Z) : Prop := 0 < c < 128 /\ 0 <= digit_value c < base.

Lemma digit_value_char d upper :
  0 <= d < 36 -> digit_value (digit_char d upper) = d /\ 48 <= digit_char d upper < 128.
Proof.
  intros Hd. unfold digit_char, digit_value, isdigit, islower, isupper.
  destruct (Z.ltb_spec d 10); [|destruct (upper =? 0); cbn [negb]];
    repeat match goal with |- context [(?a <=? ?b) && (?c <=? ?e)] =>
      destruct (Z.leb_spec a b), (Z.leb_spec c e); cbn [andb] end; lia.
Qed.

Lemma number_of_snoc base l c : number_of base (l ++ [c]) = number_of base l * base + digit_value c.
Proof. unfold number_of. by rewrite fold_left_app. Qed.

Lemma digits_of_number fuel v base upper :
  2 <= base <= 36 -> 0 <= v < base ^ Z.of_nat fuel ->
  number_of base (rev (digits_of fuel v base upper)) = v.
Proof.
  intros Hb. revert v. induction fuel as [|f IH]; intros v Hv.
  - change (Z.of_nat 0) with 0 in Hv. cbn. unfold number_of. cbn. lia.
  - cbn [digits_of]. destruct (Z.eqb_spec v 0) as [->|H0]; [done|].
    cbn [rev]. rewrite Nat2Z.inj_succ, Z.pow_succ_r in Hv by lia.
    pose proof (Z.mod_pos_bound v base). pose proof (Z.div_mod v base).
    rewrite number_of_snoc, IH.
    + destruct (digit_value_char (v mod base) upper) as [-> _]; lia.
    + split; [apply Z.div_pos; lia|]. apply Z.div_lt_upper_bound; lia.
Qed.

Lemma digits_of_digits fuel v base upper :
  2 <= base <= 36 -> 0 <= v -> Forall (is_digit_of base) (digits_of fuel v base upper).
Proof.
  intros Hb. revert v. induction fuel as [|f IH]; intros v Hv; cbn [digits_of]; [constructor|].
  case_match; constructor; [|apply IH, Z.div_pos; lia].
  pose proof (Z.mod_pos_bound v base). unfold is_digit_of.
  destruct (digit_value_char (v mod base) upper); lia.
Qed.

Lemma digits_of_length fuel v base upper : (length (digits_of fuel v base upper) <= fuel)%nat.
Proof.
  revert v. induction fuel as [|f IH]; intros v; cbn [digits_of]; [done|].
  case_match; simpl; [lia|]. specialize (IH (v / base)). lia.
Qed.

Lemma number_of_bounds base l :
  1 <= base -> Forall (is_digit_of base) l -> 0 <= number_of base l < base ^ Z.of_nat (length l).
Proof.
  intros Hb. induction l as [|c l IH] using rev_ind; intros Hl; [by cbn|].
  apply Forall_app in Hl as [Hl Hc]. inversion Hc as [|? ? [_ Hd] _]; subst.
  rewrite number_of_snoc, length_app, Nat2Z.inj_add, Z.pow_add_r by lia. specialize (IH Hl).
  change (Z.of_nat (length [c])) with 1. rewrite Z.pow_1_r. nia.
Qed.

(** A prefix denotes no more than the whole. *)
Lemma number_of_take base l k :
  1 <= base -> Forall (is_digit_of base) l -> number_of base (take k l) <= number_of base l.
Proof.
  intros Hb. revert k. induction l as [|c l IH] using rev_ind; intros k Hl; [by rewrite take_nil|].
  destruct (decide (length l < k)%nat) as [H|H].
  - by rewrite take_ge by (rewrite length_app; simpl; lia).
  - apply Forall_app in Hl as [Hl Hc]. inversion Hc as [|? ? [_ Hd] _]; subst.
    rewrite take_app_le, number_of_snoc by lia. specialize (IH k Hl).
    pose proof (number_of_bounds base l Hb Hl). nia.
Qed.

(** ** The texts of numbers *)

Section texts.
Context (width : nat) (base : Z) (Hbase : 2 <= base <= 36) (Hwidth : (0 < width)%nat).

Lemma uint_text_digits v upper : 0 <= v -> Forall (is_digit_of base) (uint_text width v base upper).
Proof using Hbase Hwidth.
  intros Hv. unfold uint_text. destruct (v =? 0).
  - repeat constructor; lia || (cbn; lia).
  - apply Forall_rev, digits_of_digits; lia.
Qed.

Lemma uint_text_length v upper : (length (uint_text width v base upper) <= width)%nat.
Proof using Hbase Hwidth.
  unfold uint_text. destruct (v =? 0); [simpl; lia|]. rewrite length_rev. apply digits_of_length.
Qed.

Lemma uint_text_number v upper :
  0 <= v < 2 ^ Z.of_nat width -> number_of base (uint_text width v base upper) = v.
Proof using Hbase Hwidth.
  intros Hv. unfold uint_text. destruct (Z.eqb_spec v 0) as [->|]; [done|].
  apply digits_of_number; [done|].
  pose proof (Z.pow_le_mono_l 2 base (Z.of_nat width)). lia.
Qed.

Lemma uint_text_nonempty v upper : uint_text width v base upper <> [].
Proof using Hbase Hwidth.
  unfold uint_text. destruct (Z.eqb_spec v 0) as [|H]; [done|].
  destruct width as [|w]; [lia|]. cbn [digits_of]. apply Z.eqb_neq in H as ->. cbn [rev].
  intros E. by apply app_eq_nil in E as [_ ?].
Qed.
End texts.

(** ** Reading numbers *)

Lemma nthz_left l r i : 0 <= i < Z.of_nat (length l) -> nthz (l ++ r) i = nthz l i.
Proof. intros H. unfold nthz. rewrite (proj2 (Z.ltb_ge _ 0)) by lia. apply app_nth1. lia. Qed.

Lemma nthz_right l r i : 0 <= i -> nthz (l ++ r) (Z.of_nat (length l) + i) = nthz r i.
Proof.
  intros H. unfold nthz. rewrite !(proj2 (Z.ltb_ge _ 0)) by lia. rewrite app_nth2 by lia. f_equal. lia.
Qed.

Lemma Forall_nthz (P : Z -> Prop) l i : Forall P l -> 0 <= i < Z.of_nat (length l) -> P (nthz l i).
Proof.
  intros H Hi. destruct (lookup_lt_is_Some_2 l (Z.to_nat i)) as [x Hx]; [lia|].
  rewrite (nthz_lookup l i x) by (lia || done). by apply (Forall_lookup_1 _ _ _ _ H Hx).
Qed.

Lemma take_snoc_nthz l j :
  0 <= j < Z.of_nat (length l) -> take (Z.to_nat (j + 1)) l = take (Z.to_nat j) l ++ [nthz l j].
Proof.
  intros Hj. replace (Z.to_nat (j + 1)) with (S (Z.to_nat j)) by lia.
  destruct (lookup_lt_is_Some_2 l (Z.to_nat j)) as [x Hx]; [lia|].
  by rewrite (nthz_lookup l j x), (take_S_r _ _ x) by (done || lia).
Qed.

Lemma sext8_ascii c : 0 <= c < 128 -> sext8 c = c.
Proof. intros H. unfold sext8. by rewrite (proj2 (Z.ltb_lt _ _)) by lia. Qed.

(** The text goes on with no digit of the base. *)
Definition stops_number (base : Z) (rest : list Z) : Prop :=
  digit_value (sext8 (nthz rest 0)) < 0 \/ base <= digit_value (sext8 (nthz rest 0)).

Definition is_sign (sg : list Z) : Prop := sg = [] \/ sg = [43] \/ sg = [45].
Definition is_space (c : Z) : Prop := 0 < c < 128 /\ isspace c = true.

(** Digits are neither white space nor signs. *)
Lemma digit_plain base c : is_digit_of base c -> isspace c = false /\ c <> 43 /\ c <> 45.
Proof.
  intros [Hc Hd]. unfold digit_value, isdigit, islower, isupper in Hd. unfold isspace.
  repeat match type of Hd with context [(?a <=? ?b) && (?c <=? ?e)] =>
    destruct (Z.leb_spec a b), (Z.leb_spec c e); cbn [andb] in Hd end; try lia;
  (split; [|lia]); repeat rewrite (proj2 (Z.eqb_neq _ _)) by lia; done.
Qed.

Section strtoul_spec.
Context {G : Guest} (s : ustate) (p base : Z) (sp sg ds rest : list Z).
Let l := sp ++ sg ++ ds ++ rest.
Context (Hl : cstr (um s) p l) (Hbase : 2 <= base <= 36).
Context (Hsp : Forall is_space sp) (Hsg : is_sign sg) (Hds : Forall (is_digit_of base) ds).
Context (Hne : ds <> []) (Hrest : stops_number base rest).
Context (Hhex : base = 16 -> nthz rest 0 <> 120 /\ nthz rest 0 <> 88).

Lemma text_at i : 0 <= i <= Z.of_nat (length l) -> um s (p + i) = nthz l i.
Proof using All. by apply cstr_at. Qed.

Lemma text_length : Z.of_nat (length l) =
  Z.of_nat (length sp) + Z.of_nat (length sg) + Z.of_nat (length ds) + Z.of_nat (length rest).
Proof using All. unfold l. rewrite !length_app. lia. Qed.

Lemma text_sp i : 0 <= i < Z.of_nat (length sp) -> um s (p + i) = nthz sp i.
Proof using All. intros Hi. pose proof text_length. rewrite text_at by lia. by apply nthz_left. Qed.

Lemma text_sg i : 0 <= i < Z.of_nat (length sg) -> um s (p + (Z.of_nat (length sp) + i)) = nthz sg i.
Proof using All.
  intros Hi. pose proof text_length. rewrite text_at by lia. unfold l. rewrite nthz_right by lia.
  by apply nthz_left.
Qed.

Let at_digits := Z.of_nat (length sp) + Z.of_nat (length sg).

Lemma text_ds i : 0 <= i < Z.of_nat (length ds) -> um s (p + (at_digits + i)) = nthz ds i.
Proof using All.
  intros Hi. pose proof text_length. rewrite text_at by lia. unfold l, at_digits.
  rewrite <- Z.add_assoc, !nthz_right by lia. by apply nthz_left.
Qed.

Lemma text_rest : um s (p + (at_digits + Z.of_nat (length ds))) = nthz rest 0.
Proof using All.
  pose proof text_length. rewrite text_at by lia. unfold l, at_digits.
  rewrite <- (Z.add_0_r (Z.of_nat (length ds))), <- Z.add_assoc, !nthz_right by lia. done.
Qed.

Lemma ds_length : 0 < Z.of_nat (length ds).
Proof using All. destruct ds; [done|]. simpl. lia. Qed.

Lemma first_digit : is_digit_of base (um s (p + at_digits)).
Proof using All.
  pose proof ds_length. rewrite <- (Z.add_0_r at_digits), text_ds by lia.
  apply (Forall_nthz _ _ _ Hds). lia.
Qed.

Lemma skip_spaces_run : skip_spaces p s = Ret (Z.of_nat (length sp)) s.
Proof using All.
  pose proof text_length. pose proof ds_length. apply uwp_pure.
  apply (uwp_while (fun i s' => s' = s /\ 0 <= i <= Z.of_nat (length sp)) (fun i => Z.of_nat (length sp) - i)).
  { split; [done|lia]. } { destruct Hl as (_ & _ & ?). lia. }
  intros i ? (-> & Hi). split; [lia|]. uwp_auto.
  destruct (Z.eq_dec i (Z.of_nat (length sp))) as [->|].
  - assert (isspace (sext8 (um s (p + Z.of_nat (length sp)))) = false) as ->; [|done].
    destruct Hsg as [Hs|Hs].
    + pose proof first_digit as Hd. unfold at_digits in Hd. rewrite Hs, Z.add_0_r in Hd.
      rewrite sext8_ascii by (destruct Hd; lia). by apply (digit_plain base).
    + rewrite <- (Z.add_0_r (Z.of_nat (length sp))), text_sg by (destruct Hs as [-> | ->]; simpl; lia).
      destruct Hs as [-> | ->]; done.
  - rewrite text_sp by lia. destruct (Forall_nthz _ _ i Hsp ltac:(lia)) as [Hc Hs].
    rewrite sext8_ascii, Hs by lia. repeat split; lia.
Qed.

Lemma number_base_run : number_base p at_digits base s = Ret (base, at_digits) s.
Proof using All.
  pose proof ds_length. apply uwp_pure. unfold number_base. uwp_auto.
  rewrite (proj2 (Z.eqb_neq base 0)) by lia. cbn [orb andb].
  destruct (Z.eqb_spec base 16) as [E|]; [|done]. cbn [andb].
  assert (is_digit_of 16 (um s (p + at_digits + 1)) \/
          (um s (p + at_digits + 1) <> 120 /\ um s (p + at_digits + 1) <> 88)) as Hc1.
  { rewrite <- Z.add_assoc. destruct (Z.eq_dec (Z.of_nat (length ds)) 1) as [E1|].
    - right. pose proof text_rest as Hr. rewrite E1 in Hr. rewrite Hr. by apply Hhex.
    - left. rewrite text_ds by lia. rewrite <- E. apply (Forall_nthz _ _ _ Hds). lia. }
  assert (is_byte (um s (p + at_digits + 1))) as Hb.
  { pose proof text_length. unfold at_digits in *.
    rewrite <- Z.add_assoc, text_at by lia. apply (cstr_is_byte (um s) p); [done|lia]. }
  set (c1 := um s (p + at_digits + 1)) in *. clearbody c1. unfold is_byte in Hb.
  assert ((sext8 c1 =? 120) || (sext8 c1 =? 88) = false) as ->; [|by rewrite andb_false_r].
  apply orb_false_iff. rewrite !Z.eqb_neq. destruct Hc1 as [[Hc Hd]|Hc].
  - rewrite sext8_ascii by lia. split; intros Hx; rewrite Hx in Hd; destruct Hd as [_ Hd]; by vm_compute in Hd.
  - unfold sext8. case_match; lia.
Qed.

(** Reading a number: white space, a sign, digits, and whatever follows. *)
Lemma strtoul_run e :
  number_of base ds < 2 ^ 32 ->
  strtoul p e base s =
  Ret (if decide (sg = [45]) then u32 (0 - number_of base ds) else number_of base ds)
      (if e =? 0 then s
       else s <| um := pwrite32 (um s) e (p + (at_digits + Z.of_nat (length ds))) |>).
Proof using All.
  intros Hv. pose proof text_length. pose proof ds_length.
  match goal with |- ?m s = Ret ?r ?s2 => assert (uwp m (fun r' s' => r' = r /\ s' = s2) s) as Hw end.
  2: { apply uwp_elim in Hw as (r' & s' & E & -> & ->). done. }
  unfold strtoul. rewrite (proj2 (Z.eqb_neq base 0)), (proj2 (Z.ltb_ge base 2)), (proj2 (Z.ltb_ge 36 base)) by lia.
  cbn [negb andb orb]. apply uwp_bind. eapply uwp_run; [apply skip_spaces_run|].
  apply uwp_bind, uwp_get.
  assert (forall c, c = sext8 (um s (p + Z.of_nat (length sp))) ->
    (if c =? 43 then (1, Z.of_nat (length sp) + 1) else if c =? 45 then (-1, Z.of_nat (length sp) + 1)
     else (1, Z.of_nat (length sp))) = (if decide (sg = [45]) then -1 else 1, at_digits)) as Hsign.
  { intros c ->. unfold at_digits. destruct Hsg as [Hs|Hs].
    - pose proof first_digit as Hd. unfold at_digits in Hd. rewrite Hs, Z.add_0_r in Hd.
      destruct (digit_plain _ _ Hd) as (_ & H1 & H2). rewrite sext8_ascii by (destruct Hd; lia).
      apply Z.eqb_neq in H1, H2. rewrite H1, H2, Hs. simpl. by rewrite Z.add_0_r.
    - rewrite <- (Z.add_0_r (Z.of_nat (length sp))), text_sg by (destruct Hs as [-> | ->]; simpl; lia).
      destruct Hs as [-> | ->]; simpl; rewrite Z.add_0_r; done. }
  rewrite (Hsign _ eq_refl). apply uwp_bind. eapply uwp_run; [apply number_base_run|].
  cbv beta iota. apply uwp_bind.
  apply (uwp_while (fun '(i, value, digits) s' => s' = s /\ 0 <= digits <= Z.of_nat (length ds) /\
           i = at_digits + digits /\ value = number_of base (take (Z.to_nat digits) ds))
         (fun '(i, value, digits) => Z.of_nat (length ds) - digits)).
  { repeat split; lia. } { destruct Hl as (_ & _ & ?). lia. }
  intros [[i value] k] ? (-> & Hk & -> & ->). split; [lia|]. uwp_auto.
  destruct (Z.eq_dec k (Z.of_nat (length ds))) as [->|Hlt].
  - rewrite text_rest.
    assert ((digit_value (sext8 (nthz rest 0)) <? 0) || (base <=? digit_value (sext8 (nthz rest 0))) = true) as ->.
    { apply orb_true_iff. rewrite Z.ltb_lt, Z.leb_le. apply Hrest. }
    cbv beta iota. rewrite (proj2 (Z.eqb_neq _ 0)) by lia. rewrite take_ge by lia.
    destruct (e =? 0); cbn [negb uwhen]; uwp_auto; destruct (decide (sg = [45])); done.
  - rewrite text_ds by lia. destruct (Forall_nthz _ _ k Hds ltac:(lia)) as [Hc Hd].
    rewrite sext8_ascii by lia.
    rewrite (proj2 (Z.ltb_ge _ 0)), (proj2 (Z.leb_gt _ _)) by lia. cbn [orb].
    pose proof (number_of_take base ds (Z.to_nat (k + 1)) ltac:(lia) Hds) as Hle.
    rewrite take_snoc_nthz, number_of_snoc in Hle by lia.
    pose proof (number_of_bounds base (take (Z.to_nat k) ds) ltac:(lia) (Forall_take _ _ _ Hds)).
    split; [|lia]. split; [done|]. split; [lia|]. split; [lia|].
    rewrite take_snoc_nthz, number_of_snoc by lia. unfold u32. apply Z.mod_small. nia.
Qed.
End strtoul_spec.

(** The decimal text of a number in a longer text. *)
Lemma int_text_parts v :
  is_i32 v -> exists sg ds, int_text v = sg ++ ds /\ (sg = [45] <-> v < 0) /\ is_sign sg /\
    Forall (is_digit_of 10) ds /\ ds <> [] /\ number_of 10 ds = Z.abs v.
Proof.
  unfold is_i32, int_text, u32. intros Hv. destruct (Z.ltb_spec v 0).
  - rewrite Z.mod_small by lia. exists [45], (uint_text 32 (0 - v) 10 0).
    repeat split; try done; [by right; right|apply uint_text_digits; lia|apply uint_text_nonempty; lia|].
    rewrite uint_text_number by lia. lia.
  - rewrite Z.mod_small by lia. exists [], (uint_text 32 v 10 0).
    repeat split; try done; [lia|by left|apply uint_text_digits; lia|apply uint_text_nonempty; lia|].
    rewrite uint_text_number by lia. lia.
Qed.

Lemma digits_of_length_le fuel v base upper k :
  2 <= base -> 0 <= v < base ^ Z.of_nat k -> (length (digits_of fuel v base upper) <= k)%nat.
Proof.
  intros Hb. revert v k. induction fuel as [|f IH]; intros v k Hv; cbn [digits_of]; [apply Nat.le_0_l|].
  destruct (Z.eqb_spec v 0); [simpl; lia|]. destruct k as [|k]; [cbn in Hv; lia|].
  cbn [length]. apply le_n_S, IH. rewrite Nat2Z.inj_succ, Z.pow_succ_r in Hv by lia.
  split; [apply Z.div_pos; lia|]. apply Z.div_lt_upper_bound; lia.
Qed.

(** A sign and ten digits at most. *)
Lemma int_text_length v : is_i32 v -> (length (int_text v) <= 11)%nat.
Proof.
  unfold is_i32. intros Hv.
  assert (forall w, 0 <= w < 2 ^ 32 -> (length (uint_text 32 w 10 0) <= 10)%nat) as H.
  { intros w Hw. unfold uint_text. case_match; [simpl; lia|]. rewrite length_rev.
    apply digits_of_length_le; [lia|]. change (Z.of_nat 10) with 10. lia. }
  unfold int_text, u32. destruct (Z.ltb_spec v 0); [cbn [length]; apply le_n_S|etrans; [|apply (le_S 10); done]]; apply H;
    apply Z.mod_pos_bound; lia.
Qed.

Lemma strtol_int_text `{G : Guest} s p e v sp rest :
  is_i32 v -> cstr (um s) p (sp ++ int_text v ++ rest) -> Forall is_space sp -> stops_number 10 rest ->
  strtol p e 10 s =
  Ret v (if e =? 0 then s
         else s <| um := pwrite32 (um s) e (p + Z.of_nat (length (sp ++ int_text v))) |>).
Proof.
  intros Hv Hl Hsp Hr. destruct (int_text_parts v Hv) as (sg & ds & E & Hs & H1 & H2 & H3 & H4).
  rewrite E in *. unfold strtol, mbind, U_bind. rewrite <- app_assoc in Hl.
  unfold is_i32 in Hv. rewrite (strtoul_run s p 10 sp sg ds rest) by (done || lia).
  rewrite !length_app, H4. unfold mret, U_ret, u32. f_equal.
  - case_decide as Hd.
    + apply Hs in Hd. rewrite (i32_mod_eq _ (0 - Z.abs v)) by (rewrite Z.mod_mod by lia; done).
      rewrite i32_id by (unfold is_i32; lia). lia.
    + assert (~ v < 0) by tauto. rewrite i32_id by (unfold is_i32; lia). lia.
  - destruct (e =? 0); [done|]. by rewrite !Nat2Z.inj_add, !Z.add_assoc.
Qed.
