(* ===== verification/LibFormatSpec.v ===== *)
(** * LibFormatSpec: formatted output against a reference renderer

    [render] says, on lists, what text a format and its arguments stand for;
    [vsnprintf] stores the part of it that fits, terminates it, and returns its full
    length. *)

From S2P Require Import Prelude Config Kernel Klog RawMem UserMem LibString LibSys LibStdio LibFormat LibStringSpec LibNumberSpec.

(** ** The reference renderer *)

Definition is_flag (c : Z) : bool := (c =? 45) || (c =? 48) || (c =? 43) || (c =? 32) || (c =? 35).

Fixpoint ref_flags (l : list Z) (left_ zero : bool) : list Z * bool * bool :=
  match l with
  | c :: l' => if is_flag c then ref_flags l' (left_ || (c =? 45)) (zero || (c =? 48)) else (l, left_, zero)
  | [] => ([], left_, zero)
  end.

Fixpoint ref_number (l : list Z) (v : Z) : list Z * Z :=
  match l with
  | c :: l' => if isdigit c then ref_number l' (i32 (v * 10 + (c - 48))) else (l, v)
  | [] => ([], v)
  end.

Definition ref_width (l : list Z) (left_ : bool) (ap : list Z) : list Z * bool * Z * list Z :=
  if nthz l 0 =? 42 then
    let '(w, ap) := va_int ap in
    if w <? 0 then (tail l, true, 0 -! w, ap) else (tail l, left_, w, ap)
  else let '(l, w) := ref_number l 0 in (l, left_, w, ap).

Definition ref_precision (l : list Z) (ap : list Z) : list Z * Z * list Z :=
  if nthz l 0 =? 46 then
    if nthz (tail l) 0 =? 42 then let '(p, ap) := va_int ap in (tail (tail l), p, ap)
    else let '(l, p) := ref_number (tail l) 0 in (l, p, ap)
  else (l, -1, ap).

Definition ref_long (l : list Z) : list Z * Z :=
  if nthz l 0 =? 108 then
    if nthz (tail l) 0 =? 108 then (tail (tail l), 2) else (tail l, 1)
  else (l, 0).

(** [body] in a field of [width] columns. *)
Definition padded (body : list Z) (width : Z) (left_ zero : bool) : list Z :=
  let pad := Z.to_nat (width -! Z.of_nat (length body)) in
  if left_ then body ++ replicate pad 32 else replicate pad (if zero then 48 else 32) ++ body.

(** *** Numbers

    The digit with the weight [base ^ k] of a number is [v / base ^ k mod base]; a number is
    written with its highest digit that is not 0 first, 0 with one digit. *)
Definition ref_digit (upper : bool) (d : Z) : Z := nthz (if upper then str "0123456789ABCDEF" else str "0123456789abcdef") d.
Definition ref_length (base v : Z) : Z := 1 + Z.of_nat (length (filter (fun k => base ^ k <= v) (seqZ 1 63))).
Definition ref_numeral (base : Z) (upper : bool) (v : Z) : list Z :=
  (fun k => ref_digit upper (v / base ^ k mod base)) <$> reverse (seqZ 0 (ref_length base v)).
Definition ref_signed (v : Z) : list Z := if v <? 0 then 45 :: ref_numeral 10 false (- v) else ref_numeral 10 false v.

(** The text of the conversion [spec] of a number; a [long long] is two words, the low one
    first.  Nothing is said of a number with a precision. *)
Definition ref_numbers (spec long prec : Z) (ap : list Z) : option (list Z * list Z) :=
  if 0 <=? prec then None else
  let '(lo, ap1) := va_int ap in
  let wide := (long =? 2) && negb (spec =? 112) in
  let '(hi, ap2) := if wide then va_int ap1 else (if lo <? 0 then -1 else 0, ap1) in
  let signed := lo mod 2 ^ 32 + 2 ^ 32 * hi in
  let unsigned := if wide then signed mod 2 ^ 64 else signed mod 2 ^ 32 in
  Some (if (spec =? 100) || (spec =? 105) then ref_signed signed
        else if spec =? 112 then 48 :: 120 :: ref_numeral 16 false unsigned
        else if spec =? 117 then ref_numeral 10 false unsigned
        else ref_numeral 16 (spec =? 88) unsigned, ap2).

Section render.
Context (string_at : Z -> option (list Z)) (numbers : Z -> Z -> Z -> list Z -> option (list Z * list Z)).

Definition ref_conversion (spec long width : Z) (left_ zero : bool) (prec : Z) (ap : list Z)
    : option (list Z * list Z) :=
  if spec =? 115 then
    let '(a, ap) := va_int ap in
    text ← string_at a ;
    let text := if (0 <=? prec) && (prec <? Z.of_nat (length text)) then take (Z.to_nat prec) text else text in
    Some (padded text width left_ false, ap)
  else if spec =? 99 then
    let '(c, ap) := va_int ap in Some (padded [c mod 256] width left_ false, ap)
  else if is_number_spec spec then
    '(text, ap) ← numbers spec long prec ap ;
    Some (padded text width left_ (zero && negb left_), ap)
  else Some (37 :: (if long =? 0 then [] else [108]) ++ [spec], ap).

(** The text of a format. *)
Fixpoint render (fuel : nat) (fmt ap : list Z) : option (list Z) :=
  match fuel with
  | O => None
  | S fuel =>
      match fmt with
      | [] => Some []
      | c :: l =>
          if negb (c =? 37) then cons c <$> render fuel l ap
          else if nthz l 0 =? 37 then cons 37 <$> render fuel (tail l) ap
          else
            let '(l, left_, zero) := ref_flags l false false in
            let '(l, left_, width, ap) := ref_width l left_ ap in
            let '(l, prec, ap) := ref_precision l ap in
            let '(l, long) := ref_long l in
            match l with
            | [] => Some []
            | spec :: l =>
                '(out, ap) ← ref_conversion spec long width left_ zero prec ap ;
                app out <$> render fuel l ap
            end
      end
  end.
End render.

(** *** The numbers of the code are those of the reference *)

Definition code_numbers (spec long prec : Z) (ap : list Z) : option (list Z * list Z) := Some (number_text spec long ap).

Lemma digit_char_ref d upper : 0 <= d < 16 -> digit_char d upper = ref_digit (negb (upper =? 0)) d.
Proof.
  intros H. assert (Hd : d ∈ seqZ 0 16) by (apply elem_of_seqZ; lia). revert Hd.
  assert (Hall : Forall (fun d => digit_char d 1 = ref_digit true d /\ digit_char d 0 = ref_digit false d) (seqZ 0 16)).
  { repeat (constructor; [by split|]). constructor. }
  rewrite Forall_forall in Hall. intros Hd. destruct (Hall d Hd) as [H1 H0].
  unfold digit_char in *. destruct (upper =? 0); [exact H0|exact H1].
Qed.

Lemma digits_of_positions base upper K : forall fuel v, 2 <= base -> base ^ Z.of_nat K <= v < base ^ Z.of_nat (S K) -> (K < fuel)%nat ->
  digits_of fuel v base upper = (fun k => digit_char (v / base ^ k mod base) upper) <$> seqZ 0 (Z.of_nat (S K)).
Proof.
  induction K as [|K IH]; intros [|fuel] v Hb Hv Hf; try lia; cbn [digits_of].
  - change (Z.of_nat 0) with 0 in Hv. change (Z.of_nat 1) with 1 in *. rewrite Z.pow_0_r, Z.pow_1_r in Hv.
    destruct (Z.eqb_spec v 0); [lia|]. cbn [seqZ]. rewrite Z.div_small by lia.
    change (seqZ 0 1) with [0]. cbn [fmap list_fmap]. rewrite Z.pow_0_r, Z.div_1_r. by destruct fuel.
  - rewrite !(Nat2Z.inj_succ (S K)), Z.pow_succ_r in Hv by lia. rewrite (Nat2Z.inj_succ K), Z.pow_succ_r in Hv by lia.
    pose proof (Z.pow_pos_nonneg base (Z.of_nat K) ltac:(lia) ltac:(lia)).
    destruct (Z.eqb_spec v 0); [nia|].
    rewrite (IH fuel (v / base)); [|lia| |lia].
    + rewrite (seqZ_cons 0 (Z.of_nat (S (S K)))) by lia. cbn [fmap list_fmap]. rewrite Z.pow_0_r, Z.div_1_r. f_equal.
      change (Z.succ 0) with (1 + 0). rewrite <- (fmap_add_seqZ 1 0), <- list_fmap_compose.
      replace (Z.pred (Z.of_nat (S (S K)))) with (Z.of_nat (S K)) by lia.
      apply list_fmap_ext. intros i k Hk. apply lookup_seqZ in Hk as [-> Hk]. unfold compose. change (0 + Z.of_nat i) with (Z.of_nat i). rewrite (Z.pow_add_r base 1), Z.pow_1_r, Z.div_div by lia. done.
    + rewrite (Nat2Z.inj_succ K), Z.pow_succ_r by lia. split; [apply Z.div_le_lower_bound; lia|apply Z.div_lt_upper_bound; lia].
Qed.

Lemma digits_count base v n : 2 <= base -> 0 < v < base ^ Z.of_nat n -> exists K, (K < n)%nat /\ base ^ Z.of_nat K <= v < base ^ Z.of_nat (S K).
Proof.
  intros Hb. induction n as [|n IH]; intros Hv; [change (Z.of_nat 0) with 0 in Hv; rewrite Z.pow_0_r in Hv; lia|].
  destruct (Z.ltb_spec v (base ^ Z.of_nat n)) as [H|H]; [|exists n; lia].
  destruct IH as (K & HK & H'); [lia|]. exists K. split; [lia|done].
Qed.

Lemma list_filter_all {A} (P : A -> Prop) `{!forall x, Decision (P x)} l : Forall P l -> filter P l = l.
Proof. induction 1 as [|x l Hx _ IH]; [done|]. rewrite filter_cons_True by done. by rewrite IH. Qed.
Lemma list_filter_none {A} (P : A -> Prop) `{!forall x, Decision (P x)} l : Forall (fun x => ~ P x) l -> filter P l = [].
Proof. induction 1 as [|x l Hx _ IH]; [done|]. by rewrite filter_cons_False. Qed.

Lemma ref_length_count base v K : 2 <= base -> base ^ Z.of_nat K <= v < base ^ Z.of_nat (S K) -> (K < 64)%nat -> ref_length base v = Z.of_nat (S K).
Proof.
  intros Hb Hv HK. unfold ref_length. replace 63 with (Z.of_nat K + (63 - Z.of_nat K)) by lia.
  rewrite seqZ_app by lia. rewrite filter_app, length_app.
  rewrite (list_filter_all _ (seqZ 1 (Z.of_nat K))); rewrite ?(list_filter_none _ (seqZ (1 + Z.of_nat K) _)).
  - rewrite length_seqZ. cbn [length]. lia.
  - apply Forall_forall. intros k Hk%elem_of_seqZ Hle. pose proof (Z.pow_le_mono_r base (Z.of_nat (S K)) k ltac:(lia) ltac:(lia)). lia.
  - apply Forall_forall. intros k Hk%elem_of_seqZ. pose proof (Z.pow_le_mono_r base k (Z.of_nat K) ltac:(lia) ltac:(lia)). lia.
Qed.

Lemma uint_text_ref width v base upper : 2 <= base <= 16 -> (0 < width <= 64)%nat -> 0 <= v < 2 ^ Z.of_nat width ->
  uint_text width v base upper = ref_numeral base (negb (upper =? 0)) v.
Proof.
  intros Hb Hw Hv. unfold uint_text, ref_numeral. destruct (Z.eqb_spec v 0) as [->|Hne].
  - assert (ref_length base 0 = 1) as ->; [|change (reverse (seqZ 0 1)) with [0]; cbn [fmap list_fmap]; by destruct (upper =? 0)].
    unfold ref_length. rewrite list_filter_none; [done|]. apply Forall_forall. intros k Hk%elem_of_seqZ Hle.
    pose proof (Z.pow_pos_nonneg base k ltac:(lia) ltac:(lia)). lia.
  - destruct (digits_count base v width) as (K & HK & HvK); [lia| |].
    { pose proof (Z.pow_le_mono_l 2 base (Z.of_nat width)). lia. }
    rewrite (digits_of_positions base upper K), (ref_length_count base v K) by lia.
    rewrite rev_alt. fold (reverse ((fun k => digit_char (v / base ^ k mod base) upper) <$> seqZ 0 (Z.of_nat (S K)))). rewrite <- fmap_reverse. apply list_fmap_ext. intros i k _. apply digit_char_ref.
    pose proof (Z.mod_pos_bound (v / base ^ k) base). lia.
Qed.

Lemma int_text_ref v : is_i32 v -> int_text v = ref_signed v.
Proof.
  unfold is_i32, int_text, ref_signed, u32. intros H. destruct (Z.ltb_spec v 0); rewrite (uint_text_ref 32) by (try lia; apply Z.mod_pos_bound; lia);
    rewrite Z.mod_small by lia; done.
Qed.
Lemma ll_text_ref v : - 2 ^ 63 <= v < 2 ^ 63 -> ll_text v = ref_signed v.
Proof.
  unfold ll_text, ref_signed. intros H. destruct (Z.ltb_spec v 0); rewrite (uint_text_ref 64) by (try lia; apply Z.mod_pos_bound; lia);
    rewrite Z.mod_small by lia; done.
Qed.

Lemma va_int_i32 ap v ap' : Forall is_i32 ap -> va_int ap = (v, ap') -> is_i32 v /\ Forall is_i32 ap'.
Proof. intros H E. destruct H; injection E as <- <-; [split; [unfold is_i32; lia|constructor]|done]. Qed.

Lemma ref_numbers_code spec long prec ap r : Forall is_i32 ap -> is_number_spec spec = true ->
  ref_numbers spec long prec ap = Some r -> number_text spec long ap = r /\ Forall is_i32 r.2.
Proof.
  intros Hap Hspec E. unfold ref_numbers in E. destruct (0 <=? prec); [done|].
  unfold number_text, va_long_long.
  destruct (va_int ap) as [lo ap1] eqn:E1. destruct (va_int_i32 _ _ _ Hap E1) as [Hlo H1].
  destruct (va_int ap1) as [hi ap2] eqn:E2. destruct (va_int_i32 _ _ _ H1 E2) as [Hhi H2].
  assert (Hs : (spec =? 100) || (spec =? 105) = true -> spec =? 112 = false) by lia.
  unfold is_i32 in Hlo, Hhi. pose proof (Z.mod_pos_bound lo (2 ^ 32) ltac:(lia)) as Hm.
  assert (Hlow : lo mod 2 ^ 32 + 2 ^ 32 * (if lo <? 0 then -1 else 0) = lo).
  { pose proof (Z.div_mod lo (2 ^ 32) ltac:(lia)). destruct (Z.ltb_spec lo 0);
      [assert (lo / 2 ^ 32 = -1) by (symmetry; apply (Z.div_unique _ _ _ (lo + 2 ^ 32)); lia)|rewrite Z.div_small in * by lia]; lia. }
  destruct ((long =? 2) && negb (spec =? 112)) eqn:Ew; injection E as <-; cbn [snd]; (split; [|done]).
  - apply andb_true_iff in Ew as [-> Ew]. apply negb_true_iff in Ew as ->.
    destruct ((spec =? 100) || (spec =? 105)); [f_equal; apply ll_text_ref; unfold ll_of, u32; lia|]. f_equal.
    assert (Hu : ull_of lo hi = (lo mod 2 ^ 32 + 2 ^ 32 * hi) mod 2 ^ 64).
    { unfold ull_of, u32. pose proof (Z.mod_pos_bound hi (2 ^ 32) ltac:(lia)). pose proof (Z.div_mod hi (2 ^ 32) ltac:(lia)).
      apply (Z.mod_unique _ _ (hi / 2 ^ 32)); lia. }
    rewrite Hu. destruct (Z.eqb_spec spec 117), (Z.eqb_spec spec 88); try lia; rewrite (uint_text_ref 64) by (try lia; apply Z.mod_pos_bound; lia); done.
  - rewrite Hlow. apply andb_false_iff in Ew.
    destruct ((spec =? 100) || (spec =? 105)) eqn:Ed.
    + destruct Ew as [->|Ew]; [|apply negb_false_iff in Ew; rewrite Hs in Ew by done; done]. f_equal. by apply int_text_ref.
    + destruct (Z.eqb_spec spec 112) as [->|Hp].
      * f_equal. change (str "0x") with [48; 120]. cbn [app]. do 2 f_equal. apply (uint_text_ref 32); try lia; apply Z.mod_pos_bound; lia.
      * destruct Ew as [->|Ew]; [|done]. f_equal.
        destruct (Z.eqb_spec spec 117), (Z.eqb_spec spec 88); try lia; rewrite (uint_text_ref 32) by (try lia; apply Z.mod_pos_bound; lia); done.
Qed.

(** What the reference renders, the renderer with the code's numbers does. *)
Lemma ref_width_i32 l left_ ap l' left' w ap' : Forall is_i32 ap -> ref_width l left_ ap = (l', left', w, ap') -> Forall is_i32 ap'.
Proof.
  unfold ref_width. intros H E. destruct (nthz l 0 =? 42).
  - destruct (va_int ap) as [v ap1] eqn:Ev. destruct (va_int_i32 _ _ _ H Ev). destruct (v <? 0); by injection E as _ _ _ <-.
  - destruct (ref_number l 0). by injection E as _ _ _ <-.
Qed.
Lemma ref_precision_i32 l ap l' p ap' : Forall is_i32 ap -> ref_precision l ap = (l', p, ap') -> Forall is_i32 ap'.
Proof.
  unfold ref_precision. intros H E. destruct (nthz l 0 =? 46); [|by injection E as _ _ <-]. destruct (nthz (tail l) 0 =? 42).
  - destruct (va_int ap) as [v ap1] eqn:Ev. destruct (va_int_i32 _ _ _ H Ev). by injection E as _ _ <-.
  - destruct (ref_number (tail l) 0). by injection E as _ _ <-.
Qed.

Lemma ref_conversion_code string_at spec long w left_ zero prec ap r : Forall is_i32 ap ->
  ref_conversion string_at ref_numbers spec long w left_ zero prec ap = Some r ->
  ref_conversion string_at code_numbers spec long w left_ zero prec ap = Some r /\ Forall is_i32 r.2.
Proof.
  unfold ref_conversion. intros H E.
  destruct (spec =? 115).
  { destruct (va_int ap) as [a ap1] eqn:Ev. destruct (va_int_i32 _ _ _ H Ev) as [_ H1]. split; [exact E|].
    destruct (string_at a); [|done]. by injection E as <-. }
  destruct (spec =? 99).
  { destruct (va_int ap) as [a ap1] eqn:Ev. destruct (va_int_i32 _ _ _ H Ev) as [_ H1]. split; [exact E|]. by injection E as <-. }
  destruct (is_number_spec spec) eqn:Hs; [|split; [exact E|by injection E as <-]].
  destruct (ref_numbers spec long prec ap) as [[t ap1]|] eqn:En; [|done].
  destruct (ref_numbers_code _ _ _ _ _ H Hs En) as [Ec H1]. unfold code_numbers. rewrite Ec. split; [exact E|].
  cbn in E. by injection E as <-.
Qed.

Lemma render_code string_at fuel : forall fmt ap text, Forall is_i32 ap ->
  render string_at ref_numbers fuel fmt ap = Some text -> render string_at code_numbers fuel fmt ap = Some text.
Proof.
  induction fuel as [|fuel IH]; intros fmt ap text H E; [done|]. cbn [render] in E |- *. destruct fmt as [|c l]; [done|].
  assert (Hmap : forall (k : list Z -> list Z) l ap, Forall is_i32 ap -> k <$> render string_at ref_numbers fuel l ap = Some text ->
    k <$> render string_at code_numbers fuel l ap = Some text).
  { intros k l0 ap0 H0 E0. destruct (render string_at ref_numbers fuel l0 ap0) as [t|] eqn:Er; [|done]. by rewrite (IH _ _ _ H0 Er). }
  destruct (negb (c =? 37)); [by apply Hmap|]. destruct (nthz l 0 =? 37); [by apply Hmap|].
  destruct (ref_flags l false false) as [[l1 left1] zero1]. destruct (ref_width l1 left1 ap) as [[[l2 left2] w2] ap2] eqn:Ew.
  pose proof (ref_width_i32 _ _ _ _ _ _ _ H Ew) as H2. destruct (ref_precision l2 ap2) as [[l3 p3] ap3] eqn:Ep.
  pose proof (ref_precision_i32 _ _ _ _ _ H2 Ep) as H3. destruct (ref_long l3) as [[|spec l4] long]; [done|].
  destruct (ref_conversion string_at ref_numbers _ _ _ _ _ _ _) as [[out ap4]|] eqn:Ec; [|done].
  destruct (ref_conversion_code _ _ _ _ _ _ _ _ _ H3 Ec) as [-> H4]. cbn [mbind option_bind] in *. by apply Hmap.
Qed.

(** ** The buffer sink *)

(** Memory after [out] went to a buffer of [n] bytes at [b], before it is terminated. *)
Definition stored (m : Z -> Z) (b n : Z) (out : list Z) : Z -> Z :=
  if negb (b =? 0) && (0 <? n) then blit m b (take (Z.to_nat (n - 1)) out) else m.

Definition buffer_sink (b n : Z) (out : list Z) : format_sink :=
  Build_format_sink 0 b n (Z.of_nat (length out)) 0.

Lemma blit_snoc m b l v : upd (blit m b l) (b + Z.of_nat (length l)) v = blit m b (l ++ [v]).
Proof.
  revert m b. induction l as [|x l IH]; intros m b; simpl.
  - by rewrite Z.add_0_r.
  - rewrite <- IH. f_equal. lia.
Qed.

Lemma stored_out m b n out a : a < b \/ b + n <= a -> stored m b n out a = m a.
Proof.
  intros H. unfold stored. destruct (negb (b =? 0)); cbn [andb]; [|done].
  destruct (Z.ltb_spec 0 n); [|done]. apply blit_out. rewrite length_take. lia.
Qed.

Lemma stored_nil m b n : stored m b n [] = m.
Proof. unfold stored. by rewrite take_nil; destruct (_ && _). Qed.

(** A string outside the buffer. *)
Definition outside (b n a : Z) (l : list Z) : Prop := a + Z.of_nat (length l) < b \/ b + n <= a.

Lemma cstr_stored m b n out a l : outside b n a l -> cstr m a l -> cstr (stored m b n out) a l.
Proof. intros Ho. apply cstr_ext. intros i Hi. apply stored_out. unfold outside in Ho. lia. Qed.

Section sink.
Context {G : Guest} (s : ustate) (b n : Z).
Let m := um s.
Definition wrote (out : list Z) : ustate := s <| um := stored m b n out |>.

Lemma um_wrote out : um (wrote out) = stored m b n out.
Proof. done. Qed.

Lemma format_putc_run out c :
  Z.of_nat (length out) < 2 ^ 31 - 1 ->
  format_putc (buffer_sink b n out) c (wrote out) =
  Ret (buffer_sink b n (out ++ [c mod 256])) (wrote (out ++ [c mod 256])).
Proof.
  intros Hlen. unfold format_putc, buffer_sink. cbn [fs_stream fs_buffer fs_size fs_count negb Z.eqb].
  rewrite !i32_id by (unfold is_i32; lia).
  assert (uwp (uwhen (negb (b =? 0) && (0 <? n) && (Z.of_nat (length out) + 1 <? n))
     (stc (b + Z.of_nat (length out)) c)) (fun _ s' => s' = wrote (out ++ [c mod 256])) (wrote out)) as Hw.
  { unfold wrote, stored. destruct (negb (b =? 0) && (0 <? n)) eqn:E; cbn [andb].
    - bool_hyps. destruct (Z.ltb_spec (Z.of_nat (length out) + 1) n); uwp_auto.
      + rewrite set_um_eta, um_set_um, set_um_um. do 2 f_equal.
        rewrite !take_ge by (rewrite ?length_app; simpl; lia). by rewrite blit_snoc.
      + by rewrite take_app_le by lia.
    - by uwp_auto. }
  apply uwp_elim in Hw as (u & s' & E & ->).
  unfold mbind, U_bind. rewrite E. unfold mret, U_ret. f_equal.
  unfold setf, set_fs_count. cbn. f_equal. rewrite length_app, i32_id by (unfold is_i32; lia). simpl. lia.
Qed.

Lemma put_all_run out cs :
  Z.of_nat (length out + length cs) < 2 ^ 31 ->
  put_all (buffer_sink b n out) cs (wrote out) =
  Ret (buffer_sink b n (out ++ ((fun c => c mod 256) <$> cs))) (wrote (out ++ ((fun c => c mod 256) <$> cs))).
Proof.
  revert out. induction cs as [|c cs IH]; intros out Hl; cbn [put_all fmap list_fmap].
  - by rewrite app_nil_r.
  - cbn [length] in Hl. unfold mbind, U_bind. rewrite format_putc_run by lia.
    rewrite IH by (rewrite length_app; simpl; lia). by rewrite <- !app_assoc.
Qed.
End sink.

(** ** The parts of a conversion *)

(** [l] is what is left of the text of length [K] at [p] from index [i] on. *)
Definition rest_at (m : Z -> Z) (p K i : Z) (l : list Z) : Prop :=
  cstr m (p + i) l /\ i + Z.of_nat (length l) = K.

Lemma cstr_first m p l : cstr m p l -> m p = nthz l 0.
Proof. intros H. rewrite <- (Z.add_0_r p). apply (cstr_at m p l 0 H). lia. Qed.

Lemma rest_byte m p K i l : rest_at m p K i l -> is_byte (nthz l 0).
Proof. intros [H _]. apply (cstr_is_byte m (p + i) l 0 H). lia. Qed.

Lemma rest_next m p K i l : rest_at m p K i l -> nthz l 0 <> 0 -> rest_at m p K (i + 1) (tail l).
Proof.
  destruct l; [done|]. intros [H Hk] _. split; [|simpl in *; lia].
  rewrite Z.add_assoc. by eapply cstr_tail.
Qed.

Lemma rest_next2 m p K i l :
  rest_at m p K i l -> nthz l 0 <> 0 -> nthz (tail l) 0 <> 0 -> rest_at m p K (i + 2) (tail (tail l)).
Proof.
  intros H H0 H1. replace (i + 2) with (i + 1 + 1) by lia. by apply rest_next; [apply rest_next|].
Qed.

Lemma sext8_eqb c k : is_byte c -> 0 <= k < 128 -> (sext8 c =? k) = (c =? k).
Proof. unfold is_byte, sext8. intros Hc Hk. case_match; lia. Qed.

Lemma sext8_isdigit c : is_byte c -> isdigit (sext8 c) = isdigit c.
Proof.
  unfold is_byte, sext8, isdigit. intros Hc. destruct (Z.ltb_spec c 128); [done|].
  destruct (Z.leb_spec 48 (c - 256)), (Z.leb_spec 48 c), (Z.leb_spec (c - 256) 57), (Z.leb_spec c 57); lia || done.
Qed.

Section conversion.
Context {G : Guest} (p K : Z).
Implicit Types (s : ustate) (l : list Z).

(** Reading a character of the format. *)
Lemma ldc_rest s i l : rest_at (um s) p K i l -> ldc (p + i) s = Ret (sext8 (nthz l 0)) s.
Proof. intros [H _]. unfold ldc, get. by rewrite (cstr_first _ _ _ H). Qed.

Lemma rest_short s i l : rest_at (um s) p K i l -> K - i < 2 ^ 31 /\ 0 <= K - i.
Proof. intros [(_ & _ & H) <-]. lia. Qed.

Lemma format_number_run s i l :
  rest_at (um s) p K i l ->
  exists i', format_number p i s = Ret (i', (ref_number l 0).2) s /\ rest_at (um s) p K i' (ref_number l 0).1.
Proof.
  intros H.
  assert (uwp (format_number p i) (fun '(i', v) s' => s' = s /\ v = (ref_number l 0).2 /\
            rest_at (um s) p K i' (ref_number l 0).1) s) as Hw.
  { apply (uwp_while (fun '(j, v) s' => s' = s /\ exists l', rest_at (um s) p K j l' /\
             ref_number l 0 = ref_number l' v) (fun '(j, _) => K - j)).
    { split; [done|]. by exists l. } { by eapply rest_short. }
    intros [j v] ? (-> & l' & Hl & E). split; [by eapply rest_short|].
    apply uwp_bind. eapply uwp_run; [by apply ldc_rest|]. uwp_auto.
    pose proof (rest_byte _ _ _ _ _ Hl) as Hb. rewrite sext8_isdigit by done.
    destruct l' as [|c l']; [by rewrite E|]. rewrite nthz_0 in *. cbn [ref_number] in E.
    destruct (isdigit c) eqn:Ed; [|by rewrite E]. unfold isdigit in Ed. bool_hyps.
    split; [|lia]. split; [done|]. exists l'. split; [by apply (rest_next _ _ _ _ _ Hl); rewrite nthz_0; lia|].
    rewrite E. by rewrite sext8_ascii, Z.add_sub_assoc by lia. }
  apply uwp_elim in Hw as ([i' v] & s' & E & -> & -> & Hl). eauto.
Qed.

Lemma format_flags_run s i l :
  rest_at (um s) p K i l ->
  let '(l', left_, zero) := ref_flags l false false in
  exists i', format_flags p i s = Ret (i', b2z left_, b2z zero) s /\ rest_at (um s) p K i' l'.
Proof.
  intros H. destruct (ref_flags l false false) as [[l' left_] zero] eqn:E0.
  assert (uwp (format_flags p i) (fun '(i', le, ze) s' => s' = s /\ le = b2z left_ /\ ze = b2z zero /\
            rest_at (um s) p K i' l') s) as Hw.
  { apply (uwp_while (fun '(j, le, ze) s' => s' = s /\ exists l1 le' ze', rest_at (um s) p K j l1 /\
             le = b2z le' /\ ze = b2z ze' /\ ref_flags l1 le' ze' = (l', left_, zero))
           (fun '(j, _, _) => K - j)).
    { split; [done|]. by exists l, false, false. } { by eapply rest_short. }
    intros [[j le] ze] ? (-> & l1 & le' & ze' & Hl & -> & -> & E). split; [by eapply rest_short|].
    apply uwp_bind. eapply uwp_run; [by apply ldc_rest|]. uwp_auto.
    pose proof (rest_byte _ _ _ _ _ Hl) as Hb. rewrite !sext8_eqb by (done || lia).
    destruct l1 as [|c l1]; [by injection E as <- <- <-|]. rewrite nthz_0 in *. cbn [ref_flags] in E.
    unfold is_flag in E. destruct ((c =? 45) || (c =? 48) || (c =? 43) || (c =? 32) || (c =? 35)) eqn:Ef;
      [|by injection E as <- <- <-].
    split; [|lia]. split; [done|]. exists l1, (le' || (c =? 45)), (ze' || (c =? 48)).
    split; [apply (rest_next _ _ _ _ _ Hl); rewrite nthz_0; intros ->; done|].
    repeat split; [..|done];
      destruct le', ze', (Z.eqb_spec c 45), (Z.eqb_spec c 48); subst; done || lia. }
  apply uwp_elim in Hw as ([[i' le] ze] & s' & E & -> & -> & -> & Hl). eauto.
Qed.

Lemma format_width_run s i l left_ ap :
  rest_at (um s) p K i l ->
  let '(l', left', width, ap') := ref_width l left_ ap in
  exists i', format_width p i (b2z left_) ap s = Ret (i', b2z left', width, ap') s /\ rest_at (um s) p K i' l'.
Proof.
  intros H. pose proof (rest_byte _ _ _ _ _ H) as Hb. unfold ref_width, format_width, mbind, U_bind.
  rewrite (ldc_rest s _ l), sext8_eqb by (done || lia).
  destruct (Z.eqb_spec (nthz l 0) 42) as [E|E].
  - destruct (va_int ap) as [w ap']. pose proof (rest_next _ _ _ _ _ H ltac:(lia)) as Ht.
    destruct (w <? 0); by exists (i + 1).
  - destruct (format_number_run s i l H) as (i' & E1 & E2).
    destruct (ref_number l 0) as [l' w]. rewrite E1. by exists i'.
Qed.

Lemma format_precision_run s i l ap :
  rest_at (um s) p K i l ->
  let '(l', prec, ap') := ref_precision l ap in
  exists i', format_precision p i ap s = Ret (i', prec, ap') s /\ rest_at (um s) p K i' l'.
Proof.
  intros H. pose proof (rest_byte _ _ _ _ _ H) as Hb. unfold ref_precision, format_precision, mbind, U_bind.
  rewrite (ldc_rest s _ l), sext8_eqb by (done || lia).
  destruct (Z.eqb_spec (nthz l 0) 46) as [E|E]; cbn [negb]; [|by exists i].
  pose proof (rest_next _ _ _ _ _ H ltac:(lia)) as Ht. pose proof (rest_byte _ _ _ _ _ Ht) as Hb'.
  rewrite <- Z.add_assoc, (ldc_rest s _ (tail l)), sext8_eqb by (done || lia).
  destruct (Z.eqb_spec (nthz (tail l) 0) 42) as [E'|E'].
  - destruct (va_int ap) as [w ap']. exists (i + 2). split; [done|]. apply rest_next2; [done|lia|lia].
  - destruct (format_number_run s (i + 1) (tail l) Ht) as (i' & E1 & E2).
    destruct (ref_number (tail l) 0) as [l' w]. rewrite E1. by exists i'.
Qed.

Lemma format_long_run s i l :
  rest_at (um s) p K i l ->
  let '(l', long) := ref_long l in
  exists i', format_long p i s = Ret (i', long) s /\ rest_at (um s) p K i' l'.
Proof.
  intros H. pose proof (rest_byte _ _ _ _ _ H) as Hb. unfold ref_long, format_long, mbind, U_bind.
  rewrite (ldc_rest s _ l), sext8_eqb by (done || lia).
  destruct (Z.eqb_spec (nthz l 0) 108) as [E|E]; cbn [negb]; [|by exists i].
  pose proof (rest_next _ _ _ _ _ H ltac:(lia)) as Ht. pose proof (rest_byte _ _ _ _ _ Ht) as Hb'.
  rewrite <- Z.add_assoc, (ldc_rest s _ (tail l)), sext8_eqb by (done || lia).
  destruct (Z.eqb_spec (nthz (tail l) 0) 108) as [E'|E']; eexists; (split; [done|]); [|done].
  apply rest_next2; [done|lia|lia].
Qed.
End conversion.

(** ** One conversion *)

Lemma padded_mod body width left_ zero :
  (fun c => c mod 256) <$> padded body width left_ zero =
  padded ((fun c => c mod 256) <$> body) width left_ zero.
Proof.
  unfold padded. rewrite length_fmap. destruct left_; rewrite fmap_app, fmap_replicate; [done|].
  by destruct zero.
Qed.

Lemma number_text_small spec long ap :
  Forall is_byte (number_text spec long ap).1 /\ (length (number_text spec long ap).1 <= 66)%nat.
Proof.
  assert (forall w v base upper, 2 <= base <= 36 -> (0 < w <= 64)%nat -> 0 <= v ->
    Forall is_byte (uint_text w v base upper) /\ (length (uint_text w v base upper) <= 64)%nat) as Hu.
  { intros w v base upper Hb Hw Hv. split.
    - eapply Forall_impl; [by apply (uint_text_digits w base Hb); [lia|]|]. intros c [Hc _]. unfold is_byte. lia.
    - pose proof (uint_text_length w base Hb ltac:(lia) v upper). lia. }
  assert (forall v, 0 <= u32 v) as Hu32 by (intros; apply Z.mod_pos_bound; lia).
  assert (forall v, 0 <= v mod 2 ^ 64) as Hu64 by (intros; apply Z.mod_pos_bound; lia).
  assert (Hi : forall v, Forall is_byte (int_text v) /\ (length (int_text v) <= 66)%nat).
  { intros v. unfold int_text. destruct (v <? 0).
    - destruct (Hu 32%nat (u32 (0 - v)) 10 0) as [H1 H2]; [lia..|done|].
      split; [constructor; [unfold is_byte; lia|done]|simpl; lia].
    - destruct (Hu 32%nat (u32 v) 10 0) as [H1 H2]; [lia..|done|]. split; [done|lia]. }
  assert (Hll : forall v, Forall is_byte (ll_text v) /\ (length (ll_text v) <= 66)%nat).
  { intros v. unfold ll_text. destruct (v <? 0).
    - destruct (Hu 64%nat ((0 - v) mod 2 ^ 64) 10 0) as [H1 H2]; [lia..|done|].
      split; [constructor; [unfold is_byte; lia|done]|simpl; lia].
    - destruct (Hu 64%nat (v mod 2 ^ 64) 10 0) as [H1 H2]; [lia..|done|]. split; [done|lia]. }
  unfold number_text, va_long_long. destruct (va_int ap) as [v ap1]. destruct (va_int ap1) as [w ap2].
  destruct ((spec =? 100) || (spec =? 105)); [destruct (long =? 2); [apply Hll|apply Hi]|].
  destruct (spec =? 112); cbn [fst].
  { destruct (Hu 32%nat (u32 v) 16 0) as [H1 H2]; [lia..|done|]. split; [|rewrite length_app; simpl; lia].
    apply Forall_app. split; [|done]. repeat constructor; done. }
  assert (Hbase : 2 <= (if spec =? 117 then 10 else 16) <= 36) by (destruct (spec =? 117); lia).
  destruct (long =? 2); cbn [fst].
  - destruct (Hu 64%nat (ull_of v w) (if spec =? 117 then 10 else 16) (if spec =? 88 then 1 else 0)); [done|lia| |split; [done|lia]].
    unfold ull_of. pose proof (Hu32 v). pose proof (Hu32 w). lia.
  - destruct (Hu 32%nat (u32 v) (if spec =? 117 then 10 else 16) (if spec =? 88 then 1 else 0)); [done|lia|done|split; [done|lia]].
Qed.

Section conversions.
Context {G : Guest} (s : ustate) (b n : Z) (string_at : Z -> option (list Z)).

(** The strings the arguments point to are in memory, outside the buffer; a null
    pointer stands for the text (null). *)
Definition strings_ok : Prop :=
  forall a l, string_at a = Some l ->
    (a = 0 -> l = str "(null)") /\
    let a := if a =? 0 then literal (str "(null)") else a in cstr (um s) a l /\ outside b n a l.

Abbreviation sink_of := (buffer_sink b n).
Abbreviation after := (wrote s b n).

Lemma format_padded_run out body width left_ zero :
  Z.of_nat (length out + length (padded body width left_ zero)) < 2 ^ 31 ->
  format_padded (sink_of out) body width (b2z left_) (b2z zero) (after out) =
  Ret (sink_of (out ++ ((fun c => c mod 256) <$> padded body width left_ zero)))
      (after (out ++ ((fun c => c mod 256) <$> padded body width left_ zero))).
Proof.
  unfold padded, format_padded, mbind, U_bind. intros Hl. destruct left_; cbn [b2z Z.eqb negb].
  - unfold mret, U_ret. rewrite length_app in Hl. rewrite put_all_run by lia.
    rewrite put_all_run by (rewrite length_app, length_fmap; lia). by rewrite fmap_app, app_assoc.
  - rewrite length_app in Hl.
    replace (if negb (b2z zero =? 0) then 48 else 32) with (if zero then 48 else 32) by by destruct zero.
    rewrite put_all_run by lia.
    rewrite put_all_run by (rewrite length_app, length_fmap; lia). by rewrite fmap_app, app_assoc.
Qed.

Lemma load_bytes_run m a l k s' :
  um s' = m -> cstr m a l -> 0 <= k <= Z.of_nat (length l) ->
  exists body, load_bytes a k s' = Ret body s' /\ (fun c => c mod 256) <$> body = take (Z.to_nat k) l /\
    length body = Z.to_nat k.
Proof.
  intros <- H Hk. eexists. split; [done|]. split.
  - rewrite <- list_fmap_compose. apply list_eq. intros j. rewrite list_lookup_fmap.
    destruct (decide (j < Z.to_nat k)%nat) as [Hj|Hj].
    + rewrite lookup_seqZ_lt, lookup_take_lt by lia. cbn [fmap option_fmap option_map]. rewrite Z.add_0_l.
      destruct (lookup_lt_is_Some_2 l j) as [x Hx]; [lia|]. rewrite Hx. unfold compose. f_equal.
      rewrite (cstr_at _ _ _ _ H), sext8_mod by (lia || (apply (cstr_is_byte _ _ _ _ H); lia)).
      apply nthz_lookup; [lia|]. by rewrite Nat2Z.id.
    + rewrite lookup_seqZ_ge by lia. by rewrite lookup_take_ge by lia.
  - rewrite length_fmap, length_seqZ. lia.
Qed.

Lemma padded_length body body' width left_ zero :
  length body = length body' -> length (padded body width left_ zero) = length (padded body' width left_ zero).
Proof.
  intros E. unfold padded. rewrite E. destruct left_; rewrite !length_app, !length_replicate, E; done.
Qed.

Lemma format_spec_run out spec long width left_ zero prec ap text ap' :
  strings_ok -> is_byte spec ->
  ref_conversion string_at code_numbers spec long width left_ zero prec ap = Some (text, ap') ->
  Z.of_nat (length out + length text) < 2 ^ 31 ->
  format_spec (sink_of out) (sext8 spec) long width (b2z left_) (b2z zero) prec ap (after out) =
  Ret (sink_of (out ++ text), ap') (after (out ++ text)).
Proof.
  intros Hstr Hb E Hl. unfold ref_conversion in E. unfold format_spec.
  rewrite !sext8_eqb by (done || lia).
  destruct (Z.eqb_spec spec 115) as [->|N1]; [|destruct (Z.eqb_spec spec 99) as [->|N2]].
  - destruct (va_int ap) as [a ap1].
    destruct (string_at a) as [l|] eqn:Ea; [|done]. cbn in E. injection E as <- <-.
    destruct (Hstr _ _ Ea) as (_ & H1 & H2).
    set (a' := if a =? 0 then _ else _) in *.
    assert (Hc : cstr (um (after out)) a' l) by (by apply cstr_stored).
    unfold mbind, U_bind. rewrite (strlen_run _ _ _ Hc).
    set (k := if (0 <=? prec) && (prec <? Z.of_nat (length l)) then prec else Z.of_nat (length l)).
    assert (Hk : 0 <= k <= Z.of_nat (length l)).
    { unfold k. destruct (Z.leb_spec 0 prec), (Z.ltb_spec prec (Z.of_nat (length l))); cbn [andb]; lia. }
    destruct (load_bytes_run _ a' l k (after out) eq_refl Hc Hk) as (body & E1 & E2 & E3). rewrite E1.
    assert (Ht : (if (0 <=? prec) && (prec <? Z.of_nat (length l)) then take (Z.to_nat prec) l else l)
                 = take (Z.to_nat k) l).
    { unfold k. destruct (_ && _); [done|]. by rewrite take_ge by lia. }
    rewrite Ht in *. change 0 with (b2z false).
    rewrite format_padded_run, padded_mod, E2; [done|].
    rewrite (padded_length body (take (Z.to_nat k) l)); [done|]. rewrite length_take. lia.
  - destruct (va_int ap) as [c ap1]. injection E as <- <-. unfold mbind, U_bind.
    change 0 with (b2z false). rewrite format_padded_run, padded_mod; [|by erewrite padded_length].
    cbn [fmap list_fmap]. by rewrite sext8_mod by (apply Z.mod_pos_bound; lia).
  - assert (is_number_spec (sext8 spec) = is_number_spec spec) as ->
      by (unfold is_number_spec; by rewrite !sext8_eqb by (done || lia)).
    destruct (is_number_spec spec) eqn:En.
    + rewrite sext8_ascii by (unfold is_number_spec in En; repeat (apply orb_true_iff in En as [En|En]); lia).
      destruct (number_text_small spec long ap) as [Hf H66].
      unfold code_numbers in E. destruct (number_text spec long ap) as [t ap1]. cbn [mbind option_bind] in E. injection E as <- <-. cbn [fst] in *.
      unfold mbind, U_bind. rewrite take_ge by lia.
      replace (if negb (b2z left_ =? 0) then 0 else b2z zero) with (b2z (zero && negb left_))
        by by destruct left_, zero.
      rewrite format_padded_run, padded_mod, bytes_mod_id by done. done.
    + injection E as <- <-. unfold mbind, U_bind. cbn [length] in Hl. rewrite length_app in Hl. cbn [length] in Hl.
      rewrite format_putc_run by lia. rewrite Z.mod_small by lia.
      destruct (Z.eqb_spec long 0); cbn [negb].
      * unfold mret, U_ret. rewrite format_putc_run by (rewrite length_app; simpl in *; lia).
        rewrite sext8_mod by done. by rewrite <- app_assoc.
      * rewrite format_putc_run by (rewrite length_app; simpl in *; lia).
        rewrite format_putc_run by (rewrite !length_app; simpl in *; lia).
        rewrite sext8_mod, Z.mod_small by (done || lia). unfold mret, U_ret. by rewrite <- !app_assoc.
Qed.
End conversions.

(** ** The whole format *)

Lemma ref_number_short l v : (length (ref_number l v).1 <= length l)%nat.
Proof. revert v. induction l as [|c l IH]; intros v; simpl; [done|]. case_match; [|done]. etrans; [apply IH|lia]. Qed.

Lemma ref_flags_short l left_ zero : (length (ref_flags l left_ zero).1.1 <= length l)%nat.
Proof.
  revert left_ zero. induction l as [|c l IH]; intros; simpl; [done|]. case_match; [|done]. etrans; [apply IH|lia].
Qed.

Lemma tail_short {A} (l : list A) : (length (tail l) <= length l)%nat.
Proof. destruct l; simpl; lia. Qed.

Lemma ref_width_short l left_ ap : (length (ref_width l left_ ap).1.1.1 <= length l)%nat.
Proof.
  unfold ref_width. pose proof (tail_short l). pose proof (ref_number_short l 0).
  repeat case_match; simplify_eq/=; lia.
Qed.

Lemma ref_precision_short l ap : (length (ref_precision l ap).1.1 <= length l)%nat.
Proof.
  unfold ref_precision. pose proof (tail_short l). pose proof (tail_short (tail l)).
  pose proof (ref_number_short (tail l) 0). repeat case_match; simplify_eq/=; lia.
Qed.

Lemma ref_long_short l : (length (ref_long l).1 <= length l)%nat.
Proof.
  unfold ref_long. pose proof (tail_short l). pose proof (tail_short (tail l)).
  repeat case_match; simplify_eq/=; lia.
Qed.

Section format.
Context {G : Guest} (s : ustate) (b n p K : Z) (string_at : Z -> option (list Z)).
Context (Hok : strings_ok s b n string_at) (Hout : p + K < b \/ b + n <= p).

Abbreviation sink_of := (buffer_sink b n).
Abbreviation after := (wrote s b n).
Abbreviation rest out := (rest_at (um (after out)) p K).

Lemma rest_after out out' i l : 0 <= i -> rest out i l -> rest out' i l.
Proof using Hout.
  intros Hi [H Hk]. split; [|done]. revert H. apply cstr_ext. intros j Hj. cbn [um].
  rewrite !um_wrote, !stored_out by lia. done.
Qed.

(** What a round of the loop leaves for the next. *)
Definition round_left (i : Z) (f : nat) (out text : list Z) (r : Z * format_sink * list Z) (s' : ustate) : Prop :=
  let '(i', sink, ap) := r in
  exists l text1 text2, text = text1 ++ text2 /\ sink = sink_of (out ++ text1) /\ s' = after (out ++ text1) /\
    i < i' /\ rest (out ++ text1) i' l /\ render string_at code_numbers f l ap = Some text2.

Lemma vformat_conversion f i l ap out text :
  0 <= i -> rest out i (37 :: l) -> nthz l 0 <> 37 ->
  render string_at code_numbers (S f) (37 :: l) ap = Some text -> Z.of_nat (length out + length text) < 2 ^ 31 ->
  uwp (vformat_step p (i, sink_of out, ap))
    (fun r s' => match r with
                 | inl a => round_left i f out text a s'
                 | inr sink => sink = sink_of (out ++ text) /\ s' = after (out ++ text)
                 end) (after out).
Proof using Hok Hout.
  intros Hi Hl Hne E Hlen. cbn [render] in E. rewrite Z.eqb_refl in E. cbn [negb] in E.
  apply Z.eqb_neq in Hne. rewrite Hne in E.
  pose proof (rest_next _ _ _ _ _ Hl ltac:(done)) as Hl1. cbn [tail] in Hl1.
  unfold vformat_step. apply uwp_bind. eapply uwp_run; [by apply (ldc_rest _ _ _ _ _ Hl)|]. rewrite nthz_0.
  change (sext8 37 =? 0) with false. change (negb (sext8 37 =? 37)) with false. cbv iota.
  apply uwp_bind. rewrite <- Z.add_assoc. eapply uwp_run; [by apply (ldc_rest _ _ _ _ _ Hl1)|].
  rewrite sext8_eqb, Hne by (lia || by apply (rest_byte _ _ _ _ _ Hl1)). cbv iota.
  pose proof (format_flags_run _ _ _ _ _ Hl1) as Hf. pose proof (ref_flags_short l false false) as Sf.
  destruct (ref_flags l false false) as [[l2 left_] zero]. destruct Hf as (i2 & Ef & Hl2).
  pose proof (format_width_run _ _ _ _ _ left_ ap Hl2) as Hw. pose proof (ref_width_short l2 left_ ap) as Sw.
  destruct (ref_width l2 left_ ap) as [[[l3 left'] width] ap3]. destruct Hw as (i3 & Ew & Hl3).
  pose proof (format_precision_run _ _ _ _ _ ap3 Hl3) as Hp. pose proof (ref_precision_short l3 ap3) as Sp.
  destruct (ref_precision l3 ap3) as [[l4 prec] ap4]. destruct Hp as (i4 & Ep & Hl4).
  pose proof (format_long_run _ _ _ _ _ Hl4) as Ho. pose proof (ref_long_short l4) as So.
  destruct (ref_long l4) as [l5 long]. destruct Ho as (i5 & Eo & Hl5). cbn [fst] in *.
  apply uwp_bind. eapply uwp_run; [exact Ef|]. cbv beta iota.
  apply uwp_bind. eapply uwp_run; [exact Ew|]. cbv beta iota.
  apply uwp_bind. eapply uwp_run; [exact Ep|]. cbv beta iota.
  apply uwp_bind. eapply uwp_run; [exact Eo|]. cbv beta iota.
  apply uwp_bind. eapply uwp_run; [by apply (ldc_rest _ _ _ _ _ Hl5)|].
  rewrite sext8_0 by by apply (rest_byte _ _ _ _ _ Hl5).
  destruct l5 as [|spec l5].
  { injection E as <-. uwp_auto. by rewrite app_nil_r. }
  rewrite nthz_0. pose proof (cstr_head _ _ _ _ (proj1 Hl5)) as [_ Hs].
  rewrite (proj2 (Z.eqb_neq spec 0)) by lia.
  destruct (ref_conversion _ _ _ _ _ _ _ _) as [[t ap6]|] eqn:Er; [|done]. cbn [mbind option_bind] in E.
  destruct (render string_at code_numbers f l5 ap6) as [t2|] eqn:E2; [|done]. injection E as <-.
  rewrite length_app in Hlen. apply uwp_bind.
  eapply uwp_run; [by apply (format_spec_run _ _ _ string_at _ _ _ _ _ _ _ _ t ap6 Hok); [unfold is_byte; lia|done|lia]|].
  cbv beta iota. uwp_auto. exists l5, t, t2.
  assert (i < i5 + 1) by (destruct Hl as [_ Hl], Hl5 as [_ Hl5]; simpl in Hl, Hl5, So; lia).
  split; [done|]. split; [done|]. split; [done|]. split; [lia|]. split; [|done]. apply (rest_after out); [lia|].
  apply (rest_next _ _ _ _ _ Hl5). rewrite nthz_0. lia.
Qed.

Lemma vformat_round f i l ap out text :
  0 <= i -> rest out i l -> render string_at code_numbers (S f) l ap = Some text ->
  Z.of_nat (length out + length text) < 2 ^ 31 ->
  uwp (vformat_step p (i, sink_of out, ap))
    (fun r s' => match r with
                 | inl a => round_left i f out text a s'
                 | inr sink => sink = sink_of (out ++ text) /\ s' = after (out ++ text)
                 end) (after out).
Proof using Hok Hout.
  intros Hi Hl E Hlen. destruct l as [|c l].
  { injection E as <-. unfold vformat_step. apply uwp_bind. eapply uwp_run; [by apply (ldc_rest _ _ _ _ _ Hl)|].
    uwp_auto. by rewrite app_nil_r. }
  pose proof (cstr_head _ _ _ _ (proj1 Hl)) as [_ Hc].
  pose proof (rest_next _ _ _ _ _ Hl ltac:(rewrite nthz_0; lia)) as Hl1. cbn [tail] in Hl1.
  destruct (Z.eq_dec c 37) as [->|Hne].
  - destruct (Z.eq_dec (nthz l 0) 37) as [E37|]; [|by eapply vformat_conversion].
    cbn [render] in E. rewrite E37 in E. cbn [Z.eqb negb] in E. change (37 =? 37) with true in E. cbv iota in E.
    destruct (render string_at code_numbers f (tail l) ap) as [t2|] eqn:E2; [|done]. injection E as <-.
    unfold vformat_step. apply uwp_bind. eapply uwp_run; [by apply (ldc_rest _ _ _ _ _ Hl)|]. rewrite nthz_0.
    change (sext8 37 =? 0) with false. change (negb (sext8 37 =? 37)) with false. cbv iota.
    apply uwp_bind. rewrite <- Z.add_assoc. eapply uwp_run; [by apply (ldc_rest _ _ _ _ _ Hl1)|]. rewrite E37.
    change (sext8 37 =? 37) with true. cbv iota. cbn [length] in Hlen.
    apply uwp_bind. eapply uwp_run; [apply format_putc_run; lia|]. uwp_auto.
    exists (tail l), [37], t2. split; [done|]. split; [done|]. split; [done|]. split; [lia|]. split; [|done]. apply (rest_after out); [lia|].
    apply (rest_next2 _ _ _ _ (37 :: l)); [done|done|]. cbn [tail]. lia.
  - cbn [render] in E. rewrite (proj2 (Z.eqb_neq c 37) Hne) in E. cbn [negb] in E.
    destruct (render string_at code_numbers f l ap) as [t2|] eqn:E2; [|done]. injection E as <-. cbn [length] in Hlen.
    unfold vformat_step. apply uwp_bind. eapply uwp_run; [by apply (ldc_rest _ _ _ _ _ Hl)|]. rewrite nthz_0.
    rewrite !sext8_eqb, (proj2 (Z.eqb_neq c 0)), (proj2 (Z.eqb_neq c 37)) by (done || lia || unfold is_byte; lia).
    cbn [negb]. apply uwp_bind. eapply uwp_run; [apply format_putc_run; lia|]. uwp_auto.
    rewrite sext8_mod by (unfold is_byte; lia).
    exists l, [c], t2. split; [done|]. split; [done|]. split; [done|]. split; [lia|]. split; [|done]. apply (rest_after out); [lia|]. done.
Qed.
(** The loop of [vformat]. *)
Lemma vformat_loop l ap text :
  rest [] 0 l -> render string_at code_numbers (S (length l)) l ap = Some text -> Z.of_nat (length text) < 2 ^ 31 ->
  uwhile (vformat_step p) (0, sink_of [], ap) (after []) = Ret (sink_of text) (after text).
Proof using Hok Hout.
  intros Hl E Hlen.
  assert (uwp (uwhile (vformat_step p) (0, sink_of [], ap))
    (fun sink s' => sink = sink_of text /\ s' = after text) (after [])) as Hw.
  2: { apply uwp_elim in Hw as (? & ? & E1 & -> & ->). done. }
  apply (uwp_while (fun '(i, sink, ap) s' => exists f l out t2, text = out ++ t2 /\ sink = sink_of out /\
           s' = after out /\ 0 <= i /\ rest out i l /\ render string_at code_numbers f l ap = Some t2)
         (fun '(i, _, _) => K - i)).
  { by exists (S (length l)), l, [], text. } { by apply (rest_short _ _ _ _ _ Hl). }
  intros [[i sink] ap'] s' (f & l' & out & t2 & -> & -> & -> & Hi & Hr & Er).
  split; [by apply (rest_short _ _ _ _ _ Hr)|]. destruct f as [|f]; [done|].
  rewrite length_app in Hlen.
  eapply uwp_mono; [by eapply (vformat_round f i l' ap' out t2); [..|lia]|].
  intros [[[i' sink'] ap'']|sink'] s'; [|done].
  intros (l1 & t3 & t4 & -> & -> & -> & H1 & H2 & H3). split; [|lia].
  exists f, l1, (out ++ t3), t4. rewrite app_assoc. split; [done|]. split; [done|].
  split; [done|]. split; [lia|]. done.
Qed.

(** Memory after the text went to the buffer and was terminated. *)
Definition terminated (m : Z -> Z) (text : list Z) : Z -> Z :=
  if negb (b =? 0) && (0 <? n) then blit m b (take (Z.to_nat (n - 1)) text ++ [0]) else m.

Lemma vformat_buffer fmt ap text :
  K = Z.of_nat (length fmt) -> cstr (um s) p fmt ->
  render string_at code_numbers (S (length fmt)) fmt ap = Some text -> Z.of_nat (length text) < 2 ^ 31 ->
  vformat (sink_of []) p ap s =
  Ret (Z.of_nat (length text)) (s <| um := terminated (um s) text |>).
Proof using Hok Hout.
  intros HK Hf E Hlen. unfold vformat, mbind, U_bind.
  assert (Es : s = after []) by (unfold wrote; by rewrite stored_nil, set_um_id).
  rewrite Es at 1. rewrite (vformat_loop fmt ap text); [|split; [rewrite um_wrote, stored_nil, Z.add_0_r; done|lia]|done..].
  cbn [fs_buffer fs_size fs_count fs_error buffer_sink]. change (negb (0 =? 0)) with false. cbv iota.
  unfold wrote, terminated, stored. destruct (negb (b =? 0) && (0 <? n)) eqn:Eb; cbn [uwhen]; [|by destruct s].
  bool_hyps. rewrite <- blit_snoc.
  assert ((if Z.of_nat (length text) <? n then b + Z.of_nat (length text) else b + n - 1) =
          b + Z.of_nat (length (take (Z.to_nat (n - 1)) text))) as Ea.
  { rewrite length_take. destruct (Z.ltb_spec (Z.of_nat (length text)) n); lia. }
  destruct (Z.of_nat (length text) <? n); unfold stc, set; rewrite set_um_eta, um_set_um, set_um_um, Ea; done.
Qed.
End format.

(** What [snprintf] leaves in memory. *)
Lemma snprintf_run `{G : Guest} s b n p fmt args string_at text :
  cstr (um s) p fmt -> outside b n p fmt -> strings_ok s b n string_at ->
  render string_at code_numbers (S (length fmt)) fmt args = Some text -> Z.of_nat (length text) < 2 ^ 31 ->
  snprintf b n p args s = Ret (Z.of_nat (length text)) (s <| um := terminated b n (um s) text |>).
Proof.
  intros Hf Ho Hok E Hl. by apply (vformat_buffer s b n p (Z.of_nat (length fmt)) string_at Hok Ho fmt).
Qed.

Lemma terminated_cstr b n m text :
  b <> 0 -> 0 < n -> Forall (fun c => 0 < c < 256) text -> Z.of_nat (length text) < 2 ^ 31 - 1 ->
  cstr (terminated b n m text) b (take (Z.to_nat (n - 1)) text).
Proof.
  intros Hb Hn Hf Hl. unfold terminated. rewrite (proj2 (Z.eqb_neq b 0)), (proj2 (Z.ltb_lt 0 n)) by done.
  cbn [negb andb]. apply cstr_blit; [by apply Forall_take|]. rewrite length_take. lia.
Qed.

Lemma terminated_out b n m text a : a < b \/ b + n <= a -> terminated b n m text a = m a.
Proof.
  intros H. unfold terminated. destruct (negb (b =? 0)); cbn [andb]; [|done].
  destruct (Z.ltb_spec 0 n); [|done]. apply blit_out. rewrite length_app, length_take. simpl. lia.
Qed.

(** C32: [snprintf] formats as the reference renderer says, on int arguments and any
    format in which no number has a precision (that the code ignores, against its comment):
    it stores the first [n - 1] bytes of the text and a NUL, touches no
    byte outside the [n] bytes of its buffer, and returns the full length.  The reference
    writes numbers by the weight of their digits, with [-] and [0] for the layout; the flags
    [+], blank and [#] change nothing. *)
Theorem snprintf_bounded `{G : Guest} s b n p fmt args string_at text :
  cstr (um s) p fmt -> outside b n p fmt -> strings_ok s b n string_at -> Forall is_i32 args ->
  render string_at ref_numbers (S (length fmt)) fmt args = Some text -> Z.of_nat (length text) < 2 ^ 31 - 1 ->
  exists m', snprintf b n p args s = Ret (Z.of_nat (length text)) (s <| um := m' |>) /\
    (forall a, a < b \/ b + n <= a -> m' a = um s a) /\
    (b = 0 \/ n <= 0 -> m' = um s) /\
    (b <> 0 -> 0 < n -> m' = blit (um s) b (take (Z.to_nat (n - 1)) text ++ [0])) /\
    (b <> 0 -> 0 < n -> Forall (fun c => 0 < c < 256) text -> cstr m' b (take (Z.to_nat (n - 1)) text)).
Proof.
  intros Hf Ho Hok Ha E Hl. apply render_code in E; [|done]. exists (terminated b n (um s) text).
  split; [by apply (snprintf_run s b n p fmt args string_at); [..|lia]|].
  split; [intros; by apply terminated_out|]. split; [|split; [|intros; by apply terminated_cstr]].
  - intros H. unfold terminated. destruct (Z.eqb_spec b 0), (Z.ltb_spec 0 n); cbn [negb andb]; lia || done.
  - intros Hb Hn. unfold terminated. destruct (Z.eqb_spec b 0), (Z.ltb_spec 0 n); cbn [negb andb]; lia || done.
Qed.

Lemma render_d sa v : render sa code_numbers 3 (str "%d") [v] = Some (padded (int_text v) 0 false false).
Proof.
  assert (app (padded (int_text v) 0 false false) <$> Some [] = Some (padded (int_text v) 0 false false)) as <-.
  { cbn. by rewrite app_nil_r. }
  reflexivity.
Qed.

(** C33: a number printed with [snprintf] and [%d] is read back by [strtol]. *)
Theorem strtol_reads_snprintf `{G : Guest} s b n p v :
  cstr (um s) p (str "%d") -> outside b n p (str "%d") -> b <> 0 -> 12 <= n -> is_i32 v ->
  exists s', snprintf b n p [v] s = Ret (Z.of_nat (length (int_text v))) s' /\ strtol b 0 10 s' = Ret v s'.
Proof.
  intros Hf Ho Hb Hn Hv.
  destruct (int_text_parts v Hv) as (sg & ds & E & _ & Hsg & Hds & _ & _).
  pose proof (int_text_length v Hv) as Hlen.
  eexists. split.
  { apply (snprintf_run s b n p (str "%d") [v] (fun _ => None)); [done|done|done| |lia].
    change (S (length (str "%d"))) with 3%nat. rewrite render_d. unfold padded.
    rewrite i32_id by (unfold is_i32; lia).
    replace (Z.to_nat _) with 0%nat by lia. done. }
  rewrite (strtol_int_text _ b 0 v [] []); [done|done| |by apply List.Forall_nil|left; by vm_compute].
  rewrite app_nil_r. cbn [app]. rewrite um_set_um.
  pose proof (terminated_cstr b n (um s) (int_text v) Hb ltac:(lia)) as Hc.
  rewrite take_ge in Hc by lia. apply Hc; [|lia].
  rewrite E. apply Forall_app. split.
  - destruct Hsg as [->|[-> | ->]]; repeat constructor; lia.
  - eapply Forall_impl; [exact Hds|]. intros c [H _]. lia.
Qed.

(** ** Witnesses *)

(** The format at 100, a string at 200, the buffer at 400. *)
Definition demo_format : list Z := str "%05d|%-4s|%x".
Definition demo_format_state : @ustate demo_guest := demo_user (demo_two demo_format (str "ab")).
Definition demo_string_at (a : Z) : option (list Z) := if a =? 200 then Some (str "ab") else None.

Lemma demo_strings_ok b : 300 <= b -> strings_ok demo_format_state b 10 demo_string_at.
Proof.
  intros Hb a l. unfold demo_string_at. destruct (Z.eqb_spec a 200) as [->|]; [|done].
  injection 1 as <-. split; [lia|]. split; [by apply demo_two_right|].
  left. change (200 + 2 < b). lia.
Qed.

Lemma snprintf_bounded_witness :
  let text := str "00042|ab  |ff" in
  cstr (um demo_format_state) 100 demo_format /\
  render demo_string_at ref_numbers (S (length demo_format)) demo_format [42; 200; 255] = Some text /\
  exists m', snprintf 400 10 100 [42; 200; 255] demo_format_state =
      Ret (Z.of_nat (length text)) (demo_format_state <| um := m' |>) /\
    (forall a, a < 400 \/ 400 + 10 <= a -> m' a = um demo_format_state a) /\
    (400 = 0 \/ 10 <= 0 -> m' = um demo_format_state) /\
    (400 <> 0 -> 0 < 10 -> m' = blit (um demo_format_state) 400 (take (Z.to_nat (10 - 1)) text ++ [0])) /\
    (400 <> 0 -> 0 < 10 -> Forall (fun c => 0 < c < 256) text -> cstr m' 400 (take (Z.to_nat (10 - 1)) text)).
Proof.
  assert (cstr (um demo_format_state) 100 demo_format) as H by by apply demo_two_left.
  assert (render demo_string_at ref_numbers (S (length demo_format)) demo_format [42; 200; 255] = Some (str "00042|ab  |ff"))
    as E by reflexivity.
  split; [exact H|]. split; [exact E|].
  apply (snprintf_bounded demo_format_state 400 10 100 demo_format [42; 200; 255] demo_string_at);
    [exact H|left; vm_compute; done|apply demo_strings_ok; lia|repeat (constructor; [unfold is_i32; lia|]); constructor|exact E|vm_compute; done].
Defined.

Lemma strtol_reads_snprintf_witness :
  let s := demo_user (demo_two (str "%d") []) in
  cstr (um s) 100 (str "%d") /\
  exists s', snprintf 400 12 100 [-2147483648] s = Ret (Z.of_nat (length (int_text (-2147483648)))) s' /\
    strtol 400 0 10 s' = Ret (-2147483648) s'.
Proof.
  assert (cstr (um (demo_user (demo_two (str "%d") []))) 100 (str "%d")) as H by by apply demo_two_left.
  split; [exact H|].
  apply (strtol_reads_snprintf _ 400 12 100 (-2147483648) H); [left; vm_compute; done|lia|lia|unfold is_i32; lia].
Defined.
