(* ===== verification/GuestAsm.v ===== *)
(** * GuestAsm: the assembler of the guest toolchain ([cc-c/guestlink.c], lines 1-635)

    Assembly text becomes an image: the bytes of the text and data sections, the
    size of bss, symbols and relocations.  A C string is the list of its bytes; the
    growing arrays are lists, their capacities are not modelled (an allocation
    failure is not checked by the code).  [die] ends the program with a message. *)

From S2P Require Import Prelude Config Kernel Klog RawMem UserMem LibString LibFormat.

(** ** Results *)

(** [Die]: "cc: " and the message on stderr, status 1; [Quit]: the text as it is on
    stderr and the status. *)
Inductive failure :=
| Die (message : list Z)
| Quit (text : list Z) (status : Z)
| OutOfBounds.

Inductive res (A : Type) := Ok (a : A) | Err (e : failure).
Arguments Ok {A} a.
Arguments Err {A} e.

#[export] Instance res_ret : MRet res := fun A a => Ok a.
#[export] Instance res_bind : MBind res := fun A B f m => match m with Ok a => f a | Err e => Err e end.

Definition die {A} (message : list Z) : res A := Err (Die message).

(** ** Data *)

Definition SEC_TEXT : Z := 1.
Definition SEC_DATA : Z := 2.
Definition SEC_BSS : Z := 3.
Definition OBJ_MAGIC : Z := 0x314f534a.

Inductive arg_kind := ARG_NONE | ARG_REG | ARG_IMM | ARG_ADDR.

Record InsnSpec := Build_InsnSpec { is_name : string; is_opcode : Z; is_argc : Z; is_a0 : arg_kind; is_a1 : arg_kind }.

Record Symbol := Build_Symbol { sym_name : list Z; sym_section : Z; sym_offset : Z; sym_global : Z }.
#[export] Instance eta_Symbol : Eta Symbol := fun r => Build_Symbol (sym_name r) (sym_section r) (sym_offset r) (sym_global r).
#[export] Instance set_sym_section : Setter sym_section := ltac:(mk_setter).
#[export] Instance set_sym_offset : Setter sym_offset := ltac:(mk_setter).
#[export] Instance set_sym_global : Setter sym_global := ltac:(mk_setter).

Record Reloc := Build_Reloc { rel_section : Z; rel_offset : Z; rel_name : list Z; rel_addend : Z }.

(** A growing array of bytes. *)
Definition Bytes : Type := list Z.

Record AsmImage := Build_AsmImage {
  img_text : Bytes; img_data : Bytes; img_bss_size : Z; img_section : Z;
  img_symbols : list Symbol; img_relocs : list Reloc }.
#[export] Instance eta_AsmImage : Eta AsmImage := fun r => Build_AsmImage (img_text r) (img_data r)
  (img_bss_size r) (img_section r) (img_symbols r) (img_relocs r).
#[export] Instance set_img_text : Setter img_text := ltac:(mk_setter).
#[export] Instance set_img_data : Setter img_data := ltac:(mk_setter).
#[export] Instance set_img_bss_size : Setter img_bss_size := ltac:(mk_setter).
#[export] Instance set_img_section : Setter img_section := ltac:(mk_setter).
#[export] Instance set_img_symbols : Setter img_symbols := ltac:(mk_setter).
#[export] Instance set_img_relocs : Setter img_relocs := ltac:(mk_setter).

(** [memset(img, 0, sizeof *img); img->section = SEC_TEXT]. *)
Definition empty_image : AsmImage := Build_AsmImage [] [] 0 SEC_TEXT [] [].

(** The instructions. *)
Definition specs : list InsnSpec :=
  [Build_InsnSpec "NOP" 0x00 0 ARG_NONE ARG_NONE;
   Build_InsnSpec "MOV" 0x01 2 ARG_REG ARG_IMM;
   Build_InsnSpec "MOVR" 0x02 2 ARG_REG ARG_REG;
   Build_InsnSpec "LOAD" 0x03 2 ARG_REG ARG_ADDR;
   Build_InsnSpec "STORE" 0x04 2 ARG_REG ARG_ADDR;
   Build_InsnSpec "LOADR" 0x05 2 ARG_REG ARG_REG;
   Build_InsnSpec "STORER" 0x06 2 ARG_REG ARG_REG;
   Build_InsnSpec "LB" 0x07 2 ARG_REG ARG_REG;
   Build_InsnSpec "SB" 0x08 2 ARG_REG ARG_REG;
   Build_InsnSpec "LBS" 0x09 2 ARG_REG ARG_REG;
   Build_InsnSpec "LH" 0x0a 2 ARG_REG ARG_REG;
   Build_InsnSpec "LHS" 0x0b 2 ARG_REG ARG_REG;
   Build_InsnSpec "SH" 0x0c 2 ARG_REG ARG_REG;
   Build_InsnSpec "ADD" 0x10 2 ARG_REG ARG_REG;
   Build_InsnSpec "SUB" 0x11 2 ARG_REG ARG_REG;
   Build_InsnSpec "MUL" 0x12 2 ARG_REG ARG_REG;
   Build_InsnSpec "DIV" 0x13 2 ARG_REG ARG_REG;
   Build_InsnSpec "MOD" 0x14 2 ARG_REG ARG_REG;
   Build_InsnSpec "AND" 0x15 2 ARG_REG ARG_REG;
   Build_InsnSpec "OR" 0x16 2 ARG_REG ARG_REG;
   Build_InsnSpec "XOR" 0x17 2 ARG_REG ARG_REG;
   Build_InsnSpec "NOT" 0x18 1 ARG_REG ARG_NONE;
   Build_InsnSpec "SHL" 0x19 2 ARG_REG ARG_REG;
   Build_InsnSpec "SHR" 0x1a 2 ARG_REG ARG_REG;
   Build_InsnSpec "INC" 0x1b 1 ARG_REG ARG_NONE;
   Build_InsnSpec "DEC" 0x1c 1 ARG_REG ARG_NONE;
   Build_InsnSpec "CMP" 0x1d 2 ARG_REG ARG_REG;
   Build_InsnSpec "IDIV" 0x1e 2 ARG_REG ARG_REG;
   Build_InsnSpec "IMOD" 0x1f 2 ARG_REG ARG_REG;
   Build_InsnSpec "JMP" 0x20 1 ARG_ADDR ARG_NONE;
   Build_InsnSpec "JZ" 0x21 1 ARG_ADDR ARG_NONE;
   Build_InsnSpec "JNZ" 0x22 1 ARG_ADDR ARG_NONE;
   Build_InsnSpec "JG" 0x23 1 ARG_ADDR ARG_NONE;
   Build_InsnSpec "JGE" 0x24 1 ARG_ADDR ARG_NONE;
   Build_InsnSpec "JL" 0x25 1 ARG_ADDR ARG_NONE;
   Build_InsnSpec "JLE" 0x26 1 ARG_ADDR ARG_NONE;
   Build_InsnSpec "CALL" 0x27 1 ARG_ADDR ARG_NONE;
   Build_InsnSpec "RET" 0x28 0 ARG_NONE ARG_NONE;
   Build_InsnSpec "CALLR" 0x29 1 ARG_REG ARG_NONE;
   Build_InsnSpec "JA" 0x2a 1 ARG_ADDR ARG_NONE;
   Build_InsnSpec "JAE" 0x2b 1 ARG_ADDR ARG_NONE;
   Build_InsnSpec "JB" 0x2c 1 ARG_ADDR ARG_NONE;
   Build_InsnSpec "JBE" 0x2d 1 ARG_ADDR ARG_NONE;
   Build_InsnSpec "SAR" 0x2e 2 ARG_REG ARG_REG;
   Build_InsnSpec "PUSH" 0x30 1 ARG_REG ARG_NONE;
   Build_InsnSpec "POP" 0x31 1 ARG_REG ARG_NONE;
   Build_InsnSpec "INT" 0x40 1 ARG_IMM ARG_NONE;
   Build_InsnSpec "EI" 0x41 0 ARG_NONE ARG_NONE;
   Build_InsnSpec "DI" 0x42 0 ARG_NONE ARG_NONE;
   Build_InsnSpec "IN" 0x43 2 ARG_REG ARG_REG;
   Build_InsnSpec "OUT" 0x44 2 ARG_REG ARG_REG;
   Build_InsnSpec "IRET" 0x45 0 ARG_NONE ARG_NONE;
   Build_InsnSpec "LIDT" 0x46 1 ARG_REG ARG_NONE;
   Build_InsnSpec "LKSP" 0x47 1 ARG_REG ARG_NONE;
   Build_InsnSpec "RDPFLA" 0x48 1 ARG_REG ARG_NONE;
   Build_InsnSpec "RDERR" 0x49 1 ARG_REG ARG_NONE;
   Build_InsnSpec "STMR" 0x4a 1 ARG_REG ARG_NONE;
   Build_InsnSpec "LPTBR" 0x4b 1 ARG_REG ARG_NONE;
   Build_InsnSpec "PGON" 0x4c 0 ARG_NONE ARG_NONE;
   Build_InsnSpec "PGOFF" 0x4d 0 ARG_NONE ARG_NONE;
   Build_InsnSpec "HLT" 0xff 0 ARG_NONE ARG_NONE].

(** ** Emitting *)

Definition bytes_push (b : Bytes) (value : Z) : Bytes := b ++ [Z.land value 255].
Definition bytes_zero (b : Bytes) (count : Z) : Bytes := b ++ replicate (Z.to_nat count) 0.

Definition current_offset (img : AsmImage) : Z :=
  if img_section img =? SEC_TEXT then Z.of_nat (length (img_text img))
  else if img_section img =? SEC_DATA then Z.of_nat (length (img_data img))
  else img_bss_size img.

Definition emit_byte (img : AsmImage) (value : Z) : res AsmImage :=
  if img_section img =? SEC_BSS then die (str "cannot emit bytes in .bss")
  else Ok (if img_section img =? SEC_TEXT then img <| img_text ::= fun b => bytes_push b value |>
           else img <| img_data ::= fun b => bytes_push b value |>).

Definition emit_word_raw (img : AsmImage) (value : Z) : res AsmImage :=
  img ← emit_byte img value ;
  img ← emit_byte img (Z.shiftr value 8) ;
  img ← emit_byte img (Z.shiftr value 16) ;
  emit_byte img (Z.shiftr value 24).

Definition reserve_bytes (img : AsmImage) (count : Z) : res AsmImage :=
  if count <? 0 then die (str "negative .space")
  else Ok (if img_section img =? SEC_BSS then img <| img_bss_size ::= fun n => n +! count |>
           else if img_section img =? SEC_TEXT then img <| img_text ::= fun b => bytes_zero b count |>
           else img <| img_data ::= fun b => bytes_zero b count |>).

(** ** Text *)

Definition is_ws (c : Z) : bool := (c =? 32) || (c =? 9) || (c =? 13) || (c =? 10).

Definition skip_ws (s : list Z) : list Z := (span is_ws s).2.
Definition rtrim (s : list Z) : list Z := rev (skip_ws (rev s)).

Definition name_start (c : Z) : bool := isupper c || islower c || (c =? 95) || (c =? 46).
Definition name_char (c : Z) : bool := name_start c || isdigit c.

(** The first character, 0 at the end. *)
Definition hd0 (s : list Z) : Z := nthz s 0.

(** A quote toggles [in_str] unless a backslash stands before it. *)
Definition toggles (c prev : Z) : bool := (c =? 34) && negb (prev =? 92).

Fixpoint strip_comment_from (in_str : bool) (prev : Z) (line : list Z) : list Z :=
  match line with
  | [] => []
  | c :: l =>
      let in_str := if toggles c prev then negb in_str else in_str in
      if negb in_str && ((c =? 59) || (c =? 35)) then [] else c :: strip_comment_from in_str c l
  end.
Definition strip_comment (line : list Z) : list Z := strip_comment_from false 0 line.

(** ** Symbols and relocations *)

Definition find_symbol (img : AsmImage) (name : list Z) : Z :=
  or_neg1 (find_from (fun i => match img_symbols img !! Z.to_nat i with
                               | Some sym => bool_decide (sym_name sym = name)
                               | None => false
                               end) 0 (length (img_symbols img))).

(** The image with the symbol, and its index. *)
Definition ensure_symbol (img : AsmImage) (name : list Z) : AsmImage * nat :=
  let i := find_symbol img name in
  if i >=? 0 then (img, Z.to_nat i)
  else (img <| img_symbols ::= fun l => l ++ [Build_Symbol name 0 0 0] |>, length (img_symbols img)).

(** The symbol at an index that is in the array. *)
Definition symbol_at (img : AsmImage) (i : nat) : Symbol := nth i (img_symbols img) (Build_Symbol [] 0 0 0).

Definition define_symbol (img : AsmImage) (name : list Z) : res AsmImage :=
  let '(img, i) := ensure_symbol img name in
  if negb (sym_section (symbol_at img i) =? 0) then die (str "duplicate label: " ++ name) else
  Ok (img <| img_symbols ::= alter (fun sym => sym <| sym_section := img_section img |>
                                                   <| sym_offset := current_offset img |>) i |>).

Definition mark_global (img : AsmImage) (name : list Z) : AsmImage :=
  let '(img, i) := ensure_symbol img name in
  img <| img_symbols ::= alter (fun sym => sym <| sym_global := 1 |>) i |>.

Definition add_reloc (img : AsmImage) (section offset : Z) (name : list Z) (addend : Z) : AsmImage :=
  (ensure_symbol (img <| img_relocs ::= fun l => l ++ [Build_Reloc section offset name addend] |>) name).1.

(** ** Numbers, registers and symbol references *)

(** [strtoul(text, &end, 0)] of libc on a string: the value, and the text from [end] on. *)
Definition strtoul0 (text : list Z) : Z * list Z :=
  let s := (span isspace text).2 in
  let '(negative, s) := if hd0 s =? 43 then (false, tail s)
                        else if hd0 s =? 45 then (true, tail s) else (false, s) in
  let '(base, s) := if (hd0 s =? 48) && ((nthz s 1 =? 120) || (nthz s 1 =? 88)) &&
                       (0 <=? digit_value (nthz s 2)) && (digit_value (nthz s 2) <? 16) then (16, drop 2 s)
                    else if hd0 s =? 48 then (8, s) else (10, s) in
  let '(digits, rest) := span (fun c => (0 <=? digit_value c) && (digit_value c <? base)) s in
  let value := fold_left (fun v c => u32 (v * base + digit_value c)) digits 0 in
  if bool_decide (digits = []) then (0, text)
  else (if negative : bool then u32 (0 - value) else value, rest).

Definition parse_uint (s : list Z) : option Z :=
  let s := skip_ws s in
  if bool_decide (s = []) then None else
  let '(value, rest) := strtoul0 s in
  if bool_decide (skip_ws rest = []) then Some value else None.

Definition parse_reg (s : list Z) : res Z :=
  let s := skip_ws s in
  if (negb (hd0 s =? 82) && negb (hd0 s =? 114)) || (nthz s 1 <? 48) || (nthz s 1 >? 55)
  then die (str "bad register: " ++ s)
  else if negb (bool_decide (skip_ws (drop 2 s) = [])) then die (str "bad register: " ++ s)
  else Ok (nthz s 1 - 48).

Definition parse_symbol_ref (s : list Z) : res (list Z * Z) :=
  let s := skip_ws s in
  if negb (name_start (hd0 s)) then die (str "bad symbol reference: " ++ s) else
  let '(name, p) := span name_char s in
  let p := skip_ws p in
  if (hd0 p =? 43) || (hd0 p =? 45) then
    let sign := if hd0 p =? 45 then -1 else 1 in
    match parse_uint (skip_ws (tail p)) with
    | None => die (str "bad symbol addend: " ++ s)
    | Some n => Ok (name, sign *! i32 n)
    end
  else if bool_decide (p = []) then Ok (name, 0)
  else die (str "bad symbol reference: " ++ s).

(** A constant, or a reference that the linker fills in. *)
Definition emit_value (img : AsmImage) (operand : list Z) : res AsmImage :=
  match parse_uint operand with
  | Some value => emit_word_raw img value
  | None =>
      if img_section img =? SEC_BSS then die (str "relocation in .bss") else
      '(name, addend) ← parse_symbol_ref operand ;
      emit_word_raw (add_reloc img (img_section img) (current_offset img) name addend) 0
  end.

(** ** Lines *)

(** The fields between commas outside of strings. *)
Fixpoint split_fields (in_str : bool) (prev : Z) (s : list Z) : list (list Z) :=
  match s with
  | [] => [[]]
  | c :: l =>
      let in_str := if toggles c prev then negb in_str else in_str in
      if (c =? 44) && negb in_str then [] :: split_fields in_str c l
      else match split_fields in_str c l with
           | f :: fs => (c :: f) :: fs
           | [] => [[c]]
           end
  end.

Definition split_operands (s : list Z) (max : Z) : res (list (list Z)) :=
  let out := (fun f => rtrim (skip_ws f)) <$> split_fields false 0 s in
  if Z.of_nat (length out) >? max then die (str "too many operands")
  else Ok (if bool_decide (out = [[]]) then [] else out).

Definition find_spec (name : list Z) : option InsnSpec := List.find (fun i => bool_decide (str (is_name i) = name)) specs.

Definition uppercase (s : list Z) : list Z := (fun c => if islower c then c - 32 else c) <$> s.

Definition parse_global (img : AsmImage) (rest : list Z) : res AsmImage :=
  ops ← split_operands rest 64 ;
  Ok (fold_left mark_global ops img).

(** The loop over operands. *)
Fixpoint each {A} (f : AsmImage -> A -> res AsmImage) (img : AsmImage) (ops : list A) : res AsmImage :=
  match ops with
  | [] => Ok img
  | o :: ops' => img ← f img o ; each f img ops'
  end.

Definition parse_byte_directive (img : AsmImage) (rest : list Z) : res AsmImage :=
  ops ← split_operands rest 128 ;
  each (fun img o => match parse_uint o with
                     | None => die (str ".byte requires a constant: " ++ o)
                     | Some value => emit_byte img value
                     end) img ops.

Definition parse_word_directive (img : AsmImage) (rest : list Z) : res AsmImage :=
  ops ← split_operands rest 64 ;
  each emit_value img ops.

(** The labels at the start of a line; every one has at least two characters. *)
Fixpoint parse_labels (fuel : nat) (img : AsmImage) (p : list Z) : res (AsmImage * list Z) :=
  match fuel with
  | O => Ok (img, p)
  | S fuel =>
      if negb (name_start (hd0 p)) then Ok (img, p) else
      let '(name, q) := span name_char p in
      let q := skip_ws q in
      if negb (hd0 q =? 58) then Ok (img, p) else
      img ← define_symbol img name ;
      let p := skip_ws (tail q) in
      if bool_decide (p = []) then Ok (img, p) else parse_labels fuel img p
  end.

Definition emit_operand (img : AsmImage) (o : arg_kind * list Z) : res AsmImage :=
  match o.1 with
  | ARG_REG => r ← parse_reg o.2 ; emit_byte img r
  | _ => emit_value img o.2
  end.

Definition parse_instruction (img : AsmImage) (head rest : list Z) : res AsmImage :=
  if negb (img_section img =? SEC_TEXT) then die (str "instruction outside .text: " ++ head) else
  match find_spec head with
  | None => die (str "unknown instruction: " ++ head)
  | Some spec =>
      ops ← split_operands rest 4 ;
      let n := Z.of_nat (length ops) in
      if negb (n =? is_argc spec) then
        die (head ++ str " expects " ++ int_text (is_argc spec) ++ str " operand(s), got " ++ int_text n)
      else
        img ← emit_byte img (is_opcode spec) ;
        each emit_operand img (zip [is_a0 spec; is_a1 spec] ops)
  end.

Definition parse_line (img : AsmImage) (line : list Z) : res AsmImage :=
  let line := rtrim (strip_comment line) in
  let p := skip_ws line in
  if bool_decide (p = []) then Ok img else
  '(img, p) ← parse_labels (length p) img p ;
  if bool_decide (p = []) then Ok img else
  let '(head, rest) := span (fun c => negb ((c =? 32) || (c =? 9))) p in
  let rest := skip_ws rest in
  let head := uppercase head in
  let isd t := bool_decide (head = str t) in
  if isd ".TEXT" then Ok (img <| img_section := SEC_TEXT |>)
  else if isd ".DATA" then Ok (img <| img_section := SEC_DATA |>)
  else if isd ".BSS" then Ok (img <| img_section := SEC_BSS |>)
  else if isd ".GLOBAL" || isd ".GLOBL" then parse_global img rest
  else if isd ".BYTE" then parse_byte_directive img rest
  else if isd ".WORD" then parse_word_directive img rest
  else if isd ".SPACE" || isd ".ZERO" then
    match parse_uint rest with
    | None => die (head ++ str " requires a constant")
    | Some n => reserve_bytes img (i32 n)
    end
  else parse_instruction img head rest.

(** Lines end at newlines. *)
Fixpoint split_lines (s : list Z) : list (list Z) :=
  match s with
  | [] => []
  | c :: l =>
      if c =? 10 then [] :: split_lines l
      else match split_lines l with
           | f :: fs => (c :: f) :: fs
           | [] => [[c]]
           end
  end.

Definition assemble_source (img : AsmImage) (source : list Z) : res AsmImage :=
  each parse_line img (split_lines source).
