(* ===== verification/GuestLink.v ===== *)
(** * GuestLink: start-up code, object files and the linker ([cc-c/guestlink.c])

    The runtime that the linker adds to a program without [_start], the format of object
    files, and the layout and relocation of images. *)

From S2P Require Import Prelude Config Kernel Klog RawMem UserMem LibString LibStringSpec GuestAsm.

(** * The start-up code that the linker adds ([cc-c/guestlink.c], lines 124-364)

    The program calls [main], and the small runtime it is linked with when no input
    defines [_start]. *)

(** Lines of assembly text, each ended by a newline. *)
Definition asm_text (lines : list string) : list Z := mjoin ((fun l => str l ++ [10]) <$> lines).

Definition crt_start : list string :=
  [".global _start";
   ".global memcpy, memset, strlen, strcmp, __syscall";
   ".global write, read, open, close, exit";
   ".global __csp, __stack, environ";
   ".text";
   "_start:";
   "  MOV R5, __stack";
   "  STORE R5, __csp";
   "  STORE R2, environ";
   "  LOAD R5, __csp";
   "  STORER R5, R1";
   "  MOV R7, 4";
   "  ADD R5, R7";
   "  STORE R5, __csp";
   "  LOAD R5, __csp";
   "  STORER R5, R0";
   "  MOV R7, 4";
   "  ADD R5, R7";
   "  STORE R5, __csp";
   "  CALL main";
   "  LOAD R5, __csp";
   "  MOV R7, 8";
   "  SUB R5, R7";
   "  STORE R5, __csp";
   "  MOVR R1, R0";
   "  MOV R0, 0";
   "  INT 128";
   "__arg1:";
   "  MOVR R5, R6";
   "  MOV R7, 4";
   "  SUB R5, R7";
   "  LOADR R0, R5";
   "  RET";
   "__arg2:";
   "  MOVR R5, R6";
   "  MOV R7, 8";
   "  SUB R5, R7";
   "  LOADR R0, R5";
   "  RET";
   "__arg3:";
   "  MOVR R5, R6";
   "  MOV R7, 12";
   "  SUB R5, R7";
   "  LOADR R0, R5";
   "  RET";
   "__arg4:";
   "  MOVR R5, R6";
   "  MOV R7, 16";
   "  SUB R5, R7";
   "  LOADR R0, R5";
   "  RET";
   "__syscall:";
   "  PUSH R6";
   "  LOAD R6, __csp";
   "  CALL __arg1";
   "  MOVR R4, R0";
   "  CALL __arg2";
   "  MOVR R1, R0";
   "  CALL __arg3";
   "  MOVR R2, R0";
   "  CALL __arg4";
   "  MOVR R3, R0";
   "  MOVR R0, R4";
   "  INT 128";
   "  STORE R6, __csp";
   "  POP R6";
   "  RET"].

Definition crt_syscalls : list string :=
  ["write:";
   "  PUSH R6";
   "  LOAD R6, __csp";
   "  CALL __arg1";
   "  MOVR R1, R0";
   "  CALL __arg2";
   "  MOVR R2, R0";
   "  CALL __arg3";
   "  MOVR R3, R0";
   "  MOV R0, 1";
   "  INT 128";
   "  STORE R6, __csp";
   "  POP R6";
   "  RET";
   "read:";
   "  PUSH R6";
   "  LOAD R6, __csp";
   "  CALL __arg1";
   "  MOVR R1, R0";
   "  CALL __arg2";
   "  MOVR R2, R0";
   "  CALL __arg3";
   "  MOVR R3, R0";
   "  MOV R0, 9";
   "  INT 128";
   "  STORE R6, __csp";
   "  POP R6";
   "  RET";
   "open:";
   "  PUSH R6";
   "  LOAD R6, __csp";
   "  CALL __arg1";
   "  MOVR R1, R0";
   "  CALL __arg2";
   "  MOVR R2, R0";
   "  MOV R3, 0";
   "  MOV R0, 7";
   "  INT 128";
   "  STORE R6, __csp";
   "  POP R6";
   "  RET";
   "close:";
   "  PUSH R6";
   "  LOAD R6, __csp";
   "  CALL __arg1";
   "  MOVR R1, R0";
   "  MOV R0, 8";
   "  INT 128";
   "  STORE R6, __csp";
   "  POP R6";
   "  RET";
   "exit:";
   "  PUSH R6";
   "  LOAD R6, __csp";
   "  CALL __arg1";
   "  MOVR R1, R0";
   "  MOV R0, 0";
   "  INT 128";
   "  STORE R6, __csp";
   "  POP R6";
   "  RET"].

Definition crt_memory : list string :=
  ["memcpy:";
   "  PUSH R6";
   "  LOAD R6, __csp";
   "  MOVR R1, R6";
   "  MOV R7, 4";
   "  SUB R1, R7";
   "  LOADR R2, R1";
   "  MOVR R1, R6";
   "  MOV R7, 8";
   "  SUB R1, R7";
   "  LOADR R3, R1";
   "  MOVR R1, R6";
   "  MOV R7, 12";
   "  SUB R1, R7";
   "  LOADR R4, R1";
   "  MOVR R0, R2";
   "memcpy_loop:";
   "  MOV R7, 0";
   "  CMP R4, R7";
   "  JZ memcpy_done";
   "  LB R5, R3";
   "  SB R2, R5";
   "  INC R2";
   "  INC R3";
   "  DEC R4";
   "  JMP memcpy_loop";
   "memcpy_done:";
   "  STORE R6, __csp";
   "  POP R6";
   "  RET";
   "memset:";
   "  PUSH R6";
   "  LOAD R6, __csp";
   "  MOVR R1, R6";
   "  MOV R7, 4";
   "  SUB R1, R7";
   "  LOADR R2, R1";
   "  MOVR R1, R6";
   "  MOV R7, 8";
   "  SUB R1, R7";
   "  LOADR R3, R1";
   "  MOVR R1, R6";
   "  MOV R7, 12";
   "  SUB R1, R7";
   "  LOADR R4, R1";
   "  MOVR R0, R2";
   "memset_loop:";
   "  MOV R7, 0";
   "  CMP R4, R7";
   "  JZ memset_done";
   "  SB R2, R3";
   "  INC R2";
   "  DEC R4";
   "  JMP memset_loop";
   "memset_done:";
   "  STORE R6, __csp";
   "  POP R6";
   "  RET"].

Definition crt_strings : list string :=
  ["strlen:";
   "  PUSH R6";
   "  LOAD R6, __csp";
   "  CALL __arg1";
   "  MOVR R2, R0";
   "  MOV R0, 0";
   "strlen_loop:";
   "  LB R3, R2";
   "  MOV R7, 0";
   "  CMP R3, R7";
   "  JZ strlen_done";
   "  INC R0";
   "  INC R2";
   "  JMP strlen_loop";
   "strlen_done:";
   "  STORE R6, __csp";
   "  POP R6";
   "  RET";
   "strcmp:";
   "  PUSH R6";
   "  LOAD R6, __csp";
   "  CALL __arg1";
   "  MOVR R2, R0";
   "  CALL __arg2";
   "  MOVR R3, R0";
   "strcmp_loop:";
   "  LB R4, R2";
   "  LB R5, R3";
   "  CMP R4, R5";
   "  JNZ strcmp_diff";
   "  MOV R7, 0";
   "  CMP R4, R7";
   "  JZ strcmp_eq";
   "  INC R2";
   "  INC R3";
   "  JMP strcmp_loop";
   "strcmp_diff:";
   "  MOVR R0, R4";
   "  SUB R0, R5";
   "  JMP strcmp_done";
   "strcmp_eq:";
   "  MOV R0, 0";
   "strcmp_done:";
   "  STORE R6, __csp";
   "  POP R6";
   "  RET";
   ".data";
   "__csp:";
   "  .word 0";
   "environ:";
   "  .word 0";
   ".bss";
   "__stack:";
   "  .space 16384"].

Definition guest_crt : list Z := asm_text (crt_start ++ crt_syscalls ++ crt_memory ++ crt_strings).

(** * Object files and the linker ([cc-c/guestlink.c], lines 638-1060)

    An object file is the flat text of an image; the linker lays out the sections of
    all images, resolves the relocations and makes the executable.  A file that is
    written is the list of its bytes; the files that are read are a parameter. *)

(** ** Object files *)

Definition put32 (b : Bytes) (v : Z) : Bytes :=
  bytes_push (bytes_push (bytes_push (bytes_push b v) (Z.shiftr v 8)) (Z.shiftr v 16)) (Z.shiftr v 24).

Definition put_str (b : Bytes) (s : list Z) : Bytes := fold_left bytes_push s (put32 b (Z.of_nat (length s))).

Definition put_symbol (b : Bytes) (sym : Symbol) : Bytes :=
  put_str (put32 (put32 (put32 b (sym_section sym)) (sym_offset sym)) (sym_global sym)) (sym_name sym).

Definition put_reloc (b : Bytes) (rel : Reloc) : Bytes :=
  put_str (put32 (put32 (put32 b (rel_section rel)) (rel_offset rel)) (rel_addend rel)) (rel_name rel).

(** The symbols that are written: those defined in the image. *)
Definition is_defined (sym : Symbol) : bool := negb (sym_section sym =? 0).

(** The contents of the object file. *)
Definition write_object_image (img : AsmImage) : Bytes :=
  let defined := List.filter is_defined (img_symbols img) in
  let out := put32 [] OBJ_MAGIC in
  let out := put32 out (Z.of_nat (length (img_text img))) in
  let out := put32 out (Z.of_nat (length (img_data img))) in
  let out := put32 out (img_bss_size img) in
  let out := put32 out (Z.of_nat (length defined)) in
  let out := put32 out (Z.of_nat (length (img_relocs img))) in
  let out := fold_left bytes_push (img_text img) out in
  let out := fold_left bytes_push (img_data img) out in
  let out := fold_left put_symbol defined out in
  fold_left put_reloc (img_relocs img) out.

(** A byte of a buffer read from a file, which ends with a NUL. *)
Definition byte_at (data : list Z) (pos : Z) : res Z :=
  if (0 <=? pos) && (pos <=? Z.of_nat (length data)) then Ok (nthz data pos) else Err OutOfBounds.

Definition read32 (data : list Z) (pos : Z) : res Z :=
  b0 ← byte_at data pos ;
  b1 ← byte_at data (pos + 1) ;
  b2 ← byte_at data (pos + 2) ;
  b3 ← byte_at data (pos + 3) ;
  mret (i32 (Z.lor (Z.lor (Z.lor b0 (Z.shiftl b1 8)) (Z.shiftl b2 16)) (Z.shiftl b3 24))).

Fixpoint read_bytes (data : list Z) (pos : Z) (n : nat) : res (list Z) :=
  match n with
  | O => Ok []
  | S n => b ← byte_at data pos ; bs ← read_bytes data (pos + 1) n ; Ok (b :: bs)
  end.

(** [dup_range(data + pos, len)] as a C string. *)
Definition read_name (data : list Z) (pos len : Z) : res (list Z) :=
  if len <? 0 then Err OutOfBounds else
  bs ← read_bytes data pos (Z.to_nat len) ;
  Ok (span (fun c => negb (c =? 0)) bs).1.

(** Four words and a name: the fields, and the position after them. *)
Definition read_entry (data : list Z) (pos : Z) : res (Z * Z * Z * list Z * Z) :=
  a ← read32 data pos ;
  b ← read32 data (pos + 4) ;
  c ← read32 data (pos + 8) ;
  n ← read32 data (pos + 12) ;
  name ← read_name data (pos + 16) n ;
  Ok (a, b, c, name, pos + 16 + n).

Fixpoint read_symbols (img : AsmImage) (data : list Z) (pos : Z) (n : nat) : res (AsmImage * Z) :=
  match n with
  | O => Ok (img, pos)
  | S n =>
      '(section, offset, global, name, pos) ← read_entry data pos ;
      let '(img, i) := ensure_symbol img name in
      read_symbols (img <| img_symbols ::= alter (fun sym => sym <| sym_section := section |>
                      <| sym_offset := offset |> <| sym_global := global |>) i |>) data pos n
  end.

Fixpoint read_relocs (img : AsmImage) (data : list Z) (pos : Z) (n : nat) : res AsmImage :=
  match n with
  | O => Ok img
  | S n =>
      '(section, offset, addend, name, pos) ← read_entry data pos ;
      read_relocs (add_reloc img section offset name addend) data pos n
  end.

Definition read_object_image (data : list Z) : res AsmImage :=
  if Z.of_nat (length data) <? 24 then die (str "not an object file") else
  magic ← read32 data 0 ;
  if negb (magic =? OBJ_MAGIC) then die (str "not an object file") else
  text_len ← read32 data 4 ;
  data_len ← read32 data 8 ;
  bss ← read32 data 12 ;
  sym_count ← read32 data 16 ;
  rel_count ← read32 data 20 ;
  text ← read_bytes data 24 (Z.to_nat text_len) ;
  let pos := 24 + Z.of_nat (length text) in
  sdata ← read_bytes data pos (Z.to_nat data_len) ;
  let pos := pos + Z.of_nat (length sdata) in
  let img := empty_image <| img_text := text |> <| img_data := sdata |> <| img_bss_size := bss |> in
  '(img, pos) ← read_symbols img data pos (Z.to_nat sym_count) ;
  read_relocs img data pos (Z.to_nat rel_count).

(** [assemble_to_object]: the contents of the object of an assembly text. *)
Definition assemble_to_object (assembly : list Z) : res Bytes :=
  img ← assemble_source empty_image assembly ;
  Ok (write_object_image img).

(** ** Layout *)

Definition align_to_guest (n align : Z) : Z := Z.quot (n +! align -! 1) align * align.

(** The bases of consecutive ranges of the given sizes, and the end. *)
Fixpoint layout (cur : Z) (sizes : list Z) : list Z * Z :=
  match sizes with
  | [] => ([], cur)
  | n :: sizes' => let '(bases, e) := layout (cur +! n) sizes' in (cur :: bases, e)
  end.

(** An image and the bases of its sections. *)
Record placed := Build_placed { pl_image : AsmImage; pl_text : Z; pl_data : Z; pl_bss : Z }.

Definition text_size (img : AsmImage) : Z := Z.of_nat (length (img_text img)).
Definition data_size (img : AsmImage) : Z := Z.of_nat (length (img_data img)).

(** The placed images, the end of the data and the end of the memory. *)
Definition place (imgs : list AsmImage) : list placed * Z * Z :=
  let '(tb, text_end) := layout CFG_USER_LOAD_BASE (text_size <$> imgs) in
  let '(db, data_end) := layout (align_to_guest text_end 4096) (data_size <$> imgs) in
  let '(bb, mem_end) := layout (align_to_guest data_end 4) (img_bss_size <$> imgs) in
  ((fun '(img, (t, (d, b))) => Build_placed img t d b) <$> zip imgs (zip tb (zip db bb)), data_end, mem_end).

(** ** Symbols and relocations *)

Definition symbol_addr (p : placed) (sym : Symbol) : res Z :=
  if sym_section sym =? SEC_TEXT then Ok (pl_text p +! sym_offset sym)
  else if sym_section sym =? SEC_DATA then Ok (pl_data p +! sym_offset sym)
  else if sym_section sym =? SEC_BSS then Ok (pl_bss p +! sym_offset sym)
  else die (str "undefined symbol: " ++ sym_name sym).

Definition GlobalSym : Type := list Z * Z.

Definition find_global (globals : list GlobalSym) (name : list Z) : option GlobalSym :=
  List.find (fun g => bool_decide (g.1 = name)) globals.

(** The loop over the symbols of an image. *)
Fixpoint collect_symbols (p : placed) (syms : list Symbol) (globals : list GlobalSym) : res (list GlobalSym) :=
  match syms with
  | [] => Ok globals
  | sym :: syms' =>
      if (sym_global sym =? 0) || (sym_section sym =? 0) then collect_symbols p syms' globals else
      match find_global globals (sym_name sym) with
      | Some _ => die (str "duplicate global symbol: " ++ sym_name sym)
      | None =>
          a ← symbol_addr p sym ;
          collect_symbols p syms' (globals ++ [(sym_name sym, a)])
      end
  end.

Fixpoint collect_globals (ps : list placed) (globals : list GlobalSym) : res (list GlobalSym) :=
  match ps with
  | [] => Ok globals
  | p :: ps' => globals ← collect_symbols p (img_symbols (pl_image p)) globals ; collect_globals ps' globals
  end.

(** The address a relocation refers to: a symbol of the image itself goes first. *)
Definition resolve (globals : list GlobalSym) (p : placed) (rel : Reloc) : res Z :=
  let si := find_symbol (pl_image p) (rel_name rel) in
  let sym := symbol_at (pl_image p) (Z.to_nat si) in
  if (si >=? 0) && negb (sym_section sym =? 0) then symbol_addr p sym
  else match find_global globals (rel_name rel) with
       | None => die (str "undefined symbol: " ++ rel_name rel)
       | Some g => Ok g.2
       end.

(** [write32(data + offset, v)] in a buffer. *)
Definition write32 (b : Bytes) (offset v : Z) : Bytes :=
  take (Z.to_nat offset) b ++ ((fun k => Z.land (Z.shiftr v k) 255) <$> [0; 8; 16; 24]) ++
  drop (Z.to_nat (offset + 4)) b.

(** Store the value where the relocation says. *)
Definition patch_reloc (p : placed) (rel : Reloc) (value : Z) : res placed :=
  let img := pl_image p in
  if rel_section rel =? SEC_TEXT then
    if rel_offset rel +! 4 >? text_size img then die (str "bad text relocation")
    else if rel_offset rel <? 0 then Err OutOfBounds
    else Ok (Build_placed (img <| img_text ::= fun b => write32 b (rel_offset rel) value |>)
                          (pl_text p) (pl_data p) (pl_bss p))
  else
    if rel_offset rel +! 4 >? data_size img then die (str "bad data relocation")
    else if rel_offset rel <? 0 then Err OutOfBounds
    else Ok (Build_placed (img <| img_data ::= fun b => write32 b (rel_offset rel) value |>)
                          (pl_text p) (pl_data p) (pl_bss p)).

Definition apply_reloc (globals : list GlobalSym) (p : placed) (rel : Reloc) : res placed :=
  value ← resolve globals p rel ;
  patch_reloc p rel (value +! rel_addend rel).

Fixpoint apply_relocs (globals : list GlobalSym) (p : placed) (rels : list Reloc) : res placed :=
  match rels with
  | [] => Ok p
  | rel :: rels' => p ← apply_reloc globals p rel ; apply_relocs globals p rels'
  end.

Fixpoint relocate (globals : list GlobalSym) (ps : list placed) : res (list placed) :=
  match ps with
  | [] => Ok []
  | p :: ps' =>
      p ← apply_relocs globals p (img_relocs (pl_image p)) ;
      ps' ← relocate globals ps' ;
      Ok (p :: ps')
  end.

(** The last global named [_start], or -1. *)
Definition entry_of (globals : list GlobalSym) : Z :=
  fold_left (fun e g => if bool_decide (g.1 = str "_start") then g.2 else e) globals (-1).

(** The executable: a zeroed buffer with the header and the sections copied in. *)
Definition executable (ps : list placed) (entry data_end mem_end : Z) : Bytes :=
  let base := CFG_USER_LOAD_BASE in
  let file_len := data_end - base in
  let out := fun _ : Z => 0 in
  let out := pwrite32 out 0 CFG_EXEC_MAGIC in
  let out := pwrite32 out 4 entry in
  let out := pwrite32 out 8 (mem_end - base) in
  let copy out p :=
    blit (blit out (12 + (pl_text p - base)) (img_text (pl_image p)))
         (12 + (pl_data p - base)) (img_data (pl_image p)) in
  slice (fold_left copy ps out) 0 (Z.to_nat (12 + file_len)).

(** The contents of the output file. *)
Definition link_images (imgs : list AsmImage) : res Bytes :=
  let '(ps, data_end, mem_end) := place imgs in
  globals ← collect_globals ps [] ;
  ps ← relocate globals ps ;
  let entry := entry_of globals in
  if entry <? 0 then die (str "entry symbol not found: _start")
  else Ok (executable ps entry data_end mem_end).

(** ** The drivers *)

Section drivers.
(** The contents of the files that can be opened. *)
Context (file : list Z -> option (list Z)).

(** [strerror] of ccsupport.c answers "error" whatever the number. *)
Definition guest_read_file_len (path : list Z) : res (list Z) :=
  match file path with
  | None => die (str "cannot open " ++ path ++ str ": error")
  | Some contents => Ok contents
  end.

(** The contents as a C string. *)
Definition guest_read_file (path : list Z) : res (list Z) :=
  contents ← guest_read_file_len path ; Ok (span (fun c => negb (c =? 0)) contents).1.

Definition link_ends_with (s suffix : list Z) : bool :=
  if (length s <? length suffix)%nat then false
  else bool_decide (drop (length s - length suffix) s = suffix).

Definition load_input (path : list Z) : res AsmImage :=
  if link_ends_with path (str ".o") then data ← guest_read_file_len path ; read_object_image data
  else source ← guest_read_file path ; assemble_source empty_image source.

Fixpoint load_inputs (paths : list (list Z)) : res (list AsmImage) :=
  match paths with
  | [] => Ok []
  | p :: ps => img ← load_input p ; imgs ← load_inputs ps ; Ok (img :: imgs)
  end.

Definition defines_start (img : AsmImage) : bool :=
  let si := find_symbol img (str "_start") in
  (si >=? 0) && is_defined (symbol_at img (Z.to_nat si)).

Definition link_guest_objects (input_paths : list (list Z)) : res Bytes :=
  imgs ← load_inputs input_paths ;
  if existsb defines_start imgs then link_images imgs else
  crt ← assemble_source empty_image guest_crt ;
  link_images (imgs ++ [crt]).

(** ** The single-source path *)

Definition mentions (text pattern : list Z) : bool :=
  match first_occurrence pattern text with Some _ => true | None => false end.

Definition LIB_I64 : list Z := str "/lib/i64.s".
Definition LIB_SOFTFLOAT : list Z := str "/lib/softfloat.s".

Definition uses_softfloat (text : list Z) : bool :=
  existsb (fun p => mentions text (str p))
    ["sf3"; "df3"; "__cmpsf2"; "__cmpdf2"; "__floatsi"; "__floatunsi"; "__fixsfsi"; "__fixdfsi";
     "__truncdfsf2"; "__extendsfdf2"]%string.

Definition uses_i64 (text : list Z) : bool :=
  existsb (fun p => mentions text (str p)) ["__i64_"; "__u64_"]%string.

Definition append_asm_image (imgs : list AsmImage) (assembly : list Z) : res (list AsmImage) :=
  img ← assemble_source empty_image assembly ; Ok (imgs ++ [img]).

Definition assemble_and_link_guest (assembly : list Z) : res Bytes :=
  let combined := guest_crt ++ [10] ++ assembly in
  let need_float := uses_softfloat combined in
  let need_i64 := need_float || uses_i64 combined in
  imgs ← append_asm_image [] combined ;
  imgs ← (if need_i64 then lib ← guest_read_file LIB_I64 ; append_asm_image imgs lib else Ok imgs) ;
  imgs ← (if need_float then lib ← guest_read_file LIB_SOFTFLOAT ; append_asm_image imgs lib else Ok imgs) ;
  link_images imgs.
End drivers.
