(* ===== verification/GuestTools.v ===== *)
(** * GuestTools: the command lines of as, ld and cc ([cc-c/as.c], [ld.c], [main.c])

    A program takes its arguments after the first and the contents of the files there
    are, and gives the contents after it, or how it fails.  The C front end and the
    code generator are one parameter of cc: from the path of a source to assembly. *)

From S2P Require Import Prelude Config Kernel Klog RawMem UserMem LibString LibFormat GuestAsm GuestLink.

(** The files, and writing one. *)
Definition files : Type := list Z -> option (list Z).
Definition write_file (fs : files) (path contents : list Z) : files :=
  fun p => if bool_decide (p = path) then Some contents else fs p.

(** [fprintf(stderr, text); return 1;] *)
Definition quit {A} (text : list Z) : res A := Err (Quit (text ++ [10]) 1).

Definition is_arg (a : list Z) (text : string) : bool := bool_decide (a = str text).

(** [replace_ext]: cut the last extension of the last component and append [ext]. *)
Definition replace_ext (path ext : list Z) : list Z :=
  let '(suffix, head) := span (fun c => negb ((c =? 47) || (c =? 46))) (rev path) in
  match head with
  | 46 :: stem => rev stem ++ ext
  | _ => path ++ ext
  end.

(** The words of a response file. *)
Definition is_list_space (c : Z) : bool := (c =? 32) || (c =? 9) || (c =? 10) || (c =? 13).
Fixpoint list_words (fuel : nat) (s : list Z) : list (list Z) :=
  match fuel with
  | O => []
  | S fuel =>
      match (span is_list_space s).2 with
      | [] => []
      | t => let '(word, rest) := span (fun c => negb (is_list_space c)) t in word :: list_words fuel rest
      end
  end.

Definition push_input (tool : string) (limit : Z) (inputs : list (list Z)) (path : list Z) : res (list (list Z)) :=
  if Z.of_nat (length inputs) >=? limit then quit (str tool ++ str ": too many input files") else Ok (inputs ++ [path]).

Fixpoint push_inputs (tool : string) (limit : Z) (inputs paths : list (list Z)) : res (list (list Z)) :=
  match paths with
  | [] => Ok inputs
  | p :: ps => inputs ← push_input tool limit inputs p ; push_inputs tool limit inputs ps
  end.

(** [expand_listfile] *)
Definition expand_listfile (fs : files) (tool : string) (limit : Z) (inputs : list (list Z)) (path : list Z) : res (list (list Z)) :=
  contents ← guest_read_file fs path ;
  push_inputs tool limit inputs (list_words (length contents) contents).

(** Assemble the contents of [input] into the object [output]. *)
Definition object_file (fs : files) (assembly output : list Z) : res files :=
  object ← assemble_to_object assembly ; Ok (write_file fs output object).

(** ** as *)

Fixpoint as_args (args : list (list Z)) (inputs : list (list Z)) (output : option (list Z)) :
    res (list (list Z) * option (list Z)) :=
  match args with
  | [] => Ok (inputs, output)
  | a :: rest =>
      if is_arg a "-o" then
        match rest with
        | [] => quit (str "as: -o requires an argument")
        | o :: rest' => as_args rest' inputs (Some o)
        end
      else if hd0 a =? 45 then quit (str "as: unsupported option: " ++ a)
      else inputs ← push_input "as" 128 inputs a ; as_args rest inputs output
  end.

Fixpoint as_each (fs : files) (output : option (list Z)) (inputs : list (list Z)) : res files :=
  match inputs with
  | [] => Ok fs
  | i :: inputs' =>
      let out := match output with Some o => o | None => replace_ext i (str ".o") end in
      source ← guest_read_file fs i ;
      fs ← object_file fs source out ;
      as_each fs output inputs'
  end.

Definition as_main (fs : files) (args : list (list Z)) : res files :=
  '(inputs, output) ← as_args args [] None ;
  if bool_decide (inputs = []) then quit (str "usage: as [-o output.o] input.s") else
  if negb (bool_decide (output = None)) && negb (Z.of_nat (length inputs) =? 1)
  then quit (str "as: cannot specify -o with multiple input files") else
  as_each fs output inputs.

(** ** ld *)

Fixpoint ld_args (fs : files) (args : list (list Z)) (inputs : list (list Z)) (output : list Z) :
    res (list (list Z) * list Z) :=
  match args with
  | [] => Ok (inputs, output)
  | a :: rest =>
      if is_arg a "-o" then
        match rest with
        | [] => quit (str "ld: -o requires an argument")
        | o :: rest' => ld_args fs rest' inputs o
        end
      else if hd0 a =? 64 then inputs ← expand_listfile fs "ld" 256 inputs (tail a) ; ld_args fs rest inputs output
      else if hd0 a =? 45 then quit (str "ld: unsupported option: " ++ a)
      else inputs ← push_input "ld" 256 inputs a ; ld_args fs rest inputs output
  end.

Definition ld_main (fs : files) (args : list (list Z)) : res files :=
  '(inputs, output) ← ld_args fs args [] (str "a.out") ;
  if bool_decide (inputs = []) then quit (str "usage: ld [-o output] input.o ...") else
  executable ← link_guest_objects fs inputs ;
  Ok (write_file fs output executable).

(** ** cc *)

Record options := Build_options {
  inputs : list (list Z); output_path : option (list Z); opt_asm : bool; opt_compile : bool; opt_verbose : bool;
  include_paths : list (list Z) }.
#[export] Instance eta_options : Eta options := fun r => Build_options (inputs r) (output_path r) (opt_asm r)
  (opt_compile r) (opt_verbose r) (include_paths r).
#[export] Instance set_inputs : Setter inputs := ltac:(mk_setter).
#[export] Instance set_output_path : Setter output_path := ltac:(mk_setter).
#[export] Instance set_opt_asm : Setter opt_asm := ltac:(mk_setter).
#[export] Instance set_opt_compile : Setter opt_compile := ltac:(mk_setter).
#[export] Instance set_opt_verbose : Setter opt_verbose := ltac:(mk_setter).
#[export] Instance set_include_paths : Setter include_paths := ltac:(mk_setter).

(** The globals after [add_default_include_paths]. *)
Definition options0 : options := Build_options [] None false false false [str "."; str "/include"; str "/usr/include"].

(** The text goes to stdout when the status is 0. *)
Definition usage_text : list Z := str "usage: cc [-S | -c] [-v] [-I dir] [-o output] input..." ++ [10].
Definition cc_usage {A} (status : Z) : res A := Err (Quit usage_text status).

Definition add_include (o : options) (dir : list Z) : options := o <| include_paths ::= fun l => l ++ [dir] |>.

(** The loop of [parse_args]. *)
Fixpoint scan_args (fs : files) (args : list (list Z)) (o : options) : res options :=
  match args with
  | [] => Ok o
  | a :: rest =>
      if is_arg a "--help" then cc_usage 0
      else if is_arg a "-S" then scan_args fs rest (o <| opt_asm := true |>)
      else if is_arg a "-c" then scan_args fs rest (o <| opt_compile := true |>)
      else if is_arg a "-v" then scan_args fs rest (o <| opt_verbose := true |>)
      else if is_arg a "-o" then
        match rest with
        | [] => cc_usage 1
        | out :: rest' => scan_args fs rest' (o <| output_path := Some out |>)
        end
      else if is_arg a "-I" then
        match rest with
        | [] => cc_usage 1
        | dir :: rest' => scan_args fs rest' (add_include o dir)
        end
      else if bool_decide (take 2 a = str "-I") then scan_args fs rest (add_include o (drop 2 a))
      else if hd0 a =? 45 then quit (str "cc: unsupported option: " ++ a)
      else if hd0 a =? 64 then
        l ← expand_listfile fs "cc" 128 (inputs o) (tail a) ; scan_args fs rest (o <| inputs := l |>)
      else l ← push_input "cc" 128 (inputs o) a ; scan_args fs rest (o <| inputs := l |>)
  end.

Definition parse_args (fs : files) (args : list (list Z)) : res options :=
  o ← scan_args fs args options0 ;
  match inputs o with
  | [] => cc_usage 1
  | first :: others =>
      if opt_asm o && opt_compile o then quit (str "cc: -S and -c are mutually exclusive") else
      match output_path o with
      | Some _ =>
          if (opt_asm o || opt_compile o) && negb (bool_decide (others = [])) then
            quit (str "cc: cannot specify -o with " ++ (if opt_asm o then str "-S" else str "-c") ++ str " and multiple input files")
          else Ok o
      | None =>
          Ok (if opt_asm o then o <| output_path := Some (replace_ext first (str ".s")) |>
              else if opt_compile o then o else o <| output_path := Some (str "a.out") |>)
      end
  end.

Section cc.
(** The front end and the code generator: the assembly of a source file. *)
Context (compile : files -> options -> list Z -> res (list Z)).

Fixpoint cc_objects (fs : files) (o : options) (l : list (list Z)) : res files :=
  match l with
  | [] => Ok fs
  | i :: l' =>
      let out := match output_path o with Some p => p | None => replace_ext i (str ".o") end in
      assembly ← (if link_ends_with i (str ".s") then guest_read_file fs i else compile fs o i) ;
      fs ← object_file fs assembly out ;
      cc_objects fs o l'
  end.

Definition is_linkable (i : list Z) : bool := link_ends_with i (str ".s") || link_ends_with i (str ".o").

(** After [parse_args] there is an output path but for -c. *)
Definition out_of (o : options) : list Z := match output_path o with Some p => p | None => [] end.

Definition cc_main (fs : files) (args : list (list Z)) : res files :=
  o ← parse_args fs args ;
  if opt_asm o then
    match inputs o with
    | [i] => assembly ← compile fs o i ; Ok (write_file fs (out_of o) assembly)
    | _ => quit (str "cc: -S accepts exactly one input file")
    end
  else if opt_compile o then cc_objects fs o (inputs o)
  else if forallb is_linkable (inputs o) then
    executable ← link_guest_objects fs (inputs o) ; Ok (write_file fs (out_of o) executable)
  else
    match inputs o with
    | [i] =>
        assembly ← compile fs o i ;
        executable ← assemble_and_link_guest fs assembly ;
        Ok (write_file fs (out_of o) executable)
    | _ => quit (str "cc: mixed or multiple non-assembly inputs are not supported; compile each with -c, then link the .o files")
    end.
End cc.
