(* ===== verification/GuestObjSpec.v ===== *)
(** * GuestObjSpec: linking through object files is linking the images

    What [read_object_image] makes of the object of a well-formed image: the image
    without the symbols it only mentions, which its relocations bring back.  The
    linker does not see the difference. *)

From Stdlib Require Import Sorted.
From S2P Require Import Prelude Config Kernel Klog RawMem UserMem LibString LibStringSpec LibNumberSpec GuestAsm GuestLink.

(** ** Well-formed images *)

Definition name_ok (name : list Z) : Prop :=
  Forall (fun c => 0 < c < 256) name /\ Z.of_nat (length name) < 2 ^ 31.

Definition section_size (img : AsmImage) (section : Z) : Z :=
  if section =? SEC_TEXT then text_size img else data_size img.

Record symbol_ok (img : AsmImage) (sym : Symbol) : Prop := {
  so_name : name_ok (sym_name sym);
  so_section : sym_section sym = 0 \/ sym_section sym = SEC_TEXT \/ sym_section sym = SEC_DATA \/ sym_section sym = SEC_BSS;
  so_global : sym_global sym = 0 \/ sym_global sym = 1;
  so_inside : sym_section sym = SEC_TEXT \/ sym_section sym = SEC_DATA ->
    0 <= sym_offset sym <= section_size img (sym_section sym);
  so_offset : sym_section sym = SEC_BSS \/ sym_section sym = 0 -> is_i32 (sym_offset sym);
}.

Record reloc_ok (img : AsmImage) (rel : Reloc) : Prop := {
  ro_name : name_ok (rel_name rel);
  ro_section : rel_section rel = SEC_TEXT \/ rel_section rel = SEC_DATA;
  ro_inside : 0 <= rel_offset rel /\ rel_offset rel + 4 <= section_size img (rel_section rel);
  ro_addend : is_i32 (rel_addend rel);
}.

(** Two relocations, in the order of the table, patch different words. *)
Definition apart (r1 r2 : Reloc) : Prop :=
  rel_section r1 = rel_section r2 -> rel_offset r1 + 4 <= rel_offset r2.

Record image_ok (img : AsmImage) : Prop := {
  io_text : Forall is_byte (img_text img);
  io_data : Forall is_byte (img_data img);
  io_bss : is_i32 (img_bss_size img);
  io_names : NoDup (sym_name <$> img_symbols img);
  io_symbols : Forall (symbol_ok img) (img_symbols img);
  io_relocs : Forall (reloc_ok img) (img_relocs img);
  io_apart : StronglySorted apart (img_relocs img);
}.

(** Small enough for the [int] fields of the object file. *)
Definition image_small (img : AsmImage) : Prop :=
  text_size img < 2 ^ 31 /\ data_size img < 2 ^ 31 /\
  Z.of_nat (length (img_symbols img)) < 2 ^ 31 /\ Z.of_nat (length (img_relocs img)) < 2 ^ 31.

(** ** The bytes of an object file *)

Definition word32 (v : Z) : list Z := (fun k => Z.land (Z.shiftr v k) 255) <$> [0; 8; 16; 24].
Definition name_bytes (s : list Z) : list Z := word32 (Z.of_nat (length s)) ++ s.
Definition entry_bytes (a b c : Z) (name : list Z) : list Z := word32 a ++ word32 b ++ word32 c ++ name_bytes name.
Definition symbol_bytes (sym : Symbol) : list Z :=
  entry_bytes (sym_section sym) (sym_offset sym) (sym_global sym) (sym_name sym).
Definition reloc_bytes (rel : Reloc) : list Z :=
  entry_bytes (rel_section rel) (rel_offset rel) (rel_addend rel) (rel_name rel).

Lemma word32_le v : word32 v = le_bytes32 v.
Proof.
  unfold word32, le_bytes32. cbn [fmap list_fmap]. change 255 with (Z.ones 8).
  rewrite !Z.land_ones, !Z.shiftr_div_pow2, Z.div_1_r by lia. done.
Qed.

Lemma put32_app b v : put32 b v = b ++ word32 v.
Proof. unfold put32, bytes_push, word32. rewrite <- !app_assoc. cbn. by rewrite Z.shiftr_0_r. Qed.

Lemma push_all_app l b : Forall is_byte l -> fold_left bytes_push l b = b ++ l.
Proof.
  revert b. induction l as [|c l IH]; intros b H; [by rewrite app_nil_r|].
  inversion H as [|? ? Hc Hl]; subst. cbn [fold_left]. rewrite IH by done. unfold bytes_push.
  change 255 with (Z.ones 8). rewrite Z.land_ones, Z.mod_small by (unfold is_byte in Hc; lia).
  by rewrite <- app_assoc.
Qed.

Lemma name_bytes_ok name : name_ok name -> Forall is_byte name.
Proof. intros [H _]. eapply Forall_impl; [exact H|]. unfold is_byte. lia. Qed.

Lemma put_entry_app b x y z name : name_ok name ->
  put_str (put32 (put32 (put32 b x) y) z) name = b ++ entry_bytes x y z name.
Proof.
  intros H. unfold put_str. rewrite push_all_app by by apply name_bytes_ok.
  rewrite !put32_app. unfold entry_bytes, name_bytes. by rewrite <- !app_assoc.
Qed.

Lemma put_symbols_app l b :
  Forall (fun sym => name_ok (sym_name sym)) l -> fold_left put_symbol l b = b ++ mjoin (symbol_bytes <$> l).
Proof.
  revert b. induction l as [|sym l IH]; intros b H; [by rewrite app_nil_r|].
  inversion H; subst. cbn. rewrite IH by done. unfold put_symbol. rewrite put_entry_app by done.
  by rewrite <- app_assoc.
Qed.

Lemma put_relocs_app l b :
  Forall (fun rel => name_ok (rel_name rel)) l -> fold_left put_reloc l b = b ++ mjoin (reloc_bytes <$> l).
Proof.
  revert b. induction l as [|rel l IH]; intros b H; [by rewrite app_nil_r|].
  inversion H; subst. cbn. rewrite IH by done. unfold put_reloc. rewrite put_entry_app by done.
  by rewrite <- app_assoc.
Qed.

(** ** Reading it back *)

(** [l] is in [data] at [pos]. *)
Definition data_at (data : list Z) (pos : Z) (l : list Z) : Prop :=
  0 <= pos /\ exists rest, drop (Z.to_nat pos) data = l ++ rest /\ (Z.to_nat pos <= length data)%nat.

Lemma data_at_app data pos l l' :
  data_at data pos (l ++ l') -> data_at data pos l /\ data_at data (pos + Z.of_nat (length l)) l'.
Proof.
  intros (Hp & rest & E & Hl). rewrite <- app_assoc in E. split; [split; [done|]; eauto|].
  split; [lia|]. exists rest. rewrite Z2Nat.inj_add, Nat2Z.id, <- drop_drop, E by lia.
  rewrite drop_app_length. split; [done|].
  assert (length (drop (Z.to_nat pos) data) = length (l ++ l' ++ rest)) as E2 by by rewrite E.
  rewrite length_drop, length_app in E2. lia.
Qed.

Lemma byte_at_data data pos c l : data_at data pos (c :: l) -> byte_at data pos = Ok c.
Proof.
  intros (Hp & rest & E & Hl). unfold byte_at.
  assert (length (drop (Z.to_nat pos) data) = S (length (l ++ rest))) as E2 by by rewrite E.
  rewrite length_drop in E2.
  rewrite (proj2 (Z.leb_le 0 pos)), (proj2 (Z.leb_le pos _)) by lia. cbn [andb]. f_equal.
  apply nthz_lookup; [done|]. replace (Z.to_nat pos) with (Z.to_nat pos + 0)%nat by lia.
  rewrite <- lookup_drop, E. done.
Qed.

Lemma read_bytes_data data pos l : data_at data pos l -> read_bytes data pos (length l) = Ok l.
Proof.
  revert pos. induction l as [|c l IH]; intros pos H; [done|]. cbn [length read_bytes].
  rewrite (byte_at_data _ _ _ _ H). apply (data_at_app _ _ [c]) in H as [_ H]. cbn in H.
  cbn [mbind res_bind]. by rewrite IH.
Qed.

Lemma read32_data data pos v : data_at data pos (word32 v) -> read32 data pos = Ok (i32 v).
Proof.
  rewrite word32_le. unfold le_bytes32. intros H. unfold read32.
  pose proof (byte_at_data _ _ _ _ H) as H0. apply (data_at_app _ _ [_]) in H as [_ H]. cbn [length] in H.
  pose proof (byte_at_data _ _ _ _ H) as H1. apply (data_at_app _ _ [_]) in H as [_ H]. cbn [length] in H.
  pose proof (byte_at_data _ _ _ _ H) as H2. apply (data_at_app _ _ [_]) in H as [_ H]. cbn [length] in H.
  pose proof (byte_at_data _ _ _ _ H) as H3. change (Z.of_nat 1) with 1 in *.
  replace (pos + 1 + 1 + 1) with (pos + 3) in H3 by lia. replace (pos + 1 + 1) with (pos + 2) in H2 by lia.
  rewrite H0, H1, H2, H3. cbn [mbind res_bind]. unfold mret, res_ret. f_equal.
  pose proof (Z.mod_pos_bound v (2 ^ 8) ltac:(lia)). pose proof (Z.mod_pos_bound (v / 2 ^ 8) (2 ^ 8) ltac:(lia)).
  pose proof (Z.mod_pos_bound (v / 2 ^ 16) (2 ^ 8) ltac:(lia)). pose proof (Z.mod_pos_bound (v / 2 ^ 24) (2 ^ 8) ltac:(lia)).
  rewrite !Z.shiftl_mul_pow2 by lia.
  rewrite (Z.lor_comm _ (v / 2 ^ 24 mod 2 ^ 8 * 2 ^ 24)), (Z.lor_comm _ (v / 2 ^ 16 mod 2 ^ 8 * 2 ^ 16)),
    (Z.lor_comm _ (v / 2 ^ 8 mod 2 ^ 8 * 2 ^ 8)).
  rewrite (lor_low _ (v mod 2 ^ 8) 8) by lia. rewrite (lor_low _ (_ + v mod 2 ^ 8) 16) by lia.
  rewrite lor_low by lia. rewrite <- (le_bytes32_sum v). f_equal. lia.
Qed.

Lemma span_all p s : Forall (fun c => p c = true) s -> span p s = (s, []).
Proof. induction s as [|c s IH]; intros H; [done|]. inversion H as [|? ? Hc Hs]; subst. cbn. by rewrite Hc, IH. Qed.

Lemma read_name_data data pos name :
  name_ok name -> data_at data pos name -> read_name data pos (Z.of_nat (length name)) = Ok name.
Proof.
  intros [Hn Hl] H. unfold read_name. rewrite (proj2 (Z.ltb_ge _ 0)) by lia.
  rewrite Nat2Z.id, (read_bytes_data _ _ _ H). cbn. rewrite span_all; [done|].
  eapply Forall_impl; [exact Hn|]. intros c Hc; cbv beta in Hc. apply negb_true_iff, Z.eqb_neq. lia.
Qed.

(** A word at the front: its value, and the rest after it. *)
Lemma data_at_word data pos v l :
  data_at data pos (word32 v ++ l) -> read32 data pos = Ok (i32 v) /\ data_at data (pos + 4) l.
Proof. intros H. apply data_at_app in H as [H0 H]. split; [by apply read32_data|exact H]. Qed.

Definition entry_size (name : list Z) : Z := 16 + Z.of_nat (length name).

Lemma entry_bytes_length a b c name : Z.of_nat (length (entry_bytes a b c name)) = entry_size name.
Proof. unfold entry_bytes, name_bytes, entry_size. rewrite !length_app. cbn [word32 fmap list_fmap length]. lia. Qed.

Lemma read_entry_data data pos a b c name :
  name_ok name -> is_i32 a -> is_i32 b -> is_i32 c -> data_at data pos (entry_bytes a b c name) ->
  read_entry data pos = Ok (a, b, c, name, pos + entry_size name).
Proof.
  intros Hn Ha Hb Hc H. unfold entry_bytes, name_bytes in H. unfold read_entry.
  apply data_at_word in H as [H0 H]. apply data_at_word in H as [H1 H]. apply data_at_word in H as [H2 H].
  apply data_at_word in H as [H3 H4].
  replace (pos + 4 + 4) with (pos + 8) in * by lia. replace (pos + 8 + 4) with (pos + 12) in * by lia.
  replace (pos + 12 + 4) with (pos + 16) in * by lia. rewrite H0, H1, H2, H3.
  cbn [mbind res_bind]. destruct Hn as [Hn1 Hn2].
  rewrite !i32_id by (done || (unfold is_i32; lia)). rewrite (read_name_data _ _ name) by done.
  cbn [mbind res_bind]. do 2 f_equal. unfold entry_size. lia.
Qed.

(** ** Symbol tables *)

Lemma find_symbol_None img name :
  name ∉ (sym_name <$> img_symbols img) -> find_symbol img name = -1.
Proof.
  intros Hn. unfold find_symbol. destruct (find_from _ _ _) as [i|] eqn:E; [|done]. exfalso.
  apply find_from_Some in E as (_ & E & _). destruct (_ !! _) as [sym|] eqn:Es; [|done].
  apply bool_decide_eq_true in E. apply Hn. rewrite <- E. apply list_elem_of_fmap. exists sym.
  split; [done|]. by eapply list_elem_of_lookup_2.
Qed.

Lemma find_symbol_Some img i sym :
  NoDup (sym_name <$> img_symbols img) -> img_symbols img !! i = Some sym ->
  find_symbol img (sym_name sym) = Z.of_nat i.
Proof.
  intros Hd Hi. unfold find_symbol. pose proof (lookup_lt_Some _ _ _ Hi).
  rewrite (find_from_first _ 0 _ (Z.of_nat i)); [done|lia| |].
  - by rewrite Nat2Z.id, Hi, bool_decide_eq_true_2.
  - intros j Hj. destruct (img_symbols img !! Z.to_nat j) as [sym'|] eqn:E; [|done].
    apply bool_decide_eq_false. intros Hs.
    assert (Z.to_nat j = i); [|lia]. eapply NoDup_lookup; [exact Hd| |]; rewrite list_lookup_fmap; rewrite ?E, ?Hi; cbn; by f_equal.
Qed.

Lemma find_symbol_cases img name :
  (find_symbol img name = -1 /\ name ∉ (sym_name <$> img_symbols img)) \/
  exists i sym, find_symbol img name = Z.of_nat i /\ img_symbols img !! i = Some sym /\ sym_name sym = name.
Proof.
  unfold find_symbol. destruct (find_from _ _ _) as [i|] eqn:E.
  - right. apply find_from_Some in E as (H1 & H2 & _). destruct (_ !! _) as [sym|] eqn:Es; [|done].
    apply bool_decide_eq_true in H2. exists (Z.to_nat i), sym. cbn. split; [lia|done].
  - left. split; [done|]. intros Hin. apply list_elem_of_fmap in Hin as (sym & -> & Hs).
    apply list_elem_of_lookup in Hs as [i Hi]. pose proof (lookup_lt_Some _ _ _ Hi).
    pose proof (find_from_None _ _ _ E (Z.of_nat i) ltac:(lia)) as Hf. cbv beta in Hf.
    by rewrite Nat2Z.id, Hi, bool_decide_eq_true_2 in Hf.
Qed.

Lemma ensure_symbol_new img name :
  name ∉ (sym_name <$> img_symbols img) ->
  ensure_symbol img name =
  (img <| img_symbols ::= fun l => l ++ [Build_Symbol name 0 0 0] |>, length (img_symbols img)).
Proof. intros H. unfold ensure_symbol. by rewrite find_symbol_None. Qed.

Lemma ensure_symbol_old img name :
  name ∈ (sym_name <$> img_symbols img) -> (ensure_symbol img name).1 = img.
Proof.
  intros H. unfold ensure_symbol. destruct (find_symbol_cases img name) as [[_ Hn]|(i & sym & -> & _ & _)]; [done|].
  by rewrite (proj2 (Z.leb_le 0 _)) by lia.
Qed.

Lemma alter_last {A} (f : A -> A) l x : alter f (length l) (l ++ [x]) = l ++ [f x].
Proof. induction l as [|y l IH]; [done|]. cbn. f_equal. apply IH. Qed.

Lemma set_symbols img f : img <| img_symbols ::= f |> =
  Build_AsmImage (img_text img) (img_data img) (img_bss_size img) (img_section img) (f (img_symbols img)) (img_relocs img).
Proof. done. Qed.

Lemma set_symbols_id img f : f (img_symbols img) = img_symbols img -> img <| img_symbols ::= f |> = img.
Proof. intros H. rewrite set_symbols, H. by destruct img. Qed.

Lemma read_symbols_data data pos img l rest :
  Forall (fun sym => name_ok (sym_name sym) /\ is_i32 (sym_section sym) /\ is_i32 (sym_offset sym) /\
                     is_i32 (sym_global sym)) l ->
  NoDup ((sym_name <$> img_symbols img) ++ (sym_name <$> l)) ->
  data_at data pos (mjoin (symbol_bytes <$> l) ++ rest) ->
  exists pos', read_symbols img data pos (length l) = Ok (img <| img_symbols ::= fun s => s ++ l |>, pos') /\
    data_at data pos' rest.
Proof.
  revert img pos. induction l as [|sym l IH]; intros img pos Hf Hd H.
  - exists pos. cbn in H. split; [|done]. cbn. do 2 f_equal. symmetry. apply set_symbols_id, app_nil_r.
  - inversion Hf as [|? ? (Hn & Hs & Ho & Hg) Hf']; subst. cbn [fmap list_fmap mjoin list_join] in H.
    rewrite <- app_assoc in H. apply data_at_app in H as [H0 H]. cbn [length read_symbols].
    unfold symbol_bytes in H0, H at 1. rewrite (read_entry_data _ _ _ _ _ _ Hn Hs Ho Hg H0).
    rewrite entry_bytes_length in H. cbn [mbind res_bind].
    assert (sym_name sym ∉ (sym_name <$> img_symbols img)) as Hnew.
    { cbn in Hd. rewrite <- Permutation_middle in Hd. apply NoDup_cons in Hd as [Hd _].
      intros Hin. apply Hd, elem_of_app. by left. }
    rewrite ensure_symbol_new by done.
    destruct (IH (img <| img_symbols ::= fun s => s ++ [sym] |>) (pos + entry_size (sym_name sym))) as (pos' & E & Hp).
    + done.
    + cbn. rewrite fmap_app, <- app_assoc. done.
    + done.
    + exists pos'. split; [|done]. etrans; [|etrans; [exact E|]].
      * f_equal. rewrite !set_symbols. cbn [img_symbols img_text img_data img_bss_size img_section img_relocs].
        f_equal. rewrite alter_last. by destruct sym.
      * do 2 f_equal. rewrite !set_symbols. cbn [img_symbols img_text img_data img_bss_size img_section img_relocs].
        by rewrite <- app_assoc.
Qed.

Definition add_rel (img : AsmImage) (rel : Reloc) : AsmImage :=
  add_reloc img (rel_section rel) (rel_offset rel) (rel_name rel) (rel_addend rel).

Lemma read_relocs_data data pos img l rest :
  Forall (fun rel => name_ok (rel_name rel) /\ is_i32 (rel_section rel) /\ is_i32 (rel_offset rel) /\
                     is_i32 (rel_addend rel)) l ->
  data_at data pos (mjoin (reloc_bytes <$> l) ++ rest) ->
  read_relocs img data pos (length l) = Ok (fold_left add_rel l img).
Proof.
  revert img pos. induction l as [|rel l IH]; intros img pos Hf H; [done|].
  inversion Hf as [|? ? (Hn & Hs & Ho & Hg) Hf']; subst. cbn [fmap list_fmap mjoin list_join] in H.
  rewrite <- app_assoc in H. apply data_at_app in H as [H0 H]. cbn [length read_relocs].
  unfold reloc_bytes in H0, H at 1. rewrite (read_entry_data _ _ _ _ _ _ Hn Hs Ho Hg H0).
  rewrite entry_bytes_length in H. cbn [mbind res_bind]. rewrite (IH _ _ Hf' H). done.
Qed.

(** What is left of an image that went through an object file. *)
Definition stripped (img : AsmImage) : AsmImage :=
  Build_AsmImage (img_text img) (img_data img) (img_bss_size img) SEC_TEXT
    (List.filter is_defined (img_symbols img)) [].
Definition reload (img : AsmImage) : AsmImage := fold_left add_rel (img_relocs img) (stripped img).

Lemma Forall_filter {A} (P : A -> Prop) p (l : list A) : Forall P l -> Forall P (List.filter p l).
Proof. induction 1; cbn; [done|]. case_match; [by constructor|done]. Qed.

Lemma filter_names p l : NoDup (sym_name <$> l) -> NoDup (sym_name <$> List.filter p l).
Proof.
  induction l as [|s l IH]; cbn; [done|]. intros H. apply NoDup_cons in H as [H1 H2].
  case_match; [|by apply IH]. cbn. apply NoDup_cons. split; [|by apply IH].
  intros Hin. apply H1. apply list_elem_of_fmap in Hin as (t & E & Ht). apply list_elem_of_fmap. exists t.
  split; [done|]. apply list_elem_of_In in Ht. apply filter_In in Ht as [Ht _]. by apply list_elem_of_In.
Qed.

Lemma small_section n : n = 0 \/ n = SEC_TEXT \/ n = SEC_DATA \/ n = SEC_BSS -> is_i32 n.
Proof. unfold SEC_TEXT, SEC_DATA, SEC_BSS, is_i32. lia. Qed.

Lemma section_small img n : image_small img -> section_size img n < 2 ^ 31.
Proof. intros (H1 & H2 & _). unfold section_size. by case_match. Qed.

(** Reading what was written. *)
Lemma read_write_object img :
  image_ok img -> image_small img -> read_object_image (write_object_image img) = Ok (reload img).
Proof.
  intros H Hsm. pose proof Hsm as (Ht & Hd & Hs & Hr).
  set (defs := List.filter is_defined (img_symbols img)).
  assert (Hdef : Forall (fun sym => name_ok (sym_name sym) /\ is_i32 (sym_section sym) /\ is_i32 (sym_offset sym) /\
                     is_i32 (sym_global sym)) defs).
  { apply Forall_filter. eapply Forall_impl; [apply (io_symbols _ H)|]. intros sym [Hn Hsec Hg Hin Hoff].
    split; [done|]. split; [by apply small_section|]. split; [|unfold is_i32; lia].
    destruct Hsec as [E|[E|[E|E]]]; [apply Hoff; by right| | |apply Hoff; by left];
      pose proof (section_small img (sym_section sym) Hsm); unfold is_i32; (destruct Hin as [? ?]; [tauto|lia]). }
  assert (Hrel : Forall (fun rel => name_ok (rel_name rel) /\ is_i32 (rel_section rel) /\ is_i32 (rel_offset rel) /\
                     is_i32 (rel_addend rel)) (img_relocs img)).
  { eapply Forall_impl; [apply (io_relocs _ H)|]. intros rel [Hn Hsec Hin Ha].
    split; [done|]. split; [apply small_section; tauto|]. split; [|done].
    pose proof (section_small img (rel_section rel) Hsm). unfold is_i32. lia. }
  assert (Hcount : Z.of_nat (length defs) <= Z.of_nat (length (img_symbols img))).
  { apply inj_le, filter_length_le. }
  set (body := img_text img ++ img_data img ++ mjoin (symbol_bytes <$> defs) ++ mjoin (reloc_bytes <$> img_relocs img) ++ []).
  assert (Ew : write_object_image img = word32 OBJ_MAGIC ++ word32 (text_size img) ++ word32 (data_size img) ++
    word32 (img_bss_size img) ++ word32 (Z.of_nat (length defs)) ++ word32 (Z.of_nat (length (img_relocs img))) ++ body).
  { unfold write_object_image. fold defs. rewrite !put32_app.
    rewrite (push_all_app (img_text img)) by apply (io_text _ H). rewrite (push_all_app (img_data img)) by apply (io_data _ H).
    rewrite put_symbols_app by (eapply Forall_impl; [exact Hdef|]; by intros ? [? _]).
    rewrite put_relocs_app by (eapply Forall_impl; [exact Hrel|]; by intros ? [? _]).
    unfold body. rewrite app_nil_r, <- !app_assoc. done. }
  rewrite Ew. set (data := _ ++ _).
  assert (H0 : data_at data 0 data) by (split; [done|]; exists []; rewrite app_nil_r; split; [done|apply Nat.le_0_l]).
  assert (24 <= Z.of_nat (length data)) as H24.
  { unfold data. rewrite !length_app. cbn [word32 fmap list_fmap length]. lia. }
  unfold read_object_image. rewrite (proj2 (Z.ltb_ge _ 24)) by done.
  unfold data at 2 in H0. clearbody data.
  apply data_at_word in H0 as [W0 H0]. apply data_at_word in H0 as [W1 H0]. apply data_at_word in H0 as [W2 H0].
  apply data_at_word in H0 as [W3 H0]. apply data_at_word in H0 as [W4 H0]. apply data_at_word in H0 as [W5 H0].
  change (0 + 4) with 4 in *. change (4 + 4) with 8 in *. change (8 + 4) with 12 in *.
  change (12 + 4) with 16 in *. change (16 + 4) with 20 in *. change (20 + 4) with 24 in *. rewrite W0, W1, W2, W3, W4, W5. cbn [mbind res_bind].
  change (negb (i32 OBJ_MAGIC =? OBJ_MAGIC)) with false. cbv iota.
  unfold text_size, data_size in *. pose proof (io_bss _ H) as Hbss.
  rewrite !i32_id by (done || (unfold is_i32; lia)). rewrite !Nat2Z.id. unfold body in H0.
  apply data_at_app in H0 as [Htx H0]. rewrite (read_bytes_data _ _ _ Htx). cbn [mbind res_bind].
  apply data_at_app in H0 as [Hda H0]. rewrite (read_bytes_data _ _ _ Hda). cbn [mbind res_bind].
  edestruct (read_symbols_data data) as (pos' & -> & Hp); [exact Hdef| |exact H0|].
  { cbn. apply filter_names, (io_names _ H). }
  cbn [mbind res_bind]. rewrite (read_relocs_data _ _ _ _ _ Hrel Hp). done.
Qed.

(** ** What the linker sees of an image *)

Definition defined (img : AsmImage) : list Symbol := List.filter is_defined (img_symbols img).

Record same_image (i1 i2 : AsmImage) : Prop := {
  si_text : img_text i1 = img_text i2;
  si_data : img_data i1 = img_data i2;
  si_bss : img_bss_size i1 = img_bss_size i2;
  si_relocs : img_relocs i1 = img_relocs i2;
  si_defined : defined i1 = defined i2;
  si_names1 : NoDup (sym_name <$> img_symbols i1);
  si_names2 : NoDup (sym_name <$> img_symbols i2);
}.

Record same_placed (p1 p2 : placed) : Prop := {
  sp_image : same_image (pl_image p1) (pl_image p2);
  sp_text : pl_text p1 = pl_text p2;
  sp_data : pl_data p1 = pl_data p2;
  sp_bss : pl_bss p1 = pl_bss p2;
}.

(** Results that agree up to a relation. *)
Definition same_res {A} (R : A -> A -> Prop) (r1 r2 : res A) : Prop :=
  match r1, r2 with
  | Ok a, Ok b => R a b
  | Err e, Err e' => e = e'
  | _, _ => False
  end.

Lemma same_res_bind {A B} (R : A -> A -> Prop) (S : B -> B -> Prop) m1 m2 (f1 f2 : A -> res B) :
  same_res R m1 m2 -> (forall a b, R a b -> same_res S (f1 a) (f2 b)) ->
  same_res S (m1 ≫= f1) (m2 ≫= f2).
Proof. unfold same_res. destruct m1, m2; cbn; intros H Hf; [by apply Hf|done|done|done]. Qed.

Lemma same_res_refl {A} (R : A -> A -> Prop) r : (forall a, R a a) -> same_res R r r.
Proof. destruct r; cbn; auto. Qed.

Lemma find_filter {A} (p q : A -> bool) l :
  List.find q (List.filter p l) = List.find (fun x => q x && p x) l.
Proof. induction l as [|x l IH]; cbn; [done|]. destruct (p x) eqn:Ep; cbn; destruct (q x); cbn; rewrite ?Ep; done. Qed.

(** The symbol of a name, when the image defines it. *)
Definition own_symbol (img : AsmImage) (name : list Z) : option Symbol :=
  List.find (fun sym => bool_decide (sym_name sym = name)) (defined img).

Lemma find_defined img name :
  NoDup (sym_name <$> img_symbols img) ->
  let si := find_symbol img name in
  let sym := symbol_at img (Z.to_nat si) in
  (if (si >=? 0) && is_defined sym then Some sym else None) = own_symbol img name.
Proof.
  intros Hd. unfold own_symbol, defined. rewrite find_filter. cbv zeta.
  assert (Hat : forall sym, List.find (fun x => bool_decide (sym_name x = name) && is_defined x) (img_symbols img) = Some sym ->
    sym_name sym = name /\ is_defined sym = true /\ exists j, img_symbols img !! j = Some sym).
  { intros sym E. apply List.find_some in E as [Hin E]. apply andb_true_iff in E as [E E2].
    apply bool_decide_eq_true in E. split; [done|]. split; [done|].
    by apply list_elem_of_lookup, list_elem_of_In. }
  destruct (find_symbol_cases img name) as [[-> Hn]|(i & sym & -> & Hi & Hs)].
  - change (-1 >=? 0) with false. cbn [andb]. destruct (List.find _ _) as [sym|]; [|done].
    destruct (Hat sym eq_refl) as (E & _ & j & Hj). exfalso. apply Hn. rewrite <- E.
    apply list_elem_of_fmap. exists sym. split; [done|]. by eapply list_elem_of_lookup_2.
  - rewrite (proj2 (Z.leb_le 0 _)) by lia. cbn [andb]. rewrite Nat2Z.id. unfold symbol_at.
    rewrite (nth_lookup_Some _ _ _ _ Hi). destruct (List.find _ _) as [sym'|] eqn:E.
    + destruct (Hat sym' eq_refl) as (E1 & E2 & j & Hj).
      assert (j = i) as -> by (eapply NoDup_lookup; [exact Hd| |]; rewrite list_lookup_fmap; rewrite ?Hi, ?Hj; cbn; by f_equal; congruence).
      rewrite Hi in Hj. injection Hj as ->. by rewrite E2.
    + apply list_elem_of_lookup_2, list_elem_of_In in Hi. pose proof (List.find_none _ _ E _ Hi) as Hf.
      cbn in Hf. rewrite bool_decide_eq_true_2 in Hf by done. change (is_defined sym = false) in Hf. by rewrite Hf.
Qed.

(** A relocation resolves to the symbol of that name that the image defines. *)
Lemma resolve_defined globals p rel :
  NoDup (sym_name <$> img_symbols (pl_image p)) ->
  resolve globals p rel =
  match own_symbol (pl_image p) (rel_name rel) with
  | Some sym => symbol_addr p sym
  | None => match find_global globals (rel_name rel) with
            | None => die (str "undefined symbol: " ++ rel_name rel)
            | Some g => Ok g.2
            end
  end.
Proof. intros Hd. rewrite <- find_defined by done. unfold resolve, is_defined. cbv zeta. by case_match. Qed.

Lemma defines_start_own img :
  NoDup (sym_name <$> img_symbols img) ->
  defines_start img = match own_symbol img (str "_start") with Some _ => true | None => false end.
Proof. intros Hd. rewrite <- find_defined by done. unfold defines_start. cbv zeta. by destruct (_ && _). Qed.

Lemma symbol_addr_same p1 p2 sym : same_placed p1 p2 -> symbol_addr p1 sym = symbol_addr p2 sym.
Proof. intros [_ H1 H2 H3]. unfold symbol_addr. by rewrite H1, H2, H3. Qed.

Lemma collect_filter p syms globals :
  collect_symbols p syms globals = collect_symbols p (List.filter is_defined syms) globals.
Proof.
  revert globals. induction syms as [|sym syms IH]; intros globals; [done|]. cbn [collect_symbols List.filter].
  change (is_defined sym) with (negb (sym_section sym =? 0)).
  destruct (sym_section sym =? 0) eqn:E; cbn [negb].
  - rewrite orb_true_r. apply IH.
  - cbn [collect_symbols]. rewrite E. destruct (_ || _); [apply IH|]. destruct (find_global _ _); [done|].
    destruct (symbol_addr p sym); cbn; [apply IH|done].
Qed.

Lemma collect_same p1 p2 globals :
  same_placed p1 p2 ->
  collect_symbols p1 (img_symbols (pl_image p1)) globals = collect_symbols p2 (img_symbols (pl_image p2)) globals.
Proof.
  intros H. rewrite (collect_filter p1), (collect_filter p2). pose proof (si_defined _ _ (sp_image _ _ H)) as E.
  unfold defined in E. rewrite E. generalize (List.filter is_defined (img_symbols (pl_image p2))) as l. intros l.
  revert globals. induction l as [|sym l IH]; intros globals; [done|]. cbn [collect_symbols].
  destruct (_ || _); [apply IH|]. destruct (find_global _ _); [done|]. rewrite (symbol_addr_same p1 p2) by done.
  destruct (symbol_addr p2 sym); cbn; [apply IH|done].
Qed.

Lemma resolve_same globals p1 p2 rel :
  same_placed p1 p2 -> resolve globals p1 rel = resolve globals p2 rel.
Proof.
  intros H. pose proof H as [[Ht Hda Hb Hr Hdf Hn1 Hn2] H1 H2 H3].
  rewrite !resolve_defined by done. unfold own_symbol. rewrite Hdf. case_match; [by apply symbol_addr_same|done].
Qed.

Lemma patch_reloc_same p1 p2 rel v :
  same_placed p1 p2 -> same_res same_placed (patch_reloc p1 rel v) (patch_reloc p2 rel v).
Proof.
  intros [[Ht Hda Hb Hr Hdf Hn1 Hn2] H1 H2 H3]. unfold patch_reloc, text_size, data_size. rewrite Ht, Hda.
  destruct (rel_section rel =? SEC_TEXT).
  - destruct (_ <? _); [done|]. destruct (_ <? 0); [done|]. split; [|done..]. split; try done.
    unfold setf, set_img_text. cbn. by rewrite Ht.
  - destruct (_ <? _); [done|]. destruct (_ <? 0); [done|]. split; [|done..]. split; try done.
    unfold setf, set_img_data. cbn. by rewrite Hda.
Qed.

Lemma apply_reloc_same globals p1 p2 rel :
  same_placed p1 p2 -> same_res same_placed (apply_reloc globals p1 rel) (apply_reloc globals p2 rel).
Proof.
  intros H. unfold apply_reloc. rewrite (resolve_same globals p1 p2) by done.
  destruct (resolve globals p2 rel); cbn; [by apply patch_reloc_same|done].
Qed.

Lemma apply_relocs_same globals rels p1 p2 :
  same_placed p1 p2 -> same_res same_placed (apply_relocs globals p1 rels) (apply_relocs globals p2 rels).
Proof.
  revert p1 p2. induction rels as [|rel rels IH]; intros p1 p2 H; [done|]. cbn [apply_relocs].
  eapply same_res_bind; [by apply apply_reloc_same|]. intros a b Hab. by apply IH.
Qed.

Lemma relocate_same globals ps1 ps2 :
  Forall2 same_placed ps1 ps2 -> same_res (Forall2 same_placed) (relocate globals ps1) (relocate globals ps2).
Proof.
  induction 1 as [|p1 p2 ps1 ps2 H Hs IH]; [by constructor|]. cbn [relocate].
  rewrite (si_relocs _ _ (sp_image _ _ H)).
  eapply same_res_bind; [by apply apply_relocs_same|]. intros a b Hab.
  eapply same_res_bind; [exact IH|]. intros qs1 qs2 Hqs. by constructor.
Qed.

Lemma collect_globals_same ps1 ps2 globals :
  Forall2 same_placed ps1 ps2 -> collect_globals ps1 globals = collect_globals ps2 globals.
Proof.
  intros H. revert globals. induction H as [|p1 p2 ps1 ps2 H Hs IH]; intros globals; [done|]. cbn [collect_globals].
  rewrite (collect_same p1 p2) by done. destruct (collect_symbols _ _ _); cbn; [apply IH|done].
Qed.

Lemma executable_same ps1 ps2 entry data_end mem_end :
  Forall2 same_placed ps1 ps2 -> executable ps1 entry data_end mem_end = executable ps2 entry data_end mem_end.
Proof.
  intros H. unfold executable. f_equal.
  generalize (pwrite32 (pwrite32 (pwrite32 (fun _ : Z => 0) 0 CFG_EXEC_MAGIC) 4 entry) 8 (mem_end - CFG_USER_LOAD_BASE)) as m.
  induction H as [|p1 p2 ps1 ps2 H Hs IH]; intros m; [done|]. cbn [fold_left].
  destruct H as [[Ht Hd _ _ _ _ _] H1 H2 H3]. rewrite Ht, Hd, H1, H2. apply IH.
Qed.

Lemma place_same i1 i2 :
  Forall2 same_image i1 i2 ->
  Forall2 same_placed (place i1).1.1 (place i2).1.1 /\ (place i1).1.2 = (place i2).1.2 /\ (place i1).2 = (place i2).2.
Proof.
  intros H.
  assert (text_size <$> i1 = text_size <$> i2) as Et
    by (clear -H; induction H as [|a b ? ? [] ? IH]; cbn; [done|]; f_equal; [unfold text_size; congruence|done]).
  assert (data_size <$> i1 = data_size <$> i2) as Ed
    by (clear -H; induction H as [|a b ? ? [] ? IH]; cbn; [done|]; f_equal; [unfold data_size; congruence|done]).
  assert (img_bss_size <$> i1 = img_bss_size <$> i2) as Eb
    by (clear -H; induction H as [|a b ? ? [] ? IH]; cbn; [done|]; f_equal; [congruence|done]).
  unfold place. rewrite Et, Ed, Eb.
  destruct (layout _ (text_size <$> i2)) as [tb te]. destruct (layout _ (data_size <$> i2)) as [db de].
  destruct (layout _ (img_bss_size <$> i2)) as [bb me]. cbn. split; [|done].
  generalize (zip tb (zip db bb)) as bases. clear Et Ed Eb. induction H as [|a b l1 l2 H Hs IH]; intros bases; [constructor|].
  destruct bases as [|(t & d & bs) bases]; cbn; [constructor|]. constructor; [by split|apply IH].
Qed.

Lemma link_images_same i1 i2 : Forall2 same_image i1 i2 -> link_images i1 = link_images i2.
Proof.
  intros H. destruct (place_same i1 i2 H) as (H1 & H2 & H3). unfold link_images.
  destruct (place i1) as [[ps1 de1] me1]. destruct (place i2) as [[ps2 de2] me2]. cbn in H1, H2, H3. subst.
  rewrite (collect_globals_same ps1 ps2) by done. destruct (collect_globals ps2 []) as [globals|e]; cbn; [|done].
  pose proof (relocate_same globals ps1 ps2 H1) as Hr. unfold same_res in Hr.
  destruct (relocate globals ps1) as [qs1|], (relocate globals ps2) as [qs2|]; cbn; try done; [|by subst].
  destruct (_ <? 0); [done|]. f_equal. by apply executable_same.
Qed.

(** ** The image that comes back *)

Lemma add_rel_fields img rel :
  img_text (add_rel img rel) = img_text img /\ img_data (add_rel img rel) = img_data img /\
  img_bss_size (add_rel img rel) = img_bss_size img /\ img_relocs (add_rel img rel) = img_relocs img ++ [rel] /\
  defined (add_rel img rel) = defined img /\
  (NoDup (sym_name <$> img_symbols img) -> NoDup (sym_name <$> img_symbols (add_rel img rel))).
Proof.
  unfold add_rel, add_reloc. set (img1 := img <| img_relocs ::= _ |>).
  assert (img_relocs img1 = img_relocs img ++ [rel]) as Er by by destruct rel.
  destruct (decide (rel_name rel ∈ (sym_name <$> img_symbols img1))) as [Hin|Hn].
  - rewrite ensure_symbol_old by done. by repeat split.
  - rewrite ensure_symbol_new by done. cbn [fst]. rewrite set_symbols. cbn [img_text img_data img_bss_size img_relocs].
    do 4 (split; [done|]). unfold defined. cbn [img_symbols]. split.
    + rewrite List.filter_app. cbn. by rewrite app_nil_r.
    + intros Hd. rewrite fmap_app. apply NoDup_app. split; [done|]. split; [|apply NoDup_singleton].
      intros x Hx. cbn. intros ->%list_elem_of_singleton. done.
Qed.

Lemma reload_same img : image_ok img -> same_image img (reload img).
Proof.
  intros H. unfold reload.
  assert (Hf : forall rels im, NoDup (sym_name <$> img_symbols im) ->
    let im' := fold_left add_rel rels im in
    img_text im' = img_text im /\ img_data im' = img_data im /\ img_bss_size im' = img_bss_size im /\
    img_relocs im' = img_relocs im ++ rels /\ defined im' = defined im /\ NoDup (sym_name <$> img_symbols im')).
  { intros rels. induction rels as [|rel rels IH]; intros im Hd; cbn [fold_left].
    - rewrite app_nil_r. done.
    - destruct (add_rel_fields im rel) as (E1 & E2 & E3 & E4 & E5 & E6).
      destruct (IH (add_rel im rel)) as (F1 & F2 & F3 & F4 & F5 & F6); [by apply E6|].
      rewrite F1, F2, F3, F4, F5, E1, E2, E3, E4, E5, <- app_assoc. done. }
  destruct (Hf (img_relocs img) (stripped img)) as (F1 & F2 & F3 & F4 & F5 & F6).
  { apply filter_names, (io_names _ H). }
  split; rewrite ?F1, ?F2, ?F3, ?F4, ?F5; try done; [|apply (io_names _ H)].
  unfold defined, stripped. cbn. induction (img_symbols img) as [|s l IH]; [done|]. cbn.
  destruct (is_defined s) eqn:E; cbn; rewrite ?E; [f_equal|]; exact IH.
Qed.
