(* ===== verification/GuestAsmSpec.v ===== *)
(** * GuestAsmSpec: the assembler makes well-formed images

    Whatever text is assembled, a result is an image with distinct symbols, offsets
    inside their sections, and relocations on disjoint words. *)

From Stdlib Require Import Sorted.
From S2P Require Import Prelude Config Kernel Klog RawMem UserMem LibString LibFormat LibStringSpec LibNumberSpec GuestAsm GuestLink GuestObjSpec.

(** ** Pieces of a text *)

Lemma span_left p s : (span p s).1 `sublist_of` s.
Proof. rewrite (span_app p s) at 2. apply sublist_inserts_r. done. Qed.

Lemma span_right p s : (span p s).2 `sublist_of` s.
Proof. rewrite (span_app p s) at 2. by apply sublist_inserts_l. Qed.

Lemma skip_ws_sub s : skip_ws s `sublist_of` s.
Proof. apply span_right. Qed.

Lemma rtrim_sub s : rtrim s `sublist_of` s.
Proof.
  unfold rtrim. pose proof (span_app is_ws (rev s)) as E. apply (f_equal (@rev Z)) in E.
  rewrite rev_involutive, rev_app_distr in E. unfold skip_ws. rewrite E at 2. by apply sublist_inserts_r.
Qed.

Lemma tail_sub {A} (s : list A) : tail s `sublist_of` s.
Proof. destruct s; [done|]. by apply sublist_cons. Qed.

Lemma strip_comment_sub b c s : strip_comment_from b c s `sublist_of` s.
Proof.
  revert b c. induction s as [|d s IH]; intros b c; [done|]. cbn [strip_comment_from].
  destruct (_ && _); [apply sublist_nil_l|]. by apply sublist_skip.
Qed.

Lemma split_fields_sub b c s : Forall (fun f => f `sublist_of` s) (split_fields b c s).
Proof.
  revert b c. induction s as [|d s IH]; intros b c; cbn [split_fields]; [by apply Forall_singleton|].
  set (b' := if toggles d c then negb b else b). specialize (IH b' d).
  destruct ((d =? 44) && negb b').
  - constructor; [apply sublist_nil_l|]. eapply Forall_impl; [exact IH|]. intros f Hf. by apply sublist_cons.
  - destruct (split_fields b' d s) as [|f fs]; [apply Forall_singleton; by apply sublist_skip, sublist_nil_l|].
    inversion IH; subst. constructor; [by apply sublist_skip|]. eapply Forall_impl; [eassumption|].
    intros g Hg. by apply sublist_cons.
Qed.

Lemma split_lines_sub s : Forall (fun f => f `sublist_of` s) (split_lines s).
Proof.
  induction s as [|d s IH]; cbn [split_lines]; [constructor|]. destruct (d =? 10).
  - constructor; [apply sublist_nil_l|]. eapply Forall_impl; [exact IH|]. intros f Hf. by apply sublist_cons.
  - destruct (split_lines s) as [|f fs]; [apply Forall_singleton; by apply sublist_skip, sublist_nil_l|].
    inversion IH; subst. constructor; [by apply sublist_skip|]. eapply Forall_impl; [eassumption|].
    intros g Hg. by apply sublist_cons.
Qed.

Lemma name_ok_sub s s' : s' `sublist_of` s -> name_ok s -> name_ok s'.
Proof.
  intros H [Hf Hl]. split; [|apply sublist_length in H; lia].
  apply Forall_forall. intros c Hc. rewrite Forall_forall in Hf. apply Hf.
  eapply elem_of_submseteq; [exact Hc|]. by apply sublist_submseteq.
Qed.

(** ** Operations on images *)

(** The sections hold code and the current one is a real one. *)
Record asm_ok (img : AsmImage) : Prop := {
  ao_image : image_ok img;
  ao_section : img_section img = SEC_TEXT \/ img_section img = SEC_DATA \/ img_section img = SEC_BSS;
}.

Lemma asm_ok_empty : asm_ok empty_image.
Proof. split; [|by left]. split; try constructor; cbn; lia. Qed.

(** Bytes at the end of the current section. *)
Definition appended (img : AsmImage) (bs : list Z) : AsmImage :=
  if img_section img =? SEC_TEXT then img <| img_text ::= fun b => b ++ bs |>
  else img <| img_data ::= fun b => b ++ bs |>.

Lemma appended_fields img bs :
  img_section (appended img bs) = img_section img /\ img_symbols (appended img bs) = img_symbols img /\
  img_relocs (appended img bs) = img_relocs img /\ img_bss_size (appended img bs) = img_bss_size img.
Proof. unfold appended. by case_match. Qed.

Lemma appended_text img bs :
  img_text (appended img bs) = if img_section img =? SEC_TEXT then img_text img ++ bs else img_text img.
Proof. unfold appended. by case_match. Qed.

Lemma appended_data img bs :
  img_data (appended img bs) = if img_section img =? SEC_TEXT then img_data img else img_data img ++ bs.
Proof. unfold appended. by case_match. Qed.

Lemma section_size_appended img bs n :
  section_size img n <= section_size (appended img bs) n.
Proof.
  unfold section_size, text_size, data_size. rewrite appended_text, appended_data.
  repeat case_match; rewrite ?length_app; lia.
Qed.

Lemma emit_byte_run img v :
  img_section img <> SEC_BSS -> emit_byte img v = Ok (appended img [Z.land v 255]).
Proof. intros H. unfold emit_byte, appended. by rewrite (proj2 (Z.eqb_neq _ _) H). Qed.

Lemma appended_app img bs bs' : appended (appended img bs) bs' = appended img (bs ++ bs').
Proof.
  unfold appended at 1. rewrite (proj1 (appended_fields img bs)). unfold appended.
  case_match; unfold setf, set_img_text, set_img_data; cbn; by rewrite app_assoc.
Qed.

Lemma emit_word_run img v :
  img_section img <> SEC_BSS -> emit_word_raw img v = Ok (appended img (word32 v)).
Proof.
  intros H. unfold emit_word_raw.
  do 3 (rewrite emit_byte_run by (rewrite ?(proj1 (appended_fields _ _)); done); cbn [mbind res_bind]).
  rewrite emit_byte_run by (rewrite ?(proj1 (appended_fields _ _)); done).
  by rewrite !appended_app, <- (Z.shiftr_0_r v) at 1.
Qed.

Lemma emit_byte_bss img v : img_section img = SEC_BSS -> emit_byte img v = die (str "cannot emit bytes in .bss").
Proof. intros H. unfold emit_byte. by rewrite H. Qed.

Lemma symbol_ok_grow img img' sym :
  (forall n, section_size img n <= section_size img' n) -> symbol_ok img sym -> symbol_ok img' sym.
Proof. intros H [? ? ? Hin ?]. split; try done. intros Hs. specialize (H (sym_section sym)). specialize (Hin Hs). lia. Qed.

Lemma reloc_ok_grow img img' rel :
  (forall n, section_size img n <= section_size img' n) -> reloc_ok img rel -> reloc_ok img' rel.
Proof. intros H [? ? ? ?]. split; try done. specialize (H (rel_section rel)). lia. Qed.

(** The bytes of an image may grow. *)
Lemma asm_ok_grow img img' :
  asm_ok img -> img_section img' = img_section img -> img_symbols img' = img_symbols img ->
  img_relocs img' = img_relocs img -> is_i32 (img_bss_size img') ->
  Forall is_byte (img_text img') -> Forall is_byte (img_data img') ->
  (forall n, section_size img n <= section_size img' n) -> asm_ok img'.
Proof.
  intros [[? ? ? Hn Hsy Hre Hap] Hs] E1 E2 E3 Hb Ht Hd Hg. split; [|by rewrite E1]. split; rewrite ?E2, ?E3; try done.
  - eapply Forall_impl; [exact Hsy|]. intros sym. by apply symbol_ok_grow.
  - eapply Forall_impl; [exact Hre|]. intros rel. by apply reloc_ok_grow.
Qed.

Lemma asm_ok_appended img bs : asm_ok img -> Forall is_byte bs -> asm_ok (appended img bs).
Proof.
  intros H Hb. destruct (appended_fields img bs) as (E1 & E2 & E3 & E4).
  pose proof (ao_image _ H) as Hi.
  eapply asm_ok_grow; [exact H|done|done|done|rewrite E4; apply (io_bss _ Hi)|..].
  - rewrite appended_text. case_match; [apply Forall_app; split; [apply (io_text _ Hi)|done]|apply (io_text _ Hi)].
  - rewrite appended_data. case_match; [apply (io_data _ Hi)|apply Forall_app; split; [apply (io_data _ Hi)|done]].
  - apply section_size_appended.
Qed.

Lemma byte_land v : is_byte (Z.land v 255).
Proof. change 255 with (Z.ones 8). rewrite Z.land_ones by lia. apply Z.mod_pos_bound. lia. Qed.

Lemma asm_ok_emit_byte img v img' : asm_ok img -> emit_byte img v = Ok img' -> asm_ok img'.
Proof.
  intros H E. destruct (Z.eq_dec (img_section img) SEC_BSS) as [Hb|Hb]; [by rewrite emit_byte_bss in E|].
  rewrite emit_byte_run in E by done. injection E as <-. apply asm_ok_appended; [done|].
  repeat constructor; apply byte_land.
Qed.

Lemma asm_ok_emit_word img v img' : asm_ok img -> emit_word_raw img v = Ok img' -> asm_ok img'.
Proof.
  intros H E. destruct (Z.eq_dec (img_section img) SEC_BSS) as [Hb|Hb].
  { unfold emit_word_raw in E. by rewrite emit_byte_bss in E. }
  rewrite emit_word_run in E by done. injection E as <-. apply asm_ok_appended; [done|].
  rewrite word32_le. apply le_bytes32_bytes.
Qed.

Lemma asm_ok_reserve img n img' : asm_ok img -> reserve_bytes img n = Ok img' -> asm_ok img'.
Proof.
  intros H E. unfold reserve_bytes in E. destruct (n <? 0); [done|]. injection E as <-.
  pose proof (ao_image _ H) as Hi.
  destruct (Z.eqb_spec (img_section img) SEC_BSS) as [Hb|Hb].
  - eapply asm_ok_grow; [exact H|done|done|done|apply i32_range|apply (io_text _ Hi)|apply (io_data _ Hi)|done].
  - change (asm_ok (appended img (replicate (Z.to_nat n) 0))). apply asm_ok_appended; [done|].
    apply Forall_replicate. unfold is_byte. lia.
Qed.

(** ** Symbols and relocations *)

Lemma section_size_symbols img f n : section_size (img <| img_symbols ::= f |>) n = section_size img n.
Proof. done. Qed.

Lemma asm_ok_symbols img f :
  asm_ok img -> NoDup (sym_name <$> f (img_symbols img)) -> Forall (symbol_ok img) (f (img_symbols img)) ->
  asm_ok (img <| img_symbols ::= f |>).
Proof.
  intros [[? ? ? Hn Hsy Hre Hap] Hs] Hd Hf. split; [|done]. split; try done.
  - eapply Forall_impl; [exact Hf|]. intros sym. by apply symbol_ok_grow.
  - eapply Forall_impl; [exact Hre|]. intros rel. by apply reloc_ok_grow.
Qed.

Lemma asm_ok_alter img i f :
  asm_ok img ->
  (forall sym, img_symbols img !! i = Some sym -> symbol_ok img sym -> sym_name (f sym) = sym_name sym /\ symbol_ok img (f sym)) ->
  asm_ok (img <| img_symbols ::= alter f i |>).
Proof.
  intros H Hf. pose proof (io_symbols _ (ao_image _ H)) as Hall. apply asm_ok_symbols; [done|..].
  - assert (sym_name <$> alter f i (img_symbols img) = sym_name <$> img_symbols img) as ->; [|apply (io_names _ (ao_image _ H))].
    apply list_eq. intros j. rewrite !list_lookup_fmap. destruct (decide (i = j)) as [<-|Hne].
    + rewrite list_lookup_alter_eq. destruct (img_symbols img !! i) as [sym|] eqn:E; [|done]. cbn. f_equal.
      apply Hf; [done|]. by apply (Forall_lookup_1 _ _ _ _ Hall E).
    + by rewrite list_lookup_alter_ne.
  - apply Forall_lookup. intros j sym Hj. destruct (decide (i = j)) as [<-|Hne].
    + rewrite list_lookup_alter_eq in Hj. destruct (img_symbols img !! i) as [sym'|] eqn:E; [|done].
      injection Hj as <-. apply Hf; [done|]. by apply (Forall_lookup_1 _ _ _ _ Hall E).
    + rewrite list_lookup_alter_ne in Hj by done. by apply (Forall_lookup_1 _ _ _ _ Hall Hj).
Qed.

Lemma asm_ok_ensure img name : asm_ok img -> name_ok name -> asm_ok (ensure_symbol img name).1.
Proof.
  intros H Hn. destruct (decide (name ∈ (sym_name <$> img_symbols img))) as [Hin|Hnin].
  - by rewrite ensure_symbol_old.
  - rewrite ensure_symbol_new by done. cbn [fst]. apply asm_ok_symbols; [done|..].
    + rewrite fmap_app. apply NoDup_app. split; [apply (io_names _ (ao_image _ H))|]. split; [|apply NoDup_singleton].
      intros x Hx. cbn. by intros ->%list_elem_of_singleton.
    + apply Forall_app. split; [apply (io_symbols _ (ao_image _ H))|]. apply Forall_singleton.
      split; cbn; try done; [by left|by left|intros [?|?]; done].
Qed.

Lemma current_offset_ok img : asm_ok img ->
  (img_section img = SEC_TEXT \/ img_section img = SEC_DATA -> current_offset img = section_size img (img_section img)) /\
  (img_section img = SEC_BSS -> is_i32 (current_offset img)).
Proof.
  intros H. unfold current_offset, section_size, text_size, data_size. split.
  - intros [-> | ->]; done.
  - intros ->. apply (io_bss _ (ao_image _ H)).
Qed.

Lemma asm_ok_define img name img' :
  asm_ok img -> name_ok name -> define_symbol img name = Ok img' -> asm_ok img'.
Proof.
  intros H Hn E. unfold define_symbol in E. pose proof (asm_ok_ensure img name H Hn) as H1.
  destruct (ensure_symbol img name) as [img1 i]. cbn [fst] in H1.
  destruct (negb _); [done|]. injection E as <-.
  destruct (current_offset_ok img1 H1) as [Ho1 Ho2].
  apply asm_ok_alter; [done|]. intros sym _ [Hs1 Hs2 Hs3 Hs4 Hs5]. split; [done|].
  split; cbn; [done|destruct (ao_section _ H1) as [->|[->| ->]]; tauto|done| |].
  - intros Hsec. rewrite Ho1 by done. split; [|done]. unfold section_size, text_size, data_size. case_match; lia.
  - intros [Hsec|Hsec]; [by apply Ho2|]. destruct (ao_section _ H1) as [E|[E|E]]; rewrite E in Hsec; done.
Qed.

Lemma asm_ok_global img name : asm_ok img -> name_ok name -> asm_ok (mark_global img name).
Proof.
  intros H Hn. unfold mark_global. pose proof (asm_ok_ensure img name H Hn) as H1.
  destruct (ensure_symbol img name) as [img1 i]. apply asm_ok_alter; [done|]. intros sym _ [Hs1 Hs2 Hs3 Hs4 Hs5].
  split; [done|]. split; cbn; try done. by right.
Qed.

Lemma sorted_snoc l r : StronglySorted apart l -> Forall (fun r' => apart r' r) l -> StronglySorted apart (l ++ [r]).
Proof.
  induction 1 as [|a l Hl IH Ha]; intros Hf; cbn; [by repeat constructor|]. inversion Hf; subst. constructor.
  - by apply IH.
  - apply Forall_app. split; [done|]. by apply Forall_singleton.
Qed.

(** A reference: the relocation and the four bytes it will patch. *)
Lemma asm_ok_reference img name addend :
  asm_ok img -> img_section img <> SEC_BSS -> name_ok name -> is_i32 addend ->
  asm_ok (appended (add_reloc img (img_section img) (current_offset img) name addend) (word32 0)).
Proof.
  intros H Hb Hn Ha.
  set (r := Build_Reloc (img_section img) (current_offset img) name addend).
  assert (Hsec : img_section img = SEC_TEXT \/ img_section img = SEC_DATA) by (destruct (ao_section _ H); tauto).
  destruct (current_offset_ok img H) as [Ho _]. specialize (Ho Hsec).
  set (img1 := appended img (word32 0)).
  assert (H1 : asm_ok img1) by (apply asm_ok_appended; [done|rewrite word32_le; apply le_bytes32_bytes]).
  destruct (appended_fields img (word32 0)) as (E1 & E2 & E3 & E4).
  assert (Hsz : section_size img1 (img_section img) = current_offset img + 4).
  { rewrite Ho. unfold img1, section_size, text_size, data_size. rewrite appended_text, appended_data.
    destruct Hsec as [-> | ->]; cbn; rewrite length_app; cbn; lia. }
  set (img2 := img1 <| img_relocs ::= fun l => l ++ [r] |>).
  assert (H2 : asm_ok img2).
  { destruct H1 as [[? ? ? Hn1 Hsy Hre Hap] Hs]. split; [|done]. split; try done; cbn.
    - eapply Forall_impl; [exact Hsy|]. intros sym. by apply symbol_ok_grow.
    - apply Forall_app. split; [by eapply Forall_impl; [exact Hre|]; intros rel; apply reloc_ok_grow|].
      apply Forall_singleton. split; cbn; [done|done| |done]. change (section_size img2 ?n) with (section_size img1 n).
      rewrite Hsz. split; [|lia]. rewrite Ho. unfold section_size, text_size, data_size. case_match; lia.
    - apply sorted_snoc; [done|]. change (img_relocs img1) with (img_relocs (appended img (word32 0))). rewrite E3. apply Forall_forall. intros r' Hr' Hs'. cbn in *.
      pose proof (io_relocs _ (ao_image _ H)) as Hall. rewrite Forall_forall in Hall.
      destruct (Hall r' Hr') as [_ _ Hin _]. rewrite Hs' in Hin. rewrite Ho. lia. }
  assert (add_reloc img (img_section img) (current_offset img) name addend =
          (ensure_symbol (img <| img_relocs ::= fun l => l ++ [r] |>) name).1) as -> by done.
  assert (appended (ensure_symbol (img <| img_relocs ::= fun l => l ++ [r] |>) name).1 (word32 0) =
          (ensure_symbol img2 name).1) as ->; [|by apply asm_ok_ensure].
  unfold ensure_symbol. change (find_symbol (img <| img_relocs ::= fun l => l ++ [r] |>) name) with (find_symbol img name).
  assert (Hs2 : img_symbols img2 = img_symbols img) by exact E2.
  assert (find_symbol img2 name = find_symbol img name) as -> by (unfold find_symbol; by rewrite Hs2).
  destruct (_ >=? 0); cbn [fst]; unfold img2, img1, appended; cbn; destruct (img_section img =? SEC_TEXT); done.
Qed.

(** ** Parsing keeps it *)

Section parse.
#[local] Set Default Proof Using "Type*".
Context (source : list Z) (Hsource : name_ok source).

Lemma piece_ok s : s `sublist_of` source -> name_ok s.
Proof. intros H. by eapply name_ok_sub. Qed.

Lemma parse_symbol_ref_ok s name addend :
  s `sublist_of` source -> parse_symbol_ref s = Ok (name, addend) -> name_ok name /\ is_i32 addend.
Proof.
  intros Hs E. unfold parse_symbol_ref in E. set (t := skip_ws s) in E.
  assert (Ht : t `sublist_of` source) by (etrans; [apply skip_ws_sub|done]).
  destruct (negb _); [done|]. pose proof (span_left name_char t) as Hl.
  destruct (span name_char t) as [nm p]. cbn [fst] in Hl.
  assert (name_ok nm) by (apply piece_ok; by etrans).
  destruct (_ || _).
  - destruct (parse_uint _) as [n|]; [|done]. injection E as <- <-. split; [done|apply i32_range].
  - destruct (bool_decide _); [|done]. injection E as <- <-. split; [done|]. unfold is_i32. lia.
Qed.

Lemma asm_ok_emit_value img s img' :
  asm_ok img -> s `sublist_of` source -> emit_value img s = Ok img' -> asm_ok img'.
Proof.
  intros H Hs E. unfold emit_value in E. destruct (parse_uint s); [by eapply asm_ok_emit_word|].
  destruct (Z.eqb_spec (img_section img) SEC_BSS) as [|Hb]; [done|].
  destruct (parse_symbol_ref s) as [[name addend]|] eqn:Ep; [|done]. cbn [mbind res_bind] in E.
  destruct (parse_symbol_ref_ok _ _ _ Hs Ep) as [Hn Ha].
  pose proof (asm_ok_reference img name addend H Hb Hn Ha) as H1.
  rewrite emit_word_run in E; [by injection E as <-|].
  unfold add_reloc, ensure_symbol. by case_match.
Qed.

Lemma asm_ok_each {A} (P : A -> Prop) f img ops img' :
  (forall img o img', asm_ok img -> P o -> f img o = Ok img' -> asm_ok img') ->
  asm_ok img -> Forall P ops -> each f img ops = Ok img' -> asm_ok img'.
Proof.
  intros Hf. revert img. induction ops as [|o ops IH]; intros img H Ho E; [by injection E as <-|].
  inversion Ho; subst. cbn [each] in E. destruct (f img o) as [img1|] eqn:E1; [|done]. cbn [mbind res_bind] in E.
  eapply IH; [|done|exact E]. by eapply Hf.
Qed.

Lemma split_operands_sub s n ops :
  s `sublist_of` source -> split_operands s n = Ok ops -> Forall (fun o => o `sublist_of` source) ops.
Proof.
  intros Hs E. unfold split_operands in E. destruct (_ <? _); [done|]. injection E as <-.
  case_bool_decide; [constructor|]. apply Forall_fmap. eapply Forall_impl; [apply split_fields_sub|].
  intros f Hf. cbn in Hf |- *. etrans; [apply rtrim_sub|]. etrans; [apply skip_ws_sub|].
  etrans; [exact Hf|exact Hs].
Qed.

Lemma parse_labels_ok fuel img p img' p' :
  asm_ok img -> p `sublist_of` source -> parse_labels fuel img p = Ok (img', p') ->
  asm_ok img' /\ p' `sublist_of` source.
Proof.
  revert img p. induction fuel as [|fuel IH]; intros img p H Hp E; [by injection E as <- <-|].
  cbn [parse_labels] in E. destruct (negb _); [by injection E as <- <-|].
  pose proof (span_left name_char p) as Hl. pose proof (span_right name_char p) as Hr.
  destruct (span name_char p) as [name q]. cbn [fst snd] in Hl, Hr.
  destruct (negb _); [by injection E as <- <-|].
  destruct (define_symbol img name) as [img1|] eqn:Ed; [|done]. cbn [mbind res_bind] in E.
  assert (asm_ok img1) as H1 by (apply (asm_ok_define img name); [exact H|apply piece_ok; by etrans|exact Ed]).
  assert (skip_ws (tail (skip_ws q)) `sublist_of` source) as Hp1.
  { etrans; [apply skip_ws_sub|]. etrans; [apply tail_sub|]. etrans; [apply skip_ws_sub|]. by etrans. }
  case_bool_decide; [by injection E as <- <-|]. by eapply IH.
Qed.

Lemma asm_ok_instruction img head rest img' :
  asm_ok img -> rest `sublist_of` source -> parse_instruction img head rest = Ok img' -> asm_ok img'.
Proof.
  intros H Hr E. unfold parse_instruction in E. destruct (negb _); [done|].
  destruct (find_spec head) as [spec|]; [|done].
  destruct (split_operands rest 4) as [ops|] eqn:Eo; [|done]. cbn [mbind res_bind] in E.
  destruct (negb _); [done|]. destruct (emit_byte img _) as [img1|] eqn:E1; [|done]. cbn [mbind res_bind] in E.
  pose proof (split_operands_sub _ _ _ Hr Eo) as Hops.
  eapply (asm_ok_each (fun o => o.2 `sublist_of` source)); [|by eapply asm_ok_emit_byte| |exact E].
  - intros im [k o] im' Him Ho Eo'. unfold emit_operand in Eo'. cbn [fst snd] in *.
    destruct k; try (by eapply asm_ok_emit_value).
    destruct (parse_reg o); [|done]. cbn [mbind res_bind] in Eo'. by eapply asm_ok_emit_byte.
  - apply Forall_forall. intros [k o] Hin. apply elem_of_zip_r in Hin. rewrite Forall_forall in Hops. by apply Hops.
Qed.

Lemma asm_ok_section img n :
  asm_ok img -> n = SEC_TEXT \/ n = SEC_DATA \/ n = SEC_BSS -> asm_ok (img <| img_section := n |>).
Proof.
  intros [[? ? ? Hn Hsy Hre Hap] Hs] Hsec. split; [|done]. split; try done.
  - eapply Forall_impl; [exact Hsy|]. intros sym. by apply symbol_ok_grow.
  - eapply Forall_impl; [exact Hre|]. intros rel. by apply reloc_ok_grow.
Qed.

Lemma asm_ok_globals img rest img' :
  asm_ok img -> rest `sublist_of` source -> parse_global img rest = Ok img' -> asm_ok img'.
Proof.
  intros H Hr E. unfold parse_global in E. destruct (split_operands _ 64) as [ops|] eqn:Eo; [|done].
  injection E as <-. pose proof (split_operands_sub _ _ _ Hr Eo) as Hops. clear Eo. revert img H.
  induction Hops as [|o ops Ho Hops IH]; intros im Him; [done|]. cbn. apply IH.
  apply asm_ok_global; [done|by apply piece_ok].
Qed.

Lemma asm_ok_line img line img' :
  asm_ok img -> line `sublist_of` source -> parse_line img line = Ok img' -> asm_ok img'.
Proof.
  intros H Hl E. unfold parse_line in E. set (p := skip_ws (rtrim (strip_comment line))) in E.
  assert (Hp : p `sublist_of` source).
  { etrans; [apply skip_ws_sub|]. etrans; [apply rtrim_sub|]. etrans; [apply strip_comment_sub|done]. }
  case_bool_decide; [by injection E as <-|].
  destruct (parse_labels (length p) img p) as [[img1 p1]|] eqn:E1; [|done]. cbn [mbind res_bind] in E.
  destruct (parse_labels_ok _ _ _ _ _ H Hp E1) as [H1 Hp1]. case_bool_decide; [by injection E as <-|].
  pose proof (span_right (fun c => negb ((c =? 32) || (c =? 9))) p1) as Hr.
  destruct (span _ p1) as [head rest]. cbn [snd] in Hr.
  assert (Hrest : skip_ws rest `sublist_of` source) by (etrans; [apply skip_ws_sub|by etrans]).
  set (h := uppercase head) in E.
  destruct (bool_decide (h = str ".TEXT")); [injection E as <-; apply asm_ok_section; tauto|].
  destruct (bool_decide (h = str ".DATA")); [injection E as <-; apply asm_ok_section; tauto|].
  destruct (bool_decide (h = str ".BSS")); [injection E as <-; apply asm_ok_section; tauto|].
  destruct (_ || _).
  { by eapply asm_ok_globals. }
  destruct (bool_decide (h = str ".BYTE")).
  { unfold parse_byte_directive in E. destruct (split_operands _ 128) as [ops|] eqn:Eo; [|done].
    eapply (asm_ok_each (fun _ => True)); [|exact H1|by apply Forall_true|exact E].
    intros im o im' Him _ Eim. cbn beta in Eim. destruct (parse_uint o); [|done]. by eapply asm_ok_emit_byte. }
  destruct (bool_decide (h = str ".WORD")).
  { unfold parse_word_directive in E. destruct (split_operands _ 64) as [ops|] eqn:Eo; [|done].
    eapply (asm_ok_each (fun o => o `sublist_of` source)); [|exact H1|by eapply split_operands_sub|exact E].
    intros im o im'. by apply asm_ok_emit_value. }
  destruct (_ || _).
  { destruct (parse_uint _); [|done]. by eapply asm_ok_reserve. }
  by eapply asm_ok_instruction.
Qed.

Lemma asm_ok_source img img' :
  asm_ok img -> assemble_source img source = Ok img' -> asm_ok img'.
Proof.
  intros H E. eapply (asm_ok_each (fun o => o `sublist_of` source)); [|exact H|apply split_lines_sub|exact E].
  intros im line im'. by apply asm_ok_line.
Qed.
End parse.

Lemma assemble_ok source img :
  name_ok source -> assemble_source empty_image source = Ok img -> image_ok img.
Proof. intros Hs E. apply ao_image. by eapply (asm_ok_source source); [|apply asm_ok_empty|]. Qed.

(** ** The size of .bss

    What the lines reserve in .bss, read off their text: the section that each line is in,
    and the sum of the sizes of the [.space] and [.zero] lines there. *)

Fixpoint after_labels (fuel : nat) (p : list Z) : list Z :=
  match fuel with
  | O => p
  | S fuel =>
      if negb (name_start (hd0 p)) then p else
      let q := skip_ws (span name_char p).2 in
      if negb (hd0 q =? 58) then p else
      let p := skip_ws (tail q) in
      if bool_decide (p = []) then p else after_labels fuel p
  end.

Definition bss_line (st : Z * Z) (line : list Z) : Z * Z :=
  let p := skip_ws (rtrim (strip_comment line)) in
  let p := after_labels (length p) p in
  let '(head, rest) := span (fun c => negb ((c =? 32) || (c =? 9))) p in
  let isd t := bool_decide (uppercase head = str t) in
  if isd ".TEXT" then (SEC_TEXT, st.2) else if isd ".DATA" then (SEC_DATA, st.2) else if isd ".BSS" then (SEC_BSS, st.2)
  else if (isd ".SPACE" || isd ".ZERO") && (st.1 =? SEC_BSS) then (st.1, st.2 + i32 (default 0 (parse_uint (skip_ws rest))))
  else st.

Definition bss_total (source : list Z) : Z := (foldl bss_line (SEC_TEXT, 0) (split_lines source)).2.

(** Nothing of .bss changes but that symbols are put at its end. *)
Record keeps_bss (img img' : AsmImage) : Prop := {
  kb_section : img_section img' = img_section img;
  kb_size : img_bss_size img' = img_bss_size img;
  kb_symbols : forall sym, sym ∈ img_symbols img' -> sym_section sym = SEC_BSS ->
    sym_offset sym = img_bss_size img \/
    exists sym0, sym0 ∈ img_symbols img /\ sym_section sym0 = SEC_BSS /\ sym_offset sym0 = sym_offset sym;
}.

#[export] Instance keeps_bss_refl : Reflexive keeps_bss.
Proof. intros img. split; [done|done|]. intros sym H Hs. right. by exists sym. Qed.
#[export] Instance keeps_bss_trans : Transitive keeps_bss.
Proof.
  intros i1 i2 i3 [A1 B1 C1] [A2 B2 C2]. split; [congruence|congruence|]. intros sym H Hs.
  destruct (C2 sym H Hs) as [E|(sym0 & H0 & Hs0 & E)]; [left; congruence|].
  destruct (C1 sym0 H0 Hs0) as [E'|(sym1 & H1 & Hs1 & E')]; [left; congruence|]. right. exists sym1. split; [done|]. split; [done|congruence].
Qed.

Lemma keeps_bss_same img img' : img_section img' = img_section img -> img_bss_size img' = img_bss_size img ->
  img_symbols img' = img_symbols img -> keeps_bss img img'.
Proof. intros A B C. split; [done|done|]. rewrite C. intros sym H Hs. right. by exists sym. Qed.

Lemma keeps_bss_appended img bs : keeps_bss img (appended img bs).
Proof. destruct (appended_fields img bs) as (E1 & E2 & E3 & E4). by apply keeps_bss_same. Qed.

Lemma keeps_bss_byte img v img' : emit_byte img v = Ok img' -> keeps_bss img img'.
Proof.
  intros E. destruct (decide (img_section img = SEC_BSS)) as [Hb|Hb]; [by rewrite emit_byte_bss in E|].
  rewrite emit_byte_run in E by done. injection E as <-. apply keeps_bss_appended.
Qed.

Lemma keeps_bss_word img v img' : emit_word_raw img v = Ok img' -> keeps_bss img img'.
Proof.
  intros E. destruct (decide (img_section img = SEC_BSS)) as [Hb|Hb]; [unfold emit_word_raw in E; by rewrite emit_byte_bss in E|].
  rewrite emit_word_run in E by done. injection E as <-. apply keeps_bss_appended.
Qed.

Lemma keeps_bss_ensure img name : keeps_bss img (ensure_symbol img name).1.
Proof.
  unfold ensure_symbol. case_match; [done|]. split; [done|done|]. cbn. intros sym [Hi|Hi]%elem_of_app Hs; [right; by exists sym|].
  apply list_elem_of_singleton in Hi as ->. done.
Qed.

Lemma keeps_bss_alter img i f :
  (forall sym, sym_section (f sym) = SEC_BSS -> sym_offset (f sym) = img_bss_size img \/ (sym_section sym = SEC_BSS /\ sym_offset (f sym) = sym_offset sym)) ->
  keeps_bss img (img <| img_symbols ::= alter f i |>).
Proof.
  intros Hf. split; [done|done|]. cbn. intros sym (j & Hj)%list_elem_of_lookup Hs. destruct (decide (i = j)) as [<-|Hne].
  - rewrite list_lookup_alter_eq in Hj. destruct (img_symbols img !! i) as [sym0|] eqn:E; [|done]. injection Hj as <-.
    destruct (Hf sym0 Hs) as [H|[H1 H2]]; [by left|right]. exists sym0. split; [by eapply list_elem_of_lookup_2|done].
  - rewrite list_lookup_alter_ne in Hj by done. right. exists sym. split; [by eapply list_elem_of_lookup_2|done].
Qed.

Lemma keeps_bss_define img name img' : define_symbol img name = Ok img' -> keeps_bss img img'.
Proof.
  unfold define_symbol. pose proof (keeps_bss_ensure img name) as G. destruct (ensure_symbol img name) as [img1 i]. cbn [fst] in G.
  destruct (negb _); [done|]. intros [= <-]. etrans; [exact G|]. apply keeps_bss_alter. intros sym. cbn. intros Hs. left.
  unfold current_offset. by rewrite Hs.
Qed.

Lemma keeps_bss_global img name : keeps_bss img (mark_global img name).
Proof.
  unfold mark_global. pose proof (keeps_bss_ensure img name) as G. destruct (ensure_symbol img name) as [img1 i]. cbn [fst] in G.
  etrans; [exact G|]. apply keeps_bss_alter. intros sym Hs. by right.
Qed.

Lemma keeps_bss_each {A} f (ops : list A) img img' : (forall img o img', f img o = Ok img' -> keeps_bss img img') ->
  each f img ops = Ok img' -> keeps_bss img img'.
Proof.
  intros Hf. revert img. induction ops as [|o ops IH]; intros img E; [by injection E as <-|].
  cbn [each] in E. destruct (f img o) as [img1|] eqn:E1; [|done]. etrans; [by eapply Hf|by apply IH].
Qed.

Lemma keeps_bss_value img o img' : emit_value img o = Ok img' -> keeps_bss img img'.
Proof.
  unfold emit_value. destruct (parse_uint o); [apply keeps_bss_word|]. destruct (_ =? _); [done|].
  destruct (parse_symbol_ref o) as [[name addend]|]; [|done]. cbn [mbind res_bind]. intros E. apply keeps_bss_word in E.
  etrans; [|exact E]. unfold add_reloc. etrans; [|apply keeps_bss_ensure]. by apply keeps_bss_same.
Qed.

Lemma keeps_bss_instruction img head rest img' : parse_instruction img head rest = Ok img' -> keeps_bss img img'.
Proof.
  unfold parse_instruction. destruct (negb _); [done|]. destruct (find_spec head); [|done].
  destruct (split_operands rest 4); [|done]. cbn [mbind res_bind]. destruct (negb _); [done|].
  destruct (emit_byte img _) as [img1|] eqn:E1; [|done]. cbn [mbind res_bind]. intros E. etrans; [by eapply keeps_bss_byte|].
  eapply keeps_bss_each; [|exact E]. intros im [k o] im' Eo. unfold emit_operand in Eo. cbn [fst snd] in Eo.
  destruct k; try (by eapply keeps_bss_value). destruct (parse_reg o); [|done]. by eapply keeps_bss_byte.
Qed.

Lemma keeps_bss_labels fuel img p img' p' : parse_labels fuel img p = Ok (img', p') -> keeps_bss img img' /\ p' = after_labels fuel p.
Proof.
  revert img p. induction fuel as [|fuel IH]; intros img p E; [by injection E as <- <-|].
  cbn [parse_labels after_labels] in *. destruct (negb _); [by injection E as <- <-|]. destruct (span name_char p) as [name q]. cbn [snd].
  destruct (negb _); [by injection E as <- <-|]. destruct (define_symbol img name) as [img1|] eqn:Ed; [|done]. cbn [mbind res_bind] in E.
  apply keeps_bss_define in Ed. case_bool_decide; [by injection E as <- <-|]. destruct (IH _ _ E) as [H1 H2].
  split; [by etrans|done].
Qed.

(** The size is the total, and every symbol of .bss lies within it. *)
Definition bss_is (total : Z) (img : AsmImage) : Prop :=
  0 <= total /\ (total < 2 ^ 31 -> img_bss_size img = total /\
    Forall (fun sym => sym_section sym = SEC_BSS -> 0 <= sym_offset sym <= total) (img_symbols img)).

Lemma bss_is_keeps total img img' : bss_is total img -> keeps_bss img img' -> bss_is total img'.
Proof.
  intros [H0 H] [K1 K2 K3]. split; [done|]. intros Ht. destruct (H Ht) as [Hb Hs]. split; [congruence|].
  rewrite Forall_forall in Hs. apply Forall_forall. intros sym Hin Hsec. destruct (K3 sym Hin Hsec) as [E|(sym0 & Hin0 & Hs0 & E)].
  - rewrite E, Hb. lia.
  - rewrite <- E. by apply Hs.
Qed.

Lemma bss_is_reserve total img n img' : bss_is total img -> reserve_bytes img (i32 n) = Ok img' ->
  img_section img' = img_section img /\ bss_is (if img_section img =? SEC_BSS then total + i32 n else total) img'.
Proof.
  intros HB E. unfold reserve_bytes in E. destruct (Z.ltb_spec (i32 n) 0); [done|]. injection E as <-.
  destruct (Z.eqb_spec (img_section img) SEC_BSS) as [Hs|Hs].
  - split; [done|]. destruct HB as [H0 HB]. split; [lia|]. intros Ht. destruct HB as [Hb Hsy]; [lia|]. cbn. split.
    + rewrite Hb. apply i32_id. unfold is_i32. lia.
    + eapply Forall_impl; [exact Hsy|]. intros sym Hsym Hsec. specialize (Hsym Hsec). lia.
  - change (img_section (appended img (replicate (Z.to_nat (i32 n)) 0)) = img_section img /\ bss_is total (appended img (replicate (Z.to_nat (i32 n)) 0))).
    split; [apply appended_fields|]. eapply bss_is_keeps; [exact HB|apply keeps_bss_appended].
Qed.

Lemma bss_is_line total img line img' : bss_is total img -> parse_line img line = Ok img' ->
  (bss_line (img_section img, total) line).1 = img_section img' /\ bss_is (bss_line (img_section img, total) line).2 img'.
Proof.
  intros HB E. unfold parse_line in E. unfold bss_line. cbn [fst snd]. set (p := skip_ws (rtrim (strip_comment line))) in *.
  case_bool_decide as Hp; [rewrite Hp; by injection E as <-|].
  destruct (parse_labels (length p) img p) as [[img1 p1]|] eqn:E1; [|done]. cbn [mbind res_bind] in E.
  destruct (keeps_bss_labels _ _ _ _ _ E1) as [K <-]. pose proof (kb_section _ _ K) as Hsec.
  pose proof (bss_is_keeps _ _ _ HB K) as HB1. rewrite <- Hsec.
  case_bool_decide as Hp1; [rewrite Hp1; by injection E as <-|].
  destruct (span _ p1) as [head rest]. set (h := uppercase head) in *.
  assert (Hkeep : forall img', keeps_bss img1 img' -> img_section img1 = img_section img' /\ bss_is total img').
  { intros i K'. split; [by rewrite (kb_section _ _ K')|by eapply bss_is_keeps]. }
  assert (Hset : forall n, bss_is total (img1 <| img_section := n |>)) by done.
  destruct (bool_decide (h = str ".TEXT")); [by injection E as <-|].
  destruct (bool_decide (h = str ".DATA")); [by injection E as <-|].
  destruct (bool_decide (h = str ".BSS")); [by injection E as <-|].
  destruct (bool_decide (h = str ".GLOBAL") || bool_decide (h = str ".GLOBL")) eqn:Eg.
  { assert (bool_decide (h = str ".SPACE") || bool_decide (h = str ".ZERO") = false) as ->.
    { apply orb_true_iff in Eg as [Eg|Eg]; apply bool_decide_eq_true in Eg as ->; reflexivity. }
    cbn [andb fst snd]. apply Hkeep. unfold parse_global in E. destruct (split_operands _ 64) as [ops|]; [|done]. injection E as <-.
    clear. generalize img1. induction ops as [|o ops IH]; intros im; cbn; [done|]. etrans; [apply keeps_bss_global|apply IH]. }
  destruct (bool_decide (h = str ".BYTE")) eqn:Eb.
  { assert (bool_decide (h = str ".SPACE") || bool_decide (h = str ".ZERO") = false) as ->.
    { apply bool_decide_eq_true in Eb as ->. reflexivity. }
    cbn [andb fst snd]. apply Hkeep. unfold parse_byte_directive in E. destruct (split_operands _ 128) as [ops|]; [|done].
    eapply keeps_bss_each; [|exact E]. intros im o im' Eo. cbn beta in Eo. destruct (parse_uint o); [|done]. by eapply keeps_bss_byte. }
  destruct (bool_decide (h = str ".WORD")) eqn:Ew.
  { assert (bool_decide (h = str ".SPACE") || bool_decide (h = str ".ZERO") = false) as ->.
    { apply bool_decide_eq_true in Ew as ->. reflexivity. }
    cbn [andb fst snd]. apply Hkeep. unfold parse_word_directive in E. destruct (split_operands _ 64) as [ops|]; [|done].
    eapply keeps_bss_each; [|exact E]. intros im o im'. apply keeps_bss_value. }
  destruct (bool_decide (h = str ".SPACE") || bool_decide (h = str ".ZERO")); cbn [andb fst snd].
  - destruct (parse_uint (skip_ws rest)) as [n|]; [|done]. cbn [default from_option]. destruct (bss_is_reserve _ _ _ _ HB1 E) as [E1' HB2].
    rewrite E1'. destruct (img_section img1 =? SEC_BSS); by split.
  - apply Hkeep. by eapply keeps_bss_instruction.
Qed.

Lemma bss_is_source source img : assemble_source empty_image source = Ok img -> bss_is (bss_total source) img.
Proof.
  unfold assemble_source, bss_total. change SEC_TEXT with (img_section empty_image).
  assert (H0 : bss_is 0 empty_image) by (split; [lia|]; intros _; split; [done|constructor]).
  revert H0. generalize 0 empty_image. induction (split_lines source) as [|line ls IH]; intros t im H E; [by injection E as <-|].
  cbn [each] in E. destruct (parse_line im line) as [im1|] eqn:E1; [|done]. cbn [mbind res_bind] in E.
  destruct (bss_is_line _ _ _ _ H E1) as [Hsec H1]. cbn [foldl]. specialize (IH _ _ H1 E). rewrite <- Hsec in IH.
  by destruct (bss_line (img_section im, t) line).
Qed.

Definition text_okb (s : list Z) : bool :=
  forallb (fun c => (0 <? c) && (c <? 256)) s && (Z.of_nat (length s) <? 2 ^ 31).

Lemma text_okb_ok s : text_okb s = true -> name_ok s.
Proof.
  unfold text_okb. intros H. apply andb_true_iff in H as [H1 H2]. split; [|by apply Z.ltb_lt].
  rewrite forallb_forall in H1. apply Forall_forall. intros c Hc. apply list_elem_of_In in Hc.
  specialize (H1 c Hc). apply andb_true_iff in H1. lia.
Qed.

Lemma guest_crt_ok : name_ok guest_crt.
Proof. apply text_okb_ok. by vm_compute. Qed.

(** ** Objects instead of sources *)

Section objects.
Context (file file' : list Z -> option (list Z)).

(** [q] is the object of the assembly file [p]. *)
Definition object_of (p q : list Z) : Prop :=
  exists source object img,
    link_ends_with p (str ".o") = false /\ file p = Some source /\ name_ok source /\
    link_ends_with q (str ".o") = true /\ file' q = Some object /\ assemble_to_object source = Ok object /\
    assemble_source empty_image source = Ok img /\ image_small img.

Lemma load_input_same p q : object_of p q -> same_res same_image (load_input file p) (load_input file' q).
Proof.
  intros (source & object & img & Hp & Fp & Hs & Hq & Fq & Ho & Ei & Hsm).
  unfold load_input, guest_read_file, guest_read_file_len. rewrite Hp, Fp, Hq, Fq. cbn [mbind res_bind].
  rewrite span_all.
  2: { eapply Forall_impl; [apply Hs|]. intros c Hc. cbv beta in Hc. apply negb_true_iff, Z.eqb_neq. lia. }
  cbn [fst]. unfold assemble_to_object in Ho. rewrite Ei in Ho |- *. injection Ho as <-.
  assert (image_ok img) by by eapply assemble_ok. rewrite read_write_object by done. by apply reload_same.
Qed.

Lemma load_inputs_same ps qs :
  Forall2 object_of ps qs -> same_res (Forall2 same_image) (load_inputs file ps) (load_inputs file' qs).
Proof.
  induction 1 as [|p q ps qs H Hs IH]; [by constructor|]. cbn [load_inputs].
  eapply same_res_bind; [by apply load_input_same|]. intros i1 i2 Hi.
  eapply same_res_bind; [exact IH|]. intros l1 l2 Hl. by constructor.
Qed.

Lemma defines_start_same i1 i2 : same_image i1 i2 -> defines_start i1 = defines_start i2.
Proof using.
  intros [_ _ _ _ E H1 H2]. rewrite !defines_start_own by done. unfold own_symbol. by rewrite E.
Qed.

Lemma link_objects_same ps qs :
  Forall2 object_of ps qs -> link_guest_objects file' qs = link_guest_objects file ps.
Proof.
  intros H. unfold link_guest_objects. pose proof guest_crt_ok as Hg. revert Hg. generalize guest_crt. intros text Hg.
  pose proof (load_inputs_same ps qs H) as Hl. unfold same_res in Hl.
  destruct (load_inputs file ps) as [l1|e1], (load_inputs file' qs) as [l2|e2]; cbn [mbind res_bind]; try done; [|by subst].
  assert (existsb defines_start l2 = existsb defines_start l1) as ->.
  { clear -Hl. induction Hl as [|i1 i2 l1 l2 Hi Hl IH]; [done|]. cbn. by rewrite IH, (defines_start_same i1 i2). }
  destruct (existsb _ l1); [symmetry; by apply link_images_same|].
  destruct (assemble_source empty_image text) as [crt|e] eqn:Ec; [|done]. cbn [mbind res_bind].
  symmetry. apply link_images_same, Forall2_app; [done|]. constructor; [|constructor].
  apply assemble_ok in Ec; [|exact Hg]. split; try done; apply (io_names _ Ec).
Qed.
End objects.


(** ** Properties *)

(** C38: the assembler is well typed: when a text without NULs is assembled, the
    image has bytes in its sections, distinct symbol names, symbols
    inside the text or the data if they are defined there, and relocations on disjoint words
    that lie inside the text or the data.  If the sizes of the [.space] and [.zero] lines of
    .bss add up to less than 2^31 (the code does not test it), .bss has exactly that size
    and its symbols lie inside it. *)
Theorem assemble_well_formed source img :
  name_ok source -> assemble_source empty_image source = Ok img ->
  image_ok img /\
  (bss_total source < 2 ^ 31 -> img_bss_size img = bss_total source /\
    Forall (fun sym => sym_section sym = SEC_BSS -> 0 <= sym_offset sym <= bss_total source) (img_symbols img)).
Proof. intros Hs E. split; [by eapply assemble_ok|]. by apply bss_is_source. Qed.

(** Separate compilation: linking object files gives exactly the executable, or
    the failure, that linking the assembly files they were made from gives. *)
Theorem objects_link_like_sources file file' ps qs :
  Forall2 (object_of file file') ps qs -> link_guest_objects file' qs = link_guest_objects file ps.
Proof. apply link_objects_same. Qed.

(** Two modules: a program that calls a function and refers to data of the other. *)
Definition demo_main : list Z :=
  asm_text [".text"; ".globl main"; "main:"; "  MOV R1, table+4 ; comment"; "  LOADR R0, R1"; "  CALL twice"; "  RET"]%string.
Definition demo_twice : list Z :=
  asm_text [".globl twice"; ".globl table"; "twice: add r0, r0"; " ret"; ".data"; "table: .word 5, table"; ".bss"; "buf: .space 0x10"]%string.
Definition demo_file (path : list Z) : option (list Z) :=
  if bool_decide (path = str "main.s") then Some demo_main
  else if bool_decide (path = str "twice.s") then Some demo_twice else None.
Definition demo_object (source : list Z) : list Z :=
  match assemble_to_object source with Ok b => b | Err _ => [] end.
Definition demo_file' (path : list Z) : option (list Z) :=
  if bool_decide (path = str "main.o") then Some (demo_object demo_main)
  else if bool_decide (path = str "twice.o") then Some (demo_object demo_twice) else None.

Definition demo_image (source : list Z) : AsmImage :=
  match assemble_source empty_image source with Ok img => img | Err _ => empty_image end.

Theorem assemble_well_formed_witness : image_ok (demo_image demo_twice) /\ img_bss_size (demo_image demo_twice) = 16.
Proof.
  destruct (assemble_well_formed demo_twice (demo_image demo_twice)) as [H B];
    [apply text_okb_ok; vm_compute; reflexivity|vm_compute; reflexivity|].
  split; [exact H|]. destruct B as [B _]; [vm_compute; reflexivity|]. rewrite B. vm_compute. reflexivity.
Defined.

Lemma demo_object_of p q source :
  link_ends_with p (str ".o") = false -> demo_file p = Some source -> text_okb source = true ->
  link_ends_with q (str ".o") = true -> demo_file' q = Some (demo_object source) ->
  assemble_source empty_image source = Ok (demo_image source) -> image_small (demo_image source) ->
  object_of demo_file demo_file' p q.
Proof.
  intros H1 H2 H3 H4 H5 H6 H7. exists source, (demo_object source), (demo_image source).
  do 5 (split; [done || by apply text_okb_ok|]). split; [|done].
  unfold demo_object, assemble_to_object. by rewrite H6.
Qed.

Theorem objects_link_like_sources_witness :
  link_guest_objects demo_file' [str "main.o"; str "twice.o"] = link_guest_objects demo_file [str "main.s"; str "twice.s"].
Proof.
  apply (objects_link_like_sources demo_file demo_file').
  constructor; [|constructor; [|constructor]].
  - apply (demo_object_of _ _ demo_main); vm_compute; (reflexivity || (repeat split; reflexivity)).
  - apply (demo_object_of _ _ demo_twice); vm_compute; (reflexivity || (repeat split; reflexivity)).
Defined.

Example demo_links :
  match link_guest_objects demo_file [str "main.s"; str "twice.s"] with Ok b => 0 <? Z.of_nat (length b) | Err _ => false end = true.
Proof. vm_compute. reflexivity. Qed.
