(* ===== verification/GuestToolsSpec.v ===== *)
(** * GuestToolsSpec: as and ld together

    Assembling sources with as and linking the objects with ld is linking the
    sources with ld. *)

From S2P Require Import Prelude Config Kernel Klog RawMem UserMem LibString LibFormat LibStringSpec LibNumberSpec GuestAsm GuestLink GuestTools GuestObjSpec GuestAsmSpec.

(** ** File names *)

Lemma write_same fs p c : write_file fs p c p = Some c.
Proof. unfold write_file. by rewrite bool_decide_eq_true_2. Qed.

Lemma write_other fs p q c : q <> p -> write_file fs p c q = fs q.
Proof. intros H. unfold write_file. by rewrite bool_decide_eq_false_2. Qed.

Lemma replace_ext_s stem ext : replace_ext (stem ++ str ".s") ext = stem ++ ext.
Proof.
  unfold replace_ext. rewrite rev_app_distr.
  transitivity (rev (rev stem) ++ ext); [reflexivity|by rewrite rev_involutive].
Qed.

Lemma ends_app s suffix : link_ends_with (s ++ suffix) suffix = true.
Proof.
  unfold link_ends_with. rewrite length_app, (proj2 (Nat.ltb_ge _ _)) by lia. apply bool_decide_eq_true_2.
  replace (length s + length suffix - length suffix)%nat with (length s) by lia. apply drop_app_length.
Qed.

Lemma s_not_o stem : link_ends_with (stem ++ str ".s") (str ".o") = false.
Proof.
  unfold link_ends_with. rewrite length_app, (proj2 (Nat.ltb_ge _ _)) by (cbn; lia). apply bool_decide_eq_false_2.
  cbn [str length]. replace (length stem + 2 - 2)%nat with (length stem) by lia. by rewrite drop_app_length.
Qed.

Lemma s_neq_o a b : a ++ str ".s" <> b ++ str ".o".
Proof. intros E. apply (f_equal (@rev Z)) in E. rewrite !rev_app_distr in E. done. Qed.

(** ** The arguments *)

(** Neither an option nor a response file. *)
Definition plain (a : list Z) : Prop := hd0 a <> 45 /\ hd0 a <> 64.

Lemma plain_not_o a : plain a -> is_arg a "-o" = false.
Proof. intros [H _]. apply bool_decide_eq_false_2. by intros ->. Qed.

Lemma push_input_run tool limit inputs p :
  Z.of_nat (length inputs) < limit -> push_input tool limit inputs p = Ok (inputs ++ [p]).
Proof. intros H. unfold push_input. by rewrite (proj2 (Z.leb_gt _ _)). Qed.

Lemma as_args_run l inputs output :
  Forall plain l -> Z.of_nat (length inputs + length l) <= 128 -> as_args l inputs output = Ok (inputs ++ l, output).
Proof.
  intros Hl. revert inputs. induction Hl as [|a l Ha Hl IH]; intros inputs Hn; cbn [as_args].
  - by rewrite app_nil_r.
  - rewrite plain_not_o, (proj2 (Z.eqb_neq _ _)) by apply Ha. cbn [length] in Hn.
    rewrite push_input_run by lia. cbn [mbind res_bind]. rewrite IH by (rewrite length_app; cbn; lia).
    by rewrite <- app_assoc.
Qed.

Lemma ld_args_run fs l inputs output :
  Forall plain l -> Z.of_nat (length inputs + length l) <= 256 -> ld_args fs l inputs output = Ok (inputs ++ l, output).
Proof.
  intros Hl. revert inputs. induction Hl as [|a l Ha Hl IH]; intros inputs Hn; cbn [ld_args].
  - by rewrite app_nil_r.
  - rewrite plain_not_o by done. destruct Ha as [Ha1 Ha2]. rewrite !(proj2 (Z.eqb_neq _ _)) by done.
    cbn [length] in Hn. rewrite push_input_run by lia. cbn [mbind res_bind]. rewrite IH by (rewrite length_app; cbn; lia).
    by rewrite <- app_assoc.
Qed.

(** ** Assembling *)

Definition source_of (stem : list Z) : list Z := stem ++ str ".s".
Definition object_path (stem : list Z) : list Z := stem ++ str ".o".

(** The sources are texts that assemble to images the object format can hold. *)
Definition source_fits (fs : files) (stem : list Z) : Prop :=
  forall contents, fs (source_of stem) = Some contents ->
    name_ok contents /\ forall img, assemble_source empty_image contents = Ok img -> image_small img.

Lemma read_text fs p contents : fs p = Some contents -> name_ok contents -> guest_read_file fs p = Ok contents.
Proof.
  intros E [H _]. unfold guest_read_file, guest_read_file_len. rewrite E. cbn [mbind res_bind]. rewrite span_all; [done|].
  eapply Forall_impl; [exact H|]. intros c Hc. cbv beta in Hc. apply negb_true_iff, Z.eqb_neq. lia.
Qed.

Lemma as_each_run fs fs' stems :
  NoDup stems -> (forall stem, stem ∈ stems -> source_fits fs stem) ->
  as_each fs None (source_of <$> stems) = Ok fs' ->
  (forall stem, stem ∈ stems -> object_of fs fs' (source_of stem) (object_path stem)) /\
  (forall p, (forall stem, stem ∈ stems -> p <> object_path stem) -> fs' p = fs p).
Proof.
  revert fs. induction stems as [|stem stems IH]; intros fs Hd Hfit E.
  { injection E as <-. split; [|done]. intros stem H. by apply elem_of_nil in H. }
  apply NoDup_cons in Hd as [Hn Hd]. cbn [fmap list_fmap as_each] in E.
  destruct (fs (source_of stem)) as [contents|] eqn:Ef; [|unfold guest_read_file, guest_read_file_len in E; by rewrite Ef in E].
  destruct (Hfit stem (list_elem_of_here _ _) contents Ef) as [Hc Hsm].
  rewrite (read_text _ _ _ Ef Hc) in E. cbn [mbind res_bind] in E. unfold object_file in E.
  destruct (assemble_to_object contents) as [object|] eqn:Eo; [|done]. cbn [mbind res_bind] in E.
  unfold source_of at 1 in E. rewrite replace_ext_s in E. fold (object_path stem) in E.
  set (fs1 := write_file fs (object_path stem) object) in *.
  assert (Hsrc : forall s, fs1 (source_of s) = fs (source_of s)) by (intros s; apply write_other, s_neq_o).
  destruct (IH fs1 Hd) as [IH1 IH2]; [|exact E|].
  { intros s Hs contents' E'. rewrite Hsrc in E'. apply (Hfit s); [by apply elem_of_cons; right|done]. }
  assert (Hobj : forall s, s ∈ stems -> object_path stem <> object_path s).
  { intros s Hs He. apply app_inv_tail in He. by subst. }
  split.
  - intros s Hs. apply elem_of_cons in Hs as [-> |Hs].
    + unfold assemble_to_object in Eo. destruct (assemble_source empty_image contents) as [img|] eqn:Ei; [|done].
      exists contents, object, img. split; [apply s_not_o|]. split; [done|]. split; [done|]. split; [apply ends_app|].
      split; [rewrite (IH2 _ Hobj); apply write_same|]. split; [unfold assemble_to_object; by rewrite Ei|]. split; [done|by apply Hsm].
    + destruct (IH1 s Hs) as (source & object' & img & H1 & H2 & H). exists source, object', img. rewrite <- Hsrc. done.
  - intros p Hp. rewrite IH2 by (intros s Hs; apply Hp; by apply elem_of_cons; right).
    apply write_other. apply Hp. by left.
Qed.

(** ** The two programs *)

Lemma ld_main_run fs out l :
  Forall plain l -> l <> [] -> Z.of_nat (length l) <= 256 ->
  ld_main fs (str "-o" :: out :: l) = (executable ← link_guest_objects fs l ; Ok (write_file fs out executable)).
Proof.
  intros Hl Hne Hn. unfold ld_main. cbn [ld_args]. change (is_arg (str "-o") "-o") with true. cbv iota.
  rewrite ld_args_run by done. cbn [mbind res_bind app]. by rewrite bool_decide_eq_false_2.
Qed.

(** C39: the tools compose: assembling modules with as and linking their objects with
    ld leaves in the output file exactly what ld makes of the sources, or fails with
    the same message. *)
Theorem as_then_ld fs fs' stems out :
  stems <> [] -> NoDup stems -> Z.of_nat (length stems) <= 128 ->
  Forall plain (source_of <$> stems) -> Forall plain (object_path <$> stems) ->
  (forall stem, stem ∈ stems -> source_fits fs stem) ->
  as_main fs (source_of <$> stems) = Ok fs' ->
  same_res (fun a b => a out = b out)
    (ld_main fs' (str "-o" :: out :: (object_path <$> stems))) (ld_main fs (str "-o" :: out :: (source_of <$> stems))).
Proof.
  intros Hne Hd Hn Hs Ho Hfit E. unfold as_main in E. rewrite as_args_run in E by (rewrite ?length_fmap; cbn; lia || done).
  cbn [mbind res_bind app] in E.
  assert (Hm : forall f : list Z -> list Z, f <$> stems <> []) by (intros f; by destruct stems).
  rewrite bool_decide_eq_false_2 in E by done. cbn [negb andb] in E.
  destruct (as_each_run fs fs' stems Hd Hfit E) as [H _].
  rewrite !ld_main_run by (rewrite ?length_fmap; done || lia).
  rewrite (link_objects_same fs fs' (source_of <$> stems)).
  - destruct (link_guest_objects _ _) as [b|]; cbn; [by rewrite !write_same|done].
  - apply Forall2_fmap_l, Forall2_fmap_r, Forall_Forall2_diag, Forall_forall. apply H.
Qed.

Definition demo_stems : list (list Z) := str <$> ["main"; "twice"]%string.
Definition demo_built : files := match as_main demo_file (source_of <$> demo_stems) with Ok fs => fs | Err _ => demo_file end.

Lemma demo_source_fits stem : stem ∈ demo_stems -> source_fits demo_file stem.
Proof.
  intros H contents E.
  assert (Hc : (demo_file (source_of stem) = Some demo_main) \/ demo_file (source_of stem) = Some demo_twice).
  { apply elem_of_cons in H as [-> |H]; [left; vm_compute; reflexivity|].
    apply elem_of_cons in H as [-> |H]; [right; vm_compute; reflexivity|]. by apply elem_of_nil in H. }
  assert (Hfit : forall s, text_okb s = true -> assemble_source empty_image s = Ok (demo_image s) -> image_small (demo_image s) ->
    name_ok s /\ forall img, assemble_source empty_image s = Ok img -> image_small img).
  { intros s H1 H2 H3. split; [by apply text_okb_ok|]. intros img Ei. rewrite H2 in Ei. by injection Ei as <-. }
  destruct Hc as [Hc|Hc]; rewrite Hc in E; injection E as <-;
    apply Hfit; vm_compute; (reflexivity || (repeat split; reflexivity)).
Qed.

Theorem as_then_ld_witness :
  same_res (fun a b => a (str "prog") = b (str "prog"))
    (ld_main demo_built (str "-o" :: str "prog" :: (object_path <$> demo_stems)))
    (ld_main demo_file (str "-o" :: str "prog" :: (source_of <$> demo_stems))).
Proof.
  apply (as_then_ld demo_file demo_built demo_stems (str "prog")).
  - discriminate.
  - apply (bool_decide_unpack _). vm_compute. exact I.
  - vm_compute. discriminate.
  - apply List.Forall_cons; [|apply List.Forall_cons; [|apply List.Forall_nil]]; split; vm_compute; discriminate.
  - apply List.Forall_cons; [|apply List.Forall_cons; [|apply List.Forall_nil]]; split; vm_compute; discriminate.
  - exact demo_source_fits.
  - vm_compute. reflexivity.
Defined.

Example demo_built_links :
  match ld_main demo_built (str "-o" :: str "prog" :: (object_path <$> demo_stems)) with Ok _ => true | Err _ => false end = true.
Proof. vm_compute. reflexivity. Qed.
