(* ===== verification/GuestLinkSpec.v ===== *)
(** * GuestLinkSpec: the executable that the linker makes

    The layout keeps the sections of all images apart, a name of a relocation is the
    image's own symbol or else the one global of that name, and every byte of the
    sections arrives at its place, with the relocated words filled in. *)

From Stdlib Require Import Sorted.
From S2P Require Import Prelude Config Kernel Klog RawMem UserMem LibString LibStringSpec LibNumberSpec GuestAsm GuestLink GuestObjSpec GuestAsmSpec.

(** ** Layout *)

Definition total (sizes : list Z) : Z := fold_right Z.add 0 sizes.

Lemma total_nonneg sizes : Forall (fun n => 0 <= n) sizes -> 0 <= total sizes.
Proof. unfold total. induction 1; cbn; lia. Qed.

Lemma layout_run sizes cur :
  Forall (fun n => 0 <= n) sizes -> 0 <= cur -> cur + total sizes < 2 ^ 31 ->
  (layout cur sizes).2 = cur + total sizes /\ length (layout cur sizes).1 = length sizes /\
  forall i b, (layout cur sizes).1 !! i = Some b -> b = cur + total (take i sizes).
Proof.
  intros Hf. revert cur. induction Hf as [|n sizes Hn Hf IH]; intros cur Hc Ht; cbn [layout].
  - split; [cbn; lia|]. split; [done|]. by intros i b.
  - cbn in Ht. fold (total sizes) in Ht. pose proof (total_nonneg _ Hf) as Hp. rewrite i32_id by (unfold is_i32; lia).
    destruct (IH (cur + n)) as (IH1 & IH2 & IH3); [lia..|].
    destruct (layout (cur + n) sizes) as [bases e]. cbn in *. fold (total sizes). split; [lia|]. split; [by rewrite IH2|].
    intros [|i] b Hb; cbn in Hb; [injection Hb as <-; cbn; lia|]. rewrite (IH3 i b Hb). cbn. fold (total (take i sizes)). lia.
Qed.

Lemma total_take_S sizes i n : sizes !! i = Some n -> total (take (S i) sizes) = total (take i sizes) + n.
Proof.
  revert i. induction sizes as [|m sizes IH]; intros [|i] H; cbn in H; try done.
  - injection H as ->. cbn. rewrite take_0. cbn. lia.
  - rewrite !firstn_cons. cbn [total fold_right]. fold (total (take (S i) sizes)) (total (take i sizes)).
    rewrite (IH i H). lia.
Qed.

Lemma total_take_le sizes i j :
  Forall (fun n => 0 <= n) sizes -> (i <= j)%nat -> total (take i sizes) <= total (take j sizes).
Proof.
  intros H. revert i j. induction H as [|n sizes Hn Hf IH]; intros i j Hij; [by rewrite !take_nil|].
  destruct i as [|i], j as [|j]; cbn; try lia.
  - pose proof (total_nonneg (take j sizes) (Forall_take _ _ _ Hf)). unfold total in *. lia.
  - specialize (IH i j ltac:(lia)). unfold total in *. lia.
Qed.

Lemma total_take_all sizes i : Forall (fun n => 0 <= n) sizes -> total (take i sizes) <= total sizes.
Proof.
  intros H. rewrite <- (take_ge sizes (i + length sizes)) at 2 by lia. apply total_take_le; [done|lia].
Qed.

Lemma align_run n a : 0 < a -> 0 <= n -> n + a < 2 ^ 31 -> 
  n <= align_to_guest n a < n + a /\ align_to_guest n a mod a = 0.
Proof.
  intros Ha Hn Hs. unfold align_to_guest. rewrite (i32_id (n + a)), i32_id by (unfold is_i32; lia).
  rewrite Z.quot_div_nonneg by lia. split; [|apply Z.mod_mul; lia].
  pose proof (Z.div_mod (n + a - 1) a ltac:(lia)). pose proof (Z.mod_pos_bound (n + a - 1) a ltac:(lia)). lia.
Qed.

(** All sections together fit the addresses of an [int]. *)
Record sizes_fit (imgs : list AsmImage) : Prop := {
  sf_bss : Forall (fun img => 0 <= img_bss_size img) imgs;
  sf_total : CFG_USER_LOAD_BASE + total (text_size <$> imgs) + 4096 + total (data_size <$> imgs) + 4 +
             total (img_bss_size <$> imgs) < 2 ^ 31;
}.

Definition places (imgs : list AsmImage) : list placed := (place imgs).1.1.
Definition data_end_of (imgs : list AsmImage) : Z := (place imgs).1.2.
Definition mem_end_of (imgs : list AsmImage) : Z := (place imgs).2.

(** Where the data starts: a page boundary after all text. *)
Definition data_base (imgs : list AsmImage) : Z :=
  align_to_guest (CFG_USER_LOAD_BASE + total (text_size <$> imgs)) 4096.
Definition bss_base (imgs : list AsmImage) : Z :=
  align_to_guest (data_base imgs + total (data_size <$> imgs)) 4.

Lemma data_base_eq imgs : data_base imgs = align_to_guest (CFG_USER_LOAD_BASE + total (text_size <$> imgs)) 4096.
Proof. by unfold data_base. Qed.
Lemma bss_base_eq imgs : bss_base imgs = align_to_guest (data_base imgs + total (data_size <$> imgs)) 4.
Proof. by unfold bss_base. Qed.

Lemma text_sizes imgs : Forall (fun n => 0 <= n) (text_size <$> imgs).
Proof. apply Forall_fmap, Forall_forall. intros img _. unfold text_size. cbn. lia. Qed.
Lemma data_sizes imgs : Forall (fun n => 0 <= n) (data_size <$> imgs).
Proof. apply Forall_fmap, Forall_forall. intros img _. unfold data_size. cbn. lia. Qed.

Section places.
#[local] Set Default Proof Using "Type*".
Context (imgs : list AsmImage) (fit : sizes_fit imgs).

Lemma bss_sizes : Forall (fun n => 0 <= n) (img_bss_size <$> imgs).
Proof. by apply Forall_fmap, (sf_bss _ fit). Qed.

Lemma bases_run :
  (CFG_USER_LOAD_BASE + total (text_size <$> imgs) <= data_base imgs < CFG_USER_LOAD_BASE + total (text_size <$> imgs) + 4096 /\
   data_base imgs mod 4096 = 0) /\
  (data_base imgs + total (data_size <$> imgs) <= bss_base imgs < data_base imgs + total (data_size <$> imgs) + 4 /\
   bss_base imgs mod 4 = 0) /\
  bss_base imgs + total (img_bss_size <$> imgs) < 2 ^ 31.
Proof.
  pose proof (sf_total _ fit) as Hs. pose proof (total_nonneg _ (text_sizes imgs)).
  pose proof (total_nonneg _ (data_sizes imgs)). pose proof (total_nonneg _ bss_sizes).
  change CFG_USER_LOAD_BASE with 67108864 in *.
  assert (H3 : 67108864 + total (text_size <$> imgs) <= data_base imgs < 67108864 + total (text_size <$> imgs) + 4096 /\
          data_base imgs mod 4096 = 0) by (unfold data_base; change CFG_USER_LOAD_BASE with 67108864; apply align_run; lia).
  assert (H4 : data_base imgs + total (data_size <$> imgs) <= bss_base imgs < data_base imgs + total (data_size <$> imgs) + 4 /\
          bss_base imgs mod 4 = 0) by (unfold bss_base; apply align_run; lia).
  split; [exact H3|]. split; [exact H4|]. lia.
Qed.

Lemma zip4_lookup {A B C D} (l : list A) (t : list B) (d : list C) (b : list D) i x :
  zip l (zip t (zip d b)) !! i = Some x ->
  l !! i = Some x.1 /\ t !! i = Some x.2.1 /\ d !! i = Some x.2.2.1 /\ b !! i = Some x.2.2.2.
Proof using.
  destruct x as (x1 & x2 & x3 & x4). intros H. apply lookup_zip_Some in H as [H1 H]. apply lookup_zip_Some in H as [H2 H].
  apply lookup_zip_Some in H as [H3 H4]. done.
Qed.

Lemma place_run :
  data_end_of imgs = data_base imgs + total (data_size <$> imgs) /\
  mem_end_of imgs = bss_base imgs + total (img_bss_size <$> imgs) /\
  pl_image <$> places imgs = imgs /\
  forall i p, places imgs !! i = Some p ->
    pl_text p = CFG_USER_LOAD_BASE + total (take i (text_size <$> imgs)) /\
    pl_data p = data_base imgs + total (take i (data_size <$> imgs)) /\
    pl_bss p = bss_base imgs + total (take i (img_bss_size <$> imgs)).
Proof.
  pose proof bases_run as ([Hd _] & [Hb _] & He). pose proof (sf_total _ fit) as Hs.
  pose proof (total_nonneg _ (text_sizes imgs)). pose proof (total_nonneg _ (data_sizes imgs)).
  pose proof (total_nonneg _ bss_sizes). assert (Hpos : 0 <= CFG_USER_LOAD_BASE) by done.
  destruct (layout_run (text_size <$> imgs) CFG_USER_LOAD_BASE (text_sizes imgs)) as (T1 & T2 & T3); [lia..|].
  destruct (layout_run (data_size <$> imgs) (data_base imgs) (data_sizes imgs)) as (D1 & D2 & D3); [lia..|].
  destruct (layout_run (img_bss_size <$> imgs) (bss_base imgs) bss_sizes) as (B1 & B2 & B3); [lia..|].
  unfold data_end_of, mem_end_of, places, place.
  destruct (layout CFG_USER_LOAD_BASE _) as [tb te]. cbn in T1, T2, T3. subst te.
  rewrite <- data_base_eq.
  destruct (layout (data_base imgs) _) as [db de]. cbn in D1, D2, D3. subst de.
  rewrite <- bss_base_eq.
  destruct (layout (bss_base imgs) _) as [bb me]. cbn in B1, B2, B3. subst me. cbn. split; [done|]. split; [done|].
  rewrite !length_fmap in *. split.
  - rewrite <- list_fmap_compose, (list_fmap_ext _ fst).
    + apply fst_zip. rewrite !length_zip. lia.
    + by intros _ (? & ? & ? & ?) _.
  - intros i p Hp. rewrite list_lookup_fmap in Hp. destruct (zip _ _ !! i) as [x|] eqn:E; [|done].
    apply zip4_lookup in E as (_ & E1 & E2 & E3). destruct x as (img & t & d & b). injection Hp as <-. cbn in *.
    auto.
Qed.
End places.

(** ** Names *)

(** A symbol that an image exports, with the address it has. *)
Definition exports (p : placed) (syms : list Symbol) (name : list Z) (a : Z) : Prop :=
  exists sym, sym ∈ syms /\ sym_global sym <> 0 /\ is_defined sym = true /\ sym_name sym = name /\
    symbol_addr p sym = Ok a.
Definition exported (ps : list placed) (name : list Z) (a : Z) : Prop :=
  exists p, p ∈ ps /\ exports p (img_symbols (pl_image p)) name a.

Lemma exports_cons p sym syms name a :
  exports p (sym :: syms) name a <->
  (sym_global sym <> 0 /\ is_defined sym = true /\ sym_name sym = name /\ symbol_addr p sym = Ok a) \/
  exports p syms name a.
Proof.
  split.
  - intros (s & Hs & H). apply elem_of_cons in Hs as [-> |Hs]; [by left|]. right. by exists s.
  - intros [H|(s & Hs & H)]; [exists sym|exists s]; (split; [set_solver|done]).
Qed.

Lemma find_global_iff globals name a :
  NoDup globals.*1 -> find_global globals name = Some (name, a) <-> (name, a) ∈ globals.
Proof.
  intros Hd. unfold find_global. split; intros H.
  - apply List.find_some in H as [Hin _]. by apply list_elem_of_In.
  - induction globals as [|[n b] globals IH]; [by apply elem_of_nil in H|].
    cbn in Hd. apply NoDup_cons in Hd as [Hn Hd]. cbn.
    apply elem_of_cons in H as [H|H].
    + injection H as <- <-. by rewrite bool_decide_eq_true_2.
    + rewrite bool_decide_eq_false_2; [by apply IH|]. intros ->. apply Hn. apply list_elem_of_fmap. by exists (name, a).
Qed.

Lemma find_global_None globals name : find_global globals name = None -> name ∉ globals.*1.
Proof.
  intros H Hin. apply list_elem_of_fmap in Hin as (g & -> & Hg). apply list_elem_of_In in Hg.
  pose proof (List.find_none _ _ H g Hg) as Hf. cbn in Hf. by rewrite bool_decide_eq_true_2 in Hf.
Qed.

Lemma find_global_name globals name g : find_global globals name = Some g -> g = (name, g.2).
Proof. intros H. apply List.find_some in H as [_ Hb]. apply bool_decide_eq_true in Hb. destruct g. cbn in *. by subst. Qed.

Lemma collect_symbols_run p syms globals g' :
  collect_symbols p syms globals = Ok g' -> NoDup globals.*1 ->
  NoDup g'.*1 /\ forall name a, (name, a) ∈ g' <-> (name, a) ∈ globals \/ exports p syms name a.
Proof.
  revert globals. induction syms as [|sym syms IH]; intros globals E Hd; cbn [collect_symbols] in E.
  - injection E as <-. split; [done|]. intros name a. split; [by left|]. intros [H|(? & H & _)]; [done|].
    by apply elem_of_nil in H.
  - destruct (Z.eqb_spec (sym_global sym) 0) as [Hg|Hg]; [|destruct (sym_section sym =? 0) eqn:Hs]; cbn [orb] in E.
    + destruct (IH _ E Hd) as [H1 H2]. split; [done|]. intros name a. rewrite H2, exports_cons. naive_solver.
    + destruct (IH _ E Hd) as [H1 H2]. split; [done|]. intros name a. rewrite H2, exports_cons.
      assert (is_defined sym = false) by (unfold is_defined; by rewrite Hs). naive_solver congruence.
    + destruct (find_global globals (sym_name sym)) eqn:Ef; [done|].
      destruct (symbol_addr p sym) as [b|] eqn:Ea; [|done]. cbn [mbind res_bind] in E.
      apply find_global_None in Ef.
      destruct (IH _ E) as [H1 H2].
      { rewrite fmap_app. cbn. apply NoDup_app. split; [done|]. split; [|apply NoDup_singleton].
        intros x Hx. by intros ->%list_elem_of_singleton. }
      split; [done|]. intros name a. rewrite H2, exports_cons, elem_of_app, list_elem_of_singleton.
      assert (Hdef : is_defined sym = true) by (unfold is_defined; by rewrite Hs). split.
      * intros [[H|H]|H]; [by left| |tauto]. injection H as -> ->. tauto.
      * intros [H|[(? & ? & <- & Hb)|H]]; [tauto| |tauto]. left. right. congruence.
Qed.

Lemma collect_globals_run ps globals g' :
  collect_globals ps globals = Ok g' -> NoDup globals.*1 ->
  NoDup g'.*1 /\ forall name a, (name, a) ∈ g' <-> (name, a) ∈ globals \/ exported ps name a.
Proof.
  revert globals. induction ps as [|p ps IH]; intros globals E Hd; cbn [collect_globals] in E.
  - injection E as <-. split; [done|]. intros name a. split; [by left|]. intros [H|(? & H & _)]; [done|].
    by apply elem_of_nil in H.
  - destruct (collect_symbols _ _ _) as [g|] eqn:Eg; [|done]. cbn [mbind res_bind] in E.
    destruct (collect_symbols_run _ _ _ _ Eg Hd) as [H1 H2]. destruct (IH _ E H1) as [H3 H4].
    split; [done|]. intros name a. rewrite H4, H2. unfold exported. split.
    + intros [[H|H]|(q & Hq & H)]; [by left| |]; right; [exists p|exists q]; (split; [set_solver|done]).
    + intros [H|(q & Hq & H)]; [tauto|]. apply elem_of_cons in Hq as [-> |Hq]; [tauto|]. right. by exists q.
Qed.

(** What the collected table says of a name. *)
Lemma find_exported ps globals name a :
  collect_globals ps [] = Ok globals -> find_global globals name = Some (name, a) <-> exported ps name a.
Proof.
  intros E. destruct (collect_globals_run _ _ _ E) as [H1 H2]; [constructor|].
  rewrite find_global_iff, H2 by done. split; [|tauto]. intros [H|H]; [by apply elem_of_nil in H|done].
Qed.

Lemma entry_of_run globals e a :
  NoDup globals.*1 -> fold_left (fun e g => if bool_decide (g.1 = str "_start") then g.2 else e) globals e = a ->
  (str "_start", a) ∈ (globals : list (list Z * Z)) \/ (a = e /\ str "_start" ∉ globals.*1).
Proof.
  set (name := str "_start"). clearbody name. revert e.
  induction globals as [|[n b] globals IH]; intros e Hd E; cbn [fold_left] in E.
  - right. split; [done|]. apply not_elem_of_nil.
  - cbn in Hd. apply NoDup_cons in Hd as [Hn Hd]. destruct (IH _ Hd E) as [H|[H Hni]]; [left; apply elem_of_cons; by right|].
    cbn [fst snd] in H. destruct (decide (n = name)) as [-> |Hne].
    + rewrite bool_decide_eq_true_2 in H by done. subst a. left. apply elem_of_cons. by left.
    + rewrite bool_decide_eq_false_2 in H by done. right. split; [done|]. cbn. rewrite elem_of_cons. naive_solver.
Qed.

(** ** Relocations *)

Definition section_bytes (img : AsmImage) (section : Z) : Bytes :=
  if section =? SEC_TEXT then img_text img else img_data img.
Definition sec_base (p : placed) (section : Z) : Z := if section =? SEC_TEXT then pl_text p else pl_data p.

Lemma section_size_bytes img n : section_size img n = Z.of_nat (length (section_bytes img n)).
Proof. unfold section_size, section_bytes. by case_match. Qed.

(** Relocating changes bytes only. *)
Record frame (p p' : placed) : Prop := {
  fr_text : pl_text p' = pl_text p;
  fr_data : pl_data p' = pl_data p;
  fr_bss : pl_bss p' = pl_bss p;
  fr_symbols : img_symbols (pl_image p') = img_symbols (pl_image p);
  fr_bss_size : img_bss_size (pl_image p') = img_bss_size (pl_image p);
  fr_size : forall n, section_size (pl_image p') n = section_size (pl_image p) n;
}.

Lemma frame_refl p : frame p p.
Proof. by split. Qed.

Lemma frame_trans p q r : frame p q -> frame q r -> frame p r.
Proof. intros [] []. split; congruence. Qed.

Lemma resolve_frame globals p p' rel : frame p p' -> resolve globals p' rel = resolve globals p rel.
Proof.
  intros [H1 H2 H3 H4 _ _]. unfold resolve, find_symbol, symbol_at, symbol_addr. by rewrite H1, H2, H3, H4.
Qed.

Lemma write32_length b o v :
  0 <= o -> o + 4 <= Z.of_nat (length b) -> length (write32 b o v) = length b.
Proof. intros H1 H2. unfold write32. rewrite !length_app, length_fmap, length_take, length_drop. cbn. lia. Qed.

Lemma write32_nthz b o v k :
  0 <= o -> o + 4 <= Z.of_nat (length b) -> 0 <= k ->
  nthz (write32 b o v) k = if decide (o <= k < o + 4) then nthz (word32 v) (k - o) else nthz b k.
Proof.
  intros H1 H2 Hk. unfold write32. fold (word32 v).
  assert (Ht : Z.of_nat (length (take (Z.to_nat o) b)) = o) by (rewrite length_take; lia).
  assert (Hw : Z.of_nat (length (word32 v)) = 4) by done.
  destruct (Z.lt_ge_cases k o) as [Hlt|Hge].
  - rewrite decide_False by lia. rewrite nthz_left by lia.
    rewrite <- (take_drop (Z.to_nat o) b) at 2. by rewrite nthz_left by lia.
  - replace k with (Z.of_nat (length (take (Z.to_nat o) b)) + (k - o)) at 1 by lia. rewrite nthz_right by lia.
    destruct (Z.lt_ge_cases k (o + 4)) as [Hlt'|Hge'].
    + rewrite decide_True by lia. by rewrite nthz_left by lia.
    + rewrite decide_False by lia.
      replace (k - o) with (Z.of_nat (length (word32 v)) + (k - o - 4)) at 1 by lia. rewrite nthz_right by lia.
      rewrite <- (take_drop (Z.to_nat (o + 4)) b) at 2.
      assert (Z.of_nat (length (take (Z.to_nat (o + 4)) b)) = o + 4) by (rewrite length_take; lia).
      replace k with (Z.of_nat (length (take (Z.to_nat (o + 4)) b)) + (k - o - 4)) at 2 by lia.
      by rewrite nthz_right by lia.
Qed.

(** A section after a word was stored into one of the sections. *)
Lemma patch_reloc_run p rel v p' :
  reloc_ok (pl_image p) rel -> patch_reloc p rel v = Ok p' ->
  frame p p' /\
  forall n k, n = SEC_TEXT \/ n = SEC_DATA -> 0 <= k ->
    nthz (section_bytes (pl_image p') n) k =
    if decide (n = rel_section rel /\ rel_offset rel <= k < rel_offset rel + 4)
    then nthz (word32 v) (k - rel_offset rel) else nthz (section_bytes (pl_image p) n) k.
Proof.
  intros [_ Hsec [Hin1 Hin2] _] E. unfold patch_reloc in E. rewrite section_size_bytes in Hin2.
  destruct Hsec as [Hs|Hs]; rewrite Hs in *; cbn in Hin2, E; (destruct (_ <? _) in E; [done|]);
    rewrite (proj2 (Z.ltb_ge _ 0)) in E by lia; injection E as <-; (split; [split; try done|]).
  - intros n. unfold section_size. destruct (n =? SEC_TEXT); [|done]. unfold text_size. cbn. by rewrite write32_length.
  - intros n k Hn Hk. unfold section_bytes. cbn [pl_image]. destruct Hn as [-> | ->]; cbn.
    + rewrite write32_nthz by done. destruct (decide (rel_offset rel <= k < rel_offset rel + 4)).
      * by rewrite decide_True by done.
      * by rewrite decide_False by naive_solver.
    + by rewrite decide_False by (intros [? ?]; done).
  - intros n. unfold section_size. destruct (n =? SEC_TEXT); [done|]. unfold data_size. cbn. by rewrite write32_length.
  - intros n k Hn Hk. unfold section_bytes. cbn [pl_image]. destruct Hn as [-> | ->]; cbn.
    + by rewrite decide_False by (intros [? ?]; done).
    + rewrite write32_nthz by done. destruct (decide (rel_offset rel <= k < rel_offset rel + 4)).
      * by rewrite decide_True by done.
      * by rewrite decide_False by naive_solver.
Qed.

(** The word a relocation asks for, in a memory where the section starts at [base]. *)
Definition holds_word (f : Z -> Z) (a v : Z) : Prop := forall j, 0 <= j < 4 -> f (a + j) = nthz (word32 v) j.

Lemma reloc_ok_frame p p' rel : frame p p' -> reloc_ok (pl_image p) rel -> reloc_ok (pl_image p') rel.
Proof. intros H [? ? Hin ?]. split; try done. by rewrite (fr_size _ _ H). Qed.

Lemma apply_relocs_run globals rels p p' :
  Forall (reloc_ok (pl_image p)) rels -> StronglySorted apart rels -> apply_relocs globals p rels = Ok p' ->
  frame p p' /\
  (forall n k, n = SEC_TEXT \/ n = SEC_DATA -> 0 <= k ->
    (forall rel, rel ∈ rels -> rel_section rel = n -> ~ (rel_offset rel <= k < rel_offset rel + 4)) ->
    nthz (section_bytes (pl_image p') n) k = nthz (section_bytes (pl_image p) n) k) /\
  (forall rel, rel ∈ rels -> exists a, resolve globals p rel = Ok a /\
    holds_word (nthz (section_bytes (pl_image p') (rel_section rel))) (rel_offset rel) (a +! rel_addend rel)).
Proof.
  revert p. induction rels as [|rel rels IH]; intros p Hf Hs E; cbn [apply_relocs] in E.
  - injection E as <-. split; [apply frame_refl|]. split; [done|]. intros rel H. by apply elem_of_nil in H.
  - destruct (apply_reloc globals p rel) as [q|] eqn:Eq; [|done]. cbn [mbind res_bind] in E.
    unfold apply_reloc in Eq. destruct (resolve globals p rel) as [a|] eqn:Er; [|done]. cbn [mbind res_bind] in Eq.
    inversion Hf as [|? ? Hrel Hf']; subst. apply StronglySorted_inv in Hs as [Hs Hap].
    destruct (patch_reloc_run _ _ _ _ Hrel Eq) as [Hfr Hb].
    destruct (IH q) as (Hfr' & Hkeep & Hwords); [|done|done|].
    { eapply Forall_impl; [exact Hf'|]. intros r. by apply reloc_ok_frame. }
    split; [by eapply frame_trans|]. split.
    + intros n k Hn Hk Hout. rewrite Hkeep by (try done; intros r Hr; apply Hout; by apply elem_of_cons; right).
      rewrite Hb by done. rewrite decide_False; [done|]. intros [-> Hin]. eapply (Hout rel); [by left|done|done].
    + intros r Hr. apply elem_of_cons in Hr as [-> |Hr].
      * exists a. split; [done|]. intros j Hj. destruct Hrel as [_ Hsec [Hin1 _] _].
        rewrite Hkeep by (try done; try lia; intros r Hr Es Hin; rewrite Forall_forall in Hap;
          specialize (Hap r Hr (eq_sym Es)); lia).
        rewrite Hb by (done || lia). rewrite decide_True by (split; [done|lia]). f_equal. lia.
      * destruct (Hwords r Hr) as (b & Hb1 & Hb2). exists b. split; [|done].
        by rewrite <- (resolve_frame _ _ _ _ Hfr).
Qed.

Lemma relocate_run globals ps ps' :
  Forall (fun p => image_ok (pl_image p)) ps -> relocate globals ps = Ok ps' ->
  Forall2 (fun p p' => apply_relocs globals p (img_relocs (pl_image p)) = Ok p') ps ps'.
Proof.
  revert ps'. induction ps as [|p ps IH]; intros ps' H E; cbn [relocate] in E; [injection E as <-; constructor|].
  destruct (apply_relocs _ _ _) as [p'|] eqn:Ep; [|done]. cbn [mbind res_bind] in E.
  destruct (relocate globals ps) as [qs|]; [|done]. injection E as <-. inversion H; subst. constructor; [done|by apply IH].
Qed.

(** ** The executable *)

Lemma blit_at f a l j :
  blit f a l j = if decide (a <= j < a + Z.of_nat (length l)) then nthz l (j - a) else f j.
Proof.
  destruct (decide _) as [H|H]; [|by rewrite blit_out by lia].
  destruct (l !! Z.to_nat (j - a)) as [x|] eqn:E; [|apply lookup_ge_None in E; lia].
  rewrite (nthz_lookup l (j - a) x) by (done || lia).
  replace j with (a + Z.of_nat (Z.to_nat (j - a))) at 1 by lia. by apply blit_in.
Qed.

(** Where a section is in the file, and whether a position is in it. *)
Definition file_pos (p : placed) (n : Z) : Z := 12 + (sec_base p n - CFG_USER_LOAD_BASE).
Definition outside (p : placed) (n j : Z) : Prop :=
  j < file_pos p n \/ file_pos p n + section_size (pl_image p) n <= j.

Definition copy_image (out : Z -> Z) (p : placed) : Z -> Z :=
  blit (blit out (12 + (pl_text p - CFG_USER_LOAD_BASE)) (img_text (pl_image p)))
       (12 + (pl_data p - CFG_USER_LOAD_BASE)) (img_data (pl_image p)).

Lemma copy_image_out f p j : outside p SEC_TEXT j -> outside p SEC_DATA j -> copy_image f p j = f j.
Proof. intros H1 H2. unfold copy_image. by rewrite !blit_out by exact H1 || exact H2. Qed.

Lemma copy_images_out ps f j :
  (forall p, p ∈ ps -> outside p SEC_TEXT j /\ outside p SEC_DATA j) -> fold_left copy_image ps f j = f j.
Proof.
  revert f. induction ps as [|p ps IH]; intros f H; [done|]. cbn [fold_left]. rewrite IH.
  - apply copy_image_out; apply H; by left.
  - intros q Hq. apply H. by right.
Qed.

Lemma copy_image_in f p n k :
  n = SEC_TEXT \/ n = SEC_DATA -> 0 <= k < section_size (pl_image p) n ->
  (n = SEC_TEXT -> outside p SEC_DATA (file_pos p n + k)) ->
  copy_image f p (file_pos p n + k) = nthz (section_bytes (pl_image p) n) k.
Proof.
  intros Hn Hk Ho. unfold copy_image. destruct Hn as [-> | ->].
  - rewrite blit_out by (by apply Ho). rewrite blit_at. rewrite section_size_bytes in Hk. cbn in Hk |- *.
    unfold file_pos. cbn. rewrite decide_True by lia. f_equal. lia.
  - rewrite section_size_bytes in Hk. cbn in Hk |- *. rewrite blit_at. unfold file_pos. cbn.
    rewrite decide_True by lia. f_equal. lia.
Qed.

Section ranges.
Context (imgs : list AsmImage) (fit : sizes_fit imgs).
#[local] Set Default Proof Using "Type*".

Lemma place_image i p : places imgs !! i = Some p -> imgs !! i = Some (pl_image p).
Proof.
  intros Hp. destruct (place_run imgs fit) as (_ & _ & Hi & _). rewrite <- Hi, list_lookup_fmap, Hp. done.
Qed.

(** The text of an image, its data and its bss. *)
Lemma place_inside i p :
  places imgs !! i = Some p ->
  CFG_USER_LOAD_BASE <= pl_text p /\ pl_text p + text_size (pl_image p) <= data_base imgs <= pl_data p /\
  pl_data p + data_size (pl_image p) <= data_end_of imgs <= pl_bss p /\
  pl_bss p + img_bss_size (pl_image p) <= mem_end_of imgs < 2 ^ 31.
Proof.
  intros Hp. pose proof (place_image i p Hp) as Hi. destruct (place_run imgs fit) as (-> & -> & _ & Hb).
  destruct (Hb i p Hp) as (-> & -> & ->). pose proof (bases_run imgs fit) as ([Hd _] & [Hbs _] & He).
  assert (Ht : (text_size <$> imgs) !! i = Some (text_size (pl_image p))) by by rewrite list_lookup_fmap, Hi.
  assert (Hda : (data_size <$> imgs) !! i = Some (data_size (pl_image p))) by by rewrite list_lookup_fmap, Hi.
  assert (Hbb : (img_bss_size <$> imgs) !! i = Some (img_bss_size (pl_image p))) by by rewrite list_lookup_fmap, Hi.
  pose proof (total_take_S _ _ _ Ht). pose proof (total_take_S _ _ _ Hda). pose proof (total_take_S _ _ _ Hbb).
  pose proof (total_take_all _ (S i) (text_sizes imgs)). pose proof (total_take_all _ (S i) (data_sizes imgs)).
  pose proof (total_take_all _ (S i) (bss_sizes imgs fit)).
  pose proof (total_nonneg _ (Forall_take _ i _ (text_sizes imgs))).
  pose proof (total_nonneg _ (Forall_take _ i _ (data_sizes imgs))).
  pose proof (total_nonneg _ (Forall_take _ i _ (bss_sizes imgs fit))). lia.
Qed.

(** The sections of an earlier image end before those of a later one. *)
Lemma place_order i j p q :
  (i < j)%nat -> places imgs !! i = Some p -> places imgs !! j = Some q ->
  pl_text p + text_size (pl_image p) <= pl_text q /\ pl_data p + data_size (pl_image p) <= pl_data q /\
  pl_bss p + img_bss_size (pl_image p) <= pl_bss q.
Proof.
  intros Hij Hp Hq. pose proof (place_image i p Hp) as Hi. destruct (place_run imgs fit) as (_ & _ & _ & Hb).
  destruct (Hb i p Hp) as (-> & -> & ->). destruct (Hb j q Hq) as (-> & -> & ->).
  assert (Ht : (text_size <$> imgs) !! i = Some (text_size (pl_image p))) by by rewrite list_lookup_fmap, Hi.
  assert (Hda : (data_size <$> imgs) !! i = Some (data_size (pl_image p))) by by rewrite list_lookup_fmap, Hi.
  assert (Hbb : (img_bss_size <$> imgs) !! i = Some (img_bss_size (pl_image p))) by by rewrite list_lookup_fmap, Hi.
  pose proof (total_take_S _ _ _ Ht). pose proof (total_take_S _ _ _ Hda). pose proof (total_take_S _ _ _ Hbb).
  pose proof (total_take_le _ (S i) j (text_sizes imgs) Hij). pose proof (total_take_le _ (S i) j (data_sizes imgs) Hij).
  pose proof (total_take_le _ (S i) j (bss_sizes imgs fit) Hij). lia.
Qed.

(** The sections as they are in the file, whatever the images were relocated to. *)
Lemma copied_section ps' f i p' n k :
  Forall2 frame (places imgs) ps' -> ps' !! i = Some p' -> n = SEC_TEXT \/ n = SEC_DATA ->
  0 <= k < section_size (pl_image p') n ->
  fold_left copy_image ps' f (file_pos p' n + k) = nthz (section_bytes (pl_image p') n) k.
Proof.
  intros Hfr Hp' Hn Hk.
  destruct (Forall2_lookup_r _ _ _ _ _ Hfr Hp') as (p & Hp & Hpp).
  pose proof (place_inside i p Hp) as (P1 & P2 & P3 & _).
  pose proof (fr_text _ _ Hpp) as E1. pose proof (fr_data _ _ Hpp) as E2. pose proof (fr_size _ _ Hpp) as E3.
  pose proof (E3 SEC_TEXT) as E4. pose proof (E3 SEC_DATA) as E5. cbn in E4, E5. unfold section_size in E4, E5. cbn in E4, E5.
  rewrite <- (take_drop_middle ps' i p' Hp'), fold_left_app. cbn [fold_left].
  assert (Hpos : file_pos p' n + k + CFG_USER_LOAD_BASE - 12 = sec_base p n + k /\ k < section_size (pl_image p) n).
  { rewrite <- E3. unfold file_pos, sec_base. rewrite E1, E2. case_match; lia. }
  destruct Hpos as [Hpos Hk2].
  rewrite copy_images_out.
  - apply copy_image_in; [done|done|]. intros ->. unfold outside, file_pos at 2 3. cbn. left.
    unfold sec_base, section_size in Hpos, Hk2. cbn in Hpos, Hk2. rewrite E2. lia.
  - intros q' Hq'. apply list_elem_of_lookup in Hq' as [j Hj]. rewrite lookup_drop in Hj.
    destruct (Forall2_lookup_r _ _ _ _ _ Hfr Hj) as (q & Hq & Hqq).
    pose proof (place_inside _ q Hq) as (Q1 & Q2 & Q3 & _).
    destruct (place_order i (S i + j) p q ltac:(lia) Hp Hq) as (O1 & O2 & _).
    pose proof (fr_text _ _ Hqq) as F1. pose proof (fr_data _ _ Hqq) as F2. pose proof (fr_size _ _ Hqq) as F3.
    unfold outside, file_pos at 2 3 5 6. unfold section_size, sec_base in *. cbn. rewrite F1, F2.
    pose proof (F3 SEC_TEXT) as F4. pose proof (F3 SEC_DATA) as F5. cbn in F4, F5.
    destruct Hn as [-> | ->]; cbn in *; lia.
Qed.
End ranges.

(** ** What a linked executable is *)

(** The address that a name means in an image. *)
Definition resolves (ps : list placed) (p : placed) (name : list Z) (a : Z) : Prop :=
  match own_symbol (pl_image p) name with
  | Some sym => symbol_addr p sym = Ok a
  | None => exported ps name a
  end.

(** The contents of a section, in a file, with the words of its relocations filled in. *)
Definition loaded (ps : list placed) (out : list Z) (p : placed) (n : Z) : Prop :=
  let at_ k := nthz out (file_pos p n + k) in
  (forall k, 0 <= k < section_size (pl_image p) n ->
     (forall rel, rel ∈ img_relocs (pl_image p) -> rel_section rel = n -> ~ (rel_offset rel <= k < rel_offset rel + 4)) ->
     at_ k = nthz (section_bytes (pl_image p) n) k) /\
  (forall rel, rel ∈ img_relocs (pl_image p) -> rel_section rel = n ->
     exists a, resolves ps p (rel_name rel) a /\ holds_word at_ (rel_offset rel) (a +! rel_addend rel)).

Record linked (imgs : list AsmImage) (out : list Z) : Prop := {
  lk_length : Z.of_nat (length out) = 12 + (data_end_of imgs - CFG_USER_LOAD_BASE);
  lk_magic : holds_word (nthz out) 0 CFG_EXEC_MAGIC;
  lk_entry : exists start, exported (places imgs) (str "_start") start /\ holds_word (nthz out) 4 start;
  lk_memory : holds_word (nthz out) 8 (mem_end_of imgs - CFG_USER_LOAD_BASE);
  lk_unique : forall name a b, exported (places imgs) name a -> exported (places imgs) name b -> a = b;
  lk_section : forall i p n, places imgs !! i = Some p -> n = SEC_TEXT \/ n = SEC_DATA -> loaded (places imgs) out p n;
}.

Lemma slice_nthz f len k : 0 <= k < Z.of_nat len -> nthz (slice f 0 len) k = f k.
Proof.
  intros Hk. apply nthz_lookup; [lia|]. rewrite slice_lookup by lia. do 2 f_equal. lia.
Qed.

Lemma holds_word_pwrite f a v b w : b + 4 <= a \/ a + 4 <= b ->
  holds_word f b w -> holds_word (pwrite32 f a v) b w.
Proof. intros Hab H j Hj. unfold pwrite32. rewrite blit_out by (cbn [le_bytes32 length]; lia). by apply H. Qed.

Lemma holds_word_same f a v : holds_word (pwrite32 f a v) a v.
Proof.
  intros j Hj. unfold pwrite32. rewrite blit_at, decide_True by (cbn [le_bytes32 length]; lia).
  rewrite word32_le. f_equal. lia.
Qed.

Lemma executable_run ps entry data_end mem_end :
  executable ps entry data_end mem_end =
  slice (fold_left copy_image ps
           (pwrite32 (pwrite32 (pwrite32 (fun _ => 0) 0 CFG_EXEC_MAGIC) 4 entry) 8 (mem_end - CFG_USER_LOAD_BASE)))
        0 (Z.to_nat (12 + (data_end - CFG_USER_LOAD_BASE))).
Proof. reflexivity. Qed.

Lemma resolve_resolves imgs globals p rel a :
  collect_globals (places imgs) [] = Ok globals -> NoDup (sym_name <$> img_symbols (pl_image p)) ->
  resolve globals p rel = Ok a <-> resolves (places imgs) p (rel_name rel) a.
Proof.
  intros Eg Hd. rewrite resolve_defined by done. unfold resolves. destruct (own_symbol _ _); [done|].
  rewrite <- (find_exported _ _ _ _ Eg). destruct (find_global globals (rel_name rel)) as [g|] eqn:Ef.
  - rewrite (find_global_name _ _ _ Ef). cbn. split; [by intros [= ->]|by intros [= ->]].
  - done.
Qed.

Lemma link_images_run imgs out :
  link_images imgs = Ok out ->
  exists globals ps', collect_globals (places imgs) [] = Ok globals /\ relocate globals (places imgs) = Ok ps' /\
    0 <= entry_of globals /\ out = executable ps' (entry_of globals) (data_end_of imgs) (mem_end_of imgs).
Proof.
  intros E. unfold link_images in E. unfold places, data_end_of, mem_end_of.
  destruct (place imgs) as [[ps de] me]. cbn in *. destruct (collect_globals ps []) as [globals|]; [|done]. cbn in E.
  destruct (relocate globals ps) as [ps'|] eqn:Er; [|done]. cbn in E.
  destruct (Z.ltb_spec (entry_of globals) 0) as [|He]; [done|]. injection E as <-. by exists globals, ps'.
Qed.

Lemma places_ok imgs : sizes_fit imgs -> Forall image_ok imgs -> Forall (fun p => image_ok (pl_image p)) (places imgs).
Proof. intros fit H. destruct (place_run imgs fit) as (_ & _ & Hi & _). rewrite <- Hi in H. by rewrite Forall_fmap in H. Qed.

Section linking.
Context (imgs : list AsmImage) (ok : Forall image_ok imgs) (fit : sizes_fit imgs).
Context (globals : list GlobalSym) (ps' : list placed).
Context (collected : collect_globals (places imgs) [] = Ok globals) (relocated : relocate globals (places imgs) = Ok ps').
#[local] Set Default Proof Using "Type*".

Local Abbreviation out := (executable ps' (entry_of globals) (data_end_of imgs) (mem_end_of imgs)).
Local Abbreviation header :=
  (pwrite32 (pwrite32 (pwrite32 (fun _ => 0) 0 CFG_EXEC_MAGIC) 4 (entry_of globals)) 8 (mem_end_of imgs - CFG_USER_LOAD_BASE)).

Lemma relocated_each : Forall2 (fun p p' => apply_relocs globals p (img_relocs (pl_image p)) = Ok p') (places imgs) ps'.
Proof. apply relocate_run; [by apply places_ok|done]. Qed.

Lemma relocated_frames : Forall2 frame (places imgs) ps'.
Proof.
  pose proof relocated_each as Hr. pose proof (places_ok imgs fit ok) as Hps. clear -Hr Hps.
  induction Hr as [|p p' ps ps' Hp Hr IH]; [constructor|]. inversion Hps as [|? ? Ho Hps']; subst.
  constructor; [|by apply IH]. by destruct (apply_relocs_run _ _ _ _ (io_relocs _ Ho) (io_apart _ Ho) Hp).
Qed.

Lemma out_length : Z.of_nat (length out) = 12 + (data_end_of imgs - CFG_USER_LOAD_BASE).
Proof.
  rewrite executable_run, slice_length. destruct (place_run imgs fit) as (-> & _).
  pose proof (bases_run imgs fit) as ([Hd _] & _).
  pose proof (total_nonneg _ (text_sizes imgs)). pose proof (total_nonneg _ (data_sizes imgs)). lia.
Qed.

Lemma out_nthz k : 0 <= k < 12 + (data_end_of imgs - CFG_USER_LOAD_BASE) -> nthz out k = fold_left copy_image ps' header k.
Proof. intros Hk. rewrite executable_run, slice_nthz; [done|lia]. Qed.

(** The sections are after the header. *)
Lemma out_header a v : 0 <= a <= 8 -> holds_word header a v -> holds_word (nthz out) a v.
Proof.
  intros Ha Hw j Hj. pose proof out_length as Hl. rewrite out_nthz.
  2: { destruct (place_run imgs fit) as (-> & _). pose proof (bases_run imgs fit) as ([Hd _] & _).
       pose proof (total_nonneg _ (text_sizes imgs)). pose proof (total_nonneg _ (data_sizes imgs)). lia. }
  rewrite copy_images_out; [by apply Hw|].
  intros q' Hq'. apply list_elem_of_lookup in Hq' as [i Hi].
  destruct (Forall2_lookup_r _ _ _ _ _ relocated_frames Hi) as (q & Hq & Hqq).
  pose proof (place_inside imgs fit _ q Hq) as (Q1 & Q2 & _). pose proof (fr_text _ _ Hqq). pose proof (fr_data _ _ Hqq).
  unfold outside, file_pos, sec_base, text_size in *. cbn. lia.
Qed.

Lemma out_section i p n : places imgs !! i = Some p -> n = SEC_TEXT \/ n = SEC_DATA -> loaded (places imgs) out p n.
Proof.
  intros Hp Hn. destruct (Forall2_lookup_l _ _ _ _ _ relocated_each Hp) as (p' & Hp' & Ep).
  pose proof (Forall_lookup_1 _ _ _ _ (places_ok imgs fit ok) Hp) as Ho. cbv beta in Ho.
  destruct (apply_relocs_run _ _ _ _ (io_relocs _ Ho) (io_apart _ Ho) Ep) as (Hf & Hkeep & Hwords).
  assert (Hpos : file_pos p' n = file_pos p n) by (unfold file_pos, sec_base; by rewrite (fr_text _ _ Hf), (fr_data _ _ Hf)).
  assert (Hat : forall k, 0 <= k < section_size (pl_image p) n -> nthz out (file_pos p n + k) = nthz (section_bytes (pl_image p') n) k).
  { intros k Hk. pose proof Hk as Hk'. rewrite <- (fr_size _ _ Hf) in Hk. rewrite out_nthz.
    - rewrite <- Hpos. by apply (copied_section imgs fit ps' _ i); [apply relocated_frames|..].
    - pose proof (place_inside imgs fit _ p Hp) as (P1 & P2 & P3 & _).
      assert (0 <= data_size (pl_image p) /\ 0 <= text_size (pl_image p)) by (unfold data_size, text_size; lia).
      unfold section_size in Hk'. unfold file_pos, sec_base.
      destruct Hn as [-> | ->]; cbn in *; lia. }
  split.
  - intros k Hk Hout'. rewrite Hat by done. apply Hkeep; [done|lia|done].
  - intros rel Hrel Hsec. destruct (Hwords rel Hrel) as (a & Ha & Hw). exists a. split.
    + apply (resolve_resolves _ globals); [done|apply (io_names _ Ho)|done].
    + pose proof (io_relocs _ Ho) as Hall. rewrite Forall_forall in Hall. destruct (Hall rel Hrel) as [_ _ [Hi1 Hi2] _].
      rewrite Hsec in *. intros j Hj. rewrite Hat by lia. by apply Hw.
Qed.
End linking.

Lemma linked_run imgs out :
  Forall image_ok imgs -> sizes_fit imgs -> link_images imgs = Ok out -> linked imgs out.
Proof.
  intros Hok fit E. destruct (link_images_run _ _ E) as (globals & ps' & Eg & Er & He & ->).
  destruct (collect_globals_run _ _ _ Eg) as [Hnd Hin]; [constructor|].
  split.
  - by apply out_length.
  - apply out_header; [done..|lia|]. apply holds_word_pwrite; [lia|]. apply holds_word_pwrite; [lia|]. apply holds_word_same.
  - exists (entry_of globals). split.
    + destruct (entry_of_run globals (-1) _ Hnd eq_refl) as [H|[H _]]; [|unfold entry_of in He; lia].
      rewrite Hin in H. destruct H as [H|H]; [by apply elem_of_nil in H|done].
    + apply out_header; [done..|lia|]. apply holds_word_pwrite; [lia|]. apply holds_word_same.
  - apply out_header; [done..|lia|]. apply holds_word_same.
  - intros name a b Ha Hb. apply (find_exported _ _ _ _ Eg) in Ha, Hb. congruence.
  - intros i p n Hp Hn. by apply (out_section imgs Hok fit globals ps' Eg Er i).
Qed.

(** ** When linking succeeds *)

Definition is_export (sym : Symbol) : bool := negb (sym_global sym =? 0) && is_defined sym.
Definition export_names (syms : list Symbol) : list (list Z) := sym_name <$> List.filter is_export syms.
Definition exported_names (imgs : list AsmImage) : list (list Z) :=
  mjoin ((fun img => export_names (img_symbols img)) <$> imgs).

Lemma symbol_addr_total p sym : symbol_ok (pl_image p) sym -> is_defined sym = true -> exists a, symbol_addr p sym = Ok a.
Proof.
  intros [_ Hs _ _ _] Hd. unfold is_defined in Hd. unfold symbol_addr.
  destruct Hs as [E|[E|[E|E]]]; rewrite E in *; [done|..]; cbn; eauto.
Qed.

Lemma export_names_cons sym syms :
  export_names (sym :: syms) =
  if negb (sym_global sym =? 0) && negb (sym_section sym =? 0) then sym_name sym :: export_names syms else export_names syms.
Proof. unfold export_names. cbn [List.filter]. unfold is_export at 1, is_defined at 1. by case_match. Qed.

Lemma collect_symbols_names p syms globals g :
  collect_symbols p syms globals = Ok g -> g.*1 = globals.*1 ++ export_names syms.
Proof.
  revert globals. induction syms as [|sym syms IH]; intros globals E; cbn [collect_symbols] in E.
  { injection E as <-. cbn. by rewrite app_nil_r. }
  rewrite export_names_cons. destruct (sym_global sym =? 0); [by apply IH|].
  destruct (sym_section sym =? 0); [by apply IH|]. cbn [orb negb andb] in *.
  destruct (find_global _ _); [done|]. destruct (symbol_addr p sym) as [a|]; [|done].
  cbn [mbind res_bind] in E. apply IH in E. by rewrite E, fmap_app, <- app_assoc.
Qed.

Lemma collect_symbols_total p syms globals :
  Forall (symbol_ok (pl_image p)) syms -> NoDup (globals.*1 ++ export_names syms) ->
  exists g', collect_symbols p syms globals = Ok g'.
Proof.
  intros Hf. revert globals. induction Hf as [|sym syms Hs Hf IH]; intros globals Hn; cbn [collect_symbols]; [eauto|].
  rewrite export_names_cons in Hn. destruct (sym_global sym =? 0); [by apply IH|].
  destruct (sym_section sym =? 0) eqn:Es; [by apply IH|]. cbn [orb negb andb] in *.
  destruct (find_global globals (sym_name sym)) as [g|] eqn:Ef.
  - exfalso. apply NoDup_app in Hn as (Hd & Hn & _). rewrite (find_global_name _ _ _ Ef) in Ef.
    apply find_global_iff, (list_elem_of_fmap_2 fst) in Ef; [|done]. apply (Hn _ Ef). by left.
  - destruct (symbol_addr_total p sym Hs) as [a ->]; [unfold is_defined; by rewrite Es|]. cbn [mbind res_bind].
    apply IH. by rewrite fmap_app, <- app_assoc.
Qed.

Lemma collect_globals_total ps globals :
  Forall (fun p => image_ok (pl_image p)) ps -> NoDup globals.*1 ->
  NoDup (globals.*1 ++ exported_names (pl_image <$> ps)) <-> exists g', collect_globals ps globals = Ok g'.
Proof.
  intros Hf. revert globals. induction Hf as [|p ps Hp Hf IH]; intros globals Hd; cbn [collect_globals].
  { cbn. rewrite app_nil_r. split; [eauto|done]. }
  unfold exported_names. cbn [fmap list_fmap mjoin list_join]. fold (exported_names (pl_image <$> ps)).
  rewrite app_assoc. split.
  - intros Hn. destruct (collect_symbols_total p _ globals (io_symbols _ Hp)) as [g Eg]; [by apply NoDup_app in Hn as [? _]|].
    rewrite Eg. cbn [mbind res_bind]. apply IH; rewrite (collect_symbols_names _ _ _ _ Eg); [by apply NoDup_app in Hn as [? _]|done].
  - intros (g' & E). destruct (collect_symbols _ _ _) as [g|] eqn:Eg; [|done]. cbn [mbind res_bind] in E.
    destruct (collect_symbols_run _ _ _ _ Eg Hd) as [Hg _]. rewrite <- (collect_symbols_names _ _ _ _ Eg). apply IH; eauto.
Qed.

Lemma patch_reloc_total p rel v :
  reloc_ok (pl_image p) rel -> section_size (pl_image p) (rel_section rel) < 2 ^ 31 -> exists p', patch_reloc p rel v = Ok p'.
Proof.
  intros [_ Hsec [Hin1 Hin2] _] Hs. unfold patch_reloc. unfold section_size in *.
  destruct Hsec as [E|E]; rewrite E in *; cbn in *; rewrite i32_id by (unfold is_i32; lia);
    rewrite (proj2 (Z.ltb_ge _ _)), (proj2 (Z.ltb_ge _ 0)) by lia; eauto.
Qed.

Lemma apply_relocs_total globals rels p :
  (forall n, section_size (pl_image p) n < 2 ^ 31) -> Forall (reloc_ok (pl_image p)) rels ->
  (forall rel, rel ∈ rels -> exists a, resolve globals p rel = Ok a) <-> exists p', apply_relocs globals p rels = Ok p'.
Proof.
  revert p. induction rels as [|rel rels IH]; intros p Hs Hf; cbn [apply_relocs].
  { split; [eauto|]. intros _ rel H. by apply elem_of_nil in H. }
  inversion Hf as [|? ? Hr Hf']; subst. unfold apply_reloc.
  assert (Hstep : forall a q, resolve globals p rel = Ok a -> patch_reloc p rel (a +! rel_addend rel) = Ok q ->
    (forall r, r ∈ rels -> exists b, resolve globals p r = Ok b) <-> exists p', apply_relocs globals q rels = Ok p').
  { intros a q _ Eq. destruct (patch_reloc_run _ _ _ _ Hr Eq) as [Hfr _]. rewrite <- IH.
    - apply forall_proper. intros r. by rewrite (resolve_frame globals p q).
    - intros n. by rewrite (fr_size _ _ Hfr).
    - eapply Forall_impl; [exact Hf'|]. intros r. by apply reloc_ok_frame. }
  split.
  - intros H. destruct (H rel) as [a Ha]; [by left|]. rewrite Ha. cbn [mbind res_bind].
    destruct (patch_reloc_total p rel (a +! rel_addend rel) Hr (Hs _)) as [q Hq]. rewrite Hq. cbn [mbind res_bind].
    apply (Hstep a q Ha Hq). intros r Hr'. apply H. by right.
  - intros (p' & E). destruct (resolve globals p rel) as [a|] eqn:Ea; [|done]. cbn [mbind res_bind] in E.
    destruct (patch_reloc p rel _) as [q|] eqn:Eq; [|done]. cbn [mbind res_bind] in E.
    intros r Hr'. apply elem_of_cons in Hr' as [-> |Hr']; [by exists a|]. eapply (Hstep a q); eauto.
Qed.

Lemma find_start_total globals a :
  NoDup globals.*1 -> (str "_start", a) ∈ (globals : list (list Z * Z)) -> entry_of globals = a.
Proof.
  intros Hd H. destruct (entry_of_run globals (-1) _ Hd eq_refl) as [H'|[_ H']].
  - apply (find_global_iff _ _ _ Hd) in H, H'. unfold entry_of. congruence.
  - exfalso. apply H'. apply list_elem_of_fmap. by exists (str "_start", a).
Qed.

Lemma relocate_total globals ps :
  (forall p, p ∈ ps -> image_ok (pl_image p) /\ forall n, section_size (pl_image p) n < 2 ^ 31) ->
  (forall p rel, p ∈ ps -> rel ∈ img_relocs (pl_image p) -> exists a, resolve globals p rel = Ok a) <->
  exists ps', relocate globals ps = Ok ps'.
Proof.
  induction ps as [|p ps IH]; intros Hok; cbn [relocate].
  { split; [eauto|]. intros _ p rel H. by apply elem_of_nil in H. }
  destruct (Hok p) as [Hp Hs]; [by left|].
  pose proof (apply_relocs_total globals (img_relocs (pl_image p)) p Hs (io_relocs _ Hp)) as Ha.
  specialize (IH (fun q Hq => Hok q (list_elem_of_further _ _ _ Hq))). split.
  - intros H. destruct Ha as [Ha _]. destruct Ha as [p' ->]; [intros rel; apply H; by left|]. cbn [mbind res_bind].
    destruct IH as [IH _]. destruct IH as [ps' ->]; [|cbn; eauto]. intros q rel Hq. apply H. by right.
  - intros (ps' & E). destruct (apply_relocs _ _ _) as [p'|] eqn:Ep; [|done]. cbn [mbind res_bind] in E.
    destruct (relocate globals ps) as [qs|]; [|done]. intros q rel Hq. apply elem_of_cons in Hq as [-> |Hq].
    + apply Ha. eauto.
    + apply IH; eauto.
Qed.

Lemma link_succeeds_run imgs :
  Forall image_ok imgs -> sizes_fit imgs ->
  (exists out, link_images imgs = Ok out) <->
  NoDup (exported_names imgs) /\
  (forall p rel, p ∈ places imgs -> rel ∈ img_relocs (pl_image p) -> exists a, resolves (places imgs) p (rel_name rel) a) /\
  exists start, 0 <= start /\ exported (places imgs) (str "_start") start.
Proof.
  intros Hok fit. pose proof (places_ok imgs fit Hok) as Hps. pose proof (place_run imgs fit) as (_ & _ & Hi & _).
  assert (Hp : forall p, p ∈ places imgs -> image_ok (pl_image p) /\ forall n, section_size (pl_image p) n < 2 ^ 31).
  { intros p Hp. rewrite Forall_forall in Hps. split; [by apply Hps|]. intros n.
    apply list_elem_of_lookup in Hp as [i Hp]. pose proof (place_inside imgs fit i p Hp) as (P1 & P2 & P3 & P4).
    pose proof (Forall_lookup_1 _ _ _ _ (sf_bss _ fit) (place_image imgs fit i p Hp)) as Hb. cbv beta in Hb.
    assert (0 <= CFG_USER_LOAD_BASE) by done. unfold section_size. unfold text_size, data_size in *. case_match; lia. }
  pose proof (collect_globals_total (places imgs) [] Hps NoDup_nil_2) as Hc. rewrite Hi in Hc. cbn [app fmap list_fmap] in Hc.
  assert (Hres : forall globals, collect_globals (places imgs) [] = Ok globals ->
    (exists ps', relocate globals (places imgs) = Ok ps') <->
    forall p rel, p ∈ places imgs -> rel ∈ img_relocs (pl_image p) -> exists a, resolves (places imgs) p (rel_name rel) a).
  { intros globals Eg. rewrite <- (relocate_total globals _ Hp). split; intros H p rel Hin Hr; destruct (H p rel Hin Hr) as [a Ha];
      exists a; by apply (resolve_resolves _ _ _ _ _ Eg (io_names _ (proj1 (Hp p Hin)))). }
  split.
  - intros [out E]. destruct (link_images_run _ _ E) as (globals & ps' & Eg & Er & He & _).
    split; [by apply Hc; eauto|]. split; [by apply (Hres _ Eg); eauto|]. exists (entry_of globals). split; [done|].
    apply (find_exported _ _ _ _ Eg). destruct (collect_globals_run _ _ _ Eg) as [Hnd _]; [constructor|].
    apply find_global_iff; [done|]. destruct (entry_of_run globals (-1) _ Hnd eq_refl) as [H|[H _]]; [done|unfold entry_of in He; lia].
  - intros (H1 & H2 & start & H3 & H4). apply Hc in H1 as [globals Eg]. apply (Hres _ Eg) in H2 as [ps' Er].
    destruct (collect_globals_run _ _ _ Eg) as [Hnd _]; [constructor|].
    apply (find_exported _ _ _ _ Eg), (find_global_iff _ _ _ Hnd) in H4.
    pose proof (find_start_total _ _ Hnd H4) as He. unfold link_images. unfold places in Eg, Er.
    destruct (place imgs) as [[ps de] me]. cbn [fst] in Eg, Er. setoid_rewrite Eg. cbn [mbind res_bind]. rewrite Er. cbn [mbind res_bind].
    rewrite He, (proj2 (Z.ltb_ge _ _)) by lia. eauto.
Qed.

(** ** Properties *)

(** C36: the linker is correct: when the images fit the address space and linking
    succeeds, the executable has the header, with the address of the one symbol
    [_start] that is exported, and every section of every image stands at its place
    in the file, the four bytes of each relocation holding the address that its name
    means plus the addend and every other byte as it was in the image. *)
Theorem link_correct imgs out :
  Forall image_ok imgs -> sizes_fit imgs -> link_images imgs = Ok out -> linked imgs out.
Proof. apply linked_run. Qed.

(** C37: the linker accepts exactly the complete programs: it fails unless no name is
    exported twice, every relocation's name is defined in its image or exported by
    one, and [_start] is exported. *)
Theorem link_succeeds_iff imgs :
  Forall image_ok imgs -> sizes_fit imgs ->
  (exists out, link_images imgs = Ok out) <->
  NoDup (exported_names imgs) /\
  (forall p rel, p ∈ places imgs -> rel ∈ img_relocs (pl_image p) -> exists a, resolves (places imgs) p (rel_name rel) a) /\
  exists start, 0 <= start /\ exported (places imgs) (str "_start") start.
Proof. apply link_succeeds_run. Qed.

(** memory safety of the layout: text, data and bss of all images are at
    disjoint addresses, in this order, no page holds both text and data, and the
    whole fits an [int]. *)
Theorem sections_disjoint imgs :
  sizes_fit imgs ->
  (forall i p, places imgs !! i = Some p ->
    CFG_USER_LOAD_BASE <= pl_text p /\ pl_text p + text_size (pl_image p) <= data_base imgs <= pl_data p /\
    pl_data p + data_size (pl_image p) <= data_end_of imgs <= pl_bss p /\
    pl_bss p + img_bss_size (pl_image p) <= mem_end_of imgs < 2 ^ 31) /\
  (forall i j p q, (i < j)%nat -> places imgs !! i = Some p -> places imgs !! j = Some q ->
    pl_text p + text_size (pl_image p) <= pl_text q /\ pl_data p + data_size (pl_image p) <= pl_data q /\
    pl_bss p + img_bss_size (pl_image p) <= pl_bss q) /\
  data_base imgs mod 4096 = 0.
Proof.
  intros fit. split; [by apply place_inside|]. split; [by apply place_order|]. by pose proof (bases_run imgs fit) as ([_ H] & _).
Qed.

(** The two modules and a start-up routine. *)
Definition demo_start : list Z := asm_text [".globl _start"; "_start:"; "CALL main"; "HLT"]%string.
Definition demo_imgs : list AsmImage := [demo_image demo_main; demo_image demo_twice; demo_image demo_start].

Lemma demo_imgs_ok : Forall image_ok demo_imgs.
Proof.
  assert (H : forall s, text_okb s = true -> assemble_source empty_image s = Ok (demo_image s) -> image_ok (demo_image s)).
  { intros s H1 H2. by apply (assemble_ok s); [apply text_okb_ok|]. }
  apply List.Forall_cons; [|apply List.Forall_cons; [|apply List.Forall_cons; [|apply List.Forall_nil]]];
    apply H; vm_compute; reflexivity.
Qed.

Lemma demo_imgs_fit : sizes_fit demo_imgs.
Proof.
  split; [|vm_compute; reflexivity].
  apply List.Forall_cons; [|apply List.Forall_cons; [|apply List.Forall_cons; [|apply List.Forall_nil]]]; vm_compute; discriminate.
Qed.

Definition demo_executable : list Z := match link_images demo_imgs with Ok b => b | Err _ => [] end.

Theorem link_correct_witness : linked demo_imgs demo_executable.
Proof. apply (link_correct demo_imgs demo_executable demo_imgs_ok demo_imgs_fit). vm_compute. reflexivity. Defined.

Theorem link_succeeds_iff_witness : NoDup (exported_names demo_imgs).
Proof.
  apply (link_succeeds_iff demo_imgs demo_imgs_ok demo_imgs_fit). exists demo_executable. vm_compute. reflexivity.
Defined.

Theorem sections_disjoint_witness : data_base demo_imgs mod 4096 = 0.
Proof. apply (sections_disjoint demo_imgs demo_imgs_fit). Defined.
