(* ===== verification/ShellSpec.v ===== *)
(** * ShellSpec: how the shell reads a command line

    The words of a line are defined on lists ([ref_tokens]); [tokenize] finds the
    first nineteen of them and stores pointers to them. *)

From S2P Require Import Prelude Config Kernel Klog RawMem UserMem LibString LibSys LibStdio LibFormat LibEnv Shell Utils LibStringSpec.

(** ** The words of a line *)

Definition is_quote (c : Z) : bool := (c =? 39) || (c =? 34).

(** A word that starts with a quote goes on to the next such quote, or the end. *)
Fixpoint tokens_from (fuel : nat) (s : list Z) : list (list Z) :=
  match fuel with
  | O => []
  | S fuel =>
      match (span is_blank s).2 with
      | [] => []
      | c :: r =>
          let '(word, rest) := if is_quote c then span (fun d => negb (d =? c)) r
                               else span (fun d => negb (is_blank d)) (c :: r) in
          word :: tokens_from fuel (tail rest)
      end
  end.
Definition ref_tokens (s : list Z) : list (list Z) := tokens_from (length s) s.

Example words_of_a_line :
  ref_tokens (str "  ls -l  'a b' > " ++ [34] ++ str "x|y") = str <$> ["ls"; "-l"; "a b"; ">"; "x|y"]%string.
Proof. reflexivity. Qed.

Lemma span_lengths {p s a b} : span p s = (a, b) -> (length a + length b = length s)%nat.
Proof. intros E. rewrite (span_app p s), E, length_app. done. Qed.

Lemma tokens_from_enough n s : (length s <= n)%nat -> tokens_from n s = ref_tokens s.
Proof.
  unfold ref_tokens. remember (length s) as k eqn:Ek. assert (length s <= k)%nat as Hk by lia. clear Ek.
  intros Hn. revert k s Hk Hn. induction n as [|n IH]; intros k s Hk Hn.
  { destruct s; [|simpl in Hk; lia]. by destruct k. }
  destruct k as [|k]; [destruct s; [done|simpl in Hk; lia]|]. cbn [tokens_from].
  destruct (span is_blank s) as [b t] eqn:E. pose proof (span_lengths E) as Hl. cbn [snd]. destruct t as [|c r]; [done|].
  assert (forall w rest : list Z, (length w + length rest <= length (c :: r))%nat -> (length (tail rest) <= k)%nat) as Ht.
  { intros w rest Hw. destruct rest; cbn in *; lia. }
  destruct (if is_quote c then _ else _) as [w rest] eqn:E2. f_equal. apply IH; [|lia].
  apply (Ht w). destruct (is_quote c); pose proof (span_lengths E2); cbn in *; lia.
Qed.

Lemma tokens_cons s c r :
  (span is_blank s).2 = c :: r ->
  ref_tokens s =
  let '(word, rest) := if is_quote c then span (fun d => negb (d =? c)) r
                       else span (fun d => negb (is_blank d)) (c :: r) in
  word :: ref_tokens (tail rest).
Proof.
  intros E. unfold ref_tokens at 1. destruct s as [|x s]; [done|]. cbn [length tokens_from]. rewrite E.
  destruct (span is_blank (x :: s)) as [b t] eqn:Eb. cbn in E. subst t. pose proof (span_lengths Eb) as Hl.
  destruct (if is_quote c then _ else _) as [w rest] eqn:E2. f_equal. apply tokens_from_enough.
  destruct (is_quote c); pose proof (span_lengths E2); destruct rest; cbn in *; lia.
Qed.

Lemma tokens_nil s : (span is_blank s).2 = [] -> ref_tokens s = [].
Proof. intros E. unfold ref_tokens. destruct s; [done|]. cbn [length tokens_from]. by rewrite E. Qed.

(** ** Scanning the line *)

Section tokenize.
Context {G : Guest}.

(** The rest of the line from index [i] on is still there. *)
Definition rest_of (m : Z -> Z) (l : list Z) (i : Z) : Prop :=
  forall k, i <= k <= Z.of_nat (length l) -> m (line + k) = nthz l k.

Lemma drop_cons_nthz l i : 0 <= i < Z.of_nat (length l) -> drop (Z.to_nat i) l = nthz l i :: drop (Z.to_nat (i + 1)) l.
Proof.
  intros Hi. destruct (lookup_lt_is_Some_2 l (Z.to_nat i)) as [x Hx]; [lia|].
  rewrite (nthz_lookup l i x) by (done || lia). rewrite (drop_S l x) by done. do 2 f_equal. lia.
Qed.

Lemma skip_while_run p q l i s :
  Forall (fun c => 0 < c < 256) l -> rest_of (um s) l i -> p 0 = false ->
  (forall c, 0 < c < 256 -> p (sext8 c) = q c) ->
  0 <= i <= Z.of_nat (length l) -> Z.of_nat (length l) < 2 ^ 31 - 1 ->
  skip_while p i s = Ret (i + Z.of_nat (length (span q (drop (Z.to_nat i) l)).1)) s.
Proof.
  intros Hb Hr Hp0 Hpq Hi Hl. set (e := i + _). apply uwp_pure. unfold skip_while.
  apply (uwp_while (fun i' s' => s' = s /\ i <= i' <= Z.of_nat (length l) /\
    i' + Z.of_nat (length (span q (drop (Z.to_nat i') l)).1) = e) (fun i' => Z.of_nat (length l) - i')); [split; [done|]; split; [lia|done]|lia|].
  intros i' s' (-> & Hi' & He). split; [lia|]. apply uwp_bind, uwp_get. rewrite Hr by lia.
  destruct (Z.eq_dec i' (Z.of_nat (length l))) as [->|Hne].
  - rewrite nthz_end. change (sext8 0) with 0. rewrite Hp0. apply uwp_ret. split; [|done].
    rewrite <- He, drop_ge by lia. cbn. lia.
  - rewrite drop_cons_nthz in He by lia.
    assert (0 < nthz l i' < 256) as Hc.
    { destruct (lookup_lt_is_Some_2 l (Z.to_nat i')) as [x Hx]; [lia|]. rewrite (nthz_lookup l i' x) by (done || lia).
      by apply (Forall_lookup_1 _ _ _ _ Hb Hx). }
    rewrite Hpq by done. cbn [span] in He. destruct (q (nthz l i')); apply uwp_ret.
    + destruct (span q (drop (Z.to_nat (i' + 1)) l)) as [a b]. cbn in *. repeat split; lia.
    + cbn in He. split; [lia|done].
Qed.

(** ** The loop of [tokenize] *)

Definition away_from_shell (a : Z) : Prop := ~ (line <= a < line + 128) /\ ~ (args <= a < args + 80).

(** A word that was found: its pointer, its bytes, and that no store from [i] on
    reaches it. *)
Definition word_stored (m : Z -> Z) (l : list Z) (i : Z) (j : nat) (word : list Z) : Prop :=
  exists o, 0 <= o /\ pread32 m (args + Z.of_nat j * 4) = line + o /\ cstr m (line + o) word /\
    (o + Z.of_nat (length word) < i \/ (i = Z.of_nat (length l) /\ o + Z.of_nat (length word) = i)).

Record scanned (m0 : Z -> Z) (l : list Z) (found : list (list Z)) (i argc : Z) (m : Z -> Z) : Prop := {
  sc_index : 0 <= i <= Z.of_nat (length l);
  sc_rest : rest_of m l i;
  sc_argc : argc = Z.of_nat (length (take 19 found));
  sc_words : found ++ ref_tokens (drop (Z.to_nat i) l) = ref_tokens l;
  sc_found : forall j word, take 19 found !! j = Some word -> word_stored m l i j word;
  sc_away : forall a, away_from_shell a -> m a = m0 a;
}.

(** The globals of the shell are apart from each other. *)
Record shell_memory : Prop := {
  sm_line : 0 <= line /\ line + 128 < 2 ^ 31;
  sm_args : line + 128 <= args \/ args + 80 <= line;
}.
Context (mem : shell_memory).
#[local] Set Default Proof Using "Type*".

Lemma args_away_line j k : 0 <= j < 20 -> 0 <= k < 128 -> args + j * 4 + 4 <= line + k \/ line + k < args + j * 4.
Proof. intros Hj Hk. destruct (sm_args mem); lia. Qed.

(** What the stores of one round do to memory: the pointer, unless there are nineteen
    words, and the NUL after the word, unless the line ends there. *)
Definition put_word (m : Z -> Z) (argc o : Z) : Z -> Z :=
  if argc <? 19 then pwrite32 m (args + argc * 4) (line + o) else m.
Definition end_word (m : Z -> Z) (l : list Z) (e : Z) : Z -> Z :=
  if e <? Z.of_nat (length l) then upd m (line + e) 0 else m.

Lemma put_word_line m argc o k : 0 <= argc -> 0 <= k < 128 -> put_word m argc o (line + k) = m (line + k).
Proof.
  intros Ha Hk. unfold put_word. destruct (Z.ltb_spec argc 19); [|done]. apply pwrite32_other.
  pose proof (args_away_line argc k). lia.
Qed.

Lemma end_word_args m l e j :
  0 <= e -> Z.of_nat (length l) < 128 -> 0 <= j < 20 -> pread32 (end_word m l e) (args + j * 4) = pread32 m (args + j * 4).
Proof.
  intros He Hl Hj. unfold end_word. destruct (Z.ltb_spec e (Z.of_nat (length l))); [|done].
  apply pread32_ext. intros k Hk. apply upd_ne. destruct (sm_args mem); lia.
Qed.

Lemma end_word_other m l e k : k <> e -> end_word m l e (line + k) = m (line + k).
Proof. intros Hk. unfold end_word. case_match; [|done]. apply upd_ne. lia. Qed.

Lemma take_snoc_19 {A} (found : list A) w :
  take 19 (found ++ [w]) = if decide (length found < 19)%nat then take 19 found ++ [w] else take 19 found.
Proof using.
  destruct (decide _) as [H|H].
  - rewrite !take_ge by (rewrite ?length_app; cbn; lia). done.
  - rewrite take_app_le by lia. done.
Qed.

Section round.
Context (m0 : Z -> Z) (l : list Z) (found : list (list Z)) (i argc : Z) (m : Z -> Z) (o : Z) (word : list Z).
Context (bytes : Forall (fun c => 0 < c < 256) l) (small : Z.of_nat (length l) < 128).
Context (scan : scanned m0 l found i argc m).
Context (here : i < Z.of_nat (length l)) (after : i <= o) (fits : o + Z.of_nat (length word) <= Z.of_nat (length l)).
Context (is_word : word = take (length word) (drop (Z.to_nat o) l)).
Local Abbreviation e := (o + Z.of_nat (length word)).
Local Abbreviation m' := (end_word (put_word m argc o) l e).
Local Abbreviation i' := (if e <? Z.of_nat (length l) then e + 1 else e).

Lemma argc_bounds : 0 <= argc <= 19 /\ (argc < 19 <-> (length found < 19)%nat) /\ (argc < 19 -> argc = Z.of_nat (length found)).
Proof. rewrite (sc_argc _ _ _ _ _ _ scan), length_take. lia. Qed.

Lemma new_word : cstr m' (line + o) word.
Proof.
  pose proof (sc_index _ _ _ _ _ _ scan). destruct argc_bounds as [Ha _].
  split; [rewrite is_word; by apply Forall_take, Forall_drop|]. split; [|lia].
  intros k Hk. rewrite <- Z.add_assoc. destruct (Z.eq_dec k (Z.of_nat (length word))) as [->|Hne].
  - rewrite nthz_end. unfold end_word. destruct (Z.ltb_spec e (Z.of_nat (length l))) as [Hlt|Hge].
    + apply upd_same.
    + rewrite put_word_line by lia. rewrite (sc_rest _ _ _ _ _ _ scan) by lia.
      replace e with (Z.of_nat (length l)) by lia. apply nthz_end.
  - rewrite end_word_other, put_word_line by lia. rewrite (sc_rest _ _ _ _ _ _ scan) by lia.
    unfold nthz. rewrite !(proj2 (Z.ltb_ge _ 0)) by lia. rewrite is_word.
    rewrite !nth_lookup, lookup_take_lt, lookup_drop by lia. do 2 f_equal. lia.
Qed.

Lemma old_word j w : take 19 found !! j = Some w -> word_stored m' l i' j w.
Proof.
  intros Hj. destruct (sc_found _ _ _ _ _ _ scan j w Hj) as (p & Hp & Hr & Hc & Hb).
  pose proof (sc_index _ _ _ _ _ _ scan). destruct argc_bounds as (Ha & Ha2 & Ha3).
  pose proof (lookup_lt_Some _ _ _ Hj) as Hlt. rewrite length_take in Hlt.
  exists p. split; [done|]. split; [|split].
  - rewrite end_word_args by lia. unfold put_word. destruct (Z.ltb_spec argc 19) as [Hl19|]; [|done].
    rewrite pread32_pwrite32_other; [done|]. specialize (Ha3 Hl19). lia.
  - eapply cstr_ext; [|exact Hc]. intros k Hk. rewrite <- Z.add_assoc. rewrite end_word_other, put_word_line by lia. done.
  - left. case_match; lia.
Qed.

Lemma scanned_round :
  found ++ word :: ref_tokens (drop (Z.to_nat (e + 1)) l) = ref_tokens l ->
  scanned m0 l (found ++ [word]) i' (if argc <? 19 then argc + 1 else argc) m'.
Proof.
  intros Hw. pose proof (sc_index _ _ _ _ _ _ scan) as Hi. destruct argc_bounds as (Ha & Ha2 & Ha3).
  split.
  - case_match; lia.
  - intros k Hk. assert (e < k \/ (k = e /\ e = Z.of_nat (length l))) as Hek by (destruct (Z.ltb_spec e (Z.of_nat (length l))); lia).
    assert (m' (line + k) = put_word m argc o (line + k)) as ->.
    { destruct Hek as [Hek|[-> Hek]]; [apply end_word_other; lia|]. unfold end_word. by rewrite (proj2 (Z.ltb_ge _ _)) by lia. }
    rewrite put_word_line by lia. apply (sc_rest _ _ _ _ _ _ scan). lia.
  - rewrite take_snoc_19, (sc_argc _ _ _ _ _ _ scan). rewrite length_take.
    destruct (Z.ltb_spec (Z.of_nat (Nat.min 19 (length found))) 19); destruct (decide _); rewrite ?length_app, ?length_take; cbn; lia.
  - rewrite <- app_assoc. cbn. rewrite <- Hw. do 2 f_equal. case_match; [done|]. by rewrite !drop_ge by lia.
  - intros j w Hj. rewrite take_snoc_19 in Hj. destruct (decide _) as [Hl19|]; [|by apply old_word].
    apply lookup_app_Some in Hj as [Hj|[Hge Hj]]; [by apply old_word|].
    rewrite length_take in *. apply list_lookup_singleton_Some in Hj as [Hz <-].
    assert (argc < 19) as Hlt by lia. specialize (Ha3 Hlt). exists o. split; [lia|]. split; [|split; [apply new_word|]].
    + rewrite end_word_args by lia. unfold put_word. rewrite (proj2 (Z.ltb_lt _ _)) by lia.
      replace (args + Z.of_nat j * 4) with (args + argc * 4) by lia. rewrite pread32_pwrite32_same.
      apply i32_id. pose proof (sm_line mem). unfold is_i32. lia.
    + case_match; lia.
  - intros a Hout. rewrite <- (sc_away _ _ _ _ _ _ scan a Hout). destruct Hout as [H1 H2].
    assert (forall mm, end_word mm l e a = mm a) as ->.
    { intros mm. unfold end_word. case_match; [|done]. apply upd_ne. lia. }
    unfold put_word. destruct (Z.ltb_spec argc 19); [|done]. apply pwrite32_other. lia.
Qed.
End round.

Lemma span_take p (s : list Z) : (span p s).1 = take (length (span p s).1) s.
Proof using. rewrite (span_app p s) at 3. by rewrite take_app_length. Qed.

Lemma span_drop p (s : list Z) : (span p s).2 = drop (length (span p s).1) s.
Proof using. rewrite (span_app p s) at 3. by rewrite drop_app_length. Qed.

Lemma drop_from l i (n : nat) : 0 <= i -> drop n (drop (Z.to_nat i) l) = drop (Z.to_nat (i + Z.of_nat n)) (l : list Z).
Proof using. intros Hi. rewrite drop_drop. f_equal. lia. Qed.

Lemma byte_nthz l i : Forall (fun c => 0 < c < 256) l -> 0 <= i < Z.of_nat (length l) -> 0 < nthz l i < 256.
Proof using.
  intros Hb Hi. destruct (lookup_lt_is_Some_2 l (Z.to_nat i)) as [x Hx]; [lia|]. rewrite (nthz_lookup l i x) by (done || lia).
  by apply (Forall_lookup_1 _ _ _ _ Hb Hx).
Qed.

Lemma sext8_char c k : 0 < c < 256 -> 0 <= k < 128 -> (sext8 c =? k) = (c =? k).
Proof using. unfold sext8. intros Hc Hk. case_match; lia. Qed.

Lemma sext8_blank c : 0 < c < 256 -> is_blank (sext8 c) = is_blank c.
Proof using. intros Hc. unfold is_blank. by rewrite !sext8_char by lia. Qed.

Lemma sext8_zero c : 0 < c < 256 -> (sext8 c =? 0) = false.
Proof using. intros Hc. rewrite sext8_char by lia. lia. Qed.

Lemma span_stop p (s : list Z) a c r : span p s = (a, c :: r) -> p c = false.
Proof using.
  revert a. induction s as [|x s IH]; intros a E; [done|]. cbn [span] in E. destruct (p x) eqn:Ep.
  - destruct (span p s) as [a' b] eqn:Es. injection E as _ ->. by eapply IH.
  - by injection E as _ -> _.
Qed.

(** Everything but the memory of the process stays. *)
Definition memory_only (s s' : ustate) : Prop := s' = s <| um := um s' |>.

Lemma memory_only_um s s' m : memory_only s s' -> memory_only s (s' <| um := m |>).
Proof using. unfold memory_only. intros ->. done. Qed.

(** From the first character of a word on. *)
Definition word_start (l : list Z) (i : Z) : Z * Z :=
  let c := nthz l i in if is_quote c then (c, i + 1) else (0, i).

Lemma word_found l i c r :
  0 <= i < Z.of_nat (length l) -> drop (Z.to_nat i) l = c :: r -> is_blank c = false ->
  let '(quote, o) := word_start l i in
  let q := if negb (quote =? 0) then fun d => negb (d =? quote) else fun d => negb (is_blank d) in
  let word := (span q (drop (Z.to_nat o) l)).1 in
  o + Z.of_nat (length word) <= Z.of_nat (length l) /\ i <= o /\
  i < (if o + Z.of_nat (length word) <? Z.of_nat (length l) then o + Z.of_nat (length word) + 1 else o + Z.of_nat (length word)) /\
  ref_tokens (drop (Z.to_nat i) l) = word :: ref_tokens (drop (Z.to_nat (o + Z.of_nat (length word) + 1)) l).
Proof using.
  intros Hi Hd Hb. pose proof (drop_cons_nthz l i Hi) as Hc. rewrite Hd in Hc. injection Hc as Hc Hr.
  unfold word_start. rewrite <- Hc. set (n := Z.of_nat (length l)).
  assert (Hlen : forall q o, i <= o <= n -> let w := (span q (drop (Z.to_nat o) l)).1 in o + Z.of_nat (length w) <= n).
  { intros q o Ho. cbv zeta. destruct (span q (drop (Z.to_nat o) l)) as [w b] eqn:E. pose proof (span_lengths E) as Hl.
    rewrite length_drop in Hl. cbn. lia. }
  assert (Htok : ref_tokens (drop (Z.to_nat i) l) =
    let '(word, rest) := if is_quote c then span (fun d => negb (d =? c)) r else span (fun d => negb (is_blank d)) (c :: r) in
    word :: ref_tokens (tail rest)).
  { apply tokens_cons. rewrite Hd. cbn [span]. by rewrite Hb. }
  assert (Htail : forall q o, i <= o <= n -> let w := (span q (drop (Z.to_nat o) l)).1 in
    tail (span q (drop (Z.to_nat o) l)).2 = drop (Z.to_nat (o + Z.of_nat (length w) + 1)) l).
  { intros q o Ho. cbv zeta. rewrite span_drop, drop_from by lia. set (k := o + _).
    assert (tail (drop (Z.to_nat k) l) = drop (Z.to_nat k + 1) l) as -> by (rewrite <- drop_drop; by destruct (drop (Z.to_nat k) l)).
    f_equal. lia. }
  destruct (is_quote c) eqn:Eq.
  - assert (negb (c =? 0) = true) as -> by (unfold is_quote in Eq; destruct (Z.eqb_spec c 0) as [->|]; done).
    pose proof (Hlen (fun d => negb (d =? c)) (i + 1) ltac:(lia)) as H1.
    pose proof (Htail (fun d => negb (d =? c)) (i + 1) ltac:(lia)) as H2. cbv zeta in *.
    split; [exact H1|]. split; [lia|]. split; [destruct (_ <? n); lia|]. rewrite Htok, Hr.
    destruct (span _ (drop (Z.to_nat (i + 1)) l)) as [w b]. cbn in *. by rewrite H2.
  - change (negb (0 =? 0)) with false. cbv iota.
    pose proof (Hlen (fun d => negb (is_blank d)) i ltac:(lia)) as H1.
    pose proof (Htail (fun d => negb (is_blank d)) i ltac:(lia)) as H2. cbv zeta in *.
    split; [exact H1|]. split; [lia|]. rewrite Hd in *. split.
    + cbn [span] in *. rewrite Hb in *. cbn [negb] in *. destruct (span _ r) as [w b]. cbn in *. destruct (_ <? n); lia.
    + rewrite Htok. destruct (span _ (c :: r)) as [w b]. cbn in *. by rewrite H2.
Qed.

Lemma ref_tokens_blank (l : list Z) i (b : nat) :
  0 <= i ->
  (span is_blank (drop (Z.to_nat i) l)).2 = drop (Z.to_nat (i + Z.of_nat b)) l ->
  ref_tokens (drop (Z.to_nat i) l) = ref_tokens (drop (Z.to_nat (i + Z.of_nat b)) l).
Proof using.
  intros Hi Hd. set (t := drop (Z.to_nat i) l) in *. rewrite <- Hd.
  assert (Hs : span is_blank (span is_blank t).2 = ([], (span is_blank t).2)).
  { clear. induction t as [|c t IH]; [done|]. cbn [span]. destruct (is_blank c) eqn:E; [|cbn; by rewrite E].
    destruct (span is_blank t). exact IH. }
  destruct (span is_blank t).2 as [|c r] eqn:E.
  - by rewrite (tokens_nil t) by done.
  - rewrite (tokens_cons t c r E). symmetry. apply tokens_cons. by rewrite Hs.
Qed.

(** The postcondition: pointers to the first nineteen words, and a null pointer. *)
Definition tokenized (l : list Z) (s : ustate) (argc : Z) (s' : ustate) : Prop :=
  argc = Z.of_nat (length (take 19 (ref_tokens l))) /\
  (forall j word, take 19 (ref_tokens l) !! j = Some word -> cstr (um s') (pread32 (um s') (args + Z.of_nat j * 4)) word) /\
  pread32 (um s') (args + argc * 4) = 0 /\
  (forall a, away_from_shell a -> um s' a = um s a) /\ memory_only s s'.

Lemma scanned_end m0 l found i argc m s s' :
  Z.of_nat (length l) < 128 -> um s = m0 -> um s' = m -> memory_only s s' -> scanned m0 l found i argc m -> found = ref_tokens l ->
  tokenized l s argc (s' <| um ::= fun m => pwrite32 m (args + argc * 4) 0 |>).
Proof.
  intros Hl <- <- Hm Hsc ->. unfold tokenized. pose proof (sc_argc _ _ _ _ _ _ Hsc) as Ha.
  assert (0 <= argc <= 19) as Hb by (rewrite Ha, length_take; lia). rsimpl.
  split; [done|]. split; [|split; [by rewrite pread32_pwrite32_same|split]].
  - intros j word Hj. destruct (sc_found _ _ _ _ _ _ Hsc j word Hj) as (o & Ho & Hr & Hc & He).
    pose proof (lookup_lt_Some _ _ _ Hj) as Hlt. pose proof (sc_index _ _ _ _ _ _ Hsc).
    rewrite pread32_pwrite32_other by lia. rewrite Hr.
    eapply cstr_ext; [|exact Hc]. intros k Hk. rewrite <- Z.add_assoc. apply pwrite32_other.
    pose proof (args_away_line argc (o + k)). lia.
  - intros a Hout. rewrite <- (sc_away _ _ _ _ _ _ Hsc a Hout). apply pwrite32_other. destruct Hout. lia.
  - apply memory_only_um. done.
Qed.

(** The end of a word. *)
Lemma skip_word l o quote s :
  Forall (fun c => 0 < c < 256) l -> rest_of (um s) l o -> 0 <= o <= Z.of_nat (length l) -> Z.of_nat (length l) < 128 ->
  quote = 0 \/ is_quote quote = true ->
  let q := if negb (quote =? 0) then fun d => negb (d =? quote) else fun d => negb (is_blank d) in
  (if negb (quote =? 0) then skip_while (fun c => negb (c =? 0) && negb (c =? quote)) o
   else skip_while (fun c => negb (c =? 0) && negb (is_blank c)) o) s =
  Ret (o + Z.of_nat (length (span q (drop (Z.to_nat o) l)).1)) s.
Proof.
  intros Hb Hr Ho Hl Hq. cbv zeta. destruct (negb (quote =? 0)) eqn:Eq; apply skip_while_run; try done; try lia.
  - intros c Hc. rewrite sext8_zero by done. cbn [negb andb]. rewrite sext8_char; [done|done|].
    destruct Hq as [->|Hq]; [done|]. unfold is_quote in Hq. bool_hyps. lia.
  - intros c Hc. rewrite sext8_zero by done. cbn [negb andb]. by rewrite sext8_blank.
Qed.

(** A round of the loop, from a word on. *)
Definition word_done (s : ustate) (l : list Z) (i1 : Z) (r : Z * Z) (s' : ustate) : Prop :=
  i1 < r.1 /\ memory_only s s' /\ exists found, scanned (um s) l found r.1 r.2 (um s').

Lemma take_word_run s l found i i1 argc s1 :
  Forall (fun c => 0 < c < 256) l -> Z.of_nat (length l) < 128 -> memory_only s s1 ->
  scanned (um s) l found i argc (um s1) -> i <= i1 < Z.of_nat (length l) ->
  ref_tokens (drop (Z.to_nat i) l) = ref_tokens (drop (Z.to_nat i1) l) -> is_blank (nthz l i1) = false ->
  uwp (take_word (sext8 (nthz l i1)) i1 argc) (word_done s l i1) s1.
Proof.
  intros Hb Hsm Hm Hsc Hi1 Htok Hnb. pose proof (sc_index _ _ _ _ _ _ Hsc) as Hi.
  pose proof (byte_nthz l i1 Hb ltac:(lia)) as Hc. unfold take_word.
  assert ((if (sext8 (nthz l i1) =? 39) || (sext8 (nthz l i1) =? 34) then (sext8 (nthz l i1), i1 + 1) else (0, i1)) = word_start l i1) as ->.
  { unfold word_start, is_quote. rewrite !sext8_char by lia. destruct (_ || _) eqn:Eq; [|done]. f_equal.
    unfold sext8. rewrite (proj2 (Z.ltb_lt _ _)); [done|]. bool_hyps. lia. }
  pose proof (word_found l i1 _ _ ltac:(lia) (drop_cons_nthz l i1 ltac:(lia)) Hnb) as Hf.
  destruct (word_start l i1) as [quote o] eqn:Ews.
  cbv zeta in Hf. set (q := if negb (quote =? 0) then fun d => negb (d =? quote) else fun d => negb (is_blank d)) in *.
  set (word := (span q (drop (Z.to_nat o) l)).1) in *. destruct Hf as (Hfit & Ho & Hprog & Hword).
  set (e := o + Z.of_nat (length word)) in *.
  assert (Hround := scanned_round (um s) l found i argc (um s1) o word Hb Hsm Hsc ltac:(lia) ltac:(lia) Hfit (span_take _ _)).
  fold e in Hround. rewrite <- Hword, <- Htok in Hround. specialize (Hround (sc_words _ _ _ _ _ _ Hsc)).
  pose proof (sc_argc _ _ _ _ _ _ Hsc) as Ha. rewrite length_take in Ha.
  set (s2 := s1 <| um := put_word (um s1) argc o |>).
  set (argc' := if argc <? 19 then argc + 1 else argc) in *.
  apply uwp_bind, (uwp_run _ _ _ argc' s2).
  { unfold argc', s2, put_word. destruct (argc <? 19); by destruct s1. }
  assert (Hrest2 : rest_of (um s2) l o).
  { intros k Hk. change (um s2) with (put_word (um s1) argc o). rewrite put_word_line by lia.
    apply (sc_rest _ _ _ _ _ _ Hsc). lia. }
  apply uwp_bind, (uwp_run _ _ _ e s2); [apply (skip_word l o quote s2 Hb Hrest2); [lia|done|]|].
  { unfold word_start in Ews. destruct (is_quote (nthz l i1)) eqn:Eq; injection Ews as <- _; [by right|by left]. }
  apply uwp_bind, uwp_get. rewrite (Hrest2 e) by lia.
  assert (Hm2 : memory_only s s2) by by apply memory_only_um.
  unfold end_word in Hround. destruct (Z.ltb_spec e (Z.of_nat (length l))) as [Hlt|Hge].
  - rewrite sext8_zero by (apply byte_nthz; [done|lia]). uwp_auto. split; [exact Hprog|]. split; [|by exists (found ++ [word])].
    unfold memory_only in Hm2 |- *. rewrite Hm2. done.
  - assert (e = Z.of_nat (length l)) as -> by lia. rewrite nthz_end. change (sext8 0 =? 0) with true. cbn [negb].
    apply uwp_ret. split; [exact Hprog|]. split; [done|]. by exists (found ++ [word]).
Qed.

Lemma tokenize_run l s :
  cstr (um s) line l -> Z.of_nat (length l) < 128 -> uwp tokenize (tokenized l s) s.
Proof.
  intros (Hb & Hl & _) Hsm. unfold tokenize. apply uwp_bind.
  apply (uwp_while (fun '(i, argc) s' => memory_only s s' /\ exists found, scanned (um s) l found i argc (um s'))
    (fun '(i, argc) => Z.of_nat (length l) - i)); [|lia|].
  { split; [by destruct s|]. exists []. split; try done; lia. }
  intros [i argc] s1 (Hm & found & Hsc). pose proof (sc_index _ _ _ _ _ _ Hsc) as Hi. split; [lia|].
  pose proof (sc_rest _ _ _ _ _ _ Hsc) as Hrest.
  assert (Hend : ref_tokens (drop (Z.to_nat i) l) = [] ->
    uwp (stw (args + argc * 4) 0 ;; mret argc) (tokenized l s) s1).
  { intros E. pose proof (sc_words _ _ _ _ _ _ Hsc) as Hw. rewrite E, app_nil_r in Hw. uwp_auto.
    by apply (scanned_end (um s) l found i argc (um s1)). }
  uwp_auto. rewrite (Hrest i) by lia. destruct (Z.eq_dec i (Z.of_nat (length l))) as [->|Hne].
  { rewrite nthz_end. change (sext8 0 =? 0) with true. cbv iota. apply uwp_ret. apply Hend. by rewrite drop_ge by lia. }
  rewrite sext8_zero by (apply byte_nthz; [done|lia]). uwp_auto.
  set (b := length (span is_blank (drop (Z.to_nat i) l)).1). set (i1 := i + Z.of_nat b).
  eapply uwp_run; [apply (skip_while_run is_blank is_blank l i s1 Hb Hrest); [done|apply sext8_blank|lia|lia]|].
  fold b i1. pose proof (span_drop is_blank (drop (Z.to_nat i) l)) as Hd. fold b in Hd. rewrite drop_from in Hd by lia. fold i1 in Hd.
  assert (Hi1 : i1 <= Z.of_nat (length l)).
  { pose proof (span_lengths (surjective_pairing (span is_blank (drop (Z.to_nat i) l)))) as H. rewrite length_drop in H. fold b in H. lia. }
  assert (Htok : ref_tokens (drop (Z.to_nat i) l) = ref_tokens (drop (Z.to_nat i1) l)).
  { apply ref_tokens_blank; [lia|done]. }
  uwp_auto. rewrite (Hrest i1) by lia. destruct (Z.eq_dec i1 (Z.of_nat (length l))) as [E1|Hne1].
  { rewrite E1, nthz_end. change (sext8 0 =? 0) with true. cbv iota. apply uwp_ret. apply Hend. by rewrite Htok, E1, drop_ge by lia. }
  rewrite sext8_zero by (apply byte_nthz; [done|lia]). apply uwp_bind.
  eapply uwp_mono; [apply (take_word_run s l found i i1 argc s1); try done; [lia|]|].
  { destruct (span is_blank (drop (Z.to_nat i) l)) as [x y] eqn:Es. cbn [snd] in Hd.
    rewrite Hd, (drop_cons_nthz l i1) in Es by lia. by apply span_stop in Es. }
  intros [i2 argc2] s2 (H1 & H2 & H3). cbn in H1. apply uwp_ret. split; [by split|]. lia.
Qed.

(** C40: the shell splits a command line into the words that a definition on lists
    gives: [args] points to the first nineteen of them in the line, each ended by a
    NUL, a null pointer follows, the count is returned, and nothing else changes. *)
Theorem tokenize_correct l s :
  cstr (um s) line l -> Z.of_nat (length l) < 128 ->
  uwp tokenize (fun argc s' =>
    argc = Z.of_nat (length (take 19 (ref_tokens l))) /\
    (forall j word, take 19 (ref_tokens l) !! j = Some word ->
       cstr (um s') (pread32 (um s') (args + Z.of_nat j * 4)) word) /\
    pread32 (um s') (args + argc * 4) = 0 /\
    (forall a, away_from_shell a -> um s' a = um s a) /\ s' = s <| um := um s' |>) s.
Proof. apply tokenize_run. Qed.
End tokenize.

Definition demo_shell_guest : Guest := {|
  os_state := unit;
  os_call _ _ _ _ _ _ := None;
  addr_of name := if bool_decide (name = "sh.line"%string) then 100 else 1000;
  literal _ := 0 |}.

Definition demo_command : list Z := str "grep 'a b' < in | wc".
Definition demo_shell : @ustate demo_shell_guest :=
  @Build_ustate demo_shell_guest (blit (fun _ => 0) 100 (demo_command ++ [0])) tt 0 (fun _ => 0) 0 0 0 0 0 0 0.

Theorem tokenize_correct_witness :
  ref_tokens demo_command = str <$> ["grep"; "a b"; "<"; "in"; "|"; "wc"]%string /\
  uwp (@tokenize demo_shell_guest) (fun argc s' =>
    argc = Z.of_nat (length (take 19 (ref_tokens demo_command))) /\
    (forall j word, take 19 (ref_tokens demo_command) !! j = Some word ->
       cstr (um s') (pread32 (um s') (@args demo_shell_guest + Z.of_nat j * 4)) word) /\
    pread32 (um s') (@args demo_shell_guest + argc * 4) = 0 /\
    (forall a, @away_from_shell demo_shell_guest a -> um s' a = um demo_shell a) /\ s' = demo_shell <| um := um s' |>) demo_shell.
Proof.
  split; [reflexivity|]. apply (@tokenize_correct demo_shell_guest).
  - split; vm_compute; [split; [discriminate|reflexivity]|left; discriminate].
  - apply (text_ok_cstr (fun _ => 0) 100 demo_command). vm_compute. reflexivity.
  - vm_compute. reflexivity.
Defined.

(** * wc counts what it reads

    The input of a program is what successive calls of read return; however it is cut
    into buffers, wc counts the bytes, newlines and words of the whole. *)

(** ** The words of a text *)

(** The fields between white space. *)
Fixpoint fields_from (fuel : nat) (s : list Z) : list (list Z) :=
  match fuel with
  | O => []
  | S fuel =>
      match (span is_space3 s).2 with
      | [] => []
      | t => let '(word, rest) := span (fun d => negb (is_space3 d)) t in word :: fields_from fuel rest
      end
  end.
Definition fields (s : list Z) : list (list Z) := fields_from (length s) s.
#[global] Arguments fields : simpl never.

Example fields_of_a_text : fields (str "  one two" ++ [10; 10] ++ str "three ") = str <$> ["one"; "two"; "three"]%string.
Proof. reflexivity. Qed.

Lemma span_length p (s : list Z) : (length (span p s).1 + length (span p s).2 = length s)%nat.
Proof. rewrite (span_app p s) at 3. by rewrite length_app. Qed.

(** What is left after the spaces does not start with one, so a field is not empty. *)
Lemma span_stops p (s : list Z) c t : (span p s).2 = c :: t -> p c = false.
Proof.
  induction s as [|x s IH]; intros E; [done|]. cbn [span] in E.
  destruct (p x) eqn:Ex; [|by injection E as -> _]. destruct (span p s). by apply IH.
Qed.

Lemma field_shorter s c t :
  (span is_space3 s).2 = c :: t -> (length (span (fun d => negb (is_space3 d)) (c :: t)).2 < length s)%nat.
Proof.
  intros E. pose proof (span_length is_space3 s) as Hl. rewrite E in Hl. apply span_stops in E. cbn [span].
  rewrite E. cbn [negb]. pose proof (span_length (fun d => negb (is_space3 d)) t). destruct (span _ t). cbn in *. lia.
Qed.

Lemma fields_from_any n k s : (length s <= n)%nat -> (length s <= k)%nat -> fields_from n s = fields_from k s.
Proof.
  revert k s. induction n as [|n IH]; intros k s Hn Hk; [destruct s; [by destruct k|simpl in Hn; lia]|].
  destruct k as [|k]; [destruct s; [done|simpl in Hk; lia]|]. cbn [fields_from].
  destruct (span is_space3 s).2 as [|c t] eqn:E; [done|]. apply field_shorter in E.
  destruct (span _ (c :: t)) as [w rest]. cbn in E. f_equal. apply IH; lia.
Qed.

Lemma fields_eq s :
  fields s = match (span is_space3 s).2 with
             | [] => []
             | t => let '(word, rest) := span (fun d => negb (is_space3 d)) t in word :: fields rest
             end.
Proof.
  unfold fields at 1. destruct s as [|x s]; [done|]. cbn [length fields_from].
  destruct (span is_space3 (x :: s)).2 as [|c t] eqn:E; [done|]. apply field_shorter in E.
  destruct (span _ (c :: t)) as [w rest]. cbn in E. f_equal. apply fields_from_any; lia.
Qed.

(** A white-space character in front changes nothing; any other starts a field. *)
Lemma fields_space c s : is_space3 c = true -> fields (c :: s) = fields s.
Proof.
  intros Hc. rewrite (fields_eq (c :: s)), (fields_eq s). cbn [span]. rewrite Hc. by destruct (span is_space3 s).
Qed.

Lemma fields_word c s : is_space3 c = false -> fields (c :: s) = (c :: (span (fun d => negb (is_space3 d)) s).1) ::
  fields (span (fun d => negb (is_space3 d)) s).2.
Proof.
  intros Hc. rewrite (fields_eq (c :: s)). cbn [span]. rewrite Hc. cbn [snd span]. rewrite Hc. cbn [negb].
  by destruct (span _ s).
Qed.

(** ** Counting characters *)

Definition newlines (s : list Z) : Z := Z.of_nat (length (List.filter (fun c => c =? 10) s)).

(** The words that start in [s], inside a word or not. *)
Definition words_in (in_word : Z) (s : list Z) : Z :=
  Z.of_nat (length (fields (if in_word =? 0 then s else (span (fun d => negb (is_space3 d)) s).2))).

Definition wc_step (st : Z * Z * Z) (c : Z) : Z * Z * Z := let '(lines, words, in_word) := st in wc_char lines words in_word (sext8 c).

Lemma words_in_cons in_word c s :
  words_in in_word (c :: s) =
  if is_space3 c then words_in 0 s else if in_word =? 0 then 1 + words_in 1 s else words_in 1 s.
Proof.
  unfold words_in. destruct (is_space3 c) eqn:E.
  - destruct (in_word =? 0); [by rewrite fields_space|]. cbn [span]. rewrite E. cbn. by rewrite fields_space.
  - destruct (in_word =? 0); cbn; [rewrite fields_word by done; cbn; lia|]. rewrite E. cbn. by destruct (span _ s).
Qed.

Lemma words_in_bound in_word s : 0 <= words_in in_word s <= Z.of_nat (length s).
Proof.
  revert in_word. induction s as [|c s IH]; intros in_word.
  - unfold words_in. by destruct (in_word =? 0).
  - rewrite words_in_cons. pose proof (IH 0). pose proof (IH 1). cbn [length]. repeat case_match; lia.
Qed.

Lemma newlines_cons c s : newlines (c :: s) = (if c =? 10 then 1 else 0) + newlines s.
Proof. unfold newlines. cbn [List.filter]. destruct (c =? 10); cbn [length]; lia. Qed.

Lemma newlines_bound s : 0 <= newlines s <= Z.of_nat (length s).
Proof. induction s as [|c s IH]; [done|]. rewrite newlines_cons. cbn [length]. case_match; lia. Qed.

Lemma newlines_app s t : newlines (s ++ t) = newlines s + newlines t.
Proof. unfold newlines. rewrite List.filter_app, length_app. lia. Qed.

Lemma is_space3_signed c : is_byte c -> is_space3 (sext8 c) = is_space3 c /\ (sext8 c =? 10) = (c =? 10).
Proof. unfold is_byte, is_space3, sext8. intros H. case_match; [done|]. lia. Qed.

Lemma wc_fold s lines words in_word :
  Forall is_byte s -> 0 <= lines -> 0 <= words -> lines + Z.of_nat (length s) < 2 ^ 31 -> words + Z.of_nat (length s) < 2 ^ 31 ->
  exists flag, fold_left wc_step s (lines, words, in_word) = (lines + newlines s, words + words_in in_word s, flag).
Proof.
  intros Hs. revert lines words in_word. induction Hs as [|c s Hc Hs IH]; intros lines words in_word Hl Hw Hl2 Hw2.
  - exists in_word. assert (words_in in_word [] = 0) as -> by (unfold words_in; by destruct (in_word =? 0)).
    change (newlines []) with 0. rewrite !Z.add_0_r. done.
  - cbn [fold_left length] in *. rewrite words_in_cons, newlines_cons. cbn [wc_step]. unfold wc_char.
    destruct (is_space3_signed c Hc) as [-> ->].
    assert (Hinc : forall v, 0 <= v < 2 ^ 31 - 1 -> v +! 1 = v + 1) by (intros v Hv; apply i32_id; unfold is_i32; lia).
    assert (Hl3 : (if c =? 10 then lines +! 1 else lines) = (if c =? 10 then 1 else 0) + lines)
      by (destruct (c =? 10); rewrite ?Hinc by lia; lia).
    assert (Hb : 0 <= (if c =? 10 then 1 else 0) <= 1) by (destruct (c =? 10); lia).
    rewrite Hl3. set (d := if c =? 10 then 1 else 0) in *.
    destruct (is_space3 c) eqn:Es.
    + destruct (IH (d + lines) words 0) as [flag ->]; [lia..|]. exists flag. f_equal. f_equal. lia.
    + destruct (in_word =? 0) eqn:Ei.
      * destruct (IH (d + lines) (words +! 1) 1) as [flag ->]; [rewrite ?Hinc by lia; lia..|].
        exists flag. rewrite Hinc by lia. f_equal. f_equal; lia.
      * destruct (IH (d + lines) words in_word) as [flag ->]; [lia..|]. exists flag. unfold words_in at 1. rewrite Ei.
        f_equal. f_equal; lia.
Qed.

(** ** Reading *)

(** What the kernel promises of read on an open descriptor: it fails, or it is at the
    end of the input, or it stores at most [n] of the bytes that come next. *)
Class ReadOs `{Guest} := {
  os_input : os_state -> Z -> list Z;
  os_read_returns : forall fd a n m o, 0 < n -> exists r m' o',
    os_call CFG_SYS_READ fd a n m o = Some (r, m', o') /\
    ((-4096 < r <= 0 /\ (r = 0 -> os_input o fd = [])) \/
     (0 < r <= n /\ r <= Z.of_nat (length (os_input o fd)) /\
      slice m' a (Z.to_nat r) = take (Z.to_nat r) (os_input o fd) /\
      os_input o' fd = drop (Z.to_nat r) (os_input o fd)));
}.

Section wc.
Context {G : Guest} {R : ReadOs}.
Local Abbreviation buf := (addr_of "wc.wc_buffer").

Lemma count_chunk_run s chunk lines words in_word :
  slice (um s) buf (length chunk) = chunk ->
  Z.of_nat (length chunk) < 2 ^ 31 ->
  count_chunk (Z.of_nat (length chunk)) lines words in_word s = Ret (fold_left wc_step chunk (lines, words, in_word)) s.
Proof using.
  intros Hc Hn. apply uwp_pure. unfold count_chunk.
  apply (uwp_while (fun '(i, l, w, f) s' => s' = s /\ 0 <= i <= Z.of_nat (length chunk) /\
    fold_left wc_step (take (Z.to_nat i) chunk) (lines, words, in_word) = (l, w, f))
    (fun '(i, _, _, _) => Z.of_nat (length chunk) - i)); [split; [done|split; [lia|done]]|lia|].
  intros [[[i l] w] f] s' (-> & Hi & Hf). split; [lia|].
  destruct (Z.ltb_spec i (Z.of_nat (length chunk))) as [Hlt|Hge]; cbn [negb].
  - destruct (lookup_lt_is_Some_2 chunk (Z.to_nat i)) as [c Hcc]; [lia|].
    assert (um s (buf + i) = c) as E.
    { rewrite <- Hc in Hcc. rewrite slice_lookup in Hcc by lia. injection Hcc as <-. f_equal. lia. }
    apply uwp_bind, uwp_get. rewrite E.
    assert (fold_left wc_step (take (Z.to_nat (i + 1)) chunk) (lines, words, in_word) = wc_char l w f (sext8 c)) as Hs.
    { replace (Z.to_nat (i + 1)) with (S (Z.to_nat i)) by lia. rewrite (take_S_r _ _ c) by done.
      by rewrite fold_left_app, Hf. }
    destruct (wc_char l w f (sext8 c)) as [[l' w'] f']. apply uwp_ret. split; [|lia]. split; [done|]. split; [lia|done].
  - apply uwp_ret. split; [|done]. rewrite take_ge in Hf by lia. done.
Qed.

(** The counts of a prefix of the input, all of it unless a read failed. *)
Definition counted (input : list Z) (r : Z * Z * Z) (s' : ustate) : Prop :=
  exists pre post, input = pre ++ post /\ (post = [] \/ 0 < errno s') /\
    r = (Z.of_nat (length pre), newlines pre, Z.of_nat (length (fields pre))).

Lemma count_input_run fd s :
  Forall is_byte (os_input (os s) fd) -> Z.of_nat (length (os_input (os s) fd)) < 2 ^ 31 - 1 ->
  uwp (count_input fd) (counted (os_input (os s) fd)) s.
Proof.
  set (input := os_input (os s) fd). intros Hb Hl. unfold count_input.
  apply (uwp_while (fun '(bytes, l, w, f) s' => exists pre, input = pre ++ os_input (os s') fd /\
      fold_left wc_step pre (0, 0, 0) = (l, w, f) /\ bytes = Z.of_nat (length pre))
    (fun '(bytes, _, _, _) => Z.of_nat (length input) - bytes)); [by exists []|lia|].
  intros [[[bytes l] w] f] s1 (pre & Hin & Hf & ->).
  pose proof (f_equal length Hin) as Hlen. rewrite length_app in Hlen. split; [lia|].
  assert (Hpre : Forall is_byte pre) by (rewrite Hin in Hb; by apply Forall_app in Hb as [? _]).
  destruct (wc_fold pre 0 0 0 Hpre) as [flag Hw]; [lia..|]. rewrite Hf in Hw. injection Hw as -> -> ->.
  destruct (os_read_returns fd buf 256 (um s1) (os s1)) as (r & m' & o' & Ec & Hr); [lia|].
  apply uwp_bind. unfold read, sys. apply uwp_bind. eapply uwp_run; [unfold __syscall; by rewrite Ec|].
  unfold ret_errno. destruct Hr as [(Hr & Heof)|(Hr & Hle & Hs & Ho)].
  - destruct (Z.ltb_spec r 0) as [Hneg|Hz]; uwp_auto.
    + exists pre, (os_input (os s1) fd). split; [done|]. split; [|done]. right. cbn.
      rewrite i32_id by (unfold is_i32; lia). lia.
    + assert (r = 0) as -> by lia. cbn. exists pre, []. rewrite Heof in Hin by done. split; [done|]. split; [by left|done].
  - rewrite (proj2 (Z.ltb_ge _ _)) by lia. uwp_auto. rewrite (proj2 (Z.ltb_lt 0 r)) by lia. cbn [negb].
    set (chunk := take (Z.to_nat r) (os_input (os s1) fd)) in *.
    assert (Hchunk : Z.of_nat (length chunk) = r) by (unfold chunk; rewrite length_take; lia).
    apply uwp_bind. eapply uwp_run.
    { rewrite <- Hchunk. apply count_chunk_run; [|lia]. cbn. rewrite <- Hs at 2. f_equal. lia. }
    destruct (fold_left wc_step chunk _) as [[l' w'] f'] eqn:Ef. apply uwp_ret. split.
    + exists (pre ++ chunk). cbn. rewrite Ho, <- app_assoc. unfold chunk at 1. rewrite take_drop. split; [done|].
      rewrite fold_left_app, Hf. split; [done|]. rewrite length_app, i32_id by (unfold is_i32; lia). lia.
    + rewrite i32_id by (unfold is_i32; lia). lia.
Qed.

(** wc counts what is in its input, however the kernel cuts it into buffers: the
    numbers of bytes, of newlines and of fields between white space, a word that
    spans two buffers being one; of all the input, or of what came before a failed
    read. *)
Theorem wc_counts fd s :
  Forall is_byte (os_input (os s) fd) -> Z.of_nat (length (os_input (os s) fd)) < 2 ^ 31 - 1 ->
  uwp (count_input fd) (fun r s' => exists pre post,
    os_input (os s) fd = pre ++ post /\ (post = [] \/ 0 < errno s') /\
    r = (Z.of_nat (length pre), newlines pre, Z.of_nat (length (fields pre)))) s.
Proof. apply count_input_run. Qed.
End wc.

(** A kernel that gives at most three bytes at a time. *)
Definition demo_read_guest : Guest := {|
  os_state := Z -> list Z;
  os_call n fd a k m o :=
    if n =? CFG_SYS_READ then
      let r := Z.min (Z.min k 3) (Z.of_nat (length (o fd))) in
      Some (r, blit m a (take (Z.to_nat r) (o fd)), upd o fd (drop (Z.to_nat r) (o fd)))
    else None;
  addr_of _ := 0;
  literal _ := 0 |}.

#[export] Instance demo_read_os : @ReadOs demo_read_guest.
Proof.
  refine {| os_input := fun o : @os_state demo_read_guest => o |}.
  intros fd a n m o Hn. do 3 eexists. split; [reflexivity|].
  set (r := Z.min (Z.min n 3) (Z.of_nat (length (o fd)))). destruct (o fd) as [|c t] eqn:E.
  - left. cbn in *. split; [lia|done].
  - right. rewrite <- E. assert (length (o fd) = S (length t)) as El by by rewrite E. cbn in r.
    split; [lia|]. split; [lia|]. split; [|apply upd_same].
    rewrite <- (slice_blit m a (take (Z.to_nat r) (o fd))) at 2. f_equal. rewrite length_take. lia.
Defined.

Definition demo_reader : @ustate demo_read_guest :=
  @Build_ustate demo_read_guest (fun _ => 0) (fun fd => if fd =? 0 then str "one two" ++ [10] ++ str " three" else [])
    0 (fun _ => 0) 0 0 0 0 0 0 0.

Theorem wc_counts_witness :
  fields (os_input (os demo_reader) 0) = str <$> ["one"; "two"; "three"]%string /\
  uwp (count_input 0) (fun r s' => exists pre post,
    os_input (os demo_reader) 0 = pre ++ post /\ (post = [] \/ 0 < errno s') /\
    r = (Z.of_nat (length pre), newlines pre, Z.of_nat (length (fields pre)))) demo_reader.
Proof.
  split; [vm_compute; reflexivity|]. apply (wc_counts 0 demo_reader); [|vm_compute; reflexivity].
  assert (H : forallb (fun c => (0 <=? c) && (c <? 256)) (os_input (os demo_reader) 0) = true) by (vm_compute; reflexivity).
  apply Forall_forall. intros c Hc. rewrite forallb_forall in H. apply list_elem_of_In in Hc. specialize (H c Hc).
  unfold is_byte. lia.
Defined.
