(* ===== verification/Codegen.v ===== *)
(** * Codegen: the code generator of the guest C compiler ([cc-c/codegen.c])

    The typed tree of the front end becomes custom32 assembly.  The structs of
    [upstream/chibicc.h] that the generator reads are records here; a child pointer
    is an [option], a list linked by [next] a list.  Variables and functions are
    shared and changed by the generator: they live in a store and are named by
    their address.  A computation of the monad [G] returns the lines it writes to the
    output file, without their newlines, or stops: with the message of [error], at
    undefined behaviour of the C code, or when the fuel of the recursion is used up.
    The soft-float runtime that folds a constant is a parameter. *)

From S2P Require Import Prelude Config Kernel Klog RawMem UserMem LibString LibFormat GuestAsm.

(** ** The data of the front end *)

Inductive TypeKind :=
| TY_VOID | TY_BOOL | TY_CHAR | TY_SHORT | TY_INT | TY_LONG | TY_FLOAT | TY_DOUBLE | TY_LDOUBLE
| TY_ENUM | TY_PTR | TY_FUNC | TY_ARRAY | TY_VLA | TY_STRUCT | TY_UNION.
#[export] Instance TypeKind_eq_dec : EqDecision TypeKind.
Proof. solve_decision. Defined.

(** Of [base] the generator only asks if it is NULL (0). *)
Inductive Ty := Build_Ty {
  ty_kind : TypeKind; ty_size : Z; ty_align : Z; ty_unsigned : bool; ty_base : Z;
  ty_return : option Ty }.

Record Member := Build_Member {
  m_ty : option Ty; m_offset : Z; m_is_bitfield : bool; m_bit_offset : Z; m_bit_width : Z }.

Inductive NodeKind :=
| ND_NULL_EXPR | ND_ADD | ND_SUB | ND_MUL | ND_DIV | ND_NEG | ND_MOD | ND_BITAND | ND_BITOR
| ND_BITXOR | ND_SHL | ND_SHR | ND_EQ | ND_NE | ND_LT | ND_LE | ND_ASSIGN | ND_COND | ND_COMMA
| ND_MEMBER | ND_ADDR | ND_DEREF | ND_NOT | ND_BITNOT | ND_LOGAND | ND_LOGOR | ND_RETURN | ND_IF
| ND_FOR | ND_DO | ND_SWITCH | ND_CASE | ND_BLOCK | ND_GOTO | ND_GOTO_EXPR | ND_LABEL
| ND_LABEL_VAL | ND_FUNCALL | ND_EXPR_STMT | ND_STMT_EXPR | ND_VAR | ND_VLA_PTR | ND_NUM | ND_CAST
| ND_MEMZERO | ND_ASM | ND_CAS | ND_EXCH.
#[export] Instance NodeKind_eq_dec : EqDecision NodeKind.
Proof. solve_decision. Defined.

(** The cases of a switch are nodes of its body too; [fval] is the image of the
    double, low word first. *)
Inductive Node := Build_Node {
  n_kind : NodeKind; n_ty : option Ty;
  n_lhs : option Node; n_rhs : option Node;
  n_cond : option Node; n_then : option Node; n_els : option Node; n_init : option Node; n_inc : option Node;
  n_brk_label : list Z; n_cont_label : list Z;
  n_body : list Node;
  n_member : option Member;
  n_args : list Node; n_ret_buffer : option Z;
  n_label : list Z; n_unique_label : list Z;
  n_case_next : list Node; n_default_case : option Node;
  n_begin : Z; n_end : Z;
  n_asm_str : list Z;
  n_var : option Z;
  n_val : Z; n_fval : Z }.

(** A relocation of an initializer: a word that holds the address of [r_label] plus an addend. *)
Record Relocation := Build_Relocation { r_offset : Z; r_label : list Z; r_addend : Z }.

Record Obj := Build_Obj {
  o_name : list Z; o_ty : Ty; o_is_local : bool; o_align : Z; o_offset : Z;
  o_addr_taken : bool; o_reg : Z;
  o_is_function : bool; o_is_definition : bool; o_is_static : bool;
  o_init_data : option (list Z); o_rel : list Relocation;
  o_params : list Z; o_body : option Node; o_locals : list Z; o_stack_size : Z }.
#[export] Instance eta_Obj : Eta Obj := fun r => Build_Obj (o_name r) (o_ty r) (o_is_local r) (o_align r) (o_offset r)
  (o_addr_taken r) (o_reg r) (o_is_function r) (o_is_definition r) (o_is_static r) (o_init_data r) (o_rel r)
  (o_params r) (o_body r) (o_locals r) (o_stack_size r).
#[export] Instance set_o_offset : Setter o_offset := ltac:(mk_setter).
#[export] Instance set_o_addr_taken : Setter o_addr_taken := ltac:(mk_setter).
#[export] Instance set_o_reg : Setter o_reg := ltac:(mk_setter).
#[export] Instance set_o_stack_size : Setter o_stack_size := ltac:(mk_setter).

(** ** The state and the monad *)

(** A line of the output file. *)
Definition line : Type := list Z.

Inductive cg_stop := CgError (message : list Z) | CgUndefined | CgNoFuel.

Record cg := Build_cg {
  cur_fn : option Z; cur_return_label : list Z; label_id : Z; ra_leaf : bool; ra_scalar : bool;
  objs : Z -> Obj }.
#[export] Instance eta_cg : Eta cg := fun r => Build_cg (cur_fn r) (cur_return_label r) (label_id r) (ra_leaf r) (ra_scalar r) (objs r).
#[export] Instance set_cur_fn : Setter cur_fn := ltac:(mk_setter).
#[export] Instance set_cur_return_label : Setter cur_return_label := ltac:(mk_setter).
#[export] Instance set_label_id : Setter label_id := ltac:(mk_setter).
#[export] Instance set_ra_leaf : Setter ra_leaf := ltac:(mk_setter).
#[export] Instance set_ra_scalar : Setter ra_scalar := ltac:(mk_setter).
#[export] Instance set_objs : Setter objs := ltac:(mk_setter).

(** The value, the new state and the lines written. *)
Inductive gres (A : Type) := Done (a : A) (s : cg) (code : list line) | Halt (why : cg_stop).
Arguments Done {A} a s code.
Arguments Halt {A} why.

Definition G (A : Type) : Type := cg -> gres A.
#[export] Instance G_ret : MRet G := fun A a s => Done a s [].
#[export] Instance G_bind : MBind G := fun A B f m s =>
  match m s with
  | Done a s1 c1 => match f a s1 with
                    | Done b s2 c2 => Done b s2 (c1 ++ c2)
                    | Halt why => Halt why
                    end
  | Halt why => Halt why
  end.

Definition gets {A} (f : cg -> A) : G A := fun s => Done (f s) s [].
Definition modify (f : cg -> cg) : G unit := fun s => Done tt (f s) [].
Definition halt {A} (why : cg_stop) : G A := fun _ => Halt why.
Definition wr_line (l : line) : G unit := fun s => Done tt s [l].

(** [error(message)] of tokenize.c ends the compiler. *)
Definition error {A} (message : string) : G A := halt (CgError (str message)).

(** The target of a pointer that the code follows. *)
Definition deref {A} (p : option A) : G A := match p with Some a => mret a | None => halt CgUndefined end.

Definition obj (v : Z) : G Obj := gets (fun s => objs s v).
Definition set_obj (v : Z) (f : Obj -> Obj) : G unit := modify (fun s => s <| objs ::= fun o => upd o v (f (o v)) |>).

(** Run [m] for every element, in order. *)
Fixpoint each_g {A} (m : A -> G unit) (l : list A) : G unit :=
  match l with [] => mret tt | x :: l' => m x ;; each_g m l' end.

Fixpoint times (n : nat) (m : G unit) : G unit :=
  match n with O => mret tt | S n' => m ;; times n' m end.

(** ** Emission helpers *)

(** The decimal digits of an unsigned word. *)
Definition wru (v : Z) : list Z := uint_text 32 v 10 0.

Definition ins (text : string) : G unit := wr_line (str "  " ++ str text).
Definition ins_imm (opreg : string) (imm : Z) : G unit := wr_line (str "  " ++ str opreg ++ str ", " ++ wru imm).
Definition ins_sym (opreg : string) (sym : list Z) : G unit := wr_line (str "  " ++ str opreg ++ str ", " ++ sym).
Definition emit_label (label : list Z) : G unit := wr_line (label ++ str ":").
Definition jmp (op : string) (label : list Z) : G unit := wr_line (str "  " ++ str op ++ str " " ++ label).

Definition new_label : G (list Z) :=
  n ← gets label_id ; modify (fun s => s <| label_id := n +! 1 |>) ;; mret (str ".L.cg." ++ int_text n).

(** ** ABI primitives *)

Definition push : G unit :=
  ins "LOAD R5, __csp" ;; ins "STORER R5, R0" ;; ins "MOV R7, 4" ;; ins "ADD R5, R7" ;; ins "STORE R5, __csp".

Definition push_reg (reg : string) : G unit :=
  ins "LOAD R5, __csp" ;; ins_sym "STORER R5" (str reg) ;; ins "MOV R7, 4" ;; ins "ADD R5, R7" ;; ins "STORE R5, __csp".

Definition pop (reg : string) : G unit :=
  ins "LOAD R5, __csp" ;; ins "MOV R7, 4" ;; ins "SUB R5, R7" ;; ins "STORE R5, __csp" ;;
  wr_line (str "  LOADR " ++ str reg ++ str ", R5").

Definition push_tmp : G unit := ins "PUSH R0".
Definition push_tmp_reg (reg : string) : G unit := wr_line (str "  PUSH " ++ str reg).
Definition pop_tmp (reg : string) : G unit := wr_line (str "  POP " ++ str reg).

Definition adjust_csp (delta : Z) : G unit :=
  ins "LOAD R5, __csp" ;; ins_imm "MOV R7" (u32 (if delta >=? 0 then delta else 0 -! delta)) ;;
  ins (if delta >=? 0 then "ADD R5, R7" else "SUB R5, R7") ;; ins "STORE R5, __csp".

(** ** Type predicates *)

Definition is_kind (ty : Ty) (k : TypeKind) : bool := bool_decide (ty_kind ty = k).

Definition is_integer (ty : Ty) : bool :=
  is_kind ty TY_BOOL || is_kind ty TY_CHAR || is_kind ty TY_SHORT || is_kind ty TY_INT || is_kind ty TY_LONG || is_kind ty TY_ENUM.

Definition is_unsigned_int (ty : Ty) : bool := is_integer ty && ty_unsigned ty.
Definition is_promoted_unsigned (ty : Ty) : bool := ty_unsigned ty && (ty_size ty >=? 4).
Definition is_pointer_like (ty : Ty) : bool := negb (ty_base ty =? 0).

(** The predicates that test [ty] for NULL first. *)
Definition maybe (p : Ty -> bool) (ty : option Ty) : bool := match ty with Some t => p t | None => false end.

Definition is_aggregate : option Ty -> bool := maybe (fun ty => is_kind ty TY_STRUCT || is_kind ty TY_UNION).
Definition is64 : option Ty -> bool := maybe (fun ty => is_kind ty TY_LONG && (ty_size ty =? 8)).
Definition is_flonum_ty : option Ty -> bool :=
  maybe (fun ty => is_kind ty TY_FLOAT || is_kind ty TY_DOUBLE || is_kind ty TY_LDOUBLE).
Definition is_float_ty : option Ty -> bool := maybe (fun ty => is_kind ty TY_FLOAT).
Definition is_double_ty : option Ty -> bool := maybe (fun ty => is_kind ty TY_DOUBLE || is_kind ty TY_LDOUBLE).

(** The alignments are positive. *)
Definition align_to (n align : Z) : Z := Z.quot (n +! align -! 1) align *! align.

(** [size < 1 ? 1 : size]. *)
Definition at_least_1 (size : Z) : Z := if size <? 1 then 1 else size.

Definition slot_size (ty : Ty) : Z := align_to (at_least_1 (ty_size ty)) 4.

Definition reg_name (reg : Z) : string := if reg =? 2 then "R2" else if reg =? 3 then "R3" else "R4".

(** ** Addresses, loads and stores *)

Definition emit_var_addr (v : option Z) : G unit :=
  v ← deref v ; var ← obj v ;
  if negb (o_reg var =? 0) then error "codegen: cannot take address of register variable"
  else if o_is_local var then
    let off := o_offset var in
    ins "MOVR R0, R6" ;;
    if off >? 0 then ins_imm "MOV R7" off ;; ins "ADD R0, R7"
    else if off <? 0 then ins_imm "MOV R7" (u32 (0 - off)) ;; ins "SUB R0, R7"
    else mret tt
  else ins_sym "MOV R0" (o_name var).

Definition bit_mask (width : Z) : Z := if width >=? 32 then 0xffffffff else u32 (Z.shiftl 1 width - 1).

Definition sign_extend (sign_bit high_bits : Z) : G unit :=
  done ← new_label ;
  ins_imm "MOV R7" sign_bit ;; ins "CMP R0, R7" ;; jmp "JB" done ;;
  ins_imm "MOV R7" high_bits ;; ins "OR R0, R7" ;; emit_label done.

Definition load_bitfield (member : Member) : G unit :=
  let width := m_bit_width member in
  let bit := m_bit_offset member in
  let mask := bit_mask width in
  ins "LOADR R0, R0" ;;
  (if bit >? 0 then ins_imm "MOV R7" bit ;; ins "SHR R0, R7" else mret tt) ;;
  ins_imm "MOV R7" mask ;; ins "AND R0, R7" ;;
  ty ← deref (m_ty member) ;
  if negb (is_unsigned_int ty) && (width >? 0) && (width <? 32)
  then sign_extend (u32 (Z.shiftl 1 (width - 1))) (u32 (Z.lnot mask)) else mret tt.

Definition store_bitfield (member : Member) : G unit :=
  let width := m_bit_width member in
  let bit := m_bit_offset member in
  let mask := bit_mask width in
  let shifted := if bit =? 0 then mask else u32 (Z.shiftl mask bit) in
  let clear := u32 (Z.lnot shifted) in
  ins "MOVR R2, R0" ;; ins "LOADR R0, R1" ;;
  ins_imm "MOV R7" clear ;; ins "AND R0, R7" ;;
  ins "MOVR R5, R2" ;; ins_imm "MOV R7" mask ;; ins "AND R5, R7" ;;
  (if bit >? 0 then ins_imm "MOV R7" bit ;; ins "SHL R5, R7" else mret tt) ;;
  ins "OR R0, R5" ;; ins "STORER R1, R0" ;; ins "MOVR R0, R2".

(** The bit-field that a member node reads, if it is one. *)
Definition bitfield_of (node : Node) : G (option Member) :=
  match n_kind node with
  | ND_MEMBER => m ← deref (n_member node) ; mret (if m_is_bitfield m then Some m else None)
  | _ => mret None
  end.

Definition load (node : Node) : G unit :=
  ty ← deref (n_ty node) ;
  match ty_kind ty with
  | TY_ARRAY => mret tt
  | TY_VLA => ins "LOADR R0, R0"
  | TY_FUNC => mret tt
  | k =>
      bf ← bitfield_of node ;
      match bf with
      | Some m => load_bitfield m
      | None =>
          match k with
          | TY_STRUCT | TY_UNION => error "codegen: cannot load an aggregate value directly"
          | TY_CHAR => ins (if is_unsigned_int ty then "LB R0, R0" else "LBS R0, R0")
          | TY_BOOL => ins "LB R0, R0"
          | TY_SHORT => ins (if is_unsigned_int ty then "LH R0, R0" else "LHS R0, R0")
          | _ => ins "LOADR R0, R0"
          end
      end
  end.

Definition store (node : Node) : G unit :=
  ty ← deref (n_ty node) ;
  bf ← bitfield_of node ;
  match bf with
  | Some m => store_bitfield m
  | None =>
      match ty_kind ty with
      | TY_CHAR | TY_BOOL => ins "SB R1, R0"
      | TY_SHORT => ins "SH R1, R0"
      | TY_STRUCT | TY_UNION => error "codegen: cannot assign an aggregate value directly"
      | _ => ins "STORER R1, R0"
      end
  end.

(** The rounds of the two loops on [remaining]. *)
Definition words_of (size : Z) : nat := Z.to_nat (size / 4).
Definition bytes_of (size : Z) : nat := if size <? 0 then O else Z.to_nat (size mod 4).

Definition copy_bytes (size : Z) : G unit :=
  ins "MOVR R2, R0" ;; ins "MOVR R5, R1" ;;
  times (words_of size) (ins "LOADR R7, R2" ;; ins "STORER R5, R7" ;; ins "MOV R7, 4" ;; ins "ADD R2, R7" ;; ins "ADD R5, R7") ;;
  times (bytes_of size) (ins "LB R7, R2" ;; ins "SB R5, R7" ;; ins "MOV R7, 1" ;; ins "ADD R2, R7" ;; ins "ADD R5, R7").

(** ** 64-bit integers and floating point: the parts without recursion *)

Definition load64 : G unit :=
  ins "MOVR R2, R0" ;; ins "LOADR R0, R2" ;; ins "MOV R7, 4" ;; ins "ADD R2, R7" ;; ins "LOADR R1, R2".

Definition widen64 (ty : option Ty) : G unit :=
  ty ← deref ty ;
  if is_unsigned_int ty || is_pointer_like ty then ins "MOV R1, 0"
  else ins "MOVR R1, R0" ;; ins "MOV R7, 31" ;; ins "SAR R1, R7".

(** A choice on the signedness of [node->ty]. *)
Definition by_sign {A} (node : Node) (u s : A) : G A :=
  ty ← deref (n_ty node) ; mret (if is_unsigned_int ty then u else s).

Definition helper64 (node : Node) : G string :=
  match n_kind node with
  | ND_ADD => mret "__i64_add"%string
  | ND_SUB => mret "__i64_sub"%string
  | ND_MUL => mret "__i64_mul"%string
  | ND_DIV => by_sign node "__u64_div"%string "__i64_div"%string
  | ND_MOD => by_sign node "__u64_mod"%string "__i64_mod"%string
  | ND_BITAND => mret "__i64_and"%string
  | ND_BITOR => mret "__i64_or"%string
  | ND_BITXOR => mret "__i64_xor"%string
  | _ => error "codegen: no 64-bit helper"
  end.

Definition double_literal_bits (node : Node) : Z * Z := (u32 (n_fval node), u32 (Z.shiftr (n_fval node) 32)).

Definition float_binary_helper (node : Node) (dbl : bool) : G string :=
  match n_kind node with
  | ND_ADD => mret (if dbl then "__adddf3" else "__addsf3")%string
  | ND_SUB => mret (if dbl then "__subdf3" else "__subsf3")%string
  | ND_MUL => mret (if dbl then "__muldf3" else "__mulsf3")%string
  | ND_DIV => mret (if dbl then "__divdf3" else "__divsf3")%string
  | _ => error "codegen: no soft-float helper"
  end.

Definition call (helper : string) : G unit := jmp "CALL" (str helper).

(** Both words of R0:R1, high word first: the arguments of a helper. *)
Definition push_pair : G unit := push_reg "R1" ;; push_reg "R0".

(** R0 becomes 1 if the jump [op] is taken after the comparison [test], 0 otherwise. *)
Definition set_if (test : G unit) (op : string) (yes done : list Z) : G unit :=
  test ;; jmp op yes ;; ins "MOV R0, 0" ;; jmp "JMP" done ;; emit_label yes ;; ins "MOV R0, 1" ;; emit_label done.

Definition cmp_zero : G unit := ins "MOV R7, 0" ;; ins "CMP R0, R7".

(** The sign test of a helper's answer. *)
Definition sign_test (node : Node) : G unit :=
  yes ← new_label ; done ← new_label ;
  set_if cmp_zero (match n_kind node with ND_NE => "JNZ" | ND_LT => "JL" | ND_LE => "JLE" | _ => "JZ" end) yes done.

(** ** Comparisons, casts, constants and simple values *)

Definition gen_compare (node : Node) : G unit :=
  yes ← new_label ; done ← new_label ;
  lhs ← deref (n_lhs node) ; rhs ← deref (n_rhs node) ;
  lty ← deref (n_ty lhs) ; rty ← deref (n_ty rhs) ;
  let uns := is_promoted_unsigned lty || is_promoted_unsigned rty in
  set_if (ins "CMP R0, R1")
    (match n_kind node with
     | ND_NE => "JNZ"
     | ND_LT => if uns then "JB" else "JL"
     | ND_LE => if uns then "JBE" else "JLE"
     | _ => "JZ"
     end) yes done.

Definition is_int_const (node : Node) : bool :=
  bool_decide (n_kind node = ND_NUM) && negb (is_flonum_ty (n_ty node)) && negb (is64 (n_ty node)).

Definition is_commutative (kind : NodeKind) : bool :=
  match kind with ND_ADD | ND_MUL | ND_BITAND | ND_BITOR | ND_BITXOR => true | _ => false end.

Definition not_bitfield (m : option Member) : bool :=
  match m with Some m => negb (m_is_bitfield m) | None => false end.

(** [value_is_simple] and, with [address], [addr_is_simple].  A missing operand, at
    which the code stops anyway, counts as not simple. *)
Fixpoint is_simple (address : bool) (node : Node) : bool :=
  let addr_of_lhs := match n_lhs node with Some l => is_simple true l | None => false end in
  let value_of_lhs := match n_lhs node with Some l => is_simple false l | None => false end in
  if address then
    match n_kind node with
    | ND_VAR => true
    | ND_MEMBER => not_bitfield (n_member node) && addr_of_lhs
    | ND_DEREF => value_of_lhs
    | _ => false
    end
  else
    if is_flonum_ty (n_ty node) || is64 (n_ty node) then false else
    match n_kind node with
    | ND_NUM | ND_VAR => true
    | ND_MEMBER => not_bitfield (n_member node) && addr_of_lhs
    | ND_DEREF => value_of_lhs
    | ND_ADDR => addr_of_lhs
    | _ => false
    end.
Definition value_is_simple : Node -> bool := is_simple false.
Definition addr_is_simple : Node -> bool := is_simple true.

Definition cast_to (ty : option Ty) : G unit :=
  match ty with
  | None => mret tt
  | Some ty =>
      match ty_kind ty with
      | TY_BOOL =>
          t ← new_label ; d ← new_label ;
          set_if cmp_zero "JNZ" t d
      | TY_CHAR =>
          ins "MOV R7, 255" ;; ins "AND R0, R7" ;;
          if is_unsigned_int ty then mret tt else sign_extend 0x80 0xffffff00
      | TY_SHORT =>
          ins "MOV R7, 65535" ;; ins "AND R0, R7" ;;
          if is_unsigned_int ty then mret tt else sign_extend 0x8000 0xffff0000
      | _ => mret tt
      end
  end.

Definition gen_memzero (node : Node) : G unit :=
  emit_var_addr (n_var node) ;;
  v ← deref (n_var node) ; var ← obj v ;
  let size := at_least_1 (ty_size (o_ty var)) in
  ins "MOVR R2, R0" ;; ins "MOV R0, 0" ;;
  times (words_of size) (ins "STORER R2, R0" ;; ins "MOV R7, 4" ;; ins "ADD R2, R7") ;;
  times (bytes_of size) (ins "SB R2, R0" ;; ins "MOV R7, 1" ;; ins "ADD R2, R7").

Definition gen_asm (node : Node) : G unit := each_g (fun l => wr_line (str "  " ++ l)) (split_lines (n_asm_str node)).

(** The operator of [gen_binary], on R0 and R1. *)
Definition binary_op (node : Node) : G unit :=
  match n_kind node with
  | ND_ADD => ins "ADD R0, R1"
  | ND_SUB => ins "SUB R0, R1"
  | ND_MUL => ins "MUL R0, R1"
  | ND_DIV => op ← by_sign node "DIV R0, R1"%string "IDIV R0, R1"%string ; ins op
  | ND_MOD => op ← by_sign node "MOD R0, R1"%string "IMOD R0, R1"%string ; ins op
  | ND_BITAND => ins "AND R0, R1"
  | ND_BITOR => ins "OR R0, R1"
  | ND_BITXOR => ins "XOR R0, R1"
  | ND_SHL => ins "SHL R0, R1"
  | ND_SHR =>
      lhs ← deref (n_lhs node) ; lty ← deref (n_ty lhs) ;
      ins (if is_promoted_unsigned lty then "SHR R0, R1" else "SAR R0, R1")
  | ND_EQ | ND_NE | ND_LT | ND_LE => gen_compare node
  | _ => error "codegen: unsupported operator"
  end.

Definition is_comparison (kind : NodeKind) : bool :=
  match kind with ND_EQ | ND_NE | ND_LT | ND_LE => true | _ => false end.

(** The register of a promoted variable, 0 if the node is something else. *)
Definition var_reg (node : Node) : G Z :=
  match n_kind node with
  | ND_VAR => v ← deref (n_var node) ; var ← obj v ; mret (o_reg var)
  | _ => mret 0
  end.

(** Run [m] for every element, in order, and add up the results. *)
Fixpoint sum_g {A} (m : A -> G Z) (l : list A) : G Z :=
  match l with [] => mret 0 | x :: l' => n ← m x ; k ← sum_g m l' ; mret (n +! k) end.

(** [cur_fn->ty->return_ty]. *)
Definition return_ty : G (option Ty) :=
  f ← gets cur_fn ; f ← deref f ; fn ← obj f ; mret (ty_return (o_ty fn)).

(** ** Expressions and statements

    One function of the C code each; the fuel bounds the depth of the calls. *)

Section generator.
(** [__truncdfsf2] of the soft-float runtime, on the two words of a double. *)
Context (truncdfsf2 : Z -> Z -> Z).

Definition float_literal_bits (node : Node) : Z :=
  let '(lo, hi) := double_literal_bits node in truncdfsf2 lo hi.

(** The name that [gen_intrinsic] looks at. *)
Definition callee_name (node : Node) : G (option (list Z)) :=
  match n_lhs node with
  | Some fn => match n_kind fn with
               | ND_VAR => v ← deref (n_var fn) ; var ← obj v ; mret (Some (o_name var))
               | _ => mret None
               end
  | None => mret None
  end.

(** An intrinsic: the registers that take its arguments, if it has arguments, and its instructions. *)
Definition intrinsics : list (string * (list string * list string)) :=
  [("__syscall", (["R0"; "R1"; "R2"; "R3"], ["INT 128"]));
   ("__out", (["R1"; "R2"], ["OUT R1, R2"; "MOV R0, 0"]));
   ("__in", (["R1"], ["IN R0, R1"]));
   ("__halt", ([], ["HLT"; "MOV R0, 0"]));
   ("__iret", ([], ["IRET"; "MOV R0, 0"]));
   ("__lidt", (["R1"], ["LIDT R1"; "MOV R0, 0"]));
   ("__lksp", (["R1"], ["LKSP R1"; "MOV R0, 0"]));
   ("__stmr", (["R1"], ["STMR R1"; "MOV R0, 0"]));
   ("__lptbr", (["R1"], ["LPTBR R1"; "MOV R0, 0"]));
   ("__pgon", ([], ["PGON"; "MOV R0, 0"]));
   ("__pgoff", ([], ["PGOFF"; "MOV R0, 0"]));
   ("__rdpfla", ([], ["RDPFLA R0"]));
   ("__rderr", ([], ["RDERR R0"]));
   ("__ei", ([], ["EI"; "MOV R0, 0"]));
   ("__di", ([], ["DI"; "MOV R0, 0"]))]%string.

Definition find_intrinsic (name : list Z) : option (list string * list string) :=
  snd <$> List.find (fun i => bool_decide (str i.1 = name)) intrinsics.

(** The arguments are on the stack: into the registers, the rest dropped, the
    registers left over zeroed. *)
Definition pop_regs (n : nat) (regs : list string) : G unit :=
  times (n - length regs) (pop_tmp "R7") ;;
  each_g pop_tmp (rev (take n regs)) ;;
  each_g (fun r => ins_imm ("MOV " ++ r)%string 0) (drop n regs).

Fixpoint gen_expr (fuel : nat) (p : option Node) {struct fuel} : G unit :=
  match fuel with O => halt CgNoFuel | S fuel =>
  node ← deref p ;
  if bool_decide (n_kind node = ND_COMMA) then gen_expr fuel (n_lhs node) ;; gen_expr fuel (n_rhs node) else
  if bool_decide (n_kind node = ND_COND) then gen_conditional fuel node else
  if is64 (n_ty node) then gen64_expr fuel node else
  if is_float_ty (n_ty node) then gen_float_expr fuel node else
  if is_double_ty (n_ty node) then gen_double_expr fuel node else
  match n_kind node with
  | ND_NULL_EXPR => mret tt
  | ND_NUM => ins_imm "MOV R0" (u32 (n_val node))
  | ND_MEMZERO => gen_memzero node
  | ND_VAR =>
      reg ← var_reg node ;
      if negb (reg =? 0) then ins_sym "MOVR R0" (str (reg_name reg))
      else gen_addr fuel p ;; load node
  | ND_MEMBER => gen_addr fuel p ;; load node
  | ND_ADDR => gen_addr fuel (n_lhs node)
  | ND_DEREF => gen_expr fuel (n_lhs node) ;; load node
  | ND_ASSIGN =>
      lhs ← deref (n_lhs node) ;
      if is_aggregate (n_ty lhs) then gen_aggregate_assign fuel node else
      reg ← var_reg lhs ;
      if negb (reg =? 0) then
        gen_expr fuel (n_rhs node) ;; ins_sym ("MOVR " ++ reg_name reg)%string (str "R0")
      else
        gen_addr fuel (n_lhs node) ;;
        rhs ← deref (n_rhs node) ;
        (if value_is_simple rhs then ins "MOVR R1, R0" ;; gen_expr fuel (n_rhs node)
         else push_tmp ;; gen_expr fuel (n_rhs node) ;; pop_tmp "R1") ;;
        store lhs
  | ND_STMT_EXPR => each_g (fun n => gen_stmt fuel (Some n)) (n_body node)
  | ND_FUNCALL => gen_call fuel node
  | ND_CAST => gen_value_as fuel (n_lhs node) (n_ty node)
  | ND_NEG => gen_expr fuel (n_lhs node) ;; ins "MOV R1, 0" ;; ins "SUB R1, R0" ;; ins "MOVR R0, R1"
  | ND_BITNOT => gen_expr fuel (n_lhs node) ;; ins "MOV R7, 4294967295" ;; ins "XOR R0, R7"
  | ND_NOT =>
      yes ← new_label ; done ← new_label ;
      gen_cond fuel (n_lhs node) ;;
      set_if cmp_zero "JZ" yes done
  | ND_LOGAND | ND_LOGOR => gen_logical fuel node
  | ND_VLA_PTR | ND_CAS | ND_EXCH | ND_GOTO_EXPR | ND_LABEL_VAL => error "codegen: construct not yet supported"
  | _ => gen_binary fuel node
  end end

with gen_addr (fuel : nat) (p : option Node) {struct fuel} : G unit :=
  match fuel with O => halt CgNoFuel | S fuel =>
  node ← deref p ;
  match n_kind node with
  | ND_VAR => emit_var_addr (n_var node)
  | ND_DEREF => gen_expr fuel (n_lhs node)
  | ND_COMMA => gen_expr fuel (n_lhs node) ;; gen_addr fuel (n_rhs node)
  | ND_MEMBER =>
      gen_addr fuel (n_lhs node) ;;
      m ← deref (n_member node) ;
      if m_offset m >? 0 then ins_imm "MOV R7" (m_offset m) ;; ins "ADD R0, R7" else mret tt
  | ND_FUNCALL => if is_aggregate (n_ty node) then gen_call fuel node else error "codegen: not an lvalue"
  | _ => error "codegen: not an lvalue"
  end end

with gen_cond (fuel : nat) (p : option Node) {struct fuel} : G unit :=
  match fuel with O => halt CgNoFuel | S fuel =>
  gen_expr fuel p ;;
  node ← deref p ;
  if is64 (n_ty node) then ins "OR R0, R1"
  else if is_float_ty (n_ty node) then ins "MOV R7, 2147483647" ;; ins "AND R0, R7"
  else if is_double_ty (n_ty node) then ins "MOV R7, 2147483647" ;; ins "AND R1, R7" ;; ins "OR R0, R1"
  else mret tt
  end

with gen_conditional (fuel : nat) (node : Node) {struct fuel} : G unit :=
  match fuel with O => halt CgNoFuel | S fuel =>
  els ← new_label ; end_ ← new_label ;
  gen_cond fuel (n_cond node) ;; cmp_zero ;; jmp "JZ" els ;;
  gen_expr fuel (n_then node) ;; jmp "JMP" end_ ;;
  emit_label els ;; gen_expr fuel (n_els node) ;; emit_label end_
  end

with gen_logical (fuel : nat) (node : Node) {struct fuel} : G unit :=
  match fuel with O => halt CgNoFuel | S fuel =>
  let is_and := bool_decide (n_kind node = ND_LOGAND) in
  let op := if is_and then "JZ"%string else "JNZ"%string in
  set ← new_label ; done ← new_label ;
  gen_cond fuel (n_lhs node) ;; cmp_zero ;; jmp op set ;;
  gen_cond fuel (n_rhs node) ;; cmp_zero ;; jmp op set ;;
  ins (if is_and then "MOV R0, 1" else "MOV R0, 0") ;; jmp "JMP" done ;;
  emit_label set ;; ins (if is_and then "MOV R0, 0" else "MOV R0, 1") ;; emit_label done
  end

with gen_binary (fuel : nat) (node : Node) {struct fuel} : G unit :=
  match fuel with O => halt CgNoFuel | S fuel =>
  lhs ← deref (n_lhs node) ; rhs ← deref (n_rhs node) ;
  if is_comparison (n_kind node) && (is_flonum_ty (n_ty lhs) || is_flonum_ty (n_ty rhs)) then gen_float_compare fuel node
  else if is_comparison (n_kind node) && (is64 (n_ty lhs) || is64 (n_ty rhs)) then gen64_compare fuel node
  else
    (if is_int_const rhs then
       gen_expr fuel (n_lhs node) ;; ins_imm "MOV R1" (u32 (n_val rhs))
     else if is_int_const lhs && is_commutative (n_kind node) then
       gen_expr fuel (n_rhs node) ;; ins_imm "MOV R1" (u32 (n_val lhs))
     else if value_is_simple lhs then
       gen_expr fuel (n_rhs node) ;; ins "MOVR R1, R0" ;; gen_expr fuel (n_lhs node)
     else
       gen_expr fuel (n_rhs node) ;; push_tmp ;; gen_expr fuel (n_lhs node) ;; pop_tmp "R1") ;;
    binary_op node
  end

with gen_value_as (fuel : nat) (p : option Node) (ty : option Ty) {struct fuel} : G unit :=
  match fuel with O => halt CgNoFuel | S fuel =>
  if bool_decide (ty = None) then gen_expr fuel p
  else if is_float_ty ty then gen_float_value fuel p
  else if is_double_ty ty then gen_double_value fuel p
  else if is64 ty then gen64_value fuel p
  else
    node ← deref p ;
    if is_float_ty (n_ty node) then
      gen_float_value fuel p ;; push ;; call "__fixsfsi" ;; adjust_csp (-4) ;; cast_to ty
    else if is_double_ty (n_ty node) then
      gen_double_value fuel p ;; push_pair ;; call "__fixdfsi" ;; adjust_csp (-8) ;; cast_to ty
    else gen_expr fuel p ;; cast_to ty
  end

with gen_aggregate_assign (fuel : nat) (node : Node) {struct fuel} : G unit :=
  match fuel with O => halt CgNoFuel | S fuel =>
  lhs ← deref (n_lhs node) ; ty ← deref (n_ty lhs) ;
  let size := at_least_1 (ty_size ty) in
  gen_addr fuel (n_lhs node) ;; push_tmp ;; gen_addr fuel (n_rhs node) ;; pop_tmp "R1" ;;
  copy_bytes size ;; ins "MOVR R0, R1"
  end

with gen64_value (fuel : nat) (p : option Node) {struct fuel} : G unit :=
  match fuel with O => halt CgNoFuel | S fuel =>
  node ← deref p ;
  if is64 (n_ty node) then gen_expr fuel p else gen_expr fuel p ;; widen64 (n_ty node)
  end

with gen64_assign (fuel : nat) (node : Node) {struct fuel} : G unit :=
  match fuel with O => halt CgNoFuel | S fuel =>
  gen_addr fuel (n_lhs node) ;; push_tmp ;; gen64_value fuel (n_rhs node) ;; pop_tmp "R2" ;;
  ins "STORER R2, R0" ;; ins "MOV R7, 4" ;; ins "ADD R2, R7" ;; ins "STORER R2, R1"
  end

with gen64_binary (fuel : nat) (node : Node) (helper : string) {struct fuel} : G unit :=
  match fuel with O => halt CgNoFuel | S fuel =>
  gen64_value fuel (n_rhs node) ;; push_pair ;; gen64_value fuel (n_lhs node) ;; push_pair ;;
  call helper ;; adjust_csp (-16)
  end

with gen64_shift (fuel : nat) (node : Node) (helper : string) {struct fuel} : G unit :=
  match fuel with O => halt CgNoFuel | S fuel =>
  gen_expr fuel (n_rhs node) ;; push ;; gen64_value fuel (n_lhs node) ;; push_pair ;;
  call helper ;; adjust_csp (-12)
  end

with gen64_unary (fuel : nat) (operand : option Node) (helper : string) {struct fuel} : G unit :=
  match fuel with O => halt CgNoFuel | S fuel =>
  gen64_value fuel operand ;; push_pair ;; call helper ;; adjust_csp (-8)
  end

with gen64_compare (fuel : nat) (node : Node) {struct fuel} : G unit :=
  match fuel with O => halt CgNoFuel | S fuel =>
  lhs ← deref (n_lhs node) ; rhs ← deref (n_rhs node) ;
  lty ← deref (n_ty lhs) ; rty ← deref (n_ty rhs) ;
  let uns := is_unsigned_int lty || is_unsigned_int rty in
  gen64_value fuel (n_rhs node) ;; push_pair ;; gen64_value fuel (n_lhs node) ;; push_pair ;;
  call (if uns then "__u64_cmp" else "__i64_cmp") ;; adjust_csp (-16) ;;
  sign_test node
  end

with gen64_expr (fuel : nat) (node : Node) {struct fuel} : G unit :=
  match fuel with O => halt CgNoFuel | S fuel =>
  match n_kind node with
  | ND_COMMA => gen_expr fuel (n_lhs node) ;; gen_expr fuel (n_rhs node)
  | ND_COND => gen_conditional fuel node
  | ND_NUM => ins_imm "MOV R0" (u32 (n_val node)) ;; ins_imm "MOV R1" (u32 (Z.shiftr (n_val node) 32))
  | ND_VAR | ND_MEMBER => gen_addr fuel (Some node) ;; load64
  | ND_DEREF => gen_expr fuel (n_lhs node) ;; load64
  | ND_ASSIGN => gen64_assign fuel node
  | ND_CAST =>
      gen_expr fuel (n_lhs node) ;;
      lhs ← deref (n_lhs node) ;
      if is64 (n_ty lhs) then mret tt else widen64 (n_ty lhs)
  | ND_FUNCALL => gen_call fuel node
  | ND_NEG => gen64_unary fuel (n_lhs node) "__i64_neg"
  | ND_BITNOT => gen64_value fuel (n_lhs node) ;; ins "MOV R7, 4294967295" ;; ins "XOR R0, R7" ;; ins "XOR R1, R7"
  | ND_SHL => gen64_shift fuel node "__i64_shl"
  | ND_SHR => helper ← by_sign node "__i64_shr"%string "__i64_sar"%string ; gen64_shift fuel node helper
  | _ => helper ← helper64 node ; gen64_binary fuel node helper
  end end

with gen_float_binary (fuel : nat) (node : Node) {struct fuel} : G unit :=
  match fuel with O => halt CgNoFuel | S fuel =>
  gen_float_value fuel (n_rhs node) ;; push ;; gen_float_value fuel (n_lhs node) ;; push ;;
  helper ← float_binary_helper node false ;
  call helper ;; adjust_csp (-8)
  end

with gen_double_binary (fuel : nat) (node : Node) {struct fuel} : G unit :=
  match fuel with O => halt CgNoFuel | S fuel =>
  gen_double_value fuel (n_rhs node) ;; push_pair ;; gen_double_value fuel (n_lhs node) ;; push_pair ;;
  helper ← float_binary_helper node true ;
  call helper ;; adjust_csp (-16)
  end

with gen_float_expr (fuel : nat) (node : Node) {struct fuel} : G unit :=
  match fuel with O => halt CgNoFuel | S fuel =>
  match n_kind node with
  | ND_COMMA => gen_expr fuel (n_lhs node) ;; gen_expr fuel (n_rhs node)
  | ND_COND => gen_conditional fuel node
  | ND_NUM => ins_imm "MOV R0" (float_literal_bits node)
  | ND_VAR | ND_MEMBER => gen_addr fuel (Some node) ;; load node
  | ND_DEREF => gen_expr fuel (n_lhs node) ;; load node
  | ND_ASSIGN =>
      gen_addr fuel (n_lhs node) ;; push_tmp ;; gen_float_value fuel (n_rhs node) ;; pop_tmp "R1" ;;
      lhs ← deref (n_lhs node) ; store lhs
  | ND_CAST => gen_float_value fuel (n_lhs node)
  | ND_FUNCALL => gen_call fuel node
  | ND_NEG => gen_float_value fuel (n_lhs node) ;; ins "MOV R7, 2147483648" ;; ins "XOR R0, R7"
  | _ => gen_float_binary fuel node
  end end

with gen_double_expr (fuel : nat) (node : Node) {struct fuel} : G unit :=
  match fuel with O => halt CgNoFuel | S fuel =>
  match n_kind node with
  | ND_COMMA => gen_expr fuel (n_lhs node) ;; gen_expr fuel (n_rhs node)
  | ND_COND => gen_conditional fuel node
  | ND_NUM => let '(lo, hi) := double_literal_bits node in ins_imm "MOV R0" lo ;; ins_imm "MOV R1" hi
  | ND_VAR | ND_MEMBER => gen_addr fuel (Some node) ;; load64
  | ND_DEREF => gen_expr fuel (n_lhs node) ;; load64
  | ND_ASSIGN =>
      gen_addr fuel (n_lhs node) ;; push_tmp ;; gen_double_value fuel (n_rhs node) ;; pop_tmp "R2" ;;
      ins "STORER R2, R0" ;; ins "MOV R7, 4" ;; ins "ADD R2, R7" ;; ins "STORER R2, R1"
  | ND_CAST => gen_double_value fuel (n_lhs node)
  | ND_FUNCALL => gen_call fuel node
  | ND_NEG => gen_double_value fuel (n_lhs node) ;; ins "MOV R7, 2147483648" ;; ins "XOR R1, R7"
  | _ => gen_double_binary fuel node
  end end

with gen_float_value (fuel : nat) (p : option Node) {struct fuel} : G unit :=
  match fuel with O => halt CgNoFuel | S fuel =>
  node ← deref p ;
  if is_float_ty (n_ty node) then gen_float_expr fuel node
  else if is_double_ty (n_ty node) then
    gen_double_value fuel p ;; push_pair ;; call "__truncdfsf2" ;; adjust_csp (-8)
  else
    gen_expr fuel p ;; push ;;
    ty ← deref (n_ty node) ;
    call (if is_unsigned_int ty || is_pointer_like ty then "__floatunsisf" else "__floatsisf") ;; adjust_csp (-4)
  end

with gen_double_value (fuel : nat) (p : option Node) {struct fuel} : G unit :=
  match fuel with O => halt CgNoFuel | S fuel =>
  node ← deref p ;
  if is_double_ty (n_ty node) then gen_double_expr fuel node
  else if is_float_ty (n_ty node) then
    gen_float_value fuel p ;; push ;; call "__extendsfdf2" ;; adjust_csp (-4)
  else
    gen_expr fuel p ;; push ;;
    ty ← deref (n_ty node) ;
    call (if is_unsigned_int ty || is_pointer_like ty then "__floatunsidf" else "__floatsidf") ;; adjust_csp (-4)
  end

with gen_float_compare (fuel : nat) (node : Node) {struct fuel} : G unit :=
  match fuel with O => halt CgNoFuel | S fuel =>
  lhs ← deref (n_lhs node) ; rhs ← deref (n_rhs node) ;
  (if is_double_ty (n_ty lhs) || is_double_ty (n_ty rhs) then
     gen_double_value fuel (n_rhs node) ;; push_pair ;; gen_double_value fuel (n_lhs node) ;; push_pair ;;
     call "__cmpdf2" ;; adjust_csp (-16)
   else
     gen_float_value fuel (n_rhs node) ;; push ;; gen_float_value fuel (n_lhs node) ;; push ;;
     call "__cmpsf2" ;; adjust_csp (-8)) ;;
  sign_test node
  end

with push_call_arg (fuel : nat) (arg : Node) {struct fuel} : G Z :=
  match fuel with O => halt CgNoFuel | S fuel =>
  if is_float_ty (n_ty arg) then gen_float_value fuel (Some arg) ;; push ;; mret 1
  else if is_double_ty (n_ty arg) then
    gen_double_value fuel (Some arg) ;; push_reg "R0" ;; push_reg "R1" ;; mret 2
  else if is64 (n_ty arg) then
    gen64_value fuel (Some arg) ;; push_reg "R0" ;; push_reg "R1" ;; mret 2
  else if is_aggregate (n_ty arg) then
    gen_addr fuel (Some arg) ;; ins "LOAD R1, __csp" ;;
    ty ← deref (n_ty arg) ;
    copy_bytes (at_least_1 (ty_size ty)) ;;
    adjust_csp (slot_size ty) ;; mret (Z.quot (slot_size ty) 4)
  else gen_expr fuel (Some arg) ;; push ;; mret 1
  end

with into_regs (fuel : nat) (node : Node) (regs : list string) {struct fuel} : G unit :=
  match fuel with O => halt CgNoFuel | S fuel =>
  each_g (fun a => gen_expr fuel (Some a) ;; push_tmp) (n_args node) ;;
  pop_regs (length (n_args node)) regs
  end

with gen_intrinsic (fuel : nat) (node : Node) {struct fuel} : G bool :=
  match fuel with O => halt CgNoFuel | S fuel =>
  name ← callee_name node ;
  match name ≫= find_intrinsic with
  | None => mret false
  | Some (regs, code) =>
      (if bool_decide (regs = []) then mret tt else into_regs fuel node regs) ;;
      each_g ins code ;; mret true
  end end

with gen_call (fuel : nat) (node : Node) {struct fuel} : G unit :=
  match fuel with O => halt CgNoFuel | S fuel =>
  done ← gen_intrinsic fuel node ;
  if (done : bool) then mret tt else
  words ← sum_g (push_call_arg fuel) (rev (n_args node)) ;
  let agg := is_aggregate (n_ty node) in
  words ← (if agg then
             (if bool_decide (n_ret_buffer node = None) then error "codegen: aggregate call without a return buffer"
              else emit_var_addr (n_ret_buffer node)) ;;
             push ;; mret (words +! 1)
           else mret words) ;
  fnexpr ← deref (n_lhs node) ;
  direct ← match n_kind fnexpr with
           | ND_VAR => v ← deref (n_var fnexpr) ; var ← obj v ;
                       mret (if is_kind (o_ty var) TY_FUNC then Some (o_name var) else None)
           | _ => mret None
           end ;
  (match direct with
   | Some name => jmp "CALL" name
   | None => gen_expr fuel (n_lhs node) ;; ins "CALLR R0"
   end) ;;
  (if words >? 0 then adjust_csp ((0 -! words) *! 4) else mret tt) ;;
  if agg then emit_var_addr (n_ret_buffer node) else mret tt
  end

with return_aggregate (fuel : nat) (expr : option Node) {struct fuel} : G unit :=
  match fuel with O => halt CgNoFuel | S fuel =>
  rty ← return_ty ; rty ← deref rty ;
  node ← deref expr ; ty ← deref (n_ty node) ;
  let size := at_least_1 (if ty_size rty <? 1 then ty_size ty else ty_size rty) in
  ins "MOVR R1, R6" ;; ins "MOV R7, 4" ;; ins "SUB R1, R7" ;; ins "LOADR R1, R1" ;;
  push_tmp_reg "R1" ;; gen_addr fuel expr ;; pop_tmp "R1" ;; copy_bytes size ;; ins "MOVR R0, R1"
  end

with gen_stmt (fuel : nat) (p : option Node) {struct fuel} : G unit :=
  match fuel with O => halt CgNoFuel | S fuel =>
  node ← deref p ;
  match n_kind node with
  | ND_IF =>
      els ← new_label ; end_ ← new_label ;
      gen_cond fuel (n_cond node) ;; cmp_zero ;; jmp "JZ" els ;;
      gen_stmt fuel (n_then node) ;; jmp "JMP" end_ ;; emit_label els ;;
      (if n_els node is Some _ then gen_stmt fuel (n_els node) else mret tt) ;;
      emit_label end_
  | ND_FOR =>
      (if n_init node is Some _ then gen_stmt fuel (n_init node) else mret tt) ;;
      top ← new_label ; emit_label top ;;
      (if n_cond node is Some _ then gen_cond fuel (n_cond node) ;; cmp_zero ;; jmp "JZ" (n_brk_label node) else mret tt) ;;
      gen_stmt fuel (n_then node) ;;
      emit_label (n_cont_label node) ;;
      (if n_inc node is Some _ then gen_expr fuel (n_inc node) else mret tt) ;;
      jmp "JMP" top ;; emit_label (n_brk_label node)
  | ND_DO =>
      top ← new_label ; emit_label top ;;
      gen_stmt fuel (n_then node) ;;
      emit_label (n_cont_label node) ;;
      gen_cond fuel (n_cond node) ;; cmp_zero ;; jmp "JNZ" top ;; emit_label (n_brk_label node)
  | ND_SWITCH =>
      gen_expr fuel (n_cond node) ;; push ;;
      each_g (fun c => pop "R0" ;; push ;;
        if n_begin c =? n_end c then
          ins_imm "MOV R7" (u32 (n_begin c)) ;; ins "CMP R0, R7" ;; jmp "JZ" (n_label c)
        else
          ins_imm "MOV R7" (u32 (n_begin c)) ;; ins "SUB R0, R7" ;;
          ins_imm "MOV R7" (u32 (n_end c - n_begin c)) ;; ins "CMP R0, R7" ;; jmp "JBE" (n_label c))
        (n_case_next node) ;;
      pop "R0" ;;
      jmp "JMP" (match n_default_case node with Some d => n_label d | None => n_brk_label node end) ;;
      gen_stmt fuel (n_then node) ;; emit_label (n_brk_label node)
  | ND_CASE => emit_label (n_label node) ;; gen_stmt fuel (n_lhs node)
  | ND_BLOCK => each_g (fun n => gen_stmt fuel (Some n)) (n_body node)
  | ND_GOTO => jmp "JMP" (n_unique_label node)
  | ND_LABEL => emit_label (n_unique_label node) ;; gen_stmt fuel (n_lhs node)
  | ND_RETURN =>
      (if n_lhs node is Some _ then
         ty ← return_ty ;
         if is_aggregate ty then return_aggregate fuel (n_lhs node) else gen_value_as fuel (n_lhs node) ty
       else ins "MOV R0, 0") ;;
      l ← gets cur_return_label ; jmp "JMP" l
  | ND_EXPR_STMT => gen_expr fuel (n_lhs node)
  | ND_ASM => gen_asm node
  | _ => gen_expr fuel p
  end end.

(** ** Frame layout *)

(** Parameters are among the locals too; the second pass gives them their places. *)
Definition place_local (top v : Z) : G Z :=
  l ← obj v ;
  let a := if o_align l <? 4 then o_align l else 4 in
  let top := align_to top a in
  set_obj v (fun o => o <| o_offset := top |>) ;;
  mret (top +! slot_size (o_ty l)).

Definition place_param (acc v : Z) : G Z :=
  p ← obj v ;
  let acc := acc +! slot_size (o_ty p) in
  set_obj v (fun o => o <| o_offset := 0 -! acc |>) ;;
  mret acc.

Fixpoint fold_g {A B} (m : B -> A -> G B) (b : B) (l : list A) : G B :=
  match l with [] => mret b | x :: l' => b' ← m b x ; fold_g m b' l' end.

Definition assign_lvar_offsets (f : Z) : G unit :=
  fn ← obj f ;
  top ← fold_g place_local 0 (o_locals fn) ;
  set_obj f (fun o => o <| o_stack_size := align_to top 4 |>) ;;
  fold_g place_param (if is_aggregate (ty_return (o_ty fn)) then 4 else 0) (o_params fn) ;;
  mret tt.

(** ** Register allocation *)

Fixpoint mark_addr_taken (node : Node) : G unit :=
  match n_kind node with
  | ND_VAR => match n_var node with Some v => set_obj v (fun o => o <| o_addr_taken := true |>) | None => mret tt end
  | ND_MEMBER => match n_lhs node with Some l => mark_addr_taken l | None => mret tt end
  | _ => mret tt
  end.

Definition not_scalar : G unit := modify (fun s => s <| ra_scalar := false |>).

Definition is_bitfield_member (node : Node) : bool :=
  bool_decide (n_kind node = ND_MEMBER) && match n_member node with Some m => m_is_bitfield m | None => false end.

Fixpoint ra_visit (fuel : nat) (p : option Node) : G unit :=
  match fuel with O => halt CgNoFuel | S fuel =>
  match p with
  | None => mret tt
  | Some node =>
      (if bool_decide (n_kind node = ND_FUNCALL) then modify (fun s => s <| ra_leaf := false |>) else mret tt) ;;
      (if is64 (n_ty node) || is_flonum_ty (n_ty node) || is_aggregate (n_ty node) then not_scalar else mret tt) ;;
      (if is_bitfield_member node then not_scalar else mret tt) ;;
      match n_kind node with
      | ND_ASM | ND_MEMZERO | ND_VLA_PTR | ND_CAS | ND_EXCH => not_scalar
      | ND_ADDR => match n_lhs node with Some l => mark_addr_taken l | None => mret tt end
      | _ => mret tt
      end ;;
      each_g (ra_visit fuel)
        [n_lhs node; n_rhs node; n_cond node; n_then node; n_els node; n_init node; n_inc node] ;;
      each_g (fun n => ra_visit fuel (Some n)) (n_body node) ;;
      each_g (fun n => ra_visit fuel (Some n)) (n_args node) ;;
      ra_visit fuel (n_default_case node)
  end end.

Definition ra_name_ok (n : list Z) : bool :=
  negb (hd0 n =? 0) && negb (hd0 n =? 46) && negb ((hd0 n =? 95) && (nthz n 1 =? 95)).

Definition ra_type_blocks (ty : Ty) : bool :=
  is_aggregate (Some ty) || is64 (Some ty) || is_flonum_ty (Some ty) || is_kind ty TY_ARRAY || is_kind ty TY_VLA.

Definition is_promotable (o : Obj) : bool :=
  if negb (o_is_local o) || o_addr_taken o || negb (ra_name_ok (o_name o)) then false else
  match ty_kind (o_ty o) with
  | TY_INT | TY_ENUM | TY_PTR => true
  | TY_LONG => ty_size (o_ty o) =? 4
  | _ => false
  end.

(** The pool is R2, R3, R4, in this order. *)
Fixpoint promote (pool : list Z) (l : list Z) : G unit :=
  match l, pool with
  | v :: l', r :: pool' =>
      o ← obj v ;
      if is_promotable o then set_obj v (fun o => o <| o_reg := r |>) ;; promote pool' l' else promote pool l'
  | _, _ => mret tt
  end.

Definition check_local (v : Z) : G unit :=
  l ← obj v ; if ra_type_blocks (o_ty l) then not_scalar else mret tt.

Definition analyze_and_allocate (fuel : nat) (f : Z) : G unit :=
  modify (fun s => s <| ra_leaf := true |> <| ra_scalar := true |>) ;;
  fn ← obj f ;
  each_g check_local (o_locals fn) ;;
  ra_visit fuel (o_body fn) ;;
  leaf ← gets ra_leaf ; scalar ← gets ra_scalar ;
  if negb leaf || negb scalar then mret tt else promote [2; 3; 4] (o_locals fn).

(** ** Functions and globals *)

(** How deep the calls of the generator get below a node: at most eight of them per level of the tree. *)
Fixpoint height (node : Node) : nat :=
  let o p := match p with Some n => height n | None => O end in
  let l := fix l ns := match ns with [] => O | n :: ns' => Nat.max (height n) (l ns') end in
  match node with
  | Build_Node _ _ lhs rhs cond then_ els init inc _ _ body _ args _ _ _ cases default _ _ _ _ _ _ =>
      S (list_max [o lhs; o rhs; o cond; o then_; o els; o init; o inc; l body; l args; l cases; o default])
  end.
Definition fuel_for (body : option Node) : nat := match body with Some n => 8 * height n + 8 | None => 8 end.

(** The address of a parameter's slot in R0. *)
Definition prime_param (v : Z) : G unit :=
  p ← obj v ;
  if o_reg p =? 0 then mret tt else
  let off := o_offset p in
  ins "MOVR R0, R6" ;;
  (if off <? 0 then ins_imm "MOV R7" (u32 (0 - off)) ;; ins "SUB R0, R7"
   else if off >? 0 then ins_imm "MOV R7" off ;; ins "ADD R0, R7" else mret tt) ;;
  ins_sym ("LOADR " ++ reg_name (o_reg p))%string (str "R0").

Definition gen_function (f : Z) : G unit :=
  modify (fun s => s <| cur_fn := Some f |>) ;;
  l ← new_label ; modify (fun s => s <| cur_return_label := l |>) ;;
  fn ← obj f ;
  analyze_and_allocate (fuel_for (o_body fn)) f ;;
  emit_label (o_name fn) ;;
  ins "PUSH R6" ;; ins "LOAD R6, __csp" ;;
  (if o_stack_size fn >? 0 then
     ins "MOVR R5, R6" ;; ins_imm "MOV R7" (o_stack_size fn) ;; ins "ADD R5, R7" ;; ins "STORE R5, __csp"
   else mret tt) ;;
  each_g prime_param (o_params fn) ;;
  (if o_body fn is Some _ then gen_stmt (fuel_for (o_body fn)) (o_body fn) else mret tt) ;;
  ins "MOV R0, 0" ;;
  l ← gets cur_return_label ; emit_label l ;;
  ins "STORE R6, __csp" ;; ins "POP R6" ;; ins "RET" ;;
  modify (fun s => s <| cur_fn := None |>).

Definition reloc_at (rel : list Relocation) (pos : Z) : option Relocation := List.find (fun r => r_offset r =? pos) rel.

Definition next_reloc_offset (rel : list Relocation) (pos fallback : Z) : Z :=
  fold_left (fun best r => if (r_offset r >? pos) && (r_offset r <? best) then r_offset r else best) rel fallback.

Fixpoint join_commas (l : list (list Z)) : list Z :=
  match l with [] => [] | [x] => x | x :: l' => x ++ str "," ++ join_commas l' end.

(** The bytes in lines of up to sixteen. *)
Fixpoint byte_lines (fuel : nat) (bytes : list Z) : G unit :=
  match fuel with O => mret tt | S fuel =>
  match bytes with
  | [] => mret tt
  | _ => wr_line (str "  .byte " ++ join_commas (wru <$> take 16 bytes)) ;; byte_lines fuel (drop 16 bytes)
  end end.

Definition word_line (r : Relocation) : G unit :=
  wr_line (str "  .word " ++ r_label r ++
    if r_addend r >? 0 then str "+" ++ wru (u32 (r_addend r))
    else if r_addend r <? 0 then str "-" ++ wru (u32 (0 - r_addend r)) else []).

(** Every round moves on by a byte at least. *)
Fixpoint emit_init_from (fuel : nat) (buf : list Z) (len : Z) (rel : list Relocation) (i : Z) : G unit :=
  match fuel with O => halt CgNoFuel | S fuel =>
  if negb (i <? len) then mret tt else
  match reloc_at rel i with
  | Some r => word_line r ;; emit_init_from fuel buf len rel (i + 4)
  | None =>
      let end_ := next_reloc_offset rel i len in
      if Z.of_nat (length buf) <? end_ then halt CgUndefined else
      let bytes := slice (nthz buf) i (Z.to_nat (end_ - i)) in
      byte_lines (length bytes) ((fun b => Z.land b 255) <$> bytes) ;;
      emit_init_from fuel buf len rel end_
  end end.
Definition emit_init_data (buf : list Z) (len : Z) (rel : list Relocation) : G unit :=
  emit_init_from (S (Z.to_nat len)) buf len rel 0.

Definition is_data (o : Obj) : bool := negb (o_is_function o) && o_is_definition o.

(** The variables with an image, or those without, after their section's directive. *)
Definition emit_section (directive : string) (initialized : bool) (each : Obj -> G unit) (prog : list Z) : G unit :=
  vars ← gets objs ;
  let l := filter (fun v => is_data (vars v) = true /\ bool_decide (is_Some (o_init_data (vars v))) = initialized) prog in
  (if bool_decide (l = []) then mret tt else wr_line (str directive)) ;;
  each_g (fun v => emit_label (o_name (vars v)) ;; each (vars v)) l.

Definition emit_data (prog : list Z) : G unit :=
  emit_section ".data" true (fun var =>
    buf ← deref (o_init_data var) ; emit_init_data buf (at_least_1 (ty_size (o_ty var))) (o_rel var)) prog ;;
  emit_section ".bss" false (fun var =>
    wr_line (str "  .space " ++ wru (at_least_1 (ty_size (o_ty var))))) prog.

Definition if_function (m : Z -> G unit) (f : Z) : G unit :=
  fn ← obj f ; if o_is_function fn && o_is_definition fn then m f else mret tt.

Definition emit_global (v : Z) : G unit :=
  o ← obj v ; if negb (o_is_definition o) || o_is_static o then mret tt else wr_line (str ".global " ++ o_name o).

Definition codegen (prog : list Z) : G unit :=
  each_g (if_function assign_lvar_offsets) prog ;;
  each_g emit_global prog ;;
  wr_line (str ".text") ;;
  each_g (if_function gen_function) prog ;;
  emit_data prog.
End generator.

(** The generator's globals when the compiler starts, and the text of the output file. *)
Definition cg_init (objs : Z -> Obj) : cg := Build_cg None [] 0 false false objs.
Definition text_of (code : list line) : list Z := concat ((fun l => l ++ [10]) <$> code).
