(* ===== verification/Cpu.v ===== *)
(** * Cpu: the custom32 processor ([src/isa.ts], [vm/custom32/cpu.ts])

    The instruction set as the interpreter of the virtual machine executes it, for a
    program in USER mode whose addresses are translated by the identity.  Registers
    hold unsigned words, memory a byte per address below its size.  A step ends in
    the next state, a system call, or a fault; privileged instructions fault. *)

From S2P Require Import Prelude Config Kernel Klog RawMem UserMem LibString.

(** ** Words *)

Lemma u32_i32 v : u32 (i32 v) = u32 v.
Proof. unfold u32, i32. rewrite Zminus_mod_idemp_l. f_equal. lia. Qed.

Lemma i32_u32 v : i32 (u32 v) = i32 v.
Proof. unfold u32, i32. by rewrite Zplus_mod_idemp_l. Qed.

Lemma u32_small v : 0 <= v < 2 ^ 32 -> u32 v = v.
Proof. apply Z.mod_small. Qed.

Lemma u32_range v : 0 <= u32 v < 2 ^ 32.
Proof. by apply Z.mod_pos_bound. Qed.

Lemma u32_u32 v : u32 (u32 v) = u32 v.
Proof. apply Z.mod_mod. done. Qed.

(** ** State *)

Record cpu := Build_cpu { regs : Z -> Z; pc : Z; sp : Z; flags : Z; mem : Z -> Z }.
#[export] Instance eta_cpu : Eta cpu := fun r => Build_cpu (regs r) (pc r) (sp r) (flags r) (mem r).
#[export] Instance set_regs : Setter regs := ltac:(mk_setter).
#[export] Instance set_pc : Setter pc := ltac:(mk_setter).
#[export] Instance set_sp : Setter sp := ltac:(mk_setter).
#[export] Instance set_flags : Setter flags := ltac:(mk_setter).
#[export] Instance set_mem : Setter mem := ltac:(mk_setter).

Inductive FaultKind := illegal_opcode | divide_by_zero | privileged | illegal | phys_range.

Inductive RunResult := Next (m : cpu) | Int (num : Z) (m : cpu) | Fault (kind : FaultKind).

Definition FLAG_ZF : Z := 1.
Definition FLAG_SF : Z := 2.
Definition FLAG_CF : Z := 4.
Definition FLAG_OF : Z := 16.

(** ** The opcode table *)

Inductive ArgKind := REG | WORD.

(** The operands of an opcode, and whether it is privileged. *)
Definition opcode_args (opcode : Z) : option (list ArgKind * bool) :=
  if opcode =? 0x01 then Some ([REG; WORD], false)
  else if (opcode =? 0x03) || (opcode =? 0x04) then Some ([REG; WORD], false)
  else if (0x02 <=? opcode) && (opcode <=? 0x0c) then Some ([REG; REG], false)
  else if (opcode =? 0x18) || (opcode =? 0x1b) || (opcode =? 0x1c) then Some ([REG], false)
  else if (0x10 <=? opcode) && (opcode <=? 0x1f) then Some ([REG; REG], false)
  else if opcode =? 0x28 then Some ([], false)
  else if opcode =? 0x29 then Some ([REG], false)
  else if opcode =? 0x2e then Some ([REG; REG], false)
  else if (0x20 <=? opcode) && (opcode <=? 0x2d) then Some ([WORD], false)
  else if (opcode =? 0x30) || (opcode =? 0x31) then Some ([REG], false)
  else if opcode =? 0x40 then Some ([WORD], false)
  else if (opcode =? 0x43) || (opcode =? 0x44) then Some ([REG; REG], true)
  else if (0x46 <=? opcode) && (opcode <=? 0x4b) then Some ([REG], true)
  else if (0x41 <=? opcode) && (opcode <=? 0x4d) then Some ([], true)
  else if opcode =? 0xff then Some ([], true)
  else if opcode =? 0x00 then Some ([], false)
  else None.

Section cpu.
(** The bytes of memory, [phys.size]. *)
Context (size : Z).

(** ** Memory *)

Definition xlate (vaddr bytes : Z) : bool := (0 <=? vaddr) && (vaddr + bytes <=? size).

Definition rd8 (m : cpu) (v : Z) : option Z := if xlate v 1 then Some (mem m v) else None.
Definition rd16 (m : cpu) (v : Z) : option Z := if xlate v 2 then Some (mem m v + 2 ^ 8 * mem m (v + 1)) else None.
Definition rd32 (m : cpu) (v : Z) : option Z := if xlate v 4 then Some (u32 (pread32 (mem m) v)) else None.
Definition wr8 (m : cpu) (v x : Z) : option cpu :=
  if xlate v 1 then Some (m <| mem ::= fun f => upd f v (x mod 2 ^ 8) |>) else None.
Definition wr16 (m : cpu) (v x : Z) : option cpu :=
  if xlate v 2 then Some (m <| mem ::= fun f => blit f v [x mod 2 ^ 8; x / 2 ^ 8 mod 2 ^ 8] |>) else None.
Definition wr32 (m : cpu) (v x : Z) : option cpu :=
  if xlate v 4 then Some (m <| mem ::= fun f => pwrite32 f v x |>) else None.

(** ** Flags *)

Definition flag_if (b : bool) (bit f : Z) : Z := if b then Z.lor f bit else f.
Definition sign_bit (r : Z) : bool := has r 0x80000000.

Definition set_zs (r : Z) (m : cpu) : cpu :=
  m <| flags ::= fun f => flag_if (sign_bit r) FLAG_SF (flag_if (r =? 0) FLAG_ZF (Z.land f (Z.lnot 3))) |>.

Definition set_add_flags (a b : Z) (m : cpu) : cpu :=
  let r := u32 (a + b) in
  m <| flags ::= fun f =>
    flag_if (sign_bit (Z.land (Z.lnot (Z.lxor a b)) (Z.lxor a r))) FLAG_OF
      (flag_if (a + b >? 0xffffffff) FLAG_CF
         (flag_if (sign_bit r) FLAG_SF (flag_if (r =? 0) FLAG_ZF (Z.land f (Z.lnot 23))))) |>.

Definition set_sub_flags (a b : Z) (m : cpu) : cpu :=
  let r := u32 (a - b) in
  m <| flags ::= fun f =>
    flag_if (sign_bit (Z.land (Z.lxor a b) (Z.lxor a r))) FLAG_OF
      (flag_if (a <? b) FLAG_CF
         (flag_if (sign_bit r) FLAG_SF (flag_if (r =? 0) FLAG_ZF (Z.land f (Z.lnot 23))))) |>.

Definition zf (m : cpu) : bool := has (flags m) FLAG_ZF.
Definition cf (m : cpu) : bool := has (flags m) FLAG_CF.
Definition signed_less (m : cpu) : bool := xorb (has (flags m) FLAG_SF) (has (flags m) FLAG_OF).

(** ** Instructions *)

Definition set_reg (r v : Z) (m : cpu) : cpu := m <| regs ::= fun f => upd f r v |>.
Definition goto (target : Z) (m : cpu) : cpu := m <| pc := target |>.

Definition done_or_range (m : option cpu) : RunResult := match m with Some m => Next m | None => Fault phys_range end.

(** [r[op0] = load]. *)
Definition loaded (r : Z) (v : option Z) (m : cpu) : RunResult :=
  match v with Some v => Next (set_reg r v m) | None => Fault phys_range end.

Definition push (value : Z) (m : cpu) : option cpu :=
  let m := m <| sp ::= fun s => s - 4 |> in wr32 m (sp m) value.
Definition pop (m : cpu) : option (Z * cpu) :=
  v ← rd32 m (sp m) ; Some (v, m <| sp ::= fun s => s + 4 |>).

(** The signed value of a word. *)
Definition sgn (a : Z) : Z := i32 a.

(** [r[op0] = setZS(v)]. *)
Definition result (r v : Z) (m : cpu) : RunResult := Next (set_reg r (u32 v) (set_zs (u32 v) m)).

Definition jump_if (b : bool) (target : Z) (m : cpu) : RunResult := Next (if b then goto target m else m).

Definition execute (opcode op0 op1 : Z) (m : cpu) : RunResult :=
  let a := regs m op0 in
  let b := regs m op1 in
  match opcode with
  | 0x00 => Next m
  | 0x01 => Next (set_reg op0 op1 m)
  | 0x02 => Next (set_reg op0 b m)
  | 0x03 => loaded op0 (rd32 m op1) m
  | 0x04 => done_or_range (wr32 m op1 a)
  | 0x05 => loaded op0 (rd32 m b) m
  | 0x06 => done_or_range (wr32 m a b)
  | 0x07 => loaded op0 (rd8 m b) m
  | 0x08 => done_or_range (wr8 m a (Z.land b 0xff))
  | 0x09 => loaded op0 ((fun v => if has v 0x80 then Z.lor v 0xffffff00 else v) <$> rd8 m b) m
  | 0x0a => loaded op0 (rd16 m b) m
  | 0x0b => loaded op0 ((fun v => if has v 0x8000 then Z.lor v 0xffff0000 else v) <$> rd16 m b) m
  | 0x0c => done_or_range (wr16 m a (Z.land b 0xffff))
  | 0x10 => Next (set_reg op0 (u32 (a + b)) (set_add_flags a b m))
  | 0x11 => Next (set_reg op0 (u32 (a - b)) (set_sub_flags a b m))
  | 0x12 => result op0 (a * b) m
  | 0x13 => if b =? 0 then Fault divide_by_zero else result op0 (a / b) m
  | 0x14 => if b =? 0 then Fault divide_by_zero else result op0 (a mod b) m
  | 0x1e => if sgn b =? 0 then Fault divide_by_zero else result op0 (Z.quot (sgn a) (sgn b)) m
  | 0x1f => if sgn b =? 0 then Fault divide_by_zero else result op0 (Z.rem (sgn a) (sgn b)) m
  | 0x15 => result op0 (Z.land a b) m
  | 0x16 => result op0 (Z.lor a b) m
  | 0x17 => result op0 (Z.lxor a b) m
  | 0x18 => result op0 (Z.lnot a) m
  | 0x19 => result op0 (Z.shiftl a (Z.land b 31)) m
  | 0x1a => result op0 (Z.shiftr a (Z.land b 31)) m
  | 0x2e => result op0 (Z.shiftr (sgn a) (Z.land b 31)) m
  | 0x1b => Next (set_reg op0 (u32 (a + 1)) (set_add_flags a 1 m))
  | 0x1c => Next (set_reg op0 (u32 (a - 1)) (set_sub_flags a 1 m))
  | 0x1d => Next (set_sub_flags a b m)
  | 0x20 => Next (goto op0 m)
  | 0x21 => jump_if (zf m) op0 m
  | 0x22 => jump_if (negb (zf m)) op0 m
  | 0x23 => jump_if (negb (zf m) && negb (signed_less m)) op0 m
  | 0x24 => jump_if (negb (signed_less m)) op0 m
  | 0x25 => jump_if (signed_less m) op0 m
  | 0x26 => jump_if (signed_less m || zf m) op0 m
  | 0x27 => done_or_range (goto op0 <$> push (pc m) m)
  | 0x29 => done_or_range (goto a <$> push (pc m) m)
  | 0x2a => jump_if (negb (cf m) && negb (zf m)) op0 m
  | 0x2b => jump_if (negb (cf m)) op0 m
  | 0x2c => jump_if (cf m) op0 m
  | 0x2d => jump_if (cf m || zf m) op0 m
  | 0x28 => match pop m with Some (v, m) => Next (goto v m) | None => Fault phys_range end
  | 0x30 => done_or_range (push a m)
  | 0x31 => match pop m with Some (v, m) => Next (set_reg op0 v m) | None => Fault phys_range end
  | 0x40 => Int op0 m
  | _ => Fault illegal_opcode
  end.

(** ** Fetching *)

(** An operand, with the address that follows it. *)
Definition fetch_arg (m : cpu) (k : ArgKind) (at_ : Z) : RunResult + (Z * Z) :=
  match k with
  | REG => match rd8 m at_ with
           | Some r => if r >=? 8 then inl (Fault illegal) else inr (r, at_ + 1)
           | None => inl (Fault phys_range)
           end
  | WORD => match rd32 m at_ with
            | Some w => inr (w, at_ + 4)
            | None => inl (Fault phys_range)
            end
  end.

Definition step (m : cpu) : RunResult :=
  match rd8 m (pc m) with
  | None => Fault phys_range
  | Some opcode =>
      match opcode_args opcode with
      | None => Fault illegal_opcode
      | Some (_, true) => Fault privileged
      | Some ([], _) => execute opcode 0 0 (goto (pc m + 1) m)
      | Some (k0 :: ks, _) =>
          match fetch_arg m k0 (pc m + 1) with
          | inl f => f
          | inr (op0, next) =>
              match ks with
              | [] => execute opcode op0 0 (goto next m)
              | k1 :: _ =>
                  match fetch_arg m k1 next with
                  | inl f => f
                  | inr (op1, next) => execute opcode op0 op1 (goto next m)
                  end
              end
          end
      end
  end.

(** [n] instructions without a system call or a fault. *)
Fixpoint steps (n : nat) (m : cpu) : option cpu :=
  match n with
  | O => Some m
  | S n => match step m with Next m' => steps n m' | _ => None end
  end.
End cpu.
