(* ===== verification/AsmLines.v ===== *)
(** * AsmLines: what the guest assembler makes of the lines of a compiler

    An instruction line is two spaces, a mnemonic and its operands; the operands here
    are registers, decimal constants and names.  For such lines, and for the lines
    that define a label, the effect of [parse_line] is given in closed form. *)

From S2P Require Import Prelude Config Kernel Klog RawMem UserMem LibString LibFormat LibStringSpec LibNumberSpec GuestAsm GuestLink GuestObjSpec GuestAsmSpec.

(** ** Characters and names *)

(** A character of an operand: no blank, quote, comma, colon, comment or sign. *)
Definition plain (c : Z) : bool := name_char c.

(** The name of a label or a symbol. *)
Definition label_ok (name : list Z) : bool :=
  match name with [] => false | c :: l => name_start c && forallb name_char l end.

Lemma label_ok_chars name : label_ok name = true -> Forall (fun c => name_char c = true) name.
Proof.
  destruct name as [|c l]; [done|]. cbn. intros H. bool_hyps. constructor.
  - unfold name_char. by rewrite H.
  - apply Forall_forall. intros x Hx. rewrite forallb_forall in H0. by by apply H0, list_elem_of_In.
Qed.

Lemma name_char_range c : name_char c = true -> 46 <= c <= 122 /\ c <> 47 /\ c <> 58 /\ c <> 59.
Proof.
  unfold name_char, name_start, isupper, islower, isdigit. intros H.
  repeat match type of H with (_ || _) = true => apply orb_true_iff in H as [H|H] end; bool_hyps; lia.
Qed.

Lemma name_char_ws c : name_char c = true -> is_ws c = false.
Proof. intros H. apply name_char_range in H. unfold is_ws. repeat case_match; lia. Qed.

Lemma digit_name_char c : is_digit_of 10 c -> name_char c = true /\ isdigit c = true.
Proof.
  unfold is_digit_of, digit_value. intros [Hc Hd]. destruct (isdigit c) eqn:E.
  - unfold name_char. by rewrite E, orb_true_r.
  - exfalso. unfold islower, isupper in Hd. repeat case_match; bool_hyps; lia.
Qed.

Lemma wru_chars n : 0 <= n -> Forall (fun c => name_char c = true /\ isdigit c = true) (uint_text 32 n 10 0).
Proof.
  intros Hn. eapply Forall_impl; [apply (uint_text_digits 32 10 ltac:(lia) ltac:(lia)); done|].
  intros c. apply digit_name_char.
Qed.

(** ** Spans *)

Lemma span_prefix p (s : list Z) r : Forall (fun c => p c = true) s -> (forall c, head r = Some c -> p c = false) ->
  span p (s ++ r) = (s, r).
Proof.
  intros H Hr. induction H as [|c s Hc _ IH]; cbn.
  - destruct r as [|c r]; cbn; [done|]. by rewrite (Hr c).
  - by rewrite Hc, IH.
Qed.

Lemma span_none p (s : list Z) : (forall c, head s = Some c -> p c = false) -> span p s = ([], s).
Proof. intros H. apply (span_prefix p [] s); [constructor|done]. Qed.

Lemma skip_ws_id s : (forall c, head s = Some c -> is_ws c = false) -> skip_ws s = s.
Proof. intros H. unfold skip_ws. by rewrite span_none. Qed.

Lemma rtrim_id s c : is_ws c = false -> rtrim (s ++ [c]) = s ++ [c].
Proof.
  intros H. unfold rtrim. rewrite rev_app_distr. cbn [rev app]. rewrite skip_ws_id by (intros ? [= <-]; done).
  cbn [rev]. by rewrite rev_involutive.
Qed.

(** Characters that neither quote nor start a comment. *)
Definition quiet (c : Z) : Prop := c <> 34 /\ c <> 59 /\ c <> 35.

Lemma name_char_quiet c : name_char c = true -> quiet c.
Proof. intros H. apply name_char_range in H. unfold quiet. lia. Qed.

Lemma strip_comment_quiet prev s : Forall quiet s -> strip_comment_from false prev s = s.
Proof.
  intros H. revert prev. induction H as [|c s (H1 & H2 & H3) _ IH]; intros prev; cbn [strip_comment_from]; [done|].
  unfold toggles. rewrite (proj2 (Z.eqb_neq _ _) H1), (proj2 (Z.eqb_neq _ _) H2), (proj2 (Z.eqb_neq _ _) H3).
  cbn. by rewrite IH.
Qed.

(** Fields: a piece without commas, and the rest. *)
Lemma split_fields_piece prev s : Forall (fun c => c <> 34 /\ c <> 44) s -> split_fields false prev s = [s].
Proof.
  intros H. revert prev. induction H as [|c s (H1 & H2) _ IH]; intros prev; cbn [split_fields]; [done|].
  unfold toggles. rewrite (proj2 (Z.eqb_neq _ _) H1), (proj2 (Z.eqb_neq _ _) H2). cbn. by rewrite IH.
Qed.

Lemma split_fields_comma prev s r : Forall (fun c => c <> 34 /\ c <> 44) s ->
  split_fields false prev (s ++ 44 :: r) = s :: split_fields false 44 r.
Proof.
  intros H. revert prev. induction H as [|c s (H1 & H2) _ IH]; intros prev; cbn [split_fields app]; [done|].
  unfold toggles. rewrite (proj2 (Z.eqb_neq _ _) H1), (proj2 (Z.eqb_neq _ _) H2). cbn. by rewrite IH.
Qed.

(** ** Operands *)

Definition operand (t : list Z) : Prop := t <> [] /\ Forall (fun c => name_char c = true) t.

Lemma operand_head t c : operand t -> head t = Some c -> name_char c = true.
Proof. intros [_ H] E. destruct t; [done|]. injection E as ->. by inversion H. Qed.

Lemma operand_trim t : operand t -> rtrim (skip_ws t) = t.
Proof.
  intros H. pose proof H as [Hne Hf]. rewrite skip_ws_id by (intros c Hc; eauto using name_char_ws, operand_head).
  destruct t as [|c t] using rev_ind; [done|]. apply Forall_app in Hf as [_ Hc]. inversion Hc; subst.
  by apply rtrim_id, name_char_ws.
Qed.

Lemma operand_field t : operand t -> Forall (fun c => c <> 34 /\ c <> 44) t.
Proof. intros [_ H]. eapply Forall_impl; [exact H|]. intros c Hc. apply name_char_range in Hc. lia. Qed.

Lemma split_one t n : operand t -> 1 <= n -> split_operands t n = Ok [t].
Proof.
  intros H Hn. unfold split_operands. rewrite split_fields_piece by by apply operand_field.
  cbn [fmap list_fmap]. rewrite operand_trim by done. cbn [length]. rewrite (proj2 (Z.ltb_ge _ _)) by lia.
  case_bool_decide as E; [|done]. injection E as ->. by destruct H.
Qed.

Lemma skip_space t : skip_ws (32 :: t) = skip_ws t.
Proof. unfold skip_ws. cbn. by destruct (span is_ws t). Qed.

Lemma split_two t u n : operand t -> operand u -> 2 <= n -> split_operands (t ++ 44 :: 32 :: u) n = Ok [t; u].
Proof.
  intros Ht Hu Hn. unfold split_operands. rewrite split_fields_comma, split_fields_piece by
    (repeat first [by apply operand_field | constructor; [lia|]]).
  cbn [fmap list_fmap]. rewrite skip_space, !operand_trim by done.
  cbn [length]. rewrite (proj2 (Z.ltb_ge _ _)) by lia. case_bool_decide as E; [|done]. by injection E.
Qed.

(** A register. *)
Definition reg_text (r : Z) : list Z := [82; 48 + r].

Lemma reg_text_operand r : 0 <= r < 8 -> operand (reg_text r).
Proof.
  intros H. split; [done|]. constructor; [done|]. constructor; [|constructor]. unfold name_char, isdigit.
  rewrite (proj2 (Z.leb_le 48 _)), (proj2 (Z.leb_le _ 57)) by lia. apply orb_true_r.
Qed.

Lemma parse_reg_text r : 0 <= r < 8 -> parse_reg (reg_text r) = Ok r.
Proof.
  intros H. unfold parse_reg. rewrite skip_ws_id by (intros c [= <-]; done).
  change (hd0 (reg_text r)) with 82. change (nthz (reg_text r) 1) with (48 + r).
  change (skip_ws (drop 2 (reg_text r))) with (@nil Z).
  rewrite (proj2 (Z.ltb_ge (48 + r) 48)), (proj2 (Z.ltb_ge 55 (48 + r))) by lia.
  cbn [negb andb orb Z.eqb Pos.eqb]. rewrite bool_decide_true by done. cbn [negb]. f_equal. lia.
Qed.

(** A decimal constant. *)
Lemma number_of_u32 base ds : fold_left (fun v c => u32 (v * base + digit_value c)) ds 0 = u32 (number_of base ds).
Proof.
  induction ds as [|c ds IH] using rev_ind; [done|]. rewrite fold_left_app, number_of_snoc, IH. cbn [fold_left].
  unfold u32. by rewrite Z.add_mod, Z.mul_mod_idemp_l, <- Z.add_mod by lia.
Qed.

Lemma strtoul0_digits ds : ds <> [] -> Forall (is_digit_of 10) ds -> (hd0 ds <> 48 \/ ds = [48]) -> number_of 10 ds < 2 ^ 32 ->
  strtoul0 ds = (number_of 10 ds, []).
Proof.
  intros Hne Hd Hz Hn. unfold strtoul0.
  destruct ds as [|c ds]; [done|]. inversion Hd as [|? ? Hc Hds]; subst.
  destruct (digit_name_char c Hc) as [Hnc Hdc]. unfold isdigit in Hdc. bool_hyps.
  rewrite span_none by (intros d [= <-]; unfold isspace; repeat case_match; lia). cbn [snd].
  change (hd0 (c :: ds)) with c in *.
  rewrite (proj2 (Z.eqb_neq c 43)), (proj2 (Z.eqb_neq c 45)) by lia. change (hd0 (c :: ds)) with c.
  destruct Hz as [Hz|Hz].
  - rewrite (proj2 (Z.eqb_neq c 48)) by done. cbn [andb].
    rewrite <- (app_nil_r (c :: ds)) at 1. rewrite span_prefix; [|eapply Forall_impl; [exact Hd|]|done].
    2: { intros d [H1 H2]. rewrite (proj2 (Z.leb_le _ _)), (proj2 (Z.ltb_lt _ _)) by lia. done. }
    case_bool_decide; [done|]. f_equal. rewrite number_of_u32. apply Z.mod_small.
    pose proof (number_of_bounds 10 (c :: ds) ltac:(lia) Hd). lia.
  - injection Hz as -> ->. done.
Qed.

Lemma digits_of_last fuel v : 0 < v < 10 ^ Z.of_nat fuel -> exists d, last (digits_of fuel v 10 0) = Some d /\ d <> 48.
Proof.
  revert v. induction fuel as [|f IH]; intros v Hv; [cbn in Hv; lia|]. cbn [digits_of].
  rewrite (proj2 (Z.eqb_neq v 0)) by lia. rewrite Nat2Z.inj_succ, Z.pow_succ_r in Hv by lia.
  pose proof (Z.div_mod v 10). pose proof (Z.mod_pos_bound v 10).
  destruct (Z.eq_dec (v / 10) 0) as [E|E].
  - rewrite E. exists (digit_char (v mod 10) 0). split; [by destruct f|]. unfold digit_char.
    rewrite (proj2 (Z.ltb_lt _ _)) by lia. lia.
  - destruct (IH (v / 10)) as (d & Hd & Hne). { pose proof (Z.div_pos v 10). lia. }
    exists d. split; [|done]. destruct (digits_of f (v / 10) 10 0); [done|exact Hd].
Qed.

Lemma uint_text_head n : 0 <= n < 2 ^ 32 -> hd0 (uint_text 32 n 10 0) <> 48 \/ uint_text 32 n 10 0 = [48].
Proof.
  intros Hn. unfold uint_text. destruct (Z.eqb_spec n 0) as [|H0]; [by right|left].
  destruct (digits_of_last 32 n) as (d & Hd & Hne); [split; [lia|]; change (10 ^ Z.of_nat 32) with (10 ^ 32); lia|].
  apply last_Some in Hd as [l ->]. rewrite rev_app_distr. exact Hne.
Qed.

Lemma wru_operand n : 0 <= n -> operand (uint_text 32 n 10 0).
Proof.
  intros H. split; [apply uint_text_nonempty; lia|]. eapply Forall_impl; [by apply wru_chars|]. by intros c [? _].
Qed.

Lemma parse_uint_wru n : 0 <= n < 2 ^ 32 -> parse_uint (uint_text 32 n 10 0) = Some n.
Proof.
  intros Hn. unfold parse_uint. pose proof (wru_operand n ltac:(lia)) as Ho.
  rewrite skip_ws_id by (intros c Hc; eauto using name_char_ws, operand_head).
  rewrite bool_decide_false by apply Ho.
  pose proof (uint_text_number 32 10 ltac:(lia) ltac:(lia) n 0 Hn) as En.
  rewrite strtoul0_digits; [|apply Ho|apply uint_text_digits; lia|by apply uint_text_head|lia].
  by rewrite En.
Qed.

(** A name. *)
Lemma label_ok_operand name : label_ok name = true -> operand name.
Proof. intros H. split; [by intros ->|by apply label_ok_chars]. Qed.

Lemma name_start_digit c : name_start c = true -> (0 <=? digit_value c) && (digit_value c <? 10) = false.
Proof.
  unfold name_start, digit_value, isupper, islower, isdigit. intros H.
  destruct (Z.leb_spec 48 c), (Z.leb_spec c 57), (Z.leb_spec 97 c), (Z.leb_spec c 122), (Z.leb_spec 65 c), (Z.leb_spec c 90);
    cbn in *; try lia; repeat case_match; bool_hyps; try lia; done.
Qed.

Lemma parse_uint_name name : label_ok name = true -> parse_uint name = None.
Proof.
  intros H. pose proof (label_ok_operand name H) as Ho. unfold parse_uint.
  rewrite skip_ws_id by (intros c Hc; eauto using name_char_ws, operand_head).
  rewrite bool_decide_false by apply Ho. destruct name as [|c l]; [done|]. cbn in H. bool_hyps.
  pose proof (name_char_range c) as Hr. unfold name_char in Hr. rewrite H in Hr. cbn in Hr. specialize (Hr eq_refl).
  assert (c <> 48). { intros ->. done. }
  unfold strtoul0. rewrite span_none by (intros d [= <-]; unfold isspace; repeat case_match; lia). cbn [snd].
  change (hd0 (c :: l)) with c. rewrite (proj2 (Z.eqb_neq c 43)), (proj2 (Z.eqb_neq c 45)) by lia.
  change (hd0 (c :: l)) with c. rewrite (proj2 (Z.eqb_neq c 48)) by done. cbn [andb].
  rewrite span_none by (intros d [= <-]; by apply name_start_digit).
  rewrite bool_decide_true by done. cbn.
  rewrite skip_ws_id by (intros d [= <-]; apply name_char_ws; unfold name_char; by rewrite H). by case_bool_decide.
Qed.

Lemma parse_symbol_ref_name name : label_ok name = true -> parse_symbol_ref name = Ok (name, 0).
Proof.
  intros H. pose proof (label_ok_operand name H) as Ho. unfold parse_symbol_ref.
  rewrite skip_ws_id by (intros c Hc; eauto using name_char_ws, operand_head).
  assert (name_start (hd0 name) = true) as ->. { destruct name; [done|]. cbn in H. bool_hyps. done. }
  cbn [negb]. rewrite <- (app_nil_r name) at 1. rewrite span_prefix; [|apply Ho|done].
  done.
Qed.

(** ** Instruction lines *)

Definition operands_text (ops : list (list Z)) : list Z :=
  match ops with [] => [] | [a] => 32 :: a | a :: b :: _ => 32 :: a ++ 44 :: 32 :: b end.
Definition insn_line (mn : list Z) (ops : list (list Z)) : list Z := 32 :: 32 :: mn ++ operands_text ops.

Definition mnemonic (mn : list Z) : bool := negb (bool_decide (mn = [])) && forallb isupper mn.

Lemma mnemonic_char mn c : mnemonic mn = true -> c ∈ mn -> isupper c = true.
Proof. unfold mnemonic. intros H Hc. bool_hyps. rewrite forallb_forall in H0. by apply H0, list_elem_of_In. Qed.

Lemma upper_name_start c : isupper c = true -> name_start c = true /\ name_char c = true /\ islower c = false /\ 65 <= c <= 90.
Proof.
  intros H. assert (name_start c = true) as E by (unfold name_start; by rewrite H).
  unfold name_char. rewrite E. unfold isupper in H. bool_hyps. repeat split; try lia.
  unfold islower. rewrite (proj2 (Z.leb_gt 97 c)) by lia. done.
Qed.

Lemma rtrim_last s c : last s = Some c -> is_ws c = false -> rtrim s = s.
Proof. intros H Hc. apply last_Some in H as [l ->]. by apply rtrim_id. Qed.

Lemma operand_last t : operand t -> exists c, last t = Some c /\ name_char c = true.
Proof.
  intros [Hne Hf]. destruct t as [|c t] using rev_ind; [done|]. exists c. rewrite last_snoc. split; [done|].
  apply Forall_app in Hf as [_ Hc]. by inversion Hc.
Qed.

Lemma last_app_some {A} (s t : list A) c : last t = Some c -> last (s ++ t) = Some c.
Proof. intros H. apply last_Some in H as [l ->]. by rewrite app_assoc, last_snoc. Qed.

Lemma last_cons_some {A} (x : A) (t : list A) c : last t = Some c -> last (x :: t) = Some c.
Proof. apply (last_app_some [x]). Qed.

Section insn_line.
#[local] Set Default Proof Using "Type*".
Context (mn : list Z) (ops : list (list Z)).
Context (Hmn : mnemonic mn = true) (Hops : Forall operand ops).

Lemma mnemonic_operand : operand mn.
Proof.
  split; [unfold mnemonic in Hmn; bool_hyps; by destruct (bool_decide_reflect (mn = []))|].
  apply Forall_forall. intros c Hc. by apply upper_name_start, (mnemonic_char _ _ Hmn Hc).
Qed.

Lemma operands_quiet : Forall quiet (operands_text ops).
Proof.
  assert (Forall quiet [32; 44]) as Hq by (repeat constructor; unfold quiet; lia).
  inversion Hq as [|? ? H32 H44]; subst. inversion H44 as [|? ? H44' _]; subst.
  assert (forall t, operand t -> Forall quiet t) as Ho
    by (intros t [_ H]; eapply Forall_impl; [exact H|apply name_char_quiet]).
  unfold operands_text. destruct Hops as [|a ? Ha [|b ? Hb _]]; repeat first [constructor | apply Forall_app_2]; auto.
Qed.

Lemma insn_line_last : exists c, last (insn_line mn ops) = Some c /\ name_char c = true.
Proof.
  destruct (operand_last mn mnemonic_operand) as (m & Hm & Hmc).
  unfold insn_line, operands_text. destruct Hops as [|a ? Ha [|b ? Hb _]].
  - exists m. rewrite app_nil_r. split; [by do 2 apply last_cons_some|done].
  - destruct (operand_last a Ha) as (c & Hc & Hn). exists c. split; [|done].
    do 2 apply last_cons_some. apply last_app_some. by apply last_cons_some.
  - destruct (operand_last b Hb) as (c & Hc & Hn). exists c. split; [|done].
    do 2 apply last_cons_some. apply last_app_some. apply last_cons_some, last_app_some. by do 2 apply last_cons_some.
Qed.

(** What stands behind the mnemonic, without the blank. *)
Definition behind : list Z := match ops with [] => [] | [a] => a | a :: b :: _ => a ++ 44 :: 32 :: b end.

Lemma behind_head c : head behind = Some c -> name_char c = true.
Proof.
  unfold behind. destruct Hops as [|a ? Ha [|b ? Hb _]]; [done|by apply operand_head|].
  destruct a as [|x a]; [by destruct Ha|]. intros [= ->]. destruct Ha as [_ Ha]. by inversion Ha.
Qed.

Lemma skip_operands : skip_ws (operands_text ops) = behind.
Proof.
  pose proof behind_head as Hh. unfold operands_text, behind in *. destruct ops as [|a [|b l]]; [done| |];
    rewrite skip_space; apply skip_ws_id; intros c Hc; by apply name_char_ws, Hh.
Qed.

Lemma split_behind n : Z.of_nat (length ops) <= 2 -> 2 <= n -> split_operands behind n = Ok ops.
Proof.
  intros Hl Hn. unfold behind. destruct Hops as [|a ? Ha [|b l Hb Hr]].
  - unfold split_operands. cbn. rewrite (proj2 (Z.ltb_ge _ _)) by lia. done.
  - apply split_one; [done|lia].
  - destruct l; [|cbn in Hl; lia]. by apply split_two.
Qed.

Lemma parse_insn_line img spec :
  img_section img = SEC_TEXT -> find_spec mn = Some spec -> Z.of_nat (length ops) = is_argc spec -> is_argc spec <= 2 ->
  parse_line img (insn_line mn ops) =
    (img' ← emit_byte img (is_opcode spec) ; each emit_operand img' (zip [is_a0 spec; is_a1 spec] ops)).
Proof.
  intros Hs Hf Hl Hc. pose proof mnemonic_operand as Hm. unfold parse_line.
  assert (Forall quiet (insn_line mn ops)) as Hq.
  { unfold insn_line. repeat first [constructor; [unfold quiet; lia|]]. apply Forall_app_2; [|apply operands_quiet].
    destruct Hm as [_ Hm]. eapply Forall_impl; [exact Hm|apply name_char_quiet]. }
  unfold strip_comment. rewrite (strip_comment_quiet 0 _ Hq).
  destruct insn_line_last as (c & Hlast & Hws). rewrite (rtrim_last _ c Hlast (name_char_ws _ Hws)).
  unfold insn_line. rewrite !skip_space.
  assert (exists x l, mn = x :: l /\ isupper x = true) as (x & l & Ex & Hx).
  { destruct mn as [|x l] eqn:E; [by destruct Hm|]. exists x, l. split; [done|].
    apply (mnemonic_char _ x Hmn). by left. }
  destruct (upper_name_start x Hx) as (Hx1 & Hx2 & Hx3 & Hx4).
  rewrite skip_ws_id by (rewrite Ex; intros d [= <-]; by apply name_char_ws).
  rewrite bool_decide_false by (rewrite Ex; done).
  assert (forall c, head (operands_text ops) = Some c -> c = 32) as H32.
  { intros d. unfold operands_text. destruct ops as [|? [|]]; cbn; congruence. }
  assert (Hlab : parse_labels (length (mn ++ operands_text ops)) img (mn ++ operands_text ops)
                 = Ok (img, mn ++ operands_text ops)).
  { destruct (length (mn ++ operands_text ops)) eqn:El; [done|]. cbn [parse_labels].
    assert (hd0 (mn ++ operands_text ops) = x) as -> by (by rewrite Ex). rewrite Hx1. cbn [negb].
    rewrite span_prefix by (first [apply Hm | intros d Hd; by rewrite (H32 d Hd)]).
    rewrite skip_operands. assert (hd0 behind =? 58 = false) as ->; [|done].
    apply Z.eqb_neq. pose proof behind_head as Hb. destruct behind as [|y z]; [done|].
    change (hd0 (y :: z)) with y. specialize (Hb y eq_refl). apply name_char_range in Hb. lia. }
  rewrite Hlab. cbn [mbind res_bind].
  rewrite bool_decide_false by (rewrite Ex; done).
  rewrite span_prefix; [| |intros d Hd; by rewrite (H32 d Hd)].
  2: { destruct Hm as [_ Hm]. eapply Forall_impl; [exact Hm|]. intros d Hd. cbn. apply name_char_range in Hd.
       rewrite (proj2 (Z.eqb_neq d 32)), (proj2 (Z.eqb_neq d 9)) by lia. done. }
  rewrite skip_operands.
  assert (uppercase mn = mn) as ->.
  { unfold uppercase. rewrite <- (list_fmap_id mn) at 2. apply list_fmap_ext. intros i d Hd.
    apply list_elem_of_lookup_2, (mnemonic_char _ _ Hmn), upper_name_start in Hd as (_ & _ & -> & _). done. }
  repeat rewrite bool_decide_false by (rewrite Ex; intros [= E _]; lia). cbn [orb].
  unfold parse_instruction. rewrite Hs. cbn [Z.eqb Pos.eqb SEC_TEXT negb]. rewrite Hf.
  rewrite split_behind by lia. cbn [mbind res_bind]. by rewrite Hl, Z.eqb_refl.
Qed.
End insn_line.
