(* ===== verification/AsmCode.v ===== *)
(** * AsmCode: assembly lines as code in memory

    [code_at] says that the bytes which the assembler makes of some lines lie at an
    address, with every symbol at the address that a map gives.  [runs] is execution of the
    processor up to a state with a property.  A line of compiled code at the program
    counter is one step of the processor. *)

From S2P Require Import Prelude Config Kernel Klog RawMem UserMem LibString LibFormat LibStringSpec LibNumberSpec GuestAsm GuestLink GuestObjSpec GuestAsmSpec Codegen Cpu AsmLines.

(** ** The bytes of a line *)

(** A word of a byte list replaced. *)
Definition patch (t : list Z) (o v : Z) : list Z :=
  take (Z.to_nat o) t ++ le_bytes32 v ++ drop (Z.to_nat (o + 4)) t.

(** The bytes of an image whose symbols have the addresses [rho]. *)
Definition resolved (rho : list Z -> Z) (img : AsmImage) : list Z :=
  fold_left (fun t r => patch t (rel_offset r) (rho (rel_name r) + rel_addend r)) (img_relocs img) (img_text img).

Definition line_bytes (rho : list Z -> Z) (l : line) : option (list Z) :=
  match parse_line empty_image l with
  | Ok img => if img_section img =? SEC_TEXT then Some (resolved rho img) else None
  | Err _ => None
  end.

(** The label that a line "name:" defines. *)
Definition label_line (l : line) : option (list Z) :=
  if bool_decide (last l = Some 58) then Some (removelast l) else None.

Section code.
(** The addresses of the symbols, and the memory that holds the code. *)
Context (rho : list Z -> Z) (rom : Z -> Z).

(** The lines lie at [a] and end at [b]. *)
Fixpoint code_at (a : Z) (ls : list line) (b : Z) : Prop :=
  match ls with
  | [] => a = b
  | l :: ls' =>
      match label_line l with
      | Some name => label_ok name = true /\ rho name = a /\ code_at a ls' b
      | None => exists bs, line_bytes rho l = Some bs /\ slice rom a (length bs) = bs /\ code_at (a + Z.of_nat (length bs)) ls' b
      end
  end.

Lemma code_at_app a b ls ls' : code_at a (ls ++ ls') b <-> exists m, code_at a ls m /\ code_at m ls' b.
Proof.
  revert a. induction ls as [|l ls IH]; intros a; cbn [app code_at].
  - split; [eauto|]. by intros (m & -> & H).
  - destruct (label_line l).
    + rewrite IH. split; [intros (H & H' & m & H1 & H2); eauto 6|]. intros (m & (H & H' & H1) & H2). eauto 6.
    + split.
      * intros (bs & E & Hs & H). apply IH in H as (m & H1 & H2). eauto 6.
      * intros (m & (bs & E & Hs & H1) & H2). exists bs. repeat split; [done..|]. apply IH. eauto.
Qed.

Lemma code_at_le a b ls : code_at a ls b -> a <= b.
Proof.
  revert a. induction ls as [|l ls IH]; intros a; cbn [code_at]; [lia|]. destruct (label_line l).
  - intros (_ & _ & H). eauto.
  - intros (bs & _ & _ & H). apply IH in H. lia.
Qed.

Lemma code_at_label a name ls b :
  code_at a ((name ++ str ":") :: ls) b -> label_ok name = true /\ rho name = a /\ code_at a ls b.
Proof.
  cbn [code_at]. assert (label_line (name ++ str ":") = Some name) as ->; [|done].
  unfold label_line. change (str ":") with [58]. rewrite last_snoc, bool_decide_true by done. by rewrite removelast_last.
Qed.
End code.

(** ** Operands and instructions *)

Inductive arg := AReg (r : Z) | AImm (n : Z) | ASym (name : list Z).

Definition arg_text (a : arg) : list Z :=
  match a with AReg r => reg_text r | AImm n => uint_text 32 n 10 0 | ASym s => s end.
Definition arg_ok (a : arg) : Prop :=
  match a with AReg r => 0 <= r < 8 | AImm n => 0 <= n < 2 ^ 32 | ASym s => label_ok s = true end.
Definition arg_fits (k : arg_kind) (a : arg) : bool :=
  match k, a with ARG_REG, AReg _ | ARG_IMM, (AImm _ | ASym _) | ARG_ADDR, (AImm _ | ASym _) => true | _, _ => false end.
Definition arg_bytes (rho : list Z -> Z) (a : arg) : list Z :=
  match a with AReg r => [r] | AImm n => le_bytes32 n | ASym s => le_bytes32 (rho s) end.

(** The image after an operand in the text section. *)
Definition arg_emit (img : AsmImage) (a : arg) : AsmImage :=
  match a with
  | AReg r => appended img [r]
  | AImm n => appended img (le_bytes32 n)
  | ASym s => appended (add_reloc img SEC_TEXT (Z.of_nat (length (img_text img))) s 0) (le_bytes32 0)
  end.

Lemma arg_operand a : arg_ok a -> operand (arg_text a).
Proof.
  destruct a; cbn; intros H; [by apply reg_text_operand|apply wru_operand; lia|by apply label_ok_operand].
Qed.

Lemma add_reloc_section img s o n a : img_section (add_reloc img s o n a) = img_section img.
Proof. unfold add_reloc, ensure_symbol. by case_match. Qed.

Lemma emit_operand_run img k a :
  img_section img = SEC_TEXT -> arg_ok a -> arg_fits k a = true -> emit_operand img (k, arg_text a) = Ok (arg_emit img a).
Proof.
  intros Hs Ha Hk. assert (Hb : img_section img <> SEC_BSS) by (rewrite Hs; done).
  assert (Hv : forall n, 0 <= n < 2 ^ 32 -> emit_value img (uint_text 32 n 10 0) = Ok (appended img (le_bytes32 n))).
  { intros n Hn. unfold emit_value. rewrite parse_uint_wru by done. by rewrite emit_word_run, word32_le. }
  assert (Hn : forall s, label_ok s = true -> emit_value img s = Ok (arg_emit img (ASym s))).
  { intros s Hn. unfold emit_value. rewrite parse_uint_name, Hs by done. cbn [Z.eqb Pos.eqb SEC_TEXT SEC_BSS].
    rewrite parse_symbol_ref_name by done. cbn [mbind res_bind]. unfold current_offset. rewrite Hs.
    rewrite emit_word_run, word32_le by (by rewrite add_reloc_section). done. }
  destruct k, a; try done; cbn [emit_operand fst snd arg_text]; auto.
  unfold emit_operand. cbn [fst snd]. cbn in Ha. rewrite parse_reg_text by done. cbn [mbind res_bind].
  rewrite emit_byte_run by done. cbn. change 255 with (Z.ones 8). by rewrite Z.land_ones, Z.mod_small by lia.
Qed.

Lemma arg_emit_section img a : img_section (arg_emit img a) = img_section img.
Proof.
  destruct a; cbn [arg_emit]; rewrite (proj1 (appended_fields _ _)); [done|done|]. apply add_reloc_section.
Qed.

(** A line of a mnemonic and operands that fit it. *)
Record insn_ok (mn : list Z) (spec : InsnSpec) (args : list arg) : Prop := {
  io_mnemonic : mnemonic mn = true;
  io_spec : find_spec mn = Some spec;
  io_args : Forall arg_ok args;
  io_count : Z.of_nat (length args) = is_argc spec;
  io_two : is_argc spec <= 2;
  io_opcode : 0 <= is_opcode spec < 256;
  io_fits : Forall2 (fun k a => arg_fits k a = true) (take (length args) [is_a0 spec; is_a1 spec]) args;
}.

Lemma parse_insn img mn spec args :
  insn_ok mn spec args -> img_section img = SEC_TEXT ->
  parse_line img (insn_line mn (arg_text <$> args)) = Ok (fold_left arg_emit args (appended img [is_opcode spec])).
Proof.
  intros [Hm Hf Ha Hc H2 Ho Hfit] Hs.
  rewrite (parse_insn_line mn (arg_text <$> args)) with (spec := spec); [|done| |done|done|by rewrite length_fmap|done].
  2: { apply Forall_fmap. eapply Forall_impl; [exact Ha|]. intros a. apply arg_operand. }
  rewrite emit_byte_run by (by rewrite Hs). cbn [mbind res_bind].
  change 255 with (Z.ones 8). rewrite Z.land_ones, Z.mod_small by lia.
  assert (img_section (appended img [is_opcode spec]) = SEC_TEXT) as Hs1 by (rewrite (proj1 (appended_fields _ _)); done).
  destruct args as [|a [|b [|]]]; [done| | |cbn in Hc; lia]; inversion Ha as [|? ? Ha1 Hb]; subst;
    inversion Hfit as [|? ? ? ? Hk Hfit']; subst; cbn [fmap list_fmap zip zip_with each fold_left].
  - rewrite emit_operand_run by done. done.
  - inversion Hb; subst. inversion Hfit' as [|? ? ? ? Hk']; subst.
    rewrite emit_operand_run by done. cbn [mbind res_bind].
    rewrite emit_operand_run by (first [done | by rewrite arg_emit_section]). done.
Qed.

Lemma le_bytes32_length v : length (le_bytes32 v) = 4%nat.
Proof. done. Qed.

(** A symbol can only be the last operand. *)
Definition sym_last (args : list arg) : bool :=
  match args with [ASym _; _] => false | _ => true end.

Lemma patch_end t v w : patch (t ++ le_bytes32 v) (Z.of_nat (length t)) w = t ++ le_bytes32 w.
Proof.
  unfold patch. rewrite Nat2Z.id, take_app_length. do 2 f_equal.
  replace (Z.to_nat (Z.of_nat (length t) + 4)) with (length t + 4)%nat by lia.
  rewrite drop_app_ge by lia. by replace (length t + 4 - length t)%nat with 4%nat by lia.
Qed.

Lemma line_bytes_insn rho mn spec args :
  insn_ok mn spec args -> sym_last args = true ->
  line_bytes rho (insn_line mn (arg_text <$> args)) = Some (is_opcode spec :: concat (arg_bytes rho <$> args)).
Proof.
  intros H Hl. unfold line_bytes. rewrite (parse_insn empty_image _ _ _ H) by done.
  pose proof (io_count _ _ _ H) as Hc. pose proof (io_two _ _ _ H) as H2.
  destruct args as [|a [|b [|]]]; [done| | |cbn in Hc; lia]; cbn [fold_left].
  - destruct a; [done..|]. unfold resolved. cbn. by rewrite Z.add_0_r.
  - destruct a as [r|n|s]; [| |done].
    + destruct b; [done..|]. unfold resolved. cbn. by rewrite Z.add_0_r.
    + exfalso. pose proof (io_fits _ _ _ H) as Hf. inversion Hf as [|? ? ? ? Hk]; subst.
      pose proof (io_spec _ _ _ H) as Hs. unfold find_spec in Hs. apply find_some in Hs as [Hin _].
      repeat (destruct Hin as [<-|Hin]; [done|]). done.
Qed.

(** ** Reading a line *)

Definition arg_wk (a : arg) : ArgKind := match a with AReg _ => REG | _ => WORD end.
Definition arg_value (rho : list Z -> Z) (a : arg) : Z :=
  match a with AReg r => r | AImm n => n | ASym s => u32 (rho s) end.

(** The line is the unprivileged instruction [op] with these operands. *)
Definition reads (l : line) (op : Z) (args : list arg) : Prop :=
  exists mn spec, l = insn_line mn (arg_text <$> args) /\ insn_ok mn spec args /\ sym_last args = true /\
    is_opcode spec = op /\ opcode_args op = Some (arg_wk <$> args, false).

Definition arg_okb (a : arg) : bool :=
  match a with
  | AReg r => (0 <=? r) && (r <? 8)
  | AImm n => (0 <=? n) && (n <? 2 ^ 32)
  | ASym s => label_ok s
  end.

Lemma arg_okb_ok a : arg_okb a = true -> arg_ok a.
Proof. destruct a; cbn; intros H; bool_hyps; lia || done. Qed.

#[export] Instance ArgKind_eq_dec : EqDecision ArgKind.
Proof. solve_decision. Defined.

(** Is the line [mn] with these operands, an instruction that the processor decodes? *)
Definition readsb (l : line) (mn : list Z) (spec : InsnSpec) (args : list arg) : bool :=
  bool_decide (l = insn_line mn (arg_text <$> args)) && mnemonic mn && forallb arg_okb args &&
  (Z.of_nat (length args) =? is_argc spec) && (is_argc spec <=? 2) && (0 <=? is_opcode spec) && (is_opcode spec <? 256) &&
  forallb (fun ka => arg_fits ka.1 ka.2) (zip [is_a0 spec; is_a1 spec] args) && sym_last args &&
  match opcode_args (is_opcode spec) with Some (ks, p) => bool_decide (ks = arg_wk <$> args) && negb p | None => false end.

Lemma readsb_reads l mn spec args :
  find_spec mn = Some spec -> readsb l mn spec args = true -> reads l (is_opcode spec) args.
Proof.
  unfold readsb. intros Hf H. bool_hyps.
  match goal with H : bool_decide (l = _) = true |- _ => apply bool_decide_eq_true in H as -> end.
  destruct (opcode_args (is_opcode spec)) as [[ks p]|] eqn:Eo; [|done].
  bool_hyps. subst.
  match goal with H : bool_decide (ks = _) = true |- _ => apply bool_decide_eq_true in H as -> end.
  exists mn, spec. repeat split; try done; try lia.
  - apply Forall_forall. intros a Ha. apply arg_okb_ok.
    match goal with H : forallb arg_okb _ = true |- _ => rewrite forallb_forall in H; by apply H, list_elem_of_In end.
  - match goal with H : forallb _ (zip _ _) = true |- _ => rename H into Hz end.
    destruct args as [|a [|b [|]]]; [constructor| | |cbn in *; lia]; cbn in *; bool_hyps; repeat constructor; done.
Qed.

(** The operands of a line, read by the assembler's own functions. *)
Definition read_arg (k : arg_kind) (t : list Z) : arg :=
  match k with
  | ARG_REG => match parse_reg t with Ok r => AReg r | Err _ => ASym t end
  | _ => match parse_uint t with Some n => AImm n | None => ASym t end
  end.

Definition decode (l : line) : option (Z * list arg) :=
  let '(mn, rest) := span (fun c => negb (c =? 32)) (drop 2 l) in
  spec ← find_spec mn ;
  match split_operands (skip_ws rest) 4 with
  | Ok ops =>
      let args := (fun ko => read_arg ko.1 ko.2) <$> zip [is_a0 spec; is_a1 spec] ops in
      if readsb l mn spec args then Some (is_opcode spec, args) else None
  | Err _ => None
  end.

Lemma decode_reads l op args : decode l = Some (op, args) -> reads l op args.
Proof.
  unfold decode. destruct (span _ _) as [mn rest]. destruct (find_spec mn) as [spec|] eqn:Ef; [|done].
  cbn [mbind option_bind]. destruct (split_operands _ _) as [ops|]; [|done].
  case_match eqn:Er; [|done]. intros [= <- <-]. by apply (readsb_reads l mn).
Qed.

(** ** Lines that are not constant *)

Section open_lines.
Context (mn : list Z) (spec : InsnSpec).
Context (Hmn : mnemonic mn = true) (Hspec : find_spec mn = Some spec) (Hop : 0 <= is_opcode spec < 256).
#[local] Set Default Proof Using "Type*".

Lemma reads_two r a l :
  is_argc spec = 2 -> is_a0 spec = ARG_REG -> arg_fits (is_a1 spec) a = true -> 0 <= r < 8 -> arg_ok a ->
  opcode_args (is_opcode spec) = Some ([REG; arg_wk a], false) ->
  l = 32 :: 32 :: mn ++ 32 :: reg_text r ++ 44 :: 32 :: arg_text a ->
  reads l (is_opcode spec) [AReg r; a].
Proof.
  intros Hc H0 H1 Hr Ha Ho ->. exists mn, spec. repeat split; try done; try lia.
  - by apply List.Forall_cons; [|apply List.Forall_cons; [|apply List.Forall_nil]].
  - cbn. rewrite H0. apply List.Forall2_cons; [done|]. by apply List.Forall2_cons; [|apply List.Forall2_nil].
Qed.

Lemma reads_one a l :
  is_argc spec = 1 -> arg_fits (is_a0 spec) a = true -> arg_ok a ->
  opcode_args (is_opcode spec) = Some ([arg_wk a], false) ->
  l = 32 :: 32 :: mn ++ 32 :: arg_text a ->
  reads l (is_opcode spec) [a].
Proof.
  intros Hc H0 Ha Ho ->. exists mn, spec. repeat split; try done; try lia.
  - by apply List.Forall_cons; [|apply List.Forall_nil].
  - cbn. by apply List.Forall2_cons; [|apply List.Forall2_nil].
  - by destruct a.
Qed.
End open_lines.

(** [MOV] of a constant or an address into a register, and the jumps. *)
Lemma reads_mov r a : 0 <= r < 8 -> arg_ok a -> (forall r, a <> AReg r) ->
  reads (32 :: 32 :: str "MOV" ++ 32 :: reg_text r ++ 44 :: 32 :: arg_text a) 1 [AReg r; a].
Proof.
  intros Hr Ha Hn. apply (reads_two (str "MOV") (Build_InsnSpec "MOV" 0x01 2 ARG_REG ARG_IMM)); try done.
  - by destruct a as [k| |]; [destruct (Hn k)| |].
  - by destruct a as [k| |]; [destruct (Hn k)| |].
Qed.

Definition jump_ops : list (string * Z) :=
  [("JMP", 0x20); ("JZ", 0x21); ("JNZ", 0x22); ("JL", 0x25); ("JLE", 0x26); ("CALL", 0x27); ("JB", 0x2c); ("JBE", 0x2d)]%string.

Lemma reads_jump op opc name : List.In (op, opc) jump_ops -> label_ok name = true ->
  reads (str "  " ++ str op ++ str " " ++ name) opc [ASym name].
Proof.
  intros H Hn.
  assert (forall spec, find_spec (str op) = Some spec -> mnemonic (str op) = true -> 0 <= is_opcode spec < 256 ->
    is_argc spec = 1 -> is_a0 spec = ARG_ADDR -> opcode_args (is_opcode spec) = Some ([WORD], false) ->
    reads (32 :: 32 :: str op ++ 32 :: name) (is_opcode spec) [ASym name]) as Hg.
  { intros spec Hs Hm Ho Hc Ha Hk. apply (reads_one (str op) spec); try done. by rewrite Ha. }
  repeat (destruct H as [[= <- <-]|H]; [eapply (Hg _ eq_refl); (reflexivity || (cbn; lia))|]). done.
Qed.

Lemma reads_ins_imm r n : 0 <= r < 8 -> 0 <= n < 2 ^ 32 ->
  reads (str "  " ++ (str "MOV " ++ reg_text r) ++ str ", " ++ wru n) 1 [AReg r; AImm n].
Proof. intros Hr Hn. by apply (reads_mov r (AImm n)). Qed.

Lemma reads_ins_sym r name : 0 <= r < 8 -> label_ok name = true ->
  reads (str "  " ++ (str "MOV " ++ reg_text r) ++ str ", " ++ name) 1 [AReg r; ASym name].
Proof. intros Hr Hn. by apply (reads_mov r (ASym name)). Qed.

(** ** One step *)

Lemma reads_bytes rho l op args : reads l op args -> line_bytes rho l = Some (op :: concat (arg_bytes rho <$> args)).
Proof. intros (mn & spec & -> & Hi & Hl & <- & _). by apply line_bytes_insn. Qed.

(** An instruction is not a label. *)
Lemma reads_not_label l op args : reads l op args -> label_line l = None.
Proof.
  intros (mn & spec & -> & Hi & _). unfold label_line.
  destruct (insn_line_last mn (arg_text <$> args) (io_mnemonic _ _ _ Hi)) as (c & Hc & Hn).
  { apply Forall_fmap. eapply Forall_impl; [apply (io_args _ _ _ Hi)|]. intros a. apply arg_operand. }
  apply name_char_range in Hn. rewrite Hc, bool_decide_false by (intros [= ?]; lia). done.
Qed.

Section machine.
(** The memory of the processor, and the addresses of its code. *)
Context (size : Z) (rho : list Z -> Z) (rom : Z -> Z) (cs ce : Z).
Context (Hcs : 0 <= cs) (Hce : ce <= size).
#[local] Set Default Proof Using "Type*".

Definition in_rom (m : cpu) : Prop := forall a, cs <= a < ce -> mem m a = rom a.

Lemma slice_app_inv f a (l l' : list Z) :
  slice f a (length (l ++ l')) = l ++ l' -> slice f a (length l) = l /\ slice f (a + Z.of_nat (length l)) (length l') = l'.
Proof using. rewrite length_app, slice_app. intros H. apply app_inj_1 in H; [done|]. apply slice_length. Qed.

Lemma fetch_run m a at_ :
  in_rom m -> arg_ok a -> cs <= at_ -> at_ + Z.of_nat (length (arg_bytes rho a)) <= ce ->
  slice rom at_ (length (arg_bytes rho a)) = arg_bytes rho a ->
  fetch_arg size m (arg_wk a) at_ = inr (arg_value rho a, at_ + Z.of_nat (length (arg_bytes rho a))).
Proof.
  intros Hm Ha H1 H2 Hs.
  assert (forall v, arg_bytes rho a = le_bytes32 v -> rd32 size m at_ = Some (u32 v)) as Hw.
  { intros v Ev. rewrite Ev in *. cbn in H2. unfold rd32, xlate. rewrite (proj2 (Z.leb_le _ _)), (proj2 (Z.leb_le _ _)) by lia.
    cbn [andb]. f_equal. cbn [length le_bytes32] in Hs. rewrite !slice_S in Hs. injection Hs as E0 E1 E2 E3.
    unfold pread32. rewrite !Hm by lia. replace (at_ + 2) with (at_ + 1 + 1) by lia.
    replace (at_ + 3) with (at_ + 1 + 1 + 1) by lia. rewrite E0, E1, E2, E3, le_bytes32_sum.
    apply u32_i32. }
  destruct a as [r|n|s]; cbn [arg_wk fetch_arg arg_value].
  - cbn in *. unfold rd8, xlate. rewrite (proj2 (Z.leb_le _ _)), (proj2 (Z.leb_le _ _)) by lia. cbn [andb].
    rewrite slice_S in Hs. injection Hs as Hs. rewrite Hm, Hs by lia. by rewrite (proj2 (Z.leb_gt _ _)) by lia.
  - rewrite (Hw n) by done. cbn in Ha. by rewrite u32_small by lia.
  - by rewrite (Hw (rho s)).
Qed.

(** What an instruction does, with the values of its operands. *)
Definition exec_args (op : Z) (vs : list Z) (m : cpu) : RunResult :=
  match vs with
  | [] => execute size op 0 0 m
  | [a] => execute size op a 0 m
  | a :: b :: _ => execute size op a b m
  end.

Definition args_len (args : list arg) : Z :=
  match args with
  | [] => 1
  | [a] => 1 + Z.of_nat (length (arg_bytes rho a))
  | a :: b :: _ => 1 + Z.of_nat (length (arg_bytes rho a)) + Z.of_nat (length (arg_bytes rho b))
  end.

Lemma step_reads m l ls e op args :
  in_rom m -> reads l op args -> code_at rho rom (pc m) (l :: ls) e -> cs <= pc m -> e <= ce ->
  step size m = exec_args op (arg_value rho <$> args) (goto (pc m + args_len args) m) /\
  code_at rho rom (pc m + args_len args) ls e.
Proof.
  intros Hm Hr Hc H1 H2. cbn [code_at] in Hc. rewrite (reads_not_label _ _ _ Hr) in Hc.
  destruct Hc as (bs & Eb & Hs & Hc). rewrite (reads_bytes rho _ _ _ Hr) in Eb. injection Eb as <-.
  pose proof (code_at_le _ _ _ _ _ Hc) as Hle.
  destruct Hr as (mn & spec & _ & Hi & _ & Eop & Ho).
  pose proof (io_count _ _ _ Hi) as Hn. pose proof (io_two _ _ _ Hi) as Hn2. pose proof (io_args _ _ _ Hi) as Ha.
  assert (Hlen : Z.of_nat (length (op :: concat (arg_bytes rho <$> args))) = args_len args).
  { destruct args as [|a [|b [|]]]; cbn [fmap list_fmap concat length args_len]; rewrite ?length_app; cbn in *; lia. }
  split; [|by rewrite <- Hlen]. rewrite Hlen in *.
  unfold step. unfold rd8, xlate at 1.
  assert (1 <= args_len args) by (destruct args as [|a [|b ?]]; cbn [args_len]; lia).
  rewrite (proj2 (Z.leb_le _ _)), (proj2 (Z.leb_le _ _)) by lia. cbn [andb].
  apply (slice_app_inv _ _ [op]) in Hs as [Hop Hs]. cbn in Hop. injection Hop as Hop. rewrite Z.add_0_r in Hop.
  rewrite Hm, Hop, Ho by lia. change (Z.of_nat (length [op])) with 1 in Hs.
  destruct args as [|a [|b [|]]]; [done| | |cbn in Hn; lia]; cbn [fmap list_fmap concat args_len exec_args] in *.
  - rewrite app_nil_r in Hs. inversion Ha; subst. rewrite fetch_run by (done || lia).
    by rewrite Z.add_assoc.
  - inversion Ha as [|? ? Ha1 Ha']; subst. inversion Ha'; subst. rewrite app_nil_r in Hs.
    apply slice_app_inv in Hs as [Hs1 Hs2].
    rewrite fetch_run by (done || lia). rewrite fetch_run by (done || lia). by rewrite !Z.add_assoc.
Qed.

(** ** Runs *)

(** Some number of instructions leads to a state with [Q]. *)
Definition runs (m : cpu) (Q : cpu -> Prop) : Prop := exists n m', steps size n m = Some m' /\ Q m'.

Lemma runs_here m (Q : cpu -> Prop) : Q m -> runs m Q.
Proof using. intros H. by exists 0%nat, m. Qed.

Lemma steps_app n n' m : steps size (n + n') m = (m' ← steps size n m ; steps size n' m').
Proof using. revert m. induction n as [|n IH]; intros m; [done|]. cbn. destruct (step size m); [apply IH|done..]. Qed.

Lemma runs_trans m (Q Q' : cpu -> Prop) : runs m Q -> (forall m', Q m' -> runs m' Q') -> runs m Q'.
Proof using.
  intros (n & m1 & E1 & H1) H. destruct (H m1 H1) as (n' & m2 & E2 & H2).
  exists (n + n')%nat, m2. rewrite steps_app, E1. done.
Qed.

Lemma runs_mono m (Q Q' : cpu -> Prop) : runs m Q -> (forall m', Q m' -> Q' m') -> runs m Q'.
Proof using. intros H1 H2. eapply runs_trans; [exact H1|]. intros m' H. by apply runs_here, H2. Qed.

Lemma runs_step m m' Q : step size m = Next m' -> runs m' Q -> runs m Q.
Proof using. intros E (n & m2 & E2 & H). exists (S n), m2. cbn. by rewrite E. Qed.

(** The rule of symbolic execution. *)
Lemma runs_insn m l ls e op args m' Q :
  reads l op args -> in_rom m -> code_at rho rom (pc m) (l :: ls) e -> cs <= pc m -> e <= ce ->
  exec_args op (arg_value rho <$> args) (goto (pc m + args_len args) m) = Next m' ->
  (code_at rho rom (pc m + args_len args) ls e -> runs m' Q) -> runs m Q.
Proof.
  intros Hr Hm Hc H1 H2 He HQ. destruct (step_reads m l ls e op args) as [Es Hc']; try done.
  eapply runs_step; [by rewrite Es|auto].
Qed.
End machine.
