(* ===== verification/AsmLoad.v ===== *)
(** * AsmLoad: assembled and linked lines are code in memory

    Everything that the assembler does to an image leaves what is there: bytes,
    relocations and defined symbols only grow.  So the lines of a module's text are, in
    the executable that the linker makes of its image, the code that [code_at] speaks of,
    at the addresses that its symbols have. *)

From S2P Require Import Prelude Config Kernel Klog RawMem UserMem LibString LibFormat LibStringSpec LibNumberSpec GuestAsm GuestLink GuestObjSpec GuestAsmSpec GuestLinkSpec Codegen Cpu AsmLines AsmCode.

(** ** Images grow *)

(** The image defines the symbol, at this place. *)
Definition defines (img : AsmImage) (name : list Z) (section offset : Z) : Prop :=
  exists i sym, img_symbols img !! i = Some sym /\ sym_name sym = name /\ sym_section sym = section /\ sym_offset sym = offset.

Record grows (img img' : AsmImage) : Prop := {
  gr_text : exists bs, img_text img' = img_text img ++ bs;
  gr_relocs : exists rs, img_relocs img' = img_relocs img ++ rs /\
    Forall (fun r => rel_section r = SEC_TEXT -> text_size img <= rel_offset r) rs;
  gr_symbols : forall name section offset, section <> 0 -> defines img name section offset -> defines img' name section offset;
}.

Lemma grows_refl img : grows img img.
Proof. split; [exists []|exists []|done]; rewrite app_nil_r; [done|]. split; [done|apply List.Forall_nil]. Qed.

Lemma grows_size img img' : grows img img' -> text_size img <= text_size img'.
Proof. intros [[bs E] _ _]. unfold text_size. rewrite E, length_app. lia. Qed.

Lemma grows_trans i1 i2 i3 : grows i1 i2 -> grows i2 i3 -> grows i1 i3.
Proof.
  intros G1 G2. pose proof (grows_size _ _ G1) as Hs. destruct G1 as [[b1 T1] [r1 [R1 F1]] S1], G2 as [[b2 T2] [r2 [R2 F2]] S2]. split.
  - exists (b1 ++ b2). by rewrite T2, T1, app_assoc.
  - exists (r1 ++ r2). split; [by rewrite R2, R1, app_assoc|]. apply Forall_app_2; [done|].
    eapply Forall_impl; [exact F2|]. intros r H Hr. specialize (H Hr). lia.
  - auto.
Qed.

(** Changes that leave text, relocations and symbols. *)
Lemma grows_same img img' :
  img_text img' = img_text img -> img_relocs img' = img_relocs img -> img_symbols img' = img_symbols img -> grows img img'.
Proof.
  intros T R S. split; [exists []|exists []|]; rewrite ?app_nil_r; [done|split; [done|apply List.Forall_nil]|].
  intros name sec off _ (i & sym & H & H'). exists i, sym. by rewrite S.
Qed.

Lemma grows_text img img' bs :
  img_text img' = img_text img ++ bs -> img_relocs img' = img_relocs img -> img_symbols img' = img_symbols img -> grows img img'.
Proof.
  intros T R S. split; [by exists bs|exists []|]; [rewrite app_nil_r; split; [done|apply List.Forall_nil]|].
  intros name sec off _ (i & sym & H & H'). exists i, sym. by rewrite S.
Qed.

Lemma grows_appended img bs : grows img (appended img bs).
Proof.
  destruct (appended_fields img bs) as (_ & S & R & _). pose proof (appended_text img bs) as T.
  destruct (img_section img =? SEC_TEXT); [by apply (grows_text _ _ bs)|by apply grows_same].
Qed.

Lemma grows_emit_byte img v img' : emit_byte img v = Ok img' -> grows img img'.
Proof.
  intros E. destruct (decide (img_section img = SEC_BSS)) as [Hb|Hb]; [by rewrite emit_byte_bss in E|].
  rewrite emit_byte_run in E by done. injection E as <-. apply grows_appended.
Qed.

Lemma grows_emit_word img v img' : emit_word_raw img v = Ok img' -> grows img img'.
Proof.
  intros E. destruct (decide (img_section img = SEC_BSS)) as [Hb|Hb].
  - unfold emit_word_raw in E. by rewrite emit_byte_bss in E.
  - rewrite emit_word_run in E by done. injection E as <-. apply grows_appended.
Qed.

Lemma grows_reserve img n img' : reserve_bytes img n = Ok img' -> grows img img'.
Proof.
  unfold reserve_bytes. destruct (n <? 0); [done|]. intros [= <-].
  destruct (img_section img =? SEC_BSS); [by apply grows_same|]. destruct (img_section img =? SEC_TEXT).
  - by apply (grows_text _ _ (replicate (Z.to_nat n) 0)).
  - by apply grows_same.
Qed.

(** The symbol table: new entries at the end, entries that are not defined yet change. *)
Lemma grows_symbols img f :
  (forall i sym, img_symbols img !! i = Some sym -> sym_section sym <> 0 ->
     exists sym', f (img_symbols img) !! i = Some sym' /\ sym_name sym' = sym_name sym /\ sym_section sym' = sym_section sym /\ sym_offset sym' = sym_offset sym) ->
  grows img (img <| img_symbols ::= f |>).
Proof.
  intros H. split; [exists []|exists []|]; rewrite ?app_nil_r; [done|split; [done|apply List.Forall_nil]|].
  intros name sec off Hs (i & sym & Hi & <- & <- & <-). destruct (H i sym Hi Hs) as (sym' & Hi' & E1 & E2 & E3).
  exists i, sym'. by rewrite E1, E2, E3.
Qed.

Lemma grows_ensure img name : grows img (ensure_symbol img name).1.
Proof.
  unfold ensure_symbol. case_match; [apply grows_refl|]. cbn [fst]. apply grows_symbols. intros i sym Hi _.
  exists sym. split; [|done]. by apply lookup_app_l_Some.
Qed.

Lemma grows_define img name img' : define_symbol img name = Ok img' -> grows img img'.
Proof.
  unfold define_symbol. pose proof (grows_ensure img name) as G. destruct (ensure_symbol img name) as [img1 i]. cbn [fst] in G.
  destruct (negb _) eqn:Ed; [done|]. intros [= <-]. eapply grows_trans; [exact G|]. apply grows_symbols. intros j sym Hj Hs.
  destruct (decide (i = j)) as [<-|Hne]; [|exists sym; by rewrite list_lookup_alter_ne].
  exfalso. apply negb_false_iff, Z.eqb_eq in Ed. unfold symbol_at in Ed. by rewrite (nth_lookup_Some _ _ _ _ Hj) in Ed.
Qed.

Lemma grows_global img name : grows img (mark_global img name).
Proof.
  unfold mark_global. pose proof (grows_ensure img name) as G. destruct (ensure_symbol img name) as [img1 i]. cbn [fst] in G.
  eapply grows_trans; [exact G|]. apply grows_symbols. intros j sym Hj Hs.
  destruct (decide (i = j)) as [<-|Hne]; [|exists sym; by rewrite list_lookup_alter_ne].
  exists (sym <| sym_global := 1 |>). by rewrite list_lookup_alter_eq, Hj.
Qed.

Lemma grows_reloc img section offset name addend :
  (section = SEC_TEXT -> text_size img <= offset) -> grows img (add_reloc img section offset name addend).
Proof.
  intros H. unfold add_reloc. eapply grows_trans; [|apply grows_ensure].
  split; [exists []; by rewrite app_nil_r|eexists; split; [done|]|].
  - by apply List.Forall_cons; [|apply List.Forall_nil].
  - by intros n s o _ Hd.
Qed.

Lemma grows_emit_value img s img' : emit_value img s = Ok img' -> grows img img'.
Proof.
  unfold emit_value. destruct (parse_uint s); [apply grows_emit_word|]. destruct (img_section img =? SEC_BSS); [done|].
  destruct (parse_symbol_ref s) as [[name addend]|]; [|done]. cbn [mbind res_bind]. intros E.
  eapply grows_trans; [|by eapply grows_emit_word]. apply grows_reloc. intros Es. unfold current_offset. rewrite Es. cbn.
  unfold text_size. lia.
Qed.

Lemma grows_each {A} f (ops : list A) : (forall img o img', f img o = Ok img' -> grows img img') ->
  forall img img', each f img ops = Ok img' -> grows img img'.
Proof.
  intros Hf. induction ops as [|o ops IH]; intros img img' E; [injection E as <-; apply grows_refl|].
  cbn [each] in E. destruct (f img o) as [img1|] eqn:E1; [|done]. eapply grows_trans; [by eapply Hf|by apply IH].
Qed.

Lemma grows_labels fuel : forall img p img' p', parse_labels fuel img p = Ok (img', p') -> grows img img'.
Proof.
  induction fuel as [|fuel IH]; intros img p img' p' E; [injection E as <- <-; apply grows_refl|]. cbn [parse_labels] in E.
  destruct (negb _); [injection E as <- <-; apply grows_refl|]. destruct (span _ _) as [name q].
  destruct (negb _); [injection E as <- <-; apply grows_refl|]. destruct (define_symbol img name) as [img1|] eqn:Ed; [|done].
  cbn [mbind res_bind] in E. pose proof (grows_define _ _ _ Ed) as G. case_bool_decide; [by injection E as <- <-|].
  eapply grows_trans; [exact G|by eapply IH].
Qed.

Lemma grows_line img line img' : parse_line img line = Ok img' -> grows img img'.
Proof.
  unfold parse_line. case_bool_decide; [intros [= <-]; apply grows_refl|].
  destruct (parse_labels _ _ _) as [[img1 p]|] eqn:El; [|done]. cbn [mbind res_bind]. pose proof (grows_labels _ _ _ _ _ El) as G.
  case_bool_decide; [by intros [= <-]|]. destruct (span _ p) as [head rest]. intros E. eapply grows_trans; [exact G|]. clear G El.
  do 3 (case_match; [injection E as <-; by apply grows_same|]).
  case_match; [unfold parse_global in E; destruct (split_operands _ _) as [ops|]; [|done]; injection E as <-|].
  { clear. revert img1. induction ops as [|o ops IH]; intros img1; [apply grows_refl|].
    cbn [fold_left]. eapply grows_trans; [apply grows_global|apply IH]. }
  case_match; [unfold parse_byte_directive in E; destruct (split_operands _ _) as [ops|]; [|done]|].
  { eapply grows_each; [|exact E]. intros img2 o img3. cbn beta. destruct (parse_uint o); [|done]. apply grows_emit_byte. }
  case_match; [unfold parse_word_directive in E; destruct (split_operands _ _) as [ops|]; [|done]|].
  { eapply grows_each; [|exact E]. apply grows_emit_value. }
  case_match; [destruct (parse_uint _); [|done]; by eapply grows_reserve|].
  unfold parse_instruction in E. case_match; [done|]. destruct (find_spec _) as [spec|]; [|done].
  destruct (split_operands _ _) as [ops|]; [|done]. cbn [mbind res_bind] in E. case_match; [done|].
  destruct (emit_byte img1 _) as [img2|] eqn:E2; [|done]. eapply grows_trans; [by eapply grows_emit_byte|].
  eapply grows_each; [|exact E]. intros img3 [k o] img4. unfold emit_operand. cbn [fst snd].
  destruct k; try apply grows_emit_value. destruct (parse_reg o); [|done]. apply grows_emit_byte.
Qed.

(** ** Lines of code *)

Lemma colon_quiet name : label_ok name = true -> Forall quiet (name ++ str ":").
Proof.
  intros H. apply Forall_app_2.
  - eapply Forall_impl; [by apply label_ok_chars|apply name_char_quiet].
  - change (str ":") with [58]. apply List.Forall_cons; [unfold quiet; lia|apply List.Forall_nil].
Qed.

Lemma parse_label_line img name : label_ok name = true -> parse_line img (name ++ str ":") = define_symbol img name.
Proof.
  intros H. pose proof (label_ok_chars name H) as Hc. unfold parse_line, strip_comment.
  rewrite (strip_comment_quiet 0 _ (colon_quiet name H)). change (str ":") with [58]. rewrite (rtrim_last _ 58) by (by rewrite ?last_snoc).
  assert (exists c l, name = c :: l /\ name_start c = true) as (c & l & En & Hs).
  { destruct name as [|c l]; [done|]. cbn in H. bool_hyps. by exists c, l. }
  assert (Hsk : skip_ws (name ++ [58]) = name ++ [58]).
  { apply skip_ws_id. rewrite En. intros d [= <-]. rewrite En in Hc. inversion Hc. by apply name_char_ws. }
  rewrite Hsk. rewrite bool_decide_false by (rewrite En; done).
  destruct (length (name ++ [58])) eqn:El; [by rewrite En in El|]. cbn [parse_labels].
  assert (hd0 (name ++ [58]) = c) as -> by (by rewrite En). rewrite Hs. cbn [negb].
  rewrite span_prefix; [|done|by intros d [= <-]].
  change (skip_ws [58]) with [58]. cbn [hd0 nthz negb Z.eqb Pos.eqb].
  change (negb (hd0 [58] =? 58)) with false. cbv iota.
  destruct (define_symbol img name) as [img'|]; [|done]. cbn [mbind res_bind].
  change (skip_ws (tail [58])) with (@nil Z). by rewrite bool_decide_true.
Qed.

(** A label or an instruction. *)
Definition code_line (l : line) : Prop :=
  (exists name, label_ok name = true /\ l = name ++ str ":") \/ exists op args, reads l op args.

(** Relocations of the text lie inside of it. *)
Definition relocs_in (img : AsmImage) : Prop :=
  Forall (fun r => rel_section r = SEC_TEXT -> rel_offset r + 4 <= text_size img) (img_relocs img).

Section load.
(** A module in an executable, the memory it is loaded to, and the symbols' addresses. *)
Context (ps : list placed) (out : list Z) (p : placed) (rho : list Z -> Z) (rom : Z -> Z).
Local Abbreviation img := (pl_image p).
Local Abbreviation base := (pl_text p).
Context (Hload : GuestLinkSpec.loaded ps out p SEC_TEXT) (Hok : image_ok img) (Hbase : 0 <= base /\ base + text_size img < 2 ^ 31).
Context (Hrom : forall k, 0 <= k < text_size img -> rom (base + k) = nthz out (file_pos p SEC_TEXT + k)).
Context (Hrho : forall name a, resolves ps p name a -> rho name = a).
#[local] Set Default Proof Using "Type*".

Lemma text_prefix i k : grows i img -> 0 <= k < text_size i -> nthz (img_text img) k = nthz (img_text i) k.
Proof using.
  intros [[bs E] _ _] Hk. rewrite E. by apply nthz_left.
Qed.

Lemma slice_eq f a (bs : list Z) : (forall k, 0 <= k < Z.of_nat (length bs) -> f (a + k) = nthz bs k) -> slice f a (length bs) = bs.
Proof using.
  revert a. induction bs as [|b bs IH]; intros a H; [done|]. cbn [length]. rewrite slice_S. f_equal.
  - rewrite <- (Z.add_0_r a). rewrite (H 0); [done|]. cbn. lia.
  - apply IH. intros k Hk. replace (a + 1 + k) with (a + (k + 1)) by lia. rewrite H by (cbn; lia).
    apply nthz_S. lia.
Qed.

(** Bytes without relocations. *)
Lemma load_plain i i' bs :
  img_text i' = img_text i ++ bs -> img_relocs i' = img_relocs i -> relocs_in i -> grows i' img ->
  slice rom (base + text_size i) (length bs) = bs.
Proof.
  intros Ht Hr Hin G. pose proof (grows_size _ _ G) as Hs. unfold relocs_in in Hin. rewrite Forall_forall in Hin.
  assert (Hsize : text_size i' = text_size i + Z.of_nat (length bs)) by (unfold text_size; rewrite Ht, length_app; lia).
  assert (0 <= text_size i) by (unfold text_size; lia).
  apply slice_eq. intros k Hk. replace (base + text_size i + k) with (base + (text_size i + k)) by lia. rewrite Hrom by lia.
  destruct Hload as [Hplain _]. rewrite Hplain; [|cbn; unfold section_size; cbn; lia|].
  - change (section_bytes img SEC_TEXT) with (img_text img). rewrite (text_prefix i') by (done || lia). rewrite Ht.
    apply nthz_right. lia.
  - intros rel Hrel Hsec Hcov. destruct (gr_relocs _ _ G) as (rs & E & Hrs). rewrite E, Hr in Hrel.
    apply elem_of_app in Hrel as [Hrel|Hrel]; [specialize (Hin rel Hrel Hsec); lia|].
    rewrite Forall_forall in Hrs. specialize (Hrs rel Hrel Hsec). lia.
Qed.

Lemma add_reloc_fields i s o n a :
  img_text (add_reloc i s o n a) = img_text i /\ img_relocs (add_reloc i s o n a) = img_relocs i ++ [Build_Reloc s o n a].
Proof using. unfold add_reloc, ensure_symbol. by case_match. Qed.

Lemma le_bytes32_i32 v : le_bytes32 (i32 v) = le_bytes32 v.
Proof using.
  assert (exists q, i32 v = v + q * 2 ^ 32) as [q ->].
  { exists (- ((v + 2 ^ 31) / 2 ^ 32)). unfold i32. pose proof (Z.div_mod (v + 2 ^ 31) (2 ^ 32)). lia. }
  unfold le_bytes32. f_equal; [|f_equal; [|f_equal; [|f_equal]]].
  - replace (q * 2 ^ 32) with (q * 2 ^ 24 * 2 ^ 8) by lia. by rewrite Z.mod_add by lia.
  - replace (q * 2 ^ 32) with (q * 2 ^ 16 * 2 ^ 8 * 2 ^ 8) by lia. rewrite Z.div_add by lia. by rewrite Z.mod_add by lia.
  - replace (q * 2 ^ 32) with (q * 2 ^ 8 * 2 ^ 8 * 2 ^ 16) by lia. rewrite Z.div_add by lia. by rewrite Z.mod_add by lia.
  - replace (q * 2 ^ 32) with (q * 2 ^ 8 * 2 ^ 24) by lia. rewrite Z.div_add by lia. by rewrite Z.mod_add by lia.
Qed.

(** A word with a relocation. *)
Lemma load_symbol i name :
  img_section i = SEC_TEXT -> grows (arg_emit i (ASym name)) img ->
  slice rom (base + text_size i) 4 = le_bytes32 (rho name).
Proof.
  intros Hs G. pose proof (grows_size _ _ G) as Hsz. cbn [arg_emit] in *.
  set (i1 := add_reloc i SEC_TEXT (Z.of_nat (length (img_text i))) name 0) in *.
  assert (img_section i1 = SEC_TEXT) as Hs1 by (unfold i1; by rewrite add_reloc_section).
  destruct (add_reloc_fields i SEC_TEXT (Z.of_nat (length (img_text i))) name 0) as [T1 R1]. fold i1 in T1, R1.
  assert (Hsize : text_size (appended i1 (le_bytes32 0)) = text_size i + 4).
  { unfold text_size. rewrite appended_text, Hs1, T1. cbn [Z.eqb Pos.eqb SEC_TEXT]. rewrite length_app, le_bytes32_length. lia. }
  assert (0 <= text_size i) by (unfold text_size; lia).
  destruct Hload as [_ Hrel]. destruct (gr_relocs _ _ G) as (rs & E & _). rewrite (proj1 (proj2 (proj2 (appended_fields _ _)))), R1 in E.
  destruct (Hrel (Build_Reloc SEC_TEXT (Z.of_nat (length (img_text i))) name 0)) as (a & Ha & Hw); [|done|].
  { rewrite E. apply elem_of_app. left. apply elem_of_app. right. by left. }
  cbn [rel_name rel_offset rel_addend] in Ha, Hw. rewrite (Hrho _ _ Ha).
  apply (slice_eq rom (base + text_size i) (le_bytes32 a)). intros k Hk. rewrite le_bytes32_length in Hk.
  replace (base + text_size i + k) with (base + (text_size i + k)) by lia. rewrite Hrom by lia.
  specialize (Hw k ltac:(lia)). cbn beta in Hw. fold (text_size i) in Hw. rewrite Hw. by rewrite word32_le, le_bytes32_i32, Z.add_0_r.
Qed.

Lemma relocs_in_appended i bs : relocs_in i -> relocs_in (appended i bs).
Proof using.
  intros H. unfold relocs_in. rewrite (proj1 (proj2 (proj2 (appended_fields i bs)))). eapply Forall_impl; [exact H|].
  intros r Hr Hs. specialize (Hr Hs). pose proof (grows_size _ _ (grows_appended i bs)). lia.
Qed.

Lemma relocs_in_arg i a : img_section i = SEC_TEXT -> relocs_in i -> relocs_in (arg_emit i a).
Proof using.
  intros Hs H. destruct a as [r|n|name]; [by apply relocs_in_appended..|]. unfold relocs_in. cbn [arg_emit].
  rewrite (proj1 (proj2 (proj2 (appended_fields _ _)))).
  destruct (add_reloc_fields i SEC_TEXT (Z.of_nat (length (img_text i))) name 0) as [T R].
  assert (Hsz : text_size (appended (add_reloc i SEC_TEXT (Z.of_nat (length (img_text i))) name 0) (le_bytes32 0)) = text_size i + 4).
  { unfold text_size. rewrite appended_text, add_reloc_section, Hs, T. cbn [Z.eqb Pos.eqb SEC_TEXT]. rewrite length_app, le_bytes32_length. lia. }
  rewrite R, Hsz. apply Forall_app_2.
  - eapply Forall_impl; [exact H|]. intros r Hr Hrs. specialize (Hr Hrs). lia.
  - apply List.Forall_cons; [|apply List.Forall_nil]. intros _. cbn. unfold text_size. lia.
Qed.

Lemma grows_arg i a : grows i (arg_emit i a).
Proof using.
  destruct a as [r|n|name]; [apply grows_appended..|]. cbn [arg_emit]. eapply grows_trans; [|apply grows_appended].
  apply grows_reloc. unfold text_size. lia.
Qed.

Lemma grows_args args : forall i, grows i (fold_left arg_emit args i).
Proof using. induction args as [|a args IH]; intros i; [apply grows_refl|]. cbn. eapply grows_trans; [apply grows_arg|apply IH]. Qed.

Lemma args_section args : forall i, img_section (fold_left arg_emit args i) = img_section i.
Proof using. induction args as [|a args IH]; intros i; [done|]. cbn. by rewrite IH, arg_emit_section. Qed.

Lemma relocs_in_args args : forall i, img_section i = SEC_TEXT -> relocs_in i -> relocs_in (fold_left arg_emit args i).
Proof using.
  induction args as [|a args IH]; intros i Hs Hin; [done|]. cbn. apply IH; [by rewrite arg_emit_section|by apply relocs_in_arg].
Qed.

Lemma arg_size i a : img_section i = SEC_TEXT -> text_size (arg_emit i a) = text_size i + Z.of_nat (length (arg_bytes rho a)).
Proof using.
  intros Hs. unfold text_size.
  destruct a as [r|n|name]; cbn [arg_emit]; rewrite appended_text, ?add_reloc_section, Hs; cbn [Z.eqb Pos.eqb SEC_TEXT];
    rewrite length_app; cbn [arg_bytes]; rewrite ?le_bytes32_length; try (cbn [length]; lia).
  rewrite (proj1 (add_reloc_fields _ _ _ _ _)). lia.
Qed.

(** An operand in memory. *)
Lemma load_arg i a : img_section i = SEC_TEXT -> relocs_in i -> grows (arg_emit i a) img ->
  slice rom (base + text_size i) (length (arg_bytes rho a)) = arg_bytes rho a.
Proof.
  intros Hs Hin G. destruct a as [r|n|name]; [| |by apply load_symbol].
  - apply (load_plain i (appended i [r])); [by rewrite appended_text, Hs|apply (appended_fields i [r])|done|exact G].
  - apply (load_plain i (appended i (le_bytes32 n))); [by rewrite appended_text, Hs|apply (appended_fields i (le_bytes32 n))|done|exact G].
Qed.

Lemma load_args args : forall i, img_section i = SEC_TEXT -> relocs_in i -> grows (fold_left arg_emit args i) img ->
  text_size (fold_left arg_emit args i) = text_size i + Z.of_nat (length (concat (arg_bytes rho <$> args))) /\
  relocs_in (fold_left arg_emit args i) /\
  slice rom (base + text_size i) (length (concat (arg_bytes rho <$> args))) = concat (arg_bytes rho <$> args).
Proof.
  induction args as [|a args IH]; intros i Hs Hin G; cbn [fold_left fmap list_fmap concat] in *.
  { cbn. split; [lia|]. by split. }
  assert (Hs1 : img_section (arg_emit i a) = SEC_TEXT) by (by rewrite arg_emit_section).
  destruct (IH (arg_emit i a) Hs1 (relocs_in_arg i a Hs Hin) G) as (E1 & E2 & E3).
  rewrite length_app. split; [rewrite E1, (arg_size i a Hs); lia|]. split; [done|].
  rewrite slice_app. f_equal.
  - apply load_arg; [done|done|]. eapply grows_trans; [apply grows_args|exact G].
  - rewrite (arg_size i a Hs), Z.add_assoc in E3. exact E3.
Qed.

(** An instruction in memory. *)
Lemma load_insn i l op args : reads l op args -> img_section i = SEC_TEXT -> relocs_in i ->
  exists i', parse_line i l = Ok i' /\ img_section i' = SEC_TEXT /\ relocs_in i' /\
    (grows i' img -> exists bs, line_bytes rho l = Some bs /\ slice rom (base + text_size i) (length bs) = bs /\
       text_size i' = text_size i + Z.of_nat (length bs)).
Proof.
  intros Hr Hs Hin. pose proof (reads_bytes rho _ _ _ Hr) as Hb. pose proof Hr as (mn & spec & -> & Hi & Hl & <- & _).
  set (i1 := appended i [is_opcode spec]).
  assert (Hs1 : img_section i1 = SEC_TEXT) by (unfold i1; by rewrite (proj1 (appended_fields _ _))).
  assert (Hz1 : text_size i1 = text_size i + 1) by (unfold text_size, i1; rewrite appended_text, Hs; cbn [Z.eqb Pos.eqb SEC_TEXT]; rewrite length_app; cbn [length]; lia).
  assert (Hin1 : relocs_in i1) by (by apply relocs_in_appended).
  exists (fold_left arg_emit args i1). split; [by apply parse_insn|]. split; [by rewrite args_section|]. split; [by apply relocs_in_args|].
  intros G. destruct (load_args args i1 Hs1 Hin1 G) as (E1 & _ & E3).
  exists (is_opcode spec :: concat (arg_bytes rho <$> args)). split; [done|]. split.
  - cbn [length]. rewrite slice_S.
    assert (slice rom (base + text_size i) (length [is_opcode spec]) = [is_opcode spec]) as H1.
    { apply (load_plain i i1); [unfold i1; by rewrite appended_text, Hs|apply (appended_fields i)|done|].
      eapply grows_trans; [apply grows_args|exact G]. }
    cbn [length] in H1. rewrite slice_S in H1. injection H1 as ->. f_equal.
    replace (base + text_size i + 1) with (base + text_size i1) by lia. exact E3.
  - rewrite E1, Hz1. cbn [length]. lia.
Qed.

Lemma defines_own i name sec off : grows i img -> sec <> 0 -> defines i name sec off ->
  exists sym, own_symbol img name = Some sym /\ sym_section sym = sec /\ sym_offset sym = off.
Proof.
  intros G Hs Hd. destruct (gr_symbols _ _ G _ _ _ Hs Hd) as (k & sym & Hk & <- & <- & <-).
  exists sym. split; [|done]. rewrite <- (find_defined img (sym_name sym)) by apply (io_names _ Hok).
  assert (find_symbol img (sym_name sym) = Z.of_nat k) as ->.
  { destruct (find_symbol_cases img (sym_name sym)) as [[_ Hn]|(j & sym' & -> & Hj & E)].
    - exfalso. apply Hn. apply list_elem_of_fmap. exists sym. split; [done|]. by eapply list_elem_of_lookup_2.
    - f_equal. eapply NoDup_lookup; [apply (io_names _ Hok)| |]; rewrite list_lookup_fmap; [rewrite Hj|rewrite Hk]; cbn; by f_equal. }
  cbv zeta. rewrite (proj2 (Z.leb_le 0 _)) by lia. rewrite Nat2Z.id. unfold symbol_at. rewrite (nth_lookup_Some _ _ _ _ Hk).
  unfold is_defined. by apply Z.eqb_neq in Hs as ->.
Qed.

(** A label in memory. *)
Lemma load_label i name i' : label_ok name = true -> img_section i = SEC_TEXT -> define_symbol i name = Ok i' -> grows i' img ->
  rho name = base + text_size i /\ img_section i' = SEC_TEXT /\ text_size i' = text_size i /\ img_relocs i' = img_relocs i.
Proof.
  intros Hn Hs Hd G. unfold define_symbol in Hd.
  assert (H : forall i1 k, ensure_symbol i name = (i1, k) -> img_section i1 = SEC_TEXT /\ text_size i1 = text_size i /\ img_relocs i1 = img_relocs i /\
    exists sym, img_symbols i1 !! k = Some sym /\ sym_name sym = name).
  { intros i1 k E. unfold ensure_symbol in E. destruct (find_symbol_cases i name) as [[Ef _]|(j & sym & Ef & Hj & Hsym)]; rewrite Ef in E.
    - cbn in E. injection E as <- <-. do 3 (split; [done|]).
      exists (Build_Symbol name 0 0 0). split; [|done]. cbn. by rewrite lookup_app_r, Nat.sub_diag by lia.
    - rewrite (proj2 (Z.leb_le 0 _)) in E by lia. injection E as <- <-. do 3 (split; [done|]). exists sym. by rewrite Nat2Z.id. }
  destruct (ensure_symbol i name) as [i1 k]. destruct (H _ _ eq_refl) as (H1 & H2 & H3 & sym & Hk & Hname).
  destruct (negb _); [done|]. injection Hd as <-. split; [|done].
  destruct (defines_own _ name SEC_TEXT (text_size i) G) as (sym' & Ho & E1 & E2); [done| |].
  { eexists k, _. cbn. rewrite list_lookup_alter_eq, Hk. cbn. split; [done|]. cbn. rewrite H1. split; [done|]. split; [done|].
    unfold current_offset. by rewrite H1. }
  assert (resolves ps p name (base + text_size i)) as Hres; [|by apply Hrho].
  unfold resolves. rewrite Ho. unfold symbol_addr. rewrite E1, E2. cbn [Z.eqb Pos.eqb SEC_TEXT]. f_equal.
  pose proof (grows_size _ _ G) as Hsz. unfold text_size in Hsz at 1. cbn in Hsz. fold (text_size i1) in Hsz.
  assert (0 <= text_size i) by (unfold text_size; lia). apply i32_id. unfold is_i32. lia.
Qed.

(** Lines of a module are code in memory. *)
Lemma load_lines lines : forall i i',
  Forall code_line lines -> each parse_line i lines = Ok i' -> img_section i = SEC_TEXT -> relocs_in i -> grows i' img ->
  code_at rho rom (base + text_size i) lines (base + text_size i').
Proof.
  induction lines as [|l lines IH]; intros i i' Hf E Hs Hin G; [by injection E as <-|].
  inversion Hf as [|? ? Hl Hf']; subst. cbn [each] in E.
  destruct (parse_line i l) as [i1|] eqn:E1; [|done]. cbn [mbind res_bind] in E.
  assert (G1 : grows i1 img).
  { eapply grows_trans; [|exact G]. eapply grows_each; [|exact E]. apply grows_line. }
  destruct Hl as [(name & Hn & ->)|(op & args & Hr)]; cbn [code_at].
  - rewrite parse_label_line in E1 by done. destruct (load_label i name i1 Hn Hs E1 G1) as (Hrn & Hs1 & Hz1 & Hr1).
    assert (label_line (name ++ str ":") = Some name) as ->.
    { unfold label_line. change (str ":") with [58]. by rewrite last_snoc, bool_decide_true, removelast_last by done. }
    split; [done|]. split; [done|]. rewrite <- Hz1. apply IH; try done.
    unfold relocs_in. by rewrite Hr1, Hz1.
  - rewrite (reads_not_label _ _ _ Hr). destruct (load_insn i l op args Hr Hs Hin) as (i2 & E2 & Hs2 & Hin2 & Hbs).
    rewrite E1 in E2. injection E2 as <-. destruct (Hbs G1) as (bs & Eb & Esl & Ez). exists bs. split; [done|]. split; [done|].
    replace (base + text_size i + Z.of_nat (length bs)) with (base + text_size i1) by lia. by apply IH.
Qed.
End load.
