(* ===== verification/CSem.v ===== *)
(** * CSem: what the trees of the compiler mean

    An abstract semantics of the typed trees that the front end hands to the code
    generator, for the part of C whose values are 32-bit words: integers of up to four
    bytes, pointers, arrays and members, assignments, the operators, and structured
    statements with labels and jumps.  A value is an unsigned word.  Memory is an array of
    bytes of which the program may use some; a variable that the register allocator
    promoted is not in memory.  [None] is undefined behaviour, a construct outside of this
    part, or not enough fuel. *)

From S2P Require Import Prelude Config Kernel Klog RawMem UserMem LibString LibFormat GuestAsm Codegen Cpu AsmLines.

(** ** State *)

(** The bytes of memory and the values of the promoted variables. *)
Record cst := Build_cst { cm : Z -> Z; rv : Z -> Z }.
#[export] Instance eta_cst : Eta cst := fun r => Build_cst (cm r) (rv r).
#[export] Instance set_cm : Setter cm := ltac:(mk_setter).
#[export] Instance set_rv : Setter rv := ltac:(mk_setter).

(** How a statement ends: at its end, with the value of an expression statement, at
    a jump to a label, or at a return with a value. *)
Inductive flow := Normal (v : option Z) | Jump (label : list Z) | Returned (v : option Z).

(** ** Types and values *)

(** The type of a word: neither 64-bit nor floating point. *)
Definition word_ty (ty : option Ty) : bool := negb (is64 ty) && negb (is_flonum_ty ty).

Definition sext (bits v : Z) : Z := u32 (if v <? 2 ^ (bits - 1) then v else v - 2 ^ bits).

(** The value of type [ty] that a word becomes. *)
Definition convert (ty : Ty) (v : Z) : option Z :=
  match ty_kind ty with
  | TY_VOID => None
  | TY_BOOL => Some (b2z (negb (v =? 0)))
  | TY_CHAR => Some (if ty_unsigned ty then v mod 2 ^ 8 else sext 8 (v mod 2 ^ 8))
  | TY_SHORT => Some (if ty_unsigned ty then v mod 2 ^ 16 else sext 16 (v mod 2 ^ 16))
  | _ => Some v
  end.

(** An operator on two words; [ty], [lty] and [rty] are the types of the result and of the operands. *)
Definition binary (kind : NodeKind) (ty lty rty : Ty) (a b : Z) : option Z :=
  let uns := is_promoted_unsigned lty || is_promoted_unsigned rty in
  match kind with
  | ND_ADD => Some (u32 (a + b))
  | ND_SUB => Some (u32 (a - b))
  | ND_MUL => Some (u32 (a * b))
  | ND_DIV => if b =? 0 then None else Some (if is_unsigned_int ty then a / b else u32 (Z.quot (sgn a) (sgn b)))
  | ND_MOD => if b =? 0 then None else Some (if is_unsigned_int ty then a mod b else u32 (Z.rem (sgn a) (sgn b)))
  | ND_BITAND => Some (Z.land a b)
  | ND_BITOR => Some (Z.lor a b)
  | ND_BITXOR => Some (Z.lxor a b)
  | ND_SHL => if b <? 32 then Some (u32 (Z.shiftl a b)) else None
  | ND_SHR => if b <? 32 then Some (if is_promoted_unsigned lty then Z.shiftr a b else u32 (Z.shiftr (sgn a) b)) else None
  | ND_EQ => Some (b2z (a =? b))
  | ND_NE => Some (b2z (negb (a =? b)))
  | ND_LT => Some (b2z (if uns then a <? b else sgn a <? sgn b))
  | ND_LE => Some (b2z (if uns then a <=? b else sgn a <=? sgn b))
  | _ => None
  end.

(** ** Labels *)

(** The statement behind label [l], if [p] is labelled with it. *)
Fixpoint enter (l : list Z) (p : Node) : option Node :=
  let behind (here : list Z) :=
    if bool_decide (here = l) then n_lhs p else match n_lhs p with Some q => enter l q | None => None end in
  match n_kind p with
  | ND_LABEL => behind (n_unique_label p)
  | ND_CASE => behind (n_label p)
  | _ => None
  end.

(** Where label [l] leads in a block: the statements from there to its end. *)
Fixpoint find_label (l : list Z) (body : list Node) : option (list Node) :=
  match body with
  | [] => None
  | p :: body' => match enter l p with Some q => Some (q :: body') | None => find_label l body' end
  end.

Section sem.
(** The variables, those of the current function, the addresses of the symbols, the
    frame, and the bytes that the program may use. *)
Context (vars : Z -> Obj) (locals : list Z) (rho : list Z -> Z) (fp : Z) (V : Z -> bool).
Context (ret : option Ty).

Definition is_promoted (v : Z) : bool := negb (o_reg (vars v) =? 0).

(** The promoted variable that an lvalue names. *)
Definition promoted_var (l : Node) : option Z :=
  if bool_decide (n_kind l = ND_VAR) then v ← n_var l ; if is_promoted v then Some v else None else None.

Definition var_addr (v : Z) : option Z :=
  let var := vars v in
  if is_promoted v then None
  else if o_is_local var then (if bool_decide (v ∈ locals) then Some (u32 (fp + o_offset var)) else None)
  else if label_ok (o_name var) then Some (u32 (rho (o_name var))) else None.

Definition load_as (ty : Ty) (s : cst) (a : Z) : option Z :=
  let word := if V a && V (a + 1) && V (a + 2) && V (a + 3) then Some (u32 (pread32 (cm s) a)) else None in
  match ty_kind ty with
  | TY_ARRAY | TY_FUNC => Some a
  | TY_CHAR => if V a then Some (if ty_unsigned ty then cm s a else sext 8 (cm s a)) else None
  | TY_BOOL => if V a then Some (cm s a) else None
  | TY_SHORT =>
      if V a && V (a + 1) then
        let v := cm s a + 2 ^ 8 * cm s (a + 1) in Some (if ty_unsigned ty then v else sext 16 v) else None
  | TY_INT | TY_ENUM | TY_PTR => word
  | TY_LONG => if ty_size ty =? 4 then word else None
  | _ => None
  end.

Definition store_as (ty : Ty) (s : cst) (a v : Z) : option cst :=
  let word := if V a && V (a + 1) && V (a + 2) && V (a + 3) then Some (s <| cm ::= fun m => pwrite32 m a v |>) else None in
  match ty_kind ty with
  | TY_CHAR | TY_BOOL => if V a then Some (s <| cm ::= fun m => upd m a (v mod 2 ^ 8) |>) else None
  | TY_SHORT =>
      if V a && V (a + 1) then Some (s <| cm ::= fun m => blit m a [v mod 2 ^ 8; v / 2 ^ 8 mod 2 ^ 8] |>) else None
  | TY_INT | TY_ENUM | TY_PTR => word
  | TY_LONG => if ty_size ty =? 4 then word else None
  | _ => None
  end.

(** The offset of a member that is not a bit-field. *)
Definition member_offset (e : Node) : option Z :=
  m ← n_member e ;
  if m_is_bitfield m || negb ((0 <=? m_offset m) && (m_offset m <? 2 ^ 31)) then None else Some (m_offset m).

(** A value that is used. *)
Definition used (e : Node) (r : option (option Z * cst)) : option (Z * cst) :=
  if word_ty (n_ty e) then '(v, s) ← r ; v ← v ; Some (v, s) else None.

Fixpoint eval (n : nat) (e : Node) (s : cst) {struct n} : option (option Z * cst) :=
  match n with O => None | S n =>
  let value (p : option Node) (s : cst) := e ← p ; used e (eval n e s) in
  let binop (_ : unit) :=
    ty ← n_ty e ; l ← n_lhs e ; r ← n_rhs e ; lty ← n_ty l ; rty ← n_ty r ;
    '(y, s) ← value (n_rhs e) s ; '(x, s) ← value (n_lhs e) s ;
    v ← binary (n_kind e) ty lty rty x y ; Some (Some v, s) in
  if bool_decide (n_kind e = ND_COMMA) then l ← n_lhs e ; '(_, s) ← eval n l s ; r ← n_rhs e ; eval n r s else
  if bool_decide (n_kind e = ND_COND) then '(c, s) ← value (n_cond e) s ; p ← (if c =? 0 then n_els e else n_then e) ; eval n p s else
  if negb (word_ty (n_ty e)) then None else
  match n_kind e with
  | ND_NULL_EXPR => Some (None, s)
  | ND_NUM => Some (Some (u32 (n_val e)), s)
  | ND_VAR =>
      v ← n_var e ; ty ← n_ty e ;
      if is_promoted v then (if bool_decide (v ∈ locals) then Some (Some (rv s v), s) else None)
      else a ← var_addr v ; x ← load_as ty s a ; Some (Some x, s)
  | ND_MEMBER => ty ← n_ty e ; _ ← member_offset e ; '(a, s) ← eval_addr n e s ; x ← load_as ty s a ; Some (Some x, s)
  | ND_ADDR => l ← n_lhs e ; '(a, s) ← eval_addr n l s ; Some (Some a, s)
  | ND_DEREF => ty ← n_ty e ; '(a, s) ← value (n_lhs e) s ; x ← load_as ty s a ; Some (Some x, s)
  | ND_ASSIGN =>
      l ← n_lhs e ; ty ← n_ty l ;
      if is_aggregate (Some ty) then None else
      match promoted_var l with
      | Some v => '(x, s) ← value (n_rhs e) s ;
                  if bool_decide (v ∈ locals) then Some (Some x, s <| rv ::= fun f => upd f v x |>) else None
      | None =>
          _ ← (if bool_decide (n_kind l = ND_MEMBER) then member_offset l else Some 0) ;
          '(a, s) ← eval_addr n l s ; '(x, s) ← value (n_rhs e) s ;
          s ← store_as ty s a x ; Some (Some x, s)
      end
  | ND_STMT_EXPR => '(f, s) ← exec_list n (n_body e) s ; match f with Normal v => Some (v, s) | _ => None end
  | ND_CAST => ty ← n_ty e ; '(x, s) ← value (n_lhs e) s ; Some (convert ty x, s)
  | ND_NEG => '(x, s) ← value (n_lhs e) s ; Some (Some (u32 (0 - x)), s)
  | ND_BITNOT => '(x, s) ← value (n_lhs e) s ; Some (Some (u32 (Z.lnot x)), s)
  | ND_NOT => '(x, s) ← value (n_lhs e) s ; Some (Some (b2z (x =? 0)), s)
  | ND_LOGAND =>
      '(x, s) ← value (n_lhs e) s ;
      if x =? 0 then Some (Some 0, s) else '(y, s) ← value (n_rhs e) s ; Some (Some (b2z (negb (y =? 0))), s)
  | ND_LOGOR =>
      '(x, s) ← value (n_lhs e) s ;
      if negb (x =? 0) then Some (Some 1, s) else '(y, s) ← value (n_rhs e) s ; Some (Some (b2z (negb (y =? 0))), s)
  | _ => binop tt
  end end

with eval_addr (n : nat) (e : Node) (s : cst) {struct n} : option (Z * cst) :=
  match n with O => None | S n =>
  match n_kind e with
  | ND_VAR => v ← n_var e ; a ← var_addr v ; Some (a, s)
  | ND_DEREF => p ← n_lhs e ; used p (eval n p s)
  | ND_COMMA => l ← n_lhs e ; '(_, s) ← eval n l s ; r ← n_rhs e ; eval_addr n r s
  | ND_MEMBER =>
      l ← n_lhs e ; m ← n_member e ;
      if negb ((0 <=? m_offset m) && (m_offset m <? 2 ^ 31)) then None else
      '(a, s) ← eval_addr n l s ; Some (u32 (a + m_offset m), s)
  | _ => None
  end end

with exec (n : nat) (p : Node) (s : cst) {struct n} : option (flow * cst) :=
  match n with O => None | S n =>
  let value (p : option Node) (s : cst) := e ← p ; used e (eval n e s) in
  match n_kind p with
  | ND_IF =>
      '(c, s) ← value (n_cond p) s ;
      if negb (c =? 0) then q ← n_then p ; exec_void n q s
      else match n_els p with Some q => exec_void n q s | None => Some (Normal None, s) end
  | ND_FOR =>
      '(f, s) ← match n_init p with Some q => exec n q s | None => Some (Normal None, s) end ;
      match f with Normal _ => for_loop n p s | f => Some (f, s) end
  | ND_DO => do_loop n p s
  | ND_CASE => q ← n_lhs p ; exec n q s
  | ND_BLOCK => exec_block n (n_body p) (n_body p) s
  | ND_GOTO => if label_ok (n_unique_label p) then Some (Jump (n_unique_label p), s) else None
  | ND_LABEL => q ← n_lhs p ; exec n q s
  | ND_RETURN =>
      match n_lhs p with
      | Some e =>
          ty ← ret ;
          if negb (word_ty ret) || is_aggregate ret then None else
          '(x, s) ← value (Some e) s ; Some (Returned (convert ty x), s)
      | None => Some (Returned (Some 0), s)
      end
  | ND_EXPR_STMT => e ← n_lhs p ; '(v, s) ← eval n e s ; Some (Normal v, s)
  | _ => None
  end end

(** A statement whose value is not used. *)
with exec_void (n : nat) (p : Node) (s : cst) {struct n} : option (flow * cst) :=
  match n with O => None | S n =>
  '(f, s) ← exec n p s ; Some (match f with Normal _ => Normal None | f => f end, s)
  end

with exec_list (n : nat) (ps : list Node) (s : cst) {struct n} : option (flow * cst) :=
  match n with O => None | S n =>
  match ps with
  | [] => Some (Normal None, s)
  | [p] => exec n p s
  | p :: ps => '(f, s) ← exec n p s ; match f with Normal _ => exec_list n ps s | f => Some (f, s) end
  end end

(** The statements [cur] of the block [body]; a jump to a label of the block goes on there. *)
with exec_block (n : nat) (body cur : list Node) (s : cst) {struct n} : option (flow * cst) :=
  match n with O => None | S n =>
  '(f, s) ← exec_list n cur s ;
  match f with
  | Normal _ => Some (Normal None, s)
  | Jump l => match find_label l body with Some ps => exec_block n body ps s | None => Some (Jump l, s) end
  | f => Some (f, s)
  end end

(** A round of a [for], from its condition on. *)
with for_loop (n : nat) (p : Node) (s : cst) {struct n} : option (flow * cst) :=
  match n with O => None | S n =>
  '(c, s) ← match n_cond p with Some e => used e (eval n e s) | None => Some (1, s) end ;
  if c =? 0 then Some (Normal None, s) else
  q ← n_then p ; '(f, s) ← exec n q s ;
  let next (s : cst) :=
    '(_, s) ← match n_inc p with Some e => eval n e s | None => Some (None, s) end ; for_loop n p s in
  match f with
  | Normal _ => next s
  | Jump l => if bool_decide (l = n_cont_label p) then next s
              else if bool_decide (l = n_brk_label p) then Some (Normal None, s) else Some (Jump l, s)
  | f => Some (f, s)
  end end

with do_loop (n : nat) (p : Node) (s : cst) {struct n} : option (flow * cst) :=
  match n with O => None | S n =>
  q ← n_then p ; '(f, s) ← exec n q s ;
  let test (s : cst) :=
    e ← n_cond p ; '(c, s) ← used e (eval n e s) ;
    if c =? 0 then Some (Normal None, s) else do_loop n p s in
  match f with
  | Normal _ => test s
  | Jump l => if bool_decide (l = n_cont_label p) then test s
              else if bool_decide (l = n_brk_label p) then Some (Normal None, s) else Some (Jump l, s)
  | f => Some (f, s)
  end end.

(** ** Equations *)

Lemma exec_list_S n ps s : exec_list (S n) ps s =
  match ps with
  | [] => Some (Normal None, s)
  | [p] => exec n p s
  | p :: ps => '(f, s) ← exec n p s ; match f with Normal _ => exec_list n ps s | f => Some (f, s) end
  end.
Proof. done. Qed.

Lemma exec_block_S n body cur s : exec_block (S n) body cur s =
  '(f, s) ← exec_list n cur s ;
  match f with
  | Normal _ => Some (Normal None, s)
  | Jump l => match find_label l body with Some ps => exec_block n body ps s | None => Some (Jump l, s) end
  | f => Some (f, s)
  end.
Proof. done. Qed.

Lemma for_loop_S n p s : for_loop (S n) p s =
  '(c, s) ← match n_cond p with Some e => used e (eval n e s) | None => Some (1, s) end ;
  if c =? 0 then Some (Normal None, s) else
  q ← n_then p ; '(f, s) ← exec n q s ;
  let next (s : cst) :=
    '(_, s) ← match n_inc p with Some e => eval n e s | None => Some (None, s) end ; for_loop n p s in
  match f with
  | Normal _ => next s
  | Jump l => if bool_decide (l = n_cont_label p) then next s
              else if bool_decide (l = n_brk_label p) then Some (Normal None, s) else Some (Jump l, s)
  | f => Some (f, s)
  end.
Proof. done. Qed.

Lemma do_loop_S n p s : do_loop (S n) p s =
  q ← n_then p ; '(f, s) ← exec n q s ;
  let test (s : cst) :=
    e ← n_cond p ; '(c, s) ← used e (eval n e s) ;
    if c =? 0 then Some (Normal None, s) else do_loop n p s in
  match f with
  | Normal _ => test s
  | Jump l => if bool_decide (l = n_cont_label p) then test s
              else if bool_decide (l = n_brk_label p) then Some (Normal None, s) else Some (Jump l, s)
  | f => Some (f, s)
  end.
Proof. done. Qed.
End sem.
