(* ===== verification/GenLogic.v ===== *)
(** * GenLogic: reasoning about the code generator

    What holds of the emission helpers and is closed under sequencing holds of every
    function of the generator ([gen_closed]).  It gives that the generator changes nothing
    but its label counter ([gen_keeps]).  [gwp] is a logic of the generated code: to prove
    a property of the machine after the code that a computation of the generator writes, one
    reasons along the computation. *)

From S2P Require Import Prelude Config Kernel Klog RawMem UserMem LibString LibFormat GuestAsm GuestAsmSpec Codegen Cpu AsmLines AsmCode.

Lemma bind_inv {A B} (m : G A) (k : A -> G B) g b g2 c :
  mbind k m g = Done b g2 c -> exists a g1 c1 c2, m g = Done a g1 c1 /\ k a g1 = Done b g2 c2 /\ c = c1 ++ c2.
Proof.
  unfold mbind, G_bind. destruct (m g) as [a g1 c1|]; [|done]. destruct (k a g1) as [b' g' c2|] eqn:E; [|done].
  intros [= -> -> <-]. eauto 8.
Qed.

(** A literal register is, or is not, in a literal list. *)
Ltac lit := match goal with |- ?G => refine (@bool_decide_unpack G _ _); vm_compute; exact I end.

(** ** The size of trees *)

Lemma list_max_in x l : List.In x l -> (x <= list_max l)%nat.
Proof. unfold list_max. induction l as [|y l IH]; [done|]. cbn [List.In fold_right]. intros [-> | H]; [lia|]. specialize (IH H). lia. Qed.

Lemma height_child e p :
  n_lhs e = Some p \/ n_rhs e = Some p \/ n_cond e = Some p \/ n_then e = Some p \/ n_els e = Some p \/
  n_init e = Some p \/ n_inc e = Some p \/ p ∈ n_body e -> (height p < height e)%nat.
Proof.
  destruct e as [k ty lhs rhs cond then_ els init inc bl cl body mb args rb lb ul cases dflt b en a v vl fv]. cbn [n_lhs n_rhs n_cond n_then n_els n_init n_inc n_body].
  intros H. cbn [height]. apply le_n_S.
  repeat (destruct H as [->|H]; [apply list_max_in; cbn; tauto|]).
  etransitivity; [|apply list_max_in; do 7 right; left; reflexivity].
  induction body as [|q body IH]; [by apply elem_of_nil in H|]. apply elem_of_cons in H as [->|H]; [lia|]. specialize (IH H). lia.
Qed.

(** One level of a function of the generator. *)
Ltac gen_unfold := cbn [gen_expr gen_addr gen_cond gen_conditional gen_logical gen_binary gen_value_as gen_aggregate_assign
  gen64_value gen64_assign gen64_binary gen64_shift gen64_unary gen64_compare gen64_expr gen_float_binary gen_double_binary
  gen_float_expr gen_double_expr gen_float_value gen_double_value gen_float_compare push_call_arg into_regs gen_intrinsic
  gen_call return_aggregate gen_stmt].

(** ** Induction over the generator *)

Section closed.
Context (tr : Z -> Z -> Z) (P : forall A, G A -> Prop).
Context (P_ret : forall A (a : A), P A (mret a)).
Context (P_bind : forall A B (m : G A) (k : A -> G B), P A m -> (forall a, P B (k a)) -> P B (mbind k m)).
Context (P_halt : forall A why, why <> CgNoFuel -> P A (halt why)).
Context (P_gets : forall A (f : cg -> A), P A (gets f)).
Context (P_line : forall l, P unit (wr_line l)).
Context (P_label : P (list Z) new_label).
#[local] Set Default Proof Using "Type*".

Lemma P_deref A (p : option A) : P A (deref p).
Proof. destruct p; cbn; auto. Qed.

Lemma P_each A (m : A -> G unit) l : (forall x, P unit (m x)) -> P unit (each_g m l).
Proof. intros H. induction l; cbn; auto. Qed.

Lemma P_times n m : P unit m -> P unit (times n m).
Proof. intros H. induction n; cbn; auto. Qed.

Lemma P_sum A (m : A -> G Z) l : (forall x, P Z (m x)) -> P Z (sum_g m l).
Proof. intros H. induction l; cbn; auto. Qed.

Ltac p_close :=
  cbv zeta;
  repeat first
    [ assumption | match goal with |- _ <> CgNoFuel => discriminate end
    | match goal with
      | |- P _ (mbind _ _) => apply P_bind; [|intros ?]
      | |- P _ (mret _) => apply P_ret
      | |- P _ (halt _) => by apply P_halt
      | |- P _ (gets _) => apply P_gets
      | |- P _ (wr_line _) => apply P_line
      | |- P _ new_label => apply P_label
      | |- P _ (deref _) => apply P_deref
      | |- P _ (each_g _ _) => apply P_each; intros ?
      | |- P _ (times _ _) => apply P_times
      | |- P _ (sum_g _ _) => apply P_sum; intros ?
      end
    | match goal with |- P _ (match ?x with _ => _ end) => destruct x end
    | match goal with H : forall _, _ |- _ => apply H end
    | progress (unfold error, obj, ins, ins_imm, ins_sym, emit_label, jmp, push, push_reg, pop, push_tmp, push_tmp_reg, pop_tmp,
        adjust_csp, call, push_pair, cmp_zero, set_if, sign_test, by_sign, return_ty)
    | progress intros ].

Lemma P_emit_var_addr v : P unit (emit_var_addr v).
Proof. unfold emit_var_addr. p_close. Qed.
Lemma P_sign_extend a b : P unit (sign_extend a b).
Proof. unfold sign_extend. p_close. Qed.
Lemma P_bitfield_of e : P _ (bitfield_of e).
Proof. unfold bitfield_of. p_close. Qed.
Lemma P_load e : P unit (load e).
Proof. pose proof P_bitfield_of. pose proof P_sign_extend. unfold load, load_bitfield. p_close. Qed.
Lemma P_store e : P unit (store e).
Proof. pose proof P_bitfield_of. unfold store, store_bitfield. p_close. Qed.
Lemma P_copy_bytes n : P unit (copy_bytes n).
Proof. unfold copy_bytes. p_close. Qed.
Lemma P_load64 : P unit load64.
Proof. unfold load64. p_close. Qed.
Lemma P_widen64 ty : P unit (widen64 ty).
Proof. unfold widen64. p_close. Qed.
Lemma P_helper64 e : P _ (helper64 e).
Proof. unfold helper64. p_close. Qed.
Lemma P_float_helper e b : P _ (float_binary_helper e b).
Proof. unfold float_binary_helper. p_close. Qed.
Lemma P_gen_compare e : P unit (gen_compare e).
Proof. unfold gen_compare. p_close. Qed.
Lemma P_cast_to ty : P unit (cast_to ty).
Proof. pose proof P_sign_extend. unfold cast_to. p_close. Qed.
Lemma P_gen_memzero e : P unit (gen_memzero e).
Proof. pose proof P_emit_var_addr. unfold gen_memzero. p_close. Qed.
Lemma P_gen_asm e : P unit (gen_asm e).
Proof. unfold gen_asm. p_close. Qed.
Lemma P_binary_op e : P unit (binary_op e).
Proof. pose proof P_gen_compare. unfold binary_op. p_close. Qed.
Lemma P_var_reg e : P _ (var_reg e).
Proof. unfold var_reg. p_close. Qed.
Lemma P_callee_name e : P _ (callee_name e).
Proof. unfold callee_name. p_close. Qed.
Lemma P_pop_regs n rs : P unit (pop_regs n rs).
Proof. unfold pop_regs. p_close. Qed.

(** Every function of the generator, at one amount of fuel. *)
Record gen_all (f : nat) : Prop := {
  ga_expr p : P unit (gen_expr tr f p);
  ga_addr p : P unit (gen_addr tr f p);
  ga_cond p : P unit (gen_cond tr f p);
  ga_conditional e : P unit (gen_conditional tr f e);
  ga_logical e : P unit (gen_logical tr f e);
  ga_binary e : P unit (gen_binary tr f e);
  ga_value_as p ty : P unit (gen_value_as tr f p ty);
  ga_aggregate e : P unit (gen_aggregate_assign tr f e);
  ga_value64 p : P unit (gen64_value tr f p);
  ga_assign64 e : P unit (gen64_assign tr f e);
  ga_binary64 e h : P unit (gen64_binary tr f e h);
  ga_shift64 e h : P unit (gen64_shift tr f e h);
  ga_unary64 p h : P unit (gen64_unary tr f p h);
  ga_compare64 e : P unit (gen64_compare tr f e);
  ga_expr64 e : P unit (gen64_expr tr f e);
  ga_fbinary e : P unit (gen_float_binary tr f e);
  ga_dbinary e : P unit (gen_double_binary tr f e);
  ga_fexpr e : P unit (gen_float_expr tr f e);
  ga_dexpr e : P unit (gen_double_expr tr f e);
  ga_fvalue p : P unit (gen_float_value tr f p);
  ga_dvalue p : P unit (gen_double_value tr f p);
  ga_fcompare e : P unit (gen_float_compare tr f e);
  ga_push e : P Z (push_call_arg tr f e);
  ga_regs e rs : P unit (into_regs tr f e rs);
  ga_intrinsic e : P bool (gen_intrinsic tr f e);
  ga_call e : P unit (gen_call tr f e);
  ga_return p : P unit (return_aggregate tr f p);
  ga_stmt p : P unit (gen_stmt tr f p);
}.

Context (P_fuel : forall A, P A (halt CgNoFuel)).

Lemma gen_closed f : gen_all f.
Proof.
  pose proof P_emit_var_addr. pose proof P_load. pose proof P_store. pose proof P_copy_bytes. pose proof P_load64.
  pose proof P_widen64. pose proof P_helper64. pose proof P_float_helper. pose proof P_cast_to. pose proof P_gen_memzero.
  pose proof P_gen_asm. pose proof P_binary_op. pose proof P_var_reg. pose proof P_callee_name. pose proof P_pop_regs.
  induction f as [|f IH]; [split; intros; apply P_fuel|].
  destruct IH. split; intros; gen_unfold; p_close.
Qed.
End closed.

(** ** The generator keeps its context *)

Section keeps.
(** The variables, the current function and its return label. *)
Context (vars : Z -> Obj) (fn : Z) (ret_label : list Z).

Definition in_ctx (g : cg) : Prop := objs g = vars /\ cur_fn g = Some fn /\ cur_return_label g = ret_label.

Definition keeps (A : Type) (m : G A) : Prop := forall g a g' c, m g = Done a g' c -> in_ctx g -> in_ctx g'.

Lemma keeps_pure {A} (m : G A) : (forall g a g' c, m g = Done a g' c -> g' = g) -> keeps A m.
Proof. intros H g a g' c E. by rewrite (H _ _ _ _ E). Qed.

Lemma keeps_bind A B (m : G A) (k : A -> G B) : keeps A m -> (forall a, keeps B (k a)) -> keeps B (mbind k m).
Proof. intros Hm Hk g b g' c E Hg. apply bind_inv in E as (a & g1 & c1 & c2 & E1 & E2 & _). eapply Hk; eauto. Qed.

Lemma keeps_new_label : keeps _ new_label.
Proof. intros g a g' c [= <- <- <-] Hg. exact Hg. Qed.

Lemma gen_keeps tr f : gen_all tr keeps f.
Proof.
  apply gen_closed.
  - intros A a. apply keeps_pure. by intros g ? ? ? [= _ <- _].
  - apply keeps_bind.
  - intros A why _ g a g' c [=].
  - intros A h. apply keeps_pure. by intros g ? ? ? [= _ <- _].
  - intros l. apply keeps_pure. by intros g ? ? ? [= _ <- _].
  - apply keeps_new_label.
  - intros A g a g' c [=].
Qed.

Lemma keeps_each {A} (m : A -> G unit) l : (forall x, keeps unit (m x)) -> keeps unit (each_g m l).
Proof.
  intros H. induction l; cbn; [|by apply keeps_bind]. apply keeps_pure. by intros g ? ? ? [= _ <- _].
Qed.

(** ** A logic of generated code *)

Section gwp.
Context (size : Z) (rho : list Z -> Z) (rom : Z -> Z) (cs ce : Z).
Context (Hcs : 0 <= cs) (Hce : ce <= size).
#[local] Set Default Proof Using "Type*".

(** The lines [c] are the code from the program counter to [e]. *)
Definition code_here (m : cpu) (c : list line) (e : Z) : Prop :=
  code_at rho rom (pc m) c e /\ cs <= pc m /\ e <= ce /\ in_rom rom cs ce m.

(** If the code that [gen] writes is the code to run next, the machine gets to its
    end with [Q] of the generator's result and the machine. *)
Definition gwp {A} (gen : G A) (Q : A -> cpu -> Prop) (m : cpu) : Prop :=
  forall g a g' c e, in_ctx g -> gen g = Done a g' c -> code_here m c e ->
    in_ctx g' /\ runs size m (fun m' => pc m' = e /\ in_rom rom cs ce m' /\ Q a m').

Lemma gwp_mono {A} (gen : G A) (Q Q' : A -> cpu -> Prop) m :
  gwp gen Q m -> (forall a m', Q a m' -> Q' a m') -> gwp gen Q' m.
Proof.
  intros H HQ g a g' c e Hg E Hc. destruct (H g a g' c e Hg E Hc) as [Hg' Hr]. split; [done|].
  eapply runs_mono; [exact Hr|]. intros m' (? & ? & ?). auto.
Qed.

Lemma gwp_ret {A} (a : A) (Q : A -> cpu -> Prop) m : Q a m -> gwp (mret a) Q m.
Proof.
  intros HQ g a' g' c e Hg [= <- <- <-] (Hc & _ & _ & Hm). split; [done|]. apply runs_here. cbn in Hc. auto.
Qed.

Lemma gwp_bind {A B} (gen : G A) (k : A -> G B) (Q : B -> cpu -> Prop) m :
  gwp gen (fun a m' => gwp (k a) Q m') m -> gwp (mbind k gen) Q m.
Proof.
  intros H g b g' c e Hg E (Hc & H1 & H2 & Hm).
  apply bind_inv in E as (a & g1 & c1 & c2 & E1 & E2 & ->). apply code_at_app in Hc as (mid & Hc1 & Hc2).
  pose proof (code_at_le _ _ _ _ _ Hc1). pose proof (code_at_le _ _ _ _ _ Hc2).
  destruct (H g a g1 c1 mid Hg E1) as [Hg1 Hr]; [by repeat split; try lia|].
  assert (in_ctx g' /\ forall m', pc m' = mid /\ in_rom rom cs ce m' /\ gwp (k a) Q m' ->
    runs size m' (fun m' => pc m' = e /\ in_rom rom cs ce m' /\ Q b m')) as [Hg' Hk].
  { destruct Hr as (n & m1 & _ & Hm1 & Hr1 & HQ).
    assert (forall m', pc m' = mid -> in_rom rom cs ce m' -> code_here m' c2 e) as Hh.
    { intros m' <- Hr'. by repeat split; try lia. }
    split; [by apply (HQ g1 b g' c2 e Hg1 E2), Hh|].
    intros m' (Hp & Hr' & HQ'). apply (HQ' g1 b g' c2 e Hg1 E2), Hh; done. }
  split; [done|]. eapply runs_trans; [exact Hr|done].
Qed.

Lemma gwp_halt {A} why (Q : A -> cpu -> Prop) m : gwp (halt why) Q m.
Proof. by intros g a g' c e _ [=]. Qed.

Lemma gwp_deref {A} (p : option A) (Q : A -> cpu -> Prop) m : (forall a, p = Some a -> Q a m) -> gwp (deref p) Q m.
Proof. intros H. destruct p as [a|]; [by apply gwp_ret, H|apply gwp_halt]. Qed.

Lemma gwp_gets {A} (f : cg -> A) (Q : A -> cpu -> Prop) m :
  (forall g, in_ctx g -> Q (f g) m) -> gwp (gets f) Q m.
Proof.
  intros H g a g' c e Hg [= <- <- <-] (Hc & _ & _ & Hm). split; [done|]. apply runs_here. cbn in Hc. auto.
Qed.

Lemma gwp_obj v (Q : Obj -> cpu -> Prop) m : Q (vars v) m -> gwp (obj v) Q m.
Proof. intros HQ. apply gwp_gets. by intros g (-> & _). Qed.

Lemma gwp_new_label (Q : list Z -> cpu -> Prop) m : (forall l, Q l m) -> gwp new_label Q m.
Proof.
  intros H g a g' c e Hg [= <- <- <-] (Hc & _ & _ & Hm). split; [exact Hg|]. apply runs_here. cbn in Hc. auto.
Qed.

(** One instruction. *)
Lemma gwp_line l op args m m' (Q : unit -> cpu -> Prop) :
  reads l op args ->
  exec_args size op (arg_value rho <$> args) (goto (pc m + args_len rho args) m) = Next m' ->
  pc m' = pc m + args_len rho args -> (in_rom rom cs ce m -> in_rom rom cs ce m') -> Q tt m' ->
  gwp (wr_line l) Q m.
Proof.
  intros Hr He Hpc Hrom HQ g a g' c e Hg [= <- <- <-] (Hc & H1 & H2 & Hm). split; [done|].
  eapply (runs_insn size rho rom cs ce); try done. intros Hc'. apply runs_here. cbn in Hc'. rewrite Hpc. auto.
Qed.
End gwp.
End keeps.
