(* ===== verification/CodegenAlloc.v ===== *)
(** * CodegenAlloc: what the register allocator promises

    The analysis of a function's body only marks variables whose address is taken, and
    the allocator gives registers of their own to variables that are not marked. *)

From S2P Require Import Prelude Config Kernel Klog RawMem UserMem LibString LibFormat GuestAsm GuestAsmSpec Codegen Cpu AsmLines AsmCode GenLogic.

(** ** The visit of the body *)

(** From [g] to [g'] variables were marked as having their address taken, and nothing
    else changed but the flags of the analysis. *)
Record marked (g g' : cg) : Prop := {
  mk_fn : cur_fn g' = cur_fn g;
  mk_label : cur_return_label g' = cur_return_label g;
  mk_id : label_id g' = label_id g;
  mk_objs : forall v, objs g' v = objs g v \/ objs g' v = (objs g v) <| o_addr_taken := true |>;
}.

Lemma marked_refl g : marked g g.
Proof. split; auto. Qed.

Lemma marked_trans g1 g2 g3 : marked g1 g2 -> marked g2 g3 -> marked g1 g3.
Proof.
  intros [A1 A2 A3 A4] [B1 B2 B3 B4]. split; try congruence. intros v.
  destruct (A4 v) as [EA|EA], (B4 v) as [EB|EB]; rewrite EB, EA; auto.
Qed.

Lemma marked_taken g g' v : marked g g' -> o_addr_taken (objs g v) = true -> o_addr_taken (objs g' v) = true.
Proof. intros M H. by destruct (mk_objs _ _ M v) as [-> | ->]. Qed.

(** A computation that writes no code and only marks. *)
Definition visit {A} (m : G A) : Prop := forall g a g' c, m g = Done a g' c -> c = [] /\ marked g g'.

Lemma visit_ret {A} (a : A) : visit (mret a).
Proof. intros g b g' c [= <- <- <-]. split; [done|apply marked_refl]. Qed.

Lemma visit_bind {A B} (m : G A) (k : A -> G B) : visit m -> (forall a, visit (k a)) -> visit (mbind k m).
Proof.
  intros Hm Hk g b g' c E. apply bind_inv in E as (a & g1 & c1 & c2 & E1 & E2 & ->).
  destruct (Hm _ _ _ _ E1) as [-> M1]. destruct (Hk _ _ _ _ _ E2) as [-> M2]. split; [done|by eapply marked_trans].
Qed.

Lemma visit_gets {A} (f : cg -> A) : visit (gets f).
Proof. intros g b g' c [= <- <- <-]. split; [done|apply marked_refl]. Qed.

Lemma visit_flags (f : cg -> cg) : (forall g, marked g (f g)) -> visit (modify f).
Proof. intros H g b g' c [= <- <- <-]. auto. Qed.

Lemma visit_each {A} (m : A -> G unit) l : (forall x, visit (m x)) -> visit (each_g m l).
Proof. intros H. induction l; cbn; [apply visit_ret|by apply visit_bind]. Qed.

Lemma visit_not_scalar : visit not_scalar.
Proof. apply visit_flags. intros g. by split; auto. Qed.

Lemma visit_mark_obj v : visit (set_obj v (fun o => o <| o_addr_taken := true |>)).
Proof.
  apply visit_flags. intros g. split; try done. intros w. cbn. destruct (upd_case (objs g) v ((objs g v) <| o_addr_taken := true |>) w) as [[-> ->]|[_ ->]]; auto.
Qed.

Lemma mark_unfold node : mark_addr_taken node =
  match n_kind node with
  | ND_VAR => match n_var node with Some v => set_obj v (fun o => o <| o_addr_taken := true |>) | None => mret tt end
  | ND_MEMBER => match n_lhs node with Some l => mark_addr_taken l | None => mret tt end
  | _ => mret tt
  end.
Proof. by destruct node. Qed.

(** The variable that an lvalue of variables and members is in. *)
Inductive names (v : Z) : Node -> Prop :=
| names_var e : n_kind e = ND_VAR -> n_var e = Some v -> names v e
| names_member e l : n_kind e = ND_MEMBER -> n_lhs e = Some l -> names v l -> names v e.

Lemma visit_mark node : visit (mark_addr_taken node).
Proof.
  remember (height node) as h eqn:Eh. assert (Hh : (height node <= h)%nat) by lia. clear Eh. revert node Hh.
  induction h as [|h IH]; intros node Hh; [destruct node; cbn in Hh; lia|]. rewrite mark_unfold.
  destruct (n_kind node); try apply visit_ret.
  - destruct (n_lhs node) as [l|] eqn:El; [|apply visit_ret]. apply IH. pose proof (height_child node l ltac:(tauto)). lia.
  - destruct (n_var node); [apply visit_mark_obj|apply visit_ret].
Qed.

Ltac visits := repeat first
  [ apply visit_ret | apply visit_not_scalar | apply visit_mark | apply visit_gets
  | apply visit_bind; [|intros ?] | apply visit_each; intros ?
  | apply visit_flags; intros ?; by split; auto
  | match goal with |- visit (match ?x with _ => _ end) => destruct x end ].

Lemma visit_ra fuel : forall p, visit (ra_visit fuel p).
Proof.
  induction fuel as [|fuel IH]; intros p; [by intros ? ? ? ? [=]|]. cbn [ra_visit]. visits; apply IH.
Qed.

(** ** Marks are complete *)

(** Somewhere in the tree the address of a part of [v] is taken. *)
Inductive takes_addr (v : Z) : Node -> Prop :=
| takes_here e l : n_kind e = ND_ADDR -> n_lhs e = Some l -> names v l -> takes_addr v e
| takes_child e q :
    Some q ∈ [n_lhs e; n_rhs e; n_cond e; n_then e; n_els e; n_init e; n_inc e] \/ q ∈ n_body e \/ q ∈ n_args e \/
    n_default_case e = Some q ->
    takes_addr v q -> takes_addr v e.

(** A computation that marks [v]. *)
Definition marks (v : Z) {A} (m : G A) : Prop := forall g a g' c, m g = Done a g' c -> o_addr_taken (objs g' v) = true.

Lemma marks_first {A B} v (m : G A) (k : A -> G B) : marks v m -> (forall a, visit (k a)) -> marks v (mbind k m).
Proof.
  intros Hm Hk g b g' c E. apply bind_inv in E as (a & g1 & c1 & c2 & E1 & E2 & _).
  eapply marked_taken; [by eapply Hk|]. by eapply Hm.
Qed.

Lemma marks_later {A B} v (m : G A) (k : A -> G B) : (forall a, marks v (k a)) -> marks v (mbind k m).
Proof. intros Hk g b g' c E. apply bind_inv in E as (a & g1 & c1 & c2 & _ & E2 & _). by eapply Hk. Qed.

Lemma marks_each {A} v (m : A -> G unit) l x : x ∈ l -> marks v (m x) -> (forall y, visit (m y)) -> marks v (each_g m l).
Proof.
  intros Hx Hm Hv. induction l as [|y l IH]; [by apply elem_of_nil in Hx|]. cbn [each_g].
  apply elem_of_cons in Hx as [-> | Hx]; [apply marks_first; [done|intros; by apply visit_each]|]. apply marks_later. auto.
Qed.

Lemma marks_names v l : names v l -> marks v (mark_addr_taken l).
Proof.
  induction 1 as [e Ek Ev|e l Ek El _ IH]; rewrite mark_unfold, Ek.
  - rewrite Ev. intros g b g' c [= <- <- <-]. cbn. by rewrite upd_same.
  - by rewrite El.
Qed.

Lemma marks_ra v node : takes_addr v node -> forall fuel, marks v (ra_visit fuel (Some node)).
Proof.
  induction 1 as [e l Ek El Hn|e q Hq _ IH]; intros fuel; (destruct fuel as [|fuel]; [by intros ? ? ? ? [=]|]);
    cbn [ra_visit]; do 3 (apply marks_later; intros _).
  - rewrite Ek, El. apply marks_first; [by apply marks_names|]. intros _. visits; apply visit_ra.
  - apply marks_later. intros _. destruct Hq as [Hq | [Hq | [Hq | Hq]]].
    + apply marks_first; [|intros; visits; apply visit_ra]. by eapply marks_each; [exact Hq|apply IH|apply visit_ra].
    + apply marks_later. intros _. apply marks_first; [|intros; visits; apply visit_ra].
      by eapply marks_each; [exact Hq|apply IH|intros; apply visit_ra].
    + do 2 (apply marks_later; intros _). apply marks_first; [|intros; visits; apply visit_ra].
      by eapply marks_each; [exact Hq|apply IH|intros; apply visit_ra].
    + do 3 (apply marks_later; intros _). rewrite Hq. apply IH.
Qed.

(** ** The allocation *)

(** Only registers of variables of [l] change from [g] to [g'], and a variable that gets
    one gets it from the pool and is fit for it. *)
Record promoted (l pool : list Z) (g g' : cg) : Prop := {
  pr_fn : cur_fn g' = cur_fn g;
  pr_label : cur_return_label g' = cur_return_label g;
  pr_objs : forall v, objs g' v = objs g v \/
    (v ∈ l /\ is_promotable (objs g v) = true /\ exists r, r ∈ pool /\ objs g' v = (objs g v) <| o_reg := r |>);
  pr_inj : forall v w, objs g' v <> objs g v -> objs g' w <> objs g w -> o_reg (objs g' v) = o_reg (objs g' w) -> v = w;
}.

Lemma promote_run l : forall pool g g' c,
  promote pool l g = Done tt g' c -> NoDup l -> NoDup pool -> (forall v, v ∈ l -> o_reg (objs g v) = 0) -> 0 ∉ pool ->
  c = [] /\ promoted l pool g g'.
Proof.
  induction l as [|v l IH]; intros pool g g' c E Hl Hp H0 Hn.
  - injection E as <- <-. split; [done|]. split; auto. intros v w H. done.
  - destruct pool as [|r pool]; [injection E as <- <-; split; [done|]; split; auto; intros w w' H; done|].
    cbn [promote] in E. apply bind_inv in E as (o & g1 & c1 & c2 & [= <- <- <-] & E & ->).
    apply NoDup_cons in Hl as [Hv Hl]. apply NoDup_cons in Hp as [Hr Hp].
    destruct (is_promotable (objs g v)) eqn:Ep.
    + apply bind_inv in E as ([] & g1 & c1 & c3 & [= <- <-] & E & ->).
      set (g1 := g <| objs ::= fun o => upd o v ((o v) <| o_reg := r |>) |>) in *.
      assert (Ho : forall w, w <> v -> objs g1 w = objs g w) by (intros w Hw; cbn; by apply upd_ne).
      assert (Hov : objs g1 v = (objs g v) <| o_reg := r |>) by (cbn; by apply upd_same).
      destruct (IH pool g1 g' c3 E Hl Hp) as [-> [P1 P2 P3 P4]].
      { intros w Hw. rewrite Ho by (intros ->; done). apply H0. by right. }
      { intros Hp0. apply Hn. by right. }
      assert (Hgv : objs g' v = (objs g v) <| o_reg := r |>) by (destruct (P3 v) as [->|(Hin & _)]; done).
      split; [done|]. split; [done|done| |].
      * intros w. destruct (decide (w = v)) as [->|Hw].
        { right. split; [by left|]. split; [done|]. exists r. split; [by left|done]. }
        rewrite <- (Ho w Hw). destruct (P3 w) as [Ew|(Hin & Hpr & r' & Hr' & Ew)]; [auto|]. right.
        split; [by right|]. split; [done|]. exists r'. split; [by right|done].
      * assert (Hdiff : forall w, w <> v -> objs g' w <> objs g w -> o_reg (objs g' w) ∈ pool).
        { intros w Hw Hc. rewrite <- (Ho w Hw) in Hc. destruct (P3 w) as [Ew|(_ & _ & r' & Hr' & Ew)]; [done|]. by rewrite Ew. }
        intros w w' Hw Hw' Heq. destruct (decide (w = v)) as [->|Hwv], (decide (w' = v)) as [->|Hwv']; [done|..].
        -- exfalso. apply Hr. rewrite Hgv in Heq. cbn in Heq. rewrite Heq. by apply Hdiff.
        -- exfalso. apply Hr. rewrite Hgv in Heq. cbn in Heq. rewrite <- Heq. by apply Hdiff.
        -- apply P4; [by rewrite Ho|by rewrite Ho|done].
    + destruct (IH (r :: pool) g g' c2 E Hl) as [-> [P1 P2 P3 P4]]; [by apply NoDup_cons| |done|].
      { intros w Hw. apply H0. by right. }
      split; [done|]. split; [done|done| |exact P4]. intros w. destruct (P3 w) as [Ew|(Hin & H)]; [auto|]. right. split; [by right|done].
Qed.

(** The types whose values fill one word; a [long] may be wider, the others are not. *)
Definition word_scalar (ty : Ty) : Prop := ty_kind ty ∈ [TY_INT; TY_ENUM; TY_PTR] \/ ty_kind ty = TY_LONG /\ ty_size ty = 4.

Lemma promotable_word o : is_promotable o = true -> o_is_local o = true /\ word_scalar (o_ty o).
Proof.
  unfold is_promotable, word_scalar. intros H. destruct (o_is_local o); [|done]. split; [done|].
  case_match eqn:E; [done|]. destruct (ty_kind (o_ty o)); try done; [left; lit|right; split; [done|lia]|left; lit|left; lit].
Qed.

(** What the allocator does to a function. *)
Record allocated (f : Z) (g g' : cg) : Prop := {
  al_fn : cur_fn g' = cur_fn g;
  al_label : cur_return_label g' = cur_return_label g;
  al_objs : forall v, (objs g' v) <| o_addr_taken := false |> <| o_reg := 0 |> = (objs g v) <| o_addr_taken := false |> <| o_reg := 0 |>;
  al_reg : forall v, o_reg (objs g' v) <> 0 ->
    v ∈ o_locals (objs g f) /\ o_reg (objs g' v) ∈ [2; 3; 4] /\ o_is_local (objs g v) = true /\ word_scalar (o_ty (objs g v));
  al_inj : forall v w, o_reg (objs g' v) <> 0 -> o_reg (objs g' v) = o_reg (objs g' w) -> v = w;
  al_addr : forall v body, o_body (objs g f) = Some body -> takes_addr v body -> o_reg (objs g' v) = 0;
}.

Lemma marked_fields g g' v : marked g g' ->
  (objs g' v) <| o_addr_taken := false |> = (objs g v) <| o_addr_taken := false |>.
Proof. intros M. by destruct (mk_objs _ _ M v) as [-> | ->]. Qed.

Lemma marked_reg g g' v : marked g g' -> o_reg (objs g' v) = o_reg (objs g v).
Proof. intros M. by destruct (mk_objs _ _ M v) as [-> | ->]. Qed.

Lemma promotable_reg o r : is_promotable (o <| o_reg := r |>) = is_promotable o.
Proof. done. Qed.

Lemma analyze_run fuel f g g' c :
  analyze_and_allocate fuel f g = Done tt g' c -> NoDup (o_locals (objs g f)) -> (forall v, o_reg (objs g v) = 0) ->
  c = [] /\ allocated f g g'.
Proof.
  intros E Hl H0. unfold analyze_and_allocate in E.
  apply bind_inv in E as ([] & g1 & c1 & c2 & [= <- <-] & E & ->).
  set (g1 := g <| ra_leaf := true |> <| ra_scalar := true |>) in *.
  apply bind_inv in E as (fn & g1' & c1 & c3 & [= <- <- <-] & E & ->).
  apply bind_inv in E as ([] & g2 & c1 & c2 & E2 & E & ->).
  assert (V2 : visit (each_g check_local (o_locals (objs g1 f)))).
  { apply visit_each. intros v. unfold check_local, obj. visits. }
  destruct (V2 _ _ _ _ E2) as [-> M2].
  apply bind_inv in E as ([] & g3 & c1 & c4 & E3 & E & ->). destruct (visit_ra _ _ _ _ _ _ E3) as [-> M3].
  apply bind_inv in E as (leaf & g3' & c1 & c5 & [= <- <- <-] & E & ->).
  apply bind_inv in E as (scalar & g3' & c1 & c6 & [= <- <- <-] & E & ->).
  assert (M : marked g g3).
  { apply (marked_trans g g1); [by split; auto|by apply (marked_trans g1 g2)]. }
  assert (Hr3 : forall v, o_reg (objs g3 v) = 0) by (intros v; by rewrite (marked_reg _ _ _ M)).
  destruct (negb (ra_leaf g3) || negb (ra_scalar g3)).
  - injection E as <- <-. split; [done|]. split; try apply M; try (intros; exfalso; by auto); auto.
    intros v. by rewrite (marked_fields _ _ _ M).
  - destruct (promote_run _ _ _ _ _ E) as [-> [P1 P2 P3 P4]]; [done|by do 2 (apply NoDup_cons; split; [lit|]); apply NoDup_singleton|auto|lit|].
    split; [done|]. split.
    + by rewrite P1, (mk_fn _ _ M).
    + by rewrite P2, (mk_label _ _ M).
    + intros v. pose proof (marked_fields _ _ v M) as Hf. destruct (P3 v) as [->|(_ & _ & r & _ & ->)]; by rewrite <- Hf.
    + intros v Hv. destruct (P3 v) as [E'|(Hin & Hp & r & Hr & E')]; [by rewrite E', Hr3 in Hv|].
      split; [exact Hin|]. rewrite E'. split; [exact Hr|]. pose proof (marked_fields _ _ v M) as Hf.
      destruct (promotable_word _ Hp) as [Hl' Hw]. by rewrite (f_equal o_is_local Hf : o_is_local (objs g3 v) = _), (f_equal o_ty Hf : o_ty (objs g3 v) = _) in *.
    + intros v w Hv Heq. assert (forall w, o_reg (objs g' w) <> 0 -> objs g' w <> objs g3 w) as Hc by (intros w' H' E'; by rewrite E', Hr3 in H').
      apply P4; [by apply Hc|apply Hc; by rewrite <- Heq|done].
    + intros v body Hb Ht. pose proof (marks_ra v body Ht) as Hm. rewrite Hb in E3.
      pose proof (Hm _ _ _ _ _ E3) as Htaken. destruct (P3 v) as [->|(_ & Hp & _)]; [apply Hr3|].
      unfold is_promotable in Hp. by rewrite Htaken, orb_true_r in Hp.
Qed.
