(* ===== verification/CodegenTotal.v ===== *)
(** * CodegenTotal: frames are laid out and the generator terminates *)

From S2P Require Import Prelude Config Kernel Klog RawMem UserMem LibString LibFormat GuestAsm GuestAsmSpec Codegen Cpu AsmLines AsmCode GenLogic CodegenAlloc.

(** * The frame of a function

    [assign_lvar_offsets] gives every local its own place in the frame, above the frame
    register and below the size of the frame, and every parameter its place among the
    words that the caller pushed. *)

(** ** Sizes *)

(** The bytes of a type's slot: whole words, at least one. *)
Definition slot_bytes (ty : Ty) : Z := (Z.max (ty_size ty) 1 + 3) / 4 * 4.

Lemma align_up n a : 0 <= n -> 0 < a <= 4 -> n + 4 < 2 ^ 31 ->
  Codegen.align_to n a = (n + a - 1) / a * a /\ n <= Codegen.align_to n a < n + a.
Proof.
  intros Hn Ha Hb. unfold Codegen.align_to. rewrite (i32_id (n + a)) by (unfold is_i32; lia).
  rewrite (i32_id (n + a - 1)) by (unfold is_i32; lia). rewrite Z.quot_div_nonneg by lia.
  pose proof (Z.div_mod (n + a - 1) a ltac:(lia)). pose proof (Z.mod_pos_bound (n + a - 1) a ltac:(lia)).
  rewrite i32_id by (unfold is_i32; lia). lia.
Qed.

Lemma slot_size_run ty : ty_size ty < 2 ^ 31 - 8 -> slot_size ty = slot_bytes ty /\ 4 <= slot_bytes ty /\ ty_size ty <= slot_bytes ty.
Proof.
  intros H. unfold slot_size, slot_bytes, at_least_1.
  assert ((if ty_size ty <? 1 then 1 else ty_size ty) = Z.max (ty_size ty) 1) as -> by (case_match; lia).
  destruct (align_up (Z.max (ty_size ty) 1) 4) as [-> Hr]; [lia..|].
  replace (Z.max (ty_size ty) 1 + 4 - 1) with (Z.max (ty_size ty) 1 + 3) by lia. split; [done|].
  pose proof (Z.div_mod (Z.max (ty_size ty) 1 + 3) 4 ltac:(lia)). pose proof (Z.mod_pos_bound (Z.max (ty_size ty) 1 + 3) 4 ltac:(lia)). lia.
Qed.

(** One variable. *)
Definition offset_at (v k : Z) (g : cg) : cg := g <| objs ::= fun o => upd o v ((o v) <| o_offset := k |>) |>.

Lemma place_local_run top v g :
  place_local top v g =
  (let k := Codegen.align_to top (if o_align (objs g v) <? 4 then o_align (objs g v) else 4) in
   Done (k +! slot_size (o_ty (objs g v))) (offset_at v k g) []).
Proof. reflexivity. Qed.

Lemma place_param_run acc v g :
  place_param acc v g =
  (let n := acc +! slot_size (o_ty (objs g v)) in Done n (offset_at v (0 -! n) g) []).
Proof. reflexivity. Qed.

Lemma fold_g_cons {A B} (m : B -> A -> G B) b x l g b1 g1 b2 g2 :
  m b x g = Done b1 g1 [] -> fold_g m b1 l g1 = Done b2 g2 [] -> fold_g m b (x :: l) g = Done b2 g2 [].
Proof. intros E1 E2. cbn [fold_g]. unfold mbind, G_bind. by rewrite E1, E2. Qed.

Section frame.
(** The variables before the layout. *)
Context (os : Z -> Obj).
Context (Hsmall : forall v, ty_size (o_ty (os v)) < 2 ^ 31 - 8).
Context (Halign : forall v, 0 < o_align (os v)).
#[local] Set Default Proof Using "Type*".

Definition frame_align (v : Z) : Z := Z.min (o_align (os v)) 4.
Local Abbreviation slot v := (slot_bytes (o_ty (os v))).

(** At most what the locals need. *)
Definition need (ls : list Z) : Z := foldr (fun v n => slot v + 3 + n) 0 ls.

Lemma need_cons v ls : need (v :: ls) = slot v + 3 + need ls.
Proof using. done. Qed.

Lemma need_nonneg ls : 0 <= need ls.
Proof. induction ls as [|v ls IH]; [done|]. rewrite need_cons. pose proof (slot_size_run _ (Hsmall v)). lia. Qed.

(** Only offsets differ from the variables before the layout. *)
Definition moved (o : Z -> Obj) : Prop := forall v, exists k, o v = (os v) <| o_offset := k |>.

Lemma moved_set o v k : moved o -> moved (upd o v ((o v) <| o_offset := k |>)).
Proof using.
  intros H w. destruct (upd_case o v ((o v) <| o_offset := k |>) w) as [[-> ->]|[_ ->]]; [|apply H].
  destruct (H w) as [j ->]. by exists k.
Qed.

Lemma moved_fields o v : moved o -> o_ty (o v) = o_ty (os v) /\ o_align (o v) = o_align (os v).
Proof using. intros H. destruct (H v) as [k ->]. done. Qed.

(** Places of [ls] between [lo] and [hi], in order. *)
Record placed_in (ls : list Z) (lo hi : Z) (o : Z -> Obj) : Prop := {
  pi_in : forall v, v ∈ ls -> lo <= o_offset (o v) /\ o_offset (o v) + slot v <= hi /\ o_offset (o v) mod frame_align v = 0;
  pi_apart : forall v w, v ∈ ls -> w ∈ ls -> v <> w ->
    o_offset (o v) + slot v <= o_offset (o w) \/ o_offset (o w) + slot w <= o_offset (o v);
}.

Lemma place_locals ls : forall top g, NoDup ls -> 0 <= top -> top + need ls + 4 < 2 ^ 31 -> moved (objs g) ->
  exists hi g', fold_g place_local top ls g = Done hi g' [] /\ top <= hi <= top + need ls /\ moved (objs g') /\
    placed_in ls top hi (objs g') /\ (forall v, v ∉ ls -> objs g' v = objs g v).
Proof.
  induction ls as [|v ls IH]; intros top g Hnd Ht Hn Hm.
  { exists top, g. cbn. split; [done|]. split; [lia|]. split; [done|]. split; [|done]. split; [intros v Hv|intros v w Hv]; by apply elem_of_nil in Hv. }
  apply NoDup_cons in Hnd as [Hv Hnd]. destruct (slot_size_run _ (Hsmall v)) as (Esl & Hs4 & _).
  rewrite need_cons in Hn. pose proof (need_nonneg ls) as Hn0. destruct (moved_fields _ v Hm) as [Ety Eal].
  set (a := frame_align v). assert (Ha : 0 < a <= 4) by (unfold a, frame_align; pose proof (Halign v); lia).
  assert (Ea : (if o_align (objs g v) <? 4 then o_align (objs g v) else 4) = a).
  { rewrite Eal. unfold a, frame_align. case_match; lia. }
  destruct (align_up top a) as [Eq Hr]; [lia..|]. set (k := Codegen.align_to top a) in *.
  set (g1 := offset_at v k g).
  assert (Hk : o_offset (objs g1 v) = k) by (cbn; by rewrite upd_same).
  destruct (IH (k + slot v) g1) as (hi & g' & E & Hhi & Hm' & [P1 P2] & Ho); [done|lia|lia|by apply moved_set|].
  assert (Hg'v : o_offset (objs g' v) = k) by (by rewrite Ho).
  exists hi, g'. split.
  - eapply fold_g_cons; [|exact E]. rewrite place_local_run. cbv zeta. rewrite Ea. fold k.
    by rewrite Ety, Esl, (i32_id (k + slot v)) by (unfold is_i32; lia).
  - rewrite need_cons. split; [lia|]. split; [done|]. split; [split|].
    + intros w [-> | Hw]%elem_of_cons; [|destruct (P1 w Hw) as (H1 & H2 & H3); lia]. rewrite Hg'v. fold a. split; [lia|]. split; [lia|].
      rewrite Eq. apply Z.mod_mul. lia.
    + intros w w' [-> | Hw]%elem_of_cons [-> | Hw']%elem_of_cons Hne; [done| | |auto].
      * left. destruct (P1 w' Hw') as (H1 & _). by rewrite Hg'v.
      * right. destruct (P1 w Hw) as (H1 & _). by rewrite Hg'v.
    + intros w Hw. rewrite Ho by (intros H; apply Hw; by right). cbn. apply upd_ne. intros ->. apply Hw. by left.
Qed.

(** The words of the parameters, the last one lowest. *)
Definition pushed (ps : list Z) : Z := foldr (fun v n => slot v + n) 0 ps.

Lemma pushed_cons v ps : pushed (v :: ps) = slot v + pushed ps.
Proof using. done. Qed.

Lemma pushed_nonneg ps : 0 <= pushed ps.
Proof. induction ps as [|v ps IH]; [done|]. rewrite pushed_cons. pose proof (slot_size_run _ (Hsmall v)). lia. Qed.

Lemma place_params ps : forall acc g, NoDup ps -> 0 <= acc -> acc + pushed ps < 2 ^ 31 -> (forall v, o_ty (objs g v) = o_ty (os v)) ->
  exists g', fold_g place_param acc ps g = Done (acc + pushed ps) g' [] /\
    (forall v, exists k, objs g' v = (objs g v) <| o_offset := k |>) /\ (forall v, v ∉ ps -> objs g' v = objs g v) /\
    (forall pre v post, ps = pre ++ v :: post -> o_offset (objs g' v) = - (acc + pushed pre + slot v)).
Proof.
  induction ps as [|v ps IH]; intros acc g Hnd Ha Hp Hm.
  { exists g. cbn. rewrite Z.add_0_r. split; [done|]. split; [intros v; exists (o_offset (objs g v)); by destruct (objs g v)|].
    split; [done|]. by intros [|] ? ?. }
  apply NoDup_cons in Hnd as [Hv Hnd]. destruct (slot_size_run _ (Hsmall v)) as (Esl & Hs4 & _).
  rewrite pushed_cons in Hp. pose proof (pushed_nonneg ps).
  set (k := - (acc + slot v)). set (g1 := offset_at v k g).
  assert (H1 : forall w, exists j, objs g1 w = (objs g w) <| o_offset := j |>).
  { intros w. cbn. destruct (upd_case (objs g) v ((objs g v) <| o_offset := k |>) w) as [[-> ->]|[_ ->]]; [by exists k|].
    exists (o_offset (objs g w)). by destruct (objs g w). }
  destruct (IH (acc + slot v) g1) as (g' & E & Hm' & Ho & Hall); [done|lia|lia| |].
  { intros w. destruct (H1 w) as [j ->]. apply Hm. }
  exists g'. split; [|split; [|split]].
  - rewrite pushed_cons. rewrite Z.add_assoc. eapply fold_g_cons; [|exact E]. rewrite place_param_run. cbv zeta.
    rewrite Hm, Esl, (i32_id (acc + slot v)) by (unfold is_i32; lia). rewrite (i32_id (0 - (acc + slot v))) by (unfold is_i32; lia).
    by replace (0 - (acc + slot v)) with k by (unfold k; lia).
  - intros w. destruct (Hm' w) as [j ->], (H1 w) as [i ->]. by exists j.
  - intros w Hw. rewrite Ho by (intros H'; apply Hw; by right). cbn. apply upd_ne. intros ->. apply Hw. by left.
  - intros [|u pre] w post Hps; injection Hps as -> ->.
    + rewrite Ho by done. cbn. rewrite upd_same. cbn. unfold k. lia.
    + rewrite (Hall pre w post) by done. rewrite pushed_cons. lia.
Qed.

(** What the layout of the function [f] leaves. *)
Record frame_laid (f : Z) (g' : cg) : Prop := {
  fl_others : forall v, v <> f -> exists k, objs g' v = (os v) <| o_offset := k |>;
  fl_self : exists size, objs g' f = (os f) <| o_stack_size := size |>;
  fl_stack : 0 <= o_stack_size (objs g' f) /\ o_stack_size (objs g' f) mod 4 = 0;
  fl_locals : placed_in (filter (fun v => v ∉ o_params (os f)) (o_locals (os f))) 0 (o_stack_size (objs g' f)) (objs g');
  fl_params : forall pre v post, o_params (os f) = pre ++ v :: post ->
    o_offset (objs g' v) = - ((if is_aggregate (ty_return (o_ty (os f))) then 4 else 0) + pushed pre + slot v);
}.

Lemma placed_in_sub ls ls' lo hi o o' :
  placed_in ls lo hi o -> (forall v, v ∈ ls' -> v ∈ ls /\ o' v = o v) -> placed_in ls' lo hi o'.
Proof using.
  intros [H1 H2] Hs. split.
  - intros v Hv. destruct (Hs v Hv) as [Hv' ->]. by apply H1.
  - intros v w Hv Hw. destruct (Hs v Hv) as [Hv' ->], (Hs w Hw) as [Hw' ->]. by apply H2.
Qed.

Lemma frame_layout_run f g :
  objs g = os -> NoDup (o_locals (os f)) -> NoDup (o_params (os f)) -> f ∉ o_locals (os f) -> f ∉ o_params (os f) ->
  need (o_locals (os f)) + pushed (o_params (os f)) + 12 < 2 ^ 31 ->
  exists g', assign_lvar_offsets f g = Done tt g' [] /\ frame_laid f g'.
Proof.
  intros Hos Hl Hp Hfl Hfp Hn. pose proof (need_nonneg (o_locals (os f))). pose proof (pushed_nonneg (o_params (os f))).
  destruct (place_locals (o_locals (os f)) 0 g) as (hi & g1 & E1 & Hhi & Hm1 & P1 & O1); [done|lia|lia|rewrite Hos; intros v; exists (o_offset (os v)); by destruct (os v)|].
  destruct (align_up hi 4) as [Eq Hr]; [lia..|]. set (size := Codegen.align_to hi 4) in *.
  set (acc := if is_aggregate (ty_return (o_ty (os f))) then 4 else 0). assert (Hacc : 0 <= acc <= 4) by (unfold acc; case_match; lia).
  set (g2 := g1 <| objs ::= fun o => upd o f ((o f) <| o_stack_size := size |>) |>).
  assert (Hty : forall v, o_ty (objs g2 v) = o_ty (os v)).
  { intros v. cbn. destruct (upd_case (objs g1) f ((objs g1 f) <| o_stack_size := size |>) v) as [[-> ->]|[_ ->]]; by apply (moved_fields _ _ Hm1). }
  assert (H2f : objs g2 f = (os f) <| o_stack_size := size |>) by (cbn; by rewrite upd_same, O1, Hos by done).
  assert (H2 : forall v, v <> f -> objs g2 v = objs g1 v) by (intros v Hv; cbn; by apply upd_ne).
  destruct (place_params (o_params (os f)) acc g2) as (g3 & E3 & M3 & O3 & P3); [done|lia|lia|done|].
  assert (H3f : o_stack_size (objs g3 f) = size) by (by rewrite O3, H2f by done).
  exists g3. split; [|split].
  - unfold assign_lvar_offsets, obj, gets, set_obj, modify, mbind, G_bind, mret, G_ret. cbv beta iota. rewrite Hos, E1. fold size g2. fold acc. by rewrite E3.
  - intros v Hv. destruct (M3 v) as [k ->]. rewrite H2 by done. destruct (Hm1 v) as [j ->]. by exists k.
  - exists size. by rewrite O3, H2f by done.
  - rewrite H3f. split; [lia|]. rewrite Eq. by apply Z.mod_mul.
  - rewrite H3f. apply (placed_in_sub (o_locals (os f)) _ _ _ (objs g1)).
    + destruct P1 as [P1 P2]. split; [|done]. intros v Hv. destruct (P1 v Hv) as (? & ? & ?). lia.
    + intros v [Hp' Hl']%list_elem_of_filter. split; [done|]. rewrite O3, H2 by (try done; intros ->; done). done.
  - intros pre v post Hps. by apply (P3 pre v post).
Qed.
End frame.

(** * The generator terminates

    A function of the generator calls another one on the same tree at most a few times
    before it goes on to a subtree, so the fuel that [gen_function] starts with is never
    used up: the generator ends with code, with an error message, or at undefined
    behaviour of the compiler. *)

(** The computation does not stop for want of fuel. *)
Definition enough (A : Type) (m : G A) : Prop := forall g, m g <> Halt CgNoFuel.

Lemma enough_ret A (a : A) : enough A (mret a).
Proof. by intros g. Qed.

Lemma enough_bind A B (m : G A) (k : A -> G B) : enough A m -> (forall a, enough B (k a)) -> enough B (mbind k m).
Proof.
  intros Hm Hk g. unfold mbind, G_bind. specialize (Hm g). destruct (m g) as [a g1 c|why]; [|by intros [= ->]].
  specialize (Hk a g1). destruct (k a g1); [done|by intros [= ->]].
Qed.

Lemma enough_halt A why : why <> CgNoFuel -> enough A (halt why).
Proof. by intros H g [= ->]. Qed.

Lemma enough_gets A (f : cg -> A) : enough A (gets f).
Proof. by intros g. Qed.

Lemma enough_line l : enough unit (wr_line l).
Proof. by intros g. Qed.

Lemma enough_label : enough (list Z) new_label.
Proof. by intros g. Qed.

Lemma enough_modify f : enough unit (modify f).
Proof. by intros g. Qed.

Lemma enough_deref A (p : option A) : enough A (deref p).
Proof. destruct p; [apply enough_ret|by apply enough_halt]. Qed.

(** The target of a pointer, which is one. *)
Lemma enough_target A B (p : option A) (k : A -> G B) : (forall a, p = Some a -> enough B (k a)) -> enough B (mbind k (deref p)).
Proof.
  destruct p as [a|]; intros H g; [|done]. specialize (H a eq_refl g). unfold mbind, G_bind, deref, mret, G_ret.
  destruct (k a g); [done|by intros [= ->]].
Qed.

Lemma enough_each A (m : A -> G unit) l : (forall x, x ∈ l -> enough unit (m x)) -> enough unit (each_g m l).
Proof.
  induction l as [|x l IH]; intros H; cbn [each_g]; [apply enough_ret|].
  apply enough_bind; [apply H; by left|]. intros _. apply IH. intros y Hy. apply H. by right.
Qed.

Lemma enough_sum A (m : A -> G Z) l : (forall x, x ∈ l -> enough Z (m x)) -> enough Z (sum_g m l).
Proof.
  induction l as [|x l IH]; intros H; cbn [sum_g]; [apply enough_ret|].
  apply enough_bind; [apply H; by left|]. intros n. apply enough_bind; [|intros k; apply enough_ret].
  apply IH. intros y Hy. apply H. by right.
Qed.

(** ** Heights *)

Definition hopt (p : option Node) : nat := match p with Some n => height n | None => O end.

Lemma height_list (l : list Node) x :
  x ∈ l -> (height x <= (fix h (ns : list Node) := match ns with [] => O | n :: ns' => Nat.max (height n) (h ns') end) l)%nat.
Proof.
  induction l as [|y l IH]; intros H; [by apply elem_of_nil in H|]. apply elem_of_cons in H as [->|H]; [lia|]. specialize (IH H). lia.
Qed.

(** The height of a list of trees. *)
Lemma height_kids e p : p ∈ n_body e \/ p ∈ n_args e -> (height p < height e)%nat.
Proof.
  destruct e as [k ty lhs rhs cond then_ els init inc bl cl body mb args rb lb ul cases dflt b en a v vl fv]. cbn [n_body n_args].
  intros [H | H]; cbn [height]; apply le_n_S; (etransitivity; [apply height_list, H|apply list_max_in; cbn; tauto]).
Qed.

Lemma height_sub e p :
  p = n_lhs e \/ p = n_rhs e \/ p = n_cond e \/ p = n_then e \/ p = n_els e \/ p = n_init e \/ p = n_inc e \/ p = n_default_case e ->
  (hopt p < height e)%nat.
Proof.
  destruct e as [k ty lhs rhs cond then_ els init inc bl cl body mb args rb lb ul cases dflt b en a v vl fv]. cbn [n_lhs n_rhs n_cond n_then n_els n_init n_inc n_default_case].
  intros H. cbn [height]. apply le_n_S.
  repeat (destruct H as [->|H]; [apply list_max_in; cbn; tauto|]). subst p. apply list_max_in; cbn; tauto.
Qed.

Section total.
Context (tr : Z -> Z -> Z).

(** The fuel for a tree: eight times its height, and the length of the longest chain of
    calls on the same tree. *)
Definition fuel_at (f : nat) (p : option Node) (rank : nat) : Prop := (8 * hopt p + rank <= f)%nat.

Record total (f : nat) : Prop := {
  to_expr p : fuel_at f p 6 -> enough _ (gen_expr tr f p);
  to_addr p : fuel_at f p 4 -> enough _ (gen_addr tr f p);
  to_cond p : fuel_at f p 7 -> enough _ (gen_cond tr f p);
  to_conditional e : fuel_at f (Some e) 1 -> enough _ (gen_conditional tr f e);
  to_logical e : fuel_at f (Some e) 1 -> enough _ (gen_logical tr f e);
  to_binary e : fuel_at f (Some e) 2 -> enough _ (gen_binary tr f e);
  to_value_as p ty : fuel_at f p 8 -> enough _ (gen_value_as tr f p ty);
  to_aggregate e : fuel_at f (Some e) 1 -> enough _ (gen_aggregate_assign tr f e);
  to_value64 p : fuel_at f p 7 -> enough _ (gen64_value tr f p);
  to_assign64 e : fuel_at f (Some e) 1 -> enough _ (gen64_assign tr f e);
  to_binary64 e h : fuel_at f (Some e) 1 -> enough _ (gen64_binary tr f e h);
  to_shift64 e h : fuel_at f (Some e) 1 -> enough _ (gen64_shift tr f e h);
  to_unary64 p h : fuel_at f p 8 -> enough _ (gen64_unary tr f p h);
  to_compare64 e : fuel_at f (Some e) 1 -> enough _ (gen64_compare tr f e);
  to_expr64 e : fuel_at f (Some e) 5 -> enough _ (gen64_expr tr f e);
  to_fbinary e : fuel_at f (Some e) 1 -> enough _ (gen_float_binary tr f e);
  to_dbinary e : fuel_at f (Some e) 1 -> enough _ (gen_double_binary tr f e);
  to_fexpr e : fuel_at f (Some e) 5 -> enough _ (gen_float_expr tr f e);
  to_dexpr e : fuel_at f (Some e) 5 -> enough _ (gen_double_expr tr f e);
  to_fvalue p : fuel_at f p 7 -> enough _ (gen_float_value tr f p);
  to_dvalue p : fuel_at f p 7 -> enough _ (gen_double_value tr f p);
  to_fvalue_float e : is_float_ty (n_ty e) = true -> fuel_at f (Some e) 6 -> enough _ (gen_float_value tr f (Some e));
  to_dvalue_double e : is_double_ty (n_ty e) = true -> fuel_at f (Some e) 6 -> enough _ (gen_double_value tr f (Some e));
  to_fcompare e : fuel_at f (Some e) 1 -> enough _ (gen_float_compare tr f e);
  to_push e : fuel_at f (Some e) 8 -> enough _ (push_call_arg tr f e);
  to_regs e rs : fuel_at f (Some e) 1 -> enough _ (into_regs tr f e rs);
  to_intrinsic e : fuel_at f (Some e) 2 -> enough _ (gen_intrinsic tr f e);
  to_call e : fuel_at f (Some e) 3 -> enough _ (gen_call tr f e);
  to_return p : fuel_at f p 5 -> enough _ (return_aggregate tr f p);
  to_stmt p : fuel_at f p 7 -> enough _ (gen_stmt tr f p);
}.

(** The parts without recursion. *)
Local Abbreviation part L := (L enough enough_ret enough_bind enough_halt enough_gets enough_line enough_label).

Lemma enough_rev A (m : A -> G Z) l : (forall x, x ∈ l -> enough Z (m x)) -> enough Z (sum_g m (rev l)).
Proof. intros H. apply enough_sum. intros x Hx. apply H. by rewrite list_elem_of_In, in_rev, <- list_elem_of_In. Qed.

(** There is fuel for a call on the same tree, or on a subtree. *)
Ltac fuel :=
  unfold fuel_at in *; cbn [hopt] in *;
  repeat match goal with
    | |- context [hopt (?f ?e)] =>
        lazymatch goal with H : (hopt (f e) < height e)%nat |- _ => fail | _ => pose proof (height_sub e (f e) ltac:(tauto)) end
    | H : ?f ?e = Some ?n |- context [height ?n] =>
        let X := fresh in pose proof (height_sub e (f e) ltac:(tauto)) as X; rewrite H in X; cbn [hopt] in X; clear H
    | H : ?x ∈ n_body ?e |- _ => pose proof (height_kids e x (or_introl H)); clear H
    | H : ?x ∈ n_args ?e |- _ => pose proof (height_kids e x (or_intror H)); clear H
    end; lia.

Ltac call IH :=
  match goal with
  | |- enough _ (gen_expr _ _ _) => apply (to_expr _ IH)
  | |- enough _ (gen_addr _ _ _) => apply (to_addr _ IH)
  | |- enough _ (gen_cond _ _ _) => apply (to_cond _ IH)
  | |- enough _ (gen_conditional _ _ _) => apply (to_conditional _ IH)
  | |- enough _ (gen_logical _ _ _) => apply (to_logical _ IH)
  | |- enough _ (gen_binary _ _ _) => apply (to_binary _ IH)
  | |- enough _ (gen_value_as _ _ _ _) => apply (to_value_as _ IH)
  | |- enough _ (gen_aggregate_assign _ _ _) => apply (to_aggregate _ IH)
  | |- enough _ (gen64_value _ _ _) => apply (to_value64 _ IH)
  | |- enough _ (gen64_assign _ _ _) => apply (to_assign64 _ IH)
  | |- enough _ (gen64_binary _ _ _ _) => apply (to_binary64 _ IH)
  | |- enough _ (gen64_shift _ _ _ _) => apply (to_shift64 _ IH)
  | |- enough _ (gen64_unary _ _ _ _) => apply (to_unary64 _ IH)
  | |- enough _ (gen64_compare _ _ _) => apply (to_compare64 _ IH)
  | |- enough _ (gen64_expr _ _ _) => apply (to_expr64 _ IH)
  | |- enough _ (gen_float_binary _ _ _) => apply (to_fbinary _ IH)
  | |- enough _ (gen_double_binary _ _ _) => apply (to_dbinary _ IH)
  | |- enough _ (gen_float_expr _ _ _) => apply (to_fexpr _ IH)
  | |- enough _ (gen_double_expr _ _ _) => apply (to_dexpr _ IH)
  | H : is_float_ty (n_ty ?e) = true |- enough _ (gen_float_value _ _ (Some ?e)) => apply (to_fvalue_float _ IH e H)
  | H : is_double_ty (n_ty ?e) = true |- enough _ (gen_double_value _ _ (Some ?e)) => apply (to_dvalue_double _ IH e H)
  | |- enough _ (gen_float_value _ _ _) => apply (to_fvalue _ IH)
  | |- enough _ (gen_double_value _ _ _) => apply (to_dvalue _ IH)
  | |- enough _ (gen_float_compare _ _ _) => apply (to_fcompare _ IH)
  | |- enough _ (push_call_arg _ _ _) => apply (to_push _ IH)
  | |- enough _ (into_regs _ _ _ _) => apply (to_regs _ IH)
  | |- enough _ (gen_intrinsic _ _ _) => apply (to_intrinsic _ IH)
  | |- enough _ (gen_call _ _ _) => apply (to_call _ IH)
  | |- enough _ (return_aggregate _ _ _) => apply (to_return _ IH)
  | |- enough _ (gen_stmt _ _ _) => apply (to_stmt _ IH)
  end; fuel.

Ltac close IH :=
  cbv zeta;
  repeat first
    [ assumption
    | match goal with
      | |- enough _ (mbind _ (deref _)) => let E := fresh in apply enough_target; intros ? E; first [injection E as <- | subst | idtac]
      | |- enough _ (mbind _ _) => apply enough_bind; [|intros ?]
      | |- enough _ (mret _) => apply enough_ret
      | |- enough _ (halt _) => by apply enough_halt
      | |- enough _ (gets _) => apply enough_gets
      | |- enough _ (wr_line _) => apply enough_line
      | |- enough _ new_label => apply enough_label
      | |- enough _ (each_g _ _) => apply enough_each; intros ? ?
      | |- enough _ (sum_g _ (rev _)) => apply enough_rev; intros ? ?
      end
    | call IH
    | match goal with |- enough _ (match ?x with _ => _ end) => destruct x eqn:? end
    | match goal with H : forall _, _ |- _ => apply H end
    | progress (unfold error, obj, ins, ins_imm, ins_sym, emit_label, jmp, Codegen.push, push_reg, Codegen.pop, push_tmp, push_tmp_reg, pop_tmp,
        adjust_csp, Codegen.call, push_pair, cmp_zero, set_if, sign_test, by_sign, return_ty) ].

Lemma total_all f : total f.
Proof.
  pose proof (part P_emit_var_addr). pose proof (part P_load). pose proof (part P_store). pose proof (part P_copy_bytes).
  pose proof (part P_widen64). pose proof (part P_helper64). pose proof (part P_float_helper).
  pose proof (part P_cast_to). pose proof (part P_gen_memzero). pose proof (part P_gen_asm). pose proof (part P_binary_op).
  pose proof (part P_var_reg). pose proof (part P_callee_name). pose proof (part P_pop_regs). pose proof (part P_load64).
  induction f as [|f IH]; [split; intros; unfold fuel_at in *; lia|].
  split; intros; gen_unfold; close IH.
Qed.

(** ** Functions and data *)

Lemma enough_mark node : enough unit (mark_addr_taken node).
Proof.
  remember (height node) as h eqn:Eh. assert (Hh : (height node <= h)%nat) by lia. clear Eh. revert node Hh.
  induction h as [|h IH]; intros node Hh; [destruct node; cbn in Hh; lia|].
  rewrite mark_unfold. destruct (n_kind node); try apply enough_ret.
  - destruct (n_lhs node) as [l|] eqn:El; [|apply enough_ret]. apply IH. pose proof (height_child node l ltac:(tauto)). lia.
  - destruct (n_var node); [apply enough_modify|apply enough_ret].
Qed.

Ltac plain := repeat first
  [ apply enough_ret | apply enough_gets | apply enough_modify | apply enough_line | apply enough_label | apply enough_mark
  | apply enough_deref | apply enough_bind; [|intros ?] | by apply enough_halt
  | match goal with |- enough _ (match ?x with _ => _ end) => destruct x eqn:? end ].

Lemma enough_visit f : forall p, (hopt p < f)%nat -> enough unit (ra_visit f p).
Proof.
  induction f as [|f IH]; intros p Hf; [lia|]. cbn [ra_visit]. destruct p as [node|]; [|apply enough_ret]. cbn [hopt] in Hf.
  assert (Hs : forall q, (hopt q < height node)%nat -> enough unit (ra_visit f q)) by (intros q Hq; apply IH; lia).
  apply enough_bind; [plain|]. intros _. apply enough_bind; [unfold not_scalar; plain|]. intros _.
  apply enough_bind; [unfold not_scalar; plain|]. intros _. apply enough_bind; [unfold not_scalar; plain|]. intros _.
  apply enough_bind; [|intros _; apply enough_bind; [|intros _; apply enough_bind; [|intros _]]].
  - apply enough_each. intros q Hq. apply Hs. rewrite !elem_of_cons in Hq.
    repeat (destruct Hq as [->|Hq]; [apply height_sub; tauto|]). by apply elem_of_nil in Hq.
  - apply enough_each. intros q Hq. apply Hs. cbn [hopt]. apply height_kids. by left.
  - apply enough_each. intros q Hq. apply Hs. cbn [hopt]. apply height_kids. by right.
  - apply Hs, height_sub. tauto.
Qed.

Lemma enough_promote l : forall pool, enough unit (promote pool l).
Proof. induction l as [|v l IH]; intros pool; destruct pool; cbn [promote]; unfold obj, set_obj; plain; apply IH. Qed.

(** Steps that write nothing. *)
Lemma enough_step {A B} (m : G A) (k : A -> G B) g a g1 : m g = Done a g1 [] -> k a g1 <> Halt CgNoFuel -> (mbind k m : G B) g <> Halt CgNoFuel.
Proof. intros E H. unfold mbind, G_bind. rewrite E. destruct (k a g1); [done|by intros [= ->]]. Qed.

Lemma enough_check v : enough unit (check_local v).
Proof. unfold check_local, obj, not_scalar. plain. Qed.

Lemma fuel_for_body body : (8 * hopt body + 8 <= fuel_for body)%nat.
Proof. destruct body; cbn; lia. Qed.

Lemma enough_allocate g f : analyze_and_allocate (fuel_for (o_body (objs g f))) f g <> Halt CgNoFuel.
Proof.
  unfold analyze_and_allocate. set (body := o_body (objs g f)). eapply enough_step; [reflexivity|]. eapply enough_step; [reflexivity|].
  match goal with |- ?m _ <> _ => assert (H : enough unit m); [|apply H] end.
  apply enough_bind; [apply enough_each; intros v _; apply enough_check|]. intros _. apply enough_bind.
  { apply enough_visit. cbn. fold body. pose proof (fuel_for_body body). lia. }
  intros _. plain. apply enough_promote.
Qed.

Lemma enough_prime v : enough unit (prime_param v).
Proof. unfold prime_param, obj. cbv zeta. unfold ins, ins_imm, ins_sym. plain. Qed.

Lemma enough_gen_function f : enough unit (gen_function tr f).
Proof.
  intros g. unfold gen_function. do 4 (eapply enough_step; [reflexivity|]). cbn [objs set_cur_fn set_cur_return_label setf].
  set (fn := objs g f). set (g1 := _ <| cur_return_label := _ |>). assert (Hfn : objs g1 f = fn) by done.
  pose proof (enough_allocate g1 f) as Ha. rewrite Hfn in Ha. unfold mbind at 1, G_bind at 1.
  destruct (analyze_and_allocate _ f g1) as [[] g2 c2|why]; [|by intros [= ->]].
  match goal with |- match ?m _ with _ => _ end <> _ => assert (H : enough unit m); [|specialize (H g2); by destruct (m g2)] end.
  unfold emit_label, ins, ins_imm. plain; try (apply enough_each; intros v _; apply enough_prime).
  apply (to_stmt _ (total_all _)). unfold fuel_at. cbn. lia.
Qed.

Lemma enough_fold {A B} (m : B -> A -> G B) l : (forall b x, enough B (m b x)) -> forall b, enough B (fold_g m b l).
Proof. intros H. induction l as [|x l IH]; intros b; cbn [fold_g]; [apply enough_ret|]. apply enough_bind; [apply H|apply IH]. Qed.

Lemma enough_assign f : enough unit (assign_lvar_offsets f).
Proof.
  unfold assign_lvar_offsets, obj, set_obj. plain; apply enough_fold; intros b x; unfold place_local, place_param, obj, set_obj; cbv zeta; plain.
Qed.

Lemma next_reloc_after rel i len : i < len -> i < next_reloc_offset rel i len.
Proof.
  unfold next_reloc_offset. revert len. induction rel as [|r rel IH]; intros len H; [done|]. cbn [fold_left]. apply IH. case_match; lia.
Qed.

Lemma enough_bytes f : forall bs, enough unit (byte_lines f bs).
Proof. induction f as [|f IH]; intros bs; cbn [byte_lines]; [apply enough_ret|]. destruct bs; [apply enough_ret|]. apply enough_bind; [apply enough_line|]. intros _. apply IH. Qed.

Lemma enough_init f : forall buf len rel i, (Z.to_nat (len - i) < f)%nat -> enough unit (emit_init_from f buf len rel i).
Proof.
  induction f as [|f IH]; intros buf len rel i Hf; [lia|]. cbn [emit_init_from]. destruct (Z.ltb_spec i len) as [Hi|Hi]; cbn [negb]; [|apply enough_ret].
  destruct (reloc_at rel i) as [r|].
  - apply enough_bind; [apply enough_line|]. intros _. apply IH. lia.
  - cbv zeta. destruct (Z.of_nat (length buf) <? _); [by apply enough_halt|]. apply enough_bind; [apply enough_bytes|]. intros _.
    apply IH. pose proof (next_reloc_after rel i len Hi). lia.
Qed.

Lemma codegen_enough prog : enough unit (codegen tr prog).
Proof.
  assert (Hf : forall m, (forall f, enough unit (m f)) -> enough unit (each_g (if_function m) prog)).
  { intros m Hm. apply enough_each. intros f _. unfold if_function, obj. plain. apply Hm. }
  assert (He : forall d b m, (forall o, enough unit (m o)) -> enough unit (emit_section d b m prog)).
  { intros d b m Hm. unfold emit_section. cbv zeta. plain. apply enough_each. intros v _. unfold emit_label. plain. apply Hm. }
  unfold codegen. apply enough_bind; [apply Hf, enough_assign|]. intros _. apply enough_bind.
  { apply enough_each. intros v _. unfold emit_global, obj. plain. }
  intros _. apply enough_bind; [apply enough_line|]. intros _. apply enough_bind; [apply Hf, enough_gen_function|]. intros _.
  unfold emit_data. apply enough_bind; [apply He|intros _; apply He]; intros o; [|apply enough_line].
  apply enough_bind; [apply enough_deref|]. intros buf. unfold emit_init_data. apply enough_init. lia.
Qed.
End total.
