(* ===== verification/InsnRules.v ===== *)
(** * InsnRules: the instructions of generated code, one by one

    For every instruction that the generator uses on 32-bit values: what it changes.
    [keep ks] relates two states of the machine that differ in the registers [ks], the
    flags and the program counter only. *)

From S2P Require Import Prelude Config Kernel Klog RawMem UserMem LibString LibFormat GuestAsm GuestAsmSpec Codegen Cpu AsmLines AsmCode CSem GenLogic.

(** ** Words and flags *)

Definition is_word (v : Z) : Prop := 0 <= v < 2 ^ 32.

Lemma u32_word v : is_word (u32 v).
Proof. apply u32_range. Qed.

Record keep (ks : list Z) (m m' : cpu) : Prop := {
  k_mem : mem m' = mem m;
  k_sp : sp m' = sp m;
  k_regs : forall r, r ∉ ks -> regs m' r = regs m r;
  k_words : (forall r, is_word (regs m r)) -> forall r, is_word (regs m' r);
}.

Lemma keep_refl ks m : keep ks m m.
Proof. by split. Qed.

Lemma keep_trans ks m1 m2 m3 : keep ks m1 m2 -> keep ks m2 m3 -> keep ks m1 m3.
Proof.
  intros [M1 S1 R1 W1] [M2 S2 R2 W2]. split; [congruence|congruence| |auto]. intros r Hr. by rewrite R2, R1.
Qed.

(** Is every register of [ks] one of [ks']? *)
Definition within (ks ks' : list Z) : bool := forallb (fun r => bool_decide (r ∈ ks')) ks.

Lemma within_spec ks ks' r : within ks ks' = true -> r ∈ ks -> r ∈ ks'.
Proof.
  unfold within. rewrite forallb_forall. intros H Hr. apply list_elem_of_In, H in Hr. by apply bool_decide_eq_true in Hr.
Qed.

Lemma keep_weaken ks ks' m m' : within ks ks' = true -> keep ks m m' -> keep ks' m m'.
Proof. intros H [M S R W]. split; auto. intros r Hr. apply R. intros Hk. apply Hr. by apply (within_spec ks). Qed.

Lemma keep_set r v m : is_word v -> keep [r] m (set_reg r v m).
Proof.
  intros Hv. split; try done.
  - intros k Hk. cbn. apply upd_ne. intros ->. apply Hk. by left.
  - intros H k. cbn. destruct (upd_case (regs m) r v k) as [[_ ->]|[_ ->]]; auto.
Qed.

(** The outcome of a comparison of [x] and [y] is in the flags. *)
Definition compared (m : cpu) (x y : Z) : Prop :=
  zf m = (x =? y) /\ cf m = (x <? y) /\ signed_less m = (sgn x <? sgn y).

Lemma has_spec v k : 0 <= k -> has v (2 ^ k) = Z.testbit v k.
Proof.
  intros Hk. unfold has. destruct (Z.testbit v k) eqn:E.
  - apply negb_true_iff, Z.eqb_neq. intros H0.
    assert (Ht : Z.testbit (Z.land v (2 ^ k)) k = false) by (rewrite H0; apply Z.bits_0).
    rewrite Z.land_spec, E, Z.pow2_bits_true in Ht by lia. done.
  - apply negb_false_iff, Z.eqb_eq. apply Z.bits_inj'. intros j Hj.
    rewrite Z.land_spec, Z.bits_0. destruct (decide (j = k)) as [->|Hne]; [by rewrite E|].
    rewrite (Z.pow2_bits_false k j) by lia. apply andb_false_r.
Qed.

Lemma testbit_flag_if b k f j : 0 <= k -> 0 <= j -> Z.testbit (flag_if b (2 ^ k) f) j = (b && (k =? j)) || Z.testbit f j.
Proof.
  intros Hk Hj. unfold flag_if. destruct b; [|done]. rewrite Z.lor_spec, Z.pow2_bits_eqb by lia. by rewrite orb_comm.
Qed.

Lemma sign_bit_word x : is_word x -> sign_bit x = (2 ^ 31 <=? x).
Proof.
  intros [H1 H2]. unfold sign_bit. change 0x80000000 with (2 ^ 31). rewrite has_spec by lia.
  destruct (Z.leb_spec (2 ^ 31) x).
  - apply Z.testbit_true; [lia|]. assert (x / 2 ^ 31 = 1) as ->; [|done].
    symmetry. apply Z.div_unique with (x - 2 ^ 31); lia.
  - apply Z.testbit_false; [lia|]. by rewrite Z.div_small by lia.
Qed.

Lemma sgn_word x : is_word x -> sgn x = if 2 ^ 31 <=? x then x - 2 ^ 32 else x.
Proof.
  intros [H1 H2]. unfold sgn, i32. destruct (Z.leb_spec (2 ^ 31) x).
  - replace (x + 2 ^ 31) with (x - 2 ^ 31 + 1 * 2 ^ 32) by lia. rewrite Z.mod_add, Z.mod_small by lia. lia.
  - rewrite Z.mod_small by lia. lia.
Qed.

Lemma u32_sub x y : is_word x -> is_word y -> u32 (x - y) = if x <? y then x - y + 2 ^ 32 else x - y.
Proof.
  unfold is_word, u32. intros Hx Hy. destruct (Z.ltb_spec x y).
  - replace (x - y) with (x - y + 2 ^ 32 + (-1) * 2 ^ 32) by lia. rewrite Z.mod_add, Z.mod_small by lia. lia.
  - apply Z.mod_small. lia.
Qed.

Lemma testbit31_word x : is_word x -> Z.testbit x 31 = (2 ^ 31 <=? x).
Proof.
  intros H. rewrite <- sign_bit_word by done. unfold sign_bit. change 0x80000000 with (2 ^ 31). by rewrite has_spec by lia.
Qed.

Lemma set_sub_compared x y m : is_word x -> is_word y -> compared (set_sub_flags x y m) x y.
Proof.
  intros Hx Hy. unfold compared, zf, cf, signed_less, set_sub_flags. cbn [flags set_flags setf].
  set (r := u32 (x - y)). set (f0 := Z.land (flags m) (Z.lnot 23)).
  assert (Hf0 : forall k, 0 <= k -> Z.testbit 23 k = true -> Z.testbit f0 k = false).
  { intros k Hk H23. unfold f0. rewrite Z.land_spec, Z.lnot_spec, H23 by done. apply andb_false_r. }
  assert (Hov : sign_bit (Z.land (Z.lxor x y) (Z.lxor x r)) =
    xorb (2 ^ 31 <=? x) (2 ^ 31 <=? y) && xorb (2 ^ 31 <=? x) (2 ^ 31 <=? r)).
  { unfold sign_bit. change 0x80000000 with (2 ^ 31). rewrite has_spec, Z.land_spec, !Z.lxor_spec by lia.
    rewrite !testbit31_word by (done || apply u32_word). done. }
  rewrite Hov. rewrite (sign_bit_word r) by apply u32_word.
  change FLAG_ZF with (2 ^ 0). change FLAG_SF with (2 ^ 1). change FLAG_CF with (2 ^ 2). change FLAG_OF with (2 ^ 4).
  rewrite !has_spec by lia. rewrite !testbit_flag_if by lia. rewrite !Hf0 by done. cbn [Z.eqb Pos.eqb].
  rewrite !andb_false_r, !andb_true_r, !orb_false_r. cbn [orb].
  unfold r. rewrite u32_sub, !sgn_word by done. unfold is_word in *.
  destruct (Z.ltb_spec x y), (Z.leb_spec (2 ^ 31) x), (Z.leb_spec (2 ^ 31) y); cbn [xorb andb orb];
    repeat split; repeat match goal with |- context [?a <=? ?b] => destruct (Z.leb_spec a b) end;
    cbn [xorb andb orb]; lia.
Qed.

(** ** Register instructions *)

(** The result of a two-register instruction on words. *)
Definition alu (op x y : Z) : option Z :=
  match op with
  | 0x02 => Some y
  | 0x10 => Some (u32 (x + y))
  | 0x11 => Some (u32 (x - y))
  | 0x12 => Some (u32 (x * y))
  | 0x13 => if y =? 0 then None else Some (u32 (x / y))
  | 0x14 => if y =? 0 then None else Some (u32 (x mod y))
  | 0x1e => if sgn y =? 0 then None else Some (u32 (Z.quot (sgn x) (sgn y)))
  | 0x1f => if sgn y =? 0 then None else Some (u32 (Z.rem (sgn x) (sgn y)))
  | 0x15 => Some (u32 (Z.land x y))
  | 0x16 => Some (u32 (Z.lor x y))
  | 0x17 => Some (u32 (Z.lxor x y))
  | 0x19 => Some (u32 (Z.shiftl x (Z.land y 31)))
  | 0x1a => Some (u32 (Z.shiftr x (Z.land y 31)))
  | 0x2e => Some (u32 (Z.shiftr (sgn x) (Z.land y 31)))
  | _ => None
  end.

(** The value that a load instruction finds at an address. *)
Definition load_op (size : Z) (op : Z) (m : cpu) (a : Z) : option Z :=
  match op with
  | 0x05 => rd32 size m a
  | 0x07 => rd8 size m a
  | 0x09 => (fun v => if has v 0x80 then Z.lor v 0xffffff00 else v) <$> rd8 size m a
  | 0x0a => rd16 size m a
  | 0x0b => (fun v => if has v 0x8000 then Z.lor v 0xffff0000 else v) <$> rd16 size m a
  | _ => None
  end.

(** The memory after a store instruction. *)
Definition store_op (size : Z) (op : Z) (m : cpu) (a v : Z) : option cpu :=
  match op with
  | 0x06 => wr32 size m a v
  | 0x08 => wr8 size m a (Z.land v 0xff)
  | 0x0c => wr16 size m a (Z.land v 0xffff)
  | _ => None
  end.

(** Only memory and the program counter differ. *)
Record stored (m m' : cpu) : Prop := {
  sd_sp : sp m' = sp m;
  sd_regs : forall r, regs m' r = regs m r;
}.

Section rules.
Context (vars : Z -> Obj) (fn : Z) (ret_label : list Z).
Context (size : Z) (rho : list Z -> Z) (rom : Z -> Z) (cs ce : Z).
Context (Hcs : 0 <= cs) (Hce : ce <= size).
#[local] Set Default Proof Using "Type*".
Local Abbreviation gwp := (gwp vars fn ret_label size rho rom cs ce).

(** A state whose memory is that of [m] keeps the code. *)
Lemma rom_same m m' : mem m' = mem m -> in_rom rom cs ce m -> in_rom rom cs ce m'.
Proof. intros E H a Ha. rewrite E. auto. Qed.

Lemma gwp_reg l op args m r v f (Q : unit -> cpu -> Prop) :
  reads l op args -> is_word v ->
  exec_args size op (arg_value rho <$> args) (goto (pc m + args_len rho args) m) =
    Next (set_reg r v (goto (pc m + args_len rho args) m <| flags ::= f |>)) ->
  (forall m', regs m' r = v -> keep [r] m m' -> Q tt m') -> gwp (wr_line l) Q m.
Proof.
  intros Hr Hv He HQ. eapply gwp_line; [done..|exact He|done|by apply rom_same|].
  apply HQ; [cbn; apply upd_same|]. split; try done.
  - intros k Hk. cbn. apply upd_ne. intros ->. apply Hk. by left.
  - intros H k. cbn. destruct (upd_case (regs m) r v k) as [[_ ->]|[_ ->]]; auto.
Qed.

Lemma gwp_alu l op a b v m (Q : unit -> cpu -> Prop) :
  reads l op [AReg a; AReg b] -> is_word (regs m b) -> alu op (regs m a) (regs m b) = Some v ->
  (forall m', regs m' a = v -> keep [a] m m' -> Q tt m') -> gwp (wr_line l) Q m.
Proof.
  intros Hr Hw Hv HQ.
  assert (is_word v /\ exists f, exec_args size op [a; b] (goto (pc m + args_len rho [AReg a; AReg b]) m) =
    Next (set_reg a v (goto (pc m + args_len rho [AReg a; AReg b]) m <| flags ::= f |>))) as [Hwv [f He]].
  { revert Hv. unfold alu. cbn [exec_args]. unfold execute.
    repeat match goal with |- context [match ?x with _ => _ end] => is_var x; destruct x end; try done;
      cbn [regs goto setf set_pc];
      repeat match goal with |- context [if ?b then _ else _] => destruct b; [done|] end; intros [= <-];
      (split; [first [done | apply u32_word]|]); unfold result, set_zs, set_add_flags, set_sub_flags;
      first [by exists (fun f => f) | eexists; reflexivity]. }
  by apply (gwp_reg l op [AReg a; AReg b] m a v f).
Qed.

Lemma gwp_mov l r w m (Q : unit -> cpu -> Prop) :
  reads l 1 [AReg r; w] -> is_word (arg_value rho w) ->
  (forall m', regs m' r = arg_value rho w -> keep [r] m m' -> Q tt m') -> gwp (wr_line l) Q m.
Proof. intros Hr Hw HQ. by apply (gwp_reg l 1 [AReg r; w] m r (arg_value rho w) (fun f => f)). Qed.

Lemma gwp_load l op a b v m (Q : unit -> cpu -> Prop) :
  reads l op [AReg a; AReg b] -> is_word v -> load_op size op m (regs m b) = Some v ->
  (forall m', regs m' a = v -> keep [a] m m' -> Q tt m') -> gwp (wr_line l) Q m.
Proof.
  intros Hr Hw Hv HQ. apply (gwp_reg l op [AReg a; AReg b] m a v (fun f => f)); [done|done| |done].
  change (arg_value rho <$> [AReg a; AReg b]) with [a; b]. revert Hv. unfold load_op. cbn [exec_args]. unfold execute.
  repeat match goal with |- context [match ?x with _ => _ end] => is_var x; destruct x end; try done;
    cbn [regs goto setf set_pc]; unfold rd8, rd16, rd32; cbn [mem];
    (destruct (xlate size (regs m b) _); [|done]); by intros [= <-].
Qed.

(** A store: the registers stay, [f] is the new memory. *)
Lemma gwp_store l op a b m m1 (Q : unit -> cpu -> Prop) :
  reads l op [AReg a; AReg b] -> store_op size op m (regs m a) (regs m b) = Some m1 ->
  (in_rom rom cs ce m -> in_rom rom cs ce m1) ->
  (forall m', mem m' = mem m1 -> sp m' = sp m -> (forall r, regs m' r = regs m r) -> Q tt m') -> gwp (wr_line l) Q m.
Proof.
  intros Hr Hv Hrom HQ.
  assert (exec_args size op [a; b] (goto (pc m + args_len rho [AReg a; AReg b]) m) =
    Next (goto (pc m + args_len rho [AReg a; AReg b]) m <| mem := mem m1 |>)) as He.
  { revert Hv. unfold store_op. cbn [exec_args]. unfold execute.
    repeat match goal with |- context [match ?x with _ => _ end] => is_var x; destruct x end; try done;
      cbn [regs goto setf set_pc]; unfold wr8, wr16, wr32;
      (destruct (xlate size (regs m a) _); [|done]); by intros [= <-]. }
  eapply gwp_line; [done..|exact He|done|exact Hrom|]. by apply HQ.
Qed.

Lemma gwp_cmp l a b m (Q : unit -> cpu -> Prop) :
  reads l 0x1d [AReg a; AReg b] -> is_word (regs m a) -> is_word (regs m b) ->
  (forall m', compared m' (regs m a) (regs m b) -> keep [] m m' -> Q tt m') -> gwp (wr_line l) Q m.
Proof.
  intros Hr Ha Hb HQ.
  eapply (gwp_line _ _ _ _ _ _ _ _ Hcs Hce l 0x1d [AReg a; AReg b] m); [done|reflexivity|done|by apply rom_same|].
  apply HQ; [by apply set_sub_compared|by split].
Qed.

(** The hardware stack. *)
Lemma gwp_push l r m (Q : unit -> cpu -> Prop) :
  reads l 0x30 [AReg r] -> 0 <= sp m - 4 -> sp m <= size ->
  (in_rom rom cs ce m -> in_rom rom cs ce (m <| mem ::= fun f => pwrite32 f (sp m - 4) (regs m r) |>)) ->
  (forall m', mem m' = pwrite32 (mem m) (sp m - 4) (regs m r) -> sp m' = sp m - 4 -> (forall k, regs m' k = regs m k) -> Q tt m') ->
  gwp (wr_line l) Q m.
Proof.
  intros Hr H0 Hs Hrom HQ.
  eapply (gwp_line _ _ _ _ _ _ _ _ Hcs Hce l 0x30 [AReg r] m
    (goto (pc m + args_len rho [AReg r]) m <| sp := sp m - 4 |> <| mem ::= fun f => pwrite32 f (sp m - 4) (regs m r) |>));
    [done| |done|exact Hrom|by apply HQ].
  change (arg_value rho <$> [AReg r]) with [r]. unfold exec_args, execute, push, wr32, xlate. cbn [sp goto setf set_pc set_sp].
  by rewrite (proj2 (Z.leb_le _ _)), (proj2 (Z.leb_le _ _)) by lia.
Qed.

Lemma gwp_pop l r m v (Q : unit -> cpu -> Prop) :
  reads l 0x31 [AReg r] -> is_word v -> rd32 size m (sp m) = Some v ->
  (forall m', regs m' r = v -> mem m' = mem m -> sp m' = sp m + 4 -> (forall k, k <> r -> regs m' k = regs m k) -> Q tt m') ->
  gwp (wr_line l) Q m.
Proof.
  intros Hr Hw Hv HQ.
  eapply (gwp_line _ _ _ _ _ _ _ _ Hcs Hce l 0x31 [AReg r] m
    (set_reg r v (goto (pc m + args_len rho [AReg r]) m <| sp ::= fun s => s + 4 |>))); [done| |done|by apply rom_same|].
  - change (arg_value rho <$> [AReg r]) with [r]. unfold exec_args, execute, pop.
    change (rd32 size (goto (pc m + args_len rho [AReg r]) m) (sp (goto (pc m + args_len rho [AReg r]) m))) with (rd32 size m (sp m)).
    by rewrite Hv.
  - apply HQ; try done; [cbn; apply upd_same|]. intros k Hk. cbn. by apply upd_ne.
Qed.

(** ** Jumps *)

Definition jump_taken (op : Z) (m : cpu) : bool :=
  match op with
  | 0x21 => zf m
  | 0x22 => negb (zf m)
  | 0x25 => signed_less m
  | 0x26 => signed_less m || zf m
  | 0x2c => cf m
  | 0x2d => cf m || zf m
  | _ => true
  end.

Lemma runs_jump op opc name m ls e (Q : cpu -> Prop) :
  List.In (op, opc) jump_ops -> opc <> 0x27 -> label_ok name = true ->
  code_here rho rom cs ce m ((str "  " ++ str op ++ str " " ++ name) :: ls) e ->
  (forall m', keep [] m m' -> in_rom rom cs ce m' ->
     pc m' = (if jump_taken opc m then u32 (rho name) else pc m + 5) ->
     code_at rho rom (pc m + 5) ls e -> runs size m' Q) ->
  runs size m Q.
Proof.
  intros Hin Hc Hn (Hcode & H1 & H2 & Hrom) HQ.
  set (m5 := goto (pc m + 5) m).
  apply (runs_insn size rho rom cs ce Hcs Hce m (str "  " ++ str op ++ str " " ++ name) ls e opc [ASym name]
    (if jump_taken opc m then goto (u32 (rho name)) m5 else m5)); try done.
  - by apply reads_jump.
  - change (arg_value rho <$> [ASym name]) with [u32 (rho name)].
    change (goto (pc m + args_len rho [ASym name]) m) with m5. unfold exec_args.
    unfold jump_ops in Hin. repeat (destruct Hin as [[= <- <-]|Hin]; [try done|]); done.
  - intros Hcode'. change (pc m + args_len rho [ASym name]) with (pc m + 5) in Hcode'. apply HQ; [| | |done].
    + case_match; by split.
    + case_match; by apply (rom_same m).
    + case_match; done.
Qed.
End rules.
