(* ===== verification/CodegenRun.v ===== *)
(** * CodegenRun: what pieces of generated code do

    The relation between a state of the program and a state of the processor, and for
    every piece of code without subexpressions (addresses, loads, stores, conversions,
    operators, comparisons) what the machine does on it. *)

From S2P Require Import Prelude Config Kernel Klog RawMem UserMem LibString LibFormat GuestAsm GuestAsmSpec Codegen Cpu AsmLines AsmCode CSem GenLogic CodegenAlloc InsnRules.

(** A constant line is an instruction. *)
Ltac reads_now := apply decode_reads; vm_compute; reflexivity.

(** Chain the changes of registers, and look a register up behind them. *)
Ltac keep1 := eapply keep_weaken; [|eassumption]; vm_compute; reflexivity.
Ltac keeps := repeat first [ apply keep_refl | keep1 | eapply keep_trans; [keep1|] ].

(** The setting of a run: the processor's memory (the code, the free part of the hardware
    stack, and the bytes of the program) and the function being compiled, whose promoted
    variables have registers of their own. *)
Class Layout := {
  size : Z; rho : list Z -> Z; rom : Z -> Z; cs : Z; ce : Z; slo : Z; shi : Z; V : Z -> bool;
  vars : Z -> Obj; locals : list Z; fp : Z; fn : Z; ret_label : list Z; tr : Z -> Z -> Z;
  Hcs : 0 <= cs; Hce : ce <= size; Hsize : size <= 2 ^ 32; Htop : ce < 2 ^ 32;
  Hstack : 0 <= slo /\ shi <= size; Hapart : ce <= slo \/ shi <= cs;
  HV : forall a, V a = true -> 0 <= a < size /\ ~ cs <= a < ce /\ ~ slo <= a < shi;
  Hreg : forall v, v ∈ locals -> is_promoted vars v = true -> o_reg (vars v) ∈ [2; 3; 4];
  Hinj : forall v w, v ∈ locals -> w ∈ locals -> is_promoted vars v = true -> o_reg (vars v) = o_reg (vars w) -> v = w;
  Hoff : forall v, v ∈ locals -> is_i32 (o_offset (vars v));
  Hret : label_ok ret_label = true;
}.
#[export] Hint Resolve Hcs Hce : core.

Section sim.
Context `{L : Layout}.
Local Abbreviation gwp := (gwp vars fn ret_label size rho rom cs ce).

(** ** The relation *)

Record rel (s : cst) (m : cpu) : Prop := {
  rl_fp : regs m 6 = fp;
  rl_mem : forall a, V a = true -> mem m a = cm s a;
  rl_bytes : forall a, is_byte (cm s a);
  rl_rv : forall v, v ∈ locals -> is_promoted vars v = true -> regs m (o_reg (vars v)) = rv s v;
  rl_words : forall r, is_word (regs m r);
  rl_sp : slo <= sp m <= shi;
}.

Lemma rel_keep ks s m m' : rel s m -> keep ks m m' -> within ks [0; 1; 5; 7] = true -> rel s m'.
Proof.
  intros [R1 R2 R3 R4 R5 R6] [M S R W] Hks. split; auto; try congruence.
  - rewrite R; [done|]. intros H. apply (within_spec _ _ _ Hks) in H. revert H. lit.
  - intros a Ha. rewrite M. auto.
  - intros v Hv Hp. rewrite R; [auto|]. intros H. apply (within_spec _ _ _ Hks) in H. pose proof (Hreg v Hv Hp) as Hr.
    revert H. rewrite !elem_of_cons in Hr. destruct Hr as [-> | [-> | [-> | Hn]]]; [lit..|]. by apply elem_of_nil in Hn.
Qed.

(** Memory outside of the program's bytes and of the free part of the stack. *)
Definition frame (m m' : cpu) : Prop := forall a, V a = false -> ~ slo <= a < sp m -> mem m' a = mem m a.

Lemma mem_frame_refl m : frame m m.
Proof. done. Qed.

Lemma mem_frame_trans m1 m2 m3 : frame m1 m2 -> frame m2 m3 -> sp m2 <= sp m1 -> frame m1 m3.
Proof. intros H1 H2 Hs a Ha Hr. rewrite H2, H1; [done..|lia]. Qed.

Lemma keep_frame ks m m' : keep ks m m' -> frame m m'.
Proof. intros K a _ _. by rewrite (k_mem _ _ _ K). Qed.

(** A register that the code before did not change. *)
Lemma kreg ks m m' r : keep ks m m' -> r ∉ ks -> regs m' r = regs m r.
Proof. intros K. apply (k_regs _ _ _ K). Qed.

(** ** Addresses of variables *)

Lemma gwp_ins_alu t op a b v m (Q : unit -> cpu -> Prop) :
  reads (str "  " ++ str t) op [AReg a; AReg b] -> is_word (regs m b) -> alu op (regs m a) (regs m b) = Some v ->
  (forall m', regs m' a = v -> keep [a] m m' -> Q tt m') -> gwp (ins t) Q m.
Proof. apply gwp_alu; done. Qed.

Lemma gwp_ins_imm t r n m (Q : unit -> cpu -> Prop) :
  str t = str "MOV " ++ reg_text r -> 0 <= r < 8 -> is_word n ->
  (forall m', regs m' r = n -> keep [r] m m' -> Q tt m') -> gwp (ins_imm t n) Q m.
Proof. intros Et Hr Hn HQ. unfold ins_imm. rewrite Et. apply (gwp_mov _ _ _ _ _ _ _ _ Hcs Hce _ r (AImm n)); [by apply reads_ins_imm|done|done]. Qed.

Lemma gwp_ins_mov t r n m (Q : unit -> cpu -> Prop) :
  reads (str "  " ++ str t) 1 [AReg r; AImm n] -> is_word n ->
  (forall m', regs m' r = n -> keep [r] m m' -> Q tt m') -> gwp (ins t) Q m.
Proof. intros Hr Hn HQ. by apply (gwp_mov _ _ _ _ _ _ _ _ Hcs Hce _ r (AImm n)). Qed.

Lemma off_word off : is_i32 off -> 0 < off -> is_word off.
Proof. unfold is_i32, is_word. lia. Qed.

Lemma run_var_addr v a s m (Q : unit -> cpu -> Prop) :
  rel s m -> var_addr vars locals rho fp v = Some a ->
  (forall m', regs m' 0 = a -> keep [0; 7] m m' -> Q tt m') -> gwp (emit_var_addr (Some v)) Q m.
Proof.
  intros HR Ha HQ. unfold emit_var_addr. apply gwp_bind; [done..|]. apply gwp_ret; [done..|].
  apply gwp_bind; [done..|]. apply gwp_obj; [done..|]. unfold var_addr, is_promoted in Ha.
  destruct (negb (o_reg (vars v) =? 0)); [done|]. destruct (o_is_local (vars v)).
  - case_bool_decide as Hl; [|done]. injection Ha as <-. cbv zeta.
    pose proof (Hoff v Hl) as Ho. unfold is_i32 in Ho.
    pose proof (rl_words _ _ HR) as Hw. pose proof (rl_fp _ _ HR) as Hf.
    apply gwp_bind; [done..|]. eapply gwp_ins_alu; [reads_now|apply Hw|reflexivity|]. intros m1 E1 K1.
    rewrite Hf in E1. pose proof (k_words _ _ _ K1 Hw) as Hw1. assert (Hfw : is_word fp) by (rewrite <- Hf; apply Hw).
    destruct (Z.ltb_spec 0 (o_offset (vars v))) as [Hp|Hp]; [|destruct (Z.ltb_spec (o_offset (vars v)) 0) as [Hn|Hn]].
    + apply gwp_bind; [done..|]. apply (gwp_ins_imm _ 7); [done|lia|unfold is_word; lia|]. intros m2 E2 K2.
      eapply gwp_ins_alu; [reads_now|apply (k_words _ _ _ K2 Hw1)|reflexivity|]. intros m3 E3 K3. apply HQ.
      * rewrite E3, E2, (kreg _ _ _ 0 K2), E1 by lit. done.
      * keeps.
    + apply gwp_bind; [done..|]. apply (gwp_ins_imm _ 7); [done|lia|apply u32_word|]. intros m2 E2 K2.
      eapply gwp_ins_alu; [reads_now|apply (k_words _ _ _ K2 Hw1)|reflexivity|]. intros m3 E3 K3. apply HQ.
      * rewrite E3, E2, (kreg _ _ _ 0 K2), E1 by lit. unfold u32. rewrite Zminus_mod_idemp_r. f_equal. lia.
      * keeps.
    + apply gwp_ret; [done..|]. apply HQ; [|keeps].
      rewrite E1. assert (o_offset (vars v) = 0) as -> by lia. rewrite Z.add_0_r. symmetry. by apply u32_small.
  - destruct (label_ok (o_name (vars v))) eqn:El; [|done]. injection Ha as <-.
    apply (gwp_mov _ _ _ _ _ _ _ _ Hcs Hce _ 0 (ASym (o_name (vars v)))).
    + by apply (reads_ins_sym 0).
    + apply u32_word.
    + intros m' E K. apply HQ; [exact E|]. keeps.
Qed.
(** ** Loads and stores *)

Lemma rd_ok s m a n : rel s m -> (forall i, 0 <= i < n -> V (a + i) = true) -> 0 < n -> xlate size a n = true.
Proof.
  intros HR Hv Hn. pose proof (HV _ (Hv 0 ltac:(lia))). pose proof (HV _ (Hv (n - 1) ltac:(lia))).
  unfold xlate. by rewrite (proj2 (Z.leb_le _ _)), (proj2 (Z.leb_le _ _)) by lia.
Qed.

Lemma V4 a : V a && V (a + 1) && V (a + 2) && V (a + 3) = true -> forall i, 0 <= i < 4 -> V (a + i) = true.
Proof.
  intros H i Hi. bool_hyps. assert (i = 0 \/ i = 1 \/ i = 2 \/ i = 3) as [-> | [-> | [-> | ->]]] by lia; try done.
  by rewrite Z.add_0_r.
Qed.

Lemma V2 a : V a && V (a + 1) = true -> forall i, 0 <= i < 2 -> V (a + i) = true.
Proof. intros H i Hi. bool_hyps. assert (i = 0 \/ i = 1) as [-> | ->] by lia; [by rewrite Z.add_0_r|done]. Qed.

Lemma V1 a : V a = true -> forall i, 0 <= i < 1 -> V (a + i) = true.
Proof. intros H i Hi. assert (i = 0) as -> by lia. by rewrite Z.add_0_r. Qed.

Lemma rd32_rel s m a :
  rel s m -> (forall i, 0 <= i < 4 -> V (a + i) = true) -> rd32 size m a = Some (u32 (pread32 (cm s) a)).
Proof.
  intros HR Hv. unfold rd32. rewrite (rd_ok s m a 4 HR Hv) by lia. do 2 f_equal. apply pread32_ext.
  intros k Hk. by apply (rl_mem _ _ HR), Hv.
Qed.

Lemma rd16_rel s m a :
  rel s m -> (forall i, 0 <= i < 2 -> V (a + i) = true) -> rd16 size m a = Some (cm s a + 2 ^ 8 * cm s (a + 1)).
Proof.
  intros HR Hv. unfold rd16. rewrite (rd_ok s m a 2 HR Hv) by lia. do 2 f_equal.
  - apply (rl_mem _ _ HR). rewrite <- (Z.add_0_r a). by apply Hv.
  - f_equal. by apply (rl_mem _ _ HR), Hv.
Qed.

Lemma rd8_rel s m a : rel s m -> V a = true -> rd8 size m a = Some (cm s a).
Proof.
  intros HR Hv. unfold rd8. rewrite (rd_ok s m a 1 HR (V1 a Hv)) by lia. f_equal. by apply (rl_mem _ _ HR).
Qed.

(** Sign extension by bits is sign extension of the value. *)
Lemma lor_high v k : 0 <= v < 2 ^ k -> 0 <= k <= 32 -> Z.lor v (2 ^ 32 - 2 ^ k) = v + (2 ^ 32 - 2 ^ k).
Proof.
  intros Hv Hk.
  assert (2 ^ 32 - 2 ^ k = (2 ^ (32 - k) - 1) * 2 ^ k) as ->.
  { rewrite Z.mul_sub_distr_r, <- Z.pow_add_r by lia. replace (32 - k + k) with 32 by lia. lia. }
  rewrite Z.lor_comm, lor_low by lia. lia.
Qed.

Lemma sext_lor bits v : 0 < bits <= 32 -> 0 <= v < 2 ^ bits ->
  (if has v (2 ^ (bits - 1)) then Z.lor v (2 ^ 32 - 2 ^ bits) else v) = sext bits v.
Proof.
  intros Hb Hv. rewrite has_spec by lia. unfold sext.
  assert (E2 : 2 ^ bits = 2 * 2 ^ (bits - 1)) by (rewrite <- Z.pow_succ_r by lia; f_equal; lia).
  assert (H32 : 2 ^ bits <= 2 ^ 32) by (apply Z.pow_le_mono_r; lia).
  destruct (Z.ltb_spec v (2 ^ (bits - 1))) as [H|H].
  - rewrite (proj2 (Z.testbit_false v (bits - 1) ltac:(lia))) by (rewrite Z.div_small by lia; done).
    symmetry. apply u32_small. lia.
  - assert (v / 2 ^ (bits - 1) = 1) as E by (symmetry; apply Z.div_unique with (v - 2 ^ (bits - 1)); lia).
    rewrite (proj2 (Z.testbit_true v (bits - 1) ltac:(lia))) by (by rewrite E).
    rewrite lor_high by lia. unfold u32. replace (v - 2 ^ bits) with (v + (2 ^ 32 - 2 ^ bits) + (-1) * 2 ^ 32) by lia.
    rewrite Z.mod_add, Z.mod_small by lia. done.
Qed.

(** The node is not a bit-field. *)
Definition plain_member (e : Node) : Prop :=
  n_kind e = ND_MEMBER -> exists mb, n_member e = Some mb /\ m_is_bitfield mb = false.

Lemma run_bitfield_of e (Q : option Member -> cpu -> Prop) m : plain_member e -> Q None m -> gwp (bitfield_of e) Q m.
Proof.
  intros Hb HQ. unfold bitfield_of. unfold plain_member in Hb.
  destruct (n_kind e); try (by apply gwp_ret). destruct (Hb eq_refl) as (mb & -> & E).
  apply gwp_bind; [done..|]. apply gwp_ret; [done..|]. rewrite E. by apply gwp_ret.
Qed.

Lemma gwp_ins_load t op v m (Q : unit -> cpu -> Prop) :
  reads (str "  " ++ str t) op [AReg 0; AReg 0] -> is_word v -> load_op size op m (regs m 0) = Some v ->
  (forall m', regs m' 0 = v -> keep [0] m m' -> Q tt m') -> gwp (ins t) Q m.
Proof. apply gwp_load; done. Qed.

Lemma sext_word b v : is_word (sext b v).
Proof. apply u32_word. Qed.

Lemma byte_word v : is_byte v -> is_word v.
Proof. unfold is_byte, is_word. lia. Qed.

Lemma run_load e ty s a x m (Q : unit -> cpu -> Prop) :
  rel s m -> n_ty e = Some ty -> plain_member e -> regs m 0 = a -> load_as V ty s a = Some x ->
  (forall m', regs m' 0 = x -> keep [0] m m' -> Q tt m') -> gwp (load e) Q m.
Proof.
  intros HR Ht Hb Ha Hx HQ. unfold load. rewrite Ht. apply gwp_bind; [done..|]. apply gwp_ret; [done..|].
  pose proof (rl_bytes _ _ HR) as HB.
  assert (Hword : (if V a && V (a + 1) && V (a + 2) && V (a + 3) then Some (u32 (pread32 (cm s) a)) else None) = Some x ->
    gwp (ins "LOADR R0, R0") Q m).
  { destruct (V a && V (a + 1) && V (a + 2) && V (a + 3)) eqn:EV; [|done]. intros [= <-].
    eapply gwp_ins_load; [reads_now|apply u32_word| |exact HQ]. cbn. rewrite Ha. apply rd32_rel; [done|by apply V4]. }
  assert (Hstay : a = x -> gwp (mret tt) Q m).
  { intros <-. apply gwp_ret; [done..|]. apply HQ; [done|apply keep_refl]. }
  assert (Hbf : forall k, gwp (k None) Q m -> gwp (bf ← bitfield_of e ; k bf) Q m).
  { intros k Hk. apply gwp_bind; [done..|]. by apply run_bitfield_of. }
  assert (Hint : forall k, ty_kind ty = k -> k ∈ [TY_CHAR; TY_SHORT] -> is_unsigned_int ty = ty_unsigned ty).
  { intros k Ek Hk. unfold is_unsigned_int, is_integer, is_kind. rewrite Ek. revert Hk. rewrite !elem_of_cons.
    intros [-> | [-> | Hk]]; [done..|]. by apply elem_of_nil in Hk. }
  unfold load_as in Hx. destruct (ty_kind ty) eqn:Ek; try done; try (by apply Hbf, Hword); try (by apply Hstay; injection Hx).
  - apply Hbf. destruct (V a) eqn:EV; [|done]. injection Hx as <-.
    eapply gwp_ins_load; [reads_now|by apply byte_word| |exact HQ]. cbn. rewrite Ha. by apply rd8_rel.
  - apply Hbf. destruct (V a) eqn:EV; [|done]. rewrite (Hint _ eq_refl) by lit.
    destruct (ty_unsigned ty); injection Hx as <-.
    + eapply gwp_ins_load; [reads_now|by apply byte_word| |exact HQ]. cbn. rewrite Ha. by apply rd8_rel.
    + eapply gwp_ins_load; [reads_now|apply sext_word| |exact HQ]. cbn. rewrite Ha, (rd8_rel s) by done. cbn. f_equal.
      apply (sext_lor 8); [lia|apply HB].
  - apply Hbf. destruct (V a && V (a + 1)) eqn:EV; [|done]. rewrite (Hint _ eq_refl) by lit.
    assert (Hh : 0 <= cm s a + 2 ^ 8 * cm s (a + 1) < 2 ^ 16).
    { pose proof (HB a). pose proof (HB (a + 1)). unfold is_byte in *. lia. }
    assert (is_word (cm s a + 2 ^ 8 * cm s (a + 1))) as Hhw by (unfold is_word; lia).
    destruct (ty_unsigned ty); injection Hx as <-.
    + eapply gwp_ins_load; [reads_now|exact Hhw| |exact HQ]. cbn. rewrite Ha. by apply rd16_rel, V2.
    + eapply gwp_ins_load; [reads_now|apply sext_word| |exact HQ]. cbn -[Z.add Z.mul Z.pow].
      rewrite Ha, (rd16_rel s) by (done || by apply V2). cbn -[Z.add Z.mul Z.pow]. f_equal.
      apply (sext_lor 16); [lia|exact Hh].
  - apply Hbf. destruct (ty_size ty =? 4); [by apply Hword|done].
Qed.

Lemma blit_agree (f g : Z -> Z) a bs b : f b = g b -> blit f a bs b = blit g a bs b.
Proof.
  revert f g a. induction bs as [|x bs IH]; intros f g a H; cbn [blit]; [done|]. apply IH.
  destruct (upd_case f a x b) as [[-> ->]|[Hn ->]]; [by rewrite upd_same|by rewrite upd_ne].
Qed.

Lemma blit_bytes (f : Z -> Z) a bs : (forall b, is_byte (f b)) -> Forall is_byte bs -> forall b, is_byte (blit f a bs b).
Proof.
  intros Hf H. revert f a Hf. induction H as [|x bs Hx _ IH]; intros f a Hf; cbn [blit]; [done|]. apply IH.
  intros b. destruct (upd_case f a x b) as [[_ ->]|[_ ->]]; auto.
Qed.

(** Bytes of the program are replaced, in both states. *)
Lemma rel_blit s m m' a bs :
  rel s m -> (forall i, 0 <= i < Z.of_nat (length bs) -> V (a + i) = true) -> Forall is_byte bs ->
  mem m' = blit (mem m) a bs -> sp m' = sp m -> (forall r, regs m' r = regs m r) ->
  rel (s <| cm ::= fun f => blit f a bs |>) m' /\ frame m m'.
Proof.
  intros [R1 R2 R3 R4 R5 R6] Hv Hb Hm Hs Hr. split; [split|]; try (by intros; rewrite ?Hr, ?Hs; auto).
  - intros b HVb. rewrite Hm. cbn. by apply blit_agree, R2.
  - by apply blit_bytes.
  - intros b HVb _. rewrite Hm. apply blit_out.
    destruct (decide (a <= b < a + Z.of_nat (length bs))) as [H|H]; [|lia].
    specialize (Hv (b - a) ltac:(lia)). replace (a + (b - a)) with b in Hv by lia. congruence.
Qed.

Lemma rom_blit m a bs m1 :
  (forall i, 0 <= i < Z.of_nat (length bs) -> V (a + i) = true) -> mem m1 = blit (mem m) a bs ->
  in_rom rom cs ce m -> in_rom rom cs ce m1.
Proof.
  intros Hv Hm H b Hb. rewrite Hm. rewrite blit_out; [by apply H|].
  destruct (decide (a <= b < a + Z.of_nat (length bs))) as [Hi|Hi]; [|lia].
  specialize (Hv (b - a) ltac:(lia)). replace (a + (b - a)) with b in Hv by lia. apply HV in Hv. lia.
Qed.

Lemma gwp_ins_store t op a x bs s m (Q : unit -> cpu -> Prop) :
  reads (str "  " ++ str t) op [AReg 1; AReg 0] -> rel s m -> regs m 1 = a -> regs m 0 = x ->
  (forall i, 0 <= i < Z.of_nat (length bs) -> V (a + i) = true) -> Forall is_byte bs ->
  store_op size op m a x = Some (m <| mem ::= fun f => blit f a bs |>) ->
  (forall m', rel (s <| cm ::= fun f => blit f a bs |>) m' -> sp m' = sp m -> (forall r, regs m' r = regs m r) ->
     frame m m' -> Q tt m') ->
  gwp (ins t) Q m.
Proof.
  intros Hr HR <- <- Hv Hb Hop HQ.
  eapply (gwp_store _ _ _ _ _ _ _ _ Hcs Hce _ op 1 0); [exact Hr|exact Hop|by apply (rom_blit m (regs m 1) bs)|].
  intros m' Hm Hs Hg. destruct (rel_blit s m m' (regs m 1) bs) as [HR' Hf]; try done. by apply HQ.
Qed.

Lemma mod_byte x : is_byte (x mod 2 ^ 8).
Proof. apply Z.mod_pos_bound. done. Qed.

Lemma run_store e ty s a x s' m (Q : unit -> cpu -> Prop) :
  rel s m -> n_ty e = Some ty -> plain_member e -> regs m 1 = a -> regs m 0 = x -> store_as V ty s a x = Some s' ->
  (forall m', rel s' m' -> sp m' = sp m -> (forall r, regs m' r = regs m r) -> frame m m' -> Q tt m') -> gwp (store e) Q m.
Proof.
  intros HR Ht Hb Ha Hx Hs HQ. unfold store. rewrite Ht. apply gwp_bind; [done..|]. apply gwp_ret; [done..|].
  apply gwp_bind; [done..|]. apply run_bitfield_of; [done|].
  assert (Hword : (if V a && V (a + 1) && V (a + 2) && V (a + 3)
      then Some (s <| cm ::= fun m => pwrite32 m a x |>) else None) = Some s' -> gwp (ins "STORER R1, R0") Q m).
  { destruct (V a && V (a + 1) && V (a + 2) && V (a + 3)) eqn:EV; [|done]. intros [= <-]. pose proof (V4 a EV) as H4.
    eapply (gwp_ins_store _ 6 a x (le_bytes32 x) s); try done; [reads_now|apply le_bytes32_bytes|].
    cbn. unfold wr32. by rewrite (rd_ok s m a 4 HR H4) by lia. }
  assert (Hbyte : (if V a then Some (s <| cm ::= fun m => upd m a (x mod 2 ^ 8) |>) else None) = Some s' -> gwp (ins "SB R1, R0") Q m).
  { destruct (V a) eqn:EV; [|done]. intros [= <-]. pose proof (V1 a EV) as H1.
    eapply (gwp_ins_store _ 8 a x [x mod 2 ^ 8] s); try done; [reads_now|by apply List.Forall_cons; [apply mod_byte|apply List.Forall_nil]|].
    unfold store_op, wr8. rewrite (rd_ok s m a 1 HR H1) by lia.
    change 0xff with (Z.ones 8). by rewrite Z.land_ones, Z.mod_mod by lia. }
  unfold store_as in Hs. destruct (ty_kind ty); try done; try (by apply Hword); try (by apply Hbyte).
  - destruct (V a && V (a + 1)) eqn:EV; [|done]. injection Hs as <-. pose proof (V2 a EV) as H2.
    eapply (gwp_ins_store _ 12 a x [x mod 2 ^ 8; x / 2 ^ 8 mod 2 ^ 8] s); try done;
      [reads_now|by do 2 (apply List.Forall_cons; [apply mod_byte|]); apply List.Forall_nil|].
    unfold store_op, wr16. rewrite (rd_ok s m a 2 HR H2) by lia.
    change 0xffff with (Z.ones 16). rewrite Z.land_ones by lia.
    assert (E16 : x mod 2 ^ 16 = x + (- (x / 2 ^ 16) * 2 ^ 8) * 2 ^ 8) by (pose proof (Z.div_mod x (2 ^ 16)); lia).
    assert (x mod 2 ^ 16 mod 2 ^ 8 = x mod 2 ^ 8) as ->.
    { rewrite E16, Z.mod_add by lia. done. }
    assert (x mod 2 ^ 16 / 2 ^ 8 mod 2 ^ 8 = x / 2 ^ 8 mod 2 ^ 8) as ->; [|done].
    rewrite E16, Z.div_add by lia. by rewrite Z.mod_add by lia.
  - destruct (ty_size ty =? 4); [by apply Hword|done].
Qed.

(** ** Code with jumps *)

(** From [g] the generator goes to [g'] with the result [a], and the lines it writes on
    the way are the code from [p] to [e]. *)
Definition emits {A} (gen : G A) (g : cg) (a : A) (g' : cg) (p e : Z) : Prop :=
  exists c, gen g = Done a g' c /\ code_at rho rom p c e /\ cs <= p /\ e <= ce.

Lemma emits_bind {A B} (gen : G A) (k : A -> G B) g b g' p e :
  emits (mbind k gen) g b g' p e -> exists a g1 q, emits gen g a g1 p q /\ emits (k a) g1 b g' q e.
Proof.
  intros (c & E & Hc & Hp & He). apply bind_inv in E as (a & g1 & c1 & c2 & E1 & E2 & ->).
  apply code_at_app in Hc as (q & Hc1 & Hc2). pose proof (code_at_le _ _ _ _ _ Hc1). pose proof (code_at_le _ _ _ _ _ Hc2).
  exists a, g1, q. split; [exists c1|exists c2]; repeat split; (done || lia).
Qed.

Lemma emits_ret {A} (a : A) g b g' p e : emits (mret a) g b g' p e -> e = p /\ g' = g /\ b = a.
Proof. by intros (c & [= <- <- <-] & Hc & _). Qed.

Lemma emits_new_label g l g' p e : emits new_label g l g' p e -> e = p /\ (in_ctx vars fn ret_label g -> in_ctx vars fn ret_label g').
Proof. intros (c & [= <- <- <-] & Hc & _). by split. Qed.

Lemma emits_label l g a g' p e :
  emits (emit_label l) g a g' p e -> e = p /\ g' = g /\ label_ok l = true /\ u32 (rho l) = p.
Proof.
  intros (c & [= <- <- <-] & Hc & H1 & H2). apply code_at_label in Hc as (Hl & Hr & Hc). cbn in Hc.
  pose proof Hcs. pose proof Htop. repeat split; try done. rewrite Hr. apply u32_small. lia.
Qed.

(** A piece of code runs as [gwp] says. *)
Lemma run_piece {A} (gen : G A) (Q : A -> cpu -> Prop) m g a g' e R :
  gwp gen Q m -> in_ctx vars fn ret_label g -> emits gen g a g' (pc m) e -> in_rom rom cs ce m ->
  (forall m', pc m' = e -> in_rom rom cs ce m' -> Q a m' -> runs size m' R) -> runs size m R.
Proof.
  intros H Hg (c & E & Hc & H1 & H2) Hr HR. destruct (H g a g' c e Hg E) as [_ Hm]; [by repeat split|].
  eapply runs_trans; [exact Hm|]. intros m' (Hp & Hr' & HQ). by apply HR.
Qed.

Lemma run_jmp op opc l g a g' p e :
  emits (jmp op l) g a g' p e -> List.In (op, opc) jump_ops -> opc <> 0x27 -> label_ok l = true ->
  g' = g /\ forall m R, pc m = p -> in_rom rom cs ce m ->
    (forall m', keep [] m m' -> in_rom rom cs ce m' -> pc m' = (if jump_taken opc m then u32 (rho l) else e) -> runs size m' R) ->
    runs size m R.
Proof.
  intros (c & [= _ <- <-] & Hc & H1 & H2) Hin Ho Hl. split; [done|]. intros m R <- Hm HR.
  eapply (runs_jump size rho rom cs ce Hcs Hce op opc l m [] e); try done.
  intros m' K Hr Hp He. apply HR; [done..|]. cbn in He. by rewrite He in Hp.
Qed.

Lemma gwp_emits {A} (gen : G A) (Q : A -> cpu -> Prop) m :
  (forall g a g' e, in_ctx vars fn ret_label g -> emits gen g a g' (pc m) e -> in_rom rom cs ce m ->
     in_ctx vars fn ret_label g' /\ runs size m (fun m' => pc m' = e /\ in_rom rom cs ce m' /\ Q a m')) ->
  gwp gen Q m.
Proof. intros H g a g' c e Hg E (Hc & H1 & H2 & Hm). apply (H g); [done| |done]. exists c. by repeat split. Qed.

Lemma emits_keeps {A} (gen : G A) g a g' p e :
  keeps vars fn ret_label A gen -> emits gen g a g' p e -> in_ctx vars fn ret_label g -> in_ctx vars fn ret_label g'.
Proof. intros H (c & E & _) Hg. eapply H; eauto. Qed.

Lemma keeps_jmp op l : keeps vars fn ret_label unit (jmp op l).
Proof. by intros g a g' c [= _ <- _]. Qed.

(** Runs of different sides of a jump that meet: the code "test; jump to els; A; jump to
    end; els: B; end:". *)
Lemma gwp_branch (test A B : G unit) op opc els end_ m (Q : unit -> cpu -> Prop) :
  List.In (op, opc) jump_ops -> opc <> 0x27 ->
  keeps vars fn ret_label unit test -> keeps vars fn ret_label unit A -> keeps vars fn ret_label unit B ->
  gwp test (fun _ m1 => forall m2, keep [] m1 m2 ->
    gwp (if jump_taken opc m1 then B else A) (fun _ m3 => forall m4, keep [] m3 m4 -> Q tt m4) m2) m ->
  gwp (test ;; jmp op els ;; A ;; jmp "JMP" end_ ;; emit_label els ;; B ;; emit_label end_) Q m.
Proof.
  intros Hop Hne K1 K2 K3 H. apply gwp_emits. intros g [] g' e Hg He Hrom.
  apply emits_bind in He as ([] & g1 & q1 & E1 & He). apply emits_bind in He as ([] & g2 & q2 & E2 & He).
  apply emits_bind in He as ([] & g3 & q3 & E3 & He). apply emits_bind in He as ([] & g4 & q4 & E4 & He).
  apply emits_bind in He as ([] & g5 & q5 & E5 & He). apply emits_bind in He as ([] & g6 & q6 & E6 & E7).
  pose proof (emits_label _ _ _ _ _ _ E5) as (-> & -> & Hl1 & Hr1).
  pose proof (emits_label _ _ _ _ _ _ E7) as (-> & -> & Hl2 & Hr2).
  destruct (run_jmp _ _ _ _ _ _ _ _ E2 Hop Hne Hl1) as [-> R2].
  destruct (run_jmp "JMP" 0x20 _ _ _ _ _ _ E4 ltac:(by left) ltac:(done) Hl2) as [-> R4].
  pose proof (emits_keeps _ _ _ _ _ _ K1 E1 Hg) as Hg1. pose proof (emits_keeps _ _ _ _ _ _ K2 E3 Hg1) as Hg3.
  pose proof (emits_keeps _ _ _ _ _ _ K3 E6 Hg3) as Hg6.
  split; [done|].
  apply (run_piece _ _ _ _ _ _ _ _ H Hg E1 Hrom). intros m1 Hp1 Hrom1 H1. apply R2; [done..|].
  intros m2 K Hrom2 Hp2. specialize (H1 m2 K). destruct (jump_taken opc m1).
  - rewrite Hr1 in Hp2. rewrite <- Hp2 in E6. apply (run_piece _ _ _ _ _ _ _ _ H1 Hg3 E6 Hrom2). intros m3 Hp3 Hrom3 H3.
    apply runs_here. repeat split; [done..|]. apply H3, keep_refl.
  - rewrite <- Hp2 in E3. apply (run_piece _ _ _ _ _ _ _ _ H1 Hg1 E3 Hrom2). intros m3 Hp3 Hrom3 H3.
    apply R4; [done..|]. intros m4 K4 Hrom4 Hp4. apply runs_here. cbn in Hp4. rewrite Hr2 in Hp4. repeat split; [done..|].
    by apply H3.
Qed.

(** The code of a logical operator: two tests that jump to the same label. *)
Lemma gwp_two_tests (t1 B X Y : G unit) op opc set done_ m (Q : unit -> cpu -> Prop) :
  List.In (op, opc) jump_ops -> opc <> 0x27 ->
  keeps vars fn ret_label unit t1 -> keeps vars fn ret_label unit B -> keeps vars fn ret_label unit X -> keeps vars fn ret_label unit Y ->
  gwp t1 (fun _ m1 => forall m2, keep [] m1 m2 ->
    if jump_taken opc m1 then gwp Y (fun _ m3 => forall m4, keep [] m3 m4 -> Q tt m4) m2
    else gwp B (fun _ m3 => gwp t1 (fun _ m4 => forall m5, keep [] m4 m5 ->
           gwp (if jump_taken opc m4 then Y else X) (fun _ m6 => forall m7, keep [] m6 m7 -> Q tt m7) m5) m3) m2) m ->
  gwp (t1 ;; jmp op set ;; B ;; t1 ;; jmp op set ;; X ;; jmp "JMP" done_ ;; emit_label set ;; Y ;; emit_label done_) Q m.
Proof.
  intros Hop Hne K1 KB KX KY H. apply gwp_emits. intros g [] g' e Hg He Hrom.
  apply emits_bind in He as ([] & g1 & q1 & E1 & He). apply emits_bind in He as ([] & g2 & q2 & E2 & He).
  apply emits_bind in He as ([] & g3 & q3 & E3 & He). apply emits_bind in He as ([] & g4 & q4 & E4 & He).
  apply emits_bind in He as ([] & g5 & q5 & E5 & He). apply emits_bind in He as ([] & g6 & q6 & E6 & He).
  apply emits_bind in He as ([] & g7 & q7 & E7 & He). apply emits_bind in He as ([] & g8 & q8 & E8 & He).
  apply emits_bind in He as ([] & g9 & q9 & E9 & E10).
  pose proof (emits_label _ _ _ _ _ _ E8) as (-> & -> & Hl1 & Hr1).
  pose proof (emits_label _ _ _ _ _ _ E10) as (-> & -> & Hl2 & Hr2).
  destruct (run_jmp _ _ _ _ _ _ _ _ E2 Hop Hne Hl1) as [-> R2].
  destruct (run_jmp _ _ _ _ _ _ _ _ E5 Hop Hne Hl1) as [-> R5].
  destruct (run_jmp "JMP" 0x20 _ _ _ _ _ _ E7 ltac:(by left) ltac:(done) Hl2) as [-> R7].
  pose proof (emits_keeps _ _ _ _ _ _ K1 E1 Hg) as Hg1. pose proof (emits_keeps _ _ _ _ _ _ KB E3 Hg1) as Hg3.
  pose proof (emits_keeps _ _ _ _ _ _ K1 E4 Hg3) as Hg4. pose proof (emits_keeps _ _ _ _ _ _ KX E6 Hg4) as Hg6.
  pose proof (emits_keeps _ _ _ _ _ _ KY E9 Hg6) as Hg9.
  assert (forall m2, pc m2 = q7 -> in_rom rom cs ce m2 -> gwp Y (fun _ m3 => forall m4, keep [] m3 m4 -> Q tt m4) m2 ->
    runs size m2 (fun m' => pc m' = q9 /\ in_rom rom cs ce m' /\ Q tt m')) as HY.
  { intros m2 Hp2 Hrom2 H2. rewrite <- Hp2 in E9. apply (run_piece _ _ _ _ _ _ _ _ H2 Hg6 E9 Hrom2). intros m3 Hp3 Hrom3 H3.
    apply runs_here. repeat split; [done..|]. apply H3, keep_refl. }
  split; [done|].
  apply (run_piece _ _ _ _ _ _ _ _ H Hg E1 Hrom). intros m1 Hp1 Hrom1 H1. apply R2; [done..|].
  intros m2 K Hrom2 Hp2. specialize (H1 m2 K). destruct (jump_taken opc m1).
  { apply HY; [congruence|done..]. }
  rewrite <- Hp2 in E3. apply (run_piece _ _ _ _ _ _ _ _ H1 Hg1 E3 Hrom2). intros m3 Hp3 Hrom3 H3.
  rewrite <- Hp3 in E4. apply (run_piece _ _ _ _ _ _ _ _ H3 Hg3 E4 Hrom3). intros m4 Hp4 Hrom4 H4. apply R5; [done..|].
  intros m5 K5 Hrom5 Hp5. specialize (H4 m5 K5). destruct (jump_taken opc m4).
  { apply HY; [congruence|done..]. }
  rewrite <- Hp5 in E6. apply (run_piece _ _ _ _ _ _ _ _ H4 Hg4 E6 Hrom5). intros m6 Hp6 Hrom6 H6.
  apply R7; [done..|]. intros m7 K7 Hrom7 Hp7. apply runs_here. cbn in Hp7. rewrite Hr2 in Hp7. repeat split; [done..|].
  by apply H6.
Qed.

(** "test; jump to done; A; done:". *)
Lemma gwp_skip (test A : G unit) op opc done_ m (Q : unit -> cpu -> Prop) :
  List.In (op, opc) jump_ops -> opc <> 0x27 -> keeps vars fn ret_label unit test -> keeps vars fn ret_label unit A ->
  gwp test (fun _ m1 => forall m2, keep [] m1 m2 -> if jump_taken opc m1 then Q tt m2 else gwp A Q m2) m ->
  gwp (test ;; jmp op done_ ;; A ;; emit_label done_) Q m.
Proof.
  intros Hop Hne K1 K2 H. apply gwp_emits. intros g [] g' e Hg He Hrom.
  apply emits_bind in He as ([] & g1 & q1 & E1 & He). apply emits_bind in He as ([] & g2 & q2 & E2 & He).
  apply emits_bind in He as ([] & g3 & q3 & E3 & E4).
  pose proof (emits_label _ _ _ _ _ _ E4) as (-> & -> & Hl & Hr).
  destruct (run_jmp _ _ _ _ _ _ _ _ E2 Hop Hne Hl) as [-> R2].
  pose proof (emits_keeps _ _ _ _ _ _ K1 E1 Hg) as Hg1. pose proof (emits_keeps _ _ _ _ _ _ K2 E3 Hg1) as Hg3.
  split; [done|].
  apply (run_piece _ _ _ _ _ _ _ _ H Hg E1 Hrom). intros m1 Hp1 Hrom1 H1. apply R2; [done..|].
  intros m2 K Hrom2 Hp2. specialize (H1 m2 K). destruct (jump_taken opc m1).
  - apply runs_here. repeat split; [congruence|done..].
  - rewrite <- Hp2 in E3. apply (run_piece _ _ _ _ _ _ _ _ H1 Hg1 E3 Hrom2). intros m3 Hp3 Hrom3 H3. by apply runs_here.
Qed.

Lemma keeps_ins t : keeps vars fn ret_label unit (ins t).
Proof. by intros g a g' c [= _ <- _]. Qed.

Lemma keeps_imm t n : keeps vars fn ret_label unit (ins_imm t n).
Proof. by intros g a g' c [= _ <- _]. Qed.

Lemma keeps_cmp_zero : keeps vars fn ret_label unit cmp_zero.
Proof. apply keeps_bind; [apply keeps_ins|intros ?; apply keeps_ins]. Qed.

Lemma run_ins_cmp t a b m (Q : unit -> cpu -> Prop) :
  reads (str "  " ++ str t) 0x1d [AReg a; AReg b] -> is_word (regs m a) -> is_word (regs m b) ->
  (forall m', compared m' (regs m a) (regs m b) -> keep [] m m' -> Q tt m') -> gwp (ins t) Q m.
Proof. intros Hr Ha Hb HQ. by apply (gwp_cmp _ _ _ _ _ _ _ _ Hcs Hce _ a b). Qed.

Definition words (m : cpu) : Prop := forall r, is_word (regs m r).

Lemma run_cmp_zero m (Q : unit -> cpu -> Prop) :
  words m -> (forall m', compared m' (regs m 0) 0 -> keep [7] m m' -> Q tt m') -> gwp cmp_zero Q m.
Proof.
  intros Hw HQ. apply gwp_bind; [done..|]. apply (gwp_ins_mov _ 7 0); [reads_now|done|]. intros m1 E1 K1.
  eapply run_ins_cmp; [reads_now|apply (k_words _ _ _ K1 Hw)..|]. intros m2 C2 K2. apply HQ.
  - by rewrite E1, (kreg _ _ _ 0 K1) in C2 by lit.
  - keeps.
Qed.

Lemma run_set_if test op opc yes done_ m (Q : unit -> cpu -> Prop) :
  List.In (op, opc) jump_ops -> opc <> 0x27 -> keeps vars fn ret_label unit test ->
  gwp test (fun _ m1 => keep [7] m m1 /\
    forall m', regs m' 0 = b2z (jump_taken opc m1) -> keep [0; 7] m m' -> Q tt m') m ->
  gwp (set_if test op yes done_) Q m.
Proof.
  intros Hin Hop Hk H. unfold set_if. apply (gwp_branch _ _ _ op opc); try done; try apply keeps_ins.
  eapply gwp_mono; [done..|exact H|]. intros [] m1 [K1 HQ] m2 K2. destruct (jump_taken opc m1).
  - apply (gwp_ins_mov _ 0 1); [reads_now|done|]. intros m3 E3 K3 m4 K4. apply HQ; [|keeps].
    by rewrite (kreg _ _ _ 0 K4) by lit.
  - apply (gwp_ins_mov _ 0 0); [reads_now|done|]. intros m3 E3 K3 m4 K4. apply HQ; [|keeps].
    by rewrite (kreg _ _ _ 0 K4) by lit.
Qed.

(** ** Conversions *)

Lemma run_sign_extend bits m (Q : unit -> cpu -> Prop) :
  words m -> 0 < bits < 32 -> 0 <= regs m 0 < 2 ^ bits ->
  (forall m', regs m' 0 = sext bits (regs m 0) -> keep [0; 7] m m' -> Q tt m') ->
  gwp (sign_extend (2 ^ (bits - 1)) (2 ^ 32 - 2 ^ bits)) Q m.
Proof.
  intros Hw Hb Hv HQ. unfold sign_extend. apply gwp_bind; [done..|]. apply gwp_new_label; [done..|]. intros done_.
  assert (H31 : is_word (2 ^ (bits - 1))).
  { unfold is_word. pose proof (Z.pow_le_mono_r 2 (bits - 1) 31). lia. }
  assert (Hhi : is_word (2 ^ 32 - 2 ^ bits)) by (unfold is_word; pose proof (Z.pow_le_mono_r 2 bits 32); lia).
  pose proof (gwp_skip (ins_imm "MOV R7" (2 ^ (bits - 1)) ;; ins "CMP R0, R7")
    (ins_imm "MOV R7" (2 ^ 32 - 2 ^ bits) ;; ins "OR R0, R7") "JB" 0x2c done_ m Q) as Hs.
  assert (forall R, gwp ((ins_imm "MOV R7" (2 ^ (bits - 1)) ;; ins "CMP R0, R7") ;; jmp "JB" done_ ;;
    (ins_imm "MOV R7" (2 ^ 32 - 2 ^ bits) ;; ins "OR R0, R7") ;; emit_label done_) R m ->
    gwp (ins_imm "MOV R7" (2 ^ (bits - 1)) ;; ins "CMP R0, R7" ;; jmp "JB" done_ ;;
      ins_imm "MOV R7" (2 ^ 32 - 2 ^ bits) ;; ins "OR R0, R7" ;; emit_label done_) R m) as Hassoc by done.
  apply Hassoc, Hs; clear Hs Hassoc; [cbn; tauto|done|apply keeps_bind; [apply keeps_imm|intros ?; apply keeps_ins]..|].
  apply gwp_bind; [done..|]. apply (gwp_ins_imm _ 7); [done|lia|done|]. intros m1 E1 K1.
  pose proof (k_words _ _ _ K1 Hw) as Hw1.
  eapply run_ins_cmp; [reads_now|apply Hw1|apply Hw1|]. intros m2 (_ & C2 & _) K2 m3 K3.
  rewrite E1, (kreg _ _ _ 0 K1) in C2 by lit. cbn [jump_taken]. rewrite C2.
  assert (Er : regs m3 0 = regs m 0) by (rewrite (kreg _ _ _ 0 K3), (kreg _ _ _ 0 K2), (kreg _ _ _ 0 K1); [done|lit..]).
  pose proof (sext_lor bits (regs m 0) ltac:(lia) Hv) as Hx.
  pose proof (has_spec (regs m 0) (bits - 1) ltac:(lia)) as Hh.
  assert (E2 : 2 ^ bits = 2 * 2 ^ (bits - 1)) by (rewrite <- Z.pow_succ_r by lia; f_equal; lia).
  destruct (Z.ltb_spec (regs m 0) (2 ^ (bits - 1))) as [Hlt|Hge].
  - apply HQ; [|keeps]. rewrite Er. unfold sext. rewrite (proj2 (Z.ltb_lt _ _)) by done. symmetry. by apply u32_small, Hw.
  - assert (has (regs m 0) (2 ^ (bits - 1)) = true) as Et.
    { rewrite Hh. apply Z.testbit_true; [lia|].
      assert (regs m 0 / 2 ^ (bits - 1) = 1) as ->; [symmetry; apply Z.div_unique with (regs m 0 - 2 ^ (bits - 1)); lia|done]. }
    rewrite Et in Hx.
    pose proof (k_words _ _ _ K3 (k_words _ _ _ K2 Hw1)) as Hw3.
    apply gwp_bind; [done..|]. apply (gwp_ins_imm _ 7); [done|lia|done|]. intros m4 E4 K4.
    eapply gwp_ins_alu; [reads_now|apply (k_words _ _ _ K4 Hw3)|reflexivity|]. intros m5 E5 K5. apply HQ; [|keeps].
    rewrite E5, E4, (kreg _ _ _ 0 K4), Er, Hx by lit. apply u32_small. apply sext_word.
Qed.

(** R0 masked with a constant. *)
Lemma run_mask t n k m (Q : unit -> cpu -> Prop) :
  reads (str "  " ++ str t) 1 [AReg 7; AImm n] -> n = 2 ^ k - 1 -> 0 <= k < 32 -> words m ->
  (forall m', regs m' 0 = regs m 0 mod 2 ^ k -> keep [0; 7] m m' -> Q tt m') ->
  gwp (ins t ;; ins "AND R0, R7") Q m.
Proof.
  intros Ht -> Hk Hw HQ. assert (is_word (2 ^ k - 1)) as Hn.
  { unfold is_word. pose proof (Z.pow_le_mono_r 2 k 32). lia. }
  apply gwp_bind; [done..|]. apply (gwp_ins_mov _ 7 (2 ^ k - 1)); [done|done|]. intros m1 E1 K1.
  pose proof (k_words _ _ _ K1 Hw) as Hw1.
  eapply gwp_ins_alu; [reads_now|apply Hw1|reflexivity|]. intros m2 E2 K2. apply HQ; [|keeps].
  rewrite E2, E1, (kreg _ _ _ 0 K1) by lit.
  replace (2 ^ k - 1) with (Z.ones k) by (rewrite Z.ones_equiv; lia). rewrite Z.land_ones by lia.
  apply u32_small. pose proof (Z.mod_pos_bound (regs m 0) (2 ^ k)). pose proof (Z.pow_le_mono_r 2 k 32). lia.
Qed.

(** Equal computations have the same runs. *)
Lemma gwp_ext {A} (gen gen' : G A) (Q : A -> cpu -> Prop) m : (forall g, gen g = gen' g) -> gwp gen' Q m -> gwp gen Q m.
Proof. intros E H g a g' c e Hg Eg. rewrite E in Eg. exact (H g a g' c e Hg Eg). Qed.

Lemma gen_assoc {A B C} (m : G A) (f : A -> G B) (k : B -> G C) g :
  (mbind k (mbind f m) : G C) g = (mbind (fun a => mbind k (f a) : G C) m : G C) g.
Proof.
  unfold mbind, G_bind. destruct (m g) as [a g1 c1|]; [|done]. destruct (f a g1) as [b g2 c2|]; [|done].
  destruct (k b g2); [by rewrite app_assoc|done].
Qed.

(** The code of a conversion. *)
Lemma run_cast ty m (Q : unit -> cpu -> Prop) :
  words m ->
  (forall m', (forall v, convert ty (regs m 0) = Some v -> regs m' 0 = v) -> keep [0; 7] m m' -> Q tt m') ->
  gwp (cast_to (Some ty)) Q m.
Proof.
  intros Hw HQ. unfold cast_to, convert in *.
  assert (Hint : forall k, ty_kind ty = k -> k ∈ [TY_CHAR; TY_SHORT] -> is_unsigned_int ty = ty_unsigned ty).
  { intros k Ek Hk. unfold is_unsigned_int, is_integer, is_kind. rewrite Ek. revert Hk. rewrite !elem_of_cons.
    intros [-> | [-> | Hk]]; [done..|]. by apply elem_of_nil in Hk. }
  assert (Hstay : (forall v, (match ty_kind ty with TY_VOID => None | TY_BOOL => Some (b2z (negb (regs m 0 =? 0)))
      | TY_CHAR => Some (if ty_unsigned ty then regs m 0 mod 2 ^ 8 else sext 8 (regs m 0 mod 2 ^ 8))
      | TY_SHORT => Some (if ty_unsigned ty then regs m 0 mod 2 ^ 16 else sext 16 (regs m 0 mod 2 ^ 16))
      | _ => Some (regs m 0) end) = Some v -> regs m 0 = v) -> gwp (mret tt) Q m).
  { intros H. apply gwp_ret; [done..|]. apply HQ; [exact H|apply keep_refl]. }
  assert (Hsmall : forall t bits, reads (str "  " ++ str t) 1 [AReg 7; AImm (2 ^ bits - 1)] -> 0 < bits < 32 ->
    is_unsigned_int ty = ty_unsigned ty ->
    (forall m', regs m' 0 = (if ty_unsigned ty then regs m 0 mod 2 ^ bits else sext bits (regs m 0 mod 2 ^ bits)) ->
       keep [0; 7] m m' -> Q tt m') ->
    gwp (ins t ;; ins "AND R0, R7" ;; if is_unsigned_int ty then mret tt else sign_extend (2 ^ (bits - 1)) (2 ^ 32 - 2 ^ bits)) Q m).
  { intros t bits Ht Hb Hu HQ'.
    apply (gwp_ext _ ((ins t ;; ins "AND R0, R7") ;; if is_unsigned_int ty then mret tt else sign_extend (2 ^ (bits - 1)) (2 ^ 32 - 2 ^ bits)));
      [intros g; symmetry; apply gen_assoc|].
    apply gwp_bind; [done..|]. apply (run_mask _ (2 ^ bits - 1) bits); [done|done|lia|done|]. intros m1 E1 K1. rewrite Hu.
    destruct (ty_unsigned ty); [by apply gwp_ret; auto|].
    pose proof (Z.mod_pos_bound (regs m 0) (2 ^ bits)).
    apply run_sign_extend; [exact (k_words _ _ _ K1 Hw)|lia|rewrite E1; lia|]. intros m2 E2 K2.
    apply HQ'; [by rewrite E2, E1|keeps]. }
  destruct (ty_kind ty) eqn:Ek; try (apply Hstay; congruence).
  - apply gwp_bind; [done..|]. apply gwp_new_label; [done..|]. intros t. apply gwp_bind; [done..|].
    apply gwp_new_label; [done..|]. intros d. apply (run_set_if _ _ 0x22); [cbn; tauto|done|apply keeps_cmp_zero|].
    apply run_cmp_zero; [done|]. intros m1 (C1 & _) K1. split; [done|]. intros m2 E2 K2. apply HQ; [|done].
    intros ? [= <-]. rewrite E2. cbn [jump_taken]. by rewrite C1.
  - apply (Hsmall _ 8); [reads_now|lia|by apply (Hint _ eq_refl); lit|]. intros m' E. apply HQ. intros ? [= <-]. exact E.
  - apply (Hsmall _ 16); [reads_now|lia|by apply (Hint _ eq_refl); lit|]. intros m' E. apply HQ. intros ? [= <-]. exact E.
Qed.

(** ** Operators *)

Lemma run_compare node lhs rhs lty rty m v (Q : unit -> cpu -> Prop) :
  n_lhs node = Some lhs -> n_rhs node = Some rhs -> n_ty lhs = Some lty -> n_ty rhs = Some rty -> words m ->
  is_comparison (n_kind node) = true ->
  (forall ty, binary (n_kind node) ty lty rty (regs m 0) (regs m 1) = Some v) ->
  (forall m', regs m' 0 = v -> keep [0; 7] m m' -> Q tt m') -> gwp (gen_compare node) Q m.
Proof.
  intros El Er Tl Tr Hw Hk Hv HQ. unfold gen_compare. rewrite El, Er.
  apply gwp_bind; [done..|]. apply gwp_new_label; [done..|]. intros yes. apply gwp_bind; [done..|].
  apply gwp_new_label; [done..|]. intros d.
  do 2 (apply gwp_bind; [done..|]; apply gwp_ret; [done..|]). rewrite Tl, Tr.
  do 2 (apply gwp_bind; [done..|]; apply gwp_ret; [done..|]). cbv zeta.
  specialize (Hv lty).
  set (uns := is_promoted_unsigned lty || is_promoted_unsigned rty) in *.
  assert (Hle : forall x y, (x <? y) || (x =? y) = (x <=? y)).
  { intros x y. destruct (Z.ltb_spec x y), (Z.eqb_spec x y), (Z.leb_spec x y); cbn; lia. }
  assert (Hsgn : forall x y, is_word x -> is_word y -> (x =? y) = (sgn x =? sgn y)).
  { intros x y Hx Hy. rewrite !sgn_word by done. unfold is_word in *.
    destruct (Z.leb_spec (2 ^ 31) x), (Z.leb_spec (2 ^ 31) y), (Z.eqb_spec x y);
      first [done | symmetry; apply Z.eqb_eq; lia | symmetry; apply Z.eqb_neq; lia]. }
  pose proof (Hsgn _ _ (Hw 0) (Hw 1)) as Hs.
  assert (H : forall op opc, List.In (op, opc) jump_ops -> opc <> 0x27 ->
    (forall m1, compared m1 (regs m 0) (regs m 1) -> b2z (jump_taken opc m1) = v) ->
    gwp (set_if (ins "CMP R0, R1") op yes d) Q m).
  { intros op opc Hin Hne Hj. apply (run_set_if _ op opc); [done|done|apply keeps_ins|].
    eapply run_ins_cmp; [reads_now|apply Hw..|]. intros m1 C1 K1. split; [keeps|]. intros m2 E2 K2. apply HQ; [|done].
    by rewrite E2, Hj. }
  unfold binary in Hv. fold uns in Hv.
  destruct (n_kind node); try done; injection Hv as <-; [| |destruct uns..].
  - apply (H _ 0x21); [cbn; tauto|done|]. intros m1 (C1 & C2 & C3). cbn [jump_taken]. by rewrite C1.
  - apply (H _ 0x22); [cbn; tauto|done|]. intros m1 (C1 & C2 & C3). cbn [jump_taken]. by rewrite C1.
  - apply (H _ 0x2c); [cbn; tauto|done|]. intros m1 (C1 & C2 & C3). cbn [jump_taken]. by rewrite C2.
  - apply (H _ 0x25); [cbn; tauto|done|]. intros m1 (C1 & C2 & C3). cbn [jump_taken]. by rewrite C3.
  - apply (H _ 0x2d); [cbn; tauto|done|]. intros m1 (C1 & C2 & C3). cbn [jump_taken]. by rewrite C2, C1, Hle.
  - apply (H _ 0x26); [cbn; tauto|done|]. intros m1 (C1 & C2 & C3). cbn [jump_taken]. by rewrite C3, C1, Hs, Hle.
Qed.

(** A small second operand is its own last five bits. *)
Lemma land_31 b : 0 <= b < 32 -> Z.land b 31 = b.
Proof. intros H. change 31 with (Z.ones 5). by rewrite Z.land_ones, Z.mod_small by lia. Qed.

(** Bit operations on words. *)
Lemma u32_ones v : u32 v = Z.land v (Z.ones 32).
Proof. by rewrite Z.land_ones. Qed.

Lemma u32_land a b : is_word a -> u32 (Z.land a b) = Z.land a b.
Proof. intros Ha. rewrite u32_ones, <- Z.land_assoc, (Z.land_comm b), Z.land_assoc, <- u32_ones. by rewrite u32_small. Qed.

Lemma u32_lor a b : is_word a -> is_word b -> u32 (Z.lor a b) = Z.lor a b.
Proof. intros Ha Hb. rewrite u32_ones, Z.land_lor_distr_l, <- !u32_ones. by rewrite !u32_small. Qed.

Lemma u32_lxor a b : is_word a -> is_word b -> u32 (Z.lxor a b) = Z.lxor a b.
Proof.
  intros Ha Hb. rewrite <- (u32_small a Ha), <- (u32_small b Hb) at 2. rewrite !u32_ones.
  apply Z.bits_inj'. intros k Hk. rewrite Z.land_spec, !Z.lxor_spec, !Z.land_spec. by destruct (Z.testbit a k), (Z.testbit b k), (Z.testbit (Z.ones 32) k).
Qed.

(** The instruction of an operator, on R0 and R1. *)
Lemma run_binary_op node ty lhs rhs lty rty m v (Q : unit -> cpu -> Prop) :
  n_ty node = Some ty -> n_lhs node = Some lhs -> n_rhs node = Some rhs -> n_ty lhs = Some lty -> n_ty rhs = Some rty ->
  words m -> binary (n_kind node) ty lty rty (regs m 0) (regs m 1) = Some v ->
  (forall m', regs m' 0 = v -> keep [0; 7] m m' -> Q tt m') -> gwp (binary_op node) Q m.
Proof.
  intros Et El Er Tl Tr Hw Hv HQ.
  pose proof (Hw 0) as H0. pose proof (Hw 1) as H1.
  assert (Hi : forall t op w, reads (str "  " ++ str t) op [AReg 0; AReg 1] -> alu op (regs m 0) (regs m 1) = Some w -> w = v ->
    gwp (ins t) Q m).
  { intros t op w Ht Ha <-. apply (gwp_ins_alu t op 0 1 w); [done|apply Hw|done|]. intros m' E K. apply HQ; [done|keeps]. }
  assert (Hs : forall u s : string, gwp (ins (if is_unsigned_int ty then u else s)) Q m ->
    gwp (op ← by_sign node u s ; ins op) Q m).
  { intros u s H. apply gwp_bind; [done..|]. unfold by_sign. rewrite Et. apply gwp_bind; [done..|].
    apply gwp_ret; [done..|]. by apply gwp_ret. }
  assert (Hdiv : (regs m 1 =? 0) = false -> (sgn (regs m 1) =? 0) = false).
  { rewrite sgn_word by done. unfold is_word in *. intros H%Z.eqb_neq. apply Z.eqb_neq.
    destruct (Z.leb_spec (2 ^ 31) (regs m 1)); lia. }
  assert (Hcmp : is_comparison (n_kind node) = true -> gwp (gen_compare node) Q m).
  { intros Hk. apply (run_compare node lhs rhs lty rty m v); try done. intros ty'. revert Hv.
    destruct (n_kind node); done. }
  unfold binary_op. unfold binary in Hv. cbv zeta in Hv.
  destruct (n_kind node) eqn:Ek; try done; try (by apply Hcmp);
    try (injection Hv as <-; eapply Hi; [reads_now|reflexivity|done]).
  - destruct (Z.eqb_spec (regs m 1) 0) as [|Hn]; [done|]. apply Hs. apply Z.eqb_neq in Hn.
    destruct (is_unsigned_int ty); injection Hv as <-; (eapply Hi; [reads_now| |]); cbn [alu].
    + by rewrite Hn.
    + apply Z.eqb_neq in Hn. unfold is_word in *. apply u32_small. split; [apply Z.div_pos; lia|].
      apply (Z.le_lt_trans _ (regs m 0)); [apply Z.div_le_upper_bound; nia|lia].
    + by rewrite Hdiv.
    + done.
  - destruct (Z.eqb_spec (regs m 1) 0) as [|Hn]; [done|]. apply Hs. apply Z.eqb_neq in Hn.
    destruct (is_unsigned_int ty); injection Hv as <-; (eapply Hi; [reads_now| |]); cbn [alu].
    + by rewrite Hn.
    + apply Z.eqb_neq in Hn. unfold is_word in *. apply u32_small. pose proof (Z.mod_pos_bound (regs m 0) (regs m 1)). lia.
    + by rewrite Hdiv.
    + done.
  - injection Hv as <-. eapply Hi; [reads_now|reflexivity|by apply u32_land].
  - injection Hv as <-. eapply Hi; [reads_now|reflexivity|by apply u32_lor].
  - injection Hv as <-. eapply Hi; [reads_now|reflexivity|by apply u32_lxor].
  - destruct (Z.ltb_spec (regs m 1) 32); [|done]. injection Hv as <-. unfold is_word in H1.
    eapply Hi; [reads_now|reflexivity|]. by rewrite land_31 by lia.
  - destruct (Z.ltb_spec (regs m 1) 32); [|done]. unfold is_word in H1. rewrite El.
    apply gwp_bind; [done..|]. apply gwp_ret; [done..|]. rewrite Tl.
    apply gwp_bind; [done..|]. apply gwp_ret; [done..|].
    destruct (is_promoted_unsigned lty); injection Hv as <-; (eapply Hi; [reads_now|reflexivity|]); rewrite land_31 by lia.
    + apply u32_small. unfold is_word in H0. rewrite Z.shiftr_div_pow2 by lia. split; [apply Z.div_pos; lia|].
      apply (Z.le_lt_trans _ (regs m 0)); [|lia]. apply Z.div_le_upper_bound; [lia|]. nia.
    + done.
Qed.

(** ** Temporaries on the hardware stack *)

(** After the evaluation of an expression: the state [s], the value [v] in R0, and the
    stack as before. *)
Record after (s : cst) (v : option Z) (m m' : cpu) : Prop := {
  af_rel : rel s m';
  af_sp : sp m' = sp m;
  af_frame : frame m m';
  af_value : forall x, v = Some x -> regs m' 0 = x;
}.

Lemma after_keep ks s v m m' m'' :
  after s v m m' -> keep ks m' m'' -> within ks [0; 1; 5; 7] = true -> regs m'' 0 = regs m' 0 -> after s v m m''.
Proof.
  intros [R S F X] K Hk H0. split; [by eapply rel_keep|by rewrite (k_sp _ _ _ K)| |].
  - intros a Ha Hr. rewrite (k_mem _ _ _ K). auto.
  - intros x Hx. rewrite H0. auto.
Qed.

(** A value that is computed in registers. *)
Lemma keep_after ks s v m m' :
  rel s m -> keep ks m m' -> within ks [0; 1; 5; 7] = true -> (forall x, v = Some x -> regs m' 0 = x) -> after s v m m'.
Proof. intros R K Hk H. split; [by eapply rel_keep|apply K|by eapply keep_frame|done]. Qed.

Lemma after_trans s1 v1 s2 v2 m m1 m2 : after s1 v1 m m1 -> after s2 v2 m1 m2 -> after s2 v2 m m2.
Proof. intros [R S F X] [R' S' F' X']. split; [done|congruence| |done]. eapply mem_frame_trans; [done..|lia]. Qed.

Lemma stack_word m a x : 0 <= a -> a + 4 <= size -> is_word x -> rd32 size (m <| mem ::= fun f => pwrite32 f a x |>) a = Some x.
Proof.
  intros H1 H2 Hx. unfold rd32, xlate. rewrite (proj2 (Z.leb_le _ _)), (proj2 (Z.leb_le _ _)) by lia.
  cbn [mem set_mem setf andb]. rewrite pread32_pwrite32_same, u32_i32. by rewrite u32_small.
Qed.

(** The stack and the bytes of the program are apart. *)
Lemma stack_apart a : slo <= a < shi -> V a = false.
Proof. intros Ha. destruct (V a) eqn:E; [|done]. apply HV in E. lia. Qed.

Lemma push_other f a x b : ~ a <= b < a + 4 -> pwrite32 f a x b = f b.
Proof. intros H. unfold pwrite32. apply blit_out. cbn. lia. Qed.

(** R0 is pushed, [A] runs, and R1 gets the pushed value. *)
Lemma run_saved (A : G unit) s s' v m (Q : unit -> cpu -> Prop) :
  rel s m -> slo + 4 <= sp m ->
  (forall m1, rel s m1 -> sp m1 = sp m - 4 -> frame m m1 ->
     gwp A (fun _ m2 => after s' v m1 m2 /\
       forall m3, after s' v m m3 -> regs m3 1 = regs m 0 -> regs m3 0 = regs m2 0 -> Q tt m3) m1) ->
  gwp (push_tmp ;; A ;; pop_tmp "R1") Q m.
Proof.
  intros HR Hs H. pose proof (rl_sp _ _ HR) as Hsp. pose proof Hstack as (Hlo & Hhi). pose proof (rl_words _ _ HR) as Hw.
  assert (Hvs : forall a, V a = true -> ~ sp m - 4 <= a < sp m).
  { intros a Ha Hr. rewrite stack_apart in Ha; [done|lia]. }
  apply gwp_bind; [done..|].
  apply (gwp_push _ _ _ _ _ _ _ _ Hcs Hce _ 0); [reads_now|lia|lia| |].
  { intros Hrom a Ha. cbn [mem set_mem setf]. rewrite push_other; [by apply Hrom|]. pose proof Hapart. lia. }
  intros m1 Hm1 Hs1 Hr1.
  assert (HF : frame m m1).
  { intros a Ha Hr. rewrite Hm1. apply push_other. lia. }
  assert (HR1 : rel s m1).
  { destruct HR as [R1 R2 R3 R4 R5 R6]. split; try (intros; rewrite ?Hr1; auto); [|lia].
    rewrite Hm1, push_other; [by apply R2|]. specialize (Hvs a). lia || (intros ?; apply Hvs; [done|lia]). }
  apply gwp_bind; [done..|]. eapply gwp_mono; [done..|by apply (H m1)|]. clear H. intros [] m2 [[R2 S2 F2 X2] HQ].
  apply (gwp_pop _ _ _ _ _ _ _ _ Hcs Hce _ 1 m2 (regs m 0)); [reads_now|apply Hw| |].
  { assert (rd32 size m1 (sp m1) = Some (regs m 0)) as E1.
    { pose proof (stack_word m (sp m - 4) (regs m 0) ltac:(lia) ltac:(lia) (Hw 0)) as E. rewrite Hs1.
      unfold rd32 in *. destruct (xlate size (sp m - 4) 4); [|done]. rewrite <- E. do 2 f_equal. by rewrite Hm1. }
    rewrite <- E1, S2. unfold rd32. destruct (xlate size (sp m1) 4); [|done]. do 2 f_equal. apply pread32_ext. intros k Hk.
    apply F2; [|lia]. apply stack_apart. lia. }
  intros m3 H31 Hm3 Hs3 Hr3. apply HQ; [|done|by apply Hr3].
  assert (regs m3 0 = regs m2 0) as H30 by (by apply Hr3).
  split.
  - destruct R2 as [A1 A2 A3 A4 A5 A6]. split; [by rewrite Hr3|by intros; rewrite Hm3; auto|done| | |lia].
    + intros w Hl Hp. rewrite Hr3; [auto|]. pose proof (Hreg w Hl Hp) as Hg. intros E. rewrite E in Hg. revert Hg. lit.
    + intros r. destruct (decide (r = 1)) as [->|Hn]; [rewrite H31; apply Hw|rewrite Hr3; auto].
  - lia.
  - intros a Ha Hr. rewrite Hm3, F2, HF; [done..|lia].
  - intros x Hx. rewrite H30. auto.
Qed.
End sim.

(** Follow the code of a computation: one more piece of [H]. *)
Ltac piece H g q E := apply emits_bind in H as ([] & g & q & E & H).
Ltac piece_of H g q E := apply emits_bind in H as (? & g & q & E & H).
