(* ===== verification/CodegenSim.v ===== *)
(** * CodegenSim: generated code does what the tree means

    The simulation proof of the code generator: whatever the semantics of a tree says,
    the processor does on the generated code, expressions and statements, loops and
    jumps included. *)

From S2P Require Import Prelude Config Kernel Klog RawMem UserMem LibString LibFormat GuestAsm GuestAsmSpec Codegen Cpu AsmLines AsmCode CSem GenLogic CodegenAlloc InsnRules CodegenRun.

(** ** The kind of a node decides *)

(** Compare constructors of [NodeKind]. *)
Ltac kinds := repeat match goal with
  | H : context [bool_decide (?a = ?b :> NodeKind)] |- _ =>
      let v := eval vm_compute in (bool_decide (a = b :> NodeKind)) in
      match v with true => idtac | false => idtac end; change (bool_decide (a = b :> NodeKind)) with v in H
  | |- context [bool_decide (?a = ?b :> NodeKind)] =>
      let v := eval vm_compute in (bool_decide (a = b :> NodeKind)) in
      match v with true => idtac | false => idtac end; change (bool_decide (a = b :> NodeKind)) with v
  end; cbv iota in *.

(** Split a computation in [option] that gave a result. *)
Ltac opt := repeat match goal with
  | H : mbind _ ?m = Some _ |- _ => let E := fresh "E" in destruct m eqn:E; cbn [mbind option_bind] in H; [|discriminate H]
  | H : (let '(_, _) := ?x in _) = Some _ |- _ => destruct x
  | H : (if ?b then _ else None) = Some _ |- _ => let E := fresh "B" in destruct b eqn:E; [|discriminate H]
  | H : (if ?b then None else _) = Some _ |- _ => let E := fresh "B" in destruct b eqn:E; [discriminate H|]
  | H : Some _ = Some _ |- _ => injection H as H; try subst
  | H : (_, _) = (_, _) |- _ => injection H as H; try subst
  end.

Lemma word_ty_spec ty : word_ty ty = true -> is64 ty = false /\ is_flonum_ty ty = false /\ is_float_ty ty = false /\ is_double_ty ty = false.
Proof.
  unfold word_ty, is_flonum_ty, is_float_ty, is_double_ty. destruct ty as [ty|]; [|done]. cbn. intros H. bool_hyps.
  by destruct (is_kind ty TY_FLOAT), (is_kind ty TY_DOUBLE), (is_kind ty TY_LDOUBLE).
Qed.

Lemma addr_simple_inv e : addr_is_simple e = true ->
  n_kind e = ND_VAR \/
  exists l, n_lhs e = Some l /\
    ((n_kind e = ND_MEMBER /\ addr_is_simple l = true) \/ (n_kind e = ND_DEREF /\ value_is_simple l = true)).
Proof.
  destruct e as [k ? lhs]. unfold addr_is_simple, value_is_simple. cbn [is_simple n_kind n_lhs].
  destruct lhs as [l|]; destruct k; intros H; bool_hyps; try done; eauto 6.
Qed.

Lemma value_simple_inv e : value_is_simple e = true ->
  (n_kind e = ND_NUM \/ n_kind e = ND_VAR) \/ (n_kind e = ND_MEMBER /\ addr_is_simple e = true) \/
  exists l, n_lhs e = Some l /\
    ((n_kind e = ND_DEREF /\ value_is_simple l = true) \/ (n_kind e = ND_ADDR /\ addr_is_simple l = true)).
Proof.
  destruct e as [k ty lhs]. unfold addr_is_simple, value_is_simple. cbn [is_simple n_kind n_lhs n_ty].
  destruct (is_flonum_ty ty || is64 ty); [done|].
  destruct lhs as [l|]; destruct k; intros H; try done; first [by right; left|by eauto 8].
Qed.

(** The semantics and the generator at a node of a known kind. *)
Ltac sem H Ek := cbn [CSem.eval CSem.eval_addr CSem.exec] in H; rewrite Ek in H; kinds.
Ltac gstep := apply gwp_bind; [done..|].
Ltac gret := apply gwp_ret; [done..|].
Ltac gsome := gstep; apply gwp_deref; [done..|]; intros ? [= <-].
(** What a field of a node is. *)
Ltac known t := match goal with H : t = Some _ |- _ => rewrite H end.
Ltac gen_addr_at Ek := cbn [gen_addr]; gsome; rewrite Ek.
Ltac gen_expr_at Ek Hty :=
  let H1 := fresh in let H2 := fresh in let H3 := fresh in let H4 := fresh in
  destruct (word_ty_spec _ Hty) as (H1 & H2 & H3 & H4);
  cbn [gen_expr]; gsome;
  repeat match goal with H : n_ty ?x = Some _ |- context [n_ty ?x] => rewrite H end;
  rewrite H1, H3, H4, Ek; kinds; clear H1 H2 H3 H4.

Section sim.
Context `{L : Layout}.
Local Abbreviation gwp := (gwp vars fn ret_label size rho rom cs ce).
Local Abbreviation ret := (ty_return (o_ty (vars fn))).
Local Abbreviation eval := (CSem.eval vars locals rho fp V ret).
Local Abbreviation eval_addr := (CSem.eval_addr vars locals rho fp V ret).
Local Abbreviation exec := (CSem.exec vars locals rho fp V ret).
Local Abbreviation exec_list := (CSem.exec_list vars locals rho fp V ret).
Local Abbreviation expr := (fun fuel e => gen_expr tr fuel (Some e)).

(** ** Registers of variables *)

Lemma run_from_reg r m (Q : unit -> cpu -> Prop) :
  r ∈ [2; 3; 4] -> words m -> (forall m', regs m' 0 = regs m r -> keep [0] m m' -> Q tt m') ->
  gwp (ins_sym "MOVR R0" (str (reg_name r))) Q m.
Proof.
  intros Hr Hw HQ. rewrite !elem_of_cons in Hr.
  destruct Hr as [-> | [-> | [-> | Hr]]]; [..|by apply elem_of_nil in Hr];
    (eapply (gwp_alu _ _ _ _ _ _ _ _ Hcs Hce); [reads_now|apply Hw|reflexivity|exact HQ]).
Qed.

Lemma run_to_reg r m (Q : unit -> cpu -> Prop) :
  r ∈ [2; 3; 4] -> words m -> (forall m', regs m' r = regs m 0 -> keep [r] m m' -> Q tt m') ->
  gwp (ins_sym ("MOVR " ++ reg_name r)%string (str "R0")) Q m.
Proof.
  intros Hr Hw HQ. rewrite !elem_of_cons in Hr.
  destruct Hr as [-> | [-> | [-> | Hr]]]; [..|by apply elem_of_nil in Hr];
    (eapply (gwp_alu _ _ _ _ _ _ _ _ Hcs Hce); [reads_now|apply Hw|reflexivity|exact HQ]).
Qed.

(** A promoted variable gets the value of R0. *)
Lemma rel_promoted s m m' v x :
  rel s m -> v ∈ locals -> is_promoted vars v = true -> keep [o_reg (vars v)] m m' -> regs m' (o_reg (vars v)) = x ->
  rel (s <| rv ::= fun f => upd f v x |>) m'.
Proof.
  intros [R1 R2 R3 R4 R5 R6] Hl Hp [M S R W] Hx. pose proof (Hreg v Hl Hp) as Hr. split; cbn [cm rv set_rv setf].
  - rewrite R; [done|]. rewrite list_elem_of_singleton. intros E. rewrite <- E in Hr. revert Hr. lit.
  - intros a Ha. rewrite M. auto.
  - done.
  - intros w Hlw Hpw. destruct (upd_case (rv s) v x w) as [[-> ->]|[Hn ->]]; [done|].
    rewrite R; [auto|]. rewrite list_elem_of_singleton. intros E. by apply Hn, Hinj.
  - auto.
  - lia.
Qed.

Lemma var_reg_run e v (Q : Z -> cpu -> Prop) m :
  n_kind e = ND_VAR -> n_var e = Some v -> Q (o_reg (vars v)) m -> gwp (var_reg e) Q m.
Proof.
  intros Ek Ev HQ. unfold var_reg. rewrite Ek, Ev. apply gwp_bind; [done..|]. apply gwp_ret; [done..|].
  apply gwp_bind; [done..|]. apply gwp_obj; [done..|]. by apply gwp_ret.
Qed.

Lemma var_reg_other e (Q : Z -> cpu -> Prop) m : n_kind e <> ND_VAR -> Q 0 m -> gwp (var_reg e) Q m.
Proof. intros Ek HQ. unfold var_reg. destruct (n_kind e); try done; by apply gwp_ret. Qed.

(** ** Simple operands *)

(** The offset of a member is added to the address. *)
Lemma run_member_offset mb a m (Q : unit -> cpu -> Prop) :
  words m -> regs m 0 = a -> 0 <= m_offset mb < 2 ^ 31 ->
  (forall m', regs m' 0 = u32 (a + m_offset mb) -> keep [0; 7] m m' -> Q tt m') ->
  gwp (if m_offset mb >? 0 then ins_imm "MOV R7" (m_offset mb) ;; ins "ADD R0, R7" else mret tt) Q m.
Proof.
  intros Hw Ha Ho HQ. destruct (Z.ltb_spec 0 (m_offset mb)).
  - apply gwp_bind; [done..|]. apply (gwp_ins_imm _ 7); [done|lia|unfold is_word; lia|]. intros m1 E1 K1.
    eapply gwp_ins_alu; [reads_now|apply (k_words _ _ _ K1 Hw)|reflexivity|]. intros m2 E2 K2. apply HQ; [|keeps].
    by rewrite E2, E1, (kreg _ _ _ 0 K1), Ha by lit.
  - apply gwp_ret; [done..|]. apply HQ; [|apply keep_refl]. replace (m_offset mb) with 0 by lia.
    rewrite Z.add_0_r, Ha. symmetry. apply u32_small. rewrite <- Ha. apply Hw.
Qed.

Lemma member_offset_spec e off :
  member_offset e = Some off -> exists mb, n_member e = Some mb /\ m_is_bitfield mb = false /\ 0 <= m_offset mb < 2 ^ 31.
Proof. unfold member_offset. intros H. opt. bool_hyps. exists m. repeat split; (done || lia). Qed.

(** Operands that count as simple change nothing but R0 and R7. *)
Lemma simple_run n :
  (forall e s v s' m, eval n e s = Some (v, s') -> value_is_simple e = true -> rel s m ->
     s' = s /\ forall fuel, gwp (expr fuel e) (fun _ m' => keep [0; 7] m m' /\ forall x, v = Some x -> regs m' 0 = x) m) /\
  (forall e s a s' m, eval_addr n e s = Some (a, s') -> addr_is_simple e = true -> rel s m ->
     s' = s /\ forall fuel, gwp (gen_addr tr fuel (Some e)) (fun _ m' => keep [0; 7] m m' /\ regs m' 0 = a) m).
Proof.
  induction n as [|n [IHv IHa]]; [done|].
  assert (Haddr : forall e s a s' m, eval_addr (S n) e s = Some (a, s') -> addr_is_simple e = true -> rel s m ->
     s' = s /\ forall fuel, gwp (gen_addr tr fuel (Some e)) (fun _ m' => keep [0; 7] m m' /\ regs m' 0 = a) m).
  { intros e s a s' m H Hs HR. apply addr_simple_inv in Hs as [Ek | (l & El & [[Ek Hl] | [Ek Hl]])]; sem H Ek.
    - opt. split; [done|]. intros [|fuel]; [by apply gwp_halt|]. gen_addr_at Ek. known (n_var e).
      apply (run_var_addr z a s'); [exact HR|exact E0|]. intros m' Em K1. by split.
    - rewrite El in H. opt. destruct (IHa _ _ _ _ m ltac:(eassumption) Hl HR) as [-> Hg]. split; [done|].
      intros [|fuel]; [by apply gwp_halt|]. gen_addr_at Ek. rewrite El. gstep. eapply gwp_mono; [done..|apply Hg|].
      intros [] m1 [K1 X1]. known (n_member e). gsome. bool_hyps. apply (run_member_offset _ z); [|done|lia|].
      + exact (k_words _ _ _ K1 (rl_words _ _ HR)).
      + intros m2 X2 K2. split; [keeps|done].
    - rewrite El in H. unfold used in H. opt. destruct (IHv _ _ _ _ m ltac:(eassumption) Hl HR) as [-> Hg]. split; [done|].
      intros [|fuel]; [by apply gwp_halt|]. gen_addr_at Ek. rewrite El. eapply gwp_mono; [done..|apply Hg|].
      intros [] m1 [K1 X1]. split; [done|auto]. }
  split; [|exact Haddr]. intros e s v s' m H Hs HR.
  apply value_simple_inv in Hs as [[Ek | Ek] | [[Ek Hl] | (l & El & [[Ek Hl] | [Ek Hl]])]]; sem H Ek;
    destruct (word_ty (n_ty e)) eqn:Hty; cbn [negb] in H; try done.
  - injection H as <- <-. split; [done|]. intros [|fuel]; [by apply gwp_halt|]. gen_expr_at Ek Hty.
    apply (gwp_ins_imm _ 0); [done|lia|apply u32_word|]. intros m1 X1 K1. split; [keeps|]. by intros ? [= <-].
  - opt. destruct (is_promoted vars z) eqn:Hp; opt; (split; [done|]); intros [|fuel]; try (by apply gwp_halt); gen_expr_at Ek Hty.
    + apply bool_decide_eq_true in B. gstep. apply (var_reg_run _ z); [done..|]. unfold is_promoted in Hp. rewrite Hp.
      apply run_from_reg; [by apply Hreg|exact (rl_words _ _ HR)|]. intros m1 X1 K1. split; [keeps|]. intros ? [= <-].
      rewrite X1. by apply (rl_rv _ _ HR).
    + gstep. apply (var_reg_run _ z); [done..|]. unfold is_promoted in Hp. rewrite Hp. gstep.
      destruct (Haddr e s' z0 s' m) as [_ Hg]; [|by unfold addr_is_simple; destruct e; cbn in Ek; subst|done|].
      { cbn [CSem.eval_addr]. rewrite Ek. known (n_var e). cbn [mbind option_bind]. by known (var_addr vars locals rho fp z). }
      eapply gwp_mono; [done..|apply Hg|]. intros [] m1 [K1 X1].
      assert (HR1 : rel s' m1) by (by eapply rel_keep). eapply (run_load _ _ s' z0); [done|done|by intros ?; congruence|done|done|].
      intros m2 X2 K2. split; [keeps|]. by intros ? [= <-].
  - opt. destruct (member_offset_spec _ _ ltac:(eassumption)) as (mb & Em & Hb & Hoffs).
    destruct (IHa _ _ _ _ m ltac:(eassumption) Hl HR) as [-> Hg]. split; [done|].
    intros [|fuel]; [by apply gwp_halt|]. gen_expr_at Ek Hty. gstep. eapply gwp_mono; [done..|apply Hg|].
    intros [] m1 [K1 X1]. assert (HR1 : rel s m1) by (by eapply rel_keep).
    eapply (run_load _ _ s z0); [done|done|by intros ?; eauto|done|done|].
    intros m2 X2 K2. split; [keeps|]. by intros ? [= <-].
  - rewrite El in H. unfold used in H. opt. destruct (IHv _ _ _ _ m ltac:(eassumption) Hl HR) as [-> Hg]. split; [done|].
    intros [|fuel]; [by apply gwp_halt|]. gen_expr_at Ek Hty. rewrite El. gstep. eapply gwp_mono; [done..|apply Hg|].
    intros [] m1 [K1 X1]. assert (HR1 : rel s m1) by (by eapply rel_keep).
    eapply (run_load _ _ s z); [done|done|by intros ?; congruence|auto|done|].
    intros m2 X2 K2. split; [keeps|]. by intros ? [= <-].
  - rewrite El in H. opt. destruct (IHa _ _ _ _ m ltac:(eassumption) Hl HR) as [-> Hg]. split; [done|].
    intros [|fuel]; [by apply gwp_halt|]. gen_expr_at Ek Hty. rewrite El. eapply gwp_mono; [done..|apply Hg|].
    intros [] m1 [K1 X1]. split; [done|]. by intros ? [= <-].
Qed.

(** ** What is to prove *)

(** There is stack for the temporaries of a tree. *)
Definition room (e : Node) (m : cpu) : Prop := slo + 4 * Z.of_nat (height e) <= sp m.

Lemma room_child e p m m' :
  n_lhs e = Some p \/ n_rhs e = Some p \/ n_cond e = Some p \/ n_then e = Some p \/ n_els e = Some p \/
  n_init e = Some p \/ n_inc e = Some p \/ p ∈ n_body e -> room e m -> sp m - 4 <= sp m' -> room p m'.
Proof. intros H%height_child. unfold room. lia. Qed.

Definition expr_ok (n : nat) : Prop := forall e s v s' m fuel,
  eval n e s = Some (v, s') -> rel s m -> room e m -> gwp (expr fuel e) (fun _ => after s' v m) m.
Definition addr_ok (n : nat) : Prop := forall e s a s' m fuel,
  eval_addr n e s = Some (a, s') -> rel s m -> room e m -> gwp (gen_addr tr fuel (Some e)) (fun _ => after s' (Some a) m) m.

(** Where a statement ends, and the value that it leaves in R0. *)
Definition ends_at (e : Z) (f : flow) : Z :=
  match f with Normal _ => e | Jump l => u32 (rho l) | Returned _ => u32 (rho ret_label) end.
Definition flow_value (f : flow) : option Z := match f with Normal v | Returned v => v | Jump _ => None end.

(** The machine gets to where the flow [f] leads, in the state [s]. *)
Definition flows (e : Z) (f : flow) (s : cst) (m : cpu) : Prop :=
  runs size m (fun m' => pc m' = ends_at e f /\ in_rom rom cs ce m' /\ after s (flow_value f) m m').

Definition gst (gen : G unit) (f : flow) (s' : cst) (m : cpu) : Prop := forall g g' e,
  in_ctx vars fn ret_label g -> emits gen g tt g' (pc m) e -> in_rom rom cs ce m -> flows e f s' m.

Definition stmt_ok (n : nat) : Prop := forall p s f s' m fuel,
  exec n p s = Some (f, s') -> rel s m -> room p m -> gst (gen_stmt tr fuel (Some p)) f s' m.
Definition void_ok (n : nat) : Prop := forall p s f s' m fuel,
  CSem.exec_void vars locals rho fp V ret n p s = Some (f, s') -> rel s m -> room p m -> gst (gen_stmt tr fuel (Some p)) f s' m.

(** Code of a list of statements, each with fuel of its own. *)
Fixpoint emits_all (ps : list Node) (g g' : cg) (p e : Z) : Prop :=
  match ps with
  | [] => g' = g /\ e = p
  | q :: ps => exists fuel g1 mid, emits (gen_stmt tr fuel (Some q)) g tt g1 p mid /\ emits_all ps g1 g' mid e
  end.

Definition list_ok (n : nat) : Prop := forall ps s f s' m g g' e,
  exec_list n ps s = Some (f, s') -> rel s m -> (forall p, p ∈ ps -> room p m) ->
  in_ctx vars fn ret_label g -> emits_all ps g g' (pc m) e -> in_rom rom cs ce m -> flows e f s' m.
Definition block_ok (n : nat) : Prop := forall body cur s f s' m g0 g0' p0 g g' e,
  CSem.exec_block vars locals rho fp V ret n body cur s = Some (f, s') -> rel s m ->
  (forall p, p ∈ body -> room p m) -> (forall p, p ∈ cur -> room p m) ->
  in_ctx vars fn ret_label g0 -> emits_all body g0 g0' p0 e ->
  in_ctx vars fn ret_label g -> emits_all cur g g' (pc m) e -> in_rom rom cs ce m -> flows e f s' m.

(** The condition and the step of a loop, if it has them, and the loop from its top on. *)
Definition cond_code (fuel : nat) (p : Node) : G unit :=
  if n_cond p is Some _ then gen_cond tr fuel (n_cond p) ;; cmp_zero ;; jmp "JZ" (n_brk_label p) else mret tt.
Definition inc_code (fuel : nat) (p : Node) : G unit := if n_inc p is Some _ then gen_expr tr fuel (n_inc p) else mret tt.
Definition for_code (fuel : nat) (p : Node) (top : list Z) : G unit :=
  emit_label top ;; cond_code fuel p ;; gen_stmt tr fuel (n_then p) ;; emit_label (n_cont_label p) ;;
  inc_code fuel p ;; jmp "JMP" top ;; emit_label (n_brk_label p).
Definition for_ok (n : nat) : Prop := forall p s f s' m fuel top,
  CSem.for_loop vars locals rho fp V ret n p s = Some (f, s') -> rel s m -> room p m -> gst (for_code fuel p top) f s' m.

Definition do_code (fuel : nat) (p : Node) (top : list Z) : G unit :=
  emit_label top ;; gen_stmt tr fuel (n_then p) ;; emit_label (n_cont_label p) ;;
  gen_cond tr fuel (n_cond p) ;; cmp_zero ;; jmp "JNZ" top ;; emit_label (n_brk_label p).
Definition do_ok (n : nat) : Prop := forall p s f s' m fuel top,
  CSem.do_loop vars locals rho fp V ret n p s = Some (f, s') -> rel s m -> room p m -> gst (do_code fuel p top) f s' m.

Record sim_all (n : nat) : Prop := {
  sa_expr : expr_ok n; sa_addr : addr_ok n; sa_stmt : stmt_ok n; sa_void : void_ok n; sa_list : list_ok n;
  sa_block : block_ok n; sa_for : for_ok n; sa_do : do_ok n;
}.

(** ** Expressions *)

Lemma used_spec e r x s : used e r = Some (x, s) -> word_ty (n_ty e) = true /\ r = Some (Some x, s).
Proof. unfold used. intros H. opt. done. Qed.

Lemma eval_num n e s v s' :
  n_kind e = ND_NUM -> eval n e s = Some (v, s') -> v = Some (u32 (n_val e)) /\ s' = s.
Proof.
  intros Ek H. destruct n as [|n]; [done|]. sem H Ek. opt. done.
Qed.

Lemma is_int_const_num e : is_int_const e = true -> n_kind e = ND_NUM.
Proof. unfold is_int_const. intros H. bool_hyps. by apply bool_decide_eq_true in H. Qed.

Lemma binary_comm k ty lty rty a b : is_commutative k = true -> binary k ty lty rty a b = binary k ty lty rty b a.
Proof.
  destruct k; try done; intros _; cbn [binary]; f_equal; first [apply Z.land_comm | apply Z.lor_comm | apply Z.lxor_comm | f_equal; lia].
Qed.

Lemma after_word s x m m' : after s (Some x) m m' -> is_word x.
Proof. intros A. rewrite <- (af_value _ _ _ _ A x) by done. apply (rl_words _ _ (af_rel _ _ _ _ A)). Qed.

(** Code that only changes a register after a value. *)
Lemma after_next s v w ks m m1 m2 :
  after s v m m1 -> keep ks m1 m2 -> within ks [0; 1; 5; 7] = true -> (forall x, w = Some x -> regs m2 0 = x) -> after s w m m2.
Proof. intros A K Hk Hx. eapply after_trans; [exact A|]. by eapply keep_after; [apply A|..]. Qed.

Section step.
Context (n : nat) (IH : sim_all n).
#[local] Set Default Proof Using "Type*".

(** An operand, as the generator and the semantics use it. *)
Lemma run_value p s x s' m fuel (Q : unit -> cpu -> Prop) :
  (q ← p ; used q (eval n q s)) = Some (x, s') ->
  (forall q, p = Some q -> room q m) -> rel s m -> (forall m', after s' (Some x) m m' -> Q tt m') ->
  gwp (gen_expr tr fuel p) Q m.
Proof.
  intros H Hr HR HQ. destruct p as [q|]; [|done]. cbn [mbind option_bind] in H. apply used_spec in H as [_ H].
  eapply gwp_mono; [done..|by apply (sa_expr _ IH q s (Some x) s' m fuel H HR), Hr|]. intros []. apply HQ.
Qed.

(** The choice of [gen_binary] how to get the operands into R0 and R1. *)
Lemma run_operands l r s s1 s2 x y m fuel kind (Q : unit -> cpu -> Prop) :
  used r (eval n r s) = Some (y, s1) -> used l (eval n l s1) = Some (x, s2) -> rel s m ->
  slo + 4 * Z.of_nat (S (Nat.max (height l) (height r))) <= sp m ->
  (forall m', after s2 None m m' -> (regs m' 0 = x /\ regs m' 1 = y) \/ (is_commutative kind = true /\ regs m' 0 = y /\ regs m' 1 = x) ->
     Q tt m') ->
  gwp (if is_int_const r then gen_expr tr fuel (Some l) ;; ins_imm "MOV R1" (u32 (n_val r))
       else if is_int_const l && is_commutative kind then gen_expr tr fuel (Some r) ;; ins_imm "MOV R1" (u32 (n_val l))
       else if value_is_simple l then gen_expr tr fuel (Some r) ;; ins "MOVR R1, R0" ;; gen_expr tr fuel (Some l)
       else gen_expr tr fuel (Some r) ;; push_tmp ;; gen_expr tr fuel (Some l) ;; pop_tmp "R1") Q m.
Proof.
  intros Hy Hx HR Hroom HQ. apply used_spec in Hy as [Tr Hy]. apply used_spec in Hx as [Tl Hx].
  assert (Rl : forall m', sp m - 4 <= sp m' -> room l m') by (intros; unfold room; lia).
  assert (Rr : room r m) by (unfold room; lia).
  pose proof (sa_expr _ IH r s (Some y) s1 m fuel Hy HR Rr) as Gr.
  assert (Hnone : forall v m', after s2 v m m' -> after s2 None m m') by (intros v m' []; by split).
  destruct (is_int_const r) eqn:Ecr; [|destruct (is_int_const l && is_commutative kind) eqn:Ecl; [|destruct (value_is_simple l) eqn:Esl]].
  - apply is_int_const_num in Ecr. destruct (eval_num _ _ _ _ _ Ecr Hy) as [[= Ey] ->].
    gstep. eapply gwp_mono; [done..|apply (sa_expr _ IH l s (Some x) s2 m fuel Hx HR), Rl; lia|]. intros [] m1 A1.
    apply (gwp_ins_imm _ 1); [done|lia|apply u32_word|]. intros m2 E2 K2.
    assert (E0 : regs m2 0 = x) by (rewrite (kreg _ _ _ 0 K2) by lit; by apply A1).
    apply HQ; [|left; by rewrite Ey]. eapply Hnone, (after_next _ _ (Some x)); [done|done|lit|]. by intros ? [= <-].
  - apply andb_true_iff in Ecl as [Ecl Hcom]. apply is_int_const_num in Ecl. destruct (eval_num _ _ _ _ _ Ecl Hx) as [[= Ex] ->].
    gstep. eapply gwp_mono; [done..|exact Gr|]. intros [] m1 A1.
    apply (gwp_ins_imm _ 1); [done|lia|apply u32_word|]. intros m2 E2 K2.
    assert (E0 : regs m2 0 = y) by (rewrite (kreg _ _ _ 0 K2) by lit; by apply A1).
    apply HQ; [|right; by rewrite Ex]. eapply Hnone, (after_next _ _ (Some y)); [done|done|lit|]. by intros ? [= <-].
  - gstep. eapply gwp_mono; [done..|exact Gr|]. intros [] m1 A1. pose proof (af_rel _ _ _ _ A1) as HR1.
    gstep. eapply gwp_ins_alu; [reads_now|apply (rl_words _ _ HR1)|reflexivity|]. intros m2 E2 K2.
    assert (HR2 : rel s1 m2) by (by eapply rel_keep).
    destruct (proj1 (simple_run n) l s1 (Some x) s2 m2 Hx Esl HR2) as [-> Hg].
    eapply gwp_mono; [done..|apply Hg|]. intros [] m3 [K3 X3]. specialize (X3 x eq_refl). apply HQ.
    + apply (Hnone (Some x)). eapply after_next; [exact A1|eapply (keep_trans [0; 1; 7]); keep1|lit|]. by intros ? [= <-].
    + left. split; [done|]. rewrite (kreg _ _ _ 1 K3), E2 by lit. by apply A1.
  - gstep. eapply gwp_mono; [done..|exact Gr|]. intros [] m1 A1. pose proof (af_rel _ _ _ _ A1) as HR1.
    pose proof (af_sp _ _ _ _ A1) as S1.
    apply (run_saved _ s1 s2 (Some x)); [done|unfold room in Rr; lia|]. intros m2 HR2 S2 F2.
    eapply gwp_mono; [done..|apply (sa_expr _ IH l s1 (Some x) s2 m2 fuel Hx HR2), Rl; lia|]. intros [] m3 A3.
    split; [exact A3|]. intros m4 A4 X1 X0. apply HQ.
    + apply (Hnone (Some x)). by eapply after_trans.
    + left. split; [rewrite X0; by apply A3|rewrite X1; by apply A1].
Qed.

Lemma room_two e l r m : n_lhs e = Some l -> n_rhs e = Some r -> room e m ->
  slo + 4 * Z.of_nat (S (Nat.max (height l) (height r))) <= sp m.
Proof using.
  intros El Er Hr. pose proof (height_child e l ltac:(tauto)). pose proof (height_child e r ltac:(tauto)). unfold room in Hr. lia.
Qed.

Lemma run_binary e ty l r lty rty s s1 s2 x y v m fuel :
  n_ty e = Some ty -> n_lhs e = Some l -> n_rhs e = Some r -> n_ty l = Some lty -> n_ty r = Some rty ->
  used r (eval n r s) = Some (y, s1) -> used l (eval n l s1) = Some (x, s2) -> binary (n_kind e) ty lty rty x y = Some v ->
  rel s m -> room e m -> gwp (gen_binary tr fuel e) (fun _ => after s2 (Some v) m) m.
Proof.
  intros Et El Er Tl Tr Hy Hx Hv HR Hroom. destruct fuel as [|fuel]; [by apply gwp_halt|]. cbn [gen_binary].
  pose proof (used_spec _ _ _ _ Hy) as [(R1 & R2 & _)%word_ty_spec _]. pose proof (used_spec _ _ _ _ Hx) as [(L1 & L2 & _)%word_ty_spec _].
  rewrite El, Er. do 2 gsome. rewrite R1, R2, L1, L2, andb_false_r. cbn [orb].
  gstep. eapply (run_operands l r s s1 s2 x y m fuel (n_kind e)); [done..|by eapply room_two|].
  intros m1 A1 Hops. pose proof (rl_words _ _ (af_rel _ _ _ _ A1)) as Hw.
  assert (binary (n_kind e) ty lty rty (regs m1 0) (regs m1 1) = Some v) as Hb.
  { destruct Hops as [[-> ->]|(Hc & -> & ->)]; [done|by rewrite binary_comm]. }
  apply (run_binary_op e ty l r lty rty m1 v); try done. intros m2 X2 K2.
  eapply after_next; [done|exact K2|lit|]. by intros ? [= <-].
Qed.

(** A condition. *)
Lemma run_cond p s x s' m fuel (Q : unit -> cpu -> Prop) :
  (q ← p ; used q (eval n q s)) = Some (x, s') ->
  (forall q, p = Some q -> room q m) -> rel s m -> (forall m', after s' (Some x) m m' -> Q tt m') ->
  gwp (gen_cond tr fuel p) Q m.
Proof.
  intros H Hr HR HQ. destruct fuel as [|fuel]; [by apply gwp_halt|]. cbn [gen_cond]. gstep.
  apply (run_value p s x s'); [done..|]. intros m1 A1. destruct p as [q|]; [|done]. cbn [mbind option_bind] in H.
  apply used_spec in H as [(T1 & T2 & T3 & T4)%word_ty_spec _]. gsome. rewrite T1, T3, T4. gret. by apply HQ.
Qed.

(** A condition and the comparison with zero behind it. *)
Lemma run_test p s x s' m fuel (Q : unit -> cpu -> Prop) :
  (q ← p ; used q (eval n q s)) = Some (x, s') ->
  (forall q, p = Some q -> room q m) -> rel s m ->
  (forall m', after s' (Some x) m m' -> jump_taken 0x21 m' = (x =? 0) -> jump_taken 0x22 m' = negb (x =? 0) -> Q tt m') ->
  gwp (gen_cond tr fuel p ;; cmp_zero) Q m.
Proof.
  intros H Hr HR HQ. gstep. apply (run_cond p s x s'); [done..|]. intros m1 A1.
  apply run_cmp_zero; [exact (rl_words _ _ (af_rel _ _ _ _ A1))|]. intros m2 (C & _) K2.
  assert (regs m1 0 = x) as E by (by apply A1). rewrite E in C.
  apply HQ; [|exact C|by cbn [jump_taken]; rewrite C].
  eapply after_next; [done|exact K2|lit|]. intros ? [= <-]. by rewrite (kreg _ _ _ 0 K2) by lit.
Qed.

Lemma keeps_cond fuel p : keeps vars fn ret_label unit (gen_cond tr fuel p ;; cmp_zero).
Proof using. apply keeps_bind; [apply gen_keeps|intros _; apply keeps_cmp_zero]. Qed.

Lemma run_conditional e s c s1 p v s2 m fuel :
  (q ← n_cond e ; used q (eval n q s)) = Some (c, s1) -> (if c =? 0 then n_els e else n_then e) = Some p ->
  eval n p s1 = Some (v, s2) -> rel s m -> room e m -> gwp (gen_conditional tr fuel e) (fun _ => after s2 v m) m.
Proof.
  intros Hc Hp He HR Hroom. destruct fuel as [|fuel]; [by apply gwp_halt|]. cbn [gen_conditional].
  gstep. apply gwp_new_label; [done..|]. intros els. gstep. apply gwp_new_label; [done..|]. intros end_.
  eapply gwp_ext; [intros g; symmetry; apply gen_assoc|].
  apply (gwp_branch _ _ _ _ 0x21); [cbn; tauto|done|apply keeps_cond|apply gen_keeps..|].
  apply (run_test _ s c s1); [done| |done|].
  { intros q Hq. apply (room_child e q m m); [tauto|done|lia]. }
  intros m1 A1 J _ m2 K2. rewrite J.
  assert (HR2 : rel s1 m2) by (eapply rel_keep; [apply A1|exact K2|done]).
  assert (S2 : sp m2 = sp m) by (rewrite (k_sp _ _ _ K2); apply A1).
  assert (gwp (expr fuel p) (fun _ m3 => forall m4, keep [] m3 m4 -> after s2 v m m4) m2) as G2.
  { eapply gwp_mono; [done..|apply (sa_expr _ IH p s1 v s2 m2 fuel He HR2)|].
    - apply (room_child e p m m2); [|done|lia]. destruct (c =? 0); tauto.
    - intros [] m3 A3 m4 K4. eapply after_keep; [|exact K4|lit|by apply (kreg _ _ _ 0 K4); lit].
      eapply after_trans; [|exact A3]. eapply after_keep; [exact A1|exact K2|lit|by apply (kreg _ _ _ 0 K2); lit]. }
  destruct (c =? 0); by rewrite Hp.
Qed.

Lemma run_const t x s v m m1 m2 :
  reads (str "  " ++ str t) 1 [AReg 0; AImm x] -> is_word x -> after s v m m1 -> keep [] m1 m2 ->
  gwp (ins t) (fun _ m3 => forall m4, keep [] m3 m4 -> after s (Some x) m m4) m2.
Proof using.
  intros Ht Hx A K. apply (gwp_ins_mov _ 0 x); [done|done|]. intros m3 E3 K3 m4 K4.
  eapply (after_next _ _ _ [0]); [exact A|keeps|lit|]. intros ? [= <-]. by rewrite (kreg _ _ _ 0 K4) by lit.
Qed.

Lemma run_logical e s x s1 v s2 m fuel (is_and := bool_decide (n_kind e = ND_LOGAND)) :
  (q ← n_lhs e ; used q (eval n q s)) = Some (x, s1) ->
  (if (if is_and then x =? 0 else negb (x =? 0)) then v = b2z (negb is_and) /\ s2 = s1
   else exists y, (q ← n_rhs e ; used q (eval n q s1)) = Some (y, s2) /\ v = b2z (negb (y =? 0))) ->
  rel s m -> room e m -> gwp (gen_logical tr fuel e) (fun _ => after s2 (Some v) m) m.
Proof.
  intros Hx Hv HR Hroom. destruct fuel as [|fuel]; [by apply gwp_halt|]. cbn [gen_logical]. fold is_and.
  gstep. apply gwp_new_label; [done..|]. intros set_. gstep. apply gwp_new_label; [done..|]. intros done_.
  set (opc := if is_and then 0x21 else 0x22).
  assert (Hj : forall m' y, compared m' y 0 -> jump_taken opc m' = (if is_and then y =? 0 else negb (y =? 0))).
  { intros m' y (C & _). unfold opc. destruct is_and; cbn [jump_taken]; by rewrite C. }
  gstep. apply (run_cond _ s x s1); [done| |done|].
  { intros q Hq. apply (room_child e q m m); [tauto|done|lia]. }
  intros m1 A1. apply (gwp_two_tests _ _ _ _ _ opc).
  1: by destruct is_and; cbn; tauto.
  1: by unfold opc; destruct is_and.
  1: apply keeps_cmp_zero.
  1: apply gen_keeps.
  1,2: apply keeps_ins.
  apply run_cmp_zero; [exact (rl_words _ _ (af_rel _ _ _ _ A1))|]. intros m2 C2 K2 m3 K3.
  rewrite (af_value _ _ _ _ A1 x eq_refl) in C2. rewrite (Hj _ _ C2).
  assert (A2 : after s1 None m m2) by (eapply after_next; [exact A1|exact K2|lit|done]).
  destruct (if is_and then x =? 0 else negb (x =? 0)) eqn:Es.
  { destruct Hv as [-> ->]. destruct is_and; (eapply run_const; [reads_now|done|exact A2|exact K3]). }
  destruct Hv as (y & Hy & ->).
  assert (A3 : after s1 None m m3) by (eapply after_next; [exact A2|exact K3|lit|done]).
  apply (run_cond _ s1 y s2); [done| |apply A3|].
  { intros q Hq. apply (room_child e q m m3); [tauto|done|]. rewrite (af_sp _ _ _ _ A3). lia. }
  intros m4 A4. apply run_cmp_zero; [exact (rl_words _ _ (af_rel _ _ _ _ A4))|]. intros m5 C5 K5 m6 K6.
  rewrite (af_value _ _ _ _ A4 y eq_refl) in C5. rewrite (Hj _ _ C5).
  assert (A5 : after s2 None m m5).
  { eapply after_trans; [exact A3|]. eapply after_next; [exact A4|exact K5|lit|done]. }
  clear Hj C2 C5 Es. destruct is_and, (y =? 0); (eapply run_const; [reads_now|done|exact A5|exact K6]).
Qed.

Lemma promoted_var_reg l v : promoted_var vars l = Some v ->
  n_kind l = ND_VAR /\ n_var l = Some v /\ is_promoted vars v = true.
Proof using. unfold promoted_var. case_bool_decide; [|done]. intros H'. opt. done. Qed.

(** The register of an lvalue that is not a promoted variable. *)
Lemma no_var_reg l s a s' k (Q : unit -> cpu -> Prop) m :
  promoted_var vars l = None -> eval_addr n l s = Some (a, s') -> gwp (k 0) Q m -> gwp (reg ← var_reg l ; k reg) Q m.
Proof.
  intros Hp Ha HQ. gstep. destruct (decide (n_kind l = ND_VAR)) as [Ek|Ek]; [|by apply var_reg_other].
  destruct n as [|n']; [done|]. sem Ha Ek. opt. apply (var_reg_run _ z); [done..|]. unfold promoted_var in Hp.
  rewrite Ek in Hp. kinds. change (bool_decide (ND_VAR = ND_VAR)) with true in Hp. revert Hp. known (n_var l). cbn [mbind option_bind].
  unfold is_promoted. destruct (Z.eqb_spec (o_reg (vars z)) 0) as [->|]; done.
Qed.

Lemma run_assign_memory e l r ty s a s1 x s2 s3 m fuel :
  n_lhs e = Some l -> n_rhs e = Some r -> n_ty l = Some ty -> plain_member l ->
  eval_addr n l s = Some (a, s1) -> used r (eval n r s1) = Some (x, s2) -> store_as V ty s2 a x = Some s3 ->
  rel s m -> room e m ->
  gwp (gen_addr tr fuel (Some l) ;;
       rhs ← deref (Some r) ;
       (if value_is_simple rhs then ins "MOVR R1, R0" ;; gen_expr tr fuel (Some r)
        else push_tmp ;; gen_expr tr fuel (Some r) ;; pop_tmp "R1") ;;
       store l) (fun _ => after s3 (Some x) m) m.
Proof.
  intros El Er Tl Hpl Ha Hx Hs HR Hroom. apply used_spec in Hx as [_ Hx].
  gstep. eapply gwp_mono; [done..|apply (sa_addr _ IH l s a s1 m fuel Ha HR)|].
  { apply (room_child e l m m); [tauto|done|lia]. }
  intros [] m1 A1. pose proof (af_rel _ _ _ _ A1) as HR1. pose proof (af_sp _ _ _ _ A1) as S1.
  gsome. gstep.
  assert (Hstore : forall m', after s2 (Some x) m m' -> regs m' 1 = a -> gwp (store l) (fun _ => after s3 (Some x) m) m').
  { intros m' A E1. apply (run_store l ty s2 a x s3); [apply A|done|done|done|by apply A|done|].
    intros m'' HR' S' Hg Hf. eapply after_trans; [exact A|]. split; [done|done|done|]. intros ? [= <-]. rewrite Hg. by apply A. }
  destruct (value_is_simple r) eqn:Es.
  - gstep. eapply gwp_ins_alu; [reads_now|apply (rl_words _ _ HR1)|reflexivity|]. intros m2 E2 K2.
    assert (HR2 : rel s1 m2) by (by eapply rel_keep).
    destruct (proj1 (simple_run n) r s1 (Some x) s2 m2 Hx Es HR2) as [-> Hg].
    eapply gwp_mono; [done..|apply Hg|]. intros [] m3 [K3 X3]. apply Hstore.
    + eapply after_next; [exact A1|eapply (keep_trans [0; 1; 7]); keep1|lit|done].
    + rewrite (kreg _ _ _ 1 K3), E2 by lit. by apply A1.
  - apply (run_saved _ s1 s2 (Some x)); [done|unfold room in Hroom; pose proof (height_child e l ltac:(tauto)); lia|].
    intros m2 HR2 S2 F2. eapply gwp_mono; [done..|apply (sa_expr _ IH r s1 (Some x) s2 m2 fuel Hx HR2)|].
    { apply (room_child e r m m2); [tauto|done|lia]. }
    intros [] m3 A3. split; [exact A3|]. intros m4 A4 X1 X0. apply Hstore.
    + by eapply after_trans.
    + rewrite X1. by apply A1.
Qed.

Lemma run_assign_reg v r s x s1 m fuel :
  v ∈ locals -> is_promoted vars v = true -> (q ← r ; used q (eval n q s)) = Some (x, s1) ->
  rel s m -> (forall q, r = Some q -> room q m) ->
  gwp (gen_expr tr fuel r ;; ins_sym ("MOVR " ++ reg_name (o_reg (vars v)))%string (str "R0"))
    (fun _ => after (s1 <| rv ::= fun f => upd f v x |>) (Some x) m) m.
Proof.
  intros Hl Hp Hx HR Hroom. gstep. apply (run_value _ s x s1); [done..|]. intros m1 A1.
  pose proof (af_value _ _ _ _ A1 x eq_refl) as X1. pose proof (Hreg v Hl Hp) as Hr.
  apply run_to_reg; [done|exact (rl_words _ _ (af_rel _ _ _ _ A1))|]. intros m2 E2 K2. split.
  - apply (rel_promoted s1 m1); [apply A1|done|done|done|by rewrite E2].
  - rewrite (k_sp _ _ _ K2). apply A1.
  - intros b Hb Hrg. rewrite (k_mem _ _ _ K2). by apply A1.
  - intros ? [= <-]. rewrite (kreg _ _ _ 0 K2); [done|]. rewrite list_elem_of_singleton. intros E. rewrite <- E in Hr. revert Hr. lit.
Qed.

Lemma emits_each fuel ps g g' p e :
  emits (each_g (fun q => gen_stmt tr fuel (Some q)) ps) g tt g' p e -> emits_all ps g g' p e.
Proof using.
  revert g p. induction ps as [|q ps IHps]; intros g p H; cbn [each_g] in H.
  - apply emits_ret in H as (-> & -> & _). done.
  - apply emits_bind in H as ([] & g1 & mid & H1 & H2). exists fuel, g1, mid. auto.
Qed.

Lemma gst_gwp gen v s' m :
  keeps vars fn ret_label unit gen -> gst gen (Normal v) s' m -> gwp gen (fun _ => after s' v m) m.
Proof using.
  intros Hk H. apply gwp_emits. intros g [] g' e Hg He Hrom. split; [by eapply emits_keeps|]. by apply (H g g').
Qed.

Lemma gwp_gst gen v s' m : gwp gen (fun _ => after s' v m) m -> gst gen (Normal v) s' m.
Proof using. intros H g g' e Hg He Hrom. eapply run_piece; [exact H|done..|]. intros m' Hp Hr A. by apply runs_here. Qed.

Lemma sim_addr : addr_ok (S n).
Proof.
  intros e s a s' m fuel H HR Hroom. destruct fuel as [|fuel]; [by apply gwp_halt|].
  destruct (n_kind e) eqn:Ek; cbn [CSem.eval_addr] in H; rewrite Ek in H; try done; gen_addr_at Ek.
  - opt. gstep.
    eapply gwp_mono; [done..|apply (sa_expr _ IH n0 s o c m fuel ltac:(done) HR)|].
    { apply (room_child e n0 m m); [tauto|done|lia]. }
    intros [] m1 A1. pose proof (af_sp _ _ _ _ A1) as S1.
    eapply gwp_mono; [done..|apply (sa_addr _ IH n1 c a s' m1 fuel ltac:(done) (af_rel _ _ _ _ A1))|].
    { apply (room_child e n1 m m1); [tauto|done|lia]. }
    intros [] m2 A2. by eapply after_trans.
  - opt. bool_hyps. gstep. eapply gwp_mono; [done..|apply (sa_addr _ IH n0 s z s' m fuel ltac:(done) HR)|].
    { apply (room_child e n0 m m); [tauto|done|lia]. }
    intros [] m1 A1. gsome. apply (run_member_offset _ z); [exact (rl_words _ _ (af_rel _ _ _ _ A1))|by apply A1|lia|].
    intros m2 E2 K2. eapply after_next; [exact A1|exact K2|lit|]. by intros ? [= <-].
  - opt. apply (run_value (Some n0) s a s'); [by cbn|intros q [= <-]; apply (room_child e n0 m m); [tauto|done|lia]|done..].
  - opt. apply (run_var_addr z a s'); [done..|]. intros m1 E1 K1. eapply keep_after; [done|exact K1|lit|]. by intros ? [= <-].
Qed.

(** An operator with one operand: its instructions. *)
Lemma run_unary p s x s1 y m fuel (code : G unit) :
  (q ← p ; used q (eval n q s)) = Some (x, s1) -> (forall q, p = Some q -> room q m) -> rel s m ->
  (forall m1 (Q : unit -> cpu -> Prop), words m1 -> regs m1 0 = x ->
     (forall m2, regs m2 0 = y -> keep [0; 1; 7] m1 m2 -> Q tt m2) -> gwp code Q m1) ->
  gwp (gen_expr tr fuel p ;; code) (fun _ => after s1 (Some y) m) m.
Proof.
  intros Hx Hr HR Hcode. gstep. apply (run_value p s x s1); [done..|]. intros m1 A1.
  apply Hcode; [exact (rl_words _ _ (af_rel _ _ _ _ A1))|by apply A1|]. intros m2 E2 K2.
  eapply after_next; [exact A1|exact K2|lit|]. by intros ? [= <-].
Qed.

Lemma run_neg m x (Q : unit -> cpu -> Prop) :
  words m -> regs m 0 = x -> (forall m', regs m' 0 = u32 (0 - x) -> keep [0; 1; 7] m m' -> Q tt m') ->
  gwp (ins "MOV R1, 0" ;; ins "SUB R1, R0" ;; ins "MOVR R0, R1") Q m.
Proof using.
  intros Hw Hx HQ. gstep. apply (gwp_ins_mov _ 1 0); [reads_now|done|]. intros m1 E1 K1.
  pose proof (k_words _ _ _ K1 Hw) as Hw1. gstep. eapply gwp_ins_alu; [reads_now|apply Hw1|reflexivity|]. intros m2 E2 K2.
  eapply gwp_ins_alu; [reads_now|apply (k_words _ _ _ K2 Hw1)|reflexivity|]. intros m3 E3 K3. apply HQ; [|keeps].
  by rewrite E3, E2, E1, (kreg _ _ _ 0 K1), Hx by lit.
Qed.

Lemma lxor_ones x : is_word x -> u32 (Z.lxor x 4294967295) = u32 (Z.lnot x).
Proof using.
  intros Hx. rewrite !u32_ones. apply Z.bits_inj'. intros k Hk. change 4294967295 with (Z.ones 32).
  rewrite !Z.land_spec, Z.lxor_spec, Z.lnot_spec by done. destruct (decide (k < 32)).
  - rewrite Z.ones_spec_low by lia. by destruct (Z.testbit x k).
  - rewrite Z.ones_spec_high by lia. by rewrite !andb_false_r.
Qed.

Lemma run_bitnot m x (Q : unit -> cpu -> Prop) :
  words m -> regs m 0 = x -> (forall m', regs m' 0 = u32 (Z.lnot x) -> keep [0; 1; 7] m m' -> Q tt m') ->
  gwp (ins "MOV R7, 4294967295" ;; ins "XOR R0, R7") Q m.
Proof using.
  intros Hw Hx HQ. gstep. apply (gwp_ins_mov _ 7 4294967295); [reads_now|unfold is_word; lia|]. intros m1 E1 K1.
  pose proof (k_words _ _ _ K1 Hw) as Hw1. eapply gwp_ins_alu; [reads_now|apply Hw1|reflexivity|]. intros m2 E2 K2.
  apply HQ; [|keeps]. rewrite E2, E1, (kreg _ _ _ 0 K1), Hx by lit. apply lxor_ones. rewrite <- Hx. apply Hw.
Qed.

Lemma run_not p s x s1 yes done_ m fuel :
  (q ← p ; used q (eval n q s)) = Some (x, s1) -> (forall q, p = Some q -> room q m) -> rel s m ->
  gwp (gen_cond tr fuel p ;; set_if cmp_zero "JZ" yes done_) (fun _ => after s1 (Some (b2z (x =? 0))) m) m.
Proof.
  intros Hx Hr HR. gstep. apply (run_cond p s x s1); [done..|]. intros m1 A1.
  apply (run_set_if _ _ 0x21); [cbn; tauto|done|apply keeps_cmp_zero|].
  apply run_cmp_zero; [exact (rl_words _ _ (af_rel _ _ _ _ A1))|]. intros m2 (C2 & _) K2. split; [done|].
  rewrite (af_value _ _ _ _ A1 x eq_refl) in C2. intros m3 E3 K3. eapply after_next; [exact A1|exact K3|lit|].
  intros ? [= <-]. rewrite E3. cbn [jump_taken]. by rewrite C2.
Qed.

(** A conversion of a value. *)
Lemma run_value_as p ty s x s1 m fuel :
  (q ← p ; used q (eval n q s)) = Some (x, s1) -> (forall q, p = Some q -> room q m) -> rel s m -> word_ty (Some ty) = true ->
  gwp (gen_value_as tr fuel p (Some ty)) (fun _ => after s1 (convert ty x) m) m.
Proof.
  intros Hx Hr HR (T1 & T2 & T3 & T4)%word_ty_spec. destruct fuel as [|fuel]; [by apply gwp_halt|]. cbn [gen_value_as].
  rewrite bool_decide_false by done. rewrite T1, T3, T4. destruct p as [q|] eqn:Ep; [|done].
  assert (word_ty (n_ty q) = true) as (Q1 & Q2 & Q3 & Q4)%word_ty_spec by (by apply used_spec in Hx as [? _]).
  gsome. rewrite Q3, Q4. gstep. apply (run_value (Some q) s x s1); [done..|]. intros m1 A1.
  apply run_cast; [exact (rl_words _ _ (af_rel _ _ _ _ A1))|]. intros m2 E2 K2.
  rewrite (af_value _ _ _ _ A1 x eq_refl) in E2. eapply after_next; [exact A1|exact K2|lit|done].
Qed.

Lemma sim_stmt_expr e fuel s v s' m :
  exec_list n (n_body e) s = Some (Normal v, s') -> rel s m -> room e m ->
  gwp (each_g (fun q => gen_stmt tr fuel (Some q)) (n_body e)) (fun _ => after s' v m) m.
Proof.
  intros H HR Hroom. apply gst_gwp; [apply keeps_each; intros; apply gen_keeps|]. intros g g' e' Hg He Hrom.
  apply emits_each in He. apply (sa_list _ IH (n_body e) s (Normal v) s' m g g' e'); try done.
  intros p Hp. apply (room_child e p m m); [tauto|done|lia].
Qed.

Ltac child e m := let q := fresh in let Hq := fresh in intros q Hq; try injection Hq as <-; apply (room_child e _ m m); [tauto|assumption|lia].

Lemma sim_expr : expr_ok (S n).
Proof.
  intros e s v s' m fuel H HR Hroom. destruct fuel as [|fuel]; [by apply gwp_halt|].
  destruct (decide (n_kind e = ND_COMMA)) as [Ek|Hcomma].
  { sem H Ek. opt. cbn [gen_expr]. gsome. rewrite Ek. kinds. known (n_lhs e). known (n_rhs e). gstep.
    eapply gwp_mono; [done..|apply (sa_expr _ IH n0 s o c m fuel ltac:(done) HR)|].
    { apply (room_child e n0 m m); [tauto|done|lia]. }
    intros [] m1 A1. pose proof (af_sp _ _ _ _ A1) as S1.
    eapply gwp_mono; [done..|apply (sa_expr _ IH n1 c v s' m1 fuel ltac:(done) (af_rel _ _ _ _ A1))|].
    { apply (room_child e n1 m m1); [tauto|done|lia]. }
    intros [] m2 A2. by eapply after_trans. }
  destruct (decide (n_kind e = ND_COND)) as [Ek|Hcond].
  { sem H Ek. cbn [gen_expr]. gsome. rewrite Ek. kinds. opt. eapply run_conditional; [by known (n_cond e)|done..]. }
  assert (Hty : word_ty (n_ty e) = true).
  { cbn [CSem.eval] in H. rewrite !bool_decide_false in H by done. by destruct (word_ty (n_ty e)). }
  destruct (n_kind e) eqn:Ek; cbn [CSem.eval] in H; rewrite Ek in H; kinds; rewrite ?Hty in H; cbn [negb] in H.
  all: try (exfalso; clear - H; cbn [binary] in H; opt; done).
  all: cbn [gen_expr]; gsome; rewrite Ek; kinds.
  all: try (destruct (word_ty_spec _ Hty) as (T1 & T2 & T3 & T4); rewrite T1, T3, T4; clear T1 T2 T3 T4).
  all: try (opt; eapply run_binary; [eassumption..|rewrite Ek; eassumption|exact HR|exact Hroom]).
  - injection H as <- <-. gret. by eapply keep_after; [done|apply (keep_refl [])|lit|].
  - opt. eapply run_unary; [eassumption|child e m|done|]. intros m1 Q Hw Hx HQ. by apply (run_neg m1 z).
  - destruct (n_lhs e) as [l|] eqn:El; [|done]. cbn [mbind option_bind] in H. destruct (n_ty l) as [ty|] eqn:Tl; [|done].
    cbn [mbind option_bind] in H. destruct (is_aggregate (Some ty)) eqn:Ea; [done|]. gsome. rewrite Tl, Ea.
    destruct (promoted_var vars l) as [v0|] eqn:Ep.
    + destruct (promoted_var_reg _ _ Ep) as (Ekl & Evl & Hpv). gstep. apply (var_reg_run _ v0); [done..|].
      unfold is_promoted in Hpv. rewrite Hpv. opt. apply bool_decide_eq_true in B.
      eapply run_assign_reg; [done|done|eassumption|done|child e m].
    + assert (Hpl : plain_member l).
      { intros Ekl. rewrite Ekl in H. change (bool_decide (ND_MEMBER = ND_MEMBER)) with true in H. cbv iota in H.
        destruct (member_offset l) eqn:Em; [|done]. destruct (member_offset_spec _ _ Em) as (mb & E & Hb & _). eauto. }
      opt. eapply no_var_reg; [done|eassumption|]. cbn [negb Z.eqb].
      eapply (run_assign_memory e l); try done; eassumption.
  - done.
  - done.
  - opt. gstep. eapply gwp_mono; [done..|by eapply (sa_addr _ IH)|]. intros [] m1 A1.
    destruct (member_offset_spec _ _ ltac:(eassumption)) as (mb & Em & Hb & _).
    eapply (run_load e _ _ z0); [apply A1|done|by intros _; eauto|by apply A1|done|].
    intros m2 X2 K2. eapply after_next; [exact A1|exact K2|lit|]. by intros ? [= <-].
  - opt. apply (sa_addr _ IH n0 s z s' m fuel ltac:(done) HR). apply (room_child e n0 m m); [tauto|done|lia].
  - opt. gstep. eapply run_value; [eassumption|child e m|done|]. intros m1 A1.
    eapply (run_load e _ _ z); [apply A1|done|by intros ?; congruence|by apply A1|done|].
    intros m2 X2 K2. eapply after_next; [exact A1|exact K2|lit|]. by intros ? [= <-].
  - opt. gstep. apply gwp_new_label; [done..|]. intros yes. gstep. apply gwp_new_label; [done..|]. intros done_.
    eapply run_not; [eassumption|child e m|done].
  - opt. eapply run_unary; [eassumption|child e m|done|]. intros m1 Q Hw Hx HQ. by apply (run_bitnot m1 z).
  - opt. assert (exists y, v = Some y /\ if z =? 0 then y = 0 /\ s' = c
        else exists w, (q ← n_rhs e ; used q (eval n q c)) = Some (w, s') /\ y = b2z (negb (w =? 0))) as (y & -> & Hy).
    { destruct (z =? 0); cbn [negb] in *; opt; eauto 8. }
    apply (run_logical e s z c); [by known (n_lhs e)|by rewrite Ek|done..].
  - opt. assert (exists y, v = Some y /\ if negb (z =? 0) then y = 1 /\ s' = c
        else exists w, (q ← n_rhs e ; used q (eval n q c)) = Some (w, s') /\ y = b2z (negb (w =? 0))) as (y & -> & Hy).
    { destruct (z =? 0); cbn [negb] in *; opt; eauto 8. }
    apply (run_logical e s z c); [by known (n_lhs e)|by rewrite Ek|done..].
  - opt. destruct f; [|done..]. opt. by eapply sim_stmt_expr.
  - opt. destruct (is_promoted vars z) eqn:Hp; opt; unfold is_promoted in Hp; gstep; (apply (var_reg_run _ z); [done..|]); rewrite Hp.
    + apply bool_decide_eq_true in B. apply run_from_reg; [by apply Hreg|exact (rl_words _ _ HR)|]. intros m1 X1 K1.
      eapply keep_after; [done|exact K1|lit|]. intros ? [= <-]. rewrite X1. by apply (rl_rv _ _ HR).
    + gstep. destruct fuel as [|fuel]; [by apply gwp_halt|]. gen_addr_at Ek. known (n_var e).
      apply (run_var_addr z z0 s'); [done..|]. intros m1 X1 K1. assert (HR1 : rel s' m1) by (by eapply rel_keep).
      eapply (run_load _ _ s' z0); [done|done|by intros ?; congruence|done|done|].
      intros m2 X2 K2. eapply (keep_after [0; 7]); [done|keeps|lit|]. by intros ? [= <-].
  - injection H as <- <-. apply (gwp_ins_imm _ 0); [done|lia|apply u32_word|]. intros m1 X1 K1.
    eapply keep_after; [done|exact K1|lit|]. by intros ? [= <-].
  - opt. eapply run_value_as; [eassumption|child e m|done|done].
Qed.
End step.
End sim.
