(* ===== verification/CodegenStmt.v ===== *)
(** * CodegenStmt: the simulation of statements

    Sequences, branches, loops, jumps and returns, and the induction that ties
    expressions and statements together. *)

From S2P Require Import Prelude Config Kernel Klog RawMem UserMem LibString LibFormat GuestAsm GuestAsmSpec Codegen Cpu AsmLines AsmCode CSem GenLogic CodegenAlloc InsnRules CodegenRun CodegenSim.

Section sim.
Context `{L : Layout}.
Local Abbreviation gwp := (gwp vars fn ret_label size rho rom cs ce).
Local Abbreviation ctx := (in_ctx vars fn ret_label).
Local Abbreviation ret := (ty_return (o_ty (vars fn))).
Local Abbreviation eval := (CSem.eval vars locals rho fp V ret).
Local Abbreviation exec := (CSem.exec vars locals rho fp V ret).
Local Abbreviation exec_list := (CSem.exec_list vars locals rho fp V ret).
Local Abbreviation expr := (fun fuel e => gen_expr tr fuel (Some e)).

(** ** Flows *)

(** From [m1] on, the machine gets to where [f] leads, in the state [s], seen from [m]. *)
Definition to_flow (e : Z) (f : flow) (s : cst) (m m1 : cpu) : Prop :=
  runs size m1 (fun m' => pc m' = ends_at e f /\ in_rom rom cs ce m' /\ after s (flow_value f) m m').

Lemma after_refl s m : rel s m -> after s None m m.
Proof. intros HR. by split. Qed.

Lemma after_none s v m m' : after s v m m' -> after s None m m'.
Proof. intros []. by split. Qed.

Lemma flow_from e f s1 v s m m1 : after s1 v m m1 -> flows e f s m1 -> to_flow e f s m m1.
Proof.
  intros A H. eapply runs_mono; [exact H|]. intros m' (Hp & Hr & A'). split; [done|]. split; [done|]. by eapply after_trans.
Qed.

(** A piece that ends normally, and what follows. *)
Lemma flow_next mid v s1 m m1 e f s2 :
  to_flow mid (Normal v) s1 m m1 ->
  (forall m2, pc m2 = mid -> in_rom rom cs ce m2 -> after s1 v m m2 -> to_flow e f s2 m m2) -> to_flow e f s2 m m1.
Proof. intros H1 H2. eapply runs_trans; [exact H1|]. intros m2 (Hp & Hr & A). by apply H2. Qed.

Lemma flow_here e v s m m1 : pc m1 = e -> in_rom rom cs ce m1 -> after s v m m1 -> to_flow e (Normal v) s m m1.
Proof. intros. by apply runs_here. Qed.

Lemma flow_leave mid e f s m m1 : (forall v, f <> Normal v) -> to_flow mid f s m m1 -> to_flow e f s m m1.
Proof. destruct f; [intros H; by destruct (H v)|done..]. Qed.

Lemma flow_void e v s m m1 : to_flow e (Normal v) s m m1 -> to_flow e (Normal None) s m m1.
Proof.
  intros H. eapply runs_mono; [exact H|]. intros m' (Hp & Hr & A). split; [done|]. split; [done|]. by eapply after_none.
Qed.

(** A jump that is taken or not. *)
Lemma flow_jmp op opc l g a g' p q e f s s' v m m1 :
  emits (jmp op l) g a g' p q -> List.In (op, opc) jump_ops -> opc <> 0x27 -> label_ok l = true ->
  pc m1 = p -> in_rom rom cs ce m1 -> after s v m m1 ->
  (forall m2, pc m2 = (if jump_taken opc m1 then u32 (rho l) else q) -> in_rom rom cs ce m2 -> after s v m m2 ->
     to_flow e f s' m m2) -> to_flow e f s' m m1.
Proof.
  intros He Hin Hne Hl Hp Hr A H. destruct (run_jmp _ _ _ _ _ _ _ _ He Hin Hne Hl) as [_ R]. apply R; [done..|].
  intros m2 K2 Hr2 Hp2. apply H; [done..|]. eapply after_keep; [exact A|exact K2|lit|]. by apply (kreg _ _ _ 0 K2); lit.
Qed.

(** A piece that [gwp] describes. *)
Lemma flow_piece {A} (gen : G A) Q g a g' p q e f s m m1 :
  emits gen g a g' p q -> gwp gen Q m1 -> ctx g -> pc m1 = p -> in_rom rom cs ce m1 ->
  (forall m2, pc m2 = q -> in_rom rom cs ce m2 -> Q a m2 -> to_flow e f s m m2) -> to_flow e f s m m1.
Proof. intros He HG Hg <- Hr H. by eapply run_piece. Qed.

Lemma jmp_same op l g a g' p e : emits (jmp op l) g a g' p e -> g' = g.
Proof. by intros (c & [= _ <- _] & _). Qed.

Lemma emits_ext {A} (gen gen' : G A) g a g' p e : (forall g, gen g = gen' g) -> emits gen g a g' p e -> emits gen' g a g' p e.
Proof. intros E (c & H & Hc). exists c. by rewrite <- E. Qed.

(** The generator keeps its context. *)
Lemma ctx_stmt fuel p g a g' q e : emits (gen_stmt tr fuel p) g a g' q e -> ctx g -> ctx g'.
Proof. apply emits_keeps, gen_keeps. Qed.
Lemma ctx_expr fuel p g a g' q e : emits (gen_expr tr fuel p) g a g' q e -> ctx g -> ctx g'.
Proof. apply emits_keeps, gen_keeps. Qed.
Lemma ctx_test fuel p g a g' q e : emits (gen_cond tr fuel p ;; cmp_zero) g a g' q e -> ctx g -> ctx g'.
Proof. apply emits_keeps, keeps_cond. Qed.

Ltac fresh_label H g l := let E := fresh in let Hl := fresh in
  apply emits_bind in H as (l & g & ? & E & H); apply emits_new_label in E as [-> Hl];
  match goal with Hg : ctx _ |- _ => apply Hl in Hg; clear Hl end.

(** ** Labels *)

Lemma enter_unfold l q : enter l q =
  match n_kind q with
  | ND_LABEL => if bool_decide (n_unique_label q = l) then n_lhs q else match n_lhs q with Some r => enter l r | None => None end
  | ND_CASE => if bool_decide (n_label q = l) then n_lhs q else match n_lhs q with Some r => enter l r | None => None end
  | _ => None
  end.
Proof. by destruct q. Qed.

(** The code behind a label starts at the label. *)
Lemma enter_emits l fuel : forall q r g g' p e,
  enter l q = Some r -> emits (gen_stmt tr fuel (Some q)) g tt g' p e -> ctx g ->
  (height r <= height q)%nat /\ exists fuel' g1, ctx g1 /\ emits (gen_stmt tr fuel' (Some r)) g1 tt g' (u32 (rho l)) e.
Proof.
  induction fuel as [|fuel IHf]; intros q r g g' p e H He Hg; [by destruct He as (c & [=] & _)|].
  rewrite enter_unfold in H. cbn [gen_stmt] in He. piece_of He g1 q1 E1. apply emits_ret in E1 as (-> & -> & ->).
  assert (Hgo : forall here, (if bool_decide (here = l) then n_lhs q else match n_lhs q with Some r => enter l r | None => None end) = Some r ->
    emits (emit_label here ;; gen_stmt tr fuel (n_lhs q)) g tt g' p e ->
    (height r <= height q)%nat /\ exists fuel' g1, ctx g1 /\ emits (gen_stmt tr fuel' (Some r)) g1 tt g' (u32 (rho l)) e).
  { intros here Hh Hc. piece Hc g2 q2 E2. apply emits_label in E2 as (-> & -> & Hl & Hr). case_bool_decide as Hb.
    - subst here. pose proof (height_child q r ltac:(tauto)). split; [lia|]. exists fuel, g. rewrite Hr. by rewrite <- Hh.
    - destruct (n_lhs q) as [q'|] eqn:El; [|done]. pose proof (height_child q q' ltac:(tauto)).
      destruct (IHf q' r g g' p e Hh Hc Hg) as [Hle Hex]. split; [lia|done]. }
  destruct (n_kind q); try done; by eapply Hgo.
Qed.

Lemma find_label_emits l body ps g0 g' p0 e m :
  find_label l body = Some ps -> emits_all body g0 g' p0 e -> ctx g0 -> (forall p, p ∈ body -> room p m) ->
  (forall p, p ∈ ps -> room p m) /\ exists g1, ctx g1 /\ emits_all ps g1 g' (u32 (rho l)) e.
Proof.
  revert g0 p0. induction body as [|q body IHb]; intros g0 p0 H He Hg Hr; [done|].
  cbn [find_label] in H. change (emits_all (q :: body) g0 g' p0 e) in He. destruct He as (fuel & g1 & mid & He & Hes).
  destruct (enter l q) as [r|] eqn:Er.
  - injection H as <-. destruct (enter_emits l fuel q r g0 g1 p0 mid Er He Hg) as [Hle (fuel' & g2 & Hg2 & He2)]. split.
    + intros p [-> | Hp]%elem_of_cons; [|by apply Hr; right]. pose proof (Hr q ltac:(by left)). unfold room in *. lia.
    + exists g2. split; [done|]. by exists fuel', g1, mid.
  - apply (IHb g1 mid); try done; [by eapply ctx_stmt|]. intros p Hp. apply Hr. by right.
Qed.

Section step.
Context (n : nat) (IH : sim_all n).
#[local] Set Default Proof Using "Type*".

Lemma sim_list : list_ok (S n).
Proof.
  intros [|p [|q ps]] s f s' m g g' e H HR Hroom Hg He Hrom; rewrite exec_list_S in H.
  - injection H as <- <-. destruct He as (-> & ->). apply flow_here; [done|done|by apply after_refl].
  - destruct He as (fuel & g1 & mid & He & -> & ->). by apply (sa_stmt _ IH p s f s' m fuel H HR (Hroom p ltac:(by left)) g g1).
  - destruct (exec n p s) as [[f1 s1]|] eqn:E; [|done]. cbn [mbind option_bind] in H.
    change (emits_all (p :: q :: ps) g g' (pc m) e) in He. destruct He as (fuel & g1 & mid & He & Hes).
    pose proof (sa_stmt _ IH p s f1 s1 m fuel E HR (Hroom p ltac:(by left)) g g1 mid Hg He Hrom) as H1.
    destruct f1 as [v|l|v]; [|injection H as <- <-; by apply (flow_leave mid)..].
    eapply flow_next; [exact H1|]. intros m1 Hp1 Hr1 A1. eapply flow_from; [exact A1|].
    pose proof (ctx_stmt _ _ _ _ _ _ _ He Hg) as Hg1. rewrite <- Hp1 in Hes.
    apply (sa_list _ IH (q :: ps) s1 f s' m1 g1 g' e H (af_rel _ _ _ _ A1)); [|done..].
    intros p' Hp'. pose proof (Hroom p' ltac:(by right)). unfold room in *. rewrite (af_sp _ _ _ _ A1). lia.
Qed.

Lemma sim_void : void_ok (S n).
Proof.
  intros p s f s' m fuel H HR Hroom g g' e Hg He Hrom. cbn [CSem.exec_void] in H. opt.
  pose proof (sa_stmt _ IH p s f0 s' m fuel E HR Hroom g g' e Hg He Hrom) as H1.
  destruct f0; [by eapply flow_void|done..].
Qed.
Lemma room_after p s v m m' : after s v m m' -> room p m -> room p m'.
Proof using. intros A. unfold room. by rewrite (af_sp _ _ _ _ A). Qed.

Lemma sim_block : block_ok (S n).
Proof.
  intros body cur s f s' m g0 g0' p0 g g' e H HR Hrb Hrc Hg0 Hb Hg Hc Hrom. rewrite exec_block_S in H.
  destruct (exec_list n cur s) as [[f1 s1]|] eqn:E; [|done]. cbn [mbind option_bind] in H.
  pose proof (sa_list _ IH cur s f1 s1 m g g' e E HR Hrc Hg Hc Hrom) as H1.
  destruct f1 as [v|l|v]; [injection H as <- <-; by eapply flow_void| |by injection H as <- <-].
  destruct (find_label l body) as [ps|] eqn:El; [|by injection H as <- <-].
  eapply runs_trans; [exact H1|]. intros m1 (Hp1 & Hr1 & A1).
  destruct (find_label_emits l body ps g0 g0' p0 e m El Hb Hg0 Hrb) as [Hrp (g2 & Hg2 & He2)].
  cbn [ends_at] in Hp1. rewrite <- Hp1 in He2. eapply flow_from; [exact A1|].
  apply (sa_block _ IH body ps s1 f s' m1 g0 g0' p0 g2 g0' e H (af_rel _ _ _ _ A1)); try done.
  - intros p Hp. eapply room_after; [exact A1|auto].
  - intros p Hp. eapply room_after; [exact A1|auto].
Qed.

(** The test of a condition as a piece of code. *)
Lemma flow_test p g a g' q0 q s x s1 fuel m m1 v e f s2 :
  emits (gen_cond tr fuel p ;; cmp_zero) g a g' q0 q -> ctx g -> pc m1 = q0 -> in_rom rom cs ce m1 -> after s v m m1 ->
  (r ← p ; used r (eval n r s)) = Some (x, s1) -> (forall r, p = Some r -> room r m) ->
  (forall m2, pc m2 = q -> in_rom rom cs ce m2 -> after s1 (Some x) m m2 ->
     jump_taken 0x21 m2 = (x =? 0) -> jump_taken 0x22 m2 = negb (x =? 0) -> to_flow e f s2 m m2) ->
  to_flow e f s2 m m1.
Proof.
  intros He Hg Hp Hr A Hx Hroom H.
  eapply (flow_piece _ (fun _ m2 => after s1 (Some x) m m2 /\ jump_taken 0x21 m2 = (x =? 0) /\ jump_taken 0x22 m2 = negb (x =? 0)));
    [exact He| |done..|].
  - apply (run_test _ IH p s x s1); [done| |apply A|].
    + intros r Hpr. eapply room_after; [exact A|auto].
    + intros m2 A2 J1 J2. split; [|done]. by eapply after_trans.
  - intros m2 Hp2 Hr2 (A2 & J1 & J2). by apply H.
Qed.

(** A statement as a piece of code. *)
Lemma flow_stmt p g a g' q0 q s f1 s1 fuel m m1 v e f s2 :
  emits (gen_stmt tr fuel (Some p)) g a g' q0 q -> ctx g -> pc m1 = q0 -> in_rom rom cs ce m1 -> after s v m m1 ->
  exec n p s = Some (f1, s1) -> room p m ->
  (to_flow q f1 s1 m m1 -> to_flow e f s2 m m1) -> to_flow e f s2 m m1.
Proof.
  intros He Hg <- Hr A Hx Hroom H. apply H. destruct a. eapply flow_from; [exact A|].
  apply (sa_stmt _ IH p s f1 s1 m1 fuel Hx (af_rel _ _ _ _ A) (room_after _ _ _ _ _ A Hroom) g g' q Hg He Hr).
Qed.

Lemma ctx_cond fuel p g a g' q0 q : emits (cond_code fuel p) g a g' q0 q -> ctx g -> ctx g'.
Proof using.
  unfold cond_code. intros He Hg. destruct (n_cond p); [|by apply emits_ret in He as (_ & -> & _)].
  eapply emits_keeps; [|exact He|done].
  eapply keeps_bind; [apply gen_keeps|]. intros _. eapply keeps_bind; [apply keeps_cmp_zero|]. intros _. apply keeps_jmp.
Qed.

Lemma flow_cond p g a g' q0 q c s s1 fuel m m1 e f s2 :
  emits (cond_code fuel p) g a g' q0 q -> ctx g -> label_ok (n_brk_label p) = true ->
  pc m1 = q0 -> in_rom rom cs ce m1 -> after s None m m1 ->
  match n_cond p with Some r => used r (eval n r s) | None => Some (1, s) end = Some (c, s1) -> room p m ->
  (forall m2, pc m2 = (if c =? 0 then u32 (rho (n_brk_label p)) else q) -> in_rom rom cs ce m2 -> after s1 None m m2 -> to_flow e f s2 m m2) ->
  to_flow e f s2 m m1.
Proof.
  unfold cond_code. intros He Hg Hl Hp Hr A Hc Hroom H. destruct (n_cond p) as [r|] eqn:Er.
  - apply (emits_ext _ ((gen_cond tr fuel (Some r) ;; cmp_zero) ;; jmp "JZ" (n_brk_label p))) in He;
      [|intros; symmetry; apply gen_assoc].
    piece He g1 q1 E1. eapply flow_test; [exact E1|done..| |].
    { intros r' [= <-]. apply (room_child p r m m); [tauto|done|lia]. }
    intros m2 Hp2 Hr2 A2 J _. eapply (flow_jmp "JZ" 0x21); [exact He|cbn; tauto|done|done|done|done|exact A2|].
    intros m3 Hp3 Hr3 A3. rewrite J in Hp3. apply H; [done|done|]. by eapply after_none.
  - apply emits_ret in He as (-> & -> & _). injection Hc as <- <-. apply H; [done|done|done].
Qed.

Lemma flow_inc p g a g' q0 q v s s1 fuel m m1 e f s2 :
  emits (inc_code fuel p) g a g' q0 q -> ctx g -> pc m1 = q0 -> in_rom rom cs ce m1 -> after s None m m1 ->
  match n_inc p with Some r => eval n r s | None => Some (None, s) end = Some (v, s1) -> room p m ->
  (forall m2, pc m2 = q -> in_rom rom cs ce m2 -> after s1 None m m2 -> to_flow e f s2 m m2) -> to_flow e f s2 m m1.
Proof.
  unfold inc_code. intros He Hg Hp Hr A Hi Hroom H. destruct (n_inc p) as [r|] eqn:Er.
  - eapply (flow_piece _ (fun _ m2 => after s1 None m m2)); [exact He| |done..|auto].
    eapply gwp_mono; [done..|apply (sa_expr _ IH r s v s1 m1 fuel Hi (af_rel _ _ _ _ A))|].
    + apply (room_child p r m1 m1); [tauto|by eapply room_after|lia].
    + intros [] m2 A2. eapply after_none, after_trans; done.
  - apply emits_ret in He as (-> & -> & _). injection Hi as <- <-. by apply H.
Qed.

Lemma sim_for : for_ok (S n).
Proof.
  intros p s f s' m fuel top H HR Hroom g0 g' e Hg He0 Hrom. rewrite for_loop_S in H.
  pose proof He0 as He. unfold for_code in He.
  piece He g1 q1 E1. apply emits_label in E1 as (-> & -> & Ltop & Rtop). piece He g2 q2 E2.
  piece He g3 q3 E3. piece He g4 q4 E4. apply emits_label in E4 as (-> & -> & Lcont & Rcont).
  piece He g5 q5 E5. piece He g6 q6 E6. pose proof (jmp_same _ _ _ _ _ _ _ E6) as ->.
  apply emits_label in He as (-> & -> & Lbrk & Rbrk).
  pose proof (ctx_cond _ _ _ _ _ _ _ E2 Hg) as Hg2. pose proof (ctx_stmt _ _ _ _ _ _ _ E3 Hg2) as Hg3.
  destruct (match n_cond p with Some c => used c (eval n c s) | None => Some (1, s) end) as [[c s1]|] eqn:Ec; [|done].
  cbn [mbind option_bind] in H.
  (* From the label of "continue" on. *)
  assert (Hnext : forall s2 m2, pc m2 = u32 (rho (n_cont_label p)) -> in_rom rom cs ce m2 -> after s2 None m m2 ->
    ('(_, s) ← match n_inc p with Some e => eval n e s2 | None => Some (None, s2) end ;
      for_loop vars locals rho fp V ret n p s) = Some (f, s') -> to_flow q6 f s' m m2).
  { intros s2 m2 Hp2 Hr2 A2 Hn. rewrite Rcont in Hp2.
    destruct (match n_inc p with Some e => eval n e s2 | None => Some (None, s2) end) as [[w s3]|] eqn:Ei; [|done].
    eapply flow_inc; [exact E5|done..|]. intros m3 Hp3 Hr3 A3.
    eapply (flow_jmp "JMP" 0x20); [exact E6|by left|done..|exact A3|]. intros m4 Hp4 Hr4 A4. cbn [jump_taken] in Hp4.
    eapply flow_from; [exact A4|]. rewrite Rtop in Hp4.
    apply (sa_for _ IH p s3 f s' m4 fuel top Hn (af_rel _ _ _ _ A4) (room_after _ _ _ _ _ A4 Hroom) g0 g5); [done| |done].
    by rewrite Hp4. }
  eapply flow_cond; [exact E2|done..|by apply after_refl|exact Ec|done|]. intros m1 Hp1 Hr1 A1.
  destruct (c =? 0); [injection H as <- <-; apply flow_here; [congruence|done..]|].
  destruct (n_then p) as [q|] eqn:Eq; [|done]. cbn [mbind option_bind] in H.
  destruct (exec n q s1) as [[f1 s2]|] eqn:Es; [|done]. cbn [mbind option_bind] in H. cbv zeta in H.
  eapply flow_stmt; [exact E3|done|done|done|exact A1|exact Es|apply (room_child p q m m); [tauto|done|lia]|].
  intros Hs. destruct f1 as [v|l|v].
  - eapply flow_next; [exact Hs|]. intros m2 Hp2 Hr2 A2. apply (Hnext s2); [congruence|done|by eapply after_none|done].
  - eapply runs_trans; [exact Hs|]. intros m2 (Hp2 & Hr2 & A2). cbn [ends_at flow_value] in *. case_bool_decide as Hl.
    + subst l. by apply (Hnext s2).
    + case_bool_decide as Hl2; injection H as <- <-.
      * subst l. apply flow_here; [congruence|done..].
      * by apply runs_here.
  - injection H as <- <-. by eapply flow_leave.
Qed.

Lemma sim_do : do_ok (S n).
Proof.
  intros p s f s' m fuel top H HR Hroom g0 g' e Hg He0 Hrom. rewrite do_loop_S in H.
  pose proof He0 as He. unfold do_code in He.
  piece He g1 q1 E1. apply emits_label in E1 as (-> & -> & Ltop & Rtop).
  piece He g3 q3 E3. piece He g4 q4 E4. apply emits_label in E4 as (-> & -> & Lcont & Rcont).
  eapply (emits_ext _ ((gen_cond tr fuel (n_cond p) ;; cmp_zero) ;; jmp "JNZ" top ;; emit_label (n_brk_label p))) in He;
    [|intros; symmetry; apply gen_assoc].
  piece He g5 q5 E5. piece He g6 q6 E6. pose proof (jmp_same _ _ _ _ _ _ _ E6) as ->.
  apply emits_label in He as (-> & -> & Lbrk & Rbrk).
  pose proof (ctx_stmt _ _ _ _ _ _ _ E3 Hg) as Hg3.
  destruct (n_then p) as [q|] eqn:Eq; [|done]. cbn [mbind option_bind] in H.
  destruct (exec n q s) as [[f1 s1]|] eqn:Es; [|done]. cbn [mbind option_bind] in H. cbv zeta in H.
  (* From the label of "continue" on. *)
  assert (Htest : forall s2 m2, pc m2 = u32 (rho (n_cont_label p)) -> in_rom rom cs ce m2 -> after s2 None m m2 ->
    (c ← n_cond p ; '(c, s) ← used c (eval n c s2) ;
      if c =? 0 then Some (Normal None, s) else do_loop vars locals rho fp V ret n p s) = Some (f, s') -> to_flow q6 f s' m m2).
  { intros s2 m2 Hp2 Hr2 A2 Hn. rewrite Rcont in Hp2. destruct (n_cond p) as [r|] eqn:Ec; [|done]. cbn [mbind option_bind] in Hn.
    destruct (used r (eval n r s2)) as [[c s3]|] eqn:Eu; [|done]. cbn [mbind option_bind] in Hn.
    eapply (flow_test (Some r)); [exact E5|done..|exact A2|exact Eu| |].
    { intros r' [= <-]. apply (room_child p r m m); [tauto|done|lia]. }
    intros m3 Hp3 Hr3 A3 _ J. eapply (flow_jmp "JNZ" 0x22); [exact E6|cbn; tauto|done..|exact A3|].
    intros m4 Hp4 Hr4 A4. rewrite J in Hp4. destruct (c =? 0); cbn [negb] in Hp4.
    - injection Hn as <- <-. apply flow_here; [done..|]. by eapply after_none.
    - eapply flow_from; [exact A4|]. rewrite Rtop in Hp4.
      apply (sa_do _ IH p s3 f s' m4 fuel top Hn (af_rel _ _ _ _ A4) (room_after _ _ _ _ _ A4 Hroom) g0 g5); [done| |done].
      by rewrite Hp4. }
  eapply (flow_stmt q); [exact E3|done|done|done|by apply after_refl|exact Es|apply (room_child p q m m); [tauto|done|lia]|].
  intros Hs. destruct f1 as [v|l|v].
  - eapply flow_next; [exact Hs|]. intros m2 Hp2 Hr2 A2. apply (Htest s1); [congruence|done|by eapply after_none|done].
  - eapply runs_trans; [exact Hs|]. intros m2 (Hp2 & Hr2 & A2). cbn [ends_at flow_value] in *. case_bool_decide as Hl.
    + subst l. by apply (Htest s1).
    + case_bool_decide as Hl2; injection H as <- <-.
      * subst l. apply flow_here; [congruence|done..].
      * by apply runs_here.
  - injection H as <- <-. by eapply flow_leave.
Qed.

Lemma run_return_ty (Q : option Ty -> cpu -> Prop) m : Q ret m -> gwp return_ty Q m.
Proof using.
  intros HQ. unfold return_ty. gstep. apply gwp_gets; [done..|]. intros g (_ & -> & _). gsome. gstep.
  apply gwp_obj; [done..|]. by gret.
Qed.

(** The value of a return. *)
Definition return_code (fuel : nat) (p : Node) : G unit :=
  if n_lhs p is Some _ then
    ty ← return_ty ; if is_aggregate ty then return_aggregate tr fuel (n_lhs p) else gen_value_as tr fuel (n_lhs p) ty
  else ins "MOV R0, 0".

Lemma run_return p s v s' m fuel :
  match n_lhs p with
  | Some e => ty ← ret ; if negb (word_ty ret) || is_aggregate ret then None else
      '(x, s) ← used e (eval n e s) ; Some (Returned (convert ty x), s)
  | None => Some (Returned (Some 0), s)
  end = Some (Returned v, s') -> rel s m -> room p m -> gwp (return_code fuel p) (fun _ => after s' v m) m.
Proof.
  unfold return_code. intros H HR Hroom. destruct (n_lhs p) as [e|] eqn:El.
  - gstep. apply run_return_ty. assert (exists ty, ret = Some ty) as [ty Er] by (destruct ret; [eauto|done]).
    rewrite Er in H at 1. cbn [mbind option_bind] in H.
    destruct (negb (word_ty ret) || is_aggregate ret) eqn:Ea; [done|]. apply orb_false_iff in Ea as [Hw ->].
    apply negb_false_iff in Hw. destruct (used e (eval n e s)) as [[x s1]|] eqn:Eu; [|done]. injection H as <- <-.
    rewrite Er in Hw |- *.
    apply (run_value_as _ IH (Some e) ty s x s1); [exact Eu| |done|done].
    intros q [= <-]. apply (room_child p e m m); [tauto|done|lia].
  - injection H as <- <-. apply (gwp_ins_mov _ 0 0); [reads_now|done|]. intros m1 X1 K1.
    eapply keep_after; [done|exact K1|lit|]. by intros ? [= <-].
Qed.

Lemma flow_return p fuel s v s' m g g' e :
  match n_lhs p with
  | Some e => ty ← ret ; if negb (word_ty ret) || is_aggregate ret then None else
      '(x, s) ← used e (eval n e s) ; Some (Returned (convert ty x), s)
  | None => Some (Returned (Some 0), s)
  end = Some (Returned v, s') -> rel s m -> room p m -> ctx g -> in_rom rom cs ce m ->
  emits (return_code fuel p ;; l ← gets cur_return_label ; jmp "JMP" l) g tt g' (pc m) e -> flows e (Returned v) s' m.
Proof.
  intros H HR Hroom Hg Hrom He. piece He g1 q1 E1.
  assert (Hg1 : ctx g1).
  { destruct E1 as (c1 & E1 & Hc1). eapply (run_return p s v s' m fuel H HR Hroom g _ g1 c1 q1); [done|exact E1|].
    destruct Hc1 as (? & ? & ?). by repeat split. }
  eapply flow_piece; [exact E1|by eapply run_return|done..|]. intros m1 Hp1 Hr1 A1.
  piece_of He g2 q2 E2. destruct E2 as (c2 & [= <- <- <-] & Hc2 & _). destruct Hg1 as (Hv & Hf & Hrl). cbn in Hc2. subst q2.
  rewrite Hrl in He. eapply (flow_jmp "JMP" 0x20); [exact He|by left|done|apply Hret|done|done|exact A1|].
  intros m2 Hp2 Hr2 A2. by apply runs_here.
Qed.

Lemma sim_if p fuel s f s' m c s1 g g' e :
  (q ← n_cond p ; used q (eval n q s)) = Some (c, s1) ->
  (if negb (c =? 0) then q ← n_then p ; exec_void vars locals rho fp V ret n q s1
   else match n_els p with Some q => exec_void vars locals rho fp V ret n q s1 | None => Some (Normal None, s1) end) = Some (f, s') ->
  rel s m -> room p m -> ctx g -> in_rom rom cs ce m ->
  emits (els ← new_label ; end_ ← new_label ;
      gen_cond tr fuel (n_cond p) ;; cmp_zero ;; jmp "JZ" els ;;
      gen_stmt tr fuel (n_then p) ;; jmp "JMP" end_ ;; emit_label els ;;
      (if n_els p is Some _ then gen_stmt tr fuel (n_els p) else mret tt) ;;
      emit_label end_) g tt g' (pc m) e -> flows e f s' m.
Proof.
  intros Hc H HR Hroom Hg Hrom He. fresh_label He g1 els. fresh_label He g2 end_.
  eapply emits_ext in He; [|intros; symmetry; apply gen_assoc].
  piece He g3 q3 E3. piece He g4 q4 E4. piece He g5 q5 E5. piece He g6 q6 E6. piece He g7 q7 E7. piece He g8 q8 E8.
  apply emits_label in E7 as (-> & -> & Lels & Rels). apply emits_label in He as (-> & -> & Lend & Rend).
  pose proof (jmp_same _ _ _ _ _ _ _ E4) as ->. pose proof (jmp_same _ _ _ _ _ _ _ E6) as ->.
  pose proof (ctx_test _ _ _ _ _ _ _ E3 Hg) as Hg3. pose proof (ctx_stmt _ _ _ _ _ _ _ E5 Hg3) as Hg5.
  eapply flow_test; [exact E3|done..|by apply after_refl|exact Hc| |].
  { intros q Hq. apply (room_child p q m m); [tauto|done|lia]. }
  intros m1 Hp1 Hr1 A1 J _. eapply (flow_jmp "JZ" 0x21); [exact E4|cbn; tauto|done..|exact A1|].
  intros m2 Hp2 Hr2 A2. rewrite J in Hp2.
  destruct (c =? 0); cbn [negb] in H.
  - rewrite Rels in Hp2. destruct (n_els p) as [q|] eqn:Eq.
    + assert (Hroom2 : room q m2) by (apply (room_child p q m m2); [tauto|done|pose proof (af_sp _ _ _ _ A2); lia]).
      rewrite <- Hp2 in E8. eapply flow_from; [exact A2|].
      by apply (sa_void _ IH q s1 f s' m2 fuel H (af_rel _ _ _ _ A2) Hroom2 g5 g8).
    + apply emits_ret in E8 as (-> & -> & _). injection H as <- <-. apply flow_here; [done..|]. by eapply after_none.
  - destruct (n_then p) as [q|] eqn:Eq; [|done]. cbn [mbind option_bind] in H.
    assert (Hroom2 : room q m2) by (apply (room_child p q m m2); [tauto|done|pose proof (af_sp _ _ _ _ A2); lia]).
    rewrite <- Hp2 in E5.
    pose proof (sa_void _ IH q s1 f s' m2 fuel H (af_rel _ _ _ _ A2) Hroom2 g3 g5 q5 Hg3 E5 Hr2) as Hs.
    assert (Hs' : to_flow q5 f s' m m2) by (by eapply flow_from).
    destruct f as [v|l|v]; [|by eapply flow_leave..]. eapply flow_next; [exact Hs'|]. intros m3 Hp3 Hr3 A3.
    eapply (flow_jmp "JMP" 0x20); [exact E6|by left|done..|exact A3|]. intros m4 Hp4 Hr4 A4. cbn [jump_taken] in Hp4.
    apply flow_here; [congruence|done..].
Qed.

(** The first part of a [for]. *)
Definition init_code (fuel : nat) (p : Node) : G unit := if n_init p is Some _ then gen_stmt tr fuel (n_init p) else mret tt.

Lemma ctx_init fuel p g g' q0 q : emits (init_code fuel p) g tt g' q0 q -> ctx g -> ctx g'.
Proof using.
  unfold init_code. intros He Hg. destruct (n_init p); [by eapply ctx_stmt|]. by apply emits_ret in He as (_ & -> & _).
Qed.

Lemma flow_init p g g' q0 q s f1 s1 fuel m e f s2 :
  emits (init_code fuel p) g tt g' q0 q -> ctx g -> pc m = q0 -> in_rom rom cs ce m -> rel s m ->
  match n_init p with Some r => exec n r s | None => Some (Normal None, s) end = Some (f1, s1) -> room p m ->
  (to_flow q f1 s1 m m -> to_flow e f s2 m m) -> to_flow e f s2 m m.
Proof.
  unfold init_code. intros He Hg Hp Hr HR Hi Hroom H. destruct (n_init p) as [r|] eqn:Er.
  - eapply flow_stmt; [exact He|done..|by apply after_refl|exact Hi|apply (room_child p r m m); [tauto|done|lia]|done].
  - apply emits_ret in He as (-> & -> & _). injection Hi as <- <-. apply H, flow_here; [done..|by apply after_refl].
Qed.

Lemma sim_stmt : stmt_ok (S n).
Proof.
  intros p s f s' m fuel H HR Hroom g g' e Hg He Hrom.
  destruct fuel as [|fuel]; [by destruct He as (c & [=] & _)|]. cbn [gen_stmt] in He.
  piece_of He g1 q1 E1. apply emits_ret in E1 as (-> & -> & ->).
  assert (Hchild : forall q, n_lhs p = Some q -> room q m) by (intros q Hq; apply (room_child p q m m); [tauto|done|lia]).
  destruct (n_kind p) eqn:Ek; cbn [CSem.exec] in H; rewrite Ek in H; try done.
  - (* return *)
    assert (exists v, f = Returned v) as [v ->] by (destruct (n_lhs p); opt; eauto).
    by apply (flow_return p fuel s v s' m g g' e).
  - (* if *) destruct (n_cond p ≫= _) as [[c s1]|] eqn:Ec; [|done]. cbn [mbind option_bind] in H.
    by apply (sim_if p fuel s f s' m c s1 g g' e).
  - (* for *)
    piece He g2 q2 E2.
    destruct (match n_init p with Some q => exec n q s | None => Some (Normal None, s) end) as [[f1 s1]|] eqn:Ei; [|done].
    cbn [mbind option_bind] in H. apply (flow_init p g g2 (pc m) q2 s f1 s1 fuel m); try done. intros Hi.
    destruct f1 as [v|l|v]; [|injection H as <- <-; by eapply flow_leave..].
    eapply flow_next; [exact Hi|]. intros m1 Hp1 Hr1 A1. pose proof (ctx_init _ _ _ _ _ _ E2 Hg) as Hg2.
    fresh_label He g3 start. eapply flow_from; [exact A1|]. subst q2.
    by apply (sa_for _ IH p s1 f s' m1 fuel start H (af_rel _ _ _ _ A1) (room_after _ _ _ _ _ A1 Hroom) g3 g').
  - (* do *) fresh_label He g2 start. by apply (sa_do _ IH p s f s' m fuel start H HR Hroom g2 g').
  - (* case *) opt. piece He g2 q2 E2. apply emits_label in E2 as (-> & -> & _ & _). by apply (sa_stmt _ IH n0 s f s' m fuel H HR (Hchild n0 eq_refl) g g').
  - (* block *) apply emits_each in He.
    assert (Hb : forall q, q ∈ n_body p -> room q m) by (intros q Hq; apply (room_child p q m m); [tauto|done|lia]).
    by apply (sa_block _ IH (n_body p) (n_body p) s f s' m g g' (pc m) g g').
  - (* goto *) opt. eapply flow_jmp; [exact He|by left|done|done|done|done|by apply after_refl|].
    intros m1 Hp1 Hr1 A1. by apply runs_here.
  - (* label *) opt. piece He g2 q2 E2. apply emits_label in E2 as (-> & -> & _ & _). by apply (sa_stmt _ IH n0 s f s' m fuel H HR (Hchild n0 eq_refl) g g').
  - (* expression *) opt. eapply gwp_gst; [|exact Hg|exact He|done]. by apply (sa_expr _ IH n0 s o s' m fuel); auto.
Qed.
End step.

(** Generated code does what the tree means. *)
Lemma sim n : sim_all n.
Proof.
  induction n as [|n IH]; [by split|].
  split; [by apply sim_expr|by apply sim_addr|by apply sim_stmt|by apply sim_void|by apply sim_list|by apply sim_block
         |by apply sim_for|by apply sim_do].
Qed.
End sim.
