(* ===== verification/CodegenFn.v ===== *)
(** * CodegenFn: functions

    The prologue and the epilogue of a compiled function, and what a call of it does:
    the frame is set up below the caller's, the parameters reach their registers, and the
    function returns to its caller with both stacks as they were and the value of its
    body in R0. *)

From S2P Require Import Prelude Config Kernel Klog RawMem UserMem LibString LibFormat GuestAsm GuestAsmSpec Codegen Cpu AsmLines AsmCode CSem GenLogic CodegenAlloc InsnRules CodegenRun CodegenSim CodegenStmt.

(** ** The two parts of [gen_function] *)

(** What happens before the first line is written. *)
Definition fn_setup (f : Z) : G Obj :=
  modify (fun s => s <| cur_fn := Some f |>) ;;
  l ← new_label ; modify (fun s => s <| cur_return_label := l |>) ;;
  fn ← obj f ;
  analyze_and_allocate (fuel_for (o_body fn)) f ;;
  mret fn.

Definition fn_prologue (fn : Obj) : G unit :=
  ins "PUSH R6" ;; ins "LOAD R6, __csp" ;;
  (if o_stack_size fn >? 0 then
     ins "MOVR R5, R6" ;; ins_imm "MOV R7" (o_stack_size fn) ;; ins "ADD R5, R7" ;; ins "STORE R5, __csp"
   else mret tt) ;;
  each_g prime_param (o_params fn).

Definition fn_epilogue : G unit := ins "STORE R6, __csp" ;; ins "POP R6" ;; ins "RET".

Definition fn_code (tr : Z -> Z -> Z) (fn : Obj) : G unit :=
  emit_label (o_name fn) ;; fn_prologue fn ;;
  (if o_body fn is Some _ then gen_stmt tr (fuel_for (o_body fn)) (o_body fn) else mret tt) ;;
  ins "MOV R0, 0" ;; l ← gets cur_return_label ; emit_label l ;; fn_epilogue ;; modify (fun s => s <| cur_fn := None |>).

Lemma bind_ext {A B} (m : G A) (k k' : A -> G B) : (forall a g, k a g = k' a g) -> forall g, (mbind k m : G B) g = (mbind k' m : G B) g.
Proof. intros H g. unfold mbind, G_bind. destruct (m g) as [a g1 c1|]; [|done]. by rewrite H. Qed.

Lemma ret_bind {A B} (a : A) (k : A -> G B) g : (mbind k (mret a) : G B) g = k a g.
Proof. unfold mbind, G_bind, mret, G_ret. by destruct (k a g). Qed.

Lemma gen_function_split tr f g : gen_function tr f g = (fn ← fn_setup f ; fn_code tr fn) g.
Proof.
  symmetry. unfold gen_function, fn_setup.
  do 4 (rewrite gen_assoc; apply bind_ext; intros ? ?). rewrite gen_assoc. apply bind_ext. intros ? ?. rewrite ret_bind.
  unfold fn_code. apply bind_ext. intros ? ?. unfold fn_prologue.
  do 3 (rewrite gen_assoc; apply bind_ext; intros ? ?). apply bind_ext. intros ? ?. apply bind_ext. intros ? ?.
  apply bind_ext. intros ? ?. apply bind_ext. intros ? ?. apply bind_ext. intros ? ?. unfold fn_epilogue.
  by do 2 (rewrite gen_assoc; apply bind_ext; intros ? ?).
Qed.

(** ** Parameters in registers *)

Lemma reg_pool r : r ∈ [2; 3; 4] -> 2 <= r <= 4.
Proof. rewrite !elem_of_cons. intros [-> | [-> | [-> | H]]]; [lia..|by apply elem_of_nil in H]. Qed.

Lemma not_in_2 (r a b : Z) : r <> a -> r <> b -> r ∉ [a; b].
Proof. rewrite !elem_of_cons. intros ? ? [H | [H | H]]; [done..|by apply elem_of_nil in H]. Qed.

Lemma not_in_3 (r a b c : Z) : r <> a -> r <> b -> r <> c -> r ∉ [a; b; c].
Proof. intros ? ? ? [H | H]%elem_of_cons; [done|]. by apply not_in_2 in H. Qed.

Section params.
Context `{L : Layout}.
Local Abbreviation gwp := (gwp vars fn ret_label size rho rom cs ce).

(** The word in a parameter's slot. *)
Definition param_word (m : cpu) (v : Z) : Z := u32 (pread32 (mem m) (u32 (fp + o_offset (vars v)))).

(** The slot is memory of the program. *)
Definition slot_ok (v : Z) : Prop := forall i, 0 <= i < 4 -> V (u32 (fp + o_offset (vars v)) + i) = true.

Record primed (ps : list Z) (m m' : cpu) : Prop := {
  pm_mem : mem m' = mem m;
  pm_sp : sp m' = sp m;
  pm_words : words m';
  pm_other : forall r, r ∉ [0; 7] -> (forall v, v ∈ ps -> is_promoted vars v = true -> o_reg (vars v) <> r) -> regs m' r = regs m r;
  pm_param : forall v, v ∈ ps -> is_promoted vars v = true -> regs m' (o_reg (vars v)) = param_word m v;
}.

Lemma run_load_reg r a v m (Q : unit -> cpu -> Prop) :
  r ∈ [2; 3; 4] -> regs m 0 = a -> rd32 size m a = Some v ->
  (forall m', regs m' r = v -> keep [r] m m' -> Q tt m') -> gwp (ins_sym ("LOADR " ++ reg_name r)%string (str "R0")) Q m.
Proof.
  intros Hr <- Hv HQ. assert (is_word v).
  { unfold rd32 in Hv. destruct (xlate size (regs m 0) 4); [|done]. injection Hv as <-. apply u32_word. }
  rewrite !elem_of_cons in Hr.
  destruct Hr as [-> | [-> | [-> | Hr]]]; [..|by apply elem_of_nil in Hr];
    (eapply (gwp_load _ _ _ _ _ _ _ _ Hcs Hce); [reads_now|done|exact Hv|exact HQ]).
Qed.

Lemma run_prime_param v m (Q : unit -> cpu -> Prop) :
  v ∈ locals -> is_promoted vars v = true -> slot_ok v -> words m -> regs m 6 = fp ->
  (forall m', regs m' (o_reg (vars v)) = param_word m v -> keep [0; 7; o_reg (vars v)] m m' -> Q tt m') ->
  gwp (prime_param v) Q m.
Proof.
  intros Hl Hp Hs Hw Hf HQ. pose proof (Hreg v Hl Hp) as Hr. unfold prime_param. gstep. apply gwp_obj; [done..|].
  unfold is_promoted in Hp. apply negb_true_iff in Hp as ->. cbv zeta. gstep.
  eapply gwp_ins_alu; [reads_now|apply Hw|reflexivity|]. intros m1 X1 K1. rewrite Hf in X1.
  pose proof (k_words _ _ _ K1 Hw) as Hw1. pose proof (Hoff v Hl) as Ho. unfold is_i32 in Ho.
  assert (Hload : forall m2, regs m2 0 = u32 (fp + o_offset (vars v)) -> keep [0; 7] m m2 ->
    gwp (ins_sym ("LOADR " ++ reg_name (o_reg (vars v)))%string (str "R0")) Q m2).
  { intros m2 X2 K2. apply (run_load_reg _ (u32 (fp + o_offset (vars v))) (param_word m v)); [exact Hr|done| |].
    - unfold rd32, param_word. rewrite (k_mem _ _ _ K2). unfold xlate.
      pose proof (HV _ (Hs 0 ltac:(lia))). pose proof (HV _ (Hs 3 ltac:(lia))).
      by rewrite (proj2 (Z.leb_le _ _)), (proj2 (Z.leb_le _ _)) by lia.
    - intros m3 X3 K3. apply HQ; [done|]. apply (keep_trans _ m m2).
      + eapply keep_weaken; [|exact K2]. cbn. by rewrite !bool_decide_true by set_solver.
      + eapply keep_weaken; [|exact K3]. cbn. by rewrite !bool_decide_true by set_solver. }
  assert (Hfw : is_word fp) by (rewrite <- Hf; apply Hw).
  destruct (Z.ltb_spec (o_offset (vars v)) 0) as [Hn|Hn]; [|destruct (Z.ltb_spec 0 (o_offset (vars v))) as [Hp0|Hp0]]; gstep.
  - gstep. apply (gwp_ins_imm _ 7); [done|lia|apply u32_word|]. intros m2 X2 K2.
    eapply gwp_ins_alu; [reads_now|apply (k_words _ _ _ K2 Hw1)|reflexivity|]. intros m3 X3 K3. apply Hload; [|keeps].
    rewrite X3, X2, (kreg _ _ _ 0 K2), X1 by lit. unfold u32. rewrite Zminus_mod_idemp_r. f_equal. lia.
  - gstep. apply (gwp_ins_imm _ 7); [done|lia|unfold is_word; lia|]. intros m2 X2 K2.
    eapply gwp_ins_alu; [reads_now|apply (k_words _ _ _ K2 Hw1)|reflexivity|]. intros m3 X3 K3. apply Hload; [|keeps].
    by rewrite X3, X2, (kreg _ _ _ 0 K2), X1 by lit.
  - gret. apply Hload; [|keeps]. rewrite X1. assert (o_offset (vars v) = 0) as -> by lia. rewrite Z.add_0_r.
    symmetry. by apply u32_small.
Qed.

Lemma run_prime_none v m (Q : unit -> cpu -> Prop) : is_promoted vars v = false -> Q tt m -> gwp (prime_param v) Q m.
Proof.
  intros Hp HQ. unfold prime_param. gstep. apply gwp_obj; [done..|]. unfold is_promoted in Hp.
  apply negb_false_iff in Hp as ->. by gret.
Qed.

Lemma run_prime_params ps : forall m (Q : unit -> cpu -> Prop),
  NoDup ps -> (forall v, v ∈ ps -> v ∈ locals) -> (forall v, v ∈ ps -> is_promoted vars v = true -> slot_ok v) ->
  words m -> regs m 6 = fp -> (forall m', primed ps m m' -> Q tt m') -> gwp (each_g prime_param ps) Q m.
Proof.
  induction ps as [|v ps IH]; intros m Q Hnd Hin Hs Hw Hf HQ; cbn [each_g].
  - gret. apply HQ. split; try done. intros v Hv. by apply elem_of_nil in Hv.
  - apply NoDup_cons in Hnd as [Hv Hnd].
    assert (Hrest : forall m1, words m1 -> regs m1 6 = fp -> mem m1 = mem m ->
      (forall m', primed ps m1 m' -> Q tt m') -> gwp (each_g prime_param ps) Q m1).
    { intros m1 Hw1 Hf1 _ HQ1. apply IH; auto; intros w Hw'; [apply Hin|apply Hs]; by right. }
    gstep. destruct (is_promoted vars v) eqn:Hp.
    + apply run_prime_param; [by apply Hin; left|done|by apply Hs; [left|]|done|done|]. intros m1 X1 K1.
      pose proof (reg_pool _ (Hreg v (Hin v ltac:(by left)) Hp)) as Hr.
      apply Hrest; [exact (k_words _ _ _ K1 Hw)| |apply K1|].
      { rewrite (kreg _ _ _ 6 K1); [done|]. apply not_in_3; lia. }
      intros m2 [P1 P2 P3 P4 P5]. apply HQ. split; [by rewrite P1, (k_mem _ _ _ K1)|by rewrite P2, (k_sp _ _ _ K1)|done| |].
      * intros r Hr0 Hne. rewrite P4; [|done|intros w Hw' Hpw; apply Hne; [by right|done]].
        apply (kreg _ _ _ r K1). apply not_in_3; [intros ->; apply Hr0; by left|intros ->; apply Hr0; by right; left|].
        intros ->. by apply (Hne v); [left| |].
      * intros w [-> | Hw']%elem_of_cons Hpw.
        -- rewrite P4, X1; [done| |].
           ++ apply not_in_2; lia.
           ++ intros w Hw' Hpw' E. assert (w = v) as ->; [|done]. apply Hinj; [apply Hin; by right|by apply Hin; left|done|done].
        -- rewrite P5 by done. unfold param_word. by rewrite (k_mem _ _ _ K1).
    + apply run_prime_none; [done|]. apply Hrest; [done..|]. intros m2 [P1 P2 P3 P4 P5]. apply HQ. split; try done.
      * intros r Hr0 Hne. apply P4; [done|]. intros w Hw' Hpw. apply Hne; [by right|done].
      * intros w [-> | Hw']%elem_of_cons Hpw; [congruence|auto].
Qed.
End params.

(** ** The machine at the entry of a function *)

Section fn.
Context `{L : Layout}.
Local Abbreviation gwp := (gwp vars fn ret_label size rho rom cs ce).
Local Abbreviation ctx := (in_ctx vars fn ret_label).
Local Abbreviation ret := (ty_return (o_ty (vars fn))).
(** The variable [__csp], which holds the top of the software stack. *)
Local Abbreviation csp := (u32 (rho (str "__csp"))).
Context (Kin : csp + 4 <= size) (Kcode : csp + 4 <= cs \/ ce <= csp) (Kstack : csp + 4 <= slo \/ shi <= csp).
Context (KV : forall a, csp <= a < csp + 4 -> V a = false).
#[local] Set Default Proof Using "Type*".

Lemma csp_range : 0 <= csp.
Proof using. apply u32_range. Qed.

Lemma csp_xlate : xlate size csp 4 = true.
Proof. pose proof csp_range. unfold xlate. by rewrite (proj2 (Z.leb_le _ _)), (proj2 (Z.leb_le _ _)) by lia. Qed.

Lemma run_load_csp t r v m (Q : unit -> cpu -> Prop) :
  reads (str "  " ++ str t) 3 [AReg r; ASym (str "__csp")] -> rd32 size m csp = Some v ->
  (forall m', regs m' r = v -> keep [r] m m' -> Q tt m') -> gwp (ins t) Q m.
Proof.
  intros Hr Hv HQ. apply (gwp_reg _ _ _ _ _ _ _ _ Hcs Hce _ 3 [AReg r; ASym (str "__csp")] m r v (fun f => f)); [done| | |done].
  - unfold rd32 in Hv. destruct (xlate size csp 4); [|done]. injection Hv as <-. apply u32_word.
  - cbn [fmap list_fmap arg_value exec_args]. unfold execute.
    set (x := u32 (rho (str "__csp"))) in *.
    change (rd32 size (goto (pc m + args_len rho [AReg r; ASym (str "__csp")]) m) x) with (rd32 size m x). by rewrite Hv.
Qed.

Lemma run_store_csp t r m (Q : unit -> cpu -> Prop) :
  reads (str "  " ++ str t) 4 [AReg r; ASym (str "__csp")] ->
  (forall m', mem m' = pwrite32 (mem m) csp (regs m r) -> sp m' = sp m -> (forall k, regs m' k = regs m k) -> Q tt m') ->
  gwp (ins t) Q m.
Proof.
  intros Hr HQ.
  eapply (gwp_line _ _ _ _ _ _ _ _ Hcs Hce _ 4 [AReg r; ASym (str "__csp")] m
    (goto (pc m + args_len rho [AReg r; ASym (str "__csp")]) m <| mem ::= fun f => pwrite32 f csp (regs m r) |>));
    [done| |done| |by apply HQ].
  - cbn [fmap list_fmap arg_value exec_args]. unfold execute, wr32. by rewrite csp_xlate.
  - intros Hrom a Ha. cbn [mem set_mem setf goto set_pc]. rewrite push_other; [by apply Hrom|]. lia.
Qed.

(** ** The prologue *)

(** A call has reached the function: [__csp] holds its frame, the return address is on the stack. *)
Record entered (ra : Z) (m : cpu) : Prop := {
  en_fp : rd32 size m csp = Some fp;
  en_ret : rd32 size m (sp m) = Some ra;
  en_words : words m;
  en_bytes : forall a, is_byte (mem m a);
  en_sp : slo + 4 <= sp m /\ sp m + 4 <= shi;
}.

(** The state of the program at the entry: memory, and the parameters that get registers. *)
Definition entry_state (ps : list Z) (m : cpu) : cst :=
  Build_cst (mem m) (fun v => if bool_decide (v ∈ ps) then param_word m v else regs m (o_reg (vars v))).

(** Where memory is neither the program's nor the stack's below [s] nor [__csp], it stays. *)
Definition outside (s : Z) (m m' : cpu) : Prop :=
  forall a, V a = false -> ~ slo <= a < s -> ~ csp <= a < csp + 4 -> mem m' a = mem m a.

Lemma stack_data a : slo <= a < shi -> ~ csp <= a < csp + 4.
Proof. pose proof csp_range. lia. Qed.

Lemma data_no_csp a : V a = true -> ~ csp <= a < csp + 4.
Proof. intros H Ha. by rewrite KV in H. Qed.

(** A word that other writes leave. *)
Lemma rd32_same m m' a : (forall k, 0 <= k < 4 -> mem m' (a + k) = mem m (a + k)) -> rd32 size m' a = rd32 size m a.
Proof using. intros H. unfold rd32. destruct (xlate size a 4); [|done]. do 2 f_equal. by apply pread32_ext. Qed.

(** The stack space of the locals. *)
Lemma run_reserve n m (Q : unit -> cpu -> Prop) :
  0 <= n < 2 ^ 31 -> words m -> regs m 6 = fp ->
  (forall m', (forall a, ~ csp <= a < csp + 4 -> mem m' a = mem m a) -> sp m' = sp m -> words m' ->
     (forall r, r ∉ [5; 7] -> regs m' r = regs m r) -> Q tt m') ->
  gwp (if n >? 0 then ins "MOVR R5, R6" ;; ins_imm "MOV R7" n ;; ins "ADD R5, R7" ;; ins "STORE R5, __csp" else mret tt) Q m.
Proof.
  intros Hn Hw Hf HQ. destruct (Z.ltb_spec 0 n); [|gret; by apply HQ].
  gstep. eapply gwp_ins_alu; [reads_now|apply Hw|reflexivity|]. intros m1 X1 K1. pose proof (k_words _ _ _ K1 Hw) as Hw1.
  gstep. apply (gwp_ins_imm _ 7); [done|lia|unfold is_word; lia|]. intros m2 X2 K2. pose proof (k_words _ _ _ K2 Hw1) as Hw2.
  gstep. eapply gwp_ins_alu; [reads_now|apply Hw2|reflexivity|]. intros m3 X3 K3. pose proof (k_words _ _ _ K3 Hw2) as Hw3.
  assert (K : keep [5; 7] m m3) by keeps.
  eapply run_store_csp; [reads_now|]. intros m4 Hm4 Hs4 Hr4. apply HQ.
  - intros a Ha. rewrite Hm4, push_other by lia. by rewrite (k_mem _ _ _ K).
  - by rewrite Hs4, (k_sp _ _ _ K).
  - intros r. rewrite Hr4. apply Hw3.
  - intros r Hr. rewrite Hr4. by apply (kreg _ _ _ r K).
Qed.

Lemma run_prologue f m ra (Q : unit -> cpu -> Prop) :
  entered ra m -> 0 <= o_stack_size f < 2 ^ 31 -> NoDup (o_params f) -> (forall v, v ∈ o_params f -> v ∈ locals) ->
  (forall v, v ∈ o_params f -> is_promoted vars v = true -> slot_ok v) ->
  (forall m1, rel (entry_state (o_params f) m) m1 -> sp m1 = sp m - 4 -> outside (sp m) m m1 ->
     rd32 size m1 (sp m1) = Some (regs m 6) -> Q tt m1) ->
  gwp (fn_prologue f) Q m.
Proof.
  intros [Ef Er Hw Hb Hs] Hss Hnd Hin Hslot HQ. unfold fn_prologue. pose proof csp_range. pose proof Hstack.
  assert (Hpush : forall a, ~ sp m - 4 <= a < sp m -> pwrite32 (mem m) (sp m - 4) (regs m 6) a = mem m a).
  { intros a Ha. apply push_other. lia. }
  gstep. apply (gwp_push _ _ _ _ _ _ _ _ Hcs Hce _ 6); [reads_now|lia|lia| |].
  { intros Hrom a Ha. cbn [mem set_mem setf]. rewrite push_other; [by apply Hrom|]. pose proof Hapart. lia. }
  intros m1 Hm1 Hs1 Hr1. assert (Hw1 : words m1) by (intros r; rewrite Hr1; apply Hw).
  gstep. eapply (run_load_csp _ 6 fp); [reads_now| |].
  { rewrite <- Ef. apply rd32_same. intros k Hk. rewrite Hm1. apply Hpush. lia. }
  intros m2 X2 K2. pose proof (k_words _ _ _ K2 Hw1) as Hw2.
  gstep. apply run_reserve; [done|done|done|]. intros m3 Hm3 Hs3 Hw3 Hr3.
  assert (H36 : regs m3 6 = fp) by (by rewrite Hr3 by lit).
  apply run_prime_params; [done..|]. intros m4 [P1 P2 P3 P4 P5].
  assert (HM : forall a, ~ sp m - 4 <= a < sp m -> ~ csp <= a < csp + 4 -> mem m4 a = mem m a).
  { intros a Ha Hc. rewrite P1, Hm3, (k_mem _ _ _ K2), Hm1 by done. by apply Hpush. }
  assert (HMV : forall a, V a = true -> mem m4 a = mem m a).
  { intros a Ha. apply HM; [|by apply data_no_csp]. intros Hi. rewrite stack_apart in Ha; [done|lia]. }
  assert (Hother : forall r, r ∉ [0; 5; 6; 7] -> (forall v, v ∈ o_params f -> is_promoted vars v = true -> o_reg (vars v) <> r) ->
    regs m4 r = regs m r).
  { intros r Hr Hne. rewrite P4, Hr3, (kreg _ _ _ r K2), Hr1; [done|..|done]; intros Hi; apply Hr; revert Hi; rewrite !elem_of_cons; tauto. }
  apply HQ.
  - split; cbn [cm rv entry_state].
    + rewrite P4; [done|lit|]. intros v Hv Hp E. pose proof (reg_pool _ (Hreg v (Hin v Hv) Hp)). lia.
    + exact HMV.
    + exact Hb.
    + intros v Hv Hp. case_bool_decide as Hps.
      * rewrite P5 by done. unfold param_word. f_equal. apply pread32_ext. intros k Hk. rewrite <- P1.
        by apply HMV, (Hslot v Hps Hp).
      * pose proof (reg_pool _ (Hreg v Hv Hp)). apply Hother.
        -- rewrite !elem_of_cons. intros [E | [E | [E | [E | E]]]]; [lia..|by apply elem_of_nil in E].
        -- intros w Hwp Hpw E. assert (w = v) as ->; [|done]. by apply Hinj; [apply Hin| | |].
    + exact P3.
    + rewrite P2, Hs3, (k_sp _ _ _ K2). lia.
  - by rewrite P2, Hs3, (k_sp _ _ _ K2).
  - intros a Ha Hsl Hc. apply HM; [|done]. lia.
  - assert (sp m4 = sp m - 4) as -> by (by rewrite P2, Hs3, (k_sp _ _ _ K2)).
    rewrite <- (stack_word m (sp m - 4) (regs m 6)); [|lia|lia|apply Hw]. apply rd32_same.
    intros k Hk. cbn [mem set_mem setf]. rewrite P1, Hm3, (k_mem _ _ _ K2), Hm1; [done|]. apply stack_data. lia.
Qed.

(** ** The epilogue, and calls *)

Lemma run_pop_r6 m v (Q : unit -> cpu -> Prop) :
  is_word v -> rd32 size m (sp m) = Some v ->
  (forall m', regs m' 6 = v -> mem m' = mem m -> sp m' = sp m + 4 -> (forall k, k <> 6 -> regs m' k = regs m k) -> Q tt m') ->
  gwp (ins "POP R6") Q m.
Proof using. intros Hv Hr HQ. apply (gwp_pop _ _ _ _ _ _ _ _ Hcs Hce _ 6 m v); [reads_now|done..]. Qed.

Lemma runs_ret g g' m ra e R :
  emits (ins "RET") g tt g' (pc m) e -> in_rom rom cs ce m -> rd32 size m (sp m) = Some ra ->
  (forall m', pc m' = ra -> sp m' = sp m + 4 -> mem m' = mem m -> (forall r, regs m' r = regs m r) -> R m') -> runs size m R.
Proof using.
  intros (c & [= _ <-] & Hc & H1 & H2) Hr Hra HR.
  eapply (runs_insn size rho rom cs ce Hcs Hce m (str "  " ++ str "RET") [] e 0x28 []
    (goto ra (goto (pc m + args_len rho []) m <| sp ::= fun s => s + 4 |>))); [reads_now|done|exact Hc|done|done| |].
  - cbn [fmap list_fmap exec_args]. unfold execute, pop.
    change (rd32 size (goto (pc m + args_len rho []) m) (sp (goto (pc m + args_len rho []) m))) with (rd32 size m (sp m)). by rewrite Hra.
  - intros _. apply runs_here. by apply HR.
Qed.

Lemma runs_epilogue g g' m r6 ra e R :
  emits fn_epilogue g tt g' (pc m) e -> ctx g -> in_rom rom cs ce m -> words m -> regs m 6 = fp ->
  is_word r6 -> rd32 size m (sp m) = Some r6 -> rd32 size m (sp m + 4) = Some ra -> slo <= sp m -> sp m + 8 <= shi ->
  (forall m', pc m' = ra -> sp m' = sp m + 8 -> regs m' 6 = r6 -> (forall r, r <> 6 -> regs m' r = regs m r) ->
     rd32 size m' csp = Some fp -> (forall a, ~ csp <= a < csp + 4 -> mem m' a = mem m a) -> R m') -> runs size m R.
Proof.
  intros He Hg Hr Hw Hf H6w H6 Hra Hlo Hhi HR. unfold fn_epilogue in He. piece He g1 q1 E1. piece He g2 q2 E2.
  eapply (run_piece (ins "STORE R6, __csp") (fun _ m1 => mem m1 = pwrite32 (mem m) csp fp /\ sp m1 = sp m /\ forall r, regs m1 r = regs m r));
    [|exact Hg|exact E1|done|].
  { eapply run_store_csp; [reads_now|]. intros m1 Hm1 Hs1 Hr1. rewrite Hf in Hm1. done. }
  intros m1 Hp1 Hrom1 (Hm1 & Hs1 & Hr1). pose proof csp_range as Hcp. pose proof Hstack as [Hs0 Hs8].
  assert (Hsame : forall a, ~ csp <= a < csp + 4 -> mem m1 a = mem m a) by (intros a Ha; rewrite Hm1; apply push_other; lia).
  assert (Hread : forall a, slo <= a -> a + 4 <= shi -> rd32 size m1 a = rd32 size m a).
  { intros a Ha1 Ha2. apply rd32_same. intros k Hk. apply Hsame, stack_data. lia. }
  assert (Hcsp : rd32 size m1 csp = Some fp).
  { rewrite <- (stack_word m csp fp); [|lia|done|rewrite <- Hf; apply Hw]. apply rd32_same. intros k Hk. by rewrite Hm1. }
  assert (Hg1 : ctx g1) by (by destruct E1 as (c1 & [= <- _] & _)).
  rewrite <- Hp1 in E2.
  eapply (run_piece (ins "POP R6") (fun _ m2 => regs m2 6 = r6 /\ mem m2 = mem m1 /\ sp m2 = sp m1 + 4 /\ forall k, k <> 6 -> regs m2 k = regs m1 k));
    [|exact Hg1|exact E2|done|].
  { apply (run_pop_r6 _ r6); [done| |done]. rewrite Hs1, Hread by lia. exact H6. }
  intros m2 Hp2 Hrom2 (X6 & Hm2 & Hs2 & Hr2). rewrite <- Hp2 in He.
  eapply runs_ret; [exact He|done| |].
  { rewrite (rd32_same m1) by (by rewrite Hm2). rewrite Hs2, Hs1, Hread by lia. exact Hra. }
  intros m3 Hp3 Hs3 Hm3 Hr3. apply HR; [done|lia|by rewrite Hr3| | |].
  - intros r Hne. by rewrite Hr3, Hr2, Hr1.
  - rewrite <- Hcsp. apply rd32_same. by rewrite Hm3, Hm2.
  - intros a Ha. rewrite Hm3, Hm2. auto.
Qed.

Lemma keeps_ret (a : unit) : keeps vars fn ret_label unit (mret a).
Proof using. apply keeps_pure. by intros g ? ? ? [= _ <- _]. Qed.

Lemma keeps_prologue f : keeps vars fn ret_label unit (fn_prologue f).
Proof using.
  unfold fn_prologue. apply keeps_bind; [apply keeps_ins|]. intros _. apply keeps_bind; [apply keeps_ins|]. intros _.
  apply keeps_bind.
  - destruct (o_stack_size f >? 0); [|apply keeps_ret].
    repeat (apply keeps_bind; [first [apply keeps_ins|apply keeps_imm]|intros _]). apply keeps_ins.
  - intros _. apply keeps_each. intros v. unfold prime_param. apply keeps_bind.
    { apply keeps_pure. by intros g ? ? ? [= _ <- _]. }
    intros p. destruct (o_reg p =? 0); [apply keeps_ret|]. cbv zeta. apply keeps_bind; [apply keeps_ins|]. intros _.
    apply keeps_bind; [|intros _; by intros g a g' c [= _ <- _]].
    repeat match goal with |- keeps _ _ _ _ (if ?b then _ else _) => destruct b end;
      try apply keeps_ret; (apply keeps_bind; [apply keeps_imm|intros _; apply keeps_ins]).
Qed.

(** What a function returns in R0. *)
Definition result (f : flow) : option Z := match f with Normal _ => Some 0 | Returned v => v | Jump _ => None end.

(** A call has returned: both stacks are as before the call, memory is the program's. *)
Record returned (ra : Z) (v : option Z) (s : cst) (m m' : cpu) : Prop := {
  re_pc : pc m' = ra;
  re_sp : sp m' = sp m + 4;
  re_fp : regs m' 6 = regs m 6;
  re_csp : rd32 size m' csp = Some fp;
  re_mem : forall a, V a = true -> mem m' a = cm s a;
  re_outside : outside (sp m) m m';
  re_value : forall x, v = Some x -> regs m' 0 = x;
}.

Lemma function_run o body n f s' g1 g' ra m e :
  ctx g1 -> emits (fn_code tr o) g1 tt g' (pc m) e -> in_rom rom cs ce m -> entered ra m ->
  o_body o = Some body -> 0 <= o_stack_size o < 2 ^ 31 -> NoDup (o_params o) -> (forall v, v ∈ o_params o -> v ∈ locals) ->
  (forall v, v ∈ o_params o -> is_promoted vars v = true -> slot_ok v) ->
  slo + 4 + 4 * Z.of_nat (height body) <= sp m ->
  exec vars locals rho fp V ret n body (entry_state (o_params o) m) = Some (f, s') -> (forall l, f <> Jump l) ->
  runs size m (returned ra (result f) s' m).
Proof.
  intros Hg He Hrom Hent Hbody Hss Hnd Hin Hslot Hroom Hx Hnj. unfold fn_code in He. rewrite Hbody in He.
  piece He g2 q2 E2. apply emits_label in E2 as (-> & -> & _ & _).
  piece He g3 q3 E3. piece He g4 q4 E4. piece He g5 q5 E5. piece_of He g6 q6 E6.
  destruct E6 as (c6 & [= <- <- <-] & Hc6 & _). cbn in Hc6. subst q6. piece He g7 q7 E7. piece He g8 q8 E8. clear He.
  set (s0 := entry_state (o_params o) m) in *.
  eapply (run_piece (fn_prologue o) (fun _ m1 => rel s0 m1 /\ sp m1 = sp m - 4 /\ outside (sp m) m m1 /\ rd32 size m1 (sp m1) = Some (regs m 6)));
    [|exact Hg|exact E3|done|].
  { apply (run_prologue o m ra); done. }
  intros m1 Hp1 Hr1 (R1 & S1 & O1 & P1).
  pose proof (emits_keeps _ _ _ _ _ _ (keeps_prologue o) E3 Hg) as Hg3. pose proof (ctx_stmt _ _ _ _ _ _ _ E4 Hg3) as Hg4.
  pose proof (emits_keeps _ _ _ _ _ _ (keeps_ins "MOV R0, 0") E5 Hg4) as Hg5.
  pose proof Hg5 as (_ & _ & Hrl). rewrite Hrl in E7. apply emits_label in E7 as (-> & -> & Hl & Hrho).
  pose proof csp_range as Hcp. destruct Hent as [_ Era Hw _ Hsp].
  (* From the return label on. *)
  assert (Hepi : forall m3, pc m3 = q5 -> in_rom rom cs ce m3 -> after s' (result f) m1 m3 -> runs size m3 (returned ra (result f) s' m)).
  { intros m3 Hp3 Hr3 [R3 S3 F3 X3]. rewrite <- Hp3 in E8.
    assert (Hkept : forall a, sp m - 4 <= a -> a < shi -> mem m3 a = mem m1 a) by (intros a Ha1 Ha2; apply F3; [apply stack_apart; lia|lia]).
    eapply runs_epilogue; [exact E8|exact Hg5|exact Hr3|exact (rl_words _ _ R3)|exact (rl_fp _ _ R3)|apply (Hw 6)| | |lia|lia|].
    - rewrite <- P1, S3. apply rd32_same. intros k Hk. apply Hkept; lia.
    - rewrite <- Era, S3, S1. replace (sp m - 4 + 4) with (sp m) by lia. apply rd32_same. intros k Hk.
      rewrite Hkept by lia. apply O1; [apply stack_apart; lia|lia|apply stack_data; lia].
    - intros m4 Hp4 Hs4 H64 Hr4 Hc4 Hm4. split; [done|lia|done|done| | |].
      + intros a Ha. rewrite Hm4 by (by apply data_no_csp). by apply (rl_mem _ _ R3).
      + intros a Ha Hi Hc. rewrite Hm4, F3 by (done || lia). by apply O1.
      + intros x Hxv. rewrite Hr4 by done. by apply X3. }
  assert (Hflow : flows q4 f s' m1).
  { apply (sa_stmt _ (sim n) body s0 f s' m1 (fuel_for (o_body o)) Hx R1) with (g := g3) (g' := g4); [unfold room; lia|done| |done].
    by rewrite Hp1, Hbody. }
  eapply runs_trans; [exact Hflow|]. intros m2 (Hp2 & Hr2 & A2). destruct f as [v|l|v]; [|by destruct (Hnj l)|].
  - cbn [ends_at flow_value] in *. rewrite <- Hp2 in E5.
    eapply (run_piece (ins "MOV R0, 0") (fun _ m3 => after s' (Some 0) m1 m3)); [|exact Hg4|exact E5|done|exact Hepi].
    apply (gwp_ins_mov _ 0 0); [reads_now|done|]. intros m3 X3 K3. eapply after_next; [exact A2|exact K3|lit|]. by intros ? [= <-].
  - cbn [ends_at flow_value] in *. apply Hepi; [congruence|done|done].
Qed.
End fn.
