(* ===== verification/CompilerSpec.v ===== *)
(** * CompilerSpec: the compiler, the assembler, the linker and the processor together

    A function that the code generator compiled, in a module that the assembler took and
    the linker put into an executable, does on the processor what the semantics of its
    tree says, for every call that keeps to the calling convention.  The loop at the end is
    an example that is compiled, assembled, linked and run. *)

From S2P Require Import Prelude Config Kernel Klog RawMem UserMem LibString LibFormat LibStringSpec GuestAsm GuestLink GuestObjSpec GuestAsmSpec GuestLinkSpec Codegen Cpu AsmLines AsmCode AsmLoad CSem GenLogic CodegenAlloc CodegenTotal InsnRules CodegenRun CodegenSim CodegenStmt CodegenFn.

(** ** The text of a module *)

Lemma split_line (l : list Z) rest : 10 ∉ l -> split_lines (l ++ 10 :: rest) = l :: split_lines rest.
Proof.
  induction l as [|c l IH]; intros H; [done|]. cbn [app split_lines]. apply not_elem_of_cons in H as [Hc H].
  rewrite (proj2 (Z.eqb_neq c 10)) by done. by rewrite IH.
Qed.

Lemma split_text_of ls : Forall (fun l => 10 ∉ l) ls -> split_lines (text_of ls) = ls.
Proof.
  induction 1 as [|l ls Hl _ IH]; [done|]. unfold text_of. cbn [fmap list_fmap concat]. rewrite <- app_assoc. cbn [app].
  rewrite split_line by done. f_equal. exact IH.
Qed.

Lemma each_app {A} f (l1 l2 : list A) img : each f img (l1 ++ l2) = (i ← each f img l1 ; each f i l2).
Proof. revert img. induction l1 as [|x l1 IH]; intros img; [done|]. cbn. destruct (f img x); [apply IH|done]. Qed.

Lemma relocs_in_empty : relocs_in empty_image.
Proof. apply List.Forall_nil. Qed.

(** The relocations of the text lie in the text: well-formed images. *)
Lemma image_relocs_in i : image_ok i -> relocs_in i.
Proof.
  intros [_ _ _ _ _ Hr _]. unfold relocs_in. eapply Forall_impl; [exact Hr|]. intros r [_ _ [_ Ho] _] Hs.
  rewrite Hs in Ho. exact Ho.
Qed.

(** ** A compiled and linked function *)

Section spec.
Context `{L : Layout}.
Local Abbreviation csp := (u32 (rho (str "__csp"))).

(** [out] is linked from modules, one of which holds the code [c] that the generator, in
    the state [g], wrote for the function of the layout; the layout has the executable's
    text as code and the addresses of its symbols. *)
Record built (g : cg) (o : Obj) (c : list line) (imgs : list AsmImage) (out : list Z) (p : placed) : Prop := {
  bt_setup : exists g1, fn_setup fn g = Done o g1 [] /\ in_ctx vars fn ret_label g1;
  bt_code : exists g', gen_function tr fn g = Done tt g' c;
  bt_lines : Forall code_line c;
  bt_module : exists pre post i0, each parse_line empty_image pre = Ok i0 /\ img_section i0 = SEC_TEXT /\ image_ok i0 /\
    Forall (fun l => 10 ∉ l) (pre ++ c ++ post) /\
    assemble_source empty_image (text_of (pre ++ c ++ post)) = Ok (pl_image p);
  bt_images : Forall image_ok imgs /\ sizes_fit imgs;
  bt_link : link_images imgs = Ok out;
  bt_place : p ∈ places imgs;
  bt_rom : forall k, 0 <= k < text_size (pl_image p) -> rom (pl_text p + k) = nthz out (file_pos p SEC_TEXT + k);
  bt_rho : forall name a, resolves (places imgs) p name a -> rho name = a;
  bt_range : cs <= pl_text p /\ pl_text p + text_size (pl_image p) <= ce;
}.

(** The frame of the function and the variable [__csp] are in proper memory. *)
Record frame_fits (o : Obj) : Prop := {
  ff_stack : 0 <= o_stack_size o < 2 ^ 31;
  ff_params : NoDup (o_params o) /\ (forall v, v ∈ o_params o -> v ∈ locals);
  ff_slots : forall v, v ∈ o_params o -> is_promoted vars v = true -> slot_ok v;
  ff_csp : csp + 4 <= size /\ (csp + 4 <= cs \/ ce <= csp) /\ (csp + 4 <= slo \/ shi <= csp);
  ff_data : forall a, csp <= a < csp + 4 -> V a = false;
}.

Lemma built_code g o c imgs out p : built g o c imgs out p ->
  exists g1 g' a e, in_ctx vars fn ret_label g1 /\ fn_code tr o g1 = Done tt g' c /\ rho (o_name o) = a /\
    code_at rho rom a c e /\ cs <= a /\ e <= ce.
Proof.
  intros [(g1 & Hs & Hg) (g' & Hc) Hl (pre & post & i0 & Epre & Hsec & Hok0 & Hnl & Easm) [Himg Hfit] Hlk Hp Hrom Hrho [Hr1 Hr2]].
  rewrite gen_function_split in Hc. apply bind_inv in Hc as (o' & g1' & c1 & c2 & E1 & E2 & ->).
  rewrite Hs in E1. injection E1 as <- <- <-. cbn [app] in *.
  unfold assemble_source in Easm. rewrite split_text_of in Easm by done. rewrite each_app, Epre in Easm. cbn [mbind res_bind] in Easm.
  rewrite each_app in Easm. destruct (each parse_line i0 c2) as [i1|] eqn:E1; [|done]. cbn [mbind res_bind] in Easm.
  assert (G : grows i1 (pl_image p)) by (eapply grows_each; [apply grows_line|exact Easm]).
  apply list_elem_of_lookup in Hp as [k Hk]. pose proof (linked_run _ _ Himg Hfit Hlk) as HL.
  pose proof (lk_section _ _ HL k p SEC_TEXT Hk ltac:(by left)) as Hload.
  pose proof (place_inside imgs Hfit k p Hk) as (Hb1 & Hb2 & Hb3 & Hb4).
  assert (Hpos : 0 <= text_size (pl_image p)) by (unfold text_size; lia).
  assert (Hd : 0 <= data_size (pl_image p)) by (unfold data_size; lia).
  assert (Hin : Forall image_ok imgs) by done.
  assert (Hok : image_ok (pl_image p)).
  { pose proof (place_image imgs Hfit k p Hk) as Hpi. by apply (Forall_lookup_1 _ _ _ _ Himg Hpi). }
  assert (Hbss : 0 <= img_bss_size (pl_image p)).
  { pose proof (place_image imgs Hfit k p Hk) as Hpi. by apply (Forall_lookup_1 _ _ _ _ (sf_bss _ Hfit) Hpi). }
  unfold CFG_USER_LOAD_BASE in *.
  pose proof (load_lines (places imgs) out p rho rom Hload Hok ltac:(lia) Hrom Hrho c2 i0 i1 Hl E1 Hsec (image_relocs_in _ Hok0) G) as Hcode.
  pose proof (grows_size _ _ G). assert (0 <= text_size i0) by (unfold text_size; lia).
  exists g1, g', (pl_text p + text_size i0), (pl_text p + text_size i1). do 2 (split; [done|]). split; [|split; [done|lia]].
  unfold fn_code in E2. apply bind_inv in E2 as (? & ? & c3 & c4 & E3 & _ & ->). injection E3 as <- <- <-.
  cbn [app code_at] in Hcode. unfold label_line in Hcode. change (str ":") with [58] in Hcode.
  rewrite last_snoc, bool_decide_true, removelast_last in Hcode by done. apply Hcode.
Qed.

(** A call of the function. *)
Lemma call_run g o c imgs out p body n f s' ra m :
  built g o c imgs out p -> frame_fits o -> o_body o = Some body ->
  pc m = rho (o_name o) -> in_rom rom cs ce m -> entered ra m -> slo + 4 + 4 * Z.of_nat (height body) <= sp m ->
  exec vars locals rho fp V (ty_return (o_ty (vars fn))) n body (entry_state (o_params o) m) = Some (f, s') -> (forall l, f <> Jump l) ->
  runs size m (returned ra (result f) s' m).
Proof.
  intros HB [F1 [F2 F3] F4 (K1 & K2 & K3) F5] Hb Hpc Hr He Hroom Hx Hj.
  destruct (built_code _ _ _ _ _ _ HB) as (g1 & g' & a & e & Hg & Ec & Ha & Hc & Hr1 & Hr2).
  eapply (function_run K1 K2 K3 F5 o body n f s' g1 g' ra m e); try done.
  exists c. rewrite Hpc, Ha. done.
Qed.
End spec.

(** ** The addresses of an executable *)

(** What a name of a module means, and the text segment of the file. *)
Definition exe_rho (imgs : list AsmImage) (p : placed) (name : list Z) : Z :=
  match own_symbol (pl_image p) name with
  | Some sym => match symbol_addr p sym with Ok a => a | Err _ => 0 end
  | None => match collect_globals (places imgs) [] with
            | Ok globals => match find_global globals name with Some g => g.2 | None => 0 end
            | Err _ => 0
            end
  end.
Definition exe_rom (out : list Z) (a : Z) : Z := nthz out (12 + (a - CFG_USER_LOAD_BASE)).

Lemma exe_rho_resolves imgs p globals name a :
  collect_globals (places imgs) [] = Ok globals -> resolves (places imgs) p name a -> exe_rho imgs p name = a.
Proof.
  intros Eg. unfold resolves, exe_rho. rewrite Eg. destruct (own_symbol _ _) as [sym|]; [by intros ->|].
  intros H. apply (find_exported _ _ _ _ Eg) in H. by rewrite H.
Qed.

Lemma exe_rom_file out p k : exe_rom out (pl_text p + k) = nthz out (file_pos p SEC_TEXT + k).
Proof. unfold exe_rom, file_pos. f_equal. unfold sec_base. cbn [Z.eqb Pos.eqb SEC_TEXT]. lia. Qed.

(** Lines of code, decided. *)
Definition code_lineb (l : line) : bool :=
  (label_ok (removelast l) && bool_decide (l = removelast l ++ str ":")) || bool_decide (is_Some (decode l)).

Lemma code_lineb_ok l : code_lineb l = true -> code_line l.
Proof.
  unfold code_lineb. intros [H|H]%orb_true_iff.
  - apply andb_true_iff in H as [H1 H2%bool_decide_eq_true]. left. by exists (removelast l).
  - apply bool_decide_eq_true in H as [[op args] H]. right. exists op, args. by apply decode_reads.
Qed.

Lemma code_lines_ok ls : forallb code_lineb ls = true -> Forall code_line ls.
Proof. intros H. apply Forall_forall. intros l Hl. apply code_lineb_ok. rewrite forallb_forall in H. by apply H, list_elem_of_In. Qed.

Definition one_line (l : line) : bool := forallb (fun c => negb (c =? 10)) l.
Lemma one_lines ls : forallb one_line ls = true -> Forall (fun l => 10 ∉ l) ls.
Proof.
  intros H. apply Forall_forall. intros l Hl Hc. rewrite forallb_forall in H. apply list_elem_of_In in Hl, Hc.
  specialize (H l Hl). unfold one_line in H. rewrite forallb_forall in H. by specialize (H 10 Hc).
Qed.

(** ** Properties *)

(** C1: the compiler is correct: take a function that the code generator compiled, in a module
    that the assembler took and the linker put into an executable.  Whenever the meaning of
    its body, from the memory and the parameters at the call, is a run that ends at [f] in
    the state [s'], the processor that is called at the function's symbol with a frame in
    [__csp] and a return address on its stack gets back to that address, with the result
    in R0, memory as in [s'], the frame register, [__csp] and the stack as before the call,
    and no other byte changed above the stack's top. *)
Theorem compiled_function_correct `{L : Layout} g o c imgs out p body n f s' ra m :
  built g o c imgs out p -> frame_fits o -> o_body o = Some body ->
  pc m = rho (o_name o) -> in_rom rom cs ce m -> entered ra m -> slo + 4 + 4 * Z.of_nat (height body) <= sp m ->
  exec vars locals rho fp V (ty_return (o_ty (vars fn))) n body (entry_state (o_params o) m) = Some (f, s') ->
  (forall l, f <> Jump l) ->
  runs size m (returned ra (result f) s' m).
Proof. apply call_run. Qed.

(** C2: register allocation is sound: it writes no code and changes nothing of a variable but
    its register and its mark; a variable gets one of R2, R3 and R4 only if it is a local of
    the function, of an [int], an enumeration, a pointer or a [long] of one word, whose
    address is taken nowhere in the body; and no two variables get the same register.  So in
    a program whose ints, enumerations and pointers have four bytes every variable in a
    register has four bytes. *)
Theorem registers_allocated fuel f g g' c :
  analyze_and_allocate fuel f g = Done tt g' c -> NoDup (o_locals (objs g f)) -> (forall v, o_reg (objs g v) = 0) ->
  (forall v, ty_kind (o_ty (objs g v)) ∈ [TY_INT; TY_ENUM; TY_PTR] -> ty_size (o_ty (objs g v)) = 4) ->
  c = [] /\ allocated f g g' /\ forall v, o_reg (objs g' v) <> 0 -> ty_size (o_ty (objs g v)) = 4.
Proof.
  intros E Hl H0 Hw. destruct (analyze_run fuel f g g' c) as [-> A]; [done..|]. split; [done|]. split; [done|].
  intros v Hv. destruct (al_reg _ _ _ A v Hv) as (_ & _ & _ & [H|[_ H]]); auto.
Qed.

(** C3: the frame layout is sound: for a function whose variables fit an [int], every
    local that is not a parameter gets bytes of its own inside the frame, as many whole
    words as its type's size needs ([slot_bytes]), aligned as it
    asks for up to a word; the size of the frame is a number of words; the parameters lie
    below the frame register, one after the other in the order in which the caller pushed
    them, behind the hidden pointer of a function that returns a struct; and nothing of
    the other variables changes but their offsets, nothing of the function but the size of
    its frame. *)
Theorem frame_laid_out f g :
  let fn := objs g f in
  (forall v, ty_size (o_ty (objs g v)) < 2 ^ 31 - 8) -> (forall v, 0 < o_align (objs g v)) ->
  NoDup (o_locals fn) -> NoDup (o_params fn) -> f ∉ o_locals fn -> f ∉ o_params fn ->
  need (objs g) (o_locals fn) + pushed (objs g) (o_params fn) + 12 < 2 ^ 31 ->
  exists g', assign_lvar_offsets f g = Done tt g' [] /\ frame_laid (objs g) f g'.
Proof. intros fn Hs Ha. by apply (frame_layout_run (objs g) Hs Ha f g). Qed.

(** C4: the generator terminates: whatever the program and the state it starts in, it
    ends with code, with one of its error messages, or at an access through a null
    pointer or past the end of an initializer; the recursion over the trees, the walks of
    the register allocator and the loops over initializers all end. *)
Theorem codegen_terminates tr prog g : codegen tr prog g <> Halt CgNoFuel.
Proof. apply codegen_enough. Qed.

(** ** An example: compiled, assembled, linked and run *)

Module Demo.
Definition ty_int := Build_Ty TY_INT 4 4 false 0 None.
Definition ty_fn := Build_Ty TY_FUNC 1 1 false 0 (Some ty_int).

(** A node with two children, of type [int]. *)
Definition node (k : NodeKind) (lhs rhs : option Node) (body : list Node) (v : option Z) (val : Z) : Node :=
  Build_Node k (Some ty_int) lhs rhs None None None None None [] [] body None [] None [] [] [] None 0 0 [] v val 0.
Definition var v := node ND_VAR None None [] (Some v) 0.
Definition num n := node ND_NUM None None [] None n.
Definition bin k a b := node k (Some a) (Some b) [] None 0.
Definition expr e := node ND_EXPR_STMT (Some e) None [] None 0.
Definition set v e := expr (bin ND_ASSIGN (var v) e).
Definition for_ init c inc body :=
  Build_Node ND_FOR None None None (Some c) (Some body) None (Some init) (Some inc) (str ".L.brk") (str ".L.cont") []
    None [] None [] [] [] None 0 0 [] None 0 0.

(** [int sum(int n) { int s = 0, i; for (i = 0; i < n; i = i + 1) s = s + i; return s; }] *)
Definition body := node ND_BLOCK None None [
  set 3 (num 0);
  for_ (set 2 (num 0)) (bin ND_LT (var 2) (var 1)) (bin ND_ASSIGN (var 2) (bin ND_ADD (var 2) (num 1)))
    (set 3 (bin ND_ADD (var 3) (var 2)));
  node ND_RETURN (Some (var 3)) None [] None 0] None 0.

Definition local name := Build_Obj (str name) ty_int true 4 0 false 0 false false false None [] [] None [] 0.
Definition sum := Build_Obj (str "sum") ty_fn false 1 0 false 0 true true false None [] [1] (Some body) [3; 2; 1] 0.
Definition program (v : Z) : Obj :=
  if v =? 0 then sum else if v =? 1 then local "n" else if v =? 2 then local "i" else local "s".

Definition lines : list line := match codegen (fun _ _ => 0) [0] (cg_init program) with Done _ _ c => c | Halt _ => [] end.

(** The rest of the program: the entry, and the top of the software stack. *)
Definition start : list Z :=
  text_of (str <$> [".global _start"; ".global __csp"; ".text"; "_start:"; "  CALL sum"; "  RET"; ".data"; "__csp:"; "  .word 0"])%string.

Definition image (source : list Z) : AsmImage := match assemble_source empty_image source with Ok i => i | Err _ => empty_image end.
Definition images : list AsmImage := [image (text_of lines); image start].
Definition out : list Z := match link_images images with Ok bs => bs | Err _ => [] end.

(** The executable, and where [sum] is in it. *)
Definition at_ : placed := nth 0 (places images) (Build_placed empty_image 0 0 0).
Definition csp : Z := exe_rho images at_ (str "__csp").

(** The generator when it starts on [sum], and the function and the variables when its code starts. *)
Definition before : cg :=
  match (each_g (if_function assign_lvar_offsets) [0] ;; each_g emit_global [0] ;; wr_line (str ".text")) (cg_init program) with
  | Done _ g _ => g | Halt _ => cg_init program end.
Definition during : cg := match fn_setup 0 before with Done _ g _ => g | Halt _ => before end.
Definition fn_obj : Obj := objs before 0.
Definition code : list line := match gen_function (fun _ _ => 0) 0 before with Done _ _ c => c | Halt _ => [] end.

(** 128 MiB of memory: the frame behind the program, the stack behind the frame. *)
Definition frame_at : Z := CFG_USER_LOAD_BASE + 8192.
Definition stack_at : Z := CFG_USER_LOAD_BASE + 16384.


(** The variables are in registers. *)
Lemma vars_reg v : v ∈ [3; 2; 1] ->
  o_reg (objs during v) = (if v =? 3 then 2 else if v =? 2 then 3 else 4) /\
  o_offset (objs during v) = (if v =? 3 then 0 else if v =? 2 then 4 else -4).
Proof. intros Hv. do 3 (apply elem_of_cons in Hv as [->|Hv]; [vm_compute; by split|]). by apply elem_of_nil in Hv. Qed.

Lemma layout_ends : 0 <= text_size (pl_image at_) <= 4096.
Proof. vm_compute. split; discriminate. Qed.

#[export, refine] Instance demo_layout : Layout := {
  size := 2 ^ 27; rho := exe_rho images at_; rom := exe_rom out;
  cs := CFG_USER_LOAD_BASE; ce := CFG_USER_LOAD_BASE + text_size (pl_image at_); slo := stack_at; shi := stack_at + 4096;
  V := fun a => (frame_at - 64 <=? a) && (a <? frame_at + 64);
  vars := objs during; locals := [3; 2; 1]; fp := frame_at; fn := 0; ret_label := str ".L.cg.0"; tr := fun _ _ => 0;
}.
Proof.
  - done.
  - pose proof layout_ends. unfold CFG_USER_LOAD_BASE. lia.
  - lia.
  - pose proof layout_ends. unfold CFG_USER_LOAD_BASE. lia.
  - unfold stack_at, CFG_USER_LOAD_BASE. lia.
  - pose proof layout_ends. unfold stack_at, CFG_USER_LOAD_BASE. lia.
  - intros a H. bool_hyps. pose proof layout_ends. unfold frame_at, stack_at, CFG_USER_LOAD_BASE in *. lia.
  - intros v Hv _. destruct (vars_reg v Hv) as [-> _]. repeat case_match; lit.
  - intros v w Hv Hw _. destruct (vars_reg v Hv) as [-> _], (vars_reg w Hw) as [-> _].
    do 3 (apply elem_of_cons in Hv as [->|Hv]; [do 3 (apply elem_of_cons in Hw as [->|Hw]; [done|]); by apply elem_of_nil in Hw|]).
    by apply elem_of_nil in Hv.
  - intros v Hv. destruct (vars_reg v Hv) as [_ ->]. unfold is_i32. repeat case_match; lia.
  - reflexivity.
Defined.

Lemma demo_images_ok : Forall image_ok images.
Proof.
  assert (H : forall s, text_okb s = true -> assemble_source empty_image s = Ok (image s) -> image_ok (image s)).
  { intros s H1 H2. by apply (assemble_ok s); [apply text_okb_ok|]. }
  apply List.Forall_cons; [|apply List.Forall_cons; [|apply List.Forall_nil]]; apply H; vm_compute; reflexivity.
Qed.

Lemma demo_globals : exists globals, collect_globals (places images) [] = Ok globals.
Proof. vm_compute. eexists. reflexivity. Qed.

Lemma demo_built : built before fn_obj code images out at_.
Proof.
  split.
  - exists during. split; [vm_compute; reflexivity|]. cbv beta iota zeta delta [in_ctx vars fn ret_label demo_layout]. split; [reflexivity|]. split; vm_compute; reflexivity.
  - eexists. vm_compute. reflexivity.
  - apply code_lines_ok. vm_compute. reflexivity.
  - exists [str ".global sum"; str ".text"], [], (image (text_of [str ".global sum"; str ".text"])). split; [vm_compute; reflexivity|]. split; [reflexivity|]. split.
    + apply (assemble_ok (text_of [str ".global sum"; str ".text"])); [apply text_okb_ok|]; vm_compute; reflexivity.
    + split; [apply one_lines; vm_compute; reflexivity|vm_compute; reflexivity].
  - split; [apply demo_images_ok|]. split; [|vm_compute; reflexivity].
    do 2 (apply List.Forall_cons; [vm_compute; discriminate|]). apply List.Forall_nil.
  - vm_compute. reflexivity.
  - apply list_elem_of_lookup. exists 0%nat. vm_compute. reflexivity.
  - intros k _. apply exe_rom_file.
  - intros name a Ha. destruct demo_globals as [gs Eg]. by apply (exe_rho_resolves _ _ gs).
  - vm_compute. split; discriminate.
Qed.

Lemma demo_fits : frame_fits fn_obj.
Proof.
  split.
  - vm_compute. split; [discriminate|reflexivity].
  - assert (o_params fn_obj = [1]) as -> by (vm_compute; reflexivity). split; [apply NoDup_singleton|].
    intros v Hv%list_elem_of_singleton. subst. lit.
  - intros v Hv _. assert (o_params fn_obj = [1]) as E by (vm_compute; reflexivity). rewrite E in Hv.
    apply list_elem_of_singleton in Hv as ->. intros i Hi.
    assert (u32 (fp + o_offset (vars 1)) = frame_at - 4) as -> by (vm_compute; reflexivity). cbn [V demo_layout]. lia.
  - vm_compute. intuition discriminate.
  - intros a. cbn [V rho demo_layout]. assert (u32 (exe_rho images at_ (str "__csp")) = CFG_USER_LOAD_BASE + 4096) as -> by (vm_compute; reflexivity).
    unfold frame_at, CFG_USER_LOAD_BASE. lia.
Qed.

(** The machine at a call of [sum(5)] that returns to the entry. *)
Definition ra : Z := exe_rho images at_ (str "_start") + 5.
Definition memory : Z -> Z :=
  blit (blit (blit (exe_rom out) csp (le_bytes32 frame_at)) (stack_at + 2048) (le_bytes32 ra)) (frame_at - 4) (le_bytes32 5).
Definition machine : cpu := Build_cpu (fun _ => 0) (exe_rho images at_ (str "sum")) (stack_at + 2048) 0 memory.

Lemma nthz_bytes l i : Forall is_byte l -> is_byte (nthz l i).
Proof.
  intros H. unfold nthz. destruct (i <? 0); [unfold is_byte; lia|]. destruct (nth_in_or_default (Z.to_nat i) l 0) as [Hi| ->]; [|unfold is_byte; lia].
  rewrite Forall_forall in H. by apply H, list_elem_of_In.
Qed.

Lemma machine_entered : entered ra machine.
Proof.
  split.
  - vm_compute. reflexivity.
  - vm_compute. reflexivity.
  - intros r. vm_compute. split; [discriminate|reflexivity].
  - intros a. cbn [mem machine]. unfold memory. repeat (apply blit_bytes; [clear a; intros a|apply le_bytes32_bytes]).
    unfold exe_rom. assert (H : Forall is_byte out).
    { assert (Hb : forallb (fun b => (0 <=? b) && (b <? 256)) out = true) by (vm_compute; reflexivity).
      apply Forall_forall. intros b Hin%list_elem_of_In. rewrite forallb_forall in Hb. specialize (Hb b Hin). bool_hyps. unfold is_byte. lia. }
    by apply nthz_bytes.
  - vm_compute. intuition discriminate.
Qed.

Lemma machine_rom : in_rom (exe_rom out) CFG_USER_LOAD_BASE (CFG_USER_LOAD_BASE + text_size (pl_image at_)) machine.
Proof.
  intros a Ha. cbn [mem machine]. pose proof layout_ends. unfold memory. assert (csp = CFG_USER_LOAD_BASE + 4096) as -> by (vm_compute; reflexivity).
  rewrite !blit_out; [done|..]; rewrite le_bytes32_length; unfold frame_at, stack_at, CFG_USER_LOAD_BASE in *; lia.
Qed.

Lemma demo_exec : exists s, exec vars locals rho fp V (ty_return (o_ty (vars fn))) 30 body (entry_state [1] machine) = Some (Returned (Some 10), s).
Proof.
  assert (H : fst <$> exec vars locals rho fp V (ty_return (o_ty (vars fn))) 30 body (entry_state [1] machine) = Some (Returned (Some 10))).
  { vm_compute. reflexivity. }
  destruct (exec _ _ _ _ _ _ _ _ _) as [[f s]|]; [|done]. injection H as ->. by exists s.
Qed.
(** The loop on the processor. *)
Theorem compiled_function_correct_witness : exists s, runs size machine (returned ra (Some 10) s machine).
Proof.
  destruct demo_exec as [s Hs]. exists s.
  apply (@compiled_function_correct demo_layout before fn_obj code images out at_ body 30 (Returned (Some 10)) s ra machine demo_built demo_fits).
  - vm_compute. reflexivity.
  - vm_compute. reflexivity.
  - exact machine_rom.
  - exact machine_entered.
  - vm_compute. discriminate.
  - exact Hs.
  - discriminate.
Defined.

Theorem registers_allocated_witness : exists g', allocated 0 (cg_init program) g' /\ o_reg (objs g' 2) = 3 /\ ty_size (o_ty (program 2)) = 4.
Proof.
  pose (r := analyze_and_allocate 100 0 (cg_init program)).
  pose (g' := match r with Done _ g _ => g | Halt _ => cg_init program end). exists g'.
  destruct (registers_allocated 100 0 (cg_init program) g' []) as (_ & A & W).
  - vm_compute. reflexivity.
  - vm_compute. do 3 (apply NoDup_cons; split; [lit|]). apply NoDup_nil_2.
  - intros v. cbn. unfold program. repeat case_match; reflexivity.
  - intros v Hv. cbn in Hv |- *. unfold program in *. repeat case_match; try reflexivity. cbn in Hv. rewrite !elem_of_cons, elem_of_nil in Hv. naive_solver.
  - split; [exact A|]. split; [vm_compute; reflexivity|]. apply (W 2). vm_compute. discriminate.
Defined.

Theorem frame_laid_out_witness : exists g', assign_lvar_offsets 0 (cg_init program) = Done tt g' [] /\ frame_laid program 0 g'.
Proof.
  apply (frame_laid_out 0 (cg_init program)).
  - intros v. cbn. unfold program. repeat case_match; reflexivity.
  - intros v. cbn. unfold program. repeat case_match; reflexivity.
  - vm_compute. do 3 (apply NoDup_cons; split; [lit|]). apply NoDup_nil_2.
  - vm_compute. apply NoDup_singleton.
  - lit.
  - lit.
  - vm_compute. reflexivity.
Defined.
End Demo.
