(* ===== verification/CcHash.v ===== *)
(** * CcHash: the hash table of the compiler's front end ([upstream/hashmap.c])

    An open-addressing table with linear probing and tombstones; the front end keeps
    keywords, macros, scopes and pragma lists in such tables.  A key is the bytes it
    points to, which nobody changes while it is in a table; a value is a pointer, 0 for
    NULL.  [None] is the program's end at [unreachable] or a failed [assert]. *)

From stdpp Require Import gmap.
From S2P Require Import Prelude Config Kernel Klog RawMem UserMem LibString.

(** ** Data *)

(** [key] of an entry: NULL, [TOMBSTONE], or a string. *)
Inductive bucket_key := Empty | Tombstone | Key (s : list Z).
#[export] Instance bucket_key_eq_dec : EqDecision bucket_key.
Proof. solve_decision. Defined.

Record HashEntry := Build_HashEntry { he_key : bucket_key; he_val : Z }.

(** [buckets] is empty for NULL. *)
Record HashMap := Build_HashMap { hm_buckets : list HashEntry; hm_capacity : Z; hm_used : Z }.

Definition INIT_SIZE : Z := 16.
Definition HIGH_WATERMARK : Z := 70.
Definition LOW_WATERMARK : Z := 50.

(** [calloc] of a whole struct, and of buckets. *)
Definition new_map : HashMap := Build_HashMap [] 0 0.
Definition empty_buckets (cap : Z) : list HashEntry := replicate (Z.to_nat cap) (Build_HashEntry Empty 0).

(** ** Probing *)

Definition fnv_hash (s : list Z) : Z :=
  fold_left (fun hash c => Z.lxor (u32 (hash * 16777619)) c) s 2166136261.

(** The [i]-th bucket to look at. *)
Definition probe (cap : Z) (hash i : Z) : nat := Z.to_nat (u32 (hash + i) mod cap).

Definition match_ (ent : HashEntry) (key : list Z) : bool := bool_decide (he_key ent = Key key).
Definition is_empty (ent : HashEntry) : bool := bool_decide (he_key ent = Empty).
Definition is_tombstone (ent : HashEntry) : bool := bool_decide (he_key ent = Tombstone).
Definition is_key (ent : HashEntry) : bool := match he_key ent with Key _ => true | _ => false end.

(** The loop of [get_entry] from round [i] on; [n] rounds are left. *)
Fixpoint get_from (bs : list HashEntry) (cap hash : Z) (key : list Z) (n : nat) (i : Z) : option (option nat) :=
  match n with
  | O => None
  | S n =>
      ent ← bs !! probe cap hash i ;
      if match_ ent key then Some (Some (probe cap hash i))
      else if is_empty ent then Some None
      else get_from bs cap hash key n (i + 1)
  end.

Definition get_entry (map : HashMap) (key : list Z) : option (option nat) :=
  if bool_decide (hm_buckets map = []) then Some None
  else get_from (hm_buckets map) (hm_capacity map) (fnv_hash key) key (Z.to_nat (hm_capacity map)) 0.

(** The loop of [get_or_insert_entry]: the bucket it returns, with the key in it. *)
Fixpoint insert_from (map : HashMap) (hash : Z) (key : list Z) (n : nat) (i : Z) : option (HashMap * nat) :=
  let bs := hm_buckets map in
  match n with
  | O => None
  | S n =>
      let j := probe (hm_capacity map) hash i in
      ent ← bs !! j ;
      if match_ ent key then Some (map, j)
      else if is_tombstone ent then
        Some (Build_HashMap (<[j := Build_HashEntry (Key key) (he_val ent)]> bs) (hm_capacity map) (hm_used map), j)
      else if is_empty ent then
        Some (Build_HashMap (<[j := Build_HashEntry (Key key) (he_val ent)]> bs) (hm_capacity map) (hm_used map +! 1), j)
      else insert_from map hash key n (i + 1)
  end.

(** ** Rehashing *)

Fixpoint count_if (p : HashEntry -> bool) (bs : list HashEntry) : Z :=
  match bs with [] => 0 | e :: bs => b2z (p e) + count_if p bs end.
Definition count_keys : list HashEntry -> Z := count_if is_key.

(** [while ((nkeys * 100) / cap >= LOW_WATERMARK) cap = cap * 2]. *)
Fixpoint grow_capacity (fuel : nat) (nkeys cap : Z) : option Z :=
  match fuel with O => None | S fuel =>
  if cap =? 0 then None
  else if Z.quot (nkeys *! 100) cap >=? LOW_WATERMARK then grow_capacity fuel nkeys (cap *! 2) else Some cap
  end.

(** [put] is [hashmap_put2]. *)
Definition rehash (put : HashMap -> list Z -> Z -> option HashMap) (map : HashMap) : option HashMap :=
  let nkeys := count_keys (hm_buckets map) in
  cap ← grow_capacity 32 nkeys (hm_capacity map) ;
  if negb (cap >? 0) then None else
  map2 ← fold_left (fun m ent => m ← m ; match he_key ent with Key k => put m k (he_val ent) | _ => Some m end)
           (hm_buckets map) (Some (Build_HashMap (empty_buckets cap) cap 0)) ;
  if hm_used map2 =? nkeys then Some map2 else None.

(** The probing loop and [ent->val = val]. *)
Definition put_entry (map : HashMap) (key : list Z) (val : Z) : option HashMap :=
  '(map, j) ← insert_from map (fnv_hash key) key (Z.to_nat (hm_capacity map)) 0 ;
  Some (Build_HashMap (alter (fun e => Build_HashEntry (he_key e) val) j (hm_buckets map)) (hm_capacity map) (hm_used map)).

(** [rehash] comes back here for the new table, which it does not have to rehash. *)
Fixpoint hashmap_put2 (fuel : nat) (map : HashMap) (key : list Z) (val : Z) : option HashMap :=
  match fuel with O => None | S fuel =>
  map ← (if bool_decide (hm_buckets map = []) then Some (Build_HashMap (empty_buckets INIT_SIZE) INIT_SIZE (hm_used map))
         else if Z.quot (hm_used map *! 100) (hm_capacity map) >=? HIGH_WATERMARK then rehash (hashmap_put2 fuel) map
         else Some map) ;
  put_entry map key val
  end.

(** ** The interface *)

Definition hashmap_put (map : HashMap) (key : list Z) (val : Z) : option HashMap := hashmap_put2 2 map key val.

Definition hashmap_get2 (map : HashMap) (key : list Z) : option Z :=
  ent ← get_entry map key ;
  match ent with
  | Some j => e ← hm_buckets map !! j ; Some (he_val e)
  | None => Some 0
  end.

Definition hashmap_delete2 (map : HashMap) (key : list Z) : option HashMap :=
  ent ← get_entry map key ;
  Some (match ent with
        | Some j => Build_HashMap (alter (fun e => Build_HashEntry Tombstone (he_val e)) j (hm_buckets map)) (hm_capacity map) (hm_used map)
        | None => map
        end).

(** * the hash table is a finite map

    As long as no key is put that is in the table behind a tombstone, the table refines a
    finite map: lookups, insertions, deletions and rehashing do to it what they do to the
    map.  The example at the end shows that the condition is needed. *)

(** ** The order of probing *)

Section table.
(** The number of buckets, a power of two. *)
Context (cap : Z) (Hcap : 16 <= cap <= 2 ^ 24) (Hpow : 2 ^ 32 mod cap = 0).
#[local] Set Default Proof Using "Type*".

Lemma probe_mod hash i : probe cap hash i = Z.to_nat ((hash + i) mod cap).
Proof.
  unfold probe, u32. f_equal. apply Z.mod_divide in Hpow as [q Hq]; [|lia]. rewrite Hq. rewrite (Z.mul_comm q cap).
  rewrite Z.rem_mul_r by lia. rewrite Z.mul_comm, Z.mod_add by lia. by rewrite Z.mod_mod by lia.
Qed.

Lemma probe_lt hash i : (probe cap hash i < Z.to_nat cap)%nat.
Proof. rewrite probe_mod. pose proof (Z.mod_pos_bound (hash + i) cap ltac:(lia)). lia. Qed.

(** Every bucket is looked at. *)
Lemma probe_onto hash j : (j < Z.to_nat cap)%nat -> exists d, 0 <= d < cap /\ probe cap hash d = j.
Proof.
  intros Hj. exists ((Z.of_nat j - hash) mod cap). split; [apply Z.mod_pos_bound; lia|]. rewrite probe_mod.
  rewrite Zplus_mod_idemp_r. replace (hash + (Z.of_nat j - hash)) with (Z.of_nat j) by lia. rewrite Z.mod_small by lia. lia.
Qed.

Lemma probe_inj hash d e : 0 <= d < cap -> 0 <= e < cap -> probe cap hash d = probe cap hash e -> d = e.
Proof.
  rewrite !probe_mod. intros Hd He H. pose proof (Z.mod_pos_bound (hash + d) cap ltac:(lia)). pose proof (Z.mod_pos_bound (hash + e) cap ltac:(lia)).
  assert (E : (hash + d) mod cap = (hash + e) mod cap) by lia.
  pose proof (Z.div_mod (hash + d) cap ltac:(lia)). pose proof (Z.div_mod (hash + e) cap ltac:(lia)).
  assert ((hash + d) / cap = (hash + e) / cap) by nia. lia.
Qed.

(** ** Well-formed tables *)

Definition key_at (bs : list HashEntry) (j : nat) (k : list Z) (v : Z) : Prop := bs !! j = Some (Build_HashEntry (Key k) v).
Definition free_at (bs : list HashEntry) (j : nat) : Prop := exists v, bs !! j = Some (Build_HashEntry Empty v).

(** Between the place where the search for a key begins and the key no bucket is empty,
    and no key is there twice. *)
Record buckets_ok (bs : list HashEntry) : Prop := {
  bk_length : length bs = Z.to_nat cap;
  bk_path : forall j k v, key_at bs j k v ->
    exists d, 0 <= d < cap /\ probe cap (fnv_hash k) d = j /\ forall i, 0 <= i < d -> ~ free_at bs (probe cap (fnv_hash k) i);
  bk_once : forall j j' k v v', key_at bs j k v -> key_at bs j' k v' -> j = j';
  bk_room : exists j, free_at bs j;
}.

(** The map that the buckets stand for. *)
Definition stands_for (bs : list HashEntry) (M : gmap (list Z) Z) : Prop := forall k v, M !! k = Some v <-> exists j, key_at bs j k v.

Lemma free_lt bs j : buckets_ok bs -> free_at bs j -> (j < Z.to_nat cap)%nat.
Proof. intros B [v H]. rewrite <- (bk_length _ B). by eapply lookup_lt_Some. Qed.

(** What stops the search. *)
Lemma get_from_run bs key n : forall i, buckets_ok bs -> 0 <= i -> i + Z.of_nat n = cap ->
  match get_from bs cap (fnv_hash key) key n i with
  | Some (Some j) => exists d v, i <= d < cap /\ probe cap (fnv_hash key) d = j /\ key_at bs j key v
  | Some None => exists d, i <= d < cap /\ free_at bs (probe cap (fnv_hash key) d) /\
      forall x v, i <= x < d -> ~ key_at bs (probe cap (fnv_hash key) x) key v
  | None => forall x, i <= x < cap -> ~ free_at bs (probe cap (fnv_hash key) x)
  end.
Proof.
  induction n as [|n IH]; intros i B Hi Hn; cbn [get_from]; [intros x Hx; lia|].
  destruct (lookup_lt_is_Some_2 bs (probe cap (fnv_hash key) i)) as [[bk v] E].
  { rewrite (bk_length _ B). apply probe_lt. }
  rewrite E. cbn [mbind option_bind]. unfold match_, is_empty. cbn [he_key]. case_bool_decide as Hm.
  { exists i, v. split; [lia|]. split; [done|]. unfold key_at. by rewrite E, Hm. }
  case_bool_decide as He.
  { subst bk. exists i. split; [lia|]. split; [by exists v|]. intros x w Hx. lia. }
  specialize (IH (i + 1) B ltac:(lia) ltac:(lia)).
  destruct (get_from _ _ _ _ _ _) as [[j|]|].
  - destruct IH as (d & w & Hd & H1 & H2). exists d, w. split; [lia|done].
  - destruct IH as (d & Hd & Hf & Hx). exists d. split; [lia|]. split; [done|]. intros x w Hxd.
    destruct (decide (x = i)) as [->|Hne]; [|apply Hx; lia]. unfold key_at. rewrite E. intros [= H _]. done.
  - intros x Hx. destruct (decide (x = i)) as [->|Hne]; [|apply IH; lia]. intros [w Hw]. rewrite E in Hw. by injection Hw as -> _.
Qed.

(** A search that ends at an empty bucket: the key is not in the table. *)
Lemma absent bs key d : buckets_ok bs -> 0 <= d < cap -> free_at bs (probe cap (fnv_hash key) d) ->
  (forall x v, 0 <= x < d -> ~ key_at bs (probe cap (fnv_hash key) x) key v) -> forall j v, ~ key_at bs j key v.
Proof.
  intros B Hd [w Hf] Hx j v Hk. destruct (bk_path _ B j key v Hk) as (e & He & Hj & Hp).
  destruct (Z.lt_trichotomy d e) as [H|[-> |H]].
  - apply (Hp d); [lia|]. by exists w.
  - unfold key_at in Hk. by rewrite <- Hj, Hf in Hk.
  - apply (Hx e v); [lia|]. by rewrite Hj.
Qed.

Lemma search bs M key : buckets_ok bs -> stands_for bs M ->
  match get_from bs cap (fnv_hash key) key (Z.to_nat cap) 0 with
  | Some (Some j) => exists v, key_at bs j key v /\ M !! key = Some v
  | Some None => M !! key = None
  | None => False
  end.
Proof.
  intros B R. pose proof (get_from_run bs key (Z.to_nat cap) 0 B ltac:(lia) ltac:(lia)) as H.
  destruct (get_from _ _ _ _ _ _) as [[j|]|].
  - destruct H as (d & v & _ & _ & Hk). exists v. split; [done|]. apply R. eauto.
  - destruct H as (d & Hd & Hf & Hx). destruct (M !! key) as [v|] eqn:E; [|done]. apply R in E as [j Hk].
    by destruct (absent bs key d B Hd Hf Hx j v).
  - destruct (bk_room _ B) as [j Hj]. destruct (probe_onto (fnv_hash key) j (free_lt _ _ B Hj)) as (d & Hd & <-). by destruct (H d Hd).
Qed.

(** ** Insertion *)

(** A key is written to the bucket that the search for it ends at. *)
Lemma set_key bs M j bk w key v :
  buckets_ok bs -> stands_for bs M -> bs !! j = Some (Build_HashEntry bk w) ->
  bk = Key key \/ ((forall k, bk <> Key k) /\ M !! key = None /\
    exists d, 0 <= d < cap /\ probe cap (fnv_hash key) d = j /\ forall x, 0 <= x < d -> ~ free_at bs (probe cap (fnv_hash key) x)) ->
  (exists i, free_at (<[j := Build_HashEntry (Key key) v]> bs) i) ->
  buckets_ok (<[j := Build_HashEntry (Key key) v]> bs) /\ stands_for (<[j := Build_HashEntry (Key key) v]> bs) (<[key := v]> M).
Proof.
  intros B R Hj Hkey Hroom. set (bs' := <[j := _]> bs) in *. assert (Hlt : (j < length bs)%nat) by (by eapply lookup_lt_Some).
  assert (Hsame : bs' !! j = Some (Build_HashEntry (Key key) v)) by (unfold bs'; by apply list_lookup_insert_eq).
  assert (Hother : forall i, i <> j -> bs' !! i = bs !! i) by (intros i Hi; unfold bs'; by apply list_lookup_insert_ne).
  assert (Hfree : forall i, free_at bs' i -> free_at bs i).
  { intros i [x Hx]. destruct (decide (i = j)) as [->|Hi]; [by rewrite Hsame in Hx|]. exists x. by rewrite <- Hother. }
  (* Where the key was before, if anywhere. *)
  assert (Hold : forall i x, key_at bs i key x -> i = j).
  { intros i x Hx. destruct Hkey as [->|(_ & Hnone & _)]; [by eapply (bk_once _ B)|].
    assert (M !! key = Some x) by (apply R; eauto). congruence. }
  assert (Hcase : forall i k x, key_at bs' i k x -> (i = j /\ k = key /\ x = v) \/ (i <> j /\ k <> key /\ key_at bs i k x)).
  { intros i k x Hx. unfold key_at in Hx. destruct (decide (i = j)) as [->|Hi]; [left; rewrite Hsame in Hx; by injection Hx|].
    rewrite Hother in Hx by done. right. split; [done|]. split; [|done]. intros ->. by apply Hi, (Hold i x). }
  split; [split|].
  - unfold bs'. rewrite length_insert. apply (bk_length _ B).
  - intros i k x Hx. destruct (Hcase i k x Hx) as [(-> & -> & ->)|(Hi & _ & Hk)].
    + assert (exists d, 0 <= d < cap /\ probe cap (fnv_hash key) d = j /\ forall x, 0 <= x < d -> ~ free_at bs (probe cap (fnv_hash key) x)) as (d & Hd & Hp & Hx').
      { destruct Hkey as [->|(_ & _ & H)]; [by apply (bk_path _ B j key w)|done]. }
      exists d. split; [done|]. split; [done|]. intros y Hy Hf. by apply (Hx' y Hy), Hfree.
    + destruct (bk_path _ B i k x Hk) as (d & Hd & Hp & Hx'). exists d. split; [done|]. split; [done|]. intros y Hy Hf. by apply (Hx' y Hy), Hfree.
  - intros i i' k x x' H1 H2. destruct (Hcase _ _ _ H1) as [(-> & -> & _)|(_ & Hk1 & K1)], (Hcase _ _ _ H2) as [(-> & E & _)|(_ & Hk2 & K2)];
      try congruence. by eapply (bk_once _ B).
  - exact Hroom.
  - intros k x. destruct (decide (k = key)) as [->|Hk].
    + rewrite lookup_insert_eq. split; [intros [= <-]; by exists j|]. intros [i Hi]. destruct (Hcase _ _ _ Hi) as [(_ & _ & ->)|(_ & H & _)]; done.
    + rewrite lookup_insert_ne by done. rewrite (R k x). split; intros [i Hi].
      * exists i. unfold key_at. rewrite Hother; [done|]. intros ->. unfold key_at in Hi. rewrite Hj in Hi. injection Hi as -> _.
        destruct Hkey as [E|(H & _)]; [by injection E|by destruct (H k)].
      * destruct (Hcase _ _ _ Hi) as [(_ & -> & _)|(_ & _ & K)]; [done|]. by exists i.
Qed.

Lemma insert_from_run m key n : forall i, hm_capacity m = cap -> buckets_ok (hm_buckets m) -> 0 <= i -> i + Z.of_nat n = cap ->
  match insert_from m (fnv_hash key) key n i with
  | Some (m', j) => exists d bk w, i <= d < cap /\ probe cap (fnv_hash key) d = j /\ hm_buckets m !! j = Some (Build_HashEntry bk w) /\
      (forall x, i <= x < d -> ~ free_at (hm_buckets m) (probe cap (fnv_hash key) x) /\
        forall v, ~ key_at (hm_buckets m) (probe cap (fnv_hash key) x) key v) /\
      m' = Build_HashMap (<[j := Build_HashEntry (Key key) w]> (hm_buckets m)) cap (if bool_decide (bk = Empty) then hm_used m +! 1 else hm_used m) /\
      (bk = Key key \/ bk = Tombstone \/ bk = Empty)
  | None => forall x, i <= x < cap -> ~ free_at (hm_buckets m) (probe cap (fnv_hash key) x)
  end.
Proof.
  induction n as [|n IH]; intros i Hc B Hi Hn; cbn [insert_from]; [intros x Hx; lia|]. rewrite Hc.
  set (bs := hm_buckets m) in *. set (j := probe cap (fnv_hash key) i).
  destruct (lookup_lt_is_Some_2 bs j) as [[bk w] E]; [rewrite (bk_length _ B); apply probe_lt|].
  rewrite E. cbn [mbind option_bind]. unfold match_, is_empty, is_tombstone. cbn [he_key he_val].
  assert (Hnow : forall m', m' = Build_HashMap (<[j := Build_HashEntry (Key key) w]> bs) cap (if bool_decide (bk = Empty) then hm_used m +! 1 else hm_used m) ->
    bk = Key key \/ bk = Tombstone \/ bk = Empty -> exists d bk w, i <= d < cap /\ probe cap (fnv_hash key) d = j /\ bs !! j = Some (Build_HashEntry bk w) /\
      (forall x, i <= x < d -> ~ free_at bs (probe cap (fnv_hash key) x) /\ forall v, ~ key_at bs (probe cap (fnv_hash key) x) key v) /\
      m' = Build_HashMap (<[j := Build_HashEntry (Key key) w]> bs) cap (if bool_decide (bk = Empty) then hm_used m +! 1 else hm_used m) /\
      (bk = Key key \/ bk = Tombstone \/ bk = Empty)).
  { intros m' Em Hbk. exists i, bk, w. split; [lia|]. split; [done|]. split; [done|]. split; [intros x Hx; lia|done]. }
  destruct (bool_decide_reflect (bk = Key key)) as [Hm|Hm]; [apply Hnow; [|by left]|].
  { subst bk. rewrite bool_decide_false by done. destruct m as [b c u]. cbn in *. subst c. f_equal. unfold bs. by rewrite list_insert_id. }
  destruct (bool_decide_reflect (bk = Tombstone)) as [Ht|Ht]; [apply Hnow; [|by right; left]|].
  { subst bk. rewrite bool_decide_false by done. done. }
  destruct (bool_decide_reflect (bk = Empty)) as [He|He]; [apply Hnow; [|by right; right]|].
  { by subst bk. }
  specialize (IH (i + 1) Hc B ltac:(lia) ltac:(lia)).
  assert (Hhere : ~ free_at bs (probe cap (fnv_hash key) i) /\ forall v, ~ key_at bs (probe cap (fnv_hash key) i) key v).
  { fold j. split; [intros [x Hx]; rewrite E in Hx; by injection Hx as ->|]. intros v Hv. unfold key_at in Hv. rewrite E in Hv. by injection Hv as ->. }
  destruct (insert_from _ _ _ _ _) as [[m' j']|].
  - destruct IH as (d & bk' & w' & Hd & H1 & H2 & H3 & H4). exists d, bk', w'. split; [lia|]. split; [done|]. split; [done|]. split; [|done].
    intros x Hx. destruct (decide (x = i)) as [->|Hne]; [done|]. apply H3. lia.
  - intros x Hx. destruct (decide (x = i)) as [->|Hne]; [apply Hhere|]. apply IH. lia.
Qed.
End table.

(** ** Counting *)

Definition count_used : list HashEntry -> Z := count_if (fun e => negb (is_empty e)).

Lemma b2z_range b : 0 <= b2z b <= 1.
Proof. destruct b; cbn; lia. Qed.

Lemma count_if_range p bs : 0 <= count_if p bs <= Z.of_nat (length bs).
Proof. induction bs as [|e bs IH]; cbn [count_if length]; [lia|]. pose proof (b2z_range (p e)). lia. Qed.

Lemma count_if_set p bs j e e' : bs !! j = Some e ->
  count_if p (<[j := e']> bs) = count_if p bs - b2z (p e) + b2z (p e').
Proof.
  revert j. induction bs as [|x bs IH]; intros [|j] H; [done..| |].
  - injection H as ->. cbn. lia.
  - specialize (IH j H). change (<[S j:=e']> (x :: bs)) with (x :: <[j:=e']> bs). cbn [count_if]. lia.
Qed.

Lemma count_used_room bs : count_used bs < Z.of_nat (length bs) -> exists j, free_at bs j.
Proof.
  unfold count_used. induction bs as [|[bk v] bs IH]; cbn [count_if length]; [lia|]. unfold is_empty at 1. cbn [he_key].
  destruct (bool_decide_reflect (bk = Empty)) as [->|Hb]; [intros _; by exists 0%nat, v|]. cbn [negb b2z]. intros H.
  destruct IH as [j [w Hj]]; [lia|]. by exists (S j), w.
Qed.

(** A table that stands for a finite map. *)
Record map_ok (m : HashMap) (M : gmap (list Z) Z) : Prop := {
  mo_cap : exists k, 4 <= k <= 24 /\ hm_capacity m = 2 ^ k;
  mo_buckets : buckets_ok (hm_capacity m) (hm_buckets m);
  mo_map : stands_for (hm_buckets m) M;
  mo_used : hm_used m = count_used (hm_buckets m);
}.

Lemma pow_cap cap : (exists k, 4 <= k <= 24 /\ cap = 2 ^ k) -> 16 <= cap <= 2 ^ 24 /\ 2 ^ 32 mod cap = 0.
Proof.
  intros (k & Hk & ->). split.
  - pose proof (Z.pow_le_mono_r 2 4 k ltac:(lia) ltac:(lia)). pose proof (Z.pow_le_mono_r 2 k 24 ltac:(lia) ltac:(lia)). lia.
  - replace 32 with (32 - k + k) by lia. rewrite Z.pow_add_r by lia. apply Z.mod_mul. pose proof (Z.pow_pos_nonneg 2 k). lia.
Qed.

(** The key is not in the table behind a tombstone. *)
Definition no_tombstones (bs : list HashEntry) : Prop := forall j v, bs !! j <> Some (Build_HashEntry Tombstone v).

Lemma put_run m M key v :
  map_ok m M -> count_used (hm_buckets m) + 1 < hm_capacity m -> M !! key = None \/ no_tombstones (hm_buckets m) ->
  exists m' j, insert_from m (fnv_hash key) key (Z.to_nat (hm_capacity m)) 0 = Some (m', j) /\
    let m'' := Build_HashMap (alter (fun e => Build_HashEntry (he_key e) v) j (hm_buckets m')) (hm_capacity m') (hm_used m') in
    map_ok m'' (<[key := v]> M) /\ hm_capacity m'' = hm_capacity m /\
    (no_tombstones (hm_buckets m) -> no_tombstones (hm_buckets m'')) /\
    count_used (hm_buckets m'') <= count_used (hm_buckets m) + 1 /\
    (no_tombstones (hm_buckets m) -> M !! key = None -> hm_used m'' = hm_used m + 1).
Proof.
  intros [Hk B R Hu] Hroom Hside. set (cap := hm_capacity m) in *. destruct (pow_cap cap Hk) as [Hc Hp]. set (bs := hm_buckets m) in *.
  pose proof (insert_from_run cap Hc Hp m key (Z.to_nat cap) 0 eq_refl B ltac:(lia) ltac:(lia)) as H.
  destruct (insert_from _ _ _ _ _) as [[m' j]|]; [|].
  2:{ exfalso. destruct (bk_room _ _ B) as [j Hj]. destruct (probe_onto cap Hc Hp (fnv_hash key) j (free_lt cap Hc Hp bs j B Hj)) as (d & Hd & <-). by destruct (H d Hd). }
  destruct H as (d & bk & w & Hd & Hj & Ej & Hx & -> & Hbk). fold bs in Ej, Hx. eexists _, j. split; [reflexivity|]. cbv zeta. cbn [hm_buckets hm_capacity hm_used].
  assert (Hlt : (j < length bs)%nat) by (by eapply lookup_lt_Some).
  assert (Ealt : alter (fun e => Build_HashEntry (he_key e) v) j (<[j := Build_HashEntry (Key key) w]> bs) = <[j := Build_HashEntry (Key key) v]> bs).
  { apply list_eq. intros i. destruct (decide (i = j)) as [->|Hi].
    - rewrite list_lookup_alter_eq, !list_lookup_insert_eq by done. done.
    - rewrite list_lookup_alter_ne, !list_lookup_insert_ne by done. done. }
  fold bs. rewrite Ealt. pose proof (count_if_set (fun e => negb (is_empty e)) bs j _ (Build_HashEntry (Key key) v) Ej) as Hcount.
  unfold is_empty in Hcount. cbn [he_key] in Hcount. fold is_empty in Hcount. change (count_if _) with count_used in Hcount.
  assert (Hcu : count_used (<[j := Build_HashEntry (Key key) v]> bs) = count_used bs + b2z (bool_decide (bk = Empty))).
  { rewrite Hcount. destruct Hbk as [-> |[-> | ->]]; repeat case_bool_decide; try done; cbn [negb b2z]; lia. }
  assert (Hb2 : 0 <= b2z (bool_decide (bk = Empty)) <= 1) by (case_bool_decide; cbn; lia).
  assert (Hlen : Z.of_nat (length (<[j := Build_HashEntry (Key key) v]> bs)) = cap) by (rewrite length_insert, (bk_length _ _ B); lia).
  assert (Hused : 0 <= count_used bs) by (apply count_if_range).
  assert (Hkey : bk = Key key \/ ((forall k, bk <> Key k) /\ M !! key = None /\
    exists d, 0 <= d < cap /\ probe cap (fnv_hash key) d = j /\ forall x, 0 <= x < d -> ~ free_at bs (probe cap (fnv_hash key) x))).
  { destruct Hbk as [Hbk|Hbk]; [by left|]. right. split; [by destruct Hbk as [-> | ->]|]. split.
    - destruct Hbk as [Hbk|Hbk].
      + destruct Hside as [Hs|Hs]; [done|]. subst bk. by destruct (Hs j w).
      + destruct (M !! key) as [x|] eqn:E; [|done]. apply R in E as [i Hi]. exfalso.
        apply (absent cap Hc Hp bs key d B) with (j := i) (v := x); [lia|rewrite Hj; exists w; by rewrite Ej, Hbk| |done].
        intros y u Hy. apply (Hx y Hy).
    - exists d. split; [lia|]. split; [done|]. intros x Hxd. apply (Hx x Hxd). }
  destruct (set_key cap Hc Hp bs M j bk w key v B R Ej Hkey) as [B' R'].
  { apply count_used_room. lia. }
  split; [split; try done|].
  - cbn. rewrite Hcu, Hu. case_bool_decide; cbn; [|lia]. apply i32_id. unfold is_i32. lia.
  - split; [done|]. split; [|split; [lia|]].
    + intros Hn i x Hi. destruct (decide (i = j)) as [->|Hne]; [by rewrite list_lookup_insert_eq in Hi|].
      rewrite list_lookup_insert_ne in Hi by done. by apply (Hn i x).
    + intros Hn Hnone. assert (bk = Empty) as ->.
      { destruct Hbk as [-> |[-> | ->]]; [|by destruct (Hn j w)|done]. assert (M !! key = Some w) by (apply R; eauto). congruence. }
      rewrite bool_decide_true by done. apply i32_id. unfold is_i32. lia.
Qed.

(** ** Growing *)

Lemma empty_ok cap : (exists k, 4 <= k <= 24 /\ cap = 2 ^ k) ->
  map_ok (Build_HashMap (empty_buckets cap) cap 0) ∅ /\ no_tombstones (empty_buckets cap) /\ count_used (empty_buckets cap) = 0.
Proof.
  intros Hk. destruct (pow_cap cap Hk) as [Hc _].
  assert (Hl : forall j e, empty_buckets cap !! j = Some e -> e = Build_HashEntry Empty 0).
  { intros j e H. by apply lookup_replicate in H as [-> _]. }
  assert (Hu : count_used (empty_buckets cap) = 0).
  { unfold count_used, empty_buckets. induction (Z.to_nat cap) as [|n IH]; [done|]. cbn [replicate count_if]. by rewrite IH. }
  split; [split; cbn; try done|split; [|done]].
  - split.
    + apply length_replicate.
    + intros j k v H. by apply Hl in H.
    + intros j j' k v v' H. by apply Hl in H.
    + exists 0%nat, 0. apply lookup_replicate. split; [done|lia].
  - intros k v. rewrite lookup_empty. split; [done|]. intros [j H]. by apply Hl in H.
  - intros j v H. by apply Hl in H.
Qed.

Lemma keys_used bs : count_keys bs <= count_used bs.
Proof.
  unfold count_keys, count_used. induction bs as [|[bk v] bs IH]; cbn [count_if]; [lia|]. unfold is_key at 1, is_empty at 1. cbn [he_key].
  destruct bk; repeat case_bool_decide; try done; cbn [negb b2z]; lia.
Qed.

Lemma grow_run nkeys cap fuel : 16 <= cap <= 2 ^ 23 -> 0 <= nkeys < cap ->
  exists c, grow_capacity (S (S fuel)) nkeys cap = Some c /\ (c = cap \/ c = 2 * cap) /\ 2 * nkeys < c.
Proof.
  intros Hc Hn. cbn [grow_capacity]. rewrite (proj2 (Z.eqb_neq cap 0)) by lia.
  rewrite (i32_id (nkeys * 100)) by (unfold is_i32; lia). rewrite Z.quot_div_nonneg by lia.
  pose proof (Z.div_mod (nkeys * 100) cap ltac:(lia)). pose proof (Z.mod_pos_bound (nkeys * 100) cap ltac:(lia)).
  unfold LOW_WATERMARK. destruct (Z.leb_spec 50 (nkeys * 100 / cap)) as [H1|H1]; [|exists cap; split; [done|split; [by left|nia]]].
  rewrite (i32_id (cap * 2)) by (unfold is_i32; lia). rewrite (proj2 (Z.eqb_neq (cap * 2) 0)) by lia. rewrite Z.quot_div_nonneg by lia.
  pose proof (Z.div_mod (nkeys * 100) (cap * 2) ltac:(lia)). pose proof (Z.mod_pos_bound (nkeys * 100) (cap * 2) ltac:(lia)).
  destruct (Z.leb_spec 50 (nkeys * 100 / (cap * 2))) as [G2|G2]; [nia|]. exists (cap * 2). split; [done|]. split; [right; lia|nia].
Qed.

Lemma put2_S fuel map key val : hashmap_put2 (S fuel) map key val =
  map ← (if bool_decide (hm_buckets map = []) then Some (Build_HashMap (empty_buckets INIT_SIZE) INIT_SIZE (hm_used map))
         else if Z.quot (hm_used map *! 100) (hm_capacity map) >=? HIGH_WATERMARK then rehash (hashmap_put2 fuel) map
         else Some map) ;
  put_entry map key val.
Proof. done. Qed.

(** A put into a table that is not to be rehashed. *)
Lemma put2_step fuel m M key v :
  map_ok m M -> 100 * count_used (hm_buckets m) < 70 * hm_capacity m -> M !! key = None \/ no_tombstones (hm_buckets m) ->
  exists m', put_entry m key v = Some m' /\ hashmap_put2 (S fuel) m key v = Some m' /\ map_ok m' (<[key := v]> M) /\ hm_capacity m' = hm_capacity m /\
    (no_tombstones (hm_buckets m) -> no_tombstones (hm_buckets m')) /\ count_used (hm_buckets m') <= count_used (hm_buckets m) + 1 /\
    (no_tombstones (hm_buckets m) -> M !! key = None -> hm_used m' = hm_used m + 1).
Proof.
  intros Hok Hroom Hside. destruct (pow_cap _ (mo_cap _ _ Hok)) as [Hc _].
  destruct (put_run m M key v Hok ltac:(lia) Hside) as (m' & j & E & H).
  assert (Hne : hm_buckets m <> []) by (destruct (bk_room _ _ (mo_buckets _ _ Hok)) as [i [w Hw]]; intros E0; by rewrite E0 in Hw).
  pose proof (mo_used _ _ Hok) as Hu. pose proof (count_if_range (fun e => negb (is_empty e)) (hm_buckets m)) as Hr. fold count_used in Hr. change (count_if _ (hm_buckets m)) with (count_used (hm_buckets m)) in Hr.
  assert (E' : put_entry m key v = Some (Build_HashMap (alter (fun e => Build_HashEntry (he_key e) v) j (hm_buckets m')) (hm_capacity m') (hm_used m'))).
  { unfold put_entry. by rewrite E. }
  eexists. split; [exact E'|]. split; [|exact H]. rewrite put2_S. rewrite bool_decide_false by done.
  rewrite Hu, (i32_id (count_used (hm_buckets m) * 100)) by (unfold is_i32; lia). rewrite Z.quot_div_nonneg by lia.
  pose proof (Z.div_mod (count_used (hm_buckets m) * 100) (hm_capacity m) ltac:(lia)). pose proof (Z.mod_pos_bound (count_used (hm_buckets m) * 100) (hm_capacity m) ltac:(lia)).
  unfold HIGH_WATERMARK. destruct (Z.leb_spec 70 (count_used (hm_buckets m) * 100 / hm_capacity m)); [nia|].
  exact E'.
Qed.

Lemma stands_for_unique bs M M' : stands_for bs M -> stands_for bs M' -> M = M'.
Proof. intros R R'. apply map_eq. intros k. apply option_eq. intros v. by rewrite (R k v), (R' k v). Qed.

Lemma count_if_app p bs bs' : count_if p (bs ++ bs') = count_if p bs + count_if p bs'.
Proof. induction bs as [|e bs IH]; [done|]. cbn [app count_if]. lia. Qed.

Definition put_all (put : HashMap -> list Z -> Z -> option HashMap) (es : list HashEntry) (m : option HashMap) : option HashMap :=
  fold_left (fun m ent => m ← m ; match he_key ent with Key k => put m k (he_val ent) | _ => Some m end) es m.

(** The copy loop of [rehash], behind the buckets [ds]. *)
Lemma rehash_copy_run fuel bs cap es : forall ds m M,
  bs = ds ++ es -> (forall j j' k v v', key_at bs j k v -> key_at bs j' k v' -> j = j') ->
  map_ok m M -> no_tombstones (hm_buckets m) -> hm_capacity m = cap -> hm_used m = count_keys ds ->
  (forall k v, M !! k = Some v <-> exists j, (j < length ds)%nat /\ key_at bs j k v) -> 2 * count_keys bs < cap ->
  exists m' M', put_all (hashmap_put2 (S fuel)) es (Some m) = Some m' /\ map_ok m' M' /\ no_tombstones (hm_buckets m') /\
    hm_capacity m' = cap /\ hm_used m' = count_keys bs /\ stands_for bs M'.
Proof.
  induction es as [|[bk v] es IH]; intros ds m M Hbs Honce Hok Hnt Hc Hu HM Hn.
  { rewrite app_nil_r in Hbs. subst ds. exists m, M. repeat (split; [done|]). intros k w. rewrite HM. split; intros [j Hj]; [exists j; apply Hj|].
    exists j. split; [|done]. by eapply lookup_lt_Some. }
  assert (Hhere : bs !! length ds = Some (Build_HashEntry bk v)) by (rewrite Hbs; by rewrite lookup_app_r, Nat.sub_diag by lia).
  assert (Hds : bs = (ds ++ [Build_HashEntry bk v]) ++ es) by (by rewrite <- app_assoc).
  assert (Hlen : length (ds ++ [Build_HashEntry bk v]) = S (length ds)) by (rewrite length_app; cbn; lia).
  assert (Hcnt : count_keys (ds ++ [Build_HashEntry bk v]) = count_keys ds + b2z (is_key (Build_HashEntry bk v))).
  { unfold count_keys. rewrite count_if_app. cbn [count_if]. lia. }
  unfold put_all. cbn [fold_left mbind option_bind he_key he_val]. fold (put_all (hashmap_put2 (S fuel)) es).
  assert (Hskip : (forall k, bk <> Key k) -> b2z (is_key (Build_HashEntry bk v)) = 0 ->
    exists m' M', put_all (hashmap_put2 (S fuel)) es (Some m) = Some m' /\ map_ok m' M' /\ no_tombstones (hm_buckets m') /\
      hm_capacity m' = cap /\ hm_used m' = count_keys bs /\ stands_for bs M').
  { intros Hk H0. apply (IH (ds ++ [Build_HashEntry bk v]) m M); try done; [lia|]. intros k w. rewrite HM, Hlen. split; intros (j & Hj & Hkj).
    - exists j. split; [lia|done].
    - exists j. split; [|done]. destruct (decide (j = length ds)) as [->|Hne]; [|lia]. unfold key_at in Hkj. rewrite Hhere in Hkj. injection Hkj as -> _. by destruct (Hk k). }
  destruct bk as [| |k]; [apply Hskip; done..|]. clear Hskip.
  pose proof (mo_used _ _ Hok) as Hu'. destruct (pow_cap _ (mo_cap _ _ Hok)) as [Hcm _].
  assert (Hle : count_keys ds + 1 <= count_keys bs).
  { assert (count_keys bs = count_keys (ds ++ [Build_HashEntry (Key k) v]) + count_keys es) as -> by (rewrite Hds; apply count_if_app).
    rewrite Hcnt. pose proof (count_if_range is_key es) as He. change (count_if is_key es) with (count_keys es) in He. cbn [is_key he_key b2z]. lia. }
  assert (Hnone : M !! k = None).
  { destruct (M !! k) as [w|] eqn:E; [|done]. apply HM in E as (j & Hj & Hkj). pose proof (Honce _ _ _ _ _ Hkj Hhere). lia. }
  destruct (put2_step fuel m M k v Hok) as (m1 & _ & E1 & Hok1 & Hc1 & Hnt1 & _ & Hu1); [lia|by left|].
  rewrite E1. apply (IH (ds ++ [Build_HashEntry (Key k) v]) m1 (<[k := v]> M)); try done; [by apply Hnt1|congruence| |].
  - rewrite Hu1 by done. rewrite Hcnt, Hu. done.
  - intros k' w. rewrite Hlen. destruct (decide (k' = k)) as [->|Hne].
    + rewrite lookup_insert_eq. split; [intros [= <-]; exists (length ds); split; [lia|done]|]. intros (j & _ & Hkj).
      pose proof (Honce _ _ _ _ _ Hkj Hhere) as ->. unfold key_at in Hkj. rewrite Hhere in Hkj. by injection Hkj as ->.
    + rewrite lookup_insert_ne by done. rewrite HM. split; intros (j & Hj & Hkj); exists j; (split; [|done]); [lia|].
      destruct (decide (j = length ds)) as [->|]; [|lia]. unfold key_at in Hkj. rewrite Hhere in Hkj. by injection Hkj as E _.
Qed.

Lemma rehash_run fuel m M : map_ok m M -> hm_capacity m <= 2 ^ 23 ->
  exists m', rehash (hashmap_put2 (S fuel)) m = Some m' /\ map_ok m' M /\ no_tombstones (hm_buckets m') /\
    (hm_capacity m' = hm_capacity m \/ hm_capacity m' = 2 * hm_capacity m) /\ 2 * count_used (hm_buckets m') < hm_capacity m'.
Proof.
  intros Hok Hb. pose proof Hok as [Hk B R Hu]. destruct (pow_cap _ Hk) as [Hc _].
  pose proof (count_if_range is_key (hm_buckets m)) as Hr. change (count_if is_key (hm_buckets m)) with (count_keys (hm_buckets m)) in Hr.
  rewrite (bk_length _ _ B) in Hr. rewrite Z2Nat.id in Hr by lia.
  assert (Hlt : count_keys (hm_buckets m) < hm_capacity m).
  { destruct (bk_room _ _ B) as [j [w Hj]]. pose proof (count_if_set is_key _ _ _ (Build_HashEntry (Key []) 0) Hj) as E. cbn [is_key he_key b2z] in E.
    pose proof (count_if_range is_key (<[j := Build_HashEntry (Key []) 0]> (hm_buckets m))) as Hr'. rewrite length_insert, (bk_length _ _ B) in Hr'.
    change (count_if is_key (hm_buckets m)) with (count_keys (hm_buckets m)) in E. lia. }
  destruct (grow_run (count_keys (hm_buckets m)) (hm_capacity m) 30 ltac:(lia) ltac:(lia)) as (c & Eg & Hcc & Hn).
  assert (Hkc : exists k, 4 <= k <= 24 /\ c = 2 ^ k).
  { destruct Hk as (k & Hk & E). destruct Hcc as [-> | ->]; [by exists k|]. exists (k + 1). split; [|rewrite E, Z.pow_add_r; lia].
    destruct (decide (k = 24)) as [->|]; [rewrite E in Hb; lia|lia]. }
  destruct (empty_ok c Hkc) as (Hok0 & Hnt0 & _).
  destruct (rehash_copy_run fuel (hm_buckets m) c (hm_buckets m) [] (Build_HashMap (empty_buckets c) c 0) ∅) as (m' & M' & E & Hok' & Hnt' & Hc' & Hu' & R'); try done.
  { apply (bk_once _ _ B). }
  { intros k v. rewrite lookup_empty. split; [done|]. intros (j & Hj & _). cbn in Hj. lia. }
  exists m'. unfold rehash. rewrite Eg. cbn [mbind option_bind]. destruct (pow_cap c Hkc) as [Hc2 _].
  rewrite (proj2 (Z.ltb_lt 0 c)) by lia. cbn [negb]. unfold put_all in E. cbn [mbind option_bind] in E. rewrite E. cbn [mbind option_bind].
  rewrite Hu', Z.eqb_refl. split; [done|]. rewrite (stands_for_unique _ _ _ R R'). split; [done|]. split; [done|]. split; [by rewrite Hc'; destruct Hcc; [left|right]|].
  rewrite <- (mo_used _ _ Hok'), Hu', Hc'. lia.
Qed.

(** ** Deletion *)

Lemma delete_ok m M j key v : map_ok m M -> key_at (hm_buckets m) j key v ->
  map_ok (Build_HashMap (alter (fun e => Build_HashEntry Tombstone (he_val e)) j (hm_buckets m)) (hm_capacity m) (hm_used m)) (delete key M).
Proof.
  intros [Hk B R Hu] Hj. destruct (pow_cap _ Hk) as [Hc _]. set (bs := hm_buckets m) in *. set (bs' := alter _ j bs).
  assert (Ej : bs' !! j = Some (Build_HashEntry Tombstone v)) by (unfold bs'; by rewrite list_lookup_alter_eq, Hj).
  assert (Eo : forall i, i <> j -> bs' !! i = bs !! i) by (intros i Hi; unfold bs'; by apply list_lookup_alter_ne).
  assert (Hcase : forall i k x, key_at bs' i k x <-> key_at bs i k x /\ i <> j).
  { intros i k x. unfold key_at. destruct (decide (i = j)) as [->|Hi]; [rewrite Ej; split; [done|by intros [_ H]]|]. rewrite Eo by done. naive_solver. }
  assert (Hfree : forall i, free_at bs' i -> free_at bs i).
  { intros i [x Hx]. destruct (decide (i = j)) as [->|Hi]; [by rewrite Ej in Hx|]. exists x. by rewrite <- Eo. }
  split; cbn; try done; [split|..].
  - unfold bs'. rewrite length_alter. apply (bk_length _ _ B).
  - intros i k x [Hx _]%Hcase. destruct (bk_path _ _ B i k x Hx) as (d & Hd & Hp & Hf). exists d. repeat (split; [done|]). intros y Hy Hy'. by apply (Hf y Hy), Hfree.
  - intros i i' k x x' [H1 _]%Hcase [H2 _]%Hcase. by eapply (bk_once _ _ B).
  - destruct (bk_room _ _ B) as [i [x Hx]]. exists i, x. rewrite Eo; [done|]. intros ->. unfold key_at in Hj. by rewrite Hx in Hj.
  - intros k x. destruct (decide (k = key)) as [->|Hne].
    + rewrite lookup_delete_eq. split; [done|]. intros (i & [Hi Hij]%Hcase). destruct Hij. by eapply (bk_once _ _ B).
    + rewrite lookup_delete_ne by done. rewrite (R k x). split; intros [i Hi].
      * exists i. apply Hcase. split; [done|]. intros ->. unfold key_at in Hi, Hj. rewrite Hj in Hi. by injection Hi as E _.
      * apply Hcase in Hi as [Hi _]. by exists i.
  - rewrite Hu. unfold bs'. assert (alter (fun e => Build_HashEntry Tombstone (he_val e)) j bs = <[j := Build_HashEntry Tombstone v]> bs) as ->.
    { apply list_eq. intros i. assert (j < length bs)%nat by (by eapply lookup_lt_Some). destruct (decide (i = j)) as [->|Hi].
      - by rewrite list_lookup_alter_eq, list_lookup_insert_eq, Hj by done.
      - by rewrite list_lookup_alter_ne, list_lookup_insert_ne by done. }
    unfold count_used. rewrite (count_if_set _ _ _ _ _ Hj). unfold is_empty. cbn [he_key]. rewrite !bool_decide_false by done. cbn [negb b2z]. lia.
Qed.

(** ** The interface *)

(** The table stands for [M]; a table that nothing was put in has no buckets. *)
Definition represents (m : HashMap) (M : gmap (list Z) Z) : Prop :=
  (hm_buckets m = [] /\ hm_used m = 0 /\ M = ∅) \/ map_ok m M.

Lemma entry_run m M key : represents m M ->
  exists r, get_entry m key = Some r /\
    match r with Some j => exists v, key_at (hm_buckets m) j key v /\ M !! key = Some v | None => M !! key = None end.
Proof.
  intros [(Hb & _ & ->)|Hok]; unfold get_entry.
  - exists None. by rewrite bool_decide_true.
  - pose proof Hok as [Hk B R Hu]. destruct (pow_cap _ Hk) as [Hc Hp].
    rewrite bool_decide_false; [|destruct (bk_room _ _ B) as [i [w Hw]]; intros E; by rewrite E in Hw].
    pose proof (search _ Hc Hp _ M key B R) as H. destruct (get_from _ _ _ _ _ _) as [r|]; [|done]. by exists r.
Qed.

Lemma get_run m M key : represents m M -> hashmap_get2 m key = Some (default 0 (M !! key)).
Proof.
  intros H. destruct (entry_run m M key H) as (r & E & Hr). unfold hashmap_get2. rewrite E. cbn [mbind option_bind].
  destruct r as [j|]; [|by rewrite Hr]. destruct Hr as (v & Hj & ->). unfold key_at in Hj. by rewrite Hj.
Qed.

Lemma delete_run m M key : represents m M -> exists m', hashmap_delete2 m key = Some m' /\ represents m' (delete key M).
Proof.
  intros H. destruct (entry_run m M key H) as (r & E & Hr). unfold hashmap_delete2. rewrite E. cbn [mbind option_bind].
  eexists. split; [reflexivity|]. destruct r as [j|]; [|by rewrite delete_id]. destruct Hr as (v & Hj & _). right.
  destruct H as [(Hb & _)|Hok]; [unfold key_at in Hj; by rewrite Hb in Hj|]. by apply (delete_ok m M j key v).
Qed.

Lemma hashmap_put_run m M key v : represents m M -> hm_capacity m <= 2 ^ 23 -> M !! key = None \/ no_tombstones (hm_buckets m) ->
  exists m', hashmap_put m key v = Some m' /\ represents m' (<[key := v]> M) /\ hm_capacity m' <= Z.max 16 (2 * hm_capacity m) /\
    (no_tombstones (hm_buckets m) -> no_tombstones (hm_buckets m')).
Proof.
  intros [(Hb & Hu & ->)|Hok] Hcap Hside.
  - assert (Hk : exists k, 4 <= k <= 24 /\ INIT_SIZE = 2 ^ k) by (by exists 4).
    destruct (empty_ok INIT_SIZE Hk) as (Hok & Hnt & Hc0).
    destruct (put2_step 1 _ ∅ key v Hok) as (m' & E & _ & H' & Hc' & Hnt' & _); [cbn [hm_buckets hm_capacity]; rewrite Hc0; done|by left|].
    exists m'. split; [|split; [by right|split; [rewrite Hc'; cbn [hm_capacity]; unfold INIT_SIZE; lia|intros _; by apply Hnt']]]. unfold hashmap_put. rewrite put2_S, Hb, Hu. by rewrite bool_decide_true by done.
  - destruct (pow_cap _ (mo_cap _ _ Hok)) as [Hc _]. pose proof (count_if_range (fun e => negb (is_empty e)) (hm_buckets m)) as Hr.
    change (count_if _ (hm_buckets m)) with (count_used (hm_buckets m)) in Hr. rewrite (bk_length _ _ (mo_buckets _ _ Hok)), Z2Nat.id in Hr by lia.
    destruct (decide (100 * count_used (hm_buckets m) < 70 * hm_capacity m)) as [Hl|Hl].
    { destruct (put2_step 1 m M key v Hok Hl Hside) as (m' & _ & E & H' & Hc' & Hnt & _). exists m'. split; [done|]. split; [by right|]. split; [lia|done]. }
    destruct (rehash_run 0 m M Hok Hcap) as (m1 & E1 & Hok1 & Hnt1 & Hc1 & Hn1). destruct (pow_cap _ (mo_cap _ _ Hok1)) as [Hcc1 _].
    destruct (put2_step 1 m1 M key v Hok1 ltac:(lia) (or_intror Hnt1)) as (m' & E & _ & H' & Hc' & Hnt & _).
    exists m'. split; [|split; [by right|split; [lia|intros _; by apply Hnt]]]. unfold hashmap_put. rewrite put2_S.
    assert (Hne : forall x Y, map_ok x Y -> hm_buckets x <> []).
    { intros x Y [_ B' _ _]. destruct (bk_room _ _ B') as [i [w Hw]]. intros E0. by rewrite E0 in Hw. }
    rewrite bool_decide_false by (by eapply Hne). rewrite (mo_used _ _ Hok), (i32_id (count_used (hm_buckets m) * 100)) by (unfold is_i32; lia).
    rewrite Z.quot_div_nonneg by lia. pose proof (Z.div_mod (count_used (hm_buckets m) * 100) (hm_capacity m) ltac:(lia)).
    pose proof (Z.mod_pos_bound (count_used (hm_buckets m) * 100) (hm_capacity m) ltac:(lia)).
    unfold HIGH_WATERMARK at 1. destruct (Z.leb_spec 70 (count_used (hm_buckets m) * 100 / hm_capacity m)) as [G|G]; [|nia].
    by rewrite E1.
Qed.

(** ** Examples *)

(** [a] and [q] have the same place in a table of 16 buckets. *)
Definition key_a : list Z := str "a".
Definition key_q : list Z := str "q".

Lemma collide : fnv_hash key_a mod 16 = fnv_hash key_q mod 16.
Proof. by vm_compute. Qed.

(** A table with one key, and with two that collide. *)
Definition table_q : HashMap := default new_map (hashmap_put new_map key_q 7).
Definition table_qa : HashMap := default new_map (hashmap_put table_q key_a 5).

Lemma represents_new : represents new_map ∅.
Proof. by left. Qed.

Lemma represents_q : represents table_q {[key_q := 7]}.
Proof.
  destruct (hashmap_put_run new_map ∅ key_q 7 represents_new ltac:(done) (or_introl eq_refl)) as (m & E & H & _).
  unfold table_q. by rewrite E.
Qed.

Lemma table_q_no_tombstones : no_tombstones (hm_buckets table_q).
Proof.
  intros j e H. assert (Forall (fun e => he_key e <> Tombstone) (hm_buckets table_q)) as F.
  { vm_compute. repeat (apply Forall_cons; split; [done|]). done. }
  by eapply (Forall_lookup_1 _ _ _ _ F H).
Qed.

(** C12: a table that stands for a finite map: looking a key up gives its value or NULL,
    deleting a key gives a table for the map without it, and putting a key that is not in
    the map, or any key when nothing was deleted since the last rehashing, gives a table
    for the map with it, of at most twice the capacity (or of 16 buckets). *)
Theorem hashmap_refines_map m M key v : represents m M ->
  hashmap_get2 m key = Some (default 0 (M !! key)) /\
  (exists m', hashmap_delete2 m key = Some m' /\ represents m' (delete key M)) /\
  (hm_capacity m <= 2 ^ 23 -> M !! key = None \/ no_tombstones (hm_buckets m) ->
   exists m', hashmap_put m key v = Some m' /\ represents m' (<[key := v]> M) /\
     hm_capacity m' <= Z.max 16 (2 * hm_capacity m)).
Proof.
  intros H. split; [by apply get_run|]. split; [by apply delete_run|]. intros Hc Hs. destruct (hashmap_put_run m M key v H Hc Hs) as (m' & ? & ? & ? & _). by exists m'.
Qed.

(** A key that collides is put, and the first one keeps its value. *)
Lemma hashmap_refines_map_witness :
  represents table_q {[key_q := 7]} /\ exists m', hashmap_put table_q key_a 5 = Some m' /\ represents m' {[key_a := 5; key_q := 7]}.
Proof.
  split; [exact represents_q|].
  destruct (hashmap_refines_map table_q {[key_q := 7]} key_a 5 represents_q) as (_ & _ & Hput).
  destruct Hput as (m' & E & H & _); [done|right; exact table_q_no_tombstones|].
  exists m'. split; [exact E|exact H].
Defined.

(** A key behind a tombstone: putting it again makes a second entry, and deleting it then
    brings the first value back. *)
Lemma put_behind_tombstone :
  exists m1 m2 m3, hashmap_delete2 table_qa key_q = Some m1 /\ hashmap_put m1 key_a 6 = Some m2 /\
    hashmap_delete2 m2 key_a = Some m3 /\ hashmap_get2 m3 key_a = Some 5.
Proof.
  exists (default new_map (hashmap_delete2 table_qa key_q)).
  exists (default new_map (m1 ← hashmap_delete2 table_qa key_q ; hashmap_put m1 key_a 6)).
  exists (default new_map (m1 ← hashmap_delete2 table_qa key_q ; m2 ← hashmap_put m1 key_a 6 ; hashmap_delete2 m2 key_a)).
  by vm_compute.
Qed.
