(* ===== verification/CcToken.v ===== *)
(** * CcToken: the tokenizer of the compiler ([upstream/tokenize.c], [unicode.c], [ccsupport.c])

    A pointer into a NUL-terminated text is the list of the bytes from it to the NUL,
    and [drop n p] is [p + n]; reading after the NUL is [Fail CcUndefined].  [current_file]
    and the flags of the next token are the record [lexer].  The tokens of [tokenize] are
    a list; the front end links them in its store.  Floating-point arithmetic is a
    parameter, a double is its image. *)

From S2P Require Import Prelude Config Kernel Klog RawMem UserMem LibString LibFormat CcHash.

(** ** Data *)

Definition ptr : Type := list Z.

Inductive TokenKind := TK_IDENT | TK_PUNCT | TK_KEYWORD | TK_STR | TK_NUM | TK_PP_NUM | TK_EOF.
#[export] Instance TokenKind_eq_dec : EqDecision TokenKind.
Proof. solve_decision. Defined.

(** The addresses of the basic types. *)
Definition ty_void : Z := 1.
Definition ty_bool : Z := 2.
Definition ty_char : Z := 3.
Definition ty_short : Z := 4.
Definition ty_int : Z := 5.
Definition ty_long : Z := 6.
Definition ty_llong : Z := 7.
Definition ty_uchar : Z := 8.
Definition ty_ushort : Z := 9.
Definition ty_uint : Z := 10.
Definition ty_ulong : Z := 11.
Definition ty_ullong : Z := 12.
Definition ty_float : Z := 13.
Definition ty_double : Z := 14.
Definition ty_ldouble : Z := 15.

(** [ty] of a token: NULL, a basic type, or a new array of a basic type. *)
Inductive tok_ty := NoTy | BaseTy (ty : Z) | ArrayTy (base len : Z).

(** [str] is the array that it points to, an element per byte, [uint16_t] or [uint32_t],
    without the zero at its end.  [next] is not part of the record. *)
Inductive Token := Build_Token {
  t_kind : TokenKind; t_val : Z; t_fval : Z; t_loc : ptr; t_len : Z;
  t_ty : tok_ty; t_str : list Z;
  t_file : Z; t_filename : list Z; t_line_no : Z; t_line_delta : Z;
  t_at_bol : bool; t_has_space : bool; t_hideset : list (list Z); t_origin : Z }.
#[export] Instance eta_Token : Eta Token := fun r => Build_Token (t_kind r) (t_val r) (t_fval r) (t_loc r) (t_len r)
  (t_ty r) (t_str r) (t_file r) (t_filename r) (t_line_no r) (t_line_delta r) (t_at_bol r) (t_has_space r) (t_hideset r) (t_origin r).
#[export] Instance set_t_kind : Setter t_kind := ltac:(mk_setter).
#[export] Instance set_t_val : Setter t_val := ltac:(mk_setter).
#[export] Instance set_t_fval : Setter t_fval := ltac:(mk_setter).
#[export] Instance set_t_len : Setter t_len := ltac:(mk_setter).
#[export] Instance set_t_ty : Setter t_ty := ltac:(mk_setter).
#[export] Instance set_t_str : Setter t_str := ltac:(mk_setter).
#[export] Instance set_t_filename : Setter t_filename := ltac:(mk_setter).
#[export] Instance set_t_line_no : Setter t_line_no := ltac:(mk_setter).
#[export] Instance set_t_line_delta : Setter t_line_delta := ltac:(mk_setter).
#[export] Instance set_t_at_bol : Setter t_at_bol := ltac:(mk_setter).
#[export] Instance set_t_has_space : Setter t_has_space := ltac:(mk_setter).
#[export] Instance set_t_hideset : Setter t_hideset := ltac:(mk_setter).
#[export] Instance set_t_origin : Setter t_origin := ltac:(mk_setter).

Record File := Build_File { file_name : list Z; file_file_no : Z; file_contents : ptr; file_display_name : list Z; file_line_delta : Z }.

(** Why the compiler stops: [error_at], [error_tok] or [error] with a message, undefined
    behaviour of its code, or the fuel of the model. *)
Inductive cc_stop :=
| CcErrorAt (loc : ptr) (message : list Z) | CcErrorTok (tok : Token) (message : list Z) | CcError (message : list Z)
| CcUndefined | CcNoFuel.

Inductive cc (A : Type) := Got (a : A) | Fail (why : cc_stop).
Arguments Got {A} a.
Arguments Fail {A} why.
#[export] Instance cc_ret : MRet cc := fun A a => Got a.
#[export] Instance cc_bind : MBind cc := fun A B f m => match m with Got a => f a | Fail why => Fail why end.

Definition error_at {A} (loc : ptr) (message : string) : cc A := Fail (CcErrorAt loc (str message)).

(** ** Characters *)

(** [*p] and [p[i]], as [char]. *)
Definition chr (p : ptr) (i : Z) : Z := sext8 (nthz p i).

(** [startswith(p, q)]. *)
Definition has_prefix (p : ptr) (q : list Z) : bool := bool_decide (take (length q) p = q).
Definition startswith (p : ptr) (q : string) : bool := has_prefix p (str q).

Definition ispunct (c : Z) : bool :=
  ((33 <=? c) && (c <=? 47)) || ((58 <=? c) && (c <=? 64)) || ((91 <=? c) && (c <=? 96)) || ((123 <=? c) && (c <=? 126)).

Definition lower (c : Z) : Z := if (65 <=? c) && (c <=? 90) then c + 32 else c.

(** The difference of the first bytes that differ, of the first [n] at most; [nthz] is 0
    at the end of either string. *)
Fixpoint strncasecmp (a b : ptr) (n : nat) : Z :=
  match n with
  | O => 0
  | S n =>
      let ca := lower (nthz a 0) in
      let cb := lower (nthz b 0) in
      if negb (ca =? cb) then ca - cb
      else if ca =? 0 then 0
      else strncasecmp (tail a) (tail b) n
  end.

(** ** UTF-8 *)

(** The bytes that are stored. *)
Definition encode_utf8 (c : Z) : list Z :=
  if c <=? 0x7F then [c mod 256]
  else if c <=? 0x7FF then [Z.lor 0xC0 (Z.shiftr c 6) mod 256; Z.lor 0x80 (Z.land c 0x3F)]
  else if c <=? 0xFFFF then
    [Z.lor 0xE0 (Z.shiftr c 12) mod 256; Z.lor 0x80 (Z.land (Z.shiftr c 6) 0x3F); Z.lor 0x80 (Z.land c 0x3F)]
  else [Z.lor 0xF0 (Z.shiftr c 18) mod 256; Z.lor 0x80 (Z.land (Z.shiftr c 12) 0x3F);
        Z.lor 0x80 (Z.land (Z.shiftr c 6) 0x3F); Z.lor 0x80 (Z.land c 0x3F)].

(** The loop over the continuation bytes [p[i]], [n] of them. *)
Fixpoint decode_rest (start p : ptr) (i : Z) (n : nat) (c : Z) : cc Z :=
  match n with
  | O => mret c
  | S n =>
      if negb (Z.shiftr (nthz p i) 6 =? 2) then error_at start "invalid UTF-8 sequence"
      else decode_rest start p (i + 1) n (u32 (Z.lor (Z.shiftl c 6) (Z.land (nthz p i) 0x3F)))
  end.

(** The code point at [p] and the position after it; [None] is after the NUL. *)
Definition decode_utf8 (p : ptr) : cc (Z * option ptr) :=
  let b := nthz p 0 in
  if b <? 128 then mret (b, match p with [] => None | _ :: p' => Some p' end)
  else
    '(len, c) ← (if b >=? 0xF0 then mret (4%nat, Z.land b 7)
                 else if b >=? 0xE0 then mret (3%nat, Z.land b 15)
                 else if b >=? 0xC0 then mret (2%nat, Z.land b 31)
                 else error_at p "invalid UTF-8 sequence") ;
    c ← decode_rest p p 1 (len - 1) c ;
    mret (c, Some (drop len p)).

(** A pointer that is read. *)
Definition valid (p : option ptr) : cc ptr := match p with Some p => mret p | None => Fail CcUndefined end.

(** The tables of ranges, without the -1 at their end. *)
Definition in_range (range : list (Z * Z)) (c : Z) : bool := existsb (fun '(lo, hi) => (lo <=? c) && (c <=? hi)) range.

Definition ident1_range : list (Z * Z) :=
  [(95, 95); (97, 122); (65, 90); (36, 36); (0xA8, 0xA8); (0xAA, 0xAA); (0xAD, 0xAD); (0xAF, 0xAF);
   (0xB2, 0xB5); (0xB7, 0xBA); (0xBC, 0xBE); (0xC0, 0xD6); (0xD8, 0xF6); (0xF8, 0xFF); (0x100, 0x2FF);
   (0x370, 0x167F); (0x1681, 0x180D); (0x180F, 0x1DBF); (0x1E00, 0x1FFF); (0x200B, 0x200D); (0x202A, 0x202E);
   (0x203F, 0x2040); (0x2054, 0x2054); (0x2060, 0x206F); (0x2070, 0x20CF); (0x2100, 0x218F);
   (0x2460, 0x24FF); (0x2776, 0x2793); (0x2C00, 0x2DFF); (0x2E80, 0x2FFF); (0x3004, 0x3007);
   (0x3021, 0x302F); (0x3031, 0x303F); (0x3040, 0xD7FF); (0xF900, 0xFD3D); (0xFD40, 0xFDCF);
   (0xFDF0, 0xFE1F); (0xFE30, 0xFE44); (0xFE47, 0xFFFD); (0x10000, 0x1FFFD); (0x20000, 0x2FFFD);
   (0x30000, 0x3FFFD); (0x40000, 0x4FFFD); (0x50000, 0x5FFFD); (0x60000, 0x6FFFD); (0x70000, 0x7FFFD);
   (0x80000, 0x8FFFD); (0x90000, 0x9FFFD); (0xA0000, 0xAFFFD); (0xB0000, 0xBFFFD); (0xC0000, 0xCFFFD);
   (0xD0000, 0xDFFFD); (0xE0000, 0xEFFFD)].

Definition is_ident1 (c : Z) : bool :=
  if c <? 128 then (c =? 95) || (c =? 36) || ((97 <=? c) && (c <=? 122)) || ((65 <=? c) && (c <=? 90))
  else in_range ident1_range c.

Definition ident2_range : list (Z * Z) :=
  [(48, 57); (36, 36); (0x300, 0x36F); (0x1DC0, 0x1DFF); (0x20D0, 0x20FF); (0xFE20, 0xFE2F)].

Definition is_ident2 (c : Z) : bool :=
  if c <? 128 then is_ident1 c || ((48 <=? c) && (c <=? 57))
  else is_ident1 c || in_range ident2_range c.

Definition width0_range : list (Z * Z) :=
  [(0x0, 0x1F); (0x7F, 0xA0); (0x300, 0x36F); (0x483, 0x486); (0x488, 0x489); (0x591, 0x5BD); (0x5BF, 0x5BF);
   (0x5C1, 0x5C2); (0x5C4, 0x5C5); (0x5C7, 0x5C7); (0x600, 0x603); (0x610, 0x615); (0x64B, 0x65E);
   (0x670, 0x670); (0x6D6, 0x6E4); (0x6E7, 0x6E8); (0x6EA, 0x6ED); (0x70F, 0x70F); (0x711, 0x711);
   (0x730, 0x74A); (0x7A6, 0x7B0); (0x7EB, 0x7F3); (0x901, 0x902); (0x93C, 0x93C); (0x941, 0x948);
   (0x94D, 0x94D); (0x951, 0x954); (0x962, 0x963); (0x981, 0x981); (0x9BC, 0x9BC); (0x9C1, 0x9C4);
   (0x9CD, 0x9CD); (0x9E2, 0x9E3); (0xA01, 0xA02); (0xA3C, 0xA3C); (0xA41, 0xA42); (0xA47, 0xA48);
   (0xA4B, 0xA4D); (0xA70, 0xA71); (0xA81, 0xA82); (0xABC, 0xABC); (0xAC1, 0xAC5); (0xAC7, 0xAC8);
   (0xACD, 0xACD); (0xAE2, 0xAE3); (0xB01, 0xB01); (0xB3C, 0xB3C); (0xB3F, 0xB3F); (0xB41, 0xB43);
   (0xB4D, 0xB4D); (0xB56, 0xB56); (0xB82, 0xB82); (0xBC0, 0xBC0); (0xBCD, 0xBCD); (0xC3E, 0xC40);
   (0xC46, 0xC48); (0xC4A, 0xC4D); (0xC55, 0xC56); (0xCBC, 0xCBC); (0xCBF, 0xCBF); (0xCC6, 0xCC6);
   (0xCCC, 0xCCD); (0xCE2, 0xCE3); (0xD41, 0xD43); (0xD4D, 0xD4D); (0xDCA, 0xDCA); (0xDD2, 0xDD4);
   (0xDD6, 0xDD6); (0xE31, 0xE31); (0xE34, 0xE3A); (0xE47, 0xE4E); (0xEB1, 0xEB1); (0xEB4, 0xEB9);
   (0xEBB, 0xEBC); (0xEC8, 0xECD); (0xF18, 0xF19); (0xF35, 0xF35); (0xF37, 0xF37); (0xF39, 0xF39);
   (0xF71, 0xF7E); (0xF80, 0xF84); (0xF86, 0xF87); (0xF90, 0xF97); (0xF99, 0xFBC); (0xFC6, 0xFC6);
   (0x102D, 0x1030); (0x1032, 0x1032); (0x1036, 0x1037); (0x1039, 0x1039); (0x1058, 0x1059);
   (0x1160, 0x11FF); (0x135F, 0x135F); (0x1712, 0x1714); (0x1732, 0x1734); (0x1752, 0x1753);
   (0x1772, 0x1773); (0x17B4, 0x17B5); (0x17B7, 0x17BD); (0x17C6, 0x17C6); (0x17C9, 0x17D3);
   (0x17DD, 0x17DD); (0x180B, 0x180D); (0x18A9, 0x18A9); (0x1920, 0x1922); (0x1927, 0x1928);
   (0x1932, 0x1932); (0x1939, 0x193B); (0x1A17, 0x1A18); (0x1B00, 0x1B03); (0x1B34, 0x1B34);
   (0x1B36, 0x1B3A); (0x1B3C, 0x1B3C); (0x1B42, 0x1B42); (0x1B6B, 0x1B73); (0x1DC0, 0x1DCA);
   (0x1DFE, 0x1DFF); (0x200B, 0x200F); (0x202A, 0x202E); (0x2060, 0x2063); (0x206A, 0x206F);
   (0x20D0, 0x20EF); (0x302A, 0x302F); (0x3099, 0x309A); (0xA806, 0xA806); (0xA80B, 0xA80B);
   (0xA825, 0xA826); (0xFB1E, 0xFB1E); (0xFE00, 0xFE0F); (0xFE20, 0xFE23); (0xFEFF, 0xFEFF);
   (0xFFF9, 0xFFFB); (0x10A01, 0x10A03); (0x10A05, 0x10A06); (0x10A0C, 0x10A0F); (0x10A38, 0x10A3A);
   (0x10A3F, 0x10A3F); (0x1D167, 0x1D169); (0x1D173, 0x1D182); (0x1D185, 0x1D18B); (0x1D1AA, 0x1D1AD);
   (0x1D242, 0x1D244); (0xE0001, 0xE0001); (0xE0020, 0xE007F); (0xE0100, 0xE01EF)].

Definition width2_range : list (Z * Z) :=
  [(0x1100, 0x115F); (0x2329, 0x2329); (0x232A, 0x232A); (0x2E80, 0x303E); (0x3040, 0xA4CF);
   (0xAC00, 0xD7A3); (0xF900, 0xFAFF); (0xFE10, 0xFE19); (0xFE30, 0xFE6F); (0xFF00, 0xFF60);
   (0xFFE0, 0xFFE6); (0x1F000, 0x1F644); (0x20000, 0x2FFFD); (0x30000, 0x3FFFD)].

Definition char_width (c : Z) : Z :=
  if in_range width0_range c then 0 else if in_range width2_range c then 2 else 1.

(** The width of the first [len] bytes. *)
Fixpoint width_from (fuel : nat) (start p : ptr) (len w : Z) : cc Z :=
  match fuel with O => Fail CcNoFuel | S fuel =>
  if Z.of_nat (length start) - Z.of_nat (length p) >=? len then mret w else
  '(c, q) ← decode_utf8 p ;
  q ← valid q ;
  width_from fuel start q len (w + char_width c)
  end.
Definition display_width (p : ptr) (len : Z) : cc Z := width_from (S (length p)) p p len 0.

(** ** Errors *)

(** What [verror_at] prints. *)
Definition verror_at (filename : list Z) (input : ptr) (line_no : Z) (loc : ptr) (message : list Z) : cc (list Z) :=
  let before := take (length input - length loc) input in
  let line := rev (span (fun c => negb (c =? 10)) (rev before)).1 in
  let rest := (span (fun c => negb (c =? 10)) loc).1 in
  let head := filename ++ str ":" ++ int_text line_no ++ str ": " in
  w ← display_width (line ++ loc) (Z.of_nat (length line)) ;
  mret (head ++ line ++ rest ++ [10] ++ replicate (Z.to_nat (w + Z.of_nat (length head))) 32 ++ str "^ " ++ message ++ [10]).

(** [error_at]: the number of the line of [loc] is counted. *)
Definition report_at (f : File) (loc : ptr) (message : list Z) : cc (list Z) :=
  let before := take (length (file_contents f) - length loc) (file_contents f) in
  verror_at (file_name f) (file_contents f) (1 + Z.of_nat (length (filter (fun c => c = 10) before))) loc message.

(** ** Tokens *)

(** [current_file], its display name, and the flags of the next token. *)
Record lexer := Build_lexer { lx_file : Z; lx_filename : list Z; lx_at_bol : bool; lx_has_space : bool }.

(** The text of a token. *)
Definition lexeme (tok : Token) : list Z := take (Z.to_nat (t_len tok)) (t_loc tok).

(** [equal(tok, op)]: [memcmp] stops at the end of [op]. *)
Definition equal (tok : Token) (op : string) : bool := bool_decide (lexeme tok = str op).

(** A new token has the flags; [tokenize] clears them after it. *)
Definition new_token (lx : lexer) (kind : TokenKind) (start end_ : ptr) : Token :=
  Build_Token kind 0 0 start (Z.of_nat (length start) - Z.of_nat (length end_)) NoTy []
    (lx_file lx) (lx_filename lx) 0 0 (lx_at_bol lx) (lx_has_space lx) [] 0.

(** The identifier characters from [p] on, to the first other one. *)
Fixpoint ident_end (fuel : nat) (p : ptr) : cc ptr :=
  match fuel with O => Fail CcNoFuel | S fuel =>
  '(c, q) ← decode_utf8 p ;
  if negb (is_ident2 c) then mret p else q ← valid q ; ident_end fuel q
  end.

(** The length of the identifier, 0 when there is none. *)
Definition read_ident (start : ptr) : cc Z :=
  '(c, p) ← decode_utf8 start ;
  if negb (is_ident1 c) then mret 0 else
  p ← valid p ;
  e ← ident_end (S (length p)) p ;
  mret (Z.of_nat (length start) - Z.of_nat (length e)).

Definition from_hex (c : Z) : Z :=
  if (48 <=? c) && (c <=? 57) then c - 48 else if (97 <=? c) && (c <=? 102) then c - 97 + 10 else c - 65 + 10.

Definition punctuators : list string :=
  ["<<="; ">>="; "..."; "=="; "!="; "<="; ">="; "->"; "+="; "-="; "*="; "/="; "++"; "--"; "%="; "&="; "|="; "^=";
   "&&"; "||"; "<<"; ">>"; "##"].

Definition read_punct (p : ptr) : Z :=
  match find (startswith p) punctuators with
  | Some kw => Z.of_nat (length (str kw))
  | None => if ispunct (chr p 0) then 1 else 0
  end.

Definition keywords : list string :=
  ["return"; "if"; "else"; "for"; "while"; "int"; "sizeof"; "char"; "struct"; "union"; "short"; "long"; "void";
   "typedef"; "_Bool"; "enum"; "static"; "goto"; "break"; "continue"; "switch"; "case"; "default"; "extern";
   "_Alignof"; "_Alignas"; "do"; "signed"; "unsigned"; "const"; "volatile"; "auto"; "register"; "restrict";
   "__restrict"; "__restrict__"; "_Noreturn"; "float"; "double"; "typeof"; "asm"; "_Thread_local"; "__thread";
   "_Atomic"; "__attribute__"].

(** The table of a list of words, each with the value 1. *)
Definition word_table (words : list string) : option HashMap :=
  fold_left (fun m kw => m ← m ; hashmap_put m (str kw) 1) words (Some new_map).

(** A failed [assert] of the hash table. *)
Definition of_table {A} (r : option A) : cc A := match r with Some a => mret a | None => Fail CcUndefined end.

Definition keyword_map : option HashMap := word_table keywords.
Definition is_keyword (tok : Token) : cc bool :=
  v ← of_table (m ← keyword_map ; hashmap_get2 m (lexeme tok)) ; mret (negb (v =? 0)).

(** ** Literals *)

(** The digits of a hexadecimal escape. *)
Fixpoint hex_digits (p : ptr) (c : Z) : Z * ptr :=
  match p with
  | d :: p' => if isxdigit (sext8 d) then hex_digits p' (shl c 4 +! from_hex (sext8 d)) else (c, p)
  | [] => (c, p)
  end.

Definition is_octal (c : Z) : bool := (48 <=? c) && (c <=? 55).

(** At most [n] more octal digits. *)
Fixpoint octal_digits (n : nat) (p : ptr) (c : Z) : Z * ptr :=
  match n, p with
  | S n, d :: p' => if is_octal (sext8 d) then octal_digits n p' (shl c 3 + (sext8 d - 48)) else (c, p)
  | _, _ => (c, p)
  end.

Definition simple_escape (c : Z) : Z :=
  if c =? 97 then 7 else if c =? 98 then 8 else if c =? 116 then 9 else if c =? 110 then 10
  else if c =? 118 then 11 else if c =? 102 then 12 else if c =? 114 then 13 else if c =? 101 then 27 else c.

(** The character of the escape at [p], and the position after it. *)
Definition read_escaped_char (p : ptr) : cc (Z * option ptr) :=
  if is_octal (chr p 0) then let '(c, q) := octal_digits 3 p 0 in mret (c, Some q)
  else if chr p 0 =? 120 then
    let p := tail p in
    if negb (isxdigit (chr p 0)) then error_at p "invalid hex escape sequence"
    else let '(c, q) := hex_digits p 0 in mret (c, Some q)
  else mret (simple_escape (chr p 0), match p with [] => None | _ :: p' => Some p' end).

(** The closing double quote. *)
Fixpoint string_literal_end (start p : ptr) : cc ptr :=
  match p with
  | [] => error_at start "unclosed string literal"
  | c :: p' =>
      if c =? 34 then mret p
      else if c =? 10 then error_at start "unclosed string literal"
      else if c =? 92 then match p' with [] => Fail CcUndefined | _ :: p'' => string_literal_end start p'' end
      else string_literal_end start p'
  end.

(** The elements of the array for the literal between [p] and [end_]; [plain] reads a
    character that is no escape, [width] is the number of bits of an element. *)
Fixpoint literal_units (plain : ptr -> cc (list Z * option ptr)) (width : Z) (fuel : nat) (p end_ : ptr) : cc (list Z) :=
  match fuel with O => Fail CcNoFuel | S fuel =>
  if Z.of_nat (length p) <=? Z.of_nat (length end_) then mret [] else
  '(us, q) ← (if chr p 0 =? 92 then '(c, q) ← read_escaped_char (tail p) ; mret ([c mod 2 ^ width], q) else plain p) ;
  q ← valid q ;
  rest ← literal_units plain width fuel q end_ ;
  mret (us ++ rest)
  end.

Definition plain_byte (p : ptr) : cc (list Z * option ptr) := mret ([nthz p 0], match p with [] => None | _ :: q => Some q end).

Definition plain_utf16 (p : ptr) : cc (list Z * option ptr) :=
  '(c, q) ← decode_utf8 p ;
  mret (if c <? 0x10000 then [c]
        else let c := c - 0x10000 in
             [(0xd800 + Z.land (Z.shiftr c 10) 0x3ff) mod 2 ^ 16; (0xdc00 + Z.land c 0x3ff) mod 2 ^ 16], q).

Definition plain_utf32 (p : ptr) : cc (list Z * option ptr) := '(c, q) ← decode_utf8 p ; mret ([c], q).

(** The token of a string literal with its array. *)
Definition string_token (lx : lexer) (plain : ptr -> cc (list Z * option ptr)) (width base : Z) (start quote : ptr) : cc Token :=
  end_ ← string_literal_end (tail quote) (tail quote) ;
  buf ← literal_units plain width (S (length quote)) (tail quote) end_ ;
  mret ((new_token lx TK_STR start (tail end_)) <| t_ty := ArrayTy base (Z.of_nat (length buf) + 1) |> <| t_str := buf |>).

Definition read_string_literal (lx : lexer) (start quote : ptr) : cc Token := string_token lx plain_byte 8 ty_char start quote.
Definition read_utf16_string_literal (lx : lexer) (start quote : ptr) : cc Token := string_token lx plain_utf16 16 ty_ushort start quote.
Definition read_utf32_string_literal (lx : lexer) (start quote : ptr) (ty : Z) : cc Token := string_token lx plain_utf32 32 ty start quote.

(** [strchr(p, c)] and [strstr(p, "*/")]. *)
Definition strchr (p : ptr) (c : Z) : option ptr :=
  match (span (fun d => negb (d =? c)) p).2 with [] => None | q => Some q end.
Fixpoint comment_end (p : ptr) : option ptr :=
  match p with
  | [] => None
  | c :: p' => if startswith p "*/" then Some p else comment_end p'
  end.

Definition read_char_literal (lx : lexer) (start quote : ptr) (ty : Z) : cc Token :=
  let p := tail quote in
  if bool_decide (p = []) then error_at start "unclosed char literal" else
  '(c, q) ← (if chr p 0 =? 92 then read_escaped_char (tail p) else decode_utf8 p) ;
  q ← valid q ;
  match strchr q 39 with
  | None => error_at q "unclosed char literal"
  | Some end_ => mret ((new_token lx TK_NUM start (tail end_)) <| t_val := i32 c |> <| t_ty := BaseTy ty |>)
  end.

(** ** The tokens of a text *)

(** The end of a preprocessing number. *)
Definition is_exponent (c d : Z) : bool :=
  ((c =? 101) || (c =? 69) || (c =? 112) || (c =? 80)) && ((d =? 43) || (d =? 45)).
Fixpoint pp_number_end (p : ptr) : ptr :=
  match p with
  | [] => []
  | c :: p' =>
      match p' with
      | d :: p'' => if is_exponent c d then pp_number_end p''
                    else if isalnum (sext8 c) || (c =? 46) then pp_number_end p' else p
      | [] => if isalnum (sext8 c) || (c =? 46) then [] else p
      end
  end.

(** [while ( *p != '\n') p++;] *)
Fixpoint line_end (p : ptr) : cc ptr :=
  match p with [] => Fail CcUndefined | c :: p' => if c =? 10 then mret p else line_end p' end.

(** What is done at [p], that is not at the end: a token, or text that is skipped with the
    flags that result. *)
Inductive lexed := Tok (tok : Token) | Skip (p : ptr) (at_bol has_space : bool).

Definition lex_punct (lx : lexer) (p : ptr) : cc lexed :=
  let n := read_punct p in
  if negb (n =? 0) then mret (Tok (new_token lx TK_PUNCT p (drop (Z.to_nat n) p))) else error_at p "invalid token".

Definition lex_word (lx : lexer) (p : ptr) : cc lexed :=
  n ← read_ident p ;
  if negb (n =? 0) then mret (Tok (new_token lx TK_IDENT p (drop (Z.to_nat n) p))) else lex_punct lx p.

(** The literals. *)
Definition lex_literal (lx : lexer) (p : ptr) : option (cc Token) :=
  if chr p 0 =? 34 then Some (read_string_literal lx p p)
  else if has_prefix p (str "u8" ++ [34]) then Some (read_string_literal lx p (drop 2 p))
  else if has_prefix p (str "u" ++ [34]) then Some (read_utf16_string_literal lx p (drop 1 p))
  else if has_prefix p (str "L" ++ [34]) then Some (read_utf32_string_literal lx p (drop 1 p) ty_int)
  else if has_prefix p (str "U" ++ [34]) then Some (read_utf32_string_literal lx p (drop 1 p) ty_uint)
  else if chr p 0 =? 39 then Some (tok ← read_char_literal lx p p ty_int ; mret (tok <| t_val ::= fun v => sext8 (v mod 256) |>))
  else if startswith p "u'" then Some (tok ← read_char_literal lx p (drop 1 p) ty_ushort ; mret (tok <| t_val ::= fun v => Z.land v 0xffff |>))
  else if startswith p "L'" then Some (read_char_literal lx p (drop 1 p) ty_int)
  else if startswith p "U'" then Some (read_char_literal lx p (drop 1 p) ty_uint)
  else None.

Definition lex_one (lx : lexer) (p : ptr) : cc lexed :=
  if startswith p "//" then q ← line_end (drop 2 p) ; mret (Skip q (lx_at_bol lx) true)
  else if startswith p "/*" then
    match comment_end (drop 2 p) with
    | None => error_at p "unclosed block comment"
    | Some q => mret (Skip (drop 2 q) (lx_at_bol lx) true)
    end
  else if chr p 0 =? 10 then mret (Skip (tail p) true false)
  else if isspace (chr p 0) then mret (Skip (tail p) (lx_at_bol lx) true)
  else if isdigit (chr p 0) || ((chr p 0 =? 46) && isdigit (chr p 1)) then
    mret (Tok (new_token lx TK_PP_NUM p (pp_number_end (tail p))))
  else match lex_literal lx p with
       | Some m => tok ← m ; mret (Tok tok)
       | None => lex_word lx p
       end.

(** The loop of [tokenize] from [p] on. *)
Fixpoint lex_from (fuel : nat) (lx : lexer) (p : ptr) : cc (list Token) :=
  match fuel with O => Fail CcNoFuel | S fuel =>
  match p with
  | [] => mret [new_token lx TK_EOF p p]
  | _ =>
      r ← lex_one lx p ;
      match r with
      | Tok tok =>
          toks ← lex_from fuel (Build_lexer (lx_file lx) (lx_filename lx) false false) (drop (Z.to_nat (t_len tok)) p) ;
          mret (tok :: toks)
      | Skip q bol space => lex_from fuel (Build_lexer (lx_file lx) (lx_filename lx) bol space) q
      end
  end end.

(** From line [n] at [p] on; in one text two pointers are equal when as much is left. *)
Fixpoint add_line_numbers (p : ptr) (n : Z) (toks : list Token) : cc (list Token) :=
  match toks with
  | [] => Fail CcUndefined
  | tok :: toks' =>
      let here := Nat.eqb (length p) (length (t_loc tok)) in
      let '(done, toks) := if here then ([tok <| t_line_no := n |>], toks') else ([], toks) in
      match p with
      | [] => mret (done ++ toks)
      | c :: p' => rest ← add_line_numbers p' (if c =? 10 then n + 1 else n) toks ; mret (done ++ rest)
      end
  end.

(** [file] is the address of the file. *)
Definition tokenize (file : Z) (f : File) : cc (list Token) :=
  toks ← lex_from (S (length (file_contents f))) (Build_lexer file (file_display_name f) true false) (file_contents f) ;
  add_line_numbers (file_contents f) 1 toks.

(** [t->next] is kept by the caller; the flags are false and [current_file] is the last
    file that was tokenized. *)
Definition tokenize_string_literal (current : Z * list Z) (tok : Token) (basety basesize : Z) : cc Token :=
  let lx := Build_lexer current.1 current.2 false false in
  if basesize =? 2 then read_utf16_string_literal lx (t_loc tok) (t_loc tok)
  else read_utf32_string_literal lx (t_loc tok) (t_loc tok) basety.

(** ** Numbers *)

(** [strtoul] of libc with a base that is not 0: the value, and where the digits end. *)
Definition strtoul_base (text : ptr) (base : Z) : Z * ptr :=
  let s := (span (fun c => isspace (sext8 c)) text).2 in
  let '(negative, s) := if chr s 0 =? 43 then (false, tail s) else if chr s 0 =? 45 then (true, tail s) else (false, s) in
  let s := if (base =? 16) && (chr s 0 =? 48) && ((chr s 1 =? 120) || (chr s 1 =? 88)) &&
              (0 <=? digit_value (chr s 2)) && (digit_value (chr s 2) <? 16) then drop 2 s else s in
  let '(digits, rest) := span (fun c => (0 <=? digit_value (sext8 c)) && (digit_value (sext8 c) <? base)) s in
  let value := fold_left (fun v c => u32 (v * base + digit_value (sext8 c))) digits 0 in
  if bool_decide (digits = []) then (0, text) else (if negative : bool then u32 (0 - value) else value, rest).

(** The base of an integer constant, and its digits. *)
Definition number_prefix (p : ptr) : Z * ptr :=
  if (strncasecmp p (str "0x") 2 =? 0) && isxdigit (chr p 2) then (16, drop 2 p)
  else if (strncasecmp p (str "0b") 2 =? 0) && ((chr p 2 =? 48) || (chr p 2 =? 49)) then (2, drop 2 p)
  else if chr p 0 =? 48 then (8, p) else (10, p).

(** The suffix: [ll], [u], and what follows. *)
Definition number_suffix (p : ptr) : bool * bool * ptr :=
  if startswith p "LLU" || startswith p "LLu" || startswith p "llU" || startswith p "llu" ||
     startswith p "ULL" || startswith p "Ull" || startswith p "uLL" || startswith p "ull" then (true, true, drop 3 p)
  else if (strncasecmp p (str "lu") 2 =? 0) || (strncasecmp p (str "ul") 2 =? 0) then (false, true, drop 2 p)
  else if startswith p "LL" || startswith p "ll" then (true, false, drop 2 p)
  else if (chr p 0 =? 76) || (chr p 0 =? 108) then (false, false, tail p)
  else if (chr p 0 =? 85) || (chr p 0 =? 117) then (false, true, tail p)
  else (false, false, p).

(** The token as a number, if it is an integer constant. *)
Definition convert_pp_int (tok : Token) : option Token :=
  let '(base, p) := number_prefix (t_loc tok) in
  let '(val, p) := strtoul_base p base in
  let '(ll, u, p) := number_suffix p in
  if negb (Z.of_nat (length p) =? Z.of_nat (length (t_loc tok)) - t_len tok) then None else
  let wide := ll || negb (Z.shiftr val 32 =? 0) in
  let ty := if wide : bool then (if u : bool then ty_ullong else ty_llong) else if u then ty_uint else ty_int in
  Some (tok <| t_kind := TK_NUM |> <| t_val := val |> <| t_ty := BaseTy ty |>).

(** Arithmetic of doubles, as the soft-float runtime does it. *)
Class SoftFloat := {
  f_of_int : Z -> Z; f_add : Z -> Z -> Z; f_mul : Z -> Z -> Z; f_div : Z -> Z -> Z; f_neg : Z -> Z;
  f_tenth : Z (** [0.1] *) }.

Section numbers.
Context {F : SoftFloat}.

(** Digits before and after the point. *)
Fixpoint float_digits (p : ptr) (val : Z) : Z * ptr :=
  match p with
  | c :: p' => if isdigit (sext8 c) then float_digits p' (f_add (f_mul val (f_of_int 10)) (f_of_int (c - 48))) else (val, p)
  | [] => (val, p)
  end.
Fixpoint float_fraction (p : ptr) (val scale : Z) : Z * ptr :=
  match p with
  | c :: p' => if isdigit (sext8 c)
               then float_fraction p' (f_add val (f_mul (f_of_int (c - 48)) scale)) (f_mul scale f_tenth) else (val, p)
  | [] => (val, p)
  end.
Fixpoint float_exponent (p : ptr) (exp : Z) : Z * ptr :=
  match p with
  | c :: p' => if isdigit (sext8 c) then float_exponent p' (exp *! 10 +! (c - 48)) else (exp, p)
  | [] => (exp, p)
  end.

Definition is_blank4 (c : Z) : bool := (c =? 32) || (c =? 9) || (c =? 10) || (c =? 13).

Definition strtold (nptr : ptr) : Z * ptr :=
  let p := (span (fun c => is_blank4 c) nptr).2 in
  let '(negative, p) := if chr p 0 =? 43 then (false, tail p) else if chr p 0 =? 45 then (true, tail p) else (false, p) in
  let '(val, p) := float_digits p (f_of_int 0) in
  let '(val, p) := if chr p 0 =? 46 then float_fraction (tail p) val f_tenth else (val, p) in
  let '(val, p) :=
    if (chr p 0 =? 101) || (chr p 0 =? 69) then
      let p := tail p in
      let '(eneg, p) := if chr p 0 =? 43 then (false, tail p) else if chr p 0 =? 45 then (true, tail p) else (false, p) in
      let '(exp, p) := float_exponent p 0 in
      let pw := Z.iter exp (fun pw => f_mul pw (f_of_int 10)) (f_of_int 1) in
      (if eneg : bool then f_div val pw else f_mul val pw, p)
    else (val, p) in
  (if negative : bool then f_neg val else val, p).

Definition error_tok {A} (tok : Token) (message : string) : cc A := Fail (CcErrorTok tok (str message)).

Definition convert_pp_number (tok : Token) : cc Token :=
  match convert_pp_int tok with
  | Some tok => mret tok
  | None =>
      let '(val, e) := strtold (t_loc tok) in
      let '(ty, e) := if (chr e 0 =? 102) || (chr e 0 =? 70) then (ty_float, tail e)
                      else if (chr e 0 =? 108) || (chr e 0 =? 76) then (ty_ldouble, tail e) else (ty_double, e) in
      if negb (Z.of_nat (length (t_loc tok)) - t_len tok =? Z.of_nat (length e)) then error_tok tok "invalid numeric constant"
      else mret (tok <| t_kind := TK_NUM |> <| t_fval := val |> <| t_ty := BaseTy ty |>)
  end.

(** One step of [convert_pp_tokens]. *)
Definition convert_pp_token (tok : Token) : cc Token :=
  kw ← is_keyword tok ;
  if (kw : bool) then mret (tok <| t_kind := TK_KEYWORD |>)
  else if bool_decide (t_kind tok = TK_PP_NUM) then convert_pp_number tok else mret tok.

End numbers.

(** ** The text of a file *)

Fixpoint canonicalize_newline (p : ptr) : ptr :=
  match p with
  | [] => []
  | c :: p' =>
      if c =? 13 then match p' with
                      | d :: p'' => if d =? 10 then 10 :: canonicalize_newline p'' else 10 :: canonicalize_newline p'
                      | [] => [10]
                      end
      else c :: canonicalize_newline p'
  end.

(** [n] newlines were removed and not yet put back. *)
Fixpoint remove_backslash_newline (n : nat) (p : ptr) : ptr :=
  match p with
  | [] => replicate n 10
  | c :: p' =>
      let other := if c =? 10 then 10 :: replicate n 10 ++ remove_backslash_newline 0 p'
                   else c :: remove_backslash_newline n p' in
      match p' with
      | d :: p'' => if (c =? 92) && (d =? 10) then remove_backslash_newline (S n) p'' else other
      | [] => other
      end
  end.

(** 0 when there are not [len] hexadecimal digits. *)
Fixpoint read_universal_char (p : ptr) (len : nat) (c : Z) : Z :=
  match len with
  | O => c
  | S len => if negb (isxdigit (chr p 0)) then 0
             else read_universal_char (tail p) len (u32 (Z.lor (Z.shiftl c 4) (from_hex (chr p 0))))
  end.

Fixpoint convert_universal_chars (fuel : nat) (p : ptr) : cc ptr :=
  match fuel with O => Fail CcNoFuel | S fuel =>
  match p with
  | [] => mret []
  | a :: p' =>
      let universal len :=
        let c := read_universal_char (drop 2 p) len 0 in
        if negb (c =? 0) then rest ← convert_universal_chars fuel (drop (2 + len) p) ; mret (encode_utf8 c ++ rest)
        else rest ← convert_universal_chars fuel p' ; mret (a :: rest) in
      if startswith p "\u" then universal 4%nat
      else if startswith p "\U" then universal 8%nat
      else if a =? 92 then
        match p' with
        | [] => Fail CcUndefined
        | b :: p'' => rest ← convert_universal_chars fuel p'' ; mret (a :: b :: rest)
        end
      else rest ← convert_universal_chars fuel p' ; mret (a :: rest)
  end end.

(** The text that is tokenized of a file of the bytes [bytes]; what follows a NUL counts
    as after the text. *)
Definition source_text (bytes : list Z) : cc ptr :=
  let text := if bool_decide (last bytes = Some 10) then bytes else bytes ++ [10] in
  let text := (span (fun c => negb (c =? 0)) text).1 in
  let text := if has_prefix text [0xEF; 0xBB; 0xBF] then drop 3 text else text in
  let text := remove_backslash_newline 0 (canonicalize_newline text) in
  convert_universal_chars (S (length text)) text.

Definition tokenize_file (file file_no : Z) (path bytes : list Z) : cc (File * list Token) :=
  text ← source_text bytes ;
  let f := Build_File path file_no text path 0 in
  toks ← tokenize file f ;
  mret (f, toks).
