(* ===== verification/CcTokenSpec.v ===== *)
(** * CcTokenSpec: what the tokenizer promises

    On the text of a file the tokenizer ends, with tokens or with an error at a place of
    the text, and reads nothing outside; the tokens and the blanks and comments between
    them are the text.  UTF-8 is decoded as it is encoded; a keyword is a word of the
    list. *)

From stdpp Require Import gmap.
From S2P Require Import Prelude Config Kernel Klog RawMem UserMem LibString LibFormat CcHash CcToken.

(** ** Computations that do not leave the text *)

(** A value that satisfies [Q], or an error at a place of [text]. *)
Definition lexes {A} (text : ptr) (m : cc A) (Q : A -> Prop) : Prop :=
  match m with
  | Got a => Q a
  | Fail (CcErrorAt loc _) => loc `suffix_of` text
  | Fail _ => False
  end.

Lemma lexes_ret {A} text (a : A) (Q : A -> Prop) : Q a -> lexes text (mret a) Q.
Proof. done. Qed.

Lemma lexes_bind {A B} text (m : cc A) (k : A -> cc B) P Q :
  lexes text m P -> (forall a, P a -> lexes text (k a) Q) -> lexes text (mbind k m) Q.
Proof. intros Hm Hk. destruct m as [a|[]]; cbn in *; auto. Qed.

Lemma lexes_mono {A} text (m : cc A) (P Q : A -> Prop) : lexes text m P -> (forall a, P a -> Q a) -> lexes text m Q.
Proof. intros Hm Hk. destruct m as [a|[]]; cbn in *; auto. Qed.

Lemma lexes_eq {A} text (m : cc A) (P : A -> Prop) : lexes text m P -> lexes text m (fun a => P a /\ m = Got a).
Proof. by destruct m as [a|[]]. Qed.

Lemma lexes_error {A} text loc message (Q : A -> Prop) : loc `suffix_of` text -> lexes text (error_at loc message) Q.
Proof. done. Qed.

(** Go on at a position that is valid. *)
Ltac lex_valid := match goal with |- lexes ?t (mbind ?k (valid (Some ?p))) ?Q => change (lexes t (k p) Q); cbv beta end.

(** The bytes of a text. *)
Definition text_bytes (p : ptr) : Prop := Forall (fun c => 0 < c < 256) p.

Lemma text_suffix p q : q `suffix_of` p -> text_bytes p -> text_bytes q.
Proof. intros [k ->] H. by apply Forall_app in H as [_ ?]. Qed.

Lemma text_cons d p : text_bytes (d :: p) -> 0 < d < 256 /\ text_bytes p.
Proof. intros H. by inversion H. Qed.

Lemma chr_eqb p i k : text_bytes p -> 0 <= k < 128 -> (chr p i =? k) = (nthz p i =? k).
Proof.
  intros H Hk. unfold chr, sext8. assert (0 <= nthz p i < 256).
  { unfold nthz. case_match; [lia|]. destruct (nth_in_or_default (Z.to_nat i) p 0) as [Hin|E]; [|rewrite E; lia].
    pose proof (proj1 (Forall_forall _ _) H _ ltac:(by apply list_elem_of_In)). cbn in *. lia. }
  repeat case_match; lia.
Qed.

(** ** UTF-8 *)

(** The text from [p] to [q] is [g]. *)
Lemma decode_rest_run text start p i n c : start `suffix_of` text -> 0 <= i ->
  lexes text (decode_rest start p i n c) (fun _ => forall j, i <= j < i + Z.of_nat n -> 128 <= nthz p j < 192).
Proof.
  revert i c. induction n as [|n IH]; intros i c Hs Hi; cbn [decode_rest]; [apply lexes_ret; lia|].
  destruct (Z.shiftr (nthz p i) 6 =? 2) eqn:E; cbn [negb]; [|by apply lexes_error].
  eapply lexes_mono; [apply IH; [done|lia]|]. intros c1 H j Hj. destruct (decide (j = i)) as [Eji|]; [rewrite Eji|apply H; lia].
  apply Z.eqb_eq in E. rewrite Z.shiftr_div_pow2 in E by lia. change (2 ^ 6) with 64 in E. pose proof (Z.div_mod (nthz p i) 64). 
  pose proof (Z.mod_pos_bound (nthz p i) 64). lia.
Qed.

Lemma nthz_bound p j : nthz p j <> 0 -> 0 <= j < Z.of_nat (length p).
Proof.
  unfold nthz. case_match; [done|]. intros Hn. assert (~ (length p <= Z.to_nat j)%nat) by (intros Hl; by rewrite nth_overflow in Hn). lia.
Qed.

Lemma continuation_split len b p : (1 <= len)%nat -> (forall j, 1 <= j < 1 + Z.of_nat (len - 1) -> 128 <= nthz (b :: p) j < 192) ->
  p = take (len - 1) p ++ drop len (b :: p) /\ Forall (fun d => 128 <= d < 192) (take (len - 1) p).
Proof.
  intros Hl H. destruct len as [|len]; [lia|]. cbn [drop]. replace (S len - 1)%nat with len in * by lia.
  split; [by rewrite take_drop|]. apply Forall_lookup_2. intros i x Hx. apply lookup_take_Some in Hx as [Hx Hi].
  specialize (H (Z.of_nat i + 1) ltac:(lia)). unfold nthz in H. rewrite (proj2 (Z.ltb_ge _ 0)) in H by lia.
  replace (Z.to_nat (Z.of_nat i + 1)) with (S i) in H by lia. cbn [nth] in H. by rewrite (nth_lookup_Some _ _ 0 _ Hx) in H.
Qed.

(** Not at the end: a character and the place after it; what comes after its first byte
    is no ASCII character. *)
Lemma decode_run text b p : b :: p `suffix_of` text ->
  lexes text (decode_utf8 (b :: p)) (fun '(c, q) => exists g q', q = Some q' /\ p = g ++ q' /\ Forall (fun d => 128 <= d < 192) g).
Proof.
  intros Hs. unfold decode_utf8. change (nthz (b :: p) 0) with b. destruct (Z.ltb_spec b 128).
  { apply lexes_ret. by exists [], p. }
  eapply lexes_bind with (P := fun '(len, c) => (1 <= len)%nat).
  { repeat case_match; try (apply lexes_ret; lia). by apply lexes_error. }
  intros [len c] Hl. eapply lexes_bind; [by apply decode_rest_run|]. intros c1 Hc. apply lexes_ret.
  destruct (continuation_split len b p Hl Hc) as [E F]. by exists (take (len - 1) p), (drop len (b :: p)).
Qed.

(** ** Identifiers *)

Lemma suffix_trans (a b c : ptr) : a `suffix_of` b -> b `suffix_of` c -> a `suffix_of` c.
Proof. intros [k ->] [k' ->]. exists (k' ++ k). by rewrite app_assoc. Qed.

Lemma suffix_length_le (a b : ptr) : a `suffix_of` b -> (length a <= length b)%nat.
Proof. intros [k ->]. rewrite length_app. lia. Qed.

Lemma ident_end_run text fuel p : p `suffix_of` text -> (length p < fuel)%nat ->
  lexes text (ident_end fuel p) (fun e => e `suffix_of` p).
Proof.
  revert p. induction fuel as [|fuel IH]; intros p Hs Hf; [lia|]. cbn [ident_end]. destruct p as [|b p]; [by exists []|].
  eapply lexes_bind; [by apply decode_run|]. intros [c q] (g & q' & -> & -> & _).
  destruct (is_ident2 c); cbn [negb]; [|by exists []]. lex_valid.
  assert (q' `suffix_of` b :: g ++ q') by (by exists (b :: g)).
  eapply lexes_mono; [apply IH|intros e He; by apply (suffix_trans _ _ _ He)].
  - by apply (suffix_trans _ _ _ H).
  - apply suffix_length_le in H. cbn [length] in *. rewrite length_app in *. lia.
Qed.

Lemma drop_to (a b : ptr) : a `suffix_of` b -> drop (Z.to_nat (Z.of_nat (length b) - Z.of_nat (length a))) b = a.
Proof. intros [k ->]. rewrite length_app. replace (Z.to_nat _) with (length k) by lia. by rewrite drop_app_length. Qed.

Lemma read_ident_run text p : p `suffix_of` text -> p <> [] ->
  lexes text (read_ident p) (fun n => n = 0 \/ 0 < n <= Z.of_nat (length p)).
Proof.
  intros Hs Hp. unfold read_ident. destruct p as [|b p]; [done|]. eapply lexes_bind; [by apply decode_run|].
  intros [c q] (g & q' & -> & -> & _). destruct (is_ident1 c); cbn [negb]; [|by left].
  lex_valid. assert (q' `suffix_of` b :: g ++ q') by (by exists (b :: g)).
  eapply lexes_bind; [apply ident_end_run; [by apply (suffix_trans _ _ _ H)|lia]|].
  intros e He. apply lexes_ret. right. apply suffix_length_le in He, H. cbn [length] in *. rewrite length_app in *. lia.
Qed.

(** ** Literals *)

(** A character that [string_literal_end] walks over. *)
Definition inside (d : Z) : Prop := d <> 34 /\ d <> 10 /\ d <> 92.

Lemma end_inside st g p : Forall inside g -> string_literal_end st (g ++ p) = string_literal_end st p.
Proof.
  induction 1 as [|d g (H1 & H2 & H3) _ IH]; [done|]. cbn [app string_literal_end].
  by rewrite (proj2 (Z.eqb_neq d 34)), (proj2 (Z.eqb_neq d 10)), (proj2 (Z.eqb_neq d 92)) by done.
Qed.

Lemma end_escape st d p : string_literal_end st (92 :: d :: p) = string_literal_end st p.
Proof. done. Qed.

Lemma last_cons_ne {A} (a : A) l : l <> [] -> last (a :: l) = last l.
Proof. by destruct l. Qed.

Lemma last_suffix (a b : ptr) : a `suffix_of` b -> a <> [] -> last a = last b.
Proof. intros [k ->] H. destruct a as [|x a] using rev_ind; [done|]. by rewrite app_assoc, !last_snoc. Qed.

(** In a text that ends with a newline. *)
Lemma literal_end_run text st p : text_bytes text -> last text = Some 10 -> st `suffix_of` text -> p `suffix_of` text ->
  lexes text (string_literal_end st p) (fun e => exists k e', e = 34 :: e' /\ p = k ++ e).
Proof.
  intros Ht Hn Hst. assert (forall n p, (length p < n)%nat -> p `suffix_of` text ->
    lexes text (string_literal_end st p) (fun e => exists k e', e = 34 :: e' /\ p = k ++ e)) as H; [|by eapply (H (S (length p))); auto].
  clear p. induction n as [|n IH]; intros p Hl Hp; [lia|]. destruct p as [|c p]; cbn [string_literal_end]; [by apply lexes_error|].
  destruct (Z.eqb_spec c 34) as [->|]; [by exists [], p|]. destruct (Z.eqb_spec c 10); [by apply lexes_error|].
  assert (Hp' : p `suffix_of` text) by (eapply suffix_trans; [|done]; by exists [c]).
  destruct (Z.eqb_spec c 92) as [->|].
  - destruct p as [|d p]; [apply (last_suffix _ _) in Hp; [|done]; rewrite Hn in Hp; done|].
    eapply lexes_mono; [apply IH; [cbn [length] in *; lia|eapply suffix_trans; [|exact Hp']; by exists [d]]|].
    intros e (k & e' & -> & ->). by exists (92 :: d :: k), e'.
  - eapply lexes_mono; [apply IH; [cbn [length] in *; lia|done]|]. intros e (k & e' & -> & ->). by exists (c :: k), e'.
Qed.

Lemma is_octal_range d : text_bytes [d] -> is_octal (sext8 d) = true -> inside d.
Proof. intros H%Forall_inv. unfold is_octal, sext8, inside. case_match; lia. Qed.

Lemma isxdigit_range d : text_bytes [d] -> isxdigit (sext8 d) = true -> inside d.
Proof. intros H%Forall_inv. unfold isxdigit, isdigit, sext8, inside. case_match; lia. Qed.

Lemma octal_run n : forall p c, text_bytes p -> exists g, p = g ++ (octal_digits n p c).2 /\ Forall inside g.
Proof.
  induction n as [|n IH]; intros p c Hp; [by exists []|]. destruct p as [|d p]; [by exists []|]. cbn [octal_digits].
  apply text_cons in Hp as [Hd Hp]. destruct (is_octal (sext8 d)) eqn:E; [|by exists []].
  destruct (IH p (shl c 3 + (sext8 d - 48)) Hp) as (g & Eg & Fg). exists (d :: g). split; [cbn; by rewrite <- Eg|].
  constructor; [|done]. apply is_octal_range; [by constructor|done].
Qed.

Lemma hex_run p : forall c, text_bytes p -> exists g, p = g ++ (hex_digits p c).2 /\ Forall inside g.
Proof.
  induction p as [|d p IH]; intros c Hp; [by exists []|]. cbn [hex_digits].
  apply text_cons in Hp as [Hd Hp]. destruct (isxdigit (sext8 d)) eqn:E; [|by exists []].
  destruct (IH (shl c 4 +! from_hex (sext8 d)) Hp) as (g & Eg & Fg). exists (d :: g). split; [cbn; by rewrite <- Eg|].
  constructor; [|done]. apply isxdigit_range; [by constructor|done].
Qed.

(** An escape ends inside the text, after at least the character that follows the
    backslash. *)
Lemma escape_run text d p : text_bytes text -> d :: p `suffix_of` text ->
  lexes text (read_escaped_char (d :: p)) (fun '(c, q) => exists g q', q = Some q' /\ p = g ++ q' /\ Forall inside g).
Proof.
  intros Ht Hs. pose proof (text_suffix _ _ Hs Ht) as Hb. apply text_cons in Hb as [Hd Hp]. unfold read_escaped_char.
  change (chr (d :: p) 0) with (sext8 d). destruct (is_octal (sext8 d)) eqn:Eo.
  - replace (octal_digits 3 (d :: p) 0) with (octal_digits 2 p (shl 0 3 + (sext8 d - 48))) by (symmetry; cbn -[shl]; by rewrite Eo).
    destruct (octal_run 2 p (shl 0 3 + (sext8 d - 48)) Hp) as (g & E & F).
    destruct (octal_digits 2 p _) as [c q]. apply lexes_ret. by exists g, q.
  - destruct (sext8 d =? 120); [|apply lexes_ret; by exists [], p]. cbn [tail]. destruct (isxdigit (chr p 0)); cbn [negb].
    + destruct (hex_run p 0 Hp) as (g & E & F). destruct (hex_digits p 0) as [c q]. apply lexes_ret. by exists g, q.
    + apply lexes_error. eapply suffix_trans; [|done]. by exists [d].
Qed.

(** Reading a character that is no escape stays before the closing quote. *)
Definition plain_ok (text : ptr) (plain : ptr -> cc (list Z * option ptr)) : Prop := forall d p, inside d -> d :: p `suffix_of` text ->
  lexes text (plain (d :: p)) (fun '(_, q) => exists g q', q = Some q' /\ p = g ++ q' /\ Forall inside g).

Lemma high_inside g : Forall (fun d => 128 <= d < 192) g -> Forall inside g.
Proof. intros H. apply (Forall_impl _ _ _ H). unfold inside. lia. Qed.

Lemma plain_byte_ok text : plain_ok text plain_byte.
Proof. intros d p _ _. apply lexes_ret. by exists [], p. Qed.

Lemma plain_utf16_ok text : plain_ok text plain_utf16.
Proof.
  intros d p _ Hs. unfold plain_utf16. eapply lexes_bind; [by apply decode_run|]. intros [c q] (g & q' & -> & E & F).
  apply lexes_ret. exists g, q'. by apply high_inside in F.
Qed.

Lemma plain_utf32_ok text : plain_ok text plain_utf32.
Proof.
  intros d p _ Hs. unfold plain_utf32. eapply lexes_bind; [by apply decode_run|]. intros [c q] (g & q' & -> & E & F).
  apply lexes_ret. exists g, q'. by apply high_inside in F.
Qed.

Lemma end_suffix st p e : string_literal_end st p = Got e -> exists k e', e = 34 :: e' /\ p = k ++ e.
Proof.
  assert (forall n p, (length p < n)%nat -> string_literal_end st p = Got e -> exists k e', e = 34 :: e' /\ p = k ++ e) as H; [|by eapply (H (S (length p))); auto].
  clear p. induction n as [|n IH]; intros p Hl Hp; [lia|]. destruct p as [|c p]; [done|]. cbn [string_literal_end] in Hp.
  destruct (Z.eqb_spec c 34) as [->|]; [injection Hp as <-; by exists [], p|]. destruct (c =? 10); [done|].
  destruct (c =? 92).
  - destruct p as [|d p]; [done|]. destruct (IH p ltac:(cbn in *; lia) Hp) as (k & e' & -> & ->). by exists (c :: d :: k), e'.
  - destruct (IH p ltac:(cbn in *; lia) Hp) as (k & e' & -> & ->). by exists (c :: k), e'.
Qed.

Lemma literal_units_run text plain w st e : text_bytes text -> plain_ok text plain -> forall fuel p, (length p < fuel)%nat ->
  p `suffix_of` text -> string_literal_end st p = Got e ->
  lexes text (literal_units plain w fuel p e) (fun _ => True).
Proof.
  intros Ht Hplain. induction fuel as [|fuel IH]; intros p Hl Hs He; [lia|]. cbn [literal_units].
  destruct (Z.leb_spec (Z.of_nat (length p)) (Z.of_nat (length e))) as [|Hlt]; [by apply lexes_ret|].
  destruct (end_suffix _ _ _ He) as (k & e' & -> & Ek). destruct p as [|d p]; [cbn in Hlt; lia|].
  eapply lexes_bind with (P := fun '(_, q) => exists g q', q = Some q' /\ p = g ++ q' /\ string_literal_end st q' = Got (34 :: e')).
  - rewrite (chr_eqb _ 0 92 (text_suffix _ _ Hs Ht)) by lia. change (nthz (d :: p) 0) with d.
    destruct (Z.eqb_spec d 92) as [->|Hd].
    + destruct p as [|x p]; [done|]. rewrite end_escape in He. cbn [tail].
      eapply lexes_bind; [apply (escape_run text x p Ht); eapply suffix_trans; [|exact Hs]; by exists [92]|].
      intros [c q] (g & q' & -> & -> & F). apply lexes_ret. exists (x :: g), q'. split; [done|]. split; [done|]. by rewrite end_inside in He.
    + cbn [string_literal_end] in He. destruct (Z.eqb_spec d 34); [injection He as _ ->; cbn in Hlt; lia|].
      destruct (Z.eqb_spec d 10); [done|]. rewrite (proj2 (Z.eqb_neq d 92)) in He by done.
      eapply lexes_mono; [by apply Hplain|]. intros [us q] (g & q' & -> & -> & F). exists g, q'. by rewrite end_inside in He.
  - intros [us q] (g & q' & -> & -> & Hq). lex_valid. eapply lexes_bind; [apply IH; [|by apply (suffix_trans _ (d :: g ++ q')); [exists (d :: g)|]|done]|done].
    cbn [length] in Hl. rewrite length_app in Hl. lia.
Qed.

(** ** The tokens of a text *)

Section text.
(** A text that ends with a newline. *)
Context (text : ptr) (Hbytes : text_bytes text) (Hlast : last text = Some 10).
#[local] Set Default Proof Using "Type*".

(** A token that starts at [p], with the flags of [lx]. *)
Record token_at (lx : lexer) (p : ptr) (tok : Token) : Prop := {
  ta_loc : t_loc tok = p;
  ta_len : 0 < t_len tok <= Z.of_nat (length p);
  ta_kind : t_kind tok <> TK_EOF;
  ta_flags : t_at_bol tok = lx_at_bol lx /\ t_has_space tok = lx_has_space lx;
  ta_file : t_file tok = lx_file lx /\ t_filename tok = lx_filename lx }.

Lemma new_token_at lx kind p e : kind <> TK_EOF -> e `suffix_of` p -> e <> p -> token_at lx p (new_token lx kind p e).
Proof.
  intros Hk [k ->] Hne. split; cbn; try done. rewrite length_app. destruct k; [done|]. cbn. lia.
Qed.

(** Its value, type and contents do not matter. *)
Lemma token_at_value lx p tok v : token_at lx p tok -> token_at lx p (tok <| t_val := v |>).
Proof. intros []. by split. Qed.
Lemma token_at_type lx p tok ty : token_at lx p tok -> token_at lx p (tok <| t_ty := ty |>).
Proof. intros []. by split. Qed.
Lemma token_at_contents lx p tok s : token_at lx p tok -> token_at lx p (tok <| t_str := s |>).
Proof. intros []. by split. Qed.

Lemma string_token_run lx plain w base start quote : plain_ok text plain -> start `suffix_of` text -> quote `suffix_of` start -> quote <> [] ->
  lexes text (string_token lx plain w base start quote) (token_at lx start).
Proof.
  intros Hplain Hs Hq Hne. destruct quote as [|c quote]; [done|]. unfold string_token. cbn [tail].
  assert (Hq' : quote `suffix_of` start) by (eapply suffix_trans; [|exact Hq]; by exists [c]).
  pose proof (suffix_trans _ _ _ Hq' Hs) as Hqt.
  eapply lexes_bind; [apply lexes_eq; by apply literal_end_run|]. intros e [(k & e' & -> & Ek) He].
  eapply lexes_bind; [eapply literal_units_run; [done|done|cbn [length]; lia|done|exact He]|]. intros buf _. apply lexes_ret. cbn [tail].
  assert (e' `suffix_of` start). { eapply suffix_trans; [|exact Hq']. exists (k ++ [34]). by rewrite Ek, <- app_assoc. }
  apply token_at_contents, token_at_type, (new_token_at lx TK_STR start e'); [done|done|]. intros ->. apply suffix_length_le in Hq'. rewrite Ek, length_app in Hq'. cbn in Hq'. lia.
Qed.

Lemma span_suffix f (p : ptr) : (span f p).2 `suffix_of` p.
Proof. exists (span f p).1. apply span_app. Qed.

Lemma char_literal_run lx start quote ty : start `suffix_of` text -> quote `suffix_of` start -> quote <> [] ->
  lexes text (read_char_literal lx start quote ty) (token_at lx start).
Proof.
  intros Hs Hq Hne. destruct quote as [|c quote]; [done|]. unfold read_char_literal. cbn [tail].
  case_bool_decide as Hq0; [by apply lexes_error|]. destruct quote as [|d quote]; [done|].
  assert (Hq' : d :: quote `suffix_of` start) by (eapply suffix_trans; [|exact Hq]; by exists [c]).
  pose proof (suffix_trans _ _ _ Hq' Hs) as Hqt.
  eapply lexes_bind with (P := fun '(_, q) => exists g q', q = Some q' /\ d :: quote = g ++ q').
  - rewrite (chr_eqb _ 0 92 (text_suffix _ _ Hqt Hbytes)) by lia. change (nthz (d :: quote) 0) with d. cbn [tail].
    destruct (Z.eqb_spec d 92) as [->|].
    + destruct quote as [|x quote]; [apply (last_suffix _ _) in Hqt; [|done]; by rewrite Hlast in Hqt|].
      eapply lexes_mono; [apply (escape_run text x quote Hbytes); eapply suffix_trans; [|exact Hqt]; by exists [92]|].
      intros [v q] (g & q' & -> & -> & _). by exists (92 :: x :: g), q'.
    + eapply lexes_mono; [by apply decode_run|]. intros [v q] (g & q' & -> & -> & _). by exists (d :: g), q'.
  - intros [v q] (g & q' & -> & Eq). lex_valid. unfold strchr.
    assert (Hq2 : q' `suffix_of` start). { eapply suffix_trans; [|exact Hq']. by exists g. }
    destruct (span _ q').2 as [|y e] eqn:Es; [apply lexes_error; by apply (suffix_trans _ _ _ Hq2)|]. apply lexes_ret. cbn [tail].
    assert (He : y :: e `suffix_of` start) by (rewrite <- Es; apply (suffix_trans _ _ _ (span_suffix _ q') Hq2)).
    apply token_at_type, token_at_value, (new_token_at lx TK_NUM start e); [done|eapply suffix_trans; [|exact He]; by exists [y]|].
    intros ->. apply suffix_length_le in He. cbn in He. lia.
Qed.

Lemma line_end_run p : p `suffix_of` text -> p <> [] -> exists g e, line_end p = Got (10 :: e) /\ p = g ++ 10 :: e /\ Forall (fun c => c <> 10) g.
Proof.
  intros Hs Hne. pose proof (last_suffix _ _ Hs Hne) as Hl. rewrite Hlast in Hl. clear Hs. induction p as [|c p IH]; [done|].
  cbn [line_end]. destruct (Z.eqb_spec c 10) as [->|]; [by exists [], p|].
  destruct p as [|d p]; [by injection Hl as ->|]. destruct (IH ltac:(done) Hl) as (g & e & E & Eg & F).
  exists (c :: g), e. split; [done|]. split; [by rewrite Eg|by constructor].
Qed.

Lemma comment_end_run p q : comment_end p = Some q -> exists g q', p = g ++ q /\ q = str "*/" ++ q'.
Proof.
  induction p as [|c p IH]; [done|]. cbn [comment_end]. case_match eqn:E.
  - intros [= <-]. apply bool_decide_eq_true in E. exists [], (drop 2 (c :: p)). split; [done|]. rewrite <- E at 1. change (length (str "*/")) with 2%nat.
    by rewrite take_drop.
  - intros H. destruct (IH H) as (g & q' & -> & ->). by exists (c :: g), q'.
Qed.

Lemma pp_number_suffix p : pp_number_end p `suffix_of` p.
Proof.
  assert (forall n p, (length p < n)%nat -> pp_number_end p `suffix_of` p) as H; [|apply (H (S (length p))); lia]. clear p.
  induction n as [|n IH]; intros p Hl; [lia|]. destruct p as [|c [|d p]]; [by exists []| |].
  { change (pp_number_end [c]) with (if isalnum (sext8 c) || (c =? 46) then [] else [c]). destruct (_ || _); [by exists [c]|by exists []]. }
  change (pp_number_end (c :: d :: p)) with (if is_exponent c d then pp_number_end p
    else if isalnum (sext8 c) || (c =? 46) then pp_number_end (d :: p) else c :: d :: p). destruct (is_exponent c d).
  - eapply suffix_trans; [apply IH; cbn in Hl; lia|by exists [c; d]].
  - destruct (_ || _); [|by exists []]. eapply suffix_trans; [apply IH; cbn in *; lia|by exists [c]].
Qed.

(** ** One round of the loop *)

(** What is skipped between two tokens, and the flags before and after it. *)
Inductive gap (bol space : bool) : list Z -> bool -> bool -> Prop :=
| gap_newline : gap bol space [10] true false
| gap_space c : isspace (sext8 c) = true -> c <> 10 -> gap bol space [c] bol true
| gap_line body : Forall (fun c => c <> 10) body -> gap bol space (str "//" ++ body) bol true
| gap_block body : gap bol space (str "/*" ++ body ++ str "*/") bol true.

Definition lexed_ok (lx : lexer) (p : ptr) (r : lexed) : Prop :=
  match r with
  | Tok tok => token_at lx p tok
  | Skip q bol space => exists g, p = g ++ q /\ gap (lx_at_bol lx) (lx_has_space lx) g bol space
  end.

Lemma prefix_split p (q : list Z) : has_prefix p q = true -> p = q ++ drop (length q) p.
Proof. intros H%bool_decide_eq_true. rewrite <- H at 1. by rewrite take_drop. Qed.

Lemma read_punct_run p : p <> [] -> text_bytes p -> 0 <= read_punct p <= Z.of_nat (length p).
Proof.
  intros Hne Hb. unfold read_punct. destruct (find (startswith p) punctuators) as [kw|] eqn:E.
  - apply find_some in E as [_ E]. apply prefix_split in E. rewrite E, length_app. lia.
  - destruct p; [done|]. cbn [length]. destruct (ispunct _); lia.
Qed.

Lemma drop_token lx kind p n : kind <> TK_EOF -> 0 < n <= Z.of_nat (length p) -> token_at lx p (new_token lx kind p (drop (Z.to_nat n) p)).
Proof.
  intros Hk Hn. apply new_token_at; [done|exists (take (Z.to_nat n) p); by rewrite take_drop|].
  intros E. apply (f_equal length) in E. rewrite length_drop in E. lia.
Qed.

Lemma lex_word_run lx p : p `suffix_of` text -> p <> [] -> lexes text (lex_word lx p) (lexed_ok lx p).
Proof.
  intros Hs Hne. unfold lex_word. eapply lexes_bind; [by apply read_ident_run|]. intros n Hn. cbv beta in Hn.
  destruct (Z.eqb_spec n 0) as [->|]; cbn [negb]; [|apply lexes_ret, drop_token; [done|lia]].
  unfold lex_punct. pose proof (read_punct_run p Hne (text_suffix _ _ Hs Hbytes)).
  destruct (Z.eqb_spec (read_punct p) 0); cbn [negb]; [by apply lexes_error|apply lexes_ret, drop_token; [done|lia]].
Qed.

Lemma drop_suffix n (p : ptr) : drop n p `suffix_of` p.
Proof. exists (take n p). by rewrite take_drop. Qed.

(** A prefix that ends with a quote. *)
Lemma quote_left p q n : has_prefix p q = true -> (n < length q)%nat -> drop n p <> [].
Proof. intros H%prefix_split Hn E. apply (f_equal length) in E. rewrite H, length_drop, length_app in E. cbn in E. lia. Qed.

Lemma lex_literal_run lx p m : p `suffix_of` text -> p <> [] -> lex_literal lx p = Some m -> lexes text m (token_at lx p).
Proof.
  intros Hs Hne. unfold lex_literal.
  repeat match goal with |- (if ?b then _ else _) = _ -> _ => destruct b eqn:? end; intros [= <-];
    try (eapply lexes_bind; [|intros tok Htok; apply lexes_ret, token_at_value; exact Htok]);
    first [apply string_token_run|apply char_literal_run];
    try apply plain_byte_ok; try apply plain_utf16_ok; try apply plain_utf32_ok; try apply drop_suffix; try done;
    try (eapply quote_left; [eassumption|cbn; lia]).
Qed.

Lemma skip_ok lx p g q bol space : p = g ++ q -> gap (lx_at_bol lx) (lx_has_space lx) g bol space -> lexed_ok lx p (Skip q bol space).
Proof. intros E H. by exists g. Qed.

Lemma lex_one_run lx c p : c :: p `suffix_of` text -> lexes text (lex_one lx (c :: p)) (lexed_ok lx (c :: p)).
Proof.
  intros Hs. unfold lex_one. pose proof (text_suffix _ _ Hs Hbytes) as Hb.
  destruct (startswith (c :: p) "//") eqn:E1.
  { apply prefix_split in E1. change (drop (length (str "//")) (c :: p)) with (tail p) in E1. change (drop 2 (c :: p)) with (tail p).
    assert (Hs2 : tail p `suffix_of` text) by (eapply suffix_trans; [|exact Hs]; rewrite E1; by exists (str "//")).
    assert (Hne : tail p <> []).
    { intros E0. rewrite E0, app_nil_r in E1. apply last_suffix in Hs; [|done]. rewrite E1, Hlast in Hs. done. }
    destruct (line_end_run _ Hs2 Hne) as (g & e & -> & Eg & F). apply lexes_ret. eapply skip_ok with (g := str "//" ++ g); [|by apply gap_line].
    by rewrite E1, Eg, <- app_assoc. }
  destruct (startswith (c :: p) "/*") eqn:E2.
  { apply prefix_split in E2. change (drop (length (str "/*")) (c :: p)) with (tail p) in E2. change (drop 2 (c :: p)) with (tail p).
    destruct (comment_end (tail p)) as [q|] eqn:Ec; [|by apply lexes_error]. destruct (comment_end_run _ _ Ec) as (g & q' & Eg & ->).
    apply lexes_ret. eapply skip_ok with (g := str "/*" ++ g ++ str "*/"); [|by apply gap_block].
    rewrite E2, Eg, <- !app_assoc. done. }
  rewrite !(chr_eqb _ 0 _ Hb) by lia. change (nthz (c :: p) 0) with c. change (chr (c :: p) 0) with (sext8 c). cbn [tail].
  destruct (Z.eqb_spec c 10) as [->|Hc]; [apply lexes_ret, (skip_ok _ _ [10]); [done|apply gap_newline]|].
  destruct (isspace (sext8 c)) eqn:Es; [apply lexes_ret, (skip_ok _ _ [c]); [done|by apply gap_space]|].
  destruct (_ || _).
  { apply lexes_ret, new_token_at; [done|eapply suffix_trans; [apply pp_number_suffix|by exists [c]]|].
    intros E. pose proof (suffix_length_le _ _ (pp_number_suffix p)) as Hl. rewrite E in Hl. cbn [length] in Hl. lia. }
  destruct (lex_literal lx (c :: p)) as [m|] eqn:El; [|by apply lex_word_run].
  eapply lexes_bind; [by eapply lex_literal_run|]. intros tok H. by apply lexes_ret.
Qed.

(** ** The whole text *)

(** Tokens and gaps, in order, are the text; each token has the flags of the gap before it. *)
Inductive tiles : bool -> bool -> ptr -> list Token -> Prop :=
| tiles_end bol space tok : t_kind tok = TK_EOF -> t_loc tok = [] -> t_at_bol tok = bol -> t_has_space tok = space ->
    tiles bol space [] [tok]
| tiles_gap bol space g bol' space' q toks : gap bol space g bol' space' -> tiles bol' space' q toks -> tiles bol space (g ++ q) toks
| tiles_token bol space tok q toks : t_loc tok = lexeme tok ++ q -> lexeme tok <> [] -> t_kind tok <> TK_EOF ->
    t_at_bol tok = bol -> t_has_space tok = space -> tiles false false q toks -> tiles bol space (lexeme tok ++ q) (tok :: toks).

Lemma lex_from_run fuel : forall lx p, (length p < fuel)%nat -> p `suffix_of` text ->
  lexes text (lex_from fuel lx p) (tiles (lx_at_bol lx) (lx_has_space lx) p).
Proof.
  induction fuel as [|fuel IH]; intros lx p Hl Hs; [lia|]. cbn [lex_from]. destruct p as [|c p]; [apply lexes_ret; by apply tiles_end|].
  eapply lexes_bind; [by apply lex_one_run|]. intros [tok|q bol space] H.
  - destruct H as [Hloc Hlen Hk [Hb Hsp] _].
    assert (Hd : drop (Z.to_nat (t_len tok)) (c :: p) `suffix_of` c :: p) by apply drop_suffix.
    eapply lexes_bind; [apply IH; [rewrite length_drop; lia|by apply (suffix_trans _ _ _ Hd)]|]. intros toks Htoks. apply lexes_ret.
    assert (E : c :: p = lexeme tok ++ drop (Z.to_nat (t_len tok)) (c :: p)) by (unfold lexeme; by rewrite Hloc, take_drop).
    rewrite E. apply tiles_token; [by rewrite Hloc|intros E0|done|done|done|exact Htoks].
    apply (f_equal length) in E0. unfold lexeme in E0. rewrite length_take, Hloc in E0. cbn in E0. lia.
  - destruct H as (g & E & Hg). assert (q `suffix_of` c :: p) by (by exists g).
    eapply lexes_mono; [apply IH|intros toks Htoks; rewrite E; eapply tiles_gap; [exact Hg|exact Htoks]].
    + rewrite E, length_app in Hl. destruct Hg; cbn in Hl; lia.
    + by apply (suffix_trans _ _ _ H).
Qed.

(** ** Line numbers *)

(** The newlines between two places. *)
Definition newlines (g : list Z) : Z := Z.of_nat (length (filter (fun c => c = 10) g)).

(** The number of the line where the text that is left is [loc]. *)
Definition line_of (p : ptr) (n : Z) (loc : ptr) : Z := n + newlines (take (length p - length loc) p).
Definition numbered (p : ptr) (n : Z) (tok : Token) : Token := tok <| t_line_no := line_of p n (t_loc tok) |>.

(** The places of the tokens, in order, the last at the end. *)
Fixpoint located (p : ptr) (toks : list Token) : Prop :=
  match toks with
  | [] => False
  | tok :: toks => t_loc tok `suffix_of` p /\
      match toks with [] => t_loc tok = [] | _ => exists q, q `suffix_of` t_loc tok /\ q <> t_loc tok /\ located q toks end
  end.

End text.

Lemma suffix_cons_cases (a p : ptr) c : a `suffix_of` c :: p -> a = c :: p \/ a `suffix_of` p.
Proof. intros [[|d k] E]; [left; by rewrite E|right]. injection E as -> ->. by exists k. Qed.

Lemma suffix_same_length (a b : ptr) : a `suffix_of` b -> length a = length b -> a = b.
Proof. intros [k ->] H. rewrite length_app in H. destruct k; [done|cbn in H; lia]. Qed.

Lemma located_mono toks p q : q `suffix_of` p -> located q toks -> located p toks.
Proof.
  intros Hs. destruct toks as [|tok toks]; [done|]. intros [H1 H2]. split; [by apply (suffix_trans _ _ _ H1)|done].
Qed.

Lemma line_of_cons c p n loc : loc `suffix_of` p -> line_of (c :: p) n loc = line_of p (if c =? 10 then n + 1 else n) loc.
Proof.
  intros H%suffix_length_le. unfold line_of. cbn [length]. replace (S (length p) - length loc)%nat with (S (length p - length loc)) by lia.
  cbn [take]. unfold newlines. rewrite filter_cons. destruct (Z.eqb_spec c 10); [rewrite decide_True by done|by rewrite decide_False]. cbn [length]. lia.
Qed.

Lemma located_after tok toks p : located p (tok :: toks) -> toks <> [] -> exists q, q `suffix_of` t_loc tok /\ q <> t_loc tok /\ located q toks.
Proof. destruct toks; [done|]. by intros [_ H]. Qed.

Lemma located_suffix tok toks p : located p (tok :: toks) -> t_loc tok `suffix_of` p.
Proof. by intros [H _]. Qed.

Lemma located_all toks : forall p tok, located p toks -> In tok toks -> t_loc tok `suffix_of` p.
Proof.
  induction toks as [|x toks IH]; intros p tok H; [done|]. intros [->|Hin]; [by eapply located_suffix|].
  destruct (located_after _ _ _ H ltac:(by destruct toks)) as (q & Hq & _ & Hl). eapply suffix_trans; [by apply (IH q)|].
  by apply (suffix_trans _ _ _ Hq), (located_suffix _ toks).
Qed.

Lemma numbered_cons c p n toks : located p toks -> (numbered (c :: p) n) <$> toks = (numbered p (if c =? 10 then n + 1 else n)) <$> toks.
Proof.
  intros H. apply list_fmap_ext. intros i tok Hi. unfold numbered. rewrite line_of_cons; [done|].
  apply (located_all toks p tok H). by eapply list_elem_of_In, list_elem_of_lookup_2.
Qed.

Lemma add_lines_run p : forall n toks, located p toks -> add_line_numbers p n toks = Got (numbered p n <$> toks).
Proof.
  induction p as [|c p IH]; intros n toks H; (destruct toks as [|tok toks]; [done|]); cbn [add_line_numbers].
  - pose proof (located_suffix _ _ _ H) as E. apply suffix_length_le in E. cbn in E.
    assert (E0 : t_loc tok = []) by (destruct (t_loc tok); [done|cbn in E; lia]).
    destruct toks as [|tok' toks]; [|destruct (located_after _ _ _ H) as (q & Hq & Hne & _); [done|]; rewrite E0 in Hq, Hne;
      apply suffix_nil_inv in Hq; done].
    rewrite E0. cbn. unfold numbered, line_of. rewrite E0. cbn. by rewrite Z.add_0_r.
  - destruct (suffix_cons_cases _ _ _ (located_suffix _ _ _ H)) as [E|E].
    + rewrite E, Nat.eqb_refl. destruct toks as [|tok' toks].
      { destruct H as [_ H]. by rewrite H in E. }
      destruct (located_after _ _ _ H) as (q & Hq & Hne & Hl); [done|]. rewrite E in Hq, Hne.
      apply suffix_cons_cases in Hq as [->|Hq]; [done|]. pose proof (located_mono _ _ _ Hq Hl) as Hp.
      rewrite (IH _ _ Hp), <- (numbered_cons c p n _ Hp). cbn [mbind cc_bind mret cc_ret]. rewrite (fmap_cons _ tok). cbn [app].
      do 2 f_equal. unfold numbered, line_of. rewrite E, Nat.sub_diag. cbn. by rewrite Z.add_0_r.
    + pose proof (suffix_length_le _ _ E). rewrite (proj2 (Nat.eqb_neq _ _)) by (cbn; lia).
      assert (Hp : located p (tok :: toks)) by (destruct H as [_ H]; by split).
      rewrite (IH _ _ Hp), <- (numbered_cons c p n _ Hp). done.
Qed.

Lemma tiles_located bol space p toks : tiles bol space p toks -> located p toks.
Proof.
  induction 1 as [? ? tok _ E| |? ? tok q toks E Hne _ _ _ Ht IH].
  - cbn. by rewrite E.
  - eapply located_mono; [|done]. by exists g.
  - split; [by rewrite E|]. destruct toks as [|tok' toks]; [done|]. exists q. rewrite E. split; [by exists (lexeme tok)|]. split; [|done].
    intros E0. apply (f_equal length) in E0. rewrite length_app in E0. destruct (lexeme tok); [done|cbn in E0; lia].
Qed.

Lemma tokenize_lines_run file f : text_bytes (file_contents f) -> last (file_contents f) = Some 10 ->
  lexes (file_contents f) (tokenize file f) (fun toks => exists toks0, tiles true false (file_contents f) toks0 /\
    toks = numbered (file_contents f) 1 <$> toks0).
Proof.
  intros Hb Hl. unfold tokenize. eapply lexes_bind; [apply lex_from_run; [done|done|lia|by exists []]|]. intros toks Ht.
  rewrite add_lines_run by (by eapply tiles_located). by exists toks.
Qed.

(** ** The text of a file *)

(** The text of a file: no NUL, a newline at its end. *)
Definition text_ok (p : ptr) : Prop := text_bytes p /\ last p = Some 10.

Lemma text_ok_tail c p : text_ok (c :: p) -> p <> [] -> text_ok p.
Proof. intros [Hb Hl] Hne. apply text_cons in Hb as [_ Hb]. split; [done|]. by rewrite last_cons_ne in Hl. Qed.

Lemma text_ok_cons c p : 0 < c < 256 -> text_ok p -> text_ok (c :: p).
Proof. intros Hc [Hb Hl]. split; [by constructor|]. rewrite last_cons_ne; [done|by intros ->]. Qed.

Lemma text_ok_app a p : text_bytes a -> text_ok p -> text_ok (a ++ p).
Proof. intros H Hp. induction H; [done|]. by apply text_ok_cons. Qed.

Lemma text_ok_last c : text_ok [c] -> c = 10.
Proof. by intros [_ [= ->]]. Qed.

(** Induction on the length. *)
Lemma length_ind (P : ptr -> Prop) : (forall p, (forall q, (length q < length p)%nat -> P q) -> P p) -> forall p, P p.
Proof.
  intros H p. assert (forall n q, (length q < n)%nat -> P q) as Hn; [|by apply (Hn (S (length p))); lia].
  induction n as [|n IH]; intros q Hq; [lia|]. apply H. intros r Hr. apply IH. lia.
Qed.

Lemma canonicalize_step c p : canonicalize_newline (c :: p) =
  if c =? 13 then 10 :: canonicalize_newline (if hd 0 p =? 10 then tail p else p) else c :: canonicalize_newline p.
Proof. destruct p as [|d p]; cbn; [by destruct (c =? 13)|]. destruct (c =? 13); [|done]. by destruct (d =? 10). Qed.

Lemma text_ok_nl : text_ok [10].
Proof. split; [by repeat constructor|done]. Qed.

Lemma canonicalize_ok p : text_ok p -> text_ok (canonicalize_newline p).
Proof.
  revert p. apply (length_ind (fun p => text_ok p -> text_ok (canonicalize_newline p))). intros p IH Hp.
  destruct p as [|c p]; [by destruct Hp|]. rewrite canonicalize_step. pose proof (proj1 (text_cons _ _ (proj1 Hp))) as Hc.
  destruct p as [|d p].
  - apply text_ok_last in Hp as ->. cbn. apply text_ok_nl.
  - assert (Hd : text_ok (d :: p)) by (by apply (text_ok_tail c)). cbn [hd tail]. destruct (c =? 13).
    + destruct (Z.eqb_spec d 10) as [->|]; [|apply text_ok_cons; [lia|apply IH; [cbn; lia|done]]].
      destruct p as [|e p]; [apply text_ok_nl|]. apply text_ok_cons; [lia|]. apply IH; [cbn; lia|]. by apply (text_ok_tail 10).
    + apply text_ok_cons; [lia|]. apply IH; [cbn; lia|done].
Qed.

Lemma splice_step n c p : remove_backslash_newline n (c :: p) =
  if (c =? 92) && (hd 0 p =? 10) then remove_backslash_newline (S n) (tail p)
  else if c =? 10 then 10 :: replicate n 10 ++ remove_backslash_newline 0 p else c :: remove_backslash_newline n p.
Proof. destruct p as [|d p]; cbn; [by destruct (c =? 92), (c =? 10)|]. by destruct (c =? 92), (d =? 10). Qed.

Lemma newlines_ok n : text_ok (10 :: replicate n 10).
Proof. induction n as [|n IH]; [apply text_ok_nl|]. apply text_ok_cons; [lia|done]. Qed.

Lemma replicate_bytes n : text_bytes (replicate n 10).
Proof. apply Forall_replicate. lia. Qed.

Lemma splice_ok p : forall n, text_ok p -> text_ok (remove_backslash_newline n p).
Proof.
  revert p. apply (length_ind (fun p => forall n, text_ok p -> text_ok (remove_backslash_newline n p))). intros p IH n Hp.
  destruct p as [|c p]; [by destruct Hp|]. rewrite splice_step. pose proof (proj1 (text_cons _ _ (proj1 Hp))) as Hc.
  destruct p as [|d p].
  - apply text_ok_last in Hp as ->. cbn. rewrite app_nil_r. apply newlines_ok.
  - assert (Hd : text_ok (d :: p)) by (by apply (text_ok_tail c)). cbn [hd tail].
    destruct (_ && _) eqn:E.
    + apply andb_true_iff in E as [_ ->%Z.eqb_eq]. destruct p as [|e p]; [cbn; apply newlines_ok|].
      apply IH; [cbn; lia|]. by apply (text_ok_tail 10).
    + destruct (c =? 10); (apply text_ok_cons; [lia|]); [apply text_ok_app; [apply replicate_bytes|]|]; (apply IH; [cbn; lia|done]).
Qed.

(** Removing backslash-newlines keeps the number of newlines. *)
Lemma line_count_cons c p : newlines (c :: p) = (if c =? 10 then 1 else 0) + newlines p.
Proof. unfold newlines. rewrite filter_cons. destruct (Z.eqb_spec c 10); [rewrite decide_True by done|by rewrite decide_False]. cbn [length]. lia. Qed.

Lemma newlines_nil : newlines [] = 0.
Proof. done. Qed.

Lemma line_count_app p q : newlines (p ++ q) = newlines p + newlines q.
Proof. unfold newlines. rewrite filter_app, length_app. lia. Qed.

Lemma newlines_replicate n : newlines (replicate n 10) = Z.of_nat n.
Proof. induction n as [|n IH]; [done|]. cbn [replicate]. rewrite line_count_cons, IH. cbn. lia. Qed.

Lemma splice_newlines p : forall n, newlines (remove_backslash_newline n p) = Z.of_nat n + newlines p.
Proof.
  revert p. apply (length_ind (fun p => forall n, newlines (remove_backslash_newline n p) = Z.of_nat n + newlines p)). intros p IH n.
  destruct p as [|c p]; [cbn [remove_backslash_newline]; rewrite newlines_replicate, newlines_nil; lia|]. rewrite splice_step, line_count_cons.
  destruct p as [|d p].
  - cbn [hd]. rewrite andb_false_r. destruct (Z.eqb_spec c 10) as [->|].
    + rewrite line_count_cons, line_count_app, newlines_replicate, IH, newlines_nil, Z.eqb_refl by (cbn; lia). lia.
    + rewrite line_count_cons, (proj2 (Z.eqb_neq c 10)), IH by (done || (cbn; lia)). lia.
  - cbn [hd tail]. rewrite line_count_cons. destruct (_ && _) eqn:E.
    + apply andb_true_iff in E as [->%Z.eqb_eq ->%Z.eqb_eq]. rewrite IH by (cbn; lia). change (92 =? 10) with false. rewrite Z.eqb_refl. lia.
    + destruct (Z.eqb_spec c 10) as [->|].
      * rewrite line_count_cons, line_count_app, newlines_replicate, IH, line_count_cons by (cbn; lia). rewrite Z.eqb_refl. lia.
      * rewrite line_count_cons, (proj2 (Z.eqb_neq c 10)), IH, line_count_cons by (done || (cbn; lia)). lia.
Qed.

(** ** UTF-8: a code point is read as it was written *)

Lemma lor_tag tag n b : 0 <= n -> 0 <= b < 2 ^ n -> tag mod 2 ^ n = 0 -> Z.lor tag b = tag + b.
Proof.
  intros Hn Hb Ht. pose proof (Z.div_mod tag (2 ^ n) ltac:(apply Z.pow_nonzero; lia)) as E. rewrite Ht, Z.add_0_r, Z.mul_comm in E.
  rewrite E. by apply lor_low.
Qed.

Lemma land_ones_mod x n : 0 <= n -> Z.land x (2 ^ n - 1) = x mod 2 ^ n.
Proof. intros Hn. by rewrite <- Z.land_ones, Z.ones_equiv, Z.sub_1_r by done. Qed.

(** A continuation byte. *)
Lemma continuation x : Z.lor 0x80 (Z.land x 0x3F) = 128 + x mod 64.
Proof.
  change 0x3F with (2 ^ 6 - 1). rewrite land_ones_mod by lia. change (2 ^ 6) with 64. pose proof (Z.mod_pos_bound x 64).
  apply (lor_tag 128 6); (done || lia).
Qed.

Lemma continuation_tag x : Z.shiftr (128 + x mod 64) 6 = 2.
Proof. rewrite Z.shiftr_div_pow2 by lia. change (2 ^ 6) with 64. pose proof (Z.mod_pos_bound x 64). symmetry. apply (Z.div_unique _ _ _ (x mod 64)); lia. Qed.

Lemma continuation_bits x : Z.land (128 + x mod 64) 0x3F = x mod 64.
Proof.
  change 0x3F with (2 ^ 6 - 1). rewrite land_ones_mod by lia. change (2 ^ 6) with 64. rewrite <- Z.add_mod_idemp_l by lia.
  change (128 mod 64) with 0. by rewrite Z.add_0_l, Z.mod_mod by lia.
Qed.

(** The first byte of [tag] and [x]. *)
Lemma lead tag x n : 0 <= n -> 0 <= x < 2 ^ n -> tag mod 2 ^ n = 0 -> 0 <= tag -> tag + 2 ^ n <= 256 -> Z.lor tag x mod 256 = tag + x.
Proof. intros Hn Hx Ht H0 H1. rewrite (lor_tag tag n) by done. apply Z.mod_small. lia. Qed.

Lemma lead_bits tag x n : 0 <= n -> 0 <= x < 2 ^ n -> tag mod 2 ^ n = 0 -> Z.land (tag + x) (2 ^ n - 1) = x.
Proof.
  intros Hn Hx Ht. rewrite land_ones_mod by done. rewrite <- Z.add_mod_idemp_l by (apply Z.pow_nonzero; lia). rewrite Ht, Z.add_0_l. by apply Z.mod_small.
Qed.

Lemma decode_step start p i n c x : 0 <= c < 2 ^ 26 -> nthz p i = 128 + x mod 64 ->
  decode_rest start p i (S n) c = decode_rest start p (i + 1) n (c * 64 + x mod 64).
Proof.
  intros Hc E. cbn [decode_rest]. rewrite E, continuation_tag, continuation_bits. cbn [negb Z.eqb Pos.eqb]. do 2 f_equal.
  rewrite Z.shiftl_mul_pow2 by lia. rewrite (lor_low c (x mod 64) 6) by (try lia; apply Z.mod_pos_bound; lia).
  change (2 ^ 6) with 64. pose proof (Z.mod_pos_bound x 64). unfold u32. apply Z.mod_small. lia.
Qed.

Lemma decode_lead b p len c : 128 <= b < 256 -> (if b >=? 0xF0 then (4%nat, Z.land b 7) else if b >=? 0xE0 then (3%nat, Z.land b 15) else (2%nat, Z.land b 31)) = (len, c) ->
  0xC0 <= b -> decode_utf8 (b :: p) = (c ← decode_rest (b :: p) (b :: p) 1 (len - 1) c ; mret (c, Some (drop len (b :: p)))).
Proof.
  intros Hb E H. unfold decode_utf8. change (nthz (b :: p) 0) with b. rewrite (proj2 (Z.ltb_ge b 128)) by lia.
  rewrite (proj2 (Z.leb_le 0xC0 b)) by lia. repeat case_match; injection E as <- <-; done.
Qed.

Lemma shift_div x n : 0 <= n -> Z.shiftr x n = x / 2 ^ n.
Proof. apply Z.shiftr_div_pow2. Qed.

Lemma div_64 x : x = 64 * (x / 64) + x mod 64 /\ 0 <= x mod 64 < 64.
Proof. split; [apply Z.div_mod; lia|apply Z.mod_pos_bound; lia]. Qed.

Lemma decode_encode c rest : 0 < c < 2 ^ 21 -> decode_utf8 (encode_utf8 c ++ rest) = Got (c, Some rest).
Proof.
  intros Hc. unfold encode_utf8. destruct (Z.leb_spec c 0x7F).
  { cbn [app]. rewrite Z.mod_small by lia. unfold decode_utf8. change (nthz (c :: rest) 0) with c. by rewrite (proj2 (Z.ltb_lt c 128)) by lia. }
  rewrite !continuation, !shift_div by lia. change (2 ^ 6) with 64. change (2 ^ 12) with 4096. change (2 ^ 18) with 262144.
  pose proof (div_64 c) as [E0 B0]. pose proof (div_64 (c / 64)) as [E1 B1]. pose proof (div_64 (c / 4096)) as [E2 B2].
  rewrite Z.div_div in E1 by lia. change (64 * 64) with 4096 in E1. rewrite Z.div_div in E2 by lia. change (4096 * 64) with 262144 in E2.
  destruct (Z.leb_spec c 0x7FF); [|destruct (Z.leb_spec c 0xFFFF)].
  - rewrite (lead 0xC0 _ 5) by (done || lia). cbn [app].
    erewrite (decode_lead _ _ 2 (c / 64)); [|lia| |lia].
    2: { rewrite (proj2 (Z.leb_gt 0xF0 _)), (proj2 (Z.leb_gt 0xE0 _)) by lia. f_equal. apply (lead_bits 0xC0 _ 5); (done || lia). }
    cbn [Nat.sub]. rewrite (decode_step _ _ _ _ _ c) by (done || lia). cbn. do 3 f_equal. lia.
  - rewrite (lead 0xE0 _ 4) by (done || lia). cbn [app].
    erewrite (decode_lead _ _ 3 (c / 4096)); [|lia| |lia].
    2: { rewrite (proj2 (Z.leb_gt 0xF0 _)), (proj2 (Z.leb_le 0xE0 _)) by lia. f_equal. apply (lead_bits 0xE0 _ 4); (done || lia). }
    cbn [Nat.sub]. rewrite (decode_step _ _ _ _ _ (c / 64)) by (done || lia). rewrite (decode_step _ _ _ _ _ c) by (done || lia). cbn. do 3 f_equal. lia.
  - rewrite (lead 0xF0 _ 3) by (done || lia). cbn [app].
    erewrite (decode_lead _ _ 4 (c / 262144)); [|lia| |lia].
    2: { rewrite (proj2 (Z.leb_le 0xF0 _)) by lia. f_equal. apply (lead_bits 0xF0 _ 3); (done || lia). }
    cbn [Nat.sub]. rewrite (decode_step _ _ _ _ _ (c / 4096)) by (done || lia). rewrite (decode_step _ _ _ _ _ (c / 64)) by (done || lia).
    rewrite (decode_step _ _ _ _ _ c) by (done || lia). cbn. do 3 f_equal. lia.
Qed.

(** The bytes of any code point are bytes of a text. *)
Lemma encode_bytes c : 0 < c -> text_bytes (encode_utf8 c).
Proof.
  intros Hc. assert (Hk : forall x, 0 < 128 + x mod 64 < 256) by (intros x; pose proof (Z.mod_pos_bound x 64); lia).
  assert (Hl : forall tag x, Z.testbit tag 7 = true -> 0 < Z.lor tag x mod 256 < 256).
  { intros tag x Ht. pose proof (Z.mod_pos_bound (Z.lor tag x) 256). destruct (Z.eq_dec (Z.lor tag x mod 256) 0) as [E|]; [|lia].
    assert (Hb : Z.testbit (Z.lor tag x mod 2 ^ 8) 7 = true) by (rewrite Z.mod_pow2_bits_low, Z.lor_spec, Ht by lia; done).
    change (2 ^ 8) with 256 in Hb. by rewrite E in Hb. }
  unfold encode_utf8. rewrite !continuation. destruct (Z.leb_spec c 0x7F).
  { constructor; [|done]. rewrite Z.mod_small by lia. lia. }
  repeat case_match; repeat constructor; (apply Hk || by apply Hl).
Qed.

(** ** Universal character names *)

(** A value is read from digits only. *)
Lemma universal_digits len : forall p c, (0 < len)%nat -> read_universal_char p len c <> 0 ->
  (len <= length p)%nat /\ Forall (fun d => isxdigit (sext8 d) = true) (take len p).
Proof.
  induction len as [|len IH]; intros p c Hl H; [lia|]. cbn [read_universal_char] in H. destruct p as [|d p].
  { by cbn in H. }
  change (chr (d :: p) 0) with (sext8 d) in H. destruct (isxdigit (sext8 d)) eqn:E; cbn [negb tail] in H; [|done].
  destruct len as [|len]; [cbn; split; [lia|by repeat constructor]|]. destruct (IH p _ ltac:(lia) H) as [H1 H2].
  split; [cbn in *; lia|by constructor].
Qed.

Lemma universal_range len p : 0 <= read_universal_char p (S len) 0.
Proof.
  assert (forall n p c, 0 <= c -> 0 <= read_universal_char p n c) as H; [|by apply H].
  clear. induction n as [|n IH]; intros p c Hc; [done|]. cbn [read_universal_char]. destruct (isxdigit _); cbn [negb]; [|lia].
  apply IH. unfold u32. pose proof (Z.mod_pos_bound (Z.lor (Z.shiftl c 4) (from_hex (chr p 0))) (2 ^ 32)). lia.
Qed.

(** What is left after an escape is not empty: the text ends with a newline. *)
Lemma universal_left n a b p : text_ok (a :: b :: p) -> a <> 10 -> b <> 10 -> (0 < n)%nat -> read_universal_char p n 0 <> 0 ->
  text_ok (drop n p) /\ (length (drop n p) < length (a :: b :: p))%nat.
Proof.
  intros Hp Ha Hb Hn Hu. destruct (universal_digits n p 0 Hn Hu) as [Hl Hd].
  assert (Hp1 : text_ok (b :: p)) by (apply (text_ok_tail a); [done|done]).
  assert (Hne : p <> []) by (intros ->; by apply text_ok_last in Hp1).
  pose proof (text_ok_tail _ _ Hp1 Hne) as Hp2. rewrite length_drop. split; [|cbn; lia].
  destruct (decide (drop n p = [])) as [E|Hne']; [|split].
  - exfalso. destruct Hp2 as [_ Hlast]. rewrite <- (take_drop n p), E, app_nil_r in Hlast. apply last_Some in Hlast as [l El].
    rewrite El in Hd. apply Forall_app in Hd as [_ Hd]. apply Forall_inv in Hd. by vm_compute in Hd.
  - apply (text_suffix p); [apply drop_suffix|by apply Hp2].
  - rewrite (last_suffix _ p); [by apply Hp2|apply drop_suffix|done].
Qed.

Lemma convert_ok fuel : forall p, (length p < fuel)%nat -> p = [] \/ text_ok p ->
  exists r, convert_universal_chars fuel p = Got r /\ (text_ok p -> text_ok r).
Proof.
  induction fuel as [|fuel IH]; intros p Hf Hp; [lia|]. cbn [convert_universal_chars]. destruct p as [|a p]; [by exists []|].
  destruct Hp as [|Hp]; [done|]. pose proof (text_cons _ _ (proj1 Hp)) as [Ha _]. cbn [length] in Hf.
  assert (Hone : exists r, (rest ← convert_universal_chars fuel p ; mret (a :: rest)) = Got r /\ (text_ok (a :: p) -> text_ok r)).
  { destruct (decide (p = [])) as [->|Hne].
    - destruct (IH [] ltac:(cbn; lia) (or_introl eq_refl)) as (r & E & _). rewrite E. exists (a :: r). split; [done|].
      destruct fuel; [done|]. injection E as <-. done.
    - pose proof (text_ok_tail _ _ Hp Hne) as Hp'. destruct (IH p ltac:(lia) (or_intror Hp')) as (r & E & Hr). rewrite E.
      exists (a :: r). split; [done|]. intros _. apply text_ok_cons; [lia|auto]. }
  assert (Huni : forall len, (0 < len)%nat -> (exists b q, p = b :: q /\ a <> 10 /\ b <> 10) ->
    exists r, (let c := read_universal_char (drop 2 (a :: p)) len 0 in
      if negb (c =? 0) then rest ← convert_universal_chars fuel (drop (2 + len) (a :: p)) ; mret (encode_utf8 c ++ rest)
      else rest ← convert_universal_chars fuel p ; mret (a :: rest)) = Got r /\ (text_ok (a :: p) -> text_ok r)).
  { intros len Hlen (b & q & -> & Ha10 & Hb10). change (drop 2 (a :: b :: q)) with q. change (drop (2 + len) (a :: b :: q)) with (drop len q).
    cbv zeta. destruct (Z.eqb_spec (read_universal_char q len 0) 0) as [|Hu]; cbn [negb]; [exact Hone|].
    destruct (universal_left len a b q Hp Ha10 Hb10 Hlen Hu) as [Hd Hl]. cbn [length] in *.
    destruct (IH (drop len q) ltac:(lia) (or_intror Hd)) as (r & E & Hr). rewrite E. eexists. split; [reflexivity|]. intros _.
    apply text_ok_app; [|auto]. apply encode_bytes. destruct len; [lia|]. pose proof (universal_range len q). lia. }
  assert (Hpre : forall x, has_prefix (a :: p) [92; x] = true -> exists q, p = x :: q /\ a = 92).
  { intros x Hx%prefix_split. injection Hx as -> E. exists (drop 0 (tail p)). by rewrite E. }
  destruct (startswith (a :: p) "\u") eqn:E1.
  { apply (Huni 4%nat); [lia|]. destruct (Hpre 117 E1) as (q & -> & ->). by exists 117, q. }
  destruct (startswith (a :: p) "\U") eqn:E2.
  { apply (Huni 8%nat); [lia|]. destruct (Hpre 85 E2) as (q & -> & ->). by exists 85, q. }
  destruct (Z.eqb_spec a 92) as [->|]; [|exact Hone].
  destruct p as [|b p]; [by apply text_ok_last in Hp|]. pose proof (text_ok_tail _ _ Hp ltac:(done)) as Hp'. cbn [length] in Hf.
  pose proof (text_cons _ _ (proj1 Hp')) as [Hb _].
  destruct (decide (p = [])) as [->|Hne].
  - apply text_ok_last in Hp' as ->. destruct (IH [] ltac:(cbn; lia) (or_introl eq_refl)) as (r & E & _). rewrite E.
    exists (92 :: 10 :: r). split; [done|]. destruct fuel; [done|]. injection E as <-. done.
  - pose proof (text_ok_tail _ _ Hp' Hne) as Hp2. destruct (IH p ltac:(lia) (or_intror Hp2)) as (r & E & Hr). rewrite E.
    exists (92 :: b :: r). split; [done|]. intros _. apply text_ok_cons; [lia|]. apply text_ok_cons; [lia|auto].
Qed.

(** Any file without a NUL has a text, that ends with a newline. *)
Lemma source_text_run bytes : text_bytes bytes -> exists text, source_text bytes = Got text /\ text_ok text.
Proof.
  intros Hb. unfold source_text. cbv zeta. match goal with |- context [span _ ?t] => set (t1 := t) end.
  assert (H1 : text_ok t1).
  { unfold t1. case_bool_decide; [by split|]. apply text_ok_app; [done|apply text_ok_nl]. }
  assert (E1 : (span (fun c => negb (c =? 0)) t1).1 = t1).
  { destruct H1 as [H1 _]. clear -H1. induction H1 as [|c p Hc _ IH]; [done|]. cbn. rewrite (proj2 (Z.eqb_neq c 0)) by lia. cbn.
    destruct (span _ p). cbn in *. by rewrite IH. }
  rewrite E1. match goal with |- context [canonicalize_newline ?t] => set (t2 := t) end.
  assert (H2 : text_ok t2).
  { unfold t2. destruct (has_prefix t1 _) eqn:E; [|done]. apply prefix_split in E. destruct H1 as [Ht Hl]. split.
    - by apply (text_suffix t1); [apply drop_suffix|].
    - destruct (decide (drop 3 t1 = [])) as [E0|Hne]; [|by rewrite (last_suffix _ t1); [|apply drop_suffix|]].
      rewrite E in Hl. change (drop (length [0xEF; 0xBB; 0xBF]) t1) with (drop 3 t1) in Hl. rewrite E0 in Hl. done. }
  destruct (convert_ok (S (length (remove_backslash_newline 0 (canonicalize_newline t2)))) (remove_backslash_newline 0 (canonicalize_newline t2)))
    as (r & E & Hr); [lia|right; by apply splice_ok, canonicalize_ok|].
  exists r. split; [exact E|]. apply Hr. by apply splice_ok, canonicalize_ok.
Qed.

(** ** Tables of words *)

(** No put makes the table too large. *)
Fixpoint small_table (words : list string) (m : HashMap) : bool :=
  match words with
  | [] => true
  | w :: words => (hm_capacity m <=? 2 ^ 23) && match hashmap_put m (str w) 1 with Some m' => small_table words m' | None => false end
  end.

Lemma fold_put_run words : forall m M, represents m M -> small_table words m = true -> NoDup (str <$> words) ->
  (forall k, k ∈ str <$> words -> M !! k = None) ->
  exists m' M', fold_left (fun m kw => m ← m ; hashmap_put m (str kw) 1) words (Some m) = Some m' /\ represents m' M' /\
    forall k, M' !! k = if decide (k ∈ str <$> words) then Some 1 else M !! k.
Proof.
  induction words as [|w words IH]; intros m M Hm Hs Hd Hnew.
  { exists m, M. split; [done|]. split; [done|]. intros k. rewrite decide_False; [done|]. by intros ?%elem_of_nil. }
  cbn [small_table] in Hs. apply andb_true_iff in Hs as [Hc%Z.leb_le Hs]. rewrite fmap_cons in Hd, Hnew. apply NoDup_cons in Hd as [Hw Hd].
  destruct (hashmap_put_run m M (str w) 1 Hm Hc) as (m1 & E & H1 & _); [left; apply Hnew; by left|]. rewrite E in Hs.
  destruct (IH m1 (<[str w := 1]> M) H1 Hs Hd) as (m' & M' & E' & H' & HM).
  { intros k Hk. rewrite lookup_insert_ne by (intros <-; done). apply Hnew. by right. }
  exists m', M'. split; [cbn [fold_left mbind option_bind]; by rewrite E|]. split; [done|]. intros k. rewrite HM, fmap_cons.
  destruct (decide (k = str w)) as [->|Hne].
  - rewrite (decide_True (P := str w ∈ str w :: _)) by (by left). rewrite lookup_insert_eq. by case_decide.
  - rewrite lookup_insert_ne by done. destruct (decide (k ∈ str <$> words)) as [Hin|Hin].
    + by rewrite decide_True by (by right).
    + rewrite decide_False; [done|]. by intros [|]%elem_of_cons.
Qed.

Lemma word_table_run words : small_table words new_map = true -> NoDup (str <$> words) ->
  exists m, word_table words = Some m /\ forall k, hashmap_get2 m k = Some (if decide (k ∈ str <$> words) then 1 else 0).
Proof.
  intros Hs Hd. destruct (fold_put_run words new_map ∅ represents_new Hs Hd) as (m & M & E & Hm & HM); [done|].
  exists m. split; [done|]. intros k. rewrite (get_run m M k Hm), HM. by case_decide.
Qed.

Lemma keyword_run tok : is_keyword tok = Got (bool_decide (lexeme tok ∈ str <$> keywords)).
Proof.
  destruct (word_table_run keywords) as (m & E & H); [by vm_compute| |].
  { apply (bool_decide_unpack _). by vm_compute. }
  unfold is_keyword, keyword_map. rewrite E. cbn [mbind option_bind]. rewrite H.
  case_bool_decide as Hk; [rewrite decide_True by exact Hk|rewrite decide_False by exact Hk]; reflexivity.
Qed.

(** ** Properties *)

(** C5: the text of a file without NUL ends with a newline, and the tokenizer ends on it:
    with an error at a place of the text, or with tokens that, with the blanks and comments
    between them, are the text from its beginning to its end; a token has the flags that the
    gap before it leaves, and the number of the line it is in.  It never reads outside. *)
Theorem source_tokenized file no path bytes : text_bytes bytes ->
  exists text, source_text bytes = Got text /\ text_ok text /\
    match tokenize_file file no path bytes with
    | Got (f, toks) => file_contents f = text /\ exists toks0, tiles true false text toks0 /\ toks = numbered text 1 <$> toks0
    | Fail (CcErrorAt loc _) => loc `suffix_of` text
    | Fail _ => False
    end.
Proof.
  intros Hb. destruct (source_text_run bytes Hb) as (text & E & Hok). exists text. split; [done|]. split; [done|].
  unfold tokenize_file. rewrite E. cbn [mbind cc_bind]. destruct Hok as [Ht Hl].
  pose proof (tokenize_lines_run file (Build_File path no text path 0) Ht Hl) as H.
  destruct (tokenize file _) as [toks|[]]; [by split|exact H|done..].
Qed.

(** a code point below 2^21 that is written in UTF-8 is read back, and the reading
    stops after it. *)
Theorem utf8_roundtrip c rest : 0 < c < 2 ^ 21 -> decode_utf8 (encode_utf8 c ++ rest) = Got (c, Some rest).
Proof. apply decode_encode. Qed.

(** a token is a keyword exactly when its text is a word of the list, whatever the
    hash table looks like inside. *)
Theorem keyword_table_correct tok : is_keyword tok = Got (bool_decide (lexeme tok ∈ str <$> keywords)).
Proof. apply keyword_run. Qed.

Module Demo.

(** [int main() {] and a string with an escape, on two lines. *)
Definition source : list Z := str "int main() { // start" ++ [10] ++ str "  return 'a';" ++ [10].

Definition text_bytesb (p : list Z) : bool := forallb (fun c => (0 <? c) && (c <? 256)) p.
Lemma text_bytesb_ok p : text_bytesb p = true -> text_bytes p.
Proof. intros H. apply Forall_forall. intros c Hc. unfold text_bytesb in H. rewrite forallb_forall in H.
  pose proof (H c (proj1 (list_elem_of_In _ _) Hc)) as Hx. apply andb_true_iff in Hx as [?%Z.ltb_lt ?%Z.ltb_lt]. done. Qed.

Lemma source_tokenized_witness : text_bytes source /\ exists f toks, tokenize_file 1 1 (str "a.c") source = Got (f, toks) /\
  lexeme <$> toks = [str "int"; str "main"; str "("; str ")"; str "{"; str "return"; str "'a'"; str ";"; []] /\
  t_line_no <$> toks = [1; 1; 1; 1; 1; 2; 2; 2; 3].
Proof.
  assert (H : text_bytes source) by (by apply text_bytesb_ok). split; [exact H|].
  destruct (source_tokenized 1 1 (str "a.c") source H) as (text & E & _ & Ht).
  destruct (tokenize_file 1 1 (str "a.c") source) as [[f toks]|] eqn:Et.
  - exists f, toks. split; [reflexivity|]. vm_compute in Et. injection Et as <- <-. split; reflexivity.
  - exfalso. vm_compute in Et. discriminate Et.
Defined.

Lemma utf8_roundtrip_witness : 0 < 0x20AC < 2 ^ 21 /\ decode_utf8 (encode_utf8 0x20AC ++ [59]) = Got (0x20AC, Some [59]).
Proof. split; [lia|]. apply utf8_roundtrip. lia. Defined.

(** A text that does not end with a newline, as [paste] makes them: a comment is read past
    its end. *)
Lemma comment_overrun : tokenize 1 (Build_File [] 1 (str "//") [] 0) = Fail CcUndefined.
Proof. by vm_compute. Qed.

(** A [long long] constant of more than 32 bits loses its high word. *)
Lemma wide_constant_truncated :
  let tok := new_token (Build_lexer 1 [] false false) TK_PP_NUM (str "4294967297LL;") (str ";") in
  t_val <$> convert_pp_int tok = Some 1 /\ t_ty <$> convert_pp_int tok = Some (BaseTy ty_llong).
Proof. by vm_compute. Qed.

End Demo.
