(* ===== verification/CcTree.v ===== *)
(** * CcTree: the data of the front end and its types ([upstream/chibicc.h], [type.c])

    Tokens after tokenization, types, members, nodes, variables, scopes, initializers and
    macros are shared and changed through pointers: each kind of struct has a store of the
    record [fe], a pointer is an address, 0 is NULL, and following any other pointer that
    was not allocated is [CcUndefined].  [calloc] gives the next address and does not fail.
    A [char *] that nobody writes through is the list of its bytes, [[]] for NULL.  A
    computation of the monad [M] has a value and the new state, or stops as the tokenizer
    does. *)

From stdpp Require Import gmap.
From S2P Require Import Prelude Config Kernel Klog RawMem UserMem LibString LibFormat GuestAsm Codegen CcHash CcToken.

(** ** Data *)

(** [struct Type]. *)
Record CType := Build_CType {
  ct_kind : TypeKind; ct_size : Z; ct_align : Z; ct_unsigned : bool; ct_atomic : bool; ct_origin : Z;
  ct_base : Z; ct_name : Z; ct_name_pos : Z; ct_array_len : Z; ct_vla_len : Z; ct_vla_size : Z;
  ct_members : Z; ct_flexible : bool; ct_packed : bool; ct_return_ty : Z; ct_params : Z;
  ct_variadic : bool; ct_next : Z }.
#[export] Instance eta_CType : Eta CType := fun r => Build_CType (ct_kind r) (ct_size r) (ct_align r)
  (ct_unsigned r) (ct_atomic r) (ct_origin r) (ct_base r) (ct_name r) (ct_name_pos r) (ct_array_len r)
  (ct_vla_len r) (ct_vla_size r) (ct_members r) (ct_flexible r) (ct_packed r) (ct_return_ty r) (ct_params r)
  (ct_variadic r) (ct_next r).
#[export] Instance set_ct_kind : Setter ct_kind := ltac:(mk_setter).
#[export] Instance set_ct_size : Setter ct_size := ltac:(mk_setter).
#[export] Instance set_ct_align : Setter ct_align := ltac:(mk_setter).
#[export] Instance set_ct_unsigned : Setter ct_unsigned := ltac:(mk_setter).
#[export] Instance set_ct_atomic : Setter ct_atomic := ltac:(mk_setter).
#[export] Instance set_ct_origin : Setter ct_origin := ltac:(mk_setter).
#[export] Instance set_ct_base : Setter ct_base := ltac:(mk_setter).
#[export] Instance set_ct_name : Setter ct_name := ltac:(mk_setter).
#[export] Instance set_ct_name_pos : Setter ct_name_pos := ltac:(mk_setter).
#[export] Instance set_ct_array_len : Setter ct_array_len := ltac:(mk_setter).
#[export] Instance set_ct_vla_len : Setter ct_vla_len := ltac:(mk_setter).
#[export] Instance set_ct_vla_size : Setter ct_vla_size := ltac:(mk_setter).
#[export] Instance set_ct_members : Setter ct_members := ltac:(mk_setter).
#[export] Instance set_ct_flexible : Setter ct_flexible := ltac:(mk_setter).
#[export] Instance set_ct_packed : Setter ct_packed := ltac:(mk_setter).
#[export] Instance set_ct_return_ty : Setter ct_return_ty := ltac:(mk_setter).
#[export] Instance set_ct_params : Setter ct_params := ltac:(mk_setter).
#[export] Instance set_ct_variadic : Setter ct_variadic := ltac:(mk_setter).
#[export] Instance set_ct_next : Setter ct_next := ltac:(mk_setter).
Definition type0 : CType := Build_CType TY_VOID 0 0 false false 0 0 0 0 0 0 0 0 false false 0 0 false 0.

(** [struct Member]; its [tok] is never set. *)
Record CMember := Build_CMember {
  cm_next : Z; cm_ty : Z; cm_name : Z; cm_idx : Z; cm_align : Z; cm_offset : Z; cm_bitfield : bool;
  cm_bit_offset : Z; cm_bit_width : Z }.
#[export] Instance eta_CMember : Eta CMember := fun r => Build_CMember (cm_next r) (cm_ty r) (cm_name r)
  (cm_idx r) (cm_align r) (cm_offset r) (cm_bitfield r) (cm_bit_offset r) (cm_bit_width r).
#[export] Instance set_cm_next : Setter cm_next := ltac:(mk_setter).
#[export] Instance set_cm_ty : Setter cm_ty := ltac:(mk_setter).
#[export] Instance set_cm_name : Setter cm_name := ltac:(mk_setter).
#[export] Instance set_cm_idx : Setter cm_idx := ltac:(mk_setter).
#[export] Instance set_cm_align : Setter cm_align := ltac:(mk_setter).
#[export] Instance set_cm_offset : Setter cm_offset := ltac:(mk_setter).
#[export] Instance set_cm_bitfield : Setter cm_bitfield := ltac:(mk_setter).
#[export] Instance set_cm_bit_offset : Setter cm_bit_offset := ltac:(mk_setter).
#[export] Instance set_cm_bit_width : Setter cm_bit_width := ltac:(mk_setter).
Definition member0 : CMember := Build_CMember 0 0 0 0 0 0 false 0 0.

(** [struct Node], without the fields that nothing uses. *)
Record CNode := Build_CNode {
  nd_kind : NodeKind; nd_next : Z; nd_ty : Z; nd_tok : Z; nd_lhs : Z; nd_rhs : Z; nd_cond : Z;
  nd_then : Z; nd_els : Z; nd_init : Z; nd_inc : Z; nd_brk_label : list Z; nd_cont_label : list Z;
  nd_body : Z; nd_member : Z; nd_func_ty : Z; nd_args : Z; nd_ret_buffer : Z; nd_label : list Z;
  nd_unique_label : list Z; nd_goto_next : Z; nd_case_next : Z; nd_default_case : Z; nd_begin : Z;
  nd_end : Z; nd_asm_str : list Z; nd_cas_addr : Z; nd_cas_old : Z; nd_cas_new : Z; nd_var : Z;
  nd_val : Z; nd_fval : Z }.
#[export] Instance eta_CNode : Eta CNode := fun r => Build_CNode (nd_kind r) (nd_next r) (nd_ty r) (nd_tok r)
  (nd_lhs r) (nd_rhs r) (nd_cond r) (nd_then r) (nd_els r) (nd_init r) (nd_inc r) (nd_brk_label r)
  (nd_cont_label r) (nd_body r) (nd_member r) (nd_func_ty r) (nd_args r) (nd_ret_buffer r) (nd_label r)
  (nd_unique_label r) (nd_goto_next r) (nd_case_next r) (nd_default_case r) (nd_begin r) (nd_end r)
  (nd_asm_str r) (nd_cas_addr r) (nd_cas_old r) (nd_cas_new r) (nd_var r) (nd_val r) (nd_fval r).
#[export] Instance set_nd_kind : Setter nd_kind := ltac:(mk_setter).
#[export] Instance set_nd_next : Setter nd_next := ltac:(mk_setter).
#[export] Instance set_nd_ty : Setter nd_ty := ltac:(mk_setter).
#[export] Instance set_nd_tok : Setter nd_tok := ltac:(mk_setter).
#[export] Instance set_nd_lhs : Setter nd_lhs := ltac:(mk_setter).
#[export] Instance set_nd_rhs : Setter nd_rhs := ltac:(mk_setter).
#[export] Instance set_nd_cond : Setter nd_cond := ltac:(mk_setter).
#[export] Instance set_nd_then : Setter nd_then := ltac:(mk_setter).
#[export] Instance set_nd_els : Setter nd_els := ltac:(mk_setter).
#[export] Instance set_nd_init : Setter nd_init := ltac:(mk_setter).
#[export] Instance set_nd_inc : Setter nd_inc := ltac:(mk_setter).
#[export] Instance set_nd_brk_label : Setter nd_brk_label := ltac:(mk_setter).
#[export] Instance set_nd_cont_label : Setter nd_cont_label := ltac:(mk_setter).
#[export] Instance set_nd_body : Setter nd_body := ltac:(mk_setter).
#[export] Instance set_nd_member : Setter nd_member := ltac:(mk_setter).
#[export] Instance set_nd_func_ty : Setter nd_func_ty := ltac:(mk_setter).
#[export] Instance set_nd_args : Setter nd_args := ltac:(mk_setter).
#[export] Instance set_nd_ret_buffer : Setter nd_ret_buffer := ltac:(mk_setter).
#[export] Instance set_nd_label : Setter nd_label := ltac:(mk_setter).
#[export] Instance set_nd_unique_label : Setter nd_unique_label := ltac:(mk_setter).
#[export] Instance set_nd_goto_next : Setter nd_goto_next := ltac:(mk_setter).
#[export] Instance set_nd_case_next : Setter nd_case_next := ltac:(mk_setter).
#[export] Instance set_nd_default_case : Setter nd_default_case := ltac:(mk_setter).
#[export] Instance set_nd_begin : Setter nd_begin := ltac:(mk_setter).
#[export] Instance set_nd_end : Setter nd_end := ltac:(mk_setter).
#[export] Instance set_nd_asm_str : Setter nd_asm_str := ltac:(mk_setter).
#[export] Instance set_nd_cas_addr : Setter nd_cas_addr := ltac:(mk_setter).
#[export] Instance set_nd_cas_old : Setter nd_cas_old := ltac:(mk_setter).
#[export] Instance set_nd_cas_new : Setter nd_cas_new := ltac:(mk_setter).
#[export] Instance set_nd_var : Setter nd_var := ltac:(mk_setter).
#[export] Instance set_nd_val : Setter nd_val := ltac:(mk_setter).
#[export] Instance set_nd_fval : Setter nd_fval := ltac:(mk_setter).
Definition node0 : CNode := Build_CNode ND_NULL_EXPR 0 0 0 0 0 0 0 0 0 0 [] [] 0 0 0 0 0 [] [] 0 0 0 0 0 [] 0 0
  0 0 0 0.

(** [char **label] of a relocation: the field [unique_label] of a node or [name] of a
    variable. *)
Inductive label_ref := LabelOf (node : Z) | NameOf (var : Z).

Record CReloc := Build_CReloc { cr_offset : Z; cr_label : label_ref; cr_addend : Z }.

(** [struct Obj], without what the code generator keeps in it. *)
Record CObj := Build_CObj {
  ob_next : Z; ob_name : list Z; ob_ty : Z; ob_is_local : bool; ob_align : Z; ob_is_function : bool;
  ob_is_definition : bool; ob_is_static : bool; ob_is_tentative : bool; ob_is_tls : bool;
  ob_init_data : option (list Z); ob_rel : list CReloc; ob_is_inline : bool; ob_params : Z; ob_body : Z;
  ob_locals : Z; ob_va_area : Z; ob_alloca_bottom : Z; ob_is_live : bool; ob_is_root : bool;
  ob_refs : list (list Z) }.
#[export] Instance eta_CObj : Eta CObj := fun r => Build_CObj (ob_next r) (ob_name r) (ob_ty r) (ob_is_local r)
  (ob_align r) (ob_is_function r) (ob_is_definition r) (ob_is_static r) (ob_is_tentative r) (ob_is_tls r)
  (ob_init_data r) (ob_rel r) (ob_is_inline r) (ob_params r) (ob_body r) (ob_locals r) (ob_va_area r)
  (ob_alloca_bottom r) (ob_is_live r) (ob_is_root r) (ob_refs r).
#[export] Instance set_ob_next : Setter ob_next := ltac:(mk_setter).
#[export] Instance set_ob_name : Setter ob_name := ltac:(mk_setter).
#[export] Instance set_ob_ty : Setter ob_ty := ltac:(mk_setter).
#[export] Instance set_ob_is_local : Setter ob_is_local := ltac:(mk_setter).
#[export] Instance set_ob_align : Setter ob_align := ltac:(mk_setter).
#[export] Instance set_ob_is_function : Setter ob_is_function := ltac:(mk_setter).
#[export] Instance set_ob_is_definition : Setter ob_is_definition := ltac:(mk_setter).
#[export] Instance set_ob_is_static : Setter ob_is_static := ltac:(mk_setter).
#[export] Instance set_ob_is_tentative : Setter ob_is_tentative := ltac:(mk_setter).
#[export] Instance set_ob_is_tls : Setter ob_is_tls := ltac:(mk_setter).
#[export] Instance set_ob_init_data : Setter ob_init_data := ltac:(mk_setter).
#[export] Instance set_ob_rel : Setter ob_rel := ltac:(mk_setter).
#[export] Instance set_ob_is_inline : Setter ob_is_inline := ltac:(mk_setter).
#[export] Instance set_ob_params : Setter ob_params := ltac:(mk_setter).
#[export] Instance set_ob_body : Setter ob_body := ltac:(mk_setter).
#[export] Instance set_ob_locals : Setter ob_locals := ltac:(mk_setter).
#[export] Instance set_ob_va_area : Setter ob_va_area := ltac:(mk_setter).
#[export] Instance set_ob_alloca_bottom : Setter ob_alloca_bottom := ltac:(mk_setter).
#[export] Instance set_ob_is_live : Setter ob_is_live := ltac:(mk_setter).
#[export] Instance set_ob_is_root : Setter ob_is_root := ltac:(mk_setter).
#[export] Instance set_ob_refs : Setter ob_refs := ltac:(mk_setter).
Definition obj0 : CObj := Build_CObj 0 [] 0 false 0 false false false false false None [] false 0 0 0 0 0 false
  false [].

(** [VarScope] and [Scope]; the values of the tables are addresses. *)
Record VarScope := Build_VarScope {
  vs_var : Z; vs_type_def : Z; vs_enum_ty : Z; vs_enum_val : Z }.
#[export] Instance eta_VarScope : Eta VarScope := fun r => Build_VarScope (vs_var r) (vs_type_def r)
  (vs_enum_ty r) (vs_enum_val r).
#[export] Instance set_vs_var : Setter vs_var := ltac:(mk_setter).
#[export] Instance set_vs_type_def : Setter vs_type_def := ltac:(mk_setter).
#[export] Instance set_vs_enum_ty : Setter vs_enum_ty := ltac:(mk_setter).
#[export] Instance set_vs_enum_val : Setter vs_enum_val := ltac:(mk_setter).
Definition varscope0 : VarScope := Build_VarScope 0 0 0 0.

Record Scope := Build_Scope {
  sc_next : Z; sc_vars : HashMap; sc_tags : HashMap }.
#[export] Instance eta_Scope : Eta Scope := fun r => Build_Scope (sc_next r) (sc_vars r) (sc_tags r).
#[export] Instance set_sc_next : Setter sc_next := ltac:(mk_setter).
#[export] Instance set_sc_vars : Setter sc_vars := ltac:(mk_setter).
#[export] Instance set_sc_tags : Setter sc_tags := ltac:(mk_setter).
Definition scope0 : Scope := Build_Scope 0 new_map new_map.

(** [children] is an array of as many pointers as were allocated. *)
Record Initializer := Build_Initializer {
  in_ty : Z; in_flexible : bool; in_expr : Z; in_children : list Z; in_mem : Z }.
#[export] Instance eta_Initializer : Eta Initializer := fun r => Build_Initializer (in_ty r) (in_flexible r)
  (in_expr r) (in_children r) (in_mem r).
#[export] Instance set_in_ty : Setter in_ty := ltac:(mk_setter).
#[export] Instance set_in_flexible : Setter in_flexible := ltac:(mk_setter).
#[export] Instance set_in_expr : Setter in_expr := ltac:(mk_setter).
#[export] Instance set_in_children : Setter in_children := ltac:(mk_setter).
#[export] Instance set_in_mem : Setter in_mem := ltac:(mk_setter).
Definition init0 : Initializer := Build_Initializer 0 false 0 [] 0.

(** [Macro], and the function that a built-in macro calls. *)
Inductive macro_handler := FileMacro | LineMacro | CounterMacro | TimestampMacro | BaseFileMacro.
Record Macro := Build_Macro {
  mc_name : list Z; mc_objlike : bool; mc_params : list (list Z); mc_va_args_name : option (list Z);
  mc_body : Z; mc_handler : option macro_handler }.
#[export] Instance eta_Macro : Eta Macro := fun r => Build_Macro (mc_name r) (mc_objlike r) (mc_params r)
  (mc_va_args_name r) (mc_body r) (mc_handler r).
#[export] Instance set_mc_name : Setter mc_name := ltac:(mk_setter).
#[export] Instance set_mc_objlike : Setter mc_objlike := ltac:(mk_setter).
#[export] Instance set_mc_params : Setter mc_params := ltac:(mk_setter).
#[export] Instance set_mc_va_args_name : Setter mc_va_args_name := ltac:(mk_setter).
#[export] Instance set_mc_body : Setter mc_body := ltac:(mk_setter).
#[export] Instance set_mc_handler : Setter mc_handler := ltac:(mk_setter).

Inductive cond_ctx := IN_THEN | IN_ELIF | IN_ELSE.
Record CondIncl := Build_CondIncl { ci_ctx : cond_ctx; ci_tok : Z; ci_included : bool }.

(** A token and its [next]. *)
Record cell := Build_cell { c_tok : Token; c_next : Z }.

(** The stores and the globals of the front end: [tokenize.c], [parse.c], [preprocess.c].
    [fe_warnings] are the messages of [warn_tok]. *)
Record fe := Build_fe {
  fe_next : Z; fe_toks : gmap Z cell; fe_files : gmap Z File; fe_types : gmap Z CType;
  fe_mems : gmap Z CMember; fe_nodes : gmap Z CNode; fe_objs : gmap Z CObj; fe_scopes : gmap Z Scope;
  fe_vscopes : gmap Z VarScope; fe_inits : gmap Z Initializer; fe_macs : gmap Z Macro;
  fe_strs : gmap Z (list Z); current_file : Z; fe_file_no : Z; fe_warnings : list (Z * list Z);
  locals : Z; globals : Z; scope : Z; current_fn : Z; gotos : Z; labels : Z; brk_label : list Z;
  cont_label : list Z; current_switch : Z; builtin_alloca : Z; unique_id : Z; macros : HashMap;
  pragma_once : HashMap; include_guards : HashMap; include_cache : HashMap; cond_incl : list CondIncl;
  include_next_idx : Z; counter_value : Z }.
#[export] Instance eta_fe : Eta fe := fun r => Build_fe (fe_next r) (fe_toks r) (fe_files r) (fe_types r)
  (fe_mems r) (fe_nodes r) (fe_objs r) (fe_scopes r) (fe_vscopes r) (fe_inits r) (fe_macs r) (fe_strs r)
  (current_file r) (fe_file_no r) (fe_warnings r) (locals r) (globals r) (scope r) (current_fn r) (gotos r)
  (labels r) (brk_label r) (cont_label r) (current_switch r) (builtin_alloca r) (unique_id r) (macros r)
  (pragma_once r) (include_guards r) (include_cache r) (cond_incl r) (include_next_idx r) (counter_value r).
#[export] Instance set_fe_next : Setter fe_next := ltac:(mk_setter).
#[export] Instance set_fe_toks : Setter fe_toks := ltac:(mk_setter).
#[export] Instance set_fe_files : Setter fe_files := ltac:(mk_setter).
#[export] Instance set_fe_types : Setter fe_types := ltac:(mk_setter).
#[export] Instance set_fe_mems : Setter fe_mems := ltac:(mk_setter).
#[export] Instance set_fe_nodes : Setter fe_nodes := ltac:(mk_setter).
#[export] Instance set_fe_objs : Setter fe_objs := ltac:(mk_setter).
#[export] Instance set_fe_scopes : Setter fe_scopes := ltac:(mk_setter).
#[export] Instance set_fe_vscopes : Setter fe_vscopes := ltac:(mk_setter).
#[export] Instance set_fe_inits : Setter fe_inits := ltac:(mk_setter).
#[export] Instance set_fe_macs : Setter fe_macs := ltac:(mk_setter).
#[export] Instance set_fe_strs : Setter fe_strs := ltac:(mk_setter).
#[export] Instance set_current_file : Setter current_file := ltac:(mk_setter).
#[export] Instance set_fe_file_no : Setter fe_file_no := ltac:(mk_setter).
#[export] Instance set_fe_warnings : Setter fe_warnings := ltac:(mk_setter).
#[export] Instance set_locals : Setter locals := ltac:(mk_setter).
#[export] Instance set_globals : Setter globals := ltac:(mk_setter).
#[export] Instance set_scope : Setter scope := ltac:(mk_setter).
#[export] Instance set_current_fn : Setter current_fn := ltac:(mk_setter).
#[export] Instance set_gotos : Setter gotos := ltac:(mk_setter).
#[export] Instance set_labels : Setter labels := ltac:(mk_setter).
#[export] Instance set_brk_label : Setter brk_label := ltac:(mk_setter).
#[export] Instance set_cont_label : Setter cont_label := ltac:(mk_setter).
#[export] Instance set_current_switch : Setter current_switch := ltac:(mk_setter).
#[export] Instance set_builtin_alloca : Setter builtin_alloca := ltac:(mk_setter).
#[export] Instance set_unique_id : Setter unique_id := ltac:(mk_setter).
#[export] Instance set_macros : Setter macros := ltac:(mk_setter).
#[export] Instance set_pragma_once : Setter pragma_once := ltac:(mk_setter).
#[export] Instance set_include_guards : Setter include_guards := ltac:(mk_setter).
#[export] Instance set_include_cache : Setter include_cache := ltac:(mk_setter).
#[export] Instance set_cond_incl : Setter cond_incl := ltac:(mk_setter).
#[export] Instance set_include_next_idx : Setter include_next_idx := ltac:(mk_setter).
#[export] Instance set_counter_value : Setter counter_value := ltac:(mk_setter).

(** ** The monad *)

Definition M (A : Type) : Type := fe -> cc (A * fe).
#[export] Instance M_ret : MRet M := fun A a s => Got (a, s).
#[export] Instance M_bind : MBind M := fun A B f m s => match m s with Got (a, s') => f a s' | Fail why => Fail why end.

Definition gets {A} (f : fe -> A) : M A := fun s => Got (f s, s).
Definition modify (f : fe -> fe) : M unit := fun s => Got (tt, f s).
Definition stop {A} (why : cc_stop) : M A := fun _ => Fail why.
Definition lift {A} (m : cc A) : M A := fun s => match m with Got a => Got (a, s) | Fail why => Fail why end.

(** [error] with a message, and [unreachable()]. *)
Definition error {A} (message : list Z) : M A := stop (CcError message).
Definition unreachable {A} : M A := error (str "internal error").

(** A loop whose body goes on with [inl] and ends it with [inr]. *)
Fixpoint loopM {A B} (fuel : nat) (body : A -> M (A + B)) (a : A) : M B :=
  match fuel with O => stop CcNoFuel | S fuel =>
  r ← body a ; match r with inl a => loopM fuel body a | inr b => mret b end
  end.

Definition orM (a b : M bool) : M bool := x ← a ; if (x : bool) then mret true else b.
Definition andM (a b : M bool) : M bool := x ← a ; if (x : bool) then b else mret false.

(** ** The stores *)

Definition found {A} (o : option A) : M A := match o with Some a => mret a | None => stop CcUndefined end.

(** Reading and writing a struct. *)
Definition rk {A} (f : Token -> A) (t : Z) : M A := c ← gets (fun s => fe_toks s !! t) ; c ← found c ; mret (f (c_tok c)).
Definition nxt (t : Z) : M Z := c ← gets (fun s => fe_toks s !! t) ; c ← found c ; mret (c_next c).
Definition rt {A} (f : CType -> A) (t : Z) : M A := x ← gets (fun s => fe_types s !! t) ; x ← found x ; mret (f x).
Definition rm {A} (f : CMember -> A) (t : Z) : M A := x ← gets (fun s => fe_mems s !! t) ; x ← found x ; mret (f x).
Definition rn {A} (f : CNode -> A) (t : Z) : M A := x ← gets (fun s => fe_nodes s !! t) ; x ← found x ; mret (f x).
Definition ro {A} (f : CObj -> A) (t : Z) : M A := x ← gets (fun s => fe_objs s !! t) ; x ← found x ; mret (f x).
Definition rs {A} (f : Scope -> A) (t : Z) : M A := x ← gets (fun s => fe_scopes s !! t) ; x ← found x ; mret (f x).
Definition rv {A} (f : VarScope -> A) (t : Z) : M A := x ← gets (fun s => fe_vscopes s !! t) ; x ← found x ; mret (f x).
Definition ri {A} (f : Initializer -> A) (t : Z) : M A := x ← gets (fun s => fe_inits s !! t) ; x ← found x ; mret (f x).
Definition rf {A} (f : File -> A) (t : Z) : M A := x ← gets (fun s => fe_files s !! t) ; x ← found x ; mret (f x).

Definition wk (t : Z) (f : Token -> Token) : M unit :=
  c ← gets (fun s => fe_toks s !! t) ; c ← found c ; modify (fun s => s <| fe_toks ::= insert t (Build_cell (f (c_tok c)) (c_next c)) |>).
Definition wnxt (t n : Z) : M unit :=
  c ← gets (fun s => fe_toks s !! t) ; c ← found c ; modify (fun s => s <| fe_toks ::= insert t (Build_cell (c_tok c) n) |>).
Definition wt (t : Z) (f : CType -> CType) : M unit := x ← rt id t ; modify (fun s => s <| fe_types ::= insert t (f x) |>).
Definition wm (t : Z) (f : CMember -> CMember) : M unit := x ← rm id t ; modify (fun s => s <| fe_mems ::= insert t (f x) |>).
Definition wn (t : Z) (f : CNode -> CNode) : M unit := x ← rn id t ; modify (fun s => s <| fe_nodes ::= insert t (f x) |>).
Definition wo (t : Z) (f : CObj -> CObj) : M unit := x ← ro id t ; modify (fun s => s <| fe_objs ::= insert t (f x) |>).
Definition ws (t : Z) (f : Scope -> Scope) : M unit := x ← rs id t ; modify (fun s => s <| fe_scopes ::= insert t (f x) |>).
Definition wv (t : Z) (f : VarScope -> VarScope) : M unit := x ← rv id t ; modify (fun s => s <| fe_vscopes ::= insert t (f x) |>).
Definition wi (t : Z) (f : Initializer -> Initializer) : M unit := x ← ri id t ; modify (fun s => s <| fe_inits ::= insert t (f x) |>).
Definition wf (t : Z) (f : File -> File) : M unit := x ← rf id t ; modify (fun s => s <| fe_files ::= insert t (f x) |>).

(** [calloc]: an address that was not used. *)
Definition fresh : M Z := n ← gets fe_next ; modify (fun s => s <| fe_next := n + 1 |>) ;; mret n.
Definition new_cell (c : cell) : M Z := n ← fresh ; modify (fun s => s <| fe_toks ::= insert n c |>) ;; mret n.
Definition calloc_type (x : CType) : M Z := n ← fresh ; modify (fun s => s <| fe_types ::= insert n x |>) ;; mret n.
Definition calloc_member (x : CMember) : M Z := n ← fresh ; modify (fun s => s <| fe_mems ::= insert n x |>) ;; mret n.
Definition calloc_node (x : CNode) : M Z := n ← fresh ; modify (fun s => s <| fe_nodes ::= insert n x |>) ;; mret n.
Definition calloc_obj (x : CObj) : M Z := n ← fresh ; modify (fun s => s <| fe_objs ::= insert n x |>) ;; mret n.
Definition calloc_scope (x : Scope) : M Z := n ← fresh ; modify (fun s => s <| fe_scopes ::= insert n x |>) ;; mret n.
Definition calloc_vscope (x : VarScope) : M Z := n ← fresh ; modify (fun s => s <| fe_vscopes ::= insert n x |>) ;; mret n.
Definition calloc_init (x : Initializer) : M Z := n ← fresh ; modify (fun s => s <| fe_inits ::= insert n x |>) ;; mret n.
Definition calloc_macro (x : Macro) : M Z := n ← fresh ; modify (fun s => s <| fe_macs ::= insert n x |>) ;; mret n.
Definition new_file (f : File) : M Z := n ← fresh ; modify (fun s => s <| fe_files ::= insert n f |>) ;; mret n.

(** ** Tokens *)

Definition err_text {A} (tok : Z) (message : list Z) : M A := t ← rk id tok ; stop (CcErrorTok t message).
Definition err_tok {A} (tok : Z) (message : string) : M A := err_text tok (str message).

Definition eqt (tok : Z) (op : string) : M bool := rk (fun t => equal t op) tok.

(** One of the texts. *)
Definition eq_any (tok : Z) (ops : list string) : M bool := rk (fun t => existsb (equal t) ops) tok.

Definition is_tk (tok : Z) (k : TokenKind) : M bool := rk (fun t => bool_decide (t_kind t = k)) tok.

Definition skip (tok : Z) (op : string) : M Z :=
  b ← eqt tok op ;
  if (b : bool) then nxt tok else err_text tok (str "expected '" ++ str op ++ str "'").

(** The result, and the token that is left in [*rest]. *)
Definition consume (tok : Z) (op : string) : M (bool * Z) :=
  b ← eqt tok op ;
  if (b : bool) then n ← nxt tok ; mret (true, n) else mret (false, tok).

(** [ty] of a token; an array type is made when it is asked for. *)
Definition basety_of (t : tok_ty) : M Z :=
  match t with NoTy => stop CcUndefined | BaseTy ty => mret ty | ArrayTy b _ => mret b end.

(** ** Types *)

Definition basic_types : list (Z * CType) :=
  let t k size align u := type0 <| ct_kind := k |> <| ct_size := size |> <| ct_align := align |> <| ct_unsigned := u |> in
  [(ty_void, t TY_VOID 1 1 false); (ty_bool, t TY_BOOL 1 1 false);
   (ty_char, t TY_CHAR 1 1 false); (ty_short, t TY_SHORT 2 2 false); (ty_int, t TY_INT 4 4 false);
   (ty_long, t TY_LONG 4 4 false); (ty_llong, t TY_LONG 8 4 false);
   (ty_uchar, t TY_CHAR 1 1 true); (ty_ushort, t TY_SHORT 2 2 true); (ty_uint, t TY_INT 4 4 true);
   (ty_ulong, t TY_LONG 4 4 true); (ty_ullong, t TY_LONG 8 4 true);
   (ty_float, t TY_FLOAT 4 4 false); (ty_double, t TY_DOUBLE 8 4 false); (ty_ldouble, t TY_LDOUBLE 8 4 false)].

Definition new_type (kind : TypeKind) (size align : Z) : M Z :=
  calloc_type (type0 <| ct_kind := kind |> <| ct_size := size |> <| ct_align := align |>).

Definition is_kind_of (k : TypeKind) (ty : CType) : bool := bool_decide (ct_kind ty = k).
Definition is_int_kind (k : TypeKind) : bool := match k with TY_BOOL | TY_CHAR | TY_SHORT | TY_INT | TY_LONG | TY_ENUM => true | _ => false end.
Definition is_flo_kind (k : TypeKind) : bool := match k with TY_FLOAT | TY_DOUBLE | TY_LDOUBLE => true | _ => false end.

Definition is_integer (ty : CType) : bool := is_int_kind (ct_kind ty).
Definition is_flonum (ty : CType) : bool := is_flo_kind (ct_kind ty).
Definition is_numeric (ty : CType) : bool := is_integer ty || is_flonum ty.
Definition is_record (ty : CType) : bool := is_kind_of TY_STRUCT ty || is_kind_of TY_UNION ty.

Fixpoint is_compatible (fuel : nat) (t1 t2 : Z) : M bool :=
  match fuel with O => stop CcNoFuel | S fuel =>
  if t1 =? t2 then mret true else
  a ← rt id t1 ; b ← rt id t2 ;
  if negb (ct_origin a =? 0) then is_compatible fuel (ct_origin a) t2
  else if negb (ct_origin b =? 0) then is_compatible fuel t1 (ct_origin b)
  else if negb (bool_decide (ct_kind a = ct_kind b)) then mret false
  else match ct_kind a with
       | TY_CHAR | TY_SHORT | TY_INT | TY_LONG => mret (Bool.eqb (ct_unsigned a) (ct_unsigned b))
       | TY_FLOAT | TY_DOUBLE | TY_LDOUBLE => mret true
       | TY_PTR => is_compatible fuel (ct_base a) (ct_base b)
       | TY_FUNC =>
           r ← is_compatible fuel (ct_return_ty a) (ct_return_ty b) ;
           if negb r || negb (Bool.eqb (ct_variadic a) (ct_variadic b)) then mret false else
           loopM fuel (fun '(p1, p2) =>
             if (p1 =? 0) || (p2 =? 0) then mret (inr ((p1 =? 0) && (p2 =? 0))) else
             r ← is_compatible fuel p1 p2 ;
             if negb r then mret (inr false) else
             n1 ← rt ct_next p1 ; n2 ← rt ct_next p2 ; mret (inl (n1, n2))) (ct_params a, ct_params b)
       | TY_ARRAY =>
           r ← is_compatible fuel (ct_base a) (ct_base b) ;
           mret (r && (ct_array_len a <? 0) && (ct_array_len b <? 0) && (ct_array_len a =? ct_array_len b))
       | _ => mret false
       end
  end.

Definition copy_type (ty : Z) : M Z := x ← rt id ty ; calloc_type (x <| ct_origin := ty |>).

Definition pointer_to (base : Z) : M Z :=
  ty ← new_type TY_PTR 4 4 ; wt ty (fun t => t <| ct_base := base |> <| ct_unsigned := true |>) ;; mret ty.

Definition func_type (return_ty : Z) : M Z := ty ← new_type TY_FUNC 1 1 ; wt ty (fun t => t <| ct_return_ty := return_ty |>) ;; mret ty.

Definition array_of (base len : Z) : M Z :=
  b ← rt id base ;
  ty ← new_type TY_ARRAY (ct_size b *! len) (ct_align b) ;
  wt ty (fun t => t <| ct_base := base |> <| ct_array_len := len |>) ;; mret ty.

Definition vla_of (base len : Z) : M Z :=
  ty ← new_type TY_VLA 4 4 ; wt ty (fun t => t <| ct_base := base |> <| ct_vla_len := len |>) ;; mret ty.

Definition enum_type : M Z := new_type TY_ENUM 4 4.
Definition struct_type : M Z := new_type TY_STRUCT 0 1.

(** The type of a token, made if it is an array. *)
Definition token_type (t : tok_ty) : M Z :=
  match t with NoTy => mret 0 | BaseTy ty => mret ty | ArrayTy b len => array_of b len end.

(** The last part of [get_common_type]: the integer types. *)
Definition common_integer (ty1 ty2 : Z * CType) : Z :=
  let '(a1, t1) := if ct_size ty1.2 <? 4 then (ty_int, (4, false)) else (ty1.1, (ct_size ty1.2, ct_unsigned ty1.2)) in
  let '(a2, t2) := if ct_size ty2.2 <? 4 then (ty_int, (4, false)) else (ty2.1, (ct_size ty2.2, ct_unsigned ty2.2)) in
  if negb (t1.1 =? t2.1) then (if t1.1 <? t2.1 then a2 else a1)
  else if (t2.2 : bool) then a2 else a1.

Definition get_common_type (ty1 ty2 : Z) : M Z :=
  t1 ← rt id ty1 ;
  if negb (ct_base t1 =? 0) then pointer_to (ct_base t1) else
  if is_kind_of TY_FUNC t1 then pointer_to ty1 else
  t2 ← rt id ty2 ;
  if is_kind_of TY_FUNC t2 then pointer_to ty2 else
  if is_kind_of TY_LDOUBLE t1 || is_kind_of TY_LDOUBLE t2 then mret ty_ldouble else
  if is_kind_of TY_DOUBLE t1 || is_kind_of TY_DOUBLE t2 then mret ty_double else
  if is_kind_of TY_FLOAT t1 || is_kind_of TY_FLOAT t2 then mret ty_float else
  mret (common_integer (ty1, t1) (ty2, t2)).

(** [new_cast] of parse.c, on an expression that has a type. *)
Definition cast_typed (expr ty : Z) : M Z :=
  tok ← rn nd_tok expr ;
  ty ← copy_type ty ;
  calloc_node (node0 <| nd_kind := ND_CAST |> <| nd_tok := tok |> <| nd_lhs := expr |> <| nd_ty := ty |>).

(** The type of what a statement expression ends with, if it has one. *)
Definition last_value (fuel : nat) (body : Z) : M (option Z) :=
  if body =? 0 then mret None else
  stmt ← loopM fuel (fun s => n ← rn nd_next s ; mret (if n =? 0 then inr s else inl n)) body ;
  k ← rn nd_kind stmt ;
  match k with
  | ND_EXPR_STMT => e ← rn nd_lhs stmt ; ty ← rn nd_ty e ; mret (Some ty)
  | _ => mret None
  end.

(** [node->ty = ty]. *)
Definition set_ty (node ty : Z) : M unit := wn node (fun n => n <| nd_ty := ty |>).

(** The type of the expression that a field of [node] points to. *)
Definition ty_of (f : CNode -> Z) (node : Z) : M Z := e ← rn f node ; rn nd_ty e.

(** [usual_arith_conv] on two fields of a node. *)
Definition usual_arith_conv (add_type : Z -> M unit) (f1 f2 : CNode -> Z) `{!Setter f1, !Setter f2} (node : Z) : M unit :=
  a ← rn f1 node ; b ← rn f2 node ;
  t1 ← rn nd_ty a ; t2 ← rn nd_ty b ;
  ty ← get_common_type t1 t2 ;
  add_type a ;; a ← cast_typed a ty ; wn node (fun n => n <| f1 := a |>) ;;
  add_type b ;; b ← cast_typed b ty ; wn node (fun n => n <| f2 := b |>).

(** The switch of [add_type], when the children have their types. *)
Definition type_node (add_type : Z -> M unit) (fuel : nat) (node : Z) : M unit :=
  k ← rn nd_kind node ;
  match k with
  | ND_NUM => set_ty node ty_int
  | ND_ADD | ND_SUB | ND_MUL | ND_DIV | ND_MOD | ND_BITAND | ND_BITOR | ND_BITXOR =>
      usual_arith_conv add_type nd_lhs nd_rhs node ;; ty ← ty_of nd_lhs node ; set_ty node ty
  | ND_NEG =>
      t ← ty_of nd_lhs node ; ty ← get_common_type ty_int t ;
      e ← rn nd_lhs node ; add_type e ;; e ← cast_typed e ty ; wn node (fun n => n <| nd_lhs := e |>) ;; set_ty node ty
  | ND_ASSIGN =>
      l ← rn nd_lhs node ; lty ← rn nd_ty l ; t ← rt id lty ;
      if is_kind_of TY_ARRAY t then tok ← rn nd_tok l ; err_tok tok "not an lvalue" else
      (if is_kind_of TY_STRUCT t then mret tt
       else e ← rn nd_rhs node ; add_type e ;; e ← cast_typed e lty ; wn node (fun n => n <| nd_rhs := e |>)) ;;
      set_ty node lty
  | ND_EQ | ND_NE | ND_LT | ND_LE => usual_arith_conv add_type nd_lhs nd_rhs node ;; set_ty node ty_int
  | ND_FUNCALL => f ← rn nd_func_ty node ; ty ← rt ct_return_ty f ; set_ty node ty
  | ND_NOT | ND_LOGOR | ND_LOGAND => set_ty node ty_int
  | ND_BITNOT | ND_SHL | ND_SHR => ty ← ty_of nd_lhs node ; set_ty node ty
  | ND_VAR | ND_VLA_PTR => v ← rn nd_var node ; ty ← ro ob_ty v ; set_ty node ty
  | ND_COND =>
      t1 ← ty_of nd_then node ; k1 ← rt (is_kind_of TY_VOID) t1 ;
      v ← (if (k1 : bool) then mret true else t2 ← ty_of nd_els node ; rt (is_kind_of TY_VOID) t2) ;
      if (v : bool) then set_ty node ty_void
      else usual_arith_conv add_type nd_then nd_els node ;; ty ← ty_of nd_then node ; set_ty node ty
  | ND_COMMA => ty ← ty_of nd_rhs node ; set_ty node ty
  | ND_MEMBER => m ← rn nd_member node ; ty ← rm cm_ty m ; set_ty node ty
  | ND_ADDR =>
      ty ← ty_of nd_lhs node ; t ← rt id ty ;
      p ← pointer_to (if is_kind_of TY_ARRAY t then ct_base t else ty) ; set_ty node p
  | ND_DEREF =>
      ty ← ty_of nd_lhs node ; base ← rt ct_base ty ; tok ← rn nd_tok node ;
      if base =? 0 then err_tok tok "invalid pointer dereference" else
      v ← rt (is_kind_of TY_VOID) base ;
      if (v : bool) then err_tok tok "dereferencing a void pointer" else set_ty node base
  | ND_STMT_EXPR =>
      b ← rn nd_body node ; r ← last_value fuel b ;
      match r with
      | Some ty => set_ty node ty
      | None => tok ← rn nd_tok node ; err_tok tok "statement expression returning void is not supported"
      end
  | ND_LABEL_VAL => ty ← pointer_to ty_void ; set_ty node ty
  | ND_CAS =>
      a ← rn nd_cas_addr node ; o ← rn nd_cas_old node ; n ← rn nd_cas_new node ;
      add_type a ;; add_type o ;; add_type n ;; set_ty node ty_bool ;;
      ta ← rn nd_ty a ; ka ← rt (is_kind_of TY_PTR) ta ;
      if negb ka then tok ← rn nd_tok a ; err_tok tok "pointer expected" else
      to ← rn nd_ty o ; ko ← rt (is_kind_of TY_PTR) to ;
      if negb ko then tok ← rn nd_tok o ; err_tok tok "pointer expected" else mret tt
  | ND_EXCH =>
      ty ← ty_of nd_lhs node ; t ← rt id ty ;
      if negb (is_kind_of TY_PTR t) then a ← rn nd_cas_addr node ; tok ← rn nd_tok a ; err_tok tok "pointer expected"
      else set_ty node (ct_base t)
  | _ => mret tt
  end.

(** [fuel] bounds the height of the tree and the length of its lists. *)
Fixpoint add_type (fuel : nat) (node : Z) : M unit :=
  match fuel with O => stop CcNoFuel | S fuel =>
  if node =? 0 then mret tt else
  n ← rn id node ;
  if negb (nd_ty n =? 0) then mret tt else
  add_type fuel (nd_lhs n) ;; add_type fuel (nd_rhs n) ;; add_type fuel (nd_cond n) ;; add_type fuel (nd_then n) ;;
  add_type fuel (nd_els n) ;; add_type fuel (nd_init n) ;; add_type fuel (nd_inc n) ;;
  let each first := loopM fuel (fun c => if c =? 0 then mret (inr tt) else add_type fuel c ;; c ← rn nd_next c ; mret (inl c)) first in
  each (nd_body n) ;; each (nd_args n) ;;
  type_node (add_type fuel) fuel node
  end.
