(* ===== verification/CcExpr.v ===== *)
(** * CcExpr: the parser of the compiler: scopes, nodes and constants ([upstream/parse.c])

    A parsing function takes a token and returns its result and [*rest].  The functions
    that call each other in a circle do it through the class [Parser]; CcParse.v ties the
    knot with fuel, which bounds the depth of calls and the rounds of a loop.  The
    function that is modelled has the same name. *)

From stdpp Require Import gmap.
From S2P Require Import Prelude Config Kernel Klog RawMem UserMem LibString LibFormat GuestAsm Codegen CcHash CcToken CcTree.

(** Variable attributes such as typedef or extern. *)
Record VarAttr := Build_VarAttr {
  va_typedef : bool; va_static : bool; va_extern : bool; va_inline : bool; va_tls : bool; va_align : Z }.
#[export] Instance eta_VarAttr : Eta VarAttr := fun r => Build_VarAttr (va_typedef r) (va_static r) (va_extern r) (va_inline r) (va_tls r) (va_align r).
#[export] Instance set_va_typedef : Setter va_typedef := ltac:(mk_setter).
#[export] Instance set_va_static : Setter va_static := ltac:(mk_setter).
#[export] Instance set_va_extern : Setter va_extern := ltac:(mk_setter).
#[export] Instance set_va_inline : Setter va_inline := ltac:(mk_setter).
#[export] Instance set_va_tls : Setter va_tls := ltac:(mk_setter).
#[export] Instance set_va_align : Setter va_align := ltac:(mk_setter).
Definition attr0 : VarAttr := Build_VarAttr false false false false false 0.

(** The functions that are used before they are defined. *)
Class Parser := {
  p_fuel : nat;
  p_declspec : Z -> option VarAttr -> M (Z * option VarAttr * Z);
  p_typename : Z -> M (Z * Z);
  p_declarator : Z -> Z -> M (Z * Z);
  p_abstract_declarator : Z -> Z -> M (Z * Z);
  p_type_suffix : Z -> Z -> M (Z * Z);
  p_conditional : Z -> M (Z * Z);
  p_assign : Z -> M (Z * Z);
  p_expr : Z -> M (Z * Z);
  p_cast : Z -> M (Z * Z);
  p_unary : Z -> M (Z * Z);
  p_initializer2 : Z -> Z -> M Z;
  p_designation : Z -> Z -> M Z;
  p_skip_excess : Z -> M Z;
  p_stmt : Z -> M (Z * Z);
  p_compound_stmt : Z -> M (Z * Z);
  p_function : Z -> Z -> VarAttr -> M Z }.

(** Double arithmetic beyond what numbers need: images as in CcToken.v. *)
Class FoldFloat := {
  f_sub : Z -> Z -> Z; f_to_int : Z -> Z; f_nonzero : Z -> bool; f_single : Z -> Z (** the image of the [float] *) }.

(** 64-bit wrap-around. *)
Definition i64 (z : Z) : Z := (z + 2 ^ 63) mod 2 ^ 64 - 2 ^ 63.
Definition u64 (z : Z) : Z := z mod 2 ^ 64.

(** [align_to] of codegen.c; a zero alignment divides by zero. *)
Definition align_to (n align : Z) : M Z := if align =? 0 then stop CcUndefined else mret (Codegen.align_to n align).
Definition align_down (n align : Z) : M Z := align_to (n -! align +! 1) align.

Section expr.
Context {P : Parser} {F : SoftFloat} {FF : FoldFloat}.

(** ** Scopes *)

Definition enter_scope : M unit :=
  sc ← gets scope ; n ← calloc_scope (scope0 <| sc_next := sc |>) ; modify (fun s => s <| scope := n |>).
Definition leave_scope : M unit := sc ← gets scope ; n ← rs sc_next sc ; modify (fun s => s <| scope := n |>).

(** The first scope from the innermost one whose table [f] has [key], 0 for none. *)
Definition find_scoped (f : Scope -> HashMap) (key : list Z) : M Z :=
  sc ← gets scope ;
  loopM p_fuel (fun sc =>
    if sc =? 0 then mret (inr 0) else
    m ← rs f sc ; v ← lift (of_table (hashmap_get2 m key)) ;
    if negb (v =? 0) then mret (inr v) else n ← rs sc_next sc ; mret (inl n)) sc.

Definition find_var (tok : Z) : M Z := key ← rk lexeme tok ; find_scoped sc_vars key.
Definition find_tag (tok : Z) : M Z := key ← rk lexeme tok ; find_scoped sc_tags key.

Definition push_scope (name : list Z) : M Z :=
  v ← calloc_vscope varscope0 ;
  sc ← gets scope ; m ← rs sc_vars sc ; m ← lift (of_table (hashmap_put m name v)) ;
  ws sc (fun r => r <| sc_vars := m |>) ;; mret v.

Definition push_tag_scope (tok ty : Z) : M unit :=
  key ← rk lexeme tok ;
  sc ← gets scope ; m ← rs sc_tags sc ; m ← lift (of_table (hashmap_put m key ty)) ;
  ws sc (fun r => r <| sc_tags := m |>).

Definition find_typedef (tok : Z) : M Z :=
  k ← is_tk tok TK_IDENT ;
  if negb k then mret 0 else
  sc ← find_var tok ; if sc =? 0 then mret 0 else rv vs_type_def sc.

Definition typename_words : list string :=
  ["void"; "_Bool"; "char"; "short"; "int"; "long"; "struct"; "union"; "typedef"; "enum"; "static"; "extern"; "_Alignas";
   "signed"; "unsigned"; "const"; "volatile"; "auto"; "register"; "restrict"; "__restrict"; "__restrict__"; "_Noreturn";
   "float"; "double"; "typeof"; "inline"; "_Thread_local"; "__thread"; "_Atomic"].
Definition typename_map : option HashMap := word_table typename_words.

Definition is_typename (tok : Z) : M bool :=
  key ← rk lexeme tok ;
  v ← lift (of_table (m ← typename_map ; hashmap_get2 m key)) ;
  if negb (v =? 0) then mret true else t ← find_typedef tok ; mret (negb (t =? 0)).

(** ** Nodes *)

Definition new_node (kind : NodeKind) (tok : Z) : M Z := calloc_node (node0 <| nd_kind := kind |> <| nd_tok := tok |>).
Definition new_binary (kind : NodeKind) (lhs rhs tok : Z) : M Z :=
  calloc_node (node0 <| nd_kind := kind |> <| nd_tok := tok |> <| nd_lhs := lhs |> <| nd_rhs := rhs |>).
Definition new_unary (kind : NodeKind) (expr tok : Z) : M Z :=
  calloc_node (node0 <| nd_kind := kind |> <| nd_tok := tok |> <| nd_lhs := expr |>).
Definition new_num (val tok : Z) : M Z :=
  calloc_node (node0 <| nd_kind := ND_NUM |> <| nd_tok := tok |> <| nd_val := val |>).
Definition new_long (val tok : Z) : M Z :=
  calloc_node (node0 <| nd_kind := ND_NUM |> <| nd_tok := tok |> <| nd_val := val |> <| nd_ty := ty_long |>).
Definition new_ulong (val tok : Z) : M Z :=
  calloc_node (node0 <| nd_kind := ND_NUM |> <| nd_tok := tok |> <| nd_val := val |> <| nd_ty := ty_ulong |>).
Definition new_var_node (var tok : Z) : M Z :=
  calloc_node (node0 <| nd_kind := ND_VAR |> <| nd_tok := tok |> <| nd_var := var |>).
Definition new_vla_ptr (var tok : Z) : M Z :=
  calloc_node (node0 <| nd_kind := ND_VLA_PTR |> <| nd_tok := tok |> <| nd_var := var |>).

Definition add_ty (node : Z) : M unit := add_type p_fuel node.

Definition new_cast (expr ty : Z) : M Z := add_ty expr ;; cast_typed expr ty.

(** [rt f (node->ty)]. *)
Definition node_ty {A} (f : CType -> A) (node : Z) : M A := t ← rn nd_ty node ; rt f t.

(** ** Variables *)

Definition new_var (name : list Z) (ty : Z) : M Z :=
  align ← rt ct_align ty ;
  var ← calloc_obj (obj0 <| ob_name := name |> <| ob_ty := ty |> <| ob_align := align |>) ;
  v ← push_scope name ; wv v (fun r => r <| vs_var := var |>) ;; mret var.

Definition new_lvar (name : list Z) (ty : Z) : M Z :=
  var ← new_var name ty ;
  l ← gets locals ; wo var (fun o => o <| ob_is_local := true |> <| ob_next := l |>) ;;
  modify (fun s => s <| locals := var |>) ;; mret var.

Definition new_gvar (name : list Z) (ty : Z) : M Z :=
  var ← new_var name ty ;
  g ← gets globals ; wo var (fun o => o <| ob_next := g |> <| ob_is_static := true |> <| ob_is_definition := true |>) ;;
  modify (fun s => s <| globals := var |>) ;; mret var.

Definition new_unique_name : M (list Z) :=
  id ← gets unique_id ; modify (fun s => s <| unique_id := id +! 1 |>) ;; mret (str ".L.." ++ int_text id).

Definition new_anon_gvar (ty : Z) : M Z := name ← new_unique_name ; new_gvar name ty.
Definition new_string_literal (p : list Z) (ty : Z) : M Z :=
  var ← new_anon_gvar ty ; wo var (fun o => o <| ob_init_data := Some p |>) ;; mret var.

Definition get_ident (tok : Z) : M (list Z) :=
  k ← is_tk tok TK_IDENT ; if negb k then err_tok tok "expected an identifier" else rk lexeme tok.

(** ** Constant expressions *)

(** The operators on [int64_t] values; [u] if the type of the node is unsigned, [u8] if it
    has 8 bytes too, [lu] if the type of the left operand is unsigned. *)
Definition eval_op (k : NodeKind) (u u8 lu : bool) (a b : Z) : option Z :=
  match k with
  | ND_ADD => Some (i64 (a + b))
  | ND_SUB => Some (i64 (a - b))
  | ND_MUL => Some (i64 (a * b))
  | ND_DIV => if b =? 0 then None else Some (if u then i64 (u64 a / u64 b) else i64 (Z.quot a b))
  | ND_MOD => if b =? 0 then None else Some (if u then i64 (u64 a mod u64 b) else i64 (Z.rem a b))
  | ND_BITAND => Some (Z.land a b)
  | ND_BITOR => Some (Z.lor a b)
  | ND_BITXOR => Some (Z.lxor a b)
  | ND_SHL => if (b <? 0) || (b >=? 64) then None else Some (i64 (Z.shiftl a b))
  | ND_SHR => if (b <? 0) || (b >=? 64) then None
              else Some (if u && u8 then i64 (Z.shiftr (u64 a) b) else Z.shiftr a b)
  | ND_EQ => Some (b2z (a =? b))
  | ND_NE => Some (b2z (negb (a =? b)))
  | ND_LT => Some (b2z (if lu then u64 a <? u64 b else a <? b))
  | ND_LE => Some (b2z (if lu then u64 a <=? u64 b else a <=? b))
  | _ => None
  end.

(** The value of a cast to a type of [size] bytes; both branches of the C expression for 4
    bytes have the type [uint32_t]. *)
Definition cast_const (u : bool) (size val : Z) : Z :=
  if size =? 1 then (if u then val mod 2 ^ 8 else (val + 2 ^ 7) mod 2 ^ 8 - 2 ^ 7)
  else if size =? 2 then (if u then val mod 2 ^ 16 else (val + 2 ^ 15) mod 2 ^ 16 - 2 ^ 15)
  else if size =? 4 then val mod 2 ^ 32
  else val.

Definition not_constant {A} (node : Z) : M A := tok ← rn nd_tok node ; err_tok tok "not a compile-time constant".

(** [label] is not NULL: the value and the label that is stored. *)
Definition with_label (label : bool) (l : label_ref) : M (Z * option label_ref) :=
  if label then mret (0, Some l) else stop CcUndefined.

(** [eval2], [eval_rval] and [eval_double]. *)
Fixpoint eval2 (fuel : nat) (node : Z) (label : bool) : M (Z * option label_ref) :=
  match fuel with O => stop CcNoFuel | S fuel =>
  let eval n := r ← eval2 fuel n false ; mret r.1 in
  let plain v : M (Z * option label_ref) := mret (v, None) in
  add_ty node ;;
  fl ← node_ty is_flonum node ;
  if (fl : bool) then d ← eval_double fuel node ; plain (f_to_int d) else
  n ← rn id node ;
  t ← rt id (nd_ty n) ;
  match nd_kind n with
  | (ND_ADD | ND_SUB) as k =>
      '(a, l) ← eval2 fuel (nd_lhs n) label ; b ← eval (nd_rhs n) ;
      v ← found (eval_op k false false false a b) ; mret (v, l)
  | (ND_MUL | ND_DIV | ND_MOD | ND_BITAND | ND_BITOR | ND_BITXOR | ND_SHL | ND_SHR | ND_EQ | ND_NE | ND_LT | ND_LE) as k =>
      lu ← node_ty ct_unsigned (nd_lhs n) ;
      a ← eval (nd_lhs n) ; b ← eval (nd_rhs n) ;
      v ← found (eval_op k (ct_unsigned t) (ct_size t =? 8) lu a b) ; plain v
  | ND_NEG => a ← eval (nd_lhs n) ; plain (i64 (- a))
  | ND_COND => c ← eval (nd_cond n) ; eval2 fuel (if negb (c =? 0) then nd_then n else nd_els n) label
  | ND_COMMA => eval2 fuel (nd_rhs n) label
  | ND_NOT => a ← eval (nd_lhs n) ; plain (b2z (a =? 0))
  | ND_BITNOT => a ← eval (nd_lhs n) ; plain (Z.lnot a)
  | ND_LOGAND => a ← eval (nd_lhs n) ; if a =? 0 then plain 0 else b ← eval (nd_rhs n) ; plain (b2z (negb (b =? 0)))
  | ND_LOGOR => a ← eval (nd_lhs n) ; if negb (a =? 0) then plain 1 else b ← eval (nd_rhs n) ; plain (b2z (negb (b =? 0)))
  | ND_CAST =>
      '(v, l) ← eval2 fuel (nd_lhs n) label ;
      mret (if is_integer t then cast_const (ct_unsigned t) (ct_size t) v else v, l)
  | ND_ADDR => eval_rval fuel (nd_lhs n) label
  | ND_LABEL_VAL => with_label label (LabelOf node)
  | ND_MEMBER =>
      if negb label then not_constant node
      else if negb (is_kind_of TY_ARRAY t) then err_tok (nd_tok n) "invalid initializer"
      else '(v, l) ← eval_rval fuel (nd_lhs n) label ; off ← rm cm_offset (nd_member n) ; mret (i64 (v + off), l)
  | ND_VAR =>
      if negb label then not_constant node else
      vt ← ro ob_ty (nd_var n) ; vt ← rt id vt ;
      if negb (is_kind_of TY_ARRAY vt) && negb (is_kind_of TY_FUNC vt) then err_tok (nd_tok n) "invalid initializer"
      else with_label label (NameOf (nd_var n))
  | ND_NUM => plain (nd_val n)
  | _ => not_constant node
  end
  end
with eval_rval (fuel : nat) (node : Z) (label : bool) : M (Z * option label_ref) :=
  match fuel with O => stop CcNoFuel | S fuel =>
  n ← rn id node ;
  match nd_kind n with
  | ND_VAR => l ← ro ob_is_local (nd_var n) ; if (l : bool) then not_constant node else with_label label (NameOf (nd_var n))
  | ND_DEREF => eval2 fuel (nd_lhs n) label
  | ND_MEMBER => '(v, l) ← eval_rval fuel (nd_lhs n) label ; off ← rm cm_offset (nd_member n) ; mret (i64 (v + off), l)
  | _ => err_tok (nd_tok n) "invalid initializer"
  end
  end
with eval_double (fuel : nat) (node : Z) : M Z :=
  match fuel with O => stop CcNoFuel | S fuel =>
  let eval n := r ← eval2 fuel n false ; mret r.1 in
  add_ty node ;;
  n ← rn id node ;
  t ← rt id (nd_ty n) ;
  if is_integer t then v ← eval node ; mret (f_of_int (if ct_unsigned t then v mod 2 ^ 32 else v)) else
  let op f := a ← eval_double fuel (nd_lhs n) ; b ← eval_double fuel (nd_rhs n) ; mret (f a b) in
  match nd_kind n with
  | ND_ADD => op f_add
  | ND_SUB => op f_sub
  | ND_MUL => op f_mul
  | ND_DIV => op f_div
  | ND_NEG => a ← eval_double fuel (nd_lhs n) ; mret (f_neg a)
  | ND_COND => c ← eval_double fuel (nd_cond n) ; eval_double fuel (if f_nonzero c then nd_then n else nd_els n)
  | ND_COMMA => eval_double fuel (nd_rhs n)
  | ND_CAST =>
      fl ← node_ty is_flonum (nd_lhs n) ;
      if (fl : bool) then eval_double fuel (nd_lhs n) else v ← eval (nd_lhs n) ; mret (f_of_int v)
  | ND_NUM => mret (nd_fval n)
  | _ => not_constant node
  end
  end.

Definition eval (node : Z) : M Z := r ← eval2 p_fuel node false ; mret r.1.

Fixpoint is_const_expr_ (fuel : nat) (node : Z) : M bool :=
  match fuel with O => stop CcNoFuel | S fuel =>
  add_ty node ;;
  n ← rn id node ;
  match nd_kind n with
  | ND_ADD | ND_SUB | ND_MUL | ND_DIV | ND_BITAND | ND_BITOR | ND_BITXOR | ND_SHL | ND_SHR
  | ND_EQ | ND_NE | ND_LT | ND_LE | ND_LOGAND | ND_LOGOR =>
      andM (is_const_expr_ fuel (nd_lhs n)) (is_const_expr_ fuel (nd_rhs n))
  | ND_COND =>
      c ← is_const_expr_ fuel (nd_cond n) ;
      if negb c then mret false else
      v ← eval (nd_cond n) ; is_const_expr_ fuel (if negb (v =? 0) then nd_then n else nd_els n)
  | ND_COMMA => is_const_expr_ fuel (nd_rhs n)
  | ND_NEG | ND_NOT | ND_BITNOT | ND_CAST => is_const_expr_ fuel (nd_lhs n)
  | ND_NUM => mret true
  | _ => mret false
  end
  end.
Definition is_const_expr (node : Z) : M bool := is_const_expr_ p_fuel node.

Definition const_expr (tok : Z) : M (Z * Z) := '(node, rest) ← p_conditional tok ; v ← eval node ; mret (v, rest).
(** Its value as an [int]. *)
Definition const_int (tok : Z) : M (Z * Z) := '(v, rest) ← const_expr tok ; mret (i32 v, rest).

(** ** Lists in the heap *)

(** The addresses from [first] to the NULL. *)
Definition chain (next : Z -> M Z) (first : Z) : M (list Z) :=
  loopM p_fuel (fun '(seen, x) =>
    if x =? 0 then mret (inr (rev seen)) else n ← next x ; mret (inl (x :: seen, n))) ([], first).

(** [cur = cur->next = node]: the head's [next] and [cur], 0 for the head. *)
Definition append_node (l : Z * Z) (node : Z) : M (Z * Z) :=
  let '(first, cur) := l in
  if cur =? 0 then mret (node, node)
  else wn cur (fun n => n <| nd_next := node |>) ;; mret (first, node).

Fixpoint foldM {A B} (f : B -> A -> M B) (b : B) (l : list A) : M B :=
  match l with [] => mret b | a :: l => b ← f b a ; foldM f b l end.

(** ** Pointer arithmetic *)

(** [rhs] times the size of what [lhs] points to; [base] is its type. *)
Definition scale (rhs base tok : Z) : M Z :=
  b ← rt id base ;
  size ← (if is_kind_of TY_VLA b then new_var_node (ct_vla_size b) tok else new_long (ct_size b) tok) ;
  new_binary ND_MUL rhs size tok.

Definition new_add (lhs rhs tok : Z) : M Z :=
  add_ty lhs ;; add_ty rhs ;;
  l ← node_ty id lhs ; r ← node_ty id rhs ;
  if is_numeric l && is_numeric r then new_binary ND_ADD lhs rhs tok else
  if negb (ct_base l =? 0) && negb (ct_base r =? 0) then err_tok tok "invalid operands" else
  let '(lhs, rhs, base) := if (ct_base l =? 0) && negb (ct_base r =? 0) then (rhs, lhs, ct_base r) else (lhs, rhs, ct_base l) in
  rhs ← scale rhs base tok ; new_binary ND_ADD lhs rhs tok.

Definition new_sub (lhs rhs tok : Z) : M Z :=
  add_ty lhs ;; add_ty rhs ;;
  l ← node_ty id lhs ; r ← node_ty id rhs ;
  if is_numeric l && is_numeric r then new_binary ND_SUB lhs rhs tok else
  b ← rt id (ct_base l) ;
  if is_kind_of TY_VLA b || is_integer r then
    rhs ← scale rhs (ct_base l) tok ; add_ty rhs ;;
    node ← new_binary ND_SUB lhs rhs tok ; ty ← rn nd_ty lhs ; set_ty node ty ;; mret node
  else if negb (ct_base r =? 0) then
    node ← new_binary ND_SUB lhs rhs tok ; set_ty node ty_long ;;
    size ← new_num (ct_size b) tok ; new_binary ND_DIV node size tok
  else err_tok tok "invalid operands".

End expr.
