(* ===== verification/CcDecl.v ===== *)
(** * CcDecl: the parser of the compiler: types ([upstream/parse.c])

    Type specifiers, declarators, type names, enumerations, structs and unions.  A
    declarator writes [name] and [name_pos] into the type it ends with, the specifier's
    own one if there is nothing around the name. *)

From stdpp Require Import gmap.
From S2P Require Import Prelude Config Kernel Klog RawMem UserMem LibString LibFormat GuestAsm Codegen CcHash CcToken CcTree CcExpr.

(** ** Type specifiers *)

(** The counters of [declspec], two bits for most of the words. *)
Definition VOID : Z := 1.
Definition BOOL : Z := 4.
Definition CHAR : Z := 16.
Definition SHORT : Z := 64.
Definition INT : Z := 256.
Definition LONG : Z := 1024.
Definition FLOAT : Z := 4096.
Definition DOUBLE : Z := 16384.
Definition OTHER : Z := 65536.
Definition SIGNED : Z := 131072.
Definition UNSIGNED : Z := 262144.

(** The counter after a word of a built-in type. *)
Definition count_word (t : Token) (counter : Z) : option Z :=
  if equal t "void" then Some (counter + VOID)
  else if equal t "_Bool" then Some (counter + BOOL)
  else if equal t "char" then Some (counter + CHAR)
  else if equal t "short" then Some (counter + SHORT)
  else if equal t "int" then Some (counter + INT)
  else if equal t "long" then Some (counter + LONG)
  else if equal t "float" then Some (counter + FLOAT)
  else if equal t "double" then Some (counter + DOUBLE)
  else if equal t "signed" then Some (Z.lor counter SIGNED)
  else if equal t "unsigned" then Some (Z.lor counter UNSIGNED)
  else None.

Definition spec_table : list (list Z * Z) :=
  [([VOID], ty_void); ([BOOL], ty_bool);
   ([CHAR; SIGNED + CHAR], ty_char); ([UNSIGNED + CHAR], ty_uchar);
   ([SHORT; SHORT + INT; SIGNED + SHORT; SIGNED + SHORT + INT], ty_short);
   ([UNSIGNED + SHORT; UNSIGNED + SHORT + INT], ty_ushort);
   ([INT; SIGNED; SIGNED + INT], ty_int); ([UNSIGNED; UNSIGNED + INT], ty_uint);
   ([LONG; LONG + INT; SIGNED + LONG; SIGNED + LONG + INT], ty_long);
   ([LONG + LONG; LONG + LONG + INT; SIGNED + LONG + LONG; SIGNED + LONG + LONG + INT], ty_llong);
   ([UNSIGNED + LONG; UNSIGNED + LONG + INT], ty_ulong);
   ([UNSIGNED + LONG + LONG; UNSIGNED + LONG + LONG + INT], ty_ullong);
   ([FLOAT], ty_float); ([DOUBLE], ty_double); ([LONG + DOUBLE], ty_ldouble)].

(** The switch over [counter]. *)
Definition spec_type (counter : Z) : option Z :=
  row ← List.find (fun r => existsb (Z.eqb counter) r.1) spec_table ; Some row.2.

(** Storage classes. *)
Definition storage_words : list string := ["typedef"; "static"; "extern"; "inline"; "_Thread_local"; "__thread"].
Definition storage_attr (t : Token) (a : VarAttr) : VarAttr :=
  if equal t "typedef" then a <| va_typedef := true |>
  else if equal t "static" then a <| va_static := true |>
  else if equal t "extern" then a <| va_extern := true |>
  else if equal t "inline" then a <| va_inline := true |>
  else a <| va_tls := true |>.
Definition storage_clash (a : VarAttr) : bool :=
  va_typedef a && (b2z (va_static a) + b2z (va_extern a) + b2z (va_inline a) + b2z (va_tls a) >? 1).

(** Words that are read and ignored. *)
Definition ignored_words : list string :=
  ["const"; "volatile"; "auto"; "register"; "restrict"; "__restrict"; "__restrict__"; "_Noreturn"].
Definition pointer_quals : list string := ["const"; "volatile"; "restrict"; "__restrict"; "__restrict__"].
Definition made_words : list string := ["struct"; "union"; "enum"; "typeof"].

(** ** Where the members of a struct are *)

(** A member of [size] bytes that comes after [bits] bits, in a struct whose alignment is
    [salign] so far: the bits after it, the member and the alignment. *)
Definition place_member (packed : bool) (bits salign : Z) (m : CMember) (size : Z) : option (Z * CMember * Z) :=
  let up n a := if a =? 0 then None else Some (Codegen.align_to n a) in
  let unit := size *! 8 in
  '(bits, m) ← (
    if cm_bitfield m && (cm_bit_width m =? 0) then bits ← up bits unit ; Some (bits, m)
    else if cm_bitfield m then
      if unit =? 0 then None else
      let apart := negb (Z.quot bits unit =? Z.quot (bits +! cm_bit_width m -! 1) unit) in
      bits ← (if apart then up bits unit else Some bits) ;
      off ← up (Z.quot bits 8 -! size +! 1) size ;
      Some (bits +! cm_bit_width m, m <| cm_offset := off |> <| cm_bit_offset := Z.rem bits unit |>)
    else
      bits ← (if packed then Some bits else up bits (cm_align m *! 8)) ;
      Some (bits +! unit, m <| cm_offset := Z.quot bits 8 |>)) ;
  Some (bits, m, if negb packed && (salign <? cm_align m) then cm_align m else salign).

(** [align_to(bits, ty->align * 8) / 8]. *)
Definition struct_size (bits salign : Z) : option Z :=
  if salign *! 8 =? 0 then None else Some (Z.quot (Codegen.align_to bits (salign *! 8)) 8).

Section decl.
Context {P : Parser} {F : SoftFloat} {FF : FoldFloat}.

(** ** Declarators *)

Definition func_params (tok ty : Z) : M (Z * Z) :=
  v ← andM (eqt tok "void") (n ← nxt tok ; eqt n ")") ;
  if (v : bool) then n ← nxt tok ; n ← nxt n ; f ← func_type ty ; mret (f, n) else
  '(tok, first, cur, variadic) ← loopM p_fuel (fun '(tok, first, cur) =>
    b ← eqt tok ")" ; if (b : bool) then mret (inr (tok, first, cur, false)) else
    tok ← (if cur =? 0 then mret tok else skip tok ",") ;
    b ← eqt tok "..." ;
    if (b : bool) then tok ← nxt tok ; skip tok ")" ;; mret (inr (tok, first, cur, true)) else
    '(ty2, _, tok) ← p_declspec tok None ;
    '(ty2, tok) ← p_declarator tok ty2 ;
    t ← rt id ty2 ;
    ty2 ← (if is_kind_of TY_ARRAY t || is_kind_of TY_FUNC t then
             p ← pointer_to (if is_kind_of TY_ARRAY t then ct_base t else ty2) ;
             wt p (fun r => r <| ct_name := ct_name t |>) ;; mret p
           else mret ty2) ;
    c ← copy_type ty2 ;
    (if cur =? 0 then mret tt else wt cur (fun r => r <| ct_next := c |>)) ;;
    mret (inl (tok, if cur =? 0 then c else first, c))) (tok, 0, 0) ;
  f ← func_type ty ;
  wt f (fun r => r <| ct_params := first |> <| ct_variadic := variadic || (cur =? 0) |>) ;;
  n ← nxt tok ; mret (f, n).

(** The first token from [tok] on that is none of [words]. *)
Definition skip_words (words : list string) (tok : Z) : M Z :=
  loopM p_fuel (fun tok => b ← eq_any tok words ; if (b : bool) then n ← nxt tok ; mret (inl n) else mret (inr tok)) tok.

Definition array_dimensions (tok ty : Z) : M (Z * Z) :=
  tok ← skip_words ["static"; "restrict"] tok ;
  b ← eqt tok "]" ;
  if (b : bool) then n ← nxt tok ; '(ty, rest) ← p_type_suffix n ty ; a ← array_of ty (-1) ; mret (a, rest) else
  '(expr, tok) ← p_conditional tok ;
  tok ← skip tok "]" ;
  '(ty, rest) ← p_type_suffix tok ty ;
  vla ← orM (rt (is_kind_of TY_VLA) ty) (c ← is_const_expr expr ; mret (negb c)) ;
  a ← (if (vla : bool) then vla_of ty expr else n ← eval expr ; array_of ty (i32 n)) ;
  mret (a, rest).

Definition type_suffix (tok ty : Z) : M (Z * Z) :=
  b ← eqt tok "(" ; if (b : bool) then n ← nxt tok ; func_params n ty else
  b ← eqt tok "[" ; if (b : bool) then n ← nxt tok ; array_dimensions n ty else
  mret (ty, tok).

Definition pointers (tok ty : Z) : M (Z * Z) :=
  loopM p_fuel (fun '(tok, ty) =>
    b ← eqt tok "*" ;
    if negb b then mret (inr (ty, tok)) else
    tok ← nxt tok ; ty ← pointer_to ty ; tok ← skip_words pointer_quals tok ; mret (inl (tok, ty))) (tok, ty).

(** The part in parentheses is read twice: for its end, then around the type that the
    suffix gives. *)
Definition nested (declarator : Z -> Z -> M (Z * Z)) (start ty : Z) : M (Z * Z) :=
  start ← nxt start ;
  dummy ← calloc_type type0 ;
  '(_, tok) ← declarator start dummy ;
  tok ← skip tok ")" ;
  '(ty, rest) ← type_suffix tok ty ;
  '(ty, _) ← declarator start ty ; mret (ty, rest).

Definition declarator (tok ty : Z) : M (Z * Z) :=
  '(ty, tok) ← pointers tok ty ;
  b ← eqt tok "(" ;
  if (b : bool) then nested p_declarator tok ty else
  k ← is_tk tok TK_IDENT ;
  let name_pos := tok in
  let name := if (k : bool) then tok else 0 in
  tok ← (if (k : bool) then nxt tok else mret tok) ;
  '(ty, rest) ← type_suffix tok ty ;
  wt ty (fun t => t <| ct_name := name |> <| ct_name_pos := name_pos |>) ;; mret (ty, rest).

Definition abstract_declarator (tok ty : Z) : M (Z * Z) :=
  '(ty, tok) ← pointers tok ty ;
  b ← eqt tok "(" ;
  if (b : bool) then nested p_abstract_declarator tok ty else type_suffix tok ty.

Definition typename (tok : Z) : M (Z * Z) :=
  '(ty, _, tok) ← p_declspec tok None ; p_abstract_declarator tok ty.

(** ** Enumerations and typeof *)

Definition is_end (tok : Z) : M bool :=
  orM (eqt tok "}") (andM (eqt tok ",") (n ← nxt tok ; eqt n "}")).

(** [*rest] when it returns true. *)
Definition consume_end (tok : Z) : M (option Z) :=
  b ← eqt tok "}" ; if (b : bool) then n ← nxt tok ; mret (Some n) else
  b ← andM (eqt tok ",") (n ← nxt tok ; eqt n "}") ;
  if (b : bool) then n ← nxt tok ; n ← nxt n ; mret (Some n) else mret None.

Definition enum_specifier (tok : Z) : M (Z * Z) :=
  ty ← enum_type ;
  k ← is_tk tok TK_IDENT ;
  let tag := if (k : bool) then tok else 0 in
  tok ← (if (k : bool) then nxt tok else mret tok) ;
  b ← eqt tok "{" ;
  if k && negb b then
    ty ← find_tag tag ;
    if ty =? 0 then err_tok tag "unknown enum type" else
    e ← rt (is_kind_of TY_ENUM) ty ;
    if negb e then err_tok tag "not an enum tag" else mret (ty, tok)
  else
  tok ← skip tok "{" ;
  rest ← loopM p_fuel (fun '(tok, first, val) =>
    e ← consume_end tok ;
    match e with Some rest => mret (inr rest) | None =>
    tok ← (if (first : bool) then mret tok else skip tok ",") ;
    name ← get_ident tok ; tok ← nxt tok ;
    b ← eqt tok "=" ;
    '(val, tok) ← (if (b : bool) then n ← nxt tok ; const_int n else mret (val, tok)) ;
    sc ← push_scope name ;
    wv sc (fun v => v <| vs_enum_ty := ty |> <| vs_enum_val := val |>) ;;
    mret (inl (tok, false, val +! 1))
    end) (tok, true, 0) ;
  (if (k : bool) then push_tag_scope tag ty else mret tt) ;; mret (ty, rest).

Definition typeof_specifier (tok : Z) : M (Z * Z) :=
  tok ← skip tok "(" ;
  b ← is_typename tok ;
  '(ty, tok) ← (if (b : bool) then p_typename tok
                else '(node, tok) ← p_expr tok ; add_ty node ;; ty ← rn nd_ty node ; mret (ty, tok)) ;
  tok ← skip tok ")" ; mret (ty, tok).

(** ** Structs and unions *)

(** The list is in [head] and [cur], 0 for the head. *)
Definition append_member (l : Z * Z) (mem : Z) : M (Z * Z) :=
  let '(first, cur) := l in
  if cur =? 0 then mret (mem, mem) else wm cur (fun m => m <| cm_next := mem |>) ;; mret (first, mem).

(** One declarator of a member. *)
Definition struct_declarator (tok basety idx align : Z) : M (Z * Z) :=
  '(ty, tok) ← p_declarator tok basety ;
  t ← rt id ty ;
  mem ← calloc_member (member0 <| cm_ty := ty |> <| cm_name := ct_name t |> <| cm_idx := idx |>
                         <| cm_align := if negb (align =? 0) then align else ct_align t |>) ;
  '(b, tok) ← consume tok ":" ;
  if (b : bool) then
    '(w, tok) ← const_int tok ; wm mem (fun m => m <| cm_bitfield := true |> <| cm_bit_width := w |>) ;; mret (mem, tok)
  else mret (mem, tok).

Definition struct_members (tok ty : Z) : M Z :=
  '(tok, first, cur) ← loopM p_fuel (fun '(tok, first, cur, idx) =>
    b ← eqt tok "}" ; if (b : bool) then mret (inr (tok, first, cur)) else
    '(basety, attr, tok) ← p_declspec tok (Some attr0) ;
    let align := match attr with Some a => va_align a | None => 0 end in
    bt ← rt id basety ;
    '(b, tok) ← (if is_record bt then consume tok ";" else mret (false, tok)) ;
    if (b : bool) then
      mem ← calloc_member (member0 <| cm_ty := basety |> <| cm_idx := idx |>
                             <| cm_align := if negb (align =? 0) then align else ct_align bt |>) ;
      '(first, cur) ← append_member (first, cur) mem ; mret (inl (tok, first, cur, idx +! 1))
    else
      r ← loopM p_fuel (fun '(tok, first, cur, idx, one) =>
        '(b, tok) ← consume tok ";" ;
        if (b : bool) then mret (inr (tok, first, cur, idx)) else
        tok ← (if (one : bool) then mret tok else skip tok ",") ;
        '(mem, tok) ← struct_declarator tok basety idx align ;
        '(first, cur) ← append_member (first, cur) mem ;
        mret (inl (tok, first, cur, idx +! 1, false))) (tok, first, cur, idx, true) ;
      mret (inl r)) (tok, 0, 0, 0) ;
  (if cur =? 0 then mret tt else
   cty ← rm cm_ty cur ; t ← rt id cty ;
   if is_kind_of TY_ARRAY t && (ct_array_len t <? 0) then
     a ← array_of (ct_base t) 0 ; wm cur (fun m => m <| cm_ty := a |>) ;; wt ty (fun r => r <| ct_flexible := true |>)
   else mret tt) ;;
  rest ← nxt tok ; wt ty (fun r => r <| ct_members := first |>) ;; mret rest.

Definition attribute_list (tok ty : Z) : M Z :=
  loopM p_fuel (fun tok =>
    '(b, tok) ← consume tok "__attribute__" ;
    if negb b then mret (inr tok) else
    tok ← skip tok "(" ; tok ← skip tok "(" ;
    tok ← loopM p_fuel (fun '(tok, first) =>
      '(b, tok) ← consume tok ")" ;
      if (b : bool) then mret (inr tok) else
      tok ← (if (first : bool) then mret tok else skip tok ",") ;
      '(b, tok) ← consume tok "packed" ;
      if (b : bool) then wt ty (fun t => t <| ct_packed := true |>) ;; mret (inl (tok, false)) else
      '(b, tok) ← consume tok "aligned" ;
      if (b : bool) then
        tok ← skip tok "(" ; '(a, tok) ← const_int tok ; wt ty (fun t => t <| ct_align := a |>) ;;
        tok ← skip tok ")" ; mret (inl (tok, false))
      else err_tok tok "unknown attribute") (tok, true) ;
    tok ← skip tok ")" ; mret (inl tok)) tok.

Definition struct_union_decl (tok : Z) : M (Z * Z) :=
  ty ← struct_type ;
  tok ← attribute_list tok ty ;
  k ← is_tk tok TK_IDENT ;
  let tag := if (k : bool) then tok else 0 in
  tok ← (if (k : bool) then nxt tok else mret tok) ;
  b ← eqt tok "{" ;
  if k && negb b then
    ty2 ← find_tag tag ;
    if negb (ty2 =? 0) then mret (ty2, tok) else
    wt ty (fun t => t <| ct_size := -1 |>) ;; push_tag_scope tag ty ;; mret (ty, tok)
  else
  tok ← skip tok "{" ;
  tok ← struct_members tok ty ;
  rest ← attribute_list tok ty ;
  if negb k then mret (ty, rest) else
  key ← rk lexeme tag ;
  sc ← gets scope ; m ← rs sc_tags sc ; ty2 ← lift (of_table (hashmap_get2 m key)) ;
  if negb (ty2 =? 0) then t ← rt id ty ; wt ty2 (fun _ => t) ;; mret (ty2, rest)
  else push_tag_scope tag ty ;; mret (ty, rest).

(** The loop of [struct_decl], a member at a time. *)
Definition place_in (ty : Z) (bits mem : Z) : M Z :=
  m ← rm id mem ; t ← rt id ty ; size ← rt ct_size (cm_ty m) ;
  '(bits, m, align) ← found (place_member (ct_packed t) bits (ct_align t) m size) ;
  wm mem (fun _ => m) ;; wt ty (fun t => t <| ct_align := align |>) ;; mret bits.

(** What [struct_decl] does to the type. *)
Definition layout_struct (ty : Z) : M unit :=
  wt ty (fun t => t <| ct_kind := TY_STRUCT |>) ;;
  t ← rt id ty ;
  if ct_size t <? 0 then mret tt else
  mems ← chain (rm cm_next) (ct_members t) ;
  bits ← foldM (place_in ty) 0 mems ;
  align ← rt ct_align ty ;
  size ← found (struct_size bits align) ;
  wt ty (fun t => t <| ct_size := size |>).

Definition struct_decl (tok : Z) : M (Z * Z) := '(ty, rest) ← struct_union_decl tok ; layout_struct ty ;; mret (ty, rest).

(** The alignment and the size of a union after a member. *)
Definition widen_union (align size malign msize : Z) : Z * Z :=
  (if align <? malign then malign else align, if size <? msize then msize else size).

Definition union_decl (tok : Z) : M (Z * Z) :=
  '(ty, rest) ← struct_union_decl tok ;
  wt ty (fun t => t <| ct_kind := TY_UNION |>) ;;
  t ← rt id ty ;
  if ct_size t <? 0 then mret (ty, rest) else
  mems ← chain (rm cm_next) (ct_members t) ;
  foldM (fun _ mem =>
    m ← rm id mem ; msize ← rt ct_size (cm_ty m) ;
    wt ty (fun t => let '(a, s) := widen_union (ct_align t) (ct_size t) (cm_align m) msize in
                    t <| ct_align := a |> <| ct_size := s |>)) tt mems ;;
  t ← rt id ty ;
  size ← align_to (ct_size t) (ct_align t) ;
  wt ty (fun t => t <| ct_size := size |>) ;; mret (ty, rest).

(** The member, 0 for none. *)
Fixpoint get_struct_member_ (fuel : nat) (ty tok : Z) : M Z :=
  match fuel with O => stop CcNoFuel | S fuel =>
  first ← rt ct_members ty ;
  loopM p_fuel (fun mem =>
    if mem =? 0 then mret (inr 0) else
    m ← rm id mem ;
    r ← rt is_record (cm_ty m) ;
    found ← (if r && (cm_name m =? 0) then f ← get_struct_member_ fuel (cm_ty m) tok ; mret (negb (f =? 0))
             else a ← rk lexeme (cm_name m) ; b ← rk lexeme tok ; mret (bool_decide (a = b))) ;
    if (found : bool) then mret (inr mem) else mret (inl (cm_next m))) first
  end.
Definition get_struct_member (ty tok : Z) : M Z := get_struct_member_ p_fuel ty tok.

(** ** Declaration specifiers *)

(** A type that is not built in: [ty2] is the typedef's. *)
Definition made_type (tok ty2 : Z) : M (Z * Z) :=
  n ← nxt tok ;
  t ← rk id tok ;
  if equal t "struct" then struct_decl n
  else if equal t "union" then union_decl n
  else if equal t "enum" then enum_specifier n
  else if equal t "typeof" then typeof_specifier n
  else mret (ty2, n).

Definition alignas (tok : Z) : M (Z * Z) :=
  n ← nxt tok ; tok ← skip n "(" ;
  b ← is_typename tok ;
  '(a, tok) ← (if (b : bool) then '(ty, tok) ← p_typename tok ; a ← rt ct_align ty ; mret (a, tok) else const_int tok) ;
  tok ← skip tok ")" ; mret (a, tok).

(** One round of [declspec]: the specifiers so far are the token, the type, the counter,
    [is_atomic] and [*attr]; [attr] is [None] for NULL. *)
Definition specs : Type := Z * Z * Z * bool * option VarAttr.
Definition declspec_round (s : specs) : M (specs + specs) :=
  let '(tok, ty, counter, atomic, attr) := s in
  b ← is_typename tok ;
  if negb b then mret (inr s) else
  t ← rk id tok ;
  if existsb (equal t) storage_words then
    match attr with
    | None => err_tok tok "storage class specifier is not allowed in this context"
    | Some a =>
        let a := storage_attr t a in
        if storage_clash a then
          err_tok tok "typedef may not be used together with static, extern, inline, __thread or _Thread_local"
        else n ← nxt tok ; mret (inl (n, ty, counter, atomic, Some a))
    end
  else if existsb (equal t) ignored_words then n ← nxt tok ; mret (inl (n, ty, counter, atomic, attr))
  else if equal t "_Atomic" then
    n ← nxt tok ;
    b ← eqt n "(" ;
    if (b : bool) then n ← nxt n ; '(ty, n) ← p_typename n ; n ← skip n ")" ; mret (inl (n, ty, counter, true, attr))
    else mret (inl (n, ty, counter, true, attr))
  else if equal t "_Alignas" then
    match attr with
    | None => err_tok tok "_Alignas is not allowed in this context"
    | Some a => '(al, n) ← alignas tok ; mret (inl (n, ty, counter, atomic, Some (a <| va_align := al |>)))
    end
  else
  ty2 ← find_typedef tok ;
  if existsb (equal t) made_words || negb (ty2 =? 0) then
    if negb (counter =? 0) then mret (inr s)
    else '(ty, n) ← made_type tok ty2 ; mret (inl (n, ty, counter + OTHER, atomic, attr))
  else match count_word t counter with
       | None => unreachable
       | Some counter =>
           match spec_type counter with
           | None => err_tok tok "invalid type"
           | Some ty => n ← nxt tok ; mret (inl (n, ty, counter, atomic, attr))
           end
       end.

Definition declspec (tok : Z) (attr : option VarAttr) : M (Z * option VarAttr * Z) :=
  '(tok, ty, _, atomic, attr) ← loopM p_fuel declspec_round (tok, ty_int, 0, false, attr) ;
  ty ← (if (atomic : bool) then ty ← copy_type ty ; wt ty (fun t => t <| ct_atomic := true |>) ;; mret ty else mret ty) ;
  mret (ty, attr, tok).

(** ** Variable-length arrays *)

Fixpoint compute_vla_size_ (fuel : nat) (ty tok : Z) : M Z :=
  match fuel with O => stop CcNoFuel | S fuel =>
  node ← new_node ND_NULL_EXPR tok ;
  t ← rt id ty ;
  node ← (if ct_base t =? 0 then mret node
          else b ← compute_vla_size_ fuel (ct_base t) tok ; new_binary ND_COMMA node b tok) ;
  if negb (is_kind_of TY_VLA t) then mret node else
  b ← rt id (ct_base t) ;
  base_sz ← (if is_kind_of TY_VLA b then new_var_node (ct_vla_size b) tok else new_num (ct_size b) tok) ;
  v ← new_lvar [] ty_ulong ;
  wt ty (fun t => t <| ct_vla_size := v |>) ;;
  lhs ← new_var_node v tok ;
  rhs ← new_binary ND_MUL (ct_vla_len t) base_sz tok ;
  expr ← new_binary ND_ASSIGN lhs rhs tok ;
  new_binary ND_COMMA node expr tok
  end.
Definition compute_vla_size (ty tok : Z) : M Z := compute_vla_size_ p_fuel ty tok.

Definition new_alloca (sz : Z) : M Z :=
  tok ← rn nd_tok sz ;
  b ← gets builtin_alloca ;
  v ← new_var_node b tok ; node ← new_unary ND_FUNCALL v tok ;
  fty ← ro ob_ty b ; ret ← rt ct_return_ty fty ;
  wn node (fun n => n <| nd_func_ty := fty |> <| nd_ty := ret |> <| nd_args := sz |>) ;;
  add_ty sz ;; mret node.

End decl.
