(* ===== verification/CcInit.v ===== *)
(** * CcInit: the parser of the compiler: initializers and declarations ([upstream/parse.c])

    The bytes of a string literal that is not made of [char]s are read at the width of the
    array's elements; reading after its zero is undefined.  An [InitDesg] is the path from
    a variable to the part of it that is initialized. *)

From stdpp Require Import gmap.
From S2P Require Import Prelude Config Kernel Klog RawMem UserMem LibString LibFormat GuestAsm Codegen CcHash CcToken CcTree CcExpr CcDecl.

(** [size] bytes of a value, the low one first, and back. *)
Fixpoint bytes_le (size : nat) (v : Z) : list Z :=
  match size with O => [] | S size => v mod 256 :: bytes_le size (v / 256) end.
Fixpoint value_le (bs : list Z) : Z :=
  match bs with [] => 0 | b :: bs => b + 256 * value_le bs end.

(** [size] bytes of [buf] from [off] on. *)
Definition slice (buf : list Z) (off : Z) (size : nat) : option (list Z) :=
  if (off <? 0) || (Z.of_nat (length buf) <? off + Z.of_nat size) then None else Some (take size (drop (Z.to_nat off) buf)).
Definition overwrite (buf : list Z) (off : Z) (bs : list Z) : option (list Z) :=
  if (off <? 0) || (Z.of_nat (length buf) <? off + Z.of_nat (length bs)) then None
  else Some (take (Z.to_nat off) buf ++ bs ++ drop (Z.to_nat off + length bs) buf).

(** The sizes that are read and written in one go. *)
Definition width_of (sz : Z) : option nat :=
  if sz =? 1 then Some 1%nat else if sz =? 2 then Some 2%nat else if sz =? 4 then Some 4%nat
  else if sz =? 8 then Some 8%nat else None.

Section init.
Context {P : Parser} {F : SoftFloat} {FF : FoldFloat}.

(** ** The tree of an initializer *)

Fixpoint new_initializer_ (fuel : nat) (ty : Z) (is_flexible : bool) : M Z :=
  match fuel with O => stop CcNoFuel | S fuel =>
  init ← calloc_init (init0 <| in_ty := ty |>) ;
  t ← rt id ty ;
  if is_kind_of TY_ARRAY t then
    if is_flexible && (ct_size t <? 0) then wi init (fun i => i <| in_flexible := true |>) ;; mret init else
    children ← foldM (fun acc _ => c ← new_initializer_ fuel (ct_base t) false ; mret (acc ++ [c]))
                 [] (seq 0 (Z.to_nat (ct_array_len t))) ;
    wi init (fun i => i <| in_children := children |>) ;; mret init
  else if is_record t then
    mems ← chain (rm cm_next) (ct_members t) ;
    wi init (fun i => i <| in_children := replicate (length mems) 0 |>) ;;
    foldM (fun _ mem =>
      m ← rm id mem ;
      child ← (if is_flexible && ct_flexible t && (cm_next m =? 0)
               then calloc_init (init0 <| in_ty := cm_ty m |> <| in_flexible := true |>)
               else new_initializer_ fuel (cm_ty m) false) ;
      if (cm_idx m <? 0) || (Z.of_nat (length mems) <=? cm_idx m) then stop CcUndefined
      else wi init (fun i => i <| in_children ::= <[Z.to_nat (cm_idx m) := child]> |>)) tt mems ;;
    mret init
  else mret init
  end.
Definition new_initializer (ty : Z) (is_flexible : bool) : M Z := new_initializer_ p_fuel ty is_flexible.

(** [init->children[i]]. *)
Definition child (init i : Z) : M Z :=
  c ← ri in_children init ; if i <? 0 then stop CcUndefined else found (c !! Z.to_nat i).

(** [*init = *new_initializer(array_of(init->ty->base, len), false)]. *)
Definition resize (init len : Z) : M unit :=
  ty ← ri in_ty init ; base ← rt ct_base ty ;
  a ← array_of base len ; n ← new_initializer a false ; r ← ri id n ; wi init (fun _ => r).

(** ** Strings *)

(** The bytes of [tok->str] and its zero, and [tok->ty->array_len]. *)
Definition string_bytes (tok : Z) : M (list Z * Z) :=
  t ← rk id tok ;
  match t_ty t with
  | ArrayTy base len =>
      size ← rt ct_size base ;
      mret (concat (map (bytes_le (Z.to_nat size)) (t_str t ++ [0])), len)
  | _ => stop CcUndefined
  end.

Definition string_initializer (tok init : Z) : M Z :=
  '(bytes, slen) ← string_bytes tok ;
  flex ← ri in_flexible init ;
  (if (flex : bool) then resize init slen else mret tt) ;;
  ty ← ri in_ty init ; t ← rt id ty ;
  let len := Z.min (ct_array_len t) slen in
  size ← rt ct_size (ct_base t) ;
  (if (size =? 1) || (size =? 2) || (size =? 4) then
     foldM (fun _ i =>
       bs ← found (slice bytes (Z.of_nat i * size) (Z.to_nat size)) ;
       let v := value_le bs in
       n ← new_num (if size =? 1 then sext8 v else v) tok ;
       c ← child init (Z.of_nat i) ; wi c (fun r => r <| in_expr := n |>)) tt (seq 0 (Z.to_nat len))
   else unreachable) ;;
  nxt tok.

(** ** Designators *)

(** [*begin], [*end] and [*rest]. *)
Definition array_designator (tok ty : Z) : M (Z * Z * Z) :=
  n ← nxt tok ; '(b, tok) ← const_int n ;
  len ← rt ct_array_len ty ;
  if b >=? len then err_tok tok "array designator index exceeds array bounds" else
  d ← eqt tok "..." ;
  '(e, tok) ← (if (d : bool) then
      n ← nxt tok ; '(e, tok) ← const_int n ;
      if e >=? len then err_tok tok "array designator index exceeds array bounds" else
      if e <? b then
        err_text tok (str "array designator range [" ++ int_text b ++ str ", " ++ int_text e ++ str "] is empty")
      else mret (e, tok)
    else mret (b, tok)) ;
  rest ← skip tok "]" ; mret (b, e, rest).

Definition struct_designator (tok ty : Z) : M (Z * Z) :=
  let start := tok in
  tok ← skip tok "." ;
  k ← is_tk tok TK_IDENT ;
  if negb k then err_tok tok "expected a field designator" else
  first ← rt ct_members ty ;
  loopM p_fuel (fun mem =>
    if mem =? 0 then err_tok tok "struct has no such member" else
    m ← rm id mem ;
    s ← rt (is_kind_of TY_STRUCT) (cm_ty m) ;
    if s && (cm_name m =? 0) then
      f ← get_struct_member (cm_ty m) tok ;
      if negb (f =? 0) then mret (inr (mem, start)) else mret (inl (cm_next m))
    else
      a ← rk lexeme (cm_name m) ; b ← rk lexeme tok ;
      if bool_decide (a = b) then rest ← nxt tok ; mret (inr (mem, rest)) else mret (inl (cm_next m))) first.

(** The child of a member. *)
Definition member_child (init mem : Z) : M Z := i ← rm cm_idx mem ; child init i.

(** ** The elements of an array *)

(** One element of the list in braces; [dummy] takes it. *)
Definition count_array_init_elements (tok ty : Z) : M Z :=
  base ← rt ct_base ty ;
  dummy ← new_initializer base true ;
  loopM p_fuel (fun '(tok, first, i, mx) =>
    e ← consume_end tok ;
    match e with Some _ => mret (inr mx) | None =>
    tok ← (if (first : bool) then mret tok else skip tok ",") ;
    b ← eqt tok "[" ;
    '(i, tok) ← (if (b : bool) then
        n ← nxt tok ; '(i, tok) ← const_int n ;
        d ← eqt tok "..." ;
        '(i, tok) ← (if (d : bool) then n ← nxt tok ; const_int n else mret (i, tok)) ;
        tok ← skip tok "]" ; tok ← p_designation tok dummy ; mret (i, tok)
      else tok ← p_initializer2 tok dummy ; mret (i, tok)) ;
    mret (inl (tok, false, i +! 1, Z.max mx (i +! 1)))
    end) (tok, true, 0, 0).

(** An array whose length was omitted gets the length of its list. *)
Definition size_flexible (tok init : Z) : M unit :=
  flex ← ri in_flexible init ;
  if (flex : bool) then ty ← ri in_ty init ; len ← count_array_init_elements tok ty ; resize init len else mret tt.

(** The same designation for the elements from [b] to [e]; the last one's [*rest]. *)
Definition designate_range (tok init b e : Z) : M Z :=
  foldM (fun _ i => c ← child init (b + Z.of_nat i) ; p_designation tok c) tok (seq 0 (Z.to_nat (e - b + 1))).

(** [init->ty->array_len]. *)
Definition init_len (init : Z) : M Z := ty ← ri in_ty init ; rt ct_array_len ty.

Definition array_initializer1 (tok init : Z) : M Z :=
  tok ← skip tok "{" ;
  size_flexible tok init ;;
  size_flexible tok init ;;
  loopM p_fuel (fun '(tok, first, i) =>
    e ← consume_end tok ;
    match e with Some rest => mret (inr rest) | None =>
    tok ← (if (first : bool) then mret tok else skip tok ",") ;
    b ← eqt tok "[" ;
    if (b : bool) then
      ty ← ri in_ty init ; '(b, e, tok) ← array_designator tok ty ;
      tok ← designate_range tok init b e ; mret (inl (tok, false, e +! 1))
    else
      len ← init_len init ;
      tok ← (if i <? len then c ← child init i ; p_initializer2 tok c else p_skip_excess tok) ;
      mret (inl (tok, false, i +! 1))
    end) (tok, true, 0).

Definition array_initializer2 (tok init i : Z) : M Z :=
  size_flexible tok init ;;
  loopM p_fuel (fun '(tok, i) =>
    len ← init_len init ;
    go ← (if i <? len then e ← is_end tok ; mret (negb e) else mret false) ;
    if negb go then mret (inr tok) else
    let start := tok in
    tok ← (if i >? 0 then skip tok "," else mret tok) ;
    d ← eq_any tok ["["; "."] ;
    if (d : bool) then mret (inr start) else
    c ← child init i ; tok ← p_initializer2 tok c ; mret (inl (tok, i +! 1))) (tok, i).

(** ** The members of a struct or union *)

Definition init_members (init : Z) : M Z := ty ← ri in_ty init ; rt ct_members ty.

Definition struct_initializer1 (tok init : Z) : M Z :=
  tok ← skip tok "{" ;
  mem ← init_members init ;
  loopM p_fuel (fun '(tok, first, mem) =>
    e ← consume_end tok ;
    match e with Some rest => mret (inr rest) | None =>
    tok ← (if (first : bool) then mret tok else skip tok ",") ;
    d ← eqt tok "." ;
    if (d : bool) then
      ty ← ri in_ty init ; '(mem, tok) ← struct_designator tok ty ;
      c ← member_child init mem ; tok ← p_designation tok c ;
      mem ← rm cm_next mem ; mret (inl (tok, false, mem))
    else if negb (mem =? 0) then
      c ← member_child init mem ; tok ← p_initializer2 tok c ;
      mem ← rm cm_next mem ; mret (inl (tok, false, mem))
    else tok ← p_skip_excess tok ; mret (inl (tok, false, mem))
    end) (tok, true, mem).

Definition struct_initializer2 (tok init mem : Z) : M Z :=
  loopM p_fuel (fun '(tok, first, mem) =>
    go ← (if mem =? 0 then mret false else e ← is_end tok ; mret (negb e)) ;
    if negb go then mret (inr tok) else
    let start := tok in
    tok ← (if (first : bool) then mret tok else skip tok ",") ;
    d ← eq_any tok ["["; "."] ;
    if (d : bool) then mret (inr start) else
    c ← member_child init mem ; tok ← p_initializer2 tok c ;
    mem ← rm cm_next mem ; mret (inl (tok, false, mem))) (tok, true, mem).

Definition union_initializer (tok init : Z) : M Z :=
  b ← eqt tok "{" ;
  d ← (if (b : bool) then n ← nxt tok ; eqt n "." else mret false) ;
  if (d : bool) then
    n ← nxt tok ; ty ← ri in_ty init ;
    '(mem, tok) ← struct_designator n ty ;
    wi init (fun i => i <| in_mem := mem |>) ;;
    c ← member_child init mem ; tok ← p_designation tok c ; skip tok "}"
  else
    mem ← init_members init ;
    wi init (fun i => i <| in_mem := mem |>) ;;
    if (b : bool) then
      n ← nxt tok ; c ← child init 0 ; tok ← p_initializer2 n c ;
      '(_, tok) ← consume tok "," ; skip tok "}"
    else c ← child init 0 ; p_initializer2 tok c.

Definition designation (tok init : Z) : M Z :=
  ty ← ri in_ty init ; t ← rt id ty ;
  b ← eqt tok "[" ;
  if (b : bool) then
    if negb (is_kind_of TY_ARRAY t) then err_tok tok "array index in non-array initializer" else
    '(b, e, tok) ← array_designator tok ty ;
    tok2 ← designate_range tok init b e ;
    array_initializer2 tok2 init (b +! 1)
  else
  d ← eqt tok "." ;
  if d && is_kind_of TY_STRUCT t then
    '(mem, tok) ← struct_designator tok ty ;
    c ← member_child init mem ; tok ← p_designation tok c ;
    wi init (fun i => i <| in_expr := 0 |>) ;;
    mem ← rm cm_next mem ; struct_initializer2 tok init mem
  else if d && is_kind_of TY_UNION t then
    '(mem, tok) ← struct_designator tok ty ;
    wi init (fun i => i <| in_mem := mem |>) ;;
    c ← member_child init mem ; p_designation tok c
  else if (d : bool) then err_tok tok "field name not in struct or union initializer"
  else
    b ← eqt tok "=" ;
    tok ← (if (b : bool) then nxt tok else mret tok) ;
    p_initializer2 tok init.

(** ** Initializers *)

Definition skip_excess_element (tok : Z) : M Z :=
  b ← eqt tok "{" ;
  if (b : bool) then n ← nxt tok ; tok ← p_skip_excess n ; skip tok "}"
  else '(_, tok) ← p_assign tok ; mret tok.

Definition initializer2 (tok init : Z) : M Z :=
  ty ← ri in_ty init ; t ← rt id ty ;
  s ← is_tk tok TK_STR ;
  b ← eqt tok "{" ;
  if is_kind_of TY_ARRAY t then
    if (s : bool) then string_initializer tok init
    else if (b : bool) then array_initializer1 tok init else array_initializer2 tok init 0
  else if is_kind_of TY_STRUCT t then
    if (b : bool) then struct_initializer1 tok init else
    '(e, rest) ← p_assign tok ; add_ty e ;;
    same ← node_ty (is_kind_of TY_STRUCT) e ;
    if (same : bool) then wi init (fun i => i <| in_expr := e |>) ;; mret rest
    else struct_initializer2 tok init (ct_members t)
  else if is_kind_of TY_UNION t then union_initializer tok init
  else if (b : bool) then n ← nxt tok ; tok ← p_initializer2 n init ; skip tok "}"
  else '(e, rest) ← p_assign tok ; wi init (fun i => i <| in_expr := e |>) ;; mret rest.

Definition copy_struct_type (ty : Z) : M Z :=
  ty ← copy_type ty ;
  mems ← rt ct_members ty ; mems ← chain (rm cm_next) mems ;
  '(first, _) ← foldM (fun l mem => m ← rm id mem ; n ← calloc_member m ; append_member l n) (0, 0) mems ;
  wt ty (fun t => t <| ct_members := first |>) ;; mret ty.

(** The initializer, [*new_ty] and [*rest]. *)
Definition initializer (tok ty : Z) : M (Z * Z * Z) :=
  init ← new_initializer ty true ;
  rest ← p_initializer2 tok init ;
  t ← rt id ty ;
  if is_record t && ct_flexible t then
    ty ← copy_struct_type ty ;
    first ← rt ct_members ty ;
    mem ← loopM p_fuel (fun mem => n ← rm cm_next mem ; mret (if n =? 0 then inr mem else inl n)) first ;
    c ← member_child init mem ; mty ← ri in_ty c ;
    wm mem (fun m => m <| cm_ty := mty |>) ;;
    size ← rt ct_size mty ;
    wt ty (fun t => t <| ct_size ::= fun s => s +! size |>) ;; mret (init, ty, rest)
  else ty ← ri in_ty init ; mret (init, ty, rest).

(** ** Local variables *)

Inductive InitDesg := DesgVar (var : Z) | DesgMember (next : InitDesg) (member : Z) | DesgIdx (next : InitDesg) (idx : Z).

Fixpoint init_desg_expr (desg : InitDesg) (tok : Z) : M Z :=
  match desg with
  | DesgVar var => new_var_node var tok
  | DesgMember next member =>
      e ← init_desg_expr next tok ;
      node ← new_unary ND_MEMBER e tok ; wn node (fun n => n <| nd_member := member |>) ;; mret node
  | DesgIdx next idx =>
      lhs ← init_desg_expr next tok ; rhs ← new_num idx tok ;
      sum ← new_add lhs rhs tok ; new_unary ND_DEREF sum tok
  end.

Fixpoint create_lvar_init_ (fuel : nat) (init ty : Z) (desg : InitDesg) (tok : Z) : M Z :=
  match fuel with O => stop CcNoFuel | S fuel =>
  t ← rt id ty ;
  expr ← ri in_expr init ;
  if is_kind_of TY_ARRAY t then
    node ← new_node ND_NULL_EXPR tok ;
    foldM (fun node i =>
      c ← child init (Z.of_nat i) ;
      rhs ← create_lvar_init_ fuel c (ct_base t) (DesgIdx desg (Z.of_nat i)) tok ;
      new_binary ND_COMMA node rhs tok) node (seq 0 (Z.to_nat (ct_array_len t)))
  else if is_kind_of TY_STRUCT t && (expr =? 0) then
    node ← new_node ND_NULL_EXPR tok ;
    mems ← chain (rm cm_next) (ct_members t) ;
    foldM (fun node mem =>
      c ← member_child init mem ; mty ← rm cm_ty mem ;
      rhs ← create_lvar_init_ fuel c mty (DesgMember desg mem) tok ;
      new_binary ND_COMMA node rhs tok) node mems
  else if is_kind_of TY_UNION t then
    mem ← ri in_mem init ;
    let mem := if mem =? 0 then ct_members t else mem in
    c ← member_child init mem ; mty ← rm cm_ty mem ;
    create_lvar_init_ fuel c mty (DesgMember desg mem) tok
  else if expr =? 0 then new_node ND_NULL_EXPR tok
  else lhs ← init_desg_expr desg tok ; new_binary ND_ASSIGN lhs expr tok
  end.
Definition create_lvar_init (init ty : Z) (desg : InitDesg) (tok : Z) : M Z := create_lvar_init_ p_fuel init ty desg tok.

Definition lvar_initializer (tok var : Z) : M (Z * Z) :=
  ty ← ro ob_ty var ;
  '(init, ty, rest) ← initializer tok ty ;
  wo var (fun o => o <| ob_ty := ty |>) ;;
  lhs ← new_node ND_MEMZERO tok ; wn lhs (fun n => n <| nd_var := var |>) ;;
  rhs ← create_lvar_init init ty (DesgVar var) tok ;
  node ← new_binary ND_COMMA lhs rhs tok ; mret (node, rest).

(** ** Global variables *)

(** The bytes so far and the relocations. *)
Definition gdata : Type := list Z * list CReloc.

(** [(1L << width) - 1], where [long] has 32 bits. *)
Definition field_mask (width : Z) : option Z :=
  if (width <? 0) || (width >=? 32) then None else Some (u64 (i32 (2 ^ width - 1))).

(** The bytes of a unit after a bit-field got [newval]. *)
Definition put_field (old : list Z) (mask newval bit_offset : Z) : option (list Z) :=
  if (bit_offset <? 0) || (bit_offset >=? 64) then None else
  let oldval := if (length old =? 1)%nat then sext8 (value_le old) else value_le old in
  Some (bytes_le (length old) (Z.lor (u64 oldval) (u64 (Z.shiftl (Z.land (u64 newval) mask) bit_offset)))).

Definition sized (sz : Z) : M nat := match width_of sz with Some w => mret w | None => unreachable end.

Definition write_at (d : gdata) (offset : Z) (bs : list Z) : M gdata :=
  buf ← found (overwrite d.1 offset bs) ; mret (buf, d.2).

Fixpoint write_gvar_data_ (fuel : nat) (d : gdata) (init ty offset : Z) : M gdata :=
  match fuel with O => stop CcNoFuel | S fuel =>
  t ← rt id ty ;
  if is_kind_of TY_ARRAY t then
    sz ← rt ct_size (ct_base t) ;
    foldM (fun d i =>
      c ← child init (Z.of_nat i) ;
      write_gvar_data_ fuel d c (ct_base t) (offset +! sz *! Z.of_nat i)) d (seq 0 (Z.to_nat (ct_array_len t)))
  else if is_kind_of TY_STRUCT t then
    loopM p_fuel (fun '(d, mem) =>
      if mem =? 0 then mret (inr d) else
      m ← rm id mem ;
      c ← member_child init mem ;
      let at_ := offset +! cm_offset m in
      if cm_bitfield m then
        expr ← ri in_expr c ;
        if expr =? 0 then mret (inr d) else
        sz ← rt ct_size (cm_ty m) ; w ← sized sz ;
        old ← found (slice d.1 at_ w) ;
        newval ← eval expr ;
        mask ← found (field_mask (cm_bit_width m)) ;
        bs ← found (put_field old mask newval (cm_bit_offset m)) ;
        d ← write_at d at_ bs ; mret (inl (d, cm_next m))
      else d ← write_gvar_data_ fuel d c (cm_ty m) at_ ; mret (inl (d, cm_next m))) (d, ct_members t)
  else if is_kind_of TY_UNION t then
    mem ← ri in_mem init ;
    if mem =? 0 then mret d else
    c ← member_child init mem ; mty ← rm cm_ty mem ; write_gvar_data_ fuel d c mty offset
  else
  expr ← ri in_expr init ;
  if expr =? 0 then mret d
  else if is_kind_of TY_FLOAT t then v ← eval_double p_fuel expr ; write_at d offset (bytes_le 4 (f_single v))
  else if is_kind_of TY_DOUBLE t then v ← eval_double p_fuel expr ; write_at d offset (bytes_le 8 v)
  else
    '(v, label) ← eval2 p_fuel expr true ;
    match label with
    | None => w ← sized (ct_size t) ; write_at d offset (bytes_le w v)
    | Some l => mret (d.1, d.2 ++ [{| cr_offset := offset; cr_label := l; cr_addend := i32 v |}])
    end
  end.
Definition write_gvar_data (d : gdata) (init ty offset : Z) : M gdata := write_gvar_data_ p_fuel d init ty offset.

Definition gvar_initializer (tok var : Z) : M Z :=
  ty ← ro ob_ty var ;
  '(init, ty, rest) ← initializer tok ty ;
  wo var (fun o => o <| ob_ty := ty |>) ;;
  size ← rt ct_size ty ;
  '(buf, rel) ← write_gvar_data (replicate (Z.to_nat size) 0, []) init ty 0 ;
  wo var (fun o => o <| ob_init_data := Some buf |> <| ob_rel := rel |>) ;; mret rest.

(** ** Declarations *)

(** A declared name: the statements so far and the rest of the tokens. *)
Definition declare (tok basety : Z) (attr : option VarAttr) (stmts : Z * Z) : M (Z * (Z * Z)) :=
  '(ty, tok) ← p_declarator tok basety ;
  t ← rt id ty ;
  if is_kind_of TY_VOID t then err_tok tok "variable declared void" else
  if ct_name t =? 0 then err_tok (ct_name_pos t) "variable name omitted" else
  b ← eqt tok "=" ;
  if match attr with Some a => va_static a | None => false end then
    var ← new_anon_gvar ty ;
    name ← get_ident (ct_name t) ;
    v ← push_scope name ; wv v (fun r => r <| vs_var := var |>) ;;
    tok ← (if (b : bool) then n ← nxt tok ; gvar_initializer n var else mret tok) ;
    mret (tok, stmts)
  else
  size ← compute_vla_size ty tok ;
  s ← new_unary ND_EXPR_STMT size tok ; stmts ← append_node stmts s ;
  if is_kind_of TY_VLA t then
    if (b : bool) then err_tok tok "variable-sized object may not be initialized" else
    name ← get_ident (ct_name t) ;
    var ← new_lvar name ty ;
    vla_size ← rt ct_vla_size ty ;
    p ← new_vla_ptr var (ct_name t) ;
    sz ← new_var_node vla_size (ct_name t) ; a ← new_alloca sz ;
    expr ← new_binary ND_ASSIGN p a (ct_name t) ;
    s ← new_unary ND_EXPR_STMT expr (ct_name t) ; stmts ← append_node stmts s ; mret (tok, stmts)
  else
  name ← get_ident (ct_name t) ;
  var ← new_lvar name ty ;
  (match attr with
   | Some a => if va_align a =? 0 then mret tt else wo var (fun o => o <| ob_align := va_align a |>)
   | None => mret tt end) ;;
  '(tok, stmts) ← (if (b : bool) then
      n ← nxt tok ; '(expr, tok) ← lvar_initializer n var ;
      s ← new_unary ND_EXPR_STMT expr tok ; stmts ← append_node stmts s ; mret (tok, stmts)
    else mret (tok, stmts)) ;
  vty ← ro ob_ty var ; vt ← rt id vty ;
  pos ← rt ct_name ty ;
  if ct_size vt <? 0 then err_tok pos "variable has incomplete type"
  else if is_kind_of TY_VOID vt then err_tok pos "variable declared void"
  else mret (tok, stmts).

Definition declaration (tok basety : Z) (attr : option VarAttr) : M (Z * Z) :=
  '(tok, stmts) ← loopM p_fuel (fun '(tok, first, stmts) =>
    b ← eqt tok ";" ;
    if (b : bool) then mret (inr (tok, stmts)) else
    tok ← (if (first : bool) then mret tok else skip tok ",") ;
    '(tok, stmts) ← declare tok basety attr stmts ;
    mret (inl (tok, false, stmts))) (tok, true, (0, 0)) ;
  node ← new_node ND_BLOCK tok ;
  wn node (fun n => n <| nd_body := stmts.1 |>) ;;
  rest ← nxt tok ; mret (node, rest).

End init.
