(* ===== verification/CcParse.v ===== *)
(** * CcParse: the parser of the compiler: expressions, statements, functions ([upstream/parse.c])

    The rest of parse.c, and the instance of [Parser] that ties the knot: [parser_at depth]
    runs out of fuel below [depth] nested calls. *)

From stdpp Require Import gmap.
From S2P Require Import Prelude Config Kernel Klog RawMem UserMem LibString LibFormat GuestAsm Codegen CcHash CcToken CcTree CcExpr CcDecl CcInit.

Section parse.
Context {P : Parser} {F : SoftFloat} {FF : FoldFloat}.

(** ** Assignments *)

(** [*tmp], and [( *tmp).x]. *)
Definition deref_var (var tok : Z) : M Z := v ← new_var_node var tok ; new_unary ND_DEREF v tok.
Definition deref_member (var member tok : Z) : M Z :=
  d ← deref_var var tok ; e ← new_unary ND_MEMBER d tok ; wn e (fun n => n <| nd_member := member |>) ;; mret e.

(** [var = &e]. *)
Definition assign_addr (var e tok : Z) : M Z :=
  lhs ← new_var_node var tok ; rhs ← new_unary ND_ADDR e tok ; new_binary ND_ASSIGN lhs rhs tok.

Definition expr_stmt_of (e tok : Z) : M Z := new_unary ND_EXPR_STMT e tok.

(** [A op= B] for an [_Atomic] [A]. *)
Definition to_assign_atomic (b : CNode) : M Z :=
  let tok := nd_tok b in
  lty ← rn nd_ty (nd_lhs b) ; rty ← rn nd_ty (nd_rhs b) ;
  p ← pointer_to lty ; addr ← new_lvar [] p ;
  val ← new_lvar [] rty ;
  old ← new_lvar [] lty ;
  new ← new_lvar [] lty ;
  e ← assign_addr addr (nd_lhs b) tok ; s ← expr_stmt_of e tok ; l ← append_node (0, 0) s ;
  v ← new_var_node val tok ; e ← new_binary ND_ASSIGN v (nd_rhs b) tok ; s ← expr_stmt_of e tok ; l ← append_node l s ;
  v ← new_var_node old tok ; d ← deref_var addr tok ;
  e ← new_binary ND_ASSIGN v d tok ; s ← expr_stmt_of e tok ; l ← append_node l s ;
  loop ← new_node ND_DO tok ;
  brk ← new_unique_name ; cont ← new_unique_name ;
  n ← new_var_node new tok ; o ← new_var_node old tok ; v ← new_var_node val tok ;
  op ← new_binary (nd_kind b) o v tok ; body ← new_binary ND_ASSIGN n op tok ;
  block ← new_node ND_BLOCK tok ; s ← expr_stmt_of body tok ; wn block (fun n => n <| nd_body := s |>) ;;
  cas ← new_node ND_CAS tok ;
  a ← new_var_node addr tok ; o ← new_var_node old tok ; o ← new_unary ND_ADDR o tok ; n ← new_var_node new tok ;
  wn cas (fun c => c <| nd_cas_addr := a |> <| nd_cas_old := o |> <| nd_cas_new := n |>) ;;
  cond ← new_unary ND_NOT cas tok ;
  wn loop (fun r => r <| nd_brk_label := brk |> <| nd_cont_label := cont |> <| nd_then := block |> <| nd_cond := cond |>) ;;
  l ← append_node l loop ;
  n ← new_var_node new tok ; s ← expr_stmt_of n tok ; l ← append_node l s ;
  node ← new_node ND_STMT_EXPR tok ; wn node (fun r => r <| nd_body := l.1 |>) ;; mret node.

Definition to_assign (binary : Z) : M Z :=
  b ← rn id binary ;
  add_ty (nd_lhs b) ;; add_ty (nd_rhs b) ;;
  let tok := nd_tok b in
  l ← rn id (nd_lhs b) ;
  if bool_decide (nd_kind l = ND_MEMBER) then
    ty ← rn nd_ty (nd_lhs l) ; p ← pointer_to ty ; var ← new_lvar [] p ;
    expr1 ← assign_addr var (nd_lhs l) tok ;
    expr2 ← deref_member var (nd_member l) tok ;
    expr3 ← deref_member var (nd_member l) tok ;
    op ← new_binary (nd_kind b) expr3 (nd_rhs b) tok ;
    expr4 ← new_binary ND_ASSIGN expr2 op tok ;
    new_binary ND_COMMA expr1 expr4 tok
  else
  atomic ← rt ct_atomic (nd_ty l) ;
  if (atomic : bool) then to_assign_atomic b
  else if bool_decide (nd_kind l = ND_VAR) then
    rd ← new_var_node (nd_var l) tok ; op ← new_binary (nd_kind b) rd (nd_rhs b) tok ;
    new_binary ND_ASSIGN (nd_lhs b) op tok
  else
    p ← pointer_to (nd_ty l) ; var ← new_lvar [] p ;
    expr1 ← assign_addr var (nd_lhs b) tok ;
    lhs ← deref_var var tok ; rd ← deref_var var tok ;
    op ← new_binary (nd_kind b) rd (nd_rhs b) tok ;
    expr2 ← new_binary ND_ASSIGN lhs op tok ;
    new_binary ND_COMMA expr1 expr2 tok.

(** The assignment operators and the operation of each. *)
Definition assign_ops : list (string * (Z -> Z -> Z -> M Z)) :=
  [("+=", new_add); ("-=", new_sub); ("*=", new_binary ND_MUL); ("/=", new_binary ND_DIV); ("%=", new_binary ND_MOD);
   ("&=", new_binary ND_BITAND); ("|=", new_binary ND_BITOR); ("^=", new_binary ND_BITXOR);
   ("<<=", new_binary ND_SHL); (">>=", new_binary ND_SHR)].

Definition assign (tok : Z) : M (Z * Z) :=
  '(node, tok) ← p_conditional tok ;
  t ← rk id tok ;
  if equal t "=" then n ← nxt tok ; '(rhs, rest) ← p_assign n ; e ← new_binary ND_ASSIGN node rhs tok ; mret (e, rest) else
  match List.find (fun op => equal t op.1) assign_ops with
  | Some op => n ← nxt tok ; '(rhs, rest) ← p_assign n ; b ← op.2 node rhs tok ; e ← to_assign b ; mret (e, rest)
  | None => mret (node, tok)
  end.

Definition expr (tok : Z) : M (Z * Z) :=
  '(node, tok) ← p_assign tok ;
  b ← eqt tok "," ;
  if (b : bool) then n ← nxt tok ; '(rhs, rest) ← p_expr n ; e ← new_binary ND_COMMA node rhs tok ; mret (e, rest)
  else mret (node, tok).

(** ** Binary operators *)

(** Operands of [sub] and the operators of [ops] between them, from the left. *)
Definition left_assoc (sub : Z -> M (Z * Z)) (ops : list (string * (Z -> Z -> Z -> M Z))) (tok : Z) : M (Z * Z) :=
  '(node, tok) ← sub tok ;
  loopM p_fuel (fun '(node, tok) =>
    t ← rk id tok ;
    match List.find (fun op => equal t op.1) ops with
    | Some op => n ← nxt tok ; '(rhs, rest) ← sub n ; e ← op.2 node rhs tok ; mret (inl (e, rest))
    | None => mret (inr (node, tok))
    end) (node, tok).

(** The operands exchanged. *)
Definition swapped (kind : NodeKind) (lhs rhs tok : Z) : M Z := new_binary kind rhs lhs tok.

Definition mul : Z -> M (Z * Z) :=
  left_assoc p_cast [("*", new_binary ND_MUL); ("/", new_binary ND_DIV); ("%", new_binary ND_MOD)].
Definition add : Z -> M (Z * Z) := left_assoc mul [("+", new_add); ("-", new_sub)].
Definition shift : Z -> M (Z * Z) := left_assoc add [("<<", new_binary ND_SHL); (">>", new_binary ND_SHR)].
Definition relational : Z -> M (Z * Z) :=
  left_assoc shift [("<", new_binary ND_LT); ("<=", new_binary ND_LE); (">", swapped ND_LT); (">=", swapped ND_LE)].
Definition equality : Z -> M (Z * Z) := left_assoc relational [("==", new_binary ND_EQ); ("!=", new_binary ND_NE)].
Definition bitand : Z -> M (Z * Z) := left_assoc equality [("&", new_binary ND_BITAND)].
Definition bitxor : Z -> M (Z * Z) := left_assoc bitand [("^", new_binary ND_BITXOR)].
Definition bitor : Z -> M (Z * Z) := left_assoc bitxor [("|", new_binary ND_BITOR)].
Definition logand : Z -> M (Z * Z) := left_assoc bitor [("&&", new_binary ND_LOGAND)].
Definition logor : Z -> M (Z * Z) := left_assoc logand [("||", new_binary ND_LOGOR)].

Definition conditional (tok : Z) : M (Z * Z) :=
  '(cond, tok) ← logor tok ;
  b ← eqt tok "?" ;
  if negb b then mret (cond, tok) else
  n ← nxt tok ;
  b ← eqt n ":" ;
  if (b : bool) then
    add_ty cond ;; ty ← rn nd_ty cond ; var ← new_lvar [] ty ;
    v ← new_var_node var tok ; lhs ← new_binary ND_ASSIGN v cond tok ;
    rhs ← new_node ND_COND tok ; c ← new_var_node var tok ; t ← new_var_node var tok ;
    n ← nxt n ; '(els, rest) ← p_conditional n ;
    wn rhs (fun r => r <| nd_cond := c |> <| nd_then := t |> <| nd_els := els |>) ;;
    e ← new_binary ND_COMMA lhs rhs tok ; mret (e, rest)
  else
    node ← new_node ND_COND tok ;
    '(then_, tok) ← p_expr n ;
    tok ← skip tok ":" ;
    '(els, rest) ← p_conditional tok ;
    wn node (fun r => r <| nd_cond := cond |> <| nd_then := then_ |> <| nd_els := els |>) ;; mret (node, rest).

(** ** Casts and unary operators *)

(** A type name in parentheses is at [tok]. *)
Definition at_type (tok : Z) : M bool := andM (eqt tok "(") (n ← nxt tok ; is_typename n).

Definition cast (tok : Z) : M (Z * Z) :=
  b ← at_type tok ;
  if negb b then p_unary tok else
  let start := tok in
  n ← nxt tok ; '(ty, tok) ← p_typename n ;
  tok ← skip tok ")" ;
  b ← eqt tok "{" ;
  if (b : bool) then p_unary start else
  '(e, rest) ← p_cast tok ; node ← new_cast e ty ; wn node (fun r => r <| nd_tok := start |>) ;; mret (node, rest).

(** The end of a member's path. *)
Definition struct_ref (node tok : Z) : M Z :=
  add_ty node ;;
  r ← node_ty is_record node ;
  if negb r then t ← rn nd_tok node ; err_tok t "not a struct nor a union" else
  ty ← rn nd_ty node ;
  loopM p_fuel (fun '(node, ty) =>
    mem ← get_struct_member ty tok ;
    if mem =? 0 then err_tok tok "no such member" else
    node ← new_unary ND_MEMBER node tok ;
    wn node (fun n => n <| nd_member := mem |>) ;;
    m ← rm id mem ;
    mret (if negb (cm_name m =? 0) then inr node else inl (node, cm_ty m))) (node, ty).

Definition new_inc_dec (node tok addend : Z) : M Z :=
  add_ty node ;;
  one ← new_num addend tok ; sum ← new_add node one tok ; set ← to_assign sum ;
  back ← new_num (- addend) tok ; e ← new_add set back tok ;
  ty ← rn nd_ty node ; new_cast e ty.

Definition funcall (tok fn : Z) : M (Z * Z) :=
  add_ty fn ;;
  fty ← rn nd_ty fn ; t ← rt id fty ;
  ok ← (if is_kind_of TY_FUNC t then mret true
        else if is_kind_of TY_PTR t then rt (is_kind_of TY_FUNC) (ct_base t) else mret false) ;
  if negb ok then tk ← rn nd_tok fn ; err_tok tk "not a function" else
  let ty := if is_kind_of TY_FUNC t then fty else ct_base t in
  params ← rt ct_params ty ;
  '(tok, args, param) ← loopM p_fuel (fun '(tok, args, param) =>
    b ← eqt tok ")" ; if (b : bool) then mret (inr (tok, args, param)) else
    tok ← (if args.2 =? 0 then mret tok else skip tok ",") ;
    '(arg, tok) ← p_assign tok ;
    add_ty arg ;;
    variadic ← rt ct_variadic ty ;
    if (param =? 0) && negb variadic then err_tok tok "too many arguments" else
    '(arg, param) ← (if negb (param =? 0) then
        pt ← rt id param ;
        arg ← (if is_record pt then mret arg else new_cast arg param) ; mret (arg, ct_next pt)
      else
        f ← node_ty (is_kind_of TY_FLOAT) arg ;
        arg ← (if (f : bool) then new_cast arg ty_double else mret arg) ; mret (arg, param)) ;
    args ← append_node args arg ;
    mret (inl (tok, args, param))) (tok, (0, 0), params) ;
  if negb (param =? 0) then err_tok tok "too few arguments" else
  rest ← skip tok ")" ;
  node ← new_unary ND_FUNCALL fn tok ;
  ret ← rt ct_return_ty ty ;
  wn node (fun n => n <| nd_func_ty := ty |> <| nd_ty := ret |> <| nd_args := args.1 |>) ;;
  r ← rt is_record ret ;
  (if (r : bool) then v ← new_lvar [] ret ; wn node (fun n => n <| nd_ret_buffer := v |>) else mret tt) ;;
  mret (node, rest).

(** ** Primary expressions *)

Definition generic_selection (tok : Z) : M (Z * Z) :=
  let start := tok in
  tok ← skip tok "(" ;
  '(ctrl, tok) ← p_assign tok ;
  add_ty ctrl ;;
  t1 ← rn nd_ty ctrl ; t ← rt id t1 ;
  t1 ← (if is_kind_of TY_FUNC t then pointer_to t1 else if is_kind_of TY_ARRAY t then pointer_to (ct_base t) else mret t1) ;
  '(ret, rest) ← loopM p_fuel (fun '(tok, ret) =>
    '(b, tok) ← consume tok ")" ;
    if (b : bool) then mret (inr (ret, tok)) else
    tok ← skip tok "," ;
    d ← eqt tok "default" ;
    if (d : bool) then
      n ← nxt tok ; tok ← skip n ":" ; '(node, tok) ← p_assign tok ;
      mret (inl (tok, if ret =? 0 then node else ret))
    else
      '(t2, tok) ← p_typename tok ; tok ← skip tok ":" ; '(node, tok) ← p_assign tok ;
      c ← is_compatible p_fuel t1 t2 ; mret (inl (tok, if (c : bool) then node else ret))) (tok, 0) ;
  if ret =? 0 then err_tok start "controlling expression type not compatible with any generic association type"
  else mret (ret, rest).

(** The operand of [sizeof] or [_Alignof] is a type. *)
Definition op_type (tok : Z) (op : string) : M bool := andM (eqt tok op) (n ← nxt tok ; at_type n).

Definition sizeof_type (tok : Z) : M (Z * Z) :=
  let start := tok in
  n ← nxt tok ; n ← nxt n ; '(ty, tok) ← p_typename n ;
  rest ← skip tok ")" ;
  t ← rt id ty ;
  node ← (if is_kind_of TY_VLA t then
      if negb (ct_vla_size t =? 0) then new_var_node (ct_vla_size t) tok
      else lhs ← compute_vla_size ty tok ; v ← rt ct_vla_size ty ; rhs ← new_var_node v tok ; new_binary ND_COMMA lhs rhs tok
    else new_ulong (ct_size t) start) ;
  mret (node, rest).

Definition sizeof_expr (tok : Z) : M (Z * Z) :=
  n ← nxt tok ; '(node, rest) ← p_unary n ;
  add_ty node ;;
  t ← node_ty id node ;
  node ← (if is_kind_of TY_VLA t then new_var_node (ct_vla_size t) tok else new_ulong (ct_size t) tok) ; mret (node, rest).

Definition alignof_type (tok : Z) : M (Z * Z) :=
  n ← nxt tok ; n ← nxt n ; '(ty, tok) ← p_typename n ;
  rest ← skip tok ")" ; a ← rt ct_align ty ; node ← new_ulong a tok ; mret (node, rest).
Definition alignof_expr (tok : Z) : M (Z * Z) :=
  n ← nxt tok ; '(node, rest) ← p_unary n ; add_ty node ;; a ← node_ty ct_align node ; node ← new_ulong a tok ; mret (node, rest).

Definition types_compatible (tok : Z) : M (Z * Z) :=
  let start := tok in
  n ← nxt tok ; tok ← skip n "(" ;
  '(t1, tok) ← p_typename tok ; tok ← skip tok "," ; '(t2, tok) ← p_typename tok ;
  rest ← skip tok ")" ; c ← is_compatible p_fuel t1 t2 ; node ← new_num (b2z c) start ; mret (node, rest).

Definition reg_class (tok : Z) : M (Z * Z) :=
  let start := tok in
  n ← nxt tok ; tok ← skip n "(" ;
  '(ty, tok) ← p_typename tok ; rest ← skip tok ")" ;
  t ← rt id ty ;
  node ← new_num (if is_integer t || is_kind_of TY_PTR t then 0 else if is_flonum t then 1 else 2) start ; mret (node, rest).

Definition builtin_cas (tok : Z) : M (Z * Z) :=
  node ← new_node ND_CAS tok ;
  n ← nxt tok ; tok ← skip n "(" ;
  '(a, tok) ← p_assign tok ; tok ← skip tok "," ;
  '(o, tok) ← p_assign tok ; tok ← skip tok "," ;
  '(v, tok) ← p_assign tok ; rest ← skip tok ")" ;
  wn node (fun n => n <| nd_cas_addr := a |> <| nd_cas_old := o |> <| nd_cas_new := v |>) ;; mret (node, rest).

Definition builtin_exch (tok : Z) : M (Z * Z) :=
  node ← new_node ND_EXCH tok ;
  n ← nxt tok ; tok ← skip n "(" ;
  '(l, tok) ← p_assign tok ; tok ← skip tok "," ;
  '(r, tok) ← p_assign tok ; rest ← skip tok ")" ;
  wn node (fun n => n <| nd_lhs := l |> <| nd_rhs := r |>) ;; mret (node, rest).

(** A variable or an enumeration constant; a use of a function is noted. *)
Definition identifier (tok : Z) : M (Z * Z) :=
  sc ← find_var tok ;
  rest ← nxt tok ;
  v ← (if sc =? 0 then mret varscope0 else rv id sc) ;
  (if vs_var v =? 0 then mret tt else
   o ← ro id (vs_var v) ;
   if negb (ob_is_function o) then mret tt else
   fn ← gets current_fn ;
   if negb (fn =? 0) then wo fn (fun f => f <| ob_refs ::= fun l => l ++ [ob_name o] |>)
   else wo (vs_var v) (fun f => f <| ob_is_root := true |>)) ;;
  if negb (vs_var v =? 0) then n ← new_var_node (vs_var v) tok ; mret (n, rest)
  else if negb (vs_enum_ty v =? 0) then n ← new_num (vs_enum_val v) tok ; mret (n, rest)
  else
  call ← eqt rest "(" ;
  if (call : bool) then err_tok tok "implicit declaration of a function" else err_tok tok "undefined variable".

Definition string_primary (tok : Z) : M (Z * Z) :=
  t ← rk t_ty tok ; ty ← token_type t ; '(bytes, _) ← string_bytes tok ;
  var ← new_string_literal bytes ty ; rest ← nxt tok ; node ← new_var_node var tok ; mret (node, rest).

Definition number_primary (tok : Z) : M (Z * Z) :=
  t ← rk id tok ;
  ty ← basety_of (t_ty t) ; f ← rt is_flonum ty ;
  node ← (if (f : bool) then n ← new_node ND_NUM tok ; wn n (fun r => r <| nd_fval := t_fval t |>) ;; mret n
          else new_num (t_val t) tok) ;
  set_ty node ty ;; rest ← nxt tok ; mret (node, rest).

Definition primary (tok : Z) : M (Z * Z) :=
  let start := tok in
  t ← rk id tok ;
  if equal t "(" then
    n ← nxt tok ;
    b ← eqt n "{" ;
    if (b : bool) then
      node ← new_node ND_STMT_EXPR tok ;
      n ← nxt n ; '(block, tok) ← p_compound_stmt n ; body ← rn nd_body block ;
      wn node (fun r => r <| nd_body := body |>) ;; rest ← skip tok ")" ; mret (node, rest)
    else '(node, tok) ← p_expr n ; rest ← skip tok ")" ; mret (node, rest)
  else
  st ← op_type tok "sizeof" ;
  at_ ← op_type tok "_Alignof" ;
  if (st : bool) then sizeof_type tok
  else if equal t "sizeof" then sizeof_expr tok
  else if (at_ : bool) then alignof_type tok
  else if equal t "_Alignof" then alignof_expr tok
  else if equal t "_Generic" then n ← nxt tok ; generic_selection n
  else if equal t "__builtin_types_compatible_p" then types_compatible tok
  else if equal t "__builtin_reg_class" then reg_class tok
  else if equal t "__builtin_compare_and_swap" then builtin_cas tok
  else if equal t "__builtin_atomic_exchange" then builtin_exch tok
  else match t_kind t with
       | TK_IDENT => identifier tok
       | TK_STR => string_primary tok
       | TK_NUM => number_primary tok
       | _ => err_tok start "expected an expression"
       end.

(** ** Postfix operators *)

Definition compound_literal (tok : Z) : M (Z * Z) :=
  let start := tok in
  n ← nxt tok ; '(ty, tok) ← p_typename n ;
  tok ← skip tok ")" ;
  sc ← gets scope ; outer ← rs sc_next sc ;
  if outer =? 0 then
    var ← new_anon_gvar ty ; rest ← gvar_initializer tok var ; node ← new_var_node var start ; mret (node, rest)
  else
    var ← new_lvar [] ty ; '(lhs, rest) ← lvar_initializer tok var ;
    rhs ← new_var_node var tok ; node ← new_binary ND_COMMA lhs rhs start ; mret (node, rest).

(** One tail of a postfix expression. *)
Definition postfix_tail (s : Z * Z) : M (Z * Z + Z * Z) :=
  let '(node, tok) := s in
  t ← rk id tok ;
  if equal t "(" then n ← nxt tok ; r ← funcall n node ; mret (inl r)
  else if equal t "[" then
    n ← nxt tok ; '(idx, rest) ← p_expr n ; rest ← skip rest "]" ;
    sum ← new_add node idx tok ; e ← new_unary ND_DEREF sum tok ; mret (inl (e, rest))
  else if equal t "." then n ← nxt tok ; e ← struct_ref node n ; rest ← nxt n ; mret (inl (e, rest))
  else if equal t "->" then
    d ← new_unary ND_DEREF node tok ; n ← nxt tok ; e ← struct_ref d n ; rest ← nxt n ; mret (inl (e, rest))
  else if equal t "++" then e ← new_inc_dec node tok 1 ; rest ← nxt tok ; mret (inl (e, rest))
  else if equal t "--" then e ← new_inc_dec node tok (-1) ; rest ← nxt tok ; mret (inl (e, rest))
  else mret (inr (node, tok)).

Definition postfix (tok : Z) : M (Z * Z) :=
  b ← at_type tok ;
  if (b : bool) then compound_literal tok
  else s ← primary tok ; loopM p_fuel postfix_tail s.

Definition unary (tok : Z) : M (Z * Z) :=
  t ← rk id tok ;
  let operand op := n ← nxt tok ; '(e, rest) ← p_cast n ; node ← op e ; mret (node, rest) in
  if equal t "+" then operand (fun e => mret e)
  else if equal t "-" then operand (fun e => new_unary ND_NEG e tok)
  else if equal t "&" then operand (fun lhs =>
    add_ty lhs ;; l ← rn id lhs ;
    bf ← (if bool_decide (nd_kind l = ND_MEMBER) then rm cm_bitfield (nd_member l) else mret false) ;
    if (bf : bool) then err_tok tok "cannot take address of bitfield" else new_unary ND_ADDR lhs tok)
  else if equal t "*" then operand (fun e =>
    add_ty e ;; f ← node_ty (is_kind_of TY_FUNC) e ; if (f : bool) then mret e else new_unary ND_DEREF e tok)
  else if equal t "!" then operand (fun e => new_unary ND_NOT e tok)
  else if equal t "~" then operand (fun e => new_unary ND_BITNOT e tok)
  else if equal t "++" || equal t "--" then
    n ← nxt tok ; '(e, rest) ← p_unary n ; one ← new_num 1 tok ;
    b ← (if equal t "++" then new_add e one tok else new_sub e one tok) ; node ← to_assign b ; mret (node, rest)
  else if equal t "&&" then
    node ← new_node ND_LABEL_VAL tok ;
    n ← nxt tok ; name ← get_ident n ; g ← gets gotos ;
    wn node (fun r => r <| nd_label := name |> <| nd_goto_next := g |>) ;;
    modify (fun s => s <| gotos := node |>) ;; rest ← nxt n ; mret (node, rest)
  else postfix tok.

(** ** Statements *)

Definition asm_stmt (tok : Z) : M (Z * Z) :=
  node ← new_node ND_ASM tok ;
  n ← nxt tok ; tok ← skip_words ["volatile"; "inline"] n ;
  tok ← skip tok "(" ;
  t ← rk id tok ;
  bad ← (if bool_decide (t_kind t = TK_STR) then b ← basety_of (t_ty t) ; c ← rt (is_kind_of TY_CHAR) b ; mret (negb c) else mret true) ;
  if (bad : bool) then err_tok tok "expected string literal" else
  wn node (fun r => r <| nd_asm_str := t_str t |>) ;;
  n ← nxt tok ; rest ← skip n ")" ; mret (node, rest).

Definition expr_stmt (tok : Z) : M (Z * Z) :=
  b ← eqt tok ";" ;
  if (b : bool) then rest ← nxt tok ; node ← new_node ND_BLOCK tok ; mret (node, rest) else
  node ← new_node ND_EXPR_STMT tok ;
  '(e, tok) ← p_expr tok ;
  wn node (fun r => r <| nd_lhs := e |>) ;; rest ← skip tok ";" ; mret (node, rest).

(** [m] with new targets of [break] and [continue]; the labels that were there come back. *)
Definition with_targets {A} (node : Z) (m : M A) : M A :=
  brk ← gets brk_label ; cont ← gets cont_label ;
  b ← new_unique_name ; wn node (fun r => r <| nd_brk_label := b |>) ;; modify (fun s => s <| brk_label := b |>) ;;
  c ← new_unique_name ; wn node (fun r => r <| nd_cont_label := c |>) ;; modify (fun s => s <| cont_label := c |>) ;;
  a ← m ;
  modify (fun s => s <| brk_label := brk |> <| cont_label := cont |>) ;; mret a.

Definition return_stmt (tok : Z) : M (Z * Z) :=
  node ← new_node ND_RETURN tok ;
  n ← nxt tok ;
  '(b, n) ← consume n ";" ;
  if (b : bool) then mret (node, n) else
  '(e, tok) ← p_expr n ;
  rest ← skip tok ";" ;
  add_ty e ;;
  fn ← gets current_fn ; fty ← ro ob_ty fn ; ty ← rt ct_return_ty fty ;
  r ← rt is_record ty ;
  e ← (if (r : bool) then mret e else new_cast e ty) ;
  wn node (fun r => r <| nd_lhs := e |>) ;; mret (node, rest).

Definition if_stmt (tok : Z) : M (Z * Z) :=
  node ← new_node ND_IF tok ;
  n ← nxt tok ; tok ← skip n "(" ;
  '(c, tok) ← p_expr tok ; tok ← skip tok ")" ;
  '(t, tok) ← p_stmt tok ;
  b ← eqt tok "else" ;
  '(e, tok) ← (if (b : bool) then n ← nxt tok ; p_stmt n else mret (0, tok)) ;
  wn node (fun r => r <| nd_cond := c |> <| nd_then := t |> <| nd_els := e |>) ;; mret (node, tok).

Definition switch_stmt (tok : Z) : M (Z * Z) :=
  node ← new_node ND_SWITCH tok ;
  n ← nxt tok ; tok ← skip n "(" ;
  '(c, tok) ← p_expr tok ; wn node (fun r => r <| nd_cond := c |>) ;;
  tok ← skip tok ")" ;
  sw ← gets current_switch ; modify (fun s => s <| current_switch := node |>) ;;
  brk ← gets brk_label ;
  b ← new_unique_name ; wn node (fun r => r <| nd_brk_label := b |>) ;; modify (fun s => s <| brk_label := b |>) ;;
  '(t, rest) ← p_stmt tok ;
  wn node (fun r => r <| nd_then := t |>) ;;
  modify (fun s => s <| current_switch := sw |> <| brk_label := brk |>) ;; mret (node, rest).

Definition case_stmt (tok : Z) : M (Z * Z) :=
  sw ← gets current_switch ;
  if sw =? 0 then err_tok tok "stray case" else
  node ← new_node ND_CASE tok ;
  n ← nxt tok ; '(b, tok) ← const_int n ;
  d ← eqt tok "..." ;
  '(e, tok) ← (if (d : bool) then
      n ← nxt tok ; '(e, tok) ← const_int n ;
      if e <? b then err_tok tok "empty case range specified" else mret (e, tok)
    else mret (b, tok)) ;
  tok ← skip tok ":" ;
  label ← new_unique_name ;
  wn node (fun r => r <| nd_label := label |>) ;;
  '(s, rest) ← p_stmt tok ;
  sw ← gets current_switch ; next ← rn nd_case_next sw ;
  wn node (fun r => r <| nd_lhs := s |> <| nd_begin := b |> <| nd_end := e |> <| nd_case_next := next |>) ;;
  wn sw (fun r => r <| nd_case_next := node |>) ;; mret (node, rest).

Definition default_stmt (tok : Z) : M (Z * Z) :=
  sw ← gets current_switch ;
  if sw =? 0 then err_tok tok "stray default" else
  node ← new_node ND_CASE tok ;
  n ← nxt tok ; tok ← skip n ":" ;
  label ← new_unique_name ;
  wn node (fun r => r <| nd_label := label |>) ;;
  '(s, rest) ← p_stmt tok ;
  wn node (fun r => r <| nd_lhs := s |>) ;;
  sw ← gets current_switch ; wn sw (fun r => r <| nd_default_case := node |>) ;; mret (node, rest).

Definition for_stmt (tok : Z) : M (Z * Z) :=
  node ← new_node ND_FOR tok ;
  n ← nxt tok ; tok ← skip n "(" ;
  enter_scope ;;
  r ← with_targets node (
    b ← is_typename tok ;
    '(init, tok) ← (if (b : bool) then '(basety, _, tok) ← p_declspec tok None ; declaration tok basety None
                    else expr_stmt tok) ;
    b ← eqt tok ";" ;
    '(c, tok) ← (if (b : bool) then mret (0, tok) else p_expr tok) ;
    tok ← skip tok ";" ;
    b ← eqt tok ")" ;
    '(inc, tok) ← (if (b : bool) then mret (0, tok) else p_expr tok) ;
    tok ← skip tok ")" ;
    '(t, rest) ← p_stmt tok ;
    wn node (fun r => r <| nd_init := init |> <| nd_cond := c |> <| nd_inc := inc |> <| nd_then := t |>) ;;
    leave_scope ;; mret rest) ;
  mret (node, r).

Definition while_stmt (tok : Z) : M (Z * Z) :=
  node ← new_node ND_FOR tok ;
  n ← nxt tok ; tok ← skip n "(" ;
  '(c, tok) ← p_expr tok ; tok ← skip tok ")" ;
  '(t, rest) ← with_targets node (p_stmt tok) ;
  wn node (fun r => r <| nd_cond := c |> <| nd_then := t |>) ;; mret (node, rest).

Definition do_stmt (tok : Z) : M (Z * Z) :=
  node ← new_node ND_DO tok ;
  n ← nxt tok ;
  '(t, tok) ← with_targets node (p_stmt n) ;
  tok ← skip tok "while" ; tok ← skip tok "(" ;
  '(c, tok) ← p_expr tok ; tok ← skip tok ")" ;
  rest ← skip tok ";" ;
  wn node (fun r => r <| nd_cond := c |> <| nd_then := t |>) ;; mret (node, rest).

Definition goto_stmt (tok : Z) : M (Z * Z) :=
  n ← nxt tok ;
  b ← eqt n "*" ;
  if (b : bool) then
    node ← new_node ND_GOTO_EXPR tok ;
    n ← nxt n ; '(e, tok) ← p_expr n ;
    wn node (fun r => r <| nd_lhs := e |>) ;; rest ← skip tok ";" ; mret (node, rest)
  else
    node ← new_node ND_GOTO tok ;
    name ← get_ident n ; g ← gets gotos ;
    wn node (fun r => r <| nd_label := name |> <| nd_goto_next := g |>) ;;
    modify (fun s => s <| gotos := node |>) ;;
    n ← nxt n ; rest ← skip n ";" ; mret (node, rest).

(** [break] and [continue]. *)
Definition jump_stmt (label : fe -> list Z) (message : string) (tok : Z) : M (Z * Z) :=
  l ← gets label ;
  if bool_decide (l = []) then err_tok tok message else
  node ← new_node ND_GOTO tok ; wn node (fun r => r <| nd_unique_label := l |>) ;;
  n ← nxt tok ; rest ← skip n ";" ; mret (node, rest).

Definition label_stmt (tok : Z) : M (Z * Z) :=
  node ← new_node ND_LABEL tok ;
  name ← rk lexeme tok ; u ← new_unique_name ;
  wn node (fun r => r <| nd_label := name |> <| nd_unique_label := u |>) ;;
  n ← nxt tok ; n ← nxt n ; '(s, rest) ← p_stmt n ;
  g ← gets labels ;
  wn node (fun r => r <| nd_lhs := s |> <| nd_goto_next := g |>) ;;
  modify (fun s => s <| labels := node |>) ;; mret (node, rest).

Definition stmt (tok : Z) : M (Z * Z) :=
  t ← rk id tok ;
  label ← (if bool_decide (t_kind t = TK_IDENT) then n ← nxt tok ; eqt n ":" else mret false) ;
  if equal t "return" then return_stmt tok
  else if equal t "if" then if_stmt tok
  else if equal t "switch" then switch_stmt tok
  else if equal t "case" then case_stmt tok
  else if equal t "default" then default_stmt tok
  else if equal t "for" then for_stmt tok
  else if equal t "while" then while_stmt tok
  else if equal t "do" then do_stmt tok
  else if equal t "asm" then asm_stmt tok
  else if equal t "goto" then goto_stmt tok
  else if equal t "break" then jump_stmt brk_label "stray break" tok
  else if equal t "continue" then jump_stmt cont_label "stray continue" tok
  else if (label : bool) then label_stmt tok
  else if equal t "{" then n ← nxt tok ; p_compound_stmt n
  else expr_stmt tok.

(** ** Declarations outside expressions *)

Definition parse_typedef (tok basety : Z) : M Z :=
  loopM p_fuel (fun '(tok, first) =>
    '(b, tok) ← consume tok ";" ;
    if (b : bool) then mret (inr tok) else
    tok ← (if (first : bool) then mret tok else skip tok ",") ;
    '(ty, tok) ← p_declarator tok basety ;
    t ← rt id ty ;
    if ct_name t =? 0 then err_tok (ct_name_pos t) "typedef name omitted" else
    name ← get_ident (ct_name t) ;
    v ← push_scope name ; wv v (fun r => r <| vs_type_def := ty |>) ;;
    mret (inl (tok, false))) (tok, true).

Definition global_variable (tok basety : Z) (attr : VarAttr) : M Z :=
  loopM p_fuel (fun '(tok, first) =>
    '(b, tok) ← consume tok ";" ;
    if (b : bool) then mret (inr tok) else
    tok ← (if (first : bool) then mret tok else skip tok ",") ;
    '(ty, tok) ← p_declarator tok basety ;
    t ← rt id ty ;
    if ct_name t =? 0 then err_tok (ct_name_pos t) "variable name omitted" else
    name ← get_ident (ct_name t) ;
    var ← new_gvar name ty ;
    wo var (fun o => o <| ob_is_definition := negb (va_extern attr) |> <| ob_is_static := va_static attr |>
                       <| ob_is_tls := va_tls attr |> <| ob_align ::= fun a => if va_align attr =? 0 then a else va_align attr |>) ;;
    b ← eqt tok "=" ;
    tok ← (if (b : bool) then n ← nxt tok ; gvar_initializer n var
           else (if negb (va_extern attr) && negb (va_tls attr) then wo var (fun o => o <| ob_is_tentative := true |>) else mret tt) ;;
                mret tok) ;
    mret (inl (tok, false))) (tok, true).

Definition is_function (tok : Z) : M bool :=
  b ← eqt tok ";" ;
  if (b : bool) then mret false else
  dummy ← calloc_type type0 ; '(ty, _) ← p_declarator tok dummy ; rt (is_kind_of TY_FUNC) ty.

(** What comes after the specifiers, if it is not a variable of a block: the rest. *)
Definition compound_stmt (tok : Z) : M (Z * Z) :=
  node ← new_node ND_BLOCK tok ;
  enter_scope ;;
  '(tok, body) ← loopM p_fuel (fun '(tok, body) =>
    b ← eqt tok "}" ;
    if (b : bool) then mret (inr (tok, body)) else
    d ← andM (is_typename tok) (n ← nxt tok ; c ← eqt n ":" ; mret (negb c)) ;
    if (d : bool) then
      '(basety, attr, tok) ← p_declspec tok (Some attr0) ;
      let a := match attr with Some a => a | None => attr0 end in
      if va_typedef a then tok ← parse_typedef tok basety ; mret (inl (tok, body)) else
      f ← is_function tok ;
      if (f : bool) then tok ← p_function tok basety a ; mret (inl (tok, body)) else
      if va_extern a then tok ← global_variable tok basety a ; mret (inl (tok, body)) else
      '(s, tok) ← declaration tok basety (Some a) ;
      body ← append_node body s ; add_ty s ;; mret (inl (tok, body))
    else '(s, tok) ← p_stmt tok ; body ← append_node body s ; add_ty s ;; mret (inl (tok, body))) (tok, (0, 0)) ;
  leave_scope ;;
  wn node (fun r => r <| nd_body := body.1 |>) ;; rest ← nxt tok ; mret (node, rest).

(** ** Functions *)

(** The parameters from the last one to the first. *)
Definition create_param_lvars (param : Z) : M unit :=
  params ← chain (rt ct_next) param ;
  foldM (fun _ p =>
    t ← rt id p ;
    if ct_name t =? 0 then err_tok (ct_name_pos t) "parameter name omitted" else
    name ← get_ident (ct_name t) ; new_lvar name p ;; mret tt) tt (rev params).

Definition resolve_goto_labels : M unit :=
  g ← gets gotos ; l ← gets labels ;
  ys ← chain (rn nd_goto_next) l ;
  xs ← chain (rn nd_goto_next) g ;
  foldM (fun _ x =>
    label ← rn nd_label x ;
    y ← foldM (fun f y => if negb (f =? 0) then mret f else yl ← rn nd_label y ; mret (if bool_decide (label = yl) then y else 0)) 0 ys ;
    (if y =? 0 then mret tt else u ← rn nd_unique_label y ; wn x (fun r => r <| nd_unique_label := u |>)) ;;
    u ← rn nd_unique_label x ;
    if bool_decide (u = []) then tok ← rn nd_tok x ; n ← nxt tok ; err_tok n "use of undeclared label" else mret tt) tt xs ;;
  modify (fun s => s <| gotos := 0 |> <| labels := 0 |>).

(** 0 for NULL. *)
Definition find_func (name : list Z) : M Z :=
  sc ← gets scope ;
  sc ← loopM p_fuel (fun sc => n ← rs sc_next sc ; mret (if n =? 0 then inr sc else inl n)) sc ;
  m ← rs sc_vars sc ; sc2 ← lift (of_table (hashmap_get2 m name)) ;
  if sc2 =? 0 then mret 0 else
  v ← rv vs_var sc2 ;
  if v =? 0 then mret 0 else f ← ro ob_is_function v ; mret (if (f : bool) then v else 0).

Fixpoint mark_live_ (fuel : nat) (var : Z) : M unit :=
  match fuel with O => stop CcNoFuel | S fuel =>
  o ← ro id var ;
  if negb (ob_is_function o) || ob_is_live o then mret tt else
  wo var (fun o => o <| ob_is_live := true |>) ;;
  foldM (fun _ name => fn ← find_func name ; if fn =? 0 then mret tt else mark_live_ fuel fn) tt (ob_refs o)
  end.
Definition mark_live (var : Z) : M unit := mark_live_ p_fuel var.

(** The [Obj] of a function, new or declared before. *)
Definition declare_function (tok ty : Z) (name : list Z) (attr : VarAttr) : M Z :=
  def ← eqt tok "{" ;
  fn ← find_func name ;
  fn ← (if negb (fn =? 0) then
      o ← ro id fn ;
      if negb (ob_is_function o) then err_tok tok "redeclared as a different kind of symbol"
      else if ob_is_definition o && def then err_text tok (str "redefinition of " ++ name)
      else if negb (ob_is_static o) && va_static attr then err_tok tok "static declaration follows a non-static declaration"
      else wo fn (fun o => o <| ob_is_definition ::= fun d => d || def |>) ;; mret fn
    else
      fn ← new_gvar name ty ;
      wo fn (fun o => o <| ob_is_function := true |> <| ob_is_definition := def |>
                        <| ob_is_static := va_static attr || (va_inline attr && negb (va_extern attr)) |>
                        <| ob_is_inline := va_inline attr |>) ;; mret fn) ;
  wo fn (fun o => o <| ob_is_root := negb (ob_is_static o && ob_is_inline o) |>) ;; mret fn.

(** [__func__] and [__FUNCTION__]. *)
Definition push_func_name (var : string) (fn : Z) : M unit :=
  name ← ro ob_name fn ;
  v ← push_scope (str var) ;
  ty ← array_of ty_char (Z.of_nat (length name) + 1) ;
  s ← new_string_literal (name ++ [0]) ty ; wv v (fun r => r <| vs_var := s |>).

Definition function (tok basety : Z) (attr : VarAttr) : M Z :=
  '(ty, tok) ← p_declarator tok basety ;
  t ← rt id ty ;
  if ct_name t =? 0 then err_tok (ct_name_pos t) "function name omitted" else
  name ← get_ident (ct_name t) ;
  fn ← declare_function tok ty name attr ;
  '(b, tok) ← consume tok ";" ;
  if (b : bool) then mret tok else
  modify (fun s => s <| current_fn := fn |> <| locals := 0 |>) ;;
  enter_scope ;;
  params ← rt ct_params ty ; create_param_lvars params ;;
  rty ← rt ct_return_ty ty ; r ← rt id rty ;
  (if is_record r && (ct_size r >? 16) then p ← pointer_to rty ; new_lvar [] p ;; mret tt else mret tt) ;;
  l ← gets locals ; wo fn (fun o => o <| ob_params := l |>) ;;
  variadic ← rt ct_variadic ty ;
  (if (variadic : bool) then
     a ← array_of ty_char 136 ; v ← new_lvar (str "__va_area__") a ; wo fn (fun o => o <| ob_va_area := v |>)
   else mret tt) ;;
  p ← pointer_to ty_char ; v ← new_lvar (str "__alloca_size__") p ; wo fn (fun o => o <| ob_alloca_bottom := v |>) ;;
  tok ← skip tok "{" ;
  push_func_name "__func__" fn ;; push_func_name "__FUNCTION__" fn ;;
  '(body, tok) ← p_compound_stmt tok ;
  l ← gets locals ; wo fn (fun o => o <| ob_body := body |> <| ob_locals := l |>) ;;
  leave_scope ;; resolve_goto_labels ;; mret tok.

(** ** The program *)

(** Another definition with the name of [var] among the globals as they are linked now. *)
Definition other_definition (var : Z) (name : list Z) : M bool :=
  g ← gets globals ;
  loopM p_fuel (fun var2 =>
    if var2 =? 0 then mret (inr false) else
    o ← ro id var2 ;
    mret (if negb (var =? var2) && ob_is_definition o && bool_decide (name = ob_name o) then inr true else inl (ob_next o))) g.

(** The list that is kept is linked while the old one is read. *)
Definition scan_globals : M unit :=
  g ← gets globals ;
  '(first, cur) ← loopM p_fuel (fun '(var, first, cur) =>
    if var =? 0 then mret (inr (first, cur)) else
    o ← ro id var ;
    drop ← (if ob_is_tentative o then other_definition var (ob_name o) else mret false) ;
    if (drop : bool) then mret (inl (ob_next o, first, cur)) else
    (if cur =? 0 then mret tt else wo cur (fun c => c <| ob_next := var |>)) ;;
    mret (inl (ob_next o, if cur =? 0 then var else first, var))) (g, 0, 0) ;
  (if cur =? 0 then mret tt else wo cur (fun c => c <| ob_next := 0 |>)) ;;
  modify (fun s => s <| globals := first |>).

Definition declare_builtin_functions : M unit :=
  p ← pointer_to ty_void ; ty ← func_type p ;
  params ← copy_type ty_int ; wt ty (fun t => t <| ct_params := params |>) ;;
  v ← new_gvar (str "alloca") ty ;
  modify (fun s => s <| builtin_alloca := v |>) ;; wo v (fun o => o <| ob_is_definition := false |>).

(** The first of the globals. *)
Definition parse (tok : Z) : M Z :=
  declare_builtin_functions ;;
  modify (fun s => s <| globals := 0 |>) ;;
  loopM p_fuel (fun tok =>
    e ← is_tk tok TK_EOF ; if (e : bool) then mret (inr tt) else
    '(basety, attr, tok) ← p_declspec tok (Some attr0) ;
    let a := match attr with Some a => a | None => attr0 end in
    if va_typedef a then tok ← parse_typedef tok basety ; mret (inl tok) else
    f ← is_function tok ;
    tok ← (if (f : bool) then p_function tok basety a else global_variable tok basety a) ;
    mret (inl tok)) tok ;;
  g ← gets globals ; l ← chain (ro ob_next) g ;
  foldM (fun _ v => root ← ro ob_is_root v ; if (root : bool) then mark_live v else mret tt) tt l ;;
  scan_globals ;;
  gets globals.

End parse.

(** ** The knot *)

Section knot.
Context {F : SoftFloat} {FF : FoldFloat}.

(** No call is left. *)
Definition no_parser (fuel : nat) : Parser := {|
  p_fuel := fuel; p_declspec := fun _ _ => stop CcNoFuel; p_typename := fun _ => stop CcNoFuel;
  p_declarator := fun _ _ => stop CcNoFuel; p_abstract_declarator := fun _ _ => stop CcNoFuel;
  p_type_suffix := fun _ _ => stop CcNoFuel; p_conditional := fun _ => stop CcNoFuel;
  p_assign := fun _ => stop CcNoFuel; p_expr := fun _ => stop CcNoFuel; p_cast := fun _ => stop CcNoFuel;
  p_unary := fun _ => stop CcNoFuel; p_initializer2 := fun _ _ => stop CcNoFuel;
  p_designation := fun _ _ => stop CcNoFuel; p_skip_excess := fun _ => stop CcNoFuel; p_stmt := fun _ => stop CcNoFuel;
  p_compound_stmt := fun _ => stop CcNoFuel; p_function := fun _ _ _ => stop CcNoFuel |}.

(** One more call around the functions of [P]. *)
Definition call_parser (P : Parser) : Parser := {|
  p_fuel := p_fuel; p_declspec := declspec; p_typename := typename; p_declarator := declarator;
  p_abstract_declarator := abstract_declarator; p_type_suffix := type_suffix; p_conditional := conditional;
  p_assign := assign; p_expr := expr; p_cast := cast; p_unary := unary; p_initializer2 := initializer2;
  p_designation := designation; p_skip_excess := skip_excess_element; p_stmt := stmt;
  p_compound_stmt := compound_stmt; p_function := function |}.

Definition parser_at (fuel depth : nat) : Parser := Nat.iter depth call_parser (no_parser fuel).

End knot.
