(* ===== verification/CcPreprocess.v ===== *)
(** * CcPreprocess: the preprocessor of the compiler ([upstream/preprocess.c])

    Tokens are cells of the store; they are copied, linked and changed in place where the
    code does so.  A hideset is the list of its names, a list of parameters or arguments is
    a list.  The files, the include paths and [base_file] are the class [CcFiles], and a
    parser is used for the conditions.  [fuel] bounds the depth of nested expansions. *)

From stdpp Require Import gmap.
From S2P Require Import Prelude Config Kernel Klog RawMem UserMem LibString LibFormat GuestAsm Codegen CcHash CcToken CcTree CcExpr CcInit CcParse.

(** What the compiler finds outside: the bytes of a file that can be read, whether [stat]
    finds one, and two globals of main.c. *)
Class CcFiles := {
  file_bytes : list Z -> option (list Z);
  file_exists : list Z -> bool;
  include_paths : list (list Z);
  base_file : list Z }.

Record MacroArg := Build_MacroArg { ma_name : list Z; ma_is_va_args : bool; ma_tok : Z }.

(** [dirname] of libc. *)
Definition strip (p : Z -> bool) (path : list Z) : list Z := rev (span p (rev path)).2.
Definition strip_slashes (path : list Z) : list Z :=
  match strip (Z.eqb 47) path with [] => take 1 path | p => p end.
Definition dirname (path : list Z) : list Z :=
  let dir := strip_slashes (strip (fun c => negb (c =? 47)) (strip_slashes path)) in
  if bool_decide (dir = []) then str "." else take 127 dir.

(** A string in double quotes. *)
Definition quote_string (s : list Z) : list Z :=
  [34] ++ flat_map (fun c => if (c =? 92) || (c =? 34) then [92; c] else [c]) s ++ [34].

(** ** Hidesets *)

Definition hideset_union (hs1 hs2 : list (list Z)) : list (list Z) := hs1 ++ hs2.
Definition hideset_contains (hs : list (list Z)) (s : list Z) : bool := existsb (fun n => bool_decide (n = s)) hs.
Definition hideset_intersection (hs1 hs2 : list (list Z)) : list (list Z) := List.filter (hideset_contains hs2) hs1.

Section preprocess.
Context {P : Parser} {F : SoftFloat} {FF : FoldFloat} {E : CcFiles}.

(** ** Lists of tokens *)

(** [cur = cur->next = tok]: the head's [next] and [cur], 0 for the head. *)
Definition link (l : Z * Z) (tok : Z) : M (Z * Z) :=
  let '(first, cur) := l in
  if cur =? 0 then mret (tok, tok) else wnxt cur tok ;; mret (first, tok).
(** [cur->next = tok; return head.next]. *)
Definition finish (l : Z * Z) (tok : Z) : M Z := r ← link l tok ; mret r.1.

(** New cells for tokens, linked. *)
Fixpoint new_tokens (toks : list Token) : M Z :=
  match toks with
  | [] => mret 0
  | t :: toks => a ← new_cell (Build_cell t 0) ; n ← new_tokens toks ; wnxt a n ;; mret a
  end.

(** [tokenize(new_file(name, file_no, contents))]. *)
Definition tokenize_new (f : File) : M Z :=
  a ← new_file f ;
  modify (fun s => s <| current_file := a |>) ;;
  toks ← lift (tokenize a f) ; new_tokens toks.

(** The first token of the file, 0 when it cannot be read. *)
Definition tokenize_path (path : list Z) : M Z :=
  match file_bytes path with
  | None => mret 0
  | Some bytes =>
      text ← lift (source_text bytes) ;
      no ← gets fe_file_no ;
      modify (fun s => s <| fe_file_no := no +! 1 |>) ;;
      tokenize_new (Build_File path (no +! 1) text path 0)
  end.

Definition is_eof (tok : Z) : M bool := is_tk tok TK_EOF.
Definition is_hash (tok : Z) : M bool := rk (fun t => t_at_bol t && equal t "#") tok.

(** [equal(tok->next, op)], for one of the texts. *)
Definition next_any (tok : Z) (ops : list string) : M bool := n ← nxt tok ; eq_any n ops.
(** A directive, and one of these. *)
Definition directive (tok : Z) (ops : list string) : M bool := andM (is_hash tok) (next_any tok ops).

Definition warn_tok (tok : Z) (message : string) : M unit :=
  modify (fun s => s <| fe_warnings ::= fun w => w ++ [(tok, str message)] |>).

Definition skip_line (tok : Z) : M Z :=
  b ← rk t_at_bol tok ;
  if (b : bool) then mret tok else
  warn_tok tok "extra token" ;;
  loopM p_fuel (fun tok => b ← rk t_at_bol tok ; if (b : bool) then n ← nxt tok ; mret (inl n) else mret (inr tok)) tok.

Definition copy_token (tok : Z) : M Z := t ← rk id tok ; new_cell (Build_cell t 0).
Definition new_eof (tok : Z) : M Z :=
  t ← copy_token tok ; wk t (fun r => r <| t_kind := TK_EOF |> <| t_len := 0 |>) ;; mret t.

(** Copies of the tokens from [tok] to the EOF or NULL that ends them, added to [l]; and
    that end. *)
Definition copy_until_eof (l : Z * Z) (tok : Z) : M (Z * Z * Z) :=
  loopM p_fuel (fun '(l, t) =>
    e ← is_eof t ; if (e : bool) then mret (inr (l, t)) else
    c ← copy_token t ; l ← link l c ; n ← nxt t ; mret (inl (l, n))) (l, tok).

Definition add_hideset (tok : Z) (hs : list (list Z)) : M Z :=
  l ← loopM p_fuel (fun '(l, t) =>
    if t =? 0 then mret (inr l) else
    c ← copy_token t ; wk c (fun r => r <| t_hideset ::= fun h => hideset_union h hs |>) ;;
    l ← link l c ; n ← nxt t ; mret (inl (l, n))) ((0, 0), tok) ;
  mret l.1.

Definition append (tok1 tok2 : Z) : M Z :=
  e ← is_eof tok1 ;
  if (e : bool) then mret tok2 else '(l, _) ← copy_until_eof (0, 0) tok1 ; finish l tok2.

(** ** Conditional groups *)

Definition if_words : list string := ["if"; "ifdef"; "ifndef"].

Fixpoint skip_cond_incl2_ (fuel : nat) (tok : Z) : M Z :=
  match fuel with O => stop CcNoFuel | S fuel =>
  loopM p_fuel (fun tok =>
    e ← is_eof tok ; if (e : bool) then mret (inr tok) else
    b ← directive tok if_words ;
    if (b : bool) then n ← nxt tok ; n ← nxt n ; r ← skip_cond_incl2_ fuel n ; mret (inl r) else
    b ← directive tok ["endif"] ;
    if (b : bool) then n ← nxt tok ; n ← nxt n ; mret (inr n) else
    n ← nxt tok ; mret (inl n)) tok
  end.
Definition skip_cond_incl2 (tok : Z) : M Z := skip_cond_incl2_ p_fuel tok.

Definition skip_cond_incl (tok : Z) : M Z :=
  loopM p_fuel (fun tok =>
    e ← is_eof tok ; if (e : bool) then mret (inr tok) else
    b ← directive tok if_words ;
    if (b : bool) then n ← nxt tok ; n ← nxt n ; r ← skip_cond_incl2 n ; mret (inl r) else
    b ← directive tok ["elif"; "else"; "endif"] ;
    if (b : bool) then mret (inr tok) else n ← nxt tok ; mret (inl n)) tok.

(** ** New tokens *)

(** The text as a file with the name and the number of [tmpl]'s. *)
Definition text_like (tmpl : Z) (text : list Z) : M Z :=
  file ← rk t_file tmpl ; f ← rf id file ;
  tokenize_new (Build_File (file_name f) (file_file_no f) text (file_name f) 0).
Definition new_str_token (s : list Z) (tmpl : Z) : M Z := text_like tmpl (quote_string s).
Definition new_num_token (val tmpl : Z) : M Z := text_like tmpl (int_text val ++ [10]).

(** The copy of a line and [*rest]. *)
Definition copy_line (tok : Z) : M (Z * Z) :=
  '(l, rest) ← loopM p_fuel (fun '(l, t) =>
    b ← rk t_at_bol t ; if (b : bool) then mret (inr (l, t)) else
    c ← copy_token t ; l ← link l c ; n ← nxt t ; mret (inl (l, n))) ((0, 0), tok) ;
  e ← new_eof rest ; first ← finish l e ; mret (first, rest).

(** ** Macros *)

(** 0 for NULL. *)
Definition find_macro (tok : Z) : M Z :=
  k ← is_tk tok TK_IDENT ;
  if negb k then mret 0 else
  key ← rk lexeme tok ; m ← gets macros ; lift (of_table (hashmap_get2 m key)).

Definition add_macro (m : Macro) : M unit :=
  a ← calloc_macro m ;
  t ← gets macros ; t ← lift (of_table (hashmap_put t (mc_name m) a)) ; modify (fun s => s <| macros := t |>).

Definition undef_macro (name : list Z) : M unit :=
  t ← gets macros ; t ← lift (of_table (hashmap_delete2 t name)) ; modify (fun s => s <| macros := t |>).

Definition define_macro (name buf : list Z) : M unit :=
  tok ← tokenize_new (Build_File (str "<built-in>") 1 buf (str "<built-in>") 0) ;
  add_macro (Build_Macro name true [] None tok None).

Definition the_macro (a : Z) : M Macro := m ← gets (fun s => fe_macs s !! a) ; found m.

(** The names, [*va_args_name] and [*rest]. *)
Definition read_macro_params (tok : Z) : M (list (list Z) * option (list Z) * Z) :=
  loopM p_fuel (fun '(tok, names) =>
    e ← eqt tok ")" ;
    if (e : bool) then n ← nxt tok ; mret (inr (names, None, n)) else
    tok ← (if bool_decide (names = []) then mret tok else skip tok ",") ;
    d ← eqt tok "..." ;
    if (d : bool) then n ← nxt tok ; rest ← skip n ")" ; mret (inr (names, Some (str "__VA_ARGS__"), rest)) else
    k ← is_tk tok TK_IDENT ;
    if negb k then err_tok tok "expected an identifier" else
    name ← rk lexeme tok ;
    n ← nxt tok ;
    d ← eqt n "..." ;
    if (d : bool) then n ← nxt n ; rest ← skip n ")" ; mret (inr (names, Some name, rest))
    else mret (inl (n, names ++ [name]))) (tok, []).

Definition read_macro_definition (tok : Z) : M Z :=
  k ← is_tk tok TK_IDENT ;
  if negb k then err_tok tok "macro name must be an identifier" else
  name ← rk lexeme tok ;
  tok ← nxt tok ;
  f ← rk (fun t => negb (t_has_space t) && equal t "(") tok ;
  if (f : bool) then
    n ← nxt tok ; '(params, va, tok) ← read_macro_params n ;
    '(body, rest) ← copy_line tok ;
    add_macro (Build_Macro name false params va body None) ;; mret rest
  else
    '(body, rest) ← copy_line tok ;
    add_macro (Build_Macro name true [] None body None) ;; mret rest.

(** The tokens of an argument and [*rest]. *)
Definition read_macro_arg_one (tok : Z) (read_rest : bool) : M (Z * Z) :=
  '(l, tok) ← loopM p_fuel (fun '(l, tok, level) =>
    t ← rk id tok ;
    if (level =? 0) && equal t ")" then mret (inr (l, tok)) else
    if (level =? 0) && negb read_rest && equal t "," then mret (inr (l, tok)) else
    if bool_decide (t_kind t = TK_EOF) then err_tok tok "premature end of input" else
    let level := if equal t "(" then level +! 1 else if equal t ")" then level -! 1 else level in
    c ← copy_token tok ; l ← link l c ; n ← nxt tok ; mret (inl (l, n, level))) ((0, 0), tok, 0) ;
  e ← new_eof tok ; first ← finish l e ; mret (first, tok).

(** The arguments and the closing parenthesis. *)
Definition read_macro_args (tok : Z) (params : list (list Z)) (va_args_name : option (list Z)) : M (list MacroArg * Z) :=
  n ← nxt tok ; tok ← nxt n ;
  '(args, tok) ← foldM (fun '(args, tok) name =>
      tok ← (if bool_decide (args = []) then mret tok else skip tok ",") ;
      '(a, tok) ← read_macro_arg_one tok false ;
      mret (args ++ [Build_MacroArg name false a], tok)) ([], tok) params ;
  '(args, tok) ← (match va_args_name with
    | None => mret (args, tok)
    | Some name =>
        e ← eqt tok ")" ;
        '(a, tok) ← (if (e : bool) then a ← new_eof tok ; mret (a, tok)
                     else tok ← (if bool_decide (params = []) then mret tok else skip tok ",") ; read_macro_arg_one tok true) ;
        mret (args ++ [Build_MacroArg name true a], tok)
    end) ;
  skip tok ")" ;; mret (args, tok).

Definition find_arg (args : list MacroArg) (tok : Z) : M (option MacroArg) :=
  rk (fun t => List.find (fun a => bool_decide (lexeme t = ma_name a)) args) tok.

(** The text of the tokens from [tok] to the EOF or to [end_], with its spaces. *)
Definition join_tokens (tok end_ : Z) : M (list Z) :=
  loopM p_fuel (fun '(buf, t) =>
    if t =? end_ then mret (inr buf) else
    r ← rk id t ;
    if bool_decide (t_kind r = TK_EOF) then mret (inr buf) else
    n ← nxt t ;
    mret (inl (buf ++ (if negb (t =? tok) && t_has_space r then [32] else []) ++ lexeme r, n))) ([], tok).

Definition stringize (hash arg : Z) : M Z := s ← join_tokens arg 0 ; new_str_token s hash.

Definition paste (lhs rhs : Z) : M Z :=
  a ← rk lexeme lhs ; b ← rk lexeme rhs ;
  tok ← text_like lhs (a ++ b) ;
  n ← nxt tok ; e ← is_eof n ;
  if (e : bool) then mret tok
  else err_text lhs (str "pasting forms '" ++ (a ++ b) ++ str "', an invalid token").

(** [*cur = *tok]. *)
Definition replace_token (cur tok : Z) : M unit := t ← rk id tok ; n ← nxt tok ; wk cur (fun _ => t) ;; wnxt cur n.

Definition has_varargs (args : list MacroArg) : M bool :=
  match List.find (fun a => bool_decide (ma_name a = str "__VA_ARGS__")) args with
  | Some a => e ← is_eof (ma_tok a) ; mret (negb e)
  | None => mret false
  end.

(** The rounds of [subst]: [tok] is a token of the body, [n] the next one, [l] the list so
    far; the list after the round and the rest of the body. *)
Definition subst_string (args : list MacroArg) (l : Z * Z) (tok n : Z) : M (Z * Z * Z) :=
  a ← find_arg args n ;
  match a with
  | None => err_tok n "'#' is not followed by a macro parameter"
  | Some a => s ← stringize tok (ma_tok a) ; l ← link l s ; r ← nxt n ; mret (l, r)
  end.

(** A comma before [##] and the variable arguments [a]. *)
Definition subst_comma (a : MacroArg) (l : Z * Z) (tok n : Z) : M (Z * Z * Z) :=
  m ← nxt n ;
  e ← is_eof (ma_tok a) ;
  if (e : bool) then r ← nxt m ; mret (l, r) else c ← copy_token tok ; l ← link l c ; mret (l, m).

Definition subst_paste (args : list MacroArg) (l : Z * Z) (tok n : Z) : M (Z * Z * Z) :=
  if l.2 =? 0 then err_tok tok "'##' cannot appear at start of macro expansion" else
  e ← is_eof n ;
  if (e : bool) then err_tok tok "'##' cannot appear at end of macro expansion" else
  a ← find_arg args n ;
  r ← nxt n ;
  match a with
  | Some a =>
      e ← is_eof (ma_tok a) ;
      if (e : bool) then mret (l, r) else
      p ← paste l.2 (ma_tok a) ; replace_token l.2 p ;;
      m ← nxt (ma_tok a) ; '(l, _) ← copy_until_eof l m ; mret (l, r)
  | None => p ← paste l.2 n ; replace_token l.2 p ;; mret (l, r)
  end.

(** A parameter before [##], [n]. *)
Definition subst_before_paste (args : list MacroArg) (a : MacroArg) (l : Z * Z) (n : Z) : M (Z * Z * Z) :=
  e ← is_eof (ma_tok a) ;
  if negb e then '(l, _) ← copy_until_eof l (ma_tok a) ; mret (l, n) else
  rhs ← nxt n ;
  a2 ← find_arg args rhs ;
  l ← (match a2 with
       | Some a2 => '(l, _) ← copy_until_eof l (ma_tok a2) ; mret l
       | None => c ← copy_token rhs ; link l c end) ;
  r ← nxt rhs ; mret (l, r).

(** [__VA_OPT__]; its tokens are linked themselves. *)
Definition subst_va_opt (args : list MacroArg) (l : Z * Z) (n : Z) : M (Z * Z * Z) :=
  m ← nxt n ; '(x, r) ← read_macro_arg_one m true ;
  v ← has_varargs args ;
  l ← (if (v : bool) then
         loopM p_fuel (fun '(l, t) => e ← is_eof t ; if (e : bool) then mret (inr l) else
           l ← link l t ; n ← nxt t ; mret (inl (l, n))) (l, x)
       else mret l) ;
  r ← skip r ")" ; mret (l, r).

(** A parameter: the argument is expanded in place. *)
Definition subst_arg (preprocess2 : Z -> M Z) (a : MacroArg) (l : Z * Z) (tok n : Z) : M (Z * Z * Z) :=
  x ← preprocess2 (ma_tok a) ;
  t ← rk id tok ;
  wk x (fun r => r <| t_at_bol := t_at_bol t |> <| t_has_space := t_has_space t |>) ;;
  '(l, _) ← copy_until_eof l x ; mret (l, n).

Definition subst_round (preprocess2 : Z -> M Z) (args : list MacroArg) (l : Z * Z) (tok : Z) : M (Z * Z * Z) :=
  t ← rk id tok ;
  n ← nxt tok ;
  if equal t "#" then subst_string args l tok n else
  pasted ← eqt n "##" ;
  va ← (if equal t "," && pasted then m ← nxt n ; find_arg args m else mret None) ;
  match va with
  | Some (Build_MacroArg _ true _ as a) => subst_comma a l tok n
  | _ =>
  if equal t "##" then subst_paste args l tok n else
  arg ← find_arg args tok ;
  match arg, pasted with
  | Some a, true => subst_before_paste args a l n
  | _, _ =>
  opt ← (if equal t "__VA_OPT__" then eqt n "(" else mret false) ;
  if (opt : bool) then subst_va_opt args l n else
  match arg with
  | Some a => subst_arg preprocess2 a l tok n
  | None => c ← copy_token tok ; l ← link l c ; mret (l, n)
  end end end.

Definition subst (preprocess2 : Z -> M Z) (tok : Z) (args : list MacroArg) : M Z :=
  '(l, tok) ← loopM p_fuel (fun '(l, tok) =>
    e ← is_eof tok ; if (e : bool) then mret (inr (l, tok)) else
    r ← subst_round preprocess2 args l tok ; mret (inl r)) ((0, 0), tok) ;
  finish l tok.

(** ** Built-in macros *)

(** The token of the source that [tmpl] comes from. *)
Definition origin_of (tmpl : Z) : M Z :=
  loopM p_fuel (fun t => o ← rk t_origin t ; mret (if o =? 0 then inr t else inl o)) tmpl.

Definition run_handler (h : macro_handler) (tmpl : Z) : M Z :=
  match h with
  | FileMacro => t ← origin_of tmpl ; file ← rk t_file t ; name ← rf file_display_name file ; new_str_token name t
  | LineMacro =>
      t ← origin_of tmpl ; r ← rk id t ; delta ← rf file_line_delta (t_file r) ; new_num_token (t_line_no r +! delta) t
  | CounterMacro =>
      i ← gets counter_value ; modify (fun s => s <| counter_value := i +! 1 |>) ;; new_num_token i tmpl
  | TimestampMacro =>
      file ← rk t_file tmpl ; name ← rf file_name file ;
      new_str_token (if file_exists name then str "Thu Jan  1 00:00:00 2026" else str "??? ??? ?? ??:??:?? ????") tmpl
  | BaseFileMacro => new_str_token base_file tmpl
  end.

(** ** Expansion *)

(** The expansion [body] instead of the tokens from [tok], the macro's name, to [next]. *)
Definition insert_body (body tok next : Z) : M Z :=
  loopM p_fuel (fun t =>
    e ← is_eof t ; if (e : bool) then mret (inr tt) else
    wk t (fun r => r <| t_origin := tok |>) ;; n ← nxt t ; mret (inl n)) body ;;
  rest ← append body next ;
  t ← rk id tok ;
  wk rest (fun r => r <| t_at_bol := t_at_bol t |> <| t_has_space := t_has_space t |>) ;; mret rest.

(** [*rest] when there is something to expand. *)
Definition expand_macro (preprocess2 : Z -> M Z) (tok : Z) : M (option Z) :=
  t ← rk id tok ;
  if hideset_contains (t_hideset t) (lexeme t) then mret None else
  a ← find_macro tok ;
  if a =? 0 then mret None else
  m ← the_macro a ;
  n ← nxt tok ;
  match mc_handler m with
  | Some h => rest ← run_handler h tok ; wnxt rest n ;; mret (Some rest)
  | None =>
      if mc_objlike m then
        body ← add_hideset (mc_body m) (hideset_union (t_hideset t) [mc_name m]) ;
        rest ← insert_body body tok n ; mret (Some rest)
      else
        call ← eqt n "(" ;
        if negb call then mret None else
        '(args, rparen) ← read_macro_args tok (mc_params m) (mc_va_args_name m) ;
        hs ← rk t_hideset rparen ;
        body ← subst preprocess2 (mc_body m) args ;
        body ← add_hideset body (hideset_union (hideset_intersection (t_hideset t) hs) [mc_name m]) ;
        n ← nxt rparen ; rest ← insert_body body tok n ; mret (Some rest)
  end.

(** ** Conditions *)

Definition convert_pp_tokens (tok : Z) : M unit :=
  loopM p_fuel (fun t =>
    e ← is_eof t ; if (e : bool) then mret (inr tt) else
    r ← rk id t ; r ← lift (convert_pp_token r) ; wk t (fun _ => r) ;; n ← nxt t ; mret (inl n)) tok.

(** [defined foo] and [defined(foo)] are replaced. *)
Definition read_const_expr (tok : Z) : M (Z * Z) :=
  '(tok, rest) ← copy_line tok ;
  '(l, tok) ← loopM p_fuel (fun '(l, tok) =>
    e ← is_eof tok ; if (e : bool) then mret (inr (l, tok)) else
    d ← eqt tok "defined" ;
    n ← nxt tok ;
    if negb d then l ← link l tok ; mret (inl (l, n)) else
    let start := tok in
    '(paren, tok) ← consume n "(" ;
    k ← is_tk tok TK_IDENT ;
    if negb k then err_tok start "macro name must be an identifier" else
    m ← find_macro tok ;
    tok ← nxt tok ;
    tok ← (if (paren : bool) then skip tok ")" else mret tok) ;
    v ← new_num_token (b2z (negb (m =? 0))) start ; l ← link l v ; mret (inl (l, tok))) ((0, 0), tok) ;
  expr ← finish l tok ; mret (expr, rest).

(** The value, as a 32-bit [long], and [*rest]. *)
Definition eval_const_expr (preprocess2 : Z -> M Z) (tok : Z) : M (Z * Z) :=
  let start := tok in
  n ← nxt tok ;
  '(expr, rest) ← read_const_expr n ;
  expr ← preprocess2 expr ;
  e ← is_eof expr ;
  if (e : bool) then err_tok start "no expression" else
  loopM p_fuel (fun t =>
    e ← is_eof t ; if (e : bool) then mret (inr tt) else
    next ← nxt t ;
    k ← is_tk t TK_IDENT ;
    (if (k : bool) then z ← new_num_token 0 t ; replace_token t z ;; wnxt t next else mret tt) ;;
    mret (inl next)) expr ;;
  convert_pp_tokens expr ;;
  '(val, rest2) ← const_expr expr ;
  e ← is_eof rest2 ;
  if negb e then err_tok rest2 "extra token" else mret (i32 val, rest).

Definition push_cond_incl (tok : Z) (included : bool) : M unit :=
  modify (fun s => s <| cond_incl ::= fun l => Build_CondIncl IN_THEN tok included :: l |>).

(** ** Files *)

Definition new_string (s : list Z) : M Z := a ← fresh ; modify (fun st => st <| fe_strs ::= insert a s |>) ;; mret a.
Definition the_string (a : Z) : M (list Z) := s ← gets (fun st => fe_strs st !! a) ; found s.

(** The first include path from the [i]-th one on that has the file. *)
Fixpoint first_path (paths : list (list Z)) (i : Z) (filename : list Z) : option (list Z * Z) :=
  match paths with
  | [] => None
  | dir :: paths =>
      let path := dir ++ str "/" ++ filename in
      if file_exists path then Some (path, i) else first_path paths (i + 1) filename
  end.

Definition search_include_paths (filename : list Z) : M (option (list Z)) :=
  if chr filename 0 =? 47 then mret (Some filename) else
  c ← gets include_cache ;
  cached ← lift (of_table (hashmap_get2 c filename)) ;
  if negb (cached =? 0) then s ← the_string cached ; mret (Some s) else
  match first_path include_paths 0 filename with
  | None => mret None
  | Some (path, i) =>
      a ← new_string path ;
      c ← lift (of_table (hashmap_put c filename a)) ;
      modify (fun s => s <| include_cache := c |> <| include_next_idx := i + 1 |>) ;; mret (Some path)
  end.

Definition search_include_next (filename : list Z) : M (option (list Z)) :=
  i ← gets include_next_idx ;
  match first_path (drop (Z.to_nat i) include_paths) i filename with
  | None => modify (fun s => s <| include_next_idx := Z.max i (Z.of_nat (length include_paths)) |>) ;; mret None
  | Some (path, i) => modify (fun s => s <| include_next_idx := i |>) ;; mret (Some path)
  end.

(** The name, [*is_dquote] and [*rest]. *)
Fixpoint read_include_filename_ (preprocess2 : Z -> M Z) (fuel : nat) (tok : Z) : M (list Z * bool * Z) :=
  match fuel with O => stop CcNoFuel | S fuel =>
  t ← rk id tok ;
  if bool_decide (t_kind t = TK_STR) then
    n ← nxt tok ; rest ← skip_line n ;
    mret (take (Z.to_nat (t_len t - 2)) (drop 1 (t_loc t)), true, rest)
  else if equal t "<" then
    first ← nxt tok ;
    end_ ← loopM p_fuel (fun tok =>
      r ← rk id tok ;
      if equal r ">" then mret (inr tok)
      else if t_at_bol r || bool_decide (t_kind r = TK_EOF) then err_tok tok "expected '>'"
      else n ← nxt tok ; mret (inl n)) tok ;
    n ← nxt end_ ; rest ← skip_line n ;
    name ← join_tokens first end_ ; mret (name, false, rest)
  else if bool_decide (t_kind t = TK_IDENT) then
    '(line, rest) ← copy_line tok ;
    tok2 ← preprocess2 line ;
    '(name, dquote, _) ← read_include_filename_ preprocess2 fuel tok2 ; mret (name, dquote, rest)
  else err_tok tok "expected a filename"
  end.
Definition read_include_filename (preprocess2 : Z -> M Z) (tok : Z) : M (list Z * bool * Z) :=
  read_include_filename_ preprocess2 p_fuel tok.

(** The macro of an include guard. *)
Definition detect_include_guard (tok : Z) : M (option (list Z)) :=
  b ← directive tok ["ifndef"] ;
  if negb b then mret None else
  n ← nxt tok ; tok ← nxt n ;
  k ← is_tk tok TK_IDENT ;
  if negb k then mret None else
  guard ← rk lexeme tok ;
  tok ← nxt tok ;
  b ← directive tok ["define"] ;
  same ← (if (b : bool) then n ← nxt tok ; n ← nxt n ; rk (fun t => bool_decide (lexeme t = guard)) n else mret false) ;
  if negb same then mret None else
  loopM p_fuel (fun tok =>
    e ← is_eof tok ; if (e : bool) then mret (inr None) else
    n ← nxt tok ;
    h ← is_hash tok ;
    if negb h then mret (inl n) else
    last ← (b ← eqt n "endif" ; if (b : bool) then m ← nxt n ; is_eof m else mret false) ;
    if (last : bool) then mret (inr (Some guard)) else
    b ← eq_any tok if_words ;
    if (b : bool) then r ← skip_cond_incl n ; mret (inl r) else mret (inl n)) tok.

Definition include_file (tok : Z) (path : list Z) (filename_tok : Z) : M Z :=
  p ← gets pragma_once ;
  once ← lift (of_table (hashmap_get2 p path)) ;
  if negb (once =? 0) then mret tok else
  g ← gets include_guards ;
  guard ← lift (of_table (hashmap_get2 g path)) ;
  skipped ← (if guard =? 0 then mret false else
             name ← the_string guard ; m ← gets macros ; v ← lift (of_table (hashmap_get2 m name)) ; mret (negb (v =? 0))) ;
  if (skipped : bool) then mret tok else
  tok2 ← tokenize_path path ;
  if tok2 =? 0 then err_text filename_tok (path ++ str ": cannot open file: error") else
  guard ← detect_include_guard tok2 ;
  (match guard with
   | Some name => a ← new_string name ; g ← lift (of_table (hashmap_put g path a)) ; modify (fun s => s <| include_guards := g |>)
   | None => mret tt end) ;;
  append tok2 tok.

(** ** String literals *)

Inductive StringKind := STR_NONE | STR_UTF8 | STR_UTF16 | STR_UTF32 | STR_WIDE.
#[local] Instance StringKind_eq_dec : EqDecision StringKind.
Proof. solve_decision. Defined.

Definition getStringKind (tok : Z) : M StringKind :=
  loc ← rk t_loc tok ;
  if bool_decide (loc = str "u8") then mret STR_UTF8
  else if chr loc 0 =? 34 then mret STR_NONE
  else if chr loc 0 =? 117 then mret STR_UTF16
  else if chr loc 0 =? 85 then mret STR_UTF32
  else if chr loc 0 =? 76 then mret STR_WIDE
  else unreachable.

(** The literals from [tok] on. *)
Definition literals (tok : Z) : M (list Z) :=
  loopM p_fuel (fun '(seen, t) =>
    s ← is_tk t TK_STR ; if negb s then mret (inr (rev seen)) else n ← nxt t ; mret (inl (t :: seen, n))) ([], tok).

(** The base type of a literal and its array's length. *)
Definition literal_type (tok : Z) : M (Z * Z) :=
  t ← rk t_ty tok ; match t with ArrayTy b n => mret (b, n) | _ => stop CcUndefined end.
Definition base_size (tok : Z) : M Z := '(b, _) ← literal_type tok ; rt ct_size b.

(** [f] for each run of two literals or more: its literals, and the token after it. *)
Definition each_run (f : list Z -> Z -> M unit) (tok : Z) : M unit :=
  loopM p_fuel (fun t =>
    e ← is_eof t ; if (e : bool) then mret (inr tt) else
    run ← literals t ;
    n ← nxt t ;
    match run with
    | _ :: _ :: _ =>
        end_ ← loopM p_fuel (fun t => s ← is_tk t TK_STR ; if (s : bool) then n ← nxt t ; mret (inl n) else mret (inr t)) t ;
        f run end_ ;; mret (inl end_)
    | _ => mret (inl n)
    end) tok.

(** The first pass: the literals of a run are widened. *)
Definition widen_run (run : list Z) (_ : Z) : M unit :=
  match run with
  | [] => mret tt
  | t1 :: others =>
      kind ← getStringKind t1 ; '(basety, _) ← literal_type t1 ;
      '(_, basety) ← foldM (fun '(kind, basety) t =>
        k ← getStringKind t ;
        if bool_decide (kind = STR_NONE) then '(b, _) ← literal_type t ; mret (k, b)
        else if negb (bool_decide (k = STR_NONE)) && negb (bool_decide (kind = k))
        then err_tok t "unsupported non-standard concatenation of string literals"
        else mret (kind, basety)) (kind, basety) others ;
      size ← rt ct_size basety ;
      if size >? 1 then
        foldM (fun _ t =>
          s ← base_size t ;
          if s =? 1 then
            cur ← gets current_file ; name ← rf file_display_name cur ;
            r ← rk id t ; r ← lift (tokenize_string_literal (cur, name) r basety size) ; wk t (fun _ => r)
          else mret tt) tt run
      else mret tt
  end.

(** The second pass: the first literal of a run gets the characters of all.  A literal
    whose characters are wider than the first one's overruns the buffer. *)
Definition join_run (run : list Z) (end_ : Z) : M unit :=
  match run with
  | [] => mret tt
  | t1 :: _ =>
      '(basety, _) ← literal_type t1 ;
      size ← rt ct_size basety ;
      '(chars, len) ← foldM (fun '(chars, len) t =>
        s ← base_size t ; '(_, n) ← literal_type t ;
        if s =? size then cs ← rk t_str t ; mret (chars ++ cs, len + (n - 1)) else stop CcUndefined) ([], 1) run ;
      wk t1 (fun r => r <| t_ty := ArrayTy basety len |> <| t_str := chars |>) ;; wnxt t1 end_
  end.

Definition join_adjacent_string_literals (tok : Z) : M unit := each_run widen_run tok ;; each_run join_run tok.

(** ** Directives *)

(** [preprocess], for the given [preprocess2]. *)
Definition preprocess_with (preprocess2 : Z -> M Z) (tok : Z) : M Z :=
  tok ← preprocess2 tok ;
  c ← gets cond_incl ;
  match c with
  | ci :: _ => err_tok (ci_tok ci) "unterminated conditional directive"
  | [] =>
      convert_pp_tokens tok ;;
      join_adjacent_string_literals tok ;;
      toks ← chain nxt tok ;
      foldM (fun _ t => wk t (fun r => r <| t_line_no := t_line_no r +! t_line_delta r |>)) tt toks ;; mret tok
  end.

Definition read_line_marker (preprocess2 : Z -> M Z) (tok : Z) : M Z :=
  let start := tok in
  '(line, rest) ← copy_line tok ;
  tok ← preprocess_with preprocess2 line ;
  t ← rk id tok ;
  int_ ← (if bool_decide (t_kind t = TK_NUM) then b ← basety_of (t_ty t) ; rt (is_kind_of TY_INT) b else mret false) ;
  if negb int_ then err_tok tok "invalid line marker" else
  s ← rk id start ;
  wf (t_file s) (fun f => Build_File (file_name f) (file_file_no f) (file_contents f) (file_display_name f) (i32 (t_val t - t_line_no s))) ;;
  tok ← nxt tok ;
  e ← is_eof tok ;
  if (e : bool) then mret rest else
  t ← rk id tok ;
  if negb (bool_decide (t_kind t = TK_STR)) then err_tok tok "filename expected" else
  wf (t_file s) (fun f => Build_File (file_name f) (file_file_no f) (file_contents f) (t_str t) (file_line_delta f)) ;; mret rest.

(** [#include] at [start], its word at [tok]. *)
Definition include_directive (preprocess2 : Z -> M Z) (start tok : Z) : M Z :=
  n ← nxt tok ; '(filename, is_dquote, rest) ← read_include_filename preprocess2 n ;
  file ← rk t_file start ; here ← rf file_name file ;
  let path := dirname here ++ str "/" ++ filename in
  if negb (chr filename 0 =? 47) && is_dquote && file_exists path then include_file rest path n else
  p ← search_include_paths filename ;
  include_file rest (default filename p) n.

Definition include_next_directive (preprocess2 : Z -> M Z) (tok : Z) : M Z :=
  n ← nxt tok ; '(filename, _, rest) ← read_include_filename preprocess2 n ;
  p ← search_include_next filename ;
  include_file rest (default filename p) n.

Definition undef_directive (tok : Z) : M Z :=
  tok ← nxt tok ;
  k ← is_tk tok TK_IDENT ;
  if negb k then err_tok tok "macro name must be an identifier" else
  name ← rk lexeme tok ; undef_macro name ;; n ← nxt tok ; skip_line n.

Definition if_directive (preprocess2 : Z -> M Z) (start tok : Z) : M Z :=
  '(val, rest) ← eval_const_expr preprocess2 tok ;
  push_cond_incl start (negb (val =? 0)) ;;
  if val =? 0 then skip_cond_incl rest else mret rest.

(** [#ifdef], or [#ifndef] with [neg]. *)
Definition ifdef_directive (neg : bool) (tok : Z) : M Z :=
  n ← nxt tok ; m ← find_macro n ;
  let included := xorb neg (negb (m =? 0)) in
  push_cond_incl tok included ;;
  n ← nxt n ; rest ← skip_line n ;
  if included then mret rest else skip_cond_incl rest.

(** The innermost condition changed. *)
Definition set_cond (ci : CondIncl) : M unit := modify (fun s => s <| cond_incl ::= fun l => ci :: tail l |>).

Definition elif_directive (preprocess2 : Z -> M Z) (start tok : Z) : M Z :=
  c ← gets cond_incl ;
  match c with
  | Build_CondIncl (IN_THEN | IN_ELIF) t included :: _ =>
      set_cond (Build_CondIncl IN_ELIF t included) ;;
      if (included : bool) then skip_cond_incl tok else
      '(val, rest) ← eval_const_expr preprocess2 tok ;
      if val =? 0 then skip_cond_incl rest else set_cond (Build_CondIncl IN_ELIF t true) ;; mret rest
  | _ => err_tok start "stray #elif"
  end.

Definition else_directive (start tok : Z) : M Z :=
  c ← gets cond_incl ;
  match c with
  | Build_CondIncl (IN_THEN | IN_ELIF) t included :: _ =>
      set_cond (Build_CondIncl IN_ELSE t included) ;;
      n ← nxt tok ; rest ← skip_line n ;
      if (included : bool) then skip_cond_incl rest else mret rest
  | _ => err_tok start "stray #else"
  end.

Definition endif_directive (start tok : Z) : M Z :=
  c ← gets cond_incl ;
  match c with
  | [] => err_tok start "stray #endif"
  | _ :: c => modify (fun s => s <| cond_incl := c |>) ;; n ← nxt tok ; skip_line n
  end.

Definition pragma_directive (tok : Z) : M Z :=
  n ← nxt tok ;
  once ← eqt n "once" ;
  if (once : bool) then
    file ← rk t_file tok ; name ← rf file_name file ;
    p ← gets pragma_once ; p ← lift (of_table (hashmap_put p name 1)) ;
    modify (fun s => s <| pragma_once := p |>) ;; n ← nxt n ; skip_line n
  else
    loopM p_fuel (fun tok => tok ← nxt tok ; b ← rk t_at_bol tok ; mret (if (b : bool) then inr tok else inl tok)) tok.

(** The directive at [start], the [#]; the rest. *)
Definition run_directive (preprocess2 : Z -> M Z) (start : Z) : M Z :=
  tok ← nxt start ;
  t ← rk id tok ;
  if equal t "include" then include_directive preprocess2 start tok
  else if equal t "include_next" then include_next_directive preprocess2 tok
  else if equal t "define" then n ← nxt tok ; read_macro_definition n
  else if equal t "undef" then undef_directive tok
  else if equal t "if" then if_directive preprocess2 start tok
  else if equal t "ifdef" then ifdef_directive false tok
  else if equal t "ifndef" then ifdef_directive true tok
  else if equal t "elif" then elif_directive preprocess2 start tok
  else if equal t "else" then else_directive start tok
  else if equal t "endif" then endif_directive start tok
  else if equal t "line" then n ← nxt tok ; read_line_marker preprocess2 n
  else if bool_decide (t_kind t = TK_PP_NUM) then read_line_marker preprocess2 tok
  else if equal t "pragma" then pragma_directive tok
  else if equal t "error" then err_tok tok "error"
  else if t_at_bol t then mret tok
  else err_tok tok "invalid preprocessor directive".

(** A token that is not part of a directive. *)
Definition pass_through (l : Z * Z) (tok : Z) : M (Z * Z * Z) :=
  t ← rk id tok ; f ← rf id (t_file t) ;
  wk tok (fun r => r <| t_line_delta := file_line_delta f |> <| t_filename := file_display_name f |>) ;;
  l ← link l tok ; n ← nxt tok ; mret (l, n).

Fixpoint preprocess2 (fuel : nat) (tok : Z) : M Z :=
  match fuel with O => stop CcNoFuel | S fuel =>
  '(l, tok) ← loopM p_fuel (fun '(l, tok) =>
    e ← is_eof tok ; if (e : bool) then mret (inr (l, tok)) else
    x ← expand_macro (preprocess2 fuel) tok ;
    match x with Some rest => mret (inl (l, rest)) | None =>
    h ← is_hash tok ;
    if negb h then r ← pass_through l tok ; mret (inl r)
    else rest ← run_directive (preprocess2 fuel) tok ; mret (inl (l, rest))
    end) ((0, 0), tok) ;
  finish l tok
  end.

Definition preprocess (tok : Z) : M Z := preprocess_with (preprocess2 p_fuel) tok.

(** ** Predefined macros *)

Definition predefined : list (string * string) :=
  [("__C99_MACRO_WITH_VA_ARGS", "1"); ("__ELF__", "1"); ("__SIZEOF_DOUBLE__", "8"); ("__SIZEOF_FLOAT__", "4");
   ("__SIZEOF_INT__", "4"); ("__SIZEOF_LONG_DOUBLE__", "8"); ("__SIZEOF_LONG_LONG__", "8"); ("__SIZEOF_LONG__", "4");
   ("__SIZEOF_POINTER__", "4"); ("__SIZEOF_PTRDIFF_T__", "4"); ("__SIZEOF_SHORT__", "2"); ("__SIZEOF_SIZE_T__", "4");
   ("__SIZE_TYPE__", "unsigned long"); ("__STDC_HOSTED__", "1"); ("__STDC_NO_ATOMICS__", "1"); ("__STDC_NO_COMPLEX__", "1");
   ("__STDC_UTF_16__", "1"); ("__STDC_UTF_32__", "1"); ("__STDC_VERSION__", "201112L"); ("__STDC__", "1");
   ("__USER_LABEL_PREFIX__", EmptyString); ("__alignof__", "_Alignof"); ("__chibicc__", "1"); ("__const__", "const");
   ("__gnu_linux__", "1"); ("__inline__", "inline"); ("__linux", "1"); ("__linux__", "1"); ("__signed__", "signed");
   ("__typeof__", "typeof"); ("__unix", "1"); ("__unix__", "1"); ("__volatile__", "volatile"); ("linux", "1"); ("unix", "1")].
Definition builtins : list (string * macro_handler) :=
  [("__FILE__", FileMacro); ("__LINE__", LineMacro); ("__COUNTER__", CounterMacro);
   ("__TIMESTAMP__", TimestampMacro); ("__BASE_FILE__", BaseFileMacro)].

(** The date and the time are fixed. *)
Definition init_macros : M unit :=
  foldM (fun _ '(name, buf) => define_macro (str name) (str buf)) tt predefined ;;
  foldM (fun _ '(name, h) => add_macro (Build_Macro (str name) true [] None 0 (Some h))) tt builtins ;;
  define_macro (str "__DATE__") ([34] ++ str "Jan  1 2026" ++ [34]) ;;
  define_macro (str "__TIME__") ([34] ++ str "00:00:00" ++ [34]).

(** ** A compilation *)

(** The front end's part of [compile_to_asm_memory]: the program of a file. *)
Definition front_end (input : list Z) : M Z :=
  tok ← tokenize_path input ;
  if tok =? 0 then error (str "cc: cannot open " ++ input ++ str ": error") else
  init_macros ;;
  tok ← preprocess tok ;
  parse tok.

End preprocess.

(** Before the first file: the basic types and the file scope. *)
Definition file_scope : Z := 16.
Definition fe_init : fe :=
  Build_fe 17 ∅ ∅ (list_to_map basic_types) ∅ ∅ ∅ {[file_scope := scope0]} ∅ ∅ ∅ ∅ 0 0 [] 0 0 file_scope 0 0 0 [] [] 0 0 0
    new_map new_map new_map new_map [] 0 0.
