(* ===== verification/CcLower.v ===== *)
(** * CcLower: from the text of a program to assembly ([cc-c/main.c])

    The code generator was modelled on a tree and named variables (Codegen.v).  The structs
    that it gets from the parser are read out of the store here: a child is followed, a list
    linked by [next] becomes a list, and [*label] of a relocation its text.  [compile] is
    [compile_to_asm_memory]: tokenize, preprocess, parse, codegen. *)

From stdpp Require Import gmap.
From S2P Require Import Prelude Config Kernel Klog RawMem UserMem LibString LibFormat GuestAsm Codegen CcHash CcToken CcTree CcExpr CcDecl CcInit CcParse CcPreprocess.

Section lower.
Context {P : Parser}.

(** NULL is [None]. *)
Definition address (a : Z) : option Z := if a =? 0 then None else Some a.

Definition lower_opt {A} (f : Z -> M A) (a : Z) : M (option A) :=
  if a =? 0 then mret None else x ← f a ; mret (Some x).

Definition lower_list {A} (f : Z -> M A) (l : list Z) : M (list A) :=
  foldM (fun acc x => y ← f x ; mret (acc ++ [y])) [] l.

Fixpoint lower_ty (fuel : nat) (ty : Z) : M Ty :=
  match fuel with O => stop CcNoFuel | S fuel =>
  t ← rt id ty ;
  r ← lower_opt (lower_ty fuel) (ct_return_ty t) ;
  mret (Build_Ty (ct_kind t) (ct_size t) (ct_align t) (ct_unsigned t) (ct_base t) r)
  end.

Definition lower_member (mem : Z) : M Member :=
  m ← rm id mem ;
  ty ← lower_opt (lower_ty p_fuel) (cm_ty m) ;
  mret (Build_Member ty (cm_offset m) (cm_bitfield m) (cm_bit_offset m) (cm_bit_width m)).

Fixpoint lower_node (fuel : nat) (node : Z) : M Node :=
  match fuel with O => stop CcNoFuel | S fuel =>
  n ← rn id node ;
  let sub f := lower_opt (lower_node fuel) (f n) in
  ty ← lower_opt (lower_ty p_fuel) (nd_ty n) ;
  lhs ← sub nd_lhs ; rhs ← sub nd_rhs ; cond ← sub nd_cond ; then_ ← sub nd_then ; els ← sub nd_els ;
  init ← sub nd_init ; inc ← sub nd_inc ;
  body ← chain (rn nd_next) (nd_body n) ; body ← lower_list (lower_node fuel) body ;
  member ← lower_opt lower_member (nd_member n) ;
  args ← chain (rn nd_next) (nd_args n) ; args ← lower_list (lower_node fuel) args ;
  cases ← chain (rn nd_case_next) (nd_case_next n) ; cases ← lower_list (lower_node fuel) cases ;
  default_case ← sub nd_default_case ;
  mret (Build_Node (nd_kind n) ty lhs rhs cond then_ els init inc (nd_brk_label n) (nd_cont_label n) body member args
    (address (nd_ret_buffer n)) (nd_label n) (nd_unique_label n) cases default_case (nd_begin n) (nd_end n) (nd_asm_str n)
    (address (nd_var n)) (nd_val n) (nd_fval n))
  end.

(** [*label]. *)
Definition label_text (l : label_ref) : M (list Z) :=
  match l with LabelOf node => rn nd_unique_label node | NameOf var => ro ob_name var end.

Definition lower_rel (r : CReloc) : M Relocation :=
  label ← label_text (cr_label r) ; mret (Build_Relocation (cr_offset r) label (cr_addend r)).

Definition lower_obj (var : Z) : M Obj :=
  o ← ro id var ;
  ty ← lower_ty p_fuel (ob_ty o) ;
  rel ← foldM (fun acc r => x ← lower_rel r ; mret (acc ++ [x])) [] (ob_rel o) ;
  params ← chain (ro ob_next) (ob_params o) ;
  body ← lower_opt (lower_node p_fuel) (ob_body o) ;
  locals ← chain (ro ob_next) (ob_locals o) ;
  mret (Build_Obj (ob_name o) ty (ob_is_local o) (ob_align o) 0 false 0 (ob_is_function o) (ob_is_definition o)
    (ob_is_static o) (ob_init_data o) rel params body locals 0).

(** What [codegen] is called with: the list of the globals, and every variable. *)
Definition lower_program (prog : Z) : M (list Z * gmap Z Obj) :=
  globals ← chain (ro ob_next) prog ;
  vars ← gets (fun s => map fst (map_to_list (fe_objs s))) ;
  objs ← foldM (fun acc v => o ← lower_obj v ; mret (<[v := o]> acc)) ∅ vars ;
  mret (globals, objs).

(** An address that is not a variable's. *)
Definition no_obj : Obj := Build_Obj [] (Build_Ty TY_VOID 0 0 false 0 None) false 0 0 false 0 false false false None [] [] None [] 0.
Definition store_of (objs : gmap Z Obj) (v : Z) : Obj := default no_obj (objs !! v).

End lower.

(** Why a compilation has no output. *)
Inductive compile_stop := FrontEnd (why : cc_stop) | Generator (why : cg_stop).

(** The program as the code generator gets it. *)
Definition program_of `{P : Parser, F : SoftFloat, FF : FoldFloat, E : CcFiles} (input : list Z) : cc (list Z * gmap Z Obj) :=
  r ← (prog ← front_end input ; lower_program prog) fe_init ; mret r.1.

(** The lines of the assembly of the file [input]; [tr] folds floating-point constants. *)
Definition compile `{P : Parser, F : SoftFloat, FF : FoldFloat, E : CcFiles} (tr : Z -> Z -> Z) (input : list Z) : list line + compile_stop :=
  match program_of input with
  | Fail why => inr (FrontEnd why)
  | Got (globals, objs) =>
      match codegen tr globals (cg_init (store_of objs)) with
      | Done _ _ code => inl code
      | Halt why => inr (Generator why)
      end
  end.
