(* ===== verification/CcParseSpec.v ===== *)
(** * CcParseSpec: what the parser of the compiler promises

    The order of declaration specifiers does not matter, as the comment of [declspec] says;
    the members of a struct are aligned, inside it and apart, bit-fields too; scopes are a
    stack of maps; the common type of two operands is that of the standard.  A list of
    tokens is a segment of the store. *)

From stdpp Require Import gmap.
From S2P Require Import Prelude Config Kernel Klog RawMem UserMem LibString LibFormat GuestAsm Codegen CcHash CcToken CcTokenSpec CcTree CcExpr CcDecl CcInit CcParse CcPreprocess.

(** ** The monad *)

Lemma bind_run {A B} (m : M A) (k : A -> M B) s a s' : m s = Got (a, s') -> (m ≫= k) s = k a s'.
Proof. intros H. unfold mbind, M_bind. by rewrite H. Qed.
Lemma bind_fail {A B} (m : M A) (k : A -> M B) s why : m s = Fail why -> (m ≫= k) s = Fail why.
Proof. intros H. unfold mbind, M_bind. by rewrite H. Qed.
Lemma ret_run {A} (a : A) s : (mret a : M A) s = Got (a, s).
Proof. done. Qed.
Lemma loop_next {A B} n (body : A -> M (A + B)) a a' s s' : body a s = Got (inl a', s') -> loopM (S n) body a s = loopM n body a' s'.
Proof. intros H. cbn [loopM]. by rewrite (bind_run _ _ _ _ _ H). Qed.
Lemma loop_stop {A B} n (body : A -> M (A + B)) a b s s' : body a s = Got (inr b, s') -> loopM (S n) body a s = Got (b, s').
Proof. intros H. cbn [loopM]. by rewrite (bind_run _ _ _ _ _ H). Qed.
Lemma loop_fail {A B} n (body : A -> M (A + B)) a s why : body a s = Fail why -> loopM (S n) body a s = Fail why.
Proof. intros H. cbn [loopM]. by rewrite (bind_fail _ _ _ _ H). Qed.

Lemma rk_run {A} (f : Token -> A) a t n s : fe_toks s !! a = Some (Build_cell t n) -> rk f a s = Got (f t, s).
Proof. intros H. unfold rk, gets, found, mbind, M_bind. by rewrite H. Qed.
Lemma nxt_run a t n s : fe_toks s !! a = Some (Build_cell t n) -> nxt a s = Got (n, s).
Proof. intros H. unfold nxt, gets, found, mbind, M_bind. by rewrite H. Qed.
Lemma rt_run {A} (f : CType -> A) a x s : fe_types s !! a = Some x -> rt f a s = Got (f x, s).
Proof. intros H. unfold rt, gets, found, mbind, M_bind. by rewrite H. Qed.
Lemma rm_run {A} (f : CMember -> A) a x s : fe_mems s !! a = Some x -> rm f a s = Got (f x, s).
Proof. intros H. unfold rm, gets, found, mbind, M_bind. by rewrite H. Qed.
Lemma wt_run a f x s : fe_types s !! a = Some x -> wt a f s = Got (tt, s <| fe_types ::= insert a (f x) |>).
Proof. intros H. unfold wt. by rewrite (bind_run _ _ _ _ _ (rt_run id _ _ _ H)). Qed.
Lemma wm_run a f x s : fe_mems s !! a = Some x -> wm a f s = Got (tt, s <| fe_mems ::= insert a (f x) |>).
Proof. intros H. unfold wm. by rewrite (bind_run _ _ _ _ _ (rm_run id _ _ _ H)). Qed.
Lemma found_run {A} (a : A) s : found (Some a) s = Got (a, s).
Proof. done. Qed.
Lemma lift_run {A} (a : A) s : lift (Got a) s = Got (a, s).
Proof. done. Qed.

(** The next read or write of a computation, from a hypothesis about the store. *)
Ltac m_read :=
  first [erewrite bind_run by (first [eapply rk_run | eapply nxt_run | eapply rt_run | eapply rm_run | eapply wt_run | eapply wm_run
    | apply found_run | apply lift_run | apply ret_run]; (eassumption || done))];
  cbv beta.

(** The tokens [l] are linked from the address [a] on, and [e] comes after them. *)
Fixpoint segment (m : gmap Z cell) (a : Z) (l : list Token) (e : Z) : Prop :=
  match l with
  | [] => a = e
  | t :: l => exists n, m !! a = Some (Build_cell t n) /\ segment m n l e
  end.

(** ** Declaration specifiers *)

(** Keywords of built-in types, storage classes, and words that are ignored. *)
Definition type_words : list string := ["void"; "_Bool"; "char"; "short"; "int"; "long"; "float"; "double"; "signed"; "unsigned"].
Definition specifier_words : list string := type_words ++ storage_words ++ ignored_words.

(** A token of a word; only the text matters to a specifier. *)
Definition word_token (w : list Z) : Token := Build_Token TK_KEYWORD 0 0 w (Z.of_nat (length w)) NoTy [] 0 [] 0 0 false false [] 0.

Lemma lexeme_word w : lexeme (word_token w) = w.
Proof. unfold lexeme, word_token. cbn [t_len t_loc]. by rewrite Nat2Z.id, firstn_all. Qed.
Lemma equal_word t op : equal t op = equal (word_token (lexeme t)) op.
Proof. unfold equal. by rewrite lexeme_word. Qed.

(** What a specifier does to the counter and the attributes. *)
Definition specify (t : Token) (s : Z * VarAttr) : option (Z * VarAttr) :=
  let '(counter, a) := s in
  if existsb (equal t) storage_words then let a := storage_attr t a in if storage_clash a then None else Some (counter, a)
  else if existsb (equal t) ignored_words then Some s
  else counter ← count_word t counter ; _ ← spec_type counter ; Some (counter, a).

Fixpoint specify_all (l : list Token) (s : Z * VarAttr) : option (Z * VarAttr) :=
  match l with [] => Some s | t :: l => s ← specify t s ; specify_all l s end.

(** The type that a counter stands for, [int] if no type was named. *)
Definition counted_type (counter : Z) : Z := if counter =? 0 then ty_int else default 0 (spec_type counter).

Definition counters : list Z := 0 :: flat_map fst spec_table.

#[local] Arguments specify : simpl never.
#[local] Arguments spec_type : simpl never.

Lemma count_word_word t c : count_word t c = count_word (word_token (lexeme t)) c.
Proof. unfold count_word. by rewrite !(equal_word t). Qed.

Lemma specify_word t s : specify t s = specify (word_token (lexeme t)) s.
Proof.
  destruct s as [c a]. unfold specify, count_word, storage_attr, storage_words, ignored_words. cbn [existsb].
  rewrite !(equal_word t). done.
Qed.

(** The words of types do not meet those of storage classes, and two of one kind can be
    exchanged: finite checks. *)
Definition spec_okb (c : Z) : bool := match spec_type c with Some ty => negb (ty =? 0) | None => c =? 0 end.

Definition type_step (w : string) (c : Z) : option Z :=
  c ← count_word (word_token (str w)) c ; _ ← spec_type c ; Some c.

Lemma type_steps_check :
  forallb (fun c => forallb (fun v => forallb (fun w =>
    bool_decide ((type_step v c ≫= type_step w) = (type_step w c ≫= type_step v)) &&
    match type_step v c with Some d => existsb (Z.eqb d) counters && negb (d =? 0) && spec_okb d | None => true end)
      type_words) type_words) counters = true.
Proof. vm_compute. reflexivity. Qed.

Lemma in_counters c : In c counters <-> existsb (Z.eqb c) counters = true.
Proof.
  rewrite existsb_exists. split; [intros H; exists c; by rewrite Z.eqb_refl|]. intros (d & Hd & ->%Z.eqb_eq). done.
Qed.

Lemma type_steps c v w : In c counters -> In v type_words -> In w type_words ->
  (type_step v c ≫= type_step w) = (type_step w c ≫= type_step v) /\
  (forall d, type_step v c = Some d -> In d counters /\ d <> 0 /\ exists ty, spec_type d = Some ty).
Proof.
  intros Hc Hv Hw. pose proof type_steps_check as H. rewrite forallb_forall in H. specialize (H c Hc).
  rewrite forallb_forall in H. specialize (H v Hv). rewrite forallb_forall in H. specialize (H w Hw).
  apply andb_true_iff in H as [H1 H2]. split; [by apply bool_decide_eq_true in H1|]. intros d Hd. rewrite Hd in H2. bool_hyps.
  split; [by apply in_counters|]. split; [done|]. unfold spec_okb in *. destruct (spec_type d) as [ty|]; [by exists ty|lia].
Qed.

Definition storage_step (w : string) (a : VarAttr) : option VarAttr :=
  let a := storage_attr (word_token (str w)) a in if storage_clash a then None else Some a.

Lemma storage_steps a v w : In v storage_words -> In w storage_words ->
  (storage_step v a ≫= storage_step w) = (storage_step w a ≫= storage_step v).
Proof.
  intros Hv Hw. destruct a as [b1 b2 b3 b4 b5 al]. cbn in Hv, Hw.
  repeat (destruct Hv as [<-|Hv]; [repeat (destruct Hw as [<-|Hw]; [by destruct b1, b2, b3, b4, b5|]); destruct Hw|]). destruct Hv.
Qed.

Definition spells (t : Token) (w : string) : Prop := lexeme t = str w.

(** Two tests of the text of a word, for each word of a list. *)
Lemma tests_ok (test1 test2 : Token -> bool) (b1 b2 : bool) (words : list string) w :
  forallb (fun w => Bool.eqb (test1 (word_token (str w))) b1 && Bool.eqb (test2 (word_token (str w))) b2) words = true ->
  In w words -> test1 (word_token (str w)) = b1 /\ test2 (word_token (str w)) = b2.
Proof. rewrite forallb_forall. intros H Hw. specialize (H w Hw). apply andb_true_iff in H as [H1%eqb_prop H2%eqb_prop]. done. Qed.

(** A specifier changes the counter or the attributes. *)
Inductive part := TypePart (w : string) | StoragePart (w : string) | NoPart.
Definition part_of (t : Token) (p : part) : Prop :=
  match p with
  | TypePart w => In w type_words /\ spells t w
  | StoragePart w => In w storage_words /\ spells t w
  | NoPart => exists w, In w ignored_words /\ spells t w
  end.
Definition counter_step (p : part) (c : Z) : option Z := match p with TypePart w => type_step w c | _ => Some c end.
Definition attr_step (p : part) (a : VarAttr) : option VarAttr := match p with StoragePart w => storage_step w a | _ => Some a end.

Definition is_specifier (t : Token) : Prop := exists w, In w specifier_words /\ spells t w.

Lemma specifier_part t : is_specifier t -> exists p, part_of t p.
Proof.
  intros (w & Hw & Ht). unfold specifier_words in Hw. rewrite !in_app_iff in Hw.
  destruct Hw as [H|[H|H]]; [exists (TypePart w)|exists (StoragePart w)|exists NoPart]; [done..|by exists w].
Qed.

Lemma specify_part t p c a : part_of t p -> specify t (c, a) = (c ← counter_step p c ; a ← attr_step p a ; Some (c, a)).
Proof.
  rewrite specify_word. destruct p as [w|w|]; cbn [part_of counter_step attr_step].
  - intros [Hw ->]. unfold specify, type_step.
    edestruct (tests_ok (fun t => existsb (equal t) storage_words) (fun t => existsb (equal t) ignored_words) false false type_words w)
      as [H1 H2]; [vm_compute; reflexivity|done|]. cbv beta in H1, H2. rewrite H1, H2.
    destruct (count_word _ c) as [d|]; [|done]. unfold mbind, option_bind. by destruct (spec_type d).
  - intros [Hw ->]. unfold specify, storage_step.
    edestruct (tests_ok (fun t => existsb (equal t) storage_words) (fun _ => true) true true storage_words w)
      as [H1 _]; [vm_compute; reflexivity|done|]. cbv beta in H1. rewrite H1. cbn. by destruct (storage_clash _).
  - intros (w & Hw & ->). unfold specify.
    edestruct (tests_ok (fun t => existsb (equal t) storage_words) (fun t => existsb (equal t) ignored_words) false true ignored_words w)
      as [H1 H2]; [vm_compute; reflexivity|done|]. cbv beta in H1, H2. by rewrite H1, H2.
Qed.

Lemma counter_swap p q c t u : part_of t p -> part_of u q -> In c counters ->
  (counter_step p c ≫= counter_step q) = (counter_step q c ≫= counter_step p).
Proof.
  destruct p as [v|v|], q as [w|w|]; cbn; try done; try (intros; by destruct (type_step _ c)).
  intros [Hv _] [Hw _] Hc. by apply type_steps.
Qed.
Lemma attr_swap p q a t u : part_of t p -> part_of u q -> (attr_step p a ≫= attr_step q) = (attr_step q a ≫= attr_step p).
Proof.
  destruct p as [v|v|], q as [w|w|]; cbn; try done; try (intros; by destruct (storage_step _ a)).
  intros [Hv _] [Hw _]. by apply storage_steps.
Qed.

Lemma specify_keeps t c a c' a' : is_specifier t -> In c counters -> specify t (c, a) = Some (c', a') -> In c' counters.
Proof.
  intros [p Hp]%specifier_part Hc. rewrite (specify_part _ _ _ _ Hp).
  destruct (counter_step p c) as [d|] eqn:E; [|done]. cbn. destruct (attr_step p a) as [b|]; [|done]. cbn. intros [= <- <-].
  destruct p as [w|w|]; cbn in E; [|by injection E as ->..]. destruct Hp as [Hw _]. by apply (type_steps c w w Hc Hw Hw).
Qed.

Lemma specify_two t u p q c a : part_of t p -> part_of u q ->
  (s ← specify t (c, a) ; specify u s) = (c ← (counter_step p c ≫= counter_step q) ; a ← (attr_step p a ≫= attr_step q) ; Some (c, a)).
Proof.
  intros Hp Hq. rewrite (specify_part t p) by done. destruct (counter_step p c) as [d|]; [|done].
  destruct (attr_step p a) as [x|]; [exact (specify_part u q d x Hq)|cbn; by destruct (counter_step q d)].
Qed.

Lemma specify_swap t u c a : is_specifier t -> is_specifier u -> In c counters ->
  (s ← specify t (c, a) ; specify u s) = (s ← specify u (c, a) ; specify t s).
Proof.
  intros [p Hp]%specifier_part [q Hq]%specifier_part Hc.
  rewrite (specify_two t u p q), (specify_two u t q p) by done. by rewrite (counter_swap p q c t u), (attr_swap p q a t u).
Qed.

Lemma specify_permutes l l' : l ≡ₚ l' -> Forall is_specifier l -> forall c a, In c counters -> specify_all l (c, a) = specify_all l' (c, a).
Proof.
  induction 1 as [|t l l' _ IH|t u l|l l' l'' H1 IH1 H2 IH2]; intros HF c a Hc.
  - done.
  - apply Forall_cons in HF as [Ht HF]. cbn [specify_all]. destruct (specify t (c, a)) as [[c' a']|] eqn:E; [|done]. cbn.
    apply IH; [done|]. by apply (specify_keeps t c a c' a').
  - apply Forall_cons in HF as [Hu [Ht HF]%Forall_cons]. cbn [specify_all].
    pose proof (specify_swap t u c a Ht Hu Hc) as H.
    assert (forall x y, (s ← specify x (c, a) ; s ← specify y s ; specify_all l s) = ((s ← specify x (c, a) ; specify y s) ≫= specify_all l)) as Hb
      by (intros x y; by destruct (specify x (c, a))).
    by rewrite !Hb, H.
  - rewrite IH1 by done. apply IH2; [|done]. by rewrite <- H1.
Qed.

(** Only the text of the tokens matters. *)
Lemma specify_spelled l s : specify_all l s = specify_all (map word_token (map lexeme l)) s.
Proof. revert s. induction l as [|t l IH]; intros s; [done|]. cbn [specify_all map]. rewrite specify_word. destruct (specify _ s); [apply IH|done]. Qed.

Lemma specifiers_spelled l l' : map lexeme l ≡ₚ map lexeme l' -> Forall is_specifier l -> Forall is_specifier l'.
Proof.
  rewrite !Forall_forall. intros Hp Hl t Ht. assert (Hin : lexeme t ∈ map lexeme l) by (rewrite Hp; by apply list_elem_of_fmap_2).
  apply list_elem_of_fmap in Hin as (u & Hu & Hin). destruct (Hl u Hin) as (w & Hw & Hs). exists w. split; [done|]. unfold spells. by rewrite Hu.
Qed.

Lemma typename_check :
  forallb (fun w => match (m ← typename_map ; hashmap_get2 m (str w)) with Some v => negb (v =? 0) | None => false end) specifier_words = true.
Proof. vm_compute. reflexivity. Qed.

Lemma existsb_word t ws : existsb (equal t) ws = existsb (equal (word_token (lexeme t))) ws.
Proof. induction ws as [|w ws IH]; [done|]. cbn [existsb]. by rewrite IH, (equal_word t). Qed.

(** A word of a built-in type starts nothing else. *)
Lemma type_word_plain t : is_specifier t -> existsb (equal t) storage_words = false -> existsb (equal t) ignored_words = false ->
  (exists w, In w type_words /\ spells t w) /\ equal t "_Atomic" = false /\ equal t "_Alignas" = false /\ existsb (equal t) made_words = false.
Proof.
  intros (w & Hw & Hs) E1 E2. assert (H : In w type_words).
  { unfold specifier_words in Hw. rewrite !in_app_iff in Hw.
    assert (forall ws, existsb (equal t) ws = false -> In w ws -> False) as Hno.
    { intros ws He Hin. assert (existsb (equal t) ws = true); [|congruence]. apply existsb_exists. exists w. split; [done|].
      by apply bool_decide_eq_true_2. }
    destruct Hw as [Hw|[Hw|Hw]]; [done|by destruct (Hno _ E1 Hw)|by destruct (Hno _ E2 Hw)]. }
  split; [by exists w|]. rewrite existsb_word, !(equal_word t), Hs.
  edestruct (tests_ok (fun t => equal t "_Atomic") (fun t => equal t "_Alignas") false false type_words w) as [-> ->];
    [vm_compute; reflexivity|done|].
  edestruct (tests_ok (fun t => existsb (equal t) made_words) (fun _ => true) false true type_words w) as [-> _];
    [vm_compute; reflexivity|done|]. done.
Qed.

Section declspec.
Context {P : Parser} {F : SoftFloat} {FF : FoldFloat}.

Lemma keyword_typename t tok n s : fe_toks s !! tok = Some (Build_cell t n) -> is_specifier t -> is_typename tok s = Got (true, s).
Proof.
  intros Ht (w & Hw & Hs). unfold is_typename. m_read. rewrite Hs.
  pose proof typename_check as H. rewrite forallb_forall in H. specialize (H w Hw).
  destruct (m ← typename_map ; hashmap_get2 m (str w)) as [v|]; [|done]. cbn [of_table].
  rewrite (bind_run _ _ _ v s) by done. by rewrite H.
Qed.

Lemma keyword_no_typedef t tok n s : fe_toks s !! tok = Some (Build_cell t n) -> t_kind t <> TK_IDENT -> find_typedef tok s = Got (0, s).
Proof.
  intros Ht Hk. unfold find_typedef, is_tk. m_read. by rewrite bool_decide_eq_false_2.
Qed.

(** One round reads one specifier as [specify] says. *)
Lemma round_run t tok n s c a : fe_toks s !! tok = Some (Build_cell t n) -> is_specifier t -> t_kind t <> TK_IDENT -> In c counters ->
  match specify t (c, a) with
  | Some (c', a') => declspec_round (tok, counted_type c, c, false, Some a) s = Got (inl (n, counted_type c', c', false, Some a'), s)
  | None => exists why, declspec_round (tok, counted_type c, c, false, Some a) s = Fail why
  end.
Proof.
  intros Ht Hw Hk Hc. unfold declspec_round. rewrite (bind_run _ _ _ _ _ (keyword_typename _ _ _ _ Ht Hw)). cbn [negb].
  m_read. cbn [id]. pose proof (specify_keeps t c a) as Hkeep. unfold specify in *.
  destruct (existsb (equal t) storage_words) eqn:E1.
  { destruct (storage_clash _).
    - eexists. unfold err_tok, err_text. by m_read.
    - by m_read. }
  destruct (existsb (equal t) ignored_words) eqn:E2; [by m_read|].
  destruct (type_word_plain t Hw E1 E2) as ((w & Hin & Hlex) & -> & -> & ->).
  rewrite (bind_run _ _ _ _ _ (keyword_no_typedef _ _ _ _ Ht Hk)). cbn [orb negb Z.eqb].
  destruct (count_word t c) as [d|] eqn:Ed; cbn [mbind option_bind].
  - destruct (spec_type d) as [ty|] eqn:Ety; [|eexists; unfold err_tok, err_text; by m_read]. m_read.
    assert (d <> 0).
    { apply (type_steps c w w Hc Hin Hin). unfold type_step. rewrite <- Hlex, <- count_word_word, Ed. cbn. unfold mbind, option_bind. by rewrite Ety. }
    cbn. unfold counted_type. rewrite Ety. by destruct (Z.eqb_spec d 0).
  - by eexists.
Qed.

(** The loop over specifiers up to a token that starts no type. *)
Lemma rounds_run e s : is_typename e s = Got (false, s) ->
  forall l tok c a fuel, segment (fe_toks s) tok l e -> Forall (fun t => is_specifier t /\ t_kind t <> TK_IDENT) l -> In c counters ->
    (length l < fuel)%nat ->
  match specify_all l (c, a) with
  | Some (c', a') => loopM fuel declspec_round (tok, counted_type c, c, false, Some a) s = Got (e, counted_type c', c', false, Some a', s)
  | None => exists why, loopM fuel declspec_round (tok, counted_type c, c, false, Some a) s = Fail why
  end.
Proof.
  intros Hn. induction l as [|t l IH]; intros tok c a fuel Hseg Hl Hc Hf; destruct fuel as [|fuel]; cbn [length] in Hf; try lia.
  - cbn [segment] in Hseg. subst tok. cbn [specify_all]. apply loop_stop. unfold declspec_round.
    rewrite (bind_run _ _ _ _ _ Hn). cbn [negb]. done.
  - cbn [segment] in Hseg. destruct Hseg as (n & Ht & Hseg). apply Forall_cons in Hl as [[Hw Hk] Hl]. cbn [specify_all].
    pose proof (round_run t tok n s c a Ht Hw Hk Hc) as H. destruct (specify t (c, a)) as [[c' a']|] eqn:E.
    + rewrite (loop_next _ _ _ _ _ _ H). apply IH; [done..| |lia]. by apply (specify_keeps t c a c' a').
    + destruct H as [why H]. exists why. by apply loop_fail.
Qed.

Lemma declspec_run s tok l e a : segment (fe_toks s) tok l e -> Forall (fun t => is_specifier t /\ t_kind t <> TK_IDENT) l ->
  is_typename e s = Got (false, s) -> (length l < p_fuel)%nat ->
  match specify_all l (0, a) with
  | Some (c', a') => declspec tok (Some a) s = Got (counted_type c', Some a', e, s)
  | None => exists why, declspec tok (Some a) s = Fail why
  end.
Proof.
  intros Hseg Hl Hn Hf. pose proof (rounds_run e s Hn l tok 0 a p_fuel Hseg Hl (or_introl eq_refl) Hf) as H.
  unfold declspec. change (counted_type 0) with ty_int in H. destruct (specify_all l (0, a)) as [[c' a']|].
  - by rewrite (bind_run _ _ _ _ _ H).
  - destruct H as [why H]. exists why. by apply bind_fail.
Qed.
End declspec.


(** ** Struct layout *)

(** Where the bits of a member are, from the start of the struct; a bit-field of no bits is
    nowhere. *)
Definition bit_start (m : CMember) : Z := cm_offset m * 8 + (if cm_bitfield m then cm_bit_offset m else 0).
Definition bit_count (m : CMember) (size : Z) : Z := if cm_bitfield m then cm_bit_width m else size * 8.
Definition is_placed (m : CMember) : bool := negb (cm_bitfield m && (cm_bit_width m =? 0)).

Definition power_of_2 (a : Z) : Prop := exists k, 0 <= k /\ a = 2 ^ k.

(** A member of a type of [size] bytes. *)
Record member_ok (packed : bool) (m : CMember) (size : Z) : Prop := {
  mo_size : 0 <= size;
  mo_align : power_of_2 (cm_align m);
  mo_field : cm_bitfield m = true -> packed = false /\ 0 < size /\ (size | cm_align m) /\ 0 <= cm_bit_width m <= size * 8;
}.

(** At most so many bits for a member and the gaps before and after it. *)
Definition member_cost (m : CMember) (size : Z) : Z := 16 * size + 16 * cm_align m.

(** The placed member [m']: it differs from [m] in its offsets only; it is aligned, and a
    bit-field lies in one unit of its type. *)
Record member_laid (packed : bool) (m m' : CMember) (size : Z) : Prop := {
  ml_same : m' <| cm_offset := cm_offset m |> <| cm_bit_offset := cm_bit_offset m |> = m;
  ml_aligned : is_placed m = true -> cm_bitfield m = false -> packed = false -> (cm_align m | cm_offset m');
  ml_unit : is_placed m = true -> cm_bitfield m = true ->
    (size | cm_offset m') /\ 0 <= cm_bit_offset m' /\ cm_bit_offset m' + cm_bit_width m' <= size * 8;
}.

(** It comes behind [bits] bits, and [bits'] are behind it. *)
Definition member_behind (bits : Z) (m m' : CMember) (size bits' : Z) : Prop :=
  is_placed m = true -> bits <= bit_start m' /\ bit_start m' + bit_count m' size = bits' /\ 0 <= cm_offset m'.

Lemma align_up_to n a : 0 < a -> 0 <= n + a - 1 -> - 2 ^ 31 <= n -> n + a < 2 ^ 31 ->
  Codegen.align_to n a = (n + a - 1) / a * a /\ n <= Codegen.align_to n a < n + a /\ (a | Codegen.align_to n a).
Proof.
  intros Ha Hn Hl Hb. unfold Codegen.align_to. rewrite (i32_id (n + a)) by (unfold is_i32; lia).
  rewrite (i32_id (n + a - 1)) by (unfold is_i32; lia). rewrite Z.quot_div_nonneg by lia.
  pose proof (Z.div_mod (n + a - 1) a ltac:(lia)). pose proof (Z.mod_pos_bound (n + a - 1) a ltac:(lia)).
  rewrite i32_id by (unfold is_i32; lia). split; [done|]. split; [lia|]. by exists ((n + a - 1) / a).
Qed.

Lemma power_of_2_pos a : power_of_2 a -> 0 < a.
Proof. intros (k & Hk & ->). apply Z.pow_pos_nonneg; lia. Qed.
Lemma power_of_2_divide a b : power_of_2 a -> power_of_2 b -> a <= b -> (a | b).
Proof.
  intros (k & Hk & ->) (l & Hl & ->) Hle. apply Z.pow_le_mono_r_iff in Hle; [|lia..]. exists (2 ^ (l - k)). rewrite <- Z.pow_add_r by lia. f_equal. lia.
Qed.

(** The start of a bit-field is in one unit with its end. *)
Lemma unit_of_field size bits w : 0 < size -> 0 <= bits -> 1 <= w <= size * 8 -> bits / (size * 8) = (bits + w - 1) / (size * 8) ->
  (bits / 8) / size * size * 8 + bits mod (size * 8) = bits /\ bits mod (size * 8) + w <= size * 8.
Proof.
  intros Hs Hb Hw He. rewrite Z.div_div by lia. rewrite (Z.mul_comm 8 size).
  pose proof (Z.div_mod bits (size * 8) ltac:(lia)) as H1. pose proof (Z.mod_pos_bound bits (size * 8) ltac:(lia)).
  pose proof (Z.div_mod (bits + w - 1) (size * 8) ltac:(lia)) as H2. pose proof (Z.mod_pos_bound (bits + w - 1) (size * 8) ltac:(lia)).
  rewrite <- He in H2. split; [nia|lia].
Qed.
Lemma unit_at size bits w : 0 < size -> (size * 8 | bits) -> 1 <= w <= size * 8 -> bits / (size * 8) = (bits + w - 1) / (size * 8).
Proof.
  intros Hs [q ->] Hw. rewrite Z.div_mul by lia. apply (Z.div_unique _ _ _ (w - 1)); lia.
Qed.

(** The new alignment of the struct. *)
Definition align_after (packed : bool) (salign : Z) (m : CMember) : Z := if negb packed && (salign <? cm_align m) then cm_align m else salign.

Lemma place_field bits salign m size : 0 <= bits -> bits + member_cost m size < 2 ^ 31 -> member_ok false m size ->
  cm_bitfield m = true -> cm_bit_width m <> 0 ->
  exists bits' m', place_member false bits salign m size = Some (bits', m', align_after false salign m) /\
    bits <= bits' <= bits + member_cost m size - 8 * cm_align m /\ member_laid false m m' size /\ member_behind bits m m' size bits'.
Proof.
  intros Hb Hc Hok Hf Hw. destruct (mo_field _ _ _ Hok Hf) as (_ & Hs & _ & Hwid). pose proof (power_of_2_pos _ (mo_align _ _ _ Hok)).
  unfold member_cost in *. unfold place_member. rewrite Hf. destruct (Z.eqb_spec (cm_bit_width m) 0) as [|_]; [done|]. cbn [andb].
  rewrite (i32_id (size * 8)) by (unfold is_i32; lia). destruct (Z.eqb_spec (size * 8) 0) as [|_]; [lia|].
  rewrite (i32_id (bits + _)), (i32_id (bits + _ - 1)) by (unfold is_i32; lia). rewrite !Z.quot_div_nonneg by lia.
  set (b1 := if negb (bits / (size * 8) =? (bits + cm_bit_width m - 1) / (size * 8)) then Codegen.align_to bits (size * 8) else bits).
  assert (bits <= b1 < bits + size * 8 /\ b1 / (size * 8) = (b1 + cm_bit_width m - 1) / (size * 8)) as [H1 H2].
  { subst b1. destruct (Z.eqb_spec (bits / (size * 8)) ((bits + cm_bit_width m - 1) / (size * 8))) as [He|He]; cbn [negb]; [lia|].
    destruct (align_up_to bits (size * 8)) as (_ & Hr & Hd); [lia..|]. split; [lia|]. apply unit_at; [done..|lia]. }
  match goal with |- context [mbind _ (if ?c then ?x else ?y)] => replace (if c then x else y) with (Some b1)
    by (subst b1; case_match; [|done]; by destruct (Z.eqb_spec (size * 8) 0)) end.
  cbn [mbind option_bind]. destruct (Z.eqb_spec size 0) as [|_]; [lia|]. cbn [mbind option_bind].
  rewrite Z.quot_div_nonneg, Z.rem_mod_nonneg by lia.
  assert (0 <= b1 / 8 <= b1) by (split; [apply Z.div_pos; lia|apply Z.div_le_upper_bound; lia]).
  rewrite (i32_id (b1 / 8 - size)), (i32_id (b1 / 8 - size + 1)), (i32_id (b1 + _)) by (unfold is_i32; lia).
  destruct (align_up_to (b1 / 8 - size + 1) size) as (-> & _ & _); [lia..|].
  replace (b1 / 8 - size + 1 + size - 1) with (b1 / 8) by lia.
  destruct (unit_of_field size b1 (cm_bit_width m)) as [H3 H4]; [lia..|].
  eexists _, _. split; [reflexivity|]. split; [lia|].
  assert (0 <= b1 / 8 / size) by (apply Z.div_pos; lia).
  split; [split|]; unfold member_behind, is_placed, bit_start, bit_count; destruct m; cbn in *; subst; cbn; [done..| |].
  - intros _ _. split; [by eexists|]. split; [apply Z.mod_pos_bound; lia|lia].
  - intros _. split; [lia|]. split; [lia|nia].
Qed.

Lemma place_plain packed bits salign m size : 0 <= bits -> bits + member_cost m size < 2 ^ 31 -> member_ok packed m size ->
  (packed = true -> (8 | bits)) -> cm_bitfield m = false ->
  exists bits' m', place_member packed bits salign m size = Some (bits', m', align_after packed salign m) /\
    bits <= bits' <= bits + member_cost m size - 8 * cm_align m /\ (packed = true -> (8 | bits')) /\ member_laid packed m m' size /\ member_behind bits m m' size bits'.
Proof.
  intros Hb Hc Hok Hp Hf. pose proof (mo_size _ _ _ Hok). pose proof (power_of_2_pos _ (mo_align _ _ _ Hok)).
  unfold member_cost in *. unfold place_member. rewrite Hf. cbn [andb].
  rewrite (i32_id (size * 8)), (i32_id (cm_align m * 8)) by (unfold is_i32; lia).
  destruct (Z.eqb_spec (cm_align m * 8) 0) as [|_]; [lia|].
  set (b1 := if packed then bits else Codegen.align_to bits (cm_align m * 8)).
  assert (bits <= b1 < bits + cm_align m * 8 /\ (8 | b1) /\ (packed = false -> (cm_align m * 8 | b1))) as (H1 & [q H2] & H3).
  { subst b1. destruct packed; [split; [lia|]; by split; [apply Hp|]|].
    destruct (align_up_to bits (cm_align m * 8)) as (_ & Hr & Hd); [lia..|]. split; [lia|]. split; [|done].
    eapply Z.divide_trans; [|exact Hd]. by exists (cm_align m). }
  replace (if packed then Some bits else Some (Codegen.align_to bits (cm_align m * 8))) with (Some b1) by (subst b1; by destruct packed).
  cbn [mbind option_bind]. rewrite Z.quot_div_nonneg by lia. rewrite (i32_id (b1 + _)) by (unfold is_i32; lia).
  assert (Hq : b1 / 8 = q) by (rewrite H2; by apply Z.div_mul). rewrite Hq.
  eexists _, _. split; [reflexivity|]. split; [lia|]. split; [intros _; exists (q + size); lia|].
  split; [split|]; unfold member_behind, is_placed, bit_start, bit_count; destruct m; cbn in *; subst; cbn; try done.
  - intros _ _ Hpk. destruct (H3 Hpk) as [r Hr]. exists r. lia.
  - intros _. lia.
Qed.

Lemma place_nothing bits salign m size : 0 <= bits -> bits + member_cost m size < 2 ^ 31 -> member_ok false m size ->
  cm_bitfield m = true -> cm_bit_width m = 0 ->
  exists bits' m', place_member false bits salign m size = Some (bits', m', align_after false salign m) /\
    bits <= bits' <= bits + member_cost m size - 8 * cm_align m /\ member_laid false m m' size /\ member_behind bits m m' size bits'.
Proof.
  intros Hb Hc Hok Hf Hw. destruct (mo_field _ _ _ Hok Hf) as (_ & Hs & _ & _). pose proof (power_of_2_pos _ (mo_align _ _ _ Hok)).
  unfold member_cost in *. unfold place_member. rewrite Hf, Hw. cbn [andb Z.eqb].
  rewrite (i32_id (size * 8)) by (unfold is_i32; lia). destruct (Z.eqb_spec (size * 8) 0) as [|_]; [lia|]. cbn [mbind option_bind].
  destruct (align_up_to bits (size * 8)) as (_ & Hr & _); [lia..|].
  eexists _, _. split; [reflexivity|]. split; [lia|].
  split; [split|]; unfold member_behind, is_placed; rewrite ?Hf, ?Hw; [by destruct m|done..].
Qed.

Lemma place_member_run packed bits salign m size : 0 <= bits -> bits + member_cost m size < 2 ^ 31 -> member_ok packed m size ->
  (packed = true -> (8 | bits)) ->
  exists bits' m', place_member packed bits salign m size = Some (bits', m', align_after packed salign m) /\
    bits <= bits' <= bits + member_cost m size - 8 * cm_align m /\ (packed = true -> (8 | bits')) /\ member_laid packed m m' size /\ member_behind bits m m' size bits'.
Proof.
  intros Hb Hc Hok Hp. destruct (cm_bitfield m) eqn:Hf; [|by apply place_plain].
  destruct (mo_field _ _ _ Hok Hf) as [-> _].
  destruct (Z.eq_dec (cm_bit_width m) 0) as [Hw|Hw];
    [destruct (place_nothing bits salign m size) as (b & m' & H1 & H2 & H3)|destruct (place_field bits salign m size) as (b & m' & H1 & H2 & H3)];
    try done; by exists b, m'.
Qed.

(** All members of a struct: what [layout_struct] computes, without the stores. *)
Fixpoint place_all (packed : bool) (bits salign : Z) (ms : list (CMember * Z)) : option (Z * list CMember * Z) :=
  match ms with
  | [] => Some (bits, [], salign)
  | (m, size) :: ms =>
      '(bits, m, salign) ← place_member packed bits salign m size ;
      '(bits, ms, salign) ← place_all packed bits salign ms ; Some (bits, m :: ms, salign)
  end.

(** The members lie one behind the other between the bits [lo] and [hi]. *)
Fixpoint in_order (lo hi : Z) (ms : list CMember) (sizes : list Z) : Prop :=
  match ms, sizes with
  | m :: ms, size :: sizes =>
      if is_placed m then lo <= bit_start m /\ in_order (bit_start m + bit_count m size) hi ms sizes else in_order lo hi ms sizes
  | _, _ => lo <= hi
  end.

Lemma in_order_weaken lo lo' hi ms sizes : lo <= lo' -> in_order lo' hi ms sizes -> in_order lo hi ms sizes.
Proof.
  revert lo lo' sizes. induction ms as [|m ms IH]; intros lo lo' sizes Hle; [cbn; lia|]. destruct sizes as [|size sizes]; cbn; [lia|].
  destruct (is_placed m); [intros [H1 H2]; split; [lia|done]|by apply IH].
Qed.

Lemma align_after_ok packed salign m : power_of_2 salign -> power_of_2 (cm_align m) ->
  power_of_2 (align_after packed salign m) /\ (salign | align_after packed salign m) /\
  (packed = false -> (cm_align m | align_after packed salign m)) /\ salign <= align_after packed salign m <= salign + cm_align m.
Proof.
  intros Hs Hm. pose proof (power_of_2_pos _ Hs). pose proof (power_of_2_pos _ Hm). unfold align_after.
  destruct packed; cbn [negb andb]; [split; [done|]; split; [apply Z.divide_refl|]; split; [done|lia]|].
  destruct (Z.ltb_spec salign (cm_align m)) as [Hl|Hl]; (split; [done|]; split; [|split; [intros _|lia]]);
    first [apply Z.divide_refl | apply power_of_2_divide; (done || lia)].
Qed.

Definition total_cost (ms : list (CMember * Z)) : Z := fold_right (fun x n => member_cost x.1 x.2 + n) 0 ms.

Lemma in_order_le lo hi ms sizes : in_order lo hi ms sizes -> Forall (fun z => 0 <= z) (zip_with bit_count ms sizes) -> lo <= hi.
Proof.
  revert lo sizes. induction ms as [|m ms IH]; intros lo [|size sizes]; cbn; try done. intros H [Hc HF]%Forall_cons.
  destruct (is_placed m); [destruct H as [H1 H2]; pose proof (IH _ _ H2 HF); lia|by apply (IH _ sizes)].
Qed.

Lemma in_order_end lo hi hi' ms sizes : hi <= hi' -> in_order lo hi ms sizes -> in_order lo hi' ms sizes.
Proof.
  intros Hle. revert lo sizes. induction ms as [|m ms IH]; intros lo sizes; [cbn; lia|]. destruct sizes as [|size sizes]; cbn; [lia|].
  destruct (is_placed m); [intros [H1 H2]; split; [done|by apply IH]|apply IH].
Qed.

Lemma laid_placed packed m m' size : member_laid packed m m' size -> is_placed m' = is_placed m /\ bit_count m' size = bit_count m size.
Proof. intros [H _ _]. rewrite <- H. by destruct m'. Qed.

Lemma place_all_run packed ms : forall bits salign, 0 <= bits -> power_of_2 salign ->
  bits + total_cost ms < 2 ^ 31 -> Forall (fun x => member_ok packed x.1 x.2) ms -> (packed = true -> (8 | bits)) ->
  exists bits' ms' salign', place_all packed bits salign ms = Some (bits', ms', salign') /\
    bits <= bits' /\ bits' + 8 * salign' <= bits + 8 * salign + total_cost ms /\ power_of_2 salign' /\ (salign | salign') /\
    (packed = false -> Forall (fun x => (cm_align x.1 | salign')) ms) /\
    Forall2 (fun x m' => member_laid packed x.1 m' x.2) ms ms' /\ in_order bits bits' ms' (map snd ms).
Proof.
  induction ms as [|[m size] ms IH]; intros bits salign Hb Hs Hc HF Hp; cbn [place_all total_cost fold_right map snd fst] in *.
  { exists bits, [], salign. split; [done|]. split; [lia|]. split; [lia|]. split; [done|]. split; [apply Z.divide_refl|]. by repeat split; cbn. }
  apply Forall_cons in HF as [Hok HF]. cbn in Hok. fold (total_cost ms) in *.
  unfold member_cost in Hc. pose proof (mo_size _ _ _ Hok). pose proof (power_of_2_pos _ (mo_align _ _ _ Hok)).
  assert (0 <= total_cost ms) as Ht.
  { clear -HF. induction HF as [|x l Hx HF IH]; [done|].
    change (0 <= member_cost x.1 x.2 + total_cost l). destruct Hx as [H1 H2%power_of_2_pos _]. unfold member_cost. lia. }
  destruct (place_member_run packed bits salign m size) as (b & m' & -> & Hr & Hp' & Hlaid & Hbeh); [done|unfold member_cost; lia|done..|].
  cbn [mbind option_bind]. unfold member_cost in *.
  destruct (align_after_ok packed salign m Hs (mo_align _ _ _ Hok)) as (Ha1 & Ha2 & Ha3 & Ha4).
  destruct (IH b (align_after packed salign m)) as (b2 & ms' & s2 & -> & H1 & H2 & H3 & H4 & H5 & H6 & H7); [lia|done|lia|done..|].
  exists b2, (m' :: ms'), s2. split; [done|]. split; [lia|].
  split; [lia|]. split; [done|]. split; [by eapply Z.divide_trans|].
  split; [|split; [by constructor|]].
  - intros Hpk. constructor; [cbn; eapply Z.divide_trans; [by apply Ha3|done]|by apply H5].
  - destruct (laid_placed _ _ _ _ Hlaid) as [E _]. cbn [in_order]. rewrite E. unfold member_behind in Hbeh.
    destruct (is_placed m); [destruct (Hbeh eq_refl) as (? & -> & _); by split|eapply in_order_weaken; [|exact H7]; lia].
Qed.

Section layout.
Context {P : Parser}.

(** The members from the address [a] on: their addresses, and what [layout_struct] of the
    type [ty] needs of the stores. *)
Fixpoint member_chain (s : fe) (ty a : Z) (mems : list Z) (ms : list (CMember * Z)) : Prop :=
  match mems, ms with
  | [], [] => a = 0
  | mem :: mems, (m, size) :: ms =>
      a = mem /\ mem <> 0 /\ fe_mems s !! mem = Some m /\ cm_ty m <> ty /\ (exists t, fe_types s !! cm_ty m = Some t /\ ct_size t = size) /\
      member_chain s ty (cm_next m) mems ms
  | _, _ => False
  end.

Lemma chain_run s ty mems : forall a ms seen fuel, member_chain s ty a mems ms -> (length mems < fuel)%nat ->
  loopM fuel (fun '(seen, x) => if x =? 0 then mret (inr (rev seen)) else n ← rm cm_next x ; mret (inl (x :: seen, n))) (seen, a) s =
  Got (rev seen ++ mems, s).
Proof.
  induction mems as [|mem mems IH]; intros a [|[m size] ms] seen fuel H Hf; cbn [member_chain] in H; try done; destruct fuel as [|fuel]; cbn in Hf; try lia.
  - subst a. apply loop_stop. cbn [Z.eqb]. by rewrite app_nil_r.
  - destruct H as (-> & Hn & Hm & _ & _ & H). rewrite (loop_next _ _ _ (mem :: seen, cm_next m) s s).
    + rewrite (IH _ ms) by (done || lia). cbn [rev]. by rewrite <- app_assoc.
    + destruct (Z.eqb_spec mem 0) as [|_]; [done|]. by m_read.
Qed.

(** The state with other members and types. *)
Definition with_stores (s : fe) (ms : gmap Z CMember) (ts : gmap Z CType) : fe := s <| fe_mems := ms |> <| fe_types := ts |>.

Lemma with_stores_id s : with_stores s (fe_mems s) (fe_types s) = s.
Proof. by destruct s. Qed.

(** Other members and the type [ty] do not matter to the chain. *)
Lemma member_chain_frame s ty a mems ms ms2 ts2 : member_chain s ty a mems ms ->
  (forall mem, In mem mems -> ms2 !! mem = fe_mems s !! mem) -> (forall x, x <> ty -> ts2 !! x = fe_types s !! x) ->
  member_chain (with_stores s ms2 ts2) ty a mems ms.
Proof.
  intros H Hm Ht. revert a ms H Hm. induction mems as [|x mems IH]; intros a [|[y size] ms] H Hm; cbn [member_chain] in *; try done.
  destruct H as (-> & H1 & H2 & H3 & (u & H4 & H5) & H6). split; [done|]. split; [done|].
  split; [cbn; rewrite Hm; [done|by left]|]. split; [done|].
  split; [exists u; split; [cbn; by rewrite Ht|done]|]. apply IH; [done|]. intros. apply Hm. by right.
Qed.

Lemma place_in_run s ty t mem m size bits bits' m' salign :
  fe_types s !! ty = Some t -> fe_mems s !! mem = Some m -> (exists u, fe_types s !! cm_ty m = Some u /\ ct_size u = size) ->
  place_member (ct_packed t) bits (ct_align t) m size = Some (bits', m', salign) ->
  place_in ty bits mem s = Got (bits', with_stores s (<[mem := m']> (fe_mems s)) (<[ty := t <| ct_align := salign |>]> (fe_types s))).
Proof.
  intros Ht Hm (u & Hu & Hs) Hp. unfold place_in. m_read. cbn [id]. m_read. cbn [id]. m_read. rewrite Hs, Hp.
  m_read. cbv iota. m_read.
  erewrite bind_run by (eapply wt_run; cbn; exact Ht). reflexivity.
Qed.

Lemma place_members_run ty mems : forall s a ms t bits bits' ms' salign, member_chain s ty a mems ms -> NoDup mems ->
  fe_types s !! ty = Some t -> place_all (ct_packed t) bits (ct_align t) ms = Some (bits', ms', salign) ->
  foldM (place_in ty) bits mems s =
  Got (bits', with_stores s (list_to_map (zip mems ms') ∪ fe_mems s) (<[ty := t <| ct_align := salign |>]> (fe_types s))).
Proof.
  induction mems as [|mem mems IH]; intros s a [|[m size] ms] t bits bits' ms' salign Hch Hnd Ht Hp; cbn [member_chain place_all foldM] in *; try done.
  - injection Hp as <- <- <-. rewrite ret_run. do 2 f_equal. rewrite insert_id by (rewrite Ht; by destruct t).
    etransitivity; [symmetry; apply with_stores_id|]. f_equal. symmetry. apply (left_id_L ∅ (∪)).
  - destruct Hch as (-> & Hn & Hm & Hne & Hty & Hch). apply NoDup_cons in Hnd as [Hni Hnd].
    destruct (place_member _ _ _ m size) as [[[b m'] al]|] eqn:E; [|done]. cbn [mbind option_bind] in Hp.
    destruct (place_all _ b al ms) as [[[b2 ms2] al2]|] eqn:E2; [|done]. injection Hp as <- <- <-.
    rewrite (bind_run _ _ _ _ _ (place_in_run s ty t mem m size bits b m' al Ht Hm Hty E)).
    rewrite (IH _ (cm_next m) ms (t <| ct_align := al |>) b b2 ms2 al2); [|apply member_chain_frame; [done|..]|done|by apply lookup_insert_eq|done].
    2: { intros x Hx. apply lookup_insert_ne. intros ->. apply Hni. by apply list_elem_of_In. }
    2: { intros x Hx. by apply lookup_insert_ne. }
    do 2 f_equal. unfold with_stores. cbn -[union list_to_map zip insert].
    change (with_stores s (list_to_map (zip mems ms2) ∪ <[mem := m']> (fe_mems s)) (<[ty := t <| ct_align := al2 |>]> (<[ty := t <| ct_align := al |>]> (fe_types s))) =
            with_stores s (list_to_map ((mem, m') :: zip mems ms2) ∪ fe_mems s) (<[ty := t <| ct_align := al2 |>]> (fe_types s))).
    rewrite insert_insert_eq. f_equal.
    change (list_to_map (zip mems ms2) ∪ <[mem := m']> (fe_mems s) = <[mem := m']> (list_to_map (zip mems ms2)) ∪ fe_mems s).
    rewrite <- insert_union_l, insert_union_r; [done|]. apply not_elem_of_list_to_map. intros Hin. apply Hni.
    apply list_elem_of_fmap in Hin as ([x y] & -> & Hin). by apply elem_of_zip_l in Hin.
Qed.

Lemma struct_size_run bits salign : 0 <= bits -> 0 < salign -> bits + 8 * salign < 2 ^ 31 ->
  exists size, struct_size bits salign = Some size /\ bits <= 8 * size /\ (salign | size).
Proof.
  intros Hb Ha Hs. unfold struct_size. rewrite (i32_id (salign * 8)) by (unfold is_i32; lia). destruct (Z.eqb_spec (salign * 8) 0) as [|_]; [lia|].
  destruct (align_up_to bits (salign * 8)) as (_ & Hr & [q Hq]); [lia..|]. eexists. split; [reflexivity|].
  rewrite Hq. rewrite Z.quot_div_nonneg by lia. replace (q * (salign * 8)) with (q * salign * 8) by lia. rewrite Z.div_mul by lia.
  split; [lia|by exists q].
Qed.

(** What the compiler relies on of a struct: its members lie apart and in order, all of each,
    and the unit that a bit-field is in, is inside it. *)
Definition member_inside (m' : CMember) (size ssize : Z) : Prop := is_placed m' = true -> 0 <= cm_offset m' /\ cm_offset m' + size <= ssize.

Lemma counts_nonneg packed ms ms' : Forall2 (fun x m' => member_laid packed x.1 m' x.2) ms ms' -> Forall (fun x => member_ok packed x.1 x.2) ms ->
  Forall (fun z => 0 <= z) (zip_with bit_count ms' (map snd ms)).
Proof.
  induction 1 as [|[m size] m' ms ms' Hl HF IH]; [done|]. intros [Hok HFo]%Forall_cons. cbn in *. constructor; [|by apply IH].
  destruct (laid_placed _ _ _ _ Hl) as [_ ->]. unfold bit_count. pose proof (mo_size _ _ _ Hok).
  destruct (cm_bitfield m) eqn:E; [|lia]. by apply (mo_field _ _ _ Hok).
Qed.

Lemma laid_inside packed ssize align ms ms' : Forall2 (fun x m' => member_laid packed x.1 m' x.2) ms ms' ->
  forall lo, Forall (fun x => member_ok packed x.1 x.2) ms -> 0 <= lo -> in_order lo (8 * ssize) ms' (map snd ms) ->
  (align | ssize) -> (packed = false -> Forall (fun x => (cm_align x.1 | align)) ms) ->
  Forall2 (fun x m' => member_inside m' x.2 ssize) ms ms'.
Proof.
  intros HF. induction HF as [|[m size] m' ms ms' Hl HF IH]; intros lo Hok Hlo Hin Hd Ha; [constructor|].
  pose proof (counts_nonneg packed _ _ HF) as Hc. apply Forall_cons in Hok as [Hok HFo]. cbn [map snd fst in_order] in *.
  assert (Ha' : packed = false -> (cm_align m | align) /\ Forall (fun x => (cm_align x.1 | align)) ms).
  { intros Hp. by specialize (Ha Hp) as [? ?]%Forall_cons. }
  destruct (laid_placed _ _ _ _ Hl) as [Ep Ec]. unfold member_inside. cbn. rewrite Ep in *.
  destruct (is_placed m) eqn:E.
  - destruct Hin as [H1 H2]. pose proof (in_order_le _ _ _ _ H2 (Hc HFo)) as H3.
    constructor; cbn; [intros _|].
    + rewrite Ec in H3. pose proof (mo_size _ _ _ Hok). destruct Hl as [Hs _ Hu]. unfold bit_start, bit_count in *.
      assert (Ef : cm_bitfield m' = cm_bitfield m) by (rewrite <- Hs; by destruct m').
      destruct (cm_bitfield m) eqn:Efm; rewrite Ef in *; [|lia].
      destruct (mo_field _ _ _ Hok Efm) as (Hp & Hpos & Hsa & Hw). destruct (Hu E eq_refl) as ([q Hq] & Hb0 & Hb1).
      assert (cm_bit_width m <> 0) by (unfold is_placed in E; rewrite Efm in E; cbn in E; lia).
      assert (cm_bit_width m' = cm_bit_width m) by (rewrite <- Hs; by destruct m').
      destruct (Ha' Hp) as [Hma _]. destruct (Z.divide_trans _ _ _ Hsa (Z.divide_trans _ _ _ Hma Hd)) as [r Hr].
      assert (q < r) by nia. assert (0 <= q) by nia. nia.
    + apply (IH (bit_start m' + bit_count m' size)); try done; [|by intros; apply Ha'].
      assert (0 <= bit_count m' size); [|lia]. rewrite Ec. unfold bit_count. pose proof (mo_size _ _ _ Hok).
      destruct (cm_bitfield m) eqn:Efm; [|lia]. by apply (mo_field _ _ _ Hok).
  - constructor; cbn; [congruence|]. apply (IH lo); try done. by intros; apply Ha'.
Qed.

End layout.

(** ** Scopes *)

(** What the tables of a scope stand for: its variables and typedefs, and its tags. *)
Definition env : Type := gmap (list Z) Z * gmap (list Z) Z.

Record scope_ok (sc : Scope) (e : env) : Prop := {
  so_vars : represents (sc_vars sc) e.1;
  so_tags : represents (sc_tags sc) e.2;
  so_kept : no_tombstones (hm_buckets (sc_vars sc)) /\ no_tombstones (hm_buckets (sc_tags sc));
}.

(** The scopes from [a] on, the innermost first, at addresses below [hi]. *)
Fixpoint scopes_at (m : gmap Z Scope) (hi a : Z) (envs : list env) : Prop :=
  match envs with
  | [] => a = 0
  | e :: envs => 0 < a < hi /\ exists sc, m !! a = Some sc /\ scope_ok sc e /\ scopes_at m a (sc_next sc) envs
  end.

(** The specification: the innermost scope that has the name; 0 stands for none. *)
Fixpoint innermost (tables : list (gmap (list Z) Z)) (key : list Z) : Z :=
  match tables with
  | [] => 0
  | t :: tables => let v := default 0 (t !! key) in if v =? 0 then innermost tables key else v
  end.

Section scopes.
Context {P : Parser}.

Lemma scopes_frame m m' hi a envs : (forall x, x < hi -> m' !! x = m !! x) -> scopes_at m hi a envs -> scopes_at m' hi a envs.
Proof.
  revert hi a. induction envs as [|e envs IH]; intros hi a Hm; [done|]. intros (Ha & sc & H & Hok & Hs). split; [done|]. exists sc.
  split; [rewrite Hm; [done|lia]|]. split; [done|]. apply IH; [|done]. intros x Hx. apply Hm. lia.
Qed.

Lemma rs_run {A} (f : Scope -> A) a sc s : fe_scopes s !! a = Some sc -> rs f a s = Got (f sc, s).
Proof. intros H. unfold rs, gets, found, mbind, M_bind. by rewrite H. Qed.

(** [f] is the table of the variables or of the tags, [p] what it stands for. *)
Lemma find_run (f : Scope -> HashMap) (p : env -> gmap (list Z) Z) key s : (forall sc e, scope_ok sc e -> represents (f sc) (p e)) ->
  forall envs hi, scopes_at (fe_scopes s) hi (scope s) envs -> (length envs < p_fuel)%nat ->
  find_scoped f key s = Got (innermost (map p envs) key, s).
Proof.
  intros Hf envs hi Hs Hl. unfold find_scoped. rewrite (bind_run _ _ s (scope s) s) by done.
  revert hi Hs Hl. generalize (scope s) as a. generalize p_fuel as fuel.
  intros fuel a hi. revert fuel a hi. induction envs as [|e envs IH]; intros [|fuel] a hi Hs Hl; cbn [length] in Hl; try lia.
  - cbn in Hs. subst a. by apply loop_stop.
  - destruct Hs as (Ha & sc & Hsc & Hok & Hs). cbn [map innermost]. set (v := default 0 (p e !! key)).
    assert (Ev : hashmap_get2 (f sc) key = Some v) by (apply get_run; by apply Hf).
    assert (Eb : forall k, (m ← rs f a ; v ← lift (of_table (hashmap_get2 m key)) ; k v) s = (k v : M (Z + Z)) s).
    { intros k. rewrite (bind_run _ _ _ _ _ (rs_run f a sc s Hsc)), Ev. done. }
    destruct (Z.eqb_spec v 0) as [E0|E0].
    + rewrite (loop_next _ _ _ (sc_next sc) s s); [by apply (IH _ _ a); [|lia]|]. destruct (Z.eqb_spec a 0) as [|_]; [lia|]. rewrite Eb.
      rewrite E0. cbn [Z.eqb negb]. by rewrite (bind_run _ _ _ _ _ (rs_run sc_next a sc s Hsc)).
    + apply loop_stop. destruct (Z.eqb_spec a 0) as [|_]; [lia|]. rewrite Eb. by destruct (Z.eqb_spec v 0).
Qed.

Lemma put_scope_run m hi a sc sc' e e' envs : scopes_at m hi a (e :: envs) -> m !! a = Some sc -> scope_ok sc' e' -> sc_next sc' = sc_next sc ->
  scopes_at (<[a := sc']> m) hi a (e' :: envs).
Proof.
  intros (Ha & sc0 & Hsc & _ & Hs) Hsc' Hok Hn. rewrite Hsc' in Hsc. injection Hsc as <-. split; [done|]. exists sc'. split; [apply lookup_insert_eq|].
  split; [done|]. rewrite Hn. eapply scopes_frame; [|exact Hs]. intros x Hx. apply lookup_insert_ne. lia.
Qed.

Lemma enter_run s envs : scopes_at (fe_scopes s) (fe_next s) (scope s) envs -> 0 < fe_next s ->
  exists s', enter_scope s = Got (tt, s') /\ scopes_at (fe_scopes s') (fe_next s') (scope s') ((∅, ∅) :: envs).
Proof.
  intros Hs Hn. eexists. split; [reflexivity|]. cbn. split; [lia|]. eexists. split; [apply lookup_insert_eq|].
  split; [split; [by left..|by split; intros j v]|]. cbn. eapply scopes_frame; [|exact Hs]. intros x Hx. apply lookup_insert_ne. lia.
Qed.

Lemma leave_run s e envs : scopes_at (fe_scopes s) (fe_next s) (scope s) (e :: envs) ->
  exists s', leave_scope s = Got (tt, s') /\ scopes_at (fe_scopes s') (fe_next s') (scope s') envs.
Proof.
  intros (Ha & sc & Hsc & _ & Hs). unfold leave_scope. rewrite (bind_run _ _ s (scope s) s) by done.
  rewrite (bind_run _ _ _ _ _ (rs_run sc_next _ sc s Hsc)). eexists. split; [reflexivity|]. cbn.
  revert Hs. generalize (sc_next sc). clear -Ha. destruct envs as [|e envs]; [done|]. intros a (Ha2 & H). split; [lia|exact H].
Qed.

(** The current scope's tables have room. *)
Definition scope_room (s : fe) : Prop :=
  forall sc, fe_scopes s !! scope s = Some sc -> hm_capacity (sc_vars sc) <= 2 ^ 23 /\ hm_capacity (sc_tags sc) <= 2 ^ 23.

Lemma push_run s name V T envs : scopes_at (fe_scopes s) (fe_next s) (scope s) ((V, T) :: envs) -> scope_room s ->
  exists v s', push_scope name s = Got (v, s') /\ v = fe_next s /\ fe_vscopes s' = <[v := varscope0]> (fe_vscopes s) /\
    scopes_at (fe_scopes s') (fe_next s') (scope s') ((<[name := v]> V, T) :: envs).
Proof.
  intros Hs Hr. pose proof Hs as (Ha & sc & Hsc & [HV HT [N1 N2]] & _). destruct (Hr sc Hsc) as [Hc _]. cbn in HV, HT.
  destruct (hashmap_put_run (sc_vars sc) V name (fe_next s) HV Hc (or_intror N1)) as (m' & E & HV' & _ & N1').
  exists (fe_next s). unfold push_scope. erewrite bind_run by reflexivity. erewrite bind_run by reflexivity.
  erewrite bind_run by (eapply rs_run; exact Hsc). rewrite E. m_read.
  erewrite bind_run by (unfold ws; erewrite bind_run by (eapply rs_run; exact Hsc); reflexivity).
  eexists. split; [reflexivity|]. split; [done|]. split; [done|]. cbn.
  eapply put_scope_run; [|exact Hsc| |].
  - instantiate (1 := (V, T)). destruct Hs as [H1 H2]. split; [lia|exact H2].
  - split; cbn; [done|done|split; [by apply N1'|done]].
  - by destruct sc.
Qed.

Lemma push_tag_run s tok t nt ty V T envs : scopes_at (fe_scopes s) (fe_next s) (scope s) ((V, T) :: envs) -> scope_room s ->
  fe_toks s !! tok = Some (Build_cell t nt) ->
  exists s', push_tag_scope tok ty s = Got (tt, s') /\
    scopes_at (fe_scopes s') (fe_next s') (scope s') ((V, <[lexeme t := ty]> T) :: envs).
Proof.
  intros Hs Hr Ht. pose proof Hs as (Ha & sc & Hsc & [HV HT [N1 N2]] & _). destruct (Hr sc Hsc) as [_ Hc]. cbn in HV, HT.
  destruct (hashmap_put_run (sc_tags sc) T (lexeme t) ty HT Hc (or_intror N2)) as (m' & E & HT' & _ & N2').
  unfold push_tag_scope. m_read. erewrite bind_run by reflexivity.
  erewrite bind_run by (eapply rs_run; exact Hsc). rewrite E. m_read.
  unfold ws. erewrite bind_run by (eapply rs_run; exact Hsc).
  eexists. split; [reflexivity|]. cbn. eapply put_scope_run; [exact Hs|exact Hsc| |by destruct sc].
  split; cbn; [done|done|split; [done|by apply N2']].
Qed.

(** C8: The scopes of the parser refine a stack of finite maps: an identifier and a tag are
    looked up to what the innermost scope that has the name says; [enter_scope] opens an empty
    scope, [push_scope] and [push_tag_scope] put a name into the innermost one, where it hides
    what it meant outside, and [leave_scope] drops that scope, and the names mean again what
    they did before. *)
Theorem scopes_refine_stack s tok t nt envs : scopes_at (fe_scopes s) (fe_next s) (scope s) envs -> 0 < fe_next s ->
  fe_toks s !! tok = Some (Build_cell t nt) -> (length envs < p_fuel)%nat ->
  find_var tok s = Got (innermost (map fst envs) (lexeme t), s) /\
  find_tag tok s = Got (innermost (map snd envs) (lexeme t), s) /\
  (exists s', enter_scope s = Got (tt, s') /\ scopes_at (fe_scopes s') (fe_next s') (scope s') ((∅, ∅) :: envs)) /\
  (forall V T outer, envs = (V, T) :: outer ->
    (exists s', leave_scope s = Got (tt, s') /\ scopes_at (fe_scopes s') (fe_next s') (scope s') outer) /\
    (scope_room s ->
      (forall name, exists v s', push_scope name s = Got (v, s') /\ v = fe_next s /\ fe_vscopes s' = <[v := varscope0]> (fe_vscopes s) /\
        scopes_at (fe_scopes s') (fe_next s') (scope s') ((<[name := v]> V, T) :: outer)) /\
      (forall ty, exists s', push_tag_scope tok ty s = Got (tt, s') /\
        scopes_at (fe_scopes s') (fe_next s') (scope s') ((V, <[lexeme t := ty]> T) :: outer)))).
Proof.
  intros Hs Hn Ht Hl. split; [|split; [|split]].
  - unfold find_var. m_read. eapply find_run; [|exact Hs|exact Hl]. by intros sc e [H _ _].
  - unfold find_tag. m_read. eapply find_run; [|exact Hs|exact Hl]. by intros sc e [_ H _].
  - by apply enter_run.
  - intros V T outer ->. split; [by eapply leave_run|]. intros Hr. split; [intros name; by apply push_run|intros ty; by eapply push_tag_run].
Qed.
End scopes.

(** ** Usual arithmetic conversions *)

(** An arithmetic type of C: a floating type with its rank, or an integer type of a size in
    bytes and a sign.  [long] is [int] here but for its name. *)
Inductive arith := Floating (rank : Z) | Integer (size : Z) (is_unsigned : bool).

Definition arith_of (t : CType) : arith :=
  match ct_kind t with
  | TY_FLOAT => Floating 1 | TY_DOUBLE => Floating 2 | TY_LDOUBLE => Floating 3
  | TY_BOOL => Integer (ct_size t) true
  | _ => Integer (ct_size t) (ct_unsigned t)
  end.

(** The integer promotions and the usual arithmetic conversions of the standard (C11 6.3.1.8):
    a floating type wins, by rank; small integers become [int]; of two integer types the
    larger one is taken, and an unsigned one of the same size. *)
Definition promoted (a : arith) : arith := match a with Integer size u => if size <? 4 then Integer 4 false else a | _ => a end.
Definition usual_arithmetic (a b : arith) : arith :=
  match promoted a, promoted b with
  | Floating r, Floating q => Floating (Z.max r q)
  | Floating r, _ | _, Floating r => Floating r
  | Integer m u, Integer n v => if m <? n then Integer n v else if n <? m then Integer m u else Integer m (u || v)
  end.

#[export] Instance arith_eq_dec : EqDecision arith.
Proof. solve_decision. Defined.

(** A type of numbers as the front end makes them: the kind bounds the size; a [long] has
    four or eight bytes, an enumeration four. *)
Definition arithmetic (t : CType) : bool :=
  (ct_base t =? 0) &&
  match ct_kind t with
  | TY_BOOL | TY_CHAR => ct_size t =? 1
  | TY_SHORT => ct_size t =? 2
  | TY_INT => ct_size t =? 4
  | TY_ENUM => (ct_size t =? 4) && negb (ct_unsigned t)
  | TY_LONG => (ct_size t =? 4) || (ct_size t =? 8)
  | TY_FLOAT | TY_DOUBLE | TY_LDOUBLE => true
  | _ => false
  end.

(** The type objects of the front end are where it looks for them. *)
Definition has_basic (types : gmap Z CType) : Prop := Forall (fun x => types !! x.1 = Some x.2) basic_types.

Lemma has_type types ty t : has_basic types -> In (ty, t) basic_types -> types !! ty = Some t.
Proof. intros H Hin. unfold has_basic in H. rewrite Forall_forall in H. by apply (H (ty, t)), list_elem_of_In. Qed.

Definition common_arith (x y : Z * CType) : Z :=
  if is_kind_of TY_LDOUBLE x.2 || is_kind_of TY_LDOUBLE y.2 then ty_ldouble
  else if is_kind_of TY_DOUBLE x.2 || is_kind_of TY_DOUBLE y.2 then ty_double
  else if is_kind_of TY_FLOAT x.2 || is_kind_of TY_FLOAT y.2 then ty_float
  else common_integer x y.

Lemma common_type_run s ty1 t1 ty2 t2 : fe_types s !! ty1 = Some t1 -> fe_types s !! ty2 = Some t2 -> arithmetic t1 = true -> arithmetic t2 = true ->
  get_common_type ty1 ty2 s = Got (common_arith (ty1, t1) (ty2, t2), s).
Proof.
  intros E1 E2 A1 A2. unfold get_common_type. m_read. cbn [id]. unfold arithmetic in A1, A2. apply andb_true_iff in A1 as [-> A1], A2 as [_ A2].
  assert (is_kind_of TY_FUNC t1 = false) as Hf1 by (unfold is_kind_of; apply bool_decide_eq_false; by intros H; rewrite H in A1).
  assert (is_kind_of TY_FUNC t2 = false) as Hf2 by (unfold is_kind_of; apply bool_decide_eq_false; by intros H; rewrite H in A2).
  cbn [negb]. rewrite Hf1. m_read. cbn [id]. rewrite Hf2. unfold common_arith. cbn [snd]. repeat case_match; done.
Qed.

(** An operand of an integer type after the promotion: its type and what it is. *)
Definition basic_int : CType := type0 <| ct_kind := TY_INT |> <| ct_size := 4 |> <| ct_align := 4 |>.
Definition promoted_type (x : Z * CType) : Z * CType := if ct_size x.2 <? 4 then (ty_int, basic_int) else x.

Lemma promoted_in s x : has_basic (fe_types s) -> fe_types s !! x.1 = Some x.2 -> fe_types s !! (promoted_type x).1 = Some (promoted_type x).2.
Proof. intros Hb Hx. unfold promoted_type. case_match; [|done]. apply has_type; [done|]. vm_compute. tauto. Qed.

Definition is_floating (t : CType) : bool := is_kind_of TY_LDOUBLE t || is_kind_of TY_DOUBLE t || is_kind_of TY_FLOAT t.

Lemma floating_cases t : arithmetic t = true ->
  (is_floating t = true /\ (ct_kind t = TY_FLOAT \/ ct_kind t = TY_DOUBLE \/ ct_kind t = TY_LDOUBLE)) \/
  (is_floating t = false /\ arith_of t = Integer (ct_size t) (bool_decide (ct_kind t = TY_BOOL) || ct_unsigned t) /\
    (ct_kind t = TY_BOOL -> ct_size t = 1)).
Proof.
  unfold arithmetic, is_floating, arith_of, is_kind_of. intros H%andb_true_iff. destruct H as [_ H].
  destruct (ct_kind t) eqn:E; cbn; try done; try (left; split; [done|tauto]); right; (split; [done|split; [done|intros; try done; lia]]).
Qed.

Lemma promoted_arith x : arithmetic x.2 = true -> is_floating x.2 = false ->
  arithmetic (promoted_type x).2 = true /\
  exists u, promoted (arith_of x.2) = Integer (ct_size (promoted_type x).2) u /\ arith_of (promoted_type x).2 = Integer (ct_size (promoted_type x).2) u /\
    ct_unsigned (promoted_type x).2 = u.
Proof.
  intros A F. destruct (floating_cases _ A) as [[F' _]|(_ & Ea & Hb)]; [congruence|]. unfold promoted_type. rewrite Ea. cbn [promoted].
  destruct (ct_size x.2 <? 4) eqn:Hs; [split; [done|by exists false]|]. split; [done|]. rewrite Ea.
  rewrite bool_decide_eq_false_2 by (intros H; specialize (Hb H); lia). by exists (ct_unsigned x.2).
Qed.

(** Of two integer types. *)
Lemma common_integer_arith x y : arithmetic x.2 = true -> is_floating x.2 = false -> arithmetic y.2 = true -> is_floating y.2 = false ->
  exists z, (z = promoted_type x \/ z = promoted_type y) /\ common_integer x y = z.1 /\ arithmetic z.2 = true /\
    arith_of z.2 = usual_arithmetic (arith_of x.2) (arith_of y.2).
Proof.
  intros Ax Fx Ay Fy. destruct (promoted_arith x Ax Fx) as (Px & u & E1 & E2 & E3), (promoted_arith y Ay Fy) as (Py & v & E4 & E5 & E6).
  assert (E : common_integer x y = (if negb (ct_size (promoted_type x).2 =? ct_size (promoted_type y).2)
    then (if ct_size (promoted_type x).2 <? ct_size (promoted_type y).2 then (promoted_type y).1 else (promoted_type x).1)
    else if ct_unsigned (promoted_type y).2 then (promoted_type y).1 else (promoted_type x).1)).
  { unfold common_integer, promoted_type. by destruct (ct_size x.2 <? 4), (ct_size y.2 <? 4). }
  rewrite E. unfold usual_arithmetic. rewrite E1, E4, E6.
  destruct (Z.eqb_spec (ct_size (promoted_type x).2) (ct_size (promoted_type y).2)) as [Hs|Hs]; cbn [negb].
  - rewrite Hs, Z.ltb_irrefl. destruct v; eexists; (split; [|split; [reflexivity|split; [eassumption|]]]); auto.
    + by rewrite E5, orb_true_r.
    + by rewrite E2, Hs, orb_false_r.
  - destruct (Z.ltb_spec (ct_size (promoted_type x).2) (ct_size (promoted_type y).2)); eexists; (split; [|split; [reflexivity|split; [eassumption|]]]); auto.
    by rewrite (proj2 (Z.ltb_lt _ _)) by lia.
Qed.

(** One of two types is a floating type. *)
Definition real (kind : TypeKind) (size : Z) : CType := type0 <| ct_kind := kind |> <| ct_size := size |> <| ct_align := 4 |>.
Ltac real_type := split; [cbv; tauto|]; split; [reflexivity|]; split; [reflexivity|]; unfold usual_arithmetic, promoted; repeat (case_match; simplify_eq); reflexivity.
Lemma common_floating x y : arithmetic x.2 = true -> arithmetic y.2 = true -> is_floating x.2 || is_floating y.2 = true ->
  exists z, In z basic_types /\ common_arith x y = z.1 /\ arithmetic z.2 = true /\ arith_of z.2 = usual_arithmetic (arith_of x.2) (arith_of y.2).
Proof.
  unfold arithmetic, is_floating, common_arith, is_kind_of. intros [_ Ax]%andb_true_iff [_ Ay]%andb_true_iff F.
  unfold arith_of at 2 3.
  destruct (ct_kind x.2); try discriminate Ax; destruct (ct_kind y.2); try discriminate Ay; try discriminate F;
  first [exists (ty_ldouble, real TY_LDOUBLE 8); real_type | exists (ty_double, real TY_DOUBLE 8); real_type | exists (ty_float, real TY_FLOAT 4); real_type].
Qed.

(** C13: The operands of an operator are converted as the C standard says: the common type
    that [get_common_type] finds for any two types of numbers (the basic ones, enumerations,
    copies of them under other names) has the size and the sign, or for floating types the rank,
    that the usual arithmetic conversions give.  Of two integer types of four bytes the result
    is the second if that is unsigned and the first otherwise, so that with a [long] of four
    bytes the name of the result need not be the standard's: its values are. *)
Theorem common_type_of_standard s ty1 t1 ty2 t2 : has_basic (fe_types s) -> arithmetic t1 = true -> arithmetic t2 = true ->
  fe_types s !! ty1 = Some t1 -> fe_types s !! ty2 = Some t2 ->
  exists ty t, get_common_type ty1 ty2 s = Got (ty, s) /\ fe_types s !! ty = Some t /\
    arithmetic t = true /\ arith_of t = usual_arithmetic (arith_of t1) (arith_of t2).
Proof.
  intros Hb A1 A2 E1 E2. rewrite (common_type_run s ty1 t1 ty2 t2) by done.
  destruct (is_floating t1 || is_floating t2) eqn:F.
  - destruct (common_floating (ty1, t1) (ty2, t2)) as (z & Hz & E & Az & Ez); [done..|]. exists z.1, z.2.
    split; [by rewrite E|]. split; [|done]. apply has_type; [done|]. by destruct z.
  - apply orb_false_iff in F as [F1 F2]. destruct (common_integer_arith (ty1, t1) (ty2, t2) A1 F1 A2 F2) as (z & Hz & E & Az & Ez).
    exists z.1, z.2. split; [|split; [|done]].
    + f_equal. f_equal. rewrite <- E. unfold common_arith. unfold is_floating in F1, F2. cbn [snd].
      by rewrite !orb_false_iff in F1, F2; destruct F1 as [[-> ->] ->], F2 as [[-> ->] ->].
    + destruct Hz as [-> | ->]; by apply promoted_in.
Qed.

Module Demo.
(** [long static int;] and [static int long;], linked from 100 and from 200. *)
Definition punct (w : list Z) : Token := (word_token w) <| t_kind := TK_PUNCT |>.
Definition words1 : list Token := map (fun w => word_token (str w)) ["long"; "static"; "int"].
Definition words2 : list Token := map (fun w => word_token (str w)) ["static"; "int"; "long"].
Definition chain (a : Z) (l : list Token) : list (Z * cell) := imap (fun i t => (a + Z.of_nat i, Build_cell t (a + Z.of_nat i + 1))) l.
Definition state : fe :=
  fe_init <| fe_toks := list_to_map (chain 100 (words1 ++ [punct (str ";")]) ++ chain 200 (words2 ++ [punct (str ";")])) |>.
#[local] Instance soft : SoftFloat := {| f_of_int z := z; f_add := Z.add; f_mul := Z.mul; f_div := Z.div; f_neg := Z.opp; f_tenth := 0 |}.
#[local] Instance fold_soft : FoldFloat := {| f_sub := Z.sub; f_to_int z := z; f_nonzero z := negb (z =? 0); f_single z := z |}.

Lemma word_specifier w : In w specifier_words -> is_specifier (word_token (str w)) /\ t_kind (word_token (str w)) <> TK_IDENT.
Proof. intros H. split; [|done]. exists w. split; [done|apply lexeme_word]. Qed.

Definition found_specs (r : cc (Z * option VarAttr * Z * fe)) : option (Z * option VarAttr) :=
  match r with Got (ty, a, _, _) => Some (ty, a) | Fail _ => None end.
Lemma found_here : found_specs (declspec (P := no_parser 9) 100 (Some attr0) state) = Some (ty_long, Some (attr0 <| va_static := true |>)).
Proof. vm_compute. reflexivity. Qed.


(** [struct { char a; int b : 3; int c : 30; short d; }] at 50. *)
Definition member (i next ty align : Z) (field : bool) (w : Z) : CMember := Build_CMember next ty 0 i align 0 field 0 w.
Definition members : list (CMember * Z) :=
  [(member 0 302 ty_char 1 false 0, 1); (member 1 303 ty_int 4 true 3, 4); (member 2 304 ty_int 4 true 30, 4);
   (member 3 0 ty_short 2 false 0, 2)].
Definition struct0 : CType := type0 <| ct_align := 1 |> <| ct_members := 301 |>.
Definition struct_state : fe :=
  fe_init <| fe_types ::= insert 50 struct0 |> <| fe_mems := list_to_map (zip [301; 302; 303; 304] (map fst members)) |>.

Definition found_layout (r : cc (unit * fe)) : option (Z * Z * list CMember) :=
  match r with
  | Got (_, s) => t ← fe_types s !! 50 ; ms ← mapM (fun a => fe_mems s !! a) [301; 302; 303; 304] ; Some (ct_size t, ct_align t, ms)
  | Fail _ => None
  end.
Lemma layout_here : found_layout (layout_struct (P := no_parser 9) 50 struct_state) =
  Some (12, 4, [Build_CMember 302 ty_char 0 0 1 0 false 0 0; Build_CMember 303 ty_int 0 1 4 0 true 8 3;
                Build_CMember 304 ty_int 0 2 4 4 true 0 30; Build_CMember 0 ty_short 0 3 2 8 false 0 0]).
Proof. vm_compute. reflexivity. Qed.


(** The file scope, before and after a name is put into it. *)
Lemma file_scope_ok : scopes_at (fe_scopes state) (fe_next state) (scope state) [(∅, ∅)].
Proof.
  split; [vm_compute; split; reflexivity|]. exists scope0. split; [vm_compute; reflexivity|]. split; [|reflexivity].
  split; [by left..|]. by split; intros j v.
Qed.

Lemma scopes_refine_stack_witness : find_var (P := no_parser 9) 100 state = Got (0, state) /\
  exists v s', push_scope (str "x") state = Got (v, s') /\ v = 17 /\
    scopes_at (fe_scopes s') (fe_next s') (scope s') [(<[str "x" := v]> ∅, ∅)].
Proof.
  destruct (@scopes_refine_stack (no_parser 9) state 100 (word_token (str "long")) 101 [(∅, ∅)]) as (Hv & _ & _ & Hin).
  - exact file_scope_ok.
  - vm_compute. reflexivity.
  - vm_compute. reflexivity.
  - cbn. lia.
  - split; [exact Hv|]. destruct (Hin ∅ ∅ [] eq_refl) as [_ Hp].
    destruct (Hp ltac:(intros sc Hsc; vm_compute in Hsc; injection Hsc as <-; split; vm_compute; discriminate)) as [Hpush _].
    destruct (Hpush (str "x")) as (v & s' & E & Ev & _ & Hs). exists v, s'. split; [exact E|]. split; [rewrite Ev; vm_compute; reflexivity|exact Hs].
Defined.

Lemma common_type_of_standard_witness : exists ty t, get_common_type ty_ushort ty_ulong fe_init = Got (ty, fe_init) /\
  fe_types fe_init !! ty = Some t /\ arithmetic t = true /\ arith_of t = Integer 4 true.
Proof.
  destruct (common_type_of_standard fe_init ty_ushort (default type0 (fe_types fe_init !! ty_ushort)) ty_ulong (default type0 (fe_types fe_init !! ty_ulong)))
    as (ty & t & H1 & H2 & H3 & H4); [do 15 (apply List.Forall_cons; [vm_compute; reflexivity|]); apply List.Forall_nil|vm_compute; reflexivity..|].
  exists ty, t. split; [exact H1|]. split; [exact H2|]. split; [exact H3|]. rewrite H4. vm_compute. reflexivity.
Defined.
End Demo.
