(* ===== verification/CcPreprocessSpec.v ===== *)
(** * CcPreprocessSpec: the preprocessor of the compiler

    Groups that a condition leaves out are skipped to their end, nested groups inside; the
    expansion of a macro is its body, and hides its name; [#] makes the string literal of a
    text.  At the end, whole programs: from the source text to the processor, on given inputs
    ([Programs]) and for every argument of a function ([Sum]). *)

From stdpp Require Import gmap.
From S2P Require Import Prelude Config Kernel Klog RawMem UserMem LibString LibFormat GuestAsm GuestLink GuestObjSpec GuestAsmSpec GuestLinkSpec Codegen Cpu AsmLines AsmCode AsmLoad CSem GenLogic CodegenAlloc CodegenRun CodegenFn CompilerSpec CcHash CcToken CcTokenSpec CcTree CcExpr CcDecl CcInit CcParse CcPreprocess CcLower CcParseSpec.

(** ** Conditional groups *)

Definition hash_tok (t : Token) : bool := t_at_bol t && equal t "#".
Definition one_of (t : Token) (words : list string) : bool := existsb (equal t) words.

(** The directives that [skip_cond_incl] looks at in the outer group, [skip_cond_incl2] in a
    nested one. *)
Definition cond_words (outer : bool) : list string := if outer then if_words ++ ["elif"; "else"; "endif"] else if_words ++ ["endif"].

(** The tokens of a group that is skipped: text, other directives, and whole nested groups, at
    most [depth] deep; [rounds] counts the steps, which are less than [fuel] in a nested
    group. *)
Inductive group (fuel : nat) : bool -> nat -> nat -> list Token -> Prop :=
| group_end outer depth : group fuel outer depth 0 []
| group_text outer depth rounds t l : t_kind t <> TK_EOF -> hash_tok t = false -> group fuel outer depth rounds l ->
    group fuel outer depth (S rounds) (t :: l)
| group_line outer depth rounds h w l : t_kind h <> TK_EOF -> hash_tok h = true -> one_of w (cond_words outer) = false ->
    group fuel outer depth rounds (w :: l) -> group fuel outer depth (S rounds) (h :: w :: l)
| group_nested outer depth inner rounds h w body h2 w2 l : t_kind h <> TK_EOF -> hash_tok h = true -> one_of w if_words = true ->
    group fuel false depth inner body -> (inner < fuel)%nat ->
    t_kind h2 <> TK_EOF -> hash_tok h2 = true -> equal w2 "endif" = true ->
    group fuel outer (S depth) rounds l ->
    group fuel outer (S depth) (S rounds) (h :: w :: body ++ h2 :: w2 :: l).

Lemma segment_app m a l1 l2 e : segment m a (l1 ++ l2) e <-> exists b, segment m a l1 b /\ segment m b l2 e.
Proof.
  revert a. induction l1 as [|t l1 IH]; intros a; cbn [app segment].
  - split; [intros H; by exists a|]. by intros (b & -> & H).
  - split.
    + intros (n & H1 & (b & H2 & H3)%IH). exists b. split; [by exists n|done].
    + intros (b & (n & H1 & H2) & H3). exists n. split; [done|]. apply IH. by exists b.
Qed.

Section groups.
Context {P : Parser}.

Lemma is_eof_run a t n s : fe_toks s !! a = Some (Build_cell t n) -> is_eof a s = Got (bool_decide (t_kind t = TK_EOF), s).
Proof. intros H. unfold is_eof, is_tk. by apply (rk_run (fun t => bool_decide (t_kind t = TK_EOF)) _ _ n). Qed.

Lemma directive_no a t n s ops : fe_toks s !! a = Some (Build_cell t n) -> hash_tok t = false -> directive a ops s = Got (false, s).
Proof. intros Ht Hh. unfold directive, is_hash, andM. m_read. unfold hash_tok in Hh. by rewrite Hh. Qed.

Lemma directive_run a h n w n2 s ops : fe_toks s !! a = Some (Build_cell h n) -> fe_toks s !! n = Some (Build_cell w n2) ->
  hash_tok h = true -> directive a ops s = Got (one_of w ops, s).
Proof. intros Ht Hw Hh. unfold directive, is_hash, andM. m_read. unfold hash_tok in Hh. rewrite Hh. unfold next_any. m_read. by apply (rk_run (fun t => existsb (equal t) ops) _ _ n2). Qed.

(** The rounds of the two loops; [fuel] is for the groups inside. *)
Definition skip_round (outer : bool) (fuel : nat) (tok : Z) : M (Z + Z) :=
  e ← is_eof tok ; if (e : bool) then mret (inr tok) else
  b ← directive tok if_words ;
  if (b : bool) then n ← nxt tok ; n ← nxt n ; r ← skip_cond_incl2_ fuel n ; mret (inl r) else
  if outer then
    b ← directive tok ["elif"; "else"; "endif"] ;
    if (b : bool) then mret (inr tok) else n ← nxt tok ; mret (inl n)
  else
    b ← directive tok ["endif"] ;
    if (b : bool) then n ← nxt tok ; n ← nxt n ; mret (inr n) else
    n ← nxt tok ; mret (inl n).

Lemma skip_nested_eq fuel tok : skip_cond_incl2_ (S fuel) tok = loopM p_fuel (skip_round false fuel) tok.
Proof. reflexivity. Qed.
Lemma skip_outer_eq tok : skip_cond_incl tok = loopM p_fuel (skip_round true p_fuel) tok.
Proof. reflexivity. Qed.

Lemma round_text outer fuel a t n s : fe_toks s !! a = Some (Build_cell t n) -> t_kind t <> TK_EOF -> hash_tok t = false ->
  skip_round outer fuel a s = Got (inl n, s).
Proof.
  intros Ht Hk Hh. unfold skip_round. rewrite (bind_run _ _ _ _ _ (is_eof_run _ _ _ _ Ht)), bool_decide_eq_false_2 by done.
  rewrite (bind_run _ _ _ _ _ (directive_no _ _ _ _ _ Ht Hh)).
  destruct outer; rewrite (bind_run _ _ _ _ _ (directive_no _ _ _ _ _ Ht Hh)); by m_read.
Qed.

Lemma one_of_app t l1 l2 : one_of t (l1 ++ l2) = one_of t l1 || one_of t l2.
Proof. apply existsb_app. Qed.

Lemma round_line outer fuel a h n w n2 s : fe_toks s !! a = Some (Build_cell h n) -> fe_toks s !! n = Some (Build_cell w n2) ->
  t_kind h <> TK_EOF -> hash_tok h = true -> one_of w (cond_words outer) = false -> skip_round outer fuel a s = Got (inl n, s).
Proof.
  intros Ht Hw Hk Hh Ho. unfold skip_round. rewrite (bind_run _ _ _ _ _ (is_eof_run _ _ _ _ Ht)), bool_decide_eq_false_2 by done.
  unfold cond_words in Ho. rewrite (bind_run _ _ _ _ _ (directive_run _ _ _ _ _ _ _ Ht Hw Hh)).
  destruct outer; rewrite one_of_app in Ho; apply orb_false_iff in Ho as [-> Ho];
    rewrite (bind_run _ _ _ _ _ (directive_run _ _ _ _ _ _ _ Ht Hw Hh)), Ho; by m_read.
Qed.

Lemma round_group outer fuel a h n w n2 r s : fe_toks s !! a = Some (Build_cell h n) -> fe_toks s !! n = Some (Build_cell w n2) ->
  t_kind h <> TK_EOF -> hash_tok h = true -> one_of w if_words = true -> skip_cond_incl2_ fuel n2 s = Got (r, s) ->
  skip_round outer fuel a s = Got (inl r, s).
Proof.
  intros Ht Hw Hk Hh Ho Hr. unfold skip_round. rewrite (bind_run _ _ _ _ _ (is_eof_run _ _ _ _ Ht)), bool_decide_eq_false_2 by done.
  rewrite (bind_run _ _ _ _ _ (directive_run _ _ _ _ _ _ _ Ht Hw Hh)), Ho. m_read. m_read. by rewrite (bind_run _ _ _ _ _ Hr).
Qed.

(** What ends a nested group, and the outer one. *)
Lemma round_endif fuel a h n w n2 s : fe_toks s !! a = Some (Build_cell h n) -> fe_toks s !! n = Some (Build_cell w n2) ->
  t_kind h <> TK_EOF -> hash_tok h = true -> equal w "endif" = true -> skip_round false fuel a s = Got (inr n2, s).
Proof.
  intros Ht Hw Hk Hh Ho. unfold skip_round. rewrite (bind_run _ _ _ _ _ (is_eof_run _ _ _ _ Ht)), bool_decide_eq_false_2 by done.
  assert (one_of w if_words = false) as E1.
  { unfold equal in Ho. apply bool_decide_eq_true in Ho. unfold one_of, equal. rewrite Ho. by vm_compute. }
  assert (one_of w ["endif"] = true) as E2 by (cbn; by rewrite Ho).
  do 2 rewrite (bind_run _ _ _ _ _ (directive_run _ _ _ _ _ _ _ Ht Hw Hh)), ?E1, ?E2. m_read. by m_read.
Qed.

Lemma round_stop fuel a h n w n2 s : fe_toks s !! a = Some (Build_cell h n) -> fe_toks s !! n = Some (Build_cell w n2) ->
  t_kind h <> TK_EOF -> hash_tok h = true -> one_of w ["elif"; "else"; "endif"] = true -> skip_round true fuel a s = Got (inr a, s).
Proof.
  intros Ht Hw Hk Hh Ho. unfold skip_round. rewrite (bind_run _ _ _ _ _ (is_eof_run _ _ _ _ Ht)), bool_decide_eq_false_2 by done.
  assert (one_of w if_words = false) as E1.
  { unfold one_of in *. apply existsb_exists in Ho as (x & Hx & Ho). unfold equal in *. apply bool_decide_eq_true in Ho. rewrite Ho.
    cbn [In] in Hx. destruct Hx as [<-|[<-|[<-|[]]]]; by vm_compute. }
  do 2 rewrite (bind_run _ _ _ _ _ (directive_run _ _ _ _ _ _ _ Ht Hw Hh)), ?E1, ?Ho. done.
Qed.

(** The loops walk over a group. *)
Lemma group_walk outer depth rounds l : group p_fuel outer depth rounds l -> forall nested fuel a b s, segment (fe_toks s) a l b ->
  (depth <= nested)%nat -> loopM (rounds + fuel) (skip_round outer nested) a s = loopM fuel (skip_round outer nested) b s.
Proof.
  induction 1 as [|outer depth rounds t l Hk Hh H IH|outer depth rounds h w l Hk Hh Ho H IH
    |outer depth inner rounds h w body h2 w2 l Hk Hh Ho Hb IHb Hin Hk2 Hh2 Ho2 H IH]; intros nested fuel a b s Hseg Hd; cbn [Nat.add].
  - cbn in Hseg. by subst.
  - destruct Hseg as (n & Ht & Hseg). rewrite (loop_next _ _ _ n s s) by (by eapply round_text). by apply IH.
  - pose proof Hseg as (n & Ht & (n2 & Hw & _)). rewrite (loop_next _ _ _ n s s) by (by eapply round_line).
    apply IH; [|done]. destruct Hseg as (n' & Ht' & Hseg). rewrite Ht in Ht'. by injection Ht' as <-.
  - destruct Hseg as (n & Ht & n2 & Hw & (c & Hbody & n3 & Ht2 & n4 & Hw2 & Hseg)%segment_app).
    destruct nested as [|nested]; [lia|]. rewrite (loop_next _ _ _ n4 s s); [by apply IH|].
    eapply round_group; [done..|]. rewrite skip_nested_eq. replace p_fuel with (inner + S (p_fuel - inner - 1))%nat at 1 by lia.
    rewrite (IHb nested _ n2 c s) by (done || lia). apply loop_stop. by eapply round_endif.
Qed.
End groups.

(** C10: A group that a condition leaves out is skipped to the directive that ends it: if the
    tokens from [tok] on are a group, of text, directives and whole nested [#if] groups (with
    their own [#else] and [#elif]), and after it comes [#elif], [#else] or [#endif], or the
    end of the file, [skip_cond_incl] stops exactly there, and changes nothing.  The fuel is
    more than the rounds of each level and the depth of the groups. *)
Theorem group_skipped (P : Parser) s tok depth rounds l last e : group p_fuel true depth rounds l -> (depth <= p_fuel)%nat -> (rounds < p_fuel)%nat ->
  segment (fe_toks s) tok (l ++ last) e ->
  (exists t, last = [t] /\ t_kind t = TK_EOF) \/
  (exists h w, last = [h; w] /\ t_kind h <> TK_EOF /\ hash_tok h = true /\ one_of w ["elif"; "else"; "endif"] = true) ->
  exists stop, segment (fe_toks s) tok l stop /\ segment (fe_toks s) stop last e /\ skip_cond_incl tok s = Got (stop, s).
Proof.
  intros Hg Hd Hr (b & Hseg & Hlast)%segment_app Hend. exists b. split; [done|]. split; [done|]. rewrite skip_outer_eq.
  replace p_fuel with (rounds + S (p_fuel - rounds - 1))%nat at 1 by lia.
  rewrite (group_walk true depth rounds l Hg p_fuel _ tok b s Hseg Hd). apply loop_stop.
  destruct Hend as [(t & -> & Hk)|(h & w & -> & Hk & Hh & Ho)].
  - destruct Hlast as (n & Ht & _). unfold skip_round. by rewrite (bind_run _ _ _ _ _ (is_eof_run _ _ _ _ Ht)), bool_decide_eq_true_2.
  - destruct Hlast as (n & Ht & n2 & Hw & _). by eapply round_stop.
Qed.

(** ** Strings that [#] makes *)

(** A text that can stand in a string literal: no NUL, no new line. *)
Definition literal_text (s : list Z) : Prop := Forall (fun c => 0 < c < 256 /\ c <> 10) s.

Definition quoted (s : list Z) : list Z := flat_map (fun c => if (c =? 92) || (c =? 34) then [92; c] else [c]) s.

Lemma quote_string_eq s : quote_string s = 34 :: quoted s ++ [34].
Proof. reflexivity. Qed.

Lemma end_quoted start s rest : literal_text s -> string_literal_end start (quoted s ++ 34 :: rest) = Got (34 :: rest).
Proof.
  induction 1 as [|c s [Hc Hn] H IH]; [done|]. cbn [quoted flat_map]. fold (quoted s). rewrite <- app_assoc.
  destruct (Z.eqb_spec c 92) as [->|H1]; cbn [orb app string_literal_end Z.eqb Pos.eqb]; [exact IH|].
  destruct (Z.eqb_spec c 34) as [->|H2]; cbn [app string_literal_end Z.eqb Pos.eqb]; [exact IH|].
  destruct (Z.eqb_spec c 34), (Z.eqb_spec c 10), (Z.eqb_spec c 92); done || (try lia).
Qed.

Lemma quoted_bytes s : literal_text s -> text_bytes (quoted s).
Proof.
  induction 1 as [|c s [Hc Hn] H IH]; [constructor|]. cbn [quoted flat_map]. apply Forall_app. split; [|exact IH].
  case_match; repeat constructor; lia.
Qed.

Lemma escape_self c rest : c = 92 \/ c = 34 -> read_escaped_char (c :: rest) = Got (c, Some rest).
Proof. intros [->| ->]; reflexivity. Qed.

Lemma units_quoted s rest fuel : literal_text s -> (length s < fuel)%nat -> text_bytes (34 :: rest) ->
  literal_units plain_byte 8 fuel (quoted s ++ 34 :: rest) (34 :: rest) = Got s.
Proof.
  intros Hs. revert fuel. induction Hs as [|c s [Hc Hn] H IH]; intros [|fuel] Hf Hr; cbn [length] in Hf; try lia; cbn [literal_units].
  - cbn [quoted flat_map app]. by rewrite Z.leb_refl.
  - cbn [quoted flat_map]. fold (quoted s).
    assert (Hb : text_bytes (c :: quoted s ++ 34 :: rest)) by (constructor; [lia|]; apply Forall_app; split; [by apply quoted_bytes|done]).
    assert (Hlen : forall l, l <> [] -> (Z.of_nat (length (l ++ quoted s ++ 34 :: rest)) <=? Z.of_nat (length (34 :: rest))) = false).
    { intros [|x l] Hl; [done|]. apply Z.leb_gt. rewrite !length_app. cbn [length]. lia. }
    destruct ((c =? 92) || (c =? 34)) eqn:E; rewrite <- app_assoc, Hlen by done; cbn [app].
    + change (chr (92 :: c :: quoted s ++ 34 :: rest) 0 =? 92) with true. cbn [tail].
      rewrite escape_self by lia. cbn -[literal_units Z.modulo]. rewrite IH by (done || lia). cbn -[Z.modulo]. rewrite Z.mod_small by lia. done.
    + rewrite chr_eqb by (done || lia). change (nthz (c :: quoted s ++ 34 :: rest) 0) with c.
      apply orb_false_iff in E as [-> _]. cbn -[literal_units]. rewrite IH by (done || lia). done.
Qed.

(** The token of the literal of [s]. *)
Definition literal_token (lx : lexer) (s : list Z) : Token :=
  (new_token lx TK_STR (quote_string s) []) <| t_ty := ArrayTy ty_char (Z.of_nat (length s) + 1) |> <| t_str := s |>.

Lemma not_prefix c p x q : c <> x -> has_prefix (c :: p) (x :: q) = false.
Proof. intros H. unfold has_prefix. apply bool_decide_eq_false_2. cbn [length take]. congruence. Qed.

Lemma lex_quoted lx s : literal_text s -> lex_one lx (quote_string s) = Got (Tok (literal_token lx s)).
Proof.
  intros Hs. unfold lex_one, startswith. rewrite quote_string_eq. change (str "//") with [47; 47]. change (str "/*") with [47; 42].
  rewrite !not_prefix by done.
  change (chr (34 :: quoted s ++ [34]) 0) with 34. cbn [Z.eqb Pos.eqb isspace isdigit].
  change (isspace 34) with false. change (isdigit 34) with false. cbn [orb andb]. cbv iota.
  unfold lex_literal. change (chr (34 :: quoted s ++ [34]) 0) with 34. cbn [Z.eqb Pos.eqb].
  unfold read_string_literal, string_token. cbn [tail]. rewrite end_quoted by done. cbn [mbind cc_bind].
  rewrite units_quoted; [reflexivity|done| |repeat constructor; lia].
  cbn [length]. rewrite length_app. assert (length s <= length (quoted s))%nat; [|cbn; lia].
  clear. induction s as [|c s IH]; [cbn; lia|]. cbn [quoted flat_map]. rewrite length_app. fold (quoted s). case_match; cbn; lia.
Qed.

Lemma tokenize_quoted file f s : file_contents f = quote_string s -> literal_text s ->
  exists t e, tokenize file f = Got [t; e] /\ t_kind t = TK_STR /\ t_str t = s /\ lexeme t = quote_string s /\ t_kind e = TK_EOF.
Proof.
  intros Hf Hs. unfold tokenize. rewrite Hf. set (lx := Build_lexer file (file_display_name f) true false).
  set (lx' := Build_lexer file (file_display_name f) false false).
  assert (Hl : t_len (literal_token lx s) = Z.of_nat (length (quote_string s))).
  { unfold literal_token, new_token. cbn [t_len set]. cbn. lia. }
  assert (E : lex_from (S (length (quote_string s))) lx (quote_string s) = Got [literal_token lx s; new_token lx' TK_EOF [] []]).
  { cbn [lex_from]. rewrite (lex_quoted lx s Hs). rewrite quote_string_eq at 1. cbn [mbind cc_bind].
    rewrite Hl, Nat2Z.id, drop_all. reflexivity. }
  rewrite E. cbn [mbind cc_bind]. rewrite add_lines_run.
  - eexists _, _. split; [reflexivity|]. cbn. split; [done|]. split; [done|]. split; [|done].
    unfold lexeme, numbered. change (take (Z.to_nat (t_len (literal_token lx s))) (quote_string s) = quote_string s).
    by rewrite Hl, Nat2Z.id, firstn_all.
  - split; [exists []; reflexivity|]. exists []. split; [by eexists (_ ++ _); rewrite app_nil_r|]. split; [done|]. by split; [exists []|].
Qed.

Definition eof_at (m : gmap Z cell) (e : Z) : Prop := exists t n, m !! e = Some (Build_cell t n) /\ t_kind t = TK_EOF.
Definition no_eof (l : list Token) : Prop := Forall (fun t => t_kind t <> TK_EOF) l.

(** A token list up to its end is determined by its address. *)
Lemma segment_det m a l1 l2 e : segment m a l1 e -> segment m a l2 e -> eof_at m e -> no_eof l1 -> no_eof l2 -> l1 = l2.
Proof.
  intros H1 H2 (te & ne & He & Hk). revert a l2 H1 H2. induction l1 as [|t l1 IH]; intros a [|u l2] H1 H2 N1 N2; cbn [segment] in *; try done.
  - subst a. destruct H2 as (n & Hu & _). rewrite He in Hu. injection Hu as -> ->. by inversion N2.
  - subst a. destruct H1 as (n & Hu & _). rewrite He in Hu. injection Hu as -> ->. by inversion N1.
  - destruct H1 as (n1 & Ht & H1), H2 as (n2 & Hu & H2). rewrite Ht in Hu. injection Hu as <- <-. f_equal.
    apply Forall_cons in N1 as [_ N1], N2 as [_ N2]. by eapply IH.
Qed.

(** The text of tokens, one space for the space between them. *)
Fixpoint spelled (first : bool) (l : list Token) : list Z :=
  match l with [] => [] | t :: l => (if negb first && t_has_space t then [32] else []) ++ lexeme t ++ spelled false l end.

Section strings.
Context {P : Parser}.

Lemma join_run a l e s : segment (fe_toks s) a l e -> eof_at (fe_toks s) e -> no_eof l -> fe_toks s !! 0 = None -> (length l < p_fuel)%nat ->
  join_tokens a 0 s = Got (spelled true l, s).
Proof.
  intros Hseg He Hn H0 Hf. unfold join_tokens.
  assert (Hz : forall x l2, segment (fe_toks s) x l2 e -> (x =? 0) = false).
  { intros x l2 Hx. apply Z.eqb_neq. intros ->. destruct l2; cbn in Hx; [|destruct Hx as (n & Hx & _); by rewrite H0 in Hx].
    subst e. destruct He as (t & n & He & _). by rewrite H0 in He. }
  set (body := fun '(buf, t) => _).
  assert (Hend : forall buf fuel, loopM (S fuel) body (buf, e) s = Got (buf, s)).
  { intros buf fuel. apply loop_stop. cbn [body]. rewrite (Hz e []) by done. destruct He as (t & n & He & Hk). m_read. cbn [id].
    by rewrite bool_decide_eq_true_2. }
  assert (Hrest : forall l2 x buf fuel, segment (fe_toks s) x l2 e -> no_eof l2 -> (length l2 < length l)%nat -> (length l2 < fuel)%nat ->
    loopM fuel body (buf, x) s = Got (buf ++ spelled false l2, s)).
  { induction l2 as [|t l2 IH]; intros x buf [|fuel] Hx N2 Hl Hfu; cbn [length] in *; try lia.
    - cbn in Hx. subst x. rewrite app_nil_r. apply Hend.
    - pose proof (Hz _ _ Hx) as Hx0. assert (Hxa : (x =? a) = false).
      { apply Z.eqb_neq. intros ->. rewrite (segment_det _ _ _ _ _ Hseg Hx He Hn N2) in Hl. cbn in Hl. lia. }
      destruct Hx as (n & Ht & Hx). apply Forall_cons in N2 as [Hk N2].
      rewrite (loop_next _ _ _ (buf ++ (if t_has_space t then [32] else []) ++ lexeme t, n) s s).
      + rewrite IH by (done || lia). cbn [spelled negb andb]. by rewrite <- !app_assoc.
      + cbn [body]. rewrite Hx0. m_read. cbn [id]. rewrite bool_decide_eq_false_2 by done. m_read. by rewrite Hxa. }
  destruct l as [|t l]; [cbn in Hseg; subst a; destruct p_fuel; [cbn in Hf; lia|apply Hend]|].
  pose proof (Hz _ _ Hseg) as Hx0. destruct Hseg as (n & Ht & Hx). apply Forall_cons in Hn as [Hk Hn]. cbn [length] in *.
  destruct p_fuel as [|fuel]; [lia|]. rewrite (loop_next _ _ _ (lexeme t, n) s s).
  - rewrite (Hrest l n) by (done || lia). reflexivity.
  - cbn [body]. rewrite Hx0. m_read. cbn [id]. rewrite bool_decide_eq_false_2 by done. m_read. by rewrite Z.eqb_refl.
Qed.

Lemma new_cell_run c s : new_cell c s = Got (fe_next s, s <| fe_next := fe_next s + 1 |> <| fe_toks ::= insert (fe_next s) c |>).
Proof. reflexivity. Qed.
Lemma wnxt_run a n t n0 s : fe_toks s !! a = Some (Build_cell t n0) -> wnxt a n s = Got (tt, s <| fe_toks ::= insert a (Build_cell t n) |>).
Proof. intros H. unfold wnxt, gets, found, mbind, M_bind. by rewrite H. Qed.
Lemma wk_run a f t n0 s : fe_toks s !! a = Some (Build_cell t n0) -> wk a f s = Got (tt, s <| fe_toks ::= insert a (Build_cell (f t) n0) |>).
Proof. intros H. unfold wk, gets, found, mbind, M_bind. by rewrite H. Qed.

(** C11: The [#] operator and the tokenizer agree: for an argument of the tokens [l], the result
    of [stringize] is a string literal whose characters are the text of the argument, the
    tokens with one space where they were apart, although quotes and backslashes in it are
    escaped on the way; the literal is written as [quote_string] writes it, an end follows it,
    and no token that was there changes. *)
Theorem stringize_roundtrip hash arg h nh f l e s : segment (fe_toks s) arg l e -> eof_at (fe_toks s) e -> no_eof l -> fe_toks s !! 0 = None ->
  (length l < p_fuel)%nat -> fe_toks s !! hash = Some (Build_cell h nh) -> fe_files s !! t_file h = Some f -> literal_text (spelled true l) ->
  exists a t n s', stringize hash arg s = Got (a, s') /\
    fe_toks s' !! a = Some (Build_cell t n) /\ eof_at (fe_toks s') n /\
    t_kind t = TK_STR /\ t_str t = spelled true l /\ lexeme t = quote_string (spelled true l) /\
    (forall x, x < fe_next s -> fe_toks s' !! x = fe_toks s !! x).
Proof.
  intros Hseg He Hn H0 Hf Hh Hfile Hlit. unfold stringize. rewrite (bind_run _ _ _ _ _ (join_run _ _ _ _ Hseg He Hn H0 Hf)).
  unfold new_str_token, text_like. m_read.
  erewrite bind_run by (unfold rf, gets, found, mbind, M_bind; rewrite Hfile; reflexivity). cbn [id].
  set (g := Build_File _ _ _ _ _). unfold tokenize_new.
  destruct (tokenize_quoted (fe_next s) g (spelled true l) eq_refl Hlit) as (t & et & Et & H1 & H2 & H3 & H4).
  erewrite bind_run by reflexivity. erewrite bind_run by reflexivity. rewrite Et. m_read.
  cbn [new_tokens]. set (s1 := _ <| current_file := _ |>).
  assert (E : fe_next s1 = fe_next s + 1 /\ fe_toks s1 = fe_toks s) by done. destruct E as [E1 E2]. clearbody s1.
  rewrite (bind_run _ _ _ _ _ (new_cell_run _ _)). set (s2 := _ <| fe_toks ::= _ |>).
  assert (E : fe_next s2 = fe_next s + 2 /\ fe_toks s2 = <[fe_next s1 := Build_cell t 0]> (fe_toks s1)) by (split; [cbn; lia|done]).
  destruct E as [E3 E4]. clearbody s2. rewrite E1, E2 in *.
  erewrite bind_run.
  2: { rewrite (bind_run _ _ _ _ _ (new_cell_run _ _)). erewrite bind_run by apply ret_run.
       erewrite bind_run by (eapply wnxt_run; cbn; apply lookup_insert_eq). apply ret_run. }
  erewrite bind_run by (eapply wnxt_run; cbn; rewrite !lookup_insert_ne by lia; rewrite E4; apply lookup_insert_eq).
  rewrite ret_run. eexists _, t, (fe_next s2), _. split; [reflexivity|]. cbn. rewrite E3, E4.
  split; [apply lookup_insert_eq|]. split; [|split; [done|split; [done|split; [done|]]]].
  - exists et, 0. rewrite lookup_insert_ne by lia. by rewrite lookup_insert_eq.
  - intros x Hx. by rewrite !lookup_insert_ne by lia.
Qed.
End strings.

(** ** Expansion *)

(** The state with other tokens and more memory in use. *)
Definition with_toks (s : fe) (n : Z) (m : gmap Z cell) : fe := s <| fe_next := n |> <| fe_toks := m |>.

(** Tokens at increasing addresses from [lo] to before [hi], linked, and [e] after them. *)
Fixpoint built (m : gmap Z cell) (lo hi a : Z) (l : list Token) (e : Z) : Prop :=
  match l with
  | [] => a = e
  | t :: l => lo <= a < hi /\ exists n, m !! a = Some (Build_cell t n) /\ built m (a + 1) hi n l e
  end.

Lemma built_segment m lo hi a l e : built m lo hi a l e -> segment m a l e.
Proof. revert lo a. induction l as [|t l IH]; intros lo a; [done|]. intros (_ & n & H & Hl). exists n. split; [done|by eapply IH]. Qed.

Lemma built_frame m m' lo hi a l e : (forall x, lo <= x < hi -> m' !! x = m !! x) -> built m lo hi a l e -> built m' lo hi a l e.
Proof.
  revert lo a. induction l as [|t l IH]; intros lo a Hm; [done|]. intros (Ha & n & H & Hl). split; [done|]. exists n.
  split; [by rewrite Hm|]. apply IH; [|done]. intros x Hx. apply Hm. lia.
Qed.

Lemma built_wider m lo lo' hi hi' a l e : lo' <= lo -> hi <= hi' -> built m lo hi a l e -> built m lo' hi' a l e.
Proof.
  revert lo lo' a. induction l as [|t l IH]; intros lo lo' a Hlo Hhi; [done|]. intros (Ha & n & H & Hl). split; [lia|]. exists n.
  split; [done|]. eapply IH; [|done|exact Hl]. lia.
Qed.

(** One more at the end. *)
Lemma built_snoc m lo hi hi' a l x t e : built m lo hi a l x -> lo <= x -> hi <= x < hi' -> m !! x = Some (Build_cell t e) -> built m lo hi' a (l ++ [t]) e.
Proof.
  revert lo a. induction l as [|u l IH]; intros lo a; cbn [app built].
  - intros -> Hx Hh Ht. split; [lia|]. by exists e.
  - intros (Ha & n & H & Hl) Hx Hh Ht. split; [lia|]. exists n. split; [done|]. apply IH; try done. lia.
Qed.

(** The list that [link] builds: its tokens, from [lo] to before [hi], the last one open. *)
Definition open_list (m : gmap Z cell) (lo hi : Z) (l : Z * Z) (acc : list Token) : Prop :=
  match acc with
  | [] => l = (0, 0)
  | _ => exists init t, acc = init ++ [t] /\ built m lo l.2 l.1 init l.2 /\ lo <= l.2 < hi /\ m !! l.2 = Some (Build_cell t 0)
  end.

Lemma open_snoc m lo hi first cur init t : built m lo cur first init cur -> lo <= cur < hi -> m !! cur = Some (Build_cell t 0) ->
  open_list m lo hi (first, cur) (init ++ [t]).
Proof. intros. unfold open_list. destruct (init ++ [t]) as [|] eqn:E; [by destruct init|]. rewrite <- E. by exists init, t. Qed.

Lemma open_cases m lo hi l acc : open_list m lo hi l acc ->
  (acc = [] /\ l = (0, 0)) \/
  (exists init t, acc = init ++ [t] /\ built m lo l.2 l.1 init l.2 /\ lo <= l.2 < hi /\ m !! l.2 = Some (Build_cell t 0)).
Proof. destruct acc; [by left|by right]. Qed.

Lemma open_frame m m' lo hi hi' l acc : (forall x, lo <= x < hi -> m' !! x = m !! x) -> hi <= hi' -> open_list m lo hi l acc -> open_list m' lo hi' l acc.
Proof.
  intros Hm Hh [[-> ->]|(init & t & -> & Hb & Hl & Ht)]%open_cases; [done|]. destruct l as [first cur]. cbn in *.
  apply open_snoc; [|lia|by rewrite Hm]. eapply built_frame; [|exact Hb]. intros x Hx. apply Hm. lia.
Qed.

Section expansion.
Context {P : Parser}.

Lemma with_toks_id s : with_toks s (fe_next s) (fe_toks s) = s.
Proof. by destruct s. Qed.

Lemma copy_token_run s n m x t nx : m !! x = Some (Build_cell t nx) -> copy_token x (with_toks s n m) = Got (n, with_toks s (n + 1) (<[n := Build_cell t 0]> m)).
Proof. intros H. unfold copy_token. erewrite bind_run by (eapply rk_run; exact H). reflexivity. Qed.

(** [link] of a new token at [x]; only the last token so far changes. *)
Lemma link_run s n m lo hi l acc x u : open_list m lo hi l acc -> 0 < lo -> lo <= hi <= x -> x < n -> m !! x = Some (Build_cell u 0) ->
  exists l' m', link l x (with_toks s n m) = Got (l', with_toks s n m') /\ open_list m' lo n l' (acc ++ [u]) /\
    (forall y, ~ (lo <= y < hi) -> m' !! y = m !! y).
Proof.
  intros [[-> ->]|(init & t & -> & Hb & Hl & Ht)]%open_cases Hlo Hx Hn Hu; unfold link.
  - exists (x, x), m. split; [done|]. split; [|done]. by apply (open_snoc m lo n x x []); [|lia|].
  - destruct l as [first cur]. cbn in Hb, Hl, Ht |- *. destruct (Z.eqb_spec cur 0) as [|_]; [lia|].
    erewrite bind_run by (eapply wnxt_run; exact Ht). exists (first, x), (<[cur := Build_cell t x]> m). split; [done|]. split.
    + apply open_snoc; [|lia|by rewrite lookup_insert_ne by lia].
      eapply (built_snoc _ lo cur x first init cur); [|lia..|apply lookup_insert_eq].
      eapply built_frame; [|exact Hb]. intros y Hy. apply lookup_insert_ne. lia.
    + intros y Hy. apply lookup_insert_ne. lia.
Qed.

(** A fresh cell that is linked. *)
Lemma link_fresh s n m lo l acc u : open_list m lo n l acc -> 0 < lo <= n ->
  exists l' m', link l n (with_toks s (n + 1) (<[n := Build_cell u 0]> m)) = Got (l', with_toks s (n + 1) m') /\
    open_list m' lo (n + 1) l' (acc ++ [u]) /\ (forall y, y < lo -> m' !! y = m !! y).
Proof.
  intros Hl Hlo. destruct (link_run s (n + 1) (<[n := Build_cell u 0]> m) lo n l acc n u) as (l' & m' & E & Ho & Hy); [|lia..|apply lookup_insert_eq|].
  - eapply open_frame; [|reflexivity|exact Hl]. intros y Hy. apply lookup_insert_ne. lia.
  - exists l', m'. split; [done|]. split; [done|]. intros y Hy2. rewrite Hy by lia. apply lookup_insert_ne. lia.
Qed.

(** The tokens of a list below [lo], which new tokens do not touch. *)
Fixpoint below (m : gmap Z cell) (lo a : Z) (l : list Token) (e : Z) : Prop :=
  match l with
  | [] => a = e
  | t :: l => 0 < a < lo /\ exists n, m !! a = Some (Build_cell t n) /\ below m lo n l e
  end.

Lemma below_frame m m' lo a l e : (forall y, y < lo -> m' !! y = m !! y) -> below m lo a l e -> below m' lo a l e.
Proof.
  intros Hm. revert a. induction l as [|t l IH]; intros a; [done|]. intros (Ha & n & H & Hl). split; [done|]. exists n.
  split; [rewrite Hm; [done|lia]|by apply IH].
Qed.

Lemma built_below m lo hi a l e : 0 < lo -> built m lo hi a l e -> below m hi a l e.
Proof.
  revert lo a. induction l as [|t l IH]; intros lo a Hlo; [done|]. intros (Ha & n & H & Hl). split; [lia|]. exists n. split; [done|]. eapply IH; [|exact Hl]. lia.
Qed.

Definition paint (hs : list (list Z)) (t : Token) : Token := t <| t_hideset ::= fun h => hideset_union h hs |>.

Lemma paint_loop s hs lo : 0 < lo -> forall l x n m first acc fuel, below m lo x l 0 -> lo <= n -> open_list m lo n first acc -> (length l < fuel)%nat ->
  exists first' m', loopM fuel (fun '(l, t) =>
    if t =? 0 then mret (inr l) else
    c ← copy_token t ; wk c (paint hs) ;;
    l ← link l c ; n ← nxt t ; mret (inl (l, n))) (first, x) (with_toks s n m) =
    Got (first', with_toks s (n + Z.of_nat (length l)) m') /\
  open_list m' lo (n + Z.of_nat (length l)) first' (acc ++ map (paint hs) l) /\ (forall y, y < lo -> m' !! y = m !! y).
Proof.
  intros Hlo. induction l as [|t l IH]; intros x n m first acc [|fuel] Hx Hn Ho Hf; cbn [length] in *; try lia.
  - cbn in Hx. subst x. exists first, m. cbn [Z.of_nat map]. rewrite Z.add_0_r, app_nil_r. split; [by apply loop_stop|done].
  - destruct Hx as (Hx & nx & Ht & Hl).
    destruct (link_fresh s n m lo first acc (paint hs t) Ho ltac:(lia)) as (first' & m' & E & Ho' & Hy).
    destruct (IH nx (n + 1) m' first' (acc ++ [paint hs t]) fuel) as (f2 & m2 & E2 & Ho2 & Hy2); [by eapply below_frame|lia|done|lia|].
    exists f2, m2. replace (n + Z.of_nat (S (length l))) with (n + 1 + Z.of_nat (length l)) by lia. split; [|split].
    + rewrite <- E2. apply loop_next. destruct (Z.eqb_spec x 0) as [|_]; [lia|].
      rewrite (bind_run _ _ _ _ _ (copy_token_run s n m x t nx Ht)).
      erewrite bind_run by (eapply wk_run; apply lookup_insert_eq).
      change ((with_toks s (n + 1) (<[n := Build_cell t 0]> m)) <| fe_toks ::= insert n (Build_cell (paint hs t) 0) |>) with
        (with_toks s (n + 1) (<[n := Build_cell (paint hs t) 0]> (<[n := Build_cell t 0]> m))).
      rewrite insert_insert_eq, (bind_run _ _ _ _ _ E). erewrite bind_run by (eapply nxt_run; cbn; rewrite Hy by lia; exact Ht). done.
    + cbn [map]. by rewrite <- app_assoc in Ho2.
    + intros y Hy3. by rewrite Hy2, Hy.
Qed.

Lemma copy_loop s lo : 0 < lo -> forall l x e n m first acc fuel, below m lo x l e -> e < lo -> eof_at m e -> no_eof l ->
  lo <= n -> open_list m lo n first acc -> (length l < fuel)%nat ->
  exists first' m', loopM fuel (fun '(l, t) =>
    e ← is_eof t ; if (e : bool) then mret (inr (l, t)) else
    c ← copy_token t ; l ← link l c ; n ← nxt t ; mret (inl (l, n))) (first, x) (with_toks s n m) =
    Got (first', e, with_toks s (n + Z.of_nat (length l)) m') /\
  open_list m' lo (n + Z.of_nat (length l)) first' (acc ++ l) /\ (forall y, y < lo -> m' !! y = m !! y).
Proof.
  intros Hlo. induction l as [|t l IH]; intros x e n m first acc [|fuel] Hx He (te & ne & Hte & Hke) Hk Hn Ho Hf; cbn [length] in *; try lia.
  - cbn in Hx. subst x. exists first, m. cbn [Z.of_nat]. rewrite Z.add_0_r, app_nil_r. split; [|done]. apply loop_stop.
    rewrite (bind_run _ _ _ _ _ (is_eof_run e te ne (with_toks s n m) Hte)). by rewrite bool_decide_eq_true_2.
  - destruct Hx as (Hx & nx & Ht & Hl). apply Forall_cons in Hk as [Hkt Hk].
    destruct (link_fresh s n m lo first acc t Ho ltac:(lia)) as (first' & m' & E & Ho' & Hy).
    destruct (IH nx e (n + 1) m' first' (acc ++ [t]) fuel) as (f2 & m2 & E2 & Ho2 & Hy2); [by eapply below_frame|done| |done|lia|done|lia|].
    { exists te, ne. by rewrite Hy. }
    exists f2, m2. replace (n + Z.of_nat (S (length l))) with (n + 1 + Z.of_nat (length l)) by lia. split; [|split].
    + rewrite <- E2. apply loop_next. rewrite (bind_run _ _ _ _ _ (is_eof_run x t nx (with_toks s n m) Ht)), bool_decide_eq_false_2 by done.
      rewrite (bind_run _ _ _ _ _ (copy_token_run s n m x t nx Ht)), (bind_run _ _ _ _ _ E).
      erewrite bind_run by (eapply nxt_run; cbn; rewrite Hy by lia; exact Ht). done.
    + by rewrite <- app_assoc in Ho2.
    + intros y Hy3. by rewrite Hy2, Hy.
Qed.

Definition from (tok : Z) (t : Token) : Token := t <| t_origin := tok |>.

Lemma origin_loop s tok n : forall l lo hi a e m fuel, built m lo hi a l e -> hi <= e -> eof_at m e -> no_eof l -> (length l < fuel)%nat ->
  exists m', loopM fuel (fun t =>
    e ← is_eof t ; if (e : bool) then mret (inr tt) else
    wk t (from tok) ;; n ← nxt t ; mret (inl n)) a (with_toks s n m) = Got (tt, with_toks s n m') /\
  built m' lo hi a (map (from tok) l) e /\ (forall y, ~ (lo <= y < hi) -> m' !! y = m !! y).
Proof.
  induction l as [|t l IH]; intros lo hi a e m [|fuel] Hb Hhi (te & ne & Hte & Hke) Hk Hf; cbn [length] in *; try lia.
  - cbn in Hb. subst a. exists m. split; [|done]. apply loop_stop.
    rewrite (bind_run _ _ _ _ _ (is_eof_run e te ne (with_toks s n m) Hte)). by rewrite bool_decide_eq_true_2.
  - destruct Hb as (Ha & nx & Ht & Hl). apply Forall_cons in Hk as [Hkt Hk].
    set (m1 := <[a := Build_cell (from tok t) nx]> m).
    destruct (IH (a + 1) hi nx e m1 fuel) as (m2 & E2 & Hb2 & Hy2); [|done| |done|lia|].
    { eapply built_frame; [|exact Hl]. intros y Hy. apply lookup_insert_ne. lia. }
    { exists te, ne. unfold m1. rewrite lookup_insert_ne by lia. done. }
    exists m2. split; [|split].
    + rewrite <- E2. apply loop_next. rewrite (bind_run _ _ _ _ _ (is_eof_run a t nx (with_toks s n m) Ht)), bool_decide_eq_false_2 by done.
      erewrite bind_run by (eapply wk_run; exact Ht). erewrite bind_run by (eapply nxt_run; apply lookup_insert_eq). done.
    + cbn [map built]. split; [done|]. exists nx. split; [|done]. rewrite Hy2 by lia. apply lookup_insert_eq.
    + intros y Hy. rewrite Hy2 by lia. apply lookup_insert_ne. lia.
Qed.

(** The tokens instead of a macro's name [t], at [tok]: its body with the hideset [hs]. *)
Definition expansion (t : Token) (tok : Z) (hs : list (list Z)) (body : list Token) : list Token :=
  match map (from tok) (map (paint hs) body) with
  | [] => []
  | u :: l => u <| t_at_bol := t_at_bol t |> <| t_has_space := t_has_space t |> :: l
  end.

Lemma append_run s n m lo a l e next : 0 < lo <= n -> below m lo a l e -> e < lo -> eof_at m e -> no_eof l -> l <> [] -> (length l < p_fuel)%nat ->
  exists first m', append a next (with_toks s n m) = Got (first, with_toks s (n + Z.of_nat (length l)) m') /\
    built m' lo (n + Z.of_nat (length l)) first l next /\ (forall y, y < lo -> m' !! y = m !! y).
Proof.
  intros Hlo Hb He Heof Hk Hne Hf. unfold append.
  destruct (copy_loop s lo ltac:(lia) l a e n m (0, 0) [] p_fuel Hb He Heof Hk ltac:(lia) eq_refl Hf) as (l3 & m3 & E3 & Ho & Hy).
  destruct l as [|t l]; [done|]. destruct Hb as (Ha & nx & Ht & _). apply Forall_cons in Hk as [Hkt _].
  rewrite (bind_run _ _ _ _ _ (is_eof_run a t nx (with_toks s n m) Ht)), bool_decide_eq_false_2 by done.
  unfold copy_until_eof. rewrite (bind_run _ _ _ _ _ E3). cbv iota. unfold finish, link.
  apply open_cases in Ho as [[Ho _]|(init & t3 & Eacc & Hb3 & Hc3 & Ht3)]; [done|]. destruct l3 as [first cur]. cbn [fst snd app length] in *.
  destruct (Z.eqb_spec cur 0) as [|_]; [lia|].
  exists first, (<[cur := Build_cell t3 next]> m3). split; [|split].
  - rewrite (bind_run _ _ _ (first, next) (with_toks s (n + Z.of_nat (S (length l))) (<[cur := Build_cell t3 next]> m3))); [done|].
    erewrite bind_run by (eapply wnxt_run; exact Ht3). reflexivity.
  - rewrite Eacc. eapply (built_snoc _ lo cur _ first init cur); [|lia..|apply lookup_insert_eq].
    eapply built_frame; [|exact Hb3]. intros y Hy2. apply lookup_insert_ne. lia.
  - intros y Hy2. rewrite lookup_insert_ne by lia. by apply Hy.
Qed.

Lemma insert_body_run s n m lo hi a l e t tok nt next : 0 < lo -> lo <= hi -> tok < lo -> built m lo hi a l e -> hi <= e < n -> eof_at m e -> no_eof l -> l <> [] ->
  (length l < p_fuel)%nat -> m !! tok = Some (Build_cell t nt) ->
  exists first m', insert_body a tok next (with_toks s n m) = Got (first, with_toks s (n + Z.of_nat (length l)) m') /\
    segment m' first (match map (from tok) l with [] => [] | u :: l => u <| t_at_bol := t_at_bol t |> <| t_has_space := t_has_space t |> :: l end) next /\
    (forall y, y < lo -> m' !! y = m !! y).
Proof.
  intros Hlo Ha Htok Hb He Heof Hk Hne Hf Ht. unfold insert_body.
  destruct (origin_loop s tok n l lo hi a e m p_fuel Hb ltac:(lia) Heof Hk Hf) as (m1 & E1 & Hb1 & Hy1).
  rewrite (bind_run _ _ _ _ _ E1).
  assert (Heof1 : eof_at m1 e) by (destruct Heof as (te & ne & Hte & Hke); exists te, ne; rewrite Hy1 by lia; done).
  destruct (append_run s n m1 n a (map (from tok) l) e next) as (first & m2 & E2 & Hb2 & Hy2);
    [lia|apply (built_below _ lo); [lia|]; eapply built_wider; [reflexivity| |exact Hb1]; lia|lia|done| |by destruct l|by rewrite length_map|].
  { clear -Hk. induction Hk; constructor; done. }
  rewrite (bind_run _ _ _ _ _ E2). rewrite length_map in *.
  destruct l as [|u l]; [done|]. cbn [map length] in *. destruct Hb2 as (Hfirst & n2 & Hu & Hl2).
  erewrite bind_run by (eapply rk_run; cbn; rewrite Hy2, Hy1 by lia; exact Ht). cbn [id].
  erewrite bind_run by (eapply wk_run; exact Hu).
  eexists first, (<[first := Build_cell _ n2]> m2). split; [reflexivity|]. split.
  - cbn [segment]. exists n2. split; [apply lookup_insert_eq|]. apply (built_segment _ (first + 1) (n + Z.of_nat (S (length l)))).
    eapply built_frame; [|exact Hl2]. intros y Hy. apply lookup_insert_ne. lia.
  - intros y Hy. rewrite lookup_insert_ne by lia. rewrite Hy2, Hy1 by lia. done.
Qed.

Lemma add_hideset_run s hs a l te : below (fe_toks s) (fe_next s) a (l ++ [te]) 0 -> 0 < fe_next s -> (length l + 1 < p_fuel)%nat ->
  exists first e n m, add_hideset a hs s = Got (first, with_toks s n m) /\ built m (fe_next s) e first (map (paint hs) l) e /\
    fe_next s <= e < n /\ m !! e = Some (Build_cell (paint hs te) 0) /\ (forall y, y < fe_next s -> m !! y = fe_toks s !! y).
Proof.
  intros Hb Hn Hf. unfold add_hideset.
  destruct (paint_loop s hs (fe_next s) Hn (l ++ [te]) a (fe_next s) (fe_toks s) (0, 0) [] p_fuel Hb ltac:(lia) eq_refl) as (l1 & m1 & E & Ho & Hy);
    [rewrite length_app; cbn; lia|].
  rewrite with_toks_id in E. rewrite (bind_run _ _ _ _ _ E). rewrite map_app in Ho. cbn [map app] in Ho.
  apply open_cases in Ho as [[Ho _]|(init & t & Eacc & Hb1 & Hc & Ht)]; [by destruct l|].
  apply app_inj_tail in Eacc as [<- <-]. destruct l1 as [first cur]. cbn in *. exists first, cur, (fe_next s + Z.of_nat (length (l ++ [te]))), m1.
  split; [done|]. split; [done|]. split; [lia|]. by split.
Qed.
End expansion.

Lemma painted_no_eof hs l : no_eof l -> no_eof (map (paint hs) l).
Proof. induction 1; constructor; done. Qed.

Lemma expansion_hides t tok h name body : Forall (fun u => hideset_contains (t_hideset u) name = true) (expansion t tok (hideset_union h [name]) body).
Proof.
  unfold expansion. assert (Forall (fun u => hideset_contains (t_hideset u) name = true) (map (from tok) (map (paint (hideset_union h [name])) body))) as H.
  { induction body as [|u body IH]; [constructor|]. constructor; [|exact IH]. unfold hideset_contains. cbn. unfold hideset_union.
    rewrite !existsb_app. cbn. rewrite bool_decide_eq_true_2 by done. by rewrite !orb_true_r. }
  destruct (map _ _) as [|u l]; [done|]. apply Forall_cons in H as [Hu H]. by constructor.
Qed.

(** C6: The expansion of an object-like macro: its name [t] at [tok], that its hideset does
    not hide, is replaced by new tokens, the body's with the flags of [t] on the first, and the
    tokens after the name follow.  Each of them has [t]'s hideset and the macro's name
    besides: the name is not expanded again in what it expands to.  No token that was there
    changes, the macro's body is as it was for the next use.  (A body of no tokens is not
    meant: see the last section.) *)
Theorem object_macro_expanded (P : Parser) (F : SoftFloat) (E : CcFiles) pre s tok t next a mac body te :
  fe_toks s !! tok = Some (Build_cell t next) -> hideset_contains (t_hideset t) (lexeme t) = false ->
  find_macro tok s = Got (a, s) -> a <> 0 -> fe_macs s !! a = Some mac -> mc_handler mac = None -> mc_objlike mac = true ->
  below (fe_toks s) (fe_next s) (mc_body mac) (body ++ [te]) 0 -> t_kind te = TK_EOF -> no_eof body -> body <> [] ->
  (length body + 1 < p_fuel)%nat -> 0 < tok < fe_next s ->
  exists first s', expand_macro pre tok s = Got (Some first, s') /\
    segment (fe_toks s') first (expansion t tok (hideset_union (t_hideset t) [mc_name mac]) body) next /\
    Forall (fun u => hideset_contains (t_hideset u) (mc_name mac) = true) (expansion t tok (hideset_union (t_hideset t) [mc_name mac]) body) /\
    (forall x, x < fe_next s -> fe_toks s' !! x = fe_toks s !! x) /\ (exists n m, s' = with_toks s n m).
Proof.
  intros Ht Hh Hm Ha Hmac Hhd Hobj Hbody Hte Hne Hnil Hf Htok. set (hs := hideset_union (t_hideset t) [mc_name mac]).
  destruct (add_hideset_run s hs (mc_body mac) body te Hbody ltac:(lia) Hf) as (first & e & n & m & E1 & Hb & He & Hee & Hy).
  destruct (insert_body_run s n m (fe_next s) e first (map (paint hs) body) e t tok next next) as (r & m2 & E2 & Hseg & Hy2);
    [lia|lia|lia|done|lia|by exists (paint hs te), 0|by apply painted_no_eof|by destruct body|rewrite length_map; lia|rewrite Hy by lia; done|].
  exists r, (with_toks s (n + Z.of_nat (length (map (paint hs) body))) m2). split; [|split; [exact Hseg|split; [by apply expansion_hides|split; [|by eexists _, _]]]].
  - unfold expand_macro. m_read. cbn [id]. rewrite Hh, (bind_run _ _ _ _ _ Hm). destruct (Z.eqb_spec a 0) as [|_]; [done|].
    erewrite bind_run by (unfold the_macro, gets, found, mbind, M_bind; rewrite Hmac; reflexivity). m_read.
    rewrite Hhd, Hobj. fold hs. rewrite (bind_run _ _ _ _ _ E1), (bind_run _ _ _ _ _ E2). reflexivity.
  - intros x Hx. cbn. by rewrite Hy2, Hy.
Qed.

Module Demo.
#[local] Instance parser : Parser := no_parser 20.

(** [a # ifdef b # else c # endif # else]. *)
Definition tok (bol : bool) (w : string) : Token := (word_token (str w)) <| t_at_bol := bol |>.
Definition skipped : list Token := [tok true "a"; tok true "#"; tok false "ifdef"; tok false "b"; tok true "#"; tok false "else"; tok true "c"; tok true "#"; tok false "endif"].
Definition rest : list Token := [tok true "#"; tok false "else"].
Definition tokens_at (l : list Token) : fe := fe_init <| fe_toks := list_to_map (CcParseSpec.Demo.chain 100 l) |>.

Lemma group_skipped_witness : exists stop, skip_cond_incl 100 (tokens_at (skipped ++ rest)) = Got (stop, tokens_at (skipped ++ rest)) /\ stop = 109.
Proof.
  destruct (group_skipped parser (tokens_at (skipped ++ rest)) 100 1 2 skipped rest 111) as (stop & H1 & _ & H2).
  - apply group_text; [done|by vm_compute|].
    apply (group_nested 20 true 0 4 0 (tok true "#") (tok false "ifdef")
             [tok false "b"; tok true "#"; tok false "else"; tok true "c"] (tok true "#") (tok false "endif") []); try done; try lia; try by vm_compute.
    + apply group_text; [done|by vm_compute|]. apply group_line; [done|by vm_compute..|].
      apply group_text; [done|by vm_compute|]. apply group_text; [done|by vm_compute|]. apply group_end.
    + apply group_end.
  - cbn. lia.
  - cbn. lia.
  - cbn -[tokens_at skipped rest]. repeat (eexists; split; [vm_compute; reflexivity|]). reflexivity.
  - right. exists (tok true "#"), (tok false "else"). by repeat split; vm_compute.
  - exists stop. split; [exact H2|]. repeat (destruct H1 as (? & E & H1); vm_compute in E; injection E as <-). by cbn in H1.
Defined.

(** [# ( a + "\\" )] *)
Definition argument : list Token :=
  [tok false "a"; (tok false "+") <| t_has_space := true |>; (word_token [34; 92; 92; 34]) <| t_has_space := true |>].
Definition end_token : Token := (word_token []) <| t_kind := TK_EOF |>.
Definition hash_state : fe :=
  fe_init <| fe_next := 500 |> <| fe_files := {[0 := Build_File (str "a.c") 1 [] (str "a.c") 0]} |>
    <| fe_toks := list_to_map (CcParseSpec.Demo.chain 100 (argument ++ [end_token]) ++ CcParseSpec.Demo.chain 200 [tok false "#"]) |>.

Lemma stringize_roundtrip_witness : exists a t n s', stringize 200 100 hash_state = Got (a, s') /\
  fe_toks s' !! a = Some (Build_cell t n) /\ t_kind t = TK_STR /\ t_str t = str "a + " ++ [34; 92; 92; 34] /\
  lexeme t = [34] ++ str "a + " ++ [92; 34; 92; 92; 92; 92; 92; 34; 34].
Proof.
  destruct (stringize_roundtrip 200 100 (tok false "#") 201 (Build_File (str "a.c") 1 [] (str "a.c") 0) argument 103 hash_state)
    as (a & t & n & s' & E & Ha & _ & Hk & Hs & Hl & _).
  - cbn -[hash_state argument]. repeat (eexists; split; [vm_compute; reflexivity|]). reflexivity.
  - exists end_token, 104. by split; [vm_compute|].
  - repeat first [apply Forall_nil; exact I | apply Forall_cons; split]; done.
  - by vm_compute.
  - cbn. lia.
  - by vm_compute.
  - by vm_compute.
  - unfold literal_text. vm_compute spelled. repeat first [apply Forall_nil; exact I | apply Forall_cons; split]; lia.
  - exists a, t, n, s'. by split; [|split; [|split; [|split]]].
Defined.

(** [N ;] with [#define N (1 + N)]. *)
Definition name_token : Token := (tok true "N") <| t_kind := TK_IDENT |>.
Definition macro_body : list Token := [tok false "("; tok false "1"; tok false "+"; (tok false "N") <| t_kind := TK_IDENT |>; tok false ")"].
Definition macro_state : fe :=
  fe_init <| fe_next := 500 |> <| fe_macs := {[300 := Build_Macro (str "N") true [] None 200 None]} |>
    <| macros := default new_map (hashmap_put new_map (str "N") 300) |>
    <| fe_toks := list_to_map (CcParseSpec.Demo.chain 100 [name_token; tok false ";"] ++ CcParseSpec.Demo.chain 200 macro_body ++ [(205, Build_cell end_token 0)]) |>.

Lemma object_macro_expanded_witness : exists first s', expand_macro (E := {| file_bytes _ := None; file_exists _ := false; include_paths := []; base_file := [] |})
    (fun a => mret a) 100 macro_state = Got (Some first, s') /\
  segment (fe_toks s') first (expansion name_token 100 [str "N"] macro_body) 101 /\
  map lexeme (expansion name_token 100 [str "N"] macro_body) = [str "("; str "1"; str "+"; str "N"; str ")"].
Proof.
  destruct (object_macro_expanded parser CcParseSpec.Demo.soft {| file_bytes _ := None; file_exists _ := false; include_paths := []; base_file := [] |}
    (fun a => mret a) macro_state 100 name_token 101 300 (Build_Macro (str "N") true [] None 200 None) macro_body end_token)
    as (first & s' & E & Hs & _).
  - vm_compute. reflexivity.
  - vm_compute. reflexivity.
  - vm_compute. reflexivity.
  - lia.
  - vm_compute. reflexivity.
  - reflexivity.
  - reflexivity.
  - unfold macro_body. cbn -[macro_state fe_toks fe_next]. repeat (split; [vm_compute; split; reflexivity|]; eexists; split; [vm_compute; reflexivity|]). reflexivity.
  - reflexivity.
  - repeat first [apply Forall_nil; exact I | apply Forall_cons; split]; done.
  - discriminate.
  - cbn. lia.
  - split; reflexivity.
  - exists first, s'. split; [exact E|]. split; [exact Hs|]. vm_compute. reflexivity.
Defined.
End Demo.

(** ** Whole programs

    [compile], [assemble_source], [link_images] and the processor on source text. *)
Module Programs.
#[local] Existing Instances CcParseSpec.Demo.soft CcParseSpec.Demo.fold_soft.
#[local] Instance parser : Parser := parser_at 2000 60.

Definition lines (l : list string) : list Z := flat_map (fun s => str s ++ [10]) l.
Definition one_file (src : list Z) : CcFiles := {|
  file_bytes p := if bool_decide (p = str "a.c") then Some src else None; file_exists p := bool_decide (p = str "a.c");
  include_paths := []; base_file := str "a.c" |}.

(** The objects of the program: names and data. *)
Fixpoint objects (fuel : nat) (m : gmap Z CObj) (a : Z) : list CObj :=
  match fuel, m !! a with S fuel, Some o => o :: objects fuel m (ob_next o) | _, _ => [] end.
Definition globals_of (source : list string) : list (list Z * option (list Z)) + cc_stop :=
  let E := one_file (lines source) in
  match front_end (str "a.c") fe_init with
  | Got (first, s) => inl (map (fun o => (ob_name o, ob_init_data o)) (objects 100 (fe_objs s) first))
  | Fail why => inr why
  end.
(** The message for a source that is refused. *)
Definition refusal (source : list string) : option (list Z) :=
  match globals_of source with inr (CcErrorTok _ message) => Some message | _ => None end.

(** The startup code of the guest, cut down to a call of [main] with a stack. *)
Definition start : list Z :=
  lines [".global _start"; ".global __csp"; ".text"; "_start:"; "  MOV R0, stack_top"; "  STORE R0, __csp"; "  CALL main";
         "_done:"; "  JMP _done"; ".data"; "__csp:"; "  .word 0"; ".bss"; ".space 4096"; "stack_top:"; ".space 16"].

Definition linked_program (source : list string) : option (list Z) :=
  let E := one_file (lines source) in
  match compile (fun _ _ => 0) (str "a.c") with
  | inl code =>
      match assemble_source empty_image (text_of code), assemble_source empty_image start with
      | Ok a, Ok b => match link_images [b; a] with Ok bytes => Some bytes | Err _ => None end
      | _, _ => None
      end
  | inr _ => None
  end.

Definition boot (bytes : list Z) : cpu :=
  let image : gmap Z Z := list_to_map (imap (fun i b => (CFG_USER_LOAD_BASE + Z.of_nat i, b)) (drop 12 bytes)) in
  Build_cpu (fun _ => 0) CFG_USER_LOAD_BASE (CFG_USER_LOAD_BASE + 2 ^ 16) 0 (fun a => default 0 (image !! a)).

(** [R0] after so many instructions. *)
Definition result (n : nat) (source : list string) : option Z :=
  bytes ← linked_program source ; m ← steps (2 ^ 27) n (boot bytes) ; Some (regs m 0).

(** From the text of a program to the processor: a program with a struct, a macro, an
    initialized pointer, a loop and a [switch] is preprocessed, parsed, compiled, assembled,
    linked with the startup code and run, and its result is what C says. *)
Theorem program_runs :
  result 600 ["struct p { char c; int a[3]; struct p *next; };"; "#define SQ(x) ((x)*(x))"; "static struct p g = { 'a', {1, 2, SQ(3)}, &g };";
    "int main(void) { int i = 0, t = 0; while (i < 3) t += g.next->a[i++];";
    "  switch (t) { case 12: return t * 100 + sizeof(struct p); default: return 1; } }"] = Some 1220 /\
  result 400 ["static int sum(int n) { int s = 0, i; for (i = 0; i < n; i = i + 1) s = s + i; return s; }"; "#if defined(__FILE__) && 0"; "#error no";
    "#elif 1"; "int main(void) { return sum(5); }"; "#endif"] = Some 10.
Proof. split; vm_compute; reflexivity. Qed.

(** What the compiler does wrong. *)

(** A member after a bit-field in a packed struct lies on the bit-field. *)
Lemma packed_bit_field_overlap : place_member true 3 1 (CcParseSpec.Demo.member 1 0 ty_char 1 false 0) 1 =
  Some (11, CcParseSpec.Demo.member 1 0 ty_char 1 false 0, 1).
Proof. vm_compute. reflexivity. Qed.

(** The members after a bit-field without an initializer stay 0. *)
Lemma bit_field_ends_initializer :
  globals_of ["struct { int a : 3; int b; } x = { .b = 5 };"; "struct { int a : 3; int b; } y = { 1, 5 };"] =
  inl [(str "y", Some [1; 0; 0; 0; 5; 0; 0; 0]); (str "x", Some [0; 0; 0; 0; 0; 0; 0; 0])].
Proof. vm_compute. reflexivity. Qed.

(** Two tentative definitions: both are removed. *)
Lemma tentative_twice_lost : globals_of ["int x;"; "int x;"; "int y = 3;"] = inl [(str "y", Some [3; 0; 0; 0])].
Proof. vm_compute. reflexivity. Qed.

Lemma typedef_static_accepted : globals_of ["typedef static int x; x y = 1;"] = inl [(str "y", Some [1; 0; 0; 0])].
Proof. vm_compute. reflexivity. Qed.

(** A macro of no tokens at the end of a line: the next line's [#] starts no directive. *)
Lemma empty_macro_joins_lines : refusal ["#define E"; "int x = 1; E"; "#define Y 1"] = Some (str "variable name omitted").
Proof. vm_compute. reflexivity. Qed.

(** [#line] in a group: the group is not ended any more. *)
Lemma line_in_condition : refusal ["#if 1"; "#line 7"; "int x;"; "#endif"] = Some (str "unterminated conditional directive").
Proof. vm_compute. reflexivity. Qed.

(** Pointers that are NULL in the compiler. *)
Lemma unnamed_bit_field_member : globals_of ["struct { int a : 3; int : 5; int b; } s; int f(void) { return s.b; }"] = inr CcUndefined.
Proof. vm_compute. reflexivity. Qed.
Lemma struct_plus_int : globals_of ["struct { int a; } s; int f(void) { s + 1; return 1; }"] = inr CcUndefined.
Proof. vm_compute. reflexivity. Qed.

(** [typeof] of a parameter as a parameter's type brings the parameters after it along. *)
Lemma typeof_parameter : refusal ["int f(int a, int b) { int g(typeof(a) x); return g(1); }"] = Some (str "too few arguments").
Proof. vm_compute. reflexivity. Qed.

(** Negative constants are not less than 0, and a 32-bit sum does not wrap. *)
Lemma constants_unsigned :
  globals_of ["#if -1 < 0"; "int x = 1;"; "#else"; "int x = 2;"; "#endif"; "int y = -1 < 0; int z = 2147483647 + 1 < 0; int b = (_Bool)256;"] =
  inl [(str "b", Some [0; 0; 0; 0]); (str "z", Some [0; 0; 0; 0]); (str "y", Some [0; 0; 0; 0]); (str "x", Some [2; 0; 0; 0])].
Proof. vm_compute. reflexivity. Qed.

Lemma long_character : globals_of ["int a = 'ab';"] = inl [(str "a", Some [97; 0; 0; 0])].
Proof. vm_compute. reflexivity. Qed.

(** The operands of [~] and of shifts are not promoted: the type of the result is [char]. *)
Lemma unpromoted_operators : result 300 ["int main(void) { unsigned char c = 0; return sizeof(~c) * 10 + sizeof(c << 1); }"] = Some 11.
Proof. vm_compute. reflexivity. Qed.

(** The sum of an [int] and a [long] of four bytes has the type of the left operand. *)
Lemma int_plus_long : result 300 ["int main(void) { int a = 0; long b = 0; return _Generic(a + b, int: 1, long: 2) * 10 + _Generic(b + a, int: 1, long: 2); }"] = Some 12.
Proof. vm_compute. reflexivity. Qed.
End Programs.

(** ** A program for every input

    A function of the language from its text to the processor, for all its arguments: the
    front end makes its tree ([sum_compiled]), the tree returns the sum by induction on the
    rounds of its loop ([sum_runs]), and the correctness of the code generator
    ([call_run]) carries that to the executable that assembler and linker make. *)
Module Sum.
Import Programs.
#[local] Existing Instances CcParseSpec.Demo.soft CcParseSpec.Demo.fold_soft Programs.parser.

Definition sum_source : list string := ["int sum(int n) { int s, i; s = 0; for (i = 0; i < n; i = i + 1) s = s + i; return s; }"].
#[local] Instance sum_file : CcFiles := one_file (lines sum_source).
(** The lines and the variables that the front end leaves; the function is at [fn_sum], its
    parameter and its variables at [v_n], [v_s] and [v_i]. *)
Definition sum_program : list Z * gmap Z Obj := Eval vm_compute in match program_of (str "a.c") with Got p => p | Fail _ => ([], ∅) end.
Definition fn_sum : Z := 224.
Definition v_n : Z := 227.
Definition v_s : Z := 245.
Definition v_i : Z := 249.
Definition sum_store : Z -> Obj := store_of sum_program.2.
Definition sum_body : Node := Eval vm_compute in match o_body (sum_store 224) with Some b => b | None => CompilerSpec.Demo.num 0 end.

(** The trees of words: [int] nodes as the parser makes them. *)
Definition int_ty : Ty := Build_Ty TY_INT 4 4 false 0 None.
Definition e_plain (k : NodeKind) (ty : option Ty) (lhs rhs cond then_ init inc : option Node) (brk cont : list Z) (body : list Node) (v : option Z) (val : Z) : Node :=
  Build_Node k ty lhs rhs cond then_ None init inc brk cont body None [] None [] [] [] None 0 0 [] v val 0.
Definition e_node k l r v val := e_plain k (Some int_ty) l r None None None None [] [] [] v val.
Definition e_num z := e_node ND_NUM None None None z.
Definition e_var v := e_node ND_VAR None None (Some v) 0.
Definition e_cast e := e_node ND_CAST (Some e) None None 0.
Definition e_bin k a b := e_node k (Some (e_cast a)) (Some (e_cast b)) None 0.
Definition e_set v e := e_node ND_ASSIGN (Some (e_var v)) (Some (e_cast e)) None 0.
Definition s_node k l body := e_plain k None l None None None None None [] [] body None 0.
Definition s_expr e := s_node ND_EXPR_STMT (Some e) [].
Definition s_block body := s_node ND_BLOCK None body.
Definition s_for init cond inc body brk cont := e_plain ND_FOR None None None (Some cond) (Some body) (Some init) (Some inc) brk cont [] None 0.

Definition nothing : Node := s_expr (e_plain ND_NULL_EXPR None None None None None None None [] [] [] None 0).
Definition sum_for : Node :=
  s_for (s_expr (e_set v_i (e_num 0))) (e_bin ND_LT (e_var v_i) (e_var v_n)) (e_set v_i (e_bin ND_ADD (e_var v_i) (e_num 1)))
    (s_expr (e_set v_s (e_bin ND_ADD (e_var v_s) (e_var v_i)))) (str ".L..2") (str ".L..3").

(** What the front end makes of the text. *)
Lemma sum_parsed : o_body (sum_store fn_sum) = Some
  (s_block [s_block [nothing; nothing]; s_expr (e_set v_s (e_num 0)); sum_for; s_node ND_RETURN (Some (e_cast (e_var v_s))) []]).
Proof. vm_compute. reflexivity. Qed.

Section sum.
#[local] Set Default Proof Using "Type*".
Context (vars : Z -> Obj) (locals : list Z) (rho : list Z -> Z) (fp : Z) (V : Z -> bool).
Context (Hvar : forall v, v ∈ [v_n; v_s; v_i] -> is_promoted vars v = true /\ v ∈ locals).
Local Abbreviation eval := (CSem.eval vars locals rho fp V (Some int_ty)).
Local Abbreviation exec := (CSem.exec vars locals rho fp V (Some int_ty)).
Local Abbreviation val := CSem.rv.

Lemma eval_literal n z s : eval (S n) (e_num z) s = Some (Some (u32 z), s).
Proof. reflexivity. Qed.
Lemma eval_var n v s : v ∈ [v_n; v_s; v_i] -> eval (S n) (e_var v) s = Some (Some (val s v), s).
Proof.
  intros H. destruct (Hvar v H) as [H1 H2].
  assert (Hs : eval (S n) (e_var v) s =
    (if is_promoted vars v then (if bool_decide (v ∈ locals) then Some (Some (val s v), s) else None)
     else a ← var_addr vars locals rho fp v ; x ← load_as V int_ty s a ; Some (Some x, s))) by reflexivity.
  by rewrite Hs, H1, bool_decide_eq_true_2.
Qed.
Lemma eval_cast n e x s s' : n_ty e = Some int_ty -> eval n e s = Some (Some x, s') -> eval (S n) (e_cast e) s = Some (Some x, s').
Proof.
  intros Ht H. assert (Hs : eval (S n) (e_cast e) s = ('(x, s) ← used e (eval n e s) ; Some (Some x, s))) by reflexivity.
  rewrite Hs, H. unfold used. by rewrite Ht.
Qed.
Lemma eval_bin n k a b x y v s s1 s2 : n_ty a = Some int_ty -> n_ty b = Some int_ty -> k ∈ [ND_ADD; ND_LT] ->
  eval n b s = Some (Some y, s1) -> eval n a s1 = Some (Some x, s2) -> binary k int_ty int_ty int_ty x y = Some v ->
  eval (S (S n)) (e_bin k a b) s = Some (Some v, s2).
Proof.
  intros Ha Hb Hk Ey Ex Ev. pose proof (eval_cast n b y s s1 Hb Ey) as E1. pose proof (eval_cast n a x s1 s2 Ha Ex) as E2.
  assert (H : eval (S (S n)) (e_bin k a b) s =
    ('(y, s) ← used (e_cast b) (eval (S n) (e_cast b) s) ; '(x, s) ← used (e_cast a) (eval (S n) (e_cast a) s) ;
     v ← binary k int_ty int_ty int_ty x y ; Some (Some v, s))).
  { do 2 (apply elem_of_cons in Hk as [->|Hk]; [reflexivity|]). by apply elem_of_nil in Hk. }
  rewrite H, E1. change (used (e_cast b) (Some (Some y, s1))) with (Some (y, s1)). cbn [mbind option_bind].
  rewrite E2. change (used (e_cast a) (Some (Some x, s2))) with (Some (x, s2)). cbn [mbind option_bind]. by rewrite Ev.
Qed.
Lemma eval_set n v e x s s' : v ∈ [v_n; v_s; v_i] -> n_ty e = Some int_ty -> eval n e s = Some (Some x, s') ->
  eval (S (S n)) (e_set v e) s = Some (Some x, s' <| CSem.rv ::= fun f => upd f v x |>).
Proof.
  intros Hv Ht H. pose proof (eval_cast n e x s s' Ht H) as E. destruct (Hvar v Hv) as [H1 H2].
  assert (Hs : eval (S (S n)) (e_set v e) s =
    match promoted_var vars (e_var v) with
    | Some v => '(x, s) ← used (e_cast e) (eval (S n) (e_cast e) s) ;
                if bool_decide (v ∈ locals) then Some (Some x, s <| CSem.rv ::= fun f => upd f v x |>) else None
    | None => '(a, s) ← eval_addr vars locals rho fp V (Some int_ty) (S n) (e_var v) s ; '(x, s) ← used (e_cast e) (eval (S n) (e_cast e) s) ;
              s ← store_as V int_ty s a x ; Some (Some x, s)
    end) by reflexivity.
  assert (Hp : promoted_var vars (e_var v) = Some v).
  { change (promoted_var vars (e_var v)) with (if is_promoted vars v then Some v else None). by rewrite H1. }
  rewrite Hs, Hp, E. change (used (e_cast e) (Some (Some x, s'))) with (Some (x, s')). cbn [mbind option_bind].
  by rewrite bool_decide_eq_true_2.
Qed.


(** The sum of the numbers below [i]. *)
Definition triangle (i : Z) : Z := i * (i - 1) / 2.
Lemma triangle_next i : triangle (i + 1) = triangle i + i.
Proof. unfold triangle. replace ((i + 1) * (i + 1 - 1)) with (i * (i - 1) + i * 2) by lia. by rewrite Z.div_add by lia. Qed.

Lemma in_n : v_n ∈ [v_n; v_s; v_i]. Proof. lit. Qed.
Lemma in_s : v_s ∈ [v_n; v_s; v_i]. Proof. lit. Qed.
Lemma in_i : v_i ∈ [v_n; v_s; v_i]. Proof. lit. Qed.

Lemma exec_expr m e s : exec (S (S m)) (s_expr e) s = ('(v, s) ← eval (S m) e s ; Some (Normal v, s)).
Proof. reflexivity. Qed.

(** The parts of the loop. *)
Definition set_val (s : cst) (v x : Z) : cst := s <| CSem.rv ::= fun f => upd f v x |>.

Lemma sgn_small x : 0 <= x < 2 ^ 31 -> sgn x = x.
Proof using. intros H. apply i32_id. unfold is_i32. lia. Qed.

Lemma u32_add_l a b : u32 (u32 a + b) = u32 (a + b).
Proof using. unfold u32. by rewrite Z.add_mod_idemp_l. Qed.

Lemma cond_runs m s i n : val s v_i = i -> val s v_n = n -> 0 <= i < 2 ^ 31 -> 0 <= n < 2 ^ 31 ->
  eval (S (S (S m))) (e_bin ND_LT (e_var v_i) (e_var v_n)) s = Some (Some (b2z (i <? n)), s).
Proof.
  intros Ei En Hi Hn. erewrite eval_bin; [reflexivity|done|done|lit|apply eval_var, in_n|apply eval_var, in_i|].
  cbn. rewrite Ei, En. by rewrite !sgn_small.
Qed.

Lemma add_runs m s v w x y : v ∈ [v_n; v_s; v_i] -> n_ty w = Some int_ty -> val s v = x -> eval (S m) w s = Some (Some y, s) ->
  eval (S (S (S (S (S m))))) (e_set v (e_bin ND_ADD (e_var v) w)) s = Some (Some (u32 (x + y)), set_val s v (u32 (x + y))).
Proof.
  intros Hv Hw Ex Ey. erewrite (eval_set (S (S (S m)))); [reflexivity|done|done|].
  erewrite eval_bin; [reflexivity|done|done|lit|exact Ey|by apply eval_var|]. by rewrite Ex.
Qed.

Lemma body_runs m s :
  exec (S (S (S (S (S (S m)))))) (s_expr (e_set v_s (e_bin ND_ADD (e_var v_s) (e_var v_i)))) s =
  Some (Normal (Some (u32 (val s v_s + val s v_i))), set_val s v_s (u32 (val s v_s + val s v_i))).
Proof.
  rewrite exec_expr. rewrite (add_runs m s v_s (e_var v_i) (val s v_s) (val s v_i)); [reflexivity|apply in_s|reflexivity|reflexivity|apply eval_var, in_i].
Qed.

Lemma inc_runs m s :
  eval (S (S (S (S (S m))))) (e_set v_i (e_bin ND_ADD (e_var v_i) (e_num 1))) s =
  Some (Some (u32 (val s v_i + 1)), set_val s v_i (u32 (val s v_i + 1))).
Proof. apply add_runs; [apply in_i|reflexivity|reflexivity|apply eval_literal]. Qed.

(** A round of the loop, and its end. *)
Definition round (s : cst) : cst :=
  let s := set_val s v_s (u32 (val s v_s + val s v_i)) in set_val s v_i (u32 (val s v_i + 1)).

Lemma used_some e x (s : cst) : n_ty e = Some int_ty -> used e (Some (Some x, s)) = Some (x, s).
Proof. intros H. unfold used. by rewrite H. Qed.

Local Abbreviation for_loop := (CSem.for_loop vars locals rho fp V (Some int_ty)).
Lemma for_stop p c m s : n_cond p = Some c -> n_ty c = Some int_ty -> eval m c s = Some (Some 0, s) ->
  for_loop (S m) p s = Some (Normal None, s).
Proof. intros Hc Ht E. rewrite for_loop_S, Hc. cbn [mbind option_bind]. by rewrite E, used_some. Qed.

Lemma for_next p c b i m s v s1 w s2 : n_cond p = Some c -> n_ty c = Some int_ty -> n_then p = Some b -> n_inc p = Some i ->
  eval m c s = Some (Some 1, s) -> exec m b s = Some (Normal v, s1) -> eval m i s1 = Some (w, s2) ->
  for_loop (S m) p s = for_loop m p s2.
Proof.
  intros Hc Ht Hb Hi Ec Eb Ei. rewrite for_loop_S, Hc, Hb, Hi, Ec, used_some by done. cbn [mbind option_bind Z.eqb].
  rewrite Eb. cbn [mbind option_bind]. rewrite Ei. reflexivity.
Qed.

Lemma loop_runs k : forall s n, val s v_n = n -> n < 2 ^ 31 -> 0 <= val s v_i -> n - val s v_i = Z.of_nat k -> val s v_s = u32 (triangle (val s v_i)) ->
  exists s', for_loop (7 + k) sum_for s = Some (Normal None, s') /\ val s' v_s = u32 (triangle n) /\ cm s' = cm s.
Proof.
  induction k as [|k IH]; intros s n En Hb Hi Hk Es.
  - assert (n = val s v_i) as -> by lia. exists s. split; [|done]. cbn [Nat.add].
    apply (for_stop _ (e_bin ND_LT (e_var v_i) (e_var v_n))); [reflexivity|reflexivity|].
    rewrite (cond_runs _ s _ _ eq_refl En) by lia. by rewrite Z.ltb_irrefl.
  - replace (7 + S k)%nat with (S (7 + k)) by lia. cbn [Nat.add] in *.
    erewrite (for_next sum_for (e_bin ND_LT (e_var v_i) (e_var v_n))); [|reflexivity|reflexivity|reflexivity|reflexivity| |apply body_runs|apply inc_runs].
    2:{ rewrite (cond_runs _ s _ _ eq_refl En) by lia. by rewrite (proj2 (Z.ltb_lt _ _)) by lia. }
    change (set_val (set_val s v_s (u32 (val s v_s + val s v_i))) v_i (u32 (val (set_val s v_s (u32 (val s v_s + val s v_i))) v_i + 1))) with (round s).
    assert (Ei : val (round s) v_i = val s v_i + 1) by (apply u32_small; lia).
    assert (Ev : val (round s) v_s = u32 (val s v_s + val s v_i)) by reflexivity.
    destruct (IH (round s) n) as (s' & E & E1 & E2); [exact En|lia|lia|lia| |by exists s']. by rewrite Ev, Ei, Es, triangle_next, u32_add_l.
Qed.

Definition sum_tree : Node := s_block [s_block [nothing; nothing]; s_expr (e_set v_s (e_num 0)); sum_for; s_node ND_RETURN (Some (e_cast (e_var v_s))) []].

Lemma decls_run m s : exec (S (S (S (S (S (S m)))))) (s_block [nothing; nothing]) s = Some (Normal None, s).
Proof. reflexivity. Qed.
Lemma zero_runs m s v : v ∈ [v_n; v_s; v_i] -> exec (S (S (S (S m)))) (s_expr (e_set v (e_num 0))) s = Some (Normal (Some 0), set_val s v 0).
Proof.
  intros Hv. rewrite exec_expr. rewrite (eval_set (S m) v (e_num 0) 0 s s Hv eq_refl); [reflexivity|]. apply eval_literal.
Qed.

Lemma for_runs s n : 0 <= n < 2 ^ 31 -> val s v_n = n -> val s v_s = 0 ->
  exists s', exec (8 + Z.to_nat n) sum_for s = Some (Normal None, s') /\ val s' v_s = u32 (triangle n) /\ cm s' = cm s.
Proof.
  intros Hn En Es. destruct (loop_runs (Z.to_nat n) (set_val s v_i 0) n) as (s' & E & Ev); [exact En|lia|done|change (val (set_val s v_i 0) v_i) with 0; lia|exact Es|].
  exists s'. split; [|exact Ev]. rewrite <- E. cbn [Nat.add].
  assert (Hs : forall m, exec (S m) sum_for s = ('(f, s) ← exec m (s_expr (e_set v_i (e_num 0))) s ;
    match f with Normal _ => for_loop m sum_for s | f => Some (f, s) end)) by reflexivity.
  rewrite Hs. rewrite zero_runs by apply in_i. reflexivity.
Qed.

Lemma block_S m body s : exec (S m) (s_block body) s = exec_block vars locals rho fp V (Some int_ty) m body body s.
Proof. reflexivity. Qed.
Lemma return_runs m s : exec (S (S (S m))) (s_node ND_RETURN (Some (e_cast (e_var v_s))) []) s = Some (Returned (Some (val s v_s)), s).
Proof.
  assert (Hs : forall m e, exec (S m) (s_node ND_RETURN (Some e) []) s =
    ('(x, s) ← used e (eval m e s) ; Some (Returned (Some x), s))) by reflexivity.
  rewrite Hs. rewrite (eval_cast (S m) (e_var v_s) (val s v_s) s s eq_refl); [|apply eval_var, in_s]. by rewrite used_some.
Qed.

Lemma list_step m p q ps s v s1 : exec m p s = Some (Normal v, s1) ->
  exec_list vars locals rho fp V (Some int_ty) (S m) (p :: q :: ps) s = exec_list vars locals rho fp V (Some int_ty) m (q :: ps) s1.
Proof. intros E. by rewrite exec_list_S, E. Qed.

Lemma sum_runs s n : 0 <= n < 2 ^ 31 -> val s v_n = n ->
  exists s', exec (13 + Z.to_nat n) sum_tree s = Some (Returned (Some (u32 (triangle n))), s') /\ cm s' = cm s.
Proof.
  intros Hn En. destruct (for_runs (set_val s v_s 0) n) as (s' & E & Ev & Em); [done|exact En|reflexivity|].
  exists s'. split; [|exact Em]. unfold sum_tree. cbn [Nat.add] in *. rewrite block_S, exec_block_S.
  rewrite (list_step _ _ _ _ s None s) by apply decls_run.
  rewrite (list_step _ _ _ _ s _ _ (zero_runs _ s v_s in_s)).
  rewrite (list_step _ _ _ _ _ _ _ E). rewrite exec_list_S, return_runs, Ev. reflexivity.
Qed.
End sum.

(** ** The executable *)

Definition sum_lines : list line := Eval vm_compute in match compile (fun _ _ => 0) (str "a.c") with inl code => code | inr _ => [] end.
Definition sum_images : list AsmImage := [CompilerSpec.Demo.image (text_of sum_lines); CompilerSpec.Demo.image CompilerSpec.Demo.start].
Definition sum_exe : list Z := Eval vm_compute in match link_images sum_images with Ok bs => bs | Err _ => [] end.
Definition sum_at : placed := Eval vm_compute in nth 0 (places sum_images) (Build_placed empty_image 0 0 0).
Definition sum_text : Z := Eval vm_compute in text_size (pl_image sum_at).
Definition sum_csp : Z := Eval vm_compute in exe_rho sum_images sum_at (str "__csp").
Definition sum_entry : Z := Eval vm_compute in exe_rho sum_images sum_at (str "sum").

Definition sum_before : cg :=
  match (each_g (if_function assign_lvar_offsets) sum_program.1 ;; each_g emit_global sum_program.1 ;; wr_line (str ".text")) (cg_init sum_store) with
  | Done _ g _ => g | Halt _ => cg_init sum_store end.
Definition sum_during : cg := match fn_setup fn_sum sum_before with Done _ g _ => g | Halt _ => sum_before end.
Definition sum_obj : Obj := objs sum_before fn_sum.
Definition sum_code : list line := match gen_function (fun _ _ => 0) fn_sum sum_before with Done _ _ c => c | Halt _ => [] end.

(** What the compiler makes of the text: the lines of assembly. *)
Lemma sum_compiled : compile (fun _ _ => 0) (str "a.c") = inl sum_lines.
Proof. vm_compute. reflexivity. Qed.

Lemma sum_linked : link_images sum_images = Ok sum_exe.
Proof. vm_compute. reflexivity. Qed.

Lemma sum_reg v : v ∈ [249; 245; 230; 227] ->
  o_reg (objs sum_during v) = (if v =? 249 then 2 else if v =? 245 then 3 else if v =? 227 then 4 else 0) /\
  o_offset (objs sum_during v) = (if v =? 249 then 0 else if v =? 245 then 4 else if v =? 227 then -4 else 8) /\
  is_promoted (objs sum_during) v = negb (v =? 230).
Proof. intros Hv. do 4 (apply elem_of_cons in Hv as [->|Hv]; [vm_compute; by split_and!|]). by apply elem_of_nil in Hv. Qed.

Lemma sum_reg_pool v : v ∈ [249; 245; 230; 227] -> is_promoted (objs sum_during) v = true -> o_reg (objs sum_during v) ∈ [2; 3; 4].
Proof.
  intros Hv. destruct (sum_reg v Hv) as (-> & _ & ->).
  do 4 (apply elem_of_cons in Hv as [->|Hv]; [first [done | intros _; lit]|]). by apply elem_of_nil in Hv.
Qed.
Lemma sum_reg_inj v w : v ∈ [249; 245; 230; 227] -> w ∈ [249; 245; 230; 227] -> is_promoted (objs sum_during) v = true ->
  o_reg (objs sum_during v) = o_reg (objs sum_during w) -> v = w.
Proof.
  intros Hv Hw. destruct (sum_reg v Hv) as (-> & _ & ->), (sum_reg w Hw) as (-> & _ & _).
  do 4 (apply elem_of_cons in Hv as [->|Hv]; [do 4 (apply elem_of_cons in Hw as [->|Hw]; [done|]); by apply elem_of_nil in Hw|]).
  by apply elem_of_nil in Hv.
Qed.

Lemma sum_images_ok : Forall image_ok sum_images.
Proof.
  assert (H : forall s, text_okb s = true -> assemble_source empty_image s = Ok (CompilerSpec.Demo.image s) -> image_ok (CompilerSpec.Demo.image s)).
  { intros s H1 H2. by apply (assemble_ok s); [apply text_okb_ok|]. }
  apply List.Forall_cons; [|apply List.Forall_cons; [|apply List.Forall_nil]]; apply H; vm_compute; reflexivity.
Qed.

Lemma sum_globals : exists globals, collect_globals (places sum_images) [] = Ok globals.
Proof. vm_compute. eexists. reflexivity. Qed.

(** The lines before the function's and after them. *)
Definition sum_pre : list line := Eval vm_compute in take (Z.to_nat (or_neg1 (find_from (fun k => bool_decide (nth (Z.to_nat k) sum_lines [] = str ".text")) 0 40)) + 1) sum_lines.
Definition sum_post : list line := drop (length sum_pre + length sum_code) sum_lines.
Definition pre_image : AsmImage := CompilerSpec.Demo.image (text_of sum_pre).

Lemma sum_split : sum_lines = sum_pre ++ sum_code ++ sum_post.
Proof. vm_compute. reflexivity. Qed.

(** Where a caller of [sum] may have its stack, [lo] to [hi], and its frame [fp]. *)
Record sum_room (lo hi fp : Z) : Prop := {
  rm_stack : sum_csp + 4 <= lo /\ hi <= 2 ^ 27;
  rm_frame : sum_csp + 8 <= fp /\ fp + 16 <= 2 ^ 27;
  rm_apart : hi <= fp - 4 \/ fp + 16 <= lo;
}.

Section executable.
#[local] Set Default Proof Using "Type*".
Context (lo hi frame : Z) (Hroom : sum_room lo hi frame).

#[local, refine] Instance sum_layout : Layout := {
  size := 2 ^ 27; rho := exe_rho sum_images sum_at; rom := exe_rom sum_exe;
  cs := CFG_USER_LOAD_BASE; ce := CFG_USER_LOAD_BASE + sum_text; slo := lo; shi := hi;
  V := fun a => (frame - 4 <=? a) && (a <? frame + 16);
  vars := objs sum_during; locals := [249; 245; 230; 227]; fp := frame; fn := fn_sum; ret_label := str ".L.cg.0"; tr := fun _ _ => 0;
}.
Proof using lo hi frame Hroom.
  all: destruct Hroom as [[S1 S2] [F1 F2] A]; unfold sum_csp, CFG_USER_LOAD_BASE, sum_text in *; try lia.
  - intros v Hv Hp. by apply sum_reg_pool.
  - intros v w Hv Hw Hp E. by apply sum_reg_inj.
  - intros v Hv. destruct (sum_reg v Hv) as (_ & -> & _). unfold is_i32. repeat case_match; lia.
  - reflexivity.
Defined.

Lemma sum_built : CompilerSpec.built sum_before sum_obj sum_code sum_images sum_exe sum_at.
Proof.
  split.
  - exists sum_during. split; [vm_compute; reflexivity|]. cbv beta iota zeta delta [in_ctx vars fn ret_label sum_layout]. split; [reflexivity|]. split; vm_compute; reflexivity.
  - eexists. vm_compute. reflexivity.
  - apply code_lines_ok. vm_compute. reflexivity.
  - exists sum_pre, sum_post, pre_image. split; [vm_compute; reflexivity|]. split; [vm_compute; reflexivity|]. split.
    + apply (assemble_ok (text_of sum_pre)); [apply text_okb_ok|]; vm_compute; reflexivity.
    + split; [apply one_lines; vm_compute; reflexivity|vm_compute; reflexivity].
  - split; [apply sum_images_ok|]. split; [|vm_compute; reflexivity].
    do 2 (apply List.Forall_cons; [vm_compute; discriminate|]). apply List.Forall_nil.
  - exact sum_linked.
  - apply list_elem_of_lookup. exists 0%nat. vm_compute. reflexivity.
  - intros k _. apply exe_rom_file.
  - intros name a Ha. destruct sum_globals as [gs Eg]. by apply (exe_rho_resolves _ _ gs).
  - vm_compute. split; discriminate.
Qed.

Lemma sum_params : o_params sum_obj = [227].
Proof using. vm_compute. reflexivity. Qed.
Lemma sum_csp_at : u32 (exe_rho sum_images sum_at (str "__csp")) = sum_csp.
Proof using. vm_compute. reflexivity. Qed.
Lemma frame_range : 0 <= frame < 2 ^ 32.
Proof. destruct Hroom as [_ [F1 F2] _]. unfold sum_csp in F1. lia. Qed.
Lemma sum_slot : u32 (frame + o_offset (objs sum_during 227)) = frame - 4.
Proof.
  destruct (sum_reg 227 ltac:(lit)) as (_ & -> & _). change (frame + -4) with (frame - 4). destruct Hroom as [_ [F1 F2] _].
  unfold sum_csp in F1. apply u32_small. lia.
Qed.

Lemma sum_fits : frame_fits sum_obj.
Proof.
  destruct Hroom as [[S1 S2] [F1 F2] A]. split.
  - vm_compute. split; [discriminate|reflexivity].
  - rewrite sum_params. split; [apply NoDup_singleton|]. intros v Hv%list_elem_of_singleton. subst. cbn [CodegenRun.locals sum_layout]. lit.
  - intros v Hv _. rewrite sum_params in Hv. apply list_elem_of_singleton in Hv as ->. intros i Hi.
    change (vars 227) with (objs sum_during 227). change fp with frame. rewrite sum_slot. cbn [V sum_layout]. lia.
  - change (u32 (rho (str "__csp"))) with (u32 (exe_rho sum_images sum_at (str "__csp"))). rewrite sum_csp_at.
    cbn [size cs ce slo shi sum_layout]. unfold sum_csp, sum_text, CFG_USER_LOAD_BASE in *. lia.
  - intros a. change (u32 (rho (str "__csp"))) with (u32 (exe_rho sum_images sum_at (str "__csp"))). rewrite sum_csp_at.
    intros Ha. cbn [V sum_layout]. unfold sum_csp in *. lia.
Qed.

Lemma sum_var v : v ∈ [v_n; v_s; v_i] -> is_promoted CodegenRun.vars v = true /\ v ∈ CodegenRun.locals.
Proof.
  intros Hv. change CodegenRun.vars with (objs sum_during). cbn [locals sum_layout].
  do 3 (apply elem_of_cons in Hv as [->|Hv]; [split; [by vm_compute|lit]|]). by apply elem_of_nil in Hv.
Qed.
End executable.

(** A machine that calls [sum] with the argument [n]: the text of the executable is in
    memory and the program counter at the function; [__csp] holds the frame, with [n] below
    it, and the return address [ra] is on the stack, with room for ten words more. *)
Record calls_sum (lo hi frame n ra : Z) (m : cpu) : Prop := {
  cl_room : sum_room lo hi frame;
  cl_text : forall a, CFG_USER_LOAD_BASE <= a < CFG_USER_LOAD_BASE + sum_text -> mem m a = exe_rom sum_exe a;
  cl_pc : pc m = sum_entry;
  cl_frame : rd32 (2 ^ 27) m sum_csp = Some frame;
  cl_argument : rd32 (2 ^ 27) m (frame - 4) = Some n;
  cl_return : rd32 (2 ^ 27) m (sp m) = Some ra;
  cl_stack : lo + 40 <= sp m /\ sp m + 4 <= hi;
  cl_words : words m;
  cl_bytes : forall a, is_byte (mem m a);
}.

(** What the caller finds: the result in R0, the stack and the frame register as they were
    and no byte changed outside the stack below its top; [__csp] holds the frame again. *)
Record sum_returned (lo frame n ra : Z) (m m' : cpu) : Prop := {
  sr_pc : pc m' = ra;
  sr_result : regs m' 0 = u32 (n * (n - 1) / 2);
  sr_sp : sp m' = sp m + 4;
  sr_fp : regs m' 6 = regs m 6;
  sr_csp : rd32 (2 ^ 27) m' sum_csp = Some frame;
  sr_memory : forall a, ~ lo <= a < sp m -> ~ sum_csp <= a < sum_csp + 4 -> mem m' a = mem m a;
}.

Lemma sum_obj_body : o_body sum_obj = Some sum_tree.
Proof. vm_compute. reflexivity. Qed.
Lemma sum_obj_return : ty_return (o_ty (objs sum_during fn_sum)) = Some int_ty.
Proof. vm_compute. reflexivity. Qed.
Lemma sum_obj_entry : exe_rho sum_images sum_at (o_name sum_obj) = sum_entry.
Proof. vm_compute. reflexivity. Qed.
Lemma sum_rho_csp lo hi frame Hr : u32 (@CodegenRun.rho (sum_layout lo hi frame Hr) (str "__csp")) = sum_csp.
Proof. exact sum_csp_at. Qed.

(** From the text to the processor, for every argument: [compile] makes lines of the text,
    assembler and linker an executable of them, and a call of the function in it comes back
    with the sum of the numbers below [n]. *)
Theorem sum_correct lo hi frame n ra m : 0 <= n < 2 ^ 31 -> calls_sum lo hi frame n ra m ->
  exists lines images, compile (fun _ _ => 0) (str "a.c") = inl lines /\
    images = [CompilerSpec.Demo.image (text_of lines); CompilerSpec.Demo.image CompilerSpec.Demo.start] /\
    link_images images = Ok sum_exe /\ runs (2 ^ 27) m (sum_returned lo frame n ra m).
Proof.
  intros Hn [Hr Ht Hpc Hf Ha Hra Hs Hw Hb]. exists sum_lines, sum_images. split; [exact sum_compiled|]. split; [reflexivity|]. split; [exact sum_linked|].
  set (L := sum_layout lo hi frame Hr). set (s0 := @entry_state L (o_params sum_obj) m).
  assert (Hlocal : forall v, v ∈ [v_n; v_s; v_i] -> is_promoted (@CodegenRun.vars L) v = true /\ v ∈ @CodegenRun.locals L) by exact (sum_var lo hi frame Hr).
  assert (H0 : CSem.rv s0 v_n = n).
  { unfold s0, entry_state. rewrite sum_params. cbn [CSem.rv]. rewrite bool_decide_eq_true_2 by lit. unfold param_word, v_n.
    change (@fp L + o_offset (@CodegenRun.vars L 227)) with (frame + o_offset (objs sum_during 227)). rewrite (sum_slot lo hi frame Hr).
    unfold rd32 in Ha. destruct (xlate _ _ _); [|done]. by injection Ha. }
  destruct (sum_runs _ _ (@CodegenRun.rho L) frame (@CodegenRun.V L) Hlocal s0 n Hn H0) as (s' & E & Em).
  pose proof (@call_run L sum_before sum_obj sum_code sum_images sum_exe sum_at sum_tree (13 + Z.to_nat n) (Returned (Some (u32 (triangle n)))) s' ra m) as H.
  eapply runs_mono; [apply H|].
  - apply sum_built.
  - apply sum_fits.
  - exact sum_obj_body.
  - etrans; [exact Hpc|]. symmetry. exact sum_obj_entry.
  - exact Ht.
  - split; [|exact Hra|exact Hw|exact Hb|].
    + change (u32 (@CodegenRun.rho L (str "__csp"))) with (u32 (exe_rho sum_images sum_at (str "__csp"))). rewrite sum_csp_at. exact Hf.
    + change (lo + 4 <= sp m /\ sp m + 4 <= hi). lia.
  - change (lo + 4 + 4 * Z.of_nat (height sum_tree) <= sp m). change (height sum_tree) with 8%nat. lia.
  - change (ty_return (o_ty (@CodegenRun.vars L (@fn L)))) with (ty_return (o_ty (objs sum_during fn_sum))). rewrite sum_obj_return. exact E.
  - discriminate.
  - intros m' [R1 R2 R3 R4 R5 R6 R7]. pose proof (sum_rho_csp lo hi frame Hr) as Hc. fold L in Hc.
    split; [exact R1|exact (R7 _ eq_refl)|exact R2|exact R3| |].
    + rewrite Hc in R4. exact R4.
    + intros a H1 H2. destruct (@CodegenRun.V L a) eqn:Ev.
      * rewrite (R5 a Ev). rewrite Em. reflexivity.
      * apply R6; [exact Ev|exact H1|]. rewrite Hc. exact H2.
Qed.

(** Such a machine: a million. *)
Definition sum_frame : Z := CFG_USER_LOAD_BASE + 8192.
Definition sum_stack : Z := CFG_USER_LOAD_BASE + 16384.
Definition sum_memory : Z -> Z :=
  blit (blit (blit (exe_rom sum_exe) sum_csp (le_bytes32 sum_frame)) (sum_stack + 2048) (le_bytes32 64)) (sum_frame - 4) (le_bytes32 1000000).
Definition sum_machine : cpu := Build_cpu (fun _ => 0) sum_entry (sum_stack + 2048) 0 sum_memory.

Lemma sum_machine_calls : calls_sum sum_stack (sum_stack + 4096) sum_frame 1000000 64 sum_machine.
Proof.
  split.
  - split; unfold sum_csp, sum_frame, sum_stack, CFG_USER_LOAD_BASE; lia.
  - intros a Ha. cbn [mem sum_machine]. unfold sum_memory.
    rewrite !blit_out; [done|..]; rewrite le_bytes32_length; unfold sum_csp, sum_text, sum_frame, sum_stack, CFG_USER_LOAD_BASE in *; lia.
  - reflexivity.
  - vm_compute. reflexivity.
  - vm_compute. reflexivity.
  - vm_compute. reflexivity.
  - cbn [sp sum_machine]. unfold sum_stack. lia.
  - intros r. vm_compute. split; [discriminate|reflexivity].
  - intros a. cbn [mem sum_machine]. unfold sum_memory. repeat (apply blit_bytes; [clear a; intros a|apply le_bytes32_bytes]).
    unfold exe_rom. apply CompilerSpec.Demo.nthz_bytes. apply Forall_forall. intros b Hb%list_elem_of_In.
    assert (Hall : forallb (fun b => (0 <=? b) && (b <? 256)) sum_exe = true) by (vm_compute; reflexivity).
    rewrite forallb_forall in Hall. specialize (Hall b Hb). bool_hyps. unfold is_byte. lia.
Qed.

(** The millionth triangle, mod 2^32, after some ten million steps that nobody takes here. *)
Example sum_million : runs (2 ^ 27) sum_machine (fun m' => pc m' = 64 /\ regs m' 0 = 1783293664).
Proof.
  destruct (sum_correct sum_stack (sum_stack + 4096) sum_frame 1000000 64 sum_machine ltac:(lia) sum_machine_calls) as (ls0 & is0 & _ & _ & _ & H).
  eapply runs_mono; [exact H|]. intros m' R. split; [apply R|]. rewrite (sr_result _ _ _ _ _ _ R). vm_compute. reflexivity.
Qed.
End Sum.
